(* ===== verification/_CoqProject ===== *)
-Q . S2P
Prelude.v
GoStrings.v
Models.v
Schema.v
WriteOps.v
WriteBehind.v
StoreBase.v
MemDeployments.v
MemUsers.v
MemProjects.v
MemAgents.v
MemOps.v
MemMisc.v
MemCleanup.v
CmdValidator.v
Deploy.v
AgentRunner.v
Threads.v
Orchestrator.v
GoTime.v
Scheduler.v
GoSort.v
TimeText.v
RecipeModels.v
MemRecipes.v
Semver.v
ServiceBase.v
RecipeServices.v
Activations.v
Resolver.v
RateLimiter.v
SafePath.v
Pagination.v
Access.v
SecurityModels.v
MemSecurity.v
Crypto.v
KeyManagement.v
Webhooks.v
Regex.v
Formats.v
Certificates.v
ServiceErrors.v
Services.v
Secrets.v
AgentServer.v
AgentConn.v
AgentStore.v
AgentDaemon.v
AgentCommands.v
Loader.v
Totp.v
Auth.v
