(* ===== verification/Prelude.v ===== *)
(** * Verification of vcdeploy

    vcdeploy is a deployment server: a master process keeps projects, users, agents
    and deployments in a store, sends deployments to agents, and agents run them on
    their hosts.  This library models the parts of it that carry its own logic and
    proves what makes them correct, or where they are not, how they fail.  Paths below
    are relative to [src/internal].

    ** The program and where it is modelled

    The store.  [storage/memory.go] is the store the master works with: maps behind one
    mutex, whose methods queue write operations on seven channels; a worker per
    channel collects batches and writes each in one transaction
    ([storage/writeop.go]), with an executor per table
    ([storage/memory_writeops.go]).
    - [Models], [RecipeModels] and [SecurityModels] have the record types
      ([storage/models.go], [recipe_component.go], [playbook.go], [models_security.go])
      and [Schema] the tables, columns and unique keys the migrations leave
      ([storage/migrations.go]).
    - [WriteOps] is the write operation with its payload, and [executeWriteOp]: for
      every table and operation type, which payload shape is taken and which statement
      is executed, checked against [Schema].  Payloads that are pointers are read when
      the batch is flushed, through a heap given by the environment of the flush.
    - [WriteBehind] is the queues and workers as a transition system ([step]) over all
      interleavings of store calls, receptions, ticks, flushes and shutdown.  The
      database driver is the class [Database]; what can fail in a transaction is an
      argument of the flush.  Ghost fields record what was sent and flushed.
    - [StoreBase] is the shape of a store method: the new state, the queued writes and
      the result.  [MemDeployments], [MemUsers], [MemProjects], [MemAgents], [MemOps],
      [MemMisc], [MemCleanup], [MemRecipes] and [MemSecurity] model the methods of
      [storage/memory_*.go], one definition per method.  Each method runs under the
      mutex, so it is a function of the state.  Records that two maps share (API keys,
      projects) are locations of a heap.
    - [Loader] fills the store from the databases ([storage/memory_loader.go] with the
      list queries of [storage/db_*.go]): [Loader.Queries] are the queries as functions
      of rows, [Loader.Loader] the loaders in their order, [NewCachedStore] and [Reload].

    The services.  [ServiceBase] is the state and error monad of methods over the store
    and [ServiceErrors] the errors of [services/errors.go] with their monad.
    - [Services] has users, sessions, API keys, projects, agents, deployments, audit,
      rate limits, host keys and provisioning ([services/*/service.go]), a Module each.
    - [Secrets] has secrets and settings over the key service.
    - [Semver], [RecipeServices], [Activations] and [Resolver] are
      [services/recipes/*.go]: versions and their sort, components and playbooks,
      activation, approval and dependencies, the resolution into deployment steps.
    - [Pagination] ([services/types.go], [server/pagination.go]), [Formats] with
      [Regex] (the validators of [validation/], [services/] and [security/]).

    Security.  [Crypto] ([security/crypto.go]), [KeyManagement] ([security/kms.go]: keys
    as shared objects, the store and the cache), [Certificates] ([security/ca.go]),
    [SafePath] ([security/safepath.go], [safeops.go]), [CmdValidator]
    ([security/cmdvalidator.go]), [Totp] ([security/totp.go], [recovery.go]).

    The server.
    - [Access]: sessions, API keys, roles, scopes, the middlewares, maintenance and setup
      ([server/enforcement.go], [auth_helpers.go], [maintenance.go], [master.go]).
    - [Auth]: setup, login, logout, passwords, the users' API and the second factor
      ([server/handlers_auth.go], [api_handlers.go], [api_handlers_totp.go],
      [handlers_admin_totp.go], [handlers_profile.go]); a handler is a program over the
      users, the security part and the audit log, and its result is the answer.
    - [RateLimiter] ([server/ratelimit.go]), [Webhooks] ([webhooks/], and its secrets).
    - [AgentServer] ([server/grpc_agent.go], [grpc_reauth.go], call by call) and
      [AgentConn] (the streams of the agents as a transition system of handlers and
      senders over the shared tables).

    Deployments.  The orchestrator of the master tracks deployments; the agent runs the
    symlink strategy over a runner that validates each command.
    - [Threads] is the semantics of concurrent calls: programs of atomic actions, run
      alone ([exec], [runs]) or interleaved ([interleave], [play]).
    - [Orchestrator] is [deploy/orchestrator.go], each lock-protected stretch an
      action.
    - [Deploy] is [SymlinkStrategy] of [deploy/executor.go] over the class
      [CommandRunner]; a run leaves the trace of its commands.  [AgentRunner] is the
      local runner of [agent/runner.go] over the class [Host], an instance of it.

    The agent.  [AgentStore] is its encrypted store with the machine key and the trusted
    authorities ([agent/storage.go], [machine_key.go], [ca_sync.go]); [AgentDaemon] its
    life (registration, certificates, reconnection) and [AgentCommands] what it does on
    command (both [agent/agent.go]).

    Scheduling.  [Scheduler] is [scheduler/scheduler.go]: schedules, the parser of cron
    expressions, the tick that runs due jobs, start and stop.

    What the code uses of Go and its standard library is in this file (errors,
    64-bit integers, times, slices, pagination, the exchange sort of the listings, map
    iteration), in [GoStrings] ([strings], [strconv], [fmt], base64), [GoTime]
    (calendar, durations), [TimeText] (layouts of times) and [GoSort] ([sort.Slice]).

    ** What is proved

    - Persistence: writes reach their flush in order, once and within bounded queues,
      batches are atomic, closing drains ([WriteBehind.write_behind_fifo],
      [flush_atomic], [close_drains]); a refused operation drops its batch, and the
      configuration of [NewCachedStore] persists one channel of seven and can block for
      good.  A store that was written out whole is filled again with its records, field
      by field ([Loader.restart_restores]); what the queries or the executors leave out is lost
      ([restart_locks_agents_out], [restart_loses_keys], [restart_changes]).
    - The maps of the store: an invariant per component, kept by every sequence of
      calls; cascades; refinement of the agent assignments to a finite map; lists and
      pages; secrets, counters, update windows; what the cleanups remove in memory.
    - The writes the methods queue against the executors and the schema: which can be
      carried out and which never can ([project_writes], [logout_discards_batch],
      [cleanup_deletes_no_row], ...).
    - Keys and certificates: what was sealed stays readable through rotations and the
      deletion of other keys as long as its key is kept; issued certificates are
      trusted as long as the process runs; secrets refine a finite map; the agent's store
      does, too.
    - Access: what a handler behind each check may assume, and that accounts that are
      gone open nothing.  Login over the API succeeds exactly with the password and the
      second factor ([Auth.api_login_exact]), a recovery code works once
      ([login_code_once]), one-time codes are those of three periods
      ([Totp.totp_window]); a password set with PUT is undone ([put_password_undone]) and
      the routes of the second factor refuse everybody ([second_factor_routes_refuse]).
    - Requests: rate limits bound what passes, up to a full bucket that the cleanup gives
      away each hour ([RateLimiter.rate_bound]); webhooks need their signature;
      paths stay inside their base; what is shown for a page
      ([Pagination.requested_page_described]).
    - Recipes: activation checks and creates its bindings; the versions are sorted as a
      stable insertion sort would.
    - The orchestrator: an invariant of every interleaving, exactness of the status
      notifications for calls that do not overlap, and the races of those that do.
    - The strategy: stages run in order, the release is switched only after all hooks
      succeeded, which release a rollback takes; exit codes are ignored elsewhere.
    - The agents: a stream alone is served until its transport ends, a replaced connection
      is lost, only late sends panic; a registration token is used up by the first request
      that is admitted with it, whatever becomes of it; registration, re-authentication and
      the reports of deployments work end to end across [AgentDaemon] and [AgentServer].
    - The validator lets only single simple commands through, and for that reason the
      agent can neither deploy nor roll back ([AgentRunner.agent_never_deploys]).
    - The scheduler: next run times are the first match, parsing and printing are
      inverse, a tick runs exactly the due jobs, and leap days are skipped.

    ** Conventions, bounds, assumptions

    A method reads the clock once unless its file says otherwise, and new identifiers
    ([xid]) are arguments; where two records must not share an identifier the theorem
    says so.  A nil slice or map is the empty one.  Iterating a Go map visits the entries
    in an order given by the class [MapRange], about which only that it visits each entry
    once is known; the theorems hold for every instance.  A negative offset makes a slice
    panic, and that is a result of its own.  Strings are bytes, and the functions that
    depend on characters ([TrimSpace], [ToLower], quoting) treat them as ASCII.  The
    location of the scheduler is a fixed offset from UTC; daylight saving is not
    modelled.  The fractions of durations and the tokens of the rate limiter are exact
    where Go rounds.

    Libraries outside the repository are parameters with the laws their documentation
    states, each with an instance to run the definitions with: the database driver
    ([Database]), ciphers ([AEAD]), certificates ([X509]), bcrypt ([Bcrypt]), HMAC
    ([Hmac]), JSON ([KeyCodec] and arguments), versions ([SemverLib]), addresses
    ([Parsers]), PEM and key pairs.

    Recursion on fuel: [strip_env] (the length of the command, [strip_env_done]),
    [count_loop] (64 turns for ranges below 60, [count_loop_done]), [duration_parts]
    (the length of the text, [duration_parts_done]), [drop_dotdot] (the length of the
    path, [drop_dotdot_done]), [split_blocks] (one more than the length of the data,
    [split_blocks_enough]), [search] (the bound the source has).  Everything else is structural.

    ** Not modelled

    The statements of the SQL store other than the list queries of [Loader], backup and
    restore (archives and SQL files), the scheduled jobs (wrappers around cleanups), SSH
    and provisioning (remote hosts), configuration files (a YAML library), the handlers of
    the resources that only pass requests to the services, the pages and their templates,
    the event stream, notifications, metrics, the command line programs and generated
    code: input and output, or the behaviour of libraries the sources only call.

    This file itself holds the definitions and lemmas the others share. *)

From stdpp Require Export base gmap list strings fin_maps sorting.
From Stdlib Require Export ZArith Lia.
From Stdlib Require Ascii.

#[global] Open Scope Z_scope.
#[global] Set Default Proof Using "Type".

(** * Results of Go calls *)

(** An [error] value.  The sentinels of package storage
    ([errors.go], [memory_users.go], [memory_cleanup.go]) are constructors of
    their own, since callers compare against them; every other error is the
    text [fmt.Errorf] built. *)
Inductive gerror :=
| ErrNotFound
| ErrDuplicate
| ErrValidation
| ErrInvalidInput
| ErrNotImplemented
| Errorf (msg : string).

#[global] Instance gerror_eq_dec : EqDecision gerror.
Proof. solve_decision. Defined.

(** What a call leaves behind: a value, an error, or a run-time panic (slice
    bounds, nil dereference). *)
Inductive result (A : Type) :=
| Ok (a : A)
| Err (e : gerror)
| Panic.
Arguments Ok {A} a.
Arguments Err {A} e.
Arguments Panic {A}.

Definition rbind {A B} (r : result A) (k : A → result B) : result B :=
  match r with Ok a => k a | Err e => Err e | Panic => Panic end.

Declare Scope go_scope.
Delimit Scope go_scope with go.
Notation "x <-! r ;; k" := (rbind r (fun x => k))
  (at level 60, r at next level, right associativity) : go_scope.

Definition no_panic {A} (r : result A) : Prop :=
  match r with Panic => False | _ => True end.

(** * Machine integers and times *)

(** [int] and [int64] are 64 bits wide and wrap around. *)
Definition int64_min : Z := - 2 ^ 63.
Definition int64_max : Z := 2 ^ 63 - 1.
Definition wrap64 (z : Z) : Z := (z + 2 ^ 63) mod 2 ^ 64 - 2 ^ 63.
Definition in_int64 (z : Z) : Prop := int64_min ≤ z ≤ int64_max.

Lemma wrap64_id z : in_int64 z → wrap64 z = z.
Proof.
  unfold in_int64, int64_min, int64_max, wrap64. intros H.
  rewrite Z.mod_small; lia.
Qed.

Lemma wrap64_range z : in_int64 (wrap64 z).
Proof.
  unfold in_int64, int64_min, int64_max, wrap64.
  pose proof (Z.mod_pos_bound (z + 2 ^ 63) (2 ^ 64) ltac:(lia)). lia.
Qed.

(** A [time.Time] is the number of nanoseconds since Go's zero time
    (1 January of year 1, UTC), so [IsZero] tests for 0. *)
Abbreviation time := Z.
Definition IsZero (t : time) : bool := t =? 0.
Definition After (t u : time) : bool := u <? t.
Definition Before (t u : time) : bool := t <? u.
Definition Equal (t u : time) : bool := t =? u.

(** [len] of a slice or of a map, as an [int]. *)
Definition len {A} (l : list A) : Z := Z.of_nat (length l).
Definition map_len {A} (m : gmap string A) : Z := Z.of_nat (size m).

(** * Slices *)

(** [l[lo:hi]], for [hi] at most the length: out of range panics. *)
Definition slice {A} (l : list A) (lo hi : Z) : result (list A) :=
  if (0 <=? lo) && (lo <=? hi) && (hi <=? len l)
  then Ok (take (Z.to_nat (hi - lo)) (drop (Z.to_nat lo) l))
  else Panic.

(** The pagination every [List*] method of the store ends with:
    [if offset >= len(all) {return []}; end := offset + limit;
     if end > len(all) {end = len(all)}; return all[offset:end]]. *)
Definition paginate {A} (all : list A) (limit offset : Z) : result (list A) :=
  if len all <=? offset then Ok []
  else
    let e := wrap64 (offset + limit) in
    let e := if len all <? e then len all else e in
    slice all offset e.

(** The other form: [if offset >= len(all) {return []}; all = all[offset:];
    if limit > 0 && limit < len(all) {all = all[:limit]}; return all], where a
    limit that is not positive means no limit. *)
Definition limit_to {A} (all : list A) (limit : Z) : list A :=
  if (0 <? limit) && (limit <? len all) then take (Z.to_nat limit) all else all.

Definition page {A} (all : list A) (limit offset : Z) : result (list A) :=
  if len all <=? offset then Ok []
  else match slice all offset (len all) with
       | Ok rest => Ok (limit_to rest limit)
       | r => r
       end.

(** The exchange sort written out in the [List*] methods: for each position
    [i], every later element that must come [before] the one at [i] is swapped
    with it.  [exchange_pass x rest] is the inner loop, [x] the element at [i]
    and [rest] those at [i+1..]. *)
Fixpoint exchange_pass {A} (before : A → A → bool) (x : A) (rest : list A) : A * list A :=
  match rest with
  | [] => (x, [])
  | y :: r =>
      if before y x
      then let '(m, r') := exchange_pass before y r in (m, x :: r')
      else let '(m, r') := exchange_pass before x r in (m, y :: r')
  end.

Fixpoint exchange_sort_n {A} (n : nat) (before : A → A → bool) (l : list A) : list A :=
  match n, l with
  | S n', x :: rest =>
      let '(m, rest') := exchange_pass before x rest in
      m :: exchange_sort_n n' before rest'
  | _, _ => l
  end.

Definition exchange_sort {A} (before : A → A → bool) (l : list A) : list A :=
  exchange_sort_n (length l) before l.

(** * Ranging over a map *)

(** Go visits the entries of a map in an unspecified order that may change
    from one loop to the next.  A loop takes its order as an argument: all that
    is known of it is that every entry is visited exactly once. *)
Class MapRange := {
  range : ∀ {A}, gmap string A → list (string * A);
  range_perm : ∀ A (m : gmap string A), range m ≡ₚ map_to_list m
}.

(** One possible order, to run the definitions with. *)
Definition range_in_key_order : MapRange :=
  {| range := λ A m, map_to_list m; range_perm := λ A m, reflexivity _ |}.

(** Another one: the reverse. *)
Program Definition range_reversed : MapRange :=
  {| range := λ A m, reverse (map_to_list m) |}.
Next Obligation. intros. apply reverse_Permutation. Qed.

(** [for _, v := range m { out = append(out, v) }] *)
Definition range_values `{MapRange} {A} (m : gmap string A) : list A := (range m).*2.

(** [for k, v := range m { if p(v) { delete(m, k) } }] *)
Definition range_delete `{MapRange} {A} (p : A → bool) (m : gmap string A) : gmap string A :=
  foldl (λ m' kv, if p kv.2 then delete kv.1 m' else m') m (range m).

(** [for k, v := range m { if p(v) { ...; return } }]: the first match. *)
Definition range_find `{MapRange} {A} (p : A → bool) (m : gmap string A) : option (string * A) :=
  head (filter (λ kv, p kv.2 = true) (range m)).

(** [for _, v := range m { if p(v) { v.x = ...; } }], writing through the
    pointers the map holds. *)
Definition range_update `{MapRange} {A} (p : A → bool) (f : A → A) (m : gmap string A) : gmap string A :=
  foldl (λ m' kv, if p kv.2 then <[kv.1 := f kv.2]> m' else m') m (range m).

(** [strings.Split(s, c)] for a separator of one character. *)
Fixpoint split_on (c : Ascii.ascii) (s : string) : list string :=
  match s with
  | EmptyString => [EmptyString]
  | String d s' =>
      if Ascii.eqb d c then EmptyString :: split_on c s'
      else match split_on c s' with
           | part :: rest => String d part :: rest
           | [] => [String d EmptyString]
           end
  end.

(** * Lemmas the components share *)

Create HintDb vcdeploy.

Lemma len_nonneg {A} (l : list A) : 0 ≤ len l.
Proof. unfold len. lia. Qed.

Lemma StronglySorted_weaken {A} (R S : A → A → Prop) (l : list A) :
  (∀ x y, R x y → S x y) → StronglySorted R l → StronglySorted S l.
Proof.
  intros HRS. induction 1; constructor; [done|]. eapply Forall_impl; eauto.
Qed.

Lemma filter_all {A} (P : A → Prop) `{!∀ x, Decision (P x)} (l : list A) :
  (∀ x, x ∈ l → P x) → filter P l = l.
Proof.
  induction l as [|x l IH]; intros Hl; [done|].
  rewrite filter_cons_True by (apply Hl; left). f_equal. apply IH. intros y Hy. apply Hl. by right.
Qed.

Lemma filter_ext_in {A} (P Q : A → Prop) `{!∀ x, Decision (P x), !∀ x, Decision (Q x)} (l : list A) :
  (∀ x, x ∈ l → P x ↔ Q x) → filter P l = filter Q l.
Proof.
  induction l as [|x l IH]; intros Hl; [done|].
  assert (filter P l = filter Q l) as E by (apply IH; intros y Hy; apply Hl; by right).
  rewrite !filter_cons, E. specialize (Hl x ltac:(left)).
  repeat case_decide; tauto.
Qed.

(** Deleting by index in a list without duplicates deletes that element. *)
Lemma delete_NoDup_filter {A} `{EqDecision A} (l : list A) i x :
  NoDup l → l !! i = Some x → delete i l = filter (λ y, y ≠ x) l.
Proof.
  revert i. induction l as [|y l IH]; intros i Hn Hi; [done|].
  apply NoDup_cons in Hn as [Hy Hn]. destruct i as [|i]; simpl in *.
  - injection Hi as ->. rewrite filter_cons_False by naive_solver.
    symmetry. apply filter_all. intros z Hz ->. done.
  - rewrite filter_cons_True by (intros ->; apply Hy; by eapply list_elem_of_lookup_2).
    f_equal. auto.
Qed.

(** ** The exchange sort *)

Section exchange_sort.
Context {A : Type} (before : A → A → bool).
Implicit Types l : list A.

Lemma exchange_pass_perm x l :
  (exchange_pass before x l).1 :: (exchange_pass before x l).2 ≡ₚ x :: l.
Proof.
  revert x. induction l as [|y r IH]; intros x; simpl; [done|].
  destruct (before y x).
  - specialize (IH y). destruct (exchange_pass before y r) as [m r']; simpl in *.
    by rewrite Permutation_swap, IH.
  - specialize (IH x). destruct (exchange_pass before x r) as [m r']; simpl in *.
    rewrite Permutation_swap, IH. apply Permutation_swap.
Qed.

Lemma exchange_pass_length x l :
  length (exchange_pass before x l).2 = length l.
Proof.
  pose proof (Permutation_length (exchange_pass_perm x l)). simpl in *. lia.
Qed.

Lemma exchange_sort_n_perm n l : exchange_sort_n n before l ≡ₚ l.
Proof.
  revert l. induction n as [|n IH]; intros [|x l]; simpl; try done.
  pose proof (exchange_pass_perm x l) as Hp.
  destruct (exchange_pass before x l) as [m r]; simpl in *. by rewrite IH.
Qed.

Lemma exchange_sort_perm l : exchange_sort before l ≡ₚ l.
Proof. apply exchange_sort_n_perm. Qed.

Lemma exchange_sort_length l : length (exchange_sort before l) = length l.
Proof. apply Permutation_length, exchange_sort_perm. Qed.

(** [before] is a strict weak order, as comparing by a key is. *)
Hypothesis before_asym : ∀ x y, before x y = true → before y x = false.
Hypothesis before_ntrans :
  ∀ x y z, before x y = false → before y z = false → before x z = false.

Lemma exchange_pass_min x l m r :
  exchange_pass before x l = (m, r) →
  before x m = false ∧ Forall (λ y, before y m = false) r.
Proof using before_asym before_ntrans.
  revert x m r. induction l as [|y l IH]; intros x m r; simpl.
  - intros [= <- <-]. split; [|constructor].
    destruct (before x x) eqn:E; [|done]. by rewrite (before_asym _ _ E) in E.
  - destruct (before y x) eqn:E.
    + destruct (exchange_pass before y l) as [m' r'] eqn:P. intros [= <- <-].
      destruct (IH _ _ _ P) as [H1 H2].
      assert (before x m' = false) by eauto. split; [done|]. by constructor.
    + destruct (exchange_pass before x l) as [m' r'] eqn:P. intros [= <- <-].
      destruct (IH _ _ _ P) as [H1 H2]. split; [done|]. constructor; eauto.
Qed.

Lemma exchange_sort_n_sorted n l :
  (length l ≤ n)%nat → StronglySorted (λ x y, before y x = false) (exchange_sort_n n before l).
Proof using before_asym before_ntrans.
  revert l. induction n as [|n IH]; intros [|x l] Hn; simpl in *; [apply SSorted_nil|lia|apply SSorted_nil|].
  pose proof (exchange_pass_length x l) as Hl.
  destruct (exchange_pass before x l) as [m r] eqn:P; simpl in *.
  constructor; [apply IH; lia|].
  rewrite exchange_sort_n_perm. by eapply exchange_pass_min.
Qed.

Lemma exchange_sort_sorted l :
  StronglySorted (λ x y, before y x = false) (exchange_sort before l).
Proof using before_asym before_ntrans. by apply exchange_sort_n_sorted. Qed.

End exchange_sort.

(** Newest first: the order [key(all[j]).After(key(all[i]))] asks for. *)
Definition newest {A} (key : A → time) (x y : A) : bool := After (key x) (key y).
Definition oldest {A} (key : A → time) (x y : A) : bool := Before (key x) (key y).

Lemma newest_first_sorted {A} (key : A → time) (l : list A) :
  StronglySorted (λ x y, key y ≤ key x) (exchange_sort (newest key) l).
Proof.
  eapply StronglySorted_weaken; [|apply exchange_sort_sorted];
    unfold newest, After; intros; lia.
Qed.

Lemma oldest_first_sorted {A} (key : A → time) (l : list A) :
  StronglySorted (λ x y, key x ≤ key y) (exchange_sort (oldest key) l).
Proof.
  eapply StronglySorted_weaken; [|apply exchange_sort_sorted];
    unfold oldest, Before; intros; lia.
Qed.

(** ** Pagination *)

Lemma take_clamp {A} (l : list A) n : take (length l `min` n) l = take n l.
Proof.
  destruct (decide (n ≤ length l)%nat).
  - by rewrite Nat.min_r.
  - rewrite Nat.min_l by lia. rewrite !take_ge by lia. done.
Qed.

Lemma paginate_spec {A} (all : list A) limit offset :
  0 ≤ limit → 0 ≤ offset → in_int64 (offset + limit) →
  paginate all limit offset = Ok (take (Z.to_nat limit) (drop (Z.to_nat offset) all)).
Proof.
  intros Hl Ho Hb. unfold paginate. pose proof (len_nonneg all) as Hn.
  destruct (Z.leb_spec (len all) offset) as [Hge|Hlt].
  { rewrite drop_ge; [by rewrite take_nil|]. unfold len in *. lia. }
  rewrite wrap64_id by done. unfold slice.
  set (e := if len all <? offset + limit then len all else offset + limit).
  assert (e = Z.min (len all) (offset + limit)) as He by (subst e; case_match; lia).
  assert ((0 <=? offset) && (offset <=? e) && (e <=? len all) = true) as -> by lia.
  f_equal. rewrite <- (take_clamp _ (Z.to_nat limit)), length_drop.
  f_equal. unfold len in *. lia.
Qed.

Lemma limit_to_take {A} (l : list A) limit :
  0 < limit → limit_to l limit = take (Z.to_nat limit) l.
Proof.
  intros Hl. unfold limit_to. destruct (Z.ltb_spec 0 limit); [|lia]. simpl.
  destruct (Z.ltb_spec limit (len l)) as [|Hge]; [done|].
  rewrite take_ge; [done|]. unfold len in *. lia.
Qed.

Lemma limit_to_none {A} (l : list A) limit : limit ≤ 0 → limit_to l limit = l.
Proof. intros Hl. unfold limit_to. by destruct (Z.ltb_spec 0 limit); [lia|]. Qed.

Lemma page_spec {A} (all : list A) limit offset :
  0 ≤ offset →
  page all limit offset =
  Ok (let rest := drop (Z.to_nat offset) all in
      if 0 <? limit then take (Z.to_nat limit) rest else rest).
Proof.
  intros Ho. unfold page. destruct (Z.leb_spec (len all) offset) as [Hge|Hlt].
  { rewrite drop_ge; [by rewrite take_nil; destruct (0 <? limit)|]. unfold len in *. lia. }
  unfold slice. pose proof (len_nonneg all).
  assert ((0 <=? offset) && (offset <=? len all) && (len all <=? len all) = true) as -> by lia.
  rewrite take_ge by (rewrite length_drop; unfold len in *; lia).
  f_equal. destruct (Z.ltb_spec 0 limit); [by apply limit_to_take|by apply limit_to_none].
Qed.

Lemma page_negative {A} (all : list A) limit offset :
  offset < 0 → page all limit offset = Panic.
Proof.
  intros Ho. unfold page, slice. pose proof (len_nonneg all).
  destruct (Z.leb_spec (len all) offset); [lia|]. by destruct (Z.leb_spec 0 offset); [lia|].
Qed.

(** Consecutive pages put together are the list. *)
Lemma pages_cover {A} (l : list A) (size n : nat) :
  (0 < size)%nat → (length l ≤ n * size)%nat →
  concat ((λ k, take size (drop (k * size) l)) <$> seq 0 n) = l.
Proof.
  intros Hs. revert l. induction n as [|n IH]; intros l Hl.
  { destruct l; simpl in *; [done|lia]. }
  rewrite <- cons_seq. rewrite fmap_cons. cbn [concat]. rewrite <- fmap_S_seq, <- list_fmap_compose.
  transitivity (take size l ++ drop size l); [|apply take_drop]. f_equal.
  rewrite <- (IH (drop size l)) by (rewrite length_drop; lia).
  f_equal. apply list_fmap_ext. intros i k _. simpl. by rewrite drop_drop.
Qed.

(** A negative offset is not an empty page: it panics. *)
Lemma paginate_negative {A} (all : list A) limit offset :
  offset < 0 → paginate all limit offset = Panic.
Proof.
  intros H. unfold paginate, slice. pose proof (len_nonneg all).
  destruct (Z.leb_spec (len all) offset); [lia|].
  by destruct (Z.leb_spec 0 offset); [lia|].
Qed.

(** ** Strings joined with a separator *)

(** The character does not occur in the string. *)
Fixpoint free_of (c : Ascii.ascii) (s : string) : bool :=
  match s with
  | EmptyString => true
  | String d s' => negb (Ascii.eqb d c) && free_of c s'
  end.

Definition colon : Ascii.ascii := Ascii.ascii_of_nat 58.

(** A string is cut at its first separator in one way only. *)
Lemma join_inj (c : Ascii.ascii) (a a' b b' : string) :
  free_of c a = true → free_of c a' = true →
  (a +:+ String c b = a' +:+ String c b')%string → a = a' ∧ b = b'.
Proof.
  revert a'. induction a as [|d a IH]; intros [|d' a']; simpl; intros Ha Ha' Heq.
  - by injection Heq.
  - injection Heq as <- _. by rewrite Ascii.eqb_refl in Ha'.
  - injection Heq as -> _. by rewrite Ascii.eqb_refl in Ha.
  - injection Heq as <- Heq. apply andb_true_iff in Ha as [_ Ha]. apply andb_true_iff in Ha' as [_ Ha'].
    destruct (IH a' Ha Ha' Heq) as [-> ->]. done.
Qed.

(** ** Ranging over a map *)

Section range.
Context `{MapRange} {A : Type}.
Implicit Types m : gmap string A.

Lemma elem_of_range m k v : (k, v) ∈ range m ↔ m !! k = Some v.
Proof. rewrite range_perm. apply elem_of_map_to_list. Qed.

Lemma range_NoDup_keys m : NoDup (range m).*1.
Proof. rewrite range_perm. apply NoDup_fst_map_to_list. Qed.

Lemma range_length m : length (range m) = size m.
Proof. by rewrite (Permutation_length (range_perm _ m)), length_map_to_list. Qed.

Lemma range_values_length m : length (range_values m) = size m.
Proof. unfold range_values. by rewrite length_fmap, range_length. Qed.

Lemma elem_of_range_values m v : v ∈ range_values m ↔ ∃ k, m !! k = Some v.
Proof.
  unfold range_values. rewrite list_elem_of_fmap. split.
  - intros ([k v'] & -> & Hin). exists k. by apply elem_of_range.
  - intros [k Hk]. exists (k, v). split; [done|]. by apply elem_of_range.
Qed.

Lemma foldl_delete_lookup {B} (p : A → bool) (l : list (string * A)) (m : gmap string B) k :
  foldl (λ (m' : gmap string B) kv, if p kv.2 then delete kv.1 m' else m') m l !! k =
  if decide (k ∈ (filter (λ kv, p kv.2 = true) l).*1) then None else m !! k.
Proof.
  revert m. induction l as [|[k' v'] l IH]; intros m.
  { done. }
  simpl foldl. rewrite IH. simpl.
  destruct (p v') eqn:E;
    [rewrite filter_cons_True by done|by rewrite filter_cons_False by (simpl; congruence)].
  simpl. destruct (decide (k = k')) as [->|Hne].
  - rewrite lookup_delete_eq, (decide_True (P := k' ∈ k' :: _)) by left.
    by case_decide.
  - rewrite lookup_delete_ne by done. apply decide_ext. rewrite elem_of_cons. tauto.
Qed.

Lemma elem_of_range_filter_keys (p : A → bool) m k :
  k ∈ (filter (λ kv, p kv.2 = true) (range m)).*1 ↔ ∃ v, m !! k = Some v ∧ p v = true.
Proof.
  rewrite list_elem_of_fmap. split.
  - intros ([k' v] & -> & Hf). rewrite list_elem_of_filter in Hf. destruct Hf as [Hp Hin].
    exists v. split; [by apply elem_of_range|done].
  - intros (v & Hk & Hp). exists (k, v). split; [done|].
    rewrite list_elem_of_filter. split; [done|by apply elem_of_range].
Qed.

(** Whatever the order, the deleting loop keeps exactly the entries its test
    rejects. *)
Lemma range_delete_lookup (p : A → bool) m k :
  range_delete p m !! k =
  match m !! k with Some v => if p v then None else Some v | None => None end.
Proof.
  unfold range_delete. rewrite foldl_delete_lookup.
  case_decide as Hd; rewrite elem_of_range_filter_keys in Hd.
  - destruct Hd as (v & -> & ->). done.
  - destruct (m !! k) as [v|] eqn:E; [|done].
    destruct (p v) eqn:Ep; [|done]. exfalso. eauto.
Qed.

Lemma range_delete_filter (p : A → bool) m :
  range_delete p m = filter (λ kv, p kv.2 = false) m.
Proof.
  apply map_eq. intros k. apply option_eq. intros v.
  rewrite map_lookup_filter_Some, range_delete_lookup.
  destruct (m !! k) as [v'|]; [|naive_solver].
  destruct (p v') eqn:E; naive_solver congruence.
Qed.

Lemma foldl_update_lookup (p : A → bool) (f : A → A) (l : list (string * A)) m k :
  NoDup l.*1 →
  foldl (λ m' kv, if p kv.2 then <[kv.1 := f kv.2]> m' else m') m l !! k =
  match list_find (λ kv, kv.1 = k) l with
  | Some (_, kv) => if p kv.2 then Some (f kv.2) else m !! k
  | None => m !! k
  end.
Proof.
  revert m. induction l as [|[k' v'] l IH]; intros m Hn; [done|].
  rewrite fmap_cons in Hn. apply NoDup_cons in Hn as [Hk Hn]. simpl in Hk.
  cbn [foldl]. rewrite IH by done. cbn [list_find fst snd].
  destruct (decide (k' = k)) as [->|Hne].
  - assert (list_find (λ kv : string * A, kv.1 = k) l = None) as ->.
    { apply list_find_None, Forall_forall. intros [k2 v2] Hin Heq. simpl in Heq. subst.
      apply Hk. apply list_elem_of_fmap. by exists (k, v2). }
    simpl. destruct (p v'); [by rewrite lookup_insert_eq|done].
  - destruct (list_find (λ kv : string * A, kv.1 = k) l) as [[i kv]|] eqn:E; simpl.
    + destruct (p kv.2); [done|]. destruct (p v'); [by rewrite lookup_insert_ne|done].
    + destruct (p v'); [by rewrite lookup_insert_ne|done].
Qed.

(** Whatever the order, the updating loop maps the entries its test accepts. *)
Lemma range_update_fmap (p : A → bool) (f : A → A) m :
  range_update p f m = (λ v, if p v then f v else v) <$> m.
Proof.
  apply map_eq. intros k. unfold range_update.
  rewrite foldl_update_lookup by apply range_NoDup_keys. rewrite lookup_fmap.
  destruct (list_find (λ kv : string * A, kv.1 = k) (range m)) as [[i [k' v]]|] eqn:E.
  - apply list_find_Some in E as (Hi & Heq & _). simpl in Heq. subst k'.
    apply list_elem_of_lookup_2, elem_of_range in Hi. rewrite Hi. simpl. by destruct (p v).
  - destruct (m !! k) as [v|] eqn:Ek; [|done]. exfalso.
    apply list_find_None in E. rewrite Forall_forall in E.
    apply (E (k, v)); [by apply elem_of_range|done].
Qed.

Lemma range_find_Some (p : A → bool) m k v :
  range_find p m = Some (k, v) → m !! k = Some v ∧ p v = true.
Proof.
  unfold range_find. intros Hh%head_Some_elem_of.
  rewrite list_elem_of_filter in Hh. destruct Hh as [Hp Hin].
  split; [by apply elem_of_range|done].
Qed.

Lemma range_find_None (p : A → bool) m :
  range_find p m = None ↔ ∀ k v, m !! k = Some v → p v = false.
Proof.
  unfold range_find. rewrite head_None. split.
  - intros Hn k v Hk. destruct (p v) eqn:E; [|done]. exfalso.
    assert ((k, v) ∈ filter (λ kv : string * A, p kv.2 = true) (range m)) as Hin.
    { rewrite list_elem_of_filter. split; [done|by apply elem_of_range]. }
    rewrite Hn in Hin. by apply not_elem_of_nil in Hin.
  - intros Hall. apply elem_of_nil_inv. intros [k v].
    rewrite list_elem_of_filter, elem_of_range. simpl.
    intros [Hp Hk]. apply Hall in Hk. congruence.
Qed.

(** When at most one entry passes the test, the loop's answer does not depend
    on the order. *)
Lemma range_find_unique (p : A → bool) m k v :
  m !! k = Some v → p v = true →
  (∀ k' v', m !! k' = Some v' → p v' = true → k' = k) →
  range_find p m = Some (k, v).
Proof.
  intros Hk Hp Hu. destruct (range_find p m) as [[k' v']|] eqn:E.
  - apply range_find_Some in E as [Hk' Hp'].
    assert (k' = k) as -> by eauto. congruence.
  - rewrite range_find_None in E. apply E in Hk. congruence.
Qed.

(** Counting the entries that pass a test, in the list and in the map. *)
Lemma count_range_values (P : A → Prop) `{!∀ x, Decision (P x)} m :
  len (filter P (range_values m)) = map_len (filter (λ kv, P kv.2) m).
Proof.
  unfold len, map_len, range_values. f_equal.
  rewrite range_perm. induction m as [|k v m Hk Hf IH] using map_first_key_ind.
  { by rewrite map_filter_empty, map_to_list_empty, map_size_empty. }
  rewrite map_to_list_insert_first_key by done. rewrite fmap_cons, filter_cons. simpl.
  case_decide.
  - rewrite map_filter_insert_True, map_size_insert_None; simpl;
      [by rewrite IH|by apply map_lookup_filter_None; left|done].
  - rewrite map_filter_insert_False, delete_id by done. done.
Qed.

Lemma range_values_perm m : range_values m ≡ₚ (map_to_list m).*2.
Proof. unfold range_values. by rewrite range_perm. Qed.
End range.
