(* ===== verification/GoStrings.v ===== *)
(** What the code uses of Go's [strings], [strconv], [fmt] and [encoding/base64]
    packages, on strings of bytes read as ASCII. *)

From stdpp Require Import strings pretty.
From S2P Require Import Prelude.

#[local] Open Scope string_scope.
#[local] Open Scope list_scope.
#[local] Open Scope Z_scope.

Definition is_digit (c : Ascii.ascii) : bool :=
  let n := Ascii.nat_of_ascii c in (48 <=? n)%nat && (n <=? 57)%nat.

(** The longest run of digits at the front, as a value. *)
Fixpoint scan_digits (acc : option Z) (s : string) : option Z :=
  match s with
  | String c s' =>
      if is_digit c
      then scan_digits (Some (default 0 acc * 10 + (Z.of_nat (Ascii.nat_of_ascii c) - 48))) s'
      else acc
  | EmptyString => acc
  end.

Fixpoint skip_blanks (s : string) : string :=
  match s with
  | String c s' =>
      let n := Ascii.nat_of_ascii c in
      if (n =? 32)%nat || (n =? 9)%nat then skip_blanks s' else s
  | EmptyString => s
  end.

(** An optional sign. *)
Definition split_sign (s : string) : Z * string :=
  match s with
  | String c s' =>
      if (Ascii.nat_of_ascii c =? 45)%nat then (-1, s')
      else if (Ascii.nat_of_ascii c =? 43)%nat then (1, s')
      else (1, s)
  | EmptyString => (1, s)
  end.

(** [fmt.Sscanf(s, "%d", &v)] on a zero [v]: [v] keeps its value when the text
    does not start with an integer or when it does not fit 64 bits. *)
Definition sscanf_int (s : string) : Z :=
  let '(sign, rest) := split_sign (skip_blanks s) in
  match scan_digits None rest with
  | Some v => if (int64_min <=? sign * v) && (sign * v <=? int64_max) then sign * v else 0
  | None => 0
  end.

(** [base64.StdEncoding.EncodeToString] *)
Definition base64_char (n : Z) : Ascii.ascii :=
  Ascii.ascii_of_nat (Z.to_nat
    (if n <? 26 then n + 65 else if n <? 52 then n + 71 else if n <? 62 then n - 4
     else if n =? 62 then 43 else 47)).

Fixpoint base64_encode (l : list Z) : string :=
  match l with
  | a :: b :: c :: l' =>
      String (base64_char (Z.shiftr a 2))
        (String (base64_char (Z.lor (Z.shiftl (Z.land a 3) 4) (Z.shiftr b 4)))
          (String (base64_char (Z.lor (Z.shiftl (Z.land b 15) 2) (Z.shiftr c 6)))
            (String (base64_char (Z.land c 63)) (base64_encode l'))))
  | [a; b] =>
      String (base64_char (Z.shiftr a 2))
        (String (base64_char (Z.lor (Z.shiftl (Z.land a 3) 4) (Z.shiftr b 4)))
          (String (base64_char (Z.shiftl (Z.land b 15) 2)) "="))
  | [a] => String (base64_char (Z.shiftr a 2)) (String (base64_char (Z.shiftl (Z.land a 3) 4)) "==")
  | [] => ""
  end.

Definition newline : Ascii.ascii := Ascii.ascii_of_nat 10.

Definition is_space (c : Ascii.ascii) : bool :=
  let n := Ascii.nat_of_ascii c in ((9 <=? n) && (n <=? 13))%nat || (n =? 32)%nat.

Fixpoint trim_left (s : string) : string :=
  match s with
  | String c s' => if is_space c then trim_left s' else s
  | EmptyString => s
  end.

Fixpoint trim_right (s : string) : string :=
  match s with
  | EmptyString => EmptyString
  | String c s' =>
      match trim_right s' with
      | EmptyString => if is_space c then EmptyString else String c EmptyString
      | r => String c r
      end
  end.

(** [strings.TrimSpace], on ASCII text. *)
Definition TrimSpace (s : string) : string := trim_right (trim_left s).

(** [%q] of an ASCII string ([strconv.Quote]). *)
Definition hex_digit (n : nat) : Ascii.ascii :=
  Ascii.ascii_of_nat (if (n <? 10)%nat then n + 48 else n + 87)%nat.

Definition quote_char (c : Ascii.ascii) : string :=
  let n := Ascii.nat_of_ascii c in
  let backslash (s : string) := String (Ascii.ascii_of_nat 92) s in
  if (n =? 34)%nat || (n =? 92)%nat then backslash (String c EmptyString)
  else if (n =? 7)%nat then backslash "a" else if (n =? 8)%nat then backslash "b"
  else if (n =? 9)%nat then backslash "t" else if (n =? 10)%nat then backslash "n"
  else if (n =? 11)%nat then backslash "v" else if (n =? 12)%nat then backslash "f"
  else if (n =? 13)%nat then backslash "r"
  else if (n <? 32)%nat || (n =? 127)%nat
  then backslash (String (Ascii.ascii_of_nat 120)
                    (String (hex_digit (n / 16)) (String (hex_digit (n mod 16)) EmptyString)))
  else String c EmptyString.

Fixpoint quote_body (s : string) : string :=
  match s with EmptyString => EmptyString | String c s' => quote_char c +:+ quote_body s' end.

Definition double_quote : string := String (Ascii.ascii_of_nat 34) EmptyString.

Definition quote (s : string) : string := double_quote +:+ quote_body s +:+ double_quote.

(** [strings.HasPrefix] and [strings.Contains] *)
Definition HasPrefix (s p : string) : bool := String.prefix p s.

Fixpoint Contains (s sub : string) : bool :=
  HasPrefix s sub || match s with EmptyString => false | String _ s' => Contains s' sub end.

(** [strings.Index]: [None] for -1. *)
Fixpoint Index (s sub : string) : option nat :=
  if HasPrefix s sub then Some O
  else match s with EmptyString => None | String _ s' => S <$> Index s' sub end.

Fixpoint drop_chars (n : nat) (s : string) : string :=
  match n, s with
  | O, _ => s
  | S n', String _ s' => drop_chars n' s'
  | S _, EmptyString => EmptyString
  end.

Fixpoint take_chars (n : nat) (s : string) : string :=
  match n, s with
  | S n', String c s' => String c (take_chars n' s')
  | _, _ => EmptyString
  end.

(** [strings.TrimPrefix], [strings.HasSuffix] and [strings.TrimSuffix] *)
Definition TrimPrefix (s p : string) : string :=
  if HasPrefix s p then drop_chars (String.length p) s else s.

Definition HasSuffix (s p : string) : bool :=
  (String.length p <=? String.length s)%nat &&
  bool_decide (drop_chars (String.length s - String.length p) s = p).

Definition TrimSuffix (s p : string) : string :=
  if HasSuffix s p then take_chars (String.length s - String.length p) s else s.

(** [hex.EncodeToString] *)
Definition hex_encode (l : list Z) : string :=
  foldr (λ n s, String (hex_digit (Z.to_nat (n / 16))) (String (hex_digit (Z.to_nat (n mod 16))) s)) EmptyString l.

(** [strings.SplitN(s, sep, 2)] for a separator of one byte: the part before the
    first separator and, if there is one, the rest. *)
Fixpoint cut (c : Ascii.ascii) (s : string) : string * option string :=
  match s with
  | EmptyString => (EmptyString, None)
  | String d s' =>
      if Ascii.eqb d c then (EmptyString, Some s')
      else let '(a, r) := cut c s' in (String d a, r)
  end.

(** [strings.ReplaceAll(s, old, new)] for an [old] that is not empty: [skip] counts the
    characters of a match still to be passed over. *)
Fixpoint replace_from (old new : string) (skip : nat) (s : string) : string :=
  match s with
  | EmptyString => EmptyString
  | String c s' =>
      match skip with
      | S skip' => replace_from old new skip' s'
      | O => if HasPrefix s old then new +:+ replace_from old new (String.length old - 1) s'
             else String c (replace_from old new O s')
      end
  end.
Definition ReplaceAll (s old new : string) : string := replace_from old new 0 s.

(** [strings.Join] *)
Definition Join (l : list string) (sep : string) : string := String.concat sep l.

Definition space : Ascii.ascii := Ascii.ascii_of_nat 32.

(** [strings.Fields] *)
Fixpoint fields_from (word : string) (s : string) : list string :=
  match s with
  | EmptyString => if bool_decide (word = "") then [] else [word]
  | String c s' =>
      if is_space c
      then (if bool_decide (word = "") then [] else [word]) ++ fields_from "" s'
      else fields_from (word +:+ String c EmptyString) s'
  end.

Definition Fields (s : string) : list string := fields_from "" s.

Fixpoint all_chars (p : Ascii.ascii → bool) (s : string) : bool :=
  match s with EmptyString => true | String c s' => p c && all_chars p s' end.

(** [strconv.Atoi] *)
Definition Atoi (s : string) : option Z :=
  let '(sign, rest) := split_sign s in
  if bool_decide (rest = "") then None
  else if all_chars is_digit rest then
    match scan_digits None rest with
    | Some v => if (int64_min <=? sign * v) && (sign * v <=? int64_max) then Some (sign * v) else None
    | None => None
    end
  else None.

(** [strings.ToLower] *)
Definition lower (c : Ascii.ascii) : Ascii.ascii :=
  let n := Ascii.nat_of_ascii c in
  if ((65 <=? n) && (n <=? 90))%nat then Ascii.ascii_of_nat (n + 32) else c.

Fixpoint ToLower (s : string) : string :=
  match s with EmptyString => EmptyString | String c s' => String (lower c) (ToLower s') end.

(** * Lemmas *)

Lemma app_empty_r s : s +:+ "" = s.
Proof. induction s as [|c s IH]; [done|]. exact (f_equal (String c) IH). Qed.

Lemma app_assoc_string s1 s2 s3 : (s1 +:+ s2) +:+ s3 = s1 +:+ s2 +:+ s3.
Proof. induction s1 as [|c s1 IH]; [done|]. exact (f_equal (String c) IH). Qed.

Lemma prefix_app p s : String.prefix p (p +:+ s) = true.
Proof. induction p as [|c p IH]; [by destruct s|]. simpl. by destruct (Ascii.ascii_dec c c). Qed.

Lemma Contains_prefix s sub : HasPrefix s sub = true → Contains s sub = true.
Proof. intros Hp. destruct s; cbn [Contains]; by rewrite Hp. Qed.

Lemma Contains_app_r a s sub : Contains s sub = true → Contains (a +:+ s) sub = true.
Proof.
  intros Hs. induction a as [|c a IH]; [done|]. simpl. rewrite IH. apply orb_true_r.
Qed.

(** A concatenation contains the literal it is built around. *)
Lemma Contains_middle a sub b : Contains (a +:+ sub +:+ b) sub = true.
Proof. apply Contains_app_r, Contains_prefix, prefix_app. Qed.

Lemma cut_length c s a r : cut c s = (a, Some r) → (String.length r < String.length s)%nat.
Proof.
  revert a r. induction s as [|d s IH]; intros a r; simpl; [done|].
  destruct (Ascii.eqb d c); [intros [= _ <-]; lia|].
  destruct (cut c s) as [a' [r'|]]; [|done]. intros [= _ <-]. specialize (IH _ _ eq_refl). lia.
Qed.

Lemma cut_app c a b : free_of c a = true → cut c (a +:+ String c b) = (a, Some b).
Proof.
  induction a as [|d a IH]; simpl; [by rewrite Ascii.eqb_refl|].
  rewrite andb_true_iff, negb_true_iff. intros [-> Ha]. by rewrite IH.
Qed.

Lemma cut_Some c s a b : cut c s = (a, Some b) → s = a +:+ String c b.
Proof.
  revert a. induction s as [|d s IH]; intros a; simpl; [done|].
  destruct (Ascii.eqb_spec d c) as [->|]; [by intros [= <- <-]|].
  destruct (cut c s) as [a' r]. intros [= <- ->]. by rewrite (IH a' eq_refl).
Qed.

Lemma trim_left_length s : (String.length (trim_left s) ≤ String.length s)%nat.
Proof. induction s as [|c s IH]; simpl; [done|]. case_match; simpl; lia. Qed.

Lemma trim_right_length s : (String.length (trim_right s) ≤ String.length s)%nat.
Proof.
  induction s as [|c s IH]; simpl; [done|].
  destruct (trim_right s) as [|d r]; simpl in *; [case_match; simpl; lia|lia].
Qed.

Lemma TrimSpace_length s : (String.length (TrimSpace s) ≤ String.length s)%nat.
Proof. unfold TrimSpace. pose proof (trim_right_length (trim_left s)). pose proof (trim_left_length s). lia. Qed.

Lemma Contains_char s c : all_chars (λ d, negb (Ascii.eqb d c)) s = negb (Contains s (String c EmptyString)).
Proof.
  induction s as [|d s IH]; simpl; [done|].
  destruct (Ascii.ascii_dec c d) as [->|Hn]; simpl.
  - rewrite Ascii.eqb_refl. simpl. unfold HasPrefix. simpl. destruct (Ascii.ascii_dec d d); [|done].
    by destruct s.
  - unfold HasPrefix. simpl. destruct (Ascii.ascii_dec c d); [done|]. simpl. rewrite IH.
    destruct (Ascii.eqb_spec d c); [congruence|done].
Qed.

Lemma all_chars_and p q s : all_chars (λ c, p c && q c) s = all_chars p s && all_chars q s.
Proof.
  induction s as [|c s IH]; simpl; [done|]. rewrite IH. by destruct (p c), (q c), (all_chars p s).
Qed.

Lemma all_chars_ext p q s : (∀ c, p c = q c) → all_chars p s = all_chars q s.
Proof. intros He. induction s as [|c s IH]; simpl; [done|]. by rewrite He, IH. Qed.

Lemma all_chars_impl p q s : (∀ c, p c = true → q c = true) → all_chars p s = true → all_chars q s = true.
Proof.
  intros Hpq. induction s as [|c s IH]; simpl; [done|]. rewrite !andb_true_iff. intros [H1 H2]. auto.
Qed.

Lemma all_chars_app p s1 s2 : all_chars p (s1 +:+ s2) = all_chars p s1 && all_chars p s2.
Proof. induction s1 as [|c s1 IH]; simpl; [done|]. by rewrite IH, andb_assoc. Qed.

(** Words separated by a space. *)
Lemma fields_from_last w acc :
  all_chars (λ c, negb (is_space c)) w = true → acc +:+ w ≠ "" → fields_from acc w = [acc +:+ w].
Proof.
  revert acc. induction w as [|c w IH]; intros acc; simpl.
  - rewrite app_empty_r. intros _ Hn. by rewrite bool_decide_eq_false_2.
  - rewrite andb_true_iff, negb_true_iff. intros [-> Hw] Hn.
    assert ((acc +:+ String c "") +:+ w = acc +:+ String c w) as He by (by rewrite app_assoc_string).
    rewrite IH; rewrite ?He; done.
Qed.

Lemma fields_from_word w acc rest :
  all_chars (λ c, negb (is_space c)) w = true → acc +:+ w ≠ "" →
  fields_from acc (w +:+ String space rest) = (acc +:+ w) :: fields_from "" rest.
Proof.
  revert acc. induction w as [|c w IH]; intros acc; simpl.
  - rewrite app_empty_r. intros _ Hn. by rewrite bool_decide_eq_false_2.
  - rewrite andb_true_iff, negb_true_iff. intros [-> Hw] Hn.
    assert ((acc +:+ String c "") +:+ w = acc +:+ String c w) as He by (by rewrite app_assoc_string).
    rewrite IH; rewrite ?He; done.
Qed.

(** Splitting at a character. *)
Lemma split_on_nonempty c s : split_on c s ≠ [].
Proof. destruct s as [|d s]; simpl; [done|]. destruct (Ascii.eqb d c); [done|]. by destruct (split_on c s). Qed.

Lemma split_on_app c a b : split_on c (a +:+ String c b) = split_on c a ++ split_on c b.
Proof.
  induction a as [|d a IH]; simpl; [by rewrite Ascii.eqb_refl|].
  destruct (Ascii.eqb d c); [by rewrite IH|]. rewrite IH.
  destruct (split_on c a) as [|x l] eqn:E; [|done].
  destruct a as [|d' a]; simpl in E; [done|]. destruct (Ascii.eqb d' c); [done|].
  by destruct (split_on c a).
Qed.

Lemma split_on_free c a : free_of c a = true → split_on c a = [a].
Proof.
  induction a as [|d a IH]; simpl; [done|]. rewrite andb_true_iff, negb_true_iff. intros [-> Ha].
  by rewrite IH.
Qed.

Lemma split_on_cons c s rest : free_of c s = true → split_on c (s +:+ String c rest) = s :: split_on c rest.
Proof. intros Hs. by rewrite split_on_app, split_on_free. Qed.

Lemma free_of_cons c d s : free_of c (String d s) = true ↔ d ≠ c ∧ free_of c s = true.
Proof. simpl. by rewrite andb_true_iff, negb_true_iff, Ascii.eqb_neq. Qed.

Lemma free_of_chars c s : free_of c s = all_chars (λ d, negb (Ascii.eqb d c)) s.
Proof. induction s as [|d s IH]; simpl; by rewrite ?IH. Qed.

Lemma HasPrefix_String c a d b : HasPrefix (String c a) (String d b) = bool_decide (d = c) && HasPrefix a b.
Proof.
  unfold HasPrefix. cbn [String.prefix]. destruct (Ascii.ascii_dec d c) as [->|Hne].
  - by rewrite bool_decide_true.
  - by rewrite bool_decide_false.
Qed.

Lemma HasPrefix_app p a b : HasPrefix (p +:+ a) (p +:+ b) = HasPrefix a b.
Proof.
  induction p as [|c p IH]; [done|]. change (String c p +:+ ?s) with (String c (p +:+ s)).
  by rewrite HasPrefix_String, bool_decide_true, IH.
Qed.

Lemma length_app_string a b : String.length (a +:+ b) = (String.length a + String.length b)%nat.
Proof. induction a as [|c a IH]; [done|]. change (S (String.length (a +:+ b)) = S (String.length a) + String.length b)%nat. lia. Qed.

Lemma drop_chars_length s n : String.length (drop_chars n s) = (String.length s - n)%nat.
Proof. revert n. induction s as [|c s IH]; intros [|n]; simpl; auto. Qed.

Lemma take_chars_length s n : String.length (take_chars n s) = Nat.min n (String.length s).
Proof. revert n. induction s as [|c s IH]; intros [|n]; simpl; auto. Qed.

Lemma take_drop_chars n s : take_chars n s +:+ drop_chars n s = s.
Proof.
  revert n. induction s as [|c s IH]; intros [|n]; try done.
  change (String c (take_chars n s +:+ drop_chars n s) = String c s). by rewrite IH.
Qed.

Lemma drop_chars_app a b : drop_chars (String.length a) (a +:+ b) = b.
Proof. by induction a. Qed.

Lemma take_chars_app a b : take_chars (String.length a) (a +:+ b) = a.
Proof.
  induction a as [|c a IH]; [by destruct b|].
  change (String c (take_chars (String.length a) (a +:+ b)) = String c a). by rewrite IH.
Qed.

Lemma HasPrefix_spec s p : HasPrefix s p = true ↔ s = p +:+ drop_chars (String.length p) s.
Proof.
  revert s. induction p as [|c p IH]; intros s; [by destruct s|].
  destruct s as [|d s]; [done|]. rewrite HasPrefix_String, andb_true_iff, bool_decide_eq_true, IH.
  change (c = d ∧ s = p +:+ drop_chars (String.length p) s ↔
    String d s = String c (p +:+ drop_chars (String.length p) s)).
  split; [by intros [-> <-]|]. by intros [= -> <-].
Qed.

Lemma TrimPrefix_app p s : TrimPrefix (p +:+ s) p = s.
Proof. unfold TrimPrefix, HasPrefix. by rewrite prefix_app, drop_chars_app. Qed.

Lemma HasSuffix_spec s p : HasSuffix s p = true ↔ s = TrimSuffix s p +:+ p.
Proof.
  unfold TrimSuffix. destruct (HasSuffix s p) eqn:E; unfold HasSuffix in E.
  - apply andb_true_iff in E as [_ E%bool_decide_eq_true]. split; [intros _|done].
    rewrite <- E at 2. by rewrite take_drop_chars.
  - split; [done|]. intros Hs. exfalso. apply (f_equal String.length) in Hs. rewrite length_app_string in Hs.
    assert (p = "") as ->; [destruct p; [done|simpl in Hs; lia]|].
    rewrite andb_false_iff in E. destruct E as [E|E]; [done|].
    apply bool_decide_eq_false in E. apply E. simpl. rewrite Nat.sub_0_r. clear. by induction s.
Qed.

Lemma TrimSuffix_app s p : HasSuffix (s +:+ p) p = true ∧ TrimSuffix (s +:+ p) p = s.
Proof.
  assert (HasSuffix (s +:+ p) p = true) as H.
  { unfold HasSuffix. rewrite length_app_string. apply andb_true_iff. split; [apply Nat.leb_le; lia|].
    apply bool_decide_eq_true. rewrite Nat.add_sub. apply drop_chars_app. }
  split; [done|]. unfold TrimSuffix. rewrite H, length_app_string, Nat.add_sub. apply take_chars_app.
Qed.

(** ** Replacing one character *)

Lemma ReplaceAll_char c new d s :
  ReplaceAll (String d s) (String c "") new = (if Ascii.eqb d c then new else String d "") +:+ ReplaceAll s (String c "") new.
Proof.
  unfold ReplaceAll. cbn [replace_from]. rewrite HasPrefix_String. cbn [HasPrefix String.prefix].
  destruct (Ascii.eqb_spec d c) as [->|Hne]; [|rewrite bool_decide_false by congruence; done].
  rewrite bool_decide_true by done. by replace (HasPrefix s "") with true by by destruct s.
Qed.

Lemma ReplaceAll_app c new a b :
  ReplaceAll (a +:+ b) (String c "") new = ReplaceAll a (String c "") new +:+ ReplaceAll b (String c "") new.
Proof.
  induction a as [|d a IH]; [done|]. change (String d a +:+ b) with (String d (a +:+ b)).
  by rewrite !ReplaceAll_char, IH, app_assoc_string.
Qed.

(** ** Numbers as text *)

Lemma digit_char y : (y < 10)%N → is_digit (pretty_N_char y) = true ∧ Z.of_nat (Ascii.nat_of_ascii (pretty_N_char y)) = 48 + Z.of_N y.
Proof.
  intros Hy. assert (y = 0 ∨ y = 1 ∨ y = 2 ∨ y = 3 ∨ y = 4 ∨ y = 5 ∨ y = 6 ∨ y = 7 ∨ y = 8 ∨ y = 9)%N as Hc by lia.
  by destruct Hc as [->|[->|[->|[->|[->|[->|[->|[->|[->| ->]]]]]]]]].
Qed.

Lemma scan_pretty_go x s : (0 < x)%N → scan_digits None (pretty_N_go x s) = scan_digits (Some (Z.of_N x)) s.
Proof.
  revert s. induction (N.lt_wf_0 x) as [x _ IH]. intros s Hx. rewrite pretty_N_go_step by done.
  destruct (digit_char (x `mod` 10)) as [Hd Hv]; [apply N.mod_lt; lia|].
  destruct (decide (x `div` 10 = 0)%N) as [E|Hne].
  - rewrite E, pretty_N_go_0. cbn [scan_digits]. rewrite Hd, Hv. f_equal. f_equal. cbn [default].
    pose proof (N.div_mod' x 10). rewrite E in *. lia.
  - rewrite IH; [|by apply N.div_lt|by apply N.neq_0_lt_0]. cbn [scan_digits]. rewrite Hd, Hv. f_equal. f_equal. cbn [default id]. unfold id.
    pose proof (N.div_mod' x 10). lia.
Qed.

Lemma digits_pretty_go x s : all_chars is_digit (pretty_N_go x s) = all_chars is_digit s.
Proof.
  revert s. induction (N.lt_wf_0 x) as [x _ IH]. intros s. destruct (decide (x = 0)%N) as [->|Hne]; [done|].
  rewrite pretty_N_go_step by lia. rewrite IH by (apply N.div_lt; lia). cbn [all_chars].
  by destruct (digit_char (x `mod` 10)) as [-> _]; [apply N.mod_lt; lia|].
Qed.

(** The decimal text of a number. *)
Lemma pretty_N_digits x :
  all_chars is_digit (pretty x) = true ∧ pretty x ≠ "" ∧ scan_digits None (pretty x) = Some (Z.of_N x).
Proof.
  unfold pretty, pretty_N. case_decide as Hx; [by subst|]. split; [by rewrite digits_pretty_go|].
  rewrite scan_pretty_go by lia. split; [|done]. intros E. pose proof (scan_pretty_go x "" ltac:(lia)) as Hs.
  by rewrite E in Hs.
Qed.

Lemma length_pretty_go x n s :
  (x < 10 ^ N.of_nat n)%N → (String.length (pretty_N_go x s) ≤ n + String.length s)%nat.
Proof.
  revert x s. induction n as [|n IH]; intros x s Hx.
  - change (10 ^ N.of_nat 0)%N with 1%N in Hx. assert (x = 0)%N as -> by lia. by rewrite pretty_N_go_0.
  - destruct (decide (x = 0)%N) as [->|Hne]; [rewrite pretty_N_go_0; lia|]. rewrite pretty_N_go_step by lia.
    rewrite IH; [cbn; lia|]. apply N.Div0.div_lt_upper_bound.
    by rewrite <- N.pow_succ_r', <- Nat2N.inj_succ.
Qed.

(** A number below a power of ten has no more digits than its exponent. *)
Lemma length_pretty (x : Z) n : (0 < n)%nat → 0 ≤ x < 10 ^ Z.of_nat n → (String.length (pretty x) ≤ n)%nat.
Proof.
  intros Hn Hx. destruct x as [|p|p]; [cbn; lia| |lia]. change (pretty (Z.pos p)) with (pretty (N.pos p)).
  unfold pretty, pretty_N. case_decide; [cbn; lia|]. rewrite (length_pretty_go _ n); [cbn; lia|].
  apply N2Z.inj_lt. rewrite N2Z.inj_pow, nat_N_Z. exact (proj2 Hx).
Qed.

#[export] Hint Resolve Contains_prefix Contains_app_r Contains_middle prefix_app : vcdeploy.
