(* ===== verification/Models.v ===== *)
(** The data model of package storage ([src/internal/storage/models.go]): the
    status types with their [IsTerminal]/[IsHealthy] tests, the record types
    and the validity test of an API key.

    A struct [T] is the record [T.T] of the module [T], whose projections have
    the field names of the source ([d.(DeploymentRecord.Status)]).  A status
    type is a string, as in the source, with its constants; [*time.Time] and
    [*string] are options ([nil] is [None]); a [map[string]string] is an option
    of a map, since the code distinguishes the nil map; a [[]byte] is a list of
    byte values. *)

From S2P Require Import Prelude.

#[local] Open Scope string_scope.

(** * Status types *)

(** ** DeploymentStatus *)

Definition DeploymentStatusPending : string := "pending".
Definition DeploymentStatusScheduled : string := "scheduled".
Definition DeploymentStatusRunning : string := "running".
Definition DeploymentStatusSuccess : string := "success".
Definition DeploymentStatusFailed : string := "failed".
Definition DeploymentStatusCancelled : string := "cancelled".

Definition DeploymentStatus_IsTerminal (s : string) : bool :=
  bool_decide (s = DeploymentStatusSuccess) || bool_decide (s = DeploymentStatusFailed)
  || bool_decide (s = DeploymentStatusCancelled).

(** ** AgentStatus *)

Definition AgentStatusOnline : string := "online".
Definition AgentStatusOffline : string := "offline".
Definition AgentStatusConnected : string := "connected".
Definition AgentStatusDisconnected : string := "disconnected".
Definition AgentStatusStale : string := "stale".
Definition AgentStatusPending : string := "pending".

Definition AgentStatus_IsHealthy (s : string) : bool :=
  bool_decide (s = AgentStatusOnline) || bool_decide (s = AgentStatusConnected).

(** ** ProvisionStatus *)

Definition ProvisionStatusPending : string := "pending".
Definition ProvisionStatusInProgress : string := "in_progress".
Definition ProvisionStatusCompleted : string := "completed".
Definition ProvisionStatusFailed : string := "failed".
Definition ProvisionStatusCancelled : string := "cancelled".

Definition ProvisionStatus_IsTerminal (s : string) : bool :=
  bool_decide (s = ProvisionStatusCompleted) || bool_decide (s = ProvisionStatusFailed)
  || bool_decide (s = ProvisionStatusCancelled).

(** ** UpdateStatus *)

Definition UpdateStatusPending : string := "pending".
Definition UpdateStatusInProgress : string := "in_progress".
Definition UpdateStatusCompleted : string := "completed".
Definition UpdateStatusFailed : string := "failed".
Definition UpdateStatusRolledBack : string := "rolled_back".

Definition UpdateStatus_IsTerminal (s : string) : bool :=
  bool_decide (s = UpdateStatusCompleted) || bool_decide (s = UpdateStatusFailed)
  || bool_decide (s = UpdateStatusRolledBack).

(** ** RollbackStatus *)

Definition RollbackStatusPending : string := "pending".
Definition RollbackStatusInProgress : string := "in_progress".
Definition RollbackStatusCompleted : string := "completed".
Definition RollbackStatusFailed : string := "failed".

Definition RollbackStatus_IsTerminal (s : string) : bool :=
  bool_decide (s = RollbackStatusCompleted) || bool_decide (s = RollbackStatusFailed).

(** ** ScheduledDeploymentStatus *)

Definition ScheduledDeploymentStatusPending : string := "pending".
Definition ScheduledDeploymentStatusTriggered : string := "triggered".
Definition ScheduledDeploymentStatusCancelled : string := "cancelled".

(** ** Update policies of an agent *)

Definition AgentUpdatePolicyImmediate : string := "immediate".
Definition AgentUpdatePolicyScheduled : string := "scheduled".
Definition AgentUpdatePolicyManual : string := "manual".

(** * Records *)

Module User.
Record User := mk {
  ID : string;
  Username : string;
  PasswordHash : string;
  Email : string;
  Role : string;
  TOTPSecret : string;
  TOTPEnabled : bool;
  MustChangePassword : bool;
  CreatedAt : time;
  UpdatedAt : time
}.
End User.
Abbreviation User := User.User.

Module Agent.
Record Agent := mk {
  ID : string;
  Hostname : string;
  Labels : option (gmap string string);
  Capabilities : string;
  Status : string;
  LastSeenAt : time;
  RegisteredAt : time;
  Certificate : string;
  HMACSecret : list Z;
  Version : string;
  OS : string;
  Arch : string;
  UpdatePolicy : string;
  UpdateWindowStart : string;
  UpdateWindowEnd : string;
  LastUpdateAt : option time;
  LastUpdateError : string
}.
End Agent.
Abbreviation Agent := Agent.Agent.

Module AgentUpdateHistory.
Record AgentUpdateHistory := mk {
  ID : string;
  AgentID : string;
  FromVersion : string;
  ToVersion : string;
  Status : string;
  ErrorMessage : string;
  StartedAt : time;
  CompletedAt : option time;
  RolledBack : bool
}.
End AgentUpdateHistory.
Abbreviation AgentUpdateHistory := AgentUpdateHistory.AgentUpdateHistory.

Module DeploymentRecord.
Record DeploymentRecord := mk {
  ID : string;
  Project : string;
  ProjectID : option string;
  Target : string;
  Branch : string;
  CommitHash : string;
  Status : string;
  ReleaseNumber : Z;
  StartedAt : time;
  CompletedAt : option time;
  TriggeredBy : string;
  TriggerSource : string;
  ErrorMessage : string
}.
End DeploymentRecord.
Abbreviation DeploymentRecord := DeploymentRecord.DeploymentRecord.

Module DeploymentLog.
Record DeploymentLog := mk {
  ID : string;
  DeploymentID : string;
  Level : string;
  Message : string;
  Source : string;
  CreatedAt : time
}.
End DeploymentLog.
Abbreviation DeploymentLog := DeploymentLog.DeploymentLog.

Module DeploymentAgent.
Record DeploymentAgent := mk {
  ID : string;
  DeploymentID : string;
  AgentID : string;
  Status : string;
  StartedAt : option time;
  CompletedAt : option time;
  ErrorMessage : string
}.
End DeploymentAgent.
Abbreviation DeploymentAgent := DeploymentAgent.DeploymentAgent.

Module ScheduledDeployment.
Record ScheduledDeployment := mk {
  ID : string;
  Project : string;
  Target : string;
  Branch : string;
  ScheduledAt : time;
  ScheduledBy : string;
  Status : string
}.
End ScheduledDeployment.
Abbreviation ScheduledDeployment := ScheduledDeployment.ScheduledDeployment.

Module AuditEntry.
Record AuditEntry := mk {
  ID : string;
  Timestamp : time;
  Source : string;
  User : string;
  Action : string;
  Resource : string;
  ResourceID : string;
  ResourceData : string;
  Details : string;
  IPAddress : string;
  Result : string
}.
End AuditEntry.
Abbreviation AuditEntry := AuditEntry.AuditEntry.

Module Secret.
Record Secret := mk {
  ID : string;
  Project : string;
  ProjectID : option string;
  Scope : string;
  Key : string;
  ValueEncrypted : list Z;
  CreatedAt : time;
  UpdatedAt : time
}.
End Secret.
Abbreviation Secret := Secret.Secret.

Module SecretInfo.
Record SecretInfo := mk {
  Key : string;
  Scope : string;
  UpdatedAt : time
}.
End SecretInfo.
Abbreviation SecretInfo := SecretInfo.SecretInfo.

Module Project.
Record Project := mk {
  ID : string;
  Name : string;
  Repository : string;
  Branch : string;
  DeployPath : string;
  TypeID : option string;
  CreatedAt : time;
  UpdatedAt : time;
  LastDeployAt : option time;
  LastDeployStatus : string;
  HealthCheckID : option string;
  AutoRollbackEnabled : bool;
  RollbackOnHealthFail : bool
}.
End Project.
Abbreviation Project := Project.Project.

Module ProjectType.
Record ProjectType := mk {
  ID : string;
  Name : string;
  Description : string;
  BuildCmd : string;
  ProjectCount : Z;
  CreatedAt : time
}.
End ProjectType.
Abbreviation ProjectType := ProjectType.ProjectType.

Module ProjectWebhook.
Record ProjectWebhook := mk {
  ID : string;
  ProjectID : string;
  Provider : string;
  SecretEncrypted : list Z;
  Enabled : bool;
  RequireSecret : bool;
  CreatedAt : time;
  UpdatedAt : time
}.
End ProjectWebhook.
Abbreviation ProjectWebhook := ProjectWebhook.ProjectWebhook.

Module Session.
Record Session := mk {
  ID : string;
  UserID : string;
  Token : string;
  IPAddress : string;
  UserAgent : string;
  CreatedAt : time;
  ExpiresAt : time;
  LastUsed : time
}.
End Session.
Abbreviation Session := Session.Session.

Module APIKey.
Record APIKey := mk {
  ID : string;
  UserID : string;
  Name : string;
  KeyHash : string;
  KeyPrefix : string;
  Scopes : string;
  ExpiresAt : option time;
  LastUsedAt : option time;
  CreatedAt : time
}.
End APIKey.
Abbreviation APIKey := APIKey.APIKey.

Module Setting.
Record Setting := mk {
  ID : string;
  Category : string;
  Key : string;
  Value : string;
  ValueType : string;
  Encrypted : bool;
  Description : string;
  CreatedAt : time;
  UpdatedAt : time
}.
End Setting.
Abbreviation Setting := Setting.Setting.

Module SSHHostKey.
Record SSHHostKey := mk {
  ID : string;
  Hostname : string;
  Port : Z;
  KeyType : string;
  PublicKey : string;
  Fingerprint : string;
  Trusted : bool;
  AddedBy : string;
  VerifiedAt : option time;
  CreatedAt : time;
  UpdatedAt : time
}.
End SSHHostKey.
Abbreviation SSHHostKey := SSHHostKey.SSHHostKey.

Module SSHJumpServer.
Record SSHJumpServer := mk {
  ID : string;
  Name : string;
  Host : string;
  Port : Z;
  Username : string;
  SSHKeyID : option string;
  CreatedAt : time
}.
End SSHJumpServer.
Abbreviation SSHJumpServer := SSHJumpServer.SSHJumpServer.

Module BlockedIP.
Record BlockedIP := mk {
  ID : string;
  IPAddress : string;
  Reason : string;
  BlockedAt : time;
  ExpiresAt : time;
  BlockedBy : string
}.
End BlockedIP.
Abbreviation BlockedIP := BlockedIP.BlockedIP.

Module RateLimitRecord.
Record RateLimitRecord := mk {
  ID : string;
  Key : string;
  Bucket : string;
  Count : Z;
  WindowStart : time;
  WindowEnd : time
}.
End RateLimitRecord.
Abbreviation RateLimitRecord := RateLimitRecord.RateLimitRecord.

Module ProvisionJob.
Record ProvisionJob := mk {
  ID : string;
  TargetHost : string;
  TargetPort : Z;
  TargetUser : string;
  SSHKeyID : option string;
  AgentBinaryID : option string;
  Status : string;
  Stage : string;
  Progress : Z;
  ErrorMessage : string;
  RollbackData : string;
  StartedAt : time;
  CompletedAt : option time
}.
End ProvisionJob.
Abbreviation ProvisionJob := ProvisionJob.ProvisionJob.

Module ProvisionLog.
Record ProvisionLog := mk {
  ID : string;
  JobID : string;
  Timestamp : time;
  Level : string;
  Message : string
}.
End ProvisionLog.
Abbreviation ProvisionLog := ProvisionLog.ProvisionLog.

Module AgentBinary.
Record AgentBinary := mk {
  ID : string;
  Version : string;
  OS : string;
  Arch : string;
  Path : string;
  ChecksumSHA256 : string;
  SizeBytes : Z;
  UploadedAt : time;
  IsCurrent : bool
}.
End AgentBinary.
Abbreviation AgentBinary := AgentBinary.AgentBinary.

Module HealthCheckConfig.
Record HealthCheckConfig := mk {
  ID : string;
  ProjectID : option string;
  Name : string;
  URL : string;
  Method : string;
  ExpectedStatus : Z;
  TimeoutSeconds : Z;
  Retries : Z;
  RetryDelaySeconds : Z;
  Headers : string;
  Body : string;
  BodyContains : string;
  Enabled : bool;
  IsGlobal : bool;
  CreatedAt : time;
  UpdatedAt : time
}.
End HealthCheckConfig.
Abbreviation HealthCheckConfig := HealthCheckConfig.HealthCheckConfig.

Module HealthCheckResult.
Record HealthCheckResult := mk {
  ConfigID : string;
  DeploymentID : string;
  Success : bool;
  StatusCode : Z;
  ResponseTimeMs : Z;
  ErrorMessage : string;
  RetryCount : Z;
  CheckedAt : time
}.
End HealthCheckResult.
Abbreviation HealthCheckResult := HealthCheckResult.HealthCheckResult.

Module DeploymentRollback.
Record DeploymentRollback := mk {
  ID : string;
  DeploymentID : string;
  ProjectName : string;
  FromRelease : Z;
  ToRelease : Z;
  Reason : string;
  TriggeredBy : string;
  HealthCheckFailed : bool;
  HealthCheckError : string;
  Status : string;
  ErrorMessage : string;
  StartedAt : time;
  CompletedAt : option time
}.
End DeploymentRollback.
Abbreviation DeploymentRollback := DeploymentRollback.DeploymentRollback.

(** [APIKey.IsValid] at time [now]; a nil key is invalid. *)
Definition APIKey_IsValid (now : time) (key : option APIKey) : bool :=
  match key with
  | None => false
  | Some k =>
      match k.(APIKey.ExpiresAt) with
      | Some e => negb (After now e)
      | None => true
      end
  end.
