(* ===== verification/Schema.v ===== *)
(** The SQLite schema and the statements checked against it.

    [src/internal/storage/migrations.go] creates all tables in one consolidated
    migration; each [CREATE TABLE] is a [table] here, with its columns and its
    uniqueness constraints (the primary key, the [UNIQUE] columns and table
    constraints, and the [CREATE UNIQUE INDEX] of the table).  Column types,
    defaults, [NOT NULL], [CHECK] and foreign keys are left out: what is modelled
    is what decides whether a statement can be compiled at all, namely that the
    table and the columns it names exist and that the target of its
    [ON CONFLICT] clause is a uniqueness constraint of the table. *)

From S2P Require Import Prelude.

#[local] Open Scope string_scope.

Record table := mkTable {
  columns : list string;
  uniques : list (list string)
}.

(** * Statements *)

(** The shapes of statement the program prepares: which table, which columns
    are written, which columns select the rows.  [Upsert] is an
    [INSERT ... ON CONFLICT(conflict) DO UPDATE SET sets]. *)
Inductive sql :=
| Insert (tbl : string) (cols : list string)
| Upsert (tbl : string) (cols conflict sets : list string)
| Update (tbl : string) (sets where_ : list string)
| DeleteFrom (tbl : string) (where_ : list string).

#[global] Instance sql_eq_dec : EqDecision sql.
Proof. solve_decision. Defined.

Definition sql_table (q : sql) : string :=
  match q with
  | Insert t _ | Upsert t _ _ _ | Update t _ _ | DeleteFrom t _ => t
  end.

(** Every column the statement names. *)
Definition sql_columns (q : sql) : list string :=
  match q with
  | Insert _ c => c
  | Upsert _ c k s => c ++ k ++ s
  | Update _ s w => s ++ w
  | DeleteFrom _ w => w
  end.

(** * The tables *)

Definition table_users : table :=
  mkTable
    ["id"; "username"; "password_hash"; "email"; "role"; "totp_secret"; "totp_enabled";
       "must_change_password"; "created_at"; "updated_at"]
    [["id"]; ["username"]].

Definition table_sessions : table :=
  mkTable
    ["id"; "user_id"; "ip_address"; "user_agent"; "created_at"; "expires_at"]
    [["id"]].

Definition table_api_keys : table :=
  mkTable
    ["id"; "user_id"; "name"; "key_hash"; "key_prefix"; "scopes"; "created_at";
       "last_used_at"; "expires_at"]
    [["id"]; ["key_hash"]].

Definition table_recovery_codes : table :=
  mkTable
    ["id"; "user_id"; "code_hash"; "used_at"; "created_at"]
    [["id"]].

Definition table_project_types : table :=
  mkTable
    ["id"; "name"; "description"; "build_cmd"; "created_at"]
    [["id"]; ["name"]].

Definition table_health_check_configs : table :=
  mkTable
    ["id"; "project_id"; "name"; "url"; "method"; "expected_status"; "timeout_seconds";
       "retries"; "retry_delay_seconds"; "headers"; "body"; "body_contains";
       "enabled"; "is_global"; "created_at"; "updated_at"]
    [["id"]].

Definition table_projects : table :=
  mkTable
    ["id"; "name"; "repository"; "branch"; "deploy_path"; "type_id"; "created_at";
       "updated_at"; "last_deploy_at"; "last_deploy_status"; "health_check_id";
       "auto_rollback_enabled"; "rollback_on_health_fail"]
    [["id"]; ["name"]].

Definition table_project_webhooks : table :=
  mkTable
    ["id"; "project_id"; "provider"; "secret_encrypted"; "enabled"; "created_at";
       "updated_at"; "require_secret"]
    [["id"]; ["project_id"; "provider"]].

Definition table_secrets : table :=
  mkTable
    ["id"; "project"; "project_id"; "scope"; "key"; "value_encrypted"; "created_at";
       "updated_at"]
    [["id"]; ["project"; "scope"; "key"]].

Definition table_deployments : table :=
  mkTable
    ["id"; "project"; "project_id"; "target"; "branch"; "commit_hash"; "status";
       "release_number"; "started_at"; "completed_at"; "triggered_by";
       "trigger_source"; "error_message"; "scheduled_at"; "scheduled_by"]
    [["id"]].

Definition table_deployment_logs : table :=
  mkTable
    ["id"; "deployment_id"; "level"; "message"; "source"; "created_at"]
    [["id"]].

Definition table_deployment_rollbacks : table :=
  mkTable
    ["id"; "deployment_id"; "project_name"; "from_release"; "to_release"; "reason";
       "triggered_by"; "health_check_failed"; "health_check_error"; "status";
       "error_message"; "started_at"; "completed_at"]
    [["id"]].

Definition table_deployment_agents : table :=
  mkTable
    ["id"; "deployment_id"; "agent_id"; "status"; "started_at"; "completed_at";
       "error_message"]
    [["id"]; ["deployment_id"; "agent_id"]].

Definition table_agents : table :=
  mkTable
    ["id"; "hostname"; "labels"; "capabilities"; "status"; "last_seen_at";
       "registered_at"; "certificate"; "version"; "os"; "arch"; "update_policy";
       "update_window_start"; "update_window_end"; "last_update_at";
       "last_update_error"; "hmac_secret"]
    [["id"]].

Definition table_agent_update_history : table :=
  mkTable
    ["id"; "agent_id"; "from_version"; "to_version"; "status"; "error_message";
       "started_at"; "completed_at"; "rolled_back"]
    [["id"]].

Definition table_agent_binaries : table :=
  mkTable
    ["id"; "version"; "os"; "arch"; "path"; "checksum_sha256"; "size_bytes";
       "uploaded_at"; "is_current"]
    [["id"]; ["version"; "os"; "arch"]].

Definition table_agent_provision_jobs : table :=
  mkTable
    ["id"; "target_host"; "target_port"; "target_user"; "ssh_key_id"; "agent_binary_id";
       "status"; "stage"; "progress"; "error_message"; "rollback_data"; "started_at";
       "completed_at"]
    [["id"]].

Definition table_provision_logs : table :=
  mkTable
    ["id"; "job_id"; "timestamp"; "level"; "message"]
    [["id"]].

Definition table_certificate_authorities : table :=
  mkTable
    ["id"; "version"; "common_name"; "certificate_pem"; "private_key_encrypted";
       "not_before"; "not_after"; "status"; "is_current"; "created_at"; "rotated_at"]
    [["id"]; ["version"]].

Definition table_agent_certificates : table :=
  mkTable
    ["id"; "agent_id"; "ca_id"; "serial_number"; "certificate_pem"; "not_before";
       "not_after"; "status"; "issued_at"; "renewed_at"; "revoked_at";
       "revocation_reason"]
    [["id"]; ["serial_number"]].

Definition table_server_certificates : table :=
  mkTable
    ["id"; "hostname"; "certificate_pem"; "private_key_encrypted"; "sans"; "not_before";
       "not_after"; "ca_id"; "created_at"]
    [["id"]].

Definition table_revoked_certificates : table :=
  mkTable
    ["id"; "serial_number"; "agent_id"; "reason"; "revoked_at"; "revoked_by"]
    [["id"]; ["serial_number"]].

Definition table_registration_tokens : table :=
  mkTable
    ["id"; "token"; "agent_id"; "expires_at"; "used_at"; "created_by"; "created_at"]
    [["id"]; ["token"]].

Definition table_encryption_keys : table :=
  mkTable
    ["id"; "version"; "key_material_encrypted"; "algorithm"; "status"; "created_at";
       "activated_at"; "deactivated_at"; "scheduled_deletion_at";
       "deletion_cancelled_at"]
    [["id"]; ["version"]].

Definition table_encryption_key_usage : table :=
  mkTable
    ["id"; "key_id"; "operation"; "resource_type"; "resource_id"; "timestamp"]
    [["id"]].

Definition table_cert_audit_events : table :=
  mkTable
    ["id"; "timestamp"; "event_type"; "agent_id"; "hostname"; "serial"; "ca_id"; "reason";
       "requested_by"; "client_ip"]
    [["id"]].

Definition table_ssh_keys : table :=
  mkTable
    ["id"; "name"; "public_key"; "private_key_encrypted"; "key_type"; "fingerprint";
       "created_at"; "last_used_at"; "created_by"]
    [["id"]; ["name"]].

Definition table_known_hosts : table :=
  mkTable
    ["id"; "hostname"; "port"; "key_type"; "public_key"; "fingerprint"; "added_at";
       "last_verified_at"]
    [["id"]; ["hostname"; "port"; "key_type"]].

Definition table_ssh_host_keys : table :=
  mkTable
    ["id"; "hostname"; "port"; "key_type"; "public_key"; "fingerprint"; "trusted";
       "added_by"; "verified_at"; "created_at"; "updated_at"]
    [["id"]; ["hostname"; "port"; "key_type"]].

Definition table_ssh_jump_servers : table :=
  mkTable
    ["id"; "name"; "host"; "port"; "username"; "ssh_key_id"; "created_at"]
    [["id"]; ["name"]].

Definition table_source_credentials : table :=
  mkTable
    ["id"; "name"; "type"; "url_pattern"; "credential_encrypted"; "created_by";
       "created_at"; "updated_at"]
    [["id"]; ["name"]].

Definition table_settings : table :=
  mkTable
    ["id"; "category"; "key"; "value"; "value_type"; "encrypted"; "description";
       "created_at"; "updated_at"]
    [["id"]; ["category"; "key"]].

Definition table_rate_limits : table :=
  mkTable
    ["id"; "key"; "bucket"; "count"; "window_start"; "window_end"]
    [["id"]; ["key"; "bucket"; "window_start"]].

Definition table_blocked_ips : table :=
  mkTable
    ["id"; "ip_address"; "reason"; "blocked_at"; "expires_at"; "blocked_by"]
    [["id"]; ["ip_address"]].

Definition table_audit_logs : table :=
  mkTable
    ["id"; "timestamp"; "source"; "user"; "action"; "resource"; "resource_id";
       "resource_data"; "details"; "ip_address"; "result"]
    [["id"]].

Definition table_webhook_secrets : table :=
  mkTable
    ["provider"; "secret_encrypted"; "updated_at"]
    [["provider"]].

Definition table_master_key_meta : table :=
  mkTable
    ["id"; "key_id"; "created_at"; "rotated_at"; "previous_key_id";
       "previous_key_expires_at"]
    [["id"]].

Definition table_acme_certificates : table :=
  mkTable
    ["id"; "domain"; "certificate_pem"; "private_key_encrypted"; "issuer"; "not_before";
       "not_after"; "last_renewal"; "auto_renew"; "created_at"; "updated_at"]
    [["id"]; ["domain"]].

Definition table_acme_accounts : table :=
  mkTable
    ["id"; "email"; "account_url"; "private_key_encrypted"; "directory_url"; "created_at"]
    [["id"]].

Definition table_recipe_components : table :=
  mkTable
    ["id"; "namespace"; "slug"; "version"; "name"; "description"; "component_type";
       "content"; "variables"; "is_seed"; "is_raw"; "is_deprecated"; "created_at"]
    [["id"]; ["namespace"; "slug"; "version"]].

Definition table_playbooks : table :=
  mkTable
    ["id"; "namespace"; "slug"; "version"; "name"; "description"; "framework_type";
       "steps"; "shared_dirs"; "shared_files"; "writable_dirs"; "keep_releases";
       "validation_rules"; "is_seed"; "is_deprecated"; "parent_id"; "parent_version";
       "created_at"]
    [["id"]; ["namespace"; "slug"; "version"]].

Definition table_playbook_activations : table :=
  mkTable
    ["id"; "project_id"; "playbook_id"; "activated_at"; "activated_by"]
    [["id"]; ["project_id"]].

Definition table_playbook_variable_bindings : table :=
  mkTable
    ["id"; "activation_id"; "variable_name"; "source_type"; "source_ref"; "literal_value"]
    [["id"]; ["activation_id"; "variable_name"]].

Definition table_raw_command_approvals : table :=
  mkTable
    ["id"; "component_id"; "approved_by"; "approved_at"; "approval_note"]
    [["id"]; ["component_id"]].

(** Every table the migration creates, in its order. *)
Definition schema : list (string * table) :=
  [("users", table_users);
   ("sessions", table_sessions);
   ("api_keys", table_api_keys);
   ("recovery_codes", table_recovery_codes);
   ("project_types", table_project_types);
   ("health_check_configs", table_health_check_configs);
   ("projects", table_projects);
   ("project_webhooks", table_project_webhooks);
   ("secrets", table_secrets);
   ("deployments", table_deployments);
   ("deployment_logs", table_deployment_logs);
   ("deployment_rollbacks", table_deployment_rollbacks);
   ("deployment_agents", table_deployment_agents);
   ("agents", table_agents);
   ("agent_update_history", table_agent_update_history);
   ("agent_binaries", table_agent_binaries);
   ("agent_provision_jobs", table_agent_provision_jobs);
   ("provision_logs", table_provision_logs);
   ("certificate_authorities", table_certificate_authorities);
   ("agent_certificates", table_agent_certificates);
   ("server_certificates", table_server_certificates);
   ("revoked_certificates", table_revoked_certificates);
   ("registration_tokens", table_registration_tokens);
   ("encryption_keys", table_encryption_keys);
   ("encryption_key_usage", table_encryption_key_usage);
   ("cert_audit_events", table_cert_audit_events);
   ("ssh_keys", table_ssh_keys);
   ("known_hosts", table_known_hosts);
   ("ssh_host_keys", table_ssh_host_keys);
   ("ssh_jump_servers", table_ssh_jump_servers);
   ("source_credentials", table_source_credentials);
   ("settings", table_settings);
   ("rate_limits", table_rate_limits);
   ("blocked_ips", table_blocked_ips);
   ("audit_logs", table_audit_logs);
   ("webhook_secrets", table_webhook_secrets);
   ("master_key_meta", table_master_key_meta);
   ("acme_certificates", table_acme_certificates);
   ("acme_accounts", table_acme_accounts);
   ("recipe_components", table_recipe_components);
   ("playbooks", table_playbooks);
   ("playbook_activations", table_playbook_activations);
   ("playbook_variable_bindings", table_playbook_variable_bindings);
   ("raw_command_approvals", table_raw_command_approvals)].

(** The tables [Down] drops, in its order. *)
Definition dropped : list string :=
  ["raw_command_approvals"; "playbook_variable_bindings"; "playbook_activations"; "playbooks";
   "recipe_components"; "acme_accounts"; "acme_certificates"; "master_key_meta";
   "webhook_secrets"; "audit_logs"; "blocked_ips"; "rate_limits"; "settings";
   "source_credentials"; "ssh_jump_servers"; "ssh_host_keys"; "known_hosts"; "ssh_keys";
   "cert_audit_events"; "encryption_key_usage"; "encryption_keys"; "registration_tokens";
   "revoked_certificates"; "server_certificates"; "agent_certificates";
   "certificate_authorities"; "provision_logs"; "agent_provision_jobs"; "agent_binaries";
   "agent_update_history"; "agents"; "deployment_agents"; "deployment_rollbacks";
   "deployment_logs"; "deployments"; "secrets"; "project_webhooks"; "projects";
   "health_check_configs"; "project_types"; "recovery_codes"; "api_keys"; "sessions"; "users"].

(** * Checking a statement *)

Definition find_table (n : string) : option table :=
  snd <$> head (filter (λ e, e.1 = n) schema).

Definition columns_ok (t : table) (cs : list string) : bool :=
  forallb (λ c, bool_decide (c ∈ columns t)) cs.

Definition conflict_ok (t : table) (q : sql) : bool :=
  match q with
  | Upsert _ _ conflict _ =>
      existsb (λ u, bool_decide (u ⊆ conflict ∧ conflict ⊆ u)) (uniques t)
  | _ => true
  end.

(** The statement compiles against the schema. *)
Definition sql_ok (q : sql) : bool :=
  match find_table (sql_table q) with
  | Some t => columns_ok t (sql_columns q) && conflict_ok t q
  | None => false
  end.

(** * Properties *)

Lemma schema_names_nodup : NoDup schema.*1.
Proof. apply (bool_decide_unpack _). vm_compute. exact I. Qed.

(** [Down] drops exactly the tables [Up] creates, each once: rolling the
    consolidated migration back leaves no table behind. *)
Lemma dropped_covers_schema : dropped ≡ₚ schema.*1.
Proof. apply (bool_decide_unpack _). vm_compute. exact I. Qed.

(** Every uniqueness constraint is over columns of its table. *)
Lemma uniques_are_columns n t u :
  find_table n = Some t → u ∈ uniques t → u ⊆ columns t.
Proof.
  unfold find_table. intros Ht Hu.
  assert (∃ e, e ∈ schema ∧ e.2 = t) as ([n' t'] & Hin & <-).
  { apply fmap_Some in Ht as (e & He & ->). apply head_Some_elem_of in He.
    rewrite list_elem_of_filter in He. eexists; split; [apply He|done]. }
  assert (Forall (λ e, Forall (λ u, u ⊆ columns e.2) (uniques e.2)) schema) as Hall.
  { apply (bool_decide_unpack _). vm_compute. exact I. }
  rewrite Forall_forall in Hall. apply Hall in Hin. rewrite Forall_forall in Hin. auto.
Qed.
