(* ===== verification/WriteOps.v ===== *)
(** Queued write operations and the statements they turn into
    ([src/internal/storage/writeop.go], [memory_writeops.go]).

    A mutating method of the memory store queues a [WriteOp] whose [Data] is an
    [any]; a background worker later gives it to [executeWriteOp], which selects
    the executor of its table, asserts the dynamic type of [Data] and runs one
    SQL statement.  What an executor does is a [plan]: the statement it would run
    with the argument it binds, nothing, or the error it returns instead.  (The
    JSON encodings of labels, steps and component contents always succeed: they
    are structs, slices and maps of strings, numbers and booleans.) *)

From S2P Require Import Prelude Schema.

#[local] Open Scope string_scope.

(** * Write operations *)

Inductive WriteOpType := WriteOpInsert | WriteOpUpdate | WriteOpDelete.

#[global] Instance WriteOpType_eq_dec : EqDecision WriteOpType.
Proof. solve_decision. Defined.

Definition WriteOpType_String (t : WriteOpType) : string :=
  match t with
  | WriteOpInsert => "INSERT"
  | WriteOpUpdate => "UPDATE"
  | WriteOpDelete => "DELETE"
  end.

(** The struct types of package storage a payload can point to. *)
Inductive gotype :=
| TUser | TSession | TAPIKey | TSetting | TProject | TProjectType | TProjectWebhook | TSecret
| TAgent | TAgentBinary | TAgentUpdateHistory | TDeploymentRecord | TDeploymentLog |
TDeploymentRollback | TScheduledDeployment | TAuditEntry | TBlockedIP | TRateLimitRecord |
TProvisionJob | TSSHHostKey | TSSHJumpServer | THealthCheckConfig | TACMECertificate |
TACMEAccount | TRecoveryCode | TRecipeComponent | TPlaybook | TPlaybookActivation |
TPlaybookVariableBinding | TRawCommandApproval | TCertificateAuthority | TAgentCertificate |
TServerCertificate | TRegistrationToken | TSourceCredential | TRevokedCertificate |
TEncryptionKey | TSSHKey | TCertAuditEvent.

#[global] Instance gotype_eq_dec : EqDecision gotype.
Proof. solve_decision. Defined.

(** The dynamic types inside a [map[string]any] payload. *)
Inductive scalar :=
| VString (s : string)
| VInt64 (z : Z)
| VTime (t : time)
| VBool (b : bool)
| VStringPtr (p : option string).

(** The values the code puts into [WriteOp.Data], by dynamic type: a pointer to
    a stored record (identified by the record's type and key; its fields are
    read through the pointer when the operation is executed, not when it is
    queued), a string, an [int64], and the map types. *)
Inductive Data :=
| DPtr (T : gotype) (key : string)
| DString (s : string)
| DInt64 (z : Z)
| DMapSS (m : list (string * string))
| DMapST (m : list (string * time))
| DMapSA (m : list (string * scalar)).

(** The dynamic type of a payload. *)
Inductive shape := SPtr (T : gotype) | SString | SInt64 | SMapSS | SMapST | SMapSA.

Definition shape_of (d : Data) : shape :=
  match d with
  | DPtr T _ => SPtr T | DString _ => SString | DInt64 _ => SInt64
  | DMapSS _ => SMapSS | DMapST _ => SMapST | DMapSA _ => SMapSA
  end.

Module WriteOp.
Record WriteOp := mk {
  Type_ : WriteOpType;
  Table : string;
  Data_ : Data;
  Timestamp : time
}.
End WriteOp.
Abbreviation WriteOp := WriteOp.WriteOp.

Definition NewWriteOp (now : time) (opType : WriteOpType) (table : string) (data : Data) : WriteOp :=
  WriteOp.mk opType table data now.

(** * Executors *)

(** What an executor does: no statement at all, or one statement with the
    argument bound in its [WHERE] clause or [VALUES]. *)
Inductive plan :=
| Nothing
| Exec (q : sql) (arg : Data).

(** Assert that [op.Data] is a pointer to a [T]; if it is not, return
    [fmt.Errorf(msg)], else run [q]. *)
Definition assert_ptr (T : gotype) (op : WriteOp) (msg : string) (q : sql) : result plan :=
  match op.(WriteOp.Data_) with
  | DPtr T' k => if decide (T' = T) then Ok (Exec q (DPtr T' k)) else Err (Errorf msg)
  | _ => Err (Errorf msg)
  end.

Definition assert_string (op : WriteOp) (msg : string) (q : sql) : result plan :=
  match op.(WriteOp.Data_) with
  | DString s => Ok (Exec q (DString s))
  | _ => Err (Errorf msg)
  end.

Definition assert_int64 (op : WriteOp) (msg : string) (q : sql) : result plan :=
  match op.(WriteOp.Data_) with
  | DInt64 z => Ok (Exec q (DInt64 z))
  | _ => Err (Errorf msg)
  end.

(** Lookup in a map literal; a missing key of a [map[string]string] reads "". *)
Definition map_get {A} (k : string) (m : list (string * A)) : option A :=
  snd <$> head (filter (λ e, e.1 = k) m).

Definition executeUserOp (op : WriteOp) : result plan :=
  match op.(WriteOp.Type_) with
  | WriteOpInsert =>
      assert_ptr TUser op "invalid data type for user insert"
        (Upsert "users"
          ["id"; "username"; "password_hash"; "email"; "role"; "must_change_password";
           "totp_secret"; "totp_enabled"; "created_at"; "updated_at"]
          ["id"]
          ["username"; "password_hash"; "email"; "role"; "must_change_password";
           "totp_secret"; "totp_enabled"; "updated_at"])
  | WriteOpUpdate =>
      assert_ptr TUser op "invalid data type for user update"
        (Update "users"
          ["username"; "password_hash"; "email"; "role"; "must_change_password";
           "totp_secret"; "totp_enabled"; "updated_at"] ["id"])
  | WriteOpDelete =>
      match op.(WriteOp.Data_) with
      | DString v => Ok (Exec (DeleteFrom "users" ["id"]) (DString v))
      | DMapSS v => Ok (Exec (DeleteFrom "users" ["id"]) (DString (default "" (map_get "id" v))))
      | _ => Err (Errorf "invalid data type for user delete")
      end
  end.

Definition executeSessionOp (op : WriteOp) : result plan :=
  match op.(WriteOp.Type_) with
  | WriteOpInsert =>
      assert_ptr TSession op "invalid data type for session insert"
        (Insert "sessions"
          ["id"; "user_id"; "ip_address"; "user_agent"; "created_at"; "expires_at"])
  | WriteOpDelete =>
      match op.(WriteOp.Data_) with
      | DString v => Ok (Exec (DeleteFrom "sessions" ["id"]) (DString v))
      | DInt64 v => Ok (Exec (DeleteFrom "sessions" ["user_id"]) (DInt64 v))
      | _ => Err (Errorf "invalid data type for session delete")
      end
  | _ => Ok Nothing
  end.

Definition executeAPIKeyOp (op : WriteOp) : result plan :=
  match op.(WriteOp.Type_) with
  | WriteOpInsert =>
      assert_ptr TAPIKey op "invalid data type for api_key insert"
        (Insert "api_keys"
          ["id"; "user_id"; "name"; "key_hash"; "key_prefix"; "scopes"; "expires_at";
           "last_used_at"; "created_at"])
  | WriteOpUpdate =>
      match op.(WriteOp.Data_) with
      | DMapSA m =>
          match map_get "id" m, map_get "last_used_at" m with
          | Some (VInt64 id), Some lastUsed =>
              Ok (Exec (Update "api_keys" ["last_used_at"] ["id"]) (DInt64 id))
          | _, _ => Ok Nothing
          end
      | _ => Ok Nothing
      end
  | WriteOpDelete =>
      match op.(WriteOp.Data_) with
      | DString v => Ok (Exec (DeleteFrom "api_keys" ["id"]) (DString v))
      | DMapSS v =>
          match map_get "id" v with
          | Some id => Ok (Exec (DeleteFrom "api_keys" ["id"]) (DString id))
          | None => Err (Errorf "invalid data type for api_key delete: missing id in map")
          end
      | _ => Err (Errorf "invalid data type for api_key delete: got %T")
      end
  end.

Definition executeSettingOp (op : WriteOp) : result plan :=
  match op.(WriteOp.Type_) with
  | WriteOpInsert | WriteOpUpdate =>
      assert_ptr TSetting op "invalid data type for setting"
        (Upsert "settings"
         ["id"; "category"; "key"; "value"; "value_type"; "encrypted"; "description";
            "created_at"; "updated_at"]
         ["category"; "key"]
         ["value"; "encrypted"; "updated_at"])
  | WriteOpDelete =>
      assert_string op "invalid data type for setting delete"
        (DeleteFrom "settings" ["category"; "key"])
  end.

Definition executeProjectOp (op : WriteOp) : result plan :=
  match op.(WriteOp.Type_) with
  | WriteOpInsert =>
      assert_ptr TProject op "invalid data type for project insert"
        (Insert "projects"
         ["id"; "name"; "repository"; "branch"; "deploy_path"; "type_id"; "created_at";
            "updated_at"; "last_deploy_at"; "last_deploy_status"; "health_check_id";
            "auto_rollback_enabled"; "rollback_on_health_fail"])
  | WriteOpUpdate =>
      assert_ptr TProject op "invalid data type for project update"
        (Update "projects"
         ["name"; "repository"; "branch"; "deploy_path"; "type"; "updated_at";
            "last_deploy_at"; "last_deploy_status"; "health_check_id";
            "auto_rollback_enabled"; "rollback_on_health_fail"] ["id"])
  | WriteOpDelete =>
      assert_int64 op "invalid data type for project delete"
        (DeleteFrom "projects" ["id"])
  end.

Definition executeProjectTypeOp (op : WriteOp) : result plan :=
  match op.(WriteOp.Type_) with
  | WriteOpInsert =>
      assert_ptr TProjectType op "invalid data type for project_type insert"
        (Insert "project_types"
         ["id"; "name"; "description"; "build_cmd"; "project_count"; "created_at"])
  | WriteOpUpdate =>
      assert_ptr TProjectType op "invalid data type for project_type update"
        (Update "project_types"
         ["name"; "description"; "build_cmd"; "project_count"] ["id"])
  | WriteOpDelete =>
      assert_int64 op "invalid data type for project_type delete"
        (DeleteFrom "project_types" ["id"])
  end.

Definition executeWebhookOp (op : WriteOp) : result plan :=
  match op.(WriteOp.Type_) with
  | WriteOpInsert | WriteOpUpdate =>
      assert_ptr TProjectWebhook op "invalid data type for webhook"
        (Upsert "project_webhooks"
         ["id"; "project_id"; "provider"; "secret_encrypted"; "enabled"; "require_secret";
            "created_at"; "updated_at"]
         ["project_id"; "provider"]
         ["secret_encrypted"; "enabled"; "require_secret"; "updated_at"])
  | WriteOpDelete =>
      assert_int64 op "invalid data type for webhook delete"
        (DeleteFrom "project_webhooks" ["id"])
  end.

Definition executeSecretOp (op : WriteOp) : result plan :=
  match op.(WriteOp.Type_) with
  | WriteOpInsert | WriteOpUpdate =>
      assert_ptr TSecret op "invalid data type for secret"
        (Upsert "secrets"
         ["id"; "project"; "project_id"; "scope"; "key"; "value_encrypted"; "created_at";
            "updated_at"]
         ["project"; "scope"; "key"]
         ["value_encrypted"; "updated_at"])
  | WriteOpDelete =>
      assert_string op "invalid data type for secret delete"
        (DeleteFrom "secrets" ["project"; "scope"; "key"])
  end.

Definition executeAgentOp (op : WriteOp) : result plan :=
  match op.(WriteOp.Type_) with
  | WriteOpInsert | WriteOpUpdate =>
      assert_ptr TAgent op "invalid data type for agent"
        (Upsert "agents"
         ["id"; "hostname"; "labels"; "capabilities"; "status"; "last_seen_at";
            "registered_at"; "certificate"; "version"; "os"; "arch"; "update_policy";
            "update_window_start"; "update_window_end"; "last_update_at";
            "last_update_error"]
         ["id"]
         ["hostname"; "labels"; "capabilities"; "status"; "last_seen_at"; "certificate";
            "version"; "os"; "arch"; "update_policy"; "update_window_start";
            "update_window_end"; "last_update_at"; "last_update_error"])
  | WriteOpDelete =>
      assert_string op "invalid data type for agent delete"
        (DeleteFrom "agents" ["id"])
  end.

Definition executeAgentBinaryOp (op : WriteOp) : result plan :=
  match op.(WriteOp.Type_) with
  | WriteOpInsert =>
      assert_ptr TAgentBinary op "invalid data type for agent_binary insert"
        (Insert "agent_binaries"
         ["id"; "version"; "os"; "arch"; "path"; "checksum_sha256"; "size_bytes";
            "uploaded_at"; "is_current"])
  | WriteOpUpdate =>
      assert_ptr TAgentBinary op "invalid data type for agent_binary update"
        (Update "agent_binaries"
         ["version"; "os"; "arch"; "path"; "checksum_sha256"; "size_bytes"; "is_current"]
            ["id"])
  | WriteOpDelete =>
      assert_int64 op "invalid data type for agent_binary delete"
        (DeleteFrom "agent_binaries" ["id"])
  end.

Definition executeAgentUpdateHistoryOp (op : WriteOp) : result plan :=
  match op.(WriteOp.Type_) with
  | WriteOpInsert =>
      assert_ptr TAgentUpdateHistory op "invalid data type for agent_update_history insert"
        (Insert "agent_update_history"
         ["id"; "agent_id"; "from_version"; "to_version"; "status"; "error_message";
            "started_at"; "completed_at"; "rolled_back"])
  | WriteOpUpdate =>
      assert_ptr TAgentUpdateHistory op "invalid data type for agent_update_history update"
        (Update "agent_update_history"
         ["status"; "error_message"; "completed_at"; "rolled_back"] ["id"])
  | _ => Ok Nothing
  end.

Definition executeDeploymentOp (op : WriteOp) : result plan :=
  match op.(WriteOp.Type_) with
  | WriteOpInsert =>
      assert_ptr TDeploymentRecord op "invalid data type for deployment insert"
        (Insert "deployments"
         ["id"; "project"; "project_id"; "target"; "branch"; "commit_hash"; "status";
            "release_number"; "started_at"; "completed_at"; "triggered_by";
            "trigger_source"; "error_message"])
  | WriteOpUpdate =>
      assert_ptr TDeploymentRecord op "invalid data type for deployment update"
        (Update "deployments"
         ["status"; "completed_at"; "error_message"] ["id"])
  | WriteOpDelete =>
      assert_string op "invalid data type for deployment delete"
        (DeleteFrom "deployments" ["id"])
  end.

Definition executeDeploymentLogOp (op : WriteOp) : result plan :=
  match op.(WriteOp.Type_) with
  | WriteOpInsert =>
      assert_ptr TDeploymentLog op "invalid data type for deployment_log insert"
        (Insert "deployment_logs"
         ["id"; "deployment_id"; "level"; "message"; "source"; "created_at"])
  | WriteOpDelete =>
      assert_string op "invalid data type for deployment_log delete"
        (DeleteFrom "deployment_logs" ["deployment_id"])
  | _ => Ok Nothing
  end.

Definition executeDeploymentRollbackOp (op : WriteOp) : result plan :=
  match op.(WriteOp.Type_) with
  | WriteOpInsert =>
      assert_ptr TDeploymentRollback op "invalid data type for deployment_rollback insert"
        (Insert "deployment_rollbacks"
         ["id"; "deployment_id"; "project_name"; "from_release"; "to_release"; "reason";
            "triggered_by"; "health_check_failed"; "health_check_error"; "status";
            "error_message"; "started_at"; "completed_at"])
  | WriteOpUpdate =>
      assert_ptr TDeploymentRollback op "invalid data type for deployment_rollback update"
        (Update "deployment_rollbacks"
         ["status"; "error_message"; "completed_at"] ["id"])
  | _ => Ok Nothing
  end.

Definition executeScheduledDeploymentOp (op : WriteOp) : result plan :=
  match op.(WriteOp.Type_) with
  | WriteOpInsert =>
      assert_ptr TScheduledDeployment op "invalid data type for scheduled_deployment insert"
        (Insert "scheduled_deployments"
         ["id"; "project"; "target"; "branch"; "scheduled_at"; "scheduled_by"; "status"])
  | WriteOpUpdate =>
      assert_ptr TScheduledDeployment op "invalid data type for scheduled_deployment update"
        (Update "scheduled_deployments"
         ["status"] ["id"])
  | _ => Ok Nothing
  end.

Definition executeAuditLogOp (op : WriteOp) : result plan :=
  match op.(WriteOp.Type_) with
  | WriteOpInsert =>
      assert_ptr TAuditEntry op "invalid data type for audit_log insert"
        (Insert "audit_logs"
         ["id"; "timestamp"; "source"; "user"; "action"; "resource"; "resource_id";
            "resource_data"; "details"; "ip_address"; "result"])
  | WriteOpDelete =>
      assert_string op "invalid data type for audit_log delete"
        (DeleteFrom "audit_logs" ["timestamp"])
  | _ => Ok Nothing
  end.

Definition executeBlockedIPOp (op : WriteOp) : result plan :=
  match op.(WriteOp.Type_) with
  | WriteOpInsert =>
      assert_ptr TBlockedIP op "invalid data type for blocked_ip insert"
        (Insert "blocked_ips"
         ["id"; "ip_address"; "reason"; "blocked_at"; "expires_at"; "blocked_by"])
  | WriteOpDelete =>
      assert_string op "invalid data type for blocked_ip delete"
        (DeleteFrom "blocked_ips" ["ip_address"])
  | _ => Ok Nothing
  end.

Definition executeRateLimitOp (op : WriteOp) : result plan :=
  match op.(WriteOp.Type_) with
  | WriteOpInsert | WriteOpUpdate =>
      assert_ptr TRateLimitRecord op "invalid data type for rate_limit"
        (Upsert "rate_limits"
         ["id"; "key"; "bucket"; "count"; "window_start"; "window_end"]
         ["key"; "bucket"]
         ["count"; "window_start"; "window_end"])
  | WriteOpDelete =>
      assert_string op "invalid data type for rate_limit delete"
        (DeleteFrom "rate_limits" ["key"])
  end.

Definition executeProvisionJobOp (op : WriteOp) : result plan :=
  match op.(WriteOp.Type_) with
  | WriteOpInsert =>
      assert_ptr TProvisionJob op "invalid data type for provision_job insert"
        (Insert "provision_jobs"
         ["id"; "target_host"; "target_port"; "target_user"; "ssh_key_id";
            "agent_binary_id"; "status"; "stage"; "progress"; "error_message";
            "rollback_data"; "started_at"; "completed_at"])
  | WriteOpUpdate =>
      assert_ptr TProvisionJob op "invalid data type for provision_job update"
        (Update "provision_jobs"
         ["status"; "stage"; "progress"; "error_message"; "rollback_data"; "completed_at"]
            ["id"])
  | _ => Ok Nothing
  end.

Definition executeSSHHostKeyOp (op : WriteOp) : result plan :=
  match op.(WriteOp.Type_) with
  | WriteOpInsert =>
      assert_ptr TSSHHostKey op "invalid data type for ssh_host_key insert"
        (Insert "ssh_host_keys"
         ["id"; "hostname"; "port"; "key_type"; "public_key"; "fingerprint"; "trusted";
            "added_by"; "verified_at"; "created_at"; "updated_at"])
  | WriteOpUpdate =>
      assert_ptr TSSHHostKey op "invalid data type for ssh_host_key update"
        (Update "ssh_host_keys"
         ["trusted"; "verified_at"; "updated_at"] ["id"])
  | WriteOpDelete =>
      assert_int64 op "invalid data type for ssh_host_key delete"
        (DeleteFrom "ssh_host_keys" ["id"])
  end.

Definition executeJumpServerOp (op : WriteOp) : result plan :=
  match op.(WriteOp.Type_) with
  | WriteOpInsert =>
      assert_ptr TSSHJumpServer op "invalid data type for jump_server insert"
        (Insert "ssh_jump_servers"
         ["id"; "name"; "host"; "port"; "username"; "ssh_key_id"; "created_at"])
  | WriteOpUpdate =>
      assert_ptr TSSHJumpServer op "invalid data type for jump_server update"
        (Update "ssh_jump_servers"
         ["name"; "host"; "port"; "username"; "ssh_key_id"] ["id"])
  | WriteOpDelete =>
      assert_int64 op "invalid data type for jump_server delete"
        (DeleteFrom "ssh_jump_servers" ["id"])
  end.

Definition executeHealthCheckConfigOp (op : WriteOp) : result plan :=
  match op.(WriteOp.Type_) with
  | WriteOpInsert =>
      assert_ptr THealthCheckConfig op "invalid data type for health_check_config insert"
        (Insert "health_check_configs"
         ["id"; "project_id"; "name"; "url"; "method"; "expected_status"; "timeout_seconds";
            "retries"; "retry_delay_seconds"; "headers"; "body"; "body_contains"; "enabled";
            "is_global"; "created_at"; "updated_at"])
  | WriteOpUpdate =>
      assert_ptr THealthCheckConfig op "invalid data type for health_check_config update"
        (Update "health_check_configs"
         ["name"; "url"; "method"; "expected_status"; "timeout_seconds"; "retries";
            "retry_delay_seconds"; "headers"; "body"; "body_contains"; "enabled";
            "updated_at"] ["id"])
  | WriteOpDelete =>
      assert_int64 op "invalid data type for health_check_config delete"
        (DeleteFrom "health_check_configs" ["id"])
  end.

Definition executeACMECertificateOp (op : WriteOp) : result plan :=
  match op.(WriteOp.Type_) with
  | WriteOpInsert =>
      assert_ptr TACMECertificate op "invalid data type for acme_certificate insert"
        (Upsert "acme_certificates"
         ["id"; "domain"; "certificate_pem"; "private_key_encrypted"; "issuer";
            "not_before"; "not_after"; "last_renewal"; "auto_renew"; "created_at";
            "updated_at"]
         ["domain"]
         ["certificate_pem"; "private_key_encrypted"; "issuer"; "not_before"; "not_after";
            "last_renewal"; "auto_renew"; "updated_at"])
  | WriteOpUpdate =>
      assert_ptr TACMECertificate op "invalid data type for acme_certificate update"
        (Update "acme_certificates"
         ["certificate_pem"; "private_key_encrypted"; "issuer"; "not_before"; "not_after";
            "last_renewal"; "auto_renew"; "updated_at"] ["domain"])
  | WriteOpDelete =>
      assert_ptr TACMECertificate op "invalid data type for acme_certificate delete"
        (DeleteFrom "acme_certificates" ["domain"])
  end.

Definition executeACMEAccountOp (op : WriteOp) : result plan :=
  match op.(WriteOp.Type_) with
  | WriteOpInsert =>
      assert_ptr TACMEAccount op "invalid data type for acme_account insert"
        (Insert "acme_accounts"
         ["id"; "email"; "account_url"; "private_key_encrypted"; "directory_url";
            "created_at"])
  | WriteOpUpdate =>
      assert_ptr TACMEAccount op "invalid data type for acme_account update"
        (Update "acme_accounts"
         ["account_url"; "private_key_encrypted"; "directory_url"] ["email"])
  | WriteOpDelete =>
      assert_ptr TACMEAccount op "invalid data type for acme_account delete"
        (DeleteFrom "acme_accounts" ["email"])
  end.

Definition executeRecoveryCodeOp (op : WriteOp) : result plan :=
  match op.(WriteOp.Type_) with
  | WriteOpInsert =>
      assert_ptr TRecoveryCode op "invalid data type for recovery_code insert"
        (Insert "recovery_codes"
         ["id"; "user_id"; "code_hash"; "used_at"; "created_at"])
  | WriteOpUpdate =>
      assert_ptr TRecoveryCode op "invalid data type for recovery_code update"
        (Update "recovery_codes"
         ["used_at"] ["id"])
  | WriteOpDelete =>
      assert_ptr TRecoveryCode op "invalid data type for recovery_code delete"
        (DeleteFrom "recovery_codes" ["id"])
  end.

Definition executeRecipeComponentOp (op : WriteOp) : result plan :=
  match op.(WriteOp.Type_) with
  | WriteOpInsert =>
      assert_ptr TRecipeComponent op "invalid data type for recipe_component insert"
        (Insert "recipe_components"
         ["id"; "namespace"; "slug"; "version"; "name"; "description"; "component_type";
            "content"; "variables"; "is_seed"; "is_raw"; "is_deprecated"; "created_at"])
  | WriteOpUpdate =>
      assert_ptr TRecipeComponent op "invalid data type for recipe_component update"
        (Update "recipe_components"
         ["namespace"; "slug"; "version"; "name"; "description"; "component_type";
            "content"; "variables"; "is_seed"; "is_raw"; "is_deprecated"] ["id"])
  | WriteOpDelete =>
      assert_int64 op "invalid data type for recipe_component delete"
        (DeleteFrom "recipe_components" ["id"])
  end.

Definition executePlaybookOp (op : WriteOp) : result plan :=
  match op.(WriteOp.Type_) with
  | WriteOpInsert =>
      assert_ptr TPlaybook op "invalid data type for playbook insert"
        (Insert "playbooks"
         ["id"; "namespace"; "slug"; "version"; "name"; "description"; "framework_type";
            "steps"; "shared_dirs"; "shared_files"; "writable_dirs"; "keep_releases";
            "validation_rules"; "is_seed"; "is_deprecated"; "parent_id"; "parent_version";
            "created_at"])
  | WriteOpUpdate =>
      assert_ptr TPlaybook op "invalid data type for playbook update"
        (Update "playbooks"
         ["namespace"; "slug"; "version"; "name"; "description"; "framework_type"; "steps";
            "shared_dirs"; "shared_files"; "writable_dirs"; "keep_releases";
            "validation_rules"; "is_seed"; "is_deprecated"; "parent_id"; "parent_version"]
            ["id"])
  | WriteOpDelete =>
      assert_int64 op "invalid data type for playbook delete"
        (DeleteFrom "playbooks" ["id"])
  end.

Definition executePlaybookActivationOp (op : WriteOp) : result plan :=
  match op.(WriteOp.Type_) with
  | WriteOpInsert =>
      assert_ptr TPlaybookActivation op "invalid data type for playbook_activation insert"
        (Insert "playbook_activations"
         ["id"; "project_id"; "playbook_id"; "activated_at"; "activated_by"])
  | WriteOpDelete =>
      assert_int64 op "invalid data type for playbook_activation delete"
        (DeleteFrom "playbook_activations" ["id"])
  | _ => Ok Nothing
  end.

Definition executeVariableBindingOp (op : WriteOp) : result plan :=
  match op.(WriteOp.Type_) with
  | WriteOpInsert =>
      assert_ptr TPlaybookVariableBinding op "invalid data type for variable_binding insert"
        (Insert "playbook_variable_bindings"
         ["id"; "activation_id"; "variable_name"; "source_type"; "source_ref";
            "literal_value"])
  | WriteOpUpdate =>
      assert_ptr TPlaybookVariableBinding op "invalid data type for variable_binding update"
        (Update "playbook_variable_bindings"
         ["variable_name"; "source_type"; "source_ref"; "literal_value"] ["id"])
  | WriteOpDelete =>
      assert_int64 op "invalid data type for variable_binding delete"
        (DeleteFrom "playbook_variable_bindings" ["id"])
  end.

Definition executeRawApprovalOp (op : WriteOp) : result plan :=
  match op.(WriteOp.Type_) with
  | WriteOpInsert =>
      assert_ptr TRawCommandApproval op "invalid data type for raw_approval insert"
        (Insert "raw_command_approvals"
         ["id"; "component_id"; "approved_by"; "approved_at"; "approval_note"])
  | WriteOpDelete =>
      assert_int64 op "invalid data type for raw_approval delete"
        (DeleteFrom "raw_command_approvals" ["id"])
  | _ => Ok Nothing
  end.

(** The executor of each table, as in the switch on [op.Table]. *)
Definition executors : list (string * (WriteOp → result plan)) :=
  [("users", executeUserOp);
   ("sessions", executeSessionOp);
   ("api_keys", executeAPIKeyOp);
   ("settings", executeSettingOp);
   ("projects", executeProjectOp);
   ("project_types", executeProjectTypeOp);
   ("project_webhooks", executeWebhookOp);
   ("webhooks", executeWebhookOp);
   ("secrets", executeSecretOp);
   ("agents", executeAgentOp);
   ("agent_binaries", executeAgentBinaryOp);
   ("agent_update_history", executeAgentUpdateHistoryOp);
   ("deployments", executeDeploymentOp);
   ("deployment_logs", executeDeploymentLogOp);
   ("deployment_rollbacks", executeDeploymentRollbackOp);
   ("scheduled_deployments", executeScheduledDeploymentOp);
   ("audit_logs", executeAuditLogOp);
   ("blocked_ips", executeBlockedIPOp);
   ("rate_limits", executeRateLimitOp);
   ("provision_jobs", executeProvisionJobOp);
   ("ssh_host_keys", executeSSHHostKeyOp);
   ("ssh_jump_servers", executeJumpServerOp);
   ("health_check_configs", executeHealthCheckConfigOp);
   ("acme_certificates", executeACMECertificateOp);
   ("acme_accounts", executeACMEAccountOp);
   ("recovery_codes", executeRecoveryCodeOp);
   ("recipe_components", executeRecipeComponentOp);
   ("playbooks", executePlaybookOp);
   ("playbook_activations", executePlaybookActivationOp);
   ("playbook_variable_bindings", executeVariableBindingOp);
   ("raw_command_approvals", executeRawApprovalOp)].

(** An unknown table is logged and skipped. *)
Definition executeWriteOp (op : WriteOp) : result plan :=
  match map_get op.(WriteOp.Table) executors with
  | Some execute => execute op
  | None => Ok Nothing
  end.

(** * Accepted operations *)

(** The worker can carry the operation out: its executor returns no error of
    its own and the statement compiles against the schema. *)
Definition accepted (op : WriteOp) : bool :=
  match executeWriteOp op with
  | Ok Nothing => true
  | Ok (Exec q _) => sql_ok q
  | _ => false
  end.

(** The operation is refused whatever the database holds. *)
Definition refused (op : WriteOp) : bool := negb (accepted op).

Definition all_accepted (ops : list WriteOp) : Prop := Forall (λ op, accepted op = true) ops.

(** Evaluate [accepted] on an operation whose type, table and payload type are
    known but whose strings and times are variables. *)
Ltac solve_accepted := vm_compute; reflexivity.
