(* ===== verification/WriteBehind.v ===== *)
(** The write-behind machinery of the memory store
    ([src/internal/storage/memory.go], [writeop.go], [factory.go]): the bounded
    write channels, [queueWrite], the background worker of a channel with its
    batches, the transactional flush, and shutdown.

    The database is a parameter: all that is used of it is a begin, a statement
    execution inside the transaction, a commit, and that a transaction that is
    not committed leaves it as it was.  The goroutines are a step relation: a
    store call holds the mutex from its [Lock] to its [Unlock] and sends its
    writes one by one, a send waits for room in the channel, and the worker of
    each channel that has one receives, ticks and drains in any interleaving. *)

From stdpp Require Import relations functions.
From S2P Require Import Prelude Schema WriteOps.

#[local] Open Scope string_scope.
#[local] Open Scope list_scope.
#[local] Open Scope Z_scope.

(** * Flushing a batch *)

(** The database behind a worker.  [tx_exec] runs a statement with its argument
    inside the open transaction and is [None] when SQLite reports an error; a
    pointer argument is read in the heap of that moment. *)
Class Database := {
  DB : Type;
  Heap : Type;
  tx_exec : Heap → DB → sql → Data → option DB
}.

Section flush.
Context `{Database}.

(** What one flush meets: whether its [Begin] and its [Commit] succeed, and the
    heap its k-th operation sees (the worker holds no lock while it reads). *)
Record tx_env := { begin_ok : bool; commit_ok : bool; heap_at : Z → Heap }.

(** [executor(tx, op)] applied to a transaction. *)
Definition run_op (h : Heap) (tx : DB) (op : WriteOp) : option DB :=
  match executeWriteOp op with
  | Ok Nothing => Some tx
  | Ok (Exec q arg) => tx_exec h tx q arg
  | _ => None
  end.

(** The loop over the batch: the transaction reached and the number of
    operations executed, and whether it ran to the end. *)
Fixpoint run_batch (heap : Z → Heap) (tx : DB) (executed : Z) (batch : list WriteOp)
    : DB * Z * bool :=
  match batch with
  | [] => (tx, executed, true)
  | op :: rest =>
      match run_op (heap executed) tx op with
      | Some tx' => run_batch heap tx' (executed + 1) rest
      | None => (tx, executed, false)
      end
  end.

(** [FlushBatchFunc]: the database afterwards, the count and the error.  The
    deferred [Rollback] restores the database on every path but the committed
    one. *)
Definition FlushBatchFunc (e : tx_env) (db : DB) (batch : list WriteOp) : DB * Z * result unit :=
  if bool_decide (batch = []) then (db, 0, Ok tt)
  else if negb (begin_ok e) then (db, 0, Err (Errorf "begin transaction"))
  else
    let '(tx, executed, complete) := run_batch (heap_at e) db 0 batch in
    if negb complete then (db, executed, Err (Errorf "execute"))
    else if negb (commit_ok e) then (db, executed, Err (Errorf "commit transaction"))
    else (tx, executed, Ok tt).

(** The same method of a [WriteBatcher]. *)
Definition FlushBatch (e : tx_env) (db : DB) (batch : list WriteOp) : DB * Z * result unit :=
  FlushBatchFunc e db batch.

Lemma run_batch_app heap tx n b1 b2 :
  run_batch heap tx n (b1 ++ b2) =
  (let '(tx', n', c) := run_batch heap tx n b1 in
   if c then run_batch heap tx' n' b2 else (tx', n', false)).
Proof.
  revert tx n. induction b1 as [|op b1 IH]; intros tx n; simpl; [done|].
  destruct (run_op _ tx op); [apply IH|done].
Qed.

(** Running a batch ends by completing it with every operation counted, or at
    the first operation that fails. *)
Lemma run_batch_cases heap tx n batch tx' n' c :
  run_batch heap tx n batch = (tx', n', c) →
  if c then n' = n + len batch
  else ∃ b1 op b2, batch = b1 ++ op :: b2 ∧ n' = n + len b1 ∧
       run_batch heap tx n b1 = (tx', n', true) ∧ run_op (heap n') tx' op = None.
Proof.
  revert tx n. induction batch as [|op batch IH]; intros tx n; simpl.
  { intros [= <- <- <-]. unfold len; simpl. lia. }
  destruct (run_op _ tx op) as [tx1|] eqn:E.
  - intros Hr%IH. destruct c; [unfold len in *; simpl; lia|].
    destruct Hr as (b1 & op' & b2 & -> & Hn & Hb & Ho).
    exists (op :: b1), op', b2. simpl. rewrite E. unfold len in *; simpl. split_and!; [done|lia|done|done].
  - intros [= <- <- <-]. exists [], op, batch. unfold len; simpl. split_and!; [done|lia|f_equal|done].
Qed.

Lemma flush_error_unchanged e db batch db' n err :
  FlushBatchFunc e db batch = (db', n, Err err) → db' = db.
Proof.
  unfold FlushBatchFunc. case_bool_decide; [done|].
  destruct (begin_ok e); simpl; [|naive_solver].
  destruct (run_batch _ db 0 batch) as [[tx k] []]; simpl; [|naive_solver].
  destruct (commit_ok e); naive_solver.
Qed.

Lemma flush_ok_inv e db batch db' n :
  FlushBatchFunc e db batch = (db', n, Ok tt) → run_batch (heap_at e) db 0 batch = (db', n, true).
Proof.
  unfold FlushBatchFunc. case_bool_decide; [subst; naive_solver|].
  destruct (begin_ok e); [|done]. simpl.
  destruct (run_batch _ db 0 batch) as [[tx k] []]; simpl; [|done].
  destruct (commit_ok e); naive_solver.
Qed.

Lemma flush_no_panic e db batch : (FlushBatchFunc e db batch).2 ≠ Panic.
Proof.
  unfold FlushBatchFunc. case_bool_decide; [done|].
  destruct (begin_ok e); simpl; [|done].
  destruct (run_batch _ db 0 batch) as [[tx k] []]; simpl; [|done].
  by destruct (commit_ok e).
Qed.

(** One operation no transaction can run keeps the whole batch out. *)
Lemma flush_refused e db batch op :
  op ∈ batch → (∀ h tx, run_op h tx op = None) →
  ∃ n err, FlushBatchFunc e db batch = (db, n, Err err).
Proof.
  intros Hin Hno. unfold FlushBatchFunc.
  case_bool_decide; [subst; by apply not_elem_of_nil in Hin|].
  destruct (begin_ok e); simpl; [|eauto].
  destruct (run_batch _ db 0 batch) as [[tx k] c] eqn:Hr.
  destruct c; simpl; [|eauto]. exfalso.
  apply list_elem_of_split in Hin as (b1 & b2 & ->).
  rewrite run_batch_app in Hr. destruct (run_batch _ db 0 b1) as [[tx1 k1] []]; [|done].
  simpl in Hr. by rewrite Hno in Hr.
Qed.

End flush.

(** * The channels *)

(** The seven write channels of a [MemoryStore]. *)
Inductive Chan :=
| coreWrites | projectsWrites | agentsWrites | deploymentsWrites
| auditWrites | ratelimitWrites | provisionWrites.

#[global] Instance Chan_eq_dec : EqDecision Chan.
Proof. solve_decision. Defined.

Definition channels : list Chan :=
  [coreWrites; projectsWrites; agentsWrites; deploymentsWrites; auditWrites;
   ratelimitWrites; provisionWrites].

(** The numbers of a [MemoryStoreConfig] (intervals in milliseconds) and which
    of its databases are set. *)
Record MemoryStoreConfig := mkConfig {
  hasDB : Chan → bool;
  FlushInterval : Chan → Z;
  BatchSize : Chan → Z;
  ChannelBufferSize : Z
}.

Definition DefaultMemoryStoreConfig : MemoryStoreConfig :=
  {| hasDB := λ _, false;
     FlushInterval := λ c,
       match c with
       | coreWrites => 100 | projectsWrites => 200 | agentsWrites => 200
       | deploymentsWrites => 50 | auditWrites => 50 | ratelimitWrites => 1000
       | provisionWrites => 200
       end;
     BatchSize := λ c,
       match c with
       | coreWrites => 50 | projectsWrites => 100 | agentsWrites => 100
       | deploymentsWrites => 200 | auditWrites => 500 | ratelimitWrites => 1000
       | provisionWrites => 50
       end;
     ChannelBufferSize := 10000 |}.

(** The configuration [NewCachedStore] builds: the default one with [CoreDB]. *)
Definition NewCachedStore_config : MemoryStoreConfig :=
  {| hasDB := λ c, bool_decide (c = coreWrites);
     FlushInterval := FlushInterval DefaultMemoryStoreConfig;
     BatchSize := BatchSize DefaultMemoryStoreConfig;
     ChannelBufferSize := ChannelBufferSize DefaultMemoryStoreConfig |}.

(** [bufSize] of [NewMemoryStore]. *)
Definition bufSize (cfg : MemoryStoreConfig) : Z :=
  if ChannelBufferSize cfg =? 0 then 10000 else ChannelBufferSize cfg.

(** * The goroutines *)

(** A channel's worker: not started, in its [select] loop, in the draining loop
    after [done] was closed, or returned. *)
Inductive worker :=
| Absent
| Running (batch : list WriteOp)
| Draining (batch : list WriteOp)
| Stopped.

Definition worker_batch (w : worker) : list WriteOp :=
  match w with Running b | Draining b => b | _ => [] end.

Section workers.
Context `{Database} (cfg : MemoryStoreConfig).

(** [mu] is [Some pending] while a store call holds the mutex and has [pending]
    still to send.  [sent] and [flushed] are history: what was put into each
    channel, and the batches its worker flushed, with whether each committed. *)
Record state := mkState {
  queue : Chan → list WriteOp;
  mu : option (list (Chan * WriteOp));
  workers : Chan → worker;
  db : Chan → DB;
  closed : bool;
  sent : Chan → list WriteOp;
  flushed : Chan → list (list WriteOp * bool)
}.

(** [NewMemoryStore]: empty channels and a worker for each database set. *)
Definition NewMemoryStore (db0 : Chan → DB) : state :=
  {| queue := λ _, []; mu := None;
     workers := λ c, if hasDB cfg c then Running [] else Absent;
     db := db0; closed := false; sent := λ _, []; flushed := λ _, [] |}.

Definition committed (r : result unit) : bool := match r with Ok _ => true | _ => false end.

(** [flush()] by the worker of [c] with this batch, which leaves the worker in
    [w]: the batch is emptied whether or not it committed. *)
Definition flush (c : Chan) (e : tx_env) (batch : list WriteOp) (w : worker) (s : state) : state :=
  let '(d, _, r) := FlushBatchFunc e (db s c) batch in
  {| s with workers := <[c := w]> (workers s);
     db := <[c := d]> (db s);
     flushed := if bool_decide (batch = []) then flushed s
                else <[c := flushed s c ++ [(batch, committed r)]]> (flushed s) |}.

Inductive step : state → state → Prop :=
(** A store method takes the mutex; its body will queue [ops]. *)
| step_lock s ops :
    mu s = None → step s {| s with mu := Some ops |}
(** [queueWrite]: either branch of the [select] sends once there is room. *)
| step_send s c op rest :
    mu s = Some ((c, op) :: rest) → len (queue s c) < bufSize cfg →
    step s {| s with queue := <[c := queue s c ++ [op]]> (queue s);
              mu := Some rest;
              sent := <[c := sent s c ++ [op]]> (sent s) |}
| step_unlock s :
    mu s = Some [] → step s {| s with mu := None |}
(** [case op := <-writes], with and without the batch reaching its size. *)
| step_recv s c b op q :
    workers s c = Running b → queue s c = op :: q → len (b ++ [op]) < BatchSize cfg c →
    step s {| s with queue := <[c := q]> (queue s);
              workers := <[c := Running (b ++ [op])]> (workers s) |}
| step_recv_flush s c b op q e :
    workers s c = Running b → queue s c = op :: q → BatchSize cfg c ≤ len (b ++ [op]) →
    step s (flush c e (b ++ [op]) (Running [])
              {| s with queue := <[c := q]> (queue s) |})
(** [case <-ticker.C] *)
| step_tick s c b e :
    workers s c = Running b → step s (flush c e b (Running []) s)
(** [case <-s.done], then the draining loop and the last flush. *)
| step_done s c b :
    workers s c = Running b → closed s = true →
    step s {| s with workers := <[c := Draining b]> (workers s) |}
| step_drain s c b op q :
    workers s c = Draining b → queue s c = op :: q →
    step s {| s with queue := <[c := q]> (queue s);
              workers := <[c := Draining (b ++ [op])]> (workers s) |}
| step_return s c b e :
    workers s c = Draining b → queue s c = [] →
    step s (flush c e b Stopped s)
(** [close(s.done)] of [Close]. *)
| step_close s :
    closed s = false → step s {| s with closed := true |}.

Definition reachable (db0 : Chan → DB) : state → Prop := rtc step (NewMemoryStore db0).

(** [s.wg.Wait()] of [Close] has returned: every worker that was started has
    stopped. *)
Definition at_rest (w : worker) : Prop := w = Stopped ∨ w = Absent.
Definition Close_returned (s : state) : Prop := ∀ c, at_rest (workers s c).

(** The database a list of flushed batches leaves: the committed batches one
    after the other, each run in full. *)
Inductive replay : DB → list (list WriteOp * bool) → DB → Prop :=
| replay_nil d : replay d [] d
| replay_dropped d l b d' :
    replay d l d' → replay d (l ++ [(b, false)]) d'
| replay_committed d l b d' heap d'' :
    replay d l d' → run_batch heap d' 0 b = (d'', len b, true) →
    replay d (l ++ [(b, true)]) d''.

(** ** Invariant *)

Record channel_inv (d0 : DB) (s : state) (c : Chan) : Prop := {
  inv_fifo : sent s c = concat (flushed s c).*1 ++ worker_batch (workers s c) ++ queue s c;
  inv_room : len (queue s c) ≤ bufSize cfg;
  inv_replay : replay d0 (flushed s c) (db s c);
  inv_worker : workers s c = Absent ↔ hasDB cfg c = false;
  inv_idle : hasDB cfg c = false → flushed s c = [];
  inv_batch : ∀ b, workers s c = Running b → b = [] ∨ len b < BatchSize cfg c;
  inv_running : closed s = false → hasDB cfg c = true → ∃ b, workers s c = Running b
}.

Lemma replay_flush d l d1 e b d2 n r :
  b ≠ [] → replay d l d1 → FlushBatchFunc e d1 b = (d2, n, r) →
  replay d (l ++ [(b, committed r)]) d2.
Proof.
  intros Hb Hr Hf. destruct r as [[]|err|]; simpl.
  - apply flush_ok_inv in Hf as Hrun.
    pose proof (run_batch_cases _ _ _ _ _ _ _ Hrun) as Hn; simpl in Hn. subst n.
    by econstructor.
  - apply flush_error_unchanged in Hf as ->. by constructor.
  - exfalso. apply (flush_no_panic e d1 b). by rewrite Hf.
Qed.

(** What [flush] leaves, on the channel flushed and on the others. *)
Lemma flush_other c c' e b w s :
  c ≠ c' →
  workers (flush c e b w s) c' = workers s c' ∧ db (flush c e b w s) c' = db s c' ∧
  flushed (flush c e b w s) c' = flushed s c'.
Proof.
  intros Hne. unfold flush. destruct (FlushBatchFunc e (db s c) b) as [[d n] r]; simpl.
  rewrite !fn_lookup_insert_ne by done. split_and!; [done..|].
  case_bool_decide; [done|]. by rewrite fn_lookup_insert_ne.
Qed.

Lemma flush_same c e b w s :
  workers (flush c e b w s) c = w ∧
  concat (flushed (flush c e b w s) c).*1 = concat (flushed s c).*1 ++ b ∧
  (∀ d0, replay d0 (flushed s c) (db s c) →
         replay d0 (flushed (flush c e b w s) c) (db (flush c e b w s) c)).
Proof.
  unfold flush. destruct (FlushBatchFunc e (db s c) b) as [[d n] r] eqn:Hf; simpl.
  rewrite !fn_lookup_insert. split; [done|]. case_bool_decide as Hb.
  - subst b. rewrite app_nil_r. split; [done|]. intros d0. unfold FlushBatchFunc in Hf.
    simpl in Hf. by injection Hf as <- _ _.
  - rewrite !fn_lookup_insert, fmap_app, concat_app; simpl. rewrite app_nil_r.
    split; [done|]. intros d0 Hr. by eapply replay_flush.
Qed.

Lemma flush_frame c e b w s :
  queue (flush c e b w s) = queue s ∧ mu (flush c e b w s) = mu s ∧
  closed (flush c e b w s) = closed s ∧ sent (flush c e b w s) = sent s.
Proof. unfold flush. by destruct (FlushBatchFunc e (db s c) b) as [[d n] r]. Qed.

(** Two states that agree on what concerns a channel. *)
Lemma channel_inv_frame d0 s s' c :
  channel_inv d0 s c → queue s' c = queue s c → workers s' c = workers s c →
  db s' c = db s c → sent s' c = sent s c → flushed s' c = flushed s c →
  (closed s' = false → closed s = false) → channel_inv d0 s' c.
Proof.
  intros [] Hq Hw Hd Hs Hf Hc. split; rewrite ?Hq, ?Hw, ?Hd, ?Hs, ?Hf; auto.
Qed.

Lemma channel_inv_flush_other d0 s c c' e b w :
  c ≠ c' → channel_inv d0 s c' → channel_inv d0 (flush c e b w s) c'.
Proof.
  intros Hne Hi. destruct (flush_other c c' e b w s Hne) as (Hw & Hd & Hf).
  destruct (flush_frame c e b w s) as (Hq & _ & Hc & Hs).
  eapply channel_inv_frame; [done|by rewrite Hq|done|done|by rewrite Hs|done|by rewrite Hc].
Qed.

(** A worker that has [b] in its batch flushes it and goes on or returns. *)
Lemma channel_inv_flush d0 s c e b w :
  sent s c = concat (flushed s c).*1 ++ b ++ queue s c → len (queue s c) ≤ bufSize cfg →
  replay d0 (flushed s c) (db s c) → hasDB cfg c = true →
  (w = Running [] ∨ w = Stopped ∧ closed s = true) →
  channel_inv d0 (flush c e b w s) c.
Proof.
  intros Hs Hq Hr Hd Hw. destruct (flush_same c e b w s) as (Hw' & Hf & Hr').
  destruct (flush_frame c e b w s) as (Hq' & _ & Hc & Hs').
  split; rewrite ?Hq', ?Hs', ?Hw', ?Hc; [|done|by apply Hr'| | | |].
  - rewrite Hf, Hs, <- app_assoc. by destruct Hw as [->|[-> _]].
  - rewrite Hd. by destruct Hw as [->|[-> _]].
  - by rewrite Hd.
  - destruct Hw as [->|[-> _]]; [|done]. intros b' [= <-]. by left.
  - intros ? _. destruct Hw as [->|[_ ?]]; [eauto|congruence].
Qed.

Ltac channel_cases c c' :=
  destruct (decide (c = c')) as [->|?];
    [|repeat (apply channel_inv_flush_other; [done|]);
      by (assumption ||
          (eapply channel_inv_frame; [eassumption|simpl; rewrite ?fn_lookup_insert_ne; done..]))].

Lemma hasDB_worker d0 s c :
  channel_inv d0 s c → workers s c ≠ Absent → hasDB cfg c = true.
Proof. intros Hi Hw. destruct (hasDB cfg c) eqn:E; [done|]. by apply (inv_worker _ _ _ Hi) in E. Qed.

(** A worker moves the head of its channel into its batch. *)
Lemma take_fifo d0 s c op q :
  channel_inv d0 s c → queue s c = op :: q →
  sent s c = concat (flushed s c).*1 ++ (worker_batch (workers s c) ++ [op]) ++ q ∧
  len q ≤ bufSize cfg.
Proof.
  intros Hi Hq. rewrite (inv_fifo _ _ _ Hi), Hq, <- (app_assoc (worker_batch _)). split; [done|].
  pose proof (inv_room _ _ _ Hi) as Hr. rewrite Hq in Hr. unfold len in *. simpl in Hr. lia.
Qed.

Lemma channel_inv_worker d0 s c w q :
  channel_inv d0 s c → workers s c ≠ Absent → w ≠ Absent →
  sent s c = concat (flushed s c).*1 ++ worker_batch w ++ q → len q ≤ bufSize cfg →
  (∀ b, w = Running b → len b < BatchSize cfg c ∨ b = []) →
  (closed s = false → ∃ b, w = Running b) →
  channel_inv d0 {| s with queue := <[c := q]> (queue s); workers := <[c := w]> (workers s) |} c.
Proof.
  intros Hi Hw Hw' Hs Hq Hb Hc. pose proof (hasDB_worker _ _ _ Hi Hw) as Hd.
  destruct Hi. split; simpl; rewrite ?fn_lookup_insert, ?Hd; auto; [done..|].
  intros b Hb'. destruct (Hb b Hb'); auto.
Qed.

Lemma step_inv db0 s s' :
  step s s' → (∀ c, channel_inv (db0 c) s c) → ∀ c, channel_inv (db0 c) s' c.
Proof.
  intros Hstep Hi c'. pose proof (Hi c') as Hi'.
  destruct Hstep as [s ops Hmu|s c op rest Hmu Hroom|s Hmu|s c b op q Hw Hq Hb
    |s c b op q e Hw Hq Hb|s c b e Hw|s c b Hw Hc|s c b op q Hw Hq|s c b e Hw Hq|s Hc].
  1, 3, 10: eapply channel_inv_frame; simpl; eauto; congruence.
  - channel_cases c c'. destruct Hi'. split; simpl; rewrite ?fn_lookup_insert; auto.
    + rewrite inv_fifo0, <- !app_assoc. done.
    + unfold len in *. rewrite length_app. simpl. lia.
  - channel_cases c c'. destruct (take_fifo _ _ _ _ _ Hi' Hq) as [Hs Hl]. rewrite Hw in Hs.
    apply channel_inv_worker; auto; try congruence; [|eauto]. intros ? [= <-]. auto.
  - channel_cases c c'. destruct (take_fifo _ _ _ _ _ Hi' Hq) as [Hs Hl]. rewrite Hw in Hs.
    apply channel_inv_flush; simpl; rewrite ?fn_lookup_insert; auto; [by destruct Hi'|].
    by eapply hasDB_worker; [|rewrite Hw].
  - channel_cases c c'.
    apply channel_inv_flush; auto; [|by destruct Hi'..|by eapply hasDB_worker; [|rewrite Hw]].
    by rewrite (inv_fifo _ _ _ Hi'), Hw.
  - channel_cases c c'. destruct Hi'.
    split; simpl; rewrite ?fn_lookup_insert; rewrite Hw in *; try done; naive_solver congruence.
  - channel_cases c c'. destruct (take_fifo _ _ _ _ _ Hi' Hq) as [Hs Hl]. rewrite Hw in Hs.
    apply channel_inv_worker; auto; try congruence. intros Hc.
    destruct (inv_running _ _ _ Hi' Hc) as [b' Hb']; [by eapply hasDB_worker; [|rewrite Hw]|congruence].
  - channel_cases c c'.
    assert (hasDB cfg c' = true) as Hd by (by eapply hasDB_worker; [|rewrite Hw]).
    apply channel_inv_flush; auto; [|by destruct Hi'..|].
    + by rewrite (inv_fifo _ _ _ Hi'), Hw.
    + right. split; [done|]. destruct (closed s) eqn:Hc; [done|].
      destruct (inv_running _ _ _ Hi' Hc Hd); congruence.
Qed.

Lemma reachable_inv db0 s :
  0 ≤ bufSize cfg → reachable db0 s → ∀ c, channel_inv (db0 c) s c.
Proof.
  unfold reachable. intros Hbuf Hr. remember (NewMemoryStore db0) as s0 eqn:E.
  assert (∀ c, channel_inv (db0 c) s0 c) as H0.
  { subst s0. intros c. split; simpl; try done; try by destruct (hasDB cfg c).
    - apply replay_nil.
    - destruct (hasDB cfg c); [|done]. intros b [= <-]. by left.
    - intros _ ->. eauto. }
  clear E. induction Hr as [|s1 s2 s3 Hs _ IH]; [done|]. apply IH. by eapply step_inv.
Qed.

(** ** Steps in which no store call is made *)

(** A step after which the mutex is free, from a state in which it was free:
    only workers and [Close] move. *)
Definition quiet (s s' : state) : Prop := step s s' ∧ mu s' = None.

Definition drained (s : state) (c : Chan) : Prop := workers s c = Stopped → queue s c = [].

Lemma quiet_step s s' c :
  mu s = None → quiet s s' → sent s' c = sent s c ∧ (drained s c → drained s' c).
Proof.
  intros Hmu [Hs _]. unfold drained.
  destruct Hs as [|s c' op rest Hmu'|s Hmu'|s c' b op q Hw Hq|s c' b op q e Hw Hq|s c' b e Hw
    |s c' b Hw|s c' b op q Hw Hq|s c' b e Hw Hq|]; simpl; try congruence; try done.
  - split; [done|]. destruct (decide (c' = c)) as [->|]; [by rewrite !fn_lookup_insert|].
    by rewrite !fn_lookup_insert_ne.
  - destruct (flush_frame c' e (b ++ [op]) (Running []) {| s with queue := <[c' := q]> (queue s) |})
      as (-> & _ & _ & ->). split; [done|]. destruct (decide (c' = c)) as [->|Hne].
    + by rewrite (proj1 (flush_same _ _ _ _ _)).
    + rewrite (proj1 (flush_other _ _ _ _ _ _ Hne)). simpl. by rewrite fn_lookup_insert_ne.
  - destruct (flush_frame c' e b (Running []) s) as (-> & _ & _ & ->). split; [done|].
    destruct (decide (c' = c)) as [->|Hne].
    + by rewrite (proj1 (flush_same _ _ _ _ _)).
    + by rewrite (proj1 (flush_other _ _ _ _ _ _ Hne)).
  - split; [done|]. destruct (decide (c' = c)) as [->|]; [by rewrite !fn_lookup_insert|].
    by rewrite !fn_lookup_insert_ne.
  - split; [done|]. destruct (decide (c' = c)) as [->|]; [by rewrite !fn_lookup_insert|].
    by rewrite !fn_lookup_insert_ne.
  - destruct (flush_frame c' e b Stopped s) as (-> & _ & _ & ->). split; [done|].
    destruct (decide (c' = c)) as [->|Hne]; [done|].
    by rewrite (proj1 (flush_other _ _ _ _ _ _ Hne)).
Qed.

Lemma quiet_run s s' c :
  mu s = None → rtc quiet s s' →
  rtc step s s' ∧ mu s' = None ∧ sent s' c = sent s c ∧ (drained s c → drained s' c).
Proof.
  intros Hmu Hr. induction Hr as [s|s s1 s' Hq _ IH]; [done|].
  destruct (quiet_step _ _ c Hmu Hq) as [Hs Hd]. destruct Hq as [Hst Hmu1].
  destruct (IH Hmu1) as (Hr & Hm & Hs' & Hd'). split_and!; [by eapply rtc_l|done|congruence|auto].
Qed.

Lemma closed_step s s' : step s s' → closed s = true → closed s' = true.
Proof.
  intros Hs Hc. destruct Hs; try done;
    by rewrite (proj1 (proj2 (proj2 (flush_frame _ _ _ _ _)))).
Qed.

Lemma closed_run s s' : rtc quiet s s' → closed s = true → closed s' = true.
Proof.
  induction 1 as [|s1 s2 s3 [Hs _] _ IH]; [done|]. intros Hc. by eapply IH, closed_step.
Qed.

(** ** Stopping one worker *)

Lemma drain_channel (e : tx_env) s c b :
  mu s = None → workers s c = Draining b →
  ∃ s', rtc quiet s s' ∧ workers s' c = Stopped ∧
        closed s' = closed s ∧ (∀ c', c ≠ c' → workers s' c' = workers s c').
Proof.
  intros Hmu Hw. remember (queue s c) as q eqn:Hq. revert s b Hmu Hw Hq.
  induction q as [|op q IH]; intros s b Hmu Hw Hq.
  - exists (flush c e b Stopped s). destruct (flush_frame c e b Stopped s) as (_ & Hm & Hc & _).
    split_and!; [|apply flush_same|done|intros; by apply flush_other].
    apply rtc_once. split; [by apply step_return|congruence].
  - destruct (IH {| s with queue := <[c := q]> (queue s);
                    workers := <[c := Draining (b ++ [op])]> (workers s) |} (b ++ [op]))
      as (s' & Hr & Hs & Hc & Ho); simpl; rewrite ?fn_lookup_insert; [done..|].
    exists s'. split_and!; [|done|done|].
    + eapply rtc_l; [|done]. split; [by eapply step_drain|done].
    + intros c' Hne. rewrite Ho by done. simpl. by rewrite fn_lookup_insert_ne.
Qed.

Lemma stop_channel (e : tx_env) s c :
  mu s = None → closed s = true →
  ∃ s', rtc quiet s s' ∧ at_rest (workers s' c) ∧
        closed s' = true ∧ mu s' = None ∧ (∀ c', c ≠ c' → workers s' c' = workers s c').
Proof.
  intros Hmu Hc. destruct (workers s c) as [|b|b|] eqn:Hw.
  1, 4: exists s; rewrite Hw; unfold at_rest; split_and!; auto using rtc_refl.
  - set (s1 := {| s with workers := <[c := Draining b]> (workers s) |}).
    destruct (drain_channel e s1 c b) as (s' & Hr & Hs & Hc' & Ho);
      [done|by simpl; rewrite fn_lookup_insert|].
    exists s'. split_and!; [|by left|by rewrite Hc'| |].
    + eapply rtc_l; [|done]. split; [by apply step_done|done].
    + by apply (quiet_run s1 s' c).
    + intros c' Hne. rewrite Ho by done. simpl. by rewrite fn_lookup_insert_ne.
  - destruct (drain_channel e s c b) as (s' & Hr & Hs & Hc' & Ho); [done..|].
    exists s'. split_and!; [done|by left|congruence|by apply (quiet_run s s' c)|done].
Qed.

Lemma stop_channels (e : tx_env) s (l : list Chan) :
  mu s = None → closed s = true →
  ∃ s', rtc quiet s s' ∧ (∀ c, c ∈ l ∨ at_rest (workers s c) → at_rest (workers s' c)).
Proof.
  revert s. induction l as [|c l IH]; intros s Hmu Hc.
  { exists s. split; [done|]. intros c [Hin|]; [by apply not_elem_of_nil in Hin|done]. }
  destruct (stop_channel e s c Hmu Hc) as (s1 & Hr1 & Hw & Hc1 & Hmu1 & Ho).
  destruct (IH s1 Hmu1 Hc1) as (s2 & Hr2 & Hl). exists s2. split; [by etrans|].
  intros c' Hin. apply Hl. destruct (decide (c = c')) as [->|Hne]; [by right|].
  rewrite Ho by done. set_solver.
Qed.

(** ** Channels without a worker *)

Lemma blocked_step s s' c op rest :
  mu s = Some ((c, op) :: rest) → bufSize cfg ≤ len (queue s c) → workers s c = Absent →
  step s s' → mu s' = mu s ∧ queue s' c = queue s c ∧ workers s' c = Absent.
Proof.
  intros Hmu Hq Ha Hs.
  destruct Hs as [|s c' op' rest' Hmu' Hroom|s Hmu'|s c' b op' q Hw|s c' b op' q e Hw|s c' b e Hw
    |s c' b Hw|s c' b op' q Hw|s c' b e Hw|]; simpl; try congruence; try done.
  - exfalso. assert (c' = c) by congruence. subst. lia.
  - assert (c' ≠ c) by congruence. by rewrite !fn_lookup_insert_ne.
  - assert (c' ≠ c) as Hne by congruence.
    destruct (flush_frame c' e (b ++ [op']) (Running []) {| s with queue := <[c' := q]> (queue s) |})
      as (-> & -> & _ & _). rewrite (proj1 (flush_other _ _ _ _ _ _ Hne)). simpl.
    by rewrite fn_lookup_insert_ne.
  - assert (c' ≠ c) as Hne by congruence.
    destruct (flush_frame c' e b (Running []) s) as (-> & -> & _ & _).
    by rewrite (proj1 (flush_other _ _ _ _ _ _ Hne)).
  - assert (c' ≠ c) by congruence. by rewrite !fn_lookup_insert_ne.
  - assert (c' ≠ c) by congruence. by rewrite !fn_lookup_insert_ne.
  - assert (c' ≠ c) as Hne by congruence.
    destruct (flush_frame c' e b Stopped s) as (-> & -> & _ & _).
    by rewrite (proj1 (flush_other _ _ _ _ _ _ Hne)).
Qed.

Lemma blocked_forever s s' c op rest :
  mu s = Some ((c, op) :: rest) → bufSize cfg ≤ len (queue s c) → workers s c = Absent →
  rtc step s s' → mu s' = mu s.
Proof.
  intros Hmu Hq Ha Hr. induction Hr as [s|s s1 s' Hs _ IH]; [done|].
  destruct (blocked_step _ _ _ _ _ Hmu Hq Ha Hs) as (Hm & Hq' & Ha').
  rewrite <- Hm. apply IH; congruence.
Qed.

(** [n] calls that each queue [op] on a channel that has room for them. *)
Lemma fill_channel n s c op :
  mu s = None → len (queue s c) + Z.of_nat n ≤ bufSize cfg →
  ∃ s', rtc step s s' ∧ mu s' = None ∧ queue s' c = queue s c ++ replicate n op ∧
        workers s' = workers s.
Proof.
  revert s. induction n as [|n IH]; intros s Hmu Hroom.
  { exists s. by rewrite app_nil_r. }
  set (s1 := {| s with mu := Some [(c, op)] |}).
  set (s2 := {| s1 with queue := <[c := queue s1 c ++ [op]]> (queue s1); mu := Some [];
                sent := <[c := sent s1 c ++ [op]]> (sent s1) |}).
  set (s3 := {| s2 with mu := None |}).
  destruct (IH s3) as (s' & Hr & Hm & Hq & Hw); [done| |].
  { simpl. rewrite fn_lookup_insert. unfold len in *. rewrite length_app. simpl. lia. }
  exists s'. split_and!; [|done| |done].
  - eapply rtc_l; [by apply (step_lock s [(c, op)])|]. fold s1.
    eapply rtc_l; [apply (step_send s1 c op []); [done|]; simpl; lia|]. fold s2.
    eapply rtc_l; [by apply (step_unlock s2)|]. done.
  - rewrite Hq. simpl. rewrite fn_lookup_insert, <- app_assoc. done.
Qed.

(** The batches that committed hold no operation that cannot run. *)
Lemma replay_runs d l d' b op :
  replay d l d' → (b, true) ∈ l → op ∈ b → ∃ h tx tx', run_op h tx op = Some tx'.
Proof.
  induction 1 as [d|d l b' d' Hr IH|d l b' d' heap d'' Hr IH Hb]; intros Hin Hop.
  - by apply not_elem_of_nil in Hin.
  - apply elem_of_app in Hin as [Hin|Hin]; [auto|]. by apply list_elem_of_singleton in Hin.
  - apply elem_of_app in Hin as [Hin|Hin]; [auto|].
    apply list_elem_of_singleton in Hin. injection Hin as ->.
    apply list_elem_of_split in Hop as (b1 & b2 & ->).
    rewrite run_batch_app in Hb. destruct (run_batch heap d' 0 b1) as [[tx k] []]; [|done].
    simpl in Hb. destruct (run_op (heap k) tx op) as [tx'|] eqn:E; [|done]. eauto.
Qed.

End workers.

(** * Properties *)

(** A database that records the statements it ran, after checking that they
    compile against the schema. *)
#[global] Program Instance recording_database : Database :=
  {| DB := list (sql * Data); Heap := unit;
     tx_exec := λ _ d q a, if sql_ok q then Some (d ++ [(q, a)]) else None |}.

Definition empty_db : Chan → @DB recording_database := λ _, ([] : list (sql * Data)).

(** A run of a cached store: a session logout is queued, received and flushed.
    Its payload is a map, which [executeSessionOp] refuses. *)
Definition logout_op : WriteOp :=
  NewWriteOp 0 WriteOpDelete "sessions" (DMapSS [("id", "s1")]).

Definition ideal_env : tx_env := {| begin_ok := true; commit_ok := true; heap_at := λ _, tt |}.

Definition logout_queued : state :=
  let s0 := NewMemoryStore NewCachedStore_config empty_db in
  {| s0 with
     queue := <[coreWrites := [logout_op]]> (λ _, []); mu := None;
     sent := <[coreWrites := [logout_op]]> (λ _, []) |}.

Definition logout_flushed : state :=
  flush coreWrites ideal_env [logout_op] (Running [])
    {| logout_queued with queue := <[coreWrites := []]> (queue logout_queued);
       workers := <[coreWrites := Running [logout_op]]> (workers logout_queued) |}.

Lemma logout_queued_reachable : reachable NewCachedStore_config empty_db logout_queued.
Proof.
  set (s0 := NewMemoryStore NewCachedStore_config empty_db).
  eapply rtc_l; [by apply (step_lock _ s0 [(coreWrites, logout_op)])|].
  eapply rtc_l; [by eapply (step_send _ _ coreWrites logout_op [])|].
  eapply rtc_l; [by apply step_unlock|]. apply rtc_refl.
Qed.

Lemma logout_flushed_reachable : reachable NewCachedStore_config empty_db logout_flushed.
Proof.
  unfold reachable. etrans; [apply logout_queued_reachable|].
  eapply rtc_l; [by eapply (step_recv _ logout_queued coreWrites [] logout_op [])|].
  apply rtc_once. apply (step_tick NewCachedStore_config _ coreWrites [logout_op] ideal_env). done.
Qed.

Section properties.
Context `{Database}.

(** C2: A flush is atomic: either it reports success, every operation of the
    batch was executed in order and counted, and the database is the one they
    leave; or it reports an error and the database is exactly as before, however
    many operations had run. *)
Theorem flush_atomic e d batch d' n r :
  FlushBatchFunc e d batch = (d', n, r) →
  match r with
  | Ok _ => n = len batch ∧ run_batch (heap_at e) d 0 batch = (d', len batch, true)
  | Err _ => d' = d ∧ 0 ≤ n ≤ len batch
  | Panic => False
  end.
Proof.
  intros Hf. destruct r as [[]|err|].
  - apply flush_ok_inv in Hf as Hr.
    pose proof (run_batch_cases _ _ _ _ _ _ _ Hr) as Hn. simpl in Hn. subst n. done.
  - split; [by eapply flush_error_unchanged|]. pose proof (len_nonneg batch).
    revert Hf. unfold FlushBatchFunc. case_bool_decide; [done|].
    destruct (begin_ok e); simpl; [|intros [= _ <- _]; lia].
    destruct (run_batch _ d 0 batch) as [[tx k] c] eqn:Hr.
    pose proof (run_batch_cases _ _ _ _ _ _ _ Hr) as Hn. destruct c; simpl.
    + destruct (commit_ok e); [done|]. intros [= _ <- _]. lia.
    + destruct Hn as (b1 & op & b2 & -> & -> & _). intros [= _ <- _].
      unfold len in *. rewrite length_app in *. simpl in *. lia.
  - apply (flush_no_panic e d batch). by rewrite Hf.
Qed.

(** C1: Whatever the interleaving of store calls, workers and shutdown, each
    channel delivers in order and exactly once: what was sent is the batches
    flushed so far, then the batch being collected, then what is still queued;
    the queue never exceeds its capacity; and the database of the channel is
    what the committed batches leave when run one after the other, each in
    full. *)
Theorem write_behind_fifo cfg db0 s c :
  0 ≤ bufSize cfg → reachable cfg db0 s →
  sent s c = concat (flushed s c).*1 ++ worker_batch (workers s c) ++ queue s c ∧
  len (queue s c) ≤ bufSize cfg ∧
  replay (db0 c) (flushed s c) (db s c).
Proof. intros Hb Hr. by destruct (reachable_inv cfg db0 s Hb Hr c). Qed.

(** Shutdown loses nothing of what was queued before it: when [Close] is
    called while no store call is in progress and none is made after it, the
    workers can always finish, and in every state they reach in which they have
    finished, everything that was ever sent to a channel that has a database has
    been flushed. *)
Theorem close_drains cfg db0 (e : tx_env) s :
  0 ≤ bufSize cfg → reachable cfg db0 s → mu s = None → closed s = false →
  (∃ s', rtc (quiet cfg) s s' ∧ closed s' = true ∧ Close_returned s') ∧
  (∀ s' c, rtc (quiet cfg) s s' → Close_returned s' → hasDB cfg c = true →
           concat (flushed s' c).*1 = sent s c).
Proof.
  intros Hb Hr Hmu Hc. split.
  - destruct (stop_channels cfg e {| s with closed := true |} channels) as (s' & Hq & Hl); [done..|].
    assert (quiet cfg s {| s with closed := true |}) by (split; [by apply step_close|done]).
    exists s'. split_and!; [by eapply rtc_l| |].
    + by eapply closed_run.
    + intros c. apply Hl. left. destruct c; set_solver.
  - intros s' c Hq Hret Hd.
    destruct (quiet_run cfg s s' c Hmu Hq) as (Hst & _ & Hsent & Hdr).
    assert (reachable cfg db0 s') as Hr' by (by unfold reachable in *; etrans).
    pose proof (reachable_inv cfg db0 s' Hb Hr' c) as Hi.
    assert (workers s' c = Stopped) as Hw.
    { destruct (Hret c) as [?|Ha]; [done|]. apply (inv_worker _ _ _ _ Hi) in Ha. congruence. }
    assert (queue s' c = []) as Hq'.
    { apply Hdr; [|done]. intros Hw0.
      destruct (inv_running _ _ _ _ (reachable_inv cfg db0 s Hb Hr c) Hc Hd). congruence. }
    pose proof (inv_fifo _ _ _ _ Hi) as Hf. rewrite Hw, Hq', app_nil_r in Hf. congruence.
Qed.

(** An operation its executor refuses takes the whole batch it is in with
    it: no committed batch contains such an operation, so neither it nor any
    operation batched with it reaches the database. *)
Theorem refused_batch_never_commits cfg db0 s c b committed op err :
  0 ≤ bufSize cfg → reachable cfg db0 s →
  (b, committed) ∈ flushed s c → op ∈ b → executeWriteOp op = Err err →
  committed = false.
Proof.
  intros Hb Hr Hin Hop Herr. destruct committed; [|done].
  pose proof (inv_replay _ _ _ _ (reachable_inv cfg db0 s Hb Hr c)) as Hrep.
  destruct (replay_runs _ _ _ _ _ Hrep Hin Hop) as (h & tx & tx' & Hrun).
  unfold run_op in Hrun. by rewrite Herr in Hrun.
Qed.

(** A store built by [NewCachedStore] has a worker for the core channel
    only: what is sent to any other channel stays in it and its database never
    changes. *)
Theorem cached_store_only_core db0 s c :
  reachable NewCachedStore_config db0 s → c ≠ coreWrites →
  queue s c = sent s c ∧ flushed s c = [] ∧ db s c = db0 c.
Proof.
  intros Hr Hc. destruct (reachable_inv NewCachedStore_config db0 s ltac:(done) Hr c).
  assert (hasDB NewCachedStore_config c = false) as Hd by (by simpl; rewrite bool_decide_false).
  pose proof (proj2 inv_worker0 Hd) as Hw. rewrite (inv_idle0 Hd), Hw in inv_fifo0. split_and!; [done|auto|].
  rewrite (inv_idle0 Hd) in inv_replay0. inversion inv_replay0 as [|? l ? ? ? Hn|? l ? ? ? ? ? ? Hn]; [done|..].
  all: by destruct l.
Qed.

(** Such a store can lock up for good: once 10000 operations sit in a
    channel without a worker, the next call that queues to it blocks inside
    [queueWrite] holding the mutex, and in every continuation the mutex stays
    held.  That state is reachable from the empty store for every channel but
    the core one. *)
Theorem cached_store_deadlock db0 c op :
  c ≠ coreWrites →
  ∃ s, reachable NewCachedStore_config db0 s ∧
       ∀ s', rtc (step NewCachedStore_config) s s' → mu s' = Some [(c, op)].
Proof.
  intros Hc. set (s0 := NewMemoryStore NewCachedStore_config db0).
  destruct (fill_channel NewCachedStore_config (Z.to_nat 10000) s0 c op)
    as (s1 & Hr & Hmu & Hq & Hw); [done|rewrite Z2Nat.id by lia; done|].
  set (s2 := {| s1 with mu := Some [(c, op)] |}). exists s2. split.
  - unfold reachable. etrans; [done|]. apply rtc_once. by apply step_lock.
  - intros s' Hs. change (Some [(c, op)]) with (mu s2).
    eapply blocked_forever; [done| | |done]; simpl.
    + rewrite Hq. unfold len. rewrite length_app, length_replicate. simpl. unfold bufSize. simpl. lia.
    + rewrite Hw. simpl. by rewrite bool_decide_false.
Qed.

End properties.

Lemma flush_atomic_witness :
  FlushBatchFunc ideal_env [] [NewWriteOp 0 WriteOpDelete "agents" (DString "a"); logout_op]
    = ([], 1, Err (Errorf "execute")) ∧ ([] : list (sql * Data)) = [] ∧ 0 ≤ 1 ≤ 2.
Proof.
  split; [vm_compute; reflexivity|].
  exact (flush_atomic ideal_env []
    [NewWriteOp 0 WriteOpDelete "agents" (DString "a"); logout_op] [] 1 (Err (Errorf "execute"))
    ltac:(vm_compute; reflexivity)).
Defined.

Lemma write_behind_fifo_witness :
  flushed logout_flushed coreWrites = [([logout_op], false)] ∧
  sent logout_flushed coreWrites =
    concat (flushed logout_flushed coreWrites).*1 ++
    worker_batch (workers logout_flushed coreWrites) ++ queue logout_flushed coreWrites.
Proof.
  split; [vm_compute; reflexivity|].
  apply (write_behind_fifo NewCachedStore_config empty_db logout_flushed coreWrites);
    [done|apply logout_flushed_reachable].
Defined.

Lemma close_drains_witness :
  ∃ s', rtc (quiet NewCachedStore_config) logout_queued s' ∧ closed s' = true ∧ Close_returned s'.
Proof.
  apply (close_drains NewCachedStore_config empty_db ideal_env logout_queued);
    [done|apply logout_queued_reachable|done|done].
Defined.

Lemma refused_batch_witness :
  ([logout_op], false) ∈ flushed logout_flushed coreWrites ∧ false = false.
Proof.
  assert (([logout_op], false) ∈ flushed logout_flushed coreWrites) as Hin by (vm_compute; left).
  split; [exact Hin|].
  apply (refused_batch_never_commits NewCachedStore_config empty_db logout_flushed coreWrites
           [logout_op] false logout_op (Errorf "invalid data type for session delete"));
    [done|apply logout_flushed_reachable|exact Hin|left|reflexivity].
Defined.

Lemma cached_store_only_core_witness : queue logout_flushed projectsWrites = [].
Proof.
  apply (cached_store_only_core empty_db logout_flushed projectsWrites);
    [apply logout_flushed_reachable|done].
Defined.

Lemma cached_store_deadlock_witness :
  ∃ s, reachable NewCachedStore_config empty_db s ∧
       ∀ s', rtc (step NewCachedStore_config) s s' → mu s' = Some [(auditWrites, logout_op)].
Proof. apply (cached_store_deadlock empty_db auditWrites logout_op). done. Defined.
