(* ===== verification/StoreBase.v ===== *)
(** What every method of the memory store has in common.

    A mutating method of [MemoryStore] runs under the store's mutex: it takes the
    state to another state, queues writes on the channels and returns a value or
    an error.  It is a function to an [Outcome], which holds the three.  The
    clock reading of the call and the identifiers [xid.New()] produces in it are
    arguments.  Methods that take a pointer to a record and fill in its missing
    fields return the record as the caller sees it afterwards.

    Methods that only read are functions from the state to a [result]. *)

From S2P Require Export Prelude Models Schema WriteOps WriteBehind.

Record Outcome (S A : Type) := mkOut {
  st : S;
  queued : list (Chan * WriteOp);
  ret : result A
}.
Arguments mkOut {S A}.
Arguments st {S A}.
Arguments queued {S A}.
Arguments ret {S A}.

(** Return with an error and nothing changed. *)
Definition fail {S A} (s : S) (e : gerror) : Outcome S A := mkOut s [] (Err e).

(** [s.queueWrite(ch, NewWriteOp(typ, table, data))] *)
Definition queueWrite (ch : Chan) (now : time) (typ : WriteOpType) (table : string) (data : Data)
    : list (Chan * WriteOp) :=
  [(ch, NewWriteOp now typ table data)].

(** [if t.IsZero() { t = now }] and [if s == "" { s = d }]. *)
Definition or_now (t now : time) : time := if IsZero t then now else t.
Definition or_string (s d : string) : string := if bool_decide (s = "") then d else s.

(** The slice a map entry holds; a missing entry reads as the nil slice. *)
Definition entry {A} (m : gmap string (list A)) (k : string) : list A := default [] (m !! k).

(** [counts[key(x)]++] over a list. *)
Definition count_by {A} (key : A → string) (l : list A) : gmap string Z :=
  foldl (λ counts x, <[key x := default 0 (counts !! key x) + 1]> counts) ∅ l.

(** The element of [l] kept by [if best == nil || key(x).After(key(best)) {best = x}]. *)
Definition latest {A} (key : A → time) (l : list A) : option A :=
  foldl (λ best x, match best with
                   | None => Some x
                   | Some b => if After (key x) (key b) then Some x else best
                   end) None l.

(** * Lemmas *)

Lemma or_string_nonempty s d : d ≠ "" → or_string s d ≠ "".
Proof. unfold or_string. by case_bool_decide. Qed.

Lemma or_string_id s d : s ≠ "" → or_string s d = s.
Proof. unfold or_string. by case_bool_decide. Qed.

Lemma or_now_id t now : t ≠ 0 → or_now t now = t.
Proof. unfold or_now, IsZero. intros. by destruct (Z.eqb_spec t 0). Qed.

Lemma count_by_foldl {A} (key : A → string) (l : list A) (m : gmap string Z) k :
  foldl (λ counts x, <[key x := default 0 (counts !! key x) + 1]> counts) m l !! k =
  let n := len (filter (λ x, key x = k) l) in
  if n =? 0 then m !! k else Some (default 0 (m !! k) + n).
Proof.
  revert m. induction l as [|x l IH]; intros m; simpl; [done|].
  rewrite IH. simpl. destruct (decide (key x = k)) as [<-|Hne].
  - rewrite filter_cons_True by done. rewrite lookup_insert_eq. simpl.
    unfold len. simpl. destruct (Z.eqb_spec (Z.of_nat (S (length (filter (λ x0, key x0 = key x) l)))) 0) as [|_]; [lia|].
    case_match; f_equal; lia.
  - rewrite filter_cons_False by done. by rewrite lookup_insert_ne.
Qed.

(** The count of a key is the number of elements with that key, and keys no
    element has are absent. *)
Lemma count_by_spec {A} (key : A → string) (l : list A) k :
  count_by key l !! k =
  let n := len (filter (λ x, key x = k) l) in if n =? 0 then None else Some n.
Proof. unfold count_by. rewrite count_by_foldl, lookup_empty. simpl. done. Qed.

Lemma latest_foldl {A} (key : A → time) (l : list A) (b : A) :
  ∃ r, foldl (λ best x, match best with
                        | None => Some x
                        | Some b => if After (key x) (key b) then Some x else best
                        end) (Some b) l = Some r ∧
       r ∈ b :: l ∧ ∀ x, x ∈ b :: l → key x ≤ key r.
Proof.
  revert b. induction l as [|x l IH]; intros b; simpl.
  - exists b. split_and!; [done|left|]. intros x Hx. apply list_elem_of_singleton in Hx. subst. lia.
  - unfold After. destruct (Z.ltb_spec (key b) (key x)).
    + destruct (IH x) as (r & Hr & Hin & Hmax). exists r. split_and!; [done|set_solver|].
      intros y Hy. pose proof (Hmax x ltac:(left)). rewrite elem_of_cons in Hy.
      destruct Hy as [->|Hy]; [lia|]. by apply Hmax.
    + destruct (IH b) as (r & Hr & Hin & Hmax). exists r. split_and!; [done|set_solver|].
      intros y Hy. pose proof (Hmax b ltac:(left)). rewrite !elem_of_cons in Hy.
      destruct Hy as [->|[->|Hy]]; [done|lia|]. apply Hmax. by right.
Qed.

Lemma latest_None {A} (key : A → time) (l : list A) : latest key l = None ↔ l = [].
Proof.
  destruct l as [|x l]; [done|]. unfold latest. simpl.
  destruct (latest_foldl key l x) as (r & Hr & _). rewrite Hr. done.
Qed.

Lemma latest_Some {A} (key : A → time) (l : list A) r :
  latest key l = Some r → r ∈ l ∧ ∀ x, x ∈ l → key x ≤ key r.
Proof.
  destruct l as [|x l]; [done|]. unfold latest. simpl.
  destruct (latest_foldl key l x) as (r' & Hr & H1 & H2). rewrite Hr. naive_solver.
Qed.

Lemma elem_of_entry {A} (m : gmap string (list A)) k x :
  x ∈ entry m k → ∃ l, m !! k = Some l ∧ x ∈ l.
Proof. unfold entry. destruct (m !! k); simpl; [eauto|set_solver]. Qed.

Lemma entry_insert_eq {A} (m : gmap string (list A)) k l : entry (<[k := l]> m) k = l.
Proof. unfold entry. by rewrite lookup_insert_eq. Qed.

Lemma entry_insert_ne {A} (m : gmap string (list A)) k k' l :
  k ≠ k' → entry (<[k := l]> m) k' = entry m k'.
Proof. intros. unfold entry. by rewrite lookup_insert_ne. Qed.

Lemma entry_delete_eq {A} (m : gmap string (list A)) k : entry (delete k m) k = [].
Proof. unfold entry. by rewrite lookup_delete_eq. Qed.

Lemma entry_delete_ne {A} (m : gmap string (list A)) k k' :
  k ≠ k' → entry (delete k m) k' = entry m k'.
Proof. intros. unfold entry. by rewrite lookup_delete_ne. Qed.

Lemma range_delete_Some `{MapRange} {A} (p : A → bool) (m : gmap string A) k v :
  range_delete p m !! k = Some v ↔ m !! k = Some v ∧ p v = false.
Proof.
  rewrite range_delete_lookup. destruct (m !! k) as [v'|]; [|naive_solver].
  destruct (p v') eqn:E; naive_solver congruence.
Qed.

Lemma range_delete_subseteq `{MapRange} {A} (p : A → bool) (m : gmap string A) :
  range_delete p m ⊆ m.
Proof. rewrite range_delete_filter. apply map_filter_subseteq. Qed.
