(* ===== verification/MemDeployments.v ===== *)
(** Deployments in the memory store: deployment records, their logs, rollbacks,
    scheduled deployments ([src/internal/storage/memory_deployments.go]) and the
    assignment of agents to a deployment ([memory_deployment_agents.go]).

    The state is the five maps of [MemoryStore] these methods use.  The stored
    records are private copies (copy-on-store, copy-on-read), so they are values
    here. *)

From S2P Require Import StoreBase.

#[local] Open Scope string_scope.
#[local] Open Scope list_scope.
#[local] Open Scope Z_scope.

Module Deployments.

Record State := mkState {
  deployments : gmap string DeploymentRecord;
  deploymentLogs : gmap string (list DeploymentLog);
  deploymentRollbacks : gmap string DeploymentRollback;
  scheduledDeploys : gmap string ScheduledDeployment;
  deploymentAgents : gmap string (list DeploymentAgent)
}.

Definition empty : State := mkState ∅ ∅ ∅ ∅ ∅.

Abbreviation Out := (Outcome State).

(** * Deployment records *)

Definition CreateDeployment (d : DeploymentRecord) (now : time) (s : State) : Out DeploymentRecord :=
  match deployments s !! d.(DeploymentRecord.ID) with
  | Some _ => fail s ErrDuplicate
  | None =>
      let stored := {| d with DeploymentRecord.StartedAt := or_now d.(DeploymentRecord.StartedAt) now;
                       DeploymentRecord.Status := or_string d.(DeploymentRecord.Status) "pending" |} in
      mkOut {| s with deployments := <[d.(DeploymentRecord.ID) := stored]> (deployments s) |}
        (queueWrite deploymentsWrites now WriteOpInsert "deployments"
           (DPtr TDeploymentRecord d.(DeploymentRecord.ID)))
        (Ok stored)
  end.

Definition GetDeployment (id : string) (s : State) : result DeploymentRecord :=
  match deployments s !! id with None => Err ErrNotFound | Some d => Ok d end.

Definition UpdateDeployment (d : DeploymentRecord) (now : time) (s : State) : Out unit :=
  match deployments s !! d.(DeploymentRecord.ID) with
  | None => fail s ErrNotFound
  | Some existing =>
      let existing := {| existing with DeploymentRecord.Status := d.(DeploymentRecord.Status);
                         DeploymentRecord.CompletedAt := d.(DeploymentRecord.CompletedAt);
                         DeploymentRecord.ErrorMessage := d.(DeploymentRecord.ErrorMessage);
                         DeploymentRecord.CommitHash := d.(DeploymentRecord.CommitHash);
                         DeploymentRecord.ReleaseNumber := d.(DeploymentRecord.ReleaseNumber) |} in
      mkOut {| s with deployments := <[d.(DeploymentRecord.ID) := existing]> (deployments s) |}
        (queueWrite deploymentsWrites now WriteOpUpdate "deployments"
           (DPtr TDeploymentRecord d.(DeploymentRecord.ID)))
        (Ok tt)
  end.

(** Every deployment, newest first. *)
Definition deployments_newest_first `{MapRange} (s : State) : list DeploymentRecord :=
  exchange_sort (newest DeploymentRecord.StartedAt) (range_values (deployments s)).

Definition ListDeploymentsRecent `{MapRange} (limit : Z) (s : State) : result (list DeploymentRecord) :=
  Ok (limit_to (deployments_newest_first s) limit).

Definition CountDeploymentsByStatus `{MapRange} (s : State) : result (gmap string Z) :=
  Ok (count_by DeploymentRecord.Status (range_values (deployments s))).

Definition ListDeploymentsPaginated `{MapRange} (limit offset : Z) (s : State)
    : result (list DeploymentRecord) :=
  page (deployments_newest_first s) limit offset.

Definition CountDeployments (s : State) : result Z := Ok (map_len (deployments s)).

(** * Logs *)

Definition CreateDeploymentLog (log : DeploymentLog) (now : time) (xid : string) (s : State)
    : Out DeploymentLog :=
  let stored := {| log with DeploymentLog.ID := or_string log.(DeploymentLog.ID) xid;
                   DeploymentLog.CreatedAt := or_now log.(DeploymentLog.CreatedAt) now |} in
  let dep := log.(DeploymentLog.DeploymentID) in
  mkOut {| s with deploymentLogs := <[dep := entry (deploymentLogs s) dep ++ [stored]]> (deploymentLogs s) |}
    (queueWrite deploymentsWrites now WriteOpInsert "deployment_logs"
       (DPtr TDeploymentLog stored.(DeploymentLog.ID)))
    (Ok stored).

Definition ListDeploymentLogs (deploymentID : string) (s : State) : result (list DeploymentLog) :=
  Ok (entry (deploymentLogs s) deploymentID).

(** Go compares strings byte by byte. *)
Definition ListDeploymentLogsAfter (deploymentID afterID : string) (s : State)
    : result (list DeploymentLog) :=
  Ok (filter (λ l, String.ltb afterID l.(DeploymentLog.ID) = true)
             (entry (deploymentLogs s) deploymentID)).

Definition ListDeploymentLogsPaginated (deploymentID : string) (limit offset : Z) (s : State)
    : result (list DeploymentLog) :=
  match deploymentLogs s !! deploymentID with
  | None => Ok []
  | Some logs => page logs limit offset
  end.

Definition CountDeploymentLogs (deploymentID : string) (s : State) : result Z :=
  Ok (len (entry (deploymentLogs s) deploymentID)).

(** * Rollbacks *)

Definition CreateDeploymentRollback (rollback : DeploymentRollback) (now : time) (xid : string)
    (s : State) : Out DeploymentRollback :=
  let stored := {| rollback with
    DeploymentRollback.ID := or_string rollback.(DeploymentRollback.ID) xid;
    DeploymentRollback.StartedAt := or_now rollback.(DeploymentRollback.StartedAt) now;
    DeploymentRollback.Status := or_string rollback.(DeploymentRollback.Status) "pending" |} in
  mkOut {| s with deploymentRollbacks :=
             <[stored.(DeploymentRollback.ID) := stored]> (deploymentRollbacks s) |}
    (queueWrite deploymentsWrites now WriteOpInsert "deployment_rollbacks"
       (DPtr TDeploymentRollback stored.(DeploymentRollback.ID)))
    (Ok stored).

Definition GetDeploymentRollback (id : string) (s : State) : result DeploymentRollback :=
  match deploymentRollbacks s !! id with None => Err ErrNotFound | Some r => Ok r end.

Definition UpdateDeploymentRollback (rollback : DeploymentRollback) (now : time) (s : State) : Out unit :=
  match deploymentRollbacks s !! rollback.(DeploymentRollback.ID) with
  | None => fail s ErrNotFound
  | Some existing =>
      let existing := {| existing with
        DeploymentRollback.Status := rollback.(DeploymentRollback.Status);
        DeploymentRollback.ErrorMessage := rollback.(DeploymentRollback.ErrorMessage);
        DeploymentRollback.CompletedAt := rollback.(DeploymentRollback.CompletedAt);
        DeploymentRollback.HealthCheckError := rollback.(DeploymentRollback.HealthCheckError) |} in
      mkOut {| s with deploymentRollbacks :=
                 <[rollback.(DeploymentRollback.ID) := existing]> (deploymentRollbacks s) |}
        (queueWrite deploymentsWrites now WriteOpUpdate "deployment_rollbacks"
           (DPtr TDeploymentRollback rollback.(DeploymentRollback.ID)))
        (Ok tt)
  end.

Definition ListDeploymentRollbacks `{MapRange} (projectName : string) (limit offset : Z) (s : State)
    : result (list DeploymentRollback * Z) :=
  let all := exchange_sort (newest DeploymentRollback.StartedAt)
               (filter (λ r, r.(DeploymentRollback.ProjectName) = projectName)
                       (range_values (deploymentRollbacks s))) in
  rbind (paginate all limit offset) (λ p, Ok (p, len all)).

Definition GetLatestRollbackForDeployment `{MapRange} (deploymentID : string) (s : State)
    : result DeploymentRollback :=
  match latest DeploymentRollback.StartedAt
          (filter (λ r, r.(DeploymentRollback.DeploymentID) = deploymentID)
                  (range_values (deploymentRollbacks s))) with
  | None => Err ErrNotFound
  | Some r => Ok r
  end.

(** * Scheduled deployments *)

Definition CreateScheduledDeployment (id project target branch : string) (scheduledAt : time)
    (scheduledBy : string) (now : time) (s : State) : Out unit :=
  match scheduledDeploys s !! id with
  | Some _ => fail s ErrDuplicate
  | None =>
      let scheduled :=
        {| ScheduledDeployment.ID := id; ScheduledDeployment.Project := project;
           ScheduledDeployment.Target := target; ScheduledDeployment.Branch := branch;
           ScheduledDeployment.ScheduledAt := scheduledAt;
           ScheduledDeployment.ScheduledBy := scheduledBy;
           ScheduledDeployment.Status := "pending" |} in
      mkOut {| s with scheduledDeploys := <[id := scheduled]> (scheduledDeploys s) |}
        (queueWrite deploymentsWrites now WriteOpInsert "scheduled_deployments"
           (DPtr TScheduledDeployment id))
        (Ok tt)
  end.

Definition pending_due (now : time) (sd : ScheduledDeployment) : bool :=
  bool_decide (sd.(ScheduledDeployment.Status) = "pending")
  && Before sd.(ScheduledDeployment.ScheduledAt) now.

Definition ListPendingScheduledDeployments `{MapRange} (now : time) (s : State)
    : result (list ScheduledDeployment) :=
  Ok (filter (λ sd, pending_due now sd = true) (range_values (scheduledDeploys s))).

Definition CancelScheduledDeployment (id : string) (now : time) (s : State) : Out unit :=
  match scheduledDeploys s !! id with
  | None => fail s ErrNotFound
  | Some sd =>
      mkOut {| s with scheduledDeploys :=
                 <[id := {| sd with ScheduledDeployment.Status := "cancelled" |}]> (scheduledDeploys s) |}
        (queueWrite deploymentsWrites now WriteOpUpdate "scheduled_deployments"
           (DPtr TScheduledDeployment id))
        (Ok tt)
  end.

(** * Agents of a deployment *)

(** The index and the record of the first assignment of [agentID]. *)
Definition find_agent (agentID : string) (agents : list DeploymentAgent) : option (nat * DeploymentAgent) :=
  list_find (λ da, da.(DeploymentAgent.AgentID) = agentID) agents.

Definition set_agents (deploymentID : string) (agents : list DeploymentAgent) (s : State) : State :=
  {| s with deploymentAgents := <[deploymentID := agents]> (deploymentAgents s) |}.

(** These methods queue no write: the assignments are kept in memory only. *)
Definition AssignAgentToDeployment (deploymentID agentID : string) (xid : string) (s : State) : Out unit :=
  let agents := entry (deploymentAgents s) deploymentID in
  match find_agent agentID agents with
  | Some _ => fail s (Errorf ("agent " +:+ agentID +:+ " already assigned to deployment " +:+ deploymentID))
  | None =>
      let da := {| DeploymentAgent.ID := xid; DeploymentAgent.DeploymentID := deploymentID;
                   DeploymentAgent.AgentID := agentID;
                   DeploymentAgent.Status := DeploymentStatusPending;
                   DeploymentAgent.StartedAt := None; DeploymentAgent.CompletedAt := None;
                   DeploymentAgent.ErrorMessage := "" |} in
      mkOut (set_agents deploymentID (agents ++ [da]) s) [] (Ok tt)
  end.

(** Each assignment is a call of its own: those before the first error stay.
    [xids] are the identifiers the calls draw. *)
Fixpoint AssignAgentsToDeployment (deploymentID : string) (agentIDs : list string)
    (xids : nat → string) (s : State) : Out unit :=
  match agentIDs with
  | [] => mkOut s [] (Ok tt)
  | agentID :: rest =>
      let o := AssignAgentToDeployment deploymentID agentID (xids 0%nat) s in
      match ret o with
      | Ok _ => AssignAgentsToDeployment deploymentID rest (λ n, xids (S n)) (st o)
      | Err e => fail (st o) e
      | Panic => mkOut (st o) [] Panic
      end
  end.

Definition GetDeploymentAgents (deploymentID : string) (s : State) : result (list DeploymentAgent) :=
  Ok (entry (deploymentAgents s) deploymentID).

Definition GetAgentDeployments `{MapRange} (agentID : string) (s : State)
    : result (list DeploymentAgent) :=
  Ok (filter (λ da, da.(DeploymentAgent.AgentID) = agentID)
             (concat (range_values (deploymentAgents s)))).

Definition UpdateDeploymentAgentStatus (deploymentID agentID status errorMsg : string) (now : time)
    (s : State) : Out unit :=
  let agents := entry (deploymentAgents s) deploymentID in
  match find_agent agentID agents with
  | None => fail s (Errorf ("agent " +:+ agentID +:+ " not assigned to deployment " +:+ deploymentID))
  | Some (i, da) =>
      let da := {| da with DeploymentAgent.Status := status;
                   DeploymentAgent.ErrorMessage := errorMsg;
                   DeploymentAgent.CompletedAt :=
                     if DeploymentStatus_IsTerminal status then Some now
                     else da.(DeploymentAgent.CompletedAt) |} in
      mkOut (set_agents deploymentID (<[i := da]> agents) s) [] (Ok tt)
  end.

Definition StartDeploymentAgent (deploymentID agentID : string) (now : time) (s : State) : Out unit :=
  let agents := entry (deploymentAgents s) deploymentID in
  match find_agent agentID agents with
  | None => fail s (Errorf ("agent " +:+ agentID +:+ " not assigned to deployment " +:+ deploymentID))
  | Some (i, da) =>
      if bool_decide (da.(DeploymentAgent.Status) ≠ DeploymentStatusPending) then
        fail s (Errorf ("agent " +:+ agentID +:+ " not in pending state for deployment " +:+ deploymentID))
      else
        let da := {| da with DeploymentAgent.Status := DeploymentStatusRunning;
                     DeploymentAgent.StartedAt := Some now |} in
        mkOut (set_agents deploymentID (<[i := da]> agents) s) [] (Ok tt)
  end.

Definition IsAgentAssignedToDeployment (deploymentID agentID : string) (s : State) : result bool :=
  Ok (bool_decide (is_Some (find_agent agentID (entry (deploymentAgents s) deploymentID)))).

(** No assignment is [(nil, nil)], not an error. *)
Definition GetDeploymentAgentStatus (deploymentID agentID : string) (s : State)
    : result (option DeploymentAgent) :=
  Ok (snd <$> find_agent agentID (entry (deploymentAgents s) deploymentID)).

Definition CountDeploymentAgentsByStatus (deploymentID : string) (s : State) : result (gmap string Z) :=
  Ok (count_by DeploymentAgent.Status (entry (deploymentAgents s) deploymentID)).

Definition RemoveAgentFromDeployment (deploymentID agentID : string) (s : State) : Out unit :=
  let agents := entry (deploymentAgents s) deploymentID in
  match find_agent agentID agents with
  | None => fail s (Errorf ("agent " +:+ agentID +:+ " not found for deployment " +:+ deploymentID))
  | Some (i, da) =>
      if bool_decide (da.(DeploymentAgent.Status) ≠ DeploymentStatusPending) then
        fail s (Errorf ("agent " +:+ agentID +:+ " not in pending state for deployment " +:+ deploymentID))
      else mkOut (set_agents deploymentID (delete i agents) s) [] (Ok tt)
  end.

(** * Calls *)

(** A call of one of the mutating methods, with the clock reading and the
    identifiers it draws. *)
Inductive call :=
| CCreateDeployment (d : DeploymentRecord) (now : time)
| CUpdateDeployment (d : DeploymentRecord) (now : time)
| CCreateDeploymentLog (log : DeploymentLog) (now : time) (xid : string)
| CCreateDeploymentRollback (r : DeploymentRollback) (now : time) (xid : string)
| CUpdateDeploymentRollback (r : DeploymentRollback) (now : time)
| CCreateScheduledDeployment (id project target branch : string) (at_ : time) (by_ : string) (now : time)
| CCancelScheduledDeployment (id : string) (now : time)
| CAssignAgentToDeployment (dep agent xid : string)
| CAssignAgentsToDeployment (dep : string) (agents : list string) (xids : nat → string)
| CUpdateDeploymentAgentStatus (dep agent status errorMsg : string) (now : time)
| CStartDeploymentAgent (dep agent : string) (now : time)
| CRemoveAgentFromDeployment (dep agent : string).

Definition effect {A} (o : Out A) : State * list (Chan * WriteOp) := (st o, queued o).

Definition run (c : call) (s : State) : State * list (Chan * WriteOp) :=
  match c with
  | CCreateDeployment d now => effect (CreateDeployment d now s)
  | CUpdateDeployment d now => effect (UpdateDeployment d now s)
  | CCreateDeploymentLog log now xid => effect (CreateDeploymentLog log now xid s)
  | CCreateDeploymentRollback r now xid => effect (CreateDeploymentRollback r now xid s)
  | CUpdateDeploymentRollback r now => effect (UpdateDeploymentRollback r now s)
  | CCreateScheduledDeployment id p t b a y now =>
      effect (CreateScheduledDeployment id p t b a y now s)
  | CCancelScheduledDeployment id now => effect (CancelScheduledDeployment id now s)
  | CAssignAgentToDeployment dep agent xid => effect (AssignAgentToDeployment dep agent xid s)
  | CAssignAgentsToDeployment dep agents xids => effect (AssignAgentsToDeployment dep agents xids s)
  | CUpdateDeploymentAgentStatus dep agent status e now =>
      effect (UpdateDeploymentAgentStatus dep agent status e now s)
  | CStartDeploymentAgent dep agent now => effect (StartDeploymentAgent dep agent now s)
  | CRemoveAgentFromDeployment dep agent => effect (RemoveAgentFromDeployment dep agent s)
  end.

Definition run_all (cs : list call) (s : State) : State := foldl (λ s c, (run c s).1) s cs.

(** * Invariant *)

(** An assignment list: every entry is for this deployment and no agent is
    assigned twice. *)
Definition agents_ok (deploymentID : string) (agents : list DeploymentAgent) : Prop :=
  Forall (λ da, da.(DeploymentAgent.DeploymentID) = deploymentID) agents ∧
  NoDup (DeploymentAgent.AgentID <$> agents).

Record wf (s : State) : Prop := {
  wf_deployments : ∀ id d, deployments s !! id = Some d → d.(DeploymentRecord.ID) = id;
  wf_logs : ∀ id logs, deploymentLogs s !! id = Some logs →
              Forall (λ l, l.(DeploymentLog.DeploymentID) = id) logs;
  wf_rollbacks : ∀ id r, deploymentRollbacks s !! id = Some r → r.(DeploymentRollback.ID) = id;
  wf_scheduled : ∀ id sd, scheduledDeploys s !! id = Some sd → sd.(ScheduledDeployment.ID) = id;
  wf_agents : ∀ id agents, deploymentAgents s !! id = Some agents → agents_ok id agents
}.

Lemma deployments_wf_empty : wf empty.
Proof. split; intros ? ?; simpl; by rewrite lookup_empty. Qed.

(** Removing entries keeps the invariant. *)
Lemma deployments_wf_fewer s s' :
  wf s → deployments s' ⊆ deployments s → deploymentLogs s' ⊆ deploymentLogs s →
  deploymentRollbacks s' ⊆ deploymentRollbacks s → scheduledDeploys s' ⊆ scheduledDeploys s →
  deploymentAgents s' ⊆ deploymentAgents s → wf s'.
Proof. intros [] H1 H2 H3 H4 H5. split; intros *; eauto using lookup_weaken. Qed.

Lemma agents_ok_entry s id : wf s → agents_ok id (entry (deploymentAgents s) id).
Proof.
  intros Hw. unfold entry. destruct (deploymentAgents s !! id) eqn:E; simpl.
  - by apply (wf_agents s Hw).
  - by repeat constructor.
Qed.

Lemma find_agent_Some agentID agents i da :
  find_agent agentID agents = Some (i, da) →
  agents !! i = Some da ∧ da.(DeploymentAgent.AgentID) = agentID.
Proof. unfold find_agent. rewrite list_find_Some. naive_solver. Qed.

Lemma find_agent_None agentID agents :
  find_agent agentID agents = None ↔ agentID ∉ DeploymentAgent.AgentID <$> agents.
Proof.
  unfold find_agent. rewrite list_find_None, Forall_forall, list_elem_of_fmap. naive_solver.
Qed.

(** An update of one entry that keeps its agent and deployment. *)
Lemma agents_ok_update id agents i da da' :
  agents_ok id agents → agents !! i = Some da →
  da'.(DeploymentAgent.AgentID) = da.(DeploymentAgent.AgentID) →
  da'.(DeploymentAgent.DeploymentID) = da.(DeploymentAgent.DeploymentID) →
  agents_ok id (<[i := da']> agents).
Proof.
  intros [Hd Hn] Hi Ha Hdep. split.
  - apply Forall_insert; [done|]. rewrite Hdep. by apply (Forall_lookup_1 _ _ _ _ Hd Hi).
  - rewrite list_fmap_insert, Ha. rewrite list_insert_id; [done|]. by rewrite list_lookup_fmap, Hi.
Qed.

Lemma agents_ok_delete id agents i : agents_ok id agents → agents_ok id (delete i agents).
Proof.
  intros [Hd Hn]. split; [by apply Forall_delete|].
  rewrite list_fmap_delete. eapply sublist_NoDup; [done|apply sublist_delete].
Qed.

Lemma agents_ok_snoc id agents da :
  agents_ok id agents → da.(DeploymentAgent.DeploymentID) = id →
  da.(DeploymentAgent.AgentID) ∉ DeploymentAgent.AgentID <$> agents → agents_ok id (agents ++ [da]).
Proof.
  intros [Hd Hn] Hdep Hni. split; [by apply Forall_app_2; [|constructor]|].
  rewrite fmap_app, NoDup_app. simpl. split_and!; [done| |apply NoDup_singleton]. set_solver.
Qed.

Lemma wf_set_agents id agents s : wf s → agents_ok id agents → wf (set_agents id agents s).
Proof.
  intros [] Ha. split; simpl; try done. intros id' agents'.
  rewrite lookup_insert_Some. naive_solver.
Qed.

Lemma wf_assign dep agent xid s : wf s → wf (st (AssignAgentToDeployment dep agent xid s)).
Proof.
  intros Hw. unfold AssignAgentToDeployment. destruct (find_agent _ _) eqn:E; [done|].
  apply wf_set_agents; [done|]. apply agents_ok_snoc; [by apply agents_ok_entry|done|].
  by apply find_agent_None.
Qed.

Lemma wf_assign_all dep agents xids s : wf s → wf (st (AssignAgentsToDeployment dep agents xids s)).
Proof.
  revert xids s. induction agents as [|a agents IH]; intros xids s Hw; [done|].
  simpl. destruct (ret (AssignAgentToDeployment dep a (xids 0%nat) s)) as [[]|e|];
    [apply IH| |]; by apply wf_assign.
Qed.

Lemma deployments_run_wf c s : wf s → wf (run c s).1.
Proof.
  intros Hw. destruct c as [d now|d now|log now xid|r now xid|r now|id p t b a y now|id now
    |dep agent xid|dep agents xids|dep agent status e now|dep agent now|dep agent]; simpl.
  - unfold CreateDeployment. case_match; [done|]. destruct Hw. split; simpl; try done.
    intros id' d'. rewrite lookup_insert_Some. naive_solver.
  - unfold UpdateDeployment. case_match eqn:E; [|done]. destruct Hw. split; simpl; try done.
    intros id' d'. rewrite lookup_insert_Some. intros [[<- <-]|[_ ?]]; simpl; eauto.
  - destruct Hw. split; simpl; try done. intros id' logs. rewrite lookup_insert_Some.
    intros [[<- <-]|[_ ?]]; [|eauto]. apply Forall_app_2; [|by repeat constructor].
    unfold entry. destruct (deploymentLogs s !! _) eqn:E; simpl; [eauto|constructor].
  - destruct Hw. split; simpl; try done. intros id' r'. rewrite lookup_insert_Some. naive_solver.
  - unfold UpdateDeploymentRollback. case_match eqn:E; [|done]. destruct Hw. split; simpl; try done.
    intros id' r'. rewrite lookup_insert_Some. intros [[<- <-]|[_ ?]]; simpl; eauto.
  - unfold CreateScheduledDeployment. case_match; [done|]. destruct Hw. split; simpl; try done.
    intros id' d'. rewrite lookup_insert_Some. naive_solver.
  - unfold CancelScheduledDeployment. case_match eqn:E; [|done]. destruct Hw. split; simpl; try done.
    intros id' d'. rewrite lookup_insert_Some. intros [[<- <-]|[_ ?]]; simpl; eauto.
  - by apply wf_assign.
  - by apply wf_assign_all.
  - unfold UpdateDeploymentAgentStatus. destruct (find_agent _ _) as [[i da]|] eqn:E; [|done].
    apply find_agent_Some in E as [Hi _]. apply wf_set_agents; [done|].
    by eapply agents_ok_update; [apply agents_ok_entry|..].
  - unfold StartDeploymentAgent. destruct (find_agent _ _) as [[i da]|] eqn:E; [|done].
    apply find_agent_Some in E as [Hi _]. case_bool_decide; [done|]. apply wf_set_agents; [done|].
    by eapply agents_ok_update; [apply agents_ok_entry|..].
  - unfold RemoveAgentFromDeployment. destruct (find_agent _ _) as [[i da]|] eqn:E; [|done].
    case_bool_decide; [done|]. apply wf_set_agents; [done|].
    by apply agents_ok_delete, agents_ok_entry.
Qed.

Lemma run_all_wf cs s : wf s → wf (run_all cs s).
Proof.
  revert s. induction cs as [|c cs IH]; intros s Hw; [done|]. by apply IH, deployments_run_wf.
Qed.

(** * Queued writes *)

(** The kinds of write the methods queue. *)
Definition queued_kinds : list (WriteOpType * string * gotype) :=
  [(WriteOpInsert, "deployments", TDeploymentRecord);
   (WriteOpUpdate, "deployments", TDeploymentRecord);
   (WriteOpInsert, "deployment_logs", TDeploymentLog);
   (WriteOpInsert, "deployment_rollbacks", TDeploymentRollback);
   (WriteOpUpdate, "deployment_rollbacks", TDeploymentRollback);
   (WriteOpInsert, "scheduled_deployments", TScheduledDeployment);
   (WriteOpUpdate, "scheduled_deployments", TScheduledDeployment)].

Lemma assign_queues_nothing dep agent xid s : queued (AssignAgentToDeployment dep agent xid s) = [].
Proof. unfold AssignAgentToDeployment. by case_match. Qed.

Lemma assign_all_queues_nothing dep agents xids s :
  queued (AssignAgentsToDeployment dep agents xids s) = [].
Proof.
  revert xids s. induction agents as [|a agents IH]; intros xids s; simpl; [done|].
  destruct (ret (AssignAgentToDeployment _ _ _ _)) as [[]|e|]; [apply IH|done|done].
Qed.

Lemma deployments_run_queued c s :
  (run c s).2 = [] ∨
  ∃ now typ tbl T key, (run c s).2 = queueWrite deploymentsWrites now typ tbl (DPtr T key) ∧
    (typ, tbl, T) ∈ queued_kinds.
Proof.
  destruct c; simpl;
    unfold CreateDeployment, UpdateDeployment, UpdateDeploymentRollback, CreateScheduledDeployment,
      CancelScheduledDeployment, UpdateDeploymentAgentStatus, StartDeploymentAgent,
      RemoveAgentFromDeployment;
    rewrite ?assign_queues_nothing, ?assign_all_queues_nothing; auto;
    repeat case_match; simpl; auto; right;
    (do 5 eexists; split; [reflexivity|]; unfold queued_kinds; repeat first [left|right]).
Qed.

(** * The assignment table as a finite map *)

(** What the assignments of a deployment mean: a finite map from agents to
    their assignment. *)
Definition view (agents : list DeploymentAgent) : gmap string DeploymentAgent :=
  list_to_map ((λ da, (da.(DeploymentAgent.AgentID), da)) <$> agents).

Definition assignments (deploymentID : string) (s : State) : gmap string DeploymentAgent :=
  view (entry (deploymentAgents s) deploymentID).

(** The operations on that map; [None] is an error. *)
Module AssignmentSpec.
Definition table : Type := gmap string DeploymentAgent.

Definition assign (deploymentID agentID xid : string) (m : table) : option table :=
  match m !! agentID with
  | Some _ => None
  | None => Some (<[agentID := DeploymentAgent.mk xid deploymentID agentID "pending" None None ""]> m)
  end.

Definition set_status (agentID status errorMsg : string) (now : time) (m : table) : option table :=
  match m !! agentID with
  | None => None
  | Some da =>
      let done := if DeploymentStatus_IsTerminal status then Some now
                  else da.(DeploymentAgent.CompletedAt) in
      Some (<[agentID := {| da with DeploymentAgent.Status := status;
                            DeploymentAgent.ErrorMessage := errorMsg;
                            DeploymentAgent.CompletedAt := done |}]> m)
  end.

Definition start (agentID : string) (now : time) (m : table) : option table :=
  match m !! agentID with
  | None => None
  | Some da =>
      if bool_decide (da.(DeploymentAgent.Status) = "pending")
      then Some (<[agentID := {| da with DeploymentAgent.Status := "running";
                                 DeploymentAgent.StartedAt := Some now |}]> m)
      else None
  end.

Definition remove (agentID : string) (m : table) : option table :=
  match m !! agentID with
  | None => None
  | Some da => if bool_decide (da.(DeploymentAgent.Status) = "pending")
               then Some (delete agentID m) else None
  end.

(** Assigning several agents one after the other, up to the first that cannot be
    assigned: the table then, and whether all of them were. *)
Fixpoint assign_all (deploymentID : string) (agentIDs : list string) (xids : nat → string) (m : table)
    : table * bool :=
  match agentIDs with
  | [] => (m, true)
  | agentID :: rest =>
      match assign deploymentID agentID (xids 0%nat) m with
      | Some m => assign_all deploymentID rest (λ n, xids (S n)) m
      | None => (m, false)
      end
  end.

(** How many agents of the table have a status. *)
Definition with_status (status : string) (m : table) : Z :=
  map_len (filter (λ kv, kv.2.(DeploymentAgent.Status) = status) m).
End AssignmentSpec.

(** The outcome of a method on deployment [dep] is that of the abstract
    operation: success makes its table the new one and leaves the other
    deployments' alone, an error changes nothing. *)
Definition refines (dep : string) (s : State) (o : Out unit) (spec : option AssignmentSpec.table) : Prop :=
  match spec with
  | Some m => ret o = Ok tt ∧ assignments dep (st o) = m ∧
              ∀ dep', dep' ≠ dep → assignments dep' (st o) = assignments dep' s
  | None => (∃ e, ret o = Err e) ∧ st o = s
  end.

Arguments refines : simpl never.

(** The outcome of a method that may have done a part of its work when it reports an
    error: the table is the abstract one either way. *)
Definition refines_partly (dep : string) (s : State) (o : Out unit) (spec : AssignmentSpec.table * bool) : Prop :=
  (if spec.2 then ret o = Ok tt else ∃ e, ret o = Err e) ∧ assignments dep (st o) = spec.1 ∧
  ∀ dep', dep' ≠ dep → assignments dep' (st o) = assignments dep' s.

Arguments refines_partly : simpl never.

Lemma view_keys agents :
  ((λ da, (da.(DeploymentAgent.AgentID), da)) <$> agents).*1 = DeploymentAgent.AgentID <$> agents.
Proof. by rewrite <- list_fmap_compose. Qed.

Lemma view_None agents a : view agents !! a = None ↔ a ∉ DeploymentAgent.AgentID <$> agents.
Proof. unfold view. by rewrite <- not_elem_of_list_to_map, view_keys. Qed.

Lemma view_find a agents :
  NoDup (DeploymentAgent.AgentID <$> agents) → view agents !! a = snd <$> find_agent a agents.
Proof.
  intros Hn. destruct (find_agent a agents) as [[i da]|] eqn:E; simpl.
  - apply find_agent_Some in E as [Hi <-]. apply elem_of_list_to_map_1; [by rewrite view_keys|].
    apply list_elem_of_fmap. exists da. split; [done|]. by eapply list_elem_of_lookup_2.
  - by apply view_None, find_agent_None.
Qed.

(** Around an entry, the agents of a list split into those before and after. *)
Lemma agents_split agents i da :
  NoDup (DeploymentAgent.AgentID <$> agents) → agents !! i = Some da →
  ∃ l1 l2, agents = l1 ++ da :: l2 ∧ length l1 = i ∧
    (da.(DeploymentAgent.AgentID) ∉ (DeploymentAgent.AgentID <$> l1)) ∧
    da.(DeploymentAgent.AgentID) ∉ (DeploymentAgent.AgentID <$> l2).
Proof.
  intros Hn Hi. exists (take i agents), (drop (S i) agents).
  apply take_drop_middle in Hi as Hs. split; [done|]. split.
  { apply length_take_le. apply lookup_lt_Some in Hi. lia. }
  rewrite <- Hs in Hn. rewrite fmap_app, NoDup_app in Hn. simpl in Hn.
  destruct Hn as (_ & Hd & Hn%NoDup_cons). set_solver.
Qed.

Lemma view_app l1 l2 : view (l1 ++ l2) = view l1 ∪ view l2.
Proof. unfold view. by rewrite fmap_app, list_to_map_app. Qed.

Lemma view_update agents i da da' :
  NoDup (DeploymentAgent.AgentID <$> agents) → agents !! i = Some da →
  da'.(DeploymentAgent.AgentID) = da.(DeploymentAgent.AgentID) →
  view (<[i := da']> agents) = <[da.(DeploymentAgent.AgentID) := da']> (view agents).
Proof.
  intros Hn Hi Ha. destruct (agents_split _ _ _ Hn Hi) as (l1 & l2 & -> & <- & H1 & H2).
  rewrite insert_app_r_alt, Nat.sub_diag by lia. simpl. rewrite !view_app.
  rewrite insert_union_r by (by apply view_None). f_equal.
  unfold view. simpl. rewrite Ha. by rewrite insert_insert_eq.
Qed.

Lemma view_delete agents i da :
  NoDup (DeploymentAgent.AgentID <$> agents) → agents !! i = Some da →
  view (delete i agents) = delete da.(DeploymentAgent.AgentID) (view agents).
Proof.
  intros Hn Hi. destruct (agents_split _ _ _ Hn Hi) as (l1 & l2 & -> & <- & H1 & H2).
  rewrite delete_middle, !view_app, delete_union.
  rewrite (delete_id (view l1)) by (by apply view_None). f_equal.
  unfold view. simpl. rewrite delete_insert_eq. symmetry. apply delete_id. by apply view_None.
Qed.

Lemma view_snoc agents da :
  da.(DeploymentAgent.AgentID) ∉ DeploymentAgent.AgentID <$> agents →
  view (agents ++ [da]) = <[da.(DeploymentAgent.AgentID) := da]> (view agents).
Proof.
  intros Hn. rewrite view_app. unfold view at 2. simpl.
  rewrite <- (map_union_empty (view agents)) at 2.
  by rewrite insert_union_r by (by apply view_None).
Qed.

Lemma assignments_set dep dep' agents s :
  assignments dep' (set_agents dep agents s) =
  if decide (dep' = dep) then view agents else assignments dep' s.
Proof.
  unfold assignments, set_agents. simpl. destruct (decide (dep' = dep)) as [->|].
  - by rewrite entry_insert_eq.
  - by rewrite entry_insert_ne.
Qed.

(** A successful method that installs [agents] refines an operation with the
    table they mean. *)
Lemma refines_set dep s agents m :
  view agents = m →
  refines dep s (mkOut (set_agents dep agents s) [] (Ok tt)) (Some m).
Proof.
  intros <-. split_and!; simpl; [done| |].
  - by rewrite assignments_set, decide_True.
  - intros dep' Hne. by rewrite assignments_set, decide_False.
Qed.

Lemma refines_fail dep s e : refines dep s (fail s e) None.
Proof. split; simpl; eauto. Qed.

Lemma status_refines_run dep agent status e now s :
  wf s →
  refines dep s (UpdateDeploymentAgentStatus dep agent status e now s)
    (AssignmentSpec.set_status agent status e now (assignments dep s)) ∧
  refines dep s (StartDeploymentAgent dep agent now s)
    (AssignmentSpec.start agent now (assignments dep s)) ∧
  refines dep s (RemoveAgentFromDeployment dep agent s)
    (AssignmentSpec.remove agent (assignments dep s)).
Proof.
  intros Hw. destruct (agents_ok_entry s dep Hw) as [_ Hn].
  unfold UpdateDeploymentAgentStatus, StartDeploymentAgent, RemoveAgentFromDeployment,
    AssignmentSpec.set_status, AssignmentSpec.start, AssignmentSpec.remove.
  unfold assignments. rewrite view_find by done.
  destruct (find_agent agent _) as [[i da]|] eqn:E; simpl;
    [|split; [|split]; apply refines_fail].
  apply find_agent_Some in E as [Hi <-].
  rewrite bool_decide_not. unfold DeploymentStatusPending, DeploymentStatusRunning.
  split; [|split; (case_bool_decide; simpl; [|apply refines_fail])]; apply refines_set;
    [by erewrite view_update|by erewrite view_update|by erewrite view_delete].
Qed.

Lemma assign_refines_run dep agent xid s :
  wf s →
  refines dep s (AssignAgentToDeployment dep agent xid s)
    (AssignmentSpec.assign dep agent xid (assignments dep s)).
Proof.
  intros Hw. destruct (agents_ok_entry s dep Hw) as [_ Hn].
  unfold AssignAgentToDeployment, AssignmentSpec.assign. unfold assignments at 1.
  rewrite view_find by done. destruct (find_agent agent _) eqn:E; simpl; [apply refines_fail|].
  apply refines_set. rewrite find_agent_None in E. by rewrite view_snoc.
Qed.

Lemma assign_all_refines_run dep agents xids s :
  wf s →
  refines_partly dep s (AssignAgentsToDeployment dep agents xids s)
    (AssignmentSpec.assign_all dep agents xids (assignments dep s)).
Proof.
  revert xids s. induction agents as [|a agents IH]; intros xids s Hw; [by split_and!|]. simpl.
  pose proof (assign_refines_run dep a (xids 0%nat) s Hw) as Hr.
  destruct (AssignmentSpec.assign _ _ _ _) as [m|].
  - destruct Hr as (-> & Hm & Ho).
    destruct (IH (λ n, xids (S n)) _ (wf_assign dep a (xids 0%nat) s Hw)) as (H1 & H2 & H3).
    rewrite Hm in H1, H2. split_and!; [exact H1|exact H2|].
    intros dep' Hne. by rewrite H3, Ho.
  - destruct Hr as [[e He] Hs]. rewrite He, Hs. split_and!; simpl; eauto.
Qed.

(** The list of a deployment has every assignment of its table once. *)
Lemma view_list agents :
  NoDup (DeploymentAgent.AgentID <$> agents) → agents ≡ₚ (map_to_list (view agents)).*2.
Proof.
  intros Hn. unfold view. rewrite map_to_list_to_map by (by rewrite view_keys).
  rewrite <- list_fmap_compose. by rewrite list_fmap_id.
Qed.

Lemma view_count agents status :
  NoDup (DeploymentAgent.AgentID <$> agents) →
  len (filter (λ da, da.(DeploymentAgent.Status) = status) agents) =
  AssignmentSpec.with_status status (view agents).
Proof.
  intros Hn. unfold AssignmentSpec.with_status, len. rewrite (view_list agents) at 1 by done.
  exact (@count_range_values range_in_key_order _ (λ da, da.(DeploymentAgent.Status) = status) _ (view agents)).
Qed.

Lemma elem_of_concat {A} (x : A) (ls : list (list A)) : x ∈ concat ls ↔ ∃ l, l ∈ ls ∧ x ∈ l.
Proof. rewrite list_elem_of_In, in_concat. by setoid_rewrite list_elem_of_In. Qed.

Lemma one_entry agents agent (g : DeploymentAgent → string) :
  NoDup (DeploymentAgent.AgentID <$> agents) →
  NoDup (g <$> filter (λ da, da.(DeploymentAgent.AgentID) = agent) agents).
Proof.
  induction agents as [|da agents IH]; simpl; [constructor|]. intros [Hni Hn]%NoDup_cons.
  rewrite filter_cons. case_decide as Hd; [|by apply IH].
  destruct (filter _ agents) as [|x l] eqn:E; [apply NoDup_singleton|]. exfalso. apply Hni.
  assert (x ∈ filter (λ da, da.(DeploymentAgent.AgentID) = agent) agents) as [Hx Hin]%list_elem_of_filter
    by (rewrite E; by left).
  apply list_elem_of_fmap. exists x. by rewrite Hd, Hx.
Qed.

Lemma deployments_once (tables : list (string * list DeploymentAgent)) agent :
  NoDup tables.*1 → Forall (λ kv, agents_ok kv.1 kv.2) tables →
  NoDup (DeploymentAgent.DeploymentID <$>
         filter (λ da, da.(DeploymentAgent.AgentID) = agent) (concat tables.*2)).
Proof.
  induction tables as [|[dep agents] tables IH]; simpl; [constructor|].
  intros [Hni Hn]%NoDup_cons [[Hdep Hag] Ht]%Forall_cons. rewrite filter_app, fmap_app.
  apply NoDup_app. split_and!; [by apply one_entry| |by apply IH].
  intros d (da & -> & Hin)%list_elem_of_fmap (da' & Heq & Hin')%list_elem_of_fmap.
  apply list_elem_of_filter in Hin as [_ Hin], Hin' as [_ Hin'].
  rewrite Forall_forall in Hdep. rewrite (Hdep da Hin) in Heq. apply Hni.
  apply elem_of_concat in Hin' as (l & Hl & Hin').
  apply list_elem_of_fmap in Hl as ([k l'] & -> & Hkl).
  apply list_elem_of_fmap. exists (k, l'). split; [|done]. simpl in *.
  rewrite Forall_forall in Ht. destruct (Ht _ Hkl) as [Hf _]. rewrite Forall_forall in Hf.
  by rewrite Heq, (Hf da' Hin').
Qed.

(** What is listed for an agent: its entries in the tables of all deployments. *)
Lemma agent_deployments_listed `{MapRange} agent s :
  wf s →
  ∃ l, GetAgentDeployments agent s = Ok l ∧ NoDup (DeploymentAgent.DeploymentID <$> l) ∧
    ∀ da, da ∈ l ↔ assignments da.(DeploymentAgent.DeploymentID) s !! agent = Some da.
Proof.
  intros Hw. eexists. split; [done|]. split.
  - apply deployments_once; [apply range_NoDup_keys|]. apply Forall_forall. intros [dep agents] Hin.
    apply (wf_agents s Hw). by apply elem_of_range.
  - intros da. destruct (agents_ok_entry s da.(DeploymentAgent.DeploymentID) Hw) as [_ Hn].
    rewrite list_elem_of_filter, elem_of_concat. split.
    + intros (<- & agents & Hin & Hda). apply elem_of_range_values in Hin as [dep Hdep].
      destruct (wf_agents s Hw dep agents Hdep) as [Hd Hag]. rewrite Forall_forall in Hd.
      unfold assignments, entry. rewrite (Hd da Hda), Hdep. simpl.
      apply elem_of_list_to_map_1; [by rewrite view_keys|]. apply list_elem_of_fmap. by exists da.
    + unfold assignments. rewrite view_find by done.
      intros ([i da'] & Hf & [= ->])%fmap_Some. apply find_agent_Some in Hf as [Hi Ha].
      apply list_elem_of_lookup_2, elem_of_entry in Hi as (agents & Hl & Hda).
      split; [done|]. exists agents. split; [|done]. apply elem_of_range_values. eauto.
Qed.

(** * Properties *)

(** After any sequence of calls on a fresh store every deployment, rollback
    and scheduled deployment is filed under its own identifier, every log under
    its deployment, every assignment under its deployment, and no agent is
    assigned twice to the same deployment. *)
Theorem deployments_invariant cs : wf (run_all cs empty).
Proof. apply run_all_wf, deployments_wf_empty. Qed.

(** C4: The assignment methods implement a finite map from agents to assignments, for every
    deployment of a well-formed store.  Assigning an agent inserts a pending entry unless
    it has one; a status update rewrites the entry and stamps the completion of a terminal
    status; starting and removing require the entry to be pending; such a call that is
    refused changes nothing.  Assigning several agents assigns them in order up to the
    first that has an entry (in the table or by an earlier place in the list): the call
    then reports an error and keeps the assignments made before.  No call touches another
    deployment.  The queries answer from the map: the entry of an agent and whether there
    is one, the list of a deployment has each entry once, the list of an agent has its
    entry of every deployment once, and the counts are the numbers of entries by status,
    a status that no entry has being absent. *)
Theorem assignments_refine_map `{MapRange} dep agent agents status errorMsg xid xids now s :
  wf s →
  refines dep s (AssignAgentToDeployment dep agent xid s)
    (AssignmentSpec.assign dep agent xid (assignments dep s)) ∧
  refines dep s (UpdateDeploymentAgentStatus dep agent status errorMsg now s)
    (AssignmentSpec.set_status agent status errorMsg now (assignments dep s)) ∧
  refines dep s (StartDeploymentAgent dep agent now s)
    (AssignmentSpec.start agent now (assignments dep s)) ∧
  refines dep s (RemoveAgentFromDeployment dep agent s)
    (AssignmentSpec.remove agent (assignments dep s)) ∧
  refines_partly dep s (AssignAgentsToDeployment dep agents xids s)
    (AssignmentSpec.assign_all dep agents xids (assignments dep s)) ∧
  GetDeploymentAgentStatus dep agent s = Ok (assignments dep s !! agent) ∧
  IsAgentAssignedToDeployment dep agent s = Ok (bool_decide (is_Some (assignments dep s !! agent))) ∧
  (∃ l, GetDeploymentAgents dep s = Ok l ∧ l ≡ₚ (map_to_list (assignments dep s)).*2) ∧
  (∃ l, GetAgentDeployments agent s = Ok l ∧ NoDup (DeploymentAgent.DeploymentID <$> l) ∧
    ∀ da, da ∈ l ↔ assignments da.(DeploymentAgent.DeploymentID) s !! agent = Some da) ∧
  (∃ counts, CountDeploymentAgentsByStatus dep s = Ok counts ∧
    counts !! status =
      let n := AssignmentSpec.with_status status (assignments dep s) in if n =? 0 then None else Some n).
Proof.
  intros Hw. destruct (status_refines_run dep agent status errorMsg now s Hw) as (H1 & H2 & H3).
  destruct (agents_ok_entry s dep Hw) as [_ Hn].
  do 5 (split; [by auto using assign_refines_run, assign_all_refines_run|]).
  unfold GetDeploymentAgentStatus, IsAgentAssignedToDeployment, assignments at 1 2.
  split; [by rewrite view_find|]. split.
  { f_equal. apply bool_decide_ext. by rewrite (view_find agent _ Hn), fmap_is_Some. }
  split; [eexists; split; [done|by apply view_list]|]. split; [by apply agent_deployments_listed|].
  eexists. split; [done|]. by rewrite count_by_spec, view_count.
Qed.

Definition two_agents : State :=
  run_all [CAssignAgentsToDeployment "d" ["a"; "b"] (λ _, "x"); CStartDeploymentAgent "d" "a" 5] empty.

Lemma assignments_refine_map_witness :
  wf two_agents ∧
  refines "d" two_agents (StartDeploymentAgent "d" "b" 7 two_agents)
    (AssignmentSpec.start "b" 7 (assignments "d" two_agents)) ∧
  refines_partly "d" two_agents (AssignAgentsToDeployment "d" ["c"; "a"; "e"] (λ _, "y") two_agents)
    (<["c" := DeploymentAgent.mk "y" "d" "c" "pending" None None ""]> (assignments "d" two_agents), false).
Proof.
  assert (wf two_agents) as Hw by apply run_all_wf, deployments_wf_empty. split; [exact Hw|].
  destruct (@assignments_refine_map range_in_key_order "d" "b" ["c"; "a"; "e"] "" "" "" (λ _, "y") 7 two_agents Hw)
    as (_ & _ & H1 & _ & H2 & _).
  split; [exact H1|exact H2].
Defined.

(** The deployment lists are the stored records, newest first, whatever
    order the map is visited in: the recent list is its first [limit] records
    (all of them for a limit that is not positive) and a page is the slice at its
    offset, past the end the empty one. *)
Theorem deployment_lists `{MapRange} limit offset s :
  0 ≤ offset →
  ∃ all,
    all ≡ₚ (map_to_list (deployments s)).*2 ∧
    StronglySorted (λ x y, y.(DeploymentRecord.StartedAt) ≤ x.(DeploymentRecord.StartedAt)) all ∧
    ListDeploymentsRecent limit s = Ok (if 0 <? limit then take (Z.to_nat limit) all else all) ∧
    ListDeploymentsPaginated limit offset s =
      Ok (let rest := drop (Z.to_nat offset) all in
          if 0 <? limit then take (Z.to_nat limit) rest else rest) ∧
    CountDeployments s = Ok (len all).
Proof.
  intros Ho. exists (deployments_newest_first s). unfold deployments_newest_first.
  split_and!.
  - by rewrite exchange_sort_perm, range_values_perm.
  - apply newest_first_sorted.
  - unfold ListDeploymentsRecent, deployments_newest_first. f_equal.
    destruct (Z.ltb_spec 0 limit); [by apply limit_to_take|by apply limit_to_none].
  - by apply page_spec.
  - unfold CountDeployments, map_len, len. by rewrite exchange_sort_length, range_values_length.
Qed.

Definition two_deployments : State :=
  run_all [CCreateDeployment (DeploymentRecord.mk "d1" "p" None "t" "main" "" "" 0 0 None "u" "api" "") 10;
           CCreateDeployment (DeploymentRecord.mk "d2" "p" None "t" "main" "" "" 0 0 None "u" "api" "") 20]
    empty.

Lemma deployment_lists_witness :
  ∃ all, all ≡ₚ (map_to_list (deployments two_deployments)).*2 ∧
    (λ d, d.(DeploymentRecord.ID)) <$> all = ["d2"; "d1"] ∧
    CountDeployments two_deployments = Ok (len all).
Proof.
  destruct (@deployment_lists range_reversed 0 0 two_deployments ltac:(lia))
    as (all & Hp & Hs & Hr & _ & Hc).
  exists all. split; [exact Hp|]. split; [|exact Hc].
  vm_compute in Hr. injection Hr as <-. vm_compute. reflexivity.
Defined.

(** Counting deployments by status counts exactly: a status maps to the
    number of stored deployments that have it, and a status no deployment has is
    absent; the order in which the map is visited does not matter. *)
Theorem count_by_status_exact `{MapRange} s status :
  ∃ counts, CountDeploymentsByStatus s = Ok counts ∧
    counts !! status =
      let n := map_len (filter (λ kv, kv.2.(DeploymentRecord.Status) = status) (deployments s)) in
      if n =? 0 then None else Some n.
Proof.
  eexists. split; [done|]. rewrite count_by_spec.
  assert (len (filter (λ d, d.(DeploymentRecord.Status) = status) (range_values (deployments s))) =
          map_len (filter (λ kv, kv.2.(DeploymentRecord.Status) = status) (deployments s))) as ->; [|done].
  apply count_range_values.
Qed.

(** The latest rollback of a deployment is one of its stored rollbacks that
    no other of them is younger than, and is "not found" exactly when the
    deployment has none. *)
Theorem latest_rollback_spec `{MapRange} dep s :
  match GetLatestRollbackForDeployment dep s with
  | Ok r => (∃ id, deploymentRollbacks s !! id = Some r) ∧
            r.(DeploymentRollback.DeploymentID) = dep ∧
            ∀ id r', deploymentRollbacks s !! id = Some r' →
              r'.(DeploymentRollback.DeploymentID) = dep →
              r'.(DeploymentRollback.StartedAt) ≤ r.(DeploymentRollback.StartedAt)
  | Err e => e = ErrNotFound ∧
             ∀ id r, deploymentRollbacks s !! id = Some r → r.(DeploymentRollback.DeploymentID) ≠ dep
  | Panic => False
  end.
Proof.
  unfold GetLatestRollbackForDeployment. destruct (latest _ _) as [r|] eqn:E.
  - apply latest_Some in E as [Hin Hmax]. rewrite list_elem_of_filter, elem_of_range_values in Hin.
    destruct Hin as [Hd Hid]. split_and!; [done|done|]. intros id r' Hr' Hd'. apply Hmax.
    rewrite list_elem_of_filter, elem_of_range_values. eauto.
  - rewrite latest_None in E. split; [done|]. intros id r Hr Hd.
    eapply (not_elem_of_nil r). rewrite <- E, list_elem_of_filter, elem_of_range_values. eauto.
Qed.

(** Every write the deployment methods queue goes to the deployments
    channel and can be carried out by its executor against the schema, except
    those of scheduled deployments: their statements name a table the schema
    does not have, so they are refused every time. *)
Theorem deployment_writes c s ch op :
  (ch, op) ∈ (run c s).2 →
  ch = deploymentsWrites ∧
  accepted op = negb (bool_decide (op.(WriteOp.Table) = "scheduled_deployments")).
Proof.
  intros Hin.
  assert ((run c s).2 = [] ∨
          ∃ now typ tbl T key, (run c s).2 = queueWrite deploymentsWrites now typ tbl (DPtr T key) ∧
            (typ, tbl, T) ∈ queued_kinds) as [Hn|(now & typ & tbl & T & key & Hq & Hk)].
  { apply deployments_run_queued. }
  - rewrite Hn in Hin. by apply not_elem_of_nil in Hin.
  - rewrite Hq in Hin. apply list_elem_of_singleton in Hin. injection Hin as -> ->.
    split; [done|]. unfold queued_kinds in Hk.
    repeat (apply elem_of_cons in Hk as [[= -> -> ->]|Hk]; [vm_compute; reflexivity|]).
    by apply not_elem_of_nil in Hk.
Qed.

Lemma deployment_writes_witness :
  let op := NewWriteOp 3 WriteOpInsert "scheduled_deployments" (DPtr TScheduledDeployment "s") in
  deploymentsWrites = deploymentsWrites ∧ accepted op = false.
Proof.
  exact (deployment_writes (CCreateScheduledDeployment "s" "p" "t" "main" 9 "u" 3) empty
           deploymentsWrites _ ltac:(left)).
Defined.

End Deployments.
