(* ===== verification/MemUsers.v ===== *)
(** Users, sessions and API keys in the memory store
    ([src/internal/storage/memory_users.go]).

    A stored user is a private copy that no method writes through, so the two
    user maps hold values.  An API key is one object reached from two maps, by
    hash and from the list of its owner, and [UpdateAPIKeyUsage] writes through
    the pointer: the maps hold locations of a heap of keys. *)

From S2P Require Import StoreBase.

#[local] Open Scope string_scope.
#[local] Open Scope list_scope.
#[local] Open Scope Z_scope.

Module Users.

Abbreviation loc := nat.

Record State := mkState {
  users : gmap string User;
  usersByName : gmap string User;
  sessions : gmap string Session;
  keyHeap : gmap loc APIKey;
  apiKeys : gmap string loc;
  apiKeysByUser : gmap string (list loc)
}.

Definition empty : State := mkState ∅ ∅ ∅ ∅ ∅ ∅.

Abbreviation Out := (Outcome State).

(** * Users *)

Definition CreateUser (user : User) (now : time) (xid : string) (s : State) : Out User :=
  match usersByName s !! user.(User.Username) with
  | Some _ => fail s ErrDuplicate
  | None =>
      let stored := {| user with User.ID := or_string user.(User.ID) xid;
                       User.CreatedAt := now; User.UpdatedAt := now |} in
      mkOut {| s with users := <[stored.(User.ID) := stored]> (users s);
               usersByName := <[stored.(User.Username) := stored]> (usersByName s) |}
        (queueWrite coreWrites now WriteOpInsert "users" (DPtr TUser stored.(User.ID)))
        (Ok stored)
  end.

Definition GetUserByUsername (username : string) (s : State) : result User :=
  match usersByName s !! username with None => Err ErrNotFound | Some u => Ok u end.

Definition GetUserByID (id : string) (s : State) : result User :=
  match users s !! id with None => Err ErrNotFound | Some u => Ok u end.

Definition ListUsers `{MapRange} (s : State) : result (list User) := Ok (range_values (users s)).

Definition ListUsersPaginated `{MapRange} (limit offset : Z) (s : State) : result (list User) :=
  paginate (range_values (users s)) limit offset.

Definition CountUsers (s : State) : result Z := Ok (map_len (users s)).

Definition UpdateUserByID (user : User) (now : time) (s : State) : Out User :=
  match users s !! user.(User.ID) with
  | None => fail s ErrNotFound
  | Some existing =>
      let renamed := bool_decide (existing.(User.Username) ≠ user.(User.Username)) in
      if renamed && bool_decide (is_Some (usersByName s !! user.(User.Username)))
      then fail s ErrDuplicate
      else
        let byName := if renamed then delete existing.(User.Username) (usersByName s)
                      else usersByName s in
        let stored := {| user with User.UpdatedAt := now |} in
        mkOut {| s with users := <[user.(User.ID) := stored]> (users s);
                 usersByName := <[user.(User.Username) := stored]> byName |}
          (queueWrite coreWrites now WriteOpUpdate "users" (DPtr TUser user.(User.ID)))
          (Ok stored)
  end.

(** The key a location holds has the property; a stored location is never
    dangling. *)
Definition key_test (s : State) (p : APIKey → bool) (l : loc) : bool :=
  match keyHeap s !! l with Some k => p k | None => false end.

Definition DeleteUser `{MapRange} (id : string) (now : time) (s : State) : Out unit :=
  match users s !! id with
  | None => mkOut s [] (Ok tt)
  | Some user =>
      mkOut {| s with users := delete id (users s);
               usersByName := delete user.(User.Username) (usersByName s);
               sessions := range_delete (λ x, bool_decide (x.(Session.UserID) = id)) (sessions s);
               apiKeysByUser := delete id (apiKeysByUser s);
               apiKeys := range_delete (key_test s (λ k, bool_decide (k.(APIKey.UserID) = id))) (apiKeys s) |}
        (queueWrite coreWrites now WriteOpDelete "users" (DMapSS [("id", id)]))
        (Ok tt)
  end.

(** * Sessions *)

Definition CreateSession (session : Session) (now : time) (s : State) : Out Session :=
  if bool_decide (session.(Session.Token) = "") then fail s ErrValidation
  else
    let stored := {| session with Session.ID := session.(Session.Token);
                     Session.CreatedAt := now; Session.LastUsed := now |} in
    mkOut {| s with sessions := <[session.(Session.Token) := stored]> (sessions s) |}
      (queueWrite coreWrites now WriteOpInsert "sessions" (DPtr TSession session.(Session.Token)))
      (Ok stored).

Definition GetSessionByToken (token : string) (now : time) (s : State) : result Session :=
  match sessions s !! token with
  | None => Err ErrNotFound
  | Some session =>
      if After now session.(Session.ExpiresAt) then Err ErrNotFound else Ok session
  end.

Definition DeleteSession (token : string) (now : time) (s : State) : Out unit :=
  mkOut {| s with sessions := delete token (sessions s) |}
    (queueWrite coreWrites now WriteOpDelete "sessions" (DMapSS [("token", token)]))
    (Ok tt).

Definition expired (now : time) (x : Session) : bool := After now x.(Session.ExpiresAt).

Definition DeleteExpiredSessions `{MapRange} (now : time) (s : State) : Out Z :=
  let deleted := len (filter (λ x, expired now x = true) (range_values (sessions s))) in
  mkOut {| s with sessions := range_delete (expired now) (sessions s) |}
    (if 0 <? deleted
     then queueWrite coreWrites now WriteOpDelete "sessions" (DMapST [("expired_before", now)])
     else [])
    (Ok deleted).

Definition DeleteUserSessions `{MapRange} (userID : string) (now : time) (s : State) : Out unit :=
  mkOut {| s with sessions := range_delete (λ x, bool_decide (x.(Session.UserID) = userID)) (sessions s) |}
    (queueWrite coreWrites now WriteOpDelete "sessions" (DMapSS [("user_id", userID)]))
    (Ok tt).

Definition ListUserSessions `{MapRange} (userID : string) (s : State) : result (list Session) :=
  Ok (filter (λ x, x.(Session.UserID) = userID) (range_values (sessions s))).

(** [CleanupExpiredSessions] of [memory_cleanup.go]. *)
Definition CleanupExpiredSessions `{MapRange} (cutoff now : time) (s : State) : Out Z :=
  let old x := Before x.(Session.ExpiresAt) cutoff in
  let gone := filter (λ x, old x = true) (range_values (sessions s)) in
  mkOut {| s with sessions := range_delete old (sessions s) |}
    (gone ≫= λ x, queueWrite coreWrites now WriteOpDelete "sessions" (DPtr TSession x.(Session.ID)))
    (Ok (len gone)).

(** * API keys *)

Definition CreateAPIKey (key : APIKey) (now : time) (xid : string) (s : State) : Out APIKey :=
  if bool_decide (key.(APIKey.KeyHash) = "") then fail s ErrValidation
  else match apiKeys s !! key.(APIKey.KeyHash) with
       | Some _ => fail s ErrDuplicate
       | None =>
           let l := fresh (dom (keyHeap s)) in
           let stored := {| key with APIKey.ID := or_string key.(APIKey.ID) xid;
                            APIKey.CreatedAt := now |} in
           mkOut {| s with keyHeap := <[l := stored]> (keyHeap s);
                    apiKeys := <[key.(APIKey.KeyHash) := l]> (apiKeys s);
                    apiKeysByUser := <[key.(APIKey.UserID) :=
                       entry (apiKeysByUser s) key.(APIKey.UserID) ++ [l]]> (apiKeysByUser s) |}
             (queueWrite coreWrites now WriteOpInsert "api_keys" (DPtr TAPIKey stored.(APIKey.ID)))
             (Ok stored)
       end.

Definition has_id (keyID : string) (k : APIKey) : bool := bool_decide (k.(APIKey.ID) = keyID).

(** The loop over [s.apiKeys] for the key with this ID. *)
Definition find_key `{MapRange} (keyID : string) (s : State) : option (string * loc) :=
  range_find (key_test s (has_id keyID)) (apiKeys s).

Definition unless_expired (now : time) (k : APIKey) : result APIKey :=
  match k.(APIKey.ExpiresAt) with
  | Some e => if After now e then Err ErrNotFound else Ok k
  | None => Ok k
  end.

Definition read_key (now : time) (l : loc) (s : State) : result APIKey :=
  match keyHeap s !! l with Some k => unless_expired now k | None => Panic end.

Definition GetAPIKeyByID `{MapRange} (keyID : string) (now : time) (s : State) : result APIKey :=
  match find_key keyID s with
  | Some (_, l) => read_key now l s
  | None => Err ErrNotFound
  end.

Definition GetAPIKeyByHash (keyHash : string) (now : time) (s : State) : result APIKey :=
  match apiKeys s !! keyHash with
  | Some l => read_key now l s
  | None => Err ErrNotFound
  end.

(** The write through the pointer is seen from both maps. *)
Definition UpdateAPIKeyUsage `{MapRange} (keyID : string) (now : time) (s : State) : Out unit :=
  match find_key keyID s with
  | Some (_, l) =>
      mkOut {| s with keyHeap := alter (λ k, {| k with APIKey.LastUsedAt := Some now |}) l (keyHeap s) |}
        (queueWrite coreWrites now WriteOpUpdate "api_keys"
           (DMapSA [("id", VString keyID); ("last_used_at", VTime now)]))
        (Ok tt)
  | None => fail s ErrNotFound
  end.

(** The second loop removes the first key of the owner's list with this ID:
    [append(userKeys[:i], userKeys[i+1:]...)]. *)
Definition drop_key (keyID userID : string) (s : State) : gmap string (list loc) :=
  let userKeys := entry (apiKeysByUser s) userID in
  match list_find (λ l, key_test s (has_id keyID) l = true) userKeys with
  | Some (i, _) => <[userID := delete i userKeys]> (apiKeysByUser s)
  | None => apiKeysByUser s
  end.

Definition DeleteAPIKey `{MapRange} (keyID : string) (now : time) (s : State) : Out unit :=
  match find_key keyID s with
  | Some (keyHash, l) =>
      if bool_decide (keyHash = "") then mkOut s [] (Ok tt)
      else
        let userID := from_option APIKey.UserID "" (keyHeap s !! l) in
        mkOut {| s with apiKeys := delete keyHash (apiKeys s);
                 apiKeysByUser := drop_key keyID userID s |}
          (queueWrite coreWrites now WriteOpDelete "api_keys" (DMapSS [("id", keyID)]))
          (Ok tt)
  | None => mkOut s [] (Ok tt)
  end.

Definition ListAPIKeys (userID : string) (s : State) : result (list APIKey) :=
  Ok (omap (λ l, keyHeap s !! l) (entry (apiKeysByUser s) userID)).

(** * Calls *)

Inductive call :=
| CCreateUser (u : User) (now : time) (xid : string)
| CUpdateUserByID (u : User) (now : time)
| CDeleteUser (id : string) (now : time)
| CCreateSession (x : Session) (now : time)
| CDeleteSession (token : string) (now : time)
| CDeleteExpiredSessions (now : time)
| CDeleteUserSessions (userID : string) (now : time)
| CCleanupExpiredSessions (cutoff now : time)
| CCreateAPIKey (k : APIKey) (now : time) (xid : string)
| CUpdateAPIKeyUsage (keyID : string) (now : time)
| CDeleteAPIKey (keyID : string) (now : time).

Definition effect {A} (o : Out A) : State * list (Chan * WriteOp) := (st o, queued o).

Definition run `{MapRange} (c : call) (s : State) : State * list (Chan * WriteOp) :=
  match c with
  | CCreateUser u now xid => effect (CreateUser u now xid s)
  | CUpdateUserByID u now => effect (UpdateUserByID u now s)
  | CDeleteUser id now => effect (DeleteUser id now s)
  | CCreateSession x now => effect (CreateSession x now s)
  | CDeleteSession token now => effect (DeleteSession token now s)
  | CDeleteExpiredSessions now => effect (DeleteExpiredSessions now s)
  | CDeleteUserSessions userID now => effect (DeleteUserSessions userID now s)
  | CCleanupExpiredSessions cutoff now => effect (CleanupExpiredSessions cutoff now s)
  | CCreateAPIKey k now xid => effect (CreateAPIKey k now xid s)
  | CUpdateAPIKeyUsage keyID now => effect (UpdateAPIKeyUsage keyID now s)
  | CDeleteAPIKey keyID now => effect (DeleteAPIKey keyID now s)
  end.

(** The identifier a creation will use is not in use: [xid.New] is globally
    unique, and a caller that brings its own identifier must bring a new one. *)
Definition key_id_used (s : State) (id : string) : Prop :=
  ∃ h l k, apiKeys s !! h = Some l ∧ keyHeap s !! l = Some k ∧ k.(APIKey.ID) = id.

Definition fresh_id (c : call) (s : State) : Prop :=
  match c with
  | CCreateUser u _ xid => users s !! or_string u.(User.ID) xid = None
  | CCreateAPIKey k _ xid => ¬ key_id_used s (or_string k.(APIKey.ID) xid)
  | _ => True
  end.

(** Each call may visit the maps in an order of its own. *)
Inductive reachable : State → Prop :=
| reachable_empty : reachable empty
| reachable_call (R : MapRange) c s : reachable s → fresh_id c s → reachable (run c s).1.

(** * Invariant *)

Record wf (s : State) : Prop := {
  wf_users : ∀ id u, users s !! id = Some u →
    u.(User.ID) = id ∧ usersByName s !! u.(User.Username) = Some u;
  wf_names : ∀ n u, usersByName s !! n = Some u →
    u.(User.Username) = n ∧ users s !! u.(User.ID) = Some u;
  wf_sessions : ∀ t x, sessions s !! t = Some x →
    x.(Session.Token) = t ∧ x.(Session.ID) = t ∧ t ≠ "";
  wf_keys : ∀ h l, apiKeys s !! h = Some l →
    ∃ k, keyHeap s !! l = Some k ∧ k.(APIKey.KeyHash) = h ∧ h ≠ "" ∧
         l ∈ entry (apiKeysByUser s) k.(APIKey.UserID);
  wf_owned : ∀ u l, l ∈ entry (apiKeysByUser s) u →
    ∃ k, keyHeap s !! l = Some k ∧ k.(APIKey.UserID) = u ∧
         apiKeys s !! k.(APIKey.KeyHash) = Some l;
  wf_nodup : ∀ u, NoDup (entry (apiKeysByUser s) u);
  wf_key_ids : ∀ h1 h2 l1 l2 k1 k2,
    apiKeys s !! h1 = Some l1 → apiKeys s !! h2 = Some l2 →
    keyHeap s !! l1 = Some k1 → keyHeap s !! l2 = Some k2 →
    k1.(APIKey.ID) = k2.(APIKey.ID) → l1 = l2
}.

Lemma users_wf_empty : wf empty.
Proof.
  split; simpl; intros *; rewrite ?lookup_empty; try done.
  - unfold entry. rewrite lookup_empty. set_solver.
  - unfold entry. rewrite lookup_empty. constructor.
Qed.

(** The invariant has a part on users, one on sessions and one on API keys,
    and a method that leaves the maps of a part alone keeps it. *)
Definition same_users (s s' : State) : Prop :=
  users s' = users s ∧ usersByName s' = usersByName s.
Definition same_keys (s s' : State) : Prop :=
  keyHeap s' = keyHeap s ∧ apiKeys s' = apiKeys s ∧ apiKeysByUser s' = apiKeysByUser s.

(** Sessions only lose entries. *)
Lemma wf_fewer_sessions s s' :
  wf s → same_users s s' → same_keys s s' → sessions s' ⊆ sessions s → wf s'.
Proof.
  intros [] [Hu Hn] (Hh & Hk & Hb) Hs.
  split; rewrite ?Hu, ?Hn, ?Hh, ?Hk, ?Hb; try done.
  intros t x Hx. eapply wf_sessions0, lookup_weaken; [done|]. done.
Qed.

Lemma wf_create_user u now xid s :
  wf s → users s !! or_string u.(User.ID) xid = None → wf (st (CreateUser u now xid s)).
Proof.
  intros Hw Hf. unfold CreateUser. destruct (usersByName s !! _) eqn:En; [done|].
  destruct Hw. split; simpl; try done; intros i v; rewrite lookup_insert_Some.
  - intros [[<- <-]|[Hne Hv]]; simpl; [by rewrite lookup_insert_eq|].
    destruct (wf_users0 _ _ Hv) as [H1 H2]. split; [done|]. rewrite lookup_insert_ne; [done|congruence].
  - intros [[<- <-]|[Hne Hv]]; simpl; [by rewrite lookup_insert_eq|].
    destruct (wf_names0 _ _ Hv) as [H1 H2]. split; [done|]. rewrite lookup_insert_ne; [done|congruence].
Qed.

Lemma wf_update_user u now s : wf s → wf (st (UpdateUserByID u now s)).
Proof.
  intros Hw. unfold UpdateUserByID. destruct (users s !! _) as [e|] eqn:Ee; [|done].
  destruct (wf_users s Hw _ _ Ee) as [Hid Hbn].
  assert (∀ id v, users s !! id = Some v → id ≠ u.(User.ID) → v.(User.Username) ≠ e.(User.Username)) as Hother.
  { intros id v Hv Hne Heq. destruct (wf_users s Hw _ _ Hv) as [<- Hv']. congruence. }
  case_bool_decide as Hr; simpl.
  - case_bool_decide as Hex; [done|]. apply eq_None_not_Some in Hex. destruct Hw.
    split; simpl; try done; intros i v; rewrite lookup_insert_Some.
    + intros [[<- <-]|[Hne Hv]]; simpl; [by rewrite lookup_insert_eq|].
      destruct (wf_users0 _ _ Hv) as [H1 H2]. split; [done|].
      rewrite lookup_insert_ne, lookup_delete_ne; [done| |congruence]. intros ?. by eapply Hother.
    + intros [[<- <-]|[Hne Hv]]; simpl; [by rewrite lookup_insert_eq|].
      apply lookup_delete_Some in Hv as [Hne' Hv].
      destruct (wf_names0 _ _ Hv) as [H1 H2]. split; [done|]. rewrite lookup_insert_ne; [done|].
      intros Heq. rewrite <- Heq in H2. congruence.
  - destruct Hw. split; simpl; try done; intros i v; rewrite lookup_insert_Some.
    + intros [[<- <-]|[Hne Hv]]; simpl; [by rewrite lookup_insert_eq|].
      destruct (wf_users0 _ _ Hv) as [H1 H2]. split; [done|].
      rewrite lookup_insert_ne; [done|]. intros Heq. eapply Hother; [done..|congruence].
    + intros [[<- <-]|[Hne Hv]]; simpl; [by rewrite lookup_insert_eq|].
      destruct (wf_names0 _ _ Hv) as [H1 H2]. split; [done|]. rewrite lookup_insert_ne; [done|].
      intros Heq. rewrite <- Heq in H2. congruence.
Qed.

Lemma key_test_true s p l : key_test s p l = true ↔ ∃ k, keyHeap s !! l = Some k ∧ p k = true.
Proof. unfold key_test. destruct (keyHeap s !! l); naive_solver. Qed.

Lemma wf_delete_user `{MapRange} id now s : wf s → wf (st (DeleteUser id now s)).
Proof.
  intros Hw. unfold DeleteUser. destruct (users s !! id) as [u|] eqn:Eu; [|done].
  destruct (wf_users s Hw _ _ Eu) as [Hid Hbn].
  assert (∀ h l k, range_delete (key_test s (λ k, bool_decide (k.(APIKey.UserID) = id))) (apiKeys s) !! h = Some l →
            keyHeap s !! l = Some k → apiKeys s !! h = Some l ∧ k.(APIKey.UserID) ≠ id) as Hrd.
  { intros h l k Hl Hk. apply range_delete_Some in Hl as [Hl Ht]. split; [done|].
    unfold key_test in Ht. rewrite Hk in Ht. by apply bool_decide_eq_false in Ht. }
  destruct Hw. split; simpl.
  - intros i v Hv. apply lookup_delete_Some in Hv as [Hne Hv].
    destruct (wf_users0 _ _ Hv) as [H1 H2]. split; [done|]. rewrite lookup_delete_ne; [done|].
    intros Heq. rewrite <- Heq in H2. congruence.
  - intros n v Hv. apply lookup_delete_Some in Hv as [Hne Hv].
    destruct (wf_names0 _ _ Hv) as [H1 H2]. split; [done|]. rewrite lookup_delete_ne; [done|].
    intros Heq. rewrite <- Heq in H2. congruence.
  - intros t x Hx. by apply range_delete_Some in Hx as [Hx _]; eauto.
  - intros h l Hl. apply range_delete_Some in Hl as Hl'. destruct Hl' as [Hl' _].
    destruct (wf_keys0 _ _ Hl') as (k & Hk & Hh & Hne & Hin). exists k. split_and!; [done..|].
    destruct (Hrd _ _ _ Hl Hk) as [_ Hu]. by rewrite entry_delete_ne.
  - intros v l Hl. destruct (decide (v = id)) as [->|Hne]; [rewrite entry_delete_eq in Hl; set_solver|].
    rewrite entry_delete_ne in Hl by done. destruct (wf_owned0 _ _ Hl) as (k & Hk & Hu & Hkk).
    exists k. split_and!; [done..|]. apply range_delete_Some. split; [done|].
    unfold key_test. rewrite Hk. apply bool_decide_eq_false. congruence.
  - intros v. destruct (decide (v = id)) as [->|Hne]; [rewrite entry_delete_eq; constructor|].
    by rewrite entry_delete_ne.
  - intros h1 h2 l1 l2 k1 k2 H1 H2 Hk1 Hk2.
    apply range_delete_Some in H1 as [H1 _]. apply range_delete_Some in H2 as [H2 _]. eauto.
Qed.

Lemma wf_create_key k now xid s :
  wf s → ¬ key_id_used s (or_string k.(APIKey.ID) xid) → wf (st (CreateAPIKey k now xid s)).
Proof.
  intros Hw Hf. unfold CreateAPIKey. case_bool_decide as Hh; [done|].
  destruct (apiKeys s !! _) eqn:Ek; [done|]. simpl.
  set (l := fresh (dom (keyHeap s))).
  assert (keyHeap s !! l = None) as Hl by (apply not_elem_of_dom, is_fresh).
  destruct Hw.
  assert (∀ h l', apiKeys s !! h = Some l' → l ≠ l') as Hfresh.
  { intros h l' Hl' ->. destruct (wf_keys0 _ _ Hl') as (? & ? & _). congruence. }
  assert (∀ u l', l' ∈ entry (apiKeysByUser s) u → l ≠ l') as Hfresh'.
  { intros u l' Hl' ->. destruct (wf_owned0 _ _ Hl') as (? & ? & _). congruence. }
  split; simpl; try done.
  - intros h l'. rewrite lookup_insert_Some. intros [[<- <-]|[Hne Hl']].
    + eexists. split; [by rewrite lookup_insert_eq|]. simpl. split_and!; [done..|].
      rewrite entry_insert_eq. set_solver.
    + destruct (wf_keys0 _ _ Hl') as (k' & Hk' & Hkh & Hne' & Hin). exists k'.
      rewrite lookup_insert_ne by eauto. split_and!; [done..|].
      destruct (decide (k'.(APIKey.UserID) = k.(APIKey.UserID))) as [Heq|].
      * rewrite Heq in *. rewrite entry_insert_eq. set_solver.
      * by rewrite entry_insert_ne.
  - intros u l'. destruct (decide (k.(APIKey.UserID) = u)) as [<-|Hne].
    + rewrite entry_insert_eq, elem_of_app, list_elem_of_singleton. intros [Hin| ->].
      * destruct (wf_owned0 _ _ Hin) as (k' & Hk' & Hu & Ha). exists k'.
        rewrite lookup_insert_ne by eauto. split_and!; [done..|].
        rewrite lookup_insert_ne by congruence. done.
      * eexists. rewrite lookup_insert_eq. split_and!; [done..|]. simpl. by rewrite lookup_insert_eq.
    + rewrite entry_insert_ne by done. intros Hin. destruct (wf_owned0 _ _ Hin) as (k' & Hk' & Hu & Ha).
      exists k'. rewrite lookup_insert_ne by eauto. split_and!; [done..|].
      rewrite lookup_insert_ne by congruence. done.
  - intros u. destruct (decide (k.(APIKey.UserID) = u)) as [<-|Hne].
    + rewrite entry_insert_eq, NoDup_app. split_and!; [done| |apply NoDup_singleton].
      intros l' Hin ->%list_elem_of_singleton. by eapply Hfresh'.
    + by rewrite entry_insert_ne.
  - intros h1 h2 l1 l2 k1 k2 Hl1 Hl2.
    apply lookup_insert_Some in Hl1 as [[<- <-]|[Hne1 H1]];
      apply lookup_insert_Some in Hl2 as [[<- <-]|[Hne2 H2]]; try done.
    + rewrite lookup_insert_eq, lookup_insert_ne by eauto. intros [= <-] Hk2 Heq.
      exfalso. apply Hf. exists h2, l2, k2. done.
    + rewrite lookup_insert_eq, lookup_insert_ne by eauto. intros Hk1 [= <-] Heq.
      exfalso. apply Hf. exists h1, l1, k1. done.
    + rewrite !lookup_insert_ne by eauto. eauto.
Qed.

(** The loop finds the key with an ID, if there is one, whatever the order. *)
Lemma find_key_Some `{MapRange} keyID s h l :
  find_key keyID s = Some (h, l) →
  apiKeys s !! h = Some l ∧ ∃ k, keyHeap s !! l = Some k ∧ k.(APIKey.ID) = keyID.
Proof.
  intros Hf. apply range_find_Some in Hf as [Hl Ht]. split; [done|].
  apply key_test_true in Ht as (k & Hk & Hid). exists k. split; [done|].
  by apply bool_decide_eq_true in Hid.
Qed.

Lemma find_key_None `{MapRange} keyID s :
  find_key keyID s = None → ¬ key_id_used s keyID.
Proof.
  unfold find_key. rewrite range_find_None. intros Hn (h & l & k & Hl & Hk & Hid).
  apply Hn in Hl. unfold key_test, has_id in Hl. rewrite Hk, bool_decide_true in Hl; done.
Qed.

Lemma find_key_found `{MapRange} keyID h l k s :
  wf s → apiKeys s !! h = Some l → keyHeap s !! l = Some k → k.(APIKey.ID) = keyID →
  find_key keyID s = Some (h, l).
Proof.
  intros Hw Hl Hk Hid. apply range_find_unique; [done| |].
  - apply key_test_true. exists k. split; [done|]. by apply bool_decide_true.
  - intros h' l' Hl' Ht. apply key_test_true in Ht as (k' & Hk' & Hid').
    apply bool_decide_eq_true in Hid'.
    assert (l' = l) as -> by (eapply (wf_key_ids s Hw); eauto; congruence).
    destruct (wf_keys s Hw _ _ Hl') as (k1 & H1 & E1 & _).
    destruct (wf_keys s Hw _ _ Hl) as (k2 & H2 & E2 & _). congruence.
Qed.

Lemma wf_update_usage `{MapRange} keyID now s : wf s → wf (st (UpdateAPIKeyUsage keyID now s)).
Proof.
  intros Hw. unfold UpdateAPIKeyUsage. destruct (find_key keyID s) as [[h l]|]; [|done]. simpl.
  set (f := λ k : APIKey, {| k with APIKey.LastUsedAt := Some now |}).
  assert (∀ l' k, keyHeap s !! l' = Some k →
            ∃ k', alter f l (keyHeap s) !! l' = Some k' ∧ k'.(APIKey.ID) = k.(APIKey.ID) ∧
              k'.(APIKey.KeyHash) = k.(APIKey.KeyHash) ∧ k'.(APIKey.UserID) = k.(APIKey.UserID)) as Ha.
  { intros l' k Hk. destruct (decide (l = l')) as [<-|].
    - exists (f k). by rewrite lookup_alter_eq, Hk.
    - exists k. by rewrite lookup_alter_ne. }
  destruct Hw. split; simpl; try done.
  - intros h' l' Hl'. destruct (wf_keys0 _ _ Hl') as (k & Hk & Hkh & Hne & Hin).
    destruct (Ha _ _ Hk) as (k' & -> & H1 & H2 & H3). exists k'. rewrite H2, H3. done.
  - intros u l' Hl'. destruct (wf_owned0 _ _ Hl') as (k & Hk & Hu & Hkk).
    destruct (Ha _ _ Hk) as (k' & -> & H1 & H2 & H3). exists k'. rewrite H2, H3. done.
  - intros h1 h2 l1 l2 k1 k2 H1 H2.
    destruct (wf_keys0 _ _ H1) as (k1' & Hk1 & _). destruct (wf_keys0 _ _ H2) as (k2' & Hk2 & _).
    destruct (Ha _ _ Hk1) as (? & -> & E1 & _). destruct (Ha _ _ Hk2) as (? & -> & E2 & _).
    intros [= <-] [= <-] Heq. eapply (wf_key_ids0 h1 h2); [done..|congruence].
Qed.

(** Removing the key from its owner's list removes exactly that key. *)
Lemma drop_key_entry keyID s h l k u :
  wf s → apiKeys s !! h = Some l → keyHeap s !! l = Some k → k.(APIKey.ID) = keyID →
  entry (drop_key keyID k.(APIKey.UserID) s) u =
  filter (λ l', l' ≠ l) (entry (apiKeysByUser s) u).
Proof.
  intros Hw Hl Hk Hid.
  destruct (wf_keys s Hw _ _ Hl) as (k' & Hk' & _ & _ & Hin). assert (k' = k) as -> by congruence.
  assert (key_test s (has_id keyID) l = true) as Ht.
  { apply key_test_true. exists k. split; [done|]. by apply bool_decide_true. }
  assert (∀ l', l' ∈ entry (apiKeysByUser s) u → u ≠ k.(APIKey.UserID) → l' ≠ l) as Hoth.
  { intros l' Hl' Hne ->. destruct (wf_owned s Hw _ _ Hl') as (? & ? & ? & _). congruence. }
  unfold drop_key. destruct (list_find _ _) as [[i l']|] eqn:Ef.
  - apply list_find_Some in Ef as (Hi & Ht' & _).
    apply key_test_true in Ht' as (k' & Hkk & Hid'). apply bool_decide_eq_true in Hid'.
    pose proof (list_elem_of_lookup_2 _ _ _ Hi) as Hin'.
    destruct (wf_owned s Hw _ _ Hin') as (k'' & Hk'' & _ & Hh). assert (k'' = k') as -> by congruence.
    assert (l' = l) as -> by (eapply (wf_key_ids s Hw); eauto; congruence).
    destruct (decide (u = k.(APIKey.UserID))) as [->|Hne].
    + rewrite entry_insert_eq. apply delete_NoDup_filter; [apply (wf_nodup s Hw)|done].
    + rewrite entry_insert_ne by done. rewrite filter_all; [done|]. eauto.
  - exfalso. apply list_find_None in Ef. rewrite Forall_forall in Ef. by eapply Ef.
Qed.

(** Taking one key out of both indexes. *)
Lemma wf_remove_key s s' h l k :
  wf s → apiKeys s !! h = Some l → keyHeap s !! l = Some k →
  same_users s s' → sessions s' = sessions s → keyHeap s' = keyHeap s →
  apiKeys s' = delete h (apiKeys s) →
  (∀ u, entry (apiKeysByUser s') u = filter (λ l', l' ≠ l) (entry (apiKeysByUser s) u)) → wf s'.
Proof.
  intros Hw Hl Hk [Hu Hn] Hs Hh Hkeys Hdrop.
  destruct (wf_keys s Hw _ _ Hl) as (k' & Hk' & Hhash & Hne & Hin). assert (k' = k) as -> by congruence.
  destruct Hw. split; rewrite ?Hu, ?Hn, ?Hs, ?Hh, ?Hkeys; try done.
  - intros h' l' Hl'. apply lookup_delete_Some in Hl' as [Hne' Hl'].
    destruct (wf_keys0 _ _ Hl') as (k' & Hkk & Hh' & Hne'' & Hin').
    exists k'. split_and!; [done..|]. rewrite Hdrop, list_elem_of_filter. split; [|done].
    intros ->. congruence.
  - intros u l'. rewrite Hdrop, list_elem_of_filter. intros [Hne' Hin'].
    destruct (wf_owned0 _ _ Hin') as (k' & Hkk & Hu' & Hh'). exists k'. split_and!; [done..|].
    rewrite lookup_delete_ne; [done|]. intros Heq. rewrite <- Heq in Hh'. congruence.
  - intros u. rewrite Hdrop. by apply NoDup_filter.
  - intros h1 h2 l1 l2 k1 k2 H1 H2. apply lookup_delete_Some in H1 as [_ H1].
    apply lookup_delete_Some in H2 as [_ H2]. eauto.
Qed.

Lemma wf_delete_key `{MapRange} keyID now s : wf s → wf (st (DeleteAPIKey keyID now s)).
Proof.
  intros Hw. unfold DeleteAPIKey. destruct (find_key keyID s) as [[h l]|] eqn:Ef; [|done].
  apply find_key_Some in Ef as (Hl & k & Hk & Hid).
  destruct (wf_keys s Hw _ _ Hl) as (k' & Hk' & Hh & Hne & Hin).
  rewrite bool_decide_false by done. rewrite Hk. simpl.
  eapply (wf_remove_key s _ h l k); try done.
  intros u. by eapply drop_key_entry.
Qed.

Lemma users_run_wf `{MapRange} c s : wf s → fresh_id c s → wf (run c s).1.
Proof.
  intros Hw Hf. destruct c as [u now xid|u now|id now|x now|token now|now|userID now|cutoff now
    |k now xid|keyID now|keyID now]; simpl in *.
  - by apply wf_create_user.
  - by apply wf_update_user.
  - by apply wf_delete_user.
  - unfold CreateSession. case_bool_decide; [done|]. destruct Hw. split; simpl; try done.
    intros t y. rewrite lookup_insert_Some. intros [[<- <-]|[_ ?]]; simpl; eauto.
  - eapply wf_fewer_sessions; [done..|]. apply delete_subseteq.
  - eapply wf_fewer_sessions; [done..|]. apply range_delete_subseteq.
  - eapply wf_fewer_sessions; [done..|]. apply range_delete_subseteq.
  - eapply wf_fewer_sessions; [done..|]. apply range_delete_subseteq.
  - by apply wf_create_key.
  - by apply wf_update_usage.
  - by apply wf_delete_key.
Qed.

Lemma users_reachable_wf s : reachable s → wf s.
Proof. induction 1; [apply users_wf_empty|by apply users_run_wf]. Qed.

(** * Properties *)

(** Along every sequence of calls whose creations use new identifiers, the
    indexes stay consistent: a user is found under its ID and under its name and
    nowhere else, so names are unique; an API key is found under its hash and in
    the list of its owner, once, and key IDs are unique; a session is filed under
    its token. *)
Theorem users_invariant s : reachable s → wf s.
Proof. apply users_reachable_wf. Qed.

Definition alice : User := User.mk "u1" "alice" "h" "a@x" "admin" "" false false 0 0.
Definition alice_key (hash : string) : APIKey := APIKey.mk "k1" "u1" "ci" hash "vc_" "[]" None None 0.

(** A store with one user, one key and one session. *)
Definition demo : State :=
  let R := range_in_key_order in
  (run (CCreateSession (Session.mk "" "u1" "t1" "ip" "ua" 0 100 0) 5)
     (run (CCreateAPIKey (alice_key "hash") 5 "x") (run (CCreateUser alice 5 "x") empty).1).1).1.

Lemma users_demo_reachable : reachable demo.
Proof.
  unfold demo. apply (reachable_call range_in_key_order); [|done].
  apply (reachable_call range_in_key_order);
    [|intros (h & l & k & Hl & _); change (apiKeys _) with (∅ : gmap string loc) in Hl;
      by rewrite lookup_empty in Hl].
  by apply (reachable_call range_in_key_order); [constructor|vm_compute].
Qed.

Lemma users_invariant_witness : wf demo.
Proof. apply (users_invariant demo). apply users_demo_reachable. Defined.

(** Renaming a user to a name another user has is refused and changes
    nothing; otherwise the update succeeds, the new name and the ID lead to the
    updated user, the old name (if it changed) leads nowhere, and every other
    name leads where it led. *)
Theorem rename_user u old now s :
  wf s → users s !! u.(User.ID) = Some old →
  let o := UpdateUserByID u now s in
  if bool_decide (old.(User.Username) ≠ u.(User.Username) ∧ is_Some (usersByName s !! u.(User.Username)))
  then ret o = Err ErrDuplicate ∧ st o = s
  else ∃ stored, ret o = Ok stored ∧ stored = {| u with User.UpdatedAt := now |} ∧
    GetUserByID u.(User.ID) (st o) = Ok stored ∧
    GetUserByUsername u.(User.Username) (st o) = Ok stored ∧
    (old.(User.Username) ≠ u.(User.Username) →
     GetUserByUsername old.(User.Username) (st o) = Err ErrNotFound) ∧
    ∀ n, n ≠ u.(User.Username) → n ≠ old.(User.Username) →
         GetUserByUsername n (st o) = GetUserByUsername n s.
Proof.
  intros Hw Hu. unfold UpdateUserByID, GetUserByID, GetUserByUsername. rewrite Hu. simpl.
  rewrite bool_decide_and. case_bool_decide as Hr; simpl;
    [destruct (bool_decide (is_Some _)) eqn:Ex; simpl; [done|]|].
  - eexists. split; [done|]. split; [done|]. rewrite !lookup_insert_eq. split_and!; try done.
    + intros _. by rewrite lookup_insert_ne, lookup_delete_eq.
    + intros n Hn Hn'. by rewrite lookup_insert_ne, lookup_delete_ne.
  - eexists. split; [done|]. split; [done|]. rewrite !lookup_insert_eq. split_and!; try done.
    intros n Hn Hn'. by rewrite lookup_insert_ne.
Qed.

Lemma rename_user_witness :
  let bob := {| alice with User.Username := "bob" |} in
  GetUserByUsername "bob" (st (UpdateUserByID bob 9 demo)) = Ok {| bob with User.UpdatedAt := 9 |}.
Proof.
  pose (old := {| alice with User.CreatedAt := 5; User.UpdatedAt := 5 |}).
  destruct (rename_user {| alice with User.Username := "bob" |} old 9 demo
              (users_reachable_wf demo users_demo_reachable) ltac:(vm_compute; reflexivity))
    as (stored & _ & -> & _ & H & _).
  exact H.
Defined.

(** Deleting a user also deletes everything that could still act for them:
    neither their ID nor their name resolves, no session of theirs is listed or
    accepted, they have no API key and no key hash leads to a key of theirs;
    other users' keys and sessions are untouched. *)
Theorem delete_user_cascade `{MapRange} id u now now' s :
  wf s → users s !! id = Some u →
  let s' := st (DeleteUser id now s) in
  GetUserByID id s' = Err ErrNotFound ∧
  GetUserByUsername u.(User.Username) s' = Err ErrNotFound ∧
  ListUserSessions id s' = Ok [] ∧
  ListAPIKeys id s' = Ok [] ∧
  (∀ token, GetSessionByToken token now' s' =
     match GetSessionByToken token now' s with
     | Ok x => if bool_decide (x.(Session.UserID) = id) then Err ErrNotFound else Ok x
     | r => r
     end) ∧
  (∀ hash, GetAPIKeyByHash hash now' s' =
     match GetAPIKeyByHash hash now' s with
     | Ok k => if bool_decide (k.(APIKey.UserID) = id) then Err ErrNotFound else Ok k
     | r => r
     end).
Proof.
  intros Hw Hu. unfold DeleteUser. rewrite Hu. simpl.
  unfold GetUserByID, GetUserByUsername, ListUserSessions, ListAPIKeys, GetSessionByToken,
    GetAPIKeyByHash, read_key, unless_expired; simpl.
  rewrite !lookup_delete_eq, entry_delete_eq. split_and!; try done.
  - f_equal. apply elem_of_nil_inv. intros x. rewrite list_elem_of_filter, elem_of_range_values.
    intros [Hx [k Hk]]. apply range_delete_Some in Hk as [_ Hk].
    apply bool_decide_eq_false in Hk. done.
  - intros token. rewrite range_delete_lookup.
    destruct (sessions s !! token) as [x|]; [|done].
    destruct (bool_decide (Session.UserID x = id)) eqn:E; destruct (After now' _); try done; by rewrite E.
  - intros hash. rewrite range_delete_lookup. destruct (apiKeys s !! hash) as [l|] eqn:El; [|done].
    destruct (wf_keys s Hw _ _ El) as (k & Hk & _). unfold key_test. rewrite Hk.
    destruct (bool_decide (APIKey.UserID k = id)) eqn:E; rewrite ?Hk;
      destruct (APIKey.ExpiresAt k) as [e|]; try destruct (After now' e); try done; by rewrite E.
Qed.

Lemma delete_user_cascade_witness :
  let R := range_in_key_order in
  GetUserByUsername "alice" (st (DeleteUser "u1" 6 demo)) = Err ErrNotFound ∧
  GetAPIKeyByHash "hash" 7 (st (DeleteUser "u1" 6 demo)) = Err ErrNotFound.
Proof.
  destruct (@delete_user_cascade range_in_key_order "u1" {| alice with User.CreatedAt := 5; User.UpdatedAt := 5 |}
              6 7 demo (users_reachable_wf demo users_demo_reachable) ltac:(vm_compute; reflexivity))
    as (_ & H & _ & _ & _ & Hk).
  split; [exact H|]. specialize (Hk "hash"). exact Hk.
Defined.

(** Recording the use of an API key is visible wherever the key is: looked
    up by hash or in its owner's list it has the new time, every other key is
    unchanged, and in whatever order the map is visited the same key is found. *)
Theorem key_usage_visible `{MapRange} keyID h l k now s :
  wf s → apiKeys s !! h = Some l → keyHeap s !! l = Some k → k.(APIKey.ID) = keyID →
  let s' := st (UpdateAPIKeyUsage keyID now s) in
  let k' := {| k with APIKey.LastUsedAt := Some now |} in
  ret (UpdateAPIKeyUsage keyID now s) = Ok tt ∧
  (∀ t, GetAPIKeyByHash h t s' = unless_expired t k') ∧
  (∀ t, GetAPIKeyByID keyID t s' = unless_expired t k') ∧
  (∀ h' t, h' ≠ h → GetAPIKeyByHash h' t s' = GetAPIKeyByHash h' t s) ∧
  ListAPIKeys k.(APIKey.UserID) s' =
    Ok (omap (λ l', if decide (l' = l) then Some k' else keyHeap s !! l')
             (entry (apiKeysByUser s) k.(APIKey.UserID))).
Proof.
  intros Hw Hl Hk Hid.
  assert (find_key keyID s = Some (h, l)) as Hf by by eapply find_key_found.
  pose proof (wf_update_usage keyID now s Hw) as Hw'. revert Hw'.
  unfold UpdateAPIKeyUsage. rewrite Hf. simpl. intros Hw'.
  set (s' := {| s with keyHeap := _ |}) in *.
  assert (keyHeap s' !! l = Some {| k with APIKey.LastUsedAt := Some now |}) as Hk'.
  { simpl. by rewrite lookup_alter_eq, Hk. }
  split; [done|]. unfold GetAPIKeyByHash, GetAPIKeyByID, read_key. split_and!.
  - intros t. change (apiKeys s') with (apiKeys s). by rewrite Hl, Hk'.
  - intros t. rewrite (find_key_found keyID h l _ s' Hw' Hl Hk') by done. by rewrite Hk'.
  - intros h' t Hne. simpl. destruct (apiKeys s !! h') as [l'|] eqn:El'; [|done].
    rewrite lookup_alter_ne; [done|]. intros <-.
    destruct (wf_keys s Hw _ _ El') as (k1 & H1 & E1 & _).
    destruct (wf_keys s Hw _ _ Hl) as (k2 & H2 & E2 & _). congruence.
  - unfold ListAPIKeys. simpl. f_equal. apply list_omap_ext. apply Forall_Forall2_diag, Forall_true.
    intros l'. destruct (decide (l' = l)) as [->|]; [by rewrite lookup_alter_eq, Hk|].
    by rewrite lookup_alter_ne.
Qed.

Lemma key_usage_visible_witness :
  let R := range_reversed in
  GetAPIKeyByHash "hash" 9 (st (UpdateAPIKeyUsage "k1" 8 demo)) =
  Ok (APIKey.mk "k1" "u1" "ci" "hash" "vc_" "[]" None (Some 8) 5).
Proof.
  pose (k := APIKey.mk "k1" "u1" "ci" "hash" "vc_" "[]" None None 5).
  destruct (@key_usage_visible range_reversed "k1" "hash" 0%nat k 8 demo
              (users_reachable_wf demo users_demo_reachable) ltac:(vm_compute; reflexivity)
              ltac:(vm_compute; reflexivity) eq_refl) as (_ & H & _).
  exact (H 9).
Defined.

(** Deleting the expired sessions cannot be observed through the session
    lookup, then or at any later time, and it removes and counts exactly the
    sessions that the lookup would refuse. *)
Theorem expired_sessions_cleanup `{MapRange} now s :
  let o := DeleteExpiredSessions now s in
  (∀ token later, now ≤ later →
     GetSessionByToken token later (st o) = GetSessionByToken token later s) ∧
  sessions (st o) = filter (λ kv, ¬ kv.2.(Session.ExpiresAt) < now) (sessions s) ∧
  ret o = Ok (map_len (filter (λ kv, kv.2.(Session.ExpiresAt) < now) (sessions s))).
Proof.
  unfold DeleteExpiredSessions, GetSessionByToken, expired, After; simpl. split_and!.
  - intros token later Hl. rewrite range_delete_lookup.
    destruct (sessions s !! token) as [x|]; [|done].
    destruct (Z.ltb_spec (Session.ExpiresAt x) now); [|done].
    by destruct (Z.ltb_spec (Session.ExpiresAt x) later); [|lia].
  - rewrite range_delete_filter. apply map_filter_ext. intros k x _. simpl.
    destruct (Z.ltb_spec (Session.ExpiresAt x) now); split; intros; try done; lia.
  - f_equal. rewrite count_range_values. unfold map_len. do 2 f_equal.
    apply map_filter_ext. intros k x _. simpl. lia.
Qed.

(** A logout never reaches the database, and takes other writes with it: the
    write [DeleteSession] queues has a payload its executor refuses, so a batch
    that contains one is rolled back as a whole, whatever else it holds; the same
    goes for the writes of [DeleteUserSessions], of [DeleteExpiredSessions] and
    of [CleanupExpiredSessions]. *)
Theorem logout_discards_batch `{Database} `{MapRange} c s ch op e d batch :
  match c with
  | CDeleteSession _ _ | CDeleteUserSessions _ _
  | CDeleteExpiredSessions _ | CCleanupExpiredSessions _ _ => True
  | _ => False
  end →
  (ch, op) ∈ (run c s).2 → op ∈ batch →
  ch = coreWrites ∧ ∃ n err, FlushBatchFunc e d batch = (d, n, Err err).
Proof.
  intros Hc Hq Hin.
  assert (ch = coreWrites ∧ executeWriteOp op = Err (Errorf "invalid data type for session delete"))
    as [-> Href].
  { destruct c; try done; simpl in Hq; try case_match;
      try (apply list_elem_of_singleton in Hq; by injection Hq as -> ->);
      [by apply not_elem_of_nil in Hq|].
    apply list_elem_of_bind in Hq as (x & Hx & _).
    apply list_elem_of_singleton in Hx. by injection Hx as -> ->. }
  split; [done|]. eapply flush_refused; [done|]. intros h tx. unfold run_op. by rewrite Href.
Qed.

Lemma logout_discards_batch_witness :
  let R := range_in_key_order in
  let out := (run (CDeleteSession "t1" 9) demo).2 in
  coreWrites = coreWrites ∧ ∃ n err,
    FlushBatchFunc ideal_env (empty_db coreWrites)
      (NewWriteOp 8 WriteOpInsert "users" (DPtr TUser "u2") :: out.*2)
    = (empty_db coreWrites, n, Err err).
Proof.
  apply (@logout_discards_batch recording_database range_in_key_order (CDeleteSession "t1" 9) demo coreWrites
           (NewWriteOp 9 WriteOpDelete "sessions" (DMapSS [("token", "t1")])));
    [exact I|left|right; left].
Defined.

(** Every other write of these methods can be carried out, except that the
    last-use time of an API key is never stored: its update is accepted and
    executes no statement. *)
Theorem user_writes_accepted `{MapRange} c s ch op :
  (ch, op) ∈ (run c s).2 → op.(WriteOp.Table) ≠ "sessions" ∨ op.(WriteOp.Type_) = WriteOpInsert →
  ch = coreWrites ∧ accepted op = true ∧
  (executeWriteOp op = Ok Nothing ↔
   op.(WriteOp.Table) = "api_keys" ∧ op.(WriteOp.Type_) = WriteOpUpdate).
Proof.
  intros Hq Hk.
  assert ((ch = coreWrites ∧ ∃ now kind, (op = NewWriteOp now kind.1.1 kind.1.2 kind.2) ∧
            ((kind.1 = (WriteOpInsert, "users") ∧ ∃ k, kind.2 = DPtr TUser k) ∨
             (kind.1 = (WriteOpUpdate, "users") ∧ ∃ k, kind.2 = DPtr TUser k) ∨
             (kind.1 = (WriteOpDelete, "users") ∧ ∃ k, kind.2 = DMapSS [("id", k)]) ∨
             (kind.1 = (WriteOpInsert, "sessions") ∧ ∃ k, kind.2 = DPtr TSession k) ∨
             (kind.1 = (WriteOpInsert, "api_keys") ∧ ∃ k, kind.2 = DPtr TAPIKey k) ∨
             (kind.1 = (WriteOpUpdate, "api_keys") ∧
              ∃ k t, kind.2 = DMapSA [("id", VString k); ("last_used_at", VTime t)]) ∨
             (kind.1 = (WriteOpDelete, "api_keys") ∧ ∃ k, kind.2 = DMapSS [("id", k)])))) as [-> Hop].
  { destruct c; simpl in Hq;
      unfold CreateUser, UpdateUserByID, DeleteUser, CreateSession, CreateAPIKey, UpdateAPIKeyUsage,
        DeleteAPIKey in Hq; simpl in Hq.
    all: repeat (case_match; simpl in Hq).
    all: try (by apply not_elem_of_nil in Hq).
    all: try (apply list_elem_of_singleton in Hq; injection Hq as -> ->).
    all: try (simpl in Hk; by destruct Hk).
    all: try (split; [done|]; eexists _, ((_, _), _); split; [done|]; simpl; naive_solver).
    apply list_elem_of_bind in Hq as (x & Hx & _).
    apply list_elem_of_singleton in Hx. injection Hx as -> ->. simpl in Hk. by destruct Hk. }
  split; [done|]. destruct Hop as (now & [[typ tbl] data] & -> & Hcases). simpl in *.
  destruct Hcases as [[[= -> ->] [k ->]]|[[[= -> ->] [k ->]]|[[[= -> ->] [k ->]]|[[[= -> ->] [k ->]]
    |[[[= -> ->] [k ->]]|[[[= -> ->] (k & t & ->)]|[[= -> ->] [k ->]]]]]]]];
    (split; [vm_compute; reflexivity|]); vm_compute; naive_solver.
Qed.

Lemma user_writes_accepted_witness :
  let op := NewWriteOp 9 WriteOpUpdate "api_keys"
              (DMapSA [("id", VString "k1"); ("last_used_at", VTime 9)]) in
  accepted op = true ∧ executeWriteOp op = Ok Nothing.
Proof.
  destruct (@user_writes_accepted range_in_key_order (CUpdateAPIKeyUsage "k1" 9) demo coreWrites
              (NewWriteOp 9 WriteOpUpdate "api_keys"
                 (DMapSA [("id", VString "k1"); ("last_used_at", VTime 9)]))
              ltac:(vm_compute; left) ltac:(left; done)) as (_ & Ha & Hn).
  split; [exact Ha|]. apply Hn. split; reflexivity.
Defined.

(** The condition on identifiers is needed: [CreateUser] checks the name only.
    Creating a second user under an identifier in use replaces the first by ID
    but not by name, and deleting it then leaves the first reachable by name. *)
Lemma create_user_reused_id :
  let bob := {| alice with User.Username := "bob" |} in
  let s1 := st (CreateUser alice 1 "x" empty) in
  let s2 := st (CreateUser bob 2 "x" s1) in
  let s3 := st (@DeleteUser range_in_key_order "u1" 3 s2) in
  User.Username <$> users s2 !! "u1" = Some "bob" ∧
  GetUserByID "u1" s3 = Err ErrNotFound ∧
  ∃ u, GetUserByUsername "alice" s3 = Ok u.
Proof. vm_compute. eauto. Qed.

End Users.
