(* ===== verification/MemProjects.v ===== *)
(** Projects, project types, webhooks and secrets in the memory store
    ([src/internal/storage/memory_projects.go]).

    A project is one object reached from two maps, by ID and by name, and
    [UpdateProjectHealthCheck] writes through the pointer it finds by ID: the
    maps hold locations of a heap of projects.  Webhooks and secrets are reached
    from one map each and are values.  Deleting a project reaches into the
    deployment maps, so the state includes that of [MemDeployments]. *)

From S2P Require Import StoreBase MemDeployments.

#[local] Open Scope string_scope.
#[local] Open Scope list_scope.
#[local] Open Scope Z_scope.

Module Projects.

Abbreviation loc := nat.

Record State := mkState {
  projHeap : gmap loc Project;
  projects : gmap string loc;
  projectsByName : gmap string loc;
  projectTypes : gmap string ProjectType;
  webhooks : gmap string ProjectWebhook;
  secrets : gmap string Secret;
  dep : Deployments.State
}.

Definition empty : State := mkState ∅ ∅ ∅ ∅ ∅ ∅ Deployments.empty.

Abbreviation Out := (Outcome State).

(** [secretKey] of [memory.go]. *)
Definition secretKey (project scope key : string) : string :=
  project +:+ ":" +:+ scope +:+ ":" +:+ key.

(** * Projects *)

(** [&stored] put into both maps. *)
Definition store_project (p : Project) (s : State) : State :=
  let l := fresh (dom (projHeap s)) in
  {| s with projHeap := <[l := p]> (projHeap s);
     projects := <[p.(Project.ID) := l]> (projects s);
     projectsByName := <[p.(Project.Name) := l]> (projectsByName s) |}.

Definition CreateProject (project : Project) (now : time) (xid : string) (s : State) : Out Project :=
  match projectsByName s !! project.(Project.Name) with
  | Some _ => fail s ErrDuplicate
  | None =>
      let stored := {| project with Project.ID := or_string project.(Project.ID) xid;
                       Project.CreatedAt := now; Project.UpdatedAt := now |} in
      mkOut (store_project stored s)
        (queueWrite projectsWrites now WriteOpInsert "projects" (DPtr TProject stored.(Project.ID)))
        (Ok stored)
  end.

(** Follow a pointer found in one of the maps. *)
Definition deref (s : State) (l : option loc) : result Project :=
  match l with
  | None => Err ErrNotFound
  | Some l => match projHeap s !! l with Some p => Ok p | None => Panic end
  end.

Definition GetProjectByID (id : string) (s : State) : result Project := deref s (projects s !! id).
Definition GetProjectByName (name : string) (s : State) : result Project :=
  deref s (projectsByName s !! name).

Definition all_projects `{MapRange} (s : State) : list Project :=
  omap (λ l, projHeap s !! l) (range_values (projects s)).

Definition ListProjects `{MapRange} (s : State) : result (list Project) := Ok (all_projects s).
Definition ListProjectsPaginated `{MapRange} (limit offset : Z) (s : State) : result (list Project) :=
  paginate (all_projects s) limit offset.
Definition CountProjects (s : State) : result Z := Ok (map_len (projects s)).

(** A renamed project leaves its old name; whether the new one is taken is not
    checked. *)
Definition UpdateProjectByID (p : Project) (now : time) (s : State) : Out Project :=
  match deref s (projects s !! p.(Project.ID)) with
  | Ok existing =>
      let stored := {| p with Project.CreatedAt := existing.(Project.CreatedAt);
                       Project.UpdatedAt := now |} in
      let s1 := if bool_decide (existing.(Project.Name) ≠ p.(Project.Name))
                then {| s with projectsByName := delete existing.(Project.Name) (projectsByName s) |}
                else s in
      mkOut (store_project stored s1)
        (queueWrite projectsWrites now WriteOpUpdate "projects" (DPtr TProject p.(Project.ID)))
        (Ok stored)
  | Err e => fail s e
  | Panic => mkOut s [] Panic
  end.

Definition UpdateProjectByName (p : Project) (now : time) (s : State) : Out Project :=
  match deref s (projectsByName s !! p.(Project.Name)) with
  | Ok existing =>
      let stored := {| p with Project.ID := existing.(Project.ID);
                       Project.CreatedAt := existing.(Project.CreatedAt);
                       Project.UpdatedAt := now |} in
      mkOut (store_project stored s)
        (queueWrite projectsWrites now WriteOpUpdate "projects" (DPtr TProject stored.(Project.ID)))
        (Ok stored)
  | Err e => fail s e
  | Panic => mkOut s [] Panic
  end.

(** Writes through the pointer, so both maps see it. *)
Definition UpdateProjectHealthCheck (projectID : string) (healthCheckID : option string)
    (autoRollback rollbackOnHealthFail : bool) (now : time) (s : State) : Out unit :=
  match projects s !! projectID with
  | None => fail s ErrNotFound
  | Some l =>
      mkOut {| s with projHeap := alter (λ p, {| p with Project.HealthCheckID := healthCheckID;
                                                Project.AutoRollbackEnabled := autoRollback;
                                                Project.RollbackOnHealthFail := rollbackOnHealthFail;
                                                Project.UpdatedAt := now |}) l (projHeap s) |}
        (queueWrite projectsWrites now WriteOpUpdate "projects"
           (DMapSA [("id", VString projectID); ("health_check_id", VStringPtr healthCheckID);
                    ("auto_rollback_enabled", VBool autoRollback);
                    ("rollback_on_health_fail", VBool rollbackOnHealthFail)]))
        (Ok tt)
  end.

(** ** Deletion and its cascade *)

Definition of_project (id name : string) (d : DeploymentRecord) : bool :=
  bool_decide (d.(DeploymentRecord.Project) = name)
  || match d.(DeploymentRecord.ProjectID) with Some p => bool_decide (p = id) | None => false end.

(** The loop over the deployments deletes a deployment and its logs together. *)
Definition cascade_deployments `{MapRange} (id name : string) (d : Deployments.State) : Deployments.State :=
  {| d with
     Deployments.deployments := range_delete (of_project id name) (Deployments.deployments d);
     Deployments.deploymentLogs :=
       foldl (λ logs kv, if of_project id name kv.2 then delete kv.1 logs else logs)
             (Deployments.deploymentLogs d) (range (Deployments.deployments d));
     Deployments.scheduledDeploys :=
       range_delete (λ sd, bool_decide (sd.(ScheduledDeployment.Project) = name))
                    (Deployments.scheduledDeploys d) |}.

Definition cascade `{MapRange} (id name : string) (s : State) : State :=
  {| s with
     webhooks := range_delete (λ w, bool_decide (w.(ProjectWebhook.ProjectID) = id)) (webhooks s);
     secrets := range_delete (λ x, bool_decide (x.(Secret.Project) = name)) (secrets s);
     dep := cascade_deployments id name (dep s) |}.

Definition DeleteProjectByID `{MapRange} (id : string) (now : time) (s : State) : Out unit :=
  match deref s (projects s !! id) with
  | Ok project =>
      let s1 := {| s with projects := delete id (projects s);
                   projectsByName := delete project.(Project.Name) (projectsByName s) |} in
      mkOut (cascade id project.(Project.Name) s1)
        (queueWrite projectsWrites now WriteOpDelete "projects" (DString id))
        (Ok tt)
  | Err _ => mkOut s [] (Ok tt)
  | Panic => mkOut s [] Panic
  end.

Definition DeleteProject `{MapRange} (name : string) (now : time) (s : State) : Out unit :=
  match deref s (projectsByName s !! name) with
  | Ok project =>
      let s1 := {| s with projects := delete project.(Project.ID) (projects s);
                   projectsByName := delete name (projectsByName s) |} in
      mkOut (cascade project.(Project.ID) name s1)
        (queueWrite projectsWrites now WriteOpDelete "projects" (DMapSS [("name", name)]))
        (Ok tt)
  | Err _ => mkOut s [] (Ok tt)
  | Panic => mkOut s [] Panic
  end.

(** * Project types *)

Definition type_named (name : string) (pt : ProjectType) : bool := bool_decide (pt.(ProjectType.Name) = name).

Definition CreateProjectType `{MapRange} (pt : ProjectType) (now : time) (xid : string) (s : State)
    : Out ProjectType :=
  match range_find (type_named pt.(ProjectType.Name)) (projectTypes s) with
  | Some _ => fail s ErrDuplicate
  | None =>
      let stored := {| pt with ProjectType.ID := or_string pt.(ProjectType.ID) xid;
                       ProjectType.CreatedAt := now |} in
      mkOut {| s with projectTypes := <[stored.(ProjectType.ID) := stored]> (projectTypes s) |}
        (queueWrite projectsWrites now WriteOpInsert "project_types"
           (DPtr TProjectType stored.(ProjectType.ID)))
        (Ok stored)
  end.

Definition ListProjectTypes `{MapRange} (s : State) : result (list ProjectType) :=
  Ok (range_values (projectTypes s)).

Definition GetProjectTypeByName `{MapRange} (name : string) (s : State) : result ProjectType :=
  match range_find (type_named name) (projectTypes s) with
  | Some (_, pt) => Ok pt
  | None => Err ErrNotFound
  end.

Definition UpdateProjectTypeByName `{MapRange} (pt : ProjectType) (now : time) (s : State)
    : Out ProjectType :=
  match range_find (type_named pt.(ProjectType.Name)) (projectTypes s) with
  | Some (id, existing) =>
      let stored := {| pt with ProjectType.ID := id;
                       ProjectType.CreatedAt := existing.(ProjectType.CreatedAt) |} in
      mkOut {| s with projectTypes := <[id := stored]> (projectTypes s) |}
        (queueWrite projectsWrites now WriteOpUpdate "project_types" (DPtr TProjectType id))
        (Ok stored)
  | None => fail s ErrNotFound
  end.

Definition DeleteProjectType `{MapRange} (name : string) (now : time) (s : State) : Out unit :=
  match range_find (type_named name) (projectTypes s) with
  | Some (id, _) =>
      mkOut {| s with projectTypes := delete id (projectTypes s) |}
        (queueWrite projectsWrites now WriteOpDelete "project_types" (DMapSS [("name", name)]))
        (Ok tt)
  | None => mkOut s [] (Ok tt)
  end.

(** * Webhooks *)

Definition webhook_of (projectID provider : string) (w : ProjectWebhook) : bool :=
  bool_decide (w.(ProjectWebhook.ProjectID) = projectID)
  && bool_decide (w.(ProjectWebhook.Provider) = provider).

Definition GetProjectWebhook `{MapRange} (projectID provider : string) (s : State)
    : result ProjectWebhook :=
  match range_find (webhook_of projectID provider) (webhooks s) with
  | Some (_, w) => Ok w
  | None => Err ErrNotFound
  end.

Definition SetProjectWebhook `{MapRange} (projectID provider : string) (secretEncrypted : list Z)
    (enabled requireSecret : bool) (now : time) (xid : string) (s : State) : Out unit :=
  match range_find (webhook_of projectID provider) (webhooks s) with
  | Some (id, w) =>
      let w := {| w with ProjectWebhook.SecretEncrypted := secretEncrypted;
                  ProjectWebhook.Enabled := enabled; ProjectWebhook.RequireSecret := requireSecret;
                  ProjectWebhook.UpdatedAt := now |} in
      mkOut {| s with webhooks := <[id := w]> (webhooks s) |}
        (queueWrite projectsWrites now WriteOpUpdate "project_webhooks" (DPtr TProjectWebhook id))
        (Ok tt)
  | None =>
      let w := ProjectWebhook.mk xid projectID provider secretEncrypted enabled requireSecret now now in
      mkOut {| s with webhooks := <[xid := w]> (webhooks s) |}
        (queueWrite projectsWrites now WriteOpInsert "project_webhooks" (DPtr TProjectWebhook xid))
        (Ok tt)
  end.

Definition ListProjectWebhooks `{MapRange} (projectID : string) (s : State) : result (list ProjectWebhook) :=
  Ok (filter (λ w, w.(ProjectWebhook.ProjectID) = projectID) (range_values (webhooks s))).

Definition DeleteProjectWebhook `{MapRange} (projectID provider : string) (now : time) (s : State)
    : Out unit :=
  match range_find (webhook_of projectID provider) (webhooks s) with
  | Some (id, _) =>
      mkOut {| s with webhooks := delete id (webhooks s) |}
        (queueWrite projectsWrites now WriteOpDelete "project_webhooks"
           (DMapSA [("project_id", VString projectID); ("provider", VString provider)]))
        (Ok tt)
  | None => mkOut s [] (Ok tt)
  end.

(** * Secrets *)

Definition SetSecretEncrypted (project scope key : string) (valueEncrypted : list Z) (now : time)
    (xid : string) (s : State) : Out unit :=
  let mapKey := secretKey project scope key in
  match secrets s !! mapKey with
  | Some existing =>
      let existing := {| existing with Secret.ValueEncrypted := valueEncrypted;
                         Secret.UpdatedAt := now |} in
      mkOut {| s with secrets := <[mapKey := existing]> (secrets s) |}
        (queueWrite projectsWrites now WriteOpUpdate "secrets" (DPtr TSecret existing.(Secret.ID)))
        (Ok tt)
  | None =>
      let secret := Secret.mk xid project None scope key valueEncrypted now now in
      mkOut {| s with secrets := <[mapKey := secret]> (secrets s) |}
        (queueWrite projectsWrites now WriteOpInsert "secrets" (DPtr TSecret xid))
        (Ok tt)
  end.

Definition GetSecret (project scope key : string) (s : State) : result Secret :=
  match secrets s !! secretKey project scope key with
  | None => Err ErrNotFound
  | Some x => Ok x
  end.

Definition ListSecrets `{MapRange} (scope : string) (s : State) : result (list SecretInfo) :=
  Ok ((λ x, SecretInfo.mk x.(Secret.Key) x.(Secret.Scope) x.(Secret.UpdatedAt)) <$>
      filter (λ x, x.(Secret.Scope) = scope) (range_values (secrets s))).

Definition ListSecretsCtx `{MapRange} (project : string) (s : State) : result (list Secret) :=
  Ok (filter (λ x, x.(Secret.Project) = project) (range_values (secrets s))).

Definition ListSecretsWithScope `{MapRange} (project scope : string) (s : State) : result (list Secret) :=
  Ok (filter (λ x, x.(Secret.Project) = project ∧ x.(Secret.Scope) = scope) (range_values (secrets s))).

Definition ListAllSecretsCtx `{MapRange} (s : State) : result (list Secret) :=
  Ok (range_values (secrets s)).

(** The first match in the order of the loop, whatever its project. *)
Definition DeleteSecret `{MapRange} (scope key : string) (now : time) (s : State) : Out unit :=
  match range_find (λ x, bool_decide (x.(Secret.Scope) = scope) && bool_decide (x.(Secret.Key) = key))
          (secrets s) with
  | Some (mapKey, _) =>
      mkOut {| s with secrets := delete mapKey (secrets s) |}
        (queueWrite projectsWrites now WriteOpDelete "secrets" (DMapSS [("scope", scope); ("key", key)]))
        (Ok tt)
  | None => mkOut s [] (Ok tt)
  end.

Definition DeleteSecretCtx (project scope key : string) (now : time) (s : State) : Out unit :=
  mkOut {| s with secrets := delete (secretKey project scope key) (secrets s) |}
    (queueWrite projectsWrites now WriteOpDelete "secrets"
       (DMapSS [("project", project); ("scope", scope); ("key", key)]))
    (Ok tt).

Definition ExportAllSecrets `{MapRange} (s : State) : result (gmap string (gmap string string)) :=
  Ok (foldl (λ out x, <[x.(Secret.Project) :=
                          <[x.(Secret.Key) := x.(Secret.Scope)]> (default ∅ (out !! x.(Secret.Project)))]> out)
            ∅ (range_values (secrets s))).

(** * Calls *)

Inductive call :=
| CCreateProject (p : Project) (now : time) (xid : string)
| CUpdateProjectByID (p : Project) (now : time)
| CUpdateProjectByName (p : Project) (now : time)
| CUpdateProjectHealthCheck (id : string) (hc : option string) (ar rf : bool) (now : time)
| CDeleteProjectByID (id : string) (now : time)
| CDeleteProject (name : string) (now : time)
| CCreateProjectType (pt : ProjectType) (now : time) (xid : string)
| CUpdateProjectTypeByName (pt : ProjectType) (now : time)
| CDeleteProjectType (name : string) (now : time)
| CSetProjectWebhook (id provider : string) (secret : list Z) (enabled require : bool) (now : time) (xid : string)
| CDeleteProjectWebhook (id provider : string) (now : time)
| CSetSecretEncrypted (project scope key : string) (v : list Z) (now : time) (xid : string)
| CDeleteSecret (scope key : string) (now : time)
| CDeleteSecretCtx (project scope key : string) (now : time).

Definition effect {A} (o : Out A) : State * list (Chan * WriteOp) := (st o, queued o).

Definition run `{MapRange} (c : call) (s : State) : State * list (Chan * WriteOp) :=
  match c with
  | CCreateProject p now xid => effect (CreateProject p now xid s)
  | CUpdateProjectByID p now => effect (UpdateProjectByID p now s)
  | CUpdateProjectByName p now => effect (UpdateProjectByName p now s)
  | CUpdateProjectHealthCheck id hc ar rf now => effect (UpdateProjectHealthCheck id hc ar rf now s)
  | CDeleteProjectByID id now => effect (DeleteProjectByID id now s)
  | CDeleteProject name now => effect (DeleteProject name now s)
  | CCreateProjectType pt now xid => effect (CreateProjectType pt now xid s)
  | CUpdateProjectTypeByName pt now => effect (UpdateProjectTypeByName pt now s)
  | CDeleteProjectType name now => effect (DeleteProjectType name now s)
  | CSetProjectWebhook id pr v en rq now xid => effect (SetProjectWebhook id pr v en rq now xid s)
  | CDeleteProjectWebhook id pr now => effect (DeleteProjectWebhook id pr now s)
  | CSetSecretEncrypted p sc k v now xid => effect (SetSecretEncrypted p sc k v now xid s)
  | CDeleteSecret sc k now => effect (DeleteSecret sc k now s)
  | CDeleteSecretCtx p sc k now => effect (DeleteSecretCtx p sc k now s)
  end.

(** What the methods leave to their callers: an identifier brought along or
    drawn is not in use, and a project is not renamed to a name in use. *)
Definition allowed (c : call) (s : State) : Prop :=
  match c with
  | CCreateProject p _ xid => projects s !! or_string p.(Project.ID) xid = None
  | CUpdateProjectByID p _ =>
      ∀ l q, projectsByName s !! p.(Project.Name) = Some l → projHeap s !! l = Some q →
             q.(Project.ID) = p.(Project.ID)
  | CCreateProjectType pt _ xid => projectTypes s !! or_string pt.(ProjectType.ID) xid = None
  | CSetProjectWebhook _ _ _ _ _ _ xid => webhooks s !! xid = None
  | _ => True
  end.

Inductive reachable : State → Prop :=
| reachable_empty : reachable empty
| reachable_call (R : MapRange) c s : reachable s → allowed c s → reachable (run c s).1.

(** * Invariant *)

(** The two project indexes hold the same objects, each under its ID and its
    name. *)
Record indexed (s : State) : Prop := {
  by_id : ∀ id l, projects s !! id = Some l → ∃ p, projHeap s !! l = Some p ∧
    p.(Project.ID) = id ∧ projectsByName s !! p.(Project.Name) = Some l;
  by_name : ∀ n l, projectsByName s !! n = Some l → ∃ p, projHeap s !! l = Some p ∧
    p.(Project.Name) = n ∧ projects s !! p.(Project.ID) = Some l
}.

Record wf (s : State) : Prop := {
  wf_index : indexed s;
  wf_types : ∀ id pt, projectTypes s !! id = Some pt → pt.(ProjectType.ID) = id;
  wf_type_names : ∀ id id' pt pt', projectTypes s !! id = Some pt → projectTypes s !! id' = Some pt' →
    pt.(ProjectType.Name) = pt'.(ProjectType.Name) → id = id';
  wf_webhooks : ∀ id w, webhooks s !! id = Some w → w.(ProjectWebhook.ID) = id;
  wf_webhook_keys : ∀ id id' w w', webhooks s !! id = Some w → webhooks s !! id' = Some w' →
    w.(ProjectWebhook.ProjectID) = w'.(ProjectWebhook.ProjectID) →
    w.(ProjectWebhook.Provider) = w'.(ProjectWebhook.Provider) → id = id';
  wf_secrets : ∀ k x, secrets s !! k = Some x → k = secretKey x.(Secret.Project) x.(Secret.Scope) x.(Secret.Key);
  wf_dep : Deployments.wf (dep s)
}.

Lemma projects_wf_empty : wf empty.
Proof.
  split; simpl; try (intros *; by rewrite !lookup_empty).
  - split; simpl; intros *; by rewrite lookup_empty.
  - apply Deployments.deployments_wf_empty.
Qed.

Lemma by_name_None s n id l p :
  indexed s → projectsByName s !! n = None → projects s !! id = Some l → projHeap s !! l = Some p →
  p.(Project.Name) ≠ n.
Proof. intros [Hi _] Hn Hl Hp <-. destruct (Hi _ _ Hl) as (? & ? & ? & ?). congruence. Qed.

(** Storing a project restores the indexes when nothing else has its ID or its
    name. *)
Lemma store_project_indexed stored s :
  (∀ id l, id ≠ stored.(Project.ID) → projects s !! id = Some l → ∃ p, projHeap s !! l = Some p ∧
     p.(Project.ID) = id ∧ p.(Project.Name) ≠ stored.(Project.Name) ∧
     projectsByName s !! p.(Project.Name) = Some l) →
  (∀ n l, n ≠ stored.(Project.Name) → projectsByName s !! n = Some l → ∃ p, projHeap s !! l = Some p ∧
     p.(Project.Name) = n ∧ p.(Project.ID) ≠ stored.(Project.ID) ∧
     projects s !! p.(Project.ID) = Some l) →
  indexed (store_project stored s).
Proof.
  intros Hi Hn. set (l := fresh (dom (projHeap s))).
  assert (projHeap s !! l = None) as Hl by (apply not_elem_of_dom, is_fresh).
  split; simpl; fold l; intros k l'; rewrite lookup_insert_Some; intros [[<- <-]|[Hne Hk]].
  - exists stored. by rewrite !lookup_insert_eq.
  - destruct (Hi k l') as (p & Hp & Hid & Hname & Hb); [done..|]. exists p.
    rewrite !lookup_insert_ne by congruence. done.
  - exists stored. by rewrite !lookup_insert_eq.
  - destruct (Hn k l') as (p & Hp & Hid & Hname & Hb); [done..|]. exists p.
    rewrite !lookup_insert_ne by congruence. done.
Qed.

Lemma deref_Ok s l p : deref s l = Ok p ↔ ∃ l', l = Some l' ∧ projHeap s !! l' = Some p.
Proof. unfold deref. destruct l as [l|]; [|naive_solver]. destruct (projHeap s !! l) eqn:E; naive_solver. Qed.

Lemma deref_safe s id n : indexed s →
  deref s (projects s !! id) ≠ Panic ∧ deref s (projectsByName s !! n) ≠ Panic.
Proof.
  intros [Hi Hn]. unfold deref. split.
  - destruct (projects s !! id) eqn:E; [|done]. by destruct (Hi _ _ E) as (p & -> & _).
  - destruct (projectsByName s !! n) eqn:E; [|done]. by destruct (Hn _ _ E) as (p & -> & _).
Qed.

Lemma indexed_create p now xid s :
  indexed s → projects s !! or_string p.(Project.ID) xid = None →
  indexed (st (CreateProject p now xid s)).
Proof.
  intros Hx Hf. unfold CreateProject. destruct (projectsByName s !! _) eqn:En; [done|]. simpl.
  apply store_project_indexed; simpl.
  - intros id l Hne Hl. destruct (by_id s Hx _ _ Hl) as (q & Hq & Hid & Hb).
    exists q. split_and!; [done..| |done]. by eapply by_name_None.
  - intros n l Hne Hl. destruct (by_name s Hx _ _ Hl) as (q & Hq & Hid & Hb).
    exists q. split_and!; [done..| |done]. congruence.
Qed.

Lemma indexed_update p now s :
  indexed s → allowed (CUpdateProjectByID p now) s → indexed (st (UpdateProjectByID p now s)).
Proof.
  intros Hx Ha. unfold UpdateProjectByID. destruct (deref _ _) as [e|err|] eqn:Ed; [|done..].
  apply deref_Ok in Ed as (l & Hl & He). destruct (by_id s Hx _ _ Hl) as (e' & He' & Hid & Hbn).
  assert (e' = e) as -> by congruence. simpl.
  assert (∀ id l', id ≠ p.(Project.ID) → projects s !! id = Some l' → ∃ q, projHeap s !! l' = Some q ∧
            q.(Project.ID) = id ∧ q.(Project.Name) ≠ p.(Project.Name) ∧ q.(Project.Name) ≠ e.(Project.Name) ∧
            projectsByName s !! q.(Project.Name) = Some l') as H1.
  { intros id l' Hne Hl'. destruct (by_id s Hx _ _ Hl') as (q & Hq & Hqid & Hb). exists q.
    split_and!; [done..| | |done].
    - intros Heq. rewrite Heq in Hb. pose proof (Ha _ _ Hb Hq). congruence.
    - intros Heq. rewrite Heq in Hb. congruence. }
  assert (∀ n l', n ≠ e.(Project.Name) → projectsByName s !! n = Some l' → ∃ q, projHeap s !! l' = Some q ∧
            q.(Project.Name) = n ∧ q.(Project.ID) ≠ p.(Project.ID) ∧ projects s !! q.(Project.ID) = Some l') as H2.
  { intros n l' Hne Hl'. destruct (by_name s Hx _ _ Hl') as (q & Hq & Hqn & Hb). exists q.
    split_and!; [done..| |done]. intros Heq. rewrite Heq in Hb. congruence. }
  apply store_project_indexed; simpl; case_bool_decide as Hr; simpl.
  - intros id l' Hne Hl'. destruct (H1 id l') as (q & ? & ? & ? & ? & ?); [done..|].
    exists q. rewrite lookup_delete_ne by done. done.
  - intros id l' Hne Hl'. destruct (H1 id l') as (q & ? & ? & ? & ? & ?); [done..|]. by exists q.
  - intros n l' Hne Hl'. apply lookup_delete_Some in Hl' as [Hne' Hl']. by apply H2.
  - intros n l' Hne Hl'. apply H2; congruence.
Qed.

Lemma indexed_update_name p now s : indexed s → indexed (st (UpdateProjectByName p now s)).
Proof.
  intros Hx. unfold UpdateProjectByName. destruct (deref _ _) as [e|err|] eqn:Ed; [|done..].
  apply deref_Ok in Ed as (l & Hl & He). destruct (by_name s Hx _ _ Hl) as (e' & He' & Hid & Hbn).
  assert (e' = e) as -> by congruence. simpl. apply store_project_indexed; simpl.
  - intros id l' Hne Hl'. destruct (by_id s Hx _ _ Hl') as (q & Hq & Hqid & Hb). exists q.
    split_and!; [done..| |done]. intros Heq. rewrite Heq in Hb. congruence.
  - intros n l' Hne Hl'. destruct (by_name s Hx _ _ Hl') as (q & Hq & Hqn & Hb). exists q.
    split_and!; [done..| |done]. intros Heq. rewrite Heq in Hb. congruence.
Qed.

Lemma indexed_health id hc ar rf now s :
  indexed s → indexed (st (UpdateProjectHealthCheck id hc ar rf now s)).
Proof.
  intros Hx. unfold UpdateProjectHealthCheck. destruct (projects s !! id) as [l|]; [|done]. simpl.
  set (f := λ p : Project, {| p with Project.HealthCheckID := hc; Project.AutoRollbackEnabled := ar;
              Project.RollbackOnHealthFail := rf; Project.UpdatedAt := now |}).
  assert (∀ l' p, projHeap s !! l' = Some p → ∃ p', alter f l (projHeap s) !! l' = Some p' ∧
            p'.(Project.ID) = p.(Project.ID) ∧ p'.(Project.Name) = p.(Project.Name)) as Hf.
  { intros l' p Hp. destruct (decide (l = l')) as [<-|].
    - exists (f p). by rewrite lookup_alter_eq, Hp.
    - exists p. by rewrite lookup_alter_ne. }
  split; simpl; intros k l' Hl'.
  - destruct (by_id s Hx _ _ Hl') as (p & Hp & H1 & H2).
    destruct (Hf _ _ Hp) as (p' & Hp' & E1 & E2). exists p'. rewrite E1, E2. done.
  - destruct (by_name s Hx _ _ Hl') as (p & Hp & H1 & H2).
    destruct (Hf _ _ Hp) as (p' & Hp' & E1 & E2). exists p'. rewrite E1, E2. done.
Qed.

(** Taking a project out of both indexes. *)
Definition unlink (id name : string) (s : State) : State :=
  {| s with projects := delete id (projects s); projectsByName := delete name (projectsByName s) |}.

Lemma indexed_unlink id l p s :
  indexed s → projects s !! id = Some l → projHeap s !! l = Some p →
  indexed (unlink id p.(Project.Name) s).
Proof.
  intros Hx Hl Hp. destruct (by_id s Hx _ _ Hl) as (p' & Hp' & Hid & Hn).
  assert (p' = p) as -> by congruence.
  split; simpl; intros k l'; rewrite lookup_delete_Some; intros [Hne Hk].
  - destruct (by_id s Hx _ _ Hk) as (q & Hq & Hqid & Hqn). exists q. split_and!; [done..|].
    rewrite lookup_delete_ne; [done|]. intros Heq. rewrite <- Heq in Hqn. congruence.
  - destruct (by_name s Hx _ _ Hk) as (q & Hq & Hqid & Hqn). exists q. split_and!; [done..|].
    rewrite lookup_delete_ne; [done|]. intros Heq. rewrite <- Heq in Hqn. congruence.
Qed.

(** Entries may go from the unindexed maps without harm. *)
Lemma projects_wf_fewer s s' :
  wf s → indexed s' → projectTypes s' ⊆ projectTypes s → webhooks s' ⊆ webhooks s →
  secrets s' ⊆ secrets s → Deployments.wf (dep s') → wf s'.
Proof.
  intros [] Hx Ht Hw Hs Hd. split; try done; intros *; eauto using lookup_weaken.
Qed.

(** The logs that go are those of the deployments that go. *)
Lemma cascade_logs_lookup `{MapRange} id name (d : Deployments.State) k :
  Deployments.deploymentLogs (cascade_deployments id name d) !! k =
  match Deployments.deployments d !! k with
  | Some r => if of_project id name r then None else Deployments.deploymentLogs d !! k
  | None => Deployments.deploymentLogs d !! k
  end.
Proof.
  simpl. rewrite foldl_delete_lookup. case_decide as Hd; rewrite elem_of_range_filter_keys in Hd.
  - destruct Hd as (r & -> & ->). done.
  - destruct (Deployments.deployments d !! k) as [r|] eqn:E; [|done].
    destruct (of_project id name r) eqn:Eo; [|done]. exfalso. eauto.
Qed.

Lemma wf_cascade_deployments `{MapRange} id name d :
  Deployments.wf d → Deployments.wf (cascade_deployments id name d).
Proof.
  intros Hw. eapply Deployments.deployments_wf_fewer; [done|..]; try done; try apply range_delete_subseteq.
  apply map_subseteq_spec. intros k l. rewrite cascade_logs_lookup.
  destruct (Deployments.deployments d !! k) as [r|]; [|done]. by destruct (of_project id name r).
Qed.

Lemma wf_cascade `{MapRange} id name s : wf s → wf (cascade id name s).
Proof.
  intros Hw. eapply projects_wf_fewer; [done| | |apply range_delete_subseteq..|]; try done.
  - by destruct (wf_index s Hw).
  - apply wf_cascade_deployments, (wf_dep s Hw).
Qed.

Lemma wf_unlink id l p s :
  wf s → projects s !! id = Some l → projHeap s !! l = Some p → wf (unlink id p.(Project.Name) s).
Proof.
  intros Hw Hl Hp. eapply projects_wf_fewer; [done|..]; try done.
  - eapply indexed_unlink; [apply (wf_index s Hw)|done..].
  - apply (wf_dep s Hw).
Qed.

(** The search for a type by name or a webhook by project and provider has at
    most one answer. *)
Lemma type_found `{MapRange} name s id pt :
  wf s → projectTypes s !! id = Some pt → pt.(ProjectType.Name) = name →
  range_find (type_named name) (projectTypes s) = Some (id, pt).
Proof.
  intros Hw Hid Hn. apply range_find_unique; [done|by apply bool_decide_true|].
  intros id' pt' Hid' Hn'%bool_decide_eq_true. eapply (wf_type_names s Hw); eauto; congruence.
Qed.

Lemma webhook_of_true projectID provider w :
  webhook_of projectID provider w = true ↔
  w.(ProjectWebhook.ProjectID) = projectID ∧ w.(ProjectWebhook.Provider) = provider.
Proof. unfold webhook_of. by rewrite andb_true_iff, !bool_decide_eq_true. Qed.

Lemma webhook_found `{MapRange} s id w :
  wf s → webhooks s !! id = Some w →
  range_find (webhook_of w.(ProjectWebhook.ProjectID) w.(ProjectWebhook.Provider)) (webhooks s) = Some (id, w).
Proof.
  intros Hw Hid. apply range_find_unique; [done|by apply webhook_of_true|].
  intros id' w' Hid' [H1 H2]%webhook_of_true. eapply (wf_webhook_keys s Hw); eauto.
Qed.

Lemma wf_set_types s pt id :
  wf s → pt.(ProjectType.ID) = id →
  (∀ id' pt', projectTypes s !! id' = Some pt' → pt'.(ProjectType.Name) = pt.(ProjectType.Name) → id' = id) →
  wf {| s with projectTypes := <[id := pt]> (projectTypes s) |}.
Proof.
  intros Hw Hid Hu. pose proof (wf_index s Hw) as Hx. destruct Hw. split; simpl; try done.
  - by destruct Hx.
  - intros id' pt'. rewrite lookup_insert_Some. naive_solver.
  - intros id1 id2 pt1 pt2 H1 H2 Hn.
    apply lookup_insert_Some in H1 as [[<- <-]|[? H1]];
      apply lookup_insert_Some in H2 as [[<- <-]|[? H2]]; try done; [|eauto|eauto].
    symmetry. eauto.
Qed.

Lemma wf_set_webhook s w id :
  wf s → w.(ProjectWebhook.ID) = id →
  (∀ id' w', webhooks s !! id' = Some w' → w'.(ProjectWebhook.ProjectID) = w.(ProjectWebhook.ProjectID) →
             w'.(ProjectWebhook.Provider) = w.(ProjectWebhook.Provider) → id' = id) →
  wf {| s with webhooks := <[id := w]> (webhooks s) |}.
Proof.
  intros Hw Hid Hu. pose proof (wf_index s Hw) as Hx. destruct Hw. split; simpl; try done.
  - by destruct Hx.
  - intros id' w'. rewrite lookup_insert_Some. naive_solver.
  - intros id1 id2 w1 w2 H1 H2 Hn Hp.
    apply lookup_insert_Some in H1 as [[<- <-]|[? H1]];
      apply lookup_insert_Some in H2 as [[<- <-]|[? H2]]; try done; [|eauto|eauto].
    symmetry. eauto.
Qed.

Lemma wf_reindexed s s' :
  wf s → indexed s' → projectTypes s' = projectTypes s → webhooks s' = webhooks s →
  secrets s' = secrets s → dep s' = dep s → wf s'.
Proof.
  intros Hw Hx Ht Hh Hs Hd.
  eapply (projects_wf_fewer s); rewrite ?Ht, ?Hh, ?Hs, ?Hd; try done. apply (wf_dep s Hw).
Qed.

Lemma deleted_by_id `{MapRange} id l p now s :
  projects s !! id = Some l → projHeap s !! l = Some p →
  st (DeleteProjectByID id now s) = cascade id p.(Project.Name) (unlink id p.(Project.Name) s).
Proof.
  intros Hl Hp. unfold DeleteProjectByID.
  rewrite (proj2 (deref_Ok s _ p)) by eauto. done.
Qed.

Lemma deleted_by_name `{MapRange} name l p now s :
  projectsByName s !! name = Some l → projHeap s !! l = Some p →
  st (DeleteProject name now s) = cascade p.(Project.ID) name (unlink p.(Project.ID) name s).
Proof.
  intros Hl Hp. unfold DeleteProject.
  rewrite (proj2 (deref_Ok s _ p)) by eauto. done.
Qed.

Lemma projects_run_wf `{MapRange} c s : wf s → allowed c s → wf (run c s).1.
Proof.
  intros Hw Ha. pose proof (wf_index s Hw) as Hx.
  destruct c as [p now xid|p now|p now|id hc ar rf now|id now|name now|pt now xid|pt now|name now
    |id pr v en rq now xid|id pr now|p sc k v now xid|sc k now|p sc k now]; simpl in *.
  - eapply wf_reindexed; [done|by apply indexed_create|..]; unfold CreateProject; by case_match.
  - eapply wf_reindexed; [done|by apply indexed_update|..]; unfold UpdateProjectByID;
      case_match; simpl; try case_bool_decide; done.
  - eapply wf_reindexed; [done|by apply indexed_update_name|..]; unfold UpdateProjectByName; by case_match.
  - eapply wf_reindexed; [done|by apply indexed_health|..]; unfold UpdateProjectHealthCheck; by case_match.
  - destruct (deref s (projects s !! id)) as [p| |] eqn:E; [|unfold DeleteProjectByID; by rewrite E..].
    apply deref_Ok in E as (l & Hl & Hp). rewrite (deleted_by_id id l p) by done.
    by eapply wf_cascade, wf_unlink.
  - destruct (deref s (projectsByName s !! name)) as [p| |] eqn:E; [|unfold DeleteProject; by rewrite E..].
    apply deref_Ok in E as (l & Hl & Hp). rewrite (deleted_by_name name l p) by done.
    destruct (by_name s Hx _ _ Hl) as (q & Hq & Hn & Hid). assert (q = p) as -> by congruence.
    rewrite <- Hn. by eapply wf_cascade, wf_unlink.
  - unfold CreateProjectType. destruct (range_find _ _) eqn:E; [done|]. simpl.
    apply wf_set_types; [done..|]. intros id' pt' Hid' Hn. simpl in Hn.
    apply range_find_None with (k := id') (v := pt') in E; [|done].
    by apply bool_decide_eq_false in E.
  - unfold UpdateProjectTypeByName. destruct (range_find _ _) as [[id e]|] eqn:E; [|done]. simpl.
    apply range_find_Some in E as [Hid Hn%bool_decide_eq_true].
    apply wf_set_types; [done..|]. intros id' pt' Hid' Hn'. simpl in Hn'.
    eapply (wf_type_names s Hw); eauto; congruence.
  - unfold DeleteProjectType. destruct (range_find _ _) as [[id e]|] eqn:E; [|done]. simpl.
    eapply projects_wf_fewer; [done|by destruct Hx|apply delete_subseteq|done..|apply (wf_dep s Hw)].
  - unfold SetProjectWebhook. destruct (range_find _ _) as [[wid w]|] eqn:E; simpl.
    + apply range_find_Some in E as [Hid [H1 H2]%webhook_of_true].
      apply wf_set_webhook; [done|by apply (wf_webhooks s Hw _ _ Hid)|]. simpl. intros id' w' Hw' E1 E2.
      by eapply (wf_webhook_keys s Hw).
    + apply wf_set_webhook; [done..|]. simpl. intros id' w' Hw' E1 E2.
      apply range_find_None with (k := id') (v := w') in E; [|done].
      pose proof (proj2 (webhook_of_true id pr w') (conj E1 E2)). congruence.
  - unfold DeleteProjectWebhook. destruct (range_find _ _) as [[wid w]|] eqn:E; [|done]. simpl.
    eapply projects_wf_fewer; [done|by destruct Hx|done|apply delete_subseteq|done..|apply (wf_dep s Hw)].
  - unfold SetSecretEncrypted. destruct (secrets s !! _) as [e|] eqn:E; simpl.
    all: destruct Hw; split; simpl; try done; [by destruct Hx|].
    all: intros mk x; rewrite lookup_insert_Some; intros [[<- <-]|[_ ?]]; simpl; eauto.
  - unfold DeleteSecret. destruct (range_find _ _) as [[mk x]|] eqn:E; [|done]. simpl.
    eapply projects_wf_fewer; [done|by destruct Hx|done|done|apply delete_subseteq|apply (wf_dep s Hw)].
  - eapply projects_wf_fewer; [done|by destruct Hx|done|done|apply delete_subseteq|apply (wf_dep s Hw)].
Qed.

Lemma projects_reachable_wf s : reachable s → wf s.
Proof. induction 1; [apply projects_wf_empty|by apply projects_run_wf]. Qed.

Lemma get_by_id s id : wf s → GetProjectByID id s ≠ Panic.
Proof. intros Hw. by apply (deref_safe s id "" (wf_index s Hw)). Qed.

(** Keys of secrets with colon-free project and scope are told apart. *)
Lemma secretKey_inj p sc k p' sc' k' :
  free_of colon p = true → free_of colon p' = true → free_of colon sc = true → free_of colon sc' = true →
  secretKey p sc k = secretKey p' sc' k' → p = p' ∧ sc = sc' ∧ k = k'.
Proof.
  unfold secretKey. intros Hp Hp' Hs Hs' Heq.
  destruct (join_inj colon p p' (sc +:+ ":" +:+ k) (sc' +:+ ":" +:+ k') Hp Hp' Heq) as [-> Heq'].
  by destruct (join_inj colon sc sc' k k' Hs Hs' Heq') as [-> ->].
Qed.

(** ** Queued writes *)

Definition queued_kinds : list (WriteOpType * string * shape) :=
  [(WriteOpInsert, "projects", SPtr TProject);
   (WriteOpUpdate, "projects", SPtr TProject);
   (WriteOpUpdate, "projects", SMapSA);
   (WriteOpDelete, "projects", SString);
   (WriteOpDelete, "projects", SMapSS);
   (WriteOpInsert, "project_types", SPtr TProjectType);
   (WriteOpUpdate, "project_types", SPtr TProjectType);
   (WriteOpDelete, "project_types", SMapSS);
   (WriteOpInsert, "project_webhooks", SPtr TProjectWebhook);
   (WriteOpUpdate, "project_webhooks", SPtr TProjectWebhook);
   (WriteOpDelete, "project_webhooks", SMapSA);
   (WriteOpInsert, "secrets", SPtr TSecret);
   (WriteOpUpdate, "secrets", SPtr TSecret);
   (WriteOpDelete, "secrets", SMapSS)].

Lemma projects_run_queued `{MapRange} c s :
  (run c s).2 = [] ∨
  ∃ now typ tbl data, (run c s).2 = queueWrite projectsWrites now typ tbl data ∧
    (typ, tbl, shape_of data) ∈ queued_kinds.
Proof.
  destruct c; simpl;
    unfold CreateProject, UpdateProjectByID, UpdateProjectByName, UpdateProjectHealthCheck,
      DeleteProjectByID, DeleteProject, CreateProjectType, UpdateProjectTypeByName, DeleteProjectType,
      SetProjectWebhook, DeleteProjectWebhook, SetSecretEncrypted, DeleteSecret, DeleteSecretCtx;
    try match goal with |- context [match ?e with _ => _ end] => destruct e as [?|?|] || destruct e as [[? ?]|] || destruct e end;
    simpl; auto; right; (do 4 eexists; split; [reflexivity|]; unfold queued_kinds; repeat first [left|right]).
Qed.

(** * Properties *)

(** Along every sequence of calls whose creations use new identifiers and
    whose renamings use free names, every project is found under its ID and under
    its name and the two lookups lead to the same object, project type names are
    unique, a project has at most one webhook per provider, every secret is filed
    under its own key, and the deployment maps stay well-formed under the
    cascades. *)
Theorem projects_invariant s : reachable s → wf s.
Proof. apply projects_reachable_wf. Qed.

Definition web : Project := Project.mk "p1" "web" "git" "main" "/srv" None 0 0 None "" None false false.

(** A store with two projects, a secret and a webhook. *)
Definition demo : State :=
  let R := range_in_key_order in
  (run (CSetProjectWebhook "p1" "github" [1] true true 4 "w1")
    (run (CSetSecretEncrypted "web" "prod" "KEY" [7] 3 "s1")
      (run (CCreateProject (Project.mk "p2" "api" "git" "main" "/srv" None 0 0 None "" None false false) 2 "x")
        (run (CCreateProject web 1 "x") empty).1).1).1).1.

Lemma projects_demo_reachable : reachable demo.
Proof. repeat (apply (reachable_call range_in_key_order); [|done]). constructor. Qed.

Lemma projects_invariant_witness : wf demo.
Proof. apply (projects_invariant demo). apply projects_demo_reachable. Defined.

(** Deleting a project by name and by ID does the same, and exactly this:
    both lookups of the project fail afterwards; its webhooks, its secrets, its
    deployments (by name or by ID), the logs of those deployments and its
    scheduled deployments are gone; every other entry of those maps is as
    before. *)
Theorem delete_project_cascade `{MapRange} id l p now s :
  wf s → projects s !! id = Some l → projHeap s !! l = Some p →
  let s' := st (DeleteProjectByID id now s) in
  let name := p.(Project.Name) in
  let d := dep s in
  st (DeleteProject name now s) = s' ∧
  GetProjectByID id s' = Err ErrNotFound ∧ GetProjectByName name s' = Err ErrNotFound ∧
  webhooks s' = filter (λ kv, kv.2.(ProjectWebhook.ProjectID) ≠ id) (webhooks s) ∧
  secrets s' = filter (λ kv, kv.2.(Secret.Project) ≠ name) (secrets s) ∧
  Deployments.deployments (dep s') =
    filter (λ kv, of_project id name kv.2 = false) (Deployments.deployments d) ∧
  Deployments.scheduledDeploys (dep s') =
    filter (λ kv, kv.2.(ScheduledDeployment.Project) ≠ name) (Deployments.scheduledDeploys d) ∧
  (∀ k, Deployments.deploymentLogs (dep s') !! k =
     match Deployments.deployments d !! k with
     | Some r => if of_project id name r then None else Deployments.deploymentLogs d !! k
     | None => Deployments.deploymentLogs d !! k
     end).
Proof.
  intros Hw Hl Hp. destruct (by_id s (wf_index s Hw) _ _ Hl) as (q & Hq & Hid & Hn).
  assert (q = p) as -> by congruence.
  cbv zeta. rewrite (deleted_by_id id l p now s Hl Hp), (deleted_by_name _ l p now s Hn Hp), Hid.
  unfold GetProjectByID, GetProjectByName, deref. simpl. rewrite !lookup_delete_eq, !range_delete_filter.
  split_and!; try done;
    try (apply map_filter_ext; intros k x _; simpl; apply bool_decide_eq_false).
  intros k. apply cascade_logs_lookup.
Qed.

Lemma delete_project_cascade_witness :
  let R := range_in_key_order in
  st (DeleteProject "web" 9 demo) = st (DeleteProjectByID "p1" 9 demo) ∧
  GetProjectByName "web" (st (DeleteProjectByID "p1" 9 demo)) = Err ErrNotFound.
Proof.
  pose (p := {| web with Project.CreatedAt := 1; Project.UpdatedAt := 1 |}).
  pose proof (@delete_project_cascade range_in_key_order "p1" 0%nat p 9 demo
                (projects_reachable_wf demo projects_demo_reachable) ltac:(vm_compute; reflexivity)
                ltac:(vm_compute; reflexivity)) as Hd.
  exact (conj (proj1 Hd) (proj1 (proj2 (proj2 Hd)))).
Defined.

(** The health check settings written by ID are seen by name as well, and
    nothing else of the project or of another project changes. *)
Theorem health_check_visible id l p hc ar rf now s :
  wf s → projects s !! id = Some l → projHeap s !! l = Some p →
  let s' := st (UpdateProjectHealthCheck id hc ar rf now s) in
  let p' := {| p with Project.HealthCheckID := hc; Project.AutoRollbackEnabled := ar;
               Project.RollbackOnHealthFail := rf; Project.UpdatedAt := now |} in
  GetProjectByID id s' = Ok p' ∧ GetProjectByName p.(Project.Name) s' = Ok p' ∧
  (∀ id', id' ≠ id → GetProjectByID id' s' = GetProjectByID id' s) ∧
  (∀ n, n ≠ p.(Project.Name) → GetProjectByName n s' = GetProjectByName n s).
Proof.
  intros Hw Hl Hp. destruct (by_id s (wf_index s Hw) _ _ Hl) as (q & Hq & Hid & Hn).
  assert (q = p) as -> by congruence.
  unfold UpdateProjectHealthCheck, GetProjectByID, GetProjectByName, deref. rewrite Hl. simpl.
  rewrite Hl, Hn, lookup_alter_eq, Hp. simpl. split_and!; [done..| |].
  - intros id' Hne. destruct (projects s !! id') as [l'|] eqn:El; [|done].
    destruct (by_id s (wf_index s Hw) _ _ El) as (q & Hq' & Hid' & _).
    rewrite lookup_alter_ne; [done|]. intros <-. congruence.
  - intros n Hne. destruct (projectsByName s !! n) as [l'|] eqn:El; [|done].
    destruct (by_name s (wf_index s Hw) _ _ El) as (q & Hq' & Hid' & _).
    rewrite lookup_alter_ne; [done|]. intros <-. congruence.
Qed.

Lemma health_check_visible_witness :
  ∃ p, GetProjectByName "web" (st (UpdateProjectHealthCheck "p1" (Some "h1") true false 9 demo)) = Ok p ∧
       p.(Project.HealthCheckID) = Some "h1".
Proof.
  pose (p := {| web with Project.CreatedAt := 1; Project.UpdatedAt := 1 |}).
  pose proof (health_check_visible "p1" 0%nat p (Some "h1") true false 9 demo
                (projects_reachable_wf demo projects_demo_reachable) ltac:(vm_compute; reflexivity)
                ltac:(vm_compute; reflexivity)) as Hd.
  eexists. split; [exact (proj1 (proj2 Hd))|reflexivity].
Defined.

(** Secrets round-trip and are isolated: what was set is what is read back,
    a deleted secret is not found, and for projects and scopes without a colon
    neither call affects any other secret. *)
Theorem secret_roundtrip p sc k v now xid s :
  let s1 := st (SetSecretEncrypted p sc k v now xid s) in
  let s2 := st (DeleteSecretCtx p sc k now s) in
  (∃ x, GetSecret p sc k s1 = Ok x ∧ x.(Secret.ValueEncrypted) = v ∧ x.(Secret.UpdatedAt) = now) ∧
  GetSecret p sc k s2 = Err ErrNotFound ∧
  (∀ p' sc' k',
     free_of colon p = true → free_of colon p' = true → free_of colon sc = true → free_of colon sc' = true →
     (p', sc', k') ≠ (p, sc, k) →
     GetSecret p' sc' k' s1 = GetSecret p' sc' k' s ∧ GetSecret p' sc' k' s2 = GetSecret p' sc' k' s).
Proof.
  cbv zeta. split_and!.
  - unfold GetSecret, SetSecretEncrypted.
    destruct (secrets s !! secretKey p sc k); simpl; rewrite lookup_insert_eq; eauto.
  - unfold GetSecret, DeleteSecretCtx. simpl. by rewrite lookup_delete_eq.
  - intros p' sc' k' Hp Hp' Hs Hs' Hne.
    assert (secretKey p sc k ≠ secretKey p' sc' k') as Hk.
    { intros Heq. apply secretKey_inj in Heq as (-> & -> & ->); done. }
    unfold GetSecret, SetSecretEncrypted, DeleteSecretCtx. split.
    + by destruct (secrets s !! secretKey p sc k); simpl; rewrite lookup_insert_ne.
    + simpl. by rewrite lookup_delete_ne.
Qed.

(** The condition on colons is needed: these two secrets share a key, and
    setting the second overwrites the first. *)
Lemma secret_keys_collide :
  let s1 := st (SetSecretEncrypted "web" "prod:eu" "KEY" [1] 1 "x" empty) in
  let s2 := st (SetSecretEncrypted "web:prod" "eu" "KEY" [2] 2 "y" s1) in
  ∃ x, GetSecret "web" "prod:eu" "KEY" s2 = Ok x ∧ x.(Secret.ValueEncrypted) = [2].
Proof. vm_compute. eauto. Qed.

(** Which writes of the project methods reach the database: inserted
    projects, and set webhooks and secrets.  Every other one is refused whatever
    the database holds: updates of projects name a column that does not exist,
    writes of project types likewise, and the deletions carry payloads their
    executors do not take. *)
Theorem project_writes `{MapRange} c s ch op :
  (ch, op) ∈ (run c s).2 →
  ch = projectsWrites ∧
  accepted op = bool_decide ((op.(WriteOp.Type_), op.(WriteOp.Table)) ∈
    [(WriteOpInsert, "projects"); (WriteOpInsert, "project_webhooks");
     (WriteOpUpdate, "project_webhooks"); (WriteOpInsert, "secrets"); (WriteOpUpdate, "secrets")]).
Proof.
  intros Hq. destruct (projects_run_queued c s) as [Hn|(now & typ & tbl & data & Hw & Hk)].
  { rewrite Hn in Hq. by apply not_elem_of_nil in Hq. }
  rewrite Hw in Hq. apply list_elem_of_singleton in Hq. injection Hq as -> ->. split; [done|].
  unfold queued_kinds in Hk.
  repeat (apply elem_of_cons in Hk as [[= -> -> Hs]|Hk]; [destruct data; try done; simpl in Hs;
    try injection Hs as ->; vm_compute; reflexivity|]).
  by apply not_elem_of_nil in Hk.
Qed.

Lemma project_writes_witness :
  accepted (NewWriteOp 9 WriteOpDelete "projects" (DString "p1")) = false.
Proof.
  exact (proj2 (@project_writes range_in_key_order (CDeleteProjectByID "p1" 9) demo projectsWrites
           (NewWriteOp 9 WriteOpDelete "projects" (DString "p1")) ltac:(vm_compute; left))).
Defined.

(** The condition on renaming is needed: [UpdateProjectByID] does not check the
    new name.  Renaming "web" to "api" makes the name "api" lead to "web", while
    the other project is still found by its ID and now by no name. *)
Lemma rename_takes_name :
  let s' := st (UpdateProjectByID {| web with Project.Name := "api" |} 9 demo) in
  (∃ p, GetProjectByName "api" s' = Ok p ∧ p.(Project.ID) = "p1") ∧
  (∃ p, GetProjectByID "p2" s' = Ok p ∧ p.(Project.Name) = "api") ∧
  GetProjectByName "web" s' = Err ErrNotFound.
Proof. vm_compute. eauto 10. Qed.

End Projects.
