(* ===== verification/MemAgents.v ===== *)
(** Agents, agent binaries and update history in the memory store
    ([src/internal/storage/memory_agents.go]).

    Labels are copied on store and on read in the methods below except where the
    source shares the caller's map (the update branch of [UpsertAgent] and
    [ListAgentsNeedingUpdate]); no method of the store writes into a label map,
    so they are values. *)

From S2P Require Import StoreBase.

#[local] Open Scope string_scope.
#[local] Open Scope list_scope.
#[local] Open Scope Z_scope.

Module Agents.

Record State := mkState {
  agents : gmap string Agent;
  agentBinaries : gmap string AgentBinary;
  agentUpdates : gmap string AgentUpdateHistory
}.

Definition empty : State := mkState ∅ ∅ ∅.

Abbreviation Out := (Outcome State).

(** * Agents *)

(** A field that is only overwritten by a non-empty value. *)
Definition unless_empty (new old : string) : string := if bool_decide (new = "") then old else new.

Definition UpsertAgent (agent : Agent) (now : time) (s : State) : Out Agent :=
  match agents s !! agent.(Agent.ID) with
  | Some existing =>
      let existing := {| existing with
        Agent.Hostname := agent.(Agent.Hostname);
        Agent.Labels := agent.(Agent.Labels);
        Agent.Capabilities := agent.(Agent.Capabilities);
        Agent.Status := agent.(Agent.Status);
        Agent.LastSeenAt := now;
        Agent.Certificate := agent.(Agent.Certificate);
        Agent.Version := agent.(Agent.Version);
        Agent.OS := agent.(Agent.OS);
        Agent.Arch := agent.(Agent.Arch);
        Agent.UpdatePolicy := unless_empty agent.(Agent.UpdatePolicy) existing.(Agent.UpdatePolicy);
        Agent.UpdateWindowStart :=
          unless_empty agent.(Agent.UpdateWindowStart) existing.(Agent.UpdateWindowStart);
        Agent.UpdateWindowEnd :=
          unless_empty agent.(Agent.UpdateWindowEnd) existing.(Agent.UpdateWindowEnd) |} in
      mkOut {| s with agents := <[agent.(Agent.ID) := existing]> (agents s) |}
        (queueWrite agentsWrites now WriteOpUpdate "agents" (DPtr TAgent agent.(Agent.ID)))
        (Ok agent)
  | None =>
      let stored := {| agent with
        Agent.RegisteredAt := now; Agent.LastSeenAt := now;
        Agent.Status := or_string agent.(Agent.Status) AgentStatusOnline;
        Agent.UpdatePolicy := or_string agent.(Agent.UpdatePolicy) AgentUpdatePolicyImmediate |} in
      mkOut {| s with agents := <[agent.(Agent.ID) := stored]> (agents s) |}
        (queueWrite agentsWrites now WriteOpInsert "agents" (DPtr TAgent agent.(Agent.ID)))
        (Ok stored)
  end.

Definition GetAgent (id : string) (s : State) : result Agent :=
  match agents s !! id with None => Err ErrNotFound | Some a => Ok a end.

Definition ListAgents `{MapRange} (s : State) : result (list Agent) := Ok (range_values (agents s)).

Definition ListAgentsPaginated `{MapRange} (limit offset : Z) (s : State) : result (list Agent) :=
  paginate (range_values (agents s)) limit offset.

Definition CountAgents (s : State) : result Z := Ok (map_len (agents s)).

Definition CountAgentsByStatus `{MapRange} (s : State) : result (gmap string Z) :=
  Ok (count_by Agent.Status (range_values (agents s))).

Definition DeleteAgent `{MapRange} (id : string) (now : time) (s : State) : Out unit :=
  match agents s !! id with
  | None => fail s ErrNotFound
  | Some _ =>
      mkOut {| s with agents := delete id (agents s);
               agentUpdates := range_delete (λ h, bool_decide (h.(AgentUpdateHistory.AgentID) = id))
                                            (agentUpdates s) |}
        (queueWrite agentsWrites now WriteOpDelete "agents" (DString id))
        (Ok tt)
  end.

(** The methods that change fields of one agent in place. *)
Definition modify_agent (agentID : string) (f : Agent → Agent) (now : time) (s : State) : Out unit :=
  match agents s !! agentID with
  | None => fail s ErrNotFound
  | Some agent =>
      mkOut {| s with agents := <[agentID := f agent]> (agents s) |}
        (queueWrite agentsWrites now WriteOpUpdate "agents" (DPtr TAgent agentID))
        (Ok tt)
  end.

Definition UpdateAgentVersion (agentID version : string) (now : time) (s : State) : Out unit :=
  modify_agent agentID
    (λ a, {| a with Agent.Version := version; Agent.LastUpdateAt := Some now;
             Agent.LastUpdateError := "" |}) now s.

Definition UpdateAgentUpdateError (agentID errorMsg : string) (now : time) (s : State) : Out unit :=
  modify_agent agentID (λ a, {| a with Agent.LastUpdateError := errorMsg |}) now s.

Definition UpdateAgentUpdatePolicy (agentID policy windowStart windowEnd : string) (now : time)
    (s : State) : Out unit :=
  modify_agent agentID
    (λ a, {| a with Agent.UpdatePolicy := policy; Agent.UpdateWindowStart := windowStart;
             Agent.UpdateWindowEnd := windowEnd |}) now s.

(** ** Update windows *)

(** The value of the digits, at the width of an [int]; [None] for any other
    character. *)
Fixpoint parse_digits (v : Z) (s : string) : option Z :=
  match s with
  | EmptyString => Some v
  | String c s' =>
      let n := Z.of_nat (Ascii.nat_of_ascii c) in
      if (n <? 48) || (57 <? n) then None
      else parse_digits (wrap64 (wrap64 (v * 10) + (n - 48))) s'
  end.

Definition parseTimeComponent (s : string) : option Z := parse_digits 0 s.

(** [hour] and [minute] are those of [now]. *)
Definition isInUpdateWindow (hour minute : Z) (windowStart windowEnd : string) : bool :=
  if bool_decide (windowStart = "") || bool_decide (windowEnd = "") then false
  else
    match split_on colon windowStart, split_on colon windowEnd with
    | [sh; sm], [eh; em] =>
        match parseTimeComponent sh, parseTimeComponent sm,
              parseTimeComponent eh, parseTimeComponent em with
        | Some startHour, Some startMin, Some endHour, Some endMin =>
            let nowMinutes := wrap64 (wrap64 (hour * 60) + minute) in
            let startMinutes := wrap64 (wrap64 (startHour * 60) + startMin) in
            let endMinutes := wrap64 (wrap64 (endHour * 60) + endMin) in
            if endMinutes <? startMinutes
            then (startMinutes <=? nowMinutes) || (nowMinutes <=? endMinutes)
            else (startMinutes <=? nowMinutes) && (nowMinutes <=? endMinutes)
        | _, _, _, _ => false
        end
    | _, _ => false
    end.

Definition needs_update (hour minute : Z) (a : Agent) : bool :=
  if bool_decide (a.(Agent.UpdatePolicy) = AgentUpdatePolicyManual) then false
  else if bool_decide (a.(Agent.UpdatePolicy) = AgentUpdatePolicyImmediate) then true
  else if bool_decide (a.(Agent.UpdatePolicy) = AgentUpdatePolicyScheduled)
       then isInUpdateWindow hour minute a.(Agent.UpdateWindowStart) a.(Agent.UpdateWindowEnd)
       else false.

Definition ListAgentsNeedingUpdate `{MapRange} (hour minute : Z) (s : State) : result (list Agent) :=
  Ok (filter (λ a, needs_update hour minute a = true) (range_values (agents s))).

(** * Agent binaries *)

Definition for_platform (os arch : string) (b : AgentBinary) : bool :=
  bool_decide (b.(AgentBinary.OS) = os) && bool_decide (b.(AgentBinary.Arch) = arch).

Definition is_build (version os arch : string) (b : AgentBinary) : bool :=
  bool_decide (b.(AgentBinary.Version) = version) && for_platform os arch b.

Definition CreateAgentBinary `{MapRange} (binary : AgentBinary) (now : time) (xid : string) (s : State)
    : Out AgentBinary :=
  match range_find (is_build binary.(AgentBinary.Version) binary.(AgentBinary.OS) binary.(AgentBinary.Arch))
          (agentBinaries s) with
  | Some _ => fail s ErrDuplicate
  | None =>
      let stored := {| binary with AgentBinary.ID := or_string binary.(AgentBinary.ID) xid;
                       AgentBinary.UploadedAt := now |} in
      mkOut {| s with agentBinaries := <[stored.(AgentBinary.ID) := stored]> (agentBinaries s) |}
        (queueWrite agentsWrites now WriteOpInsert "agent_binaries"
           (DPtr TAgentBinary stored.(AgentBinary.ID)))
        (Ok stored)
  end.

Definition GetAgentBinary (id : string) (s : State) : result AgentBinary :=
  match agentBinaries s !! id with None => Err ErrNotFound | Some b => Ok b end.

Definition GetAgentBinaryByVersion `{MapRange} (version os arch : string) (s : State) : result AgentBinary :=
  match range_find (is_build version os arch) (agentBinaries s) with
  | Some (_, b) => Ok b
  | None => Err ErrNotFound
  end.

Definition current_for (os arch : string) (b : AgentBinary) : bool :=
  b.(AgentBinary.IsCurrent) && for_platform os arch b.

Definition GetCurrentAgentBinary `{MapRange} (os arch : string) (s : State) : result AgentBinary :=
  match range_find (current_for os arch) (agentBinaries s) with
  | Some (_, b) => Ok b
  | None => Err ErrNotFound
  end.

Definition ListAgentBinaries `{MapRange} (s : State) : result (list AgentBinary) :=
  Ok (range_values (agentBinaries s)).

(** The binaries of the platform that are current are unset one by one, each
    with a write of its own, then the target is set. *)
Definition SetCurrentAgentBinary `{MapRange} (id : string) (now : time) (s : State) : Out unit :=
  match agentBinaries s !! id with
  | None => fail s ErrNotFound
  | Some target =>
      let was := current_for target.(AgentBinary.OS) target.(AgentBinary.Arch) in
      let m := range_update was (λ b, {| b with AgentBinary.IsCurrent := false |}) (agentBinaries s) in
      mkOut {| s with agentBinaries := <[id := {| target with AgentBinary.IsCurrent := true |}]> m |}
        ((filter (λ kv, was kv.2 = true) (range (agentBinaries s)) ≫= λ kv,
            queueWrite agentsWrites now WriteOpUpdate "agent_binaries" (DPtr TAgentBinary kv.1)) ++
         queueWrite agentsWrites now WriteOpUpdate "agent_binaries" (DPtr TAgentBinary id))
        (Ok tt)
  end.

Definition DeleteAgentBinary (id : string) (now : time) (s : State) : Out unit :=
  match agentBinaries s !! id with
  | None => fail s ErrNotFound
  | Some _ =>
      mkOut {| s with agentBinaries := delete id (agentBinaries s) |}
        (queueWrite agentsWrites now WriteOpDelete "agent_binaries" (DString id))
        (Ok tt)
  end.

(** * Update history *)

Definition CreateAgentUpdateHistory (history : AgentUpdateHistory) (now : time) (xid : string)
    (s : State) : Out AgentUpdateHistory :=
  let stored := {| history with
    AgentUpdateHistory.ID := or_string history.(AgentUpdateHistory.ID) xid;
    AgentUpdateHistory.StartedAt := now;
    AgentUpdateHistory.Status := or_string history.(AgentUpdateHistory.Status) UpdateStatusPending |} in
  mkOut {| s with agentUpdates := <[stored.(AgentUpdateHistory.ID) := stored]> (agentUpdates s) |}
    (queueWrite agentsWrites now WriteOpInsert "agent_update_history"
       (DPtr TAgentUpdateHistory stored.(AgentUpdateHistory.ID)))
    (Ok stored).

Definition GetAgentUpdateHistory (id : string) (s : State) : result AgentUpdateHistory :=
  match agentUpdates s !! id with None => Err ErrNotFound | Some h => Ok h end.

Definition UpdateAgentUpdateHistory (history : AgentUpdateHistory) (now : time) (s : State) : Out unit :=
  match agentUpdates s !! history.(AgentUpdateHistory.ID) with
  | None => fail s ErrNotFound
  | Some existing =>
      let existing := {| existing with
        AgentUpdateHistory.Status := history.(AgentUpdateHistory.Status);
        AgentUpdateHistory.ErrorMessage := history.(AgentUpdateHistory.ErrorMessage);
        AgentUpdateHistory.CompletedAt := history.(AgentUpdateHistory.CompletedAt);
        AgentUpdateHistory.RolledBack := history.(AgentUpdateHistory.RolledBack) |} in
      mkOut {| s with agentUpdates := <[history.(AgentUpdateHistory.ID) := existing]> (agentUpdates s) |}
        (queueWrite agentsWrites now WriteOpUpdate "agent_update_history"
           (DPtr TAgentUpdateHistory history.(AgentUpdateHistory.ID)))
        (Ok tt)
  end.

Definition history_page (all : list AgentUpdateHistory) (limit offset : Z)
    : result (list AgentUpdateHistory * Z) :=
  let all := exchange_sort (newest AgentUpdateHistory.StartedAt) all in
  rbind (paginate all limit offset) (λ p, Ok (p, len all)).

Definition ListAgentUpdateHistory `{MapRange} (agentID : string) (limit offset : Z) (s : State)
    : result (list AgentUpdateHistory * Z) :=
  history_page (filter (λ h, h.(AgentUpdateHistory.AgentID) = agentID) (range_values (agentUpdates s)))
    limit offset.

Definition ListAllAgentUpdateHistory `{MapRange} (limit offset : Z) (s : State)
    : result (list AgentUpdateHistory * Z) :=
  history_page (range_values (agentUpdates s)) limit offset.

Definition GetLatestAgentUpdateHistory `{MapRange} (agentID : string) (s : State)
    : result AgentUpdateHistory :=
  match latest AgentUpdateHistory.StartedAt
          (filter (λ h, h.(AgentUpdateHistory.AgentID) = agentID) (range_values (agentUpdates s))) with
  | None => Err ErrNotFound
  | Some h => Ok h
  end.

(** * Calls *)

Inductive call :=
| CUpsertAgent (a : Agent) (now : time)
| CDeleteAgent (id : string) (now : time)
| CUpdateAgentVersion (id version : string) (now : time)
| CUpdateAgentUpdateError (id errorMsg : string) (now : time)
| CUpdateAgentUpdatePolicy (id policy ws we : string) (now : time)
| CCreateAgentBinary (b : AgentBinary) (now : time) (xid : string)
| CSetCurrentAgentBinary (id : string) (now : time)
| CDeleteAgentBinary (id : string) (now : time)
| CCreateAgentUpdateHistory (h : AgentUpdateHistory) (now : time) (xid : string)
| CUpdateAgentUpdateHistory (h : AgentUpdateHistory) (now : time).

Definition effect {A} (o : Out A) : State * list (Chan * WriteOp) := (st o, queued o).

Definition run `{MapRange} (c : call) (s : State) : State * list (Chan * WriteOp) :=
  match c with
  | CUpsertAgent a now => effect (UpsertAgent a now s)
  | CDeleteAgent id now => effect (DeleteAgent id now s)
  | CUpdateAgentVersion id v now => effect (UpdateAgentVersion id v now s)
  | CUpdateAgentUpdateError id e now => effect (UpdateAgentUpdateError id e now s)
  | CUpdateAgentUpdatePolicy id p ws we now => effect (UpdateAgentUpdatePolicy id p ws we now s)
  | CCreateAgentBinary b now xid => effect (CreateAgentBinary b now xid s)
  | CSetCurrentAgentBinary id now => effect (SetCurrentAgentBinary id now s)
  | CDeleteAgentBinary id now => effect (DeleteAgentBinary id now s)
  | CCreateAgentUpdateHistory h now xid => effect (CreateAgentUpdateHistory h now xid s)
  | CUpdateAgentUpdateHistory h now => effect (UpdateAgentUpdateHistory h now s)
  end.

(** A binary is created under a new identifier and not yet as the current one
    (the upload handler makes it current in a second call). *)
Definition allowed (c : call) (s : State) : Prop :=
  match c with
  | CCreateAgentBinary b _ xid =>
      agentBinaries s !! or_string b.(AgentBinary.ID) xid = None ∧ b.(AgentBinary.IsCurrent) = false
  | _ => True
  end.

Inductive reachable : State → Prop :=
| reachable_empty : reachable empty
| reachable_call (R : MapRange) c s : reachable s → allowed c s → reachable (run c s).1.

(** * Invariant *)

Record wf (s : State) : Prop := {
  wf_agents : ∀ id a, agents s !! id = Some a → a.(Agent.ID) = id;
  wf_binaries : ∀ id b, agentBinaries s !! id = Some b → b.(AgentBinary.ID) = id;
  wf_builds : ∀ id id' b b', agentBinaries s !! id = Some b → agentBinaries s !! id' = Some b' →
    is_build b'.(AgentBinary.Version) b'.(AgentBinary.OS) b'.(AgentBinary.Arch) b = true → id = id';
  wf_current : ∀ id id' b b', agentBinaries s !! id = Some b → agentBinaries s !! id' = Some b' →
    b'.(AgentBinary.IsCurrent) = true →
    current_for b'.(AgentBinary.OS) b'.(AgentBinary.Arch) b = true → id = id';
  wf_updates : ∀ id h, agentUpdates s !! id = Some h → h.(AgentUpdateHistory.ID) = id
}.

Lemma agents_wf_empty : wf empty.
Proof. split; simpl; intros *; by rewrite ?lookup_empty. Qed.

Lemma for_platform_true os arch b :
  for_platform os arch b = true ↔ b.(AgentBinary.OS) = os ∧ b.(AgentBinary.Arch) = arch.
Proof. unfold for_platform. by rewrite andb_true_iff, !bool_decide_eq_true. Qed.

Lemma is_build_true v os arch b :
  is_build v os arch b = true ↔
  b.(AgentBinary.Version) = v ∧ b.(AgentBinary.OS) = os ∧ b.(AgentBinary.Arch) = arch.
Proof. unfold is_build. by rewrite andb_true_iff, bool_decide_eq_true, for_platform_true. Qed.

Lemma current_for_true os arch b :
  current_for os arch b = true ↔
  b.(AgentBinary.IsCurrent) = true ∧ b.(AgentBinary.OS) = os ∧ b.(AgentBinary.Arch) = arch.
Proof. unfold current_for. by rewrite andb_true_iff, for_platform_true. Qed.

Lemma wf_modify f id now s :
  (∀ a, (f a).(Agent.ID) = a.(Agent.ID)) → wf s → wf (st (modify_agent id f now s)).
Proof.
  intros Hf []. unfold modify_agent. destruct (agents s !! id) as [a|] eqn:E; [|done].
  split; simpl; try done. intros id' a'. rewrite lookup_insert_Some.
  intros [[<- <-]|[_ ?]]; [|eauto]. rewrite Hf. eauto.
Qed.

(** The binaries after a change of the current one: the versions stay, and the
    flags of the platform are reset to the target. *)
Lemma set_current_lookup `{MapRange} id target now s k :
  agentBinaries s !! id = Some target →
  agentBinaries (st (SetCurrentAgentBinary id now s)) !! k =
  (λ b, if decide (k = id) then {| b with AgentBinary.IsCurrent := true |}
        else if for_platform target.(AgentBinary.OS) target.(AgentBinary.Arch) b
        then {| b with AgentBinary.IsCurrent := false |} else b) <$> agentBinaries s !! k.
Proof.
  intros Ht. unfold SetCurrentAgentBinary. rewrite Ht. simpl. rewrite range_update_fmap.
  destruct (decide (k = id)) as [->|Hne].
  - by rewrite lookup_insert_eq, Ht.
  - rewrite lookup_insert_ne, lookup_fmap by done. destruct (agentBinaries s !! k) as [b|]; [|done].
    simpl. unfold current_for.
    destruct (for_platform _ _ b); [|by rewrite andb_false_r].
    rewrite andb_true_r. destruct b as [? ? ? ? ? ? ? ? []]; done.
Qed.

Lemma wf_set_current `{MapRange} id now s : wf s → wf (st (SetCurrentAgentBinary id now s)).
Proof.
  intros Hw. destruct (agentBinaries s !! id) as [target|] eqn:Ht;
    [|unfold SetCurrentAgentBinary; by rewrite Ht].
  pose proof (λ k, set_current_lookup id target now s k Ht) as Hl.
  assert (∀ k b, agentBinaries (st (SetCurrentAgentBinary id now s)) !! k = Some b → ∃ b0,
            agentBinaries s !! k = Some b0 ∧ b.(AgentBinary.ID) = b0.(AgentBinary.ID) ∧
            b.(AgentBinary.Version) = b0.(AgentBinary.Version) ∧ b.(AgentBinary.OS) = b0.(AgentBinary.OS) ∧
            b.(AgentBinary.Arch) = b0.(AgentBinary.Arch) ∧
            (b.(AgentBinary.IsCurrent) = true → k = id ∨
             b0.(AgentBinary.IsCurrent) = true ∧
             for_platform target.(AgentBinary.OS) target.(AgentBinary.Arch) b0 = false)) as Hb.
  { intros k b Hk. rewrite Hl, fmap_Some in Hk. destruct Hk as (b0 & Hk & ->). exists b0.
    split; [done|]. case_decide; [by auto 10|].
    destruct (for_platform _ _ b0) eqn:E; simpl; by auto 10. }
  destruct Hw. split; try (unfold SetCurrentAgentBinary; rewrite Ht; done).
  - intros k b Hk. destruct (Hb _ _ Hk) as (b0 & Hk0 & -> & _). eauto.
  - intros k k' b b' Hk Hk'. destruct (Hb _ _ Hk) as (b0 & Hk0 & _ & E1 & E2 & E3 & _).
    destruct (Hb _ _ Hk') as (b0' & Hk0' & _ & E1' & E2' & E3' & _).
    rewrite is_build_true, E1, E2, E3, E1', E2', E3'. intros Hs.
    eapply wf_builds0; [done..|]. by apply is_build_true.
  - intros k k' b b' Hk Hk' Hc'. rewrite current_for_true. intros (Hc & Ho & Ha).
    destruct (Hb _ _ Hk) as (b0 & Hk0 & _ & E1 & E2 & E3 & Hcur).
    destruct (Hb _ _ Hk') as (b0' & Hk0' & _ & E1' & E2' & E3' & Hcur').
    assert (∀ k1 b1, k1 = id → agentBinaries s !! k1 = Some b1 →
              for_platform target.(AgentBinary.OS) target.(AgentBinary.Arch) b1 = true) as Hself.
    { intros k1 b1 -> Hk1. apply for_platform_true. by simplify_eq. }
    destruct (Hcur Hc) as [->|[Hc0 Hp]], (Hcur' Hc') as [->|[Hc0' Hp']]; [done| | |].
    + pose proof (Hself _ _ eq_refl Hk0) as Hp%for_platform_true.
      exfalso. apply (not_true_iff_false _) in Hp'. apply Hp', for_platform_true. naive_solver congruence.
    + pose proof (Hself _ _ eq_refl Hk0') as Hp'%for_platform_true.
      exfalso. apply (not_true_iff_false _) in Hp. apply Hp, for_platform_true. naive_solver congruence.
    + eapply wf_current0; [done..|]. apply current_for_true. naive_solver congruence.
Qed.

Lemma agents_run_wf `{MapRange} c s : wf s → allowed c s → wf (run c s).1.
Proof.
  intros Hw Ha. destruct c as [a now|id now|id v now|id e now|id p ws we now|b now xid|id now|id now
    |h now xid|h now]; simpl in *; try (by apply wf_modify).
  - unfold UpsertAgent. destruct (agents s !! _) as [a0|] eqn:E; simpl; destruct Hw; split; simpl; try done;
      intros id' a'; rewrite lookup_insert_Some; intros [[<- <-]|[_ ?]]; simpl; eauto.
  - unfold DeleteAgent. destruct (agents s !! id); [|done]. destruct Hw. split; simpl; try done.
    + intros id' a' [_ ?]%lookup_delete_Some. eauto.
    + intros id' h' [? _]%range_delete_Some. eauto.
  - unfold CreateAgentBinary. destruct (range_find _ _) eqn:E; [done|]. destruct Ha as [Hf Hc].
    rewrite range_find_None in E.
    assert (∀ id' b', agentBinaries s !! id' = Some b' →
      is_build b.(AgentBinary.Version) b.(AgentBinary.OS) b.(AgentBinary.Arch) b' ≠ true) as Hno.
    { intros id' b' Hb' Ht. by rewrite (E _ _ Hb') in Ht. }
    destruct Hw. split; simpl; try done.
    + intros id' b'. rewrite lookup_insert_Some. intros [[<- <-]|[_ ?]]; simpl; eauto.
    + intros id1 id2 b1 b2 H1 H2 Hb. apply is_build_true in Hb.
      apply lookup_insert_Some in H1 as [[<- <-]|[? H1]];
        apply lookup_insert_Some in H2 as [[<- <-]|[? H2]]; simpl in *; [done|..].
      * exfalso. eapply Hno; [done|]. apply is_build_true. naive_solver congruence.
      * exfalso. eapply Hno; [done|]. by apply is_build_true.
      * eapply wf_builds0; [done..|]. by apply is_build_true.
    + intros id1 id2 b1 b2 H1 H2 Hc2 Hb. apply current_for_true in Hb as (Hc1 & Hb).
      apply lookup_insert_Some in H1 as [[<- <-]|[? H1]];
        apply lookup_insert_Some in H2 as [[<- <-]|[? H2]]; simpl in *; [done|congruence..|].
      eapply wf_current0; [done..|]. by apply current_for_true.
  - by apply wf_set_current.
  - unfold DeleteAgentBinary. destruct (agentBinaries s !! id); [|done]. destruct Hw. split; simpl; try done;
      intros *; rewrite ?lookup_delete_Some; naive_solver.
  - destruct Hw. split; simpl; try done. intros id' h'. rewrite lookup_insert_Some. naive_solver.
  - unfold UpdateAgentUpdateHistory. destruct (agentUpdates s !! _) as [h0|] eqn:E; [|done].
    destruct Hw. split; simpl; try done. intros id' h'. rewrite lookup_insert_Some.
    intros [[<- <-]|[_ ?]]; simpl; eauto.
Qed.

Lemma agents_reachable_wf s : reachable s → wf s.
Proof. induction 1; [apply agents_wf_empty|by apply agents_run_wf]. Qed.

(** ** Update windows *)

(** The usual spelling of a time of day, HH:MM. *)
Definition digit (n : Z) : Ascii.ascii := Ascii.ascii_of_nat (Z.to_nat (48 + n)).
Definition two_digits (n : Z) : string := String (digit (n / 10)) (String (digit (n mod 10)) "").
Definition hhmm (t : Z) : string := two_digits (t / 60) +:+ ":" +:+ two_digits (t mod 60).

(** What a spelling means, as the two parts parsed. *)
Definition minutes_of (w : string) : option Z :=
  match split_on colon w with
  | [h; m] =>
      match parseTimeComponent h, parseTimeComponent m with
      | Some h, Some m => Some (wrap64 (wrap64 (h * 60) + m))
      | _, _ => None
      end
  | _ => None
  end.

Lemma minutes_of_hhmm t : 0 ≤ t < 1440 → minutes_of (hhmm t) = Some t ∧ hhmm t ≠ "".
Proof.
  intros Ht. assert (Forall (λ t, minutes_of (hhmm t) = Some t) (seqZ 0 1440)) as Hall.
  { apply (bool_decide_unpack _). vm_compute. exact I. }
  rewrite Forall_forall in Hall. split; [apply Hall, elem_of_seqZ; lia|].
  unfold hhmm, two_digits. done.
Qed.

Lemma window_minutes hour minute ws we s e :
  ws ≠ "" → we ≠ "" → minutes_of ws = Some s → minutes_of we = Some e →
  isInUpdateWindow hour minute ws we =
  let now := wrap64 (wrap64 (hour * 60) + minute) in
  if e <? s then (s <=? now) || (now <=? e) else (s <=? now) && (now <=? e).
Proof.
  intros Hws Hwe Hs He. unfold isInUpdateWindow.
  rewrite !bool_decide_false by done. simpl. unfold minutes_of in *.
  destruct (split_on colon ws) as [|a [|b [|]]]; try done.
  destruct (split_on colon we) as [|c [|d [|]]]; try done.
  destruct (parseTimeComponent a), (parseTimeComponent b); try done.
  destruct (parseTimeComponent c), (parseTimeComponent d); try done.
  injection Hs as <-. injection He as <-. done.
Qed.

(** * Properties *)

(** Along every sequence of calls in which binaries are created under new
    identifiers and not yet current, agents, binaries and update records are
    filed under their own identifiers, no two binaries have the same version and
    platform, and each platform has at most one current binary. *)
Theorem agents_invariant s : reachable s → wf s.
Proof. apply agents_reachable_wf. Qed.

Definition build (id version : string) : AgentBinary :=
  AgentBinary.mk id version "linux" "amd64" "/bin" "sum" 1 0 false.

Definition demo : State :=
  let R := range_in_key_order in
  (run (CSetCurrentAgentBinary "b1" 3)
    (run (CCreateAgentBinary (build "b2" "v2") 2 "x") (run (CCreateAgentBinary (build "b1" "v1") 1 "x") empty).1).1).1.

Lemma agents_demo_reachable : reachable demo.
Proof. repeat (apply (reachable_call range_in_key_order); [|done]). constructor. Qed.

Lemma agents_invariant_witness : wf demo.
Proof. apply (agents_invariant demo). apply agents_demo_reachable. Defined.

(** Making a binary current makes it the one and only current binary of its
    platform, in whatever order the binaries are visited then and later, and
    changes no binary of another platform. *)
Theorem set_current_unique (R R' : MapRange) id target now s :
  agentBinaries s !! id = Some target →
  let s' := st (@SetCurrentAgentBinary R id now s) in
  let os := target.(AgentBinary.OS) in
  let arch := target.(AgentBinary.Arch) in
  @GetCurrentAgentBinary R' os arch s' = Ok {| target with AgentBinary.IsCurrent := true |} ∧
  (∀ k b, agentBinaries s' !! k = Some b → current_for os arch b = true → k = id) ∧
  (∀ k b, agentBinaries s !! k = Some b → for_platform os arch b = false →
          agentBinaries s' !! k = Some b).
Proof.
  intros Ht. cbv zeta. pose proof (λ k, @set_current_lookup R id target now s k Ht) as Hl.
  assert (∀ k b, agentBinaries (st (@SetCurrentAgentBinary R id now s)) !! k = Some b →
            current_for target.(AgentBinary.OS) target.(AgentBinary.Arch) b = true → k = id) as Hu.
  { intros k b Hk Hc. rewrite Hl, fmap_Some in Hk. destruct Hk as (b0 & Hk & ->).
    revert Hc. case_decide; [done|]. unfold current_for.
    destruct (for_platform _ _ b0) eqn:E; [done|]. by rewrite E, andb_false_r. }
  split; [|split; [done|]].
  - unfold GetCurrentAgentBinary. erewrite range_find_unique; [done| | |exact Hu].
    + rewrite Hl, Ht. simpl. by rewrite decide_True.
    + by apply current_for_true.
  - intros k b Hk Hp. rewrite Hl, Hk. simpl. rewrite decide_False, Hp; [done|].
    intros ->. assert (b = target) as -> by congruence.
    by rewrite (proj2 (for_platform_true _ _ _)) in Hp.
Qed.

Lemma set_current_unique_witness :
  @GetCurrentAgentBinary range_reversed "linux" "amd64"
    (st (@SetCurrentAgentBinary range_in_key_order "b2" 9 demo)) =
  Ok (AgentBinary.mk "b2" "v2" "linux" "amd64" "/bin" "sum" 1 2 true).
Proof.
  exact (proj1 (set_current_unique range_in_key_order range_reversed "b2"
    (AgentBinary.mk "b2" "v2" "linux" "amd64" "/bin" "sum" 1 2 false) 9 demo ltac:(vm_compute; reflexivity))).
Defined.

(** An update window given as HH:MM-HH:MM is the stretch of the clock from
    its start up to and including its end, going past midnight when the end is
    earlier: an agent on a scheduled policy needs an update at a minute of the day
    exactly when that minute is no further past the start than the end is. *)
Theorem update_window_circular now start end_ a :
  0 ≤ now < 1440 → 0 ≤ start < 1440 → 0 ≤ end_ < 1440 →
  a.(Agent.UpdatePolicy) = AgentUpdatePolicyScheduled →
  a.(Agent.UpdateWindowStart) = hhmm start → a.(Agent.UpdateWindowEnd) = hhmm end_ →
  needs_update (now / 60) (now mod 60) a =
  bool_decide ((now - start) mod 1440 ≤ (end_ - start) mod 1440).
Proof.
  intros Hn Hs He Hp Hws Hwe. unfold needs_update. rewrite Hp, Hws, Hwe.
  rewrite !bool_decide_false by done. rewrite bool_decide_true by done.
  destruct (minutes_of_hhmm start Hs) as [Hms Hes], (minutes_of_hhmm end_ He) as [Hme Hee].
  rewrite (window_minutes _ _ _ _ start end_) by done. cbv zeta.
  pose proof (Z.div_mod now 60 ltac:(lia)). pose proof (Z.mod_pos_bound now 60 ltac:(lia)).
  rewrite (wrap64_id (now / 60 * 60)) by (unfold in_int64, int64_min, int64_max; lia).
  rewrite wrap64_id by (unfold in_int64, int64_min, int64_max; lia).
  replace (now / 60 * 60 + now mod 60) with now by lia.
  assert (∀ x, -1440 < x < 1440 → x mod 1440 = if x <? 0 then x + 1440 else x) as Hm.
  { intros x Hx. destruct (Z.ltb_spec x 0).
    - rewrite <- (Z.mod_add x 1) by lia. rewrite Z.mod_small; lia.
    - rewrite Z.mod_small; lia. }
  rewrite !Hm by lia. apply eq_true_iff_eq. rewrite bool_decide_eq_true.
  destruct (Z.ltb_spec end_ start), (Z.ltb_spec (now - start) 0), (Z.ltb_spec (end_ - start) 0); lia.
Qed.

Lemma update_window_circular_witness :
  let a := Agent.mk "a" "h" None "" "online" 0 0 "" [] "v1" "linux" "amd64" "scheduled" "22:00" "06:30"
             None "" in
  needs_update 23 15 a = true.
Proof.
  exact (update_window_circular 1395 1320 390
    (Agent.mk "a" "h" None "" "online" 0 0 "" [] "v1" "linux" "amd64" "scheduled" "22:00" "06:30" None "")
    ltac:(lia) ltac:(lia) ltac:(lia) eq_refl eq_refl eq_refl).
Defined.

(** A registration or heartbeat keeps what the agent does not own: for a
    known agent the registration time, the signing secret, the last update result
    and every update setting the message leaves empty are preserved, the time of
    contact is renewed, and no other agent changes; a new agent is stored with a
    status and an update policy. *)
Theorem upsert_agent_preserves agent now s :
  let s' := st (UpsertAgent agent now s) in
  ∃ a, GetAgent agent.(Agent.ID) s' = Ok a ∧ a.(Agent.LastSeenAt) = now ∧
    a.(Agent.Version) = agent.(Agent.Version) ∧ a.(Agent.Labels) = agent.(Agent.Labels) ∧
    match agents s !! agent.(Agent.ID) with
    | Some old =>
        a.(Agent.RegisteredAt) = old.(Agent.RegisteredAt) ∧
        a.(Agent.HMACSecret) = old.(Agent.HMACSecret) ∧
        a.(Agent.LastUpdateAt) = old.(Agent.LastUpdateAt) ∧
        a.(Agent.LastUpdateError) = old.(Agent.LastUpdateError) ∧
        (agent.(Agent.UpdatePolicy) = "" → a.(Agent.UpdatePolicy) = old.(Agent.UpdatePolicy)) ∧
        (agent.(Agent.UpdateWindowStart) = "" → a.(Agent.UpdateWindowStart) = old.(Agent.UpdateWindowStart)) ∧
        (agent.(Agent.UpdateWindowEnd) = "" → a.(Agent.UpdateWindowEnd) = old.(Agent.UpdateWindowEnd))
    | None =>
        a.(Agent.RegisteredAt) = now ∧ a.(Agent.Status) ≠ "" ∧ a.(Agent.UpdatePolicy) ≠ ""
    end ∧
    ∀ id, id ≠ agent.(Agent.ID) → GetAgent id s' = GetAgent id s.
Proof.
  unfold UpsertAgent, GetAgent. destruct (agents s !! agent.(Agent.ID)) as [old|] eqn:E; simpl;
    rewrite lookup_insert_eq; eexists; (split; [done|]); simpl; split_and!; try done;
    try (by apply or_string_nonempty);
    try (intros id Hne; by rewrite lookup_insert_ne);
    intros ->; done.
Qed.

(** The kinds of write these methods queue. *)
Definition queued_kinds : list (WriteOpType * string * shape) :=
  [(WriteOpInsert, "agents", SPtr TAgent);
   (WriteOpUpdate, "agents", SPtr TAgent);
   (WriteOpDelete, "agents", SString);
   (WriteOpInsert, "agent_binaries", SPtr TAgentBinary);
   (WriteOpUpdate, "agent_binaries", SPtr TAgentBinary);
   (WriteOpDelete, "agent_binaries", SString);
   (WriteOpInsert, "agent_update_history", SPtr TAgentUpdateHistory);
   (WriteOpUpdate, "agent_update_history", SPtr TAgentUpdateHistory)].

Lemma agents_run_queued `{MapRange} c s ch op :
  (ch, op) ∈ (run c s).2 →
  ch = agentsWrites ∧ (op.(WriteOp.Type_), op.(WriteOp.Table), shape_of op.(WriteOp.Data_)) ∈ queued_kinds.
Proof.
  assert (∀ now typ tbl data, (typ, tbl, shape_of data) ∈ queued_kinds →
            (ch, op) ∈ queueWrite agentsWrites now typ tbl data →
            ch = agentsWrites ∧
            (op.(WriteOp.Type_), op.(WriteOp.Table), shape_of op.(WriteOp.Data_)) ∈ queued_kinds) as Hone.
  { intros now typ tbl data Hk Hin. apply list_elem_of_singleton in Hin. by injection Hin as -> ->. }
  destruct c; simpl;
    unfold UpsertAgent, DeleteAgent, UpdateAgentVersion, UpdateAgentUpdateError, UpdateAgentUpdatePolicy,
      modify_agent, CreateAgentBinary, SetCurrentAgentBinary, DeleteAgentBinary, UpdateAgentUpdateHistory;
    try match goal with |- context [match ?e with _ => _ end] => destruct e end;
    simpl; intros Hin; try (by apply not_elem_of_nil in Hin);
    try (eapply Hone; [|exact Hin]; unfold queued_kinds; repeat first [left|right]).
  apply elem_of_app in Hin as [Hin|Hin];
    [apply list_elem_of_bind in Hin as (kv & Hin & _)|];
    (eapply Hone; [|exact Hin]; unfold queued_kinds; repeat first [left|right]).
Qed.

(** Every write the agent methods queue goes to the agents channel and can be
    carried out, except the deletion of an agent binary, whose payload is a string
    where the executor takes an integer. *)
Theorem agent_writes `{MapRange} c s ch op :
  (ch, op) ∈ (run c s).2 →
  ch = agentsWrites ∧
  accepted op = negb (bool_decide (op.(WriteOp.Type_) = WriteOpDelete ∧ op.(WriteOp.Table) = "agent_binaries")).
Proof.
  intros Hin. destruct (agents_run_queued c s ch op Hin) as [-> Hk]. split; [done|].
  destruct op as [typ tbl data now]; simpl in *. unfold queued_kinds in Hk.
  repeat (apply elem_of_cons in Hk as [[= -> -> Hs]|Hk]; [destruct data; try done; simpl in Hs;
    try injection Hs as ->; vm_compute; reflexivity|]).
  by apply not_elem_of_nil in Hk.
Qed.

Lemma agent_writes_witness :
  accepted (NewWriteOp 9 WriteOpDelete "agent_binaries" (DString "b1")) = false.
Proof.
  exact (proj2 (@agent_writes range_in_key_order (CDeleteAgentBinary "b1" 9) demo agentsWrites
           (NewWriteOp 9 WriteOpDelete "agent_binaries" (DString "b1")) ltac:(vm_compute; left))).
Defined.

End Agents.
