(* ===== verification/MemOps.v ===== *)
(** The audit log, the settings ([src/internal/storage/memory_audit.go]), blocked
    addresses and rate-limit counters ([memory_ratelimit.go]) of the memory
    store. *)

From S2P Require Import StoreBase.

#[local] Open Scope string_scope.
#[local] Open Scope list_scope.
#[local] Open Scope Z_scope.

Module Ops.

Record State := mkState {
  auditLogs : list AuditEntry;
  settings : gmap string Setting;
  blockedIPs : gmap string BlockedIP;
  rateLimits : gmap string RateLimitRecord
}.

Definition empty : State := mkState [] ∅ ∅ ∅.

Abbreviation Out := (Outcome State).

(** [settingKey] and [rateLimitKey] of [memory.go]. *)
Definition settingKey (category key : string) : string := category +:+ ":" +:+ key.
Definition rateLimitKey (key bucket : string) : string := key +:+ ":" +:+ bucket.

(** * Audit *)

Definition LogAudit (entry : AuditEntry) (now : time) (xid : string) (s : State) : Out AuditEntry :=
  let stored := {| entry with AuditEntry.ID := or_string entry.(AuditEntry.ID) xid;
                   AuditEntry.Timestamp := or_now entry.(AuditEntry.Timestamp) now |} in
  mkOut {| s with auditLogs := auditLogs s ++ [stored] |}
    (queueWrite auditWrites now WriteOpInsert "audit_logs" (DPtr TAuditEntry stored.(AuditEntry.ID)))
    (Ok stored).

(** [snapshot] is the JSON text of the resource, or [None] when there is no
    resource or it cannot be marshalled. *)
Definition LogAuditWithSnapshot (entry : AuditEntry) (snapshot : option string) (now : time)
    (xid : string) (s : State) : Out AuditEntry :=
  let entry := match snapshot with
               | Some data => {| entry with AuditEntry.ResourceData := data |}
               | None => entry
               end in
  LogAudit entry now xid s.

Definition ListAuditLogs (limit offset : Z) (s : State) : result (list AuditEntry) :=
  paginate (reverse (auditLogs s)) limit offset.

Definition ListAuditLogsSince (since : time) (s : State) : result (list AuditEntry) :=
  Ok (exchange_sort (oldest AuditEntry.Timestamp)
        (filter (λ e, After e.(AuditEntry.Timestamp) since || Equal e.(AuditEntry.Timestamp) since = true)
                (auditLogs s))).

(** * Settings *)

Definition GetSetting (category key : string) (s : State) : result Setting :=
  match settings s !! settingKey category key with None => Err ErrNotFound | Some x => Ok x end.

Definition SetSetting (category key value valueType : string) (encrypted : bool) (now : time)
    (xid : string) (s : State) : Out unit :=
  let k := settingKey category key in
  match settings s !! k with
  | Some existing =>
      let existing := {| existing with Setting.Value := value; Setting.ValueType := valueType;
                         Setting.Encrypted := encrypted; Setting.UpdatedAt := now |} in
      mkOut {| s with settings := <[k := existing]> (settings s) |}
        (queueWrite coreWrites now WriteOpUpdate "settings" (DPtr TSetting existing.(Setting.ID)))
        (Ok tt)
  | None =>
      let setting := Setting.mk xid category key value valueType encrypted "" now now in
      mkOut {| s with settings := <[k := setting]> (settings s) |}
        (queueWrite coreWrites now WriteOpInsert "settings" (DPtr TSetting xid))
        (Ok tt)
  end.

Definition InitSetting (id category key value valueType : string) (encrypted : bool) (now : time)
    (s : State) : Out unit :=
  let k := settingKey category key in
  match settings s !! k with
  | Some _ => mkOut s [] (Ok tt)
  | None =>
      let setting := Setting.mk id category key value valueType encrypted "" now now in
      mkOut {| s with settings := <[k := setting]> (settings s) |}
        (queueWrite coreWrites now WriteOpInsert "settings" (DPtr TSetting id))
        (Ok tt)
  end.

Definition ListSettingsByCategory `{MapRange} (category : string) (s : State) : result (list Setting) :=
  Ok (filter (λ x, x.(Setting.Category) = category) (range_values (settings s))).

Definition ListAllSettings `{MapRange} (s : State) : result (list Setting) := Ok (range_values (settings s)).

Definition DeleteSetting (category key : string) (now : time) (s : State) : Out unit :=
  let k := settingKey category key in
  match settings s !! k with
  | None => fail s ErrNotFound
  | Some _ =>
      mkOut {| s with settings := delete k (settings s) |}
        (queueWrite coreWrites now WriteOpDelete "settings" (DString k))
        (Ok tt)
  end.

(** [HasSettings] of [memory_misc.go]. *)
Definition HasSettings (s : State) : result bool := Ok (0 <? map_len (settings s)).

(** * Blocked addresses *)

Definition BlockIP (block : BlockedIP) (now : time) (xid : string) (s : State) : Out BlockedIP :=
  match blockedIPs s !! block.(BlockedIP.IPAddress) with
  | Some _ => fail s ErrDuplicate
  | None =>
      let stored := {| block with BlockedIP.ID := or_string block.(BlockedIP.ID) xid;
                       BlockedIP.BlockedAt := or_now block.(BlockedIP.BlockedAt) now |} in
      mkOut {| s with blockedIPs := <[block.(BlockedIP.IPAddress) := stored]> (blockedIPs s) |}
        (queueWrite ratelimitWrites now WriteOpInsert "blocked_ips" (DPtr TBlockedIP stored.(BlockedIP.ID)))
        (Ok stored)
  end.

Definition UnblockIP (ip : string) (now : time) (s : State) : Out unit :=
  match blockedIPs s !! ip with
  | None => fail s ErrNotFound
  | Some _ =>
      mkOut {| s with blockedIPs := delete ip (blockedIPs s) |}
        (queueWrite ratelimitWrites now WriteOpDelete "blocked_ips" (DString ip))
        (Ok tt)
  end.

Definition IsIPBlocked (ip : string) (now : time) (s : State) : result bool :=
  match blockedIPs s !! ip with
  | None => Ok false
  | Some b =>
      if negb (IsZero b.(BlockedIP.ExpiresAt)) && After now b.(BlockedIP.ExpiresAt) then Ok false
      else Ok true
  end.

Definition GetBlockedIP (ip : string) (s : State) : result BlockedIP :=
  match blockedIPs s !! ip with None => Err ErrNotFound | Some b => Ok b end.

Definition ListBlockedIPs `{MapRange} (limit offset : Z) (s : State) : result (list BlockedIP * Z) :=
  let all := exchange_sort (newest BlockedIP.BlockedAt) (range_values (blockedIPs s)) in
  rbind (paginate all limit offset) (λ p, Ok (p, len all)).

(** * Rate-limit counters *)

Definition RecordRateLimitRequest (key bucket : string) (windowStart windowEnd : time) (now : time)
    (xid : string) (s : State) : Out unit :=
  let k := rateLimitKey key bucket in
  let fresh_window :=
    let record := RateLimitRecord.mk xid key bucket 1 windowStart windowEnd in
    mkOut {| s with rateLimits := <[k := record]> (rateLimits s) |}
      (queueWrite ratelimitWrites now WriteOpInsert "rate_limits" (DPtr TRateLimitRecord xid))
      (Ok tt) in
  match rateLimits s !! k with
  | Some existing =>
      if Equal existing.(RateLimitRecord.WindowStart) windowStart
      then
        let existing := {| existing with
          RateLimitRecord.Count := wrap64 (existing.(RateLimitRecord.Count) + 1) |} in
        mkOut {| s with rateLimits := <[k := existing]> (rateLimits s) |}
          (queueWrite ratelimitWrites now WriteOpUpdate "rate_limits"
             (DPtr TRateLimitRecord existing.(RateLimitRecord.ID)))
          (Ok tt)
      else fresh_window
  | None => fresh_window
  end.

Definition GetRateLimitCount (key bucket : string) (since : time) (s : State) : result Z :=
  match rateLimits s !! rateLimitKey key bucket with
  | None => Ok 0
  | Some r => if Before r.(RateLimitRecord.WindowEnd) since then Ok 0 else Ok r.(RateLimitRecord.Count)
  end.

(** [n] requests in one window. *)
Fixpoint record_n (n : nat) (key bucket : string) (ws we now : time) (xid : string) (s : State) : State :=
  match n with
  | O => s
  | S n' => record_n n' key bucket ws we now xid (st (RecordRateLimitRequest key bucket ws we now xid s))
  end.

(** * Lemmas *)

Lemma settingKey_inj c k c' k' :
  free_of colon c = true → free_of colon c' = true → settingKey c k = settingKey c' k' → c = c' ∧ k = k'.
Proof. apply join_inj. Qed.

(** A count in progress goes up by one per request. *)
Lemma record_n_counts n key bucket ws we now xid s r :
  rateLimits s !! rateLimitKey key bucket = Some r →
  r.(RateLimitRecord.WindowStart) = ws → 0 ≤ r.(RateLimitRecord.Count) →
  r.(RateLimitRecord.Count) + Z.of_nat n ≤ int64_max →
  rateLimits (record_n n key bucket ws we now xid s) !! rateLimitKey key bucket =
  Some {| r with RateLimitRecord.Count := r.(RateLimitRecord.Count) + Z.of_nat n |}.
Proof.
  revert s r. induction n as [|n IH]; intros s r Hr Hw H0 Hn; simpl.
  { rewrite Hr, Z.add_0_r. by destruct r. }
  unfold RecordRateLimitRequest at 1. rewrite Hr.
  assert (Equal r.(RateLimitRecord.WindowStart) ws = true) as -> by (unfold Equal; lia). simpl.
  rewrite (wrap64_id (_ + 1)) by (unfold in_int64, int64_min, int64_max in *; lia).
  set (r' := {| r with RateLimitRecord.Count := r.(RateLimitRecord.Count) + 1 |}).
  rewrite (IH _ r'); [|simpl; by rewrite lookup_insert_eq|done|simpl; lia..].
  f_equal. unfold r'. simpl. f_equal. lia.
Qed.

(** * Properties *)

(** The audit log is append-only and read back completely: an entry logged is
    the first of the newest page, and the pages of a positive size, read one after
    the other, give every entry exactly once in reverse order of logging. *)
Theorem audit_log_complete entry now xid size n s :
  0 < size → len (auditLogs s) ≤ Z.of_nat n * size → in_int64 ((Z.of_nat n + 1) * size) →
  (∃ stored, ret (LogAudit entry now xid s) = Ok stored ∧
     ListAuditLogs 1 0 (st (LogAudit entry now xid s)) = Ok [stored]) ∧
  ∃ pages, Forall2 (λ k page, ListAuditLogs size (Z.of_nat k * size) s = Ok page) (seq 0 n) pages ∧
     concat pages = reverse (auditLogs s).
Proof.
  intros Hs Hn Hb. unfold in_int64, int64_min, int64_max in Hb. split.
  - eexists. split; [done|]. unfold ListAuditLogs. simpl.
    rewrite paginate_spec by done. by rewrite reverse_snoc.
  - exists ((λ k, take (Z.to_nat size) (drop (k * Z.to_nat size) (reverse (auditLogs s)))) <$> seq 0 n).
    split.
    + apply Forall2_fmap_r, Forall_Forall2_diag, Forall_forall. intros k Hk%elem_of_seq.
      unfold ListAuditLogs. rewrite paginate_spec; [|lia|lia|unfold in_int64, int64_min, int64_max; nia].
      do 3 f_equal. nia.
    + apply pages_cover; [lia|]. rewrite length_reverse. unfold len in Hn. nia.
Qed.

Definition demo : State :=
  st (LogAudit (AuditEntry.mk "" 0 "api" "u" "login" "" "" "" "" "ip" "ok") 5 "e2"
        (st (LogAudit (AuditEntry.mk "" 0 "api" "u" "login" "" "" "" "" "ip" "ok") 4 "e1" empty))).

Lemma audit_log_complete_witness :
  ∃ pages, Forall2 (λ k page, ListAuditLogs 1 (Z.of_nat k * 1) demo = Ok page) (seq 0 2) pages ∧
     concat pages = reverse (auditLogs demo).
Proof.
  exact (proj2 (audit_log_complete (AuditEntry.mk "" 0 "" "" "" "" "" "" "" "" "") 6 "e3" 1 2 demo
    ltac:(lia) ltac:(vm_compute; discriminate) ltac:(vm_compute; split; discriminate))).
Defined.

(** Counting requests is exact: after [n] requests for a key and bucket in one
    window that the store has no record of yet, the count read while the window is
    current is [n], and it is 0 for a reader interested only in what is after the
    window. *)
Theorem rate_limit_exact n key bucket ws we now xid s since :
  (0 < n)%nat → Z.of_nat n ≤ int64_max →
  (∀ r, rateLimits s !! rateLimitKey key bucket = Some r → r.(RateLimitRecord.WindowStart) ≠ ws) →
  GetRateLimitCount key bucket since (record_n n key bucket ws we now xid s) =
  Ok (if since <=? we then Z.of_nat n else 0).
Proof.
  intros Hn Hmax Hfresh. destruct n as [|n]; [lia|]. simpl.
  set (s1 := st (RecordRateLimitRequest key bucket ws we now xid s)).
  assert (rateLimits s1 !! rateLimitKey key bucket =
          Some (RateLimitRecord.mk xid key bucket 1 ws we)) as H1.
  { subst s1. unfold RecordRateLimitRequest.
    destruct (rateLimits s !! rateLimitKey key bucket) as [r|] eqn:E; [|simpl; by rewrite lookup_insert_eq].
    unfold Equal. destruct (Z.eqb_spec r.(RateLimitRecord.WindowStart) ws) as [Heq|];
      [by destruct (Hfresh r eq_refl)|simpl; by rewrite lookup_insert_eq]. }
  unfold GetRateLimitCount. rewrite (record_n_counts n _ _ ws we now xid s1 _ H1); [|done|simpl; lia..].
  unfold Before. simpl. destruct (Z.ltb_spec we since), (Z.leb_spec since we); try lia; f_equal; lia.
Qed.

Lemma rate_limit_exact_witness :
  GetRateLimitCount "1.2.3.4" "api" 60 (record_n 3 "1.2.3.4" "api" 0 60 10 "r" empty) = Ok 3.
Proof.
  exact (rate_limit_exact 3 "1.2.3.4" "api" 0 60 10 "r" empty 60 ltac:(lia)
    ltac:(vm_compute; discriminate) ltac:(intros r Hr; discriminate Hr)).
Defined.

(** Once a block has expired its address is not blocked, but it cannot be
    blocked again either until the expired record is cleaned up or removed:
    [BlockIP] refuses it as a duplicate and the address stays unblocked. *)
Theorem expired_block_refuses_reblock ip b block now xid s :
  blockedIPs s !! ip = Some b → b.(BlockedIP.ExpiresAt) ≠ 0 → b.(BlockedIP.ExpiresAt) < now →
  block.(BlockedIP.IPAddress) = ip →
  IsIPBlocked ip now s = Ok false ∧
  ret (BlockIP block now xid s) = Err ErrDuplicate ∧
  IsIPBlocked ip now (st (BlockIP block now xid s)) = Ok false.
Proof.
  intros Hb Hz He Hip. unfold BlockIP, IsIPBlocked, IsZero, After. rewrite Hip, Hb. simpl. rewrite Hb.
  destruct (Z.eqb_spec b.(BlockedIP.ExpiresAt) 0); [done|].
  by destruct (Z.ltb_spec b.(BlockedIP.ExpiresAt) now); [|lia].
Qed.

Lemma expired_block_witness :
  let block := BlockedIP.mk "" "1.2.3.4" "abuse" 0 100 "admin" in
  let s := st (BlockIP block 1 "b1" empty) in
  IsIPBlocked "1.2.3.4" 50 s = Ok true ∧ ret (BlockIP block 200 "b2" s) = Err ErrDuplicate.
Proof.
  split; [reflexivity|].
  exact (proj1 (proj2 (expired_block_refuses_reblock "1.2.3.4"
    (BlockedIP.mk "b1" "1.2.3.4" "abuse" 1 100 "admin") (BlockedIP.mk "" "1.2.3.4" "abuse" 0 100 "admin")
    200 "b2" (st (BlockIP (BlockedIP.mk "" "1.2.3.4" "abuse" 0 100 "admin") 1 "b1" empty))
    ltac:(vm_compute; reflexivity) ltac:(vm_compute; discriminate) ltac:(vm_compute; reflexivity) eq_refl))).
Defined.

(** Seeding a setting never overwrites one that exists, so seeding any number
    of settings at start-up keeps every value a user has set; a setting that was
    set reads back as set, and setting it leaves every other setting alone as
    long as categories contain no colon. *)
Theorem settings_seed_and_set id category key value valueType encrypted now xid s :
  free_of colon category = true →
  let seeded := st (InitSetting id category key value valueType encrypted now s) in
  let set := st (SetSetting category key value valueType encrypted now xid s) in
  (∀ c k x, GetSetting c k s = Ok x → GetSetting c k seeded = Ok x) ∧
  (∃ x, GetSetting category key set = Ok x ∧ x.(Setting.Value) = value ∧
        x.(Setting.ValueType) = valueType ∧ x.(Setting.Encrypted) = encrypted) ∧
  (∀ c k, free_of colon c = true → (c, k) ≠ (category, key) → GetSetting c k set = GetSetting c k s).
Proof.
  intros Hfree. cbv zeta. split_and!.
  - intros c k x. unfold InitSetting, GetSetting.
    destruct (settings s !! settingKey category key) as [y|] eqn:E; [done|]. simpl.
    destruct (decide (settingKey category key = settingKey c k)) as [Heq|Hne].
    + by rewrite <- Heq, E.
    + by rewrite lookup_insert_ne.
  - unfold SetSetting, GetSetting. destruct (settings s !! settingKey category key); simpl;
      rewrite lookup_insert_eq; eauto.
  - intros c k Hc Hne. unfold SetSetting, GetSetting.
    assert (settingKey category key ≠ settingKey c k) as Hk.
    { intros Heq. apply settingKey_inj in Heq as [-> ->]; done. }
    by destruct (settings s !! settingKey category key); simpl; rewrite lookup_insert_ne.
Qed.

Lemma settings_seed_witness :
  let s := st (SetSetting "ui" "theme" "dark" "string" false 1 "x1" empty) in
  GetSetting "ui" "theme" (st (InitSetting "x2" "ui" "theme" "light" "string" false 2 s)) =
  Ok (Setting.mk "x1" "ui" "theme" "dark" "string" false "" 1 1).
Proof.
  exact (proj1 (settings_seed_and_set "x2" "ui" "theme" "light" "string" false 2 "x3"
    (st (SetSetting "ui" "theme" "dark" "string" false 1 "x1" empty)) eq_refl) "ui" "theme" _ eq_refl).
Defined.

End Ops.
