(* ===== verification/MemMisc.v ===== *)
(** SSH host keys, jump servers, provisioning jobs with their logs, and health
    check configurations in the memory store
    ([src/internal/storage/memory_misc.go]). *)

From S2P Require Import StoreBase.

#[local] Open Scope string_scope.
#[local] Open Scope list_scope.
#[local] Open Scope Z_scope.

Module Misc.

Record State := mkState {
  sshHostKeys : gmap string SSHHostKey;
  jumpServers : gmap string SSHJumpServer;
  provisionJobs : gmap string ProvisionJob;
  provisionLogs : gmap string (list ProvisionLog);
  healthCheckConfigs : gmap string HealthCheckConfig
}.

Definition empty : State := mkState ∅ ∅ ∅ ∅ ∅.

Abbreviation Out := (Outcome State).

(** * SSH host keys *)

Definition on_host (hostname : string) (port : Z) (k : SSHHostKey) : bool :=
  bool_decide (k.(SSHHostKey.Hostname) = hostname) && (k.(SSHHostKey.Port) =? port).

Definition is_host_key (hostname : string) (port : Z) (keyType : string) (k : SSHHostKey) : bool :=
  on_host hostname port k && bool_decide (k.(SSHHostKey.KeyType) = keyType).

Definition CreateSSHHostKey `{MapRange} (key : SSHHostKey) (now : time) (xid : string) (s : State)
    : Out SSHHostKey :=
  match range_find (is_host_key key.(SSHHostKey.Hostname) key.(SSHHostKey.Port) key.(SSHHostKey.KeyType))
          (sshHostKeys s) with
  | Some _ => fail s ErrDuplicate
  | None =>
      let stored := {| key with SSHHostKey.ID := or_string key.(SSHHostKey.ID) xid;
                       SSHHostKey.CreatedAt := now; SSHHostKey.UpdatedAt := now |} in
      mkOut {| s with sshHostKeys := <[stored.(SSHHostKey.ID) := stored]> (sshHostKeys s) |}
        (queueWrite provisionWrites now WriteOpInsert "ssh_host_keys" (DPtr TSSHHostKey stored.(SSHHostKey.ID)))
        (Ok stored)
  end.

Definition GetSSHHostKey `{MapRange} (hostname : string) (port : Z) (keyType : string) (s : State)
    : result SSHHostKey :=
  match range_find (is_host_key hostname port keyType) (sshHostKeys s) with
  | Some (_, k) => Ok k
  | None => Err ErrNotFound
  end.

Definition GetSSHHostKeysByHost `{MapRange} (hostname : string) (port : Z) (s : State)
    : result (list SSHHostKey) :=
  Ok (filter (λ k, on_host hostname port k = true) (range_values (sshHostKeys s))).

Definition ListSSHHostKeys `{MapRange} (s : State) : result (list SSHHostKey) :=
  Ok (range_values (sshHostKeys s)).

Definition UpdateSSHHostKeyTrust (id : string) (trusted : bool) (verifiedBy : string) (now : time)
    (s : State) : Out unit :=
  match sshHostKeys s !! id with
  | None => fail s ErrNotFound
  | Some key =>
      let key := {| key with SSHHostKey.Trusted := trusted; SSHHostKey.VerifiedAt := Some now;
                    SSHHostKey.UpdatedAt := now; SSHHostKey.AddedBy := verifiedBy |} in
      mkOut {| s with sshHostKeys := <[id := key]> (sshHostKeys s) |}
        (queueWrite provisionWrites now WriteOpUpdate "ssh_host_keys" (DPtr TSSHHostKey id))
        (Ok tt)
  end.

Definition DeleteSSHHostKey (id : string) (now : time) (s : State) : Out unit :=
  match sshHostKeys s !! id with
  | None => fail s ErrNotFound
  | Some _ =>
      mkOut {| s with sshHostKeys := delete id (sshHostKeys s) |}
        (queueWrite provisionWrites now WriteOpDelete "ssh_host_keys" (DString id))
        (Ok tt)
  end.

Definition DeleteSSHHostKeysByHost `{MapRange} (hostname : string) (port : Z) (now : time) (s : State)
    : Out Z :=
  let gone := filter (λ kv, on_host hostname port kv.2 = true) (range (sshHostKeys s)) in
  mkOut {| s with sshHostKeys := range_delete (on_host hostname port) (sshHostKeys s) |}
    (gone ≫= λ kv, queueWrite provisionWrites now WriteOpDelete "ssh_host_keys" (DString kv.1))
    (Ok (len gone)).

(** * Jump servers *)

Definition server_named (name : string) (j : SSHJumpServer) : bool :=
  bool_decide (j.(SSHJumpServer.Name) = name).

Definition CreateJumpServer `{MapRange} (js : SSHJumpServer) (now : time) (xid : string) (s : State)
    : Out SSHJumpServer :=
  match range_find (server_named js.(SSHJumpServer.Name)) (jumpServers s) with
  | Some _ => fail s ErrDuplicate
  | None =>
      let stored := {| js with SSHJumpServer.ID := or_string js.(SSHJumpServer.ID) xid;
                       SSHJumpServer.CreatedAt := now |} in
      mkOut {| s with jumpServers := <[stored.(SSHJumpServer.ID) := stored]> (jumpServers s) |}
        (queueWrite provisionWrites now WriteOpInsert "ssh_jump_servers"
           (DPtr TSSHJumpServer stored.(SSHJumpServer.ID)))
        (Ok stored)
  end.

Definition GetJumpServer (id : string) (s : State) : result SSHJumpServer :=
  match jumpServers s !! id with None => Err ErrNotFound | Some j => Ok j end.

Definition GetJumpServerByName `{MapRange} (name : string) (s : State) : result SSHJumpServer :=
  match range_find (server_named name) (jumpServers s) with
  | Some (_, j) => Ok j
  | None => Err ErrNotFound
  end.

Definition ListJumpServers `{MapRange} (s : State) : result (list SSHJumpServer) :=
  Ok (range_values (jumpServers s)).

Definition UpdateJumpServer (js : SSHJumpServer) (now : time) (s : State) : Out unit :=
  match jumpServers s !! js.(SSHJumpServer.ID) with
  | None => fail s ErrNotFound
  | Some existing =>
      let existing := {| existing with SSHJumpServer.Name := js.(SSHJumpServer.Name);
                         SSHJumpServer.Host := js.(SSHJumpServer.Host);
                         SSHJumpServer.Port := js.(SSHJumpServer.Port);
                         SSHJumpServer.Username := js.(SSHJumpServer.Username);
                         SSHJumpServer.SSHKeyID := js.(SSHJumpServer.SSHKeyID) |} in
      mkOut {| s with jumpServers := <[js.(SSHJumpServer.ID) := existing]> (jumpServers s) |}
        (queueWrite provisionWrites now WriteOpUpdate "ssh_jump_servers"
           (DPtr TSSHJumpServer js.(SSHJumpServer.ID)))
        (Ok tt)
  end.

Definition DeleteJumpServer (id : string) (now : time) (s : State) : Out unit :=
  match jumpServers s !! id with
  | None => fail s ErrNotFound
  | Some _ =>
      mkOut {| s with jumpServers := delete id (jumpServers s) |}
        (queueWrite provisionWrites now WriteOpDelete "ssh_jump_servers" (DString id))
        (Ok tt)
  end.

(** * Provisioning jobs *)

Definition CreateProvisionJob (job : ProvisionJob) (now : time) (s : State) : Out ProvisionJob :=
  match provisionJobs s !! job.(ProvisionJob.ID) with
  | Some _ => fail s ErrDuplicate
  | None =>
      let stored := {| job with ProvisionJob.StartedAt := or_now job.(ProvisionJob.StartedAt) now;
                       ProvisionJob.Status := or_string job.(ProvisionJob.Status) "pending" |} in
      mkOut {| s with provisionJobs := <[job.(ProvisionJob.ID) := stored]> (provisionJobs s) |}
        (queueWrite provisionWrites now WriteOpInsert "provision_jobs" (DPtr TProvisionJob job.(ProvisionJob.ID)))
        (Ok stored)
  end.

Definition GetProvisionJob (id : string) (s : State) : result ProvisionJob :=
  match provisionJobs s !! id with None => Err ErrNotFound | Some j => Ok j end.

Definition UpdateProvisionJobStatus (id status stage errorMessage : string) (progress : Z) (now : time)
    (s : State) : Out unit :=
  match provisionJobs s !! id with
  | None => fail s ErrNotFound
  | Some job =>
      let job := {| job with ProvisionJob.Status := status; ProvisionJob.Stage := stage;
                    ProvisionJob.ErrorMessage := errorMessage; ProvisionJob.Progress := progress;
                    ProvisionJob.CompletedAt :=
                      if ProvisionStatus_IsTerminal status then Some now
                      else job.(ProvisionJob.CompletedAt) |} in
      mkOut {| s with provisionJobs := <[id := job]> (provisionJobs s) |}
        (queueWrite provisionWrites now WriteOpUpdate "provision_jobs" (DPtr TProvisionJob id))
        (Ok tt)
  end.

Definition ListPendingProvisionJobs `{MapRange} (s : State) : result (list ProvisionJob) :=
  Ok (filter (λ j, j.(ProvisionJob.Status) = "pending" ∨ j.(ProvisionJob.Status) = "in_progress")
             (range_values (provisionJobs s))).

Definition ListProvisionJobsByHost `{MapRange} (host : string) (limit offset : Z) (s : State)
    : result (list ProvisionJob * Z) :=
  let all := exchange_sort (newest ProvisionJob.StartedAt)
               (filter (λ j, j.(ProvisionJob.TargetHost) = host) (range_values (provisionJobs s))) in
  rbind (paginate all limit offset) (λ p, Ok (p, len all)).

(** Provisioning logs are kept in memory only. *)
Definition SaveProvisionLog (jobID level message : string) (now : time) (xid : string) (s : State)
    : Out unit :=
  let log := ProvisionLog.mk xid jobID now level message in
  mkOut {| s with provisionLogs := <[jobID := entry (provisionLogs s) jobID ++ [log]]> (provisionLogs s) |}
    [] (Ok tt).

Definition ListProvisionLogs (jobID : string) (s : State) : result (list ProvisionLog) :=
  Ok (entry (provisionLogs s) jobID).

Definition ListProvisionLogsAfter (jobID afterID : string) (s : State) : result (list ProvisionLog) :=
  Ok (filter (λ l, String.ltb afterID l.(ProvisionLog.ID) = true) (entry (provisionLogs s) jobID)).

(** * Health check configurations *)

Definition CreateHealthCheckConfig (config : HealthCheckConfig) (now : time) (xid : string) (s : State)
    : Out HealthCheckConfig :=
  let stored := {| config with HealthCheckConfig.ID := or_string config.(HealthCheckConfig.ID) xid;
                   HealthCheckConfig.CreatedAt := now; HealthCheckConfig.UpdatedAt := now |} in
  mkOut {| s with healthCheckConfigs := <[stored.(HealthCheckConfig.ID) := stored]> (healthCheckConfigs s) |}
    (queueWrite coreWrites now WriteOpInsert "health_check_configs"
       (DPtr THealthCheckConfig stored.(HealthCheckConfig.ID)))
    (Ok stored).

Definition GetHealthCheckConfig (id : string) (s : State) : result HealthCheckConfig :=
  match healthCheckConfigs s !! id with None => Err ErrNotFound | Some c => Ok c end.

Definition GetGlobalHealthCheckConfig `{MapRange} (s : State) : result HealthCheckConfig :=
  match range_find HealthCheckConfig.IsGlobal (healthCheckConfigs s) with
  | Some (_, c) => Ok c
  | None => Err ErrNotFound
  end.

Definition GetHealthCheckConfigForProject `{MapRange} (projectID : string) (s : State)
    : result HealthCheckConfig :=
  match range_find (λ c, bool_decide (c.(HealthCheckConfig.ProjectID) = Some projectID))
          (healthCheckConfigs s) with
  | Some (_, c) => Ok c
  | None => Err ErrNotFound
  end.

Definition UpdateHealthCheckConfig (config : HealthCheckConfig) (now : time) (s : State) : Out unit :=
  match healthCheckConfigs s !! config.(HealthCheckConfig.ID) with
  | None => fail s ErrNotFound
  | Some existing =>
      let existing := {| existing with
        HealthCheckConfig.Name := config.(HealthCheckConfig.Name);
        HealthCheckConfig.URL := config.(HealthCheckConfig.URL);
        HealthCheckConfig.Method := config.(HealthCheckConfig.Method);
        HealthCheckConfig.ExpectedStatus := config.(HealthCheckConfig.ExpectedStatus);
        HealthCheckConfig.TimeoutSeconds := config.(HealthCheckConfig.TimeoutSeconds);
        HealthCheckConfig.Retries := config.(HealthCheckConfig.Retries);
        HealthCheckConfig.RetryDelaySeconds := config.(HealthCheckConfig.RetryDelaySeconds);
        HealthCheckConfig.Headers := config.(HealthCheckConfig.Headers);
        HealthCheckConfig.Body := config.(HealthCheckConfig.Body);
        HealthCheckConfig.BodyContains := config.(HealthCheckConfig.BodyContains);
        HealthCheckConfig.Enabled := config.(HealthCheckConfig.Enabled);
        HealthCheckConfig.UpdatedAt := now |} in
      mkOut {| s with healthCheckConfigs := <[config.(HealthCheckConfig.ID) := existing]> (healthCheckConfigs s) |}
        (queueWrite coreWrites now WriteOpUpdate "health_check_configs"
           (DPtr THealthCheckConfig config.(HealthCheckConfig.ID)))
        (Ok tt)
  end.

Definition ListHealthCheckConfigs `{MapRange} (s : State) : result (list HealthCheckConfig) :=
  Ok (range_values (healthCheckConfigs s)).

Definition DeleteHealthCheckConfig (id : string) (now : time) (s : State) : Out unit :=
  match healthCheckConfigs s !! id with
  | None => fail s ErrNotFound
  | Some _ =>
      mkOut {| s with healthCheckConfigs := delete id (healthCheckConfigs s) |}
        (queueWrite coreWrites now WriteOpDelete "health_check_configs" (DString id))
        (Ok tt)
  end.

End Misc.
