(* ===== verification/MemCleanup.v ===== *)
(** The maintenance methods of the memory store
    ([src/internal/storage/memory_cleanup.go]), which reach into the maps of all
    the components: each removes the entries that are old or expired (or marks
    the agents that have gone silent), queues one write per entry and returns how
    many there were. *)

From S2P Require Import StoreBase MemDeployments MemUsers MemProjects MemAgents MemOps MemMisc.

#[local] Open Scope string_scope.
#[local] Open Scope list_scope.
#[local] Open Scope Z_scope.

Module Cleanup.

(** The loop shared by most of them: delete the entries that pass the test, with
    a write and a count each.  The payload of the write is the pointer to the
    record. *)
Definition cleanup_map `{MapRange} {A} (p : A → bool) (ch : Chan) (table : string) (payload : A → Data)
    (now : time) (m : gmap string A) : gmap string A * list (Chan * WriteOp) * Z :=
  let gone := filter (λ x, p x = true) (range_values m) in
  (range_delete p m, gone ≫= (λ x, queueWrite ch now WriteOpDelete table (payload x)), len gone).

Definition CleanupOldDeployments `{MapRange} (cutoff now : time) (s : Deployments.State)
    : Outcome Deployments.State Z :=
  let '(m, w, n) := cleanup_map (λ d, Before d.(DeploymentRecord.StartedAt) cutoff) deploymentsWrites
                      "deployments" (λ d, DPtr TDeploymentRecord d.(DeploymentRecord.ID)) now
                      (Deployments.deployments s) in
  mkOut {| s with Deployments.deployments := m |} w (Ok n).

Definition old_log (cutoff : time) (l : DeploymentLog) : bool := Before l.(DeploymentLog.CreatedAt) cutoff.

(** Per deployment the old logs go; an entry left empty is removed. *)
Definition CleanupOldDeploymentLogs `{MapRange} (cutoff now : time) (s : Deployments.State)
    : Outcome Deployments.State Z :=
  let gone := range_values (Deployments.deploymentLogs s) ≫= filter (λ l, old_log cutoff l = true) in
  let kept := λ logs, filter (λ l, old_log cutoff l = false) logs in
  let m := foldl (λ m kv, if bool_decide (kept kv.2 = []) then delete kv.1 m else <[kv.1 := kept kv.2]> m)
             (Deployments.deploymentLogs s) (range (Deployments.deploymentLogs s)) in
  mkOut {| s with Deployments.deploymentLogs := m |}
    (gone ≫= λ l, queueWrite deploymentsWrites now WriteOpDelete "deployment_logs"
                    (DPtr TDeploymentLog l.(DeploymentLog.ID)))
    (Ok (len gone)).

Definition CleanupOldAuditLogs (cutoff now : time) (s : Ops.State) : Outcome Ops.State Z :=
  let old := λ e, Before e.(AuditEntry.Timestamp) cutoff in
  let gone := filter (λ e, old e = true) (Ops.auditLogs s) in
  mkOut {| s with Ops.auditLogs := filter (λ e, old e = false) (Ops.auditLogs s) |}
    (gone ≫= λ e, queueWrite auditWrites now WriteOpDelete "audit_logs" (DPtr TAuditEntry e.(AuditEntry.ID)))
    (Ok (len gone)).

Definition CleanupExpiredBlockedIPs `{MapRange} (now : time) (s : Ops.State) : Outcome Ops.State Z :=
  let '(m, w, n) := cleanup_map (λ b, negb (IsZero b.(BlockedIP.ExpiresAt)) && Before b.(BlockedIP.ExpiresAt) now)
                      ratelimitWrites "blocked_ips" (λ b, DPtr TBlockedIP b.(BlockedIP.ID)) now
                      (Ops.blockedIPs s) in
  mkOut {| s with Ops.blockedIPs := m |} w (Ok n).

Definition CleanupRateLimitRecords `{MapRange} (before now : time) (s : Ops.State) : Outcome Ops.State Z :=
  let '(m, w, n) := cleanup_map (λ r, Before r.(RateLimitRecord.WindowStart) before) ratelimitWrites
                      "rate_limits" (λ r, DPtr TRateLimitRecord r.(RateLimitRecord.ID)) now
                      (Ops.rateLimits s) in
  mkOut {| s with Ops.rateLimits := m |} w (Ok n).

Definition CleanupOldProvisionJobs `{MapRange} (before now : time) (s : Misc.State) : Outcome Misc.State Z :=
  let '(m, w, n) := cleanup_map (λ j, Before j.(ProvisionJob.StartedAt) before) provisionWrites
                      "provision_jobs" (λ j, DPtr TProvisionJob j.(ProvisionJob.ID)) now
                      (Misc.provisionJobs s) in
  mkOut {| s with Misc.provisionJobs := m |} w (Ok n).

Definition key_expired (now : time) (k : APIKey) : bool :=
  match k.(APIKey.ExpiresAt) with Some e => Before e now | None => false end.

(** One expired key: out of the hash index and out of its owner's list, an owner
    left without keys loses the entry. *)
Definition drop_expired (now : time) (s : Users.State) (hash : string) (l : Users.loc) : Users.State :=
  match Users.keyHeap s !! l with
  | Some key =>
      if key_expired now key then
        let user := key.(APIKey.UserID) in
        let kept := filter (λ l', (APIKey.KeyHash <$> Users.keyHeap s !! l') ≠ Some hash)
                           (entry (Users.apiKeysByUser s) user) in
        {| s with Users.apiKeys := delete hash (Users.apiKeys s);
           Users.apiKeysByUser :=
             match Users.apiKeysByUser s !! user with
             | Some _ => if bool_decide (kept = []) then delete user (Users.apiKeysByUser s)
                         else <[user := kept]> (Users.apiKeysByUser s)
             | None => Users.apiKeysByUser s
             end |}
      else s
  | None => s
  end.

Definition CleanupExpiredAPIKeys `{MapRange} (cutoff now : time) (s : Users.State) : Outcome Users.State Z :=
  let keys := range (Users.apiKeys s) in
  let gone := filter (λ k, key_expired cutoff k = true) (omap (λ hl, Users.keyHeap s !! hl.2) keys) in
  mkOut (foldl (λ s' hl, drop_expired cutoff s' hl.1 hl.2) s keys)
    (gone ≫= λ k, queueWrite coreWrites now WriteOpDelete "api_keys" (DPtr TAPIKey k.(APIKey.ID)))
    (Ok (len gone)).

Definition CleanupOrphanedWebhooks `{MapRange} (now : time) (s : Projects.State) : Outcome Projects.State Z :=
  let orphan w := negb (bool_decide (is_Some (Projects.projects s !! w.(ProjectWebhook.ProjectID)))) in
  let '(m, w, n) := cleanup_map orphan projectsWrites "webhooks"
                      (λ w, DPtr TProjectWebhook w.(ProjectWebhook.ID)) now (Projects.webhooks s) in
  mkOut {| s with Projects.webhooks := m |} w (Ok n).

Definition goes_stale (cutoff : time) (a : Agent) : bool :=
  negb (bool_decide (a.(Agent.Status) = "stale")) && Before a.(Agent.LastSeenAt) cutoff.

Definition MarkStaleAgents `{MapRange} (cutoff now : time) (s : Agents.State) : Outcome Agents.State Z :=
  let gone := filter (λ a, goes_stale cutoff a = true) (range_values (Agents.agents s)) in
  mkOut {| s with Agents.agents := range_update (goes_stale cutoff)
                                     (λ a, {| a with Agent.Status := "stale" |}) (Agents.agents s) |}
    (gone ≫= λ a, queueWrite agentsWrites now WriteOpUpdate "agents" (DPtr TAgent a.(Agent.ID)))
    (Ok (len gone)).

Definition Backup : result unit := Err ErrNotImplemented.

(** * Expired API keys *)

Lemma drop_expired_entry now s hash l k u :
  Users.wf s → Users.apiKeys s !! hash = Some l → Users.keyHeap s !! l = Some k →
  key_expired now k = true →
  entry (Users.apiKeysByUser (drop_expired now s hash l)) u =
  filter (λ l', l' ≠ l) (entry (Users.apiKeysByUser s) u).
Proof.
  intros Hw Hl Hk He. unfold drop_expired. rewrite Hk, He. cbv zeta.
  destruct (Users.wf_keys s Hw _ _ Hl) as (k' & Hk' & Hh & _ & Hin). assert (k' = k) as -> by congruence.
  set (kept := filter _ _).
  assert (kept = filter (λ l', l' ≠ l) (entry (Users.apiKeysByUser s) k.(APIKey.UserID))) as Hkept.
  { apply filter_ext_in. intros l' Hl'. destruct (Users.wf_owned s Hw _ _ Hl') as (k1 & Hk1 & _ & Ha).
    rewrite Hk1. simpl. split; [intros Hne ->; congruence|]. intros Hne [= Heq]. rewrite Heq in Ha. congruence. }
  simpl. destruct (Users.apiKeysByUser s !! k.(APIKey.UserID)) as [keys|] eqn:Ek.
  - destruct (decide (u = k.(APIKey.UserID))) as [->|Hne].
    + rewrite <- Hkept. case_bool_decide as Hnil; [by rewrite entry_delete_eq, Hnil|by rewrite entry_insert_eq].
    + assert (filter (λ l', l' ≠ l) (entry (Users.apiKeysByUser s) u) = entry (Users.apiKeysByUser s) u) as ->.
      { apply filter_all. intros l' Hl' ->. destruct (Users.wf_owned s Hw _ _ Hl') as (? & ? & ? & _). congruence. }
      case_bool_decide; [by rewrite entry_delete_ne|by rewrite entry_insert_ne].
  - unfold entry in Hin. rewrite Ek in Hin. by apply not_elem_of_nil in Hin.
Qed.

Lemma drop_expired_wf now s hash l k :
  Users.wf s → Users.apiKeys s !! hash = Some l → Users.keyHeap s !! l = Some k →
  Users.wf (drop_expired now s hash l).
Proof.
  intros Hw Hl Hk. destruct (key_expired now k) eqn:He; [|unfold drop_expired; by rewrite Hk, He].
  eapply (Users.wf_remove_key s _ hash l k); try done; [..|intros u; by eapply drop_expired_entry];
    unfold drop_expired; by rewrite Hk, He.
Qed.

Lemma drop_expired_keys now s hash l k :
  Users.keyHeap s !! l = Some k →
  Users.keyHeap (drop_expired now s hash l) = Users.keyHeap s ∧
  Users.apiKeys (drop_expired now s hash l) =
  if key_expired now k then delete hash (Users.apiKeys s) else Users.apiKeys s.
Proof. intros Hk. unfold drop_expired. rewrite Hk. by destruct (key_expired now k). Qed.

(** The whole loop, over the part of the index still to visit. *)
Lemma drop_all_expired now (L : list (string * Users.loc)) s :
  Users.wf s → NoDup L.*1 → (∀ h l, (h, l) ∈ L → Users.apiKeys s !! h = Some l) →
  let s' := foldl (λ s' hl, drop_expired now s' hl.1 hl.2) s L in
  Users.wf s' ∧ Users.keyHeap s' = Users.keyHeap s ∧
  ∀ h, Users.apiKeys s' !! h =
    match Users.apiKeys s !! h with
    | Some l => if decide (h ∈ L.*1) then
                  match Users.keyHeap s !! l with
                  | Some k => if key_expired now k then None else Some l
                  | None => Some l
                  end
                else Some l
    | None => None
    end.
Proof.
  revert s. induction L as [|[h l] L IH]; intros s Hw Hn Hin; simpl.
  { split_and!; [done..|]. intros h. by destruct (Users.apiKeys s !! h). }
  rewrite fmap_cons in Hn. apply NoDup_cons in Hn as [Hh Hn].
  pose proof (Hin h l ltac:(left)) as Hl.
  destruct (Users.wf_keys s Hw _ _ Hl) as (k & Hk & _).
  destruct (drop_expired_keys now s h l k Hk) as [Eh Ek].
  destruct (IH (drop_expired now s h l)) as (Hw' & Hheap & Hkeys).
  - by eapply drop_expired_wf.
  - done.
  - intros h' l' Hl'. rewrite Ek. assert (Users.apiKeys s !! h' = Some l') by (apply Hin; by right).
    destruct (key_expired now k); [|done]. rewrite lookup_delete_ne; [done|].
    intros ->. apply Hh. apply list_elem_of_fmap. by exists (h', l').
  - split; [done|]. split; [congruence|]. intros h'. rewrite Hkeys, Eh, Ek.
    destruct (decide (h' = h)) as [->|Hne].
    + rewrite Hl, Hk. destruct (key_expired now k).
      * rewrite lookup_delete_eq. case_decide as Hno; [done|]. exfalso. apply Hno. left.
      * rewrite Hl. by repeat case_decide.
    + assert ((if key_expired now k then delete h (Users.apiKeys s) else Users.apiKeys s) !! h' =
              Users.apiKeys s !! h') as ->
        by (destruct (key_expired now k); [by rewrite lookup_delete_ne|done]).
      destruct (Users.apiKeys s !! h') as [l'|]; [|done]. apply decide_ext. set_solver.
Qed.

(** * Properties *)

(** Removing the expired API keys keeps the two key indexes consistent, keeps
    every key that has not expired, and cannot be observed by looking keys up then
    or later: the lookup by hash answers as before. *)
Theorem cleanup_expired_keys `{MapRange} cutoff now s :
  Users.wf s →
  let s' := st (CleanupExpiredAPIKeys cutoff now s) in
  Users.wf s' ∧
  (∀ h l k, Users.apiKeys s !! h = Some l → Users.keyHeap s !! l = Some k →
     Users.apiKeys s' !! h = if key_expired cutoff k then None else Some l) ∧
  (∀ h t, cutoff ≤ t → Users.GetAPIKeyByHash h t s' = Users.GetAPIKeyByHash h t s).
Proof.
  intros Hw. destruct (drop_all_expired cutoff (range (Users.apiKeys s)) s Hw) as (Hw' & Hheap & Hkeys).
  { apply range_NoDup_keys. }
  { intros h l. by rewrite elem_of_range. }
  cbv zeta. cbn [CleanupExpiredAPIKeys st].
  assert (∀ h l k, Users.apiKeys s !! h = Some l → Users.keyHeap s !! l = Some k →
     Users.apiKeys (st (CleanupExpiredAPIKeys cutoff now s)) !! h =
     if key_expired cutoff k then None else Some l) as Hlook.
  { intros h l k Hl Hk. cbn [CleanupExpiredAPIKeys st]. rewrite Hkeys, Hl, Hk, decide_True; [done|].
    apply list_elem_of_fmap. exists (h, l). by rewrite elem_of_range. }
  split_and!; [done|done|]. intros h t Ht. unfold Users.GetAPIKeyByHash.
  destruct (Users.apiKeys s !! h) as [l|] eqn:El; [|by rewrite Hkeys, El].
  destruct (Users.wf_keys s Hw _ _ El) as (k & Hk & _).
  specialize (Hlook _ _ _ El Hk). cbn [CleanupExpiredAPIKeys st] in Hlook. rewrite Hlook.
  unfold Users.read_key, Users.unless_expired. rewrite Hk.
  unfold key_expired, Before, After. destruct (APIKey.ExpiresAt k) as [e|] eqn:Ee;
    [|by rewrite Hheap, Hk, Ee].
  destruct (Z.ltb_spec e cutoff); [by destruct (Z.ltb_spec e t); [|lia]|]. by rewrite Hheap, Hk, Ee.
Qed.

Lemma cleanup_expired_keys_witness :
  let R := range_in_key_order in
  Users.GetAPIKeyByHash "hash" 9 (st (CleanupExpiredAPIKeys 8 8 Users.demo)) =
  Users.GetAPIKeyByHash "hash" 9 Users.demo.
Proof.
  exact (proj2 (proj2 (@cleanup_expired_keys range_in_key_order 8 8 Users.demo
    (Users.users_reachable_wf Users.demo Users.users_demo_reachable))) "hash" 9 ltac:(lia)).
Defined.

(** The writes of one round of all the cleanups. *)
Definition cleanup_writes `{MapRange} (cutoff now : time) (u : Users.State) (d : Deployments.State)
    (o : Ops.State) (m : Misc.State) (p : Projects.State) : list (Chan * WriteOp) :=
  queued (Users.CleanupExpiredSessions cutoff now u) ++
  queued (CleanupOldDeployments cutoff now d) ++
  queued (CleanupOldDeploymentLogs cutoff now d) ++
  queued (CleanupOldAuditLogs cutoff now o) ++
  queued (CleanupExpiredBlockedIPs now o) ++
  queued (CleanupRateLimitRecords cutoff now o) ++
  queued (CleanupOldProvisionJobs cutoff now m) ++
  queued (CleanupExpiredAPIKeys cutoff now u) ++
  queued (CleanupOrphanedWebhooks now p).

Lemma elem_of_writes {A} (l : list A) ch now table (payload : A → Data) w :
  w ∈ (l ≫= λ x, queueWrite ch now WriteOpDelete table (payload x)) →
  ∃ x, w = (ch, NewWriteOp now WriteOpDelete table (payload x)).
Proof.
  rewrite list_elem_of_bind. intros (x & Hw & _). apply list_elem_of_singleton in Hw. eauto.
Qed.

(** No cleanup removes anything from the database.  Every write the cleanups
    queue carries the pointer to the removed record, which no executor of its
    table deletes by: it is either refused, taking its batch with it, or executes
    no statement.  So what is cleaned up in memory comes back when the store is
    loaded again. *)
Theorem cleanup_deletes_no_row `{MapRange} cutoff now u d o m p ch op :
  (ch, op) ∈ cleanup_writes cutoff now u d o m p →
  op.(WriteOp.Type_) = WriteOpDelete ∧
  (executeWriteOp op = Ok Nothing ∨ ∃ e, executeWriteOp op = Err e).
Proof.
  unfold cleanup_writes. rewrite !elem_of_app.
  unfold Users.CleanupExpiredSessions, CleanupOldDeployments, CleanupOldDeploymentLogs,
    CleanupOldAuditLogs, CleanupExpiredBlockedIPs, CleanupRateLimitRecords, CleanupOldProvisionJobs,
    CleanupExpiredAPIKeys, CleanupOrphanedWebhooks, cleanup_map; simpl.
  intros Hin. destruct Hin as [Hin|[Hin|[Hin|[Hin|[Hin|[Hin|[Hin|[Hin|Hin]]]]]]]];
    apply elem_of_writes in Hin as [x [= -> ->]]; (split; [done|]); vm_compute; eauto.
Qed.

Lemma cleanup_deletes_no_row_witness :
  let op := NewWriteOp 200 WriteOpDelete "sessions" (DPtr TSession "t1") in
  executeWriteOp op = Ok Nothing ∨ ∃ e, executeWriteOp op = Err e.
Proof.
  exact (proj2 (@cleanup_deletes_no_row range_in_key_order 200 200 Users.demo Deployments.empty Ops.empty
    Misc.empty Projects.empty coreWrites
    (NewWriteOp 200 WriteOpDelete "sessions" (DPtr TSession "t1")) ltac:(vm_compute; left))).
Defined.

(** Marking stale agents marks exactly the agents last seen before the cutoff
    that are not stale yet, counts them, leaves every other agent alone, keeps the
    agent invariant, and is idempotent: a second run marks none and queues
    nothing. *)
Theorem mark_stale_spec `{MapRange} cutoff now now' s :
  let o := MarkStaleAgents cutoff now s in
  (∀ id, Agents.agents (st o) !! id =
     (λ a, if goes_stale cutoff a then {| a with Agent.Status := "stale" |} else a)
       <$> Agents.agents s !! id) ∧
  ret o = Ok (map_len (filter (λ kv, goes_stale cutoff kv.2 = true) (Agents.agents s))) ∧
  (Agents.wf s → Agents.wf (st o)) ∧
  MarkStaleAgents cutoff now' (st o) = mkOut (st o) [] (Ok 0).
Proof.
  cbv zeta. unfold MarkStaleAgents. cbn [st ret].
  assert (∀ a, goes_stale cutoff (if goes_stale cutoff a then {| a with Agent.Status := "stale" |} else a) = false)
    as Hidem.
  { intros a. destruct (goes_stale cutoff a) eqn:E; [|done]. unfold goes_stale. simpl.
    done. }
  split_and!.
  - intros id. simpl. by rewrite range_update_fmap, lookup_fmap.
  - by rewrite count_range_values.
  - intros []. split; simpl; try done. intros id a. rewrite range_update_fmap, lookup_fmap, fmap_Some.
    intros (a0 & Ha & ->). destruct (goes_stale cutoff a0); simpl; eauto.
  - simpl. rewrite !range_update_fmap.
    assert (filter (λ a, goes_stale cutoff a = true)
              (range_values ((λ v, if goes_stale cutoff v then {| v with Agent.Status := "stale" |} else v)
                               <$> Agents.agents s)) = []) as ->.
    { apply elem_of_nil_inv. intros a. rewrite list_elem_of_filter, elem_of_range_values.
      intros [Ha [k Hk]]. rewrite lookup_fmap, fmap_Some in Hk. destruct Hk as (a0 & _ & ->).
      by rewrite Hidem in Ha. }
    simpl. f_equal. f_equal. rewrite <- map_fmap_compose. apply map_fmap_ext.
    intros id a _. simpl. by rewrite Hidem.
Qed.

End Cleanup.
