(* ===== verification/CmdValidator.v ===== *)
(** The command validator ([src/internal/security/cmdvalidator.go]), which decides
    which command strings the runners execute.

    A compiled regular expression of [AllowedPatterns] is the predicate its
    [MatchString] computes. *)

From stdpp Require Import pretty gmap.
From S2P Require Import Prelude GoStrings.

#[local] Open Scope string_scope.
#[local] Open Scope list_scope.
#[local] Open Scope Z_scope.

Record CommandValidator := mkCommandValidator {
  AllowedBinaries : gmap string bool;
  AllowedPatterns : list (string → bool);
  BlockedSubstrings : list string
}.

Definition one_byte (n : nat) : string := String (Ascii.ascii_of_nat n) EmptyString.

Definition defaultBlockedSubstrings : list string :=
  ["$("; "`"; "${"; "&&"; "||"; ";"; "|"; ">"; "<"; ">>"; "<<"; "&"; "eval "; "exec ";
   one_byte 10; one_byte 13; one_byte 0].

Definition defaultAllowedBinaries : gmap string bool :=
  list_to_map ((λ b, (b, true)) <$>
    ["git"; "/usr/bin/git"; "php"; "composer"; "/usr/bin/php"; "node"; "npm"; "npx"; "yarn"; "pnpm";
     "python"; "python3"; "pip"; "pip3"; "rsync"; "cp"; "mv"; "rm"; "mkdir"; "chmod"; "chown"; "ln";
     "tar"; "unzip"; "echo"; "cat"; "grep"; "head"; "tail"; "wc"; "date"; "sleep"; "test"; "true";
     "false"; "exit"; "pwd"; "sh"; "bash"; "systemctl"; "service"; "artisan"; "rake"; "bundle";
     "docker"; "docker-compose"; "timeout"]).

(** [NewCommandValidator] and [NewStrictCommandValidator]; the copies they make
    keep the package's tables apart from what is added later. *)
Definition NewCommandValidator : CommandValidator :=
  mkCommandValidator defaultAllowedBinaries [] defaultBlockedSubstrings.

Definition NewStrictCommandValidator : CommandValidator :=
  mkCommandValidator ∅ [] defaultBlockedSubstrings.

Definition AllowBinary (v : CommandValidator) (name : string) : CommandValidator :=
  mkCommandValidator (<[name := true]> (AllowedBinaries v)) (AllowedPatterns v) (BlockedSubstrings v).

Definition AllowPattern (v : CommandValidator) (pattern : string → bool) : CommandValidator :=
  mkCommandValidator (AllowedBinaries v) (AllowedPatterns v ++ [pattern]) (BlockedSubstrings v).

Definition BlockSubstring (v : CommandValidator) (s : string) : CommandValidator :=
  mkCommandValidator (AllowedBinaries v) (AllowedPatterns v) (BlockedSubstrings v ++ [s]).

(** ** The binary of a command *)

(** [for strings.Contains(cmd, "=") { ... }]: each turn drops a word, so the length
    of the command is enough fuel ([strip_env_done]). *)
Fixpoint strip_env (fuel : nat) (cmd : string) : string :=
  match fuel with
  | O => cmd
  | S fuel' =>
      if Contains cmd "=" then
        match cut space cmd with
        | (_, None) => cmd
        | (first, Some rest) =>
            if Contains first "=" then strip_env fuel' (TrimSpace rest) else cmd
        end
      else cmd
  end.

(** [if firstWord == "cd" { ... cmd = strings.TrimSpace(cmd[andIdx+2:]) }] *)
Definition skip_cd (cmd : string) : string :=
  match Index cmd " " with
  | Some (S _ as idx) =>
      if bool_decide (take_chars idx cmd = "cd") then
        match Index cmd "&&" with
        | Some (S _ as andIdx) => TrimSpace (drop_chars (andIdx + 2) cmd)
        | _ => cmd
        end
      else cmd
  | _ => cmd
  end.

Definition extractBinary (cmd : string) : string :=
  let cmd := skip_cd (TrimSpace cmd) in
  let cmd := strip_env (String.length cmd) cmd in
  default "" (head (Fields cmd)).

Definition slash : Ascii.ascii := Ascii.ascii_of_nat 47.

(** [path[strings.LastIndex(path, "/")+1:]] *)
Definition extractBaseName (path : string) : string := default path (last (split_on slash path)).

(** ** Validation *)

Inductive CommandError :=
| ContainsBlocked (pattern : string)
| EmptyCommand
| NoBinary
| NotAllowed (binary : string).

(** Every error wraps [ErrCommandBlocked]. *)
Definition CommandError_Error (e : CommandError) : string :=
  "command blocked by security policy: " +:+
  match e with
  | ContainsBlocked p => "contains blocked pattern " +:+ quote p
  | EmptyCommand => "empty command"
  | NoBinary => "could not extract binary name"
  | NotAllowed b => "binary " +:+ quote b +:+ " not in allowlist"
  end.

Definition allowed (v : CommandValidator) (binary : string) : bool :=
  default false (AllowedBinaries v !! binary).

Definition Validate (v : CommandValidator) (cmd : string) : option CommandError :=
  match find (Contains cmd) (BlockedSubstrings v) with
  | Some blocked => Some (ContainsBlocked blocked)
  | None =>
      let cmd := TrimSpace cmd in
      if bool_decide (cmd = "") then Some EmptyCommand
      else
        let binary := extractBinary cmd in
        if bool_decide (binary = "") then Some NoBinary
        else if allowed v binary then None
        else if allowed v (extractBaseName binary) then None
        else if existsb (λ pattern, pattern cmd) (AllowedPatterns v) then None
        else Some (NotAllowed binary)
  end.

Definition truncateForError (s : string) : string :=
  if (String.length s <=? 50)%nat then s else take_chars 47 s +:+ "...".

(** [ValidateHooks]: the index of the first refused hook, its text and the error. *)
Fixpoint ValidateHooks_from (v : CommandValidator) (i : nat) (hooks : list string)
    : option (nat * string * CommandError) :=
  match hooks with
  | [] => None
  | hook :: hooks' =>
      match Validate v hook with
      | Some e => Some (i, truncateForError hook, e)
      | None => ValidateHooks_from v (S i) hooks'
      end
  end.

Definition ValidateHooks (v : CommandValidator) (hooks : list string) : option (nat * string * CommandError) :=
  ValidateHooks_from v 0 hooks.

(** * Properties *)

(** Enough fuel: the loop has ended. *)
Lemma strip_env_done fuel cmd :
  (String.length cmd ≤ fuel)%nat →
  let r := strip_env fuel cmd in
  Contains r "=" = false ∨ (cut space r).2 = None ∨ Contains (cut space r).1 "=" = false.
Proof.
  revert cmd. induction fuel as [|fuel IH]; intros cmd Hlen.
  { destruct cmd; simpl in *; [by left|lia]. }
  cbv zeta. cbn [strip_env]. destruct (Contains cmd "=") eqn:Hc; [|by left].
  destruct (cut space cmd) as [first [rest|]] eqn:Hcut.
  - destruct (Contains first "=") eqn:Hf.
    + apply IH. pose proof (cut_length _ _ _ _ Hcut). pose proof (TrimSpace_length rest). lia.
    + right; right. by rewrite Hcut.
  - right; left. by rewrite Hcut.
Qed.

Lemma find_none_forall {A} (f : A → bool) l : find f l = None → Forall (λ x, f x = false) l.
Proof.
  induction l as [|x l IH]; simpl; [constructor|]. destruct (f x) eqn:Hx; [done|]. auto.
Qed.

(** A command with a blocked substring is refused. *)
Lemma Validate_blocked v cmd sub :
  sub ∈ BlockedSubstrings v → Contains cmd sub = true → is_Some (Validate v cmd).
Proof.
  intros Hin Hc. unfold Validate. destruct (find _ _) as [b|] eqn:Hf; [by eexists|].
  apply find_none_forall in Hf. rewrite Forall_forall in Hf. apply Hf in Hin. congruence.
Qed.

(** The characters that chain, substitute or redirect commands in a shell. *)
Definition shell_meta (c : Ascii.ascii) : bool :=
  let n := Ascii.nat_of_ascii c in
  existsb (Nat.eqb n) [96; 59; 124; 62; 60; 38; 10; 13; 0]%nat.

Lemma all_chars_none l s :
  Forall (λ c, Contains s (String c EmptyString) = false) l →
  all_chars (λ d, negb (existsb (Ascii.eqb d) l)) s = true.
Proof.
  induction l as [|c l IH]; intros Hl.
  { rewrite (all_chars_ext _ (λ _, true)) by done. clear Hl. by induction s. }
  apply Forall_cons in Hl as [Hc Hl].
  rewrite (all_chars_ext _ (λ d, negb (Ascii.eqb d c) && negb (existsb (Ascii.eqb d) l))).
  - by rewrite all_chars_and, Contains_char, Hc, IH.
  - intros d. simpl. by rewrite negb_orb.
Qed.

Lemma shell_meta_eqb c :
  shell_meta c = existsb (Ascii.eqb c) (Ascii.ascii_of_nat <$> [96; 59; 124; 62; 60; 38; 10; 13; 0]%nat).
Proof. destruct c as [[] [] [] [] [] [] [] []]; vm_compute; reflexivity. Qed.

(** What the validator lets through has a binary it knows. *)
Definition known_binary (v : CommandValidator) (cmd : string) : Prop :=
  let binary := extractBinary cmd in
  binary ≠ "" ∧
  (allowed v binary = true ∨ allowed v (extractBaseName binary) = true ∨
   ∃ pattern, pattern ∈ AllowedPatterns v ∧ pattern cmd = true).

Lemma Validate_known v cmd : Validate v cmd = None → known_binary v (TrimSpace cmd).
Proof.
  unfold Validate, known_binary. destruct (find _ _); [done|]. cbv zeta.
  case_bool_decide; [done|]. case_bool_decide as Hb; [done|].
  destruct (allowed v (extractBinary _)) eqn:H1; [auto|].
  destruct (allowed v (extractBaseName _)) eqn:H2; [auto|].
  destruct (existsb _ _) eqn:H3; [|done]. intros _. apply existsb_exists in H3 as (p & Hp & Hc).
  split; [done|]. right; right. exists p. by rewrite list_elem_of_In.
Qed.

(** A command the validator accepts is a single simple command of a known binary.
    With at least the default blocklist, it has no byte that chains, substitutes,
    redirects or backgrounds (backquote, [;], [|], [>], [<], [&], newline, carriage
    return, NUL), no [$(] and no [${]; and its first word (after variable
    assignments) or the base name of that word is in the allowlist, or the trimmed
    command matches an allowed pattern. *)
Theorem validate_sound (v : CommandValidator) (cmd : string)
    (Hblock : ∀ sub, sub ∈ defaultBlockedSubstrings → sub ∈ BlockedSubstrings v)
    (Hok : Validate v cmd = None) :
  all_chars (λ c, negb (shell_meta c)) cmd = true ∧
  Contains cmd "$(" = false ∧ Contains cmd "${" = false ∧
  known_binary v (TrimSpace cmd).
Proof.
  assert (∀ sub, sub ∈ defaultBlockedSubstrings → Contains cmd sub = false) as Hnot.
  { intros sub Hs. destruct (Contains cmd sub) eqn:Hc; [|done].
    destruct (Validate_blocked v cmd sub (Hblock _ Hs) Hc). congruence. }
  split_and!; [|by apply Hnot; repeat first [left|right]..|by apply Validate_known].
  rewrite (all_chars_ext _ _ _ (λ c, f_equal negb (shell_meta_eqb c))).
  apply all_chars_none.
  repeat constructor; apply Hnot; vm_compute; repeat first [left|right].
Qed.

Lemma validate_sound_witness :
  Validate NewCommandValidator "NODE_ENV=production npm run build" = None ∧
  known_binary NewCommandValidator (TrimSpace "NODE_ENV=production npm run build").
Proof.
  split; [vm_compute; reflexivity|].
  exact (proj2 (proj2 (proj2 (validate_sound NewCommandValidator "NODE_ENV=production npm run build"
                                (λ _ Hs, Hs) ltac:(vm_compute; reflexivity))))).
Defined.
