(* ===== verification/Deploy.v ===== *)
(** The symlink deployment strategy ([src/internal/deploy/executor.go]): a
    deployment and a rollback as sequences of shell commands given to a
    [CommandRunner].

    The runner is an interface of the source; here it is a class whose instances
    say what running a command does to the world and what comes back.  A method of
    the strategy is a function of the world that also leaves the trace of the
    commands it ran, with their results, and of the lines it logged.  Each command
    of the trace is labelled with the stage of the deployment that issued it; the
    label has no influence on what happens.  Clock readings and durations are left
    out. *)

From stdpp Require Import pretty.
From S2P Require Import Prelude GoStrings.

#[local] Open Scope string_scope.
#[local] Open Scope list_scope.
#[local] Open Scope Z_scope.

(** * Data *)

Record RunOptions := mkRunOptions {
  WorkDir : string;
  RunEnv : gmap string string;
  User : string;
  Group : string;
  Timeout : Z
}.

Definition no_options : RunOptions := mkRunOptions "" ∅ "" "" 0.

Record CommandResult := mkCommandResult { ExitCode : Z; Stdout : string; Stderr : string }.

Record DeploySettings := mkDeploySettings {
  Strategy : string;
  KeepReleases : Z;
  SharedDirs : list string;
  SharedFiles : list string;
  WritableDirs : list string;
  ExecutionUser : string;
  ExecutionGroup : string;
  SettingsTimeout : Z
}.

Record ServiceReload := mkServiceReload { Service : string; Action : string }.

Record DeployCommand := mkDeployCommand {
  DeploymentID : string;
  Project : string;
  Target : string;
  Repository : string;
  Branch : string;
  Commit : string;
  Path : string;
  Settings : DeploySettings;
  EnvVars : gmap string string;
  EnvFileContent : list Z;
  PreDeployHooks : list string;
  PostDeployHooks : list string;
  ReloadServices : list ServiceReload
}.

Record RollbackCommand := mkRollbackCommand {
  RBDeploymentID : string;
  RBProject : string;
  RBTarget : string;
  RBPath : string;
  RBReleaseNumber : Z;
  RollbackHooks : list string;
  RBReloadServices : list ServiceReload
}.

Record DeployResult := mkDeployResult {
  Success : bool;
  ReleaseNumber : Z;
  ReleasePath : string;
  Error : option string
}.

Inductive LogLevel := LogDebug | LogInfo | LogWarn | LogError.

Definition LogLevel_String (l : LogLevel) : string :=
  match l with LogDebug => "DEBUG" | LogInfo => "INFO" | LogWarn => "WARN" | LogError => "ERROR" end.

(** * Running commands *)

(** [CommandRunner.Run]: the world afterwards, and the result or the error. *)
Class CommandRunner := {
  World : Type;
  Run : World → string → RunOptions → World * (CommandResult + string)
}.

Inductive stage :=
| Number | Directories | Repo | Release | Link | EnvFile | PreHook | PostHook | Activate | Reload | Clean
| List | RollbackHook.

#[global] Instance stage_eq_dec : EqDecision stage.
Proof. solve_decision. Defined.

Inductive event :=
| Ran (at_ : stage) (cmd : string) (r : CommandResult + string)
| Logged (level : LogLevel) (msg source : string).

(** A step of the strategy: from a world to a world, leaving a trace, with a
    value or the text of an error. *)
Definition M `{CommandRunner} (A : Type) : Type := World → World * list event * (A + string).

Section monad.
Context `{CommandRunner}.

Definition ret {A} (a : A) : M A := λ w, (w, [], inl a).
Definition err {A} (e : string) : M A := λ w, (w, [], inr e).
Definition bind {A B} (m : M A) (k : A → M B) : M B := λ w,
  let '(w1, t1, r) := m w in
  match r with
  | inl a => let '(w2, t2, r2) := k a w1 in (w2, t1 ++ t2, r2)
  | inr e => (w1, t1, inr e)
  end.

(** [s.runner.Run(ctx, cmd, opts)], whose error the caller looks at. *)
Definition run_cmd (st : stage) (cmd : string) (opts : RunOptions) : M (CommandResult + string) := λ w,
  let '(w', r) := Run w cmd opts in (w', [Ran st cmd r], inl r).

(** The frequent [_, err := s.runner.Run(...); if err != nil { return err }]. *)
Definition must (st : stage) (cmd : string) (opts : RunOptions) : M unit :=
  bind (run_cmd st cmd opts) (λ r, match r with inl _ => ret tt | inr e => err e end).

(** [_, _ = s.runner.Run(...)] *)
Definition ignore (st : stage) (cmd : string) (opts : RunOptions) : M unit :=
  bind (run_cmd st cmd opts) (λ _, ret tt).

Definition log (level : LogLevel) (msg source : string) : M unit := λ w,
  (w, [Logged level msg source], inl tt).

(** [fmt.Errorf(prefix + ": %w", err)] *)
Definition wrap {A} (prefix : string) (m : M A) : M A := λ w,
  let '(w', t, r) := m w in
  (w', t, match r with inl a => inl a | inr e => inr (prefix +:+ ": " +:+ e) end).

Fixpoint each {A} (f : A → M unit) (l : list A) : M unit :=
  match l with
  | [] => ret tt
  | x :: l' => bind (f x) (λ _, each f l')
  end.

Definition when (b : bool) (m : M unit) : M unit := if b then m else ret tt.

End monad.

Declare Scope deploy_scope.
Notation "m ;; k" := (bind m (fun _ => k))
  (at level 100, k at level 200, right associativity) : deploy_scope.
Notation "x <-- m ;; k" := (bind m (fun x => k))
  (at level 100, m at next level, k at level 200, right associativity) : deploy_scope.
#[local] Open Scope deploy_scope.

(** * Service names *)

(** [validation.IsValidServiceName] ([^[a-zA-Z0-9][a-zA-Z0-9._@-]*$]). *)
Definition is_alnum (c : Ascii.ascii) : bool :=
  let n := Ascii.nat_of_ascii c in
  is_digit c || ((65 <=? n) && (n <=? 90))%nat || ((97 <=? n) && (n <=? 122))%nat.

Definition is_service_char (c : Ascii.ascii) : bool :=
  let n := Ascii.nat_of_ascii c in
  is_alnum c || (n =? 46)%nat || (n =? 95)%nat || (n =? 64)%nat || (n =? 45)%nat.

Definition IsValidServiceName (name : string) : bool :=
  match name with
  | EmptyString => false
  | String c s' =>
      (String.length name <=? 256)%nat && is_alnum c && all_chars is_service_char s'
  end.

(** * The strategy *)

Section strategy.
Context `{CommandRunner}.

Definition getNextReleaseNumber (releasesPath : string) : M Z :=
  r <-- run_cmd Number ("ls -1 " +:+ releasesPath +:+ " 2>/dev/null | sort -n | tail -1") no_options ;;
  match r with
  | inr _ => ret 1
  | inl result => ret (wrap64 (sscanf_int (Stdout result) + 1))
  end.

Definition setupDirectories (basePath releasesPath sharedPath : string) (settings : DeploySettings) : M unit :=
  each (λ dir, must Directories ("mkdir -p " +:+ dir) no_options)
    ([basePath; releasesPath; sharedPath] ++ ((λ dir, sharedPath +:+ "/" +:+ dir) <$> SharedDirs settings)).

Definition updateRepo (repoPath repository : string) : M unit :=
  r <-- run_cmd Repo ("test -d " +:+ repoPath +:+ "/.git") no_options ;;
  match r with
  | inl result =>
      if ExitCode result =? 0
      then wrap "git fetch" (must Repo ("git -C " +:+ repoPath +:+ " fetch --all --prune") no_options)
      else wrap "git clone" (must Repo ("git clone --mirror " +:+ repository +:+ " " +:+ repoPath) no_options)
  | inr _ =>
      wrap "git clone" (must Repo ("git clone --mirror " +:+ repository +:+ " " +:+ repoPath) no_options)
  end.

Definition createRelease (repoPath releasePath commit : string) : M unit :=
  must Release ("mkdir -p " +:+ releasePath) no_options ;;
  (let ref := if bool_decide (commit = "") then "HEAD" else commit in
   must Release ("git -C " +:+ repoPath +:+ " archive " +:+ ref +:+ " | tar -x -C " +:+ releasePath) no_options).

Definition linkShared (releasePath sharedPath : string) (settings : DeploySettings) : M unit :=
  each (λ dir,
    (let target := releasePath +:+ "/" +:+ dir in
     let source := sharedPath +:+ "/" +:+ dir in
     ignore Link ("rm -rf " +:+ target) no_options ;;
     wrap ("link dir " +:+ dir) (must Link ("ln -nfs " +:+ source +:+ " " +:+ target) no_options)))
    (SharedDirs settings) ;;
  each (λ file,
    (let target := releasePath +:+ "/" +:+ file in
     let source := sharedPath +:+ "/" +:+ file in
     ignore Link ("mkdir -p $(dirname " +:+ target +:+ ")") no_options ;;
     ignore Link ("rm -f " +:+ target) no_options ;;
     wrap ("link file " +:+ file) (must Link ("ln -nfs " +:+ source +:+ " " +:+ target) no_options)))
    (SharedFiles settings) ;;
  each (λ dir,
    (let target := releasePath +:+ "/" +:+ dir in
     ignore Link ("mkdir -p " +:+ target +:+ " && chmod -R 775 " +:+ target) no_options))
    (WritableDirs settings).

Definition writeEnvFile (sharedPath : string) (content : list Z) : M unit :=
  if bool_decide (content = []) then ret tt
  else
    let envPath := sharedPath +:+ "/.env" in
    wrap "write env file"
      (must EnvFile ("echo '" +:+ base64_encode content +:+ "' | base64 -d > " +:+ envPath
                 +:+ " && chmod 600 " +:+ envPath) no_options).

(** Hooks are the only commands whose exit code is looked at. *)
Definition run_hook (st : stage) (opts : RunOptions) (hook : string) : M unit :=
  log LogInfo ("Running: " +:+ hook) "hook" ;;
  r <-- run_cmd st hook opts ;;
  match r with
  | inr e => err ("hook '" +:+ hook +:+ "' failed: " +:+ e)
  | inl result =>
      if ExitCode result =? 0
      then when (negb (bool_decide (Stdout result = ""))) (log LogInfo (Stdout result) "hook")
      else err ("hook '" +:+ hook +:+ "' exited with code " +:+ pretty (ExitCode result) +:+ ": " +:+ Stderr result)
  end.

Definition runHooks (st : stage) (releasePath : string) (hooks : list string) (settings : DeploySettings) : M unit :=
  each (run_hook st (mkRunOptions releasePath ∅ (ExecutionUser settings) (ExecutionGroup settings)
                       (SettingsTimeout settings))) hooks.

Definition activateRelease (releasePath currentPath : string) : M unit :=
  let tmpLink := currentPath +:+ ".tmp" in
  wrap "create temp symlink" (must Activate ("ln -nfs " +:+ releasePath +:+ " " +:+ tmpLink) no_options) ;;
  r <-- run_cmd Activate ("mv -T " +:+ tmpLink +:+ " " +:+ currentPath) no_options ;;
  match r with
  | inl _ => ret tt
  | inr _ =>
      ignore Activate ("rm -f " +:+ tmpLink) no_options ;;
      wrap "activate symlink" (must Activate ("ln -nfs " +:+ releasePath +:+ " " +:+ currentPath) no_options)
  end.

Definition service_command (svc : ServiceReload) : option string :=
  let name := Service svc in
  if bool_decide (Action svc = "reload")
  then Some ("systemctl reload " +:+ name +:+ " || systemctl restart " +:+ name)
  else if bool_decide (Action svc = "restart") then Some ("systemctl restart " +:+ name)
  else if bool_decide (Action svc = "start") then Some ("systemctl start " +:+ name)
  else if bool_decide (Action svc = "stop") then Some ("systemctl stop " +:+ name)
  else None.

Definition reload_service (svc : ServiceReload) : M unit :=
  if negb (IsValidServiceName (Service svc)) then err ("invalid service name: " +:+ quote (Service svc))
  else
    log LogInfo ("Service " +:+ Service svc +:+ ": " +:+ Action svc) "service" ;;
    match service_command svc with
    | None => err ("unknown service action: " +:+ Action svc)
    | Some cmd => wrap ("service " +:+ Service svc +:+ " " +:+ Action svc) (must Reload cmd no_options)
    end.

Definition reloadServices (services : list ServiceReload) : M unit := each reload_service services.

Definition cleanupReleases (releasesPath : string) (keepReleases : Z) : M unit :=
  let keep := if keepReleases <=? 0 then 5 else keepReleases in
  must Clean ("ls -1 " +:+ releasesPath +:+ " | sort -n | head -n -" +:+ pretty keep
              +:+ " | xargs -I {} rm -rf " +:+ releasesPath +:+ "/{}") no_options.

(** A failing cleanup is logged and does not fail the deployment. *)
Definition tolerate (m : M unit) : M unit := λ w,
  let '(w', t, r) := m w in
  match r with
  | inl _ => (w', t, inl tt)
  | inr e => (w', t ++ [Logged LogWarn ("Cleanup warning: " +:+ e) "deploy"], inl tt)
  end.

(** [Deploy] from the release number on: steps 1 to 7, which prepare the release
    in a directory of its own ... *)
Definition deploy_prepare (cmd : DeployCommand) (releaseNum : Z) : M unit :=
  let basePath := Path cmd in
  let releasesPath := basePath +:+ "/releases" in
  let sharedPath := basePath +:+ "/shared" in
  let repoPath := basePath +:+ "/repo" in
  let releasePath := releasesPath +:+ "/" +:+ pretty releaseNum in
  log LogInfo ("Starting deployment #" +:+ pretty releaseNum) "deploy" ;;
  log LogInfo "Setting up directories..." "deploy" ;;
  wrap "setup directories" (setupDirectories basePath releasesPath sharedPath (Settings cmd)) ;;
  log LogInfo "Updating repository..." "deploy" ;;
  wrap "update repo" (updateRepo repoPath (Repository cmd)) ;;
  log LogInfo ("Creating release #" +:+ pretty releaseNum +:+ "...") "deploy" ;;
  wrap "create release" (createRelease repoPath releasePath (Commit cmd)) ;;
  log LogInfo "Linking shared resources..." "deploy" ;;
  wrap "link shared" (linkShared releasePath sharedPath (Settings cmd)) ;;
  when (negb (bool_decide (EnvFileContent cmd = [])))
    (log LogInfo "Writing environment file..." "deploy" ;;
     wrap "write env" (writeEnvFile sharedPath (EnvFileContent cmd))) ;;
  when (negb (bool_decide (PreDeployHooks cmd = [])))
    (log LogInfo "Running pre-deploy hooks..." "deploy" ;;
     wrap "pre-deploy hooks" (runHooks PreHook releasePath (PreDeployHooks cmd) (Settings cmd))) ;;
  when (negb (bool_decide (PostDeployHooks cmd = [])))
    (log LogInfo "Running post-deploy hooks..." "deploy" ;;
     wrap "post-deploy hooks" (runHooks PostHook releasePath (PostDeployHooks cmd) (Settings cmd))).

(** ... and steps 8 to 10, which switch to it. *)
Definition deploy_switch (cmd : DeployCommand) (releaseNum : Z) : M unit :=
  let releasesPath := Path cmd +:+ "/releases" in
  let currentPath := Path cmd +:+ "/current" in
  let releasePath := releasesPath +:+ "/" +:+ pretty releaseNum in
  log LogInfo ("Activating release #" +:+ pretty releaseNum +:+ "...") "deploy" ;;
  wrap "activate release" (activateRelease releasePath currentPath) ;;
  when (negb (bool_decide (ReloadServices cmd = [])))
    (log LogInfo "Reloading services..." "deploy" ;;
     wrap "reload services" (reloadServices (ReloadServices cmd))) ;;
  log LogInfo "Cleaning up old releases..." "deploy" ;;
  tolerate (cleanupReleases releasesPath (KeepReleases (Settings cmd))) ;;
  log LogInfo ("Deployment #" +:+ pretty releaseNum +:+ " completed successfully") "deploy".

Definition deploy_release (cmd : DeployCommand) (releaseNum : Z) : M unit :=
  deploy_prepare cmd releaseNum ;; deploy_switch cmd releaseNum.

(** [Deploy]: the result it returns; the error it returns is the result's. *)
Definition Deploy (cmd : DeployCommand) (w : World) : World * list event * DeployResult :=
  let releasesPath := Path cmd +:+ "/releases" in
  let '(w1, t1, r1) := getNextReleaseNumber releasesPath w in
  match r1 with
  | inr e => (w1, t1, mkDeployResult false 0 "" (Some ("getting release number: " +:+ e)))
  | inl n =>
      let path := releasesPath +:+ "/" +:+ pretty n in
      let '(w2, t2, r2) := deploy_release cmd n w1 in
      (w2, t1 ++ t2,
       match r2 with
       | inl _ => mkDeployResult true n path None
       | inr e => mkDeployResult false n path (Some e)
       end)
  end.

(** ** Rollback *)

(** The release to go back to among those listed. *)
Definition rollback_target (releaseNumber : Z) (releases : list string) : string + string :=
  if (length releases <? 2)%nat then inr "no previous release to rollback to"
  else if 0 <? releaseNumber then
    if bool_decide (pretty releaseNumber ∈ releases) then inl (pretty releaseNumber)
    else inr ("release " +:+ pretty releaseNumber +:+ " not found")
  else inl (nth (length releases - 2) releases "").

(** The action is put into the command as it is. *)
Definition rollback_service (svc : ServiceReload) : M unit :=
  if negb (IsValidServiceName (Service svc)) then err ("invalid service name: " +:+ quote (Service svc))
  else wrap ("service " +:+ Service svc +:+ " " +:+ Action svc)
         (must Reload ("systemctl " +:+ Action svc +:+ " " +:+ Service svc) no_options).

Definition rollback_to (cmd : RollbackCommand) (releasePath : string) : M unit :=
  let currentPath := RBPath cmd +:+ "/current" in
  let tmpLink := currentPath +:+ ".tmp" in
  each (λ hook, wrap "running rollback hook"
          (must RollbackHook ("cd " +:+ releasePath +:+ " && " +:+ hook) (mkRunOptions releasePath ∅ "" "" 0)))
       (RollbackHooks cmd) ;;
  wrap "creating temp symlink" (must Activate ("ln -sfn " +:+ releasePath +:+ " " +:+ tmpLink) no_options) ;;
  wrap "activating release" (must Activate ("mv -Tf " +:+ tmpLink +:+ " " +:+ currentPath) no_options) ;;
  each rollback_service (RBReloadServices cmd).

(** The release number of the result is never set. *)
Definition Rollback (cmd : RollbackCommand) (w : World) : World * list event * DeployResult :=
  let releasesPath := RBPath cmd +:+ "/releases" in
  let '(w1, t1, r1) := wrap "listing releases"
        (r <-- run_cmd List ("ls -1 " +:+ releasesPath +:+ " | sort -n") no_options ;;
         match r with inl x => ret x | inr e => err e end) w in
  match r1 with
  | inr e => (w1, t1, mkDeployResult false 0 "" (Some e))
  | inl listResult =>
      match rollback_target (RBReleaseNumber cmd) (split_on newline (TrimSpace (Stdout listResult))) with
      | inr e => (w1, t1, mkDeployResult false 0 "" (Some e))
      | inl target =>
          let releasePath := releasesPath +:+ "/" +:+ target in
          let '(w2, t2, r2) := rollback_to cmd releasePath w1 in
          (w2, t1 ++ t2,
           match r2 with
           | inl _ => mkDeployResult true 0 releasePath None
           | inr e => mkDeployResult false 0 releasePath (Some e)
           end)
      end
  end.

(** * Order of the stages *)

Definition rank (s : stage) : nat :=
  match s with
  | Number => 0 | Directories => 1 | Repo => 2 | Release => 3 | Link => 4 | EnvFile => 5
  | PreHook => 6 | PostHook => 7 | Activate => 8 | Reload => 9 | Clean => 10
  | List => 0 | RollbackHook => 1
  end.

Definition stages (t : list event) : list stage :=
  omap (λ e, match e with Ran s _ _ => Some s | Logged _ _ _ => None end) t.

Definition ordered (t : list event) : Prop := StronglySorted (λ a b, (rank a ≤ rank b)%nat) (stages t).

Definition trace {A} (m : M A) (w : World) : list event := (m w).1.2.

(** The commands of a step are of stages from [lo] to [hi], in order. *)
Definition within {A} (lo hi : nat) (m : M A) : Prop :=
  ∀ w, ordered (trace m w) ∧ Forall (λ s, (lo ≤ rank s ≤ hi)%nat) (stages (trace m w)).

Lemma stages_app t1 t2 : stages (t1 ++ t2) = stages t1 ++ stages t2.
Proof. apply omap_app. Qed.

Lemma ordered_app t1 t2 m :
  ordered t1 → ordered t2 → Forall (λ s, (rank s ≤ m)%nat) (stages t1) →
  Forall (λ s, (m ≤ rank s)%nat) (stages t2) → ordered (t1 ++ t2).
Proof.
  unfold ordered. rewrite stages_app. intros H1 H2 F1 F2.
  induction (stages t1) as [|s l IH]; [done|]. simpl.
  apply Forall_cons in F1 as [Hs F1]. inversion H1 as [|? ? Hl Hf]; subst. constructor; [auto|].
  apply Forall_app_2; [done|]. eapply Forall_impl; [exact F2|]. simpl. lia.
Qed.

Lemma within_weaken {A} lo hi lo' hi' (m : M A) :
  (lo' ≤ lo)%nat → (hi ≤ hi')%nat → within lo hi m → within lo' hi' m.
Proof.
  intros Hl Hh Hm w. destruct (Hm w) as [Ho Hf]. split; [done|].
  eapply Forall_impl; [exact Hf|]. simpl. lia.
Qed.

Lemma within_bind {A B} lo mid hi (m : M A) (k : A → M B) :
  (lo ≤ mid ≤ hi)%nat → within lo mid m → (∀ a, within mid hi (k a)) → within lo hi (bind m k).
Proof.
  intros Hle Hm Hk w. unfold trace, bind. destruct (Hm w) as [Ho Hf]. unfold trace in *.
  destruct (m w) as [[w1 t1] [a|e]]; simpl in *.
  - destruct (Hk a w1) as [Ho2 Hf2]. unfold trace in *. destruct (k a w1) as [[w2 t2] r2]; simpl in *.
    split.
    + eapply (ordered_app _ _ mid); [done..| |]; (eapply Forall_impl; [eassumption|]); simpl; lia.
    + rewrite stages_app. apply Forall_app_2; (eapply Forall_impl; [eassumption|]); simpl; lia.
  - split; [done|]. eapply Forall_impl; [eassumption|]. simpl. lia.
Qed.

Lemma within_ret {A} lo hi (a : A) : within lo hi (ret a).
Proof. intros w. split; constructor. Qed.

Lemma within_err {A} lo hi e : within lo hi (err e : M A).
Proof. intros w. split; constructor. Qed.

Lemma within_log lo hi l m src : within lo hi (log l m src).
Proof. intros w. split; constructor. Qed.

Lemma within_run lo hi st c o : (lo ≤ rank st ≤ hi)%nat → within lo hi (run_cmd st c o).
Proof.
  intros Hr w. unfold trace, run_cmd. destruct (Run w c o) as [w' r]; simpl.
  split; repeat constructor; simpl; lia.
Qed.

Lemma within_wrap {A} lo hi p (m : M A) : within lo hi m → within lo hi (wrap p m).
Proof.
  intros Hm w. destruct (Hm w) as [Ho Hf]. unfold trace, wrap in *.
  by destruct (m w) as [[w1 t1] r].
Qed.

Lemma within_when lo hi b m : within lo hi m → within lo hi (when b m).
Proof. intros Hm. destruct b; [done|apply within_ret]. Qed.

Lemma within_each {A} r (f : A → M unit) l : (∀ x, within r r (f x)) → within r r (each f l).
Proof.
  intros Hf. induction l as [|x l IH]; [apply within_ret|]. by apply (within_bind r r r).
Qed.

Lemma within_tolerate lo hi m : within lo hi m → within lo hi (tolerate m).
Proof.
  intros Hm w. destruct (Hm w) as [Ho Hf]. unfold trace, tolerate in *.
  destruct (m w) as [[w1 t1] [[]|e]]; simpl in *; [done|].
  unfold ordered. rewrite stages_app. simpl. by rewrite app_nil_r.
Qed.

(** Steps of a single stage. *)
Ltac one_stage r :=
  repeat first
    [ progress intros
    | apply within_ret | apply within_err | apply within_log
    | apply within_run; simpl; lia
    | apply within_wrap | apply within_when | apply (within_each r)
    | apply (within_bind r r r); [lia| |]
    | progress unfold must, ignore
    | case_match ].

Lemma within_setup b r sh st : within 1 1 (setupDirectories b r sh st).
Proof. unfold setupDirectories. one_stage 1%nat. Qed.

Lemma within_repo r repo : within 2 2 (updateRepo r repo).
Proof. unfold updateRepo. one_stage 2%nat. Qed.

Lemma within_release r p c : within 3 3 (createRelease r p c).
Proof. unfold createRelease. one_stage 3%nat. Qed.

Lemma within_link r sh st : within 4 4 (linkShared r sh st).
Proof. unfold linkShared. one_stage 4%nat. Qed.

Lemma within_env sh c : within 5 5 (writeEnvFile sh c).
Proof. unfold writeEnvFile. one_stage 5%nat. Qed.

Lemma within_hooks st p hooks settings : within (rank st) (rank st) (runHooks st p hooks settings).
Proof. unfold runHooks, run_hook. one_stage (rank st). Qed.

Lemma within_activate r c : within 8 8 (activateRelease r c).
Proof. unfold activateRelease. one_stage 8%nat. Qed.

Lemma within_reload l : within 9 9 (reloadServices l).
Proof. unfold reloadServices, reload_service. one_stage 9%nat. Qed.

Lemma within_clean p k : within 10 10 (cleanupReleases p k).
Proof. unfold cleanupReleases. one_stage 10%nat. Qed.

(** Logging between two stages. *)
Lemma within_logged {A} lo hi l m src (k : M A) : within lo hi k → within lo hi (log l m src ;; k).
Proof.
  intros Hk w. destruct (Hk w) as [Ho Hf]. unfold trace, bind, log in *.
  by destruct (k w) as [[w1 t1] r].
Qed.

Lemma within_prepare cmd n : within 1 7 (deploy_prepare cmd n).
Proof.
  unfold deploy_prepare. cbv zeta. do 2 apply within_logged.
  apply (within_bind 1 1 7); [lia|apply within_wrap, within_setup|intros _]. apply within_logged.
  apply (within_bind 1 2 7); [lia|eapply within_weaken, within_wrap, within_repo; lia|intros _].
  apply within_logged.
  apply (within_bind 2 3 7); [lia|eapply within_weaken, within_wrap, within_release; lia|intros _].
  apply within_logged.
  apply (within_bind 3 4 7); [lia|eapply within_weaken, within_wrap, within_link; lia|intros _].
  apply (within_bind 4 5 7); [lia| |intros _].
  { eapply within_weaken, within_when, within_logged, within_wrap, within_env; lia. }
  apply (within_bind 5 6 7); [lia| |intros _].
  { eapply (within_weaken 6 6); [lia..|]. apply within_when, within_logged, within_wrap, within_hooks. }
  eapply (within_weaken 7 7); [lia..|]. apply within_when, within_logged, within_wrap, within_hooks.
Qed.

Lemma within_switch cmd n : within 8 10 (deploy_switch cmd n).
Proof.
  unfold deploy_switch. cbv zeta. apply within_logged.
  apply (within_bind 8 8 10); [lia|apply within_wrap, within_activate|intros _].
  apply (within_bind 8 9 10); [lia| |intros _].
  { eapply within_weaken, within_when, within_logged, within_wrap, within_reload; lia. }
  apply within_logged. apply (within_bind 9 10 10); [lia| |intros _; apply within_log].
  eapply within_weaken, within_tolerate, within_clean; lia.
Qed.

(** * Hooks *)

Definition succeeded (r : CommandResult + string) : bool :=
  match r with inl x => ExitCode x =? 0 | inr _ => false end.

(** The commands of one stage, with whether each succeeded. *)
Definition runs_at (s : stage) (t : list event) : list (string * bool) :=
  omap (λ e, match e with
             | Ran s' c r => if decide (s' = s) then Some (c, succeeded r) else None
             | Logged _ _ _ => None
             end) t.

Definition all_ok (cmds : list string) : list (string * bool) := (λ c, (c, true)) <$> cmds.

Lemma runs_at_app s t1 t2 : runs_at s (t1 ++ t2) = runs_at s t1 ++ runs_at s t2.
Proof. apply omap_app. Qed.

(** No command of a stage outside the trace's stages. *)
Lemma runs_at_none s t : s ∉ stages t → runs_at s t = [].
Proof.
  induction t as [|[s' c r|l m src] t IH]; simpl; intros Hn; [done| |auto].
  rewrite decide_False by set_solver. apply IH. set_solver.
Qed.

Lemma within_runs_none {A} lo hi (m : M A) w s :
  within lo hi m → (rank s < lo ∨ hi < rank s)%nat → runs_at s (trace m w) = [].
Proof.
  intros Hm Hr. apply runs_at_none. intros Hin. destruct (Hm w) as [_ Hf].
  rewrite Forall_forall in Hf. apply Hf in Hin. lia.
Qed.

Lemma hooks_ok st opts hooks w w' t :
  each (run_hook st opts) hooks w = (w', t, inl tt) → runs_at st t = all_ok hooks.
Proof.
  revert w t. induction hooks as [|h hooks IH]; intros w t; simpl.
  { intros [= _ <-]. done. }
  unfold bind at 1. destruct (run_hook st opts h w) as [[w1 t1] [[]|e]] eqn:Eh; [|done].
  destruct (each (run_hook st opts) hooks w1) as [[w2 t2] [[]|e]] eqn:Ee; [|done].
  intros [= <- <-]. rewrite runs_at_app, (IH _ _ Ee).
  assert (runs_at st t1 = [(h, true)]) as ->; [|done].
  revert Eh. unfold run_hook, bind, log, run_cmd. destruct (Run w h opts) as [w3 [r|e]]; [|done].
  simpl. destruct (ExitCode r =? 0) eqn:Ec; [|done].
  unfold when. destruct (negb (bool_decide (Stdout r = ""))); simpl;
    intros [= _ <-]; simpl; rewrite decide_True by done; simpl; by rewrite Ec.
Qed.

Lemma bind_ok {A B} (m : M A) (k : A → M B) w w' t b :
  bind m k w = (w', t, inl b) →
  ∃ w1 t1 a t2, m w = (w1, t1, inl a) ∧ k a w1 = (w', t2, inl b) ∧ t = t1 ++ t2.
Proof.
  unfold bind. destruct (m w) as [[w1 t1] [a|e]]; [|done].
  destruct (k a w1) as [[w2 t2] [b'|e]] eqn:Ek; [|done]. intros [= <- <- <-]. by exists w1, t1, a, t2.
Qed.

Lemma piece_none {A} lo hi (m : M A) w w' t r s :
  within lo hi m → m w = (w', t, r) → (rank s < lo ∨ hi < rank s)%nat → runs_at s t = [].
Proof.
  intros Hm Hw Hr. rewrite <- (within_runs_none lo hi m w s Hm Hr). unfold trace. by rewrite Hw.
Qed.

Lemma bind_logged {A} l m src (k : M A) w w' t r :
  (log l m src ;; k) w = (w', t, r) → ∃ t', k w = (w', t', r) ∧ t = Logged l m src :: t'.
Proof. unfold bind, log. destruct (k w) as [[w1 t1] r1]. intros [= <- <- <-]. eauto. Qed.

(** The hook block of a deployment, when it ends well. *)
Lemma hook_block_ok st path hooks settings l msg p w w' t :
  when (negb (bool_decide (hooks = [])))
    (log l msg "deploy" ;; wrap p (runHooks st path hooks settings)) w = (w', t, inl tt) →
  runs_at st t = all_ok hooks.
Proof.
  unfold when. case_bool_decide as Hn; simpl.
  { subst. intros [= _ <-]. done. }
  intros (t2 & Hr & ->)%bind_logged. simpl. unfold wrap, runHooks in Hr.
  destruct (each _ hooks w) as [[w2 t3] [[]|e]] eqn:Ee; [|done]. injection Hr as _ <-.
  by eapply hooks_ok.
Qed.

Lemma within_hook_block st path hooks settings l msg p :
  within (rank st) (rank st)
    (when (negb (bool_decide (hooks = []))) (log l msg "deploy" ;; wrap p (runHooks st path hooks settings))).
Proof. apply within_when, within_logged, within_wrap, within_hooks. Qed.

(** A piece of an earlier stage leaves the commands of the later stage alone. *)
Lemma skip_piece lo hi (m k : M unit) w w' t s l :
  within lo hi m → (rank s < lo ∨ hi < rank s)%nat →
  (∀ w1 t1, k w1 = (w', t1, inl tt) → runs_at s t1 = l) →
  (m ;; k) w = (w', t, inl tt) → runs_at s t = l.
Proof.
  intros Hm Hr Hk (w1 & t1 & [] & t2 & H1 & H2 & ->)%bind_ok.
  rewrite runs_at_app, (piece_none lo hi m w w1 t1 (inl tt) s Hm H1 Hr). simpl. by eapply Hk.
Qed.

Lemma skip_log l m src (k : M unit) w w' t s r :
  (∀ t1, k w = (w', t1, inl tt) → runs_at s t1 = r) →
  (log l m src ;; k) w = (w', t, inl tt) → runs_at s t = r.
Proof. intros Hk (t1 & Ht & ->)%bind_logged. simpl. by apply Hk. Qed.

(** The stages before the hooks. *)
Lemma prepare_skip s cmd n (l : list (string * bool)) w w' t :
  (5 < rank s)%nat →
  (∀ w1 t1,
     (let releasesPath := Path cmd +:+ "/releases" in
      let releasePath := releasesPath +:+ "/" +:+ pretty n in
      when (negb (bool_decide (PreDeployHooks cmd = [])))
        (log LogInfo "Running pre-deploy hooks..." "deploy" ;;
         wrap "pre-deploy hooks" (runHooks PreHook releasePath (PreDeployHooks cmd) (Settings cmd))) ;;
      when (negb (bool_decide (PostDeployHooks cmd = [])))
        (log LogInfo "Running post-deploy hooks..." "deploy" ;;
         wrap "post-deploy hooks" (runHooks PostHook releasePath (PostDeployHooks cmd) (Settings cmd)))) w1
     = (w', t1, inl tt) → runs_at s t1 = l) →
  deploy_prepare cmd n w = (w', t, inl tt) → runs_at s t = l.
Proof.
  intros Hs Hk. unfold deploy_prepare. cbv zeta. do 2 (apply skip_log; intros ?).
  eapply (skip_piece 1 1); [apply within_wrap, within_setup|lia|intros ? ?].
  apply skip_log; intros ?.
  eapply (skip_piece 2 2); [apply within_wrap, within_repo|lia|intros ? ?].
  apply skip_log; intros ?.
  eapply (skip_piece 3 3); [apply within_wrap, within_release|lia|intros ? ?].
  apply skip_log; intros ?.
  eapply (skip_piece 4 4); [apply within_wrap, within_link|lia|intros ? ?].
  eapply (skip_piece 5 5); [apply within_when, within_logged, within_wrap, within_env|lia|intros ? ?].
  intros Hrun. by eapply Hk.
Qed.

Lemma prepare_hooks cmd n w w' t :
  deploy_prepare cmd n w = (w', t, inl tt) →
  runs_at PreHook t = all_ok (PreDeployHooks cmd) ∧ runs_at PostHook t = all_ok (PostDeployHooks cmd).
Proof.
  intros Hp. split; (eapply prepare_skip; [|intros w1 t1 Hb|exact Hp]; [simpl; lia|]); cbv zeta in Hb;
    apply bind_ok in Hb as (w2 & t2 & [] & t3 & H1 & H2 & ->); rewrite runs_at_app.
  - rewrite (hook_block_ok _ _ _ _ _ _ _ _ _ _ H1).
    rewrite (piece_none 7 7 _ _ _ _ _ PreHook (within_hook_block PostHook _ _ _ _ _ _) H2) by (simpl; lia).
    apply app_nil_r.
  - rewrite (hook_block_ok _ _ _ _ _ _ _ _ _ _ H2).
    by rewrite (piece_none 6 6 _ _ _ _ _ PostHook (within_hook_block PreHook _ _ _ _ _ _) H1) by (simpl; lia).
Qed.

(** A stage that occurs in a trace has a rank between the bounds. *)
Lemma within_stage {A} lo hi (m : M A) w w' t r s :
  within lo hi m → m w = (w', t, r) → s ∈ stages t → (lo ≤ rank s ≤ hi)%nat.
Proof.
  intros Hm Hw Hin. destruct (Hm w) as [_ Hf]. unfold trace in Hf. rewrite Hw in Hf. simpl in Hf.
  rewrite Forall_forall in Hf. auto.
Qed.

Lemma within_number p : within 0 0 (getNextReleaseNumber p).
Proof. unfold getNextReleaseNumber. one_stage 0%nat. Qed.

Lemma within_deploy_release cmd n : within 1 10 (deploy_release cmd n).
Proof.
  apply (within_bind 1 7 10); [lia|apply within_prepare|intros _].
  eapply within_weaken, within_switch; lia.
Qed.

(** The parts of the trace of [Deploy]. *)
Lemma Deploy_parts cmd w :
  ∃ w1 t1 n w2 t2 r,
    getNextReleaseNumber (Path cmd +:+ "/releases") w = (w1, t1, inl n) ∧
    deploy_release cmd n w1 = (w2, t2, r) ∧ (Deploy cmd w).1.2 = t1 ++ t2 ∧
    (Deploy cmd w).2 = mkDeployResult (match r with inl _ => true | inr _ => false end) n
                         ((Path cmd +:+ "/releases") +:+ "/" +:+ pretty n)
                         (match r with inl _ => None | inr e => Some e end).
Proof.
  unfold Deploy. cbv zeta.
  assert (∃ w1 t1 n, getNextReleaseNumber (Path cmd +:+ "/releases") w = (w1, t1, inl n)) as (w1 & t1 & n & E).
  { unfold getNextReleaseNumber, bind, run_cmd. destruct (Run w _ _) as [w1 [r|e]]; simpl; eauto. }
  rewrite E. destruct (deploy_release cmd n w1) as [[w2 t2] r] eqn:Ed.
  exists w1, t1, n, w2, t2, r. by destruct r.
Qed.

(** The commands of a deployment are run stage by stage, whatever they return and
    wherever the deployment stops: release number, directories, repository, release,
    shared links, environment file, pre-deploy hooks, post-deploy hooks, the switch of
    [current], service reloads, cleanup. *)
Theorem deploy_stages_ordered (cmd : DeployCommand) (w : World) : ordered (Deploy cmd w).1.2.
Proof.
  destruct (Deploy_parts cmd w) as (w1 & t1 & n & w2 & t2 & r & E1 & E2 & -> & _).
  pose proof (within_number (Path cmd +:+ "/releases") w) as [Ho1 Hf1].
  pose proof (within_deploy_release cmd n w1) as [Ho2 Hf2]. unfold trace in *.
  rewrite E1 in Ho1, Hf1. rewrite E2 in Ho2, Hf2. simpl in *.
  apply (ordered_app _ _ 0); [done..| |]; (eapply Forall_impl; [eassumption|]); simpl; lia.
Qed.

(** C24: [current] is not touched before every hook has succeeded: when a command of the
    switching stage (or a later one) was run, the pre-deploy and then the post-deploy
    hooks were all run, each exactly once and in order, and each exited with code 0. *)
Theorem activation_after_hooks (cmd : DeployCommand) (w : World) (s : stage)
    (Hs : s ∈ stages (Deploy cmd w).1.2) (Hrank : (rank Activate ≤ rank s)%nat) :
  runs_at PreHook (Deploy cmd w).1.2 = all_ok (PreDeployHooks cmd) ∧
  runs_at PostHook (Deploy cmd w).1.2 = all_ok (PostDeployHooks cmd).
Proof.
  destruct (Deploy_parts cmd w) as (w1 & t1 & n & w2 & t2 & r & E1 & E2 & Et & _).
  rewrite Et in Hs |- *. rewrite stages_app in Hs. apply elem_of_app in Hs as [Hs|Hs].
  { apply (within_stage _ _ _ _ _ _ _ _ (within_number _) E1) in Hs. simpl in Hrank. lia. }
  rewrite !runs_at_app, !(piece_none 0 0 _ _ _ _ _ _ (within_number _) E1) by (simpl; lia). simpl.
  unfold deploy_release, bind in E2.
  destruct (deploy_prepare cmd n w1) as [[w3 t3] [[]|e]] eqn:Ep; simplify_eq/=.
  - destruct (deploy_switch cmd n w3) as [[w4 t4] r4] eqn:Es. simplify_eq/=.
    destruct (prepare_hooks _ _ _ _ _ Ep) as [Hpre Hpost].
    rewrite !runs_at_app, Hpre, Hpost, !(piece_none 8 10 _ _ _ _ _ _ (within_switch _ _) Es) by (simpl; lia).
    by rewrite !app_nil_r.
  - apply (within_stage _ _ _ _ _ _ _ _ (within_prepare cmd n) Ep) in Hs. simpl in Hrank. lia.
Qed.

(** A runner that answers every command, whatever the exit codes. *)
Definition never_errs : Prop := ∀ w c o, ∃ w' x, Run w c o = (w', inl x).

(** A step that ends well from every world. *)
Definition total {A} (m : M A) : Prop := ∀ w, ∃ w' t a, m w = (w', t, inl a).

Lemma total_ret {A} (a : A) : total (ret a).
Proof. intros w. eexists _, _, _. done. Qed.

Lemma total_log l m src : total (log l m src).
Proof. intros w. eexists _, _, _. done. Qed.

Lemma total_bind {A B} (m : M A) (k : A → M B) : total m → (∀ a, total (k a)) → total (bind m k).
Proof.
  intros Hm Hk w. unfold bind. destruct (Hm w) as (w1 & t1 & a & ->).
  destruct (Hk a w1) as (w2 & t2 & b & ->). eauto.
Qed.

Lemma total_wrap {A} p (m : M A) : total m → total (wrap p m).
Proof. intros Hm w. unfold wrap. destruct (Hm w) as (w1 & t1 & a & ->). eauto. Qed.

Lemma total_when b m : total m → total (when b m).
Proof. intros Hm. destruct b; [done|apply total_ret]. Qed.

Lemma total_each {A} (f : A → M unit) l : (∀ x, x ∈ l → total (f x)) → total (each f l).
Proof.
  induction l as [|x l IH]; intros Hf; [apply total_ret|].
  apply total_bind; [apply Hf; left|intros _; apply IH]. intros y Hy. apply Hf. by right.
Qed.

Lemma total_tolerate m : total (tolerate m).
Proof. intros w. unfold tolerate. destruct (m w) as [[w1 t1] [a|e]]; eauto. Qed.

Section never_errs.
Hypothesis Hrun : never_errs.

Lemma run_answers st c o w : ∃ w' x, run_cmd st c o w = (w', [Ran st c (inl x)], inl (inl x)).
Proof using Hrun. unfold run_cmd. destruct (Hrun w c o) as (w' & x & ->). eauto. Qed.

Lemma total_run st c o : total (run_cmd st c o).
Proof using Hrun. intros w. destruct (run_answers st c o w) as (w' & x & ->). eauto. Qed.

Lemma total_must st c o : total (must st c o).
Proof using Hrun.
  intros w. unfold must, bind. destruct (run_answers st c o w) as (w' & x & ->). simpl. eauto.
Qed.

Lemma total_ignore st c o : total (ignore st c o).
Proof using Hrun. apply total_bind; [apply total_run|]. intros _. apply total_ret. Qed.

Ltac totally :=
  repeat first
    [ progress intros
    | apply total_ret | apply total_log | apply total_run | apply total_must | apply total_ignore
    | apply total_tolerate | apply total_wrap | apply total_when
    | apply total_each | apply total_bind | case_match ].

Lemma total_prepare cmd n :
  PreDeployHooks cmd = [] → PostDeployHooks cmd = [] → total (deploy_prepare cmd n).
Proof using Hrun.
  intros Hpre Hpost. unfold deploy_prepare. rewrite Hpre, Hpost. cbv zeta.
  unfold setupDirectories, updateRepo, createRelease, linkShared, writeEnvFile, runHooks. totally.
Qed.

Lemma total_activate p c : total (activateRelease p c).
Proof using Hrun.
  unfold activateRelease. cbv zeta. apply total_bind; [totally|intros _].
  intros w. unfold bind. destruct (run_answers Activate ("mv -T " +:+ (c +:+ ".tmp") +:+ " " +:+ c) no_options w)
    as (w' & x & ->). simpl. eauto.
Qed.

Lemma total_reload l :
  Forall (λ svc, IsValidServiceName (Service svc) = true ∧ is_Some (service_command svc)) l →
  total (reloadServices l).
Proof using Hrun.
  intros Hl. apply total_each. intros svc Hin. rewrite Forall_forall in Hl.
  destruct (Hl svc Hin) as [Hv [c Hc]]. unfold reload_service. rewrite Hv, Hc. simpl. totally.
Qed.

Lemma total_switch cmd n :
  Forall (λ svc, IsValidServiceName (Service svc) = true ∧ is_Some (service_command svc)) (ReloadServices cmd) →
  total (deploy_switch cmd n).
Proof using Hrun.
  intros Hl. unfold deploy_switch. cbv zeta. apply total_bind; [totally|intros _].
  apply total_bind; [apply total_wrap, total_activate|intros _].
  apply total_bind; [|totally].
  apply total_when, total_bind; [totally|intros _]. by apply total_wrap, total_reload.
Qed.

End never_errs.

(** Exit codes are looked at for hooks only.  With a runner that reports an error
    only when it cannot run the command (as both runners of the repository do), a
    deployment without hooks whose services are well-formed is reported successful
    whatever the commands exit with: a failed [git clone], [git archive], [ln] or
    [systemctl] does not fail it. *)
Theorem exit_codes_ignored (cmd : DeployCommand) (w : World) (Hrun : never_errs)
    (Hpre : PreDeployHooks cmd = []) (Hpost : PostDeployHooks cmd = [])
    (Hsvc : Forall (λ svc, IsValidServiceName (Service svc) = true ∧ is_Some (service_command svc))
              (ReloadServices cmd)) :
  Success (Deploy cmd w).2 = true ∧ Error (Deploy cmd w).2 = None.
Proof.
  destruct (Deploy_parts cmd w) as (w1 & t1 & n & w2 & t2 & r & E1 & E2 & _ & ->).
  assert (total (deploy_release cmd n)) as Ht.
  { apply total_bind; [by apply total_prepare|intros _; by apply total_switch]. }
  destruct (Ht w1) as (w3 & t3 & a & E3). rewrite E3 in E2. by simplify_eq.
Qed.

(** A step that never ends well. *)
Definition fails {A} (m : M A) : Prop := ∀ w w' t a, m w ≠ (w', t, inl a).

Lemma fails_bind_l {A B} (m : M A) (k : A → M B) : fails m → fails (bind m k).
Proof. intros Hm w w' t b (w1 & t1 & a & t2 & H1 & _)%bind_ok. by eapply Hm. Qed.

Lemma fails_bind_r {A B} (m : M A) (k : A → M B) : (∀ a, fails (k a)) → fails (bind m k).
Proof. intros Hk w w' t b (w1 & t1 & a & t2 & _ & H2 & _)%bind_ok. by eapply Hk. Qed.

Lemma fails_wrap {A} p (m : M A) : fails m → fails (wrap p m).
Proof.
  intros Hm w w' t a. unfold wrap. destruct (m w) as [[w1 t1] [b|e]] eqn:E; [|congruence].
  by destruct (Hm _ _ _ _ E).
Qed.

(** What follows a step that never ends well is never run. *)
Lemma within_fails {A B} lo hi (m : M A) (k : A → M B) : within lo hi m → fails m → within lo hi (bind m k).
Proof.
  intros Hm Hf w. destruct (Hm w) as [Ho Hfo]. unfold trace, bind in *.
  destruct (m w) as [[w1 t1] [a|e]] eqn:E; [by destruct (Hf _ _ _ _ E)|]. done.
Qed.

(** A deployment whose archive command is always refused. *)
Section no_archive.
Hypothesis Harchive : ∀ w repo ref p o, ∃ w' e,
  Run w ("git -C " +:+ repo +:+ " archive " +:+ ref +:+ " | tar -x -C " +:+ p) o = (w', inr e).

Lemma fails_createRelease r p c : fails (createRelease r p c).
Proof using Harchive.
  apply fails_bind_r. intros _ w w' t a. unfold must, bind, run_cmd.
  destruct (Harchive w r (if bool_decide (c = "") then "HEAD" else c) p no_options) as (w1 & e & Hrun).
  rewrite Hrun. simpl. congruence.
Qed.

Lemma no_archive_prepare cmd n : fails (deploy_prepare cmd n) ∧ within 1 3 (deploy_prepare cmd n).
Proof using Harchive.
  split; unfold deploy_prepare; cbv zeta.
  - do 6 (apply fails_bind_r; intros _). apply fails_bind_l, fails_wrap, fails_createRelease.
  - do 2 apply within_logged.
    apply (within_bind 1 1 3); [lia|apply within_wrap, within_setup|intros _]. apply within_logged.
    apply (within_bind 1 2 3); [lia|eapply within_weaken, within_wrap, within_repo; lia|intros _].
    apply within_logged. apply within_fails; [|apply fails_wrap, fails_createRelease].
    eapply within_weaken, within_wrap, within_release; lia.
Qed.

(** It fails, and no command of a stage after the release is run. *)
Lemma no_archive_deploy cmd w :
  Success (Deploy cmd w).2 = false ∧ ∀ s, s ∈ stages (Deploy cmd w).1.2 → (rank s ≤ 3)%nat.
Proof using Harchive.
  destruct (Deploy_parts cmd w) as (w1 & t1 & n & w2 & t2 & r & E1 & E2 & -> & ->). simpl.
  destruct (no_archive_prepare cmd n) as [Hf Hw]. split.
  - destruct r as [a|e]; [|done]. by destruct (fails_bind_l _ (λ _, deploy_switch cmd n) Hf _ _ _ _ E2).
  - intros s. rewrite stages_app, elem_of_app. intros [Hs|Hs].
    + apply (within_stage _ _ _ _ _ _ _ _ (within_number _) E1) in Hs. lia.
    + apply (within_stage 1 3 _ _ _ _ _ _ (within_fails _ _ _ (λ _, deploy_switch cmd n) Hw Hf) E2) in Hs. lia.
Qed.

End no_archive.

(** * Rollback *)

Lemma must_ran (st : stage) (c : string) (o : RunOptions) w w' t :
  must st c o w = (w', t, inl tt) → ∃ x, t = [Ran st c (inl x)].
Proof.
  unfold must, bind, run_cmd. destruct (Run w c o) as [w1 [x|e]]; simpl; [|done].
  intros [= _ <-]. eauto.
Qed.

Lemma wrap_ok {A} p (m : M A) w w' t a : wrap p m w = (w', t, inl a) → m w = (w', t, inl a).
Proof. unfold wrap. by destruct (m w) as [[w1 t1] [b|e]]; intros [= <- <- <-]. Qed.

Lemma rollback_target_listed n l target : rollback_target n l = inl target → target ∈ l.
Proof.
  unfold rollback_target. case_match eqn:Hlen; [done|]. apply Nat.ltb_ge in Hlen.
  case_match; [case_bool_decide; naive_solver|]. intros [= <-].
  apply list_elem_of_In, nth_In. lia.
Qed.

(** A rollback that gets through has switched [current]. *)
Lemma rollback_to_ok cmd p w w' t :
  rollback_to cmd p w = (w', t, inl tt) →
  let current := RBPath cmd +:+ "/current" in
  (∃ x, Ran Activate ("ln -sfn " +:+ p +:+ " " +:+ (current +:+ ".tmp")) (inl x) ∈ t) ∧
  (∃ x, Ran Activate ("mv -Tf " +:+ (current +:+ ".tmp") +:+ " " +:+ current) (inl x) ∈ t).
Proof.
  unfold rollback_to. cbv zeta. intros (w1 & t1 & [] & t2 & _ & Hb & ->)%bind_ok.
  apply bind_ok in Hb as (w2 & t3 & [] & t4 & H1 & Hb & ->).
  apply bind_ok in Hb as (w3 & t5 & [] & t6 & H2 & _ & ->).
  apply wrap_ok, must_ran in H1 as [x1 ->]. apply wrap_ok, must_ran in H2 as [x2 ->].
  split; [exists x1|exists x2]; rewrite !elem_of_app, !list_elem_of_singleton; tauto.
Qed.

(** A rollback that reports success answers from the listing: the release it names is
    one of the directories listed under [releases], there were at least two of them,
    it is the requested one when a number was given and the last but one of the
    listing otherwise, and [current] was moved to it. *)
Theorem rollback_spec (cmd : RollbackCommand) (w : World)
    (Hok : Success (Rollback cmd w).2 = true) :
  let releasesPath := RBPath cmd +:+ "/releases" in
  let currentPath := RBPath cmd +:+ "/current" in
  ∃ out target,
    let listing := split_on newline (TrimSpace (Stdout out)) in
    Ran List ("ls -1 " +:+ releasesPath +:+ " | sort -n") (inl out) ∈ (Rollback cmd w).1.2 ∧
    (2 ≤ length listing)%nat ∧ target ∈ listing ∧
    (0 < RBReleaseNumber cmd → target = pretty (RBReleaseNumber cmd)) ∧
    (RBReleaseNumber cmd ≤ 0 → listing !! (length listing - 2)%nat = Some target) ∧
    ReleasePath (Rollback cmd w).2 = releasesPath +:+ "/" +:+ target ∧
    (∃ x, Ran Activate ("ln -sfn " +:+ (releasesPath +:+ "/" +:+ target) +:+ " " +:+ (currentPath +:+ ".tmp")) (inl x)
            ∈ (Rollback cmd w).1.2) ∧
    (∃ x, Ran Activate ("mv -Tf " +:+ (currentPath +:+ ".tmp") +:+ " " +:+ currentPath) (inl x)
            ∈ (Rollback cmd w).1.2).
Proof.
  cbv zeta. revert Hok. unfold Rollback. cbv zeta.
  destruct (wrap _ _ w) as [[w1 t1] [out|e]] eqn:El; [|done].
  apply wrap_ok, bind_ok in El as (w2 & t2 & r & t3 & Hr & Hk & ->).
  destruct r as [x|e]; [|done]. injection Hk as <- <- ->.
  unfold run_cmd in Hr. destruct (Run w _ _) as [w3 r3] eqn:Erun. injection Hr as -> <- ->.
  destruct (rollback_target _ _) as [target|e] eqn:Et; [|done].
  destruct (rollback_to _ _ w2) as [[w4 t4] [[]|e]] eqn:Eb; [|done]. intros _.
  apply rollback_to_ok in Eb as [[x1 H1] [x2 H2]].
  exists out, target. split_and!; simpl.
  - left.
  - revert Et. unfold rollback_target. case_match eqn:Hn; [done|]. intros _. by apply Nat.ltb_ge.
  - by eapply rollback_target_listed.
  - intros Hpos. revert Et. unfold rollback_target. case_match; [done|].
    rewrite (proj2 (Z.ltb_lt 0 _) Hpos). case_bool_decide; naive_solver.
  - intros Hneg. revert Et. unfold rollback_target. case_match eqn:Hn; [done|]. apply Nat.ltb_ge in Hn.
    rewrite (proj2 (Z.ltb_ge 0 _) Hneg). intros [= <-].
    destruct (lookup_lt_is_Some_2 (split_on newline (TrimSpace (Stdout out)))
      (length (split_on newline (TrimSpace (Stdout out))) - 2)) as [y Hy]; [lia|].
    by rewrite Hy, (nth_lookup_Some _ _ _ _ Hy).
  - done.
  - exists x1. by right.
  - exists x2. by right.
Qed.

End strategy.

(** * Witnesses *)

(** Runners that answer every command with the same result. *)
Definition constant_runner (x : CommandResult) : CommandRunner :=
  {| World := unit; Run := λ w _ _, (w, inl x) |}.

Definition demo_settings : DeploySettings :=
  mkDeploySettings "symlink" 3 ["storage"] [".env"] ["cache"] "" "" 0.

Definition demo_command (pre post : list string) : DeployCommand :=
  mkDeployCommand "d1" "shop" "prod" "git@host:shop.git" "main" "" "/srv/shop" demo_settings ∅ [65; 66]
    pre post [mkServiceReload "nginx" "reload"].

Lemma activation_after_hooks_witness :
  let r := constant_runner (mkCommandResult 0 "" "") in
  let cmd := demo_command ["npm ci"] ["npm test"; "npm run build"] in
  let t := (@Deploy r cmd tt).1.2 in
  runs_at PreHook t = [("npm ci", true)] ∧
  runs_at PostHook t = [("npm test", true); ("npm run build", true)].
Proof.
  cbv zeta.
  apply (@activation_after_hooks (constant_runner (mkCommandResult 0 "" ""))
           (demo_command ["npm ci"] ["npm test"; "npm run build"]) tt Activate).
  - apply (bool_decide_unpack _). vm_compute. exact I.
  - vm_compute. lia.
Defined.

(** Every command exits with 128, and the deployment is reported successful. *)
Lemma exit_codes_ignored_witness :
  let r := constant_runner (mkCommandResult 128 "" "fatal: repository not found") in
  Success (@Deploy r (demo_command [] []) tt).2 = true.
Proof.
  cbv zeta.
  exact (proj1 (@exit_codes_ignored (constant_runner (mkCommandResult 128 "" "fatal: repository not found"))
                  (demo_command [] []) tt
                  ltac:(intros w c o; eexists _, _; reflexivity) eq_refl eq_refl
                  ltac:(repeat constructor; eexists; reflexivity))).
Defined.

Definition demo_rollback (n : Z) : RollbackCommand :=
  mkRollbackCommand "d1" "shop" "prod" "/srv/shop" n ["php artisan down"] [mkServiceReload "nginx" "reload"].

Definition three_releases : CommandResult :=
  mkCommandResult 0 ("1" +:+ String newline ("2" +:+ String newline ("3" +:+ String newline ""))) "".

Lemma rollback_spec_witness :
  let r := constant_runner three_releases in
  ReleasePath (@Rollback r (demo_rollback 0) tt).2 = "/srv/shop/releases/2" ∧
  ∃ x, Ran Activate "mv -Tf /srv/shop/current.tmp /srv/shop/current" (inl x)
         ∈ (@Rollback r (demo_rollback 0) tt).1.2.
Proof.
  cbv zeta. split; [vm_compute; reflexivity|].
  destruct (@rollback_spec (constant_runner three_releases) (demo_rollback 0) tt
              ltac:(vm_compute; reflexivity)) as (out & target & _ & _ & _ & _ & _ & _ & _ & x & Hx).
  exists x. exact Hx.
Defined.
