(* ===== verification/AgentRunner.v ===== *)
(** The agent's local command runner ([src/internal/agent/runner.go]) and the
    deployments it can run.

    The operating system is a parameter: the process environment, the lines of the
    files under [/etc], and what running [bash -c] does.  The runner is an instance
    of the strategy's [CommandRunner]. *)

From stdpp Require Import pretty gmap.
From S2P Require Import Prelude GoStrings CmdValidator Deploy.

#[local] Open Scope string_scope.
#[local] Open Scope list_scope.
#[local] Open Scope Z_scope.

(** * The host *)

(** [os.Open] and a [bufio.Scanner] over the file: the error of opening it, or its
    lines with the error that ended the scan.  [bash] stands for
    [exec.CommandContext(ctx, "bash", "-c", cmd).CombinedOutput()] with the
    directory, the environment ([None]: inherited) and the credentials: the exit
    code with the output, or an error that is not an exit status. *)
Class Host := {
  HostWorld : Type;
  environ : list string;
  open_lines : HostWorld → string → (list string * option string) + string;
  bash : HostWorld → string → string → option (list string) → option (Z * Z) →
         HostWorld * (Z * string + string)
}.

Record LocalRunner := mkLocalRunner {
  validator : option CommandValidator;
  FailOpenOnUserLookup : bool
}.

Definition NewLocalRunner : LocalRunner := mkLocalRunner (Some NewCommandValidator) false.

Definition NewLocalRunnerWithValidator (v : option CommandValidator) : LocalRunner := mkLocalRunner v false.

Section runner.
Context `{Host, MapRange}.

(** ** Users and groups *)

(** The loop shared by the three lookups: the first line whose first field is the
    name and that has at least [need] fields; [column] is the number read. *)
Fixpoint scan_lines (need column : nat) (name what : string) (lines : list string) : option (Z + string) :=
  match lines with
  | [] => None
  | line :: lines' =>
      let fields := split_on colon line in
      if HasPrefix line "#" then scan_lines need column name what lines'
      else if (length fields <? need)%nat then scan_lines need column name what lines'
      else if bool_decide (nth 0 fields "" = name) then
        (* the text of the parse error is left out *)
        Some (match Atoi (nth column fields "") with
              | Some n => inl n
              | None => inr ("parse " +:+ what)
              end)
      else scan_lines need column name what lines'
  end.

Definition lookup_in (w : HostWorld) (path file : string) (need column : nat) (name what missing : string)
    : Z + string :=
  match open_lines w path with
  | inr e => inr ("open " +:+ file +:+ ": " +:+ e)
  | inl (lines, scan_error) =>
      match scan_lines need column name what lines with
      | Some r => r
      | None =>
          match scan_error with
          | Some e => inr ("reading " +:+ file +:+ " file: " +:+ e)
          | None => inr (missing +:+ " not found: " +:+ name)
          end
      end
  end.

Definition lookupUser (w : HostWorld) (username : string) : Z + string :=
  match Atoi username with
  | Some uid => inl uid
  | None => lookup_in w "/etc/passwd" "passwd" 3 2 username "uid" "user"
  end.

Definition lookupGroup (w : HostWorld) (groupname : string) : Z + string :=
  match Atoi groupname with
  | Some gid => inl gid
  | None => lookup_in w "/etc/group" "group" 3 2 groupname "gid" "group"
  end.

Definition lookupUserPrimaryGroup (w : HostWorld) (username : string) : Z + string :=
  lookup_in w "/etc/passwd" "passwd" 4 3 username "gid" "user".

Definition max_uint32 : Z := 4294967295.

(** [setUserGroup]: the credentials of the process, none when the lookup failed and
    the runner fails open. *)
Definition setUserGroup (r : LocalRunner) (w : HostWorld) (user group : string)
    : option (Z * Z) + string :=
  match lookupUser w user with
  | inr e =>
      if FailOpenOnUserLookup r then inl None
      else inr ("user lookup failed for " +:+ quote user +:+ ": " +:+ e)
  | inl uid =>
      let gid :=
        if bool_decide (group = "") then
          match lookupUserPrimaryGroup w user with
          | inl primaryGid => inl primaryGid
          | inr e => if FailOpenOnUserLookup r then inl uid
                     else inr ("primary group lookup failed for user " +:+ quote user +:+ ": " +:+ e)
          end
        else
          match lookupGroup w group with
          | inl gid => inl gid
          | inr e => if FailOpenOnUserLookup r then inl 0
                     else inr ("group lookup failed for " +:+ quote group +:+ ": " +:+ e)
          end in
      match gid with
      | inr e => inr e
      | inl gid =>
          if (uid <? 0) || (max_uint32 <? uid)
          then inr ("invalid uid " +:+ pretty uid +:+ ": must be in range [0, 4294967295]")
          else if (gid <? 0) || (max_uint32 <? gid)
          then inr ("invalid gid " +:+ pretty gid +:+ ": must be in range [0, 4294967295]")
          else inl (Some (uid, gid))
      end
  end.

(** ** Running *)

(** [int(opts.Timeout.Seconds())], for timeouts below the range where seconds and
    nanoseconds no longer fit a [float64] together. *)
Definition buildCommand (cmd : string) (opts : RunOptions) : string :=
  if 0 <? Timeout opts then "timeout " +:+ pretty (Timeout opts ÷ 1000000000) +:+ " " +:+ cmd else cmd.

Definition buildEnv (env : gmap string string) : list string :=
  environ ++ ((λ kv, kv.1 +:+ "=" +:+ kv.2) <$> range env).

Definition LocalRunner_Run (r : LocalRunner) (w : HostWorld) (cmd : string) (opts : RunOptions)
    : HostWorld * (CommandResult + string) :=
  match validator r with
  | None => (w, inr "command validation failed: validator is required")
  | Some v =>
      match Validate v cmd with
      | Some e => (w, inr ("command validation failed: " +:+ CommandError_Error e))
      | None =>
          let fullCmd := buildCommand cmd opts in
          let env := if bool_decide (RunEnv opts = ∅) then None else Some (buildEnv (RunEnv opts)) in
          let cred := if bool_decide (User opts = "") then inl None
                      else setUserGroup r w (User opts) (Group opts) in
          match cred with
          | inr e => (w, inr ("setting user/group: " +:+ e))
          | inl cred =>
              match bash w fullCmd (WorkDir opts) env cred with
              | (w', inl (code, output)) => (w', inl (mkCommandResult code output ""))
              | (w', inr e) => (w', inr ("running command: " +:+ e))
              end
          end
      end
  end.

Definition local_runner (r : LocalRunner) : CommandRunner :=
  {| World := HostWorld; Run := LocalRunner_Run r |}.

(** [NewAgent]: the strategy over a runner with the default validator. *)
Definition agent_runner : CommandRunner := local_runner NewLocalRunner.

(** A command the validator refuses reaches no shell. *)
Lemma Run_refused v w cmd opts sub :
  sub ∈ BlockedSubstrings v → Contains cmd sub = true →
  ∃ e, LocalRunner_Run (mkLocalRunner (Some v) false) w cmd opts = (w, inr e).
Proof.
  intros Hin Hc. unfold LocalRunner_Run. simpl.
  destruct (Validate_blocked v cmd sub Hin Hc) as [e ->]. eauto.
Qed.

End runner.

(** * The agent cannot deploy *)

Section agent.
Context `{Host, MapRange}.

#[local] Existing Instance agent_runner.

Lemma agent_refuses w cmd opts sub :
  sub ∈ defaultBlockedSubstrings → Contains cmd sub = true → ∃ e, Run w cmd opts = (w, inr e).
Proof. apply (Run_refused NewCommandValidator). Qed.

Lemma agent_archive_refused w repo ref p o :
  ∃ w' e, Run w ("git -C " +:+ repo +:+ " archive " +:+ ref +:+ " | tar -x -C " +:+ p) o = (w', inr e).
Proof.
  exists w. apply (agent_refuses _ _ _ "|").
  - vm_compute. repeat first [left|right].
  - do 4 apply Contains_app_r. vm_compute. reflexivity.
Qed.

(** C3: The agent refuses the commands of its own deployment strategy.  [NewAgent] gives
    the symlink strategy a runner with the default validator, whose blocklist has
    the pipe; [createRelease] runs [git archive ... | tar ...] and [Rollback] lists
    the releases with [ls ... | sort -n].  So on every host, from every state and
    for every command, the agent's deployments and rollbacks fail, and none gets as
    far as linking or switching a release. *)
Theorem agent_never_deploys (w : HostWorld) (cmd : DeployCommand) (rcmd : RollbackCommand) :
  Success (@Deploy agent_runner cmd w).2 = false ∧
  (∀ s, s ∈ stages (@Deploy agent_runner cmd w).1.2 → (rank s ≤ rank Release)%nat) ∧
  Success (@Rollback agent_runner rcmd w).2 = false ∧ stages (@Rollback agent_runner rcmd w).1.2 = [List].
Proof.
  destruct (no_archive_deploy agent_archive_refused cmd w) as [H1 H2]. split_and!; [done..| |].
  all: unfold Rollback, wrap, bind, run_cmd; cbv zeta;
    destruct (agent_refuses w ("ls -1 " +:+ (RBPath rcmd +:+ "/releases") +:+ " | sort -n") no_options "|") as [e He];
    [vm_compute; repeat first [left|right]|do 2 apply Contains_app_r; vm_compute; reflexivity|];
    rewrite He; done.
Qed.

(** When it fails open, a group that cannot be looked up gives the process group id
    0, not the user's: the failed lookup has already overwritten [gid].  The comment
    says that it defaults to the uid. *)
Theorem fail_open_group_is_root (v : option CommandValidator) (w : HostWorld) (user group : string) (uid : Z)
    (e : string) (Hu : lookupUser w user = inl uid) (Hr : 0 ≤ uid ≤ max_uint32)
    (Hg : group ≠ "") (Hl : lookupGroup w group = inr e) :
  setUserGroup (mkLocalRunner v true) w user group = inl (Some (uid, 0)).
Proof.
  unfold setUserGroup. rewrite Hu, Hl, bool_decide_eq_false_2 by done. simpl.
  rewrite (proj2 (Z.ltb_ge uid 0)), (proj2 (Z.ltb_ge max_uint32 uid)) by lia. done.
Qed.

End agent.

(** A host with one user and no groups. *)
Definition demo_host : Host :=
  {| HostWorld := unit;
     environ := ["PATH=/bin"];
     open_lines := λ _ path,
       inl (if bool_decide (path = "/etc/passwd") then ["# users"; "deploy:x:1001:1001::/home/deploy:/bin/sh"] else [],
            None);
     bash := λ w cmd dir env cred, (w, inl (0, "")) |}.

Lemma fail_open_group_is_root_witness :
  @setUserGroup demo_host (mkLocalRunner None true) tt "deploy" "www-data" = inl (Some (1001, 0)).
Proof.
  apply (@fail_open_group_is_root demo_host None tt "deploy" "www-data" 1001 "group not found: www-data").
  - vm_compute. reflexivity.
  - vm_compute. split; discriminate.
  - discriminate.
  - vm_compute. reflexivity.
Defined.
