(* ===== verification/Threads.v ===== *)
(** Concurrent calls on shared state.

    A method is a program of atomic actions (its critical sections, its reads of
    the clock, its calls of callbacks); between two actions of a call other calls
    may run.  An action gets an environment: what it reads from outside the shared
    state.  [exec] runs a call alone, [step] lets any thread of a pool take one
    action. *)

From S2P Require Import Prelude.

Section threads.
Context {S E : Type}.

(** [Act f k] changes the state with [f] and goes on with [k], both looking at the
    state before the action. *)
Inductive prog (A : Type) : Type :=
| Ret (a : A)
| Act (f : E → S → S) (k : E → S → prog A).

Arguments Ret {A} a.
Arguments Act {A} f k.

Fixpoint pbind {A B} (m : prog A) (k : A → prog B) : prog B :=
  match m with
  | Ret a => k a
  | Act f k' => Act f (λ e s, pbind (k' e s) k)
  end.

(** An action on its own, with a result. *)
Definition atomic {B} (f : E → S → S * B) : prog B :=
  Act (λ e s, (f e s).1) (λ e s, Ret (f e s).2).

(** ** Alone *)

(** Every action takes the next environment; [None] when there are too few. *)
Fixpoint exec {A} (m : prog A) (es : list E) (s : S) : option (S * A) :=
  match m with
  | Ret a => Some (s, a)
  | Act f k =>
      match es with
      | [] => None
      | e :: es' => exec (k e s) es' (f e s)
      end
  end.

(** The call run alone can go from one state to another and return a value. *)
Inductive runs {A} : prog A → S → S → A → Prop :=
| runs_ret a s : runs (Ret a) s s a
| runs_act f k e s s' a : runs (k e s) (f e s) s' a → runs (Act f k) s s' a.

Lemma exec_runs {A} (m : prog A) es s s' a : exec m es s = Some (s', a) → runs m s s' a.
Proof.
  revert es s. induction m as [a0|f k IH]; intros es s; simpl.
  - intros [= <- <-]. constructor.
  - destruct es as [|e es]; [done|]. intros He. eapply (runs_act _ _ e). by eapply IH.
Qed.

Lemma runs_Ret {A} (a b : A) s s' : runs (Ret a) s s' b ↔ s' = s ∧ b = a.
Proof. split; [by inversion 1|]. intros [-> ->]. constructor. Qed.

Lemma runs_Act {A} f (k : E → S → prog A) s s' a :
  runs (Act f k) s s' a ↔ ∃ e, runs (k e s) (f e s) s' a.
Proof. split; [inversion 1; eauto|]. intros [e He]. by econstructor. Qed.

Lemma runs_bind {A B} (m : prog A) (k : A → prog B) s s' b :
  runs (pbind m k) s s' b ↔ ∃ s1 a, runs m s s1 a ∧ runs (k a) s1 s' b.
Proof.
  split.
  - revert s. induction m as [a0|f k' IH]; intros s; simpl; intros Hr.
    + eexists _, _. split; [constructor|done].
    + apply runs_Act in Hr as [e Hk]. apply IH in Hk as (s2 & a & H1 & H2).
      exists s2, a. split; [by econstructor|done].
  - intros (s1 & a & H1 & H2). revert H2. induction H1; intros Hk; simpl; [done|].
    econstructor. eauto.
Qed.

Lemma runs_atomic {B} (f : E → S → S * B) s s' b : runs (atomic f) s s' b ↔ ∃ e, f e s = (s', b).
Proof.
  unfold atomic. rewrite runs_Act. split; intros [e He]; exists e.
  - apply runs_Ret in He as [-> ->]. by destruct (f e s).
  - rewrite He. constructor.
Qed.

(** ** Together *)

(** A thread of the pool takes its next action, or a new call starts. *)
Inductive step {A} (calls : prog A → Prop) : list (prog A) * S → list (prog A) * S → Prop :=
| step_act ts i f k e s :
    ts !! i = Some (Act f k) → step calls (ts, s) (<[i := k e s]> ts, f e s)
| step_call ts m s : calls m → step calls (ts, s) (ts ++ [m], s).

Definition interleave {A} (calls : prog A → Prop) : list (prog A) * S → list (prog A) * S → Prop :=
  rtc (step calls).

(** A schedule: which thread of the pool acts, in which environment. *)
Fixpoint play {A} (schedule : list (nat * E)) (c : list (prog A) * S) : option (list (prog A) * S) :=
  match schedule with
  | [] => Some c
  | (i, e) :: rest =>
      match c.1 !! i with
      | Some (Act f k) => play rest (<[i := k e c.2]> c.1, f e c.2)
      | _ => None
      end
  end.

Lemma play_interleave {A} (calls : prog A → Prop) schedule c c' :
  play schedule c = Some c' → interleave calls c c'.
Proof.
  revert c. induction schedule as [|[i e] rest IH]; intros [ts s]; simpl.
  { intros [= <-]. constructor. }
  destruct (ts !! i) as [[a|f k]|] eqn:Hi; [done| |done]. intros Hp.
  eapply rtc_l; [by apply (step_act _ _ _ _ _ e s Hi)|by apply IH].
Qed.

Lemma interleave_calls {A} (calls : prog A → Prop) ms ts s :
  Forall calls ms → interleave calls (ts, s) (ts ++ ms, s).
Proof.
  revert ts. induction ms as [|m ms IH]; intros ts Hms.
  { rewrite app_nil_r. constructor. }
  apply Forall_cons in Hms as [Hm Hms]. eapply rtc_l; [by apply step_call|].
  replace (ts ++ m :: ms) with ((ts ++ [m]) ++ ms) by (by rewrite <- app_assoc). by apply IH.
Qed.

(** Every action the program can take preserves the invariant. *)
Inductive keeps {A} (I : S → Prop) : prog A → Prop :=
| keeps_ret a : keeps I (Ret a)
| keeps_act f k :
    (∀ e s, I s → I (f e s)) → (∀ e s, I s → keeps I (k e s)) → keeps I (Act f k).

Lemma keeps_bind {A B} I (m : prog A) (k : A → prog B) :
  keeps I m → (∀ a, keeps I (k a)) → keeps I (pbind m k).
Proof. intros Hm Hk. induction Hm; simpl; [done|]. constructor; auto. Qed.

Lemma keeps_atomic {B} I (f : E → S → S * B) : (∀ e s, I s → I (f e s).1) → keeps I (atomic f).
Proof. intros Hf. constructor; [done|]. intros e s _. constructor. Qed.

Lemma keeps_runs {A} I (m : prog A) s s' a : keeps I m → runs m s s' a → I s → I s'.
Proof.
  intros Hm Hr. induction Hr as [|f k e s s' a Hr IH]; [done|].
  inversion Hm as [|? ? Hf Hk]; simplify_eq. intros Hs. apply IH; [by apply Hk|by apply Hf].
Qed.

(** An invariant every call keeps holds in every interleaving. *)
Lemma interleave_inv {A} (calls : prog A → Prop) I ts s ts' s' :
  (∀ m, calls m → keeps I m) → interleave calls (ts, s) (ts', s') →
  Forall (keeps I) ts → I s → I s'.
Proof.
  intros Hcalls Hsteps. remember (ts, s) as c eqn:Ec. remember (ts', s') as c' eqn:Ec'.
  revert ts s Ec. induction Hsteps as [c|c c1 c2 Hstep _ IH]; intros ts s ->.
  { by simplify_eq. }
  inversion Hstep as [ts0 i f k e s0 Hi|ts0 m s0 Hm]; simplify_eq; intros Hts Hs.
  - pose proof (Forall_lookup_1 _ _ _ _ Hts Hi) as Hk.
    inversion Hk as [|? ? Hf Hk']; simplify_eq.
    eapply IH; [done|done| |by apply Hf]. apply Forall_insert; [done|by apply Hk'].
  - eapply IH; [done|done| |done]. apply Forall_app_2; [done|]. constructor; auto.
Qed.

End threads.

Arguments prog : clear implicits.
Arguments Ret {S E A} a.
Arguments Act {S E A} f k.

Declare Scope prog_scope.
Delimit Scope prog_scope with prog.
Notation "x <- m ;; k" := (pbind m (fun x => k))
  (at level 100, m at next level, k at level 200, right associativity) : prog_scope.
Notation "m ;; k" := (pbind m (fun _ => k))
  (at level 100, k at level 200, right associativity) : prog_scope.
