(* ===== verification/Orchestrator.v ===== *)
(** The deployment orchestrator ([src/internal/deploy/orchestrator.go]), under
    concurrent calls.

    The orchestrator is shared by the API handlers and the callbacks of the agents.
    Its methods take the map lock and the lock of a deployment for short stretches,
    so another call can run between the lookup of a deployment, the change of it and
    the notification.  Each stretch is an action of a program of [Threads].

    [*Deployment] pointers are locations of a heap: a deployment removed from the
    map can still be written by a call that looked it up before.  The callbacks only
    leave an event; what [sendCommand] answers comes from the environment of the
    action, like the time and the new identifier. *)

From stdpp Require Import gmap.
From S2P Require Import Prelude Deploy Threads.

#[local] Open Scope string_scope.
#[local] Open Scope list_scope.
#[local] Open Scope Z_scope.
#[local] Open Scope prog_scope.

Module Orch.

(** * Data *)

Definition DeploymentStatus : Type := string.

Definition StatusPending : DeploymentStatus := "pending".
Definition StatusQueued : DeploymentStatus := "queued".
Definition StatusPreparing : DeploymentStatus := "preparing".
Definition StatusCloning : DeploymentStatus := "cloning".
Definition StatusBuilding : DeploymentStatus := "building".
Definition StatusDeploying : DeploymentStatus := "deploying".
Definition StatusVerifying : DeploymentStatus := "verifying".
Definition StatusCompleted : DeploymentStatus := "completed".
Definition StatusFailed : DeploymentStatus := "failed".
Definition StatusCancelled : DeploymentStatus := "cancelled".
Definition StatusRollingBack : DeploymentStatus := "rolling_back".

Record LogEntry := mkLogEntry {
  Timestamp : time;
  Level : LogLevel;
  Message : string;
  Source : string
}.

Record Deployment := mkDeployment {
  ID : string;
  ProjectID : string;
  TargetID : string;
  AgentID : string;
  Status : DeploymentStatus;
  Progress : Z;
  CurrentStep : string;
  ReleaseNumber : Z;
  Repository : string;
  Branch : string;
  Commit : string;
  CreatedAt : time;
  StartedAt : option time;
  CompletedAt : option time;
  TriggeredBy : string;
  TriggerSource : string;
  Error : option string;
  Logs : list LogEntry
}.

Record DeployRequest := mkDeployRequest {
  ReqProjectID : string;
  ReqTargetID : string;
  ReqAgentID : string;
  ReqRepository : string;
  ReqBranch : string;
  ReqCommit : string;
  ReqPath : string;
  ReqSettings : DeploySettings;
  ReqEnvVars : gmap string string;
  ReqEnvFileContent : list Z;
  ReqPreDeployHooks : list string;
  ReqPostDeployHooks : list string;
  ReqReloadServices : list ServiceReload;
  ReqTriggeredBy : string;
  ReqTriggerSource : string
}.

Record RollbackRequest := mkRollbackRequest {
  RbProjectID : string;
  RbTargetID : string;
  RbAgentID : string;
  RbPath : string;
  RbReleaseNumber : Z;
  RbRollbackHooks : list string;
  RbReloadServices : list ServiceReload;
  RbTriggeredBy : string
}.

(** Calls of the callbacks. *)
Inductive event :=
| StatusChange (deploymentID : string) (status : DeploymentStatus)
| OnLog (deploymentID : string) (entry : LogEntry)
| SendCommand (agentID : string) (cmd : DeployCommand) (answer : option string).

(** Which callbacks [OrchestratorConfig] has. *)
Record OrchestratorConfig := mkConfig {
  onStatusChange : bool;
  onLog : bool;
  sendCommand : bool
}.

Definition loc := nat.

Record State := mkState {
  heap : gmap loc Deployment;
  deployments : gmap string loc;
  events : list event
}.

(** [NewOrchestrator] *)
Definition NewOrchestrator : State := mkState ∅ ∅ [].

(** What an action reads from outside: [time.Now()], [xid.New()], the answer of
    [sendCommand]. *)
Record Env := mkEnv { now : time; xid : string; answer : option string }.

Definition P := prog State Env.

Definition finished (status : DeploymentStatus) : bool :=
  bool_decide (status = StatusCompleted) || bool_decide (status = StatusFailed)
  || bool_decide (status = StatusCancelled).

Section orchestrator.
Context (cfg : OrchestratorConfig).

(** * Actions *)

Definition emit (e : event) : P unit := atomic (λ _ s, ({| s with events := events s ++ [e] |}, tt)).

(** [o.deployments[id]] under the read lock. *)
Definition lookup_deployment (id : string) : P (option loc) := atomic (λ _ s, (s, deployments s !! id)).

(** A stretch under the lock of a deployment. *)
Definition update (l : loc) (f : Env → Deployment → Deployment) : P unit :=
  atomic (λ e s, ({| s with heap := alter (f e) l (heap s) |}, tt)).

Definition read (l : loc) : P (option Deployment) := atomic (λ _ s, (s, heap s !! l)).

(** The new record is stored under the write lock. *)
Definition store (d : Env → Deployment) : P (string * loc) :=
  atomic (λ e s,
    let l := fresh (dom (heap s)) in
    ({| s with heap := <[l := d e]> (heap s);
        deployments := <[ID (d e) := l]> (deployments s) |}, (ID (d e), l))).

Definition notifyStatusChange (id : string) (status : DeploymentStatus) : P unit :=
  if onStatusChange cfg then emit (StatusChange id status) else Ret tt.

(** * Methods *)

(** The helpers do nothing for an identifier that is not in the map. *)
Definition with_deployment (id : string) (k : loc → P unit) : P unit :=
  p <- lookup_deployment id ;;
  match p with None => Ret tt | Some l => k l end.

Definition updateStatus (id : string) (status : DeploymentStatus) : P unit :=
  with_deployment id (λ l,
    update l (λ _ d, {| d with Status := status |}) ;;
    notifyStatusChange id status).

Definition updateStatusWithError (id : string) (status : DeploymentStatus) (err : string) : P unit :=
  with_deployment id (λ l,
    update l (λ e d, {| d with Status := status; Error := Some err; CompletedAt := Some (now e) |}) ;;
    notifyStatusChange id status).

(** The record the methods return is the location of the deployment. *)
Definition Deploy (req : DeployRequest) : P (option loc * option string) :=
  if bool_decide (ReqProjectID req = "") then Ret (None, Some "project_id is required")
  else if bool_decide (ReqAgentID req = "") then Ret (None, Some "agent_id is required")
  else if bool_decide (ReqRepository req = "") then Ret (None, Some "repository is required")
  else
    r <- store (λ e,
           mkDeployment (xid e) (ReqProjectID req) (ReqTargetID req) (ReqAgentID req) StatusPending 0 "" 0
             (ReqRepository req) (ReqBranch req) (ReqCommit req) (now e) None None
             (ReqTriggeredBy req) (ReqTriggerSource req) None []) ;;
    (let '(id, l) := r in
     notifyStatusChange id StatusPending ;;
     (let cmd := mkDeployCommand id (ReqProjectID req) (ReqTargetID req) (ReqRepository req)
                   (ReqBranch req) (ReqCommit req) (ReqPath req) (ReqSettings req) (ReqEnvVars req)
                   (ReqEnvFileContent req) (ReqPreDeployHooks req) (ReqPostDeployHooks req)
                   (ReqReloadServices req) in
      if sendCommand cfg then
        updateStatus id StatusQueued ;;
        a <- atomic (λ e s, ({| s with events := events s ++ [SendCommand (ReqAgentID req) cmd (answer e)] |},
                             answer e)) ;;
        match a with
        | Some err =>
            updateStatusWithError id StatusFailed err ;;
            Ret (Some l, Some ("sending deploy command: " +:+ err))
        | None => Ret (Some l, None)
        end
      else Ret (Some l, None))).

Definition Rollback (req : RollbackRequest) : P (option loc * option string) :=
  if bool_decide (RbProjectID req = "") then Ret (None, Some "project_id is required")
  else if bool_decide (RbAgentID req = "") then Ret (None, Some "agent_id is required")
  else
    r <- store (λ e,
           mkDeployment (xid e) (RbProjectID req) (RbTargetID req) (RbAgentID req) StatusRollingBack 0 "" 0
             "" "" "" (now e) None None (RbTriggeredBy req) "rollback" None []) ;;
    (let '(id, l) := r in notifyStatusChange id StatusRollingBack ;; Ret (Some l, None)).

(** The status is looked at and changed in two stretches. *)
Definition Cancel (id reason : string) : P (option string) :=
  p <- lookup_deployment id ;;
  match p with
  | None => Ret (Some ("deployment " +:+ id +:+ " not found"))
  | Some l =>
      d <- read l ;;
      if match d with Some d => finished (Status d) | None => false end
      then Ret (Some ("deployment " +:+ id +:+ " is already finished"))
      else updateStatusWithError id StatusCancelled ("cancelled: " +:+ reason) ;; Ret None
  end.

Definition GetDeployment (id : string) : P (option loc) := lookup_deployment id.

Definition ListDeployments `{MapRange} : P (list loc) := atomic (λ _ s, (s, range_values (deployments s))).

(** [d.ProjectID] is read without the lock of the deployment; it never changes. *)
Definition ListProjectDeployments `{MapRange} (projectID : string) : P (list loc) :=
  atomic (λ _ s,
    (s, filter (λ l, (ProjectID <$> heap s !! l) = Some projectID) (range_values (deployments s)))).

Definition UpdateDeploymentStatus (id : string) (status : DeploymentStatus) (progress : Z)
    (currentStep : string) : P unit :=
  with_deployment id (λ l,
    update l (λ e d,
      {| d with Status := status; Progress := progress; CurrentStep := currentStep;
         StartedAt := if bool_decide (status = StatusDeploying) && bool_decide (StartedAt d = None)
                      then Some (now e) else StartedAt d;
         CompletedAt := if finished status then Some (now e) else CompletedAt d |}) ;;
    notifyStatusChange id status).

Definition AddDeploymentLog (id : string) (entry : LogEntry) : P unit :=
  with_deployment id (λ l,
    update l (λ _ d, {| d with Logs := Logs d ++ [entry] |}) ;;
    if onLog cfg then emit (OnLog id entry) else Ret tt).

Definition SetReleaseNumber (id : string) (n : Z) : P unit :=
  with_deployment id (λ l, update l (λ _ d, {| d with ReleaseNumber := n |})).

Definition SetError (id err : string) : P unit := updateStatusWithError id StatusFailed err.

(** The loop of [CleanupOldDeployments] over the map as it was when the read lock
    was taken, reading each deployment under its own lock. *)
Fixpoint collect_old (cutoff : time) (l : list (string * loc)) : P (list string) :=
  match l with
  | [] => Ret []
  | (id, p) :: l' =>
      d <- read p ;;
      rest <- collect_old cutoff l' ;;
      Ret (match d with
           | Some d =>
               if finished (Status d)
                  && match CompletedAt d with Some c => Before c cutoff | None => false end
               then id :: rest else rest
           | None => rest
           end)
  end.

Definition CleanupOldDeployments `{MapRange} (maxAge : Z) : P Z :=
  cutoff <- atomic (λ e s, (s, now e - maxAge)) ;;
  l <- atomic (λ _ s, (s, range (deployments s))) ;;
  toRemove <- collect_old cutoff l ;;
  if bool_decide (toRemove = []) then Ret 0
  else
    atomic (λ _ s, ({| s with deployments := foldl (λ m id, delete id m) (deployments s) toRemove |}, tt)) ;;
    Ret (len toRemove).

End orchestrator.

(** * Every interleaving *)

Inductive call :=
| CDeploy (req : DeployRequest)
| CRollback (req : RollbackRequest)
| CCancel (id reason : string)
| CUpdateDeploymentStatus (id : string) (status : DeploymentStatus) (progress : Z) (currentStep : string)
| CAddDeploymentLog (id : string) (entry : LogEntry)
| CSetReleaseNumber (id : string) (n : Z)
| CSetError (id err : string)
| CCleanupOldDeployments (maxAge : Z)
| CListDeployments
| CListProjectDeployments (projectID : string).

Definition void {A} (m : P A) : P unit := m ;; Ret tt.

Definition body `{MapRange} (cfg : OrchestratorConfig) (c : call) : P unit :=
  match c with
  | CDeploy req => void (Deploy cfg req)
  | CRollback req => void (Rollback cfg req)
  | CCancel id reason => void (Cancel cfg id reason)
  | CUpdateDeploymentStatus id st p step => UpdateDeploymentStatus cfg id st p step
  | CAddDeploymentLog id entry => AddDeploymentLog cfg id entry
  | CSetReleaseNumber id n => SetReleaseNumber id n
  | CSetError id err => SetError cfg id err
  | CCleanupOldDeployments maxAge => void (CleanupOldDeployments maxAge)
  | CListDeployments => void ListDeployments
  | CListProjectDeployments p => void (ListProjectDeployments p)
  end.

(** The program of some call. *)
Definition calls `{MapRange} (cfg : OrchestratorConfig) (m : P unit) : Prop := ∃ c, m = body cfg c.

(** What holds of a record at all times. *)
Definition record_ok (d : Deployment) : Prop :=
  (finished (Status d) = true → is_Some (CompletedAt d)) ∧ (is_Some (Error d) → is_Some (CompletedAt d)).

Record wf (s : State) : Prop := mk_wf {
  wf_index : ∀ id l, deployments s !! id = Some l → ∃ d, heap s !! l = Some d ∧ ID d = id;
  wf_records : map_Forall (λ _ d, record_ok d) (heap s)
}.

(** A change of one record. *)
Definition good_update (f : Env → Deployment → Deployment) : Prop :=
  ∀ e d, ID (f e d) = ID d ∧ (record_ok d → record_ok (f e d)).

Lemma wf_update f e l s :
  good_update f → wf s → wf {| s with heap := alter (f e) l (heap s) |}.
Proof.
  intros Hf [Hi Hr]. split; simpl.
  - intros id l' Hl. destruct (Hi _ _ Hl) as (d & Hd & <-). destruct (decide (l' = l)) as [->|Hn].
    + exists (f e d). rewrite lookup_alter_eq, Hd. split; [done|apply Hf].
    + exists d. by rewrite lookup_alter_ne.
  - intros l' d. destruct (decide (l' = l)) as [->|Hn].
    + rewrite lookup_alter_eq. intros (d' & Hd & ->)%fmap_Some. apply Hf. by eapply Hr.
    + rewrite lookup_alter_ne by done. apply Hr.
Qed.

Lemma wf_store d s :
  record_ok d → wf s →
  wf {| s with heap := <[fresh (dom (heap s)) := d]> (heap s);
        deployments := <[ID d := fresh (dom (heap s))]> (deployments s) |}.
Proof.
  intros Hd [Hi Hr]. pose proof (is_fresh (dom (heap s))) as Hf. apply not_elem_of_dom in Hf.
  split; simpl.
  - intros id l. rewrite lookup_insert_Some. intros [[<- <-]|[Hn Hl]].
    + exists d. by rewrite lookup_insert_eq.
    + destruct (Hi _ _ Hl) as (d' & Hd' & <-). exists d'. rewrite lookup_insert_ne by congruence. done.
  - by apply map_Forall_insert_2.
Qed.

(** The invariant does not look at the events. *)
Lemma wf_events s ev : wf s → wf {| s with events := ev |}.
Proof. intros [Hi Hr]. by split. Qed.

Lemma wf_fewer_entries s m : m ⊆ deployments s → wf s → wf {| s with deployments := m |}.
Proof. intros Hm [Hi Hr]. split; simpl; [|done]. intros id l Hl. apply Hi. by eapply lookup_weaken. Qed.

Lemma foldl_delete_subseteq (ids : list string) (m : gmap string loc) : foldl (λ m id, delete id m) m ids ⊆ m.
Proof.
  revert m. induction ids as [|id ids IH]; intros m; simpl; [done|].
  etransitivity; [apply IH|apply delete_subseteq].
Qed.

Lemma foldl_delete_ids (ids : list string) (m : gmap string loc) k :
  foldl (λ m id, delete id m) m ids !! k = if decide (k ∈ ids) then None else m !! k.
Proof.
  revert m. induction ids as [|id ids IH]; intros m; [done|]. simpl foldl. rewrite IH.
  destruct (decide (k = id)) as [->|Hn].
  - rewrite lookup_delete_eq, (decide_True (P := id ∈ id :: _)) by left. by case_decide.
  - rewrite lookup_delete_ne by done. apply decide_ext. rewrite elem_of_cons. tauto.
Qed.

Section keeps.
Context `{MapRange} (cfg : OrchestratorConfig).

Lemma keeps_emit ev : keeps wf (emit ev).
Proof. apply keeps_atomic. intros e s Hs. by apply wf_events. Qed.

Lemma keeps_notify id st : keeps wf (notifyStatusChange cfg id st).
Proof. unfold notifyStatusChange. destruct (onStatusChange cfg); [apply keeps_emit|constructor]. Qed.

Lemma keeps_query {A} (f : Env → State → A) : keeps wf (atomic (λ e s, (s, f e s))).
Proof. by apply keeps_atomic. Qed.

Lemma keeps_update l f : good_update f → keeps wf (update l f).
Proof. intros Hf. apply keeps_atomic. intros e s Hs. by apply wf_update. Qed.

Lemma keeps_store d : (∀ e, record_ok (d e)) → keeps wf (store d).
Proof. intros Hd. apply keeps_atomic. intros e s Hs. by apply wf_store. Qed.

Lemma keeps_with id k : (∀ l, keeps wf (k l)) → keeps wf (with_deployment id k).
Proof. intros Hk. apply keeps_bind; [apply keeps_query|]. intros [l|]; [done|constructor]. Qed.

Lemma new_record_ok d : Error d = None → finished (Status d) = false → record_ok d.
Proof. intros He Hs. split; [congruence|]. rewrite He. by intros []. Qed.

Lemma keeps_updateStatus id st : finished st = false → keeps wf (updateStatus cfg id st).
Proof.
  intros Hst. apply keeps_with. intros l. apply keeps_bind; [|intros _; apply keeps_notify].
  apply keeps_update. intros e d. split; [done|]. intros [_ H2]. split; simpl; [congruence|done].
Qed.

Lemma keeps_error id st err : keeps wf (updateStatusWithError cfg id st err).
Proof.
  apply keeps_with. intros l. apply keeps_bind; [|intros _; apply keeps_notify].
  apply keeps_update. intros e d. split; [done|]. intros _. split; by eexists.
Qed.

Lemma keeps_UpdateDeploymentStatus id st p step : keeps wf (UpdateDeploymentStatus cfg id st p step).
Proof.
  apply keeps_with. intros l. apply keeps_bind; [|intros _; apply keeps_notify].
  apply keeps_update. intros e d. split; [done|]. intros [H1 H2]. split; simpl.
  - intros ->. by eexists.
  - intros He. destruct (finished st); [by eexists|auto].
Qed.

(** An update that leaves status, error and completion alone. *)
Lemma good_frame (f : Env → Deployment → Deployment) :
  (∀ e d, ID (f e d) = ID d ∧ Status (f e d) = Status d ∧ Error (f e d) = Error d
          ∧ CompletedAt (f e d) = CompletedAt d) → good_update f.
Proof. intros Hf e d. destruct (Hf e d) as (H1 & H2 & H3 & H4). split; [done|]. unfold record_ok. congruence. Qed.

Lemma keeps_collect cutoff l : keeps wf (collect_old cutoff l).
Proof.
  induction l as [|[id p] l IH]; [constructor|]. cbn [collect_old].
  apply keeps_bind; [apply keeps_query|]. intros d. apply keeps_bind; [done|]. intros r. constructor.
Qed.

#[local] Hint Constructors keeps : vcdeploy.
#[local] Hint Resolve keeps_bind keeps_emit keeps_notify keeps_query keeps_error keeps_collect
  keeps_UpdateDeploymentStatus : vcdeploy.

Lemma keeps_Cancel id reason : keeps wf (Cancel cfg id reason).
Proof.
  apply keeps_bind; [apply keeps_query|]. intros [l|]; [|auto with vcdeploy].
  apply keeps_bind; [apply keeps_query|]. intros d. case_match; auto with vcdeploy.
Qed.

Lemma keeps_Deploy req : keeps wf (Deploy cfg req).
Proof.
  unfold Deploy. do 3 (case_bool_decide; [constructor|]).
  apply keeps_bind; [apply keeps_store; intros e; by apply new_record_ok|]. intros [id l].
  apply keeps_bind; [apply keeps_notify|intros _]. cbv zeta. destruct (sendCommand cfg); [|constructor].
  apply keeps_bind; [by apply keeps_updateStatus|intros _].
  apply keeps_bind; [apply keeps_atomic; intros e s Hs; by apply wf_events|].
  intros [err|]; auto with vcdeploy.
Qed.

Lemma keeps_Rollback req : keeps wf (Rollback cfg req).
Proof.
  unfold Rollback. do 2 (case_bool_decide; [constructor|]).
  apply keeps_bind; [apply keeps_store; intros e; by apply new_record_ok|]. intros [id l]. auto with vcdeploy.
Qed.

Lemma keeps_Cleanup maxAge : keeps wf (CleanupOldDeployments maxAge).
Proof.
  apply keeps_bind; [apply keeps_query|]. intros cutoff.
  apply keeps_bind; [apply keeps_query|]. intros l.
  apply keeps_bind; [apply keeps_collect|]. intros r. case_bool_decide; [constructor|].
  apply keeps_bind; [|intros _; constructor]. apply keeps_atomic. intros e s Hs.
  apply wf_fewer_entries; [apply foldl_delete_subseteq|done].
Qed.

Lemma keeps_void {A} (m : P A) : keeps wf m → keeps wf (void m).
Proof. intros Hm. unfold void. auto with vcdeploy. Qed.

Lemma keeps_body c : keeps wf (body cfg c).
Proof.
  destruct c; simpl.
  - apply keeps_void, keeps_Deploy.
  - apply keeps_void, keeps_Rollback.
  - apply keeps_void, keeps_Cancel.
  - apply keeps_UpdateDeploymentStatus.
  - apply keeps_with. intros l. apply keeps_bind; [by apply keeps_update, good_frame|]. intros _.
    destruct (onLog cfg); [apply keeps_emit|constructor].
  - apply keeps_with. intros l. by apply keeps_update, good_frame.
  - apply keeps_error.
  - apply keeps_void, keeps_Cleanup.
  - apply keeps_void, keeps_query.
  - apply keeps_void, keeps_query.
Qed.

End keeps.

(** C5: However the calls of API handlers and agents interleave, every identifier of the
    map leads to a record with that identifier, and no record looks half finished: a
    record that is completed, failed or cancelled, or that carries an error, has its
    completion time. *)
Theorem orchestrator_invariant `{MapRange} (cfg : OrchestratorConfig) (ts : list (P unit)) (s : State)
    (Hrun : interleave (calls cfg) ([], NewOrchestrator) (ts, s)) : wf s.
Proof.
  eapply (interleave_inv (calls cfg) wf); [|exact Hrun|constructor|].
  - intros m [c ->]. apply keeps_body.
  - split; simpl; [|by apply map_Forall_empty]. intros id l Hl. by rewrite lookup_empty in Hl.
Qed.

(** * Calls that do not overlap *)

Fixpoint last_status (id : string) (ev : list event) : option DeploymentStatus :=
  match ev with
  | [] => None
  | e :: ev' =>
      match last_status id ev' with
      | Some st => Some st
      | None =>
          match e with
          | StatusChange id' st => if decide (id' = id) then Some st else None
          | _ => None
          end
      end
  end.

Lemma last_status_snoc id ev e :
  last_status id (ev ++ [e]) =
  match e with
  | StatusChange id' st => if decide (id' = id) then Some st else last_status id ev
  | _ => last_status id ev
  end.
Proof.
  induction ev as [|e0 ev IH]; simpl.
  - destruct e; simpl; repeat case_decide; done.
  - rewrite IH. destruct e as [id' st| |]; try done. by case_decide.
Qed.

(** Observers are up to date. *)
Definition up_to_date (s : State) : Prop :=
  ∀ id l d, deployments s !! id = Some l → heap s !! l = Some d → last_status id (events s) = Some (Status d).

(** The states reached by calls one after the other. *)
Inductive alone `{MapRange} (cfg : OrchestratorConfig) : State → Prop :=
| alone_new : alone cfg NewOrchestrator
| alone_call c s s' : alone cfg s → runs (body cfg c) s s' tt → alone cfg s'.

(** A finished deployment that was completed before the cutoff. *)
Definition old (cutoff : time) (d : Deployment) : bool :=
  finished (Status d) && match CompletedAt d with Some c => Before c cutoff | None => false end.

Definition old_at (cutoff : time) (s : State) (l : loc) : bool :=
  match heap s !! l with Some d => old cutoff d | None => false end.

Definition synced (s : State) : Prop := wf s ∧ up_to_date s.

Lemma runs_with id (k : loc → P unit) s s' u :
  runs (with_deployment id k) s s' u →
  (deployments s !! id = None ∧ s' = s) ∨ ∃ l, deployments s !! id = Some l ∧ runs (k l) s s' u.
Proof.
  unfold with_deployment. rewrite runs_bind. intros (s1 & p & [e [= <- <-]]%runs_atomic & Hk).
  destruct (deployments s !! id) as [l|]; [by right; exists l|]. left. by apply runs_Ret in Hk as [-> _].
Qed.

Lemma runs_query {A B} (f : Env → State → A) (k : A → P B) s s' b :
  runs (pbind (atomic (λ e s, (s, f e s))) k) s s' b → ∃ e, runs (k (f e s)) s s' b.
Proof. rewrite runs_bind. intros (s1 & a & [e [= <- <-]]%runs_atomic & Hk). eauto. Qed.

Lemma runs_void {A} (m : P A) s s' u : runs (void m) s s' u → ∃ a, runs m s s' a.
Proof. unfold void. rewrite runs_bind. intros (s1 & a & Hm & [-> _]%runs_Ret). eauto. Qed.

(** A status is written and announced. *)
Lemma synced_set id l f e st s :
  good_update f → (∀ d, Status (f e d) = st) → deployments s !! id = Some l → synced s →
  synced {| heap := alter (f e) l (heap s); deployments := deployments s;
            events := events s ++ [StatusChange id st] |}.
Proof.
  intros Hf Hst Hid [Hw Hu]. split.
  { exact (wf_events _ _ (wf_update _ e l _ Hf Hw)). }
  intros id' l' d Hl' Hd. simpl in *. rewrite last_status_snoc. destruct (decide (id = id')) as [<-|Hn].
  - assert (l' = l) as -> by congruence. rewrite lookup_alter_eq in Hd.
    apply fmap_Some in Hd as (d' & _ & ->). by rewrite Hst.
  - assert (l' ≠ l).
    { intros ->. destruct (wf_index _ Hw _ _ Hid) as (d1 & H1 & <-).
      destruct (wf_index _ Hw _ _ Hl') as (d2 & H2 & <-). congruence. }
    rewrite lookup_alter_ne in Hd by done. by eapply Hu.
Qed.

(** A record changes without its status, with an event about something else. *)
Lemma synced_frame l (f : Env → Deployment → Deployment) e s :
  (∀ e d, ID (f e d) = ID d ∧ Status (f e d) = Status d ∧ Error (f e d) = Error d
          ∧ CompletedAt (f e d) = CompletedAt d) →
  synced s → synced {| s with heap := alter (f e) l (heap s) |}.
Proof.
  intros Hf [Hw Hu]. split; [by apply wf_update; [apply good_frame|]|].
  intros id' l' d Hl' Hd. simpl in *. destruct (decide (l' = l)) as [->|Hn].
  - rewrite lookup_alter_eq in Hd. apply fmap_Some in Hd as (d' & Hd' & ->).
    destruct (Hf e d') as (_ & -> & _). by eapply Hu.
  - rewrite lookup_alter_ne in Hd by done. by eapply Hu.
Qed.

Lemma synced_event s ev :
  (∀ id, last_status id (events s ++ [ev]) = last_status id (events s)) → synced s →
  synced {| s with events := events s ++ [ev] |}.
Proof.
  intros He [Hw Hu]. split; [by apply wf_events|]. intros id l d Hl Hd. simpl in *. rewrite He. by eapply Hu.
Qed.

Lemma synced_fewer s m : m ⊆ deployments s → synced s → synced {| s with deployments := m |}.
Proof.
  intros Hm [Hw Hu]. split; [by apply wf_fewer_entries|]. intros id l d Hl Hd. simpl in *.
  eapply Hu; [by eapply lookup_weaken|done].
Qed.

(** A new record is stored and its status announced. *)
Lemma synced_store d s :
  record_ok d → synced s →
  synced {| heap := <[fresh (dom (heap s)) := d]> (heap s);
            deployments := <[ID d := fresh (dom (heap s))]> (deployments s);
            events := events s ++ [StatusChange (ID d) (Status d)] |}.
Proof.
  intros Hd [Hw Hu]. split; [exact (wf_events _ _ (wf_store d s Hd Hw))|].
  pose proof (is_fresh (dom (heap s))) as Hf. apply not_elem_of_dom in Hf.
  intros id l d'. simpl. rewrite last_status_snoc. rewrite lookup_insert_Some. intros [[<- <-]|[Hn Hl]].
  - rewrite lookup_insert_eq. intros [= <-]. by rewrite decide_True.
  - destruct (wf_index _ Hw _ _ Hl) as (d1 & H1 & _). rewrite lookup_insert_ne by congruence.
    rewrite decide_False by done. by apply Hu.
Qed.

Section alone.
Context `{MapRange} (cfg : OrchestratorConfig).
Hypothesis Hcb : onStatusChange cfg = true.

Lemma runs_notify id st s s' u :
  runs (notifyStatusChange cfg id st) s s' u → s' = {| s with events := events s ++ [StatusChange id st] |}.
Proof using Hcb. unfold notifyStatusChange. rewrite Hcb. by intros [e [= <- _]]%runs_atomic. Qed.

Lemma synced_with_set id f st s s' u :
  good_update f → (∀ e d, Status (f e d) = st) →
  runs (with_deployment id (λ l, update l f ;; notifyStatusChange cfg id st)) s s' u → synced s → synced s'.
Proof using Hcb.
  intros Hf Hst [[_ ->]|(l & Hl & Hk)]%runs_with Hs; [done|].
  apply runs_bind in Hk as (s1 & [] & [e [= <-]]%runs_atomic & ->%runs_notify). simpl.
  exact (synced_set id l f e st s Hf (Hst e) Hl Hs).
Qed.

Lemma synced_error id st err s s' u :
  runs (updateStatusWithError cfg id st err) s s' u → synced s → synced s'.
Proof using Hcb.
  apply synced_with_set; [|done]. intros e d. split; [done|]. intros _. split; by eexists.
Qed.

Lemma synced_status id st s s' u :
  finished st = false → runs (updateStatus cfg id st) s s' u → synced s → synced s'.
Proof using Hcb.
  intros Hst. apply synced_with_set; [|done]. intros e d. split; [done|].
  intros [_ H2]. split; simpl; [congruence|done].
Qed.

Lemma synced_store_notify d st s s1 s2 id l u :
  (∀ e, record_ok (d e)) → (∀ e, Status (d e) = st) →
  runs (store d) s s1 (id, l) → runs (notifyStatusChange cfg id st) s1 s2 u → synced s → synced s2.
Proof using Hcb.
  intros Hd Hst [e [= <- <- <-]]%runs_atomic ->%runs_notify Hs. simpl.
  rewrite <- (Hst e). exact (synced_store (d e) s (Hd e) Hs).
Qed.

Lemma synced_Deploy req s s' r : runs (Deploy cfg req) s s' r → synced s → synced s'.
Proof using Hcb.
  unfold Deploy. do 3 (case_bool_decide; [by intros [-> _]%runs_Ret|]). intros Hr Hs.
  apply runs_bind in Hr as (s0 & [id l] & Hst & Hk). apply runs_bind in Hk as (s1 & [] & Hn1 & Hk).
  assert (synced s1) as Hs1.
  { eapply synced_store_notify; [|..|exact Hst|exact Hn1|done]; [intros e; by apply new_record_ok|done]. }
  clear Hn1.
  cbv zeta in Hk. destruct (sendCommand cfg); [|by apply runs_Ret in Hk as [-> _]].
  apply runs_bind in Hk as (s2 & [] & Hn2 & Hk). apply synced_status in Hn2; [|done..].
  apply runs_bind in Hk as (s3 & a & [e [= <- <-]]%runs_atomic & Hk).
  assert (synced {| s2 with events := events s2 ++
    [SendCommand (ReqAgentID req) (mkDeployCommand id (ReqProjectID req) (ReqTargetID req)
       (ReqRepository req) (ReqBranch req) (ReqCommit req) (ReqPath req) (ReqSettings req) (ReqEnvVars req)
       (ReqEnvFileContent req) (ReqPreDeployHooks req) (ReqPostDeployHooks req)
       (ReqReloadServices req)) (answer e)] |}) as Hn3.
  { apply synced_event; [|done]. intros id'. by rewrite last_status_snoc. }
  destruct (answer e) as [err|]; [|by apply runs_Ret in Hk as [-> _]].
  apply runs_bind in Hk as (s4 & [] & Hn4 & [-> _]%runs_Ret). by eapply synced_error.
Qed.

Lemma synced_Rollback req s s' r : runs (Rollback cfg req) s s' r → synced s → synced s'.
Proof using Hcb.
  unfold Rollback. do 2 (case_bool_decide; [by intros [-> _]%runs_Ret|]). intros Hr Hs.
  apply runs_bind in Hr as (s0 & [id l] & Hst & Hk). apply runs_bind in Hk as (s1 & [] & Hn1 & Hk).
  assert (synced s1) as Hs1.
  { eapply synced_store_notify; [|..|exact Hst|exact Hn1|done]; [intros e; by apply new_record_ok|done]. }
  clear Hn1.
  by apply runs_Ret in Hk as [-> _].
Qed.

Lemma synced_Cancel id reason s s' r : runs (Cancel cfg id reason) s s' r → synced s → synced s'.
Proof using Hcb.
  intros [e Hk]%runs_query Hs. destruct (deployments s !! id) as [l|]; [|by apply runs_Ret in Hk as [-> _]].
  apply runs_query in Hk as [_ Hk]. case_match; [by apply runs_Ret in Hk as [-> _]|].
  apply runs_bind in Hk as (s1 & [] & Hn1 & [-> _]%runs_Ret). by eapply synced_error.
Qed.

Lemma runs_collect cutoff l s s' r :
  runs (collect_old cutoff l) s s' r →
  s' = s ∧
  r = (filter (λ kv, old_at cutoff s kv.2 = true) l).*1.
Proof.
  revert s s' r. induction l as [|[id p] l IH]; intros s s' r.
  { by intros [-> ->]%runs_Ret. }
  cbn [collect_old]. intros [_ Hk]%runs_query. apply runs_bind in Hk as (s1 & rest & H1 & [-> ->]%runs_Ret).
  apply IH in H1 as [-> ->]. split; [done|]. rewrite filter_cons. simpl.
  destruct (old_at cutoff s p) eqn:Ho; [rewrite decide_True by done|rewrite decide_False by done];
    unfold old_at, old in Ho; (destruct (heap s !! p); [by rewrite Ho|done]).
Qed.

Lemma runs_Cleanup maxAge s s' n :
  runs (CleanupOldDeployments maxAge) s s' n →
  ∃ cutoff ids, n = len ids ∧ s' = {| s with deployments := foldl (λ m id, delete id m) (deployments s) ids |} ∧
    ids = (filter (λ kv, old_at cutoff s kv.2 = true) (range (deployments s))).*1.
Proof.
  intros [e Hk]%runs_query. apply runs_query in Hk as [_ Hk].
  apply runs_bind in Hk as (s1 & ids & [-> Hids]%runs_collect & Hk).
  exists (now e - maxAge), ids. split_and!; [..|done].
  - case_bool_decide as Hn; [by subst ids; apply runs_Ret in Hk as [_ ->]; rewrite Hn|].
    apply runs_bind in Hk as (s2 & [] & _ & [_ ->]%runs_Ret). done.
  - case_bool_decide as Hn; [apply runs_Ret in Hk as [-> _]; rewrite Hn; by destruct s|].
    apply runs_bind in Hk as (s2 & [] & [e' [= <-]]%runs_atomic & [-> _]%runs_Ret). done.
Qed.

Lemma synced_body c s s' : runs (body cfg c) s s' tt → synced s → synced s'.
Proof using Hcb.
  destruct c; simpl.
  - intros [a Ha]%runs_void. by eapply synced_Deploy.
  - intros [a Ha]%runs_void. by eapply synced_Rollback.
  - intros [a Ha]%runs_void. by eapply synced_Cancel.
  - apply synced_with_set; [|done]. intros e d. split; [done|]. intros [H1 H2]. split; simpl.
    + intros ->. by eexists.
    + intros He. destruct (finished status); [by eexists|auto].
  - intros [[_ ->]|(l & Hl & Hk)]%runs_with Hs; [done|].
    apply runs_bind in Hk as (s1 & [] & [e [= <-]]%runs_atomic & Hk).
    apply (synced_frame l (λ _ d, {| d with Logs := Logs d ++ [entry] |}) e) in Hs; [|done].
    destruct (onLog cfg); [|by apply runs_Ret in Hk as [-> _]].
    apply runs_atomic in Hk as [e' [= <-]]. apply (synced_event _ (OnLog id entry)) in Hs; [done|].
    intros id'. by rewrite last_status_snoc.
  - intros [[_ ->]|(l & Hl & Hk)]%runs_with Hs; [done|]. apply runs_atomic in Hk as [e [= <-]].
    by apply (synced_frame l (λ _ d, {| d with ReleaseNumber := n |}) e).
  - apply synced_error.
  - intros [a Ha]%runs_void Hs. apply runs_Cleanup in Ha as (c & ids & _ & -> & _).
    apply synced_fewer; [apply foldl_delete_subseteq|done].
  - intros [a [e [= <- _]]%runs_atomic]%runs_void Hs. done.
  - intros [a [e [= <- _]]%runs_atomic]%runs_void Hs. done.
Qed.

End alone.
(** When the calls do not overlap, whoever follows the status callback is right:
    after any sequence of calls the last status announced for a deployment in the map
    is the status it has. *)
Theorem observers_up_to_date `{MapRange} (cfg : OrchestratorConfig) (s : State)
    (Hcb : onStatusChange cfg = true) (Hs : alone cfg s) : up_to_date s.
Proof.
  enough (synced s) as [_ Hu] by done. induction Hs as [|c s s' _ IH Hr].
  - split; [split; simpl; [|by apply map_Forall_empty]|]; intros id l; simpl; by rewrite lookup_empty.
  - by eapply synced_body.
Qed.

(** ** Cancelling *)

Lemma runs_Cancel cfg id reason s s' r :
  runs (Cancel cfg id reason) s s' r →
  match deployments s !! id with
  | None => s' = s ∧ r = Some ("deployment " +:+ id +:+ " not found")
  | Some l =>
      if match heap s !! l with Some d => finished (Status d) | None => false end
      then s' = s ∧ r = Some ("deployment " +:+ id +:+ " is already finished")
      else r = None ∧ runs (updateStatusWithError cfg id StatusCancelled ("cancelled: " +:+ reason)) s s' tt
  end.
Proof.
  intros [e Hk]%runs_query. destruct (deployments s !! id) as [l|]; [|by apply runs_Ret in Hk].
  apply runs_query in Hk as [_ Hk]. case_match; [by apply runs_Ret in Hk|].
  by apply runs_bind in Hk as (s1 & [] & Hu & [-> ->]%runs_Ret).
Qed.

(** The record behind an identifier. *)
Definition deployment (s : State) (id : string) : option Deployment :=
  deployments s !! id ≫= λ l, heap s !! l.

(** What a helper that looks the deployment up, changes it and announces the status
    leaves behind. *)
Lemma runs_set cfg id f st s s' u :
  runs (with_deployment id (λ l, update l f ;; notifyStatusChange cfg id st)) s s' u →
  deployments s' = deployments s ∧
  ∃ e, deployment s' id = f e <$> deployment s id ∧
       ∀ l, deployments s !! id ≠ Some l → heap s' !! l = heap s !! l.
Proof.
  intros [[Hl ->]|(l & Hl & Hk)]%runs_with.
  { split; [done|]. exists (mkEnv 0 "" None). unfold deployment. by rewrite Hl. }
  apply runs_bind in Hk as (s1 & [] & [e [= <-]]%runs_atomic & Hn).
  assert (heap s' = alter (f e) l (heap s) ∧ deployments s' = deployments s) as [Hh Hd].
  { unfold notifyStatusChange in Hn. destruct (onStatusChange cfg).
    - by apply runs_atomic in Hn as [e' [= <-]].
    - by apply runs_Ret in Hn as [-> _]. }
  split; [done|]. exists e. unfold deployment. rewrite Hd, Hl. simpl. rewrite Hh. split.
  - by rewrite lookup_alter_eq.
  - intros l' Hn'. rewrite lookup_alter_ne; [done|]. congruence.
Qed.

(** Cancelling is decided by the status: an unknown or a finished deployment gives an
    error and nothing changes; otherwise the call succeeds and the deployment is
    cancelled, with the reason as its error and a completion time.  But the status is
    not final: a callback of the agent that comes later makes the deployment active
    again, still carrying the error and a completion time, and it can be cancelled a
    second time. *)
Theorem cancel_is_not_final (cfg : OrchestratorConfig) (id reason reason' step : string) (p : Z)
    (s s1 s2 s3 : State) (d : Deployment) (r r' : option string)
    (Hd : deployment s id = Some d)
    (Hcancel : runs (Cancel cfg id reason) s s1 r)
    (Hlate : runs (UpdateDeploymentStatus cfg id StatusDeploying p step) s1 s2 tt)
    (Hagain : runs (Cancel cfg id reason') s2 s3 r') :
  (finished (Status d) = true → s1 = s ∧ r = Some ("deployment " +:+ id +:+ " is already finished")) ∧
  (finished (Status d) = false →
     r = None ∧
     (∃ d1, deployment s1 id = Some d1 ∧ Status d1 = StatusCancelled ∧
            Error d1 = Some ("cancelled: " +:+ reason) ∧ is_Some (CompletedAt d1)) ∧
     (∃ d2, deployment s2 id = Some d2 ∧ Status d2 = StatusDeploying ∧
            Error d2 = Some ("cancelled: " +:+ reason) ∧ is_Some (CompletedAt d2)) ∧
     r' = None).
Proof.
  apply runs_Cancel in Hcancel. apply runs_set in Hlate as (Hm2 & e2 & Hd2 & _).
  unfold deployment in Hd at 1. destruct (deployments s !! id) as [l|] eqn:Hl; [|done]. simpl in Hd.
  rewrite Hd in Hcancel. split; intros Hf; rewrite Hf in Hcancel; [done|].
  destruct Hcancel as [-> Hu]. apply runs_set in Hu as (Hm1 & e1 & Hd1 & _).
  unfold deployment at 2 in Hd1. rewrite Hl in Hd1. simpl in Hd1. rewrite Hd in Hd1. simpl in Hd1.
  rewrite Hd1 in Hd2. simpl in Hd2. split_and!; [done|by eexists|by eexists|].
  apply runs_Cancel in Hagain. unfold deployment in Hd2. rewrite Hm2, Hm1, Hl in Hagain, Hd2. simpl in Hd2.
  rewrite Hd2 in Hagain. by destruct Hagain.
Qed.

(** ** Calls that overlap *)

(** A deployment in progress. *)
Definition active (s : State) (id : string) (l : loc) (d : Deployment) : Prop :=
  deployments s !! id = Some l ∧ heap s !! l = Some d ∧ finished (Status d) = false.

Definition any_env : Env := mkEnv 0 "" None.

Section overlap.
Context `{MapRange} (cfg : OrchestratorConfig).
Hypothesis Hcb : onStatusChange cfg = true.

(** Two calls started together and played by a schedule. *)
Lemma play_two c1 c2 schedule s s' ts :
  play schedule ([body cfg c1; body cfg c2], s) = Some (ts, s') →
  interleave (calls cfg) ([], s) (ts, s').
Proof.
  intros Hp. eapply rtc_trans; [|by eapply play_interleave].
  apply (interleave_calls _ [body cfg c1; body cfg c2] []).
  repeat constructor; eexists; reflexivity.
Qed.

(** Plays a schedule on a state of which some lookups are known. *)
Ltac playing :=
  repeat first
    [ progress simpl | progress unfold notifyStatusChange
    | match goal with H : _ = _ |- _ => rewrite H end ].

Lemma callbacks_cross s id l d st1 st2 :
  active s id l d →
  ∃ s', interleave (calls cfg) ([], s) ([Ret tt; Ret tt], s') ∧
        (Status <$> deployment s' id) = Some st2 ∧ last_status id (events s') = Some st1.
Proof using Hcb.
  intros (Hl & Hd & Hf). eexists. split.
  - apply (play_two (CUpdateDeploymentStatus id st1 50 "step") (CUpdateDeploymentStatus id st2 100 "step")
             ((λ i, (i, any_env)) <$> [0; 0; 1; 1; 1; 0]%nat)).
    playing. reflexivity.
  - split.
    + unfold deployment. simpl. rewrite Hl. simpl. rewrite !lookup_alter_eq, Hd. done.
    + simpl. rewrite last_status_snoc. by rewrite decide_True.
Qed.

Lemma cancel_overtakes s id l d :
  active s id l d →
  ∃ s', interleave (calls cfg) ([], s) ([Ret tt; Ret tt], s') ∧
        (Status <$> deployment s' id) = Some StatusCancelled ∧
        events s' = events s ++ [StatusChange id StatusCompleted; StatusChange id StatusCancelled].
Proof using Hcb.
  intros (Hl & Hd & Hf). eexists. split.
  - apply (play_two (CCancel id "user") (CUpdateDeploymentStatus id StatusCompleted 100 "done")
             ((λ i, (i, any_env)) <$> [0; 0; 1; 1; 1; 0; 0; 0]%nat)).
    playing. reflexivity.
  - split.
    + unfold deployment. simpl. rewrite Hl. simpl. rewrite !lookup_alter_eq, Hd. done.
    + simpl. by rewrite <- app_assoc.
Qed.

End overlap.

(** Overlapping calls can leave observers with the wrong status, from every state with
    a deployment in progress: two callbacks of the agent can end with the deployment
    completed and [deploying] as the last status announced, and a [Cancel] that saw
    the deployment in progress can overwrite a completion that was already
    announced. *)
Theorem overlapping_calls `{MapRange} (cfg : OrchestratorConfig) (s : State) (id : string) (l : loc)
    (d : Deployment) (Hcb : onStatusChange cfg = true) (Hactive : active s id l d) :
  (∃ s', interleave (calls cfg) ([], s) ([Ret tt; Ret tt], s') ∧
         (Status <$> deployment s' id) = Some StatusCompleted ∧
         last_status id (events s') = Some StatusDeploying) ∧
  (∃ s', interleave (calls cfg) ([], s) ([Ret tt; Ret tt], s') ∧
         (Status <$> deployment s' id) = Some StatusCancelled ∧
         events s' = events s ++ [StatusChange id StatusCompleted; StatusChange id StatusCancelled]).
Proof.
  split.
  - by apply (callbacks_cross cfg Hcb s id l d StatusDeploying StatusCompleted).
  - by apply (cancel_overtakes cfg Hcb s id l d).
Qed.

(** ** Cleanup *)

(** Run alone, [CleanupOldDeployments] forgets exactly the finished deployments completed
    before the cutoff, whatever order the map is visited in, reports how many, and
    leaves the records and every other entry alone. *)
Theorem cleanup_exact `{MapRange} (maxAge n : Z) (s s' : State)
    (Hrun : runs (CleanupOldDeployments maxAge) s s' n) :
  ∃ cutoff,
    (∀ id, deployments s' !! id =
           deployments s !! id ≫= λ l, if old_at cutoff s l then None else Some l) ∧
    n = map_len (filter (λ kv, old_at cutoff s kv.2 = true) (deployments s)) ∧
    heap s' = heap s ∧ events s' = events s.
Proof.
  apply runs_Cleanup in Hrun as (cutoff & ids & -> & -> & ->). exists cutoff. simpl.
  split_and!; [| |done|done].
  - intros id. rewrite foldl_delete_ids.
    case_decide as Hin; rewrite elem_of_range_filter_keys in Hin.
    + destruct Hin as (l & -> & Hl). simpl. by rewrite Hl.
    + destruct (deployments s !! id) as [l|] eqn:Hl; [|done]. simpl.
      destruct (old_at cutoff s l) eqn:Ho; [|done]. exfalso. eauto.
  - etransitivity; [|exact (count_range_values (λ l, old_at cutoff s l = true) (deployments s))].
    unfold len, range_values. f_equal. induction (range (deployments s)) as [|[id l] m IH]; [done|].
    rewrite fmap_cons, !filter_cons. simpl. case_decide; simpl; [f_equal|]; exact IH.
Qed.

(** * Witnesses *)

Definition demo_config : OrchestratorConfig := mkConfig true true true.

Definition demo_request : DeployRequest :=
  mkDeployRequest "shop" "prod" "agent-1" "git@host:shop.git" "main" "" "/srv/shop" demo_settings ∅ []
    [] [] [] "alice" "api".

Definition demo_env (t : time) : Env := mkEnv t "d1" None.

(** After one deployment was requested. *)
Definition demo_state : State :=
  match exec (body (H := range_in_key_order) demo_config (CDeploy demo_request))
          (replicate 6 (demo_env 10)) NewOrchestrator with
  | Some (s, _) => s
  | None => NewOrchestrator
  end.

Lemma demo_alone : alone (H := range_in_key_order) demo_config demo_state.
Proof.
  eapply (alone_call _ (CDeploy demo_request)); [apply alone_new|].
  apply (exec_runs _ (replicate 6 (demo_env 10))). vm_compute. reflexivity.
Qed.

Lemma orchestrator_invariant_witness : wf demo_state.
Proof.
  apply (@orchestrator_invariant range_in_key_order demo_config [Ret tt] demo_state).
  eapply rtc_trans.
  - apply (interleave_calls _ [body (H := range_in_key_order) demo_config (CDeploy demo_request)] []).
    repeat constructor. eexists. reflexivity.
  - apply (play_interleave _ (replicate 6 (0%nat, demo_env 10))). vm_compute. reflexivity.
Defined.

Lemma observers_up_to_date_witness : up_to_date demo_state.
Proof. exact (@observers_up_to_date range_in_key_order demo_config demo_state eq_refl demo_alone). Defined.

(** The state a call leaves when run alone at time 20. *)
Definition after {A} (m : P A) (s : State) : State :=
  match exec m (replicate 5 (demo_env 20)) s with Some (s', _) => s' | None => s end.

Definition cancelled_state : State := after (Cancel demo_config "d1" "wrong branch") demo_state.
Definition revived_state : State :=
  after (UpdateDeploymentStatus demo_config "d1" StatusDeploying 50 "deploy") cancelled_state.
Definition cancelled_again : State := after (Cancel demo_config "d1" "still wrong") revived_state.

Lemma cancel_is_not_final_witness :
  ∃ d2, deployment revived_state "d1" = Some d2 ∧ Status d2 = StatusDeploying ∧
        Error d2 = Some "cancelled: wrong branch" ∧ is_Some (CompletedAt d2).
Proof.
  destruct (cancel_is_not_final demo_config "d1" "wrong branch" "still wrong" "deploy" 50
              demo_state cancelled_state revived_state cancelled_again
              (mkDeployment "d1" "shop" "prod" "agent-1" StatusQueued 0 "" 0 "git@host:shop.git" "main" "" 10
                 None None "alice" "api" None []) None None) as [_ Hf].
  - vm_compute. reflexivity.
  - apply (exec_runs _ (replicate 5 (demo_env 20))). vm_compute. reflexivity.
  - apply (exec_runs _ (replicate 5 (demo_env 20))). vm_compute. reflexivity.
  - apply (exec_runs _ (replicate 5 (demo_env 20))). vm_compute. reflexivity.
  - exact (proj1 (proj2 (proj2 (Hf ltac:(vm_compute; reflexivity))))).
Defined.

Lemma overlapping_calls_witness :
  ∃ s', interleave (calls (H := range_in_key_order) demo_config) ([], demo_state) ([Ret tt; Ret tt], s') ∧
        (Status <$> deployment s' "d1") = Some StatusCompleted ∧
        last_status "d1" (events s') = Some StatusDeploying.
Proof.
  refine (proj1 (@overlapping_calls range_in_key_order demo_config demo_state "d1" 0%nat
                   (mkDeployment "d1" "shop" "prod" "agent-1" StatusQueued 0 "" 0 "git@host:shop.git" "main" ""
                      10 None None "alice" "api" None []) eq_refl _)).
  split_and!; vm_compute; reflexivity.
Defined.

Lemma cleanup_exact_witness :
  ∃ cutoff, ∀ id, deployments (after (CleanupOldDeployments (H := range_in_key_order) (-1)) cancelled_state) !! id =
    deployments cancelled_state !! id ≫= λ l, if old_at cutoff cancelled_state l then None else Some l.
Proof.
  destruct (@cleanup_exact range_in_key_order (-1) 1 cancelled_state
              (after (CleanupOldDeployments (H := range_in_key_order) (-1)) cancelled_state)) as (cutoff & Hc & _).
  - apply (exec_runs _ (replicate 5 (demo_env 20))). vm_compute. reflexivity.
  - exists cutoff. exact Hc.
Defined.

End Orch.
