(* ===== verification/GoTime.v ===== *)
(** Calendar arithmetic of Go's [time] package, for a location at a fixed offset from
    UTC (no daylight saving), and [time.ParseDuration].

    A [time.Time] is its number of nanoseconds since the zero time, January 1 of
    year 1, a Monday. *)

From stdpp Require Import pretty.
From S2P Require Import Prelude GoStrings.

#[local] Open Scope string_scope.
#[local] Open Scope list_scope.
#[local] Open Scope Z_scope.

Definition Second : Z := 1000000000.
Definition Minute : Z := 60 * Second.
Definition Hour : Z := 60 * Minute.
Definition Day : Z := 24 * Hour.

(** ** Days and dates *)

(** The date of a day counted from the zero time: years are counted from March, so
    that the leap day is the last of its year. *)
Definition civil (day : Z) : Z * Z * Z :=
  let z := day + 306 in
  let era := z / 146097 in
  let doe := z mod 146097 in
  let yoe := (doe - doe / 1460 + doe / 36524 - doe / 146096) / 365 in
  let doy := doe - (365 * yoe + yoe / 4 - yoe / 100) in
  let mp := (5 * doy + 2) / 153 in
  let d := doy - (153 * mp + 2) / 5 + 1 in
  let m := if mp <? 10 then mp + 3 else mp - 9 in
  (yoe + era * 400 + (if m <=? 2 then 1 else 0), m, d).

(** The day of a date; months outside 1..12 and days outside the month carry. *)
Definition days (year month day : Z) : Z :=
  let y := year + (month - 1) / 12 in
  let m := (month - 1) mod 12 + 1 in
  let y' := if m <=? 2 then y - 1 else y in
  let era := y' / 400 in
  let yoe := y' mod 400 in
  let doy := (153 * (if 2 <? m then m - 3 else m + 9) + 2) / 5 in
  let doe := yoe * 365 + yoe / 4 - yoe / 100 + doy in
  era * 146097 + doe - 306 + (day - 1).

Section zone.
(** The offset of the location, in nanoseconds. *)
Context (zone : Z).

Definition day_of (t : time) : Z := (t + zone) / Day.
Definition clock (t : time) : Z := (t + zone) mod Day.

Definition Year (t : time) : Z := (civil (day_of t)).1.1.
Definition Month (t : time) : Z := (civil (day_of t)).1.2.
Definition MonthDay (t : time) : Z := (civil (day_of t)).2.
Definition ClockHour (t : time) : Z := clock t / Hour.
Definition ClockMinute (t : time) : Z := clock t mod Hour / Minute.
(** 0 is Sunday. *)
Definition Weekday (t : time) : Z := (day_of t + 1) mod 7.

(** [time.Date(year, month, day, hour, min, 0, 0, loc)] and a time of day in
    nanoseconds. *)
Definition Date (year month day clock : Z) : time := days year month day * Day + clock - zone.

Definition AddDate (t : time) (years months d : Z) : time :=
  Date (Year t + years) (Month t + months) (MonthDay t + d) (clock t).

End zone.

(** [t.Truncate(d)], for a positive [d] *)
Definition Truncate (t : time) (d : Z) : time := t - t mod d.

(** ** Durations *)

(** [leadingInt]: the digits at the front; [None] when the value exceeds 1<<63. *)
Fixpoint leadingInt (x : Z) (s : string) : option (Z * string) :=
  match s with
  | String c s' =>
      if is_digit c then
        if 2 ^ 63 / 10 <? x then None
        else
          let x' := x * 10 + (Z.of_nat (Ascii.nat_of_ascii c) - 48) in
          if 2 ^ 63 <? x' then None else leadingInt x' s'
      else Some (x, s)
  | EmptyString => Some (x, s)
  end.

(** [leadingFraction]: once the value overflows further digits are skipped. *)
Fixpoint leadingFraction (x scale : Z) (overflow : bool) (s : string) : Z * Z * string :=
  match s with
  | String c s' =>
      if is_digit c then
        if overflow then leadingFraction x scale true s'
        else if (2 ^ 63 - 1) / 10 <? x then leadingFraction x scale true s'
        else
          let y := x * 10 + (Z.of_nat (Ascii.nat_of_ascii c) - 48) in
          if 2 ^ 63 <? y then leadingFraction x scale true s' else leadingFraction y (scale * 10) false s'
      else (x, scale, s)
  | EmptyString => (x, scale, s)
  end.

Definition is_unit_char (c : Ascii.ascii) : bool :=
  negb (is_digit c) && negb (Ascii.nat_of_ascii c =? 46)%nat.

(** The unit: everything up to the next digit or dot. *)
Fixpoint span_unit (s : string) : string * string :=
  match s with
  | String c s' => if is_unit_char c then let '(u, r) := span_unit s' in (String c u, r) else (EmptyString, s)
  | EmptyString => (EmptyString, s)
  end.

(** The two spellings of the microsecond that are not ASCII, in UTF-8. *)
Definition bytes (l : list nat) : string := foldr (λ n s, String (Ascii.ascii_of_nat n) s) EmptyString l.

Definition unit_of (u : string) : option Z :=
  if bool_decide (u = "ns") then Some 1
  else if bool_decide (u = "us") || bool_decide (u = bytes [194; 181; 115]%nat)
          || bool_decide (u = bytes [206; 188; 115]%nat) then Some 1000
  else if bool_decide (u = "ms") then Some 1000000
  else if bool_decide (u = "s") then Some Second
  else if bool_decide (u = "m") then Some Minute
  else if bool_decide (u = "h") then Some Hour
  else None.

(** The loop of [ParseDuration]; each turn consumes a unit, so the length of the
    text is enough fuel.  The fraction is computed exactly where the library rounds
    in floating point. *)
Fixpoint duration_parts (fuel : nat) (d : Z) (s : string) : option Z :=
  match s with
  | EmptyString => Some d
  | String c _ =>
      match fuel with
      | O => None
      | S fuel' =>
          if negb (is_digit c || (Ascii.nat_of_ascii c =? 46)%nat) then None
          else
            match leadingInt 0 s with
            | None => None
            | Some (v, s1) =>
                let pre := negb (String.length s1 =? String.length s)%nat in
                let '(f, scale, s2, post) :=
                  match s1 with
                  | String c' s1' =>
                      if (Ascii.nat_of_ascii c' =? 46)%nat
                      then let '(f, scale, s2) := leadingFraction 0 1 false s1' in
                           (f, scale, s2, negb (String.length s2 =? String.length s1')%nat)
                      else (0, 1, s1, false)
                  | EmptyString => (0, 1, s1, false)
                  end in
                if negb pre && negb post then None
                else
                  let '(u, s3) := span_unit s2 in
                  if bool_decide (u = "") then None
                  else
                    match unit_of u with
                    | None => None
                    | Some unit_ =>
                        if 2 ^ 63 / unit_ <? v then None
                        else
                          let v1 := v * unit_ in
                          let v2 := if 0 <? f then v1 + f * unit_ / scale else v1 in
                          if 2 ^ 63 <? v2 then None
                          else
                            let d' := d + v2 in
                            if 2 ^ 63 <? d' then None else duration_parts fuel' d' s3
                    end
            end
      end
  end.

Definition ParseDuration (s : string) : option Z :=
  let '(neg, s1) := match s with
                    | String c s' =>
                        if (Ascii.nat_of_ascii c =? 45)%nat then (true, s')
                        else if (Ascii.nat_of_ascii c =? 43)%nat then (false, s')
                        else (false, s)
                    | EmptyString => (false, s)
                    end in
  if bool_decide (s1 = "0") then Some 0
  else if bool_decide (s1 = "") then None
  else
    match duration_parts (String.length s1) 0 s1 with
    | None => None
    | Some d => if neg then Some (- d) else if int64_max <? d then None else Some d
    end.

(** * Lemmas *)

Lemma Truncate_aligned t d : 0 < d → Truncate t d mod d = 0.
Proof.
  intros Hd. unfold Truncate. rewrite (Z.div_mod t d) at 1 by lia.
  replace (d * (t / d) + t mod d - t mod d) with (t / d * d) by lia. apply Z.mod_mul. lia.
Qed.

(** Truncating the time one step ahead gives the next multiple of the step. *)
Lemma Truncate_next t d : 0 < d → t < Truncate (t + d) d ≤ t + d.
Proof. intros Hd. unfold Truncate. pose proof (Z.mod_pos_bound (t + d) d Hd). lia. Qed.

(** Multiples of a step are at least a step apart. *)
Lemma aligned_gap t u d : 0 < d → t mod d = 0 → u mod d = 0 → t < u → t + d ≤ u.
Proof.
  intros Hd Ht Hu Hlt. apply Z.mod_divide in Ht as [a ->]; [|lia]. apply Z.mod_divide in Hu as [b ->]; [|lia].
  assert (a < b) by nia. nia.
Qed.

Lemma aligned_steps t u d : 0 < d → t mod d = 0 → u mod d = 0 → t ≤ u → ∃ k : nat, u = t + Z.of_nat k * d.
Proof.
  intros Hd Ht Hu Hle. apply Z.mod_divide in Ht as [a ->]; [|lia]. apply Z.mod_divide in Hu as [b ->]; [|lia].
  assert (a ≤ b) by nia. exists (Z.to_nat (b - a)). rewrite Z2Nat.id by lia. lia.
Qed.

(** The year of the cycle and the day of the year are in range. *)
Lemma year_of_cycle doe :
  0 ≤ doe < 146097 →
  let yoe := (doe - doe / 1460 + doe / 36524 - doe / 146096) / 365 in
  0 ≤ yoe < 400 ∧ 0 ≤ doe - (365 * yoe + yoe / 4 - yoe / 100) ≤ 365.
Proof. intros H yoe. subst yoe. Z.div_mod_to_equations. split; lia. Qed.

(** The day of the date of a day is that day. *)
Lemma days_civil day : days (civil day).1.1 (civil day).1.2 (civil day).2 = day.
Proof.
  unfold civil. cbv zeta. simpl.
  pose proof (Z.mod_pos_bound (day + 306) 146097 ltac:(lia)) as Hdoe.
  pose proof (Z.div_mod (day + 306) 146097 ltac:(lia)) as Hz.
  remember ((day + 306) mod 146097) as doe eqn:E1. remember ((day + 306) / 146097) as era eqn:E2. clear E1 E2.
  destruct (year_of_cycle doe Hdoe) as [Hyoe Hdoy]. cbv zeta in Hyoe, Hdoy.
  remember ((doe - doe / 1460 + doe / 36524 - doe / 146096) / 365) as yoe eqn:E. clear E.
  remember (doe - (365 * yoe + yoe / 4 - yoe / 100)) as doy eqn:E3.
  assert (0 ≤ (5 * doy + 2) / 153 ≤ 11) as Hmp by (Z.div_mod_to_equations; lia).
  remember ((5 * doy + 2) / 153) as mp eqn:E4. clear E4.
  unfold days. cbv zeta.
  assert (∀ m, 1 ≤ m ≤ 12 → (m - 1) / 12 = 0 ∧ (m - 1) mod 12 + 1 = m) as Hm.
  { intros m Hm. rewrite Z.div_small, Z.mod_small by lia. lia. }
  assert (∀ y, y = yoe + era * 400 → y / 400 = era ∧ y mod 400 = yoe) as Hy.
  { intros y ->. rewrite Z.div_add, Z.div_small, Z.mod_add, Z.mod_small by lia. lia. }
  destruct (Z.ltb_spec mp 10).
  - destruct (Hm (mp + 3)) as [-> ->]; [lia|]. rewrite (proj2 (Z.leb_gt (mp + 3) 2)) by lia.
    rewrite (proj2 (Z.ltb_lt 2 (mp + 3))) by lia.
    destruct (Hy (yoe + era * 400 + 0 + 0)) as [-> ->]; [lia|].
    replace (mp + 3 - 3) with mp by lia. revert E3 Hz. clear.
    generalize (yoe / 4) (yoe / 100) ((153 * mp + 2) / 5). lia.
  - destruct (Hm (mp - 9)) as [-> ->]; [lia|]. rewrite (proj2 (Z.leb_le (mp - 9) 2)) by lia.
    rewrite (proj2 (Z.ltb_ge 2 (mp - 9))) by lia.
    destruct (Hy (yoe + era * 400 + 1 + 0 - 1)) as [-> ->]; [lia|].
    replace (mp - 9 + 9) with mp by lia. revert E3 Hz. clear.
    generalize (yoe / 4) (yoe / 100) ((153 * mp + 2) / 5). lia.
Qed.

Lemma days_add y m d k : days y m (d + k) = days y m d + k.
Proof. unfold days. cbv zeta. ring. Qed.

Lemma Day_pos : 0 < Day.
Proof. unfold Day, Hour, Minute, Second. lia. Qed.

(** The date and the time of day give the time back. *)
Lemma Date_of_parts zone t clock_ :
  Date zone (Year zone t) (Month zone t) (MonthDay zone t) clock_ = day_of zone t * Day + clock_ - zone.
Proof. unfold Date, Year, Month, MonthDay. by rewrite days_civil. Qed.

Lemma time_of_parts zone t : t = day_of zone t * Day + clock zone t - zone.
Proof.
  unfold day_of, clock. pose proof (Z.div_mod (t + zone) Day ltac:(pose proof Day_pos; lia)). lia.
Qed.

Lemma clock_bound zone t : 0 ≤ clock zone t < Day.
Proof. apply Z.mod_pos_bound, Day_pos. Qed.

Lemma clock_of_date zone y m d c : 0 ≤ c < Day → clock zone (Date zone y m d c) = c.
Proof.
  intros Hc. unfold clock, Date. replace (days y m d * Day + c - zone + zone) with (c + days y m d * Day) by lia.
  rewrite Z.mod_add by lia. by apply Z.mod_small.
Qed.

Lemma Date_add zone y m d c k : Date zone y m (d + k) c = Date zone y m d c + k * Day.
Proof. unfold Date. rewrite days_add. ring. Qed.

(** A day later, in a location without daylight saving. *)
Lemma AddDate_day zone t : AddDate zone t 0 0 1 = t + Day.
Proof.
  unfold AddDate. rewrite !Z.add_0_r, Date_add, Date_of_parts, Z.mul_1_l.
  by rewrite <- (time_of_parts zone t).
Qed.

Lemma parts_of_time zone D c :
  0 ≤ c < Day → day_of zone (D * Day + c - zone) = D ∧ clock zone (D * Day + c - zone) = c.
Proof.
  intros Hc. unfold day_of, clock. replace (D * Day + c - zone + zone) with (c + D * Day) by ring.
  pose proof Day_pos. rewrite Z.div_add, Z.mod_add, Z.div_small, Z.mod_small by lia. split; [ring|done].
Qed.

(** ** Fuel of [ParseDuration] *)

Lemma leadingInt_length x s v r : leadingInt x s = Some (v, r) → (String.length r ≤ String.length s)%nat.
Proof.
  revert x. induction s as [|c s IH]; intros x; simpl; [intros [= _ <-]; done|].
  destruct (is_digit c); [|intros [= _ <-]; done]. do 2 (case_match; [done|]). intros Hi%IH. lia.
Qed.

Lemma leadingFraction_length x sc o s f sc' r :
  leadingFraction x sc o s = (f, sc', r) → (String.length r ≤ String.length s)%nat.
Proof.
  revert x sc o. induction s as [|c s IH]; intros x sc o; simpl; [intros [= _ _ <-]; done|].
  destruct (is_digit c); [|intros [= _ _ <-]; done]. repeat case_match; intros Hi%IH; lia.
Qed.

Lemma span_unit_length s u r :
  span_unit s = (u, r) → (String.length u + String.length r = String.length s)%nat.
Proof.
  revert u. induction s as [|c s IH]; intros u; simpl; [intros [= <- <-]; done|].
  destruct (is_unit_char c); [|intros [= <- <-]; done].
  destruct (span_unit s) as [u' r']. intros [= <- <-]. simpl. by rewrite (IH u' eq_refl).
Qed.

(** The length of the text is enough fuel: more does not change the result. *)
Lemma duration_parts_done fuel extra d s :
  (String.length s ≤ fuel)%nat → duration_parts (fuel + extra) d s = duration_parts fuel d s.
Proof.
  revert d s. induction fuel as [|fuel IH]; intros d s Hlen.
  { destruct s; [by destruct extra|simpl in Hlen; lia]. }
  destruct s as [|c s']; [done|]. cbn [Nat.add duration_parts].
  destruct (negb _); [done|]. destruct (leadingInt 0 (String c s')) as [[v s1]|] eqn:H1; [|done].
  apply leadingInt_length in H1.
  destruct (match s1 with String _ _ => _ | _ => _ end) as [[[f scale] s2] post] eqn:H2.
  assert (String.length s2 ≤ String.length s1)%nat as Hs2.
  { destruct s1 as [|c' s1']; [by injection H2 as _ _ <- _|].
    destruct (Ascii.nat_of_ascii c' =? 46)%nat; [|by injection H2 as _ _ <- _].
    destruct (leadingFraction 0 1 false s1') as [[f' sc'] s2'] eqn:H3. injection H2 as _ _ <- _.
    apply leadingFraction_length in H3. simpl. lia. }
  destruct (negb _ && _); [done|]. destruct (span_unit s2) as [u s3] eqn:H4. apply span_unit_length in H4.
  case_bool_decide as Hu; [done|]. destruct (unit_of u); [|done]. cbv zeta.
  assert (String.length s3 ≤ fuel)%nat by (destruct u; [done|]; simpl in *; lia).
  repeat case_match; first [reflexivity|by apply IH].
Qed.
