(* ===== verification/Scheduler.v ===== *)
(** The job scheduler ([src/internal/scheduler/scheduler.go]): schedules and their next
    run times, the parser of schedule expressions, and the scheduler itself.

    Schedules are computed in the scheduler's location, a fixed offset from UTC.  A job
    is its name; running it and asking whether it is enabled are up to the
    environment, and a run leaves an event. *)

From stdpp Require Import pretty gmap.
From S2P Require Import Prelude GoStrings GoTime Threads.

#[local] Open Scope string_scope.
#[local] Open Scope list_scope.
#[local] Open Scope Z_scope.

(** * Schedules *)

Record CronSchedule := mkCron {
  CMinute : list Z;
  CHour : list Z;
  CDay : list Z;
  CMonth : list Z;
  CWeekday : list Z
}.

Inductive Schedule :=
| IntervalSchedule (Interval : Z)
| DailySchedule (DHour DMinute : Z)
| Cron (c : CronSchedule).

Section next.
Context (zone : Z).

Definition contains (slice : list Z) (val : Z) : bool := existsb (Z.eqb val) slice.

Definition matches (s : CronSchedule) (t : time) : bool :=
  contains (CMinute s) (ClockMinute zone t) && contains (CHour s) (ClockHour zone t)
  && contains (CDay s) (MonthDay zone t) && contains (CMonth s) (Month zone t)
  && contains (CWeekday s) (Weekday zone t).

(** [for i := 0; i < maxIterations; i++ { if s.matches(t) { return t }; t = t.Add(time.Minute) }] *)
Fixpoint search (s : CronSchedule) (n : nat) (t : time) : option time :=
  match n with
  | O => None
  | S n' => if matches s t then Some t else search s n' (t + Minute)
  end.

Definition maxIterations : Z := 4 * 365 * 24 * 60.

Definition Cron_Next (s : CronSchedule) (after : time) : time :=
  match search s (Z.to_nat maxIterations) (Truncate (after + Minute) Minute) with
  | Some t => t
  | None => AddDate zone after 10 0 0
  end.

Definition Daily_Next (hour minute : Z) (after : time) : time :=
  let next := Date zone (Year zone after) (Month zone after) (MonthDay zone after) (hour * Hour + minute * Minute) in
  if negb (After next after) then AddDate zone next 0 0 1 else next.

Definition Next (s : Schedule) (after : time) : time :=
  match s with
  | IntervalSchedule interval => after + interval
  | DailySchedule hour minute => Daily_Next hour minute after
  | Cron c => Cron_Next c after
  end.

End next.

(** * Parsing *)

(** [for i := i0; i <= maxVal; i += step { values = append(values, i) }], with the
    wrap-around of [int].  The bounds of the fields are below 60 and the step is
    positive, so the loop takes at most 60 turns, and 2 more if it wraps around
    ([count_loop_done]). *)
Fixpoint count_loop (fuel : nat) (i maxVal step : Z) : list Z :=
  match fuel with
  | O => []
  | S fuel' => if i <=? maxVal then i :: count_loop fuel' (wrap64 (i + step)) maxVal step else []
  end.

Definition count_from (minVal maxVal step : Z) : list Z := count_loop 64 minVal maxVal step.

Definition comma : Ascii.ascii := Ascii.ascii_of_nat 44.
Definition dash : Ascii.ascii := Ascii.ascii_of_nat 45.

(** One part of a comma-separated field. *)
Definition parse_part (minVal maxVal : Z) (part : string) : result (list Z) :=
  if Contains part "-" then
    match split_on dash part with
    | [a; b] =>
        match Atoi a with
        | None => Err (Errorf ("invalid range start: " +:+ a))
        | Some start =>
            match Atoi b with
            | None => Err (Errorf ("invalid range end: " +:+ b))
            | Some end_ =>
                if (start <? minVal) || (maxVal <? end_) || (end_ <? start)
                then Err (Errorf ("range out of bounds: " +:+ part))
                else Ok (count_from start end_ 1)
            end
        end
    | _ => Err (Errorf ("invalid range: " +:+ part))
    end
  else
    match Atoi part with
    | None => Err (Errorf ("invalid value: " +:+ part))
    | Some val =>
        if (val <? minVal) || (maxVal <? val)
        then Err (Errorf ("value out of bounds: " +:+ pretty val +:+ " (must be " +:+ pretty minVal
                          +:+ "-" +:+ pretty maxVal +:+ ")"))
        else Ok [val]
    end.

Fixpoint parse_parts (minVal maxVal : Z) (parts : list string) : result (list Z) :=
  match parts with
  | [] => Ok []
  | part :: parts' =>
      rbind (parse_part minVal maxVal part) (λ vs,
      rbind (parse_parts minVal maxVal parts') (λ rest, Ok (vs ++ rest)))
  end.

Definition parseField (field : string) (minVal maxVal : Z) : result (list Z) :=
  if bool_decide (field = "*") then Ok (count_from minVal maxVal 1)
  else if HasPrefix field "*/" then
    match Atoi (drop_chars 2 field) with
    | Some step =>
        if step <=? 0 then Err (Errorf ("invalid step value: " +:+ field))
        else Ok (count_from minVal maxVal step)
    | None => Err (Errorf ("invalid step value: " +:+ field))
    end
  else parse_parts minVal maxVal (split_on comma field).

(** [fmt.Errorf("invalid ... field: %w", err)] *)
Definition in_field {A} (name : string) (r : result A) : result A :=
  match r with
  | Err (Errorf e) => Err (Errorf ("invalid " +:+ name +:+ " field: " +:+ e))
  | r => r
  end.

Definition ParseCron (expr : string) : result CronSchedule :=
  match Fields expr with
  | [f0; f1; f2; f3; f4] =>
      rbind (in_field "minute" (parseField f0 0 59)) (λ minute,
      rbind (in_field "hour" (parseField f1 0 23)) (λ hour,
      rbind (in_field "day" (parseField f2 1 31)) (λ day,
      rbind (in_field "month" (parseField f3 1 12)) (λ month,
      rbind (in_field "weekday" (parseField f4 0 6)) (λ weekday,
      Ok (mkCron minute hour day month weekday))))))
  | fields => Err (Errorf ("cron expression must have 5 fields, got " +:+ pretty (len fields)))
  end.

Definition weekly : CronSchedule :=
  mkCron [0] [0]
    [1; 2; 3; 4; 5; 6; 7; 8; 9; 10; 11; 12; 13; 14; 15; 16; 17; 18; 19; 20; 21; 22; 23; 24; 25; 26; 27; 28; 29;
     30; 31] [1; 2; 3; 4; 5; 6; 7; 8; 9; 10; 11; 12] [0].

Definition monthly : CronSchedule :=
  mkCron [0] [0] [1] [1; 2; 3; 4; 5; 6; 7; 8; 9; 10; 11; 12] [0; 1; 2; 3; 4; 5; 6].

Definition ParseSchedule (expr : string) : result Schedule :=
  let expr := TrimSpace expr in
  let word := ToLower expr in
  if bool_decide (word = "@daily") || bool_decide (word = "@midnight") then Ok (DailySchedule 0 0)
  else if bool_decide (word = "@hourly") then Ok (IntervalSchedule Hour)
  else if bool_decide (word = "@weekly") then Ok (Cron weekly)
  else if bool_decide (word = "@monthly") then Ok (Cron monthly)
  else
    match ParseDuration expr with
    | Some d =>
        (* the message also prints the duration *)
        if d <? Minute then Err (Errorf "interval must be at least 1 minute")
        else Ok (IntervalSchedule d)
    | None => rbind (ParseCron expr) (λ c, Ok (Cron c))
    end.

(** * The scheduler *)

Record jobEntry := mkEntry {
  job : string;
  schedule : Schedule;
  lastRun : time;
  nextRun : time
}.

Definition loc := nat.

(** [jobs] holds pointers: an entry removed while its job runs is still updated.
    [ran] lists the jobs that were run. *)
Record State := mkState {
  entries : gmap loc jobEntry;
  jobs : gmap string loc;
  ran : list string
}.

Definition New : State := mkState ∅ ∅ [].

(** The clock, [job.Enabled()] and the error of [job.Run]. *)
Record Env := mkEnv { now : time; Enabled : string → bool; run_error : option string }.

Definition P := prog State Env.

Record JobStatus := mkStatus { SName : string; SEnabled : bool; SLastRun : time; SNextRun : time }.

Section scheduler.
Context (zone : Z).
#[local] Open Scope prog_scope.

Definition AddJob (name : string) (sched : Schedule) : P (result unit) :=
  atomic (λ e s,
    match jobs s !! name with
    | Some _ => (s, Err (Errorf ("job " +:+ quote name +:+ " already exists")))
    | None =>
        let l := fresh (dom (entries s)) in
        ({| s with entries := <[l := mkEntry name sched 0 (Next zone sched (now e))]> (entries s);
            jobs := <[name := l]> (jobs s) |}, Ok tt)
    end).

Definition RemoveJob (name : string) : P unit :=
  atomic (λ _ s, ({| s with jobs := delete name (jobs s) |}, tt)).

(** [entry.job.Run(ctx)] *)
Definition run_job (l : loc) : P (option string) :=
  atomic (λ e s,
    (match entries s !! l with
     | Some entry => {| s with ran := ran s ++ [job entry] |}
     | None => s
     end, run_error e)).

Definition executeJob (t : time) (l : loc) : P unit :=
  err <- run_job l ;;
  atomic (λ _ s,
    ({| s with entries :=
          alter (λ entry, {| entry with lastRun := t; nextRun := Next zone (schedule entry) t |}) l (entries s) |},
     tt)).

Fixpoint execute_all (t : time) (due : list loc) : P unit :=
  match due with
  | [] => Ret tt
  | l :: due' => executeJob t l ;; execute_all t due'
  end.

Definition is_due (e : Env) (entry : jobEntry) : bool :=
  Enabled e (job entry) && (After (now e) (nextRun entry) || Equal (now e) (nextRun entry)).

(** The entries are collected under the lock and run after it is released. *)
Definition runDueJobs `{MapRange} : P unit :=
  r <- atomic (λ e s,
         (s, (now e, filter (λ l, match entries s !! l with Some entry => is_due e entry | None => false end = true)
                            (range_values (jobs s))))) ;;
  execute_all r.1 r.2.

Definition RunJobNow (name : string) : P (result unit) :=
  p <- atomic (λ _ s, (s, jobs s !! name)) ;;
  match p with
  | None => Ret (Err (Errorf ("job " +:+ quote name +:+ " not found")))
  | Some l =>
      err <- run_job l ;;
      Ret (match err with Some e => Err (Errorf e) | None => Ok tt end)
  end.

Definition GetJobStatus : P (gmap string JobStatus) :=
  atomic (λ e s,
    (s, map_imap (λ name l,
           entry ← entries s !! l; Some (mkStatus name (Enabled e (job entry)) (lastRun entry) (nextRun entry)))
         (jobs s))).

End scheduler.

(** ** Starting and stopping *)

(** The [running] flag, whether [stopCh] is closed, and the number of [run] loops
    that have been started and have not returned. *)
Record lifecycle := mkLife { running : bool; stopped : bool; loops : nat }.

Definition created : lifecycle := mkLife false false 0.

Definition Start (s : lifecycle) : lifecycle :=
  if running s then s else {| s with running := true; loops := S (loops s) |}.

(** [Stop] waits for the loops, which return once [stopCh] is closed; closing a closed
    channel panics. *)
Definition Stop (s : lifecycle) : result lifecycle :=
  if negb (running s) then Ok s
  else if stopped s then Panic
  else Ok (mkLife false true 0).

(** * Next run times *)

Section next_lemmas.
Context (zone : Z).

Lemma Minute_pos : 0 < Minute.
Proof. unfold Minute, Second. lia. Qed.

Lemma search_Some s n t u :
  search zone s n t = Some u →
  ∃ k, (k < n)%nat ∧ u = t + Z.of_nat k * Minute ∧ matches zone s u = true ∧
       ∀ j, (j < k)%nat → matches zone s (t + Z.of_nat j * Minute) = false.
Proof.
  revert t. induction n as [|n IH]; intros t; simpl; [done|]. destruct (matches zone s t) eqn:Hm.
  - intros [= <-]. exists 0%nat. rewrite Z.add_0_r. split_and!; [lia|done|done|]. intros j Hj. lia.
  - intros (k & Hk & -> & Hmk & Hbefore)%IH. exists (S k).
    replace (t + Z.of_nat (S k) * Minute) with (t + Minute + Z.of_nat k * Minute) by lia.
    split_and!; [lia|done|done|]. intros [|j] Hj; [by rewrite Z.add_0_r|].
    replace (t + Z.of_nat (S j) * Minute) with (t + Minute + Z.of_nat j * Minute) by lia. apply Hbefore. lia.
Qed.

Lemma search_None s n t :
  search zone s n t = None → ∀ k, (k < n)%nat → matches zone s (t + Z.of_nat k * Minute) = false.
Proof.
  revert t. induction n as [|n IH]; intros t; simpl; [lia|]. destruct (matches zone s t) eqn:Hm; [done|].
  intros Hs [|k] Hk; [by rewrite Z.add_0_r|].
  replace (t + Z.of_nat (S k) * Minute) with (t + Minute + Z.of_nat k * Minute) by lia. apply IH; [done|lia].
Qed.

Lemma search_none_iff s n t :
  (∀ k, (k < n)%nat → matches zone s (t + Z.of_nat k * Minute) = false) → search zone s n t = None.
Proof.
  intros Hn. destruct (search zone s n t) as [u|] eqn:Hs; [|done].
  apply search_Some in Hs as (k & Hk & -> & Hm & _). rewrite Hn in Hm by done. done.
Qed.

(** Whole minutes after a time are the steps of the search. *)
Lemma minutes_after after u :
  after < u → u mod Minute = 0 →
  ∃ k : nat, u = Truncate (after + Minute) Minute + Z.of_nat k * Minute.
Proof.
  intros Hlt Hal. pose proof Minute_pos. pose proof (Truncate_next after Minute Minute_pos).
  apply aligned_steps; [done|by apply Truncate_aligned|done|].
  destruct (decide (Truncate (after + Minute) Minute ≤ u)) as [Hle|Hgt]; [done|].
  pose proof (aligned_gap u (Truncate (after + Minute) Minute) Minute Minute_pos Hal
                (Truncate_aligned _ _ Minute_pos) ltac:(lia)). lia.
Qed.

End next_lemmas.

(** C6: The next run of a cron schedule is the first whole minute after the given time
    that matches all five fields, if there is one within the next 1460 days; no
    earlier whole minute after the given time matches.  When there is none the
    schedule is not consulted any more and the next run is ten years later. *)
Theorem cron_next_first (zone : Z) (s : CronSchedule) (after : time) :
  (∀ u, after < u → u mod Minute = 0 → u < Truncate (after + Minute) Minute + maxIterations * Minute →
        matches zone s u = true →
     matches zone s (Cron_Next zone s after) = true ∧ Cron_Next zone s after mod Minute = 0 ∧
     after < Cron_Next zone s after ≤ u) ∧
  ((∀ u, after < u → u mod Minute = 0 → u < Truncate (after + Minute) Minute + maxIterations * Minute →
         matches zone s u = false) →
   Cron_Next zone s after = AddDate zone after 10 0 0).
Proof.
  pose proof Minute_pos as Hmin. pose proof (Truncate_next after Minute Minute_pos) as Htr.
  pose proof (Truncate_aligned (after + Minute) Minute Minute_pos) as Hal. unfold Cron_Next.
  remember (Truncate (after + Minute) Minute) as t0 eqn:Et. split.
  - intros u Hlt Hu Hmax Hm. destruct (minutes_after after u Hlt Hu) as [k Hk]. rewrite <- Et in Hk.
    assert (k < Z.to_nat maxIterations)%nat by (unfold maxIterations in *; nia).
    destruct (search zone s (Z.to_nat maxIterations) t0) as [v|] eqn:Hs.
    + apply search_Some in Hs as (j & Hj & -> & Hmj & Hbefore).
      assert (j ≤ k)%nat.
      { destruct (decide (j ≤ k)%nat); [done|]. rewrite Hk, Hbefore in Hm by lia. done. }
      split_and!; [done| |nia|nia]. by rewrite Z.mod_add by lia.
    + rewrite Hk, (search_None zone s _ _ Hs) in Hm by done. done.
  - intros Hnone. rewrite search_none_iff; [done|]. intros k Hk.
    apply Hnone; [nia|by rewrite Z.mod_add by lia|]. unfold maxIterations in *. nia.
Qed.

(** A daily schedule runs next at its time of day, within the next 24 hours: strictly
    after the given time, at most a day later, and with that time on the clock. *)
Theorem daily_next_spec (zone hour minute : Z) (after : time)
    (Hh : 0 ≤ hour < 24) (Hm : 0 ≤ minute < 60) :
  let t := Daily_Next zone hour minute after in
  after < t ≤ after + Day ∧ clock zone t = hour * Hour + minute * Minute.
Proof.
  assert (0 ≤ hour * Hour + minute * Minute < Day) as Hc by (unfold Day, Hour, Minute, Second; lia).
  unfold Daily_Next, After. cbv zeta. rewrite Date_of_parts. pose proof (clock_bound zone after) as Hb.
  pose proof (time_of_parts zone after) as Ht.
  assert (∀ k, clock zone (day_of zone after * Day + (hour * Hour + minute * Minute) - zone + k * Day) =
               hour * Hour + minute * Minute) as Hclock.
  { intros k. unfold clock at 1.
    replace (_ + zone) with (hour * Hour + minute * Minute + (day_of zone after + k) * Day) by ring.
    rewrite Z.mod_add by (pose proof Day_pos; lia). by apply Z.mod_small. }
  destruct (Z.ltb_spec after (day_of zone after * Day + (hour * Hour + minute * Minute) - zone)) as [Hlt|Hge];
    simpl; rewrite ?AddDate_day.
  - split; [lia|]. rewrite <- (Hclock 0) at 2. f_equal. ring.
  - split; [lia|]. rewrite <- (Hclock 1) at 2. f_equal.
Qed.

Lemma daily_next_spec_witness :
  let after := days 2024 2 28 * Day + 4 * Hour in
  clock 0 (Daily_Next 0 3 0 after) = 3 * Hour + 0 * Minute.
Proof.
  cbv zeta. exact (proj2 (daily_next_spec 0 3 0 (days 2024 2 28 * Day + 4 * Hour) ltac:(lia) ltac:(lia))).
Defined.

(** ** February 29 *)

Definition leap_day : CronSchedule := mkCron [0] [0] [29] [2] [0; 1; 2; 3; 4; 5; 6].

Lemma no_leap_day :
  forallb (λ j, negb (((civil (days 2024 2 29 + Z.of_nat j)).2 =? 29)
                      && ((civil (days 2024 2 29 + Z.of_nat j)).1.2 =? 2))) (seq 1 1460) = true.
Proof. vm_compute. reflexivity. Qed.

(** Minute [r] of a day is the hour and minute it should be. *)
Lemma clock_minutes D r :
  0 ≤ r < 1440 →
  ClockHour 0 (D * Day + r * Minute - 0) = r / 60 ∧ ClockMinute 0 (D * Day + r * Minute - 0) = r mod 60 ∧
  day_of 0 (D * Day + r * Minute - 0) = D.
Proof.
  intros Hr. assert (0 ≤ r * Minute < Day) as Hc by (unfold Day, Hour, Minute, Second; lia).
  destruct (parts_of_time 0 D (r * Minute) Hc) as [Hd Hcl]. unfold ClockHour, ClockMinute. rewrite Hcl, Hd.
  unfold Hour. pose proof Minute_pos. split_and!; [|..|done].
  - rewrite Z.div_mul_cancel_r by lia. done.
  - rewrite Z.mul_mod_distr_r by lia. rewrite Z.div_mul by lia. done.
Qed.

Lemma leap_day_search k :
  (k < Z.to_nat maxIterations)%nat →
  matches 0 leap_day (days 2024 2 29 * Day + Minute + Z.of_nat k * Minute) = false.
Proof.
  intros Hk. set (n := 1 + Z.of_nat k). pose proof (Z.div_mod n 1440 ltac:(lia)) as Hn.
  pose proof (Z.mod_pos_bound n 1440 ltac:(lia)) as Hr.
  assert (0 ≤ n / 1440 ≤ 1460) as Hq by (unfold n, maxIterations in *; Z.div_mod_to_equations; lia).
  replace (days 2024 2 29 * Day + Minute + Z.of_nat k * Minute)
    with ((days 2024 2 29 + n / 1440) * Day + (n mod 1440) * Minute - 0)
    by (rewrite Z.mul_add_distr_r; replace (n / 1440 * Day) with (1440 * (n / 1440) * Minute)
          by (unfold Day, Hour; ring); unfold n in *; lia).
  destruct (clock_minutes (days 2024 2 29 + n / 1440) (n mod 1440) Hr) as (Hh & Hm & Hd).
  unfold matches, MonthDay, Month. rewrite Hh, Hm, Hd.
  cbn [CMinute CHour CDay CMonth CWeekday leap_day contains existsb]. rewrite !orb_false_r.
  destruct (decide (n / 1440 = 0)) as [Hq0|Hq0].
  - assert (n mod 1440 = n) as -> by lia. unfold n in *.
    destruct (Z.eqb_spec ((1 + Z.of_nat k) mod 60) 0) as [E1|]; [|done].
    destruct (Z.eqb_spec ((1 + Z.of_nat k) / 60) 0) as [E2|]; [|done].
    exfalso. clear -E1 E2. Z.div_mod_to_equations. lia.
  - pose proof no_leap_day as Hno. rewrite forallb_forall in Hno.
    specialize (Hno (Z.to_nat (n / 1440)) ltac:(apply in_seq; lia)). rewrite Z2Nat.id in Hno by lia.
    apply negb_true_iff in Hno. rewrite <- !andb_assoc.
    rewrite (andb_assoc (_ =? 29)), Hno. simpl. by rewrite !andb_false_r.
Qed.

(** A schedule for February 29 goes wrong after each run.  The search covers 1460
    days and the next leap day is 1461 days away, so from midnight of February 29,
    2024 the search finds nothing and the job is put off by ten years, to March 1,
    2034, a day the schedule does not match; February 29, 2028 and 2032, which it
    does match, are skipped. *)
Theorem leap_day_skipped :
  ParseSchedule "0 0 29 2 *" = Ok (Cron leap_day) ∧
  Next 0 (Cron leap_day) (days 2024 2 29 * Day) = days 2034 3 1 * Day ∧
  matches 0 leap_day (days 2034 3 1 * Day) = false ∧
  matches 0 leap_day (days 2028 2 29 * Day) = true ∧ matches 0 leap_day (days 2032 2 29 * Day) = true.
Proof.
  split_and!; [vm_compute; reflexivity| |vm_compute; reflexivity..].
  unfold Next, Cron_Next. rewrite search_none_iff; [vm_compute; reflexivity|]. intros k Hk.
  replace (Truncate (days 2024 2 29 * Day + Minute) Minute) with (days 2024 2 29 * Day + Minute)
    by (vm_compute; reflexivity).
  by apply leap_day_search.
Qed.

(** * Parsing *)

(** ** Ranges *)

Lemma count_loop_range fuel lo i maxVal step :
  lo ≤ i → 0 ≤ i → 0 < step → maxVal ≤ 59 → i + step ≤ int64_max →
  Forall (λ v, lo ≤ v ≤ maxVal) (count_loop fuel i maxVal step).
Proof.
  revert i. induction fuel as [|fuel IH]; intros i Hlo Hi Hs Hmax Hw; simpl; [constructor|].
  destruct (Z.leb_spec i maxVal) as [Hle|]; [|constructor].
  rewrite wrap64_id by (unfold in_int64, int64_min in *; lia). constructor; [done|].
  destruct (decide (i + step ≤ maxVal)) as [Hnext|Hnext].
  - apply IH; [lia..|]. unfold int64_max. lia.
  - destruct fuel; simpl; [constructor|]. by rewrite (proj2 (Z.leb_gt _ _)) by lia.
Qed.

(** More fuel does not change the result. *)
Lemma count_loop_done fuel extra i maxVal step :
  0 ≤ i → 0 < step → maxVal ≤ 59 → i + step ≤ int64_max → maxVal - i < Z.of_nat fuel →
  count_loop (fuel + extra) i maxVal step = count_loop fuel i maxVal step.
Proof.
  revert i. induction fuel as [|fuel IH]; intros i Hi Hs Hmax Hw Hf; simpl.
  - destruct extra; simpl; [done|]. by rewrite (proj2 (Z.leb_gt _ _)) by lia.
  - destruct (Z.leb_spec i maxVal) as [Hle|]; [|done].
    rewrite wrap64_id by (unfold in_int64, int64_min in *; lia). f_equal.
    destruct (decide (i + step ≤ maxVal)) as [Hnext|Hnext].
    + apply IH; [lia..| |lia]. unfold int64_max. lia.
    + destruct fuel, extra; simpl; try done; by rewrite ?(proj2 (Z.leb_gt _ _)) by lia.
Qed.

Lemma count_loop_nonempty fuel i maxVal step : i ≤ maxVal → count_loop (S fuel) i maxVal step ≠ [].
Proof. intros Hle. simpl. by rewrite (proj2 (Z.leb_le _ _) Hle). Qed.

Lemma count_from_nonempty lo maxVal step : lo ≤ maxVal → count_from lo maxVal step ≠ [].
Proof. apply (count_loop_nonempty 63). Qed.

(** What a field may hold. *)
Definition in_range (minVal maxVal : Z) (vs : list Z) : Prop :=
  vs ≠ [] ∧ Forall (λ v, minVal ≤ v ≤ maxVal) vs.

(** The one step with which the counter of [*/N] wraps around. *)
Definition largest_step (field : string) : Prop :=
  HasPrefix field "*/" = true ∧ Atoi (drop_chars 2 field) = Some int64_max.

Lemma Atoi_bound s v : Atoi s = Some v → int64_min ≤ v ≤ int64_max.
Proof.
  unfold Atoi. destruct (split_sign s) as [sign rest]. case_bool_decide; [done|].
  destruct (all_chars is_digit rest); [|done]. destruct (scan_digits None rest) as [x|]; [|done].
  destruct (_ && _) eqn:Hb; [|done]. intros [= <-]. apply andb_true_iff in Hb as [H1 H2].
  apply Z.leb_le in H1, H2. done.
Qed.

Lemma parse_part_range minVal maxVal part vs :
  0 ≤ minVal → maxVal ≤ 59 → parse_part minVal maxVal part = Ok vs → in_range minVal maxVal vs.
Proof.
  intros Hmin Hmax. unfold parse_part. destruct (Contains part "-").
  - destruct (split_on dash part) as [|a [|b [|]]]; try done.
    destruct (Atoi a) as [start|]; [|done]. destruct (Atoi b) as [end_|]; [|done].
    destruct ((start <? minVal) || (maxVal <? end_) || (end_ <? start)) eqn:Hb; [done|]. intros [= <-].
    apply orb_false_iff in Hb as [[H1 H2]%orb_false_iff H3]. apply Z.ltb_ge in H1, H2, H3.
    split; [by apply count_from_nonempty|].
    eapply Forall_impl; [apply (count_loop_range 64 start)|]; try lia; unfold int64_max; [lia|]. simpl. lia.
  - destruct (Atoi part) as [v|]; [|done]. destruct ((v <? minVal) || (maxVal <? v)) eqn:Hb; [done|].
    intros [= <-]. apply orb_false_iff in Hb as [H1 H2]. apply Z.ltb_ge in H1, H2.
    split; [done|]. by repeat constructor.
Qed.

Lemma parse_parts_range minVal maxVal parts vs :
  0 ≤ minVal → maxVal ≤ 59 → parts ≠ [] → parse_parts minVal maxVal parts = Ok vs → in_range minVal maxVal vs.
Proof.
  intros Hmin Hmax Hne. assert (∀ vs, parse_parts minVal maxVal parts = Ok vs →
    Forall (λ v, minVal ≤ v ≤ maxVal) vs ∧ (parts ≠ [] → vs ≠ [])) as Hall.
  { clear Hne vs. induction parts as [|part parts IH]; intros vs; simpl.
    { intros [= <-]. done. }
    unfold rbind. destruct (parse_part minVal maxVal part) as [v1| |] eqn:H1; [|done..].
    destruct (parse_parts minVal maxVal parts) as [v2| |]; [|done..]. intros [= <-].
    apply parse_part_range in H1 as [Hn1 Hf1]; [|done..]. destruct (IH _ eq_refl) as [Hf2 _].
    split; [by apply Forall_app_2|]. intros _ Hn. by apply app_nil in Hn as [? _]. }
  intros Hp. destruct (Hall _ Hp). split; auto.
Qed.

Lemma parseField_range field minVal maxVal vs :
  0 ≤ minVal ≤ 1 → minVal ≤ maxVal → maxVal ≤ 59 → ¬ largest_step field →
  parseField field minVal maxVal = Ok vs → in_range minVal maxVal vs.
Proof.
  intros Hmin Hle Hmax Hstep. unfold parseField. case_bool_decide.
  { intros [= <-]. split; [by apply count_from_nonempty|].
    apply count_loop_range; [lia..|]. unfold int64_max. lia. }
  destruct (HasPrefix field "*/") eqn:Hp; [|by apply parse_parts_range; [lia|done|apply split_on_nonempty]].
  destruct (Atoi (drop_chars 2 field)) as [step|] eqn:Ha; [|done].
  destruct (Z.leb_spec step 0); [done|]. intros [= <-]. split; [by apply count_from_nonempty|].
  pose proof (Atoi_bound _ _ Ha). apply count_loop_range; [lia..|].
  assert (step ≠ int64_max) by (intros ->; by apply Hstep). lia.
Qed.

(** Every field of a schedule holds values of its range. *)
Definition well_formed (c : CronSchedule) : Prop :=
  in_range 0 59 (CMinute c) ∧ in_range 0 23 (CHour c) ∧ in_range 1 31 (CDay c) ∧
  in_range 1 12 (CMonth c) ∧ in_range 0 6 (CWeekday c).

Lemma in_field_Ok {A} name (r : result A) v : in_field name r = Ok v → r = Ok v.
Proof. by destruct r as [|[]|]. Qed.

(** ** Printing and parsing back *)

(** The canonical text of a field: its values, separated by commas. *)
Fixpoint print_values (v : Z) (vs : list Z) : string :=
  match vs with
  | [] => pretty v
  | v' :: vs' => pretty v +:+ String comma (print_values v' vs')
  end.

Definition print_field (vs : list Z) : string :=
  match vs with [] => "" | v :: vs' => print_values v vs' end.

Definition print_cron (c : CronSchedule) : string :=
  print_field (CMinute c) +:+ String space (print_field (CHour c) +:+ String space (print_field (CDay c)
  +:+ String space (print_field (CMonth c) +:+ String space (print_field (CWeekday c))))).

(** Numbers below 60 are printed in digits and read back. *)
Lemma small_numbers v :
  0 ≤ v ≤ 59 → all_chars is_digit (pretty v) = true ∧ Atoi (pretty v) = Some v ∧ pretty v ≠ "".
Proof.
  intros Hv.
  assert (Forall (λ n, let v := Z.of_nat n in
            all_chars is_digit (pretty v) = true ∧ Atoi (pretty v) = Some v ∧ pretty v ≠ "") (seq 0 60)) as Hall.
  { repeat constructor; vm_compute; done. }
  rewrite Forall_forall in Hall. specialize (Hall (Z.to_nat v)). cbv zeta in Hall.
  rewrite Z2Nat.id in Hall by lia. apply Hall. apply elem_of_seq. lia.
Qed.

Lemma digit_not c d : is_digit c = true → is_digit d = false → Ascii.eqb c d = false.
Proof. intros Hc Hd. destruct (Ascii.eqb_spec c d); congruence. Qed.

Lemma digits_free c s :
  is_digit c = false → all_chars is_digit s = true → all_chars (λ d, negb (Ascii.eqb d c)) s = true.
Proof.
  intros Hc. apply all_chars_impl. intros d Hd. by rewrite digit_not.
Qed.

Lemma parse_part_small minVal maxVal v :
  0 ≤ v ≤ 59 → minVal ≤ v ≤ maxVal → parse_part minVal maxVal (pretty v) = Ok [v].
Proof.
  intros Hv Hr. destruct (small_numbers v Hv) as (Hd & Ha & _). unfold parse_part.
  assert (Contains (pretty v) "-" = false) as ->.
  { apply negb_true_iff. change "-" with (String dash EmptyString). rewrite <- Contains_char.
    by apply digits_free. }
  rewrite Ha. rewrite (proj2 (Z.ltb_ge _ _)), (proj2 (Z.ltb_ge _ _)) by lia. done.
Qed.

Lemma parse_print_values minVal maxVal v vs :
  0 ≤ minVal → maxVal ≤ 59 → Forall (λ v, minVal ≤ v ≤ maxVal) (v :: vs) →
  parse_parts minVal maxVal (split_on comma (print_values v vs)) = Ok (v :: vs).
Proof.
  intros Hmin Hmax. revert v. induction vs as [|v' vs IH]; intros v Hall; apply Forall_cons in Hall as [Hv Hall];
    destruct (small_numbers v ltac:(lia)) as (Hd & _ & _); pose proof (digits_free comma _ eq_refl Hd) as Hfree;
    rewrite <- free_of_chars in Hfree; cbn [print_values].
  - rewrite split_on_free by done. simpl. by rewrite parse_part_small by lia.
  - rewrite split_on_cons by done. simpl. rewrite parse_part_small by lia. simpl. by rewrite IH.
Qed.

(** A printed field has digits and commas only. *)
Definition is_field_char (c : Ascii.ascii) : bool := is_digit c || Ascii.eqb c comma.

Lemma print_values_chars v vs :
  Forall (λ v, 0 ≤ v ≤ 59) (v :: vs) → all_chars is_field_char (print_values v vs) = true ∧ print_values v vs ≠ "".
Proof.
  revert v. induction vs as [|v' vs IH]; intros v Hall; apply Forall_cons in Hall as [Hv Hall];
    destruct (small_numbers v Hv) as (Hd & _ & Hn); cbn [print_values];
    assert (all_chars is_field_char (pretty v) = true) as Hf
      by (revert Hd; apply all_chars_impl; intros c Hc; unfold is_field_char; by rewrite Hc).
  - done.
  - rewrite all_chars_app, Hf. simpl. destruct (IH v' Hall) as [-> _]. split; [done|].
    by destruct (pretty v).
Qed.

Lemma print_field_word minVal maxVal vs :
  0 ≤ minVal → maxVal ≤ 59 → in_range minVal maxVal vs →
  all_chars is_field_char (print_field vs) = true ∧ print_field vs ≠ "" ∧
  parseField (print_field vs) minVal maxVal = Ok vs.
Proof.
  intros Hmin Hmax [Hne Hall]. destruct vs as [|v vs]; [done|]. cbn [print_field].
  destruct (print_values_chars v vs) as [Hc Hn].
  { eapply Forall_impl; [exact Hall|]. simpl. lia. }
  split_and!; [done..|]. unfold parseField.
  destruct (print_values v vs) as [|c s] eqn:Hp; [done|]. cbn [all_chars] in Hc.
  apply andb_true_iff in Hc as [Hc _].
  assert (∀ s', String c s ≠ String (Ascii.ascii_of_nat 42) s') as Hstar.
  { intros s' [= -> _]. by vm_compute in Hc. }
  rewrite bool_decide_eq_false_2 by apply Hstar.
  assert (HasPrefix (String c s) "*/" = false) as ->.
  { unfold HasPrefix. simpl. case_match; [|done]. subst c. by destruct (Hstar s). }
  rewrite <- Hp. by apply parse_print_values.
Qed.

Lemma field_no_space s : all_chars is_field_char s = true → all_chars (λ c, negb (is_space c)) s = true.
Proof.
  apply all_chars_impl. intros c. destruct c as [[] [] [] [] [] [] [] []]; vm_compute; done.
Qed.

(** C31: Parsing a cron expression gives values of each field's range only, and printing a
    schedule gives an expression that parses back to it.  The one exception to the
    first part is the step 9223372036854775807, with which the counter of [*/N]
    wraps around for the day and the month. *)
Theorem cron_parse_print (c : CronSchedule) (expr : string) :
  (Forall (λ f, ¬ largest_step f) (Fields expr) → ParseCron expr = Ok c → well_formed c) ∧
  (well_formed c → ParseCron (print_cron c) = Ok c).
Proof.
  split.
  - unfold ParseCron. destruct (Fields expr) as [|f0 [|f1 [|f2 [|f3 [|f4 [|]]]]]]; try done.
    rewrite !Forall_cons. intros (H0 & H1 & H2 & H3 & H4 & _). unfold rbind.
    destruct (in_field _ (parseField f0 0 59)) as [v0| |] eqn:E0; [|done..].
    destruct (in_field _ (parseField f1 0 23)) as [v1| |] eqn:E1; [|done..].
    destruct (in_field _ (parseField f2 1 31)) as [v2| |] eqn:E2; [|done..].
    destruct (in_field _ (parseField f3 1 12)) as [v3| |] eqn:E3; [|done..].
    destruct (in_field _ (parseField f4 0 6)) as [v4| |] eqn:E4; [|done..].
    intros [= <-]. apply in_field_Ok in E0, E1, E2, E3, E4.
    split_and!; cbn [CMinute CHour CDay CMonth CWeekday].
    + by apply (parseField_range f0); [lia..| |].
    + by apply (parseField_range f1); [lia..| |].
    + by apply (parseField_range f2); [lia..| |].
    + by apply (parseField_range f3); [lia..| |].
    + by apply (parseField_range f4); [lia..| |].
  - intros (H0 & H1 & H2 & H3 & H4).
    apply (print_field_word 0 59) in H0 as (C0 & N0 & P0); [|lia..].
    apply (print_field_word 0 23) in H1 as (C1 & N1 & P1); [|lia..].
    apply (print_field_word 1 31) in H2 as (C2 & N2 & P2); [|lia..].
    apply (print_field_word 1 12) in H3 as (C3 & N3 & P3); [|lia..].
    apply (print_field_word 0 6) in H4 as (C4 & N4 & P4); [|lia..].
    apply field_no_space in C0, C1, C2, C3, C4.
    assert (Fields (print_cron c) = [print_field (CMinute c); print_field (CHour c); print_field (CDay c);
                                     print_field (CMonth c); print_field (CWeekday c)]) as Hf.
    { unfold Fields, print_cron.
      rewrite (fields_from_word _ "" _ C0 N0). f_equal. rewrite (fields_from_word _ "" _ C1 N1). f_equal.
      rewrite (fields_from_word _ "" _ C2 N2). f_equal. rewrite (fields_from_word _ "" _ C3 N3). f_equal.
      by rewrite fields_from_last. }
    unfold ParseCron. rewrite Hf, P0, P1, P2, P3, P4. by destruct c.
Qed.

(** The day field is [1; -2^63; -1]. *)
Lemma cron_step_wraps :
  ∃ c, ParseCron "0 0 */9223372036854775807 * *" = Ok c ∧ CDay c = [1; int64_min; -1].
Proof. eexists. split; vm_compute; reflexivity. Qed.

(** * Running due jobs *)

(** Every name leads to an entry of that name. *)
Definition indexed (s : State) : Prop :=
  ∀ name l, jobs s !! name = Some l → ∃ entry, entries s !! l = Some entry ∧ job entry = name.

(** The entry after a run at time [t]. *)
Definition after_run (zone : Z) (t : time) (entry : jobEntry) : jobEntry :=
  {| entry with lastRun := t; nextRun := Next zone (schedule entry) t |}.

Lemma runs_executeJob zone t l s s' u entry :
  entries s !! l = Some entry → runs (executeJob zone t l) s s' u →
  s' = mkState (<[l := after_run zone t entry]> (entries s)) (jobs s) (ran s ++ [job entry]).
Proof.
  intros Hl. unfold executeJob. rewrite runs_bind.
  intros (s1 & err & [e [= <- _]]%runs_atomic & [e' [= <-]]%runs_atomic). rewrite Hl. simpl. f_equal.
  apply map_eq. intros l'. destruct (decide (l' = l)) as [->|Hn].
  - by rewrite lookup_alter_eq, lookup_insert_eq, Hl.
  - by rewrite lookup_alter_ne, lookup_insert_ne.
Qed.

(** Distinct entries are run one after the other, each once. *)
Lemma runs_execute_all zone t due s s' u :
  NoDup due → Forall (λ l, is_Some (entries s !! l)) due → runs (execute_all zone t due) s s' u →
  jobs s' = jobs s ∧
  ran s' = ran s ++ omap (λ l, job <$> entries s !! l) due ∧
  ∀ l, entries s' !! l = if decide (l ∈ due) then after_run zone t <$> entries s !! l else entries s !! l.
Proof.
  revert s. induction due as [|l due IH]; intros s Hnd Hall.
  { intros [-> _]%runs_Ret. rewrite app_nil_r. split_and!; [done..|]. intros l. by rewrite decide_False by set_solver. }
  apply NoDup_cons in Hnd as [Hnl Hnd]. apply Forall_cons in Hall as [[entry Hl] Hall].
  cbn [execute_all]. rewrite runs_bind. intros (s1 & [] & H1 & H2).
  apply (runs_executeJob _ _ _ _ _ _ entry) in H1; [|done]. subst s1.
  apply IH in H2 as (Hj & Hr & He); [|done|].
  - simpl in *. split_and!; [done| |].
    + rewrite Hr. rewrite (list_omap_ext _ (λ l, job <$> entries s !! l) due due).
      * rewrite Hl. simpl. by rewrite <- app_assoc.
      * apply Forall_Forall2_diag, Forall_forall. intros l' Hl'. by rewrite lookup_insert_ne by congruence.
    + intros l'. rewrite He. destruct (decide (l' = l)) as [->|Hn].
      * by rewrite lookup_insert_eq, decide_False, decide_True, Hl by set_solver.
      * rewrite lookup_insert_ne by done. apply decide_ext. set_solver.
  - eapply Forall_impl; [exact Hall|]. simpl. intros l' Hl'. destruct (decide (l' = l)) as [->|Hn].
    + rewrite lookup_insert_eq. eauto.
    + by rewrite lookup_insert_ne.
Qed.

Lemma range_values_NoDup `{MapRange} s : indexed s → NoDup (range_values (jobs s)).
Proof.
  intros Hi. rewrite range_values_perm. apply NoDup_fmap_2_strong; [|apply NoDup_map_to_list].
  intros [n1 l1] [n2 l2] H1%elem_of_map_to_list H2%elem_of_map_to_list. simpl. intros ->.
  destruct (Hi _ _ H1) as (e1 & He1 & <-). destruct (Hi _ _ H2) as (e2 & He2 & <-). congruence.
Qed.

Lemma due_names_NoDup s (due : list loc) :
  indexed s → (∀ l, l ∈ due → ∃ name, jobs s !! name = Some l) → NoDup due →
  NoDup (omap (λ l, job <$> entries s !! l) due).
Proof.
  intros Hi Hin. induction due as [|l due IH]; intros Hnd; [constructor|].
  apply NoDup_cons in Hnd as [Hnl Hnd].
  assert (NoDup (omap (λ l, job <$> entries s !! l) due)) as Hrest by (apply IH; [set_solver|done]).
  destruct (Hin l ltac:(left)) as [name Hl]. destruct (Hi _ _ Hl) as (entry & He & Hj).
  simpl. rewrite He. simpl. apply NoDup_cons. split; [|done].
  intros (l' & Hl' & Hn)%list_elem_of_omap. destruct (Hin l') as [name' Hl'']; [by right|].
  destruct (Hi _ _ Hl'') as (entry' & He' & Hj'). rewrite He' in Hn. simplify_eq/=. congruence.
Qed.

(** A tick of the scheduler runs exactly the jobs that are due, each once: the enabled
    jobs whose next run is not after the time of the tick, in some order.  Each of
    them gets that time as its last run and the next run of its schedule after it;
    no other entry changes. *)
Theorem tick_runs_due `{MapRange} (zone : Z) (s s' : State) (u : unit)
    (Hi : indexed s) (Hrun : runs (runDueJobs zone) s s' u) :
  ∃ e names,
    ran s' = ran s ++ names ∧ NoDup names ∧
    (∀ name, name ∈ names ↔ ∃ l entry, jobs s !! name = Some l ∧ entries s !! l = Some entry ∧ is_due e entry = true) ∧
    jobs s' = jobs s ∧
    (∀ name l entry, jobs s !! name = Some l → entries s !! l = Some entry →
       entries s' !! l = Some (if is_due e entry then after_run zone (now e) entry else entry)).
Proof.
  unfold runDueJobs in Hrun. apply runs_bind in Hrun as (s1 & r & [e [= <- <-]]%runs_atomic & Hx). simpl in Hx.
  set (due := filter _ _) in Hx.
  assert (∀ l, l ∈ due ↔ ∃ name entry, jobs s !! name = Some l ∧ entries s !! l = Some entry ∧ is_due e entry = true)
    as Hdue.
  { intros l. unfold due. rewrite list_elem_of_filter, elem_of_range_values. split.
    - intros [Hd (name & Hl)]. destruct (Hi _ _ Hl) as (entry & He & _). rewrite He in Hd. eauto.
    - intros (name & entry & Hl & He & Hd). rewrite He. eauto. }
  apply runs_execute_all in Hx as (Hj & Hr & He).
  - exists e, (omap (λ l, job <$> entries s !! l) due). split_and!; [done|..|done|].
    + apply due_names_NoDup; [done| |].
      * intros l (n & _ & Hl & _)%Hdue. eauto.
      * unfold due. by apply NoDup_filter, range_values_NoDup.
    + intros name. rewrite list_elem_of_omap. split.
      * intros (l & (n & entry & Hl & Hen & Hd)%Hdue & Hn). rewrite Hen in Hn. simplify_eq/=.
        destruct (Hi _ _ Hl) as (entry' & Hen' & <-). assert (entry' = entry) as -> by congruence. eauto.
      * intros (l & entry & Hl & Hen & Hd). exists l. split; [apply Hdue; eauto|].
        destruct (Hi _ _ Hl) as (entry' & Hen' & <-). by rewrite Hen'.
    + intros name l entry Hl Hen. rewrite He, Hen. destruct (is_due e entry) eqn:Hd.
      * rewrite decide_True by (apply Hdue; eauto). done.
      * rewrite decide_False; [done|]. rewrite Hdue. intros (n & entry' & _ & Hen' & Hd'). congruence.
  - unfold due. by apply NoDup_filter, range_values_NoDup.
  - apply Forall_forall. intros l (n & entry & _ & Hen & _)%Hdue. eauto.
Qed.

(** * Restarting *)

(** A scheduler cannot be restarted: [Start] works again after [Stop], but the channel
    that stops the loop is closed already, so the next [Stop] closes it a second time
    and panics. *)
Theorem restart_panics (s : lifecycle) (Hs : stopped s = false) :
  ∃ s1, Stop (Start s) = Ok s1 ∧ running s1 = false ∧ loops s1 = 0%nat ∧
        running (Start s1) = true ∧ Stop (Start s1) = Panic.
Proof.
  exists (mkLife false true 0). destruct s as [[] st n]; simpl in *; subst; done.
Qed.

Lemma restart_panics_witness : ∃ s1, Stop (Start created) = Ok s1 ∧ Stop (Start s1) = Panic.
Proof.
  destruct (restart_panics created eq_refl) as (s1 & H1 & _ & _ & _ & H2). exists s1. split; [exact H1|exact H2].
Defined.

(** One job due, one not. *)
Definition two_jobs : State :=
  mkState {[ 0%nat := mkEntry "backup" (IntervalSchedule Hour) 0 100;
             1%nat := mkEntry "report" (DailySchedule 3 0) 0 900 ]}
          {[ "backup" := 0%nat; "report" := 1%nat ]} [].

Definition tick_env : Env := mkEnv 500 (λ _, true) None.

Definition after_tick : State :=
  match exec (runDueJobs (H := range_in_key_order) 0) (replicate 3 tick_env) two_jobs with
  | Some (s, _) => s
  | None => two_jobs
  end.

Lemma tick_runs_due_witness :
  ran after_tick = ["backup"] ∧ ∃ names, ran after_tick = ran two_jobs ++ names ∧ NoDup names.
Proof.
  split; [vm_compute; reflexivity|].
  destruct (@tick_runs_due range_in_key_order 0 two_jobs after_tick tt) as (e & names & Hr & Hn & _).
  - intros name l. unfold two_jobs. simpl. rewrite lookup_insert_Some.
    intros [[<- <-]|[_ [<- <-]%lookup_singleton_Some]]; eexists; split; reflexivity.
  - apply (exec_runs _ (replicate 3 tick_env)). vm_compute. reflexivity.
  - exists names. split; [exact Hr|exact Hn].
Defined.
