(* ===== verification/GoSort.v ===== *)
(** [sort.Slice] and the indexes of the store.

    [sort.Slice] does not promise an order among elements neither of which is less
    than the other, so a sort is an instance of a class, as ranging over a map is:
    all that is known is that the result holds the same elements and that it is
    sorted whenever [less] is a strict weak order.

    The second half is about maps that hold the same records under several keys, with
    what insertion, replacement and removal do to their agreement. *)

From S2P Require Import Prelude StoreBase.

#[local] Open Scope string_scope.
#[local] Open Scope list_scope.
#[local] Open Scope Z_scope.

(** * Sorting *)

(** A strict weak order, as [sort.Slice] asks for. *)
Definition less_order {A} (less : A → A → bool) : Prop :=
  (∀ x y, less x y = true → less y x = false) ∧
  (∀ x y z, less x y = false → less y z = false → less x z = false).

Class SliceSort := {
  sort_Slice : ∀ {A}, (A → A → bool) → list A → list A;
  sort_perm : ∀ A (less : A → A → bool) l, sort_Slice less l ≡ₚ l;
  sort_sorted : ∀ A (less : A → A → bool) l, less_order less →
    StronglySorted (λ x y, less y x = false) (sort_Slice less l)
}.

(** One way to sort, to run the definitions with. *)
Program Definition sort_by_exchange : SliceSort :=
  {| sort_Slice := λ A less l, exchange_sort less l |}.
Next Obligation. intros. apply exchange_sort_perm. Qed.
Next Obligation. intros A less l [Ha Ht]. apply exchange_sort_sorted; eauto. Qed.

(** [a < b] on strings compares bytes. *)
Definition string_lt (a b : string) : bool :=
  match String.compare a b with Lt => true | _ => false end.

Lemma string_compare_lt_trans a b c :
  String.compare a b = Lt → String.compare b c = Lt → String.compare a c = Lt.
Proof.
  revert b c. induction a as [|x a IH]; intros [|y b] [|z c]; simpl; try done.
  unfold Ascii.compare.
  destruct (N.compare_spec (Ascii.N_of_ascii x) (Ascii.N_of_ascii y)) as [E1|E1|E1]; try done;
  destruct (N.compare_spec (Ascii.N_of_ascii y) (Ascii.N_of_ascii z)) as [E2|E2|E2]; try done; intros H1 H2;
  destruct (N.compare_spec (Ascii.N_of_ascii x) (Ascii.N_of_ascii z)); try lia; eauto.
Qed.

Lemma string_lt_trans a b c : string_lt a b = true → string_lt b c = true → string_lt a c = true.
Proof.
  unfold string_lt. intros H1 H2.
  destruct (String.compare a b) eqn:E1; try done. destruct (String.compare b c) eqn:E2; try done.
  by rewrite (string_compare_lt_trans _ _ _ E1 E2).
Qed.

Lemma string_lt_asym a b : string_lt a b = true → string_lt b a = false.
Proof.
  unfold string_lt. rewrite (String.compare_antisym b a). by destruct (String.compare a b).
Qed.

Lemma string_lt_total a b : string_lt a b = false → string_lt b a = false → a = b.
Proof.
  unfold string_lt. rewrite (String.compare_antisym b a).
  destruct (String.compare a b) eqn:E; try done. by apply String.compare_eq_iff in E.
Qed.

Lemma string_lt_irrefl a : string_lt a a = false.
Proof. destruct (string_lt a a) eqn:E; [|done]. by rewrite (string_lt_asym _ _ E) in E. Qed.

Lemma string_lt_ntrans a b c : string_lt a b = false → string_lt b c = false → string_lt a c = false.
Proof.
  intros H1 H2. destruct (string_lt a c) eqn:E; [|done]. exfalso.
  destruct (string_lt b a) eqn:Eba.
  - by rewrite (string_lt_trans _ _ _ Eba E) in H2.
  - pose proof (string_lt_total _ _ H1 Eba) as ->. congruence.
Qed.

(** Comparing by one key, and by a second one where the first are equal. *)
Definition lex_less {A} (key : A → string) (less : A → A → bool) (x y : A) : bool :=
  if bool_decide (key x = key y) then less x y else string_lt (key x) (key y).

Lemma string_less_order {A} (key : A → string) : less_order (λ x y, string_lt (key x) (key y)).
Proof. split; intros *; [apply string_lt_asym|apply string_lt_ntrans]. Qed.

Lemma string_greater_order {A} (key : A → string) : less_order (λ x y, string_lt (key y) (key x)).
Proof. split; intros *; [apply string_lt_asym|]. intros H1 H2. by apply (string_lt_ntrans _ _ _ H2 H1). Qed.

Lemma time_less_order {A} (key : A → time) : less_order (λ x y, Before (key x) (key y)).
Proof. unfold Before. split; intros *; lia. Qed.

Lemma lex_less_order {A} (key : A → string) (less : A → A → bool) :
  less_order less → less_order (lex_less key less).
Proof.
  intros [Ha Ht]. unfold lex_less. split.
  - intros x y. destruct (bool_decide_reflect (key x = key y)) as [->|Hn].
    + rewrite bool_decide_true by done. apply Ha.
    + rewrite bool_decide_false by done. apply string_lt_asym.
  - intros x y z.
    destruct (bool_decide_reflect (key x = key y)) as [->|Hxy];
      destruct (bool_decide_reflect (key y = key z)) as [E|Hyz]; rewrite ?E; intros H1 H2.
    + eauto.
    + done.
    + rewrite bool_decide_false by congruence. congruence.
    + destruct (bool_decide_reflect (key x = key z)) as [E|Hxz];
        [|by apply (string_lt_ntrans _ _ _ H1 H2)].
      exfalso. rewrite E in H1. apply Hyz, string_lt_total; done.
Qed.

#[global] Hint Resolve string_less_order string_greater_order time_less_order lex_less_order : vcdeploy.

Lemma elem_of_sort `{SliceSort} {A} (less : A → A → bool) l x : x ∈ sort_Slice less l ↔ x ∈ l.
Proof. by rewrite sort_perm. Qed.

Lemma sort_length `{SliceSort} {A} (less : A → A → bool) l : length (sort_Slice less l) = length l.
Proof. apply Permutation_length, sort_perm. Qed.

(** Two sorted lists of the same elements are equal when the order is total on
    them, so then every sort gives the same list. *)
Lemma sorted_unique {A} (R : A → A → Prop) (l k : list A) :
  (∀ x y, x ∈ l → y ∈ l → R x y → R y x → x = y) →
  StronglySorted R l → StronglySorted R k → l ≡ₚ k → l = k.
Proof.
  intros Ha Hl. revert k Ha. induction Hl as [|x l Hl IH Hx]; intros k Ha Hk Hp.
  { symmetry in Hp. apply Permutation_nil_r in Hp. done. }
  destruct Hk as [|y k Hk Hy]; [symmetry in Hp; by apply Permutation_nil_cons in Hp|].
  assert (x = y) as ->.
  { assert (x ∈ y :: k) as Hxk by (rewrite <- Hp; left).
    assert (y ∈ x :: l) as Hyl by (rewrite Hp; left).
    rewrite elem_of_cons in Hxk, Hyl. destruct Hxk as [->|Hxk]; [done|]. destruct Hyl as [->|Hyl]; [done|].
    rewrite Forall_forall in Hx, Hy. apply Ha; [left|by right|by apply Hx|by apply Hy]. }
  f_equal. apply IH; [|done|by apply Permutation_cons_inv in Hp].
  intros. apply Ha; by try right.
Qed.

Lemma sort_unique (S S' : SliceSort) {A} (less : A → A → bool) (l l' : list A) :
  less_order less → (∀ x y, x ∈ l → y ∈ l → less x y = false → less y x = false → x = y) →
  l ≡ₚ l' → @sort_Slice S A less l = @sort_Slice S' A less l'.
Proof.
  intros Ho Ht Hp. eapply sorted_unique; [|by apply sort_sorted..|].
  - intros x y. rewrite !elem_of_sort. intros Hx Hy H1 H2. by apply Ht.
  - by rewrite !sort_perm.
Qed.

(** * Maps that agree *)

Section indexes.
Context {A : Type} (ID : A → string).
Implicit Types (a : A) (byID byKey : gmap string A) (idx : gmap string (list A)).

(** Every record is filed under its own identifier. *)
Definition filed byID : Prop := ∀ id a, byID !! id = Some a → ID a = id.

(** A second map that holds the same records under another key. *)
Definition indexed (key : A → string) byID byKey : Prop :=
  (∀ id a, byID !! id = Some a → ID a = id ∧ byKey !! key a = Some a) ∧
  (∀ k a, byKey !! k = Some a → key a = k ∧ byID !! ID a = Some a).

(** A map of lists that holds the records with a key under that key, each once. *)
Definition list_indexed (key : A → option string) byID idx : Prop :=
  ∀ k, NoDup (ID <$> entry idx k) ∧
       ∀ a, a ∈ entry idx k ↔ byID !! ID a = Some a ∧ key a = Some k.

(** [append(slice[:i], slice[i+1:]...)] for the first [i] with the identifier. *)
Fixpoint remove_id (id : string) (l : list A) : list A :=
  match l with
  | [] => []
  | a :: l' => if bool_decide (ID a = id) then l' else a :: remove_id id l'
  end.

(** [slice[i] = &stored; break] for the first [i] with the identifier. *)
Fixpoint replace_id (new : A) (l : list A) : list A :=
  match l with
  | [] => []
  | a :: l' => if bool_decide (ID a = ID new) then new :: l' else a :: replace_id new l'
  end.

Lemma filed_insert byID a : filed byID → filed (<[ID a := a]> byID).
Proof. intros Hf id b. rewrite lookup_insert_Some. intros [[<- <-]|[_ ?]]; eauto. Qed.

Lemma filed_delete byID id : filed byID → filed (delete id byID).
Proof. intros Hf id' b. rewrite lookup_delete_Some. intros [_ ?]; eauto. Qed.

Lemma filed_empty : filed ∅.
Proof. intros id a. by rewrite lookup_empty. Qed.

Lemma indexed_filed key byID byKey : indexed key byID byKey → filed byID.
Proof. intros [H _] id a Ha. by apply H in Ha as [? _]. Qed.

Lemma indexed_empty key : indexed key ∅ ∅.
Proof. split; intros *; by rewrite lookup_empty. Qed.

Lemma indexed_insert key byID byKey a :
  indexed key byID byKey → byID !! ID a = None → byKey !! key a = None →
  indexed key (<[ID a := a]> byID) (<[key a := a]> byKey).
Proof.
  intros [H1 H2] Hi Hk. split.
  - intros id b. rewrite lookup_insert_Some. intros [[<- <-]|[Hne Hb]].
    + by rewrite lookup_insert_eq.
    + destruct (H1 _ _ Hb) as [? Hkb]. rewrite lookup_insert_ne; [done|]. congruence.
  - intros k b. rewrite lookup_insert_Some. intros [[<- <-]|[Hne Hb]].
    + by rewrite lookup_insert_eq.
    + destruct (H2 _ _ Hb) as [? Hkb]. rewrite lookup_insert_ne; [done|]. congruence.
Qed.

Lemma indexed_delete key byID byKey id a :
  indexed key byID byKey → byID !! id = Some a →
  indexed key (delete id byID) (delete (key a) byKey).
Proof.
  intros [H1 H2] Ha. destruct (H1 _ _ Ha) as [Hid Hka]. split.
  - intros id' b [Hne Hb]%lookup_delete_Some. destruct (H1 _ _ Hb) as [? Hkb].
    rewrite lookup_delete_ne; [done|]. congruence.
  - intros k b [Hne Hb]%lookup_delete_Some. destruct (H2 _ _ Hb) as [? Hkb].
    rewrite lookup_delete_ne; [done|]. congruence.
Qed.

(** Replacing a record whose new key is its old one or free. *)
Lemma indexed_replace key byID byKey old a :
  indexed key byID byKey → byID !! ID a = Some old →
  (key a = key old ∨ byKey !! key a = None) →
  indexed key (<[ID a := a]> byID) (<[key a := a]> (delete (key old) byKey)).
Proof.
  intros Hi Ho Hk. rewrite <- (insert_delete_eq byID). apply indexed_insert.
  - by apply indexed_delete.
  - by rewrite lookup_delete_eq.
  - destruct Hk as [->|Hk]; [by rewrite lookup_delete_eq|]. rewrite lookup_delete_None. by right.
Qed.

(** ** Lists *)

Lemma remove_id_absent id l : id ∉ ID <$> l → remove_id id l = l.
Proof.
  induction l as [|a l IH]; simpl; [done|]. rewrite not_elem_of_cons. intros [? ?].
  rewrite bool_decide_false by congruence. f_equal. auto.
Qed.

Lemma elem_of_remove_id id l a :
  NoDup (ID <$> l) → a ∈ remove_id id l ↔ a ∈ l ∧ ID a ≠ id.
Proof.
  induction l as [|b l IH]; simpl; [set_solver|]. intros [Hb Hl]%NoDup_cons.
  case_bool_decide as E.
  - split; [|set_solver]. intros Ha. split; [by right|]. intros <-. apply Hb. rewrite E.
    by apply list_elem_of_fmap_2.
  - rewrite !elem_of_cons, IH by done. naive_solver.
Qed.

Lemma remove_id_sublist id l : sublist (remove_id id l) l.
Proof.
  induction l as [|a l IH]; simpl; [done|]. case_bool_decide; [by apply sublist_cons|].
  by apply sublist_skip.
Qed.

Lemma remove_id_NoDup id l : NoDup (ID <$> l) → NoDup (ID <$> remove_id id l).
Proof. intros. eapply sublist_NoDup; [done|]. apply fmap_sublist, remove_id_sublist. Qed.

Lemma replace_id_fmap new l : ID <$> replace_id new l = ID <$> l.
Proof.
  induction l as [|a l IH]; [done|]. cbn [replace_id]. case_bool_decide as E; csimpl; [by rewrite E|by rewrite IH].
Qed.

Lemma elem_of_replace_id new l a :
  NoDup (ID <$> l) → ID new ∈ ID <$> l →
  a ∈ replace_id new l ↔ a = new ∨ a ∈ l ∧ ID a ≠ ID new.
Proof.
  induction l as [|b l IH]; simpl; [set_solver|]. intros [Hb Hl]%NoDup_cons Hn.
  case_bool_decide as E.
  - rewrite !elem_of_cons. split; [|naive_solver].
    intros [->|Ha]; [by left|]. right. split; [by right|]. intros E'. apply Hb. rewrite E, <- E'.
    by apply list_elem_of_fmap_2.
  - rewrite !elem_of_cons, IH; [naive_solver|done|]. set_solver.
Qed.

Lemma list_indexed_empty key : list_indexed key ∅ ∅.
Proof.
  intros k. unfold entry. rewrite lookup_empty. simpl. split; [constructor|].
  intros a. rewrite lookup_empty. set_solver.
Qed.

(** Only the lists matter, not whether a missing one is there as an empty one. *)
Lemma list_indexed_ext key byID idx idx' :
  (∀ k, entry idx' k = entry idx k) → list_indexed key byID idx → list_indexed key byID idx'.
Proof. intros He Hl k. rewrite He. apply Hl. Qed.

Lemma entry_alter_replace a k idx k' :
  entry (alter (replace_id a) k idx) k' = entry (<[k := replace_id a (entry idx k)]> idx) k'.
Proof.
  unfold entry. destruct (decide (k = k')) as [<-|].
  - rewrite lookup_alter_eq, lookup_insert_eq. by destruct (idx !! k).
  - by rewrite lookup_alter_ne, lookup_insert_ne.
Qed.

(** A new record at the end of the list of its key. *)
Definition index_append (key : A → option string) a idx : gmap string (list A) :=
  match key a with Some k => <[k := entry idx k ++ [a]]> idx | None => idx end.

(** The record of the identifier removed from the list of the key of [a]. *)
Definition index_remove (key : A → option string) (id : string) a idx : gmap string (list A) :=
  match key a with Some k => <[k := remove_id id (entry idx k)]> idx | None => idx end.

Lemma list_indexed_insert key byID idx a :
  list_indexed key byID idx → byID !! ID a = None →
  list_indexed key (<[ID a := a]> byID) (index_append key a idx).
Proof.
  intros Hl Hn k. destruct (Hl k) as [Hd He]. unfold index_append.
  assert (ID a ∉ ID <$> entry idx k) as Hfresh.
  { intros (b & Hb & Hin)%list_elem_of_fmap. apply He in Hin as [Hin _]. congruence. }
  assert (∀ b, <[ID a := a]> byID !! ID b = Some b ↔ b = a ∨ byID !! ID b = Some b) as Hother.
  { intros b. rewrite lookup_insert_Some. split; [naive_solver|].
    intros [->|Hs]; [by left|]. right. split; [|done]. congruence. }
  assert (entry (match key a with Some k0 => <[k0:=entry idx k0 ++ [a]]> idx | None => idx end) k =
          entry idx k ++ (if decide (key a = Some k) then [a] else [])) as ->.
  { destruct (key a) as [k0|]; [|by rewrite decide_False, app_nil_r].
    destruct (decide (k0 = k)) as [->|].
    - by rewrite decide_True, entry_insert_eq.
    - rewrite decide_False, app_nil_r by congruence. by apply entry_insert_ne. }
  rewrite fmap_app. split.
  - apply NoDup_app. split_and!; [done| |case_decide; [apply NoDup_singleton|constructor]].
    intros x Hx. case_decide; simpl; [|set_solver]. rewrite list_elem_of_singleton. by intros ->.
  - intros b. rewrite elem_of_app, He, Hother.
    case_decide; [rewrite list_elem_of_singleton|]; set_solver.
Qed.

Lemma list_indexed_delete key byID idx a :
  filed byID → list_indexed key byID idx → byID !! ID a = Some a →
  list_indexed key (delete (ID a) byID) (index_remove key (ID a) a idx).
Proof.
  intros Hf Hl Ha k. destruct (Hl k) as [Hd He]. unfold index_remove.
  assert (∀ b, b ∈ entry idx k → ID b = ID a → key a = Some k) as Hsame.
  { intros b Hb E. apply He in Hb as [Hb Hk]. rewrite E in Hb. congruence. }
  assert (∀ b, (b ∈ entry idx k ∧ ID b ≠ ID a) ↔ delete (ID a) byID !! ID b = Some b ∧ key b = Some k) as Hin.
  { intros b. rewrite He, lookup_delete_Some. naive_solver. }
  destruct (key a) as [k0|] eqn:Ek.
  - destruct (decide (k0 = k)) as [->|Hne].
    + rewrite entry_insert_eq. split; [by apply remove_id_NoDup|].
      intros b. by rewrite elem_of_remove_id, Hin.
    + rewrite entry_insert_ne by done. split; [done|]. intros b. rewrite <- Hin.
      split; [|naive_solver]. intros Hb. split; [done|]. intros E. naive_solver.
  - split; [done|]. intros b. rewrite <- Hin. split; [|naive_solver].
    intros Hb. split; [done|]. intros E. naive_solver.
Qed.

(** Removing and filing again is what an update of the index does. *)
Lemma list_indexed_move key byID idx old a :
  filed byID → list_indexed key byID idx → byID !! ID a = Some old →
  list_indexed key (<[ID a := a]> byID) (index_append key a (index_remove key (ID a) old idx)).
Proof.
  intros Hf Hl Ho. pose proof (Hf _ _ Ho) as Hid. rewrite <- (insert_delete_eq byID).
  apply list_indexed_insert; [|by rewrite lookup_delete_eq].
  rewrite <- Hid. apply list_indexed_delete; [done..|]. by rewrite Hid.
Qed.

(** Replacing a record in place in the list of its key, which stays. *)
Lemma list_indexed_replace key byID idx old a k :
  list_indexed key byID idx → byID !! ID a = Some old → ID old = ID a →
  key old = Some k → key a = Some k →
  list_indexed key (<[ID a := a]> byID) (<[k := replace_id a (entry idx k)]> idx).
Proof.
  intros Hl Ho Hid Hko Hka k'. destruct (Hl k') as [Hd He].
  assert (old ∈ entry idx k) as Hin.
  { apply (Hl k). by rewrite Hid. }
  destruct (decide (k = k')) as [<-|Hne].
  - rewrite entry_insert_eq, replace_id_fmap. split; [done|]. intros b.
    rewrite elem_of_replace_id; [|done|rewrite <- Hid; by apply list_elem_of_fmap_2].
    rewrite He, lookup_insert_Some. split; [naive_solver|].
    intros [[[E ->]|[? ?]] ?]; [by left|right; naive_solver].
  - rewrite entry_insert_ne by done. split; [done|]. intros b. rewrite He, lookup_insert_Some.
    split; [|naive_solver]. intros [Hb Hk]. split; [|done]. right. split; [|done].
    intros E. rewrite <- E in Hb. congruence.
Qed.

(** The lists hold exactly the records with the key. *)
Lemma list_indexed_nil key byID idx k :
  filed byID → list_indexed key byID idx → (entry idx k = [] ↔ ∀ id a, byID !! id = Some a → key a ≠ Some k).
Proof.
  intros Hf Hl. destruct (Hl k) as [_ He]. split.
  - intros Hnil id a Ha Hk. assert (a ∈ entry idx k) as Hin.
    { apply He. rewrite (Hf _ _ Ha). done. }
    rewrite Hnil in Hin. set_solver.
  - intros Hno. destruct (entry idx k) as [|a l] eqn:E; [done|]. exfalso.
    destruct (proj1 (He a) ltac:(left)) as [Ha Hk]. by apply (Hno _ _ Ha).
Qed.

(** ** Filing the records of a list one after the other *)

Definition file_all byID (l : list A) : gmap string A := foldl (λ m a, <[ID a := a]> m) byID l.
Definition key_all (key : A → string) byKey (l : list A) : gmap string A :=
  foldl (λ m a, <[key a := a]> m) byKey l.
Definition index_all (key : A → option string) idx (l : list A) : gmap string (list A) :=
  foldl (λ m a, index_append key a m) idx l.

Lemma indexed_file_all key byID byKey l :
  indexed key byID byKey → NoDup (ID <$> l) → NoDup (key <$> l) →
  (∀ a, a ∈ l → byID !! ID a = None ∧ byKey !! key a = None) →
  indexed key (file_all byID l) (key_all key byKey l).
Proof.
  revert byID byKey. induction l as [|a l IH]; intros byID byKey Hi; [done|].
  rewrite !fmap_cons, !NoDup_cons. intros [Hn Hd] [Hk Hdk] Hfree. simpl. apply IH; [|done..|].
  - destruct (Hfree a ltac:(left)). by apply indexed_insert.
  - intros b Hb. destruct (Hfree b ltac:(by right)).
    rewrite !lookup_insert_ne; [done| |]; intros E; [apply Hk|apply Hn]; rewrite E; by apply list_elem_of_fmap_2.
Qed.

Lemma list_indexed_file_all key byID idx l :
  list_indexed key byID idx → NoDup (ID <$> l) → (∀ a, a ∈ l → byID !! ID a = None) →
  list_indexed key (file_all byID l) (index_all key idx l).
Proof.
  revert byID idx. induction l as [|a l IH]; intros byID idx Hi; [done|].
  rewrite fmap_cons, NoDup_cons. intros [Hn Hd] Hfree. simpl. apply IH; [|done|].
  - apply list_indexed_insert; [done|]. apply Hfree. left.
  - intros b Hb. rewrite lookup_insert_ne; [apply Hfree; by right|].
    intros E. apply Hn. rewrite E. by apply list_elem_of_fmap_2.
Qed.

(** The records of a map, in any order. *)
Definition records_of byID (l : list A) : Prop := l ≡ₚ (map_to_list byID).*2.

Lemma records_NoDup byID l : filed byID → records_of byID l → NoDup (ID <$> l).
Proof.
  intros Hf Hl. rewrite Hl. rewrite <- list_fmap_compose.
  rewrite (list_fmap_ext _ fst); [apply NoDup_fst_map_to_list|].
  intros i [k a] Hka. simpl. apply list_elem_of_lookup_2, elem_of_map_to_list in Hka. by apply Hf.
Qed.

Lemma records_elem byID l a : filed byID → records_of byID l → (a ∈ l ↔ byID !! ID a = Some a).
Proof.
  intros Hf ->. rewrite list_elem_of_fmap. split.
  - intros ([k b] & -> & Hb). apply elem_of_map_to_list in Hb. simpl. by rewrite (Hf _ _ Hb).
  - intros Ha. exists (ID a, a). by rewrite elem_of_map_to_list.
Qed.

Lemma file_all_lookup byID l a : NoDup (ID <$> l) → a ∈ l → file_all byID l !! ID a = Some a.
Proof.
  revert byID. induction l as [|b l IH]; intros byID; [set_solver|].
  rewrite fmap_cons, NoDup_cons. intros [Hn Hd] Hin. simpl.
  apply elem_of_cons in Hin as [->|Hin]; [|by apply IH].
  clear IH Hd. generalize (<[ID b := b]> byID) (lookup_insert_eq byID (ID b) b).
  induction l as [|c l IH]; intros m Hm; [done|]. simpl. apply IH; [set_solver|].
  rewrite lookup_insert_ne; [done|]. set_solver.
Qed.

Lemma file_all_None byID l id : id ∉ ID <$> l → file_all byID l !! id = byID !! id.
Proof.
  revert byID. induction l as [|b l IH]; intros byID; [done|]. rewrite fmap_cons, not_elem_of_cons.
  intros [? ?]. simpl. rewrite IH by done. by rewrite lookup_insert_ne.
Qed.

(** Filing all records of a map again gives the map. *)
Lemma file_all_records byID l : filed byID → records_of byID l → file_all ∅ l = byID.
Proof.
  intros Hf Hl. apply map_eq. intros id. pose proof (records_NoDup _ _ Hf Hl) as Hd.
  destruct (byID !! id) as [a|] eqn:E.
  - pose proof (Hf _ _ E) as <-. apply file_all_lookup; [done|]. by apply (records_elem byID).
  - rewrite file_all_None; [apply lookup_empty|]. intros (a & -> & Ha)%list_elem_of_fmap.
    apply (records_elem byID) in Ha; [congruence|done..].
Qed.

Lemma records_keys_NoDup key byID byKey l :
  indexed key byID byKey → records_of byID l → NoDup (key <$> l).
Proof.
  intros Hi Hl. pose proof (indexed_filed _ _ _ Hi) as Hf. pose proof (records_NoDup _ _ Hf Hl) as Hd.
  assert (∀ a, a ∈ l → byID !! ID a = Some a) as Hin by (intros a; by apply records_elem).
  clear Hl. induction l as [|a l IH]; [constructor|].
  rewrite fmap_cons in *. apply NoDup_cons in Hd as [Hn Hd]. apply NoDup_cons. split.
  - intros (b & E & Hb)%list_elem_of_fmap. apply Hn.
    destruct (proj1 Hi _ _ (Hin a ltac:(left))) as [_ Ha].
    destruct (proj1 Hi _ _ (Hin b ltac:(by right))) as [_ Hb'].
    assert (a = b) as -> by congruence. by apply list_elem_of_fmap_2.
  - apply IH; [done|]. intros b Hb. apply Hin. by right.
Qed.

(** A key index is determined by the map it belongs to, a list index up to order. *)
Lemma indexed_unique key byID byKey byKey' :
  indexed key byID byKey → indexed key byID byKey' → byKey = byKey'.
Proof.
  intros [H1 H2] [H1' H2']. apply map_eq. intros k. apply option_eq. intros a. split; intros Ha.
  - destruct (H2 _ _ Ha) as [<- Hi]. by apply H1' in Hi as [_ ?].
  - destruct (H2' _ _ Ha) as [<- Hi]. by apply H1 in Hi as [_ ?].
Qed.

Lemma list_indexed_unique key byID idx idx' k :
  list_indexed key byID idx → list_indexed key byID idx' → entry idx k ≡ₚ entry idx' k.
Proof.
  intros H1 H2. destruct (H1 k) as [Hd1 He1], (H2 k) as [Hd2 He2].
  apply NoDup_Permutation; [by eapply NoDup_fmap_1|by eapply NoDup_fmap_1|].
  intros a. by rewrite He1, He2.
Qed.

End indexes.
