(* ===== verification/TimeText.v ===== *)
(** Times as text: the layouts ["2006-01-02 15:04:05"] and [time.RFC3339] of Go's [time]
    package, for a location at a fixed offset from UTC, with the order of the texts. *)

From stdpp Require Import pretty.
From S2P Require Import Prelude GoStrings GoTime GoSort.

#[local] Open Scope string_scope.
#[local] Open Scope list_scope.
#[local] Open Scope Z_scope.

(** * Writing *)

Definition digit (n : Z) : Ascii.ascii := Ascii.ascii_of_nat (Z.to_nat (48 + n)).

(** Two digits, with those of [rest] after them. *)
Definition pad2 (n : Z) (rest : string) : string := String (digit (n / 10)) (String (digit (n mod 10)) rest).

Definition pad4 (n : Z) (rest : string) : string :=
  if n <? 0 then "-" +:+ pretty (- n) +:+ rest
  else if n <? 10000 then pad2 (n / 100) (pad2 (n mod 100) rest)
  else pretty n +:+ rest.

Definition hyphen : Ascii.ascii := Ascii.ascii_of_nat 45.
Definition colon_char : Ascii.ascii := Ascii.ascii_of_nat 58.
Definition blank : Ascii.ascii := Ascii.ascii_of_nat 32.
Definition letter_T : Ascii.ascii := Ascii.ascii_of_nat 84.

Definition date_text (zone : Z) (t : time) (rest : string) : string :=
  pad4 (Year zone t) (String hyphen (pad2 (Month zone t) (String hyphen (pad2 (MonthDay zone t) rest)))).

Definition ClockSecond (zone : Z) (t : time) : Z := clock zone t mod Minute / Second.

Definition clock_text (zone : Z) (t : time) (rest : string) : string :=
  pad2 (ClockHour zone t) (String colon_char (pad2 (ClockMinute zone t) (String colon_char (pad2 (ClockSecond zone t) rest)))).

(** The offset, in minutes. *)
Definition zone_text (zone : Z) : string :=
  let minutes := Z.quot (zone / Second) 60 in
  if zone / Second =? 0 then "Z"
  else (if minutes <? 0 then "-" else "+") +:+ pad2 (Z.abs minutes / 60) (String colon_char (pad2 (Z.abs minutes mod 60) "")).

Definition Format_DateTime (zone : Z) (t : time) : string := date_text zone t (String blank (clock_text zone t "")).
Definition Format_RFC3339 (zone : Z) (t : time) : string := date_text zone t (String letter_T (clock_text zone t (zone_text zone))).

(** * Reading *)

(** For texts with two-digit seconds and no fraction. *)
Definition digit_value (c : Ascii.ascii) : option Z :=
  let n := Z.of_nat (Ascii.nat_of_ascii c) - 48 in
  if (0 <=? n) && (n <=? 9) then Some n else None.

Definition parse2 (s : string) : option (Z * string) :=
  match s with
  | String a (String b rest) => x ← digit_value a; y ← digit_value b; Some (10 * x + y, rest)
  | _ => None
  end.

Definition expect (c : Ascii.ascii) (s : string) : option string :=
  match s with
  | String a rest => if Ascii.eqb a c then Some rest else None
  | EmptyString => None
  end.

Definition daysIn (year month : Z) : Z := days year (month + 1) 1 - days year month 1.

(** Date and clock up to the seconds, with the character between them. *)
Definition parse_parts (sep : Ascii.ascii) (s : string) : option (Z * Z * Z * Z * string) :=
  '(c, s) ← parse2 s; '(y, s) ← parse2 s; s ← expect hyphen s;
  '(month, s) ← parse2 s; s ← expect hyphen s;
  '(day, s) ← parse2 s; s ← expect sep s;
  '(hour, s) ← parse2 s; s ← expect colon_char s;
  '(min, s) ← parse2 s; s ← expect colon_char s;
  '(sec, s) ← parse2 s;
  let year := 100 * c + y in
  if (1 <=? month) && (month <=? 12) && (1 <=? day) && (day <=? daysIn year month) && (hour <? 24) && (min <? 60) && (sec <? 60)
  then Some (year, month, day, hour * Hour + min * Minute + sec * Second, s) else None.

Definition Parse_DateTime (s : string) : option time :=
  '(year, month, day, clock, rest) ← parse_parts blank s;
  if bool_decide (rest = "") then Some (Date 0 year month day clock) else None.

Definition parse_zone (s : string) : option Z :=
  if bool_decide (s = "Z") then Some 0
  else match s with
  | String sign s =>
      '(hour, s) ← parse2 s; s ← expect colon_char s; '(min, s) ← parse2 s;
      if negb (bool_decide (s = "")) || (24 <? hour) || (60 <? min) then None
      else if Ascii.eqb sign (Ascii.ascii_of_nat 43) then Some (hour * Hour + min * Minute)
      else if Ascii.eqb sign hyphen then Some (- (hour * Hour + min * Minute))
      else None
  | EmptyString => None
  end.

Definition Parse_RFC3339 (s : string) : option time :=
  '(year, month, day, clock, rest) ← parse_parts letter_T s;
  zone ← parse_zone rest;
  Some (Date zone year month day clock).

(** * The calendar *)

(** The first day of the month with a number counted from year 0. *)
Definition month_start (M : Z) : Z := days (M / 12) (M mod 12 + 1) 1.

Lemma days_start year month : days year month 1 = month_start (12 * year + (month - 1)).
Proof.
  unfold month_start, days. cbv zeta.
  replace ((12 * year + (month - 1)) / 12) with (year + (month - 1) / 12) by (Z.div_mod_to_equations; lia).
  replace ((12 * year + (month - 1)) mod 12) with ((month - 1) mod 12) by (Z.div_mod_to_equations; lia).
  replace (((month - 1) mod 12 + 1 - 1) / 12) with 0 by (Z.div_mod_to_equations; lia).
  replace (((month - 1) mod 12 + 1 - 1) mod 12) with ((month - 1) mod 12) by (Z.div_mod_to_equations; lia).
  by rewrite !Z.add_0_r.
Qed.

(** The days before a year counted from March. *)
Definition march_start (y : Z) : Z := y / 400 * 146097 + (y mod 400 * 365 + y mod 400 / 4 - y mod 400 / 100).

Lemma march_step y : 365 ≤ march_start (y + 1) - march_start y ≤ 366.
Proof.
  unfold march_start. destruct (decide (y mod 400 = 399)) as [E|E].
  - assert ((y + 1) / 400 = y / 400 + 1) as -> by (Z.div_mod_to_equations; lia).
    assert ((y + 1) mod 400 = 0) as -> by (Z.div_mod_to_equations; lia). rewrite E. change (399 * 365 + 399 / 4 - 399 / 100) with 145731.
    change (0 * 365 + 0 / 4 - 0 / 100) with 0. lia.
  - assert ((y + 1) / 400 = y / 400) as -> by (Z.div_mod_to_equations; lia).
    assert ((y + 1) mod 400 = y mod 400 + 1) as -> by (Z.div_mod_to_equations; lia).
    generalize (y mod 400) (y / 400). intros k e. Z.div_mod_to_equations. lia.
Qed.

Lemma month_start_eq M :
  month_start M = march_start ((M - 2) / 12) + (153 * ((M - 2) mod 12) + 2) / 5 - 306.
Proof.
  unfold month_start, days, march_start. cbv zeta.
  replace ((M mod 12 + 1 - 1) / 12) with 0 by (Z.div_mod_to_equations; lia).
  replace ((M mod 12 + 1 - 1) mod 12 + 1) with (M mod 12 + 1) by (Z.div_mod_to_equations; lia). rewrite !Z.add_0_r.
  destruct (Z.leb_spec (M mod 12 + 1) 2).
  - rewrite (proj2 (Z.ltb_ge 2 (M mod 12 + 1))) by lia.
    replace ((M - 2) / 12) with (M / 12 - 1) by (Z.div_mod_to_equations; lia).
    replace ((M - 2) mod 12) with (M mod 12 + 1 + 9) by (Z.div_mod_to_equations; lia). lia.
  - rewrite (proj2 (Z.ltb_lt 2 (M mod 12 + 1))) by lia.
    replace ((M - 2) / 12) with (M / 12) by (Z.div_mod_to_equations; lia).
    replace ((M - 2) mod 12) with (M mod 12 + 1 - 3) by (Z.div_mod_to_equations; lia). lia.
Qed.

Lemma month_step M : 28 ≤ month_start (M + 1) - month_start M ≤ 31.
Proof.
  rewrite !month_start_eq. replace (M + 1 - 2) with (M - 2 + 1) by lia. generalize (M - 2). intros k.
  destruct (decide (k mod 12 = 11)) as [E|E].
  - assert ((k + 1) / 12 = k / 12 + 1) as -> by (Z.div_mod_to_equations; lia).
    assert ((k + 1) mod 12 = 0) as -> by (Z.div_mod_to_equations; lia). rewrite E.
    change ((153 * 11 + 2) / 5) with 337. change ((153 * 0 + 2) / 5) with 0. pose proof (march_step (k / 12)). lia.
  - assert ((k + 1) / 12 = k / 12) as -> by (Z.div_mod_to_equations; lia).
    assert ((k + 1) mod 12 = k mod 12 + 1) as -> by (Z.div_mod_to_equations; lia).
    pose proof (Z.mod_pos_bound k 12). generalize dependent (k mod 12). intros m Hm Hb. specialize (Hb ltac:(lia)).
    Z.div_mod_to_equations. lia.
Qed.

Lemma month_start_mono M N : M ≤ N → month_start M ≤ month_start N.
Proof.
  intros Hle. replace N with (M + Z.of_nat (Z.to_nat (N - M))) by lia. induction (Z.to_nat (N - M)) as [|n IH]; [by rewrite Z.add_0_r|].
  pose proof (month_step (M + Z.of_nat n)). replace (M + Z.of_nat (S n)) with (M + Z.of_nat n + 1) by lia. lia.
Qed.

Lemma year_end doe :
  0 ≤ doe < 146097 →
  let yoe := (doe - doe / 1460 + doe / 36524 - doe / 146096) / 365 in
  doe < if yoe =? 399 then 146097 else 365 * (yoe + 1) + (yoe + 1) / 4 - (yoe + 1) / 100.
Proof. intros H yoe. subst yoe. case_match; [lia|]. apply Z.eqb_neq in H0. Z.div_mod_to_equations. lia. Qed.

(** The month of a day, counted from year 0, and the date in it. *)
Definition month_of (day : Z) : Z := 12 * (civil day).1.1 + ((civil day).1.2 - 1).

Lemma civil_in_month day :
  1 ≤ (civil day).1.2 ≤ 12 ∧ (civil day).2 = day - month_start (month_of day) + 1 ∧
  month_start (month_of day) ≤ day < month_start (month_of day + 1).
Proof.
  assert (1 ≤ (civil day).1.2 ≤ 12 ∧ 1 ≤ (civil day).2 ∧ day < month_start (month_of day + 1)) as (Hm & Hd & Hlt).
  { unfold month_of, civil. cbv zeta. cbn [fst snd].
    pose proof (Z.mod_pos_bound (day + 306) 146097 ltac:(lia)) as Hdoe.
    pose proof (Z.div_mod (day + 306) 146097 ltac:(lia)) as Hz.
    remember ((day + 306) mod 146097) as doe eqn:E1. remember ((day + 306) / 146097) as era eqn:E2. clear E1 E2.
    destruct (year_of_cycle doe Hdoe) as [Hyoe Hdoy]. pose proof (year_end doe Hdoe) as Hend. cbv zeta in Hyoe, Hdoy, Hend.
    remember ((doe - doe / 1460 + doe / 36524 - doe / 146096) / 365) as yoe eqn:E. clear E.
    remember (doe - (365 * yoe + yoe / 4 - yoe / 100)) as doy eqn:E3.
    assert (0 ≤ (5 * doy + 2) / 153 ≤ 11) as Hmp by (Z.div_mod_to_equations; lia).
    assert (0 ≤ doy - (153 * ((5 * doy + 2) / 153) + 2) / 5 ∧ doy < (153 * ((5 * doy + 2) / 153 + 1) + 2) / 5) as [Hlow Hhigh]
      by (Z.div_mod_to_equations; lia).
    remember ((5 * doy + 2) / 153) as mp eqn:E4. clear E4.
    set (m := if mp <? 10 then mp + 3 else mp - 9). set (y := yoe + era * 400 + (if m <=? 2 then 1 else 0)).
    assert (1 ≤ m ≤ 12 ∧ 12 * y + (m - 1) + 1 - 2 = 12 * (yoe + era * 400) + mp + 1) as [Hm HM].
    { unfold y, m. destruct (Z.ltb_spec mp 10).
      - rewrite (proj2 (Z.leb_gt (mp + 3) 2)) by lia. lia.
      - rewrite (proj2 (Z.leb_le (mp - 9) 2)) by lia. lia. }
    split_and!; [lia|lia|lia|]. rewrite month_start_eq, HM. destruct (decide (mp = 11)) as [->|].
    - replace (12 * (yoe + era * 400) + 11 + 1) with (12 * (yoe + era * 400 + 1)) by lia.
      assert (12 * (yoe + era * 400 + 1) / 12 = yoe + era * 400 + 1) as -> by (Z.div_mod_to_equations; lia).
      assert ((12 * (yoe + era * 400 + 1)) mod 12 = 0) as -> by (Z.div_mod_to_equations; lia).
      change ((153 * 0 + 2) / 5) with 0. unfold march_start. destruct (Z.eqb_spec yoe 399) as [->|Hne].
      + replace (399 + era * 400 + 1) with ((era + 1) * 400) by lia. rewrite Z.div_mul, Z.mod_mul by lia.
        change (0 * 365 + 0 / 4 - 0 / 100) with 0. lia.
      + replace (yoe + era * 400 + 1) with (yoe + 1 + era * 400) by lia. rewrite Z.div_add, Z.mod_add, Z.div_small, Z.mod_small by lia. lia.
    - replace (12 * (yoe + era * 400) + mp + 1) with (mp + 1 + (yoe + era * 400) * 12) by lia.
      rewrite Z.div_add, Z.mod_add, Z.div_small, Z.mod_small, Z.add_0_l by lia. unfold march_start.
      rewrite Z.div_add, Z.mod_add, Z.div_small, Z.mod_small by lia. lia. }
  pose proof (days_civil day) as Hday. unfold month_of in *.
  rewrite <- days_start in *. replace (civil day).2 with (1 + ((civil day).2 - 1)) in Hday by lia. rewrite days_add in Hday. lia.
Qed.

Lemma civil_day_in_month day : 1 ≤ (civil day).2 ≤ daysIn (civil day).1.1 (civil day).1.2.
Proof.
  destruct (civil_in_month day) as (Hm & Hd & Hlo & Hhi). unfold daysIn. rewrite !days_start.
  replace (12 * (civil day).1.1 + ((civil day).1.2 + 1 - 1)) with (month_of day + 1) by (unfold month_of; lia).
  fold (month_of day). lia.
Qed.

(** Dates are ordered as the days they name. *)
Definition date_compare (a b : Z * Z * Z) : comparison :=
  match a.1.1 ?= b.1.1 with
  | Eq => match a.1.2 ?= b.1.2 with Eq => a.2 ?= b.2 | c => c end
  | c => c
  end.

Lemma civil_compare d1 d2 : date_compare (civil d1) (civil d2) = (d1 ?= d2).
Proof.
  destruct (civil_in_month d1) as (Hm1 & Hd1 & Hlo1 & Hhi1), (civil_in_month d2) as (Hm2 & Hd2 & Hlo2 & Hhi2).
  assert (month_of d1 < month_of d2 → d1 < d2) as L1 by (intros; pose proof (month_start_mono (month_of d1 + 1) (month_of d2)); lia).
  assert (month_of d2 < month_of d1 → d2 < d1) as L2 by (intros; pose proof (month_start_mono (month_of d2 + 1) (month_of d1)); lia).
  unfold date_compare. destruct (Z.compare_spec (civil d1).1.1 (civil d2).1.1) as [Ey|Ey|Ey].
  - destruct (Z.compare_spec (civil d1).1.2 (civil d2).1.2) as [Em|Em|Em].
    + assert (month_of d1 = month_of d2) as EM by (unfold month_of; congruence).
      rewrite Hd1, Hd2, EM. destruct (Z.compare_spec d1 d2) as [E|E|E].
      * apply Z.compare_eq_iff. lia.
      * apply Z.compare_lt_iff. lia.
      * apply Z.compare_gt_iff. lia.
    + symmetry. apply Z.compare_lt_iff, L1. unfold month_of. lia.
    + symmetry. apply Z.compare_gt_iff, L2. unfold month_of. lia.
  - symmetry. apply Z.compare_lt_iff, L1. unfold month_of. lia.
  - symmetry. apply Z.compare_gt_iff, L2. unfold month_of. lia.
Qed.

(** * Order of the texts *)

Lemma digits_compare : forallb (λ p, match Ascii.compare (digit p.1) (digit p.2), (p.1 ?= p.2) with
    Eq, Eq => true | Lt, Lt => true | Gt, Gt => true | _, _ => false end)
  (list_prod (Z.of_nat <$> seq 0 10) (Z.of_nat <$> seq 0 10)) = true.
Proof. by vm_compute. Qed.

Lemma digit_compare x y : 0 ≤ x < 10 → 0 ≤ y < 10 → Ascii.compare (digit x) (digit y) = (x ?= y).
Proof.
  intros Hx Hy. pose proof digits_compare as Hd. rewrite forallb_forall in Hd. specialize (Hd (x, y)).
  assert (∀ z, 0 ≤ z < 10 → In z (Z.of_nat <$> seq 0 10)) as Hin.
  { intros z Hz. rewrite <- list_elem_of_In. apply list_elem_of_fmap. exists (Z.to_nat z).
    split; [lia|]. apply list_elem_of_In, in_seq. lia. }
  assert (In (x, y) (list_prod (Z.of_nat <$> seq 0 10) (Z.of_nat <$> seq 0 10))) as H by (apply in_prod; by apply Hin).
  specialize (Hd H). cbn [fst snd] in Hd. by destruct (Ascii.compare _ _), (x ?= y).
Qed.

Definition then_compare (a b : comparison) : comparison := match a with Eq => b | c => c end.

Lemma cons_compare c d x y : String.compare (String c x) (String d y) = then_compare (Ascii.compare c d) (String.compare x y).
Proof. cbn. by destruct (Ascii.compare c d). Qed.

Lemma pad2_compare a b x y :
  0 ≤ a < 100 → 0 ≤ b < 100 → String.compare (pad2 a x) (pad2 b y) = then_compare (a ?= b) (String.compare x y).
Proof.
  intros Ha Hb. unfold pad2. rewrite !cons_compare, !digit_compare by (Z.div_mod_to_equations; lia).
  destruct (Z.compare_spec (a / 10) (b / 10)) as [E|E|E]; cbn.
  - destruct (Z.compare_spec (a mod 10) (b mod 10)) as [F|F|F]; cbn.
    + assert (a = b) as -> by (Z.div_mod_to_equations; lia). by rewrite Z.compare_refl.
    + rewrite (proj2 (Z.compare_lt_iff a b)) by (Z.div_mod_to_equations; lia). done.
    + rewrite (proj2 (Z.compare_gt_iff a b)) by (Z.div_mod_to_equations; lia). done.
  - rewrite (proj2 (Z.compare_lt_iff a b)) by (Z.div_mod_to_equations; lia). done.
  - rewrite (proj2 (Z.compare_gt_iff a b)) by (Z.div_mod_to_equations; lia). done.
Qed.

Lemma pad4_compare a b x y :
  0 ≤ a < 10000 → 0 ≤ b < 10000 → String.compare (pad4 a x) (pad4 b y) = then_compare (a ?= b) (String.compare x y).
Proof.
  intros Ha Hb. unfold pad4. rewrite !(proj2 (Z.ltb_ge _ 0)), !(proj2 (Z.ltb_lt _ 10000)) by lia.
  rewrite !pad2_compare by (Z.div_mod_to_equations; lia).
  destruct (Z.compare_spec (a / 100) (b / 100)) as [E|E|E]; cbn.
  - destruct (Z.compare_spec (a mod 100) (b mod 100)) as [F|F|F]; cbn.
    + assert (a = b) as -> by (Z.div_mod_to_equations; lia). by rewrite Z.compare_refl.
    + rewrite (proj2 (Z.compare_lt_iff a b)) by (Z.div_mod_to_equations; lia). done.
    + rewrite (proj2 (Z.compare_gt_iff a b)) by (Z.div_mod_to_equations; lia). done.
  - rewrite (proj2 (Z.compare_lt_iff a b)) by (Z.div_mod_to_equations; lia). done.
  - rewrite (proj2 (Z.compare_gt_iff a b)) by (Z.div_mod_to_equations; lia). done.
Qed.

(** A time whose year has four digits. *)
Definition four_digits (zone : Z) (t : time) : Prop := 0 ≤ Year zone t < 10000.

Lemma month_range zone t : 1 ≤ Month zone t ≤ 12.
Proof. apply civil_in_month. Qed.

Lemma month_day_range zone t : 1 ≤ MonthDay zone t ≤ daysIn (Year zone t) (Month zone t).
Proof. apply civil_day_in_month. Qed.

Lemma daysIn_bound y m : 28 ≤ daysIn y m ≤ 31.
Proof.
  unfold daysIn. rewrite !days_start. replace (12 * y + (m + 1 - 1)) with (12 * y + (m - 1) + 1) by lia. apply month_step.
Qed.

(** The dates are compared first, as days. *)
Lemma date_text_compare z1 z2 t1 t2 x y :
  four_digits z1 t1 → four_digits z2 t2 →
  String.compare (date_text z1 t1 x) (date_text z2 t2 y) = then_compare (day_of z1 t1 ?= day_of z2 t2) (String.compare x y).
Proof.
  intros H1 H2. unfold date_text. pose proof (month_range z1 t1). pose proof (month_range z2 t2).
  pose proof (month_day_range z1 t1). pose proof (month_day_range z2 t2).
  pose proof (daysIn_bound (Year z1 t1) (Month z1 t1)). pose proof (daysIn_bound (Year z2 t2) (Month z2 t2)).
  rewrite pad4_compare, cons_compare, pad2_compare, cons_compare, pad2_compare by (done || lia).
  change (Ascii.compare hyphen hyphen) with Eq. cbn [then_compare].
  rewrite <- (civil_compare (day_of z1 t1)). unfold date_compare, Year, Month, MonthDay.
  destruct (_ ?= _); [|done..]. cbn. destruct (_ ?= _); [|done..]. cbn. by destruct (_ ?= _).
Qed.

Lemma DateTime_before_RFC3339 z1 z2 t1 t2 :
  four_digits z1 t1 → four_digits z2 t2 →
  string_lt (Format_DateTime z1 t1) (Format_RFC3339 z2 t2) = (day_of z1 t1 <=? day_of z2 t2).
Proof.
  intros H1 H2. unfold string_lt, Format_DateTime, Format_RFC3339. rewrite date_text_compare, cons_compare by done.
  change (Ascii.compare blank letter_T) with Lt. cbn [then_compare]. unfold Z.leb. by destruct (_ ?= _).
Qed.

Lemma clock_parts zone t :
  0 ≤ ClockHour zone t < 24 ∧ 0 ≤ ClockMinute zone t < 60 ∧ 0 ≤ ClockSecond zone t < 60 ∧
  ClockHour zone t * Hour + ClockMinute zone t * Minute + ClockSecond zone t * Second = clock zone t - clock zone t mod Second.
Proof.
  pose proof (clock_bound zone t) as Hb. unfold ClockHour, ClockMinute, ClockSecond. generalize dependent (clock zone t). intros c Hb.
  unfold Day, Hour, Minute, Second in *. Z.div_mod_to_equations. lia.
Qed.

(** Texts of one layout are ordered as the seconds their clocks show. *)
Lemma DateTime_order z1 z2 t1 t2 :
  four_digits z1 t1 → four_digits z2 t2 →
  String.compare (Format_DateTime z1 t1) (Format_DateTime z2 t2) = ((t1 + z1) / Second ?= (t2 + z2) / Second).
Proof.
  intros H1 H2. unfold Format_DateTime. rewrite date_text_compare, cons_compare by done.
  change (Ascii.compare blank blank) with Eq. cbn [then_compare]. unfold clock_text.
  destruct (clock_parts z1 t1) as (? & ? & ? & E1), (clock_parts z2 t2) as (? & ? & ? & E2).
  rewrite pad2_compare, cons_compare, pad2_compare, cons_compare, pad2_compare by lia.
  change (Ascii.compare colon_char colon_char) with Eq. cbn [then_compare].
  assert (∀ zone t, (t + zone) / Second = day_of zone t * 86400 + ClockHour zone t * 3600 + ClockMinute zone t * 60 + ClockSecond zone t) as Hs.
  { intros zone t. unfold day_of, ClockHour, ClockMinute, ClockSecond, clock, Day, Hour, Minute, Second. generalize (t + zone). intros u.
    Z.div_mod_to_equations. lia. }
  rewrite !Hs. symmetry.
  destruct (Z.compare_spec (day_of z1 t1) (day_of z2 t2)); cbn; [|apply Z.compare_lt_iff; lia|apply Z.compare_gt_iff; lia].
  destruct (Z.compare_spec (ClockHour z1 t1) (ClockHour z2 t2)); cbn; [|apply Z.compare_lt_iff; lia|apply Z.compare_gt_iff; lia].
  destruct (Z.compare_spec (ClockMinute z1 t1) (ClockMinute z2 t2)); cbn; [|apply Z.compare_lt_iff; lia|apply Z.compare_gt_iff; lia].
  destruct (Z.compare_spec (ClockSecond z1 t1) (ClockSecond z2 t2)); cbn; [apply Z.compare_eq_iff|apply Z.compare_lt_iff|apply Z.compare_gt_iff]; lia.
Qed.

(** * Round trips *)

Lemma digits_value : forallb (λ n, bool_decide (digit_value (digit n) = Some n)) (Z.of_nat <$> seq 0 10) = true.
Proof. by vm_compute. Qed.

Lemma digit_value_digit n : 0 ≤ n < 10 → digit_value (digit n) = Some n.
Proof.
  intros Hn. pose proof digits_value as Hd. rewrite forallb_forall in Hd. apply (bool_decide_eq_true_1 _), Hd.
  rewrite <- list_elem_of_In. apply list_elem_of_fmap. exists (Z.to_nat n). split; [lia|]. apply list_elem_of_In, in_seq. lia.
Qed.

Lemma parse2_pad2 n rest : 0 ≤ n < 100 → parse2 (pad2 n rest) = Some (n, rest).
Proof.
  intros Hn. unfold parse2, pad2. rewrite !digit_value_digit by (Z.div_mod_to_equations; lia). cbn. do 2 f_equal.
  Z.div_mod_to_equations. lia.
Qed.

Lemma expect_same c rest : expect c (String c rest) = Some rest.
Proof. cbn. by rewrite Ascii.eqb_refl. Qed.

Lemma expect_cons c a rest : expect c (String a rest) = if Ascii.eqb a c then Some rest else None.
Proof. done. Qed.

#[local] Ltac read_digits :=
  repeat first [rewrite parse2_pad2 by (Z.div_mod_to_equations; lia)|rewrite expect_same
               |progress cbn -[parse2 expect pad2 daysIn Z.leb Z.ltb Z.mul Z.div Z.modulo]].

Lemma parse_parts_digits sep sep' y m d h min sec rest :
  0 ≤ y < 10000 → 1 ≤ m ≤ 12 → 1 ≤ d ≤ daysIn y m → 0 ≤ h < 24 → 0 ≤ min < 60 → 0 ≤ sec < 60 →
  parse_parts sep (pad4 y (String hyphen (pad2 m (String hyphen (pad2 d (String sep'
    (pad2 h (String colon_char (pad2 min (String colon_char (pad2 sec rest)))))))))))
  = if Ascii.eqb sep' sep then Some (y, m, d, h * Hour + min * Minute + sec * Second, rest) else None.
Proof.
  intros. pose proof (daysIn_bound y m). unfold parse_parts, pad4.
  rewrite (proj2 (Z.ltb_ge _ 0)), (proj2 (Z.ltb_lt _ 10000)) by lia. read_digits. rewrite expect_cons.
  destruct (Ascii.eqb sep' sep); [|done]. read_digits.
  replace (100 * (y / 100) + y mod 100) with y by (Z.div_mod_to_equations; lia).
  rewrite !(proj2 (Z.leb_le _ _)), !(proj2 (Z.ltb_lt _ _)) by lia. done.
Qed.

Lemma parse_parts_format sep sep' zone t rest :
  four_digits zone t →
  parse_parts sep (date_text zone t (String sep' (clock_text zone t rest))) =
    if Ascii.eqb sep' sep then Some (Year zone t, Month zone t, MonthDay zone t, clock zone t - clock zone t mod Second, rest) else None.
Proof.
  intros Hy. pose proof (month_range zone t). pose proof (month_day_range zone t). destruct (clock_parts zone t) as (? & ? & ? & Ec).
  unfold date_text, clock_text. by rewrite parse_parts_digits, Ec.
Qed.

(** The time in whole seconds. *)
Definition in_seconds (t : time) : time := t - t mod Second.

Lemma Date_in_seconds zone t :
  (Second | zone) → Date zone (Year zone t) (Month zone t) (MonthDay zone t) (clock zone t - clock zone t mod Second) = in_seconds t.
Proof.
  intros [k Hk]. rewrite Date_of_parts. unfold in_seconds. pose proof (time_of_parts zone t) as Ht.
  assert (clock zone t mod Second = t mod Second) as E; [|rewrite E; lia].
  unfold clock. subst zone. rewrite Z.mod_mod_divide by by exists 86400. by rewrite Z.mod_add.
Qed.

(** What [datetime('now')] writes is read back to the second. *)
Lemma DateTime_roundtrip t : four_digits 0 t → Parse_DateTime (Format_DateTime 0 t) = Some (in_seconds t).
Proof.
  intros Hy. unfold Parse_DateTime, Format_DateTime. rewrite parse_parts_format by done.
  change (Ascii.eqb blank blank) with true. cbn [mbind option_bind].
  rewrite bool_decide_true by done. by rewrite Date_in_seconds by by exists 0.
Qed.

Lemma parse_zone_text k :
  -1440 < k < 1440 → parse_zone (zone_text (k * Minute)) = Some (k * Minute).
Proof.
  intros Hk. unfold zone_text.
  assert (k * Minute / Second = 60 * k) as -> by (unfold Minute, Second; Z.div_mod_to_equations; lia).
  rewrite (Z.mul_comm 60), Z.quot_mul by lia. destruct (Z.eqb_spec (k * 60) 0) as [E|E].
  { assert (k = 0) as -> by lia. done. }
  assert (∀ sign n, 0 ≤ n < 1440 → sign ≠ Ascii.ascii_of_nat 90 →
    parse_zone (String sign (pad2 (n / 60) (String colon_char (pad2 (n mod 60) "")))) =
    if Ascii.eqb sign (Ascii.ascii_of_nat 43) then Some (n * Minute)
    else if Ascii.eqb sign hyphen then Some (- (n * Minute)) else None) as Hz.
  { intros sign n Hn Hs. unfold parse_zone. rewrite bool_decide_false by by intros [= ->]. read_digits.
    rewrite !(proj2 (Z.ltb_ge _ _)) by (Z.div_mod_to_equations; lia). rewrite bool_decide_true by done. cbn [negb orb].
    replace (n / 60 * Hour + n mod 60 * Minute) with (n * Minute) by (unfold Hour; Z.div_mod_to_equations; lia). done. }
  destruct (Z.ltb_spec k 0).
  - change ("-" +:+ ?x) with (String hyphen x). rewrite Hz by (done || lia). cbn -[Z.mul Minute]. f_equal. lia.
  - change ("+" +:+ ?x) with (String (Ascii.ascii_of_nat 43) x). rewrite Hz by (done || lia). cbn -[Z.mul Minute]. f_equal. lia.
Qed.

(** A time written with its zone, of whole minutes, is read back to the second. *)
Lemma RFC3339_roundtrip k t :
  -1440 < k < 1440 → four_digits (k * Minute) t →
  Parse_RFC3339 (Format_RFC3339 (k * Minute) t) = Some (in_seconds t).
Proof.
  intros Hk Hy. unfold Parse_RFC3339, Format_RFC3339. rewrite parse_parts_format by done.
  change (Ascii.eqb letter_T letter_T) with true. cbn [mbind option_bind]. rewrite parse_zone_text by done. cbn [mbind option_bind].
  rewrite Date_in_seconds; [done|]. exists (k * 60). unfold Minute. lia.
Qed.

(** What one layout writes the other does not read. *)
Lemma RFC3339_of_DateTime zone t : four_digits zone t → Parse_RFC3339 (Format_DateTime zone t) = None.
Proof. intros Hy. unfold Parse_RFC3339, Format_DateTime. by rewrite parse_parts_format. Qed.
