(* ===== verification/RecipeModels.v ===== *)
(** The data model of recipes: components, playbooks, activations, variable
    bindings and approvals ([src/internal/storage/recipe_component.go] and
    [src/internal/storage/playbook.go]), with their constants.

    The conventions are those of [Models]; the methods that turn slices into the
    JSON of a column are calls of [encoding/json] and have no counterpart here. *)

From S2P Require Import Prelude.

#[local] Open Scope string_scope.

(** * Components *)

Module ComponentContent.
Record ComponentContent := mk {
  Commands : list string;
  WorkDir : string;
  User : string;
  Timeout : Z;
  ContinueOnError : bool;
  Condition : string;
  ServiceName : string;
  ServiceAction : string;
  SourcePath : string;
  DestPath : string;
  FileOp : string;
  FileMode : string;
  FileOwner : string
}.
End ComponentContent.
Abbreviation ComponentContent := ComponentContent.ComponentContent.

Module VariableDefinition.
Record VariableDefinition := mk {
  Name : string;
  Type_ : string;
  Required : bool;
  Default : string;
  Description : string;
  Sensitive : bool
}.
End VariableDefinition.
Abbreviation VariableDefinition := VariableDefinition.VariableDefinition.

Module RecipeComponent.
Record RecipeComponent := mk {
  ID : string;
  Namespace : string;
  Slug : string;
  Version : string;
  Name : string;
  Description : string;
  ComponentType : string;
  Content : ComponentContent;
  Variables : list VariableDefinition;
  IsSeed : bool;
  IsRaw : bool;
  IsDeprecated : bool;
  CreatedAt : time
}.
End RecipeComponent.
Abbreviation RecipeComponent := RecipeComponent.RecipeComponent.

Definition ComponentTypeHook : string := "hook".
Definition ComponentTypeCommand : string := "command".
Definition ComponentTypeServiceReload : string := "service_reload".
Definition ComponentTypeFileOp : string := "file_op".

Definition ValidComponentTypes : list string :=
  [ComponentTypeHook; ComponentTypeCommand; ComponentTypeServiceReload; ComponentTypeFileOp].

Definition NamespaceSeed : string := "seed".
Definition NamespaceUser : string := "user".

Definition ValidNamespaces : list string := [NamespaceSeed; NamespaceUser].

(** * Playbooks *)

Module PlaybookStep.
Record PlaybookStep := mk {
  Order : Z;
  ComponentRef : string;
  VariableBindings : gmap string string;
  Condition : string;
  Phase : string
}.
End PlaybookStep.
Abbreviation PlaybookStep := PlaybookStep.PlaybookStep.

Module ValidationRules.
Record ValidationRules := mk {
  RequiredFiles : list string;
  RequiredEnvKeys : list string;
  Patterns : list string
}.
End ValidationRules.
Abbreviation ValidationRules := ValidationRules.ValidationRules.

Module Playbook.
Record Playbook := mk {
  ID : string;
  Namespace : string;
  Slug : string;
  Version : string;
  Name : string;
  Description : string;
  FrameworkType : string;
  Steps : list PlaybookStep;
  SharedDirs : list string;
  SharedFiles : list string;
  WritableDirs : list string;
  KeepReleases : Z;
  ValidationRules : option ValidationRules;
  IsSeed : bool;
  IsDeprecated : bool;
  ParentID : option string;
  ParentVersion : string;
  CreatedAt : time
}.
End Playbook.
Abbreviation Playbook := Playbook.Playbook.

Module PlaybookVariableBinding.
Record PlaybookVariableBinding := mk {
  ID : string;
  ActivationID : string;
  VariableName : string;
  SourceType : string;
  SourceRef : string;
  LiteralValue : string
}.
End PlaybookVariableBinding.
Abbreviation PlaybookVariableBinding := PlaybookVariableBinding.PlaybookVariableBinding.

Module PlaybookActivation.
Record PlaybookActivation := mk {
  ID : string;
  ProjectID : string;
  PlaybookID : string;
  ActivatedAt : time;
  ActivatedBy : option string;
  Bindings : list PlaybookVariableBinding
}.
End PlaybookActivation.
Abbreviation PlaybookActivation := PlaybookActivation.PlaybookActivation.

Module RawCommandApproval.
Record RawCommandApproval := mk {
  ID : string;
  ComponentID : string;
  ApprovedBy : string;
  ApprovedAt : time;
  ApprovalNote : string
}.
End RawCommandApproval.
Abbreviation RawCommandApproval := RawCommandApproval.RawCommandApproval.

Definition PhasePrepare : string := "prepare".
Definition PhasePreDeploy : string := "pre_deploy".
Definition PhaseDeploy : string := "deploy".
Definition PhasePostDeploy : string := "post_deploy".
Definition PhaseRollback : string := "rollback".
Definition PhaseFinalize : string := "finalize".

Definition ValidPhases : list string :=
  [PhasePrepare; PhasePreDeploy; PhaseDeploy; PhasePostDeploy; PhaseRollback; PhaseFinalize].

Definition SourceTypeLiteral : string := "literal".
Definition SourceTypeEnv : string := "env".
Definition SourceTypeSecret : string := "secret".

Definition ValidSourceTypes : list string := [SourceTypeLiteral; SourceTypeEnv; SourceTypeSecret].
