(* ===== verification/MemRecipes.v ===== *)
(** Recipe components, playbooks, activations, variable bindings and approvals in the
    memory store ([src/internal/storage/memory_recipes.go]).

    The store keeps copies of the records it is given and hands out copies; a stored
    record is replaced, never changed in place, so the pointers two maps share are
    values here.  A method that takes a pointer takes an option, nil being [None], and
    returns the record as it filled it in for the caller. *)

From S2P Require Import StoreBase GoSort RecipeModels.

#[local] Open Scope string_scope.
#[local] Open Scope list_scope.
#[local] Open Scope Z_scope.

Module Recipes.

Record State := mkState {
  recipeComponents : gmap string RecipeComponent;
  recipeComponentsByKey : gmap string RecipeComponent;
  playbooks : gmap string Playbook;
  playbooksByKey : gmap string Playbook;
  playbookActivations : gmap string PlaybookActivation;
  activationsByProject : gmap string (list PlaybookActivation);
  activationsByPlaybook : gmap string (list PlaybookActivation);
  variableBindings : gmap string PlaybookVariableBinding;
  bindingsByActivation : gmap string (list PlaybookVariableBinding);
  bindingsBySourceRef : gmap string (list PlaybookVariableBinding);
  rawApprovals : gmap string RawCommandApproval;
  rawApprovalsByComponent : gmap string (list RawCommandApproval)
}.

Definition empty : State := mkState ∅ ∅ ∅ ∅ ∅ ∅ ∅ ∅ ∅ ∅ ∅ ∅.

Abbreviation Out := (Outcome State).

(** * Keys *)

Definition recipeComponentKey (namespace slug version : string) : string :=
  namespace +:+ ":" +:+ slug +:+ ":" +:+ version.

Definition playbookKey (namespace slug version : string) : string :=
  namespace +:+ ":" +:+ slug +:+ ":" +:+ version.

Definition bindingSourceKey (sourceType sourceRef : string) : string :=
  sourceType +:+ ":" +:+ sourceRef.

(** The key of a record. *)
Definition component_key (c : RecipeComponent) : string :=
  recipeComponentKey c.(RecipeComponent.Namespace) c.(RecipeComponent.Slug) c.(RecipeComponent.Version).
Definition playbook_key (p : Playbook) : string :=
  playbookKey p.(Playbook.Namespace) p.(Playbook.Slug) p.(Playbook.Version).

(** The entry of [bindingsBySourceRef] a binding belongs to: literals have none. *)
Definition source_key (b : PlaybookVariableBinding) : option string :=
  if negb (bool_decide (b.(PlaybookVariableBinding.SourceType) = SourceTypeLiteral)) &&
     negb (bool_decide (b.(PlaybookVariableBinding.SourceRef) = ""))
  then Some (bindingSourceKey b.(PlaybookVariableBinding.SourceType) b.(PlaybookVariableBinding.SourceRef))
  else None.

(** * Recipe components *)

Definition CreateRecipeComponent (c : option RecipeComponent) (now : time) (xid : string) (s : State)
    : Out RecipeComponent :=
  match c with
  | None => fail s (Errorf "recipe component cannot be nil")
  | Some c =>
      let key := component_key c in
      match recipeComponentsByKey s !! key with
      | Some _ => fail s (Errorf ("recipe component with key " +:+ key +:+ " already exists"))
      | None =>
          let stored := {| c with
            RecipeComponent.ID := or_string c.(RecipeComponent.ID) xid;
            RecipeComponent.CreatedAt := or_now c.(RecipeComponent.CreatedAt) now |} in
          mkOut {| s with
              recipeComponents := <[stored.(RecipeComponent.ID) := stored]> (recipeComponents s);
              recipeComponentsByKey := <[key := stored]> (recipeComponentsByKey s) |}
            (queueWrite coreWrites now WriteOpInsert "recipe_components"
               (DPtr TRecipeComponent stored.(RecipeComponent.ID)))
            (Ok stored)
      end
  end.

Definition GetRecipeComponent (namespace slug version : string) (s : State) : result RecipeComponent :=
  match recipeComponentsByKey s !! recipeComponentKey namespace slug version with
  | None => Err ErrNotFound
  | Some c => Ok c
  end.

Definition GetRecipeComponentByID (id : string) (s : State) : result RecipeComponent :=
  match recipeComponents s !! id with None => Err ErrNotFound | Some c => Ok c end.

(** By namespace, then slug, then version. *)
Definition component_less : RecipeComponent → RecipeComponent → bool :=
  lex_less RecipeComponent.Namespace
    (lex_less RecipeComponent.Slug
       (λ x y, string_lt x.(RecipeComponent.Version) y.(RecipeComponent.Version))).

Definition component_listed (namespace : string) (includeDeprecated : bool) (c : RecipeComponent) : bool :=
  if negb (bool_decide (namespace = "")) && negb (bool_decide (c.(RecipeComponent.Namespace) = namespace))
  then false
  else if negb includeDeprecated && c.(RecipeComponent.IsDeprecated) then false
  else true.

Definition ListRecipeComponents `{MapRange, SliceSort} (namespace : string) (includeDeprecated : bool)
    (s : State) : result (list RecipeComponent) :=
  Ok (sort_Slice component_less
        (filter (λ c, component_listed namespace includeDeprecated c = true)
                (range_values (recipeComponents s)))).

(** Versions are compared as strings here, highest first. *)
Definition ListRecipeComponentVersions `{MapRange, SliceSort} (namespace slug : string) (s : State)
    : result (list RecipeComponent) :=
  Ok (sort_Slice (λ x y, string_lt y.(RecipeComponent.Version) x.(RecipeComponent.Version))
        (filter (λ c, c.(RecipeComponent.Namespace) = namespace ∧ c.(RecipeComponent.Slug) = slug)
                (range_values (recipeComponents s)))).

(** The key index after the old key was taken out, if it changed; the check for a
    conflict reads it, and on a conflict the old key is put back. *)
Definition UpdateRecipeComponent (c : option RecipeComponent) (now : time) (s : State) : Out unit :=
  match c with
  | None => fail s (Errorf "recipe component cannot be nil")
  | Some c =>
      match recipeComponents s !! c.(RecipeComponent.ID) with
      | None => fail s ErrNotFound
      | Some existing =>
          let oldKey := component_key existing in
          let newKey := component_key c in
          let changed := negb (bool_decide (oldKey = newKey)) in
          let m := if changed then delete oldKey (recipeComponentsByKey s) else recipeComponentsByKey s in
          match (if changed then m !! newKey else None) with
          | Some _ =>
              mkOut {| s with recipeComponentsByKey := <[oldKey := existing]> m |} []
                (Err (Errorf ("recipe component with key " +:+ newKey +:+ " already exists")))
          | None =>
              mkOut {| s with
                  recipeComponents := <[c.(RecipeComponent.ID) := c]> (recipeComponents s);
                  recipeComponentsByKey := <[newKey := c]> m |}
                (queueWrite coreWrites now WriteOpUpdate "recipe_components"
                   (DPtr TRecipeComponent c.(RecipeComponent.ID)))
                (Ok tt)
          end
      end
  end.

Definition DeleteRecipeComponent (id : string) (now : time) (s : State) : Out unit :=
  match recipeComponents s !! id with
  | None => fail s ErrNotFound
  | Some c =>
      mkOut {| s with
          recipeComponents := delete id (recipeComponents s);
          recipeComponentsByKey := delete (component_key c) (recipeComponentsByKey s) |}
        (queueWrite coreWrites now WriteOpDelete "recipe_components" (DString id))
        (Ok tt)
  end.

(** * Playbooks *)

(** The copy shares nothing with the original; as a value it is the same. *)
Definition copyPlaybook (p : Playbook) : Playbook :=
  {| p with
     Playbook.Steps := p.(Playbook.Steps);
     Playbook.SharedDirs := p.(Playbook.SharedDirs);
     Playbook.SharedFiles := p.(Playbook.SharedFiles);
     Playbook.WritableDirs := p.(Playbook.WritableDirs);
     Playbook.ValidationRules := p.(Playbook.ValidationRules) |}.

Definition CreatePlaybook (p : option Playbook) (now : time) (xid : string) (s : State) : Out Playbook :=
  match p with
  | None => fail s (Errorf "playbook cannot be nil")
  | Some p =>
      let key := playbook_key p in
      match playbooksByKey s !! key with
      | Some _ => fail s (Errorf ("playbook with key " +:+ key +:+ " already exists"))
      | None =>
          let p := {| p with
            Playbook.ID := or_string p.(Playbook.ID) xid;
            Playbook.CreatedAt := or_now p.(Playbook.CreatedAt) now |} in
          let stored := copyPlaybook p in
          mkOut {| s with
              playbooks := <[p.(Playbook.ID) := stored]> (playbooks s);
              playbooksByKey := <[key := stored]> (playbooksByKey s) |}
            (queueWrite coreWrites now WriteOpInsert "playbooks" (DPtr TPlaybook p.(Playbook.ID)))
            (Ok p)
      end
  end.

Definition GetPlaybook (namespace slug version : string) (s : State) : result Playbook :=
  match playbooksByKey s !! playbookKey namespace slug version with
  | None => Err ErrNotFound
  | Some p => Ok (copyPlaybook p)
  end.

Definition GetPlaybookByID (id : string) (s : State) : result Playbook :=
  match playbooks s !! id with None => Err ErrNotFound | Some p => Ok (copyPlaybook p) end.

Definition playbook_less : Playbook → Playbook → bool :=
  lex_less Playbook.Namespace
    (lex_less Playbook.Slug (λ x y, string_lt x.(Playbook.Version) y.(Playbook.Version))).

Definition playbook_listed (namespace frameworkType : string) (includeDeprecated : bool) (p : Playbook)
    : bool :=
  if negb (bool_decide (namespace = "")) && negb (bool_decide (p.(Playbook.Namespace) = namespace))
  then false
  else if negb (bool_decide (frameworkType = "")) &&
          negb (bool_decide (p.(Playbook.FrameworkType) = frameworkType))
  then false
  else if negb includeDeprecated && p.(Playbook.IsDeprecated) then false
  else true.

Definition ListPlaybooks `{MapRange, SliceSort} (namespace frameworkType : string)
    (includeDeprecated : bool) (s : State) : result (list Playbook) :=
  Ok (sort_Slice playbook_less
        (copyPlaybook <$> filter (λ p, playbook_listed namespace frameworkType includeDeprecated p = true)
                (range_values (playbooks s)))).

Definition ListPlaybookVersions `{MapRange, SliceSort} (namespace slug : string) (s : State)
    : result (list Playbook) :=
  Ok (sort_Slice (λ x y, string_lt y.(Playbook.Version) x.(Playbook.Version))
        (copyPlaybook <$> filter (λ p, p.(Playbook.Namespace) = namespace ∧ p.(Playbook.Slug) = slug)
                (range_values (playbooks s)))).

Definition UpdatePlaybook (p : option Playbook) (now : time) (s : State) : Out unit :=
  match p with
  | None => fail s (Errorf "playbook cannot be nil")
  | Some p =>
      match playbooks s !! p.(Playbook.ID) with
      | None => fail s ErrNotFound
      | Some existing =>
          let oldKey := playbook_key existing in
          let newKey := playbook_key p in
          let changed := negb (bool_decide (oldKey = newKey)) in
          let m := if changed then delete oldKey (playbooksByKey s) else playbooksByKey s in
          match (if changed then m !! newKey else None) with
          | Some _ =>
              mkOut {| s with playbooksByKey := <[oldKey := existing]> m |} []
                (Err (Errorf ("playbook with key " +:+ newKey +:+ " already exists")))
          | None =>
              let stored := copyPlaybook p in
              mkOut {| s with
                  playbooks := <[p.(Playbook.ID) := stored]> (playbooks s);
                  playbooksByKey := <[newKey := stored]> m |}
                (queueWrite coreWrites now WriteOpUpdate "playbooks" (DPtr TPlaybook p.(Playbook.ID)))
                (Ok tt)
          end
      end
  end.

Definition DeletePlaybook (id : string) (now : time) (s : State) : Out unit :=
  match playbooks s !! id with
  | None => fail s ErrNotFound
  | Some p =>
      mkOut {| s with
          playbooks := delete id (playbooks s);
          playbooksByKey := delete (playbook_key p) (playbooksByKey s) |}
        (queueWrite coreWrites now WriteOpDelete "playbooks" (DString id))
        (Ok tt)
  end.

(** * Activations *)

Definition CreatePlaybookActivation (a : option PlaybookActivation) (now : time) (xid : string)
    (s : State) : Out PlaybookActivation :=
  match a with
  | None => fail s (Errorf "playbook activation cannot be nil")
  | Some a =>
      let project := a.(PlaybookActivation.ProjectID) in
      if existsb (λ existing, bool_decide (existing.(PlaybookActivation.ProjectID) = project))
           (entry (activationsByProject s) project)
      then fail s (Errorf ("project " +:+ project +:+ " already has an active playbook"))
      else
        let stored := {| a with
          PlaybookActivation.ID := or_string a.(PlaybookActivation.ID) xid;
          PlaybookActivation.ActivatedAt := or_now a.(PlaybookActivation.ActivatedAt) now |} in
        let playbook := a.(PlaybookActivation.PlaybookID) in
        mkOut {| s with
            playbookActivations := <[stored.(PlaybookActivation.ID) := stored]> (playbookActivations s);
            activationsByProject :=
              <[project := entry (activationsByProject s) project ++ [stored]]> (activationsByProject s);
            activationsByPlaybook :=
              <[playbook := entry (activationsByPlaybook s) playbook ++ [stored]]> (activationsByPlaybook s) |}
          (queueWrite coreWrites now WriteOpInsert "playbook_activations"
             (DPtr TPlaybookActivation stored.(PlaybookActivation.ID)))
          (Ok stored)
  end.

Definition GetPlaybookActivation (projectID : string) (s : State) : result PlaybookActivation :=
  match last (entry (activationsByProject s) projectID) with
  | None => Err ErrNotFound
  | Some a => Ok a
  end.

Definition GetPlaybookActivationByID (id : string) (s : State) : result PlaybookActivation :=
  match playbookActivations s !! id with None => Err ErrNotFound | Some a => Ok a end.

Definition ListActivationsByPlaybook (playbookID : string) (s : State)
    : result (list PlaybookActivation) :=
  Ok (entry (activationsByPlaybook s) playbookID).

Definition removeActivationFromSlice (slice : list PlaybookActivation) (id : string)
    : list PlaybookActivation :=
  remove_id PlaybookActivation.ID id slice.

Definition DeletePlaybookActivation (id : string) (now : time) (s : State) : Out unit :=
  match playbookActivations s !! id with
  | None => fail s ErrNotFound
  | Some a =>
      let project := a.(PlaybookActivation.ProjectID) in
      let playbook := a.(PlaybookActivation.PlaybookID) in
      mkOut {| s with
          playbookActivations := delete id (playbookActivations s);
          activationsByProject :=
            <[project := removeActivationFromSlice (entry (activationsByProject s) project) id]>
              (activationsByProject s);
          activationsByPlaybook :=
            <[playbook := removeActivationFromSlice (entry (activationsByPlaybook s) playbook) id]>
              (activationsByPlaybook s) |}
        (queueWrite coreWrites now WriteOpDelete "playbook_activations" (DString id))
        (Ok tt)
  end.

(** * Variable bindings *)

Definition removeBindingFromSlice (slice : list PlaybookVariableBinding) (id : string)
    : list PlaybookVariableBinding :=
  remove_id PlaybookVariableBinding.ID id slice.

Definition CreateVariableBinding (b : option PlaybookVariableBinding) (now : time) (xid : string)
    (s : State) : Out PlaybookVariableBinding :=
  match b with
  | None => fail s (Errorf "variable binding cannot be nil")
  | Some b =>
      let stored := {| b with
        PlaybookVariableBinding.ID := or_string b.(PlaybookVariableBinding.ID) xid |} in
      let act := b.(PlaybookVariableBinding.ActivationID) in
      mkOut {| s with
          variableBindings := <[stored.(PlaybookVariableBinding.ID) := stored]> (variableBindings s);
          bindingsByActivation :=
            <[act := entry (bindingsByActivation s) act ++ [stored]]> (bindingsByActivation s);
          bindingsBySourceRef :=
            match source_key b with
            | Some key => <[key := entry (bindingsBySourceRef s) key ++ [stored]]> (bindingsBySourceRef s)
            | None => bindingsBySourceRef s
            end |}
        (queueWrite coreWrites now WriteOpInsert "playbook_variable_bindings"
           (DPtr TPlaybookVariableBinding stored.(PlaybookVariableBinding.ID)))
        (Ok stored)
  end.

Definition GetVariableBindings (activationID : string) (s : State)
    : result (list PlaybookVariableBinding) :=
  Ok (entry (bindingsByActivation s) activationID).

(** The slice of the new activation is searched and written in place; that of the
    old one is not looked at. *)
Definition UpdateVariableBinding (b : option PlaybookVariableBinding) (now : time) (s : State) : Out unit :=
  match b with
  | None => fail s (Errorf "variable binding cannot be nil")
  | Some b =>
      let id := b.(PlaybookVariableBinding.ID) in
      match variableBindings s !! id with
      | None => fail s ErrNotFound
      | Some existing =>
          let refs :=
            match source_key existing with
            | Some oldKey =>
                <[oldKey := removeBindingFromSlice (entry (bindingsBySourceRef s) oldKey) id]>
                  (bindingsBySourceRef s)
            | None => bindingsBySourceRef s
            end in
          let act := b.(PlaybookVariableBinding.ActivationID) in
          mkOut {| s with
              variableBindings := <[id := b]> (variableBindings s);
              bindingsByActivation :=
                alter (replace_id PlaybookVariableBinding.ID b) act (bindingsByActivation s);
              bindingsBySourceRef :=
                match source_key b with
                | Some key => <[key := entry refs key ++ [b]]> refs
                | None => refs
                end |}
            (queueWrite coreWrites now WriteOpUpdate "playbook_variable_bindings"
               (DPtr TPlaybookVariableBinding id))
            (Ok tt)
      end
  end.

Definition DeleteVariableBinding (id : string) (now : time) (s : State) : Out unit :=
  match variableBindings s !! id with
  | None => fail s ErrNotFound
  | Some b =>
      let act := b.(PlaybookVariableBinding.ActivationID) in
      mkOut {| s with
          variableBindings := delete id (variableBindings s);
          bindingsByActivation :=
            <[act := removeBindingFromSlice (entry (bindingsByActivation s) act) id]> (bindingsByActivation s);
          bindingsBySourceRef :=
            match source_key b with
            | Some key =>
                <[key := removeBindingFromSlice (entry (bindingsBySourceRef s) key) id]> (bindingsBySourceRef s)
            | None => bindingsBySourceRef s
            end |}
        (queueWrite coreWrites now WriteOpDelete "playbook_variable_bindings" (DString id))
        (Ok tt)
  end.

Definition FindBindingsBySourceRef (sourceType sourceRef : string) (s : State)
    : result (list PlaybookVariableBinding) :=
  Ok (entry (bindingsBySourceRef s) (bindingSourceKey sourceType sourceRef)).

(** * Approvals *)

Definition CreateRawApproval (a : option RawCommandApproval) (now : time) (xid : string) (s : State)
    : Out RawCommandApproval :=
  match a with
  | None => fail s (Errorf "raw approval cannot be nil")
  | Some a =>
      let component := a.(RawCommandApproval.ComponentID) in
      if existsb (λ existing, bool_decide (existing.(RawCommandApproval.ComponentID) = component))
           (entry (rawApprovalsByComponent s) component)
      then fail s (Errorf ("component " +:+ component +:+ " already has an approval"))
      else
        let stored := {| a with
          RawCommandApproval.ID := or_string a.(RawCommandApproval.ID) xid;
          RawCommandApproval.ApprovedAt := or_now a.(RawCommandApproval.ApprovedAt) now |} in
        mkOut {| s with
            rawApprovals := <[stored.(RawCommandApproval.ID) := stored]> (rawApprovals s);
            rawApprovalsByComponent :=
              <[component := entry (rawApprovalsByComponent s) component ++ [stored]]>
                (rawApprovalsByComponent s) |}
          (queueWrite coreWrites now WriteOpInsert "raw_command_approvals"
             (DPtr TRawCommandApproval stored.(RawCommandApproval.ID)))
          (Ok stored)
  end.

Definition GetRawApproval (componentID : string) (s : State) : result RawCommandApproval :=
  match last (entry (rawApprovalsByComponent s) componentID) with
  | None => Err ErrNotFound
  | Some a => Ok a
  end.

Definition DeleteRawApproval (componentID : string) (now : time) (s : State) : Out unit :=
  match entry (rawApprovalsByComponent s) componentID with
  | [] => fail s ErrNotFound
  | approvals =>
      mkOut {| s with
          rawApprovals := foldl (λ m a, delete a.(RawCommandApproval.ID) m) (rawApprovals s) approvals;
          rawApprovalsByComponent := delete componentID (rawApprovalsByComponent s) |}
        (approvals ≫= λ a, queueWrite coreWrites now WriteOpDelete "raw_command_approvals"
                             (DString a.(RawCommandApproval.ID)))
        (Ok tt)
  end.

Definition ListRawApprovals `{MapRange, SliceSort} (s : State) : result (list RawCommandApproval) :=
  Ok (sort_Slice (λ x y, Before x.(RawCommandApproval.ApprovedAt) y.(RawCommandApproval.ApprovedAt))
        (range_values (rawApprovals s))).

(** * Loading at startup *)

(** [for rows.Next()]: a row that cannot be scanned or parsed ends the loop with an
    error, and what was loaded before it stays.  [rows] is what the database and the
    parsers of the JSON columns give. *)
Fixpoint load_rows {A} (file : A → State → State) (rows : list (result A)) (s : State) : Out unit :=
  match rows with
  | [] => mkOut s [] (Ok tt)
  | Ok a :: rows' => load_rows file rows' (file a s)
  | Err e :: _ => mkOut s [] (Err e)
  | Panic :: _ => mkOut s [] Panic
  end.

Definition load_component (c : RecipeComponent) (s : State) : State :=
  {| s with recipeComponents := <[c.(RecipeComponent.ID) := c]> (recipeComponents s);
            recipeComponentsByKey := <[component_key c := c]> (recipeComponentsByKey s) |}.

Definition load_playbook (p : Playbook) (s : State) : State :=
  {| s with playbooks := <[p.(Playbook.ID) := p]> (playbooks s);
            playbooksByKey := <[playbook_key p := p]> (playbooksByKey s) |}.

Definition load_activation (a : PlaybookActivation) (s : State) : State :=
  let project := a.(PlaybookActivation.ProjectID) in
  let playbook := a.(PlaybookActivation.PlaybookID) in
  {| s with
     playbookActivations := <[a.(PlaybookActivation.ID) := a]> (playbookActivations s);
     activationsByProject :=
       <[project := entry (activationsByProject s) project ++ [a]]> (activationsByProject s);
     activationsByPlaybook :=
       <[playbook := entry (activationsByPlaybook s) playbook ++ [a]]> (activationsByPlaybook s) |}.

Definition load_binding (b : PlaybookVariableBinding) (s : State) : State :=
  let act := b.(PlaybookVariableBinding.ActivationID) in
  {| s with
     variableBindings := <[b.(PlaybookVariableBinding.ID) := b]> (variableBindings s);
     bindingsByActivation := <[act := entry (bindingsByActivation s) act ++ [b]]> (bindingsByActivation s);
     bindingsBySourceRef :=
       match source_key b with
       | Some key => <[key := entry (bindingsBySourceRef s) key ++ [b]]> (bindingsBySourceRef s)
       | None => bindingsBySourceRef s
       end |}.

Definition load_approval (a : RawCommandApproval) (s : State) : State :=
  let component := a.(RawCommandApproval.ComponentID) in
  {| s with
     rawApprovals := <[a.(RawCommandApproval.ID) := a]> (rawApprovals s);
     rawApprovalsByComponent :=
       <[component := entry (rawApprovalsByComponent s) component ++ [a]]> (rawApprovalsByComponent s) |}.

Definition loadRecipeComponentsFromDB := load_rows load_component.
Definition loadPlaybooksFromDB := load_rows load_playbook.
Definition loadPlaybookActivationsFromDB := load_rows load_activation.
Definition loadVariableBindingsFromDB := load_rows load_binding.
Definition loadRawApprovalsFromDB := load_rows load_approval.

(** * Calls *)

Inductive call :=
| CCreateRecipeComponent (c : option RecipeComponent) (now : time) (xid : string)
| CUpdateRecipeComponent (c : option RecipeComponent) (now : time)
| CDeleteRecipeComponent (id : string) (now : time)
| CCreatePlaybook (p : option Playbook) (now : time) (xid : string)
| CUpdatePlaybook (p : option Playbook) (now : time)
| CDeletePlaybook (id : string) (now : time)
| CCreatePlaybookActivation (a : option PlaybookActivation) (now : time) (xid : string)
| CDeletePlaybookActivation (id : string) (now : time)
| CCreateVariableBinding (b : option PlaybookVariableBinding) (now : time) (xid : string)
| CUpdateVariableBinding (b : option PlaybookVariableBinding) (now : time)
| CDeleteVariableBinding (id : string) (now : time)
| CCreateRawApproval (a : option RawCommandApproval) (now : time) (xid : string)
| CDeleteRawApproval (component : string) (now : time).

Definition effect {A} (o : Out A) : State * list (Chan * WriteOp) := (st o, queued o).

Definition run (c : call) (s : State) : State * list (Chan * WriteOp) :=
  match c with
  | CCreateRecipeComponent c now xid => effect (CreateRecipeComponent c now xid s)
  | CUpdateRecipeComponent c now => effect (UpdateRecipeComponent c now s)
  | CDeleteRecipeComponent id now => effect (DeleteRecipeComponent id now s)
  | CCreatePlaybook p now xid => effect (CreatePlaybook p now xid s)
  | CUpdatePlaybook p now => effect (UpdatePlaybook p now s)
  | CDeletePlaybook id now => effect (DeletePlaybook id now s)
  | CCreatePlaybookActivation a now xid => effect (CreatePlaybookActivation a now xid s)
  | CDeletePlaybookActivation id now => effect (DeletePlaybookActivation id now s)
  | CCreateVariableBinding b now xid => effect (CreateVariableBinding b now xid s)
  | CUpdateVariableBinding b now => effect (UpdateVariableBinding b now s)
  | CDeleteVariableBinding id now => effect (DeleteVariableBinding id now s)
  | CCreateRawApproval a now xid => effect (CreateRawApproval a now xid s)
  | CDeleteRawApproval component now => effect (DeleteRawApproval component now s)
  end.

(** Records are created under new identifiers, and a binding stays with its
    activation. *)
Definition allowed (c : call) (s : State) : Prop :=
  match c with
  | CCreateRecipeComponent (Some c) _ xid =>
      recipeComponents s !! or_string c.(RecipeComponent.ID) xid = None
  | CCreatePlaybook (Some p) _ xid => playbooks s !! or_string p.(Playbook.ID) xid = None
  | CCreatePlaybookActivation (Some a) _ xid =>
      playbookActivations s !! or_string a.(PlaybookActivation.ID) xid = None
  | CCreateVariableBinding (Some b) _ xid =>
      variableBindings s !! or_string b.(PlaybookVariableBinding.ID) xid = None
  | CUpdateVariableBinding (Some b) _ =>
      ∀ old, variableBindings s !! b.(PlaybookVariableBinding.ID) = Some old →
        old.(PlaybookVariableBinding.ActivationID) = b.(PlaybookVariableBinding.ActivationID)
  | CCreateRawApproval (Some a) _ xid =>
      rawApprovals s !! or_string a.(RawCommandApproval.ID) xid = None
  | _ => True
  end.

Inductive reachable : State → Prop :=
| reachable_empty : reachable empty
| reachable_call c s : reachable s → allowed c s → reachable (run c s).1.

(** * Invariant *)

Definition project_of (a : PlaybookActivation) : option string := Some a.(PlaybookActivation.ProjectID).
Definition playbook_of (a : PlaybookActivation) : option string := Some a.(PlaybookActivation.PlaybookID).
Definition activation_of (b : PlaybookVariableBinding) : option string :=
  Some b.(PlaybookVariableBinding.ActivationID).
Definition component_of (a : RawCommandApproval) : option string := Some a.(RawCommandApproval.ComponentID).

Record wf (s : State) : Prop := {
  wf_components : indexed RecipeComponent.ID component_key (recipeComponents s) (recipeComponentsByKey s);
  wf_playbooks : indexed Playbook.ID playbook_key (playbooks s) (playbooksByKey s);
  wf_activations : filed PlaybookActivation.ID (playbookActivations s);
  wf_projects : list_indexed PlaybookActivation.ID project_of (playbookActivations s) (activationsByProject s);
  wf_by_playbook : list_indexed PlaybookActivation.ID playbook_of (playbookActivations s) (activationsByPlaybook s);
  wf_one_activation : ∀ p, (length (entry (activationsByProject s) p) ≤ 1)%nat;
  wf_bindings : filed PlaybookVariableBinding.ID (variableBindings s);
  wf_by_activation :
    list_indexed PlaybookVariableBinding.ID activation_of (variableBindings s) (bindingsByActivation s);
  wf_sources : list_indexed PlaybookVariableBinding.ID source_key (variableBindings s) (bindingsBySourceRef s);
  wf_approvals : filed RawCommandApproval.ID (rawApprovals s);
  wf_by_component : list_indexed RawCommandApproval.ID component_of (rawApprovals s) (rawApprovalsByComponent s);
  wf_one_approval : ∀ c, (length (entry (rawApprovalsByComponent s) c) ≤ 1)%nat
}.

Lemma copyPlaybook_id p : copyPlaybook p = p.
Proof. by destruct p. Qed.



Lemma recipes_wf_empty : wf empty.
Proof.
  split; simpl; try apply indexed_empty; try apply filed_empty; try apply list_indexed_empty;
    intros; unfold entry; rewrite lookup_empty; simpl; lia.
Qed.

(** Replacing a record under a key index, as the two update methods do it. *)
Lemma key_index_update {A} (ID key : A → string) byID byKey (old new : A) :
  indexed ID key byID byKey → byID !! ID new = Some old →
  let changed := negb (bool_decide (key old = key new)) in
  let m := if changed then delete (key old) byKey else byKey in
  match (if changed then m !! key new else None) with
  | Some _ => indexed ID key byID (<[key old := old]> m)
  | None => indexed ID key (<[ID new := new]> byID) (<[key new := new]> m)
  end.
Proof.
  intros Hi Ho. cbv zeta. destruct (bool_decide_reflect (key old = key new)) as [E|E]; simpl.
  - rewrite <- E, <- (insert_delete_eq byKey), E. rewrite <- E at 2. apply indexed_replace; auto.
  - destruct (delete (key old) byKey !! key new) eqn:En.
    + pose proof (proj1 Hi _ _ Ho) as [_ Hk]. by rewrite insert_delete_id.
    + apply indexed_replace; [done..|]. right. by rewrite lookup_delete_ne in En.
Qed.

(** A first record of a key leaves one. *)
Lemma entry_first {A} (ID : A → string) (key : A → string) byID idx (a : A) k :
  list_indexed ID (λ a, Some (key a)) byID idx →
  existsb (λ e, bool_decide (key e = k)) (entry idx k) = false →
  entry idx k = [].
Proof.
  intros Hl He. destruct (entry idx k) as [|b l] eqn:E; [done|]. exfalso.
  destruct (proj1 (proj2 (Hl k) b)) as [_ [= Hk]]; [rewrite E; left|].
  simpl in He. by rewrite bool_decide_true in He.
Qed.

Lemma entry_length_insert {A} (idx : gmap string (list A)) k l :
  (length l ≤ 1)%nat → (∀ k, (length (entry idx k) ≤ 1)%nat) → ∀ k', (length (entry (<[k := l]> idx) k') ≤ 1)%nat.
Proof.
  intros Hl H k'. destruct (decide (k = k')) as [<-|]; [by rewrite entry_insert_eq|by rewrite entry_insert_ne].
Qed.

Lemma remove_id_length {A} (ID : A → string) id l : (length (remove_id ID id l) ≤ length l)%nat.
Proof. apply sublist_length, remove_id_sublist. Qed.

Lemma wf_create_component c now xid s :
  wf s → allowed (CCreateRecipeComponent c now xid) s → wf (st (CreateRecipeComponent c now xid s)).
Proof.
  intros [] Ha. destruct c as [c|]; [|done]. unfold CreateRecipeComponent.
  destruct (recipeComponentsByKey s !! _) eqn:E; [done|]. split; simpl; try done.
  by apply (indexed_insert RecipeComponent.ID component_key _ _
    {| c with RecipeComponent.ID := or_string c.(RecipeComponent.ID) xid;
       RecipeComponent.CreatedAt := or_now c.(RecipeComponent.CreatedAt) now |}).
Qed.

Lemma wf_update_component c now s : wf s → wf (st (UpdateRecipeComponent c now s)).
Proof.
  intros []. destruct c as [c|]; [|done]. unfold UpdateRecipeComponent.
  destruct (recipeComponents s !! _) as [old|] eqn:Eo; [|done].
  pose proof (key_index_update _ _ _ _ old c wf_components0 Eo) as Hu. cbv zeta in *.
  case_match; split; simpl; done.
Qed.

Lemma wf_delete_component id now s : wf s → wf (st (DeleteRecipeComponent id now s)).
Proof.
  intros []. unfold DeleteRecipeComponent. destruct (recipeComponents s !! _) eqn:E; [|done].
  split; simpl; try done. by apply indexed_delete.
Qed.

Lemma wf_create_playbook p now xid s :
  wf s → allowed (CCreatePlaybook p now xid) s → wf (st (CreatePlaybook p now xid s)).
Proof.
  intros [] Ha. destruct p as [p|]; [|done]. unfold CreatePlaybook.
  destruct (playbooksByKey s !! _) eqn:E; [done|]. split; simpl; try done.
  rewrite copyPlaybook_id.
  by apply (indexed_insert Playbook.ID playbook_key _ _
    {| p with Playbook.ID := or_string p.(Playbook.ID) xid;
       Playbook.CreatedAt := or_now p.(Playbook.CreatedAt) now |}).
Qed.

Lemma wf_update_playbook p now s : wf s → wf (st (UpdatePlaybook p now s)).
Proof.
  intros []. destruct p as [p|]; [|done]. unfold UpdatePlaybook. rewrite copyPlaybook_id.
  destruct (playbooks s !! _) as [old|] eqn:Eo; [|done].
  pose proof (key_index_update _ _ _ _ old p wf_playbooks0 Eo) as Hu. cbv zeta in *.
  case_match; split; simpl; done.
Qed.

Lemma wf_delete_playbook id now s : wf s → wf (st (DeletePlaybook id now s)).
Proof.
  intros []. unfold DeletePlaybook. destruct (playbooks s !! _) eqn:E; [|done].
  split; simpl; try done. by apply indexed_delete.
Qed.

Lemma wf_create_activation a now xid s :
  wf s → allowed (CCreatePlaybookActivation a now xid) s → wf (st (CreatePlaybookActivation a now xid s)).
Proof.
  intros [] Ha. destruct a as [a|]; [|done]. simpl in Ha. unfold CreatePlaybookActivation.
  destruct (existsb _ _) eqn:E; [done|].
  apply (entry_first PlaybookActivation.ID PlaybookActivation.ProjectID _ _ a _ wf_projects0) in E.
  set (a' := {| a with PlaybookActivation.ID := _; PlaybookActivation.ActivatedAt := _ |}).
  split; simpl; try done.
  - by apply (filed_insert PlaybookActivation.ID _ a').
  - by apply (list_indexed_insert PlaybookActivation.ID project_of _ _ a').
  - by apply (list_indexed_insert PlaybookActivation.ID playbook_of _ _ a').
  - apply entry_length_insert; [|done]. by rewrite E.
Qed.

Lemma wf_delete_activation id now s : wf s → wf (st (DeletePlaybookActivation id now s)).
Proof.
  intros []. unfold DeletePlaybookActivation. destruct (playbookActivations s !! _) as [a|] eqn:E; [|done].
  pose proof (wf_activations0 _ _ E) as <-.
  split; simpl; try done.
  - by apply (filed_delete PlaybookActivation.ID).
  - by apply (list_indexed_delete PlaybookActivation.ID project_of).
  - by apply (list_indexed_delete PlaybookActivation.ID playbook_of).
  - apply entry_length_insert; [|done]. etrans; [apply remove_id_length|done].
Qed.

Lemma wf_create_binding b now xid s :
  wf s → allowed (CCreateVariableBinding b now xid) s → wf (st (CreateVariableBinding b now xid s)).
Proof.
  intros [] Ha. destruct b as [b|]; [|done]. simpl in Ha. unfold CreateVariableBinding.
  set (b' := {| b with PlaybookVariableBinding.ID := _ |}).
  split; simpl; try done.
  - by apply (filed_insert PlaybookVariableBinding.ID _ b').
  - by apply (list_indexed_insert PlaybookVariableBinding.ID activation_of _ _ b').
  - by apply (list_indexed_insert PlaybookVariableBinding.ID source_key _ _ b').
Qed.

Lemma wf_update_binding b now s :
  wf s → allowed (CUpdateVariableBinding b now) s → wf (st (UpdateVariableBinding b now s)).
Proof.
  intros [] Ha. destruct b as [b|]; [|done]. simpl in Ha. unfold UpdateVariableBinding.
  destruct (variableBindings s !! _) as [old|] eqn:E; [|done].
  pose proof (wf_bindings0 _ _ E) as Hid. pose proof (Ha _ eq_refl) as Hact.
  split; simpl; try done.
  - by apply (filed_insert PlaybookVariableBinding.ID).
  - eapply list_indexed_ext; [intros k; apply entry_alter_replace|].
    eapply list_indexed_replace; [done..| |done]. unfold activation_of. by rewrite Hact.
  - by apply (list_indexed_move PlaybookVariableBinding.ID source_key _ _ old b).
Qed.

Lemma wf_delete_binding id now s : wf s → wf (st (DeleteVariableBinding id now s)).
Proof.
  intros []. unfold DeleteVariableBinding. destruct (variableBindings s !! _) as [b|] eqn:E; [|done].
  pose proof (wf_bindings0 _ _ E) as <-.
  split; simpl; try done.
  - by apply (filed_delete PlaybookVariableBinding.ID).
  - by apply (list_indexed_delete PlaybookVariableBinding.ID activation_of).
  - by apply (list_indexed_delete PlaybookVariableBinding.ID source_key).
Qed.

Lemma wf_create_approval a now xid s :
  wf s → allowed (CCreateRawApproval a now xid) s → wf (st (CreateRawApproval a now xid s)).
Proof.
  intros [] Ha. destruct a as [a|]; [|done]. simpl in Ha. unfold CreateRawApproval.
  destruct (existsb _ _) eqn:E; [done|].
  apply (entry_first RawCommandApproval.ID RawCommandApproval.ComponentID _ _ a _ wf_by_component0) in E.
  set (a' := {| a with RawCommandApproval.ID := _; RawCommandApproval.ApprovedAt := _ |}).
  split; simpl; try done.
  - by apply (filed_insert RawCommandApproval.ID _ a').
  - by apply (list_indexed_insert RawCommandApproval.ID component_of _ _ a').
  - apply entry_length_insert; [|done]. by rewrite E.
Qed.

Lemma wf_delete_approval c now s : wf s → wf (st (DeleteRawApproval c now s)).
Proof.
  intros []. unfold DeleteRawApproval.
  destruct (entry (rawApprovalsByComponent s) c) as [|a [|a' l]] eqn:E; [done| |].
  2:{ pose proof (wf_one_approval0 c) as H. rewrite E in H. simpl in H. lia. }
  destruct (proj1 (proj2 (wf_by_component0 c) a)) as [Ha [= Hc]]; [rewrite E; left|].
  split; simpl; try done.
  - by apply (filed_delete RawCommandApproval.ID).
  - eapply list_indexed_ext; [|by apply (list_indexed_delete RawCommandApproval.ID component_of)].
    intros k. unfold index_remove, component_of. rewrite Hc, E. simpl. rewrite bool_decide_true by done.
    destruct (decide (c = k)) as [<-|]; [by rewrite entry_delete_eq, entry_insert_eq|].
    by rewrite entry_delete_ne, entry_insert_ne.
  - intros k. destruct (decide (c = k)) as [<-|]; [rewrite entry_delete_eq; simpl; lia|by rewrite entry_delete_ne].
Qed.

#[local] Create HintDb recipes.
#[local] Hint Resolve wf_create_component wf_update_component wf_delete_component wf_create_playbook
  wf_update_playbook wf_delete_playbook wf_create_activation wf_delete_activation wf_create_binding
  wf_update_binding wf_delete_binding wf_create_approval wf_delete_approval : recipes.

Lemma recipes_run_wf c s : wf s → allowed c s → wf (run c s).1.
Proof. intros Hw Ha. destruct c; simpl; eauto with recipes. Qed.

Lemma recipes_reachable_wf s : reachable s → wf s.
Proof. induction 1; [apply recipes_wf_empty|by apply recipes_run_wf]. Qed.

(** ** Loading *)

Lemma load_rows_ok {A} (file : A → State → State) l s :
  load_rows file (Ok <$> l) s = mkOut (foldl (λ s a, file a s) s l) [] (Ok tt).
Proof. revert s. induction l as [|a l IH]; intros s; [done|]. simpl. apply IH. Qed.

Lemma load_components_all l s :
  foldl (λ s c, load_component c s) s l =
  {| s with recipeComponents := file_all RecipeComponent.ID (recipeComponents s) l;
            recipeComponentsByKey := key_all component_key (recipeComponentsByKey s) l |}.
Proof. revert s. induction l as [|c l IH]; intros s; simpl; [by destruct s|by rewrite IH]. Qed.

Lemma load_playbooks_all l s :
  foldl (λ s p, load_playbook p s) s l =
  {| s with playbooks := file_all Playbook.ID (playbooks s) l;
            playbooksByKey := key_all playbook_key (playbooksByKey s) l |}.
Proof. revert s. induction l as [|c l IH]; intros s; simpl; [by destruct s|by rewrite IH]. Qed.

Lemma load_activations_all l s :
  foldl (λ s a, load_activation a s) s l =
  {| s with playbookActivations := file_all PlaybookActivation.ID (playbookActivations s) l;
            activationsByProject := index_all project_of (activationsByProject s) l;
            activationsByPlaybook := index_all playbook_of (activationsByPlaybook s) l |}.
Proof. revert s. induction l as [|c l IH]; intros s; simpl; [by destruct s|by rewrite IH]. Qed.

Lemma load_bindings_all l s :
  foldl (λ s b, load_binding b s) s l =
  {| s with variableBindings := file_all PlaybookVariableBinding.ID (variableBindings s) l;
            bindingsByActivation := index_all activation_of (bindingsByActivation s) l;
            bindingsBySourceRef := index_all source_key (bindingsBySourceRef s) l |}.
Proof. revert s. induction l as [|c l IH]; intros s; simpl; [by destruct s|by rewrite IH]. Qed.

Lemma load_approvals_all l s :
  foldl (λ s a, load_approval a s) s l =
  {| s with rawApprovals := file_all RawCommandApproval.ID (rawApprovals s) l;
            rawApprovalsByComponent := index_all component_of (rawApprovalsByComponent s) l |}.
Proof. revert s. induction l as [|c l IH]; intros s; simpl; [by destruct s|by rewrite IH]. Qed.

(** The five loaders, one after the other on an empty store. *)
Definition reload (cs : list RecipeComponent) (ps : list Playbook) (acts : list PlaybookActivation)
    (bs : list PlaybookVariableBinding) (rs : list RawCommandApproval) : State :=
  st (loadRawApprovalsFromDB (Ok <$> rs)
  (st (loadVariableBindingsFromDB (Ok <$> bs)
  (st (loadPlaybookActivationsFromDB (Ok <$> acts)
  (st (loadPlaybooksFromDB (Ok <$> ps)
  (st (loadRecipeComponentsFromDB (Ok <$> cs) empty))))))))).

Lemma reload_eq cs ps acts bs rs :
  reload cs ps acts bs rs =
  mkState (file_all RecipeComponent.ID ∅ cs) (key_all component_key ∅ cs)
    (file_all Playbook.ID ∅ ps) (key_all playbook_key ∅ ps)
    (file_all PlaybookActivation.ID ∅ acts) (index_all project_of ∅ acts) (index_all playbook_of ∅ acts)
    (file_all PlaybookVariableBinding.ID ∅ bs) (index_all activation_of ∅ bs) (index_all source_key ∅ bs)
    (file_all RawCommandApproval.ID ∅ rs) (index_all component_of ∅ rs).
Proof.
  unfold reload, loadRawApprovalsFromDB, loadVariableBindingsFromDB, loadPlaybookActivationsFromDB,
    loadPlaybooksFromDB, loadRecipeComponentsFromDB.
  rewrite !load_rows_ok. simpl.
  by rewrite load_approvals_all, load_bindings_all, load_activations_all, load_playbooks_all, load_components_all.
Qed.

Lemma reload_key_index {A} (ID key : A → string) byID byKey l :
  indexed ID key byID byKey → records_of byID l → key_all key ∅ l = byKey.
Proof.
  intros Hi Hr. pose proof (indexed_filed _ _ _ _ Hi) as Hf.
  eapply (indexed_unique ID key byID); [|done].
  rewrite <- (file_all_records ID byID l) by done.
  apply indexed_file_all; [apply indexed_empty|by eapply records_NoDup|by eapply records_keys_NoDup|].
  intros. by rewrite !lookup_empty.
Qed.

Lemma one_element_perm {A} (l k : list A) : (length k ≤ 1)%nat → l ≡ₚ k → l = k.
Proof.
  intros Hk Hp. destruct k as [|x [|]]; simpl in Hk; [by apply Permutation_nil_r in Hp| |lia].
  by apply Permutation_singleton_r in Hp.
Qed.

Lemma reload_list_index {A} (ID : A → string) key byID l :
  filed ID byID → records_of byID l → list_indexed ID key byID (index_all key ∅ l).
Proof.
  intros Hf Hr. rewrite <- (file_all_records ID byID l) at 1 by done.
  apply list_indexed_file_all; [apply list_indexed_empty|by eapply records_NoDup|].
  intros. by rewrite !lookup_empty.
Qed.

(** * Properties *)

(** Along every sequence of calls in which records are created under new identifiers
    and bindings stay with their activation, the indexes of the recipe tables agree:
    components and playbooks are found under exactly one key, activations under their
    project and their playbook, bindings under their activation and their source,
    approvals under their component, a project has at most one activation and a
    component at most one approval. *)
Theorem recipes_invariant s : reachable s → wf s.
Proof. apply recipes_reachable_wf. Qed.

Definition demo_content : ComponentContent :=
  ComponentContent.mk ["php artisan migrate --env={{env}}"] "" "" 0 false "" "" "" "" "" "" "" "".
Definition demo_component : RecipeComponent :=
  RecipeComponent.mk "c1" "user" "migrate" "v1.0.0" "Migrate" "" "hook" demo_content
    [VariableDefinition.mk "env" "string" true "" "" false] false true false 1.
Definition demo_playbook : Playbook :=
  Playbook.mk "p1" "user" "laravel" "v1.0.0" "Laravel" "" "laravel"
    [PlaybookStep.mk 1 "user:migrate:v1.0.0" ∅ "" "post_deploy"] [] [] [] 5 None false false None "" 1.
Definition demo_activation : PlaybookActivation := PlaybookActivation.mk "a1" "proj" "p1" 5 None [].
Definition demo_binding : PlaybookVariableBinding :=
  PlaybookVariableBinding.mk "b1" "a1" "env" "env" "APP_ENV" "".
Definition demo_calls : list call :=
  [CCreateRecipeComponent (Some demo_component) 1 "x1"; CCreatePlaybook (Some demo_playbook) 2 "x2";
   CCreateRawApproval (Some (RawCommandApproval.mk "r1" "c1" "admin" 3 "ok")) 3 "x3";
   CCreatePlaybookActivation (Some demo_activation) 5 "x4"; CCreateVariableBinding (Some demo_binding) 6 "x5"].
Definition demo : State := foldl (λ s c, (run c s).1) empty demo_calls.

Lemma recipes_demo_reachable : reachable demo.
Proof.
  unfold demo, demo_calls. cbn [foldl]. repeat (apply reachable_call; [|vm_compute; done]). constructor.
Qed.

Lemma recipes_invariant_witness : wf demo.
Proof. apply (recipes_invariant demo). apply recipes_demo_reachable. Defined.

(** A restart does not change what the recipe store answers: loading the records of a
    consistent store, in whatever order the database returns them, gives the same
    components, playbooks, activations, bindings and approvals under the same keys, and
    the same lists up to their order. *)
Theorem recipes_reload cs ps acts bs rs s :
  wf s → records_of (recipeComponents s) cs → records_of (playbooks s) ps →
  records_of (playbookActivations s) acts → records_of (variableBindings s) bs →
  records_of (rawApprovals s) rs →
  let s' := reload cs ps acts bs rs in
  wf s' ∧
  recipeComponents s' = recipeComponents s ∧ recipeComponentsByKey s' = recipeComponentsByKey s ∧
  playbooks s' = playbooks s ∧ playbooksByKey s' = playbooksByKey s ∧
  playbookActivations s' = playbookActivations s ∧ variableBindings s' = variableBindings s ∧
  rawApprovals s' = rawApprovals s ∧
  (∀ p, GetPlaybookActivation p s' = GetPlaybookActivation p s) ∧
  (∀ c, GetRawApproval c s' = GetRawApproval c s) ∧
  (∀ k, entry (activationsByPlaybook s') k ≡ₚ entry (activationsByPlaybook s) k) ∧
  (∀ k, entry (bindingsByActivation s') k ≡ₚ entry (bindingsByActivation s) k) ∧
  (∀ k, entry (bindingsBySourceRef s') k ≡ₚ entry (bindingsBySourceRef s) k).
Proof.
  intros [] Hcs Hps Hacts Hbs Hrs. cbv zeta. rewrite reload_eq.
  pose proof (indexed_filed _ _ _ _ wf_components0) as Hfc.
  pose proof (indexed_filed _ _ _ _ wf_playbooks0) as Hfp.
  rewrite !file_all_records with (byID := recipeComponents s), !file_all_records with (byID := playbooks s),
    !file_all_records with (byID := playbookActivations s), !file_all_records with (byID := variableBindings s),
    !file_all_records with (byID := rawApprovals s) by done.
  rewrite (reload_key_index _ _ _ _ _ wf_components0 Hcs), (reload_key_index _ _ _ _ _ wf_playbooks0 Hps).
  pose proof (reload_list_index _ project_of _ _ wf_activations0 Hacts) as Hpr.
  pose proof (reload_list_index _ playbook_of _ _ wf_activations0 Hacts) as Hpb.
  pose proof (reload_list_index _ activation_of _ _ wf_bindings0 Hbs) as Hba.
  pose proof (reload_list_index _ source_key _ _ wf_bindings0 Hbs) as Hbr.
  pose proof (reload_list_index _ component_of _ _ wf_approvals0 Hrs) as Hrc.
  assert (∀ k, entry (index_all project_of ∅ acts) k = entry (activationsByProject s) k) as Ep.
  { intros k. by apply one_element_perm, (list_indexed_unique _ _ _ _ _ k Hpr wf_projects0). }
  assert (∀ k, entry (index_all component_of ∅ rs) k = entry (rawApprovalsByComponent s) k) as Er.
  { intros k. by apply one_element_perm, (list_indexed_unique _ _ _ _ _ k Hrc wf_by_component0). }
  split_and!; try done.
  - split; simpl; try done; intros k; by rewrite ?Ep, ?Er.
  - intros p. unfold GetPlaybookActivation. simpl. by rewrite Ep.
  - intros c. unfold GetRawApproval. simpl. by rewrite Er.
  - intros k. by eapply list_indexed_unique.
  - intros k. by eapply list_indexed_unique.
  - intros k. by eapply list_indexed_unique.
Qed.

Lemma recipes_reload_witness :
  GetPlaybookActivation "proj" (reload [demo_component] [demo_playbook] [demo_activation] [demo_binding]
    [RawCommandApproval.mk "r1" "c1" "admin" 3 "ok"]) = Ok demo_activation.
Proof.
  destruct (recipes_reload [demo_component] [demo_playbook] [demo_activation] [demo_binding]
    [RawCommandApproval.mk "r1" "c1" "admin" 3 "ok"] demo (recipes_reachable_wf _ recipes_demo_reachable)
    ltac:(vm_compute; reflexivity) ltac:(vm_compute; reflexivity) ltac:(vm_compute; reflexivity)
    ltac:(vm_compute; reflexivity) ltac:(vm_compute; reflexivity))
    as (_ & _ & _ & _ & _ & _ & _ & _ & Hg & _).
  rewrite Hg. vm_compute. reflexivity.
Defined.

Lemma last_singleton {A} (l : list A) (a : A) : (length l ≤ 1)%nat → last l = Some a ↔ a ∈ l.
Proof. destruct l as [|x [|]]; simpl; intros; [set_solver|set_solver|lia]. Qed.

Lemma bindingSourceKey_inj t r t' r' :
  free_of colon t = true → free_of colon t' = true →
  bindingSourceKey t r = bindingSourceKey t' r' → t = t' ∧ r = r'.
Proof. apply join_inj. Qed.

Lemma recipe_queries_lemma s :
  wf s →
  (∀ id c, GetRecipeComponentByID id s = Ok c ↔
     c.(RecipeComponent.ID) = id ∧
     GetRecipeComponent c.(RecipeComponent.Namespace) c.(RecipeComponent.Slug) c.(RecipeComponent.Version) s = Ok c) ∧
  (∀ id p, GetPlaybookByID id s = Ok p ↔
     p.(Playbook.ID) = id ∧
     GetPlaybook p.(Playbook.Namespace) p.(Playbook.Slug) p.(Playbook.Version) s = Ok p) ∧
  (∀ project a, GetPlaybookActivation project s = Ok a ↔
     playbookActivations s !! a.(PlaybookActivation.ID) = Some a ∧ a.(PlaybookActivation.ProjectID) = project) ∧
  (∀ component a, GetRawApproval component s = Ok a ↔
     rawApprovals s !! a.(RawCommandApproval.ID) = Some a ∧ a.(RawCommandApproval.ComponentID) = component) ∧
  (∀ typ ref, typ = SourceTypeEnv ∨ typ = SourceTypeSecret → ref ≠ "" → ∃ bs,
     FindBindingsBySourceRef typ ref s = Ok bs ∧ NoDup (PlaybookVariableBinding.ID <$> bs) ∧
     ∀ b, free_of colon b.(PlaybookVariableBinding.SourceType) = true →
       (b ∈ bs ↔ variableBindings s !! b.(PlaybookVariableBinding.ID) = Some b ∧
                 b.(PlaybookVariableBinding.SourceType) = typ ∧
                 b.(PlaybookVariableBinding.SourceRef) = ref)).
Proof.
  intros Hw. split_and!.
  - intros id c. unfold GetRecipeComponentByID, GetRecipeComponent.
    destruct (wf_components s Hw) as [H1 H2]. fold (component_key c). split.
    + destruct (recipeComponents s !! id) as [c'|] eqn:E; [|done]. intros [= ->].
      destruct (H1 _ _ E) as [-> ->]. done.
    + intros [<- Hk]. destruct (recipeComponentsByKey s !! _) as [c'|] eqn:E; [|done]. injection Hk as ->.
      destruct (H2 _ _ E) as [_ ->]. done.
  - intros id p. unfold GetPlaybookByID, GetPlaybook.
    destruct (wf_playbooks s Hw) as [H1 H2]. fold (playbook_key p). split.
    + destruct (playbooks s !! id) as [p'|] eqn:E; [|done]. rewrite copyPlaybook_id. intros [= ->].
      destruct (H1 _ _ E) as [-> ->]. by rewrite copyPlaybook_id.
    + intros [<- Hk]. destruct (playbooksByKey s !! _) as [p'|] eqn:E; [|done].
      rewrite copyPlaybook_id in Hk. injection Hk as ->.
      destruct (H2 _ _ E) as [_ ->]. by rewrite copyPlaybook_id.
  - intros p a. unfold GetPlaybookActivation. pose proof (last_singleton _ a (wf_one_activation s Hw p)) as Hl.
    rewrite (proj2 (wf_projects s Hw p)) in Hl. unfold project_of in Hl.
    destruct (last _); naive_solver congruence.
  - intros c a. unfold GetRawApproval. pose proof (last_singleton _ a (wf_one_approval s Hw c)) as Hl.
    rewrite (proj2 (wf_by_component s Hw c)) in Hl. unfold component_of in Hl.
    destruct (last _); naive_solver congruence.
  - intros typ ref Ht Hr. eexists. split; [done|]. destruct (wf_sources s Hw (bindingSourceKey typ ref)) as [Hd He].
    split; [done|]. intros b Hb. rewrite He. unfold source_key. split.
    + intros [? Hk]. destruct (_ && _); [|done]. injection Hk as Hk.
      apply bindingSourceKey_inj in Hk; [naive_solver|done|]. by destruct Ht as [->| ->].
    + intros (? & -> & ->). split; [done|]. rewrite !bool_decide_false; [done|done|].
      by destruct Ht as [->| ->].
Qed.

(** What a consistent recipe store answers.  A component or playbook found by
    identifier is found by its key and the other way round; a project's activation and a
    component's approval are the one record that names it; the usages of an environment
    key or secret are exactly the bindings that take their value from it, however their
    sources are named. *)
Theorem recipe_queries s :
  wf s →
  (∀ id c, GetRecipeComponentByID id s = Ok c ↔
     c.(RecipeComponent.ID) = id ∧
     GetRecipeComponent c.(RecipeComponent.Namespace) c.(RecipeComponent.Slug) c.(RecipeComponent.Version) s = Ok c) ∧
  (∀ id p, GetPlaybookByID id s = Ok p ↔
     p.(Playbook.ID) = id ∧
     GetPlaybook p.(Playbook.Namespace) p.(Playbook.Slug) p.(Playbook.Version) s = Ok p) ∧
  (∀ project a, GetPlaybookActivation project s = Ok a ↔
     playbookActivations s !! a.(PlaybookActivation.ID) = Some a ∧ a.(PlaybookActivation.ProjectID) = project) ∧
  (∀ component a, GetRawApproval component s = Ok a ↔
     rawApprovals s !! a.(RawCommandApproval.ID) = Some a ∧ a.(RawCommandApproval.ComponentID) = component) ∧
  (∀ typ ref, typ = SourceTypeEnv ∨ typ = SourceTypeSecret → ref ≠ "" → ∃ bs,
     FindBindingsBySourceRef typ ref s = Ok bs ∧ NoDup (PlaybookVariableBinding.ID <$> bs) ∧
     ∀ b, free_of colon b.(PlaybookVariableBinding.SourceType) = true →
       (b ∈ bs ↔ variableBindings s !! b.(PlaybookVariableBinding.ID) = Some b ∧
                 b.(PlaybookVariableBinding.SourceType) = typ ∧
                 b.(PlaybookVariableBinding.SourceRef) = ref)).
Proof. apply recipe_queries_lemma. Qed.

Lemma recipe_queries_witness : GetRawApproval "c1" demo = Ok (RawCommandApproval.mk "r1" "c1" "admin" 3 "ok").
Proof.
  apply (proj1 (proj2 (proj2 (proj2 (recipe_queries demo (recipes_reachable_wf _ recipes_demo_reachable)))))).
  vm_compute. done.
Defined.

(** ** Failures *)

Lemma insert_delete_back {A} (m : gmap string A) k a : m !! k = Some a → <[k := a]> (delete k m) = m.
Proof. intros. by apply insert_delete_id. Qed.

(** The call returned an error. *)
Definition failed {A} (o : Out A) : bool := match ret o with Ok _ => false | _ => true end.

Definition run_failed (c : call) (s : State) : bool :=
  match c with
  | CCreateRecipeComponent c now xid => failed (CreateRecipeComponent c now xid s)
  | CUpdateRecipeComponent c now => failed (UpdateRecipeComponent c now s)
  | CDeleteRecipeComponent id now => failed (DeleteRecipeComponent id now s)
  | CCreatePlaybook p now xid => failed (CreatePlaybook p now xid s)
  | CUpdatePlaybook p now => failed (UpdatePlaybook p now s)
  | CDeletePlaybook id now => failed (DeletePlaybook id now s)
  | CCreatePlaybookActivation a now xid => failed (CreatePlaybookActivation a now xid s)
  | CDeletePlaybookActivation id now => failed (DeletePlaybookActivation id now s)
  | CCreateVariableBinding b now xid => failed (CreateVariableBinding b now xid s)
  | CUpdateVariableBinding b now => failed (UpdateVariableBinding b now s)
  | CDeleteVariableBinding id now => failed (DeleteVariableBinding id now s)
  | CCreateRawApproval a now xid => failed (CreateRawApproval a now xid s)
  | CDeleteRawApproval component now => failed (DeleteRawApproval component now s)
  end.

(** A call on the recipe store that returns an error has changed nothing and queued
    no write, also where an update has already taken the old key out of its index when
    it finds the new one in use. *)
Theorem failed_recipe_calls c s :
  wf s → run_failed c s = true → run c s = (s, []).
Proof.
  intros Hw. destruct c as [c now xid|c now|id now|p now xid|p now|id now|a now xid|id now|b now xid
    |b now|id now|a now xid|id now]; simpl; unfold effect, failed;
    try (destruct c as [c|]); try (destruct p as [p|]); try (destruct a as [a|]); try (destruct b as [b|]);
    try done;
    unfold CreateRecipeComponent, DeleteRecipeComponent, CreatePlaybook, DeletePlaybook,
      CreatePlaybookActivation, DeletePlaybookActivation, CreateVariableBinding, UpdateVariableBinding,
      DeleteVariableBinding, CreateRawApproval, DeleteRawApproval; cbv zeta;
    try match goal with
    | |- context [match ?m !! ?k with _ => _ end] => destruct (m !! k); done
    | |- context [if existsb ?p ?l then _ else _] => destruct (existsb p l); done
    | |- context [match entry ?m ?k with _ => _ end] => destruct (entry m k); done
    end.
  - unfold UpdateRecipeComponent. destruct (recipeComponents s !! _) as [old|] eqn:Eo; [|done].
    destruct (bool_decide_reflect (component_key old = component_key c)); simpl; [done|].
    destruct (delete _ _ !! _); [|done]. simpl. intros _.
    rewrite insert_delete_back; [by destruct s|]. by apply (proj1 (wf_components s Hw) _ _ Eo).
  - unfold UpdatePlaybook. destruct (playbooks s !! _) as [old|] eqn:Eo; [|done].
    destruct (bool_decide_reflect (playbook_key old = playbook_key p)); simpl; [done|].
    destruct (delete _ _ !! _); [|done]. simpl. intros _.
    rewrite insert_delete_back; [by destruct s|]. by apply (proj1 (wf_playbooks s Hw) _ _ Eo).
Qed.

Definition demo_two : State :=
  (run (CCreateRecipeComponent (Some {| demo_component with RecipeComponent.ID := "c2";
     RecipeComponent.Version := "v2.0.0" |}) 7 "x6") demo).1.

Lemma failed_recipe_calls_witness :
  run (CUpdateRecipeComponent (Some {| demo_component with RecipeComponent.Version := "v2.0.0" |}) 8) demo_two =
  (demo_two, []).
Proof.
  apply (failed_recipe_calls (CUpdateRecipeComponent
    (Some {| demo_component with RecipeComponent.Version := "v2.0.0" |}) 8) demo_two);
    [|vm_compute; reflexivity].
  apply recipes_run_wf; [apply recipes_reachable_wf, recipes_demo_reachable|vm_compute; reflexivity].
Defined.

(** ** Writes *)

Definition queued_kinds : list (WriteOpType * string * shape) :=
  [(WriteOpInsert, "recipe_components", SPtr TRecipeComponent);
   (WriteOpUpdate, "recipe_components", SPtr TRecipeComponent);
   (WriteOpDelete, "recipe_components", SString);
   (WriteOpInsert, "playbooks", SPtr TPlaybook);
   (WriteOpUpdate, "playbooks", SPtr TPlaybook);
   (WriteOpDelete, "playbooks", SString);
   (WriteOpInsert, "playbook_activations", SPtr TPlaybookActivation);
   (WriteOpDelete, "playbook_activations", SString);
   (WriteOpInsert, "playbook_variable_bindings", SPtr TPlaybookVariableBinding);
   (WriteOpUpdate, "playbook_variable_bindings", SPtr TPlaybookVariableBinding);
   (WriteOpDelete, "playbook_variable_bindings", SString);
   (WriteOpInsert, "raw_command_approvals", SPtr TRawCommandApproval);
   (WriteOpDelete, "raw_command_approvals", SString)].

Lemma recipes_run_queued c s ch op :
  (ch, op) ∈ (run c s).2 →
  ch = coreWrites ∧ (op.(WriteOp.Type_), op.(WriteOp.Table), shape_of op.(WriteOp.Data_)) ∈ queued_kinds.
Proof.
  assert (∀ now typ tbl data, (typ, tbl, shape_of data) ∈ queued_kinds →
            (ch, op) ∈ queueWrite coreWrites now typ tbl data →
            ch = coreWrites ∧
            (op.(WriteOp.Type_), op.(WriteOp.Table), shape_of op.(WriteOp.Data_)) ∈ queued_kinds) as Hone.
  { intros now typ tbl data Hk Hin. apply list_elem_of_singleton in Hin. by injection Hin as -> ->. }
  destruct c as [[]| []| |[]| []| |[]| |[]| []| |[]|]; simpl;
    unfold CreateRecipeComponent, UpdateRecipeComponent, DeleteRecipeComponent, CreatePlaybook, UpdatePlaybook,
      DeletePlaybook, CreatePlaybookActivation, DeletePlaybookActivation, CreateVariableBinding,
      UpdateVariableBinding, DeleteVariableBinding, CreateRawApproval, DeleteRawApproval;
    repeat (case_match; simpl); intros Hin; try (by apply not_elem_of_nil in Hin);
    try (eapply Hone; [|exact Hin]; unfold queued_kinds; repeat first [left|right]).
  apply elem_of_cons in Hin as [Hin|Hin];
    [apply list_elem_of_singleton in Hin|apply list_elem_of_bind in Hin as (a & Hin & _)];
    (eapply Hone; [|exact Hin]; unfold queued_kinds; repeat first [left|right]).
Qed.

(** Every insertion and update of the recipe tables can be written to the database,
    and no deletion can: the deletions carry the identifier as a string where the
    executors take an integer, so each fails the batch it is in.  A deleted component,
    playbook, activation, binding or approval is back after a restart. *)
Theorem recipe_writes c s ch op :
  (ch, op) ∈ (run c s).2 →
  ch = coreWrites ∧ accepted op = negb (bool_decide (op.(WriteOp.Type_) = WriteOpDelete)).
Proof.
  intros Hin. destruct (recipes_run_queued c s ch op Hin) as [-> Hk]. split; [done|].
  destruct op as [typ tbl data now]; simpl in *. unfold queued_kinds in Hk.
  repeat (apply elem_of_cons in Hk as [[= -> -> Hs]|Hk]; [destruct data; try done; simpl in Hs;
    try injection Hs as ->; vm_compute; reflexivity|]).
  by apply not_elem_of_nil in Hk.
Qed.

Lemma recipe_writes_witness : accepted (NewWriteOp 9 WriteOpDelete "raw_command_approvals" (DString "r1")) = false.
Proof.
  exact (proj2 (recipe_writes (CDeleteRawApproval "c1" 9) demo coreWrites
           (NewWriteOp 9 WriteOpDelete "raw_command_approvals" (DString "r1")) ltac:(vm_compute; left))).
Defined.

End Recipes.
