(* ===== verification/Semver.v ===== *)
(** Versions ([src/internal/validation/semver.go]) and the sort of version lists
    ([sortComponentsBySemverDesc] and [sortPlaybooksBySemverDesc] of
    [src/internal/services/recipes]).

    The comparison itself is that of [golang.org/x/mod/semver], which is the class
    [SemverLib]: its laws are what the documentation of that package says ([Compare]
    compares by precedence, [Sort] sorts by [Compare]). *)

From S2P Require Import Prelude GoStrings GoSort.

#[local] Open Scope string_scope.
#[local] Open Scope list_scope.
#[local] Open Scope Z_scope.

Class SemverLib := {
  IsValid : string → bool;
  Compare : string → string → Z;
  Sort : list string → list string;
  Compare_antisym : ∀ v w, Compare w v = - Compare v w;
  Compare_trans : ∀ u v w, Compare u v ≤ 0 → Compare v w ≤ 0 → Compare u w ≤ 0;
  Sort_perm : ∀ l, Sort l ≡ₚ l;
  Sort_sorted : ∀ l, StronglySorted (λ v w, Compare v w ≤ 0) (Sort l)
}.

(** * Versions *)

Definition NormalizeSemver (v : string) : string := if HasPrefix v "v" then v else "v" +:+ v.

(** The file's functions, over the library. *)
Section semver.
Context `{SemverLib}.

Definition ValidateSemver (v : string) : option string :=
  if IsValid (NormalizeSemver v) then None else Some ("invalid semver: " +:+ v).

Definition CompareSemver (v1 v2 : string) : Z := Compare (NormalizeSemver v1) (NormalizeSemver v2).

Definition LatestSemver (versions : list string) : string :=
  match versions with
  | [] => ""
  | _ => default "" (last (Sort (NormalizeSemver <$> versions)))
  end.

(** [result[len-1-i] = normalized[i]]. *)
Definition SortSemverDesc (versions : list string) : list string :=
  reverse (Sort (NormalizeSemver <$> versions)).

Definition SortSemverAsc (versions : list string) : list string :=
  Sort (NormalizeSemver <$> versions).

(** * The bubble sort of version lists *)

(** [for j := 0; j < n; j++ { if lower(l[j], l[j+1]) { swap } }] *)
Fixpoint bubble_pass {A} (lower : A → A → bool) (n : nat) (l : list A) : list A :=
  match n, l with
  | S n', x :: y :: r =>
      if lower x y then y :: bubble_pass lower n' (x :: r) else x :: bubble_pass lower n' (y :: r)
  | _, _ => l
  end.

(** The passes of [for i := 0; i < len-1; i++], of [len-i-1] steps each: from [k] steps
    down to one. *)
Fixpoint bubble_passes {A} (lower : A → A → bool) (k : nat) (l : list A) : list A :=
  match k with
  | O => l
  | S k' => bubble_passes lower k' (bubble_pass lower k l)
  end.

Definition bubble_sort {A} (lower : A → A → bool) (l : list A) : list A :=
  bubble_passes lower (length l - 1) l.

(** [CompareSemver(x.Version, y.Version) < 0], for a record with a version. *)
Definition lower_version {A} (Version : A → string) (x y : A) : bool :=
  CompareSemver (Version x) (Version y) <? 0.

Definition sort_by_semver_desc {A} (Version : A → string) (l : list A) : list A :=
  bubble_sort (lower_version Version) l.

(** * Reference: stable insertion *)

(** [x] in front of the first element that is not higher. *)
Fixpoint insert_desc {A} (lower : A → A → bool) (x : A) (l : list A) : list A :=
  match l with
  | [] => [x]
  | y :: r => if lower x y then y :: insert_desc lower x r else x :: y :: r
  end.

Definition insertion_desc {A} (lower : A → A → bool) (l : list A) : list A :=
  foldr (insert_desc lower) [] l.

(** * Lemmas *)

Section bubble.
Context {A : Type} (lower : A → A → bool) (Hlower : less_order lower).
Implicit Types l : list A.

Abbreviation ge := (λ x y, lower x y = false).

Lemma bubble_pass_split n l1 l2 :
  length l1 = S n →
  ∃ l1' m, bubble_pass lower n (l1 ++ l2) = l1' ++ m :: l2 ∧ length l1' = n ∧
    l1' ++ [m] ≡ₚ l1 ∧ Forall (λ x, ge x m) l1'.
Proof using Hlower.
  destruct Hlower as [Ha Ht]. revert l1. induction n as [|n IH]; intros l1 Hl.
  { destruct l1 as [|x [|]]; simpl in Hl; try lia. by exists [], x. }
  destruct l1 as [|x [|y r]]; simpl in Hl; try lia. cbn [bubble_pass app].
  destruct (lower x y) eqn:E.
  - destruct (IH (x :: r) ltac:(simpl; lia)) as (l1' & m & Heq & Hlen & Hp & Hf).
    cbn [app] in Heq. exists (y :: l1'), m. cbn [app]. rewrite Heq. split_and!; [done|simpl; lia|by rewrite Hp, Permutation_swap|].
    constructor; [|done]. assert (x ∈ l1' ++ [m]) as Hx by (rewrite Hp; left).
    apply elem_of_app in Hx as [Hx|Hx%list_elem_of_singleton].
    + rewrite Forall_forall in Hf. apply (Ht _ x); [by apply Ha|by apply Hf].
    + subst. by apply Ha.
  - destruct (IH (y :: r) ltac:(simpl; lia)) as (l1' & m & Heq & Hlen & Hp & Hf).
    cbn [app] in Heq. exists (x :: l1'), m. cbn [app]. rewrite Heq. split_and!; [done|simpl; lia|by rewrite Hp|].
    constructor; [|done]. assert (y ∈ l1' ++ [m]) as Hy by (rewrite Hp; left).
    apply elem_of_app in Hy as [Hy|Hy%list_elem_of_singleton].
    + rewrite Forall_forall in Hf. apply (Ht _ y); [done|by apply Hf].
    + by subst.
Qed.

Lemma bubble_passes_sorted k l1 l2 :
  length l1 = S k → StronglySorted ge l2 → (∀ x y, x ∈ l1 → y ∈ l2 → ge x y) →
  StronglySorted ge (bubble_passes lower k (l1 ++ l2)) ∧ bubble_passes lower k (l1 ++ l2) ≡ₚ l1 ++ l2.
Proof using Hlower.
  revert l1 l2. induction k as [|k IH]; intros l1 l2 Hl Hs Hge.
  { destruct l1 as [|x [|]]; simpl in Hl; try lia. simpl. split; [|done].
    constructor; [done|]. apply Forall_forall. intros y Hy. apply Hge; [left|done]. }
  cbn [bubble_passes]. destruct (bubble_pass_split (S k) l1 l2 Hl) as (l1' & m & Heq & Hlen & Hp & Hf).
  rewrite Heq. destruct (IH l1' (m :: l2)) as [HS HP]; [done| | |].
  - constructor; [done|]. apply Forall_forall. intros y Hy. apply Hge; [|done]. rewrite <- Hp. set_solver.
  - intros x y Hx. rewrite elem_of_cons. rewrite Forall_forall in Hf.
    intros [->|Hy]; [by apply Hf|]. apply Hge; [|done]. rewrite <- Hp. set_solver.
  - split; [done|]. rewrite HP, <- Hp, <- (assoc_L (++)). done.
Qed.

Lemma bubble_sort_spec l : StronglySorted ge (bubble_sort lower l) ∧ bubble_sort lower l ≡ₚ l.
Proof using Hlower.
  unfold bubble_sort. destruct l as [|x l]; [split; [constructor|done]|].
  pose proof (bubble_passes_sorted (length (x :: l) - 1) (x :: l) []) as Hb.
  rewrite app_nil_r in Hb. apply Hb; [simpl; lia|constructor|]. set_solver.
Qed.

(** Elements of equal rank keep their order: the sublist of those of one rank is the
    same before and after. *)
Definition same_rank (x y : A) : bool := negb (lower x y) && negb (lower y x).
Definition of_rank (x : A) (l : list A) : list A := filter (λ y, same_rank x y = true) l.

Lemma same_rank_lower x y z : same_rank x y = true → same_rank x z = true → lower y z = false.
Proof using Hlower.
  destruct Hlower as [_ Ht]. unfold same_rank. rewrite !andb_true_iff, !negb_true_iff.
  intros [H1 H2] [H3 H4]. by apply (Ht _ x).
Qed.

Lemma of_rank_swap z x y l : lower x y = true → of_rank z (x :: y :: l) = of_rank z (y :: x :: l).
Proof using Hlower.
  intros E. unfold of_rank. rewrite !filter_cons. repeat case_decide; try done.
  by rewrite (same_rank_lower z x y) in E.
Qed.

Lemma of_rank_cons z x l l' : of_rank z l = of_rank z l' → of_rank z (x :: l) = of_rank z (x :: l').
Proof. unfold of_rank. rewrite !filter_cons. intros ->. done. Qed.

Lemma bubble_pass_stable z n l : of_rank z (bubble_pass lower n l) = of_rank z l.
Proof using Hlower.
  revert l. induction n as [|n IH]; intros [|x [|y r]]; try done. cbn [bubble_pass].
  destruct (lower x y) eqn:E.
  - rewrite (of_rank_swap z x y r E). apply of_rank_cons, IH.
  - apply of_rank_cons, IH.
Qed.

Lemma bubble_sort_stable z l : of_rank z (bubble_sort lower l) = of_rank z l.
Proof using Hlower.
  unfold bubble_sort. generalize (length l - 1)%nat. intros k. revert l.
  induction k as [|k IH]; intros l; [done|]. cbn [bubble_passes]. by rewrite IH, bubble_pass_stable.
Qed.

Lemma insert_desc_perm x l : insert_desc lower x l ≡ₚ x :: l.
Proof. induction l as [|y r IH]; simpl; [done|]. case_match; [by rewrite IH, Permutation_swap|done]. Qed.

Lemma insert_desc_sorted x l : StronglySorted ge l → StronglySorted ge (insert_desc lower x l).
Proof using Hlower.
  destruct Hlower as [Ha Ht]. induction 1 as [|y r Hs IH Hy]; simpl; [repeat constructor|].
  destruct (lower x y) eqn:E.
  - constructor; [done|]. rewrite insert_desc_perm. constructor; [by apply Ha|done].
  - constructor; [by constructor|]. constructor; [done|]. eapply Forall_impl; [done|]. intros z Hz. by apply (Ht _ y).
Qed.

Lemma insert_desc_stable z x l : of_rank z (insert_desc lower x l) = of_rank z (x :: l).
Proof using Hlower.
  induction l as [|y r IH]; simpl; [done|]. destruct (lower x y) eqn:E; [|done].
  rewrite (of_rank_swap z x y r E). by apply of_rank_cons.
Qed.

Lemma insertion_desc_spec l :
  StronglySorted ge (insertion_desc lower l) ∧ insertion_desc lower l ≡ₚ l ∧
  ∀ z, of_rank z (insertion_desc lower l) = of_rank z l.
Proof using Hlower.
  induction l as [|x l (IH1 & IH2 & IH3)]; simpl; [split_and!; [constructor|done|done]|].
  split_and!; [by apply insert_desc_sorted|by rewrite insert_desc_perm, IH2|].
  intros z. rewrite insert_desc_stable. by apply of_rank_cons.
Qed.

(** A sorted list is determined by its elements of each rank. *)
Lemma sorted_by_rank l k :
  StronglySorted ge l → StronglySorted ge k → l ≡ₚ k → (∀ z, of_rank z l = of_rank z k) → l = k.
Proof using Hlower.
  destruct Hlower as [Ha Ht]. intros Hl. revert k.
  induction Hl as [|x l Hl IH Hx]; intros k Hk Hp Hr.
  { symmetry in Hp. apply Permutation_nil_r in Hp. done. }
  destruct Hk as [|y k Hk Hy]; [by apply Permutation_nil_r in Hp|].
  assert (same_rank x x = true) as Hxx.
  { unfold same_rank. destruct (lower x x) eqn:E; [|done]. pose proof (Ha _ _ E). congruence. }
  assert (same_rank x y = true) as Hxy.
  { assert (x ∈ y :: k) as Hxk by (rewrite <- Hp; left).
    assert (y ∈ x :: l) as Hyl by (rewrite Hp; left).
    rewrite elem_of_cons in Hxk, Hyl. destruct Hxk as [<-|Hxk]; [done|]. destruct Hyl as [->|Hyl]; [done|].
    rewrite Forall_forall in Hx, Hy. unfold same_rank. rewrite (Hx _ Hyl), (Hy _ Hxk). done. }
  pose proof (Hr x) as E. unfold of_rank in E. rewrite !filter_cons, !decide_True in E by done.
  injection E as -> _. f_equal. apply IH; [done|by apply Permutation_cons_inv in Hp|].
  intros z. pose proof (Hr z) as E. unfold of_rank in *. rewrite !filter_cons in E.
  case_decide; [by injection E|done].
Qed.

Lemma bubble_is_insertion l : bubble_sort lower l = insertion_desc lower l.
Proof using Hlower.
  destruct (bubble_sort_spec l) as [H1 H2]. destruct (insertion_desc_spec l) as (H3 & H4 & H5).
  apply sorted_by_rank; [done|done|by rewrite H2, H4|]. intros z. by rewrite bubble_sort_stable, H5.
Qed.

End bubble.

Lemma lower_version_order {A} (Version : A → string) : less_order (lower_version Version).
Proof.
  unfold lower_version, CompareSemver. split.
  - intros x y. rewrite (Compare_antisym (NormalizeSemver (Version x))). lia.
  - intros x y z. rewrite !Z.ltb_ge.
    set (u := NormalizeSemver (Version x)). set (v := NormalizeSemver (Version y)).
    set (w := NormalizeSemver (Version z)).
    intros H1 H2. pose proof (Compare_trans w v u). pose proof (Compare_antisym u v).
    pose proof (Compare_antisym v w). pose proof (Compare_antisym u w). lia.
Qed.

Lemma NormalizeSemver_idem v : NormalizeSemver (NormalizeSemver v) = NormalizeSemver v.
Proof.
  unfold NormalizeSemver. destruct (HasPrefix v "v") eqn:E; [by rewrite E|]. by destruct v.
Qed.

Lemma Sort_last_max l v : last (Sort l) = Some v → v ∈ l ∧ ∀ w, w ∈ l → Compare w v ≤ 0.
Proof.
  intros Hl. apply last_Some in Hl as [l' Hl'].
  pose proof (Sort_perm l) as Hp. pose proof (Sort_sorted l) as Hs. rewrite Hl' in Hp, Hs.
  split; [rewrite <- Hp; set_solver|]. intros w Hw. rewrite <- Hp, elem_of_app, list_elem_of_singleton in Hw.
  destruct Hw as [Hw| ->].
  - apply StronglySorted_app in Hs as [Hs _]. apply Hs; [done|left].
  - pose proof (Compare_antisym v v). lia.
Qed.

Lemma LatestSemver_spec versions :
  versions ≠ [] → ∃ v, v ∈ versions ∧ LatestSemver versions = NormalizeSemver v ∧
    ∀ w, w ∈ versions → CompareSemver w v ≤ 0.
Proof.
  intros Hne. unfold LatestSemver, CompareSemver. destruct versions as [|v0 vs]; [done|].
  destruct (last (Sort (NormalizeSemver <$> v0 :: vs))) as [m|] eqn:E.
  - apply Sort_last_max in E as [Hin Hmax]. apply list_elem_of_fmap in Hin as (v & -> & Hv).
    exists v. split_and!; [done|done|]. intros w Hw. apply Hmax. by apply list_elem_of_fmap_2.
  - apply last_None in E. pose proof (Sort_perm (NormalizeSemver <$> v0 :: vs)) as Hp. rewrite E in Hp.
    symmetry in Hp. by apply Permutation_nil_r in Hp.
Qed.

End semver.

(** * A library to run the definitions with *)

(** Versions [vA.B.C] without further parts, ranked by their numbers (below a million);
    other strings are invalid and rank lowest. *)
Definition plain_rank (v : string) : Z :=
  match v with
  | String c rest =>
      match split_on (Ascii.ascii_of_nat 46) rest with
      | [a; b; p] =>
          match Atoi a, Atoi b, Atoi p with
          | Some a, Some b, Some p => (a * 1000000 + b) * 1000000 + p
          | _, _, _ => -1
          end
      | _ => -1
      end
  | EmptyString => -1
  end.

Definition plain_compare (v w : string) : Z := Z.sgn (plain_rank v - plain_rank w).

#[program] Definition plain_semver : SemverLib := {|
  IsValid := λ v, (0 <=? plain_rank v) && HasPrefix v "v";
  Compare := plain_compare;
  Sort := exchange_sort (λ v w, plain_compare v w <? 0)
|}.
Next Obligation. unfold plain_compare. intros. rewrite <- Z.sgn_opp. f_equal. lia. Qed.
Next Obligation. unfold plain_compare. intros u v w. rewrite !Z.sgn_nonpos. lia. Qed.
Next Obligation. intros. apply exchange_sort_perm. Qed.
Next Obligation.
  intros l. eapply StronglySorted_weaken; [|apply exchange_sort_sorted];
    unfold plain_compare; intros *; lia.
Qed.
