(* ===== verification/ServiceBase.v ===== *)
(** Services over the store.

    A service method calls the store several times; the store's mutex is free between the
    calls.  A method is modelled as it runs alone: a function from the state of the store
    to an [Outcome], composed of store methods in a state and error monad.  An error
    returns at once, with the changes made so far in place. *)

From S2P Require Import StoreBase GoStrings.

#[local] Open Scope string_scope.
#[local] Open Scope list_scope.

Definition svc (S A : Type) := S → Outcome S A.

Section svc.
Context {S : Type}.

Definition sret {A} (a : A) : svc S A := λ s, mkOut s [] (Ok a).
Definition throw {A} (e : gerror) : svc S A := λ s, mkOut s [] (Err e).
Definition crash {A} : svc S A := λ s, mkOut s [] Panic.

Definition sbind {A B} (m : svc S A) (k : A → svc S B) : svc S B := λ s,
  let o := m s in
  match ret o with
  | Ok a => let o' := k a (st o) in mkOut (st o') (queued o ++ queued o') (ret o')
  | Err e => mkOut (st o) (queued o) (Err e)
  | Panic => mkOut (st o) (queued o) Panic
  end.

(** A method that only reads. *)
Definition ask {A} (f : S → result A) : svc S A := λ s, mkOut s [] (f s).

(** A call whose error is looked at by the caller; a panic is not caught. *)
Definition attempt {A} (m : svc S A) : svc S (result A) := λ s,
  let o := m s in
  mkOut (st o) (queued o) (match ret o with Panic => Panic | r => Ok r end).

(** [if err != nil { return f(err) }] *)
Definition on_error {A} (f : gerror → gerror) (m : svc S A) : svc S A := λ s,
  let o := m s in
  mkOut (st o) (queued o) (match ret o with Err e => Err (f e) | r => r end).

(** [for _, x := range l { if err := f(x); err != nil { return err } }], with the
    index of the turn. *)
Fixpoint sfor_from {A} (i : nat) (l : list A) (f : nat → A → svc S unit) : svc S unit :=
  match l with
  | [] => sret tt
  | x :: l' => sbind (f i x) (λ _, sfor_from (Datatypes.S i) l' f)
  end.
Definition sfor {A} := @sfor_from A 0.

(** [if b { return err }] *)
Definition guard (b : bool) (e : gerror) : svc S unit := if b then throw e else sret tt.

End svc.

Declare Scope svc_scope.
Delimit Scope svc_scope with svc.
Notation "x <- m ;; k" := (sbind m (fun x => k))
  (at level 60, m at next level, right associativity) : svc_scope.
Notation "m ;;; k" := (sbind m (fun _ => k))
  (at level 60, right associativity) : svc_scope.

(** * Errors *)

(** [err.Error()]; the duplicate and validation errors of the store are types with a
    method. *)
Definition error_text (e : gerror) : string :=
  match e with
  | ErrNotFound => "not found"
  | ErrDuplicate => "duplicate"
  | ErrValidation => "validation error"
  | ErrInvalidInput => "invalid input"
  | ErrNotImplemented => "not implemented"
  | Errorf msg => msg
  end.

(** [fmt.Errorf(prefix + ": %w", err)]: the text.  What [errors.Is] finds behind a
    wrapped error is not kept. *)
Definition wrapf (prefix : string) (e : gerror) : gerror := Errorf (prefix +:+ ": " +:+ error_text e).

(** * Lemmas *)

Lemma sbind_ok {S A B} (m : svc S A) (k : A → svc S B) s b :
  ret (sbind m k s) = Ok b ↔ ∃ a, ret (m s) = Ok a ∧ ret (k a (st (m s))) = Ok b.
Proof.
  unfold sbind. destruct (ret (m s)) as [a|e|]; simpl; split; try done.
  - intros Hk. by exists a.
  - by intros (a' & [= <-] & Hk).
  - by intros (a & ? & _).
  - by intros (a & ? & _).
Qed.

Lemma sbind_st {S A B} (m : svc S A) (k : A → svc S B) s a :
  ret (m s) = Ok a → st (sbind m k s) = st (k a (st (m s))).
Proof. unfold sbind. by intros ->. Qed.

Lemma sbind_sret {S A B} (a : A) (k : A → svc S B) s :
  sbind (sret a) k s = k a s.
Proof. unfold sbind, sret. simpl. by destruct (k a s). Qed.

Lemma on_error_ok {S A} f (m : svc S A) s a : ret (on_error f m s) = Ok a ↔ ret (m s) = Ok a.
Proof. unfold on_error. simpl. by destruct (ret (m s)). Qed.

Lemma ask_ok {S A} (f : S → result A) s a : ret (ask f s) = Ok a ↔ f s = Ok a.
Proof. done. Qed.

Lemma guard_ok {S} (b : bool) e (s : S) u : ret (guard b e s) = Ok u ↔ b = false.
Proof. unfold guard. by destruct b, u. Qed.

(** The methods that keep the state whatever they return. *)
Definition reads {S A} (m : svc S A) : Prop := ∀ s, st (m s) = s ∧ queued (m s) = [].

Lemma reads_sret {S A} (a : A) : reads (S := S) (sret a).
Proof. done. Qed.
Lemma reads_throw {S A} e : reads (S := S) (A := A) (throw e).
Proof. done. Qed.
Lemma reads_ask {S A} (f : S → result A) : reads (ask f).
Proof. done. Qed.
Lemma reads_on_error {S A} f (m : svc S A) : reads m → reads (on_error f m).
Proof. done. Qed.
Lemma reads_attempt {S A} (m : svc S A) : reads m → reads (attempt m).
Proof. done. Qed.
Lemma reads_guard {S} b e : reads (S := S) (guard b e).
Proof. by destruct b. Qed.
Lemma reads_sbind {S A B} (m : svc S A) (k : A → svc S B) :
  reads m → (∀ a, reads (k a)) → reads (sbind m k).
Proof.
  intros Hm Hk s. destruct (Hm s) as [H1 H2]. unfold sbind. destruct (ret (m s)); simpl; [|by auto..].
  rewrite H1, H2. apply Hk.
Qed.
Lemma reads_sfor_from {S A} i (l : list A) (f : nat → A → svc S unit) :
  (∀ i x, reads (f i x)) → reads (sfor_from i l f).
Proof. intros Hf. revert i. induction l; intros i; simpl; [apply reads_sret|by apply reads_sbind]. Qed.
Lemma reads_sfor {S A} (l : list A) (f : nat → A → svc S unit) :
  (∀ i x, reads (f i x)) → reads (sfor l f).
Proof. apply reads_sfor_from. Qed.

Lemma sbind_reads {S A B} (m : svc S A) (k : A → svc S B) s :
  reads m →
  sbind m k s = match ret (m s) with Ok a => k a s | Err e => mkOut s [] (Err e) | Panic => mkOut s [] Panic end.
Proof.
  intros Hm. destruct (Hm s) as [H1 H2]. unfold sbind. rewrite H1, H2. destruct (ret (m s)); try done.
  by destruct (k a s).
Qed.

Create HintDb reads.
#[global] Hint Resolve reads_sret reads_throw reads_ask reads_on_error reads_attempt reads_guard reads_sbind
  reads_sfor : reads.

(** A loop of reads succeeds when every turn does. *)
Lemma sfor_from_reads_ok {S A} i (l : list A) (f : nat → A → svc S unit) s u :
  (∀ i x, reads (f i x)) →
  ret (sfor_from i l f s) = Ok u ↔ ∀ j x, l !! j = Some x → ret (f (i + j)%nat x s) = Ok tt.
Proof.
  intros Hf. revert i. induction l as [|x l IH]; intros i; simpl.
  { destruct u. split; [|done]. intros _ j x. by rewrite lookup_nil. }
  rewrite sbind_ok. destruct (Hf i x s) as [Hst _]. rewrite Hst. setoid_rewrite IH. split.
  - intros ([] & Hx & Hl) [|j] y; simpl; [intros [= <-]; by rewrite Nat.add_0_r|].
    intros Hj. rewrite <- Nat.add_succ_comm. by apply Hl.
  - intros Hall. exists tt. split; [by rewrite <- (Nat.add_0_r i); apply (Hall O)|].
    intros j y Hj. rewrite Nat.add_succ_comm. by apply Hall.
Qed.

Lemma sfor_reads_ok {S A} (l : list A) (g : A → svc S unit) s u :
  (∀ x, reads (g x)) → ret (sfor l (λ _, g) s) = Ok u ↔ ∀ x, x ∈ l → ret (g x s) = Ok tt.
Proof.
  intros Hg. unfold sfor. rewrite sfor_from_reads_ok by done. setoid_rewrite list_elem_of_lookup. naive_solver.
Qed.

(** The value of a call that succeeds is passed on. *)
Lemma sbind_value {S A B} (m : svc S A) (k : A → svc S B) s a :
  ret (m s) = Ok a →
  sbind m k s =
  mkOut (st (k a (st (m s)))) (queued (m s) ++ queued (k a (st (m s)))) (ret (k a (st (m s)))).
Proof. unfold sbind. by intros ->. Qed.

Lemma no_panic_sbind {S A B} (m : svc S A) (k : A → svc S B) s :
  ret (m s) ≠ Panic → (∀ a s', ret (k a s') ≠ Panic) → ret (sbind m k s) ≠ Panic.
Proof. intros Hm Hk. unfold sbind. destruct (ret (m s)); simpl; [apply Hk|done|done]. Qed.

Lemma no_panic_sfor {S A} (l : list A) (f : nat → A → svc S unit) s :
  (∀ i x s, ret (f i x s) ≠ Panic) → ret (sfor l f s) ≠ Panic.
Proof.
  intros Hf. unfold sfor. generalize O. intros i. revert i s.
  induction l; intros i s; simpl; [done|]. apply no_panic_sbind; auto.
Qed.

Lemma ret_ask {S A} (f : S → result A) s : ret (ask f s) = f s.
Proof. done. Qed.
Lemma ret_on_error {S A} f (m : svc S A) s :
  ret (on_error f m s) = match ret (m s) with Err e => Err (f e) | r => r end.
Proof. done. Qed.
Lemma ret_attempt {S A} (m : svc S A) s :
  ret (attempt m s) = match ret (m s) with Panic => Panic | r => Ok r end.
Proof. done. Qed.
