(* ===== verification/RecipeServices.v ===== *)
(** The recipe services ([src/internal/services/recipes]): components, playbooks,
    activations, approvals of RAW components and dependencies, over the memory store of
    [MemRecipes].

    The store returns a record or an error, never a nil record without an error, so the
    tests for a nil record that follow the calls in the source are never true and are left
    out.  Records handed out by the store are copies, so the changes a service makes to
    its argument before it stores it are visible to the caller only. *)

From S2P Require Import StoreBase GoStrings GoSort RecipeModels MemRecipes MemProjects Semver ServiceBase.

#[local] Open Scope string_scope.
#[local] Open Scope list_scope.
#[local] Open Scope Z_scope.
#[local] Open Scope svc_scope.

Import Recipes.

(** * Component references *)

(** [strings.SplitN(ref, colon, 3)] with the test for three parts. *)
Definition ParseComponentRef (ref : string) : result (string * string * string) :=
  match cut colon ref with
  | (namespace, Some rest) =>
      match cut colon rest with
      | (slug, Some version) => Ok (namespace, slug, version)
      | _ => Err (Errorf "expected format namespace:slug:version")
      end
  | _ => Err (Errorf "expected format namespace:slug:version")
  end.

Definition BuildComponentRef (namespace slug version : string) : string :=
  namespace +:+ ":" +:+ slug +:+ ":" +:+ version.

(** The component of a step, where both the reference can be parsed and the component
    exists; the loops below skip a step without. *)
Definition step_component (step : PlaybookStep) (s : State) : option RecipeComponent :=
  match ParseComponentRef step.(PlaybookStep.ComponentRef) with
  | Ok (namespace, slug, version) =>
      match GetRecipeComponent namespace slug version s with Ok c => Some c | _ => None end
  | _ => None
  end.

(** * ComponentService *)

Module Components.
Section service.
Context `{SemverLib}.

Definition List_ `{MapRange, SliceSort} (namespace : string) (includeDeprecated : bool)
    : svc State (list RecipeComponent) := ask (ListRecipeComponents namespace includeDeprecated).

Definition Get (namespace slug version : string) : svc State RecipeComponent :=
  ask (GetRecipeComponent namespace slug (NormalizeSemver version)).

Definition GetByID (id : string) : svc State RecipeComponent := ask (GetRecipeComponentByID id).

(** [versionMap[v.Version] = v] for each version. *)
Definition version_map {A} (Version : A → string) (versions : list A) : gmap string A :=
  foldl (λ m v, <[Version v := v]> m) ∅ versions.

(** The result is nil when the normalized version is not one of the map. *)
Definition GetLatest `{MapRange, SliceSort} (namespace slug : string) : svc State (option RecipeComponent) :=
  versions <- ask (ListRecipeComponentVersions namespace slug) ;;
  match versions with
  | [] => throw (Errorf ("component not found: " +:+ namespace +:+ ":" +:+ slug))
  | _ =>
      sret (version_map RecipeComponent.Version versions !!
              LatestSemver (RecipeComponent.Version <$> versions))
  end.

Definition sortComponentsBySemverDesc (components : list RecipeComponent) : list RecipeComponent :=
  sort_by_semver_desc RecipeComponent.Version components.

Definition GetVersions `{MapRange, SliceSort} (namespace slug : string) : svc State (list RecipeComponent) :=
  versions <- ask (ListRecipeComponentVersions namespace slug) ;;
  sret (sortComponentsBySemverDesc versions).

Definition check_version (version : string) : svc State unit :=
  match ValidateSemver version with
  | Some e => throw (wrapf "invalid version" (Errorf e))
  | None => sret tt
  end.

Definition Create (component : RecipeComponent) (now : time) (xid : string) : svc State RecipeComponent :=
  check_version component.(RecipeComponent.Version) ;;;
  guard (negb (bool_decide (component.(RecipeComponent.Namespace) = NamespaceUser)))
    (Errorf "can only create components in 'user' namespace") ;;;
  CreateRecipeComponent (Some {| component with
    RecipeComponent.Version := NormalizeSemver component.(RecipeComponent.Version);
    RecipeComponent.IsSeed := false; RecipeComponent.CreatedAt := now |}) now xid.

Definition Update (component : RecipeComponent) (now : time) : svc State unit :=
  existing <- ask (GetRecipeComponentByID component.(RecipeComponent.ID)) ;;
  guard existing.(RecipeComponent.IsSeed) (Errorf "cannot update seed components") ;;;
  if bool_decide (component.(RecipeComponent.Version) = existing.(RecipeComponent.Version))
  then UpdateRecipeComponent (Some component) now
  else
    check_version component.(RecipeComponent.Version) ;;;
    UpdateRecipeComponent (Some {| component with
      RecipeComponent.Version := NormalizeSemver component.(RecipeComponent.Version) |}) now.

Definition CreateFromSeed (seedID newSlug newVersion : string) (now : time) (xid : string)
    : svc State RecipeComponent :=
  seed <- on_error (wrapf "seed component not found") (ask (GetRecipeComponentByID seedID)) ;;
  guard (negb seed.(RecipeComponent.IsSeed)) (Errorf "source component is not a seed") ;;;
  check_version newVersion ;;;
  CreateRecipeComponent (Some (RecipeComponent.mk "" NamespaceUser newSlug (NormalizeSemver newVersion)
    (seed.(RecipeComponent.Name) +:+ " (Custom)") seed.(RecipeComponent.Description)
    seed.(RecipeComponent.ComponentType) seed.(RecipeComponent.Content) seed.(RecipeComponent.Variables)
    false seed.(RecipeComponent.IsRaw) false now)) now xid.

(** The first required variable without a binding and without a default. *)
Definition missing_variable (bindings : gmap string string) (v : VariableDefinition) : bool :=
  v.(VariableDefinition.Required) && bool_decide (bindings !! v.(VariableDefinition.Name) = None) &&
  bool_decide (v.(VariableDefinition.Default) = "").

Definition ValidateVariables (componentID : string) (bindings : gmap string string) : svc State unit :=
  component <- ask (GetRecipeComponentByID componentID) ;;
  sfor component.(RecipeComponent.Variables) (λ _ v,
    guard (missing_variable bindings v)
      (Errorf ("required variable " +:+ quote v.(VariableDefinition.Name) +:+ " not provided"))).

Definition Delete (id : string) (now : time) : svc State unit :=
  component <- ask (GetRecipeComponentByID id) ;;
  guard component.(RecipeComponent.IsSeed) (Errorf "cannot delete seed components") ;;;
  DeleteRecipeComponent id now.

End service.
End Components.

(** * PlaybookService *)

Module Playbooks.
Section service.
Context `{SemverLib}.

Definition List_ `{MapRange, SliceSort} (namespace frameworkType : string) (includeDeprecated : bool)
    : svc State (list Playbook) := ask (ListPlaybooks namespace frameworkType includeDeprecated).

Definition Get (namespace slug version : string) : svc State Playbook :=
  ask (GetPlaybook namespace slug (NormalizeSemver version)).

Definition GetByID (id : string) : svc State Playbook := ask (GetPlaybookByID id).

Definition GetLatest `{MapRange, SliceSort} (namespace slug : string) : svc State (option Playbook) :=
  versions <- ask (ListPlaybookVersions namespace slug) ;;
  match versions with
  | [] => throw (Errorf ("playbook not found: " +:+ namespace +:+ ":" +:+ slug))
  | _ => sret (Components.version_map Playbook.Version versions !! LatestSemver (Playbook.Version <$> versions))
  end.

Definition sortPlaybooksBySemverDesc (playbooks : list Playbook) : list Playbook :=
  sort_by_semver_desc Playbook.Version playbooks.

Definition GetVersions `{MapRange, SliceSort} (namespace slug : string) : svc State (list Playbook) :=
  versions <- ask (ListPlaybookVersions namespace slug) ;;
  sret (sortPlaybooksBySemverDesc versions).

Definition validateSteps (steps : list PlaybookStep) : svc State unit :=
  sfor steps (λ _ step,
    let ref := step.(PlaybookStep.ComponentRef) in
    parts <- on_error (wrapf ("invalid component reference " +:+ quote ref))
               (ask (λ _, ParseComponentRef ref)) ;;
    let '(namespace, slug, version) := parts in
    on_error (wrapf ("component lookup failed: " +:+ ref))
      (ask (GetRecipeComponent namespace slug version)) ;;;
    sret tt).

Definition Create (playbook : Playbook) (now : time) (xid : string) : svc State Playbook :=
  Components.check_version playbook.(Playbook.Version) ;;;
  guard (negb (bool_decide (playbook.(Playbook.Namespace) = NamespaceUser)))
    (Errorf "can only create playbooks in 'user' namespace") ;;;
  validateSteps playbook.(Playbook.Steps) ;;;
  CreatePlaybook (Some {| playbook with
    Playbook.Version := NormalizeSemver playbook.(Playbook.Version);
    Playbook.IsSeed := false; Playbook.CreatedAt := now |}) now xid.

Definition Update (playbook : Playbook) (now : time) : svc State unit :=
  existing <- ask (GetPlaybookByID playbook.(Playbook.ID)) ;;
  guard existing.(Playbook.IsSeed) (Errorf "cannot update seed playbooks") ;;;
  if bool_decide (playbook.(Playbook.Version) = existing.(Playbook.Version))
  then
    validateSteps playbook.(Playbook.Steps) ;;;
    UpdatePlaybook (Some playbook) now
  else
    Components.check_version playbook.(Playbook.Version) ;;;
    validateSteps playbook.(Playbook.Steps) ;;;
    UpdatePlaybook (Some {| playbook with
      Playbook.Version := NormalizeSemver playbook.(Playbook.Version) |}) now.

Definition CustomizeFromSeed (seedID newSlug newVersion : string) (now : time) (xid : string)
    : svc State Playbook :=
  seed <- on_error (wrapf "seed playbook not found") (ask (GetPlaybookByID seedID)) ;;
  guard (negb seed.(Playbook.IsSeed)) (Errorf "source playbook is not a seed") ;;;
  Components.check_version newVersion ;;;
  CreatePlaybook (Some {| seed with
    Playbook.ID := ""; Playbook.Namespace := NamespaceUser; Playbook.Slug := newSlug;
    Playbook.Version := NormalizeSemver newVersion;
    Playbook.Name := seed.(Playbook.Name) +:+ " (Custom)";
    Playbook.IsSeed := false; Playbook.IsDeprecated := false;
    Playbook.ParentID := Some seedID; Playbook.ParentVersion := seed.(Playbook.Version);
    Playbook.CreatedAt := now |}) now xid.

(** Errors of the parent and of the search for its latest version mean that there is no
    update; a nil latest version is dereferenced. *)
Definition CheckNewerVersionAvailable `{MapRange, SliceSort} (playbookID : string) : svc State (bool * string) :=
  playbook <- ask (GetPlaybookByID playbookID) ;;
  match playbook.(Playbook.ParentID) with
  | None => sret (false, "")
  | Some parentID =>
      r <- attempt (ask (GetPlaybookByID parentID)) ;;
      match r with
      | Ok parent =>
          r <- attempt (GetLatest parent.(Playbook.Namespace) parent.(Playbook.Slug)) ;;
          match r with
          | Ok (Some latest) =>
              if 0 <? CompareSemver latest.(Playbook.Version) playbook.(Playbook.ParentVersion)
              then sret (true, latest.(Playbook.Version)) else sret (false, "")
          | Ok None => crash
          | _ => sret (false, "")
          end
      | _ => sret (false, "")
      end
  end.

Definition Validate (playbookID : string) : svc State unit :=
  playbook <- ask (GetPlaybookByID playbookID) ;;
  validateSteps playbook.(Playbook.Steps).

(** Each variable of the components of the steps once, the first definition of a name. *)
Definition add_variable (acc : list VariableDefinition * gset string) (v : VariableDefinition)
    : list VariableDefinition * gset string :=
  let '(variables, seen) := acc in
  if bool_decide (v.(VariableDefinition.Name) ∈ seen) then acc
  else (variables ++ [v], {[v.(VariableDefinition.Name)]} ∪ seen).

Definition GetAllRequiredVariables (playbookID : string) : svc State (list VariableDefinition) :=
  playbook <- ask (GetPlaybookByID playbookID) ;;
  ask (λ s, Ok (foldl (λ acc step,
    match step_component step s with
    | Some component => foldl add_variable acc component.(RecipeComponent.Variables)
    | None => acc
    end) ([], ∅) playbook.(Playbook.Steps)).1).

Definition Delete (id : string) (now : time) : svc State unit :=
  playbook <- ask (GetPlaybookByID id) ;;
  guard playbook.(Playbook.IsSeed) (Errorf "cannot delete seed playbooks") ;;;
  DeletePlaybook id now.

End service.
End Playbooks.

(** * Lemmas *)

Lemma parse_ref_build ref n g v :
  ParseComponentRef ref = Ok (n, g, v) → BuildComponentRef n g v = ref.
Proof.
  unfold ParseComponentRef, BuildComponentRef. destruct (cut colon ref) as [a [r|]] eqn:E1; [|done].
  destruct (cut colon r) as [b [t|]] eqn:E2; [|done]. intros [= <- <- <-].
  by rewrite (cut_Some _ _ _ _ E1), (cut_Some _ _ _ _ E2).
Qed.

(** A reference is the key of the component it names. *)
Lemma step_component_key step s c :
  step_component step s = Some c → recipeComponentsByKey s !! step.(PlaybookStep.ComponentRef) = Some c.
Proof.
  unfold step_component. destruct (ParseComponentRef _) as [[[n g] v]| |] eqn:E; [|done..].
  apply parse_ref_build in E. unfold GetRecipeComponent, recipeComponentKey, BuildComponentRef in *.
  rewrite E. by destruct (recipeComponentsByKey s !! _); intros [= ->].
Qed.

Lemma version_map_lookup {A} (Version : A → string) l v x :
  Components.version_map Version l !! v = Some x → x ∈ l ∧ Version x = v.
Proof.
  unfold Components.version_map.
  assert (∀ (m : gmap string A), (∀ w y, m !! w = Some y → y ∈ l ∧ Version y = w) →
     ∀ k, (∀ y, y ∈ k → y ∈ l) → ∀ w y, foldl (λ m v, <[Version v := v]> m) m k !! w = Some y →
     y ∈ l ∧ Version y = w) as Hgen.
  { intros m Hm k. revert m Hm. induction k as [|z k IH]; intros m Hm Hk w y; simpl; [apply Hm|].
    apply IH; [|intros; apply Hk; by right]. intros w' y'. rewrite lookup_insert_Some.
    intros [[<- <-]|[_ ?]]; [|by apply Hm]. split; [apply Hk; left|done]. }
  apply (Hgen ∅); [|done]. intros *. by rewrite lookup_empty.
Qed.

Lemma version_map_None {A} (Version : A → string) l v :
  Components.version_map Version l !! v = None → v ∉ Version <$> l.
Proof.
  unfold Components.version_map. generalize (∅ : gmap string A). induction l as [|x l IH]; intros m; simpl.
  { intros _. set_solver. }
  rewrite not_elem_of_cons. intros Hn. split; [|by eapply IH]. intros ->.
  assert (∀ k (m : gmap string A) w, foldl (λ m v, <[Version v := v]> m) m k !! w = None → m !! w = None) as Hmono.
  { clear. induction k as [|x k IH]; intros m w; simpl; [done|]. intros Hk%IH.
    rewrite lookup_insert_None in Hk. by destruct Hk. }
  apply Hmono in Hn. by rewrite lookup_insert_eq in Hn.
Qed.

Section services.
Context `{SemverLib, MapRange, SliceSort}.

(** The components of a name. *)
Definition versions_of (namespace slug : string) (s : State) : list RecipeComponent :=
  filter (λ c, c.(RecipeComponent.Namespace) = namespace ∧ c.(RecipeComponent.Slug) = slug)
    (range_values (recipeComponents s)).

Lemma elem_of_versions n g s c :
  c ∈ versions_of n g s ↔
  (∃ id, recipeComponents s !! id = Some c) ∧
  c.(RecipeComponent.Namespace) = n ∧ c.(RecipeComponent.Slug) = g.
Proof.
  unfold versions_of. rewrite list_elem_of_filter, elem_of_range_values. tauto.
Qed.

(** * Properties *)

(** A component reference that is built is parsed back, and one that is parsed is
    built back: [ParseComponentRef] and [BuildComponentRef] are inverse for namespaces and
    slugs without a colon, whatever the version holds, and a reference that parses is the
    key the store has the component under. *)
Theorem component_ref_roundtrip :
  (∀ namespace slug version, free_of colon namespace = true → free_of colon slug = true →
     ParseComponentRef (BuildComponentRef namespace slug version) = Ok (namespace, slug, version)) ∧
  (∀ ref namespace slug version, ParseComponentRef ref = Ok (namespace, slug, version) →
     BuildComponentRef namespace slug version = ref ∧ recipeComponentKey namespace slug version = ref) ∧
  (∀ ref, (∃ e, ParseComponentRef ref = Err e) ↔ (length (split_on colon ref) < 3)%nat).
Proof.
  assert (∀ c s, match cut c s with
                 | (_, None) => length (split_on c s) = 1%nat
                 | (_, Some r) => length (split_on c s) = S (length (split_on c r))
                 end) as Hsplit.
  { intros c s. induction s as [|d s IH]; simpl; [done|]. destruct (Ascii.eqb d c); [done|].
    destruct (cut c s) as [a [r|]]; destruct (split_on c s); simpl in *; lia. }
  split_and!.
  - intros n g v Hn Hg.
    change (BuildComponentRef n g v) with (n +:+ String colon (g +:+ String colon v)).
    unfold ParseComponentRef. by rewrite (cut_app _ _ _ Hn), (cut_app _ _ _ Hg).
  - intros ref n g v Hp. by pose proof (parse_ref_build _ _ _ _ Hp).
  - intros ref. pose proof (Hsplit colon ref) as Hc1. unfold ParseComponentRef.
    destruct (cut colon ref) as [a [r|]]; [|split; [lia|by eauto]].
    pose proof (Hsplit colon r) as Hc2. rewrite Hc1.
    destruct (cut colon r) as [b [t|]]; [|split; [lia|by eauto]].
    rewrite Hc2. split; [by intros [e ?]|]. destruct (split_on colon t) eqn:E; simpl; [|lia].
    destruct t; simpl in E; [done|]. repeat case_match; done.
Qed.

(** C29: The bubble sort of the version lists is a stable sort by version, highest first:
    for components and for playbooks it gives the list stable insertion gives, with the
    same records and versions that do not increase; records of versions that compare
    equal stay in their order. *)
Theorem version_sort_is_stable_insertion components playbooks :
  Components.sortComponentsBySemverDesc components =
    insertion_desc (lower_version RecipeComponent.Version) components ∧
  Components.sortComponentsBySemverDesc components ≡ₚ components ∧
  StronglySorted (λ x y, 0 ≤ CompareSemver x.(RecipeComponent.Version) y.(RecipeComponent.Version))
    (Components.sortComponentsBySemverDesc components) ∧
  Playbooks.sortPlaybooksBySemverDesc playbooks =
    insertion_desc (lower_version Playbook.Version) playbooks ∧
  Playbooks.sortPlaybooksBySemverDesc playbooks ≡ₚ playbooks ∧
  StronglySorted (λ x y, 0 ≤ CompareSemver x.(Playbook.Version) y.(Playbook.Version))
    (Playbooks.sortPlaybooksBySemverDesc playbooks).
Proof.
  pose proof (lower_version_order RecipeComponent.Version) as Hc.
  pose proof (lower_version_order Playbook.Version) as Hp.
  unfold Components.sortComponentsBySemverDesc, Playbooks.sortPlaybooksBySemverDesc, sort_by_semver_desc.
  split_and!; try (by apply bubble_is_insertion); try (by apply bubble_sort_spec);
    (eapply StronglySorted_weaken; [|by apply bubble_sort_spec]);
    unfold lower_version; intros x y; lia.
Qed.

(** The latest version of a component.  It is an error exactly when there is none.
    Otherwise the answer, if it is a component, is one of those with the namespace and
    slug and no other has a higher version; it is a component whenever their versions
    are stored with the prefix [v], and nil when the highest is not. *)
Theorem latest_component namespace slug s :
  (ret (Components.GetLatest namespace slug s) =
     Err (Errorf ("component not found: " +:+ namespace +:+ ":" +:+ slug)) ↔ versions_of namespace slug s = []) ∧
  (versions_of namespace slug s ≠ [] →
   ∃ r, ret (Components.GetLatest namespace slug s) = Ok r ∧
     (∀ c, r = Some c → c ∈ versions_of namespace slug s ∧
        ∀ c', c' ∈ versions_of namespace slug s →
          CompareSemver c'.(RecipeComponent.Version) c.(RecipeComponent.Version) ≤ 0) ∧
     ((∀ c, c ∈ versions_of namespace slug s → HasPrefix c.(RecipeComponent.Version) "v" = true) → r ≠ None) ∧
     ((∀ c, c ∈ versions_of namespace slug s → HasPrefix c.(RecipeComponent.Version) "v" = false) → r = None)).
Proof.
  unfold Components.GetLatest, ListRecipeComponentVersions, sbind, ask. simpl.
  fold (versions_of namespace slug s).
  set (l := sort_Slice _ (versions_of namespace slug s)).
  assert (l ≡ₚ versions_of namespace slug s) as Hp by apply sort_perm.
  assert (∀ c, c ∈ versions_of namespace slug s ↔ c ∈ l) as Hin by (intros; by rewrite Hp).
  assert (versions_of namespace slug s = [] ↔ l = []) as Hnil.
  { split; intros E; rewrite E in Hp; [by apply Permutation_nil_r in Hp|].
    symmetry in Hp. by apply Permutation_nil_r in Hp. }
  clearbody l.
  assert (l = [] ∨ ∃ (Hl : l ≠ []), ∀ B (x y : B), match l with [] => x | _ :: _ => y end = y) as [->|[Hl Hm]].
  { destruct l; [by left|right]. by unshelve eexists. }
  { simpl. split; [tauto|intros []; tauto]. }
  rewrite Hm. simpl. split; [split; [done|]; intros E; apply Hnil in E; done|]. intros _.
  eexists. split; [done|].
  destruct (LatestSemver_spec (RecipeComponent.Version <$> l)) as (v & Hv & Hlat & Hmax);
    [by intros E%fmap_nil_inv|].
  rewrite Hlat. setoid_rewrite Hin. split_and!.
  - intros c Hc. apply version_map_lookup in Hc as [Hcl Hcv]. split; [done|].
    intros c' Hc'. pose proof (Hmax _ (list_elem_of_fmap_2 RecipeComponent.Version _ _ Hc')) as Hle.
    unfold CompareSemver in *. by rewrite Hcv, NormalizeSemver_idem.
  - intros Hpre Hnone. apply version_map_None in Hnone. apply Hnone.
    apply list_elem_of_fmap in Hv as (c & -> & Hc). unfold NormalizeSemver. rewrite (Hpre c Hc).
    by apply list_elem_of_fmap_2.
  - intros Hpre. destruct (_ !! _) as [c|] eqn:E; [|done]. exfalso.
    apply version_map_lookup in E as [Hc E]. pose proof (Hpre c Hc) as Hf. rewrite E in Hf.
    apply list_elem_of_fmap in Hv as (c' & -> & Hc'). unfold NormalizeSemver in Hf. rewrite (Hpre c' Hc') in Hf.
    by destruct (RecipeComponent.Version c').
Qed.

(** ** Seeds *)

(** The calls of the two services that can change the store. *)
Inductive call :=
| CCreateComponent (c : RecipeComponent) (now : time) (xid : string)
| CUpdateComponent (c : RecipeComponent) (now : time)
| CCreateFromSeed (seedID newSlug newVersion : string) (now : time) (xid : string)
| CDeleteComponent (id : string) (now : time)
| CCreatePlaybook (p : Playbook) (now : time) (xid : string)
| CUpdatePlaybook (p : Playbook) (now : time)
| CCustomizeFromSeed (seedID newSlug newVersion : string) (now : time) (xid : string)
| CDeletePlaybook (id : string) (now : time).

Definition run (c : call) (s : State) : State :=
  match c with
  | CCreateComponent c now xid => st (Components.Create c now xid s)
  | CUpdateComponent c now => st (Components.Update c now s)
  | CCreateFromSeed id slug version now xid => st (Components.CreateFromSeed id slug version now xid s)
  | CDeleteComponent id now => st (Components.Delete id now s)
  | CCreatePlaybook p now xid => st (Playbooks.Create p now xid s)
  | CUpdatePlaybook p now => st (Playbooks.Update p now s)
  | CCustomizeFromSeed id slug version now xid => st (Playbooks.CustomizeFromSeed id slug version now xid s)
  | CDeletePlaybook id now => st (Playbooks.Delete id now s)
  end.

(** New records get identifiers that are not in use. *)
Definition allowed (c : call) (s : State) : Prop :=
  match c with
  | CCreateComponent c _ xid => recipeComponents s !! or_string c.(RecipeComponent.ID) xid = None
  | CCreateFromSeed _ _ _ _ xid => recipeComponents s !! xid = None
  | CCreatePlaybook p _ xid => playbooks s !! or_string p.(Playbook.ID) xid = None
  | CCustomizeFromSeed _ _ _ _ xid => playbooks s !! xid = None
  | _ => True
  end.

(** The seeds of [s] are unchanged in [s'], and so is what is found under their keys. *)
Definition keeps_seeds (s s' : State) : Prop :=
  (∀ id c, recipeComponents s !! id = Some c → c.(RecipeComponent.IsSeed) = true →
     recipeComponents s' !! id = Some c ∧ recipeComponentsByKey s' !! component_key c = Some c) ∧
  (∀ id p, playbooks s !! id = Some p → p.(Playbook.IsSeed) = true →
     playbooks s' !! id = Some p ∧ playbooksByKey s' !! playbook_key p = Some p).

(** What a step of the store may do: the seeds need only be seen to stay in the maps by
    identifier, the invariant does the rest. *)
Lemma keeps_seeds_intro s s' :
  wf s' →
  (∀ id c, recipeComponents s !! id = Some c → c.(RecipeComponent.IsSeed) = true → recipeComponents s' !! id = Some c) →
  (∀ id p, playbooks s !! id = Some p → p.(Playbook.IsSeed) = true → playbooks s' !! id = Some p) →
  wf s' ∧ keeps_seeds s s'.
Proof.
  intros Hw Hc Hp. split; [done|]. split.
  - intros id c Hid Hs. pose proof (Hc _ _ Hid Hs) as Hid'. split; [done|].
    by apply (proj1 (wf_components s' Hw) _ _ Hid').
  - intros id p Hid Hs. pose proof (Hp _ _ Hid Hs) as Hid'. split; [done|].
    by apply (proj1 (wf_playbooks s' Hw) _ _ Hid').
Qed.

Lemma keeps_seeds_refl s : wf s → wf s ∧ keeps_seeds s s.
Proof. intros Hw. by apply keeps_seeds_intro. Qed.

Lemma create_component_seeds c now xid s :
  wf s → recipeComponents s !! or_string c.(RecipeComponent.ID) xid = None →
  wf (st (CreateRecipeComponent (Some c) now xid s)) ∧ keeps_seeds s (st (CreateRecipeComponent (Some c) now xid s)).
Proof.
  intros Hw Hf. apply keeps_seeds_intro; [by apply wf_create_component|..]; unfold CreateRecipeComponent;
    destruct (recipeComponentsByKey s !! _); simpl; try done.
  intros id c' Hid _. rewrite lookup_insert_ne; [done|]. intros <-. congruence.
Qed.

Lemma update_component_seeds c now s :
  wf s → (∀ old, recipeComponents s !! c.(RecipeComponent.ID) = Some old → old.(RecipeComponent.IsSeed) = false) →
  wf (st (UpdateRecipeComponent (Some c) now s)) ∧ keeps_seeds s (st (UpdateRecipeComponent (Some c) now s)).
Proof.
  intros Hw Hf. apply keeps_seeds_intro; [by apply wf_update_component|..]; unfold UpdateRecipeComponent;
    destruct (recipeComponents s !! c.(RecipeComponent.ID)) as [old|] eqn:E; cbv zeta; repeat (case_match; try done); simpl; try done.
  all: intros id c' Hid Hs; rewrite lookup_insert_ne; [done|]; intros <-; rewrite (Hf c') in Hs by congruence; done.
Qed.

Lemma delete_component_seeds id now s :
  wf s → (∀ old, recipeComponents s !! id = Some old → old.(RecipeComponent.IsSeed) = false) →
  wf (st (DeleteRecipeComponent id now s)) ∧ keeps_seeds s (st (DeleteRecipeComponent id now s)).
Proof.
  intros Hw Hf. apply keeps_seeds_intro; [by apply wf_delete_component|..]; unfold DeleteRecipeComponent;
    destruct (recipeComponents s !! id) as [old|] eqn:E; simpl; try done.
  intros id' c' Hid Hs. rewrite lookup_delete_ne; [done|]. intros <-. by rewrite (Hf c') in Hs by congruence.
Qed.

Lemma create_playbook_seeds p now xid s :
  wf s → playbooks s !! or_string p.(Playbook.ID) xid = None →
  wf (st (CreatePlaybook (Some p) now xid s)) ∧ keeps_seeds s (st (CreatePlaybook (Some p) now xid s)).
Proof.
  intros Hw Hf. apply keeps_seeds_intro; [by apply wf_create_playbook|..]; unfold CreatePlaybook;
    destruct (playbooksByKey s !! _); simpl; try done.
  intros id p' Hid _. rewrite lookup_insert_ne; [done|]. intros <-. congruence.
Qed.

Lemma update_playbook_seeds p now s :
  wf s → (∀ old, playbooks s !! p.(Playbook.ID) = Some old → old.(Playbook.IsSeed) = false) →
  wf (st (UpdatePlaybook (Some p) now s)) ∧ keeps_seeds s (st (UpdatePlaybook (Some p) now s)).
Proof.
  intros Hw Hf. apply keeps_seeds_intro; [by apply wf_update_playbook|..]; unfold UpdatePlaybook;
    destruct (playbooks s !! p.(Playbook.ID)) as [old|] eqn:E; cbv zeta; repeat (case_match; try done); simpl; try done.
  all: intros id p' Hid Hs; rewrite lookup_insert_ne; [done|]; intros <-; rewrite (Hf p') in Hs by congruence; done.
Qed.

Lemma delete_playbook_seeds id now s :
  wf s → (∀ old, playbooks s !! id = Some old → old.(Playbook.IsSeed) = false) →
  wf (st (DeletePlaybook id now s)) ∧ keeps_seeds s (st (DeletePlaybook id now s)).
Proof.
  intros Hw Hf. apply keeps_seeds_intro; [by apply wf_delete_playbook|..]; unfold DeletePlaybook;
    destruct (playbooks s !! id) as [old|] eqn:E; simpl; try done.
  intros id' p' Hid Hs. rewrite lookup_delete_ne; [done|]. intros <-. by rewrite (Hf p') in Hs by congruence.
Qed.

Lemma reads_check_version v : reads (Components.check_version v).
Proof. unfold Components.check_version. by destruct (ValidateSemver v). Qed.

Lemma reads_validateSteps steps : reads (Playbooks.validateSteps steps).
Proof.
  apply reads_sfor. intros _ step. apply reads_sbind; [auto with reads|]. intros [[n g] v]. auto with reads.
Qed.

#[local] Hint Resolve reads_check_version reads_validateSteps : reads.

(** A reading prefix either stops with the state as it was or goes on. *)
Lemma keeps_seeds_after {A B} (m : svc State A) (k : A → svc State B) s :
  wf s → reads m → (∀ a, ret (m s) = Ok a → wf (st (k a s)) ∧ keeps_seeds s (st (k a s))) →
  wf (st (sbind m k s)) ∧ keeps_seeds s (st (sbind m k s)).
Proof.
  intros Hw Hm Hk. rewrite sbind_reads by done.
  destruct (ret (m s)) eqn:E; simpl; [by apply Hk|by apply keeps_seeds_refl..].
Qed.

(** Seeds cannot be changed or removed through the services: along any call of the
    component and playbook services that gives new records new identifiers, every seed
    component and every seed playbook stays as it is, under its identifier and under its
    key, and the store stays consistent. *)
Theorem seeds_protected c s : wf s → allowed c s → wf (run c s) ∧ keeps_seeds s (run c s).
Proof.
  intros Hw Ha. destruct c as [c now xid|c now|id slug v now xid|id now|p now xid|p now|id slug v now xid|id now];
    simpl in *.
  - do 2 (apply keeps_seeds_after; [done|auto with reads|intros _ _]). by apply create_component_seeds.
  - apply keeps_seeds_after; [done|auto with reads|]. intros old Ho.
    apply keeps_seeds_after; [done|auto with reads|]. intros _ Hg%guard_ok.
    assert (∀ o, recipeComponents s !! c.(RecipeComponent.ID) = Some o → o.(RecipeComponent.IsSeed) = false).
    { intros o Eo. unfold ask, GetRecipeComponentByID in Ho. simpl in Ho. rewrite Eo in Ho. by injection Ho as ->. }
    case_bool_decide; [by apply update_component_seeds|].
    apply keeps_seeds_after; [done|auto with reads|intros _ _]. by apply update_component_seeds.
  - do 3 (apply keeps_seeds_after; [done|auto with reads|intros ? ?]). by apply create_component_seeds.
  - apply keeps_seeds_after; [done|auto with reads|]. intros old Ho.
    apply keeps_seeds_after; [done|auto with reads|]. intros _ Hg%guard_ok.
    apply delete_component_seeds; [done|].
    intros o Eo. unfold ask, GetRecipeComponentByID in Ho. simpl in Ho. rewrite Eo in Ho. by injection Ho as ->.
  - do 3 (apply keeps_seeds_after; [done|auto with reads|intros _ _]). by apply create_playbook_seeds.
  - apply keeps_seeds_after; [done|auto with reads|]. intros old Ho.
    apply keeps_seeds_after; [done|auto with reads|]. intros _ Hg%guard_ok.
    assert (∀ o, playbooks s !! p.(Playbook.ID) = Some o → o.(Playbook.IsSeed) = false).
    { intros o Eo. unfold ask, GetPlaybookByID in Ho. simpl in Ho. rewrite Eo in Ho. injection Ho as <-.
      by rewrite copyPlaybook_id in Hg. }
    case_bool_decide; repeat (apply keeps_seeds_after; [done|auto with reads|intros _ _]);
      by apply update_playbook_seeds.
  - do 3 (apply keeps_seeds_after; [done|auto with reads|intros ? ?]). by apply create_playbook_seeds.
  - apply keeps_seeds_after; [done|auto with reads|]. intros old Ho.
    apply keeps_seeds_after; [done|auto with reads|]. intros _ Hg%guard_ok.
    apply delete_playbook_seeds; [done|].
    intros o Eo. unfold ask, GetPlaybookByID in Ho. simpl in Ho. rewrite Eo in Ho. injection Ho as <-.
    by rewrite copyPlaybook_id in Hg.
Qed.

End services.

(** * Witnesses *)

Lemma component_ref_roundtrip_witness :
  ParseComponentRef "seed:migrate:v1.0.0:beta" = Ok ("seed", "migrate", "v1.0.0:beta").
Proof.
  exact (proj1 component_ref_roundtrip "seed" "migrate" "v1.0.0:beta" eq_refl eq_refl).
Defined.

Definition version (id v : string) : RecipeComponent :=
  {| demo_component with RecipeComponent.ID := id; RecipeComponent.Version := v |}.

Lemma version_sort_is_stable_insertion_witness :
  @Components.sortComponentsBySemverDesc plain_semver
    [version "a" "v1.9.0"; version "b" "v1.10.0"; version "c" "1.9.0"] =
  [version "b" "v1.10.0"; version "a" "v1.9.0"; version "c" "1.9.0"].
Proof.
  rewrite (proj1 (@version_sort_is_stable_insertion plain_semver
    [version "a" "v1.9.0"; version "b" "v1.10.0"; version "c" "1.9.0"] [])).
  vm_compute. reflexivity.
Defined.

Lemma latest_component_witness :
  ∃ r, ret (@Components.GetLatest plain_semver range_in_key_order sort_by_exchange "user" "migrate" demo_two) = Ok r ∧
       r ≠ None.
Proof.
  destruct (proj2 (@latest_component plain_semver range_in_key_order sort_by_exchange "user" "migrate" demo_two)
              ltac:(vm_compute; discriminate)) as (r & Hr & _ & Hn & _).
  exists r. split; [exact Hr|]. apply Hn. intros c Hc. apply list_elem_of_In in Hc. vm_compute in Hc.
  destruct Hc as [<-|[<-|[]]]; reflexivity.
Defined.

Definition demo_seed : RecipeComponent :=
  {| demo_component with RecipeComponent.ID := "s1"; RecipeComponent.Namespace := "seed";
     RecipeComponent.IsSeed := true |}.

Definition demo_seeded : State := st (CreateRecipeComponent (Some demo_seed) 8 "x9" Recipes.demo).

Lemma seeds_protected_witness :
  keeps_seeds demo_seeded (@run plain_semver (CDeleteComponent "s1" 9) demo_seeded).
Proof.
  apply (@seeds_protected plain_semver (CDeleteComponent "s1" 9) demo_seeded); [|exact I].
  apply wf_create_component; [apply recipes_reachable_wf, recipes_demo_reachable|vm_compute; reflexivity].
Defined.
