(* ===== verification/Activations.v ===== *)
(** Activation of playbooks, approval of RAW components and dependencies
    ([activations.go], [raw_approval.go] and [dependencies.go] of
    [src/internal/services/recipes]). *)

From S2P Require Import StoreBase GoStrings GoSort RecipeModels MemRecipes MemProjects Semver ServiceBase RecipeServices.

#[local] Open Scope string_scope.
#[local] Open Scope list_scope.
#[local] Open Scope Z_scope.
#[local] Open Scope svc_scope.

Import Recipes.

(** * ActivationService *)

Module VariableBinding.
Record VariableBinding := mk {
  SourceType : string;
  SourceRef : string;
  LiteralValue : string
}.
End VariableBinding.
Abbreviation VariableBinding := VariableBinding.VariableBinding.

Module Activation.
Section service.
Context `{MapRange}.

(** [required[v.Name] = true] for the variables that need a binding. *)
Definition required_variables (playbook : Playbook) (s : State) : gmap string bool :=
  foldl (λ required step,
    match step_component step s with
    | Some component =>
        foldl (λ required v,
          if v.(VariableDefinition.Required) && bool_decide (v.(VariableDefinition.Default) = "")
          then <[v.(VariableDefinition.Name) := true]> required else required)
          required component.(RecipeComponent.Variables)
    | None => required
    end) ∅ playbook.(Playbook.Steps).

(** The two loops run over maps: which of several missing or wrong bindings the error
    names depends on the order. *)
Definition binding_error (name : string) (b : VariableBinding) : option string :=
  if bool_decide (b.(VariableBinding.SourceType) = SourceTypeLiteral) then None
  else if bool_decide (b.(VariableBinding.SourceType) = SourceTypeEnv) ||
          bool_decide (b.(VariableBinding.SourceType) = SourceTypeSecret)
  then if bool_decide (b.(VariableBinding.SourceRef) = "")
       then Some ("variable " +:+ quote name +:+ ": source reference required for type " +:+
                  b.(VariableBinding.SourceType))
       else None
  else Some ("variable " +:+ quote name +:+ ": invalid source type " +:+ quote b.(VariableBinding.SourceType)).

Definition validateBindings (playbook : Playbook) (bindings : gmap string VariableBinding) : svc State unit :=
  required <- ask (λ s, Ok (required_variables playbook s)) ;;
  sfor (range required) (λ _ kv,
    guard (bool_decide (bindings !! kv.1 = None)) (Errorf ("required variable " +:+ quote kv.1 +:+ " not bound"))) ;;;
  sfor (range bindings) (λ _ kv,
    match binding_error kv.1 kv.2 with Some e => throw (Errorf e) | None => sret tt end).

Definition checkRawApprovals (playbook : Playbook) : svc State unit :=
  sfor playbook.(Playbook.Steps) (λ _ step,
    component <- ask (λ s, Ok (step_component step s)) ;;
    match component with
    | None => sret tt
    | Some component =>
        if component.(RecipeComponent.IsRaw) then
          approval <- attempt (ask (GetRawApproval component.(RecipeComponent.ID))) ;;
          match approval with
          | Ok _ => sret tt
          | _ => throw (Errorf ("RAW component " +:+ quote step.(PlaybookStep.ComponentRef) +:+
                                " requires admin approval before activation"))
          end
        else sret tt
    end).

(** The binding of a name, as it is stored. *)
Definition to_stored (activationID name : string) (b : VariableBinding) : PlaybookVariableBinding :=
  PlaybookVariableBinding.mk "" activationID name b.(VariableBinding.SourceType)
    b.(VariableBinding.SourceRef) b.(VariableBinding.LiteralValue).

(** [for name, binding := range bindings { CreateVariableBinding(...) }]; [xid i] is the
    identifier made in turn [i]. *)
Definition create_bindings (activationID : string) (bindings : gmap string VariableBinding) (now : time)
    (xid : nat → string) : svc State unit :=
  sfor (range bindings) (λ i kv,
    on_error (wrapf ("failed to create binding for " +:+ quote kv.1))
      (CreateVariableBinding (Some (to_stored activationID kv.1 kv.2)) now (xid i)) ;;;
    sret tt).

(** The second half of [Activate]: an activation the project already has is removed. *)
Definition remove_existing (projectID : string) (now : time) : svc State unit :=
  existing <- attempt (ask (GetPlaybookActivation projectID)) ;;
  match existing with
  | Ok existing =>
      on_error (wrapf "failed to remove existing activation")
        (DeletePlaybookActivation existing.(PlaybookActivation.ID) now)
  | _ => sret tt
  end.

Definition Activate (projectID playbookID : string) (bindings : gmap string VariableBinding)
    (userID : option string) (now : time) (xid : string) (xids : nat → string) : svc State PlaybookActivation :=
  playbook <- on_error (wrapf "playbook not found") (ask (GetPlaybookByID playbookID)) ;;
  validateBindings playbook bindings ;;;
  checkRawApprovals playbook ;;;
  remove_existing projectID now ;;;
  activation <- CreatePlaybookActivation
                  (Some (PlaybookActivation.mk "" projectID playbookID now userID [])) now xid ;;
  create_bindings activation.(PlaybookActivation.ID) bindings now xids ;;;
  sret activation.

Definition Deactivate (projectID : string) (now : time) : svc State unit :=
  existing <- on_error (wrapf "failed to get activation") (ask (GetPlaybookActivation projectID)) ;;
  DeletePlaybookActivation existing.(PlaybookActivation.ID) now.

Definition GetActive (projectID : string) : svc State PlaybookActivation :=
  activation <- ask (GetPlaybookActivation projectID) ;;
  bindings <- ask (GetVariableBindings activation.(PlaybookActivation.ID)) ;;
  sret {| activation with PlaybookActivation.Bindings := bindings |}.

Definition GetActiveWithPlaybook (projectID : string) : svc State (PlaybookActivation * Playbook) :=
  activation <- GetActive projectID ;;
  playbook <- on_error (wrapf "playbook not found") (ask (GetPlaybookByID activation.(PlaybookActivation.PlaybookID))) ;;
  sret (activation, playbook).

Definition ListByPlaybook (playbookID : string) : svc State (list PlaybookActivation) :=
  ask (ListActivationsByPlaybook playbookID).

Definition UpdateBindings (activationID : string) (bindings : gmap string VariableBinding) (now : time)
    (xids : nat → string) : svc State unit :=
  activation <- on_error (wrapf "activation not found") (ask (GetPlaybookActivationByID activationID)) ;;
  playbook <- on_error (wrapf "playbook not found") (ask (GetPlaybookByID activation.(PlaybookActivation.PlaybookID))) ;;
  validateBindings playbook bindings ;;;
  existing <- ask (GetVariableBindings activationID) ;;
  sfor existing (λ _ b,
    on_error (wrapf ("failed to delete binding " +:+ b.(PlaybookVariableBinding.ID)))
      (DeleteVariableBinding b.(PlaybookVariableBinding.ID) now)) ;;;
  create_bindings activationID bindings now xids.

(** [envGetter] and [secretGetter] may be nil. *)
Definition resolve_binding (envGetter : option (string → string))
    (secretGetter : option (string → result string)) (resolved : gmap string string)
    (b : PlaybookVariableBinding) : result (gmap string string) :=
  let name := b.(PlaybookVariableBinding.VariableName) in
  let ref := b.(PlaybookVariableBinding.SourceRef) in
  let typ := b.(PlaybookVariableBinding.SourceType) in
  if bool_decide (typ = SourceTypeLiteral)
  then Ok (<[name := b.(PlaybookVariableBinding.LiteralValue)]> resolved)
  else if bool_decide (typ = SourceTypeEnv)
  then Ok (match envGetter with Some get => <[name := get ref]> resolved | None => resolved end)
  else if bool_decide (typ = SourceTypeSecret)
  then match secretGetter with
       | Some get =>
           match get ref with
           | Ok value => Ok (<[name := value]> resolved)
           | Err e => Err (wrapf ("failed to resolve secret " +:+ quote ref) e)
           | Panic => Panic
           end
       | None => Ok resolved
       end
  else Err (Errorf ("unknown source type: " +:+ typ)).

Fixpoint resolve_bindings (envGetter : option (string → string))
    (secretGetter : option (string → result string)) (resolved : gmap string string)
    (bs : list PlaybookVariableBinding) : result (gmap string string) :=
  match bs with
  | [] => Ok resolved
  | b :: bs' =>
      rbind (resolve_binding envGetter secretGetter resolved b) (λ r, resolve_bindings envGetter secretGetter r bs')
  end.

Definition ResolveVariables (activationID : string) (envGetter : option (string → string))
    (secretGetter : option (string → result string)) : svc State (gmap string string) :=
  bindings <- ask (GetVariableBindings activationID) ;;
  ask (λ _, resolve_bindings envGetter secretGetter ∅ bindings).

End service.
End Activation.

(** * RawApprovalService *)

Module ApprovalStatus.
Record ApprovalStatus := mk {
  ComponentID : string;
  IsRaw : bool;
  IsApproved : bool;
  ApprovedBy : string;
  ApprovedAt : option time;
  ApprovalNote : string
}.
End ApprovalStatus.
Abbreviation ApprovalStatus := ApprovalStatus.ApprovalStatus.

Module Approval.

Definition RequiresApproval (componentID : string) : svc State bool :=
  component <- ask (GetRecipeComponentByID componentID) ;;
  if component.(RecipeComponent.IsRaw) then
    approval <- attempt (ask (GetRawApproval componentID)) ;;
    sret (match approval with Ok _ => false | _ => true end)
  else sret false.

Definition audit_entry (action componentID details : string) : AuditEntry :=
  AuditEntry.mk "" 0 "raw_approval" "" action "component" componentID "" details "" "".

Definition component_name (c : RecipeComponent) : string :=
  c.(RecipeComponent.Namespace) +:+ ":" +:+ c.(RecipeComponent.Slug).

(** The entries given to the audit service, when there is one; its errors are ignored. *)
Definition Approve (audited : bool) (componentID adminUserID note : string) (now : time) (xid : string)
    : svc State (list AuditEntry) :=
  component <- on_error (wrapf "component not found") (ask (GetRecipeComponentByID componentID)) ;;
  guard (negb component.(RecipeComponent.IsRaw)) (Errorf "component is not marked as RAW") ;;;
  existing <- attempt (ask (GetRawApproval componentID)) ;;
  guard (match existing with Ok _ => true | _ => false end) (Errorf "component already approved") ;;;
  on_error (wrapf "failed to create approval")
    (CreateRawApproval (Some (RawCommandApproval.mk "" componentID adminUserID now note)) now xid) ;;;
  sret (if audited
        then [audit_entry "raw_component_approved" componentID
                ("user_id=" +:+ adminUserID +:+ ", component=" +:+ component_name component +:+
                 ", note=" +:+ note)]
        else []).

Definition RevokeApproval (audited : bool) (componentID adminUserID : string) (now : time)
    : svc State (list AuditEntry) :=
  component <- on_error (wrapf "component not found") (ask (GetRecipeComponentByID componentID)) ;;
  guard (negb component.(RecipeComponent.IsRaw)) (Errorf "component is not marked as RAW") ;;;
  existing <- attempt (ask (GetRawApproval componentID)) ;;
  guard (match existing with Ok _ => false | _ => true end)
    (Errorf ("no approval found for component " +:+ componentID)) ;;;
  on_error (wrapf "failed to delete approval") (DeleteRawApproval componentID now) ;;;
  sret (if audited
        then [audit_entry "raw_component_revoked" componentID
                ("user_id=" +:+ adminUserID +:+ ", component=" +:+ component_name component)]
        else []).

Definition GetApprovalStatus (componentID : string) : svc State ApprovalStatus :=
  component <- ask (GetRecipeComponentByID componentID) ;;
  if component.(RecipeComponent.IsRaw) then
    approval <- attempt (ask (GetRawApproval componentID)) ;;
    sret (match approval with
          | Ok a => ApprovalStatus.mk componentID true true a.(RawCommandApproval.ApprovedBy)
                      (Some a.(RawCommandApproval.ApprovedAt)) a.(RawCommandApproval.ApprovalNote)
          | _ => ApprovalStatus.mk componentID true false "" None ""
          end)
  else sret (ApprovalStatus.mk componentID false false "" None "").

Definition pending (s : State) (c : RecipeComponent) : bool :=
  c.(RecipeComponent.IsRaw) &&
  match GetRawApproval c.(RecipeComponent.ID) s with Ok _ => false | _ => true end.

Definition ListPendingApprovals `{MapRange, SliceSort} : svc State (list RecipeComponent) :=
  seedComponents <- ask (ListRecipeComponents NamespaceSeed true) ;;
  userComponents <- ask (ListRecipeComponents NamespaceUser true) ;;
  ask (λ s, Ok (filter (λ c, pending s c = true) (seedComponents ++ userComponents))).

Definition ListAllApprovals `{MapRange, SliceSort} : svc State (list RawCommandApproval) := ask ListRawApprovals.

End Approval.

(** * DependencyService *)

Module ResourceUsage.
Record ResourceUsage := mk {
  ProjectID : string;
  ProjectName : string;
  PlaybookID : string;
  PlaybookName : string;
  VariableName : string
}.
End ResourceUsage.
Abbreviation ResourceUsage := ResourceUsage.ResourceUsage.

(** What [CheckDeletionSafe] returns: nil, the error with the usages, or another error. *)
Inductive deletion :=
| Safe
| DeletionBlockedError (ResourceType ResourceName : string) (Usages : list ResourceUsage)
| DeletionFailed (e : gerror).

Module Dependency.
Section service.
Context (proj : Projects.State).

Definition getProjectName (projectID : string) : string :=
  match Projects.GetProjectByID projectID proj with
  | Ok project => project.(Project.Name)
  | _ => "Project " +:+ projectID
  end.

Definition usage_of (s : State) (b : PlaybookVariableBinding) : option ResourceUsage :=
  match GetPlaybookActivationByID b.(PlaybookVariableBinding.ActivationID) s with
  | Ok activation =>
      match GetPlaybookByID activation.(PlaybookActivation.PlaybookID) s with
      | Ok playbook =>
          Some (ResourceUsage.mk activation.(PlaybookActivation.ProjectID)
                  (getProjectName activation.(PlaybookActivation.ProjectID))
                  activation.(PlaybookActivation.PlaybookID) playbook.(Playbook.Name)
                  b.(PlaybookVariableBinding.VariableName))
      | _ => None
      end
  | _ => None
  end.

Definition bindingsToUsages (bindings : list PlaybookVariableBinding) (s : State) : result (list ResourceUsage) :=
  Ok (omap (usage_of s) bindings).

Definition FindAllUsages (sourceType sourceRef : string) (s : State) : result (list ResourceUsage) :=
  rbind (FindBindingsBySourceRef sourceType sourceRef s) (λ bindings, bindingsToUsages bindings s).

Definition FindSecretUsages (secretName : string) (s : State) : result (list ResourceUsage) :=
  rbind (FindBindingsBySourceRef SourceTypeSecret secretName s) (λ bindings, bindingsToUsages bindings s).

Definition FindEnvUsages (envKey : string) (s : State) : result (list ResourceUsage) :=
  rbind (FindBindingsBySourceRef SourceTypeEnv envKey s) (λ bindings, bindingsToUsages bindings s).

Definition CheckDeletionSafe (resourceType resourceName : string) (s : State) : deletion :=
  let check r :=
    match r with
    | Ok [] => Safe
    | Ok usages => DeletionBlockedError resourceType resourceName usages
    | Err e => DeletionFailed (wrapf "failed to check usages" e)
    | Panic => DeletionFailed (Errorf "panic")
    end in
  if bool_decide (resourceType = SourceTypeSecret) then check (FindSecretUsages resourceName s)
  else if bool_decide (resourceType = SourceTypeEnv) then check (FindEnvUsages resourceName s)
  else DeletionFailed (Errorf ("unknown resource type: " +:+ resourceType)).

Definition CheckSecretDeletionSafe (secretName : string) := CheckDeletionSafe "secret" secretName.
Definition CheckEnvDeletionSafe (envKey : string) := CheckDeletionSafe "env" envKey.

Definition IsDeletionBlockedError (e : deletion) : bool :=
  match e with DeletionBlockedError _ _ _ => true | _ => false end.

Definition GetUsageDetails (usages : list ResourceUsage) : list string :=
  (λ u, "Project " +:+ quote u.(ResourceUsage.ProjectName) +:+ " uses variable " +:+
        quote u.(ResourceUsage.VariableName) +:+ " in playbook " +:+ quote u.(ResourceUsage.PlaybookName)) <$> usages.

End service.
End Dependency.

(** * Lemmas *)

Section activation.
Context `{MapRange}.

Lemma reads_validateBindings p bs : reads (Activation.validateBindings p bs).
Proof.
  unfold Activation.validateBindings. apply reads_sbind; [auto with reads|]. intros req.
  apply reads_sbind; [auto with reads|]. intros _. apply reads_sfor.
  intros _ kv. by destruct (Activation.binding_error kv.1 kv.2).
Qed.

Lemma reads_checkRawApprovals p : reads (Activation.checkRawApprovals p).
Proof.
  apply reads_sfor. intros _ step. apply reads_sbind; [auto with reads|]. intros [c|]; [|auto with reads].
  destruct (RecipeComponent.IsRaw c); [|auto with reads]. apply reads_sbind; [auto with reads|].
  intros []; auto with reads.
Qed.

(** A variable needs a binding. *)
Definition must_bind (v : VariableDefinition) : bool :=
  v.(VariableDefinition.Required) && bool_decide (v.(VariableDefinition.Default) = "").

Lemma required_of_variables vs (m : gmap string bool) name :
  is_Some (foldl (λ required v,
          if v.(VariableDefinition.Required) && bool_decide (v.(VariableDefinition.Default) = "")
          then <[v.(VariableDefinition.Name) := true]> required else required) m vs !! name) ↔
  is_Some (m !! name) ∨ ∃ v, v ∈ vs ∧ must_bind v = true ∧ v.(VariableDefinition.Name) = name.
Proof.
  revert m. induction vs as [|v vs IH]; intros m; simpl; [set_solver|]. rewrite IH.
  setoid_rewrite elem_of_cons. fold (must_bind v). destruct (must_bind v) eqn:E.
  - destruct (decide (v.(VariableDefinition.Name) = name)) as [<-|Hne].
    + rewrite lookup_insert_eq. naive_solver.
    + rewrite lookup_insert_ne by done. naive_solver.
  - naive_solver congruence.
Qed.

Lemma required_variables_spec p s name :
  is_Some (Activation.required_variables p s !! name) ↔
  ∃ step c v, step ∈ p.(Playbook.Steps) ∧ step_component step s = Some c ∧
    v ∈ c.(RecipeComponent.Variables) ∧ must_bind v = true ∧ v.(VariableDefinition.Name) = name.
Proof.
  unfold Activation.required_variables.
  assert (∀ steps (m : gmap string bool),
    is_Some (foldl (λ required step,
      match step_component step s with
      | Some component => foldl (λ required v,
          if v.(VariableDefinition.Required) && bool_decide (v.(VariableDefinition.Default) = "")
          then <[v.(VariableDefinition.Name) := true]> required else required)
          required component.(RecipeComponent.Variables)
      | None => required
      end) m steps !! name) ↔
    is_Some (m !! name) ∨ ∃ step c v, step ∈ steps ∧ step_component step s = Some c ∧
      v ∈ c.(RecipeComponent.Variables) ∧ must_bind v = true ∧ v.(VariableDefinition.Name) = name) as Hgen.
  { induction steps as [|step steps IH]; intros m; simpl; [set_solver|]. rewrite IH.
    setoid_rewrite elem_of_cons. destruct (step_component step s) as [c|] eqn:E; [|naive_solver congruence].
    rewrite required_of_variables. naive_solver congruence. }
  rewrite Hgen, lookup_empty. split; [|by right]. intros [[? ?]|?]; [done|done].
Qed.

(** What the checks of [Activate] ask for. *)
Record activatable (p : Playbook) (bindings : gmap string VariableBinding) (s : State) : Prop := {
  variables_bound : ∀ step c v, step ∈ p.(Playbook.Steps) → step_component step s = Some c →
    v ∈ c.(RecipeComponent.Variables) → must_bind v = true → is_Some (bindings !! v.(VariableDefinition.Name));
  sources_named : ∀ name b, bindings !! name = Some b →
    b.(VariableBinding.SourceType) = SourceTypeLiteral ∨
    (b.(VariableBinding.SourceType) = SourceTypeEnv ∨ b.(VariableBinding.SourceType) = SourceTypeSecret) ∧
    b.(VariableBinding.SourceRef) ≠ "";
  raw_approved : ∀ step c, step ∈ p.(Playbook.Steps) → step_component step s = Some c →
    c.(RecipeComponent.IsRaw) = true → ∃ a, GetRawApproval c.(RecipeComponent.ID) s = Ok a
}.

Lemma binding_error_None name b :
  Activation.binding_error name b = None ↔
  b.(VariableBinding.SourceType) = SourceTypeLiteral ∨
  (b.(VariableBinding.SourceType) = SourceTypeEnv ∨ b.(VariableBinding.SourceType) = SourceTypeSecret) ∧
  b.(VariableBinding.SourceRef) ≠ "".
Proof.
  unfold Activation.binding_error. repeat case_bool_decide; simpl; naive_solver.
Qed.

Lemma validateBindings_ok p bs s u :
  ret (Activation.validateBindings p bs s) = Ok u ↔
  (∀ name, is_Some (Activation.required_variables p s !! name) → is_Some (bs !! name)) ∧
  (∀ name b, bs !! name = Some b → Activation.binding_error name b = None).
Proof.
  unfold Activation.validateBindings. rewrite sbind_reads by auto with reads. simpl.
  rewrite sbind_ok. setoid_rewrite sfor_reads_ok; [|auto with reads|].
  2:{ intros [k b]. simpl. by destruct (Activation.binding_error k b). }
  assert (∀ l f, st (sfor (S := State) (A := string * bool) l (λ _ kv, guard (f kv) (Errorf ("required variable " +:+ quote kv.1 +:+ " not bound"))) s) = s) as Hst.
  { intros l f. apply reads_sfor. auto with reads. }
  rewrite Hst. setoid_rewrite guard_ok. split.
  - intros ([] & H1 & H2). split.
    + intros name [b Hb]. specialize (H1 (name, b)). rewrite elem_of_range in H1.
      apply H1, bool_decide_eq_false in Hb. by apply not_eq_None_Some in Hb.
    + intros name b Hb. specialize (H2 (name, b)). rewrite elem_of_range in H2. apply H2 in Hb. simpl in Hb.
      by destruct (Activation.binding_error name b).
  - intros [H1 H2]. exists tt. split.
    + intros [name b] Hb%elem_of_range. apply bool_decide_eq_false. simpl. apply not_eq_None_Some, H1. by eexists.
    + intros [name b] Hb%elem_of_range. simpl. by rewrite (H2 _ _ Hb).
Qed.

Lemma checkRawApprovals_ok p s u :
  ret (Activation.checkRawApprovals p s) = Ok u ↔
  ∀ step c, step ∈ p.(Playbook.Steps) → step_component step s = Some c →
    c.(RecipeComponent.IsRaw) = true → ∃ a, GetRawApproval c.(RecipeComponent.ID) s = Ok a.
Proof.
  unfold Activation.checkRawApprovals. rewrite sfor_reads_ok.
  2:{ intros step. apply reads_sbind; [auto with reads|]. intros [c|]; [|auto with reads].
      destruct (RecipeComponent.IsRaw c); [|auto with reads]. apply reads_sbind; [auto with reads|].
      intros []; auto with reads. }
  split; intros Hall step.
  - intros c Hin Hc Hr. specialize (Hall step Hin). rewrite sbind_reads in Hall by auto with reads. simpl in Hall.
    rewrite Hc, Hr in Hall. rewrite sbind_reads in Hall by auto with reads. simpl in Hall.
    destruct (GetRawApproval _ s) as [a| |]; simpl in Hall; [by exists a|done|done].
  - intros Hin. rewrite sbind_reads by auto with reads. simpl.
    destruct (step_component step s) as [c|] eqn:Hc; [|done].
    destruct (RecipeComponent.IsRaw c) eqn:Hr; [|done].
    destruct (Hall step c Hin Hc Hr) as [a Ha]. rewrite sbind_reads by auto with reads. simpl. by rewrite Ha.
Qed.

Lemma validateBindings_total p bs s : ret (Activation.validateBindings p bs s) ≠ Panic.
Proof.
  unfold Activation.validateBindings. apply no_panic_sbind; [done|]. intros req s1.
  apply no_panic_sbind; [|intros _ s2]; apply no_panic_sfor; intros _ kv s'.
  - unfold guard. by destruct (bool_decide _).
  - by destruct (Activation.binding_error kv.1 kv.2).
Qed.

Lemma checkRawApprovals_total p s : ret (Activation.checkRawApprovals p s) ≠ Panic.
Proof.
  apply no_panic_sfor. intros _ step s'. rewrite sbind_reads by auto with reads. simpl.
  destruct (step_component step s') as [c|]; [|done]. destruct (RecipeComponent.IsRaw c); [|done].
  rewrite sbind_reads by auto with reads. simpl. unfold GetRawApproval.
  by destruct (last _).
Qed.

Lemma activatable_ok p bs s :
  (∃ u v, ret (Activation.validateBindings p bs s) = Ok u ∧ ret (Activation.checkRawApprovals p s) = Ok v) ↔
  activatable p bs s.
Proof.
  setoid_rewrite validateBindings_ok. setoid_rewrite checkRawApprovals_ok. split.
  - intros (_ & _ & [Hb Hs] & Hr). split; [|intros name b Hn; by apply (binding_error_None name b), Hs|done].
    intros step c v ????. apply Hb, required_variables_spec. naive_solver.
  - intros []. exists tt, tt. split_and!; [|intros name b Hn; apply binding_error_None; by eapply sources_named0|done].
    intros name (step & c & v & ? & ? & ? & ? & <-)%required_variables_spec. eauto.
Qed.

(** ** What the second half of [Activate] does *)

Definition stored_binding (act : string) (xids : nat → string) (i : nat) (kv : string * VariableBinding)
    : PlaybookVariableBinding :=
  let b := Activation.to_stored act kv.1 kv.2 in {| b with PlaybookVariableBinding.ID := xids i |}.

(** The identifiers from [i] on, [n] of them, are new and distinct. *)
Definition fresh_bindings (xids : nat → string) (i n : nat) (s : State) : Prop :=
  (∀ j, (i ≤ j < i + n)%nat → variableBindings s !! xids j = None) ∧
  (∀ j k, (i ≤ j < i + n)%nat → (i ≤ k < i + n)%nat → xids j = xids k → j = k).

(** Everything but the bindings. *)
Definition same_activations (s s' : State) : Prop :=
  playbookActivations s' = playbookActivations s ∧ activationsByProject s' = activationsByProject s ∧
  playbooks s' = playbooks s ∧ recipeComponentsByKey s' = recipeComponentsByKey s ∧
  rawApprovalsByComponent s' = rawApprovalsByComponent s.

Lemma create_bindings_from act now xids i l s :
  wf s → fresh_bindings xids i (length l) s →
  let o := sfor_from i l (λ i kv,
    on_error (wrapf ("failed to create binding for " +:+ quote kv.1))
      (CreateVariableBinding (Some (Activation.to_stored act kv.1 kv.2)) now (xids i)) ;;;
    sret tt) s in
  ret o = Ok tt ∧ wf (st o) ∧ same_activations s (st o) ∧
  entry (bindingsByActivation (st o)) act =
  entry (bindingsByActivation s) act ++ imap (λ j, stored_binding act xids (i + j)) l.
Proof.
  revert i s. induction l as [|[name b] l IH]; intros i s Hw [Hf Hi].
  { simpl. by rewrite app_nil_r. }
  set (s1 := st (CreateVariableBinding (Some (Activation.to_stored act name b)) now (xids i) s)).
  assert (wf s1) as Hw1. { apply wf_create_binding; [done|]. simpl. apply Hf. simpl. lia. }
  assert (fresh_bindings xids (S i) (length l) s1) as Hf1.
  { split; [|intros j k ??; apply Hi; simpl; lia]. intros j Hj. simpl.
    rewrite lookup_insert_ne; [apply Hf; simpl; lia|]. intros E. change (xids i = xids j) in E.
    apply Hi in E; simpl; lia. }
  destruct (IH (S i) s1 Hw1 Hf1) as (Hr & Hwf & (H1 & H2 & H3 & H4 & H5) & He). clear IH.
  cbv zeta. cbn [sfor_from]. unfold sbind at 1. cbn -[sfor_from st entry].
  change (st _) with s1 at 1. fold s1.
  unfold sbind in Hr, Hwf, H1, H2, H3, H4, H5, He.
  split_and!; [exact Hr|exact Hwf|split_and!; [exact H1|exact H2|exact H3|exact H4|exact H5]|].
  etrans; [exact He|]. unfold s1. simpl. rewrite entry_insert_eq, <- (assoc_L (++)). f_equal. simpl. f_equal.
  - unfold stored_binding, Activation.to_stored. simpl. by rewrite Nat.add_0_r.
  - apply imap_ext. intros j x _. simpl. f_equal. lia.
Qed.

Lemma remove_existing_spec project now s :
  wf s →
  let o := Activation.remove_existing project now s in
  ret o = Ok tt ∧ wf (st o) ∧
  (∀ p, entry (activationsByProject (st o)) p = if decide (p = project) then [] else entry (activationsByProject s) p) ∧
  (∀ id a, playbookActivations (st o) !! id = Some a → playbookActivations s !! id = Some a) ∧
  variableBindings (st o) = variableBindings s ∧ bindingsByActivation (st o) = bindingsByActivation s.
Proof.
  intros Hw. unfold Activation.remove_existing. rewrite sbind_reads by auto with reads. simpl.
  unfold GetPlaybookActivation. pose proof (wf_one_activation s Hw project) as Hone.
  pose proof (wf_projects s Hw project) as [_ Hin].
  destruct (entry (activationsByProject s) project) as [|a [|]] eqn:E; simpl in *; [|clear Hone|lia].
  { split_and!; try done. intros p. case_decide; [by subst|done]. }
  destruct (proj1 (Hin a) ltac:(left)) as [Ha [= Hp]].
  pose proof (wf_delete_activation a.(PlaybookActivation.ID) now s Hw) as Hw'.
  unfold DeletePlaybookActivation in *. rewrite Ha in *. simpl in *. split_and!; try done.
  - intros p. rewrite Hp, E. simpl. rewrite bool_decide_true by done.
    case_decide; [subst; by rewrite entry_insert_eq|by rewrite entry_insert_ne].
  - intros id b. rewrite lookup_delete_Some. by intros [_ ?].
Qed.

Lemma or_now_self now : or_now now now = now.
Proof. unfold or_now. by destruct (IsZero now). Qed.

(** The new activation of a project that has none. *)
Lemma create_activation_spec project playbook user now xid s :
  wf s → playbookActivations s !! xid = None → entry (activationsByProject s) project = [] →
  let a := PlaybookActivation.mk xid project playbook now user [] in
  let o := CreatePlaybookActivation (Some (PlaybookActivation.mk "" project playbook now user [])) now xid s in
  ret o = Ok a ∧ wf (st o) ∧
  (∀ p, entry (activationsByProject (st o)) p = if decide (p = project) then [a] else entry (activationsByProject s) p) ∧
  variableBindings (st o) = variableBindings s ∧ bindingsByActivation (st o) = bindingsByActivation s.
Proof.
  intros Hw Hx He. cbv zeta.
  pose proof (wf_create_activation (Some (PlaybookActivation.mk "" project playbook now user [])) now xid s Hw Hx) as Hw'.
  unfold CreatePlaybookActivation in *. simpl in *. rewrite He in *. simpl in *. rewrite or_now_self in *.
  split_and!; try done. intros p. case_decide; [subst; by rewrite entry_insert_eq|by rewrite entry_insert_ne].
Qed.

(** C27: Activating a playbook.  In a consistent store, with new identifiers, the call
    succeeds exactly when the playbook exists, every variable its components require
    and give no default is bound, every binding names a source of a known type, and
    every RAW component among its steps is approved.  Then the project has the new
    activation and no other, with exactly the given bindings, the other projects keep
    theirs and the store is consistent; a call that fails leaves the store as it was. *)
Theorem activate_spec project playbookID bindings user now xid xids s :
  wf s → playbookActivations s !! xid = None →
  (∀ id b, variableBindings s !! id = Some b → b.(PlaybookVariableBinding.ActivationID) ≠ xid) →
  fresh_bindings xids 0 (size bindings) s →
  let o := Activation.Activate project playbookID bindings user now xid xids s in
  let a := PlaybookActivation.mk xid project playbookID now user [] in
  (ret o = Ok a ↔ ∃ p, GetPlaybookByID playbookID s = Ok p ∧ activatable p bindings s) ∧
  (ret o = Ok a →
     wf (st o) ∧ GetPlaybookActivation project (st o) = Ok a ∧
     (∀ p, p ≠ project → GetPlaybookActivation p (st o) = GetPlaybookActivation p s) ∧
     ∃ bs, GetVariableBindings xid (st o) = Ok bs ∧ length bs = size bindings ∧
       ∀ name b, bindings !! name = Some b ↔
         ∃ id, PlaybookVariableBinding.mk id xid name b.(VariableBinding.SourceType)
                 b.(VariableBinding.SourceRef) b.(VariableBinding.LiteralValue) ∈ bs) ∧
  (ret o ≠ Ok a → st o = s ∧ queued o = [] ∧ ∃ e, ret o = Err e).
Proof.
  intros Hw Hx Hnb Hfb. cbv zeta. unfold Activation.Activate.
  rewrite sbind_reads by auto with reads. unfold on_error at 1. unfold ask at 1. simpl.
  destruct (GetPlaybookByID playbookID s) as [p|e|] eqn:Ep; simpl.
  2:{ split_and!; [split; [done|by intros (? & ? & _)]|done|by eauto]. }
  2:{ unfold GetPlaybookByID in Ep. by destruct (playbooks s !! playbookID). }
  pose proof (activatable_ok p bindings s) as Hok.
  rewrite sbind_reads by apply reads_validateBindings.
  destruct (ret (Activation.validateBindings p bindings s)) as [u|e|] eqn:Ev; simpl.
  2:{ split_and!; [split; [done|]|done|by eauto]. intros (p' & [= <-] & Ha). apply Hok in Ha. naive_solver. }
  2:{ by destruct (validateBindings_total p bindings s). }
  rewrite sbind_reads by apply reads_checkRawApprovals.
  destruct (ret (Activation.checkRawApprovals p s)) as [v|e|] eqn:Ec; simpl.
  2:{ split_and!; [split; [done|]|done|by eauto]. intros (p' & [= <-] & Ha). apply Hok in Ha. naive_solver. }
  2:{ by destruct (checkRawApprovals_total p s). }
  assert (activatable p bindings s) as Hact by (apply Hok; eauto).
  destruct (remove_existing_spec project now s Hw) as (R1 & R2 & R3 & R4 & R5 & R6).
  set (s1 := st (Activation.remove_existing project now s)) in *.
  destruct (create_activation_spec project playbookID user now xid s1 R2) as (C1 & C2 & C3 & C4 & C5).
  { destruct (playbookActivations s1 !! xid) eqn:E; [|done]. apply R4 in E. congruence. }
  { rewrite R3. by rewrite decide_True. }
  set (s2 := st (CreatePlaybookActivation _ now xid s1)) in *.
  destruct (create_bindings_from xid now xids 0 (range bindings) s2 C2) as (B1 & B2 & (B3 & B4 & _) & B5).
  { rewrite range_length. unfold fresh_bindings in *. by rewrite C4, R5. }
  assert (ret (Activation.create_bindings xid bindings now xids s2) = Ok tt) as B1' by exact B1.
  erewrite (sbind_value (Activation.remove_existing project now)) by exact R1. fold s1.
  erewrite (sbind_value (CreatePlaybookActivation _ now xid)) by exact C1. fold s2. simpl.
  erewrite (sbind_value (Activation.create_bindings xid bindings now xids)) by exact B1'. simpl.
  set (s3 := st (Activation.create_bindings xid bindings now xids s2)).
  change (sfor_from 0 (range bindings) _ s2) with (Activation.create_bindings xid bindings now xids s2) in *.
  fold s3 in B2, B3, B4, B5.
  split_and!; [split; [by eauto|done]| |done]. intros _. split_and!.
  - done.
  - unfold GetPlaybookActivation. rewrite B4, C3. by rewrite decide_True.
  - intros p' Hp'. unfold GetPlaybookActivation. by rewrite B4, C3, decide_False, R3, decide_False.
  - exists (imap (stored_binding xid xids) (range bindings)).
    assert (entry (bindingsByActivation s2) xid = []) as Hnil.
    { rewrite C5, R6. apply (list_indexed_nil _ activation_of (variableBindings s) _ xid (wf_bindings s Hw)
        (wf_by_activation s Hw)). intros id b Hb [= E]. by apply (Hnb _ _ Hb). }
    unfold GetVariableBindings. rewrite B5, Hnil. split_and!; [done|by rewrite length_imap, range_length|].
    intros name b. split.
    + intros Hb. apply elem_of_range, list_elem_of_lookup in Hb as [i Hi].
      exists (xids i). apply list_elem_of_lookup. exists i. rewrite list_lookup_imap, Hi. done.
    + intros [id Hid]. apply list_elem_of_lookup in Hid as [i Hi]. rewrite list_lookup_imap, fmap_Some in Hi.
      destruct Hi as ([k b'] & Hi & E). apply elem_of_range, list_elem_of_lookup. exists i. rewrite Hi.
      unfold stored_binding, Activation.to_stored in E. simpl in E. injection E as _ -> E1 E2 E3.
      destruct b, b'; simpl in *. by subst.
Qed.

End activation.

(** The one binding the demonstration playbook needs. *)
Definition demo_bindings : gmap string VariableBinding :=
  {["env" := VariableBinding.mk "literal" "" "production"]}.

Lemma activate_spec_witness :
  ret (@Activation.Activate range_in_key_order "other" "p1" demo_bindings None 9 "a2" (λ _, "b2") Recipes.demo) =
  Ok (PlaybookActivation.mk "a2" "other" "p1" 9 None []).
Proof.
  apply (proj1 (@activate_spec range_in_key_order "other" "p1" demo_bindings None 9 "a2" (λ _, "b2") Recipes.demo
    (recipes_reachable_wf _ recipes_demo_reachable) ltac:(vm_compute; reflexivity)
    ltac:(apply (map_Forall_to_list (λ _ b, PlaybookVariableBinding.ActivationID b ≠ "a2"));
          vm_compute; repeat constructor; discriminate)
    ltac:(split; [intros; vm_compute; reflexivity|change (size demo_bindings) with 1%nat; intros; lia]))).
  exists demo_playbook. split; [vm_compute; reflexivity|]. split.
  - intros step c v Hs Hc Hv _. apply list_elem_of_singleton in Hs as ->.
    assert (c = demo_component) as -> by (vm_compute in Hc; injection Hc as <-; reflexivity).
    apply list_elem_of_singleton in Hv as ->. vm_compute. eexists. reflexivity.
  - intros name b Hb. unfold demo_bindings in Hb. apply lookup_singleton_Some in Hb as [<- <-]. left. reflexivity.
  - intros step c Hs Hc _. apply list_elem_of_singleton in Hs as ->.
    assert (c = demo_component) as -> by (vm_compute in Hc; injection Hc as <-; reflexivity).
    eexists. vm_compute. reflexivity.
Defined.

(** * Dependencies *)

(** The check before a secret or an environment key is deleted.  In a consistent
    store it passes exactly when no binding of an existing activation of an existing
    playbook takes its value from the resource; otherwise the error lists the usages,
    one for each such binding.  Any other type of resource is refused. *)
Theorem deletion_check_exact proj s typ name :
  wf s → name ≠ "" → typ = SourceTypeSecret ∨ typ = SourceTypeEnv →
  (∀ id b, variableBindings s !! id = Some b → free_of colon b.(PlaybookVariableBinding.SourceType) = true) →
  let used b := variableBindings s !! b.(PlaybookVariableBinding.ID) = Some b ∧
    b.(PlaybookVariableBinding.SourceType) = typ ∧ b.(PlaybookVariableBinding.SourceRef) = name ∧
    ∃ a p, playbookActivations s !! b.(PlaybookVariableBinding.ActivationID) = Some a ∧
           playbooks s !! a.(PlaybookActivation.PlaybookID) = Some p in
  (Dependency.CheckDeletionSafe proj typ name s = Safe ↔ ∀ b, ¬ used b) ∧
  (Dependency.CheckDeletionSafe proj typ name s ≠ Safe → ∃ usages,
     Dependency.CheckDeletionSafe proj typ name s = DeletionBlockedError typ name usages ∧
     ∀ u, u ∈ usages ↔ ∃ b, used b ∧ Dependency.usage_of proj s b = Some u) ∧
  (∀ other, other ≠ SourceTypeSecret → other ≠ SourceTypeEnv →
     Dependency.CheckDeletionSafe proj other name s = DeletionFailed (Errorf ("unknown resource type: " +:+ other))).
Proof.
  intros Hw Hn Ht Hcol used.
  assert (∀ b, is_Some (Dependency.usage_of proj s b) ↔
    ∃ a p, playbookActivations s !! b.(PlaybookVariableBinding.ActivationID) = Some a ∧
           playbooks s !! a.(PlaybookActivation.PlaybookID) = Some p) as Hu.
  { intros b. unfold Dependency.usage_of, GetPlaybookActivationByID, GetPlaybookByID.
    destruct (playbookActivations s !! _) as [a|]; [|split; [by intros []|naive_solver]].
    destruct (playbooks s !! _) eqn:E; [|split; [by intros []|naive_solver]].
    split; [naive_solver|by eexists]. }
  destruct (proj2 (proj2 (proj2 (proj2 (recipe_queries_lemma s Hw)))) typ name) as (bs & Hf & _ & Hin); [tauto|done|].
  assert (∀ u, u ∈ omap (Dependency.usage_of proj s) bs ↔ ∃ b, used b ∧ Dependency.usage_of proj s b = Some u) as Hmem.
  { intros u. rewrite list_elem_of_omap. split; intros (b & Hb & Hub); exists b.
    - split; [|done]. destruct (wf_sources s Hw (bindingSourceKey typ name)) as [_ He].
      pose proof Hb as Hbs. unfold FindBindingsBySourceRef in Hf. injection Hf as Hf.
      rewrite <- Hf, He in Hb. destruct Hb as [Hb _].
      apply (Hin b (Hcol _ _ Hb)) in Hbs as (? & ? & ?). repeat split; try done. apply Hu. by eexists.
    - split; [|done]. destruct Hb as (Hb & ? & ? & _). by apply (Hin b (Hcol _ _ Hb)). }
  assert (Dependency.CheckDeletionSafe proj typ name s =
    match omap (Dependency.usage_of proj s) bs with [] => Safe | us => DeletionBlockedError typ name us end) as Hc.
  { unfold Dependency.CheckDeletionSafe, Dependency.FindSecretUsages, Dependency.FindEnvUsages.
    destruct Ht as [->| ->]; [rewrite bool_decide_true by done|
      rewrite bool_decide_false, bool_decide_true by done];
      rewrite Hf; unfold rbind, Dependency.bindingsToUsages; by destruct (omap _ bs). }
  rewrite Hc. split_and!.
  - destruct (omap _ bs) as [|u us] eqn:E; split; try done.
    + intros _ b Hb. destruct (proj2 (Hu b)) as [u Hub]; [apply Hb|].
      assert (u ∈ ([] : list ResourceUsage)) as Hnil by (apply Hmem; eauto). set_solver.
    + intros Hno. destruct (proj1 (Hmem u) ltac:(left)) as (b & Hb & _). by apply Hno in Hb.
  - intros Hne. exists (omap (Dependency.usage_of proj s) bs). split; [|done].
    by destruct (omap (Dependency.usage_of proj s) bs).
  - intros other H1 H2. unfold Dependency.CheckDeletionSafe. by rewrite !bool_decide_false.
Qed.

Lemma deletion_check_exact_witness :
  Dependency.CheckDeletionSafe Projects.empty "env" "APP_ENV" Recipes.demo ≠ Safe ∧
  Dependency.CheckDeletionSafe Projects.empty "env" "OTHER" Recipes.demo = Safe.
Proof.
  split; [vm_compute; discriminate|].
  apply (proj1 (deletion_check_exact Projects.empty Recipes.demo "env" "OTHER"
    (recipes_reachable_wf _ recipes_demo_reachable) ltac:(discriminate) ltac:(right; reflexivity)
    ltac:(apply (map_Forall_to_list (λ _ b, free_of colon (PlaybookVariableBinding.SourceType b) = true));
          vm_compute; repeat constructor))).
  intros b (Hb & _ & Hr & _).
  revert Hr. apply (map_Forall_to_list (λ _ b, PlaybookVariableBinding.SourceRef b ≠ "OTHER")
    (variableBindings Recipes.demo)) in Hb; [exact Hb|vm_compute; repeat constructor; discriminate].
Defined.

(** * Approvals *)

Lemma requires_approval_eq id c s :
  recipeComponents s !! id = Some c → c.(RecipeComponent.IsRaw) = true →
  ret (Approval.RequiresApproval id s) =
  Ok (match last (entry (rawApprovalsByComponent s) id) with Some _ => false | None => true end).
Proof.
  intros Hc Hr. unfold Approval.RequiresApproval. rewrite sbind_reads by auto with reads.
  rewrite ret_ask. unfold GetRecipeComponentByID. rewrite Hc, Hr.
  rewrite sbind_reads, ret_attempt, ret_ask by auto with reads. unfold GetRawApproval.
  by destruct (last _).
Qed.

(** Both methods look at the component and its approval before they change anything. *)
Lemma checked_raw {A} id c (bad : result RawCommandApproval → bool) e (k : RecipeComponent → svc State A) s :
  recipeComponents s !! id = Some c → c.(RecipeComponent.IsRaw) = true →
  (component <- on_error (wrapf "component not found") (ask (GetRecipeComponentByID id)) ;;
   guard (negb component.(RecipeComponent.IsRaw)) (Errorf "component is not marked as RAW") ;;;
   existing <- attempt (ask (GetRawApproval id)) ;;
   guard (bad existing) e ;;;
   k component) s =
  if bad (GetRawApproval id s) then mkOut s [] (Err e) else k c s.
Proof.
  intros Hc Hr. rewrite sbind_reads, ret_on_error, ret_ask by auto with reads.
  unfold GetRecipeComponentByID. rewrite Hc, sbind_reads, Hr by auto with reads. cbn [guard negb ret sret].
  rewrite sbind_reads, ret_attempt, ret_ask by auto with reads. unfold GetRawApproval.
  destruct (last _); rewrite sbind_reads by auto with reads; unfold guard; by destruct (bad _).
Qed.

Lemma approve_eq audited id admin note now xid c s :
  recipeComponents s !! id = Some c → c.(RecipeComponent.IsRaw) = true →
  let o := Approval.Approve audited id admin note now xid s in
  match entry (rawApprovalsByComponent s) id with
  | [] => let a := RawCommandApproval.mk xid id admin now note in
      st o = {| s with rawApprovals := <[xid := a]> (rawApprovals s);
                rawApprovalsByComponent := <[id := [a]]> (rawApprovalsByComponent s) |} ∧
      ∃ log, ret o = Ok log ∧ length log = if audited then 1%nat else 0%nat
  | _ => ret o = Err (Errorf "component already approved")
  end.
Proof.
  intros Hc Hr. cbv zeta. unfold Approval.Approve. rewrite (checked_raw _ c (λ r, match r with Ok _ => true | _ => false end)) by done.
  unfold GetRawApproval.
  destruct (entry (rawApprovalsByComponent s) id) as [|a l] eqn:E.
  - cbn [last]. unfold sbind, on_error, CreateRawApproval. cbn [RawCommandApproval.ComponentID]. rewrite E.
    cbn [existsb]. cbn. rewrite ?E, or_now_self. split; [done|].
    destruct audited; cbn [ret sret]; eauto.
  - destruct (last (a :: l)) eqn:El; [done|by apply last_None in El].
Qed.

Lemma revoke_eq audited id admin now c a s :
  recipeComponents s !! id = Some c → c.(RecipeComponent.IsRaw) = true →
  entry (rawApprovalsByComponent s) id = [a] →
  let s' := st (Approval.RevokeApproval audited id admin now s) in
  recipeComponents s' = recipeComponents s ∧ entry (rawApprovalsByComponent s') id = [].
Proof.
  intros Hc Hr He. cbv zeta. unfold Approval.RevokeApproval.
  rewrite (checked_raw _ c (λ r, match r with Ok _ => false | _ => true end)) by done.
  unfold GetRawApproval. rewrite He. cbn [last].
  unfold sbind, on_error, DeleteRawApproval. rewrite He. cbn. split; [done|]. apply entry_delete_eq.
Qed.

(** An edit by the service that keeps the version. *)
Lemma update_same_version `{SemverLib} c old now s :
  recipeComponents s !! c.(RecipeComponent.ID) = Some old → old.(RecipeComponent.IsSeed) = false →
  component_key c = component_key old → c.(RecipeComponent.Version) = old.(RecipeComponent.Version) →
  st (Components.Update c now s) =
  {| s with recipeComponents := <[c.(RecipeComponent.ID) := c]> (recipeComponents s);
            recipeComponentsByKey := <[component_key c := c]> (recipeComponentsByKey s) |}.
Proof.
  intros Ho Hs Hk Hv. unfold Components.Update. rewrite sbind_reads by auto with reads.
  rewrite ret_ask. unfold GetRecipeComponentByID. rewrite Ho.
  rewrite sbind_reads, Hs by auto with reads. cbn [guard ret sret].
  rewrite bool_decide_true by done. unfold UpdateRecipeComponent. rewrite Ho. cbv zeta. rewrite Hk.
  by rewrite bool_decide_true.
Qed.

(** An approval is for the component, not for what it runs.  An unapproved RAW
    component needs approval; approving it succeeds, and from then on it needs none and
    cannot be approved again; revoking brings the need back.  But editing the component
    through the service, for instance replacing its commands, keeps the approval: the new
    commands count as approved without anybody having seen them. *)
Theorem approval_outlives_content `{SemverLib} id c s :
  wf s → recipeComponents s !! id = Some c → c.(RecipeComponent.IsRaw) = true →
  c.(RecipeComponent.IsSeed) = false → entry (rawApprovalsByComponent s) id = [] →
  ∀ audited admin note now xid content now',
  let s1 := st (Approval.Approve audited id admin note now xid s) in
  let s2 := st (Components.Update {| c with RecipeComponent.Content := content |} now' s1) in
  ret (Approval.RequiresApproval id s) = Ok true ∧
  (∃ log, ret (Approval.Approve audited id admin note now xid s) = Ok log ∧
          length log = if audited then 1%nat else 0%nat) ∧
  ret (Approval.RequiresApproval id s1) = Ok false ∧
  ret (Approval.Approve audited id admin note now xid s1) = Err (Errorf "component already approved") ∧
  ret (Approval.RequiresApproval id (st (Approval.RevokeApproval audited id admin now' s1))) = Ok true ∧
  GetRecipeComponentByID id s2 = Ok {| c with RecipeComponent.Content := content |} ∧
  ret (Approval.RequiresApproval id s2) = Ok false.
Proof.
  intros Hw Hc Hraw Hseed Hno audited admin note now xid content now'.
  pose proof (wf_components s Hw) as [Hk _]. destruct (Hk _ _ Hc) as [Hid _].
  pose proof (approve_eq audited id admin note now xid c s Hc Hraw) as Ha. rewrite Hno in Ha.
  destruct Ha as [Hs1 Hlog]. set (a := RawCommandApproval.mk xid id admin now note) in *. cbv zeta.
  set (s1 := st (Approval.Approve _ _ _ _ _ _ s)) in *.
  assert (recipeComponents s1 !! id = Some c) as Hc1 by (by rewrite Hs1).
  assert (entry (rawApprovalsByComponent s1) id = [a]) as He1 by (rewrite Hs1; apply entry_insert_eq).
  clearbody s1. split_and!.
  - by rewrite (requires_approval_eq id c), Hno.
  - exact Hlog.
  - by rewrite (requires_approval_eq id c), He1.
  - pose proof (approve_eq audited id admin note now xid c s1 Hc1 Hraw) as Ha. by rewrite He1 in Ha.
  - destruct (revoke_eq audited id admin now' c a s1 Hc1 Hraw He1) as [Hc2 He2].
    by rewrite (requires_approval_eq id c), He2; rewrite ?Hc2.
  - rewrite (update_same_version _ c); try done; [|by rewrite <- Hid in Hc1].
    unfold GetRecipeComponentByID. simpl. by rewrite Hid, lookup_insert_eq.
  - rewrite (update_same_version _ c); try done; [|by rewrite <- Hid in Hc1].
    erewrite requires_approval_eq; [|simpl; by rewrite Hid, lookup_insert_eq|done]. simpl. by rewrite He1.
Qed.

Definition demo_raw : RecipeComponent := {| demo_component with RecipeComponent.IsRaw := true |}.
Definition demo_rm : ComponentContent :=
  ComponentContent.mk ["rm -rf /"] "" "" 0 false "" "" "" "" "" "" "" "".
Definition demo_raw_store : State :=
  st (CreateRecipeComponent (Some demo_raw) 1 "x" Recipes.empty).

Lemma approval_outlives_content_witness :
  ret (Approval.RequiresApproval "c1"
    (st (@Components.Update plain_semver {| demo_raw with RecipeComponent.Content := demo_rm |} 7
      (st (Approval.Approve false "c1" "admin" "looks fine" 5 "r9" demo_raw_store))))) = Ok false.
Proof.
  apply (@approval_outlives_content plain_semver "c1" demo_raw demo_raw_store); try (vm_compute; reflexivity).
  apply wf_create_component; [apply recipes_wf_empty|vm_compute; reflexivity].
Defined.
