(* ===== verification/Resolver.v ===== *)
(** Resolution of an activated playbook into deployment steps
    ([src/internal/services/recipes/resolver.go]), and the text functions of the
    migration from configuration files ([migration.go]). *)

From stdpp Require Import pretty.
From S2P Require Import StoreBase GoStrings GoSort RecipeModels MemRecipes Semver ServiceBase RecipeServices Activations.

#[local] Open Scope string_scope.
#[local] Open Scope list_scope.
#[local] Open Scope Z_scope.
#[local] Open Scope svc_scope.

Import Recipes.

Module ResolvedStep.
Record ResolvedStep := mk {
  Order : Z;
  Phase : string;
  ComponentRef : string;
  ComponentName : string;
  ComponentType : string;
  IsRaw : bool;
  Content : string;
  Variables : gmap string string;
  Condition : string;
  TargetPath : string;
  TemplateSource : string
}.
End ResolvedStep.
Abbreviation ResolvedStep := ResolvedStep.ResolvedStep.

Module ResolvedPlaybook.
Record ResolvedPlaybook := mk {
  PlaybookID : string;
  PlaybookName : string;
  PlaybookVersion : string;
  ProjectID : string;
  PreDeploySteps : list ResolvedStep;
  DeploySteps : list ResolvedStep;
  PostDeploySteps : list ResolvedStep;
  RollbackSteps : list ResolvedStep;
  SharedDirs : list string
}.
End ResolvedPlaybook.
Abbreviation ResolvedPlaybook := ResolvedPlaybook.ResolvedPlaybook.

Module DeployHooks.
Record DeployHooks := mk {
  PreDeployHooks : list string;
  PostDeployHooks : list string;
  RollbackHooks : list string
}.
End DeployHooks.
Abbreviation DeployHooks := DeployHooks.DeployHooks.

Module ServiceReloadConfig.
Record ServiceReloadConfig := mk { Service : string; Action : string }.
End ServiceReloadConfig.
Abbreviation ServiceReloadConfig := ServiceReloadConfig.ServiceReloadConfig.

Module DeploymentConfig.
Record DeploymentConfig := mk {
  EnvVars : gmap string string;
  EnvFileContent : list Z;
  ReloadServices : list ServiceReloadConfig
}.
End DeploymentConfig.
Abbreviation DeploymentConfig := DeploymentConfig.DeploymentConfig.

Module DeploymentRequest.
Record DeploymentRequest := mk {
  PlaybookID : string;
  PlaybookName : string;
  PlaybookVersion : string;
  PreDeployHooks : list string;
  PostDeployHooks : list string;
  RollbackHooks : list string;
  SharedDirs : list string;
  EnvVars : gmap string string;
  EnvFileContent : list Z;
  ReloadServices : list ServiceReloadConfig
}.
End DeploymentRequest.
Abbreviation DeploymentRequest := DeploymentRequest.DeploymentRequest.

Module Resolver.
Section resolver.
Context `{MapRange}.

(** One turn of the loop over the variables: both placeholders of the name. *)
Definition substitute (cmd : string) (kv : string * string) : string :=
  ReplaceAll (ReplaceAll cmd ("{{" +:+ kv.1 +:+ "}}") kv.2) ("${" +:+ kv.1 +:+ "}") kv.2.

(** The loop over the variables is run for every command. *)
Definition resolve_command (vars : gmap string string) (cmd : string) : string :=
  foldl substitute cmd (range vars).

(** The variables of the activation, overridden by those of the step. *)
Definition step_variables (step : PlaybookStep) (vars : gmap string string) : gmap string string :=
  step.(PlaybookStep.VariableBindings) ∪ vars.

Definition resolved_step (step : PlaybookStep) (component : RecipeComponent) (vars : gmap string string)
    : ResolvedStep :=
  let content := component.(RecipeComponent.Content) in
  let variables := step_variables step vars in
  ResolvedStep.mk step.(PlaybookStep.Order) step.(PlaybookStep.Phase) step.(PlaybookStep.ComponentRef)
    component.(RecipeComponent.Name) component.(RecipeComponent.ComponentType)
    component.(RecipeComponent.IsRaw)
    (Join (resolve_command variables <$> content.(ComponentContent.Commands)) (String newline ""))
    variables step.(PlaybookStep.Condition)
    (if bool_decide (component.(RecipeComponent.ComponentType) = "file_op") then
       content.(ComponentContent.DestPath) else "")
    "".

Definition resolveStep (step : PlaybookStep) (vars : gmap string string) : svc State ResolvedStep :=
  let ref := step.(PlaybookStep.ComponentRef) in
  match split_on colon ref with
  | [namespace; slug; version] =>
      component <- on_error (λ _, Errorf ("component not found: " +:+ ref)) (Components.Get namespace slug version) ;;
      sret (resolved_step step component vars)
  | _ => throw (Errorf ("invalid component reference: " +:+ ref))
  end.

(** The step joins the list of its phase; a step of any other phase is left out. *)
Definition add_step (phase : string) (step : ResolvedStep) (r : ResolvedPlaybook) : ResolvedPlaybook :=
  if bool_decide (phase = "pre_deploy")
  then {| r with ResolvedPlaybook.PreDeploySteps := r.(ResolvedPlaybook.PreDeploySteps) ++ [step] |}
  else if bool_decide (phase = "deploy")
  then {| r with ResolvedPlaybook.DeploySteps := r.(ResolvedPlaybook.DeploySteps) ++ [step] |}
  else if bool_decide (phase = "post_deploy")
  then {| r with ResolvedPlaybook.PostDeploySteps := r.(ResolvedPlaybook.PostDeploySteps) ++ [step] |}
  else if bool_decide (phase = "rollback")
  then {| r with ResolvedPlaybook.RollbackSteps := r.(ResolvedPlaybook.RollbackSteps) ++ [step] |}
  else r.

Fixpoint resolve_steps (vars : gmap string string) (steps : list PlaybookStep) (r : ResolvedPlaybook)
    : svc State ResolvedPlaybook :=
  match steps with
  | [] => sret r
  | step :: steps' =>
      resolvedStep <- on_error (wrapf ("resolving step " +:+ pretty step.(PlaybookStep.Order))) (resolveStep step vars) ;;
      resolve_steps vars steps' (add_step step.(PlaybookStep.Phase) resolvedStep r)
  end.

Definition Resolve (projectID : string) (envGetter : option (string → string))
    (secretGetter : option (string → result string)) : svc State ResolvedPlaybook :=
  active <- on_error (wrapf "no active playbook") (Activation.GetActiveWithPlaybook projectID) ;;
  let '(activation, playbook) := active in
  resolvedVars <- on_error (wrapf "resolving variables")
    (Activation.ResolveVariables activation.(PlaybookActivation.ID) envGetter secretGetter) ;;
  resolve_steps resolvedVars playbook.(Playbook.Steps)
    (ResolvedPlaybook.mk playbook.(Playbook.ID) playbook.(Playbook.Name) playbook.(Playbook.Version)
       projectID [] [] [] [] playbook.(Playbook.SharedDirs)).

Definition HasActivePlaybook (projectID : string) (s : State) : bool :=
  match ret (Activation.GetActive projectID s) with Ok _ => true | _ => false end.

Definition shell_hooks (steps : list ResolvedStep) : list string :=
  ResolvedStep.Content <$> filter (λ step, step.(ResolvedStep.ComponentType) = "shell") steps.

Definition ToDeployHooks (resolved : ResolvedPlaybook) : DeployHooks :=
  DeployHooks.mk (shell_hooks resolved.(ResolvedPlaybook.PreDeploySteps))
    (shell_hooks resolved.(ResolvedPlaybook.PostDeploySteps))
    (shell_hooks resolved.(ResolvedPlaybook.RollbackSteps)).

Definition GetSharedDirs (resolved : ResolvedPlaybook) : list string := resolved.(ResolvedPlaybook.SharedDirs).

Definition check_step (step : PlaybookStep) : svc State unit :=
  match split_on colon step.(PlaybookStep.ComponentRef) with
  | [namespace; slug; version] =>
      component <- on_error (λ _, Errorf ("component not found: " +:+ step.(PlaybookStep.ComponentRef)))
                     (Components.Get namespace slug version) ;;
      if component.(RecipeComponent.IsRaw) then
        approval <- attempt (ask (GetRawApproval component.(RecipeComponent.ID))) ;;
        match approval with
        | Ok _ => sret tt
        | _ => throw (Errorf ("RAW component " +:+ component.(RecipeComponent.Name) +:+ " requires admin approval"))
        end
      else sret tt
  | _ => sret tt
  end.

Definition ValidateForDeployment (projectID : string) : svc State unit :=
  activation <- on_error (λ _, Errorf "no active playbook") (Activation.GetActive projectID) ;;
  playbook <- on_error (λ _, Errorf "playbook not found")
                (ask (GetPlaybookByID activation.(PlaybookActivation.PlaybookID))) ;;
  sfor playbook.(Playbook.Steps) (λ _, check_step).

Definition hooks_of (steps : list ResolvedStep) : list string :=
  filter (λ content, content ≠ "") (ResolvedStep.Content <$> steps).

Definition BuildDeployRequest (resolved : ResolvedPlaybook) (cfg : option DeploymentConfig) : DeploymentRequest :=
  DeploymentRequest.mk resolved.(ResolvedPlaybook.PlaybookID) resolved.(ResolvedPlaybook.PlaybookName)
    resolved.(ResolvedPlaybook.PlaybookVersion)
    (hooks_of resolved.(ResolvedPlaybook.PreDeploySteps))
    (hooks_of resolved.(ResolvedPlaybook.PostDeploySteps))
    (hooks_of resolved.(ResolvedPlaybook.RollbackSteps))
    resolved.(ResolvedPlaybook.SharedDirs)
    (match cfg with Some cfg => cfg.(DeploymentConfig.EnvVars) | None => ∅ end)
    (match cfg with Some cfg => cfg.(DeploymentConfig.EnvFileContent) | None => [] end)
    (match cfg with Some cfg => cfg.(DeploymentConfig.ReloadServices) | None => [] end).

End resolver.
End Resolver.

(** * Migration *)

(** [slugify] ranges over the runes; those that are not ASCII are dropped byte by byte. *)
Definition slug_char (result : string) (c : Ascii.ascii) : string :=
  let n := Ascii.nat_of_ascii c in
  if (97 <=? n)%nat && (n <=? 122)%nat then result +:+ String c ""
  else if (65 <=? n)%nat && (n <=? 90)%nat then result +:+ String (Ascii.ascii_of_nat (n + 32)) ""
  else if (48 <=? n)%nat && (n <=? 57)%nat then result +:+ String c ""
  else if (n =? 32)%nat || (n =? 95)%nat || (n =? 45)%nat then
    match last (String.list_ascii_of_string result) with
    | Some d => if Ascii.eqb d (Ascii.ascii_of_nat 45) then result else result +:+ "-"
    | None => result
    end
  else result.

(** [for result != "" && result[len-1] == '-' { result = result[:len-1] }] *)
Fixpoint trim_dashes (s : string) : string :=
  match s with
  | EmptyString => EmptyString
  | String c s' =>
      match trim_dashes s' with
      | EmptyString => if Ascii.eqb c (Ascii.ascii_of_nat 45) then EmptyString else String c EmptyString
      | t => String c t
      end
  end.

Definition slugify (name : string) : string :=
  trim_dashes (foldl slug_char "" (String.list_ascii_of_string name)).

(** [containsHelper]: some slice [s[i:i+len(substr)]] with [0 <= i <= len(s)-len(substr)]. *)
Definition containsHelper (s substr : string) : bool :=
  existsb (λ i, bool_decide (take_chars (String.length substr) (drop_chars i s) = substr))
    (seq 0 (String.length s + 1 - String.length substr)).

Definition containsString (s substr : string) : bool :=
  (String.length substr <=? String.length s)%nat &&
  (bool_decide (s = substr) || (negb (bool_decide (s = "")) && containsHelper s substr)).

Definition dangerousPatterns : list string :=
  ["$("; "`"; "&&"; "||"; "|"; ">"; "<"; ";"; "rm -rf"; "sudo "; "chmod 777"; "eval "].

Definition isRawCommand (cmd : string) : bool := existsb (containsString cmd) dangerousPatterns.

(** * Lemmas *)

Section resolver.
Context `{MapRange}.

(** The component [resolveStep] takes. *)
Definition found (step : PlaybookStep) (s : State) : option RecipeComponent :=
  match split_on colon step.(PlaybookStep.ComponentRef) with
  | [namespace; slug; version] =>
      match ret (Components.Get namespace slug version s) with Ok c => Some c | _ => None end
  | _ => None
  end.

Lemma reads_Get n g v : reads (Components.Get n g v).
Proof. apply reads_ask. Qed.
#[local] Hint Resolve reads_Get : reads.

Lemma reads_resolveStep step vars : reads (Resolver.resolveStep step vars).
Proof. unfold Resolver.resolveStep. repeat case_match; auto with reads. Qed.

Lemma resolveStep_ok step vars s r :
  ret (Resolver.resolveStep step vars s) = Ok r ↔
  ∃ c, found step s = Some c ∧ r = Resolver.resolved_step step c vars.
Proof.
  unfold Resolver.resolveStep, found.
  destruct (split_on colon _) as [|a [|b [|c [|]]]]; try (split; [done|by intros (? & ? & _)]).
  rewrite sbind_reads, ret_on_error by auto with reads.
  destruct (ret (Components.Get a b c s)); simpl; naive_solver.
Qed.

(** The steps of a phase with their components, in order. *)
Definition phase_steps (vars : gmap string string) (phase : string)
    (l : list (PlaybookStep * RecipeComponent)) : list ResolvedStep :=
  (λ sc, Resolver.resolved_step sc.1 sc.2 vars) <$> filter (λ sc, sc.1.(PlaybookStep.Phase) = phase) l.

Lemma phase_steps_cons vars phase step c l :
  phase_steps vars phase ((step, c) :: l) =
  (if bool_decide (step.(PlaybookStep.Phase) = phase) then [Resolver.resolved_step step c vars] else []) ++
  phase_steps vars phase l.
Proof. unfold phase_steps. rewrite filter_cons. simpl. by repeat case_decide; repeat case_bool_decide. Qed.

Lemma resolve_steps_ok vars steps r s r' :
  ret (Resolver.resolve_steps vars steps r s) = Ok r' →
  ∃ l, l.*1 = steps ∧ (∀ step c, (step, c) ∈ l → found step s = Some c) ∧
    r' = {| r with
      ResolvedPlaybook.PreDeploySteps := r.(ResolvedPlaybook.PreDeploySteps) ++ phase_steps vars "pre_deploy" l;
      ResolvedPlaybook.DeploySteps := r.(ResolvedPlaybook.DeploySteps) ++ phase_steps vars "deploy" l;
      ResolvedPlaybook.PostDeploySteps := r.(ResolvedPlaybook.PostDeploySteps) ++ phase_steps vars "post_deploy" l;
      ResolvedPlaybook.RollbackSteps := r.(ResolvedPlaybook.RollbackSteps) ++ phase_steps vars "rollback" l |}.
Proof.
  revert r. induction steps as [|step steps IH]; intros r; cbn [Resolver.resolve_steps].
  { intros [= <-]. exists []. split_and!; [done|set_solver|]. destruct r; simpl. by rewrite !app_nil_r. }
  pose proof (reads_resolveStep step vars) as Hrd.
  rewrite sbind_reads, ret_on_error by auto with reads.
  destruct (ret (Resolver.resolveStep step vars s)) as [rs| |] eqn:E; [|done..].
  apply resolveStep_ok in E as (c & Hc & ->). intros Hr. apply IH in Hr as (l & <- & Hl & ->).
  exists ((step, c) :: l). split_and!; [done|set_solver|].
  rewrite !phase_steps_cons. unfold Resolver.add_step.
  destruct r; simpl. repeat (case_bool_decide; simpl; try congruence); by rewrite ?app_nil_r, <- ?(assoc_L (++)).
Qed.

Lemma resolve_by_phase_lemma project env secret s r :
  ret (Resolver.Resolve project env secret s) = Ok r →
  ∃ a p vars l,
    ret (Activation.GetActiveWithPlaybook project s) = Ok (a, p) ∧
    ret (Activation.ResolveVariables a.(PlaybookActivation.ID) env secret s) = Ok vars ∧
    l.*1 = p.(Playbook.Steps) ∧ (∀ step c, (step, c) ∈ l → found step s = Some c) ∧
    r.(ResolvedPlaybook.PreDeploySteps) = phase_steps vars PhasePreDeploy l ∧
    r.(ResolvedPlaybook.DeploySteps) = phase_steps vars PhaseDeploy l ∧
    r.(ResolvedPlaybook.PostDeploySteps) = phase_steps vars PhasePostDeploy l ∧
    r.(ResolvedPlaybook.RollbackSteps) = phase_steps vars PhaseRollback l.
Proof.
  unfold Resolver.Resolve.
  assert (reads (Activation.GetActiveWithPlaybook project)) as Hr1.
  { unfold Activation.GetActiveWithPlaybook, Activation.GetActive. auto 10 with reads. }
  assert (∀ id, reads (Activation.ResolveVariables id env secret)) as Hr2.
  { intros id. unfold Activation.ResolveVariables. auto with reads. }
  rewrite sbind_reads, ret_on_error by auto with reads.
  destruct (ret (Activation.GetActiveWithPlaybook project s)) as [[a p]| |]; [|done..].
  rewrite sbind_reads, ret_on_error by auto with reads.
  destruct (ret (Activation.ResolveVariables _ env secret s)) as [vars| |] eqn:Ev; [|done..].
  intros (l & Hl & Hf & ->)%resolve_steps_ok. exists a, p, vars, l. split_and!; done.
Qed.

(** * Properties *)

(** What a resolved playbook holds.  If resolution succeeds, every step of the
    project's active playbook names a component that exists, and each of the four lists
    holds the steps of its phase, in the order of the playbook, resolved with the bound
    variables.  Steps of the phases prepare and finalize, which are valid, are in no list. *)
Theorem resolve_by_phase project env secret s r :
  ret (Resolver.Resolve project env secret s) = Ok r →
  ∃ a p vars l,
    ret (Activation.GetActiveWithPlaybook project s) = Ok (a, p) ∧
    ret (Activation.ResolveVariables a.(PlaybookActivation.ID) env secret s) = Ok vars ∧
    l.*1 = p.(Playbook.Steps) ∧ (∀ step c, (step, c) ∈ l → found step s = Some c) ∧
    r.(ResolvedPlaybook.PreDeploySteps) = phase_steps vars PhasePreDeploy l ∧
    r.(ResolvedPlaybook.DeploySteps) = phase_steps vars PhaseDeploy l ∧
    r.(ResolvedPlaybook.PostDeploySteps) = phase_steps vars PhasePostDeploy l ∧
    r.(ResolvedPlaybook.RollbackSteps) = phase_steps vars PhaseRollback l.
Proof. apply resolve_by_phase_lemma. Qed.

(** The traditional hooks of a resolved playbook are empty: [ToDeployHooks] takes the
    steps of the component type [shell], and that is not one of the types a component can
    have, so as long as the components of the store have valid types no hook of any
    playbook comes out. *)
Theorem deploy_hooks_empty project env secret s r :
  (∀ k c, recipeComponentsByKey s !! k = Some c → c.(RecipeComponent.ComponentType) ∈ ValidComponentTypes) →
  ret (Resolver.Resolve project env secret s) = Ok r →
  Resolver.ToDeployHooks r = DeployHooks.mk [] [] [].
Proof.
  intros Hv Hr. apply resolve_by_phase_lemma in Hr as (a & p & vars & l & _ & _ & _ & Hf & Hl1 & _ & Hl2 & Hl3).
  unfold Resolver.ToDeployHooks. rewrite Hl1, Hl2, Hl3.
  assert (∀ phase, Resolver.shell_hooks (phase_steps vars phase l) = []) as Hnone; [|by rewrite !Hnone].
  intros phase. unfold Resolver.shell_hooks, phase_steps. enough (filter (λ x, x.(ResolvedStep.ComponentType) = "shell") ((λ sc, Resolver.resolved_step sc.1 sc.2 vars) <$> filter (λ sc, sc.1.(PlaybookStep.Phase) = phase) l) = []) as E by (by rewrite E).
  apply elem_of_nil_inv. intros rs.
  rewrite list_elem_of_filter, list_elem_of_fmap. intros (Hty & [step c] & -> & Hin).
  apply list_elem_of_filter in Hin as [_ Hin]. apply Hf in Hin. unfold found in Hin. simpl in Hty.
  destruct (split_on colon _) as [|x [|y [|z [|]]]]; try done.
  unfold Components.Get, ask, GetRecipeComponent in Hin. simpl in Hin.
  destruct (recipeComponentsByKey s !! _) as [c'|] eqn:E; [|done]. injection Hin as ->.
  apply Hv in E. rewrite Hty in E. unfold ValidComponentTypes in E. set_solver.
Qed.

End resolver.


Lemma resolve_by_phase_witness :
  ∃ r (l : list (PlaybookStep * RecipeComponent)), ret (@Resolver.Resolve range_in_key_order "proj" (Some (λ _, "production")) None Recipes.demo) = Ok r ∧
    l.*1 = demo_playbook.(Playbook.Steps) ∧
    ResolvedStep.Content <$> r.(ResolvedPlaybook.PostDeploySteps) = ["php artisan migrate --env=production"].
Proof.
  destruct (ret (@Resolver.Resolve range_in_key_order "proj" (Some (λ _, "production")) None Recipes.demo))
    as [r| |] eqn:E; [|vm_compute in E; discriminate..].
  destruct (@resolve_by_phase range_in_key_order "proj" (Some (λ _, "production")) None Recipes.demo r E)
    as (a & p & vars & l & Ha & _ & Hl & _).
  exists r, l. split; [reflexivity|]. split.
  - vm_compute in Ha. injection Ha as _ <-. exact Hl.
  - vm_compute in E. injection E as <-. reflexivity.
Defined.

Lemma deploy_hooks_empty_witness :
  ∃ r, ret (@Resolver.Resolve range_in_key_order "proj" (Some (λ _, "production")) None Recipes.demo) = Ok r ∧
    Resolver.ToDeployHooks r = DeployHooks.mk [] [] [] ∧
    DeploymentRequest.PostDeployHooks (Resolver.BuildDeployRequest r None) = ["php artisan migrate --env=production"].
Proof.
  destruct (ret (@Resolver.Resolve range_in_key_order "proj" (Some (λ _, "production")) None Recipes.demo))
    as [r| |] eqn:E; [|vm_compute in E; discriminate..].
  exists r. split; [reflexivity|]. split.
  - apply (@deploy_hooks_empty range_in_key_order "proj" (Some (λ _, "production")) None Recipes.demo r); [|exact E].
    apply (map_Forall_to_list (λ _ c, RecipeComponent.ComponentType c ∈ ValidComponentTypes)).
    vm_compute. repeat constructor.
  - vm_compute in E. injection E as <-. vm_compute. reflexivity.
Defined.

(** The variables are put in one after the other, in the order the map is visited in,
    and a value can hold the placeholder of another variable: then the resolved command
    depends on the order. *)
Theorem substitution_order_matters :
  let vars := {["a" := "{{b}}"; "b" := "x"]} : gmap string string in
  @Resolver.resolve_command range_in_key_order vars "echo {{a}}" = "echo x" ∧
  @Resolver.resolve_command range_reversed vars "echo {{a}}" = "echo {{b}}".
Proof. split; vm_compute; reflexivity. Qed.

(** ** Text functions of the migration *)

Lemma take_drop_prefix sub s : bool_decide (take_chars (String.length sub) s = sub) = HasPrefix s sub.
Proof.
  unfold HasPrefix. revert s. induction sub as [|c sub IH]; intros s; [by destruct s|].
  destruct s as [|d s]; simpl; [done|]. destruct (Ascii.ascii_dec c d) as [->|Hne].
  - rewrite <- IH. apply bool_decide_ext. split; [by intros [= ?]|by intros ->].
  - apply bool_decide_false. congruence.
Qed.

Lemma Contains_short s sub : (String.length s < String.length sub)%nat → Contains s sub = false.
Proof.
  assert (∀ s, (String.length s < String.length sub)%nat → HasPrefix s sub = false) as Hp.
  { clear. unfold HasPrefix. induction sub as [|c sub IH]; intros [|d s]; simpl; try done; try lia.
    destruct (Ascii.ascii_dec c d); [|done]. intros. apply IH. lia. }
  induction s as [|c s IH]; intros Hl; cbn [Contains]; rewrite Hp by done; [done|].
  simpl in *. apply IH. lia.
Qed.

Lemma containsHelper_Contains s sub : containsHelper s sub = Contains s sub.
Proof.
  destruct (decide (String.length s < String.length sub)%nat) as [Hl|Hl].
  { rewrite Contains_short by done. unfold containsHelper.
    by replace (String.length s + 1 - String.length sub)%nat with O by lia. }
  unfold containsHelper. induction s as [|c s IH].
  - destruct sub; simpl in *; [done|lia].
  - cbn [Contains]. rewrite <- (take_drop_prefix sub (String c s)).
    destruct (decide (String.length s < String.length sub)%nat) as [Hs|Hs].
    + rewrite (Contains_short s) by done. simpl in *.
      replace (S (String.length s + 1) - String.length sub)%nat with 1%nat by lia. simpl.
      by rewrite orb_comm.
    + rewrite <- IH by done. simpl String.length.
      replace (S (String.length s) + 1 - String.length sub)%nat
        with (S (String.length s + 1 - String.length sub)) by lia.
      cbn [seq existsb]. f_equal. rewrite <- fmap_S_seq.
      generalize (seq 0 (String.length s + 1 - String.length sub)). clear.
      induction l as [|i l IHl]; [done|]. csimpl. by rewrite IHl.
Qed.

(** The hand-written search for a substring is [strings.Contains], so a command is
    taken for RAW exactly when it contains one of the listed patterns. *)
Theorem raw_command_exact cmd sub :
  containsString cmd sub = Contains cmd sub ∧
  isRawCommand cmd = existsb (Contains cmd) dangerousPatterns.
Proof.
  assert (∀ sub, containsString cmd sub = Contains cmd sub) as Hc; [|split; [done|]].
  - intros u. unfold containsString. rewrite containsHelper_Contains.
    destruct (Nat.leb_spec (String.length u) (String.length cmd)) as [Hl|Hl];
      [|by rewrite Contains_short by done].
    assert (∀ v, HasPrefix v v = true) as Hpp.
    { unfold HasPrefix. induction v as [|c v IH]; simpl; [done|]. by destruct (Ascii.ascii_dec c c). }
    destruct (bool_decide_reflect (cmd = u)) as [->|Hne].
    + simpl. destruct u; cbn [Contains]; by rewrite Hpp.
    + destruct (bool_decide_reflect (cmd = "")) as [->|]; [|done].
      destruct u; simpl in *; [done|lia].
  - unfold isRawCommand. induction dangerousPatterns as [|p l IH]; simpl; [done|]. by rewrite Hc, IH.
Qed.
