(* ===== verification/RateLimiter.v ===== *)
(** The request rate limiter of the server ([src/internal/server/ratelimit.go]).

    A token bucket per address, a count of violations and a list of blocked addresses.
    [float64] values (tokens, rates, seconds) are rational numbers here: the arithmetic is
    exact where that of the code rounds.  A call reads the clock once.  What
    [net.ParseCIDR] and [Contains] answer is the argument [cidr_contains], what
    [net.SplitHostPort] answers the argument [split_host_port]; both are [net]'s reading
    of addresses.  Rows of the database are arguments, and what is written to it is
    returned. *)

From Stdlib Require Import QArith Qminmax Lqa.
From S2P Require Import Prelude GoStrings.

#[local] Open Scope string_scope.
#[local] Open Scope list_scope.
#[local] Open Scope Z_scope.

(** * Configuration *)

Definition nanosecond : Z := 1.
Definition second : Z := 1000000000.
Definition minute : Z := 60 * second.

Module EndpointLimit.
Record EndpointLimit := mk { RequestsPerSecond : Q; BurstSize : Z }.
End EndpointLimit.
Abbreviation EndpointLimit := EndpointLimit.EndpointLimit.

Module RateLimitConfig.
Record RateLimitConfig := mk {
  RequestsPerSecond : Q;
  BurstSize : Z;
  BlockDuration : Z;
  BlockThreshold : Z;
  WhitelistedIPs : list string;
  BlacklistedIPs : list string;
  UseDatabase : bool;
  CleanupInterval : Z;
  PerEndpointLimits : gmap string EndpointLimit
}.
End RateLimitConfig.
Abbreviation RateLimitConfig := RateLimitConfig.RateLimitConfig.

Definition DefaultRateLimitConfig : RateLimitConfig :=
  RateLimitConfig.mk 10 20 (15 * minute) 10 [] [] false (5 * minute)
    (list_to_map
       [("/api/v1/login", EndpointLimit.mk 1 5);
        ("/api/v1/register", EndpointLimit.mk (1 # 10) 2);
        ("/api/v1/api-keys", EndpointLimit.mk (1 # 2) 3);
        ("/api/v1/certificates", EndpointLimit.mk (1 # 5) 2);
        ("/api/v1/totp/verify", EndpointLimit.mk (1 # 2) 3);
        ("/api/v1/password", EndpointLimit.mk (1 # 5) 2);
        ("/api/v1/ssh-keys", EndpointLimit.mk (1 # 2) 3)]).

(** [x <= 0] replaced by the default, as [NewRateLimiter] does for each field. *)
Definition NewRateLimiter_config (c : RateLimitConfig) : RateLimitConfig :=
  let or_default (x d : Z) := if x <=? 0 then d else x in
  {| c with
     RateLimitConfig.RequestsPerSecond :=
       (if Qle_bool c.(RateLimitConfig.RequestsPerSecond) 0 then 10 else c.(RateLimitConfig.RequestsPerSecond))%Q;
     RateLimitConfig.BurstSize := or_default c.(RateLimitConfig.BurstSize) 20;
     RateLimitConfig.BlockDuration := or_default c.(RateLimitConfig.BlockDuration) (15 * minute);
     RateLimitConfig.BlockThreshold := or_default c.(RateLimitConfig.BlockThreshold) 10;
     RateLimitConfig.CleanupInterval := or_default c.(RateLimitConfig.CleanupInterval) (5 * minute) |}.

(** * State *)

Module Bucket.
Record tokenBucket := mk { tokens : Q; lastUpdate : time; violations : Z }.
End Bucket.
Abbreviation tokenBucket := Bucket.tokenBucket.

Module RateLimitStatus.
Record RateLimitStatus := mk {
  IP : string;
  TokensRemaining : Q;
  RequestsPerSec : Q;
  BurstSize : Z;
  Violations : Z;
  IsBlocked : bool;
  BlockedUntil : time;
  IsWhitelisted : bool;
  IsBlacklisted : bool
}.
End RateLimitStatus.
Abbreviation RateLimitStatus := RateLimitStatus.RateLimitStatus.

Module BlockedIP.
Record BlockedIP := mk {
  ID : Z; IPAddress : string; BlockedAt : time; ExpiresAt : time; Reason : string; ManualBlock : bool
}.
End BlockedIP.
Abbreviation BlockedIP := BlockedIP.BlockedIP.

Module Limiter.
Section limiter.
Context (cidr_contains : string → string → bool) (cfg : RateLimitConfig).

Record State := mkState {
  buckets : gmap string tokenBucket;
  blocked : gmap string time
}.

Definition empty : State := mkState ∅ ∅.

(** A row of [blocked_ips] written by [saveBlockedIP]: address, expiry, reason. *)
Definition saved := (string * time * string)%type.

(** [loadBlockedIPs] over the rows of the query, when the database is used. *)
Definition loadBlockedIPs (rows : list (string * time)) (s : State) : State :=
  {| s with blocked := foldl (λ m r, <[r.1 := r.2]> m) (blocked s) rows |}.

Definition NewRateLimiter (rows : list (string * time)) : State :=
  if cfg.(RateLimitConfig.UseDatabase) then loadBlockedIPs rows empty else empty.

(** The loops over the two lists of addresses and networks. *)
Definition listed (ips : list string) (ip : string) : bool :=
  existsb (λ w, bool_decide (w = ip) || cidr_contains w ip) ips.
Definition isWhitelisted (ip : string) : bool := listed cfg.(RateLimitConfig.WhitelistedIPs) ip.
Definition isBlacklisted (ip : string) : bool := listed cfg.(RateLimitConfig.BlacklistedIPs) ip.

(** Rate and burst for an endpoint. *)
Definition limits (endpoint : string) : Q * Z :=
  match cfg.(RateLimitConfig.PerEndpointLimits) !! endpoint with
  | Some l => (l.(EndpointLimit.RequestsPerSecond), l.(EndpointLimit.BurstSize))
  | None => (cfg.(RateLimitConfig.RequestsPerSecond), cfg.(RateLimitConfig.BurstSize))
  end.

(** [d.Seconds()] *)
Definition Seconds (d : Z) : Q := (d # 1000000000)%Q.

(** The tokens of a bucket after a refill, clipped at the burst. *)
Definition refill (rps : Q) (burst : Z) (b : tokenBucket) (now : time) : Q :=
  let t := (b.(Bucket.tokens) + Seconds (now - b.(Bucket.lastUpdate)) * rps)%Q in
  if negb (Qle_bool t (inject_Z burst)) then inject_Z burst else t.

(** The second half of [Allow], under the lock. *)
Definition take_token (ip : string) (rps : Q) (burst : Z) (now : time) (status : RateLimitStatus) (s : State)
    : (bool * RateLimitStatus) * State * list saved :=
  let bucket := match buckets s !! ip with Some b => b | None => Bucket.mk (inject_Z burst) now 0 end in
  let tokens := refill rps burst bucket now in
  let status := {| status with RateLimitStatus.TokensRemaining := tokens;
                   RateLimitStatus.Violations := bucket.(Bucket.violations) |} in
  if negb (Qle_bool 1 tokens) then
    let violations := bucket.(Bucket.violations) + 1 in
    let s := {| s with buckets := <[ip := Bucket.mk tokens now violations]> (buckets s) |} in
    if cfg.(RateLimitConfig.BlockThreshold) <=? violations then
      let blockedUntil := now + cfg.(RateLimitConfig.BlockDuration) in
      ((false, {| status with RateLimitStatus.IsBlocked := true; RateLimitStatus.BlockedUntil := blockedUntil |}),
       {| s with blocked := <[ip := blockedUntil]> (blocked s) |},
       if cfg.(RateLimitConfig.UseDatabase) then [(ip, blockedUntil, "rate_limit_exceeded")] else [])
    else ((false, status), s, [])
  else
    let left := (tokens - 1)%Q in
    ((true, {| status with RateLimitStatus.TokensRemaining := left |}),
     {| s with buckets := <[ip := Bucket.mk left now bucket.(Bucket.violations)]> (buckets s) |}, []).

Definition Allow (ip endpoint : string) (now : time) (s : State)
    : (bool * RateLimitStatus) * State * list saved :=
  let status := RateLimitStatus.mk ip 0 cfg.(RateLimitConfig.RequestsPerSecond)
                  cfg.(RateLimitConfig.BurstSize) 0 false 0 false false in
  if isWhitelisted ip then
    ((true, {| status with RateLimitStatus.IsWhitelisted := true;
               RateLimitStatus.TokensRemaining := inject_Z cfg.(RateLimitConfig.BurstSize) |}), s, [])
  else if isBlacklisted ip then
    ((false, {| status with RateLimitStatus.IsBlacklisted := true; RateLimitStatus.IsBlocked := true |}), s, [])
  else
    let go s :=
      let '(rps, burst) := limits endpoint in
      take_token ip rps burst now
        {| status with RateLimitStatus.RequestsPerSec := rps; RateLimitStatus.BurstSize := burst |} s in
    match blocked s !! ip with
    | Some blockedUntil =>
        if Before now blockedUntil then
          ((false, {| status with RateLimitStatus.IsBlocked := true;
                      RateLimitStatus.BlockedUntil := blockedUntil |}), s, [])
        else go {| s with blocked := delete ip (blocked s) |}
    | None => go s
    end.

Definition BlockIP (ip reason : string) (duration : Z) (now : time) (s : State) : State * list saved :=
  let blockedUntil := now + duration in
  ({| s with blocked := <[ip := blockedUntil]> (blocked s) |},
   if cfg.(RateLimitConfig.UseDatabase) then [(ip, blockedUntil, reason)] else []).

(** The second component: the addresses deleted from the table. *)
Definition UnblockIP (ip : string) (s : State) : State * list string :=
  ({| s with blocked := delete ip (blocked s) |}, if cfg.(RateLimitConfig.UseDatabase) then [ip] else []).

Definition GetStatus (ip : string) (now : time) (s : State) : RateLimitStatus :=
  let status := RateLimitStatus.mk ip 0 cfg.(RateLimitConfig.RequestsPerSecond)
                  cfg.(RateLimitConfig.BurstSize) 0 false 0 (isWhitelisted ip) (isBlacklisted ip) in
  let status :=
    match blocked s !! ip with
    | Some until => if Before now until
                    then {| status with RateLimitStatus.IsBlocked := true; RateLimitStatus.BlockedUntil := until |}
                    else status
    | None => status
    end in
  match buckets s !! ip with
  | Some b =>
      {| status with
         RateLimitStatus.TokensRemaining :=
           refill cfg.(RateLimitConfig.RequestsPerSecond) cfg.(RateLimitConfig.BurstSize) b now;
         RateLimitStatus.Violations := b.(Bucket.violations) |}
  | None => {| status with RateLimitStatus.TokensRemaining := inject_Z cfg.(RateLimitConfig.BurstSize) |}
  end.

(** Without a database: from the map, with the time of the block computed back from the
    configured duration. *)
Definition ListBlockedIPs `{MapRange} (now : time) (s : State) : list BlockedIP :=
  (λ kv, BlockedIP.mk 0 kv.1 (kv.2 - cfg.(RateLimitConfig.BlockDuration)) kv.2 "rate_limit_exceeded" false) <$>
  filter (λ kv, Before now kv.2 = true) (range (blocked s)).

Definition hour : Z := 60 * minute.

Definition cleanup `{MapRange} (now : time) (s : State) : State :=
  mkState (range_delete (λ b, Before b.(Bucket.lastUpdate) (now - hour)) (buckets s))
    (range_delete (λ until, After now until) (blocked s)).

(** * Requests *)

(** [r.Header.Get] of the two headers, and [r.RemoteAddr]. *)
Definition extractIP (split_host_port : string → option string) (xForwardedFor xRealIP remoteAddr : string)
    : string :=
  if negb (bool_decide (xForwardedFor = "")) then (cut (Ascii.ascii_of_nat 44) xForwardedFor).1
  else if negb (bool_decide (xRealIP = "")) then xRealIP
  else match split_host_port remoteAddr with Some ip => ip | None => remoteAddr end.

(** What the middleware does: hands the request on, or answers with a status and the
    seconds of the Retry-After header. *)
Inductive answer := Next | Refused (httpStatus retryAfter : Z).

Definition Middleware (ip endpoint : string) (now : time) (s : State) : answer * State * list saved :=
  let '((allowed, status), s', w) := Allow ip endpoint now s in
  (if allowed then Next
   else if status.(RateLimitStatus.IsBlocked)
   then Refused 403 (Z.max 0 (Z.quot (status.(RateLimitStatus.BlockedUntil) - now) second))
   else Refused 429 1, s', w).

(** The other limiters share the buckets under keys of their own. *)
Definition UserRateLimiter_Allow (userID endpoint : string) : time → State → (bool * RateLimitStatus) * State * list saved :=
  Allow ("user:" +:+ userID +:+ ":" +:+ endpoint) endpoint.

(** [keyHash[:8]] panics for a shorter hash. *)
Definition APIKeyRateLimiter_Allow (keyHash endpoint : string) (now : time) (s : State)
    : result ((bool * RateLimitStatus) * State * list saved) :=
  if (String.length keyHash <? 8)%nat then Panic
  else Ok (Allow ("apikey:" +:+ take_chars 8 keyHash +:+ ":" +:+ endpoint) endpoint now s).

End limiter.
End Limiter.

(** * The gRPC limiter *)

Module GRPCRateLimitConfig.
Record GRPCRateLimitConfig := mk {
  GlobalRPS : Q; PerClientRPS : Q; Burst : Z; Enabled : bool; ExemptMethods : list string
}.
End GRPCRateLimitConfig.
Abbreviation GRPCRateLimitConfig := GRPCRateLimitConfig.GRPCRateLimitConfig.

Definition DefaultGRPCRateLimitConfig : GRPCRateLimitConfig :=
  GRPCRateLimitConfig.mk 1000 100 50 true [].

Definition isExemptMethod (c : GRPCRateLimitConfig) (method : string) : bool :=
  existsb (λ exempt, bool_decide (exempt = method)) c.(GRPCRateLimitConfig.ExemptMethods).

(** Both interceptors: [None] runs the handler without asking the limiter, [Some b] with
    its answer. *)
Definition intercept (cidr_contains : string → string → bool) (cfg : RateLimitConfig)
    (c : GRPCRateLimitConfig) (clientIP method : string) (now : time) (s : Limiter.State)
    : option bool * Limiter.State :=
  if negb c.(GRPCRateLimitConfig.Enabled) then (None, s)
  else if isExemptMethod c method then (None, s)
  else
    let ip := if bool_decide (clientIP = "") then "unknown" else clientIP in
    let '((allowed, _), s', _) := Limiter.Allow cidr_contains cfg ip method now s in
    (Some allowed, s').

(** * Traces *)

Section traces.
Context (cidr_contains : string → string → bool) (cfg : RateLimitConfig).

(** What happens to a limiter, in the order of the lock. *)
Inductive event :=
| ERequest (ip endpoint : string)
| EBlock (ip reason : string) (duration : Z)
| EUnblock (ip : string)
| ECleanup.

Definition run_event `{MapRange} (now : time) (e : event) (s : Limiter.State) : bool * Limiter.State :=
  match e with
  | ERequest ip endpoint => let '((allowed, _), s', _) := Limiter.Allow cidr_contains cfg ip endpoint now s in (allowed, s')
  | EBlock ip reason d => (false, (Limiter.BlockIP cfg ip reason d now s).1)
  | EUnblock ip => (false, (Limiter.UnblockIP cfg ip s).1)
  | ECleanup => (false, Limiter.cleanup now s)
  end.

(** How many requests of an address that satisfy a test are let through. *)
Definition is_request (ip : string) (test : string → bool) (e : event) : bool :=
  match e with ERequest ip' endpoint => bool_decide (ip' = ip) && test endpoint | _ => false end.

Fixpoint allowed_count `{MapRange} (ip : string) (test : string → bool) (trace : list (time * event))
    (s : Limiter.State) : Z :=
  match trace with
  | [] => 0
  | (now, e) :: trace' =>
      let '(allowed, s') := run_event now e s in
      (if allowed && is_request ip test e then 1 else 0) + allowed_count ip test trace' s'
  end.

(** The clock does not go back, and ends at [last]. *)
Fixpoint in_time (start : time) (trace : list (time * event)) (last : time) : Prop :=
  match trace with
  | [] => start ≤ last
  | (now, _) :: trace' => start ≤ now ∧ in_time now trace' last
  end.

(** Every limit of the configuration is at most a rate [R] and a burst [B]. *)
Definition limits_within (R B : Q) : Prop :=
  (∀ endpoint, 0 <= (Limiter.limits cfg endpoint).1 <= R)%Q ∧
  (∀ endpoint, 0 <= inject_Z (Limiter.limits cfg endpoint).2 <= B)%Q.

(** Moreover a bucket is full after an hour at the rate [R], so that forgetting one that
    was not used for an hour, as the cleanup does, gives nothing away. *)
Definition limited_by (R B : Q) : Prop :=
  (∀ endpoint, 0 <= (Limiter.limits cfg endpoint).1 <= R)%Q ∧
  (∀ endpoint, 0 <= inject_Z (Limiter.limits cfg endpoint).2 <= B)%Q ∧
  (B <= R * Limiter.Seconds Limiter.hour)%Q.

(** A higher rate pays for the buckets that the cleanup gives away: one an hour. *)
Lemma limited_by_more R B : limits_within R B → limited_by (R + B * (1 # 3600)) B.
Proof.
  intros [HR HB]. pose proof (HB "") as [Hb0 HbB]. pose proof (HR "") as [Hr0 HrR].
  split_and!; [|done|].
  - intros e. destruct (HR e). split; [done|]. lra.
  - assert (Limiter.Seconds Limiter.hour == 3600)%Q as -> by done. lra.
Qed.

(** The bucket is in order at a time. *)
Definition bucket_ok (b : tokenBucket) (now : time) : Prop :=
  (0 <= b.(Bucket.tokens))%Q ∧ b.(Bucket.lastUpdate) ≤ now.

(** What the address could take at once, at the highest rate and burst. *)
Definition credit (R B : Q) (s : Limiter.State) (ip : string) (now : time) : Q :=
  match Limiter.buckets s !! ip with
  | None => B
  | Some b => Qmin B (b.(Bucket.tokens) + R * Limiter.Seconds (now - b.(Bucket.lastUpdate)))
  end.

Definition ok_at (s : Limiter.State) (ip : string) (now : time) : Prop :=
  ∀ b, Limiter.buckets s !! ip = Some b → bucket_ok b now.

Lemma Seconds_add a b : (Limiter.Seconds (a + b) == Limiter.Seconds a + Limiter.Seconds b)%Q.
Proof. unfold Limiter.Seconds. by rewrite Qinv_plus_distr. Qed.

Lemma Seconds_nonneg a : 0 ≤ a → (0 <= Limiter.Seconds a)%Q.
Proof. unfold Limiter.Seconds, Qle. simpl. lia. Qed.

Lemma Seconds_mono a b : a ≤ b → (Limiter.Seconds a <= Limiter.Seconds b)%Q.
Proof. unfold Limiter.Seconds, Qle. simpl. lia. Qed.

Lemma Qmin_case_le (B x : Q) : (Qmin B x <= B)%Q ∧ (Qmin B x <= x)%Q.
Proof. split; [apply Q.le_min_l|apply Q.le_min_r]. Qed.

(** ** One request *)

Lemma refill_bounds rps burst b now :
  (0 <= rps)%Q → (0 <= inject_Z burst)%Q → bucket_ok b now →
  let t := Limiter.refill rps burst b now in
  (0 <= t <= inject_Z burst)%Q ∧
  (t <= b.(Bucket.tokens) + rps * Limiter.Seconds (now - b.(Bucket.lastUpdate)))%Q.
Proof.
  intros Hr Hb [Ht Hl]. unfold Limiter.refill. cbv zeta.
  pose proof (Seconds_nonneg (now - b.(Bucket.lastUpdate)) ltac:(lia)) as Hs.
  set (e := Limiter.Seconds _) in *.
  assert (0 <= e * rps)%Q by nra.
  destruct (Qle_bool _ _) eqn:E; simpl.
  - apply Qle_bool_iff in E. split; [split|]; lra.
  - assert (¬ (b.(Bucket.tokens) + e * rps <= inject_Z burst)%Q) as Hn.
    { intros Hle. apply Qle_bool_iff in Hle. congruence. }
    apply Qnot_le_lt in Hn. split; [split|]; lra.
Qed.

(** The outcome of [take_token]: the bucket of the address afterwards. *)
Lemma take_token_bucket ip rps burst now status s :
  let b := match Limiter.buckets s !! ip with Some b => b | None => Bucket.mk (inject_Z burst) now 0 end in
  let t := Limiter.refill rps burst b now in
  let '((allowed, _), s', _) := Limiter.take_token cfg ip rps burst now status s in
  allowed = Qle_bool 1 t ∧
  Limiter.buckets s' =
    <[ip := Bucket.mk (if allowed then t - 1 else t)%Q now
              (b.(Bucket.violations) + if allowed then 0 else 1)]> (Limiter.buckets s).
Proof.
  unfold Limiter.take_token. cbv zeta. set (b := match Limiter.buckets s !! ip with Some b => b | None => _ end).
  destruct (Qle_bool 1 (Limiter.refill rps burst b now)) eqn:E; simpl.
  - split; [done|]. by rewrite Z.add_0_r.
  - destruct (_ <=? _); simpl; done.
Qed.

Lemma request_credit R B ip endpoint now s :
  limited_by R B → ok_at s ip now →
  Limiter.isWhitelisted cidr_contains cfg ip = false →
  let '((allowed, _), s', _) := Limiter.Allow cidr_contains cfg ip endpoint now s in
  ok_at s' ip now ∧ ((if allowed then 1 else 0) + credit R B s' ip now <= credit R B s ip now)%Q.
Proof.
  intros (HR & HB & _) Hok Hwl. unfold Limiter.Allow. rewrite Hwl.
  destruct (Limiter.isBlacklisted cidr_contains cfg ip); [split; [done|lra]|].
  specialize (HR endpoint). specialize (HB endpoint). destruct (Limiter.limits cfg endpoint) as [rps burst].
  simpl in HR, HB. cbv zeta. destruct HR as [Hr0 HrR], HB as [Hb0 HbB].
  assert (∀ s0 status, Limiter.buckets s0 = Limiter.buckets s →
    let '((allowed, _), s', _) := Limiter.take_token cfg ip rps burst now status s0 in
    ok_at s' ip now ∧ ((if allowed then 1 else 0) + credit R B s' ip now <= credit R B s ip now)%Q) as Htake.
  { intros s0 status Hs0. pose proof (take_token_bucket ip rps burst now status s0) as Ht. cbv zeta in Ht.
    rewrite Hs0 in Ht.
    set (b := match Limiter.buckets s !! ip with Some b => b | None => _ end) in Ht.
    assert (bucket_ok b now) as Hb.
    { unfold b. destruct (Limiter.buckets s !! ip) eqn:E; [by apply Hok|]. split; simpl; [done|lia]. }
    destruct (refill_bounds rps burst b now Hr0 Hb0 Hb) as [[H1 H2] H3].
    set (t := Limiter.refill rps burst b now) in *.
    assert (t <= credit R B s ip now)%Q as Hc.
    { unfold credit, b in *. destruct (Limiter.buckets s !! ip) as [b0|]; [|lra].
      apply Q.min_glb; [lra|]. pose proof (Seconds_nonneg (now - b0.(Bucket.lastUpdate)) ltac:(destruct Hb; lia)).
      nra. }
    destruct (Limiter.take_token cfg ip rps burst now status s0) as [[[allowed st'] s'] w].
    destruct Ht as [Ha Hs'].
    assert (credit R B s' ip now == Qmin B (if allowed then t - 1 else t))%Q as Hcr.
    { unfold credit. rewrite Hs', lookup_insert_eq. simpl. rewrite Z.sub_diag.
      assert (Limiter.Seconds 0 == 0)%Q as -> by done. destruct allowed; by rewrite Qmult_0_r, Qplus_0_r. }
    rewrite Hcr. destruct (Qmin_case_le B (if allowed then t - 1 else t)) as [_ Hm]. split.
    - intros b'. rewrite Hs', lookup_insert_eq. intros [= <-]. split; simpl; [|lia].
      destruct allowed; [|done]. symmetry in Ha. apply Qle_bool_iff in Ha. lra.
    - destruct allowed; lra. }
  destruct (Limiter.blocked s !! ip) as [until|]; [|by apply Htake].
  destruct (Before now until); [split; [done|lra]|by apply Htake].
Qed.

(** A request of another address does not touch the bucket. *)
Lemma request_other ip ip' endpoint now s :
  ip ≠ ip' →
  let '((_, _), s', _) := Limiter.Allow cidr_contains cfg ip endpoint now s in
  Limiter.buckets s' !! ip' = Limiter.buckets s !! ip'.
Proof.
  intros Hne. unfold Limiter.Allow. destruct (Limiter.isWhitelisted _ _ ip); [done|].
  destruct (Limiter.isBlacklisted _ _ ip); [done|]. destruct (Limiter.limits cfg endpoint) as [rps burst]. cbv zeta.
  assert (∀ s0 status, Limiter.buckets s0 = Limiter.buckets s →
    let '((_, _), s', _) := Limiter.take_token cfg ip rps burst now status s0 in
    Limiter.buckets s' !! ip' = Limiter.buckets s !! ip') as Htake.
  { intros s0 status Hs0. pose proof (take_token_bucket ip rps burst now status s0) as Ht.
    destruct (Limiter.take_token cfg ip rps burst now status s0) as [[[? ?] s'] ?].
    destruct Ht as [_ ->]. rewrite Hs0. by rewrite lookup_insert_ne. }
  destruct (Limiter.blocked s !! ip) as [until|]; [|by apply Htake].
  destruct (Before now until); [done|by apply Htake].
Qed.

(** ** All events *)

Lemma event_credit `{MapRange} R B ip e now s :
  limited_by R B → ok_at s ip now → Limiter.isWhitelisted cidr_contains cfg ip = false →
  let '(allowed, s') := run_event now e s in
  ok_at s' ip now ∧
  ((if allowed && is_request ip (λ _, true) e then 1 else 0) + credit R B s' ip now <= credit R B s ip now)%Q.
Proof.
  intros Hlim Hok Hwl. destruct e as [ip' endpoint|ip' reason d|ip'|]; simpl.
  - destruct (decide (ip' = ip)) as [->|Hne].
    + pose proof (request_credit R B ip endpoint now s Hlim Hok Hwl) as Hr.
      destruct (Limiter.Allow cidr_contains cfg ip endpoint now s) as [[[allowed ?] s'] ?].
      rewrite bool_decide_true by done. by destruct allowed.
    + pose proof (request_other ip' ip endpoint now s Hne) as Hr.
      destruct (Limiter.Allow cidr_contains cfg ip' endpoint now s) as [[[allowed ?] s'] ?].
      rewrite bool_decide_false by done. rewrite andb_false_r. unfold ok_at, credit. rewrite Hr.
      split; [done|lra].
  - split; [done|]. unfold credit. simpl. lra.
  - split; [done|]. unfold credit. simpl. lra.
  - unfold ok_at, credit. simpl. rewrite range_delete_lookup.
    destruct (Limiter.buckets s !! ip) as [b|] eqn:E; [|split; [done|lra]].
    destruct (Before _ _) eqn:Eb; [|split; [intros b0 Hb0; apply Hok; congruence|lra]].
    split; [done|]. destruct (Hok _ E) as [Ht Hl]. unfold Before in Eb. rewrite Z.ltb_lt in Eb.
    assert (Limiter.Seconds Limiter.hour <= Limiter.Seconds (now - b.(Bucket.lastUpdate)))%Q as Hs
      by (apply Seconds_mono; lia).
    destruct Hlim as (HR & _ & HBR). pose proof (HR "") as [Hr0 HrR].
    assert (B <= Qmin B (b.(Bucket.tokens) + R * Limiter.Seconds (now - b.(Bucket.lastUpdate))))%Q; [|lra].
    apply Q.min_glb; [lra|]. nra.
Qed.

Lemma credit_time R B s ip now now' :
  (0 <= R)%Q → now ≤ now' →
  (credit R B s ip now' <= credit R B s ip now + R * Limiter.Seconds (now' - now))%Q.
Proof.
  intros HR Hle. pose proof (Seconds_nonneg (now' - now) ltac:(lia)) as Hs. unfold credit.
  destruct (Limiter.buckets s !! ip) as [b|]; [|nra].
  replace (now' - b.(Bucket.lastUpdate)) with ((now - b.(Bucket.lastUpdate)) + (now' - now)) by lia.
  rewrite Seconds_add. set (x := Limiter.Seconds (now - _)). set (y := Limiter.Seconds _) in *.
  destruct (Qmin_case_le B (b.(Bucket.tokens) + R * (x + y))) as [H1 H2].
  assert (0 <= R * y)%Q by nra.
  assert (Qmin B (b.(Bucket.tokens) + R * (x + y)) - R * y <= Qmin B (b.(Bucket.tokens) + R * x))%Q; [|lra].
  apply Q.min_glb; lra.
Qed.

Lemma ok_at_later s ip now now' : now ≤ now' → ok_at s ip now → ok_at s ip now'.
Proof. intros Hle Hok b Hb. destruct (Hok b Hb). split; [done|lia]. Qed.

Lemma allowed_bound `{MapRange} R B ip trace start last s :
  limited_by R B → Limiter.isWhitelisted cidr_contains cfg ip = false →
  in_time start trace last → ok_at s ip start →
  (inject_Z (allowed_count ip (λ _, true) trace s) <= credit R B s ip start + R * Limiter.Seconds (last - start))%Q.
Proof.
  intros Hlim Hwl. pose proof Hlim as (HR & HB & _). pose proof (HR "") as [Hr0 HrR]. pose proof (HB "") as [Hb0 HbB].
  assert (0 <= R)%Q as HR0 by lra.
  revert start s. induction trace as [|[now e] trace IH]; intros start s Ht Hok;
    cbn [allowed_count in_time] in *.
  - pose proof (Seconds_nonneg (last - start) ltac:(lia)) as Hs.
    assert (0 <= R * Limiter.Seconds (last - start))%Q as HRs by (by apply Qmult_le_0_compat).
    assert (0 <= credit R B s ip start)%Q; [|change (inject_Z 0) with 0%Q; lra].
    unfold credit. destruct (Limiter.buckets s !! ip) as [b|] eqn:E; [|lra].
    destruct (Hok _ E) as [Hbt Hbl]. pose proof (Seconds_nonneg (start - b.(Bucket.lastUpdate)) ltac:(lia)).
    apply Q.min_glb; [lra|]. assert (0 <= R * Limiter.Seconds (start - b.(Bucket.lastUpdate)))%Q; [|lra].
    by apply Qmult_le_0_compat.
  - destruct Ht as [Hle Ht]. pose proof (ok_at_later _ _ _ _ Hle Hok) as Hok'.
    pose proof (event_credit R B ip e now s Hlim Hok' Hwl) as Hstep.
    pose proof (credit_time R B s ip start now HR0 Hle) as Htime.
    destruct (run_event now e s) as [allowed s']. destruct Hstep as [Hok1 Hcr].
    pose proof (IH now s' Ht Hok1) as Hrest. rewrite inject_Z_plus.
    assert (Limiter.Seconds (last - start) == Limiter.Seconds (now - start) + Limiter.Seconds (last - now))%Q as Hsec.
    { rewrite <- Seconds_add. by replace (now - start + (last - now)) with (last - start) by lia. }
    rewrite Hsec, Qmult_plus_distr_r. destruct (allowed && _);
      [change (inject_Z 1) with 1%Q|change (inject_Z 0) with 0%Q]; lra.
Qed.

(** * Properties *)

(** C28: The rate that is enforced.  Let [R] and [B] be bounds on the rates and bursts of all
    endpoints.  Whatever requests, blocks, unblocks and cleanups reach a limiter that
    starts empty, in whatever order and with a clock that does not go back, an address
    that is not on the whitelist gets at most [B + (R + B / 3600) * seconds] requests
    through: the tokens refilled at the rate [R], and a full bucket an hour, because the
    cleanup forgets a bucket that was not used for an hour and the next request gets a new
    one.  If a bucket fills within an hour, [B <= 3600 * R], forgetting it gives nothing
    away and the bound is [B + R * seconds]; without that condition it is not
    ([cleanup_refills]).  Tokens and seconds are exact numbers here, floating-point ones
    in the program. *)
Theorem rate_bound `{MapRange} R B ip trace start last :
  limits_within R B → Limiter.isWhitelisted cidr_contains cfg ip = false → in_time start trace last →
  let allowed := inject_Z (allowed_count ip (λ _, true) trace Limiter.empty) in
  (allowed <= B + (R + B / 3600) * Limiter.Seconds (last - start))%Q ∧
  ((B <= 3600 * R)%Q → (allowed <= B + R * Limiter.Seconds (last - start))%Q).
Proof.
  intros Hl Hw Ht allowed.
  assert (ok_at Limiter.empty ip start) as Hok by (intros b; unfold Limiter.empty; simpl; by rewrite lookup_empty).
  split.
  - exact (allowed_bound (R + B / 3600) B ip trace start last Limiter.empty (limited_by_more R B Hl) Hw Ht Hok).
  - intros Hhour. refine (allowed_bound R B ip trace start last Limiter.empty _ Hw Ht Hok).
    destruct Hl as [HR HB]. split_and!; [done..|].
    assert (Limiter.Seconds Limiter.hour == 3600)%Q as -> by done. lra.
Qed.

(** ** Blocks *)

Definition violations_of (s : Limiter.State) (ip : string) : Z :=
  match Limiter.buckets s !! ip with Some b => b.(Bucket.violations) | None => 0 end.

(** The address is blocked at a time. *)
Definition blocked_at (s : Limiter.State) (ip : string) (now : time) : bool :=
  match Limiter.blocked s !! ip with Some until => Before now until | None => false end.

Lemma take_token_blocks ip rps burst now status s :
  status.(RateLimitStatus.IsBlocked) = false → Limiter.blocked s !! ip = None →
  let '((allowed, status'), s', saved) := Limiter.take_token cfg ip rps burst now status s in
  violations_of s' ip = violations_of s ip + (if allowed then 0 else 1) ∧
  let block := negb allowed && (cfg.(RateLimitConfig.BlockThreshold) <=? violations_of s ip + 1) in
  status'.(RateLimitStatus.IsBlocked) = block ∧
  Limiter.blocked s' !! ip = (if block then Some (now + cfg.(RateLimitConfig.BlockDuration)) else None) ∧
  length saved = (if block && cfg.(RateLimitConfig.UseDatabase) then 1%nat else 0%nat).
Proof.
  intros Hst Hnone. unfold Limiter.take_token, violations_of. cbv zeta.
  assert (Bucket.violations (match Limiter.buckets s !! ip with Some b => b | None => Bucket.mk (inject_Z burst) now 0 end)
          = match Limiter.buckets s !! ip with Some b => b.(Bucket.violations) | None => 0 end) as ->
    by (by destruct (Limiter.buckets s !! ip)).
  set (t := Limiter.refill _ _ _ _). destruct (Qle_bool 1 t); cbn [negb andb].
  - cbn. rewrite lookup_insert_eq. cbn. split_and!; [lia|done|done|done].
  - destruct (_ <=? _) eqn:E; cbn; rewrite lookup_insert_eq; cbn.
    + rewrite lookup_insert_eq. split_and!; [done..|]. by destruct (RateLimitConfig.UseDatabase cfg).
    + by split_and!.
Qed.

(** When an address is blocked.  A request of a blocked address is refused and changes
    nothing.  Otherwise, for an address on neither list, a request that is let through
    leaves its violations as they are, and one that is refused counts one more; from the
    threshold on it blocks the address, for the configured duration from now.  Nothing a
    request does lowers the count, so after a first block every single refused request
    is a new block. *)
Theorem block_exact ip endpoint now s :
  Limiter.isWhitelisted cidr_contains cfg ip = false → Limiter.isBlacklisted cidr_contains cfg ip = false →
  let '((allowed, status), s', saved) := Limiter.Allow cidr_contains cfg ip endpoint now s in
  if blocked_at s ip now
  then allowed = false ∧ status.(RateLimitStatus.IsBlocked) = true ∧ s' = s ∧ saved = []
  else
    let block := negb allowed && (cfg.(RateLimitConfig.BlockThreshold) <=? violations_of s ip + 1) in
    violations_of s' ip = violations_of s ip + (if allowed then 0 else 1) ∧
    status.(RateLimitStatus.IsBlocked) = block ∧
    Limiter.blocked s' !! ip = (if block then Some (now + cfg.(RateLimitConfig.BlockDuration)) else None) ∧
    (0 < cfg.(RateLimitConfig.BlockDuration) → blocked_at s' ip now = block) ∧
    length saved = (if block && cfg.(RateLimitConfig.UseDatabase) then 1%nat else 0%nat).
Proof.
  intros Hw Hb. unfold Limiter.Allow. rewrite Hw, Hb. destruct (Limiter.limits cfg endpoint) as [rps burst].
  assert (∀ status s0, status.(RateLimitStatus.IsBlocked) = false → Limiter.blocked s0 !! ip = None →
    Limiter.buckets s0 = Limiter.buckets s →
    let '((allowed, status'), s', saved) := Limiter.take_token cfg ip rps burst now status s0 in
    let block := negb allowed && (cfg.(RateLimitConfig.BlockThreshold) <=? violations_of s ip + 1) in
    violations_of s' ip = violations_of s ip + (if allowed then 0 else 1) ∧
    status'.(RateLimitStatus.IsBlocked) = block ∧
    Limiter.blocked s' !! ip = (if block then Some (now + cfg.(RateLimitConfig.BlockDuration)) else None) ∧
    (0 < cfg.(RateLimitConfig.BlockDuration) → blocked_at s' ip now = block) ∧
    length saved = (if block && cfg.(RateLimitConfig.UseDatabase) then 1%nat else 0%nat)) as Htake.
  { intros status s0 Hst Hn Hs0. pose proof (take_token_blocks ip rps burst now status s0 Hst Hn) as Ht.
    destruct (Limiter.take_token cfg ip rps burst now status s0) as [[[allowed status'] s'] saved].
    assert (violations_of s0 ip = violations_of s ip) as Hv by (unfold violations_of; by rewrite Hs0).
    rewrite Hv in Ht. cbv zeta in *. destruct Ht as (? & ? & Hbl & ?). split_and!; [done..| |done].
    intros Hd. unfold blocked_at. rewrite Hbl. destruct (negb allowed && _); [|done]. unfold Before. lia. }
  unfold blocked_at at 1. cbv zeta.
  destruct (Limiter.blocked s !! ip) as [until|] eqn:E; [destruct (Before now until); [done|]|];
    apply Htake; simpl; try done. apply lookup_delete_eq.
Qed.

End traces.

(** A configuration that lists no networks. *)
Definition no_networks (_ _ : string) : bool := false.

Lemma default_limited : limits_within DefaultRateLimitConfig 10 20.
Proof.
  assert (∀ endpoint, let l := Limiter.limits DefaultRateLimitConfig endpoint in
    (0 <= l.1 <= 10)%Q ∧ (0 <= inject_Z l.2 <= 20)%Q) as Hl.
  { intros endpoint. unfold Limiter.limits.
    destruct (RateLimitConfig.PerEndpointLimits DefaultRateLimitConfig !! endpoint) as [l|] eqn:E.
    - assert (map_Forall (λ _ l, (0 <= l.(EndpointLimit.RequestsPerSecond) <= 10)%Q ∧
                                 (0 <= inject_Z l.(EndpointLimit.BurstSize) <= 20)%Q)
                (RateLimitConfig.PerEndpointLimits DefaultRateLimitConfig)) as Hall.
      { apply map_Forall_to_list. vm_compute. repeat constructor; discriminate. }
      apply (Hall _ _ E).
    - vm_compute. repeat constructor; discriminate. }
  split; intros e; apply (Hl e).
Qed.

(** Requests to two endpoints in turn, [step] apart. *)
Fixpoint alternating (n : nat) (first second : string) (start step : Z) (ip : string) : list (time * event) :=
  match n with
  | O => []
  | S n' => (start, ERequest ip first) :: (start, ERequest ip second) ::
            alternating n' first second (start + step) step ip
  end.

Definition login : string := "/api/v1/login".

Lemma rate_bound_witness :
  (inject_Z (@allowed_count no_networks DefaultRateLimitConfig range_in_key_order "10.0.0.1" (λ _, true)
     (alternating 20 "/" login 0 (second / 2) "10.0.0.1") Limiter.empty) <=
   20 + 10 * Limiter.Seconds (10 * second - 0))%Q.
Proof.
  apply (@rate_bound no_networks DefaultRateLimitConfig range_in_key_order 10 20 "10.0.0.1"
    (alternating 20 "/" login 0 (second / 2) "10.0.0.1") 0 (10 * second) default_limited eq_refl).
  - vm_compute. repeat split; discriminate.
  - discriminate.
Defined.

(** A configuration whose buckets take more than five hours to fill, and an address that
    uses up its bucket, waits for the cleanup and uses up another one. *)
Definition slow_config : RateLimitConfig :=
  {| DefaultRateLimitConfig with RateLimitConfig.RequestsPerSecond := (1 # 1000)%Q;
     RateLimitConfig.BurstSize := 20; RateLimitConfig.PerEndpointLimits := ∅ |}.

Definition two_bursts (ip : string) : list (time * event) :=
  replicate 20 (0, ERequest ip "/") ++ (2 * Limiter.hour, ECleanup) ::
  replicate 20 (2 * Limiter.hour, ERequest ip "/").

(** With a rate of one request in a thousand seconds and a burst of 20, the cleanup after
    two hours gives the address a full bucket again: 40 requests pass in two hours, where
    the burst and the tokens refilled in that time allow 27.2. *)
Theorem cleanup_refills :
  limits_within slow_config (1 # 1000) 20 ∧
  in_time 0 (two_bursts "10.0.0.1") (2 * Limiter.hour) ∧
  @allowed_count no_networks slow_config range_in_key_order "10.0.0.1" (λ _, true)
    (two_bursts "10.0.0.1") Limiter.empty = 40 ∧
  (20 + (1 # 1000) * Limiter.Seconds (2 * Limiter.hour - 0) == 272 # 10)%Q.
Proof.
  split; [|split; [vm_compute; repeat split; discriminate|by vm_compute]].
  assert (∀ endpoint, Limiter.limits slow_config endpoint = ((1 # 1000)%Q, 20)) as Hl
    by (intros e; unfold Limiter.limits, slow_config; simpl; by rewrite lookup_empty).
  split; intros e; rewrite Hl; simpl; split; discriminate.
Qed.

Lemma block_exact_witness :
  let s := @snd _ _ (@run_event no_networks DefaultRateLimitConfig range_in_key_order 5
             (EBlock "10.0.0.1" "manual" minute) Limiter.empty) in
  (Limiter.Allow no_networks DefaultRateLimitConfig "10.0.0.1" "/" 6 s).1.1.1 = false.
Proof.
  pose proof (block_exact no_networks DefaultRateLimitConfig "10.0.0.1" "/" 6
    (@snd _ _ (@run_event no_networks DefaultRateLimitConfig range_in_key_order 5
             (EBlock "10.0.0.1" "manual" minute) Limiter.empty)) eq_refl eq_refl) as Hb.
  vm_compute in Hb. vm_compute. exact (proj1 Hb).
Defined.

(** The limit of an endpoint is not a limit of its own: all endpoints draw on one
    bucket per address, refilled at the rate of whatever endpoint is asked next.  With the
    default configuration, whose login endpoint allows one request per second and five
    at once, an address that asks another endpoint before each login attempt gets all of
    50 attempts within ten seconds through, where the limit of the endpoint would let
    15 through; asking only the login endpoint gets at most 15. *)
Theorem endpoint_limit_evaded :
  let run trace := @allowed_count no_networks DefaultRateLimitConfig range_in_key_order "10.0.0.1"
                     (λ e, bool_decide (e = login)) trace Limiter.empty in
  in_time 0 (alternating 50 "/" login 0 (second / 5) "10.0.0.1") (10 * second) ∧
  run (alternating 50 "/" login 0 (second / 5) "10.0.0.1") = 50 ∧
  run (alternating 50 login login 0 (second / 5) "10.0.0.1") ≤ 15.
Proof. split; [vm_compute; repeat split; discriminate|]. split; vm_compute; [reflexivity|discriminate]. Qed.

(** The address a request is counted under is the client's own choice: with the
    X-Forwarded-For header set it is the header's first entry, whoever sends it.  A client
    that names a new address with each request is let through each time, and one that
    names an address of the whitelist is never counted at all. *)
Theorem address_is_chosen_by_client cidr_contains cfg split_host_port (xRealIP remoteAddr ip rest endpoint : string) now s :
  ip ≠ "" → free_of (Ascii.ascii_of_nat 44) ip = true →
  let from := Limiter.extractIP split_host_port (ip +:+ rest) xRealIP remoteAddr in
  rest = "" ∨ (∃ more, rest = "," +:+ more) →
  from = ip ∧
  (Limiter.isWhitelisted cidr_contains cfg ip = true →
     Limiter.Middleware cidr_contains cfg from endpoint now s = (Limiter.Next, s, [])) ∧
  (Limiter.isBlacklisted cidr_contains cfg ip = false →
   Limiter.buckets s !! ip = None → Limiter.blocked s !! ip = None →
   1 ≤ (Limiter.limits cfg endpoint).2 →
   (Limiter.Middleware cidr_contains cfg from endpoint now s).1.1 = Limiter.Next).
Proof.
  intros Hne Hfree from Hrest.
  assert (from = ip) as Hfrom.
  { unfold from, Limiter.extractIP. rewrite bool_decide_false; [|by destruct ip]. simpl.
    destruct Hrest as [->|[more ->]].
    - clear Hne from. induction ip as [|c ip IH]; simpl in *; [done|].
      apply andb_true_iff in Hfree as [Hc Hfree]. rewrite negb_true_iff in Hc. rewrite Hc.
      specialize (IH Hfree). destruct (cut _ (ip +:+ "")) as [a r]. simpl in *. by rewrite IH.
    - clear Hne from. induction ip as [|c ip IH]; simpl in *; [done|].
      apply andb_true_iff in Hfree as [Hc Hfree]. rewrite negb_true_iff in Hc. rewrite Hc.
      specialize (IH Hfree). destruct (cut _ (ip +:+ _)) as [a r]. simpl in *. by rewrite IH. }
  rewrite Hfrom. split; [done|]. unfold Limiter.Middleware, Limiter.Allow. split.
  - by intros ->.
  - intros Hb Hbk Hbl Hburst. destruct (Limiter.isWhitelisted cidr_contains cfg ip); [done|].
    rewrite Hb, Hbl. destruct (Limiter.limits cfg endpoint) as [rps burst]. simpl in Hburst.
    unfold Limiter.take_token. rewrite Hbk. cbv zeta. unfold Limiter.refill. simpl. rewrite Z.sub_diag.
    assert (Qle_bool 1 (if negb (Qle_bool (inject_Z burst + Limiter.Seconds 0 * rps) (inject_Z burst))
              then inject_Z burst else (inject_Z burst + Limiter.Seconds 0 * rps)%Q) = true) as ->; [|done].
    apply Qle_bool_iff. assert (Limiter.Seconds 0 == 0)%Q as Hz by done.
    assert (1 <= inject_Z burst)%Q as H1 by (unfold Qle; simpl; lia).
    destruct (negb _); rewrite ?Hz; lra.
Qed.

Lemma address_is_chosen_by_client_witness :
  Limiter.extractIP (λ _, Some "203.0.113.9") "10.0.0.7, 203.0.113.9" "" "203.0.113.9:4711" = "10.0.0.7".
Proof.
  apply (address_is_chosen_by_client no_networks DefaultRateLimitConfig (λ _, Some "203.0.113.9") "" "203.0.113.9:4711"
    "10.0.0.7" ", 203.0.113.9" "/" 0 Limiter.empty ltac:(discriminate) eq_refl).
  right. exists " 203.0.113.9". reflexivity.
Defined.
