(* ===== verification/SafePath.v ===== *)
(** Path safety ([src/internal/security/safepath.go] and [safeops.go]).

    [path/filepath] on Unix is defined here: [Clean] goes over the elements of a path as
    its documentation describes, [Join], [IsAbs] and [Abs] are built on it; the working
    directory is an argument.  The file system calls of [SafeOps] are values ([syscall]),
    so what a method does is the call it makes. *)

From S2P Require Import Prelude GoStrings.

#[local] Open Scope string_scope.
#[local] Open Scope list_scope.
#[local] Open Scope Z_scope.

(** * [path/filepath] *)

Definition slash : Ascii.ascii := Ascii.ascii_of_nat 47.

Definition IsAbs (path : string) : bool := HasPrefix path "/".

(** One element of the path, with the elements kept so far, the last one first: [.] and
    empty elements are dropped, [..] takes the element before it away; at the root there
    is none, and a relative path keeps the [..] it cannot resolve. *)
Definition clean_elem (rooted : bool) (out : list string) (e : string) : list string :=
  if bool_decide (e = "") || bool_decide (e = ".") then out
  else if bool_decide (e = "..") then
    match out with
    | [] => if rooted then [] else [".."]
    | l :: out' => if bool_decide (l = "..") then ".." :: out else out'
    end
  else e :: out.

Definition render (rooted : bool) (elems : list string) : string :=
  if rooted then "/" +:+ Join elems "/"
  else match elems with [] => "." | _ => Join elems "/" end.

Definition Clean (path : string) : string :=
  render (IsAbs path) (reverse (foldl (clean_elem (IsAbs path)) [] (split_on slash path))).

(** [filepath.Join] of two elements: empty ones are left out. *)
Definition Join2 (a b : string) : string :=
  if negb (bool_decide (a = "")) then Clean (a +:+ "/" +:+ b)
  else if negb (bool_decide (b = "")) then Clean b else "".

(** [filepath.Dir]: all but the last element, cleaned. *)
Fixpoint dir_part (path : string) : option string :=
  match path with
  | EmptyString => None
  | String c s =>
      match dir_part s with
      | Some d => Some (String c d)
      | None => if Ascii.eqb c slash then Some (String c EmptyString) else None
      end
  end.
Definition Dir (path : string) : string := Clean (default "" (dir_part path)).

Inductive path_error :=
| ErrPathTraversal | ErrAbsolutePath | ErrEmptyPath
| ErrOperationDenied | ErrSymlinkTarget | ErrNotDirectory | ErrRemoveProtected
| SymlinksDisabled
| SourcePath (e : path_error) | DestinationPath (e : path_error).

(** * safepath.go *)

Definition SafeJoin (base relativePath : string) : string + path_error :=
  if bool_decide (base = "") || bool_decide (relativePath = "") then inr ErrEmptyPath
  else
    let cleanBase := Clean base in
    if IsAbs relativePath then inr ErrAbsolutePath
    else
      let joined := Join2 cleanBase relativePath in
      let cleanJoined := Clean joined in
      if negb (HasPrefix (cleanJoined +:+ "/") (cleanBase +:+ "/")) && negb (bool_decide (cleanJoined = cleanBase))
      then inr ErrPathTraversal
      else inl cleanJoined.

Definition ValidateRelativePath (path : string) : option path_error :=
  if bool_decide (path = "") then Some ErrEmptyPath
  else if IsAbs path then Some ErrAbsolutePath
  else
    let cleaned := Clean path in
    if HasPrefix cleaned "../" || bool_decide (cleaned = "..") then Some ErrPathTraversal
    else None.

(** The loop [for strings.Contains(cleaned, "..") { ... }]; [fuel] turns. *)
Fixpoint drop_dotdot (fuel : nat) (s : string) : string :=
  match fuel with
  | O => s
  | S fuel' => if Contains s ".." then drop_dotdot fuel' (ReplaceAll s ".." "") else s
  end.

Definition nul : string := String Ascii.zero "".

Definition SanitizePath (path : string) : string :=
  let cleaned := Clean path in
  let cleaned := drop_dotdot (String.length cleaned) cleaned in
  Clean (ReplaceAll cleaned nul "").

(** * safeops.go *)

(** What reaches the operating system. *)
Inductive syscall :=
| OsRemove (path : string)
| OsRemoveAll (path : string)
| OsMkdir (path : string) (perm : Z)
| OsMkdirAll (path : string) (perm : Z)
| OsSymlink (target link : string)
| OsRename (old new : string)
| OsWriteFile (path : string) (data : list Z) (perm : Z)
| OsReadFile (path : string)
| OsOpen (path : string)
| OsCreate (path : string)
| OsStat (path : string)
| OsLstat (path : string)
| OsChmod (path : string) (mode : Z)
| OsChown (path : string) (uid gid : Z).

Section ops.
Context (Getwd : string).

(** [filepath.Abs], in the working directory. *)
Definition Abs (path : string) : string := if IsAbs path then Clean path else Join2 Getwd path.

Definition IsWithinBase (base path : string) : bool :=
  if bool_decide (base = "") || bool_decide (path = "") then false
  else
    let absBase := Abs (Clean base) in
    let absPath := Abs (Clean path) in
    HasPrefix (absPath +:+ "/") (absBase +:+ "/") || bool_decide (absPath = absBase).

Record SafeOps := mkSafeOps { BaseDir : string; AllowSymlinks : bool }.

(** [stat] tells of an absolute path whether it exists and is a directory. *)
Definition NewSafeOps (stat : string → option bool) (baseDir : string) : result SafeOps :=
  let absBase := Abs baseDir in
  match stat absBase with
  | None => Err (Errorf ("base directory does not exist: " +:+ absBase))
  | Some false => Err (Errorf "path is not a directory")
  | Some true => Ok (mkSafeOps absBase false)
  end.

Context (s : SafeOps).

Definition validatePath (path : string) : string + path_error :=
  let absPath := if IsAbs path then Clean path else Abs (Join2 (BaseDir s) path) in
  if IsWithinBase (BaseDir s) absPath then inl absPath else inr ErrOperationDenied.

(** The check of the methods that create something: [SafeJoin] for relative paths. *)
Definition target_path (path : string) : string + path_error :=
  if IsAbs path then
    if negb (IsWithinBase (BaseDir s) path) then inr ErrOperationDenied else inl (Clean path)
  else SafeJoin (BaseDir s) path.

Definition with_path (r : string + path_error) (k : string → syscall + path_error) : syscall + path_error :=
  match r with inl p => k p | inr e => inr e end.

Definition SafeRemove (path : string) : syscall + path_error :=
  with_path (validatePath path) (λ p,
    if bool_decide (p = BaseDir s) then inr ErrRemoveProtected else inl (OsRemove p)).

Definition SafeRemoveAll (path : string) : syscall + path_error :=
  with_path (validatePath path) (λ p,
    if bool_decide (p = BaseDir s) then inr ErrRemoveProtected else inl (OsRemoveAll p)).

Definition SafeMkdir (path : string) (perm : Z) : syscall + path_error :=
  match validatePath path with
  | inl p => inl (OsMkdir p perm)
  | inr _ => with_path (SafeJoin (BaseDir s) path) (λ p, inl (OsMkdir p perm))
  end.

Definition SafeMkdirAll (path : string) (perm : Z) : syscall + path_error :=
  with_path (target_path path) (λ p, inl (OsMkdirAll p perm)).

Definition SafeSymlink (target linkPath : string) : syscall + path_error :=
  if negb (AllowSymlinks s) then inr SymlinksDisabled
  else
    let link := match validatePath linkPath with inl p => inl p | inr _ => target_path linkPath end in
    with_path link (λ absLinkPath,
      let absTarget := if IsAbs target then target else Join2 (Dir absLinkPath) target in
      if negb (IsWithinBase (BaseDir s) absTarget) then inr ErrSymlinkTarget
      else inl (OsSymlink target absLinkPath)).

Definition SafeRename (oldPath newPath : string) : syscall + path_error :=
  match validatePath oldPath with
  | inr e => inr (SourcePath e)
  | inl absOld =>
      match target_path newPath with
      | inr e => inr (DestinationPath e)
      | inl absNew => inl (OsRename absOld absNew)
      end
  end.

Definition SafeWriteFile (path : string) (data : list Z) (perm : Z) : syscall + path_error :=
  with_path (target_path path) (λ p, inl (OsWriteFile p data perm)).

Definition SafeReadFile (path : string) : syscall + path_error :=
  with_path (validatePath path) (λ p, inl (OsReadFile p)).

Definition SafeOpen (path : string) : syscall + path_error :=
  with_path (validatePath path) (λ p, inl (OsOpen p)).

Definition SafeCreate (path : string) : syscall + path_error :=
  with_path (target_path path) (λ p, inl (OsCreate p)).

Definition SafeStat (path : string) : syscall + path_error :=
  with_path (validatePath path) (λ p, inl (OsStat p)).

Definition SafeLstat (path : string) : syscall + path_error :=
  with_path (validatePath path) (λ p, inl (OsLstat p)).

Definition SafeChmod (path : string) (mode : Z) : syscall + path_error :=
  with_path (validatePath path) (λ p, inl (OsChmod p mode)).

Definition SafeChown (path : string) (uid gid : Z) : syscall + path_error :=
  with_path (validatePath path) (λ p, inl (OsChown p uid gid)).

End ops.

(** * Reference: locations

    A directory is the list of the names on the way to it, the last one first.  [walk]
    goes one element of a path from a directory: [..] is the parent, and the root is its
    own parent.  [resolve] is where a path leads from a directory when no link is
    followed. *)

Definition walk (dir : list string) (e : string) : list string :=
  if bool_decide (e = "") || bool_decide (e = ".") then dir
  else if bool_decide (e = "..") then tail dir
  else e :: dir.

Definition resolve (dir : list string) (path : string) : list string := foldl walk dir (split_on slash path).

(** The directory of an absolute path, and the absolute path of a directory. *)
Definition location (path : string) : list string := resolve [] path.
Definition path_of (dir : list string) : string := "/" +:+ Join (reverse dir) "/".

(** A name of a file or directory. *)
Definition name (e : string) : Prop := e ≠ "" ∧ e ≠ "." ∧ e ≠ ".." ∧ free_of slash e = true.

(** The directory is [base] or below it. *)
Definition within (base dir : list string) : Prop := base `suffix_of` dir.

(** * Lemmas *)

Lemma split_on_parts c s e : e ∈ split_on c s → free_of c e = true.
Proof.
  revert e. induction s as [|d s IH]; intros e; simpl; [by intros ->%list_elem_of_singleton|].
  destruct (Ascii.eqb d c) eqn:E.
  - rewrite elem_of_cons. intros [->|He]; [done|by apply IH].
  - destruct (split_on c s) as [|x l] eqn:El.
    + intros ->%list_elem_of_singleton. simpl. by rewrite E.
    + rewrite elem_of_cons. intros [->|He]; [|by apply IH; right].
      simpl. rewrite E. simpl. apply IH. left.
Qed.

(** ** Names *)

Lemma Join_cons e l : l ≠ [] → Join (e :: l) "/" = e +:+ String slash (Join l "/").
Proof. intros Hl. unfold Join. by destruct l. Qed.

Lemma split_Join l : l ≠ [] → Forall (λ e, free_of slash e = true) l → split_on slash (Join l "/") = l.
Proof.
  intros Hl Hf. induction Hf as [|e l He Hf IH]; [done|].
  destruct l as [|e' l]; [by apply split_on_free|].
  rewrite Join_cons, split_on_app, split_on_free, IH by done. done.
Qed.

Lemma walk_names dir e : Forall name dir → free_of slash e = true → Forall name (walk dir e).
Proof.
  intros Hd He. unfold walk. repeat case_bool_decide; simpl; try done.
  - by destruct Hd.
  - by constructor.
Qed.

Lemma resolve_names dir path : Forall name dir → Forall name (resolve dir path).
Proof.
  unfold resolve. assert (∀ e, e ∈ split_on slash path → free_of slash e = true) as Hf by (apply split_on_parts).
  revert dir. induction (split_on slash path) as [|e l IH]; intros dir Hd; simpl; [done|].
  apply IH; [intros; apply Hf; by right|]. apply walk_names; [done|]. apply Hf. left.
Qed.

Lemma walk_name dir e : name e → walk dir e = e :: dir.
Proof. intros (? & ? & ? & _). unfold walk. by rewrite !bool_decide_false. Qed.

Lemma foldl_walk_names dir l : Forall name l → foldl walk dir l = reverse l ++ dir.
Proof.
  intros Hl. revert dir. induction Hl as [|e l He Hl IH]; intros dir; simpl; [done|].
  by rewrite IH, walk_name, reverse_cons, <- (assoc_L (++)).
Qed.

Lemma names_free l : Forall name l → Forall (λ e, free_of slash e = true) l.
Proof. intros Hl. eapply Forall_impl; [done|]. by intros e (_ & _ & _ & He). Qed.

Lemma Forall_reverse_names l : Forall name l → Forall name (reverse l).
Proof. by rewrite Forall_reverse. Qed.

(** The path of a location leads there. *)
Lemma resolve_path_of dir : Forall name dir → location (path_of dir) = dir.
Proof.
  intros Hd. unfold location, resolve, path_of. change ("/" +:+ ?s) with (String slash s).
  change (String slash (Join (reverse dir) "/")) with ("" +:+ String slash (Join (reverse dir) "/")).
  rewrite split_on_app. simpl. destruct (decide (dir = [])) as [->|Hne]; [done|].
  rewrite split_Join; [|by intros E%(f_equal reverse); rewrite reverse_involutive in E|
    by apply names_free, Forall_reverse_names].
  rewrite foldl_walk_names by (by apply Forall_reverse_names). by rewrite reverse_involutive, app_nil_r.
Qed.

Lemma path_of_inj dir dir' : Forall name dir → Forall name dir' → path_of dir = path_of dir' → dir = dir'.
Proof. intros H1 H2 E. by rewrite <- (resolve_path_of dir), <- (resolve_path_of dir'), E. Qed.

(** ** Cleaning *)

Lemma clean_elem_rooted out e :
  Forall (λ x, x ≠ "..") out → clean_elem true out e = walk out e ∧ Forall (λ x, x ≠ "..") (walk out e).
Proof.
  intros Ho. unfold clean_elem, walk. repeat case_bool_decide; simpl; try done.
  - destruct Ho as [|l out Hl Ho]; [done|]. by rewrite bool_decide_false.
  - split; [done|]. by constructor.
Qed.

Lemma clean_rooted out l :
  Forall (λ x, x ≠ "..") out → foldl (clean_elem true) out l = foldl walk out l.
Proof.
  revert out. induction l as [|e l IH]; intros out Ho; simpl; [done|].
  destruct (clean_elem_rooted out e Ho) as [-> Hw]. by apply IH.
Qed.

(** Cleaning an absolute path gives the path of its location. *)
Lemma Clean_abs path : IsAbs path = true → Clean path = path_of (location path).
Proof. intros Ha. unfold Clean. rewrite Ha. by rewrite clean_rooted. Qed.

Lemma IsAbs_slash s : IsAbs ("/" +:+ s) = true.
Proof. unfold IsAbs, HasPrefix. simpl. by destruct s. Qed.

Lemma IsAbs_path_of dir : IsAbs (path_of dir) = true.
Proof. apply IsAbs_slash. Qed.

Lemma location_names path : Forall name (location path).
Proof. by apply resolve_names. Qed.

Lemma Clean_path_of dir : Forall name dir → Clean (path_of dir) = path_of dir.
Proof. intros Hd. by rewrite Clean_abs, resolve_path_of by (done || apply IsAbs_path_of). Qed.

Lemma path_of_nonempty dir : path_of dir ≠ "".
Proof. done. Qed.

(** Joining a path to the path of a directory goes on from there. *)
Lemma Join2_path_of dir path : Forall name dir → Join2 (path_of dir) path = path_of (resolve dir path).
Proof.
  intros Hd. unfold Join2. rewrite bool_decide_false by done. simpl.
  rewrite Clean_abs by (unfold path_of; rewrite app_assoc_string; apply IsAbs_slash).
  f_equal. unfold location, resolve. change ("/" +:+ path) with (String slash path).
  rewrite split_on_app, foldl_app. f_equal. by apply resolve_path_of.
Qed.

(** ** Prefixes of paths *)

Lemma HasPrefix_names a b e f :
  free_of slash e = true → free_of slash f = true →
  HasPrefix (e +:+ String slash a) (f +:+ String slash b) = bool_decide (e = f) && HasPrefix a b.
Proof.
  revert f. induction e as [|c e IH]; intros [|d f] He Hf;
    change ("" +:+ ?s) with s; change (String ?x ?y +:+ ?s) with (String x (y +:+ s));
    rewrite ?HasPrefix_String.
  - by rewrite !bool_decide_true.
  - apply free_of_cons in Hf as [Hf _]. by rewrite !bool_decide_false.
  - apply free_of_cons in He as [He _]. rewrite !bool_decide_false by congruence. done.
  - apply free_of_cons in He as [_ He], Hf as [_ Hf]. rewrite IH, andb_assoc by done. f_equal.
    apply eq_true_iff_eq. rewrite andb_true_iff, !bool_decide_eq_true. split; [by intros [-> ->]|by intros [= -> ->]].
Qed.

(** The elements each followed by a slash. *)
Fixpoint slashed (l : list string) : string :=
  match l with [] => "" | e :: l' => e +:+ String slash (slashed l') end.

Lemma Join_slashed l : l ≠ [] → Join l "/" +:+ "/" = slashed l.
Proof.
  intros Hl. induction l as [|e l IH]; [done|]. destruct l as [|e' l]; [done|].
  rewrite Join_cons by done. rewrite app_assoc_string.
  change (String slash ?x +:+ ?y) with (String slash (x +:+ y)). by rewrite IH.
Qed.

Lemma slashed_prefix l k :
  Forall name l → Forall name k → HasPrefix (slashed l) (slashed k) = true ↔ k `prefix_of` l.
Proof.
  intros Hl Hk. revert l Hl. induction Hk as [|f k Hf Hk IH]; intros l Hl; simpl.
  { split; [intros _; apply prefix_nil|]. unfold HasPrefix. by destruct (slashed l). }
  destruct Hl as [|e l He Hl]; simpl.
  { destruct Hf as (Hf & _). unfold HasPrefix. split; [by destruct f|].
    intros [? E]. done. }
  rewrite HasPrefix_names by (apply He || apply Hf). rewrite andb_true_iff, bool_decide_eq_true, IH by done.
  split; [intros [-> Hp]; by apply prefix_cons|].
  intros Hp. pose proof (prefix_cons_inv_1 _ _ _ _ Hp) as ->. split; [done|]. by eapply prefix_cons_inv_2.
Qed.

(** The comparison the code makes, for a base that is not the root: the location is in
    the base. *)
Lemma path_prefix dir base :
  Forall name dir → Forall name base → base ≠ [] →
  HasPrefix (path_of dir +:+ "/") (path_of base +:+ "/") || bool_decide (path_of dir = path_of base) = true ↔
  within base dir.
Proof.
  intros Hd Hb Hne. unfold within.
  assert (HasPrefix (path_of dir +:+ "/") (path_of base +:+ "/") = true ↔ base `suffix_of` dir) as Hp.
  { unfold path_of. rewrite !app_assoc_string, HasPrefix_app.
    assert (∀ l : list string, l ≠ [] → reverse l ≠ []) as Hrev
      by (intros l Hl E%(f_equal reverse); by rewrite reverse_involutive in E).
    rewrite (Join_slashed (reverse base)) by auto.
    destruct (decide (dir = [])) as [->|Hdn].
    - split; [|by intros ?%suffix_nil_inv].
      pose proof (Forall_reverse_names _ Hb) as Hrb. pose proof (Hrev _ Hne) as Hrn.
      destruct Hrb as [|e l He _]; [done|]. change (Join (reverse []) "/" +:+ "/") with ("" +:+ String slash "").
      cbn [slashed]. rewrite HasPrefix_names by (done || apply He).
      rewrite bool_decide_false; [done|]. intros <-. by destruct He.
    - rewrite (Join_slashed (reverse dir)) by auto.
      rewrite slashed_prefix by (by apply Forall_reverse_names). by rewrite suffix_prefix_reverse. }
  rewrite orb_true_iff, Hp, bool_decide_eq_true. split; [|by left].
  intros [|E]; [done|]. by apply path_of_inj in E as ->.
Qed.

(** Below the root the comparison only finds the root itself: the separator is doubled. *)
Lemma root_prefix dir :
  Forall name dir →
  HasPrefix (path_of dir +:+ "/") (path_of [] +:+ "/") || bool_decide (path_of dir = path_of []) = bool_decide (dir = []).
Proof.
  intros Hd. destruct (decide (dir = [])) as [->|Hne]; [by rewrite !bool_decide_true|].
  rewrite (bool_decide_false (dir = [])) by done.
  rewrite (bool_decide_false (path_of dir = path_of [])) by (intros E; by apply path_of_inj in E).
  rewrite orb_false_r. unfold path_of. rewrite !app_assoc_string, HasPrefix_app, Join_slashed
    by (intros E%(f_equal reverse); by rewrite reverse_involutive in E).
  pose proof (Forall_reverse_names _ Hd) as Hr.
  destruct (reverse dir) as [|e l] eqn:E; [by rewrite <- (reverse_involutive dir), E in Hne|].
  apply Forall_cons in Hr as [He _]. change (Join (reverse []) "/" +:+ "/") with ("" +:+ String slash "").
  cbn [slashed]. rewrite HasPrefix_names by (done || apply He).
  rewrite bool_decide_false; [done|]. intros ->. by destruct He.
Qed.

(** ** The checks *)

#[export] Instance within_dec base dir : Decision (within base dir) := ltac:(unfold within; apply _).

Definition nonroot (base : list string) : Prop := Forall name base ∧ base ≠ [].

Lemma Abs_path_of cwd dir : Forall name dir → Abs cwd (path_of dir) = path_of dir.
Proof. intros Hd. unfold Abs. by rewrite IsAbs_path_of, Clean_path_of. Qed.

Lemma within_base_path cwd base dir :
  nonroot base → Forall name dir →
  IsWithinBase cwd (path_of base) (path_of dir) = bool_decide (within base dir).
Proof.
  intros [Hb Hne] Hd. unfold IsWithinBase. rewrite !bool_decide_false by done. cbn [orb].
  rewrite !Clean_path_of, !Abs_path_of by done.
  apply eq_true_iff_eq. by rewrite path_prefix, bool_decide_eq_true by done.
Qed.

Lemma within_base_abs cwd base path :
  nonroot base → IsAbs path = true →
  IsWithinBase cwd (path_of base) path = bool_decide (within base (location path)).
Proof.
  intros Hb Ha. assert (path ≠ "") as Hne by (by intros ->).
  rewrite <- (within_base_path cwd) by (done || apply location_names).
  unfold IsWithinBase. rewrite (bool_decide_false (path = "")) by done.
  rewrite (bool_decide_false (path_of (location path) = "")) by done.
  by rewrite (Clean_abs path), (Clean_path_of (location path)) by (done || apply location_names).
Qed.

(** Where a path leads from the base directory. *)
Definition target_of (base : list string) (path : string) : list string :=
  if IsAbs path then location path else resolve base path.

Lemma target_of_names base path : Forall name base → Forall name (target_of base path).
Proof. intros Hb. unfold target_of. destruct (IsAbs path); by apply resolve_names. Qed.

Lemma validatePath_spec cwd s base path :
  nonroot base → BaseDir s = path_of base →
  validatePath cwd s path =
    if decide (within base (target_of base path)) then inl (path_of (target_of base path)) else inr ErrOperationDenied.
Proof.
  intros Hb Es. unfold validatePath. rewrite Es.
  replace (if IsAbs path then _ else _) with (path_of (target_of base path)).
  - rewrite within_base_path by (done || apply target_of_names, Hb).
    by case_bool_decide; case_decide.
  - unfold target_of. destruct (IsAbs path) eqn:Ha; [by rewrite Clean_abs|].
    rewrite Join2_path_of, Abs_path_of by (try apply resolve_names; apply Hb). done.
Qed.

Lemma SafeJoin_spec dir path :
  nonroot dir → path ≠ "" → IsAbs path = false →
  SafeJoin (path_of dir) path =
    if decide (within dir (resolve dir path)) then inl (path_of (resolve dir path)) else inr ErrPathTraversal.
Proof.
  intros [Hd Hne] Hp Ha. unfold SafeJoin. rewrite !bool_decide_false by done. cbn [orb].
  rewrite Clean_path_of, Ha, Join2_path_of, Clean_path_of by (try apply resolve_names; done).
  rewrite <- negb_orb.
  pose proof (path_prefix (resolve dir path) dir (resolve_names _ path Hd) Hd Hne) as Hw.
  destruct (decide (within dir (resolve dir path))) as [Hi|Hi].
  - by rewrite (proj2 Hw Hi).
  - destruct (_ || _); [by destruct Hi; apply Hw|done].
Qed.

Lemma target_path_inl cwd s base path p :
  nonroot base → BaseDir s = path_of base → target_path cwd s path = inl p →
  p = path_of (target_of base path) ∧ within base (target_of base path).
Proof.
  intros Hb Es. unfold target_path, target_of. rewrite Es. destruct (IsAbs path) eqn:Ha.
  - rewrite within_base_abs by done. case_bool_decide; simpl; [|done]. intros [= <-]. by rewrite Clean_abs.
  - destruct (decide (path = "")) as [->|Hp]; [by unfold SafeJoin; rewrite orb_true_r|].
    rewrite SafeJoin_spec by done. case_decide; [|done]. by intros [= <-].
Qed.

(** The directory of a path one below it. *)
Lemma dir_part_app a e : free_of slash e = true → dir_part (a +:+ String slash e) = Some (a +:+ "/").
Proof.
  intros He. assert (dir_part e = None) as Hn.
  { induction e as [|c e IH]; [done|]. apply free_of_cons in He as [Hc He]. simpl. rewrite (IH He).
    by destruct (Ascii.eqb_spec c slash). }
  induction a as [|c a IH]; [by change ("" +:+ ?s) with s; cbn [dir_part]; rewrite Hn|].
  change (String c a +:+ ?s) with (String c (a +:+ s)). cbn [dir_part]. by rewrite IH.
Qed.

Lemma Join_snoc l e : l ≠ [] → Join (l ++ [e]) "/" = Join l "/" +:+ String slash e.
Proof.
  induction l as [|x l IH]; intros Hl; [done|]. destruct l as [|y l]; [done|].
  change ((x :: y :: l) ++ [e]) with (x :: ((y :: l) ++ [e])).
  rewrite Join_cons, IH by (by destruct l). rewrite (Join_cons x (y :: l)) by done.
  rewrite app_assoc_string. done.
Qed.

Lemma Dir_path_of dir : Forall name dir → Dir (path_of dir) = path_of (tail dir).
Proof.
  intros Hd. unfold Dir. destruct Hd as [|e dir He Hd]; [done|]. cbn [tail].
  assert (path_of (e :: dir) = (if bool_decide (dir = []) then "" else path_of dir) +:+ String slash e) as ->.
  { unfold path_of. rewrite reverse_cons. case_bool_decide as Hn; [by subst|].
    rewrite Join_snoc; [done|]. by intros E%(f_equal reverse); rewrite reverse_involutive in E. }
  rewrite dir_part_app by apply He. change (default "" (Some ?x)) with x.
  case_bool_decide as Hn; [by subst|].
  rewrite Clean_abs by (unfold path_of; rewrite app_assoc_string; apply IsAbs_slash).
  f_equal. unfold location, resolve. change (path_of dir +:+ "/") with (path_of dir +:+ String slash "").
  rewrite split_on_app, foldl_app.
  by rewrite (resolve_path_of dir Hd : foldl walk [] (split_on slash (path_of dir)) = dir).
Qed.

Lemma SafeJoin_clean base rel :
  IsAbs base = true → SafeJoin base rel = SafeJoin (path_of (location base)) rel.
Proof.
  intros Ha. unfold SafeJoin. assert (base ≠ "") by (by intros ->).
  rewrite !bool_decide_false by done. cbn [orb].
  by rewrite (Clean_abs base), Clean_path_of by (done || apply location_names).
Qed.

Lemma SafeJoin_root rel :
  rel ≠ "" → IsAbs rel = false →
  SafeJoin (path_of []) rel =
    if decide (location rel = []) then inl "/" else inr ErrPathTraversal.
Proof.
  intros Hr Ha. unfold SafeJoin. rewrite !bool_decide_false by done. cbn [orb].
  rewrite (Clean_path_of []), Ha, Join2_path_of by constructor.
  change (resolve [] rel) with (location rel).
  rewrite Clean_path_of by (apply location_names).
  rewrite <- negb_orb. rewrite root_prefix by (apply location_names).
  case_bool_decide as E; destruct (decide (location rel = [])); try done. by rewrite E.
Qed.

(** ** The operations *)

(** The methods of [SafeOps]. *)
Inductive file_op :=
| Remove (path : string)
| RemoveAll (path : string)
| Mkdir (path : string) (perm : Z)
| MkdirAll (path : string) (perm : Z)
| Symlink (target link : string)
| Rename (old new : string)
| WriteFile (path : string) (data : list Z) (perm : Z)
| ReadFile (path : string)
| Open (path : string)
| Create (path : string)
| Stat (path : string)
| Lstat (path : string)
| Chmod (path : string) (mode : Z)
| Chown (path : string) (uid gid : Z).

Definition perform (cwd : string) (s : SafeOps) (op : file_op) : syscall + path_error :=
  match op with
  | Remove p => SafeRemove cwd s p
  | RemoveAll p => SafeRemoveAll cwd s p
  | Mkdir p m => SafeMkdir cwd s p m
  | MkdirAll p m => SafeMkdirAll cwd s p m
  | Symlink t l => SafeSymlink cwd s t l
  | Rename o n => SafeRename cwd s o n
  | WriteFile p d m => SafeWriteFile cwd s p d m
  | ReadFile p => SafeReadFile cwd s p
  | Open p => SafeOpen cwd s p
  | Create p => SafeCreate cwd s p
  | Stat p => SafeStat cwd s p
  | Lstat p => SafeLstat cwd s p
  | Chmod p m => SafeChmod cwd s p m
  | Chown p u g => SafeChown cwd s p u g
  end.

(** The paths a call acts on; a link's target is only written into the link. *)
Definition touched (c : syscall) : list string :=
  match c with
  | OsRemove p | OsRemoveAll p | OsMkdir p _ | OsMkdirAll p _ | OsWriteFile p _ _ | OsReadFile p
  | OsOpen p | OsCreate p | OsStat p | OsLstat p | OsChmod p _ | OsChown p _ _ => [p]
  | OsSymlink _ link => [link]
  | OsRename old new => [old; new]
  end.

Definition inside (base : list string) (p : string) : Prop :=
  ∃ d, p = path_of d ∧ Forall name d ∧ within base d.

(** Besides acting inside the base, a call does not remove it, and a link it makes leads
    inside it from where the link is. *)
Definition confined (base : list string) (c : syscall) : Prop :=
  Forall (inside base) (touched c) ∧
  (∀ p, c = OsRemove p ∨ c = OsRemoveAll p → p ≠ path_of base) ∧
  (∀ t l, c = OsSymlink t l → ∃ d, l = path_of d ∧ Forall name d ∧ within base (target_of (tail d) t)).

Section confinement.
Context (cwd : string) (s : SafeOps) (base : list string).
Hypothesis Hbase : nonroot base.
Hypothesis Edir : BaseDir s = path_of base.

Lemma validatePath_inside path p : validatePath cwd s path = inl p → inside base p.
Proof using Hbase Edir.
  rewrite (validatePath_spec _ _ base) by done. case_decide; [|done]. intros [= <-].
  exists (target_of base path). split_and!; [done| |done]. apply target_of_names, Hbase.
Qed.

Lemma target_path_inside path p : target_path cwd s path = inl p → inside base p.
Proof using Hbase Edir.
  intros Hp. apply (target_path_inl _ _ base) in Hp as [-> Hw]; [|done..].
  exists (target_of base path). split_and!; [done| |done]. apply target_of_names, Hbase.
Qed.

Lemma confined_plain c :
  Forall (inside base) (touched c) →
  (∀ p, c ≠ OsRemove p) → (∀ p, c ≠ OsRemoveAll p) → (∀ t l, c ≠ OsSymlink t l) → confined base c.
Proof using Type. intros Ht H1 H2 H3. split_and!; [done| |]; naive_solver. Qed.

Lemma validated_op path k c :
  with_path (validatePath cwd s path) k = inl c →
  ∃ p, inside base p ∧ k p = inl c.
Proof using Hbase Edir.
  destruct (validatePath cwd s path) as [p|e] eqn:E; [|done]. intros Hk. exists p. split; [|done].
  by eapply validatePath_inside.
Qed.

Lemma targeted_op path k c :
  with_path (target_path cwd s path) k = inl c →
  ∃ p, inside base p ∧ k p = inl c.
Proof using Hbase Edir.
  destruct (target_path cwd s path) as [p|e] eqn:E; [|done]. intros Hk. exists p. split; [|done].
  by eapply target_path_inside.
Qed.

Lemma removal_confined path (mk : string → syscall) c :
  (mk = OsRemove ∨ mk = OsRemoveAll) →
  with_path (validatePath cwd s path) (λ p, if bool_decide (p = BaseDir s) then inr ErrRemoveProtected else inl (mk p)) = inl c →
  confined base c.
Proof using Hbase Edir.
  intros Hmk (p & Hp & Hc)%validated_op. case_bool_decide as Hn; [done|]. rewrite Edir in Hn.
  injection Hc as <-. split_and!.
  - destruct Hmk as [-> | ->]; by constructor.
  - intros q. destruct Hmk as [-> | ->]; by intros [[= <-]|[= <-]].
  - destruct Hmk as [-> | ->]; done.
Qed.

Lemma mkdir_confined path perm c : SafeMkdir cwd s path perm = inl c → confined base c.
Proof using Hbase Edir.
  unfold SafeMkdir. destruct (validatePath cwd s path) as [p|e] eqn:Ev.
  - intros [= <-]. apply confined_plain; [|done..]. constructor; [|done]. by eapply validatePath_inside.
  - destruct (SafeJoin (BaseDir s) path) as [p|e'] eqn:Ej; [|done]. intros [= <-].
    apply confined_plain; [|done..]. constructor; [|done]. apply (target_path_inside path).
    unfold target_path. destruct (IsAbs path) eqn:Ha; [|done].
    unfold SafeJoin in Ej. rewrite Ha in Ej. by destruct (_ || _).
Qed.

Lemma symlink_confined target link c : SafeSymlink cwd s target link = inl c → confined base c.
Proof using Hbase Edir.
  unfold SafeSymlink. destruct (AllowSymlinks s); [|done]. cbn [negb].
  set (l := match validatePath cwd s link with inl p => inl p | inr _ => _ end).
  assert (∀ p, l = inl p → inside base p) as Hl.
  { intros p. unfold l. destruct (validatePath cwd s link) as [q|e] eqn:Ev.
    - intros [= <-]. by eapply validatePath_inside.
    - apply target_path_inside. }
  destruct l as [p|e]; [|done]. cbn [with_path]. specialize (Hl p eq_refl) as (d & -> & Hd & Hw).
  rewrite Edir, Dir_path_of by done. assert (Forall name (tail d)) as Ht by (by destruct Hd).
  replace (IsWithinBase cwd (path_of base) _) with (bool_decide (within base (target_of (tail d) target))).
  - case_bool_decide as Hwt; [|done]. intros [= <-]. split_and!.
    + constructor; [|done]. by exists d.
    + by intros ? [|].
    + intros t l' [= <- <-]. by exists d.
  - unfold target_of. destruct (IsAbs target) eqn:Ha; [by rewrite within_base_abs|].
    rewrite Join2_path_of, within_base_path by (try apply resolve_names; done). done.
Qed.

Lemma rename_confined old new c : SafeRename cwd s old new = inl c → confined base c.
Proof using Hbase Edir.
  unfold SafeRename. destruct (validatePath cwd s old) as [p|] eqn:Ev; [|done].
  destruct (target_path cwd s new) as [q|] eqn:Et; [|done]. intros [= <-].
  apply confined_plain; [|done..]. repeat constructor; [by eapply validatePath_inside|by eapply target_path_inside].
Qed.

Lemma perform_confined op c : perform cwd s op = inl c → confined base c.
Proof using Hbase Edir.
  destruct op; cbn [perform]; first
    [ by apply removal_confined; auto
    | apply mkdir_confined
    | apply symlink_confined
    | apply rename_confined
    | intros (p & Hp & [= <-])%validated_op; by apply confined_plain; [constructor|..]
    | intros (p & Hp & [= <-])%targeted_op; by apply confined_plain; [constructor|..] ].
Qed.

End confinement.

(** ** Relative paths

    A relative path, cleaned, is some number of [..] and then names: where it leads from
    a directory is found by leaving that many levels and going down by those names. *)
Lemma tail_of_drop n (B : list string) : tail (drop n B) = drop (S n) B.
Proof. revert B. induction n as [|n IH]; intros [|x B]; [done..|apply IH]. Qed.

Lemma clean_relative l names n :
  Forall name names → Forall (λ e, free_of slash e = true) l →
  ∃ names' n', foldl (clean_elem false) (names ++ replicate n "..") l = names' ++ replicate n' ".." ∧
    Forall name names' ∧ ∀ B, foldl walk (names ++ drop n B) l = names' ++ drop n' B.
Proof.
  intros Hn Hl. revert names n Hn. induction Hl as [|e l He Hl IH]; intros names n Hn; simpl; [by exists names, n|].
  unfold clean_elem at 2, walk at 2. destruct (bool_decide (e = "") || bool_decide (e = ".")) eqn:E1; [by apply IH|].
  destruct (bool_decide (e = "..")) eqn:E2.
  - destruct Hn as [|x names Hx Hn]; simpl.
    + destruct n as [|n]; simpl.
      * destruct (IH [] 1%nat) as (names' & n' & H1 & H2 & H3); [done|]. exists names', n'. split_and!; [done..|].
        intros B. rewrite <- H3. by destruct B.
      * destruct (IH [] (S (S n))) as (names' & n' & H1 & H2 & H3); [done|]. exists names', n'. split_and!; [done..|].
        intros B. rewrite <- H3. f_equal. apply (tail_of_drop (S n)).
    + rewrite (bool_decide_false (x = "..")) by (by destruct Hx as (_ & _ & ? & _)). by apply IH.
  - apply bool_decide_eq_false in E2. apply (IH (e :: names)). constructor; [|done].
    apply orb_false_iff in E1 as [E0%bool_decide_eq_false E1%bool_decide_eq_false]. by split_and!.
Qed.

Lemma HasPrefix_empty s : HasPrefix s "" = true.
Proof. by destruct s. Qed.

Lemma HasPrefix_true s p : HasPrefix s p = true → ∃ r, s = p +:+ r.
Proof.
  revert s. induction p as [|c p IH]; intros s; [by exists s|]. destruct s as [|d s]; [done|].
  rewrite HasPrefix_String, andb_true_iff, bool_decide_eq_true. intros [-> [r ->]%IH]. by exists r.
Qed.

Lemma free_of_slash a b : free_of slash (a +:+ String slash b) = false.
Proof.
  induction a as [|c a IH]; [done|].
  change (String c a +:+ ?s) with (String c (a +:+ s)). apply not_true_is_false. rewrite free_of_cons, IH.
  by intros [_ ?].
Qed.

Lemma Join_dotdot n l :
  Forall name l →
  let s := Join (replicate n ".." ++ l) "/" in
  HasPrefix s "../" || bool_decide (s = "..") = bool_decide (n ≠ O) ∨ (n = O ∧ l = []).
Proof.
  intros Hl s. destruct n as [|n]; simpl in s.
  - destruct Hl as [|e l He Hl]; [by right|]. left. rewrite (bool_decide_false (0%nat ≠ 0%nat)) by (by intros []).
    destruct He as (_ & _ & Hdd & Hf).
    destruct l as [|e' l].
    + change s with e. rewrite (bool_decide_false (e = "..")) by done. rewrite orb_false_r.
      destruct (HasPrefix e "../") eqn:Hp; [|done]. by apply HasPrefix_true in Hp as [r ->].
    + change s with (Join (e :: e' :: l) "/"). rewrite Join_cons by done.
      change "../" with (".." +:+ String slash "") at 1. rewrite HasPrefix_names by done.
      rewrite bool_decide_false by done. cbn [andb orb]. apply bool_decide_false. intros E.
      apply (f_equal (free_of slash)) in E. by rewrite free_of_slash in E.
  - left. rewrite (bool_decide_true (S n ≠ 0%nat)) by done.
    change s with (Join (".." :: (replicate n ".." ++ l)) "/"). generalize (replicate n ".." ++ l) as k.
    intros [|x k]; [done|].
    rewrite Join_cons by done. change "../" with (".." +:+ String slash "") at 1.
    by rewrite HasPrefix_names, HasPrefix_empty by done.
Qed.

(** [n] levels up, then down by [names]. *)
Lemma relative_shape path :
  IsAbs path = false →
  ∃ n names, Forall name names ∧ Clean path = render false (replicate n ".." ++ reverse names) ∧
    ∀ B, resolve B path = names ++ drop n B.
Proof.
  intros Ha. destruct (clean_relative (split_on slash path) [] 0) as (names & n & H1 & H2 & H3); [done| |].
  { apply Forall_forall. intros e. apply split_on_parts. }
  exists n, names. split_and!; [done| |exact H3]. unfold Clean. rewrite Ha.
  change ([] ++ replicate 0 "..") with (@nil string) in H1. rewrite H1, reverse_app. f_equal. f_equal.
  clear. induction n as [|n IH]; [done|]. cbn [replicate]. rewrite reverse_cons, IH.
  clear. induction n as [|n IH]; [done|]. cbn [replicate]. by rewrite <- IH at 2.
Qed.

Lemma stays_below (names : list string) n :
  (∀ B, Forall name B → within B (names ++ drop n B)) ↔ n = O.
Proof.
  split; [|intros -> B _; exists names; by rewrite drop_0].
  intros Hw. destruct n as [|n]; [done|exfalso].
  assert (∀ x, name x → last names = Some x) as Hl.
  { intros x Hx. destruct (Hw [x]) as [k Hk]; [by constructor|]. rewrite drop_ge, app_nil_r in Hk by (simpl; lia).
    rewrite Hk. apply last_snoc. }
  assert (name "a" ∧ name "b") as [Ha Hb] by (by split; repeat split).
  pose proof (Hl _ Ha). pose proof (Hl _ Hb). congruence.
Qed.

Lemma ValidateRelativePath_spec path :
  ValidateRelativePath path = None ↔
  path ≠ "" ∧ IsAbs path = false ∧ ∀ B, Forall name B → within B (resolve B path).
Proof.
  unfold ValidateRelativePath. case_bool_decide as Hne; [naive_solver|].
  destruct (IsAbs path) eqn:Ha; [naive_solver|].
  destruct (relative_shape path Ha) as (n & names & Hn & Hc & Hr).
  assert ((HasPrefix (Clean path) "../" || bool_decide (Clean path = "..")) = bool_decide (n ≠ O)) as ->.
  { rewrite Hc. destruct (replicate n ".." ++ reverse names) as [|e l] eqn:E.
    - by destruct n.
    - destruct (Join_dotdot n (reverse names)) as [Hj|[-> Hj]]; [by apply Forall_reverse_names| |].
      + cbv zeta in Hj. rewrite E in Hj. exact Hj.
      + by rewrite Hj in E. }
  assert ((∀ B, Forall name B → within B (resolve B path)) ↔ n = O) as ->
    by (rewrite <- (stays_below names); by setoid_rewrite Hr).
  case_bool_decide; naive_solver.
Qed.

(** ** Removing [..] *)

Lemma replace_from_length old k s :
  (0 < String.length old)%nat →
  (String.length (replace_from old "" k s) ≤ String.length s)%nat ∧
  (Contains s old = true → k = O → (String.length (replace_from old "" k s) < String.length s)%nat).
Proof.
  intros Hold. revert k. induction s as [|c s IH]; intros k.
  { split; [done|]. cbn [Contains]. by destruct old; [simpl in Hold; lia|]. }
  cbn [replace_from String.length Contains]. destruct k as [|k].
  - destruct (HasPrefix (String c s) old).
    + destruct (IH (String.length old - 1)%nat) as [IH1 _]. change ("" +:+ ?x) with x. lia.
    + destruct (IH O) as [IH1 IH2]. cbn [String.length orb]. split; [lia|]. intros Hc _. specialize (IH2 Hc eq_refl). lia.
  - destruct (IH k) as [IH1 _]. split; [lia|done].
Qed.

(** The loop ends: every turn shortens the path. *)
Lemma drop_dotdot_done fuel s : (String.length s ≤ fuel)%nat → Contains (drop_dotdot fuel s) ".." = false.
Proof.
  revert s. induction fuel as [|fuel IH]; intros s Hl; cbn [drop_dotdot].
  { by destruct s; simpl in Hl; [|lia]. }
  destruct (Contains s "..") eqn:E; [|done]. apply IH.
  destruct (replace_from_length ".." O s) as [_ Hlt]; [simpl; lia|]. specialize (Hlt E eq_refl).
  unfold ReplaceAll. lia.
Qed.

Lemma drop_dotdot_more fuel s :
  Contains (drop_dotdot fuel s) ".." = false → drop_dotdot (S fuel) s = drop_dotdot fuel s.
Proof.
  revert s. induction fuel as [|fuel IH]; intros s; cbn [drop_dotdot]; [by intros ->|].
  destruct (Contains s "..") eqn:E; [|done]. intros Hd. by apply IH.
Qed.

Lemma split_on_sub c s e : e ∈ split_on c s → ∃ a b, s = a +:+ e +:+ b.
Proof.
  assert (∀ s x l, split_on c s = x :: l → ∃ b, s = x +:+ b) as Hhead.
  { clear. induction s as [|d s IH]; intros x l; simpl; [intros [= <- _]; by exists ""|].
    destruct (Ascii.eqb d c); [intros [= <- _]; by exists (String d s)|].
    destruct (split_on c s) as [|y k] eqn:E; intros [= <- _]; [by exists s|].
    destruct (IH y k eq_refl) as [b ->]. by exists b. }
  revert e. induction s as [|d s IH]; intros e; simpl; [intros ->%list_elem_of_singleton; by exists "", ""|].
  destruct (Ascii.eqb d c) eqn:Ed.
  - rewrite elem_of_cons. intros [->|(a & b & ->)%IH]; [by exists "", (String d s)|by exists (String d a), b].
  - destruct (split_on c s) as [|y k] eqn:E.
    + intros ->%list_elem_of_singleton. by exists "", s.
    + rewrite elem_of_cons. intros [->|He].
      * destruct (Hhead s y k E) as [b ->]. by exists "", b.
      * destruct (IH e) as (a & b & ->); [by right|]. by exists (String d a), b.
Qed.

Lemma no_dotdot_elements s : Contains s ".." = false → ".." ∉ split_on slash s.
Proof. intros Hc (a & b & ->)%split_on_sub. by rewrite Contains_middle in Hc. Qed.

Lemma clean_keeps_names rooted out l :
  ".." ∉ l → Forall (λ e, free_of slash e = true) l → Forall name out →
  Forall name (foldl (clean_elem rooted) out l).
Proof.
  intros Hdd Hl. revert out Hdd. induction Hl as [|e l He Hl IH]; intros out Hdd Ho; [done|].
  apply not_elem_of_cons in Hdd as [Hd Hdd]. cbn [foldl]. apply IH; [done|]. unfold clean_elem.
  destruct (bool_decide (e = "") || bool_decide (e = ".")) eqn:E; [done|].
  rewrite bool_decide_false by done. constructor; [|done].
  apply orb_false_iff in E as [E0%bool_decide_eq_false E1%bool_decide_eq_false]. by split_and!.
Qed.

Lemma Clean_no_dotdot s :
  ".." ∉ split_on slash s → ∃ r k, Clean s = render r k ∧ Forall name k.
Proof.
  intros Hs. unfold Clean. eexists _, _. split; [done|]. apply Forall_reverse_names.
  apply clean_keeps_names; [done| |done]. apply Forall_forall. intros e. apply split_on_parts.
Qed.

Lemma split_render r k :
  Forall name k → ∃ pre, Forall (λ e, e = "" ∨ e = ".") pre ∧ split_on slash (render r k) = pre ++ k.
Proof.
  intros Hk. destruct (decide (k = [])) as [->|Hne].
  - exists (if r then [""; ""] else ["."]). split; [|by destruct r].
    destruct r; [apply Forall_cons; split; [by left|]|]; (apply Forall_singleton; auto).
  - pose proof (split_Join k Hne (names_free k Hk)) as Hs. destruct r; simpl.
    + exists [""]. split; [apply Forall_singleton; auto|]. change (split_on slash (String slash (Join k "/")) = "" :: k).
      cbn [split_on]. by rewrite Ascii.eqb_refl, Hs.
    + exists []. split; [done|]. by destruct k.
Qed.

Lemma clean_stays s :
  ".." ∉ split_on slash s →
  (".." ∉ split_on slash (Clean s)) ∧ (∀ B, within B (resolve B (Clean s))).
Proof.
  intros (r & k & -> & Hk)%Clean_no_dotdot. destruct (split_render r k Hk) as (pre & Hp & Es).
  unfold resolve. rewrite Es. split.
  - rewrite elem_of_app. intros [He|He].
    + rewrite Forall_forall in Hp. by destruct (Hp _ He).
    + rewrite Forall_forall in Hk. by destruct (Hk _ He) as (_ & _ & ? & _).
  - intros B. rewrite foldl_app, foldl_walk_names by done. unfold within. apply suffix_app_r.
    assert (foldl walk B pre = B) as ->; [|done]. clear -Hp. induction Hp as [|e pre [-> | ->] _ IH]; done.
Qed.

(** A character that is not there is still not there. *)
Lemma free_of_replace c old k s : free_of c s = true → free_of c (replace_from old "" k s) = true.
Proof.
  revert k. induction s as [|d s IH]; intros k Hs; [done|]. apply free_of_cons in Hs as [Hd Hs].
  cbn [replace_from]. destruct k as [|k]; [|by apply IH].
  destruct (HasPrefix _ _); [by apply IH|]. apply free_of_cons. split; [done|by apply IH].
Qed.

Lemma free_of_drop c fuel s : free_of c s = true → free_of c (drop_dotdot fuel s) = true.
Proof.
  revert s. induction fuel as [|fuel IH]; intros s Hs; [done|]. cbn [drop_dotdot].
  destruct (Contains s ".."); [|done]. by apply IH, free_of_replace.
Qed.

Lemma free_of_app_iff c a b : free_of c (a +:+ b) = free_of c a && free_of c b.
Proof.
  induction a as [|d a IH]; [done|]. change (String d a +:+ b) with (String d (a +:+ b)). simpl.
  by rewrite IH, andb_assoc.
Qed.

Lemma free_of_split c d s : free_of c s = true → Forall (λ e, free_of c e = true) (split_on d s).
Proof.
  intros Hs. apply Forall_forall. intros e (a & b & ->)%split_on_sub.
  rewrite !free_of_app_iff, !andb_true_iff in Hs. by destruct Hs as (_ & ? & _).
Qed.

Lemma free_of_Join c l : c ≠ slash → Forall (λ e, free_of c e = true) l → free_of c (Join l "/") = true.
Proof.
  intros Hc. induction 1 as [|e l He Hl IH]; [done|]. destruct l as [|e' l]; [done|].
  rewrite Join_cons, free_of_app_iff, He by done. apply free_of_cons. by split.
Qed.

Lemma free_of_Clean s c : c ≠ slash → c ≠ Ascii.ascii_of_nat 46 → free_of c s = true → free_of c (Clean s) = true.
Proof.
  intros H1 H2 Hs. unfold Clean. apply (free_of_split c slash) in Hs.
  set (l := foldl _ _ _). assert (Forall (λ e, free_of c e = true) (reverse l)) as Hl.
  { apply Forall_reverse. unfold l. generalize (IsAbs s) as r. intros r.
    assert (free_of c ".." = true) as Hdd by (repeat (apply free_of_cons; split; [done|]); done).
    assert (Forall (λ e, free_of c e = true) []) as Ho by done. revert Ho. generalize (@nil string) as out. clear l.
    induction Hs as [|e l He Hs IH]; intros out Ho; [done|]. cbn [foldl]. apply IH.
    unfold clean_elem. destruct (_ || _); [done|]. case_bool_decide; [|by constructor].
    destruct Ho as [|x out Hx Ho]; [destruct r; by repeat constructor|].
    case_bool_decide; [by repeat constructor|done]. }
  destruct (IsAbs s); cbn [render].
  - apply free_of_cons. split; [done|]. by apply free_of_Join.
  - destruct (reverse l) eqn:E; [by apply free_of_cons|]. by apply free_of_Join.
Qed.

Lemma replace_nul s : free_of Ascii.zero s = true → ReplaceAll s nul "" = s.
Proof.
  unfold ReplaceAll. induction s as [|c s IH]; [done|]. intros [Hc Hs]%free_of_cons. cbn [replace_from].
  unfold nul at 1. rewrite HasPrefix_String, bool_decide_false by done. cbn [andb]. by rewrite IH.
Qed.

Lemma Sanitize_stays path :
  free_of Ascii.zero path = true →
  (".." ∉ split_on slash (SanitizePath path)) ∧ ∀ B, within B (resolve B (SanitizePath path)).
Proof.
  intros Hp. unfold SanitizePath. apply clean_stays.
  rewrite replace_nul by (apply free_of_drop, free_of_Clean; done).
  by apply no_dotdot_elements, drop_dotdot_done.
Qed.

(** * Theorems *)

(** [SafeJoin] from an absolute base other than the root is exact: a relative path is
    accepted when, going on from the base one element at a time, it ends in the base or
    below it, even if it left the base on the way; the result is the cleaned path of that
    place, and everything else is [ErrPathTraversal].  From the root only what leads back
    to the root is accepted, since the separator added to the base is doubled; and a
    relative base is not confined: [..] joined to the base [..] is [../..], while the
    base [.] accepts no name at all. *)
Theorem safe_join_exact (base rel : string) :
  IsAbs base = true → rel ≠ "" → IsAbs rel = false →
  (location base ≠ [] →
    SafeJoin base rel =
      if decide (within (location base) (resolve (location base) rel))
      then inl (path_of (resolve (location base) rel)) else inr ErrPathTraversal) ∧
  (location base = [] →
    SafeJoin base rel = if decide (location rel = []) then inl "/" else inr ErrPathTraversal) ∧
  SafeJoin ".." ".." = inl "../.." ∧ SafeJoin "." "app" = inr ErrPathTraversal.
Proof.
  intros Hb Hr Ha. rewrite SafeJoin_clean by done. split_and!; [| |done..].
  - intros Hne. apply SafeJoin_spec; [split; [apply location_names|done]|done..].
  - intros ->. by apply SafeJoin_root.
Qed.

Lemma safe_join_exact_witness :
  SafeJoin "/srv/app/" "./releases/../shared" = inl "/srv/app/shared" ∧
  SafeJoin "/srv/app" "../app-other" = inr ErrPathTraversal ∧ SafeJoin "/." "etc" = inr ErrPathTraversal.
Proof.
  split_and!.
  - apply (safe_join_exact "/srv/app/" "./releases/../shared"); by vm_compute.
  - apply (safe_join_exact "/srv/app" "../app-other"); by vm_compute.
  - apply (safe_join_exact "/." "etc"); by vm_compute.
Defined.

(** C15: Whatever path a method of [SafeOps] is given, absolute or relative, the call it
    makes acts inside the base directory only (the base itself or below); removal is
    never of the base itself; and a link is only made if its target, from the directory
    of the link, leads inside the base.  No link on the way is followed by the check. *)
Theorem safe_ops_confined (cwd dir : string) (s : SafeOps) (op : file_op) (c : syscall) :
  IsAbs cwd = true → BaseDir s = Abs cwd dir → BaseDir s ≠ "/" →
  perform cwd s op = inl c →
  ∃ base, BaseDir s = path_of base ∧ nonroot base ∧ confined base c.
Proof.
  intros Hcwd Eb Hne Hp. assert (∃ base, BaseDir s = path_of base ∧ nonroot base) as (base & E & Hb).
  { unfold Abs in Eb. destruct (IsAbs dir) eqn:Ha.
    - exists (location dir). rewrite Eb, Clean_abs in * by done. split; [done|]. split; [apply location_names|].
      by intros E; rewrite E in Hne.
    - assert (cwd ≠ "") by (by intros ->).
      assert (IsAbs (cwd +:+ "/" +:+ dir) = true) as Hc.
      { apply HasPrefix_true in Hcwd as [r ->]. rewrite app_assoc_string. apply IsAbs_slash. }
      unfold Join2 in Eb. rewrite bool_decide_false in Eb by done. cbn [negb] in Eb. rewrite Clean_abs in Eb by done.
      exists (location (cwd +:+ "/" +:+ dir)). split; [done|]. split; [apply location_names|].
      intros E. by rewrite Eb, E in Hne. }
  exists base. split_and!; [done..|]. by eapply perform_confined.
Qed.

Lemma safe_ops_confined_witness :
  perform "/root" (mkSafeOps "/srv/app" true) (Symlink "../releases/7" "links/current") = inl (OsSymlink "../releases/7" "/srv/app/links/current") ∧
  perform "/root" (mkSafeOps "/srv/app" true) (Symlink "../../etc" "links/current") = inr ErrSymlinkTarget ∧
  ∃ base, "/srv/app" = path_of base ∧ nonroot base ∧ confined base (OsSymlink "../releases/7" "/srv/app/links/current").
Proof.
  split_and!; [by vm_compute..|].
  apply (safe_ops_confined "/root" "/srv/./app" (mkSafeOps "/srv/app" true) (Symlink "../releases/7" "links/current"));
    by vm_compute.
Defined.

(** A path passes [ValidateRelativePath] if and only if it is relative and stays in
    every directory it is followed from. *)
Theorem validated_paths_stay (path : string) :
  ValidateRelativePath path = None ↔
  path ≠ "" ∧ IsAbs path = false ∧ (∀ dir, Forall name dir → within dir (resolve dir path)).
Proof. apply ValidateRelativePath_spec. Qed.

(** The loop of [SanitizePath] ends: within as many turns as the path has characters
    no [..] is left, and more turns change nothing.  The result then has no [..] element
    and stays in every directory it is followed from, if the path has no NUL; a NUL
    between two dots is taken out only after the loop, and the result escapes. *)
Theorem sanitize_terminates (path : string) :
  Contains (drop_dotdot (String.length (Clean path)) (Clean path)) ".." = false ∧
  (∀ fuel, (String.length (Clean path) ≤ fuel)%nat →
    drop_dotdot (S fuel) (Clean path) = drop_dotdot fuel (Clean path)) ∧
  (free_of Ascii.zero path = true →
    (".." ∉ split_on slash (SanitizePath path)) ∧ (∀ dir, within dir (resolve dir (SanitizePath path)))) ∧
  SanitizePath ("." +:+ nul +:+ "./etc") = "../etc".
Proof.
  split_and!.
  - by apply drop_dotdot_done.
  - intros fuel Hf. by apply drop_dotdot_more, drop_dotdot_done.
  - apply Sanitize_stays.
  - by vm_compute.
Qed.
