(* ===== verification/Pagination.v ===== *)
(** Pages of lists ([src/internal/services/types.go] and [src/internal/server/pagination.go]):
    what a query asks for, the bounds it is brought into, the pages that follow and the
    numbers shown for them.  [int] is 64 bits wide. *)

From S2P Require Import Prelude GoStrings.

#[local] Open Scope string_scope.
#[local] Open Scope list_scope.
#[local] Open Scope Z_scope.

(** * [src/internal/config/defaults.go] *)

Definition DefaultMaxQueryResults : Z := 50.
Definition MaxQueryResultsLimit : Z := 1000.

(** * types.go *)

Record Pagination := mkPagination { Limit : Z; Offset : Z }.

Definition NewPagination (limit offset : Z) : Pagination :=
  let limit := if limit <=? 0 then DefaultMaxQueryResults else limit in
  let limit := if MaxQueryResultsLimit <? limit then MaxQueryResultsLimit else limit in
  let offset := if offset <? 0 then 0 else offset in
  mkPagination limit offset.

Definition HasMore (p : Pagination) (totalCount : Z) : bool := wrap64 (Offset p + Limit p) <? totalCount.

Definition NextPage (p : Pagination) : Pagination := mkPagination (Limit p) (wrap64 (Offset p + Limit p)).

Record DateRange := mkDateRange { From : time; To : time }.

Definition IsValid (d : DateRange) : bool := negb (IsZero (From d)) || negb (IsZero (To d)).

Definition DateRange_Contains (d : DateRange) (t : time) : bool :=
  if negb (IsZero (From d)) && Before t (From d) then false
  else if negb (IsZero (To d)) && After t (To d) then false
  else true.

Record ListResult (T : Type) := mkListResult { Items : list T; ListTotal : Z; ListPage : Pagination }.
Arguments mkListResult {T}. Arguments Items {T}. Arguments ListTotal {T}. Arguments ListPage {T}.

Definition ListResult_HasMore {T} (r : ListResult T) : bool := HasMore (ListPage r) (ListTotal r).
Definition IsEmpty {T} (r : ListResult T) : bool := len (Items r) =? 0.

Definition SortAsc : string := "asc".
Definition SortDesc : string := "desc".
Record SortOption := mkSortOption { Field : string; Direction : string }.

Definition NewSortOption (field direction : string) : SortOption :=
  mkSortOption field
    (if negb (bool_decide (direction = SortAsc)) && negb (bool_decide (direction = SortDesc)) then SortAsc
     else direction).

(** * pagination.go *)

Definition DefaultPageSize : Z := 50.
Definition MaxPageSize : Z := 1000.

(** [q] is [r.URL.Query().Get], the empty string for a parameter that is not given. *)
Definition parsePaginationWithDefaults (q : string → string) (defaultLimit : Z) : Pagination :=
  let limit :=
    if bool_decide (q "limit" = "") then defaultLimit
    else match Atoi (q "limit") with
         | Some l => if 0 <? l then l else defaultLimit
         | None => defaultLimit
         end in
  let limit := if MaxPageSize <? limit then MaxPageSize else limit in
  let offset :=
    if negb (bool_decide (q "offset" = "")) then
      match Atoi (q "offset") with Some o => if 0 <=? o then o else 0 | None => 0 end
    else if negb (bool_decide (q "page" = "")) then
      match Atoi (q "page") with Some p => if 0 <? p then wrap64 ((p - 1) * limit) else 0 | None => 0 end
    else 0 in
  NewPagination limit offset.

Definition parsePagination (q : string → string) : Pagination := parsePaginationWithDefaults q DefaultPageSize.

(** The elements [i] with [lo <= i <= hi] that the loop appends, for an [hi] below the
    largest integer, so that the counter does not wrap around. *)
Definition upto (lo hi : Z) : list Z := seqZ lo (hi - lo + 1).

(** A slice cannot be made with a negative length or capacity. *)
Definition generatePageNumbers (current total maxVisible : Z) : result (list Z) :=
  if total <=? maxVisible then
    if total <? 0 then Panic else Ok ((λ i, i + 1) <$> seqZ 0 total)
  else
    let half := Z.quot maxVisible 2 in
    let start := wrap64 (current - half) in
    let end_ := wrap64 (current + half) in
    let '(start, end_) := if start <? 1 then (1, maxVisible) else (start, end_) in
    let '(start, end_) := if total <? end_ then (wrap64 (wrap64 (total - maxVisible) + 1), total) else (start, end_) in
    if wrap64 (wrap64 (end_ - start) + 1) <? 0 then Panic else Ok (upto start end_).

Record PaginationInfo := mkInfo {
  InfoLimit : Z;
  InfoOffset : Z;
  TotalCount : Z;
  CurrentPage : Z;
  TotalPages : Z;
  HasPrev : bool;
  HasNext : bool;
  PrevOffset : Z;
  NextOffset : Z;
  PageNumbers : list Z
}.

(** A zero limit divides by zero. *)
Definition NewPaginationInfo (p : Pagination) (totalCount : Z) : result PaginationInfo :=
  if Limit p =? 0 then Panic
  else
    let currentPage := wrap64 (wrap64 (Z.quot (Offset p) (Limit p)) + 1) in
    let totalPages := wrap64 (Z.quot (wrap64 (wrap64 (totalCount + Limit p) - 1)) (Limit p)) in
    let totalPages := if totalPages =? 0 then 1 else totalPages in
    match generatePageNumbers currentPage totalPages 5 with
    | Ok numbers =>
        Ok (mkInfo (Limit p) (Offset p) totalCount currentPage totalPages (0 <? Offset p) (HasMore p totalCount)
              (Z.max 0 (wrap64 (Offset p - Limit p))) (wrap64 (Offset p + Limit p)) numbers)
    | Err e => Err e
    | Panic => Panic
    end.

(** * Lemmas *)

(** Removes the wrap-arounds of arithmetic that stays in range, from the inside out. *)
Ltac unwrap64 :=
  repeat match goal with
  | |- context [wrap64 ?z] =>
      lazymatch z with
      | context [wrap64 _] => fail
      | _ => rewrite (wrap64_id z) by (unfold in_int64, int64_min, int64_max in *; lia)
      end
  end.

Definition paged (p : Pagination) : Prop := 1 ≤ Limit p ≤ MaxQueryResultsLimit ∧ 0 ≤ Offset p.

Lemma NewPagination_paged limit offset : paged (NewPagination limit offset).
Proof.
  unfold paged, NewPagination, DefaultMaxQueryResults, MaxQueryResultsLimit. simpl.
  repeat case_match; lia.
Qed.

Lemma Atoi_range s z : Atoi s = Some z → in_int64 z.
Proof.
  unfold Atoi. destruct (split_sign s) as [sign rest]. case_bool_decide; [done|].
  destruct (all_chars _ _); [|done]. destruct (scan_digits _ _); [|done].
  destruct (_ && _) eqn:E; [|done]. intros [= <-]. unfold in_int64. lia.
Qed.

Lemma NewPagination_offset limit offset : in_int64 offset → in_int64 (Offset (NewPagination limit offset)).
Proof. unfold NewPagination, in_int64, int64_min, int64_max. simpl. destruct (offset <? 0); lia. Qed.

Lemma parse_bounds q d :
  paged (parsePaginationWithDefaults q d) ∧ in_int64 (Offset (parsePaginationWithDefaults q d)).
Proof.
  split; [apply NewPagination_paged|]. unfold parsePaginationWithDefaults. apply NewPagination_offset.
  assert (in_int64 0) by (unfold in_int64, int64_min, int64_max; lia).
  set (limit := if MaxPageSize <? _ then _ else _).
  destruct (negb (bool_decide (q "offset" = ""))).
  - destruct (Atoi (q "offset")) eqn:E; [|done]. apply Atoi_range in E. by destruct (0 <=? z).
  - destruct (negb (bool_decide (q "page" = ""))); [|done].
    destruct (Atoi (q "page")); [|done]. destruct (0 <? z); [apply wrap64_range|done].
Qed.

Lemma paginate_paged {A} (all : list A) p :
  paged p → len all ≤ int64_max - MaxQueryResultsLimit →
  paginate all (Limit p) (Offset p) = Ok (take (Z.to_nat (Limit p)) (drop (Z.to_nat (Offset p)) all)).
Proof.
  intros [Hl Ho] Hlen. destruct (decide (Offset p < len all)) as [Hlt|Hge].
  - apply paginate_spec; [lia..|]. unfold in_int64, int64_min, int64_max in *. lia.
  - unfold paginate. destruct (Z.leb_spec (len all) (Offset p)); [|lia].
    rewrite drop_ge; [by rewrite take_nil|]. unfold len in *. lia.
Qed.

Lemma ceil_div_pos total limit : 1 ≤ limit → 0 ≤ total → 0 ≤ Z.quot (total + limit - 1) limit.
Proof. intros. apply Z.quot_pos; lia. Qed.

(** The numbers of at most five consecutive pages, and which ones. *)
Lemma generatePageNumbers_spec current total :
  1 ≤ current ≤ 2 ^ 62 → 1 ≤ total ≤ 2 ^ 62 →
  ∃ first, generatePageNumbers current total 5 = Ok (seqZ first (Z.min 5 total)) ∧
    1 ≤ first ∧ first + Z.min 5 total - 1 ≤ total ∧
    (current ≤ total → first ≤ current < first + Z.min 5 total).
Proof.
  intros Hc Ht. unfold generatePageNumbers, upto. change (Z.quot 5 2) with 2.
  destruct (Z.leb_spec total 5).
  - destruct (Z.ltb_spec total 0); [lia|]. exists 1. rewrite Z.min_r by lia. split_and!; [|lia..].
    f_equal. transitivity (Z.add 1 <$> seqZ 0 total); [|by rewrite fmap_add_seqZ].
    apply list_fmap_ext. intros. lia.
  - rewrite Z.min_l by lia. unwrap64. destruct (Z.ltb_spec (current - 2) 1) as [H1|H1].
    + destruct (Z.ltb_spec total 5); [lia|]. unwrap64. destruct (Z.ltb_spec (5 - 1 + 1) 0); [lia|].
      exists 1. split_and!; [done|lia..].
    + destruct (Z.ltb_spec total (current + 2)); unwrap64.
      * destruct (Z.ltb_spec (total - (total - 5 + 1) + 1) 0); [lia|].
        exists (total - 5 + 1). split_and!; [|lia..]. do 2 f_equal. lia.
      * destruct (Z.ltb_spec (current + 2 - (current - 2) + 1) 0); [lia|].
        exists (current - 2). split_and!; [|lia..]. do 2 f_equal. lia.
Qed.

(** * Theorems *)

(** Whatever the query and the default limit: the page asked for has between 1 and
    1000 elements and an offset that is an [int] and not negative, so that the list
    methods of the store, which panic on a negative offset, return exactly the elements
    from the offset on. *)
Theorem page_request_safe {A} (q : string → string) (d : Z) (all : list A) :
  let p := parsePaginationWithDefaults q d in
  1 ≤ Limit p ≤ 1000 ∧ 0 ≤ Offset p ∧ in_int64 (Offset p) ∧
  (len all ≤ int64_max - MaxQueryResultsLimit →
    paginate all (Limit p) (Offset p) = Ok (take (Z.to_nat (Limit p)) (drop (Z.to_nat (Offset p)) all))).
Proof.
  intros p. destruct (parse_bounds q d) as [Hp Hi]. fold p in Hp, Hi.
  pose proof Hp as [[Hl1 Hl2] Ho]. split_and!; try done. intros Hlen. by apply paginate_paged.
Qed.

(** The query of page [n] with a limit. *)
Definition page_query (limit page : string) (name : string) : string :=
  if bool_decide (name = "limit") then limit else if bool_decide (name = "page") then page else "".

(** Page [n] with limit [l] begins at [(n - 1) * l] as long as that is an [int]; the
    product wraps around, so a large page number asks for an earlier page, and the
    first page can be asked for under another number. *)
Theorem page_number_offset (q : string → string) (n l : Z) :
  Atoi (q "limit") = Some l → Atoi (q "page") = Some n → q "offset" = "" → 1 ≤ n → 1 ≤ l ≤ 1000 →
  (in_int64 ((n - 1) * l) → parsePagination q = mkPagination l ((n - 1) * l)) ∧
  parsePagination (page_query "4" "4611686018427387905") = parsePagination (page_query "4" "1") ∧
  parsePagination (page_query "4" "4611686018427387907") = parsePagination (page_query "4" "3").
Proof.
  intros Hl Hn Ho H1 H2. split_and!; [|by vm_compute..].
  intros Hi. unfold parsePagination, parsePaginationWithDefaults.
  assert (q "limit" ≠ "") by (by intros E; rewrite E in Hl).
  assert (q "page" ≠ "") by (by intros E; rewrite E in Hn).
  rewrite Ho, Hl, Hn, (bool_decide_false (q "limit" = "")), (bool_decide_false (q "page" = "")) by done.
  rewrite bool_decide_true by done. cbn [negb].
  destruct (Z.ltb_spec 0 l); [|lia]. unfold MaxPageSize. destruct (Z.ltb_spec 1000 l); [lia|].
  destruct (Z.ltb_spec 0 n); [|lia]. rewrite wrap64_id by done.
  unfold NewPagination, MaxQueryResultsLimit. destruct (Z.leb_spec l 0); [lia|].
  destruct (Z.ltb_spec 1000 l); [lia|]. destruct (Z.ltb_spec ((n - 1) * l) 0); [nia|done].
Qed.

Lemma page_number_offset_witness :
  parsePagination (page_query "20" "3") = mkPagination 20 40 ∧
  parsePagination (page_query "4" "4611686018427387905") = parsePagination (page_query "4" "1").
Proof.
  split; apply (page_number_offset (page_query "20" "3") 3 20); by vm_compute.
Defined.

(** The information shown for a page, for a total and an offset below 2^62: the pages
    are counted rounding up and there is at least one; there is a next page if and only
    if an element follows; the previous offset is not negative; and the numbers shown
    are at most five consecutive ones of existing pages, the current page among them if
    it exists.  Near the largest [int] the next offset wraps around and a next page is
    announced that does not exist. *)
Theorem page_info_spec (p : Pagination) (total : Z) :
  paged p → Offset p < 2 ^ 62 → 0 ≤ total < 2 ^ 62 →
  (∃ info first, NewPaginationInfo p total = Ok info ∧
    CurrentPage info = Offset p / Limit p + 1 ∧
    TotalPages info = Z.max 1 ((total + Limit p - 1) / Limit p) ∧
    HasNext info = bool_decide (Offset p + Limit p < total) ∧
    HasPrev info = bool_decide (0 < Offset p) ∧
    PrevOffset info = Z.max 0 (Offset p - Limit p) ∧ NextOffset info = Offset p + Limit p ∧
    PageNumbers info = seqZ first (Z.min 5 (TotalPages info)) ∧
    1 ≤ first ∧ first + len (PageNumbers info) - 1 ≤ TotalPages info ∧
    (CurrentPage info ≤ TotalPages info → CurrentPage info ∈ PageNumbers info)) ∧
  (∃ info, NewPaginationInfo (NewPagination 10 int64_max) 5 = Ok info ∧ HasNext info = true ∧ NextOffset info < 0).
Proof.
  intros [[Hl1 Hl2] Ho] Ho2 Ht. split; [|eexists; split_and!; by vm_compute]. unfold NewPaginationInfo, HasMore, MaxQueryResultsLimit in *.
  destruct (Z.eqb_spec (Limit p) 0); [lia|].
  rewrite (Z.quot_div_nonneg (Offset p)) by lia. unwrap64. rewrite Z.quot_div_nonneg by lia.
  set (current := Offset p / Limit p). set (pages := (total + Limit p - 1) / Limit p).
  assert (0 ≤ current < 2 ^ 62) by (split; [apply Z.div_pos; lia|apply Z.div_lt_upper_bound; nia]).
  assert (0 ≤ pages < 2 ^ 62) by (split; [apply Z.div_pos; lia|apply Z.div_lt_upper_bound; nia]).
  unwrap64.
  assert ((if pages =? 0 then 1 else pages) = Z.max 1 pages) as -> by (destruct (Z.eqb_spec pages 0); lia).
  destruct (generatePageNumbers_spec (current + 1) (Z.max 1 pages)) as (first & -> & Hf1 & Hf2 & Hf3); [lia..|].
  eexists _, first. split; [done|]. cbn [CurrentPage TotalPages HasNext HasPrev PrevOffset NextOffset PageNumbers].
  split_and!; try done.
  - destruct (Z.ltb_spec (Offset p + Limit p) total); [by rewrite bool_decide_true|rewrite bool_decide_false; [done|lia]].
  - destruct (Z.ltb_spec 0 (Offset p)); [by rewrite bool_decide_true|rewrite bool_decide_false; [done|lia]].
  - unfold len. rewrite length_seqZ. lia.
  - intros Hc. apply elem_of_seqZ. lia.
Qed.

Lemma page_info_spec_witness :
  ∃ info, NewPaginationInfo (NewPagination 10 30) 87 = Ok info ∧ HasNext info = true ∧ TotalPages info = 9.
Proof.
  destruct (page_info_spec (NewPagination 10 30) 87) as [(info & first & E & _ & Ht & Hn & _) _];
    [apply NewPagination_paged|by vm_compute|by vm_compute|].
  exists info. rewrite Ht, Hn. split_and!; [done|by vm_compute|by vm_compute].
Defined.

(** C39: A page of a list, from the query to what is shown for it.  Whatever the query and
    the default limit, for a list and an offset below 2^62: between 1 and 1000 elements
    are asked for; the page is exactly the elements of the list from the offset on, as
    many as asked for; a next page is announced if and only if elements follow the page,
    and a previous one if and only if the page does not begin with the first element; the
    pages are counted rounding up, and there is at least one; the next offset is that of
    [NextPage], and a request with it and the same limit asks for exactly that page; the
    previous offset is not negative; and the numbers shown are at most five consecutive
    ones of existing pages, the current page among them if it exists.  The list and its
    length are those of one moment. *)
Theorem requested_page_described {A} (q : string → string) (d : Z) (all : list A) :
  let p := parsePaginationWithDefaults q d in
  Offset p < 2 ^ 62 → len all < 2 ^ 62 →
  1 ≤ Limit p ≤ 1000 ∧ 0 ≤ Offset p ∧
  paginate all (Limit p) (Offset p) = Ok (take (Z.to_nat (Limit p)) (drop (Z.to_nat (Offset p)) all)) ∧
  ∃ info first, NewPaginationInfo p (len all) = Ok info ∧
    (HasNext info = true ↔ drop (Z.to_nat (Limit p)) (drop (Z.to_nat (Offset p)) all) ≠ []) ∧
    (HasPrev info = true ↔ 0 < Offset p) ∧
    CurrentPage info = Offset p / Limit p + 1 ∧
    TotalPages info = Z.max 1 ((len all + Limit p - 1) / Limit p) ∧
    NextOffset info = Offset (NextPage p) ∧ NewPagination (Limit p) (NextOffset info) = NextPage p ∧
    NextOffset info = Offset p + Limit p ∧
    PrevOffset info = Z.max 0 (Offset p - Limit p) ∧
    PageNumbers info = seqZ first (Z.min 5 (TotalPages info)) ∧
    1 ≤ first ∧ first + len (PageNumbers info) - 1 ≤ TotalPages info ∧
    (CurrentPage info ≤ TotalPages info → CurrentPage info ∈ PageNumbers info).
Proof.
  intros p Ho Hlen. pose proof (proj1 (parse_bounds q d)) as Hp. fold p in Hp. clearbody p.
  pose proof Hp as [[Hl1 Hl2] Ho0]. unfold MaxQueryResultsLimit in Hl2.
  split_and!; [lia..| |].
  { apply paginate_paged; [done|]. unfold int64_max, MaxQueryResultsLimit. lia. }
  destruct (proj1 (page_info_spec p (len all) Hp Ho ltac:(unfold len in *; lia)))
    as (info & first & E & Hc & Ht & Hn & Hv & Hpo & Hno & Hpn & H1 & H2 & H3).
  exists info, first.
  assert (Offset (NextPage p) = Offset p + Limit p) as Hnext by (unfold NextPage; cbn [Offset]; unwrap64; reflexivity).
  split_and!; try done.
  - rewrite Hn, bool_decide_eq_true, drop_drop. unfold len. split.
    + intros Hlt Hnil. apply (f_equal length) in Hnil. rewrite length_drop in Hnil. simpl in Hnil. lia.
    + intros Hne. destruct (decide (Offset p + Limit p < Z.of_nat (length all))) as [|Hge]; [done|].
      destruct Hne. apply drop_ge. lia.
  - rewrite Hv. apply bool_decide_eq_true.
  - by rewrite Hno, Hnext.
  - rewrite Hno. unfold NewPagination, NextPage, MaxQueryResultsLimit. unwrap64.
    destruct (Z.leb_spec (Limit p) 0); [lia|]. destruct (Z.ltb_spec 1000 (Limit p)); [lia|].
    destruct (Z.ltb_spec (Offset p + Limit p) 0); [lia|done].
Qed.

Lemma requested_page_described_witness :
  let all := ["a"; "b"; "c"; "d"; "e"] in
  (paginate all 2 2 = Ok ["c"; "d"]) ∧
  (∃ info, NewPaginationInfo (mkPagination 2 2) 5 = Ok info ∧ HasNext info = true ∧ TotalPages info = 3) ∧
  (∃ info, NewPaginationInfo (mkPagination 2 3) 5 = Ok info ∧ HasNext info = false).
Proof.
  intros all. split_and!.
  - destruct (requested_page_described (page_query "2" "2") 50 all) as (_ & _ & E & _); [by vm_compute..|].
    exact E.
  - destruct (requested_page_described (page_query "2" "2") 50 all)
      as (_ & _ & _ & info & first & E & [_ Hn] & _ & _ & Ht & _); [by vm_compute..|].
    exists info. split_and!; [exact E|apply Hn; by vm_compute|exact Ht].
  - destruct (requested_page_described (λ n, if bool_decide (n = "limit") then "2"
        else if bool_decide (n = "offset") then "3" else "") 50 all)
      as (_ & _ & _ & info & first & E & [Hn _] & _); [by vm_compute..|].
    exists info. split; [exact E|]. destruct (HasNext info); [|done]. destruct (Hn eq_refl). by vm_compute.
Defined.
