(* ===== verification/Access.v ===== *)
(** Authentication and access control of the HTTP server
    ([src/internal/server/enforcement.go], [auth_helpers.go], [maintenance.go], the
    middlewares of [master.go] and [handlers_auth.go], and the session, key and user
    look-ups of [src/internal/services/{sessions,apikeys,users}/service.go] they use).

    A request is its method, its path and what the middlewares put into its context; a
    middleware hands a request on ([Next]) or answers it.  Look-ups go to the users
    component of the store.  JSON and SHA-256 are parameters. *)

From S2P Require Import GoStrings StoreBase ServiceBase MemUsers.
Import Users.

#[local] Open Scope string_scope.
#[local] Open Scope list_scope.
#[local] Open Scope Z_scope.

(** * Roles and scopes *)

Definition RoleLevel (role : string) : Z :=
  if bool_decide (role = "admin") then 3
  else if bool_decide (role = "user") then 2
  else if bool_decide (role = "viewer") then 1
  else 0.

Definition ScopeRead : string := "read".
Definition ScopeWrite : string := "write".
Definition ScopeAdmin : string := "admin".

(** Status codes of [net/http]. *)
Definition StatusSeeOther : Z := 303.
Definition StatusBadRequest : Z := 400.
Definition StatusUnauthorized : Z := 401.
Definition StatusForbidden : Z := 403.
Definition StatusMethodNotAllowed : Z := 405.
Definition StatusInternalServerError : Z := 500.
Definition StatusServiceUnavailable : Z := 503.

(** What the middlewares put into the context of a request. *)
Record context := mkContext {
  ctx_userID : option string;
  ctx_apiKey : option APIKey;
  ctx_user : option User
}.
Definition no_context : context := mkContext None None None.

Record request := mkRequest { Method : string; Path : string; ctx : context }.

(** A middleware hands the request on, with its context, or answers with a status and a
    message; [Redirect] is an answer that names another page. *)
Inductive outcome :=
| Next (c : context)
| Answer (status : Z) (msg : string)
| Redirect (url : string).

Section access.
(** [json.Unmarshal] of a list of strings, and [hashAPIKey]. *)
Context (unmarshal : string → option (list string)) (hashAPIKey : string → string).

(** [parseScopes] on the key of the context, which may be nil: [None] for an error. *)
Definition parseScopes (key : option APIKey) : option (list string) :=
  match key with
  | None => Some []
  | Some k => if bool_decide (k.(APIKey.Scopes) = "") then Some [] else unmarshal k.(APIKey.Scopes)
  end.

Definition hasScope (key : option APIKey) (required : string) : bool :=
  match parseScopes key with
  | None => false
  | Some scopes =>
      if len scopes =? 0 then true
      else if bool_decide ("*" ∈ scopes) then true
      else if bool_decide (ScopeAdmin ∈ scopes) then true
      else if bool_decide (required = ScopeRead) && bool_decide (ScopeWrite ∈ scopes) then true
      else bool_decide (required ∈ scopes)
  end.

(** * Services *)

(** [services.IsNotFound] of an error of the store. *)
Definition IsNotFound (e : gerror) : bool := bool_decide (e = ErrNotFound).

(** [users.Service.GetByID]; the error [services.NotFound] builds unwraps to
    [ErrNotFound]. *)
Definition GetByID (id : string) (s : State) : result User :=
  match GetUserByID id s with
  | Err e => Err (if IsNotFound e then ErrNotFound else wrapf "getting user" e)
  | r => r
  end.

Definition GetByUsername (username : string) (s : State) : result User :=
  match GetUserByUsername username s with
  | Err e => Err (if IsNotFound e then ErrNotFound else wrapf "getting user" e)
  | r => r
  end.

(** [sessions.Service.GetByToken] *)
Definition GetByToken (token : string) (now : time) (s : State) : result Session := GetSessionByToken token now s.

(** [apikeys.Service.GetByRawKey]: validity is looked at a second time. *)
Definition GetByRawKey (rawKey : string) (now : time) (s : State) : result APIKey :=
  match GetAPIKeyByHash (hashAPIKey rawKey) now s with
  | Ok key => if negb (APIKey_IsValid now (Some key)) then Err ErrNotFound else Ok key
  | r => r
  end.

(** * Enforcement middleware *)

Definition RequireAPIEnabled (enabled : bool) (c : context) : outcome :=
  if negb enabled then Answer StatusServiceUnavailable "api is disabled" else Next c.

Definition Require2FAForAdmin (require2FAAdmin : bool) (s : State) (c : context) : outcome :=
  if negb require2FAAdmin then Next c
  else match ctx_userID c with
       | None => Next c
       | Some userID =>
           match GetByID userID s with
           | Ok user =>
               if bool_decide (user.(User.Role) = "admin") && negb user.(User.TOTPEnabled)
               then Answer StatusForbidden "2FA is required for admin users"
               else Next c
           | _ => Answer StatusInternalServerError "internal server error"
           end
       end.

Definition WithUserContext (c : context) (user : User) : context := {| c with ctx_user := Some user |}.

(** What [RequireRole] and [RequireMinRole] share: the user of the request must exist and
    pass a test. *)
Definition require_user (test : User → bool) (s : State) (c : context) : outcome :=
  match ctx_userID c with
  | None => Answer StatusUnauthorized "unauthorized"
  | Some userID =>
      match GetByID userID s with
      | Ok user => if test user then Next (WithUserContext c user)
                   else Answer StatusForbidden "forbidden: insufficient permissions"
      | _ => Answer StatusInternalServerError "internal server error"
      end
  end.

Definition RequireRole (role : string) : State → context → outcome :=
  require_user (λ user, bool_decide (user.(User.Role) = role)).

Definition RequireMinRole (minRole : string) : State → context → outcome :=
  require_user (λ user, negb (RoleLevel user.(User.Role) <? RoleLevel minRole)).

Definition RequireScope (scope : string) (c : context) : outcome :=
  match ctx_apiKey c with
  | None => Next c
  | Some key => if negb (hasScope (Some key) scope)
                then Answer StatusForbidden "forbidden: API key lacks required scope" else Next c
  end.

Definition RequireReadScope := RequireScope ScopeRead.
Definition RequireWriteScope := RequireScope ScopeWrite.
Definition RequireAdminScope := RequireScope ScopeAdmin.

(** The checks the handlers make: [None] grants access. *)
Definition denial := option (string * Z).

Definition CheckMinRole (minRole : string) (s : State) (c : context) : denial :=
  match ctx_userID c with
  | None => Some ("Unauthorized", StatusUnauthorized)
  | Some userID =>
      match GetByID userID s with
      | Ok user =>
          if RoleLevel user.(User.Role) <? RoleLevel minRole
          then Some ("Forbidden: insufficient permissions", StatusForbidden) else None
      | _ => Some ("Internal server error", StatusInternalServerError)
      end
  end.

Definition CheckScope (scope : string) (c : context) : denial :=
  match ctx_apiKey c with
  | None => None
  | Some key => if negb (hasScope (Some key) scope)
                then Some ("Forbidden: API key lacks required scope", StatusForbidden) else None
  end.

(** The scope first, then the role. *)
Definition check_access (scope minRole : string) (s : State) (c : context) : denial :=
  match CheckScope scope c with
  | Some d => Some d
  | None => match CheckMinRole minRole s c with Some d => Some d | None => None end
  end.

Definition CheckWriteAccess := check_access ScopeWrite "user".
Definition CheckAdminAccess := check_access ScopeAdmin "admin".
Definition CheckReadAccess := check_access ScopeRead "viewer".

(** [requireReadAccess], [requireWriteAccess] and [requireAdminAccess]: the error is
    written, or the handler goes on. *)
Definition require (check : State → context → denial) (s : State) (c : context) : outcome :=
  match check s c with Some (msg, status) => Answer status msg | None => Next c end.
Definition requireReadAccess := require CheckReadAccess.
Definition requireWriteAccess := require CheckWriteAccess.
Definition requireAdminAccess := require CheckAdminAccess.

(** * Authentication *)

(** The key and its owner; recording the use of the key runs on its own. *)
Definition validateAPIKey (key : string) (now : time) (s : State) : result (APIKey * string) :=
  if bool_decide (key = "") then Err (Errorf "empty API key")
  else match GetByRawKey key now s with
       | Err e => Err (if IsNotFound e then Errorf "API key not found" else wrapf "database error" e)
       | Ok apiKey =>
           if negb (APIKey_IsValid now (Some apiKey)) then Err (Errorf "API key expired or revoked")
           else Ok (apiKey, apiKey.(APIKey.UserID))
       | Panic => Panic
       end.

Definition validateSession (token : string) (now : time) (s : State) : result string :=
  if bool_decide (token = "") then Err (Errorf "empty session token")
  else match GetByToken token now s with
       | Err e => Err (if IsNotFound e then Errorf "session not found or expired" else wrapf "database error" e)
       | Ok session => Ok session.(Session.UserID)
       | Panic => Panic
       end.

(** [withAuth]: the Authorization header, or else the session cookie. *)
Definition withAuth (authorization : string) (cookie : option string) (now : time) (s : State) (c : context) : outcome :=
  if HasPrefix authorization "Bearer " then
    let token := drop_chars (String.length "Bearer ") authorization in
    match validateAPIKey token now s with
    | Ok (apiKey, userID) => Next {| c with ctx_userID := Some userID; ctx_apiKey := Some apiKey |}
    | _ =>
        match validateSession token now s with
        | Ok userID => Next {| c with ctx_userID := Some userID |}
        | _ => Answer StatusUnauthorized "invalid token"
        end
    end
  else
    match cookie with
    | Some value =>
        match validateSession value now s with
        | Ok userID => Next {| c with ctx_userID := Some userID |}
        | _ => Answer StatusUnauthorized "unauthorized"
        end
    | None => Answer StatusUnauthorized "unauthorized"
    end.

Definition withUIAuth (cookie : option string) (now : time) (s : State) (c : context) : outcome :=
  match cookie with
  | None => Redirect "/login"
  | Some value =>
      match validateSession value now s with
      | Ok userID =>
          match GetByID userID s with
          | Ok user => Next (WithUserContext {| c with ctx_userID := Some userID |} user)
          | _ => Redirect "/login"
          end
      | _ => Redirect "/login"
      end
  end.

End access.

(** * Maintenance mode and setup *)

Definition maintenanceMiddleware (maintenanceMode : bool) (r : request) : outcome :=
  if negb maintenanceMode then Next (ctx r)
  else if bool_decide (Method r = "GET") || bool_decide (Method r = "HEAD") || bool_decide (Method r = "OPTIONS")
  then Next (ctx r)
  else if bool_decide (Path r = "/api/v1/admin/maintenance") then Next (ctx r)
  else if bool_decide (Path r = "/health") || bool_decide (Path r = "/api/v1/health") then Next (ctx r)
  else if HasPrefix (Path r) "/api/v1/admin/backup/import" then Next (ctx r)
  else Answer StatusServiceUnavailable "Server is in maintenance mode. Only read operations are allowed.".

Definition setupRequiredMiddleware (requiresSetup : bool) (r : request) : outcome :=
  if negb requiresSetup then Next (ctx r)
  else if bool_decide (Path r = "/setup") || HasPrefix (Path r) "/static/" || bool_decide (Path r = "/favicon.ico")
          || bool_decide (Path r = "/healthz") || bool_decide (Path r = "/livez") || bool_decide (Path r = "/readyz")
          || bool_decide (Path r = "/api/v1/health")
  then Next (ctx r)
  else Redirect "/setup".

(** The actions of a toggle on the server, in order. *)
Inductive maintenance_action :=
| SetMode (enabled : bool)
| FlushPending
| Reload
| Audit (details : string).

(** [handleMaintenanceToggle]: the answer (status and mode of the body), and what was done.
    [body] is the decoded request, [None] if it is not valid. *)
Definition handleMaintenanceToggle (unmarshal : string → option (list string)) (maintenanceMode : bool)
    (body : option bool) (s : State) (r : request) : (Z * option bool) * list maintenance_action :=
  if bool_decide (Method r = "GET") then
    match CheckReadAccess unmarshal s (ctx r) with
    | Some (_, status) => ((status, None), [])
    | None => ((200, Some maintenanceMode), [])
    end
  else if bool_decide (Method r = "POST") then
    match CheckAdminAccess unmarshal s (ctx r) with
    | Some (_, status) => ((status, None), [])
    | None =>
        match body with
        | None => ((StatusBadRequest, None), [])
        | Some true => ((200, Some true), [SetMode true; FlushPending; Audit "Entered maintenance mode"])
        | Some false => ((200, Some false), [Reload; SetMode false; Audit "Exited maintenance mode"])
        end
    end
  else ((StatusMethodNotAllowed, None), []).

(** * Deployment logs *)

(** [NewLogSizeEnforcer]: the limit in bytes. *)
Definition NewLogSizeEnforcer (maxSizeMB : Z) : Z :=
  let maxBytes := wrap64 (wrap64 (maxSizeMB * 1024) * 1024) in
  if maxBytes <=? 0 then 100 * 1024 * 1024 else maxBytes.

Definition CheckSize (maxSizeBytes currentSize : Z) : bool := currentSize <? maxSizeBytes.

Definition truncateMarker : string :=
  String newline (String newline "... [LOG TRUNCATED - SIZE LIMIT EXCEEDED] ...") +:+ String newline "".

(** [strings.LastIndex(s, "\n")], [None] for -1. *)
Fixpoint last_newline (s : string) : option nat :=
  match s with
  | EmptyString => None
  | String c s' =>
      match last_newline s' with
      | Some i => Some (S i)
      | None => if Ascii.eqb c newline then Some O else None
      end
  end.

Definition strlen (s : string) : Z := Z.of_nat (String.length s).

Definition TruncateLog (maxSizeBytes : Z) (content : string) : string * bool :=
  if strlen content <=? maxSizeBytes then (content, false)
  else
    let maxContentLen := maxSizeBytes - strlen truncateMarker in
    if maxContentLen <=? 0 then (truncateMarker, true)
    else
      let truncatedContent := take_chars (Z.to_nat maxContentLen) content in
      let truncatedContent :=
        match last_newline truncatedContent with
        | Some (S i) => take_chars (S i) truncatedContent
        | _ => truncatedContent
        end in
      (truncatedContent +:+ truncateMarker, true).

(** * Chains *)

(** [ChainMiddleware]: the first middleware is the outermost. *)
Definition ChainMiddleware {H : Type} (middlewares : list (H → H)) (final : H) : H :=
  foldl (λ h m, m h) final (reverse middlewares).

(** * Lemmas *)

Lemma GetByID_ok id s u : GetByID id s = Ok u ↔ users s !! id = Some u.
Proof. unfold GetByID, GetUserByID. destruct (users s !! id); naive_solver. Qed.

Lemma GetByID_no_panic id s : GetByID id s ≠ Panic.
Proof. unfold GetByID, GetUserByID. by destruct (users s !! id). Qed.

(** What a request proves to be: a key or a session of a user. *)
Inductive credential := ByKey (k : APIKey) | BySession (x : Session).

Definition owner (c : credential) : string :=
  match c with ByKey k => k.(APIKey.UserID) | BySession x => x.(Session.UserID) end.

(** The credential with its owner in the context. *)
Definition context_of (c0 : context) (c : credential) : context :=
  match c with
  | ByKey k => {| c0 with ctx_userID := Some k.(APIKey.UserID); ctx_apiKey := Some k |}
  | BySession x => {| c0 with ctx_userID := Some x.(Session.UserID) |}
  end.

Section authentication.
Context (hashAPIKey : string → string).
Abbreviation withAuth := (withAuth hashAPIKey).

(** The credential a token stands for: a key that has not expired, or else a session. *)
Definition key_of (token : string) (now : time) (s : State) : option APIKey :=
  if bool_decide (token = "") then None
  else match GetAPIKeyByHash (hashAPIKey token) now s with Ok k => Some k | _ => None end.

Definition session_of (token : string) (now : time) (s : State) : option Session :=
  if bool_decide (token = "") then None
  else match GetSessionByToken token now s with Ok x => Some x | _ => None end.

(** The credential of a request. *)
Definition authenticate (authorization : string) (cookie : option string) (now : time) (s : State)
    : option credential :=
  if HasPrefix authorization "Bearer " then
    let token := drop_chars (String.length "Bearer ") authorization in
    match key_of token now s with
    | Some k => Some (ByKey k)
    | None => BySession <$> session_of token now s
    end
  else match cookie with Some value => BySession <$> session_of value now s | None => None end.

Lemma valid_key hash now s k : GetAPIKeyByHash hash now s = Ok k → APIKey_IsValid now (Some k) = true.
Proof.
  unfold GetAPIKeyByHash. destruct (apiKeys s !! hash) as [l|]; [|done].
  unfold read_key, unless_expired. destruct (keyHeap s !! l) as [k'|]; [|done]. unfold APIKey_IsValid.
  destruct (APIKey.ExpiresAt k') as [e|] eqn:E; [destruct (After now e) eqn:Ea|];
    [done|intros [= <-]; by rewrite E, Ea|intros [= <-]; by rewrite E].
Qed.

Lemma validateAPIKey_spec token now s :
  (∀ k, key_of token now s = Some k → validateAPIKey hashAPIKey token now s = Ok (k, k.(APIKey.UserID))) ∧
  (key_of token now s = None → ∀ r, validateAPIKey hashAPIKey token now s ≠ Ok r).
Proof.
  unfold key_of, validateAPIKey, GetByRawKey. case_bool_decide; [split; done|].
  destruct (GetAPIKeyByHash _ now s) as [k|e|] eqn:E; (split; [|done]); intros k'; [|done|done].
  intros [= <-]. rewrite (valid_key _ _ _ _ E). cbn [negb]. by rewrite (valid_key _ _ _ _ E).
Qed.

Lemma validateSession_spec token now s :
  (∀ x, session_of token now s = Some x → validateSession token now s = Ok x.(Session.UserID)) ∧
  (session_of token now s = None → ∀ r, validateSession token now s ≠ Ok r).
Proof.
  unfold session_of, validateSession, GetByToken. case_bool_decide; [split; done|].
  destruct (GetSessionByToken token now s) as [x|e|] eqn:E; (split; [|done]); intros x'; [|done|done].
  by intros [= <-].
Qed.

Lemma session_outcome token now s c0 msg :
  let o := match validateSession token now s with
           | Ok userID => Next {| c0 with ctx_userID := Some userID |} | _ => Answer StatusUnauthorized msg end in
  (∀ c, BySession <$> session_of token now s = Some c → o = Next (context_of c0 c)) ∧
  (BySession <$> session_of token now s = None → ∃ msg, o = Answer StatusUnauthorized msg).
Proof.
  destruct (validateSession_spec token now s) as [Hs1 Hs2]. destruct (session_of token now s) as [x|]; simpl.
  - split; [|done]. intros c [= <-]. by rewrite (Hs1 x eq_refl).
  - split; [done|]. intros _. specialize (Hs2 eq_refl).
    destruct (validateSession token now s) as [u|e'|]; [by destruct (Hs2 u)|eauto..].
Qed.

(** The middleware lets exactly the authenticated requests through. *)
Lemma withAuth_spec authorization cookie now s c0 :
  (∀ c, authenticate authorization cookie now s = Some c →
    withAuth authorization cookie now s c0 = Next (context_of c0 c)) ∧
  (authenticate authorization cookie now s = None →
    ∃ msg, withAuth authorization cookie now s c0 = Answer StatusUnauthorized msg).
Proof.
  unfold authenticate, Access.withAuth. destruct (HasPrefix authorization "Bearer ").
  - set (token := drop_chars _ _). destruct (validateAPIKey_spec token now s) as [Hk1 Hk2].
    destruct (key_of token now s) as [k|].
    + split; [|done]. intros c [= <-]. by rewrite (Hk1 k eq_refl).
    + specialize (Hk2 eq_refl).
      assert (∀ o : outcome, match validateAPIKey hashAPIKey token now s with
        | Ok (k, userID) => Next {| c0 with ctx_userID := Some userID; ctx_apiKey := Some k |} | _ => o end = o) as ->
        by (intros o; destruct (validateAPIKey _ _ _ _) as [[k u]|e|]; [by destruct (Hk2 (k, u))|done..]).
      apply session_outcome.
  - destruct cookie as [value|]; [|split; [done|eauto]].
    apply session_outcome.
Qed.

End authentication.

Section authorization.
Context (unmarshal : string → option (list string)).
Abbreviation hasScope := (hasScope unmarshal).

(** What the credential allows: everything its owner's role allows, for a key within its
    scopes. *)
Definition scope_allows (scope : string) (c : credential) : bool :=
  match c with ByKey k => hasScope (Some k) scope | BySession _ => true end.

Lemma CheckScope_spec scope cred :
  CheckScope unmarshal scope (context_of no_context cred) =
  if scope_allows scope cred then None else Some ("Forbidden: API key lacks required scope", StatusForbidden).
Proof. destruct cred as [k|x]; [|done]. unfold CheckScope. simpl. by destruct (hasScope _ _). Qed.

Lemma check_access_spec scope minRole s cred :
  check_access unmarshal scope minRole s (context_of no_context cred) = None ↔
  scope_allows scope cred = true ∧
  ∃ user, users s !! owner cred = Some user ∧ RoleLevel minRole ≤ RoleLevel user.(User.Role).
Proof.
  unfold check_access, CheckMinRole. rewrite CheckScope_spec. setoid_rewrite <- GetByID_ok.
  assert (ctx_userID (context_of no_context cred) = Some (owner cred)) as -> by (by destruct cred).
  pose proof (GetByID_no_panic (owner cred) s) as Hp.
  destruct (scope_allows scope cred); [|naive_solver].
  destruct (GetByID (owner cred) s) as [user|e|]; [|naive_solver..].
  destruct (Z.ltb_spec (RoleLevel user.(User.Role)) (RoleLevel minRole)); [split; [done|]|split; [|done]].
  - intros [_ (u & [= <-] & Hl)]. lia.
  - intros _. split; [done|]. exists user. split; [done|lia].
Qed.

(** The scopes that follow from a scope. *)
Lemma hasScope_spec k required scopes :
  parseScopes unmarshal (Some k) = Some scopes →
  hasScope (Some k) required = true ↔
  scopes = [] ∨ "*" ∈ scopes ∨ ScopeAdmin ∈ scopes ∨ (required = ScopeRead ∧ ScopeWrite ∈ scopes) ∨ required ∈ scopes.
Proof.
  intros Hp. unfold Access.hasScope. rewrite Hp. destruct (Z.eqb_spec (len scopes) 0) as [Hl|Hl].
  { destruct scopes; [|unfold len in Hl; simpl in Hl; lia]. split; [by left|done]. }
  assert (scopes ≠ []) by (by intros ->).
  repeat case_bool_decide; naive_solver.
Qed.

Lemma hasScope_mono k :
  (hasScope (Some k) ScopeAdmin = true → hasScope (Some k) ScopeWrite = true) ∧
  (hasScope (Some k) ScopeWrite = true → hasScope (Some k) ScopeRead = true).
Proof.
  destruct (parseScopes unmarshal (Some k)) as [scopes|] eqn:E.
  - rewrite !(hasScope_spec _ _ _ E). naive_solver.
  - unfold Access.hasScope. by rewrite E.
Qed.

Lemma check_access_mono scope scope' role role' s c :
  (∀ k, hasScope (Some k) scope = true → hasScope (Some k) scope' = true) → RoleLevel role' ≤ RoleLevel role →
  check_access unmarshal scope role s c = None → check_access unmarshal scope' role' s c = None.
Proof.
  intros Hs Hr. unfold check_access, CheckScope, CheckMinRole.
  destruct (ctx_apiKey c) as [k|].
  - specialize (Hs k). destruct (hasScope (Some k) scope); [|done]. rewrite Hs by done. simpl.
    destruct (ctx_userID c) as [id|]; [|done]. destruct (GetByID id s); [|done..].
    destruct (Z.ltb_spec (RoleLevel (User.Role a)) (RoleLevel role)); [done|].
    destruct (Z.ltb_spec (RoleLevel (User.Role a)) (RoleLevel role')); [lia|done].
  - destruct (ctx_userID c) as [id|]; [|done]. destruct (GetByID id s); [|done..].
    destruct (Z.ltb_spec (RoleLevel (User.Role a)) (RoleLevel role)); [done|].
    destruct (Z.ltb_spec (RoleLevel (User.Role a)) (RoleLevel role')); [lia|done].
Qed.

End authorization.

(** ** Truncation *)

Lemma marker_length : strlen truncateMarker = 48.
Proof. by vm_compute. Qed.

Lemma last_newline_spec s i : last_newline s = Some i → ∃ r, drop_chars i s = String newline r.
Proof.
  revert i. induction s as [|c s IH]; intros i; simpl; [done|].
  destruct (last_newline s) as [j|]; [intros [= <-]; by apply IH|].
  destruct (Ascii.eqb_spec c newline) as [->|]; [|done]. intros [= <-]. by exists s.
Qed.

Lemma last_newline_none s : last_newline s = None → free_of newline s = true.
Proof.
  induction s as [|c s IH]; simpl; [done|]. destruct (last_newline s); [done|].
  destruct (Ascii.eqb c newline); [done|]. auto.
Qed.

(** The limit in bytes is a positive number of megabytes. *)
Lemma limit_megabytes maxSizeMB : 2 ^ 20 ≤ NewLogSizeEnforcer maxSizeMB ≤ int64_max.
Proof.
  unfold NewLogSizeEnforcer. set (z := wrap64 (wrap64 (maxSizeMB * 1024) * 1024)).
  destruct (Z.leb_spec z 0); [unfold int64_max; lia|].
  pose proof (wrap64_range (wrap64 (maxSizeMB * 1024) * 1024)) as [_ Hm]. fold z in Hm. split; [|done].
  assert (z mod 2 ^ 20 = 0) as Hz; [|pose proof (Z.div_mod z (2 ^ 20) ltac:(lia)); nia].
  assert (∀ x, wrap64 x mod 2 ^ 20 = x mod 2 ^ 20) as Hw.
  { intros x. unfold wrap64. replace ((x + 2 ^ 63) mod 2 ^ 64 - 2 ^ 63) with (x + (2 ^ 44 * (- ((x + 2 ^ 63) / 2 ^ 64))) * 2 ^ 20)
      by (rewrite Z.mod_eq by lia; lia).
    apply Z_mod_plus_full. }
  subst z. rewrite Hw. unfold wrap64.
  replace (((maxSizeMB * 1024 + 2 ^ 63) mod 2 ^ 64 - 2 ^ 63) * 1024) with
    ((maxSizeMB - 2 ^ 54 * ((maxSizeMB * 1024 + 2 ^ 63) / 2 ^ 64)) * 2 ^ 20) by (rewrite Z.mod_eq by lia; lia).
  apply Z_mod_mult.
Qed.

Lemma cut_at_newline n content :
  let t := take_chars n content in
  let kept := match last_newline t with Some (S i) => take_chars (S i) t | _ => t end in
  (∃ rest, content = kept +:+ rest ∧ ((∃ r, rest = String newline r) ∨ kept = t)) ∧
  (String.length kept ≤ String.length t)%nat.
Proof.
  intros t kept. assert (content = t +:+ drop_chars n content) as E by (symmetry; apply take_drop_chars).
  unfold kept. destruct (last_newline t) as [[|i]|] eqn:El; try (split; [exists (drop_chars n content); auto|done]).
  split; [|rewrite take_chars_length; lia].
  exists (drop_chars (S i) t +:+ drop_chars n content). split.
  - by rewrite <- app_assoc_string, take_drop_chars.
  - left. destruct (last_newline_spec _ _ El) as [r Hr]. rewrite Hr. by exists (r +:+ drop_chars n content).
Qed.

(** * Theorems *)

(** C7: A request gets past authentication and an access check if and only if it presents
    a credential of a user that exists - as bearer token a key that has not expired or
    else a session, without one the session cookie - and the user's role is at least the
    one asked for and the key, if it is one, has the scope.  And admin access includes write access, which includes read access. *)
Theorem access_control (unmarshal : string → option (list string)) (hashAPIKey : string → string)
    (authorization : string) (cookie : option string) (now : time) (s : State) (scope minRole : string) :
  ((∃ c, withAuth hashAPIKey authorization cookie now s no_context = Next c ∧
      check_access unmarshal scope minRole s c = None) ↔
    ∃ cred user, authenticate hashAPIKey authorization cookie now s = Some cred ∧
      users s !! owner cred = Some user ∧ RoleLevel minRole ≤ RoleLevel user.(User.Role) ∧
      match cred with
      | ByKey k => ∃ scopes, parseScopes unmarshal (Some k) = Some scopes ∧
          (scopes = [] ∨ "*" ∈ scopes ∨ "admin" ∈ scopes ∨ (scope = "read" ∧ "write" ∈ scopes) ∨ scope ∈ scopes)
      | BySession _ => True
      end) ∧
  (∀ c, CheckAdminAccess unmarshal s c = None → CheckWriteAccess unmarshal s c = None) ∧
  (∀ c, CheckWriteAccess unmarshal s c = None → CheckReadAccess unmarshal s c = None).
Proof.
  split_and!.
  - destruct (withAuth_spec hashAPIKey authorization cookie now s no_context) as [H1 H2].
    assert (∀ cred, match cred with ByKey k => ∃ scopes, parseScopes unmarshal (Some k) = Some scopes ∧
      (scopes = [] ∨ "*" ∈ scopes ∨ "admin" ∈ scopes ∨ (scope = "read" ∧ "write" ∈ scopes) ∨ scope ∈ scopes)
      | BySession _ => True end ↔ scope_allows unmarshal scope cred = true) as Hs.
    { intros [k|x]; [|done]. simpl. destruct (parseScopes unmarshal (Some k)) as [scopes|] eqn:E.
      - rewrite (hasScope_spec _ _ _ _ E). naive_solver.
      - unfold hasScope. rewrite E. naive_solver. }
    destruct (authenticate hashAPIKey authorization cookie now s) as [cred|].
    + rewrite (H1 cred eq_refl). setoid_rewrite Hs. pose proof (check_access_spec unmarshal scope minRole s cred).
      naive_solver.
    + destruct (H2 eq_refl) as [msg ->]. naive_solver.
  - intros c. apply check_access_mono; [apply hasScope_mono|by vm_compute].
  - intros c. apply check_access_mono; [apply hasScope_mono|by vm_compute].
Qed.

(** Once a user is deleted no request authenticates as that user, by key or by
    session, at any later time; whatever authenticates as somebody else still does. *)
Theorem deleted_user_locked_out `{MapRange} (hashAPIKey : string → string) (id : string) (u : User) (now : time) (s : State) :
  wf s → users s !! id = Some u →
  ∀ authorization cookie now' cred,
  (authenticate hashAPIKey authorization cookie now' (st (DeleteUser id now s)) = Some cred → owner cred ≠ id) ∧
  (authenticate hashAPIKey authorization cookie now' s = Some cred → owner cred ≠ id →
    authenticate hashAPIKey authorization cookie now' (st (DeleteUser id now s)) = Some cred).
Proof.
  intros Hw Hu authorization cookie now' cred.
  destruct (delete_user_cascade id u now now' s Hw Hu) as (_ & _ & _ & _ & Hs & Hk). set (s' := st (DeleteUser id now s)) in *.
  assert (∀ t, session_of t now' s' = match session_of t now' s with
    | Some x => if bool_decide (x.(Session.UserID) = id) then None else Some x | None => None end) as Hs'.
  { intros t. unfold session_of. case_bool_decide; [done|]. rewrite Hs.
    destruct (GetSessionByToken t now' s); [|done..]. by case_bool_decide. }
  assert (∀ t, key_of hashAPIKey t now' s' = match key_of hashAPIKey t now' s with
    | Some k => if bool_decide (k.(APIKey.UserID) = id) then None else Some k | None => None end) as Hk'.
  { intros t. unfold key_of. case_bool_decide; [done|]. rewrite Hk.
    destruct (GetAPIKeyByHash _ now' s); [|done..]. by case_bool_decide. }
  unfold authenticate. destruct (HasPrefix authorization "Bearer ").
  - set (token := drop_chars _ _). rewrite Hk', Hs'.
    destruct (key_of hashAPIKey token now' s) as [k|]; [case_bool_decide as Ek; [|naive_solver]|];
      (destruct (session_of token now' s) as [x|]; [case_bool_decide as Ex|]); simpl; naive_solver.
  - destruct cookie as [t|]; [|naive_solver]. rewrite Hs'. destruct (session_of t now' s) as [x|]; [|naive_solver].
    case_bool_decide; simpl; naive_solver.
Qed.

Lemma deleted_user_locked_out_witness :
  let R := range_in_key_order in let h := λ key : string, key in
  is_Some (authenticate h "Bearer hash" None 6 demo) ∧ is_Some (authenticate h "" (Some "t1") 6 demo) ∧
  ∀ cred, authenticate h "" (Some "t1") 7 (st (DeleteUser "u1" 6 demo)) = Some cred → owner cred ≠ "u1".
Proof.
  intros R h. split_and!; [by eexists; vm_compute|by eexists; vm_compute|]. intros cred.
  apply (deleted_user_locked_out h "u1" {| alice with User.CreatedAt := 5; User.UpdatedAt := 5 |} 6 demo);
    [apply users_reachable_wf, users_demo_reachable|by vm_compute].
Defined.

(** Whatever size is configured, a truncated log fits: the limit is never below a
    megabyte, also where the product overflows; a log that fits is unchanged, and one
    that does not is a prefix of it, ending before a line break if it has one, and the
    marker. *)
Theorem truncated_log_fits (maxSizeMB : Z) (content : string) :
  let m := NewLogSizeEnforcer maxSizeMB in
  let '(log, truncated) := TruncateLog m content in
  2 ^ 20 ≤ m ∧ strlen log ≤ m ∧ truncated = bool_decide (m < strlen content) ∧
  (truncated = false → log = content) ∧
  (truncated = true → ∃ kept rest, content = kept +:+ rest ∧ log = kept +:+ truncateMarker ∧
    ((∃ r, rest = String newline r) ∨ strlen log = m)).
Proof.
  intros m. pose proof (limit_megabytes maxSizeMB) as [Hm _]. fold m in Hm. unfold TruncateLog. rewrite marker_length.
  destruct (Z.leb_spec (strlen content) m) as [Hle|Hgt].
  { split_and!; [done|done|by rewrite bool_decide_false by lia|done|done]. }
  destruct (Z.leb_spec (m - 48) 0); [lia|].
  destruct (cut_at_newline (Z.to_nat (m - 48)) content) as ((rest & Ec & Hr) & Hlen).
  set (t := take_chars _ content) in *. set (kept := match last_newline t with Some (S i) => _ | _ => t end) in *.
  assert (strlen t = m - 48) as Ht by (unfold strlen in *; unfold t; rewrite take_chars_length; lia).
  assert (∀ a, strlen (a +:+ truncateMarker) = strlen a + 48) as Happ
    by (intros a; rewrite <- marker_length; unfold strlen; rewrite length_app_string; lia).
  split_and!; [done|rewrite Happ; unfold strlen in *; lia|by rewrite bool_decide_true by lia|done|].
  intros _. exists kept, rest. split_and!; [done|done|]. destruct Hr as [Hr| ->]; [by left|right; rewrite Happ; lia].
Qed.
