(* ===== verification/SecurityModels.v ===== *)
(** Records of the security store ([src/internal/storage/models_security.go]):
    certificates, tokens, credentials, keys and recovery codes, with the values of their
    status fields.  Pointers to times are options, byte slices lists of numbers; the Go
    field [Type] is [Type_]. *)

From S2P Require Import Prelude.

#[local] Open Scope string_scope.
#[local] Open Scope Z_scope.

Module CertificateAuthority.
Record CertificateAuthority := mk {
  ID : string;
  Version : Z;
  CommonName : string;
  CertificatePEM : string;
  PrivateKeyEnc : list Z;
  NotBefore : time;
  NotAfter : time;
  Status : string;
  IsCurrent : bool;
  CreatedAt : time;
  RotatedAt : option time
}.
End CertificateAuthority.
Abbreviation CertificateAuthority := CertificateAuthority.CertificateAuthority.

Module AgentCertificate.
Record AgentCertificate := mk {
  ID : string;
  AgentID : string;
  CAID : string;
  SerialNumber : string;
  CertificatePEM : string;
  NotBefore : time;
  NotAfter : time;
  Status : string;
  IssuedAt : time;
  RenewedAt : option time;
  RevokedAt : option time;
  RevocationReason : string
}.
End AgentCertificate.
Abbreviation AgentCertificate := AgentCertificate.AgentCertificate.

Module ServerCertificate.
Record ServerCertificate := mk {
  ID : string;
  Hostname : string;
  CertificatePEM : string;
  PrivateKeyEnc : list Z;
  SANs : string;
  NotBefore : time;
  NotAfter : time;
  CAID : string;
  CreatedAt : time
}.
End ServerCertificate.
Abbreviation ServerCertificate := ServerCertificate.ServerCertificate.

Module RegistrationToken.
Record RegistrationToken := mk {
  ID : string;
  Token : string;
  AgentID : string;
  ExpiresAt : time;
  UsedAt : option time;
  CreatedBy : string;
  CreatedAt : time
}.
End RegistrationToken.
Abbreviation RegistrationToken := RegistrationToken.RegistrationToken.

Module SourceCredential.
Record SourceCredential := mk {
  ID : string;
  Name : string;
  Type_ : string;
  URLPattern : string;
  CredentialEnc : list Z;
  CreatedBy : string;
  CreatedAt : time;
  UpdatedAt : time
}.
End SourceCredential.
Abbreviation SourceCredential := SourceCredential.SourceCredential.

Module RevokedCertificate.
Record RevokedCertificate := mk {
  ID : string;
  SerialNumber : string;
  AgentID : string;
  Reason : string;
  RevokedAt : time;
  RevokedBy : string
}.
End RevokedCertificate.
Abbreviation RevokedCertificate := RevokedCertificate.RevokedCertificate.

Module EncryptionKey.
Record EncryptionKey := mk {
  ID : string;
  Version : Z;
  KeyMaterialEnc : list Z;
  Algorithm : string;
  Status : string;
  CreatedAt : time;
  ActivatedAt : option time;
  DeactivatedAt : option time;
  ScheduledDeletionAt : option time;
  DeletionCancelledAt : option time
}.
End EncryptionKey.
Abbreviation EncryptionKey := EncryptionKey.EncryptionKey.

Module SSHKey.
Record SSHKey := mk {
  ID : string;
  Name : string;
  PublicKey : string;
  PrivateKeyEnc : list Z;
  Fingerprint : string;
  KeyType : string;
  CreatedBy : string;
  CreatedAt : time
}.
End SSHKey.
Abbreviation SSHKey := SSHKey.SSHKey.

Module CertAuditEvent.
Record CertAuditEvent := mk {
  ID : string;
  Timestamp : time;
  EventType : string;
  AgentID : string;
  Hostname : string;
  Serial : string;
  CAID : string;
  Reason : string;
  RequestedBy : string;
  ClientIP : string
}.
End CertAuditEvent.
Abbreviation CertAuditEvent := CertAuditEvent.CertAuditEvent.

Module CertAuditFilter.
Record CertAuditFilter := mk {
  AgentID : string;
  EventType : string;
  Since : option time;
  Until : option time;
  Limit : Z;
  Offset : Z
}.
End CertAuditFilter.
Abbreviation CertAuditFilter := CertAuditFilter.CertAuditFilter.

Module ACMECertificate.
Record ACMECertificate := mk {
  ID : string;
  Domain : string;
  CertificatePEM : string;
  PrivateKeyEncrypted : list Z;
  Issuer : string;
  NotBefore : time;
  NotAfter : time;
  LastRenewal : option time;
  AutoRenew : bool;
  CreatedAt : time;
  UpdatedAt : time
}.
End ACMECertificate.
Abbreviation ACMECertificate := ACMECertificate.ACMECertificate.

Module ACMEAccount.
Record ACMEAccount := mk {
  ID : string;
  Email : string;
  AccountURL : string;
  PrivateKeyEncrypted : list Z;
  DirectoryURL : string;
  CreatedAt : time
}.
End ACMEAccount.
Abbreviation ACMEAccount := ACMEAccount.ACMEAccount.

Module RecoveryCode.
Record RecoveryCode := mk {
  ID : string;
  UserID : string;
  CodeHash : string;
  UsedAt : option time;
  CreatedAt : time
}.
End RecoveryCode.
Abbreviation RecoveryCode := RecoveryCode.RecoveryCode.

(** * Constants *)

Definition CAStatusActive : string := "active".
Definition CAStatusInactive : string := "inactive".
Definition CertStatusActive : string := "active".
Definition CertStatusExpired : string := "expired".
Definition CertStatusRevoked : string := "revoked".
Definition SourceCredentialTypeSSHKey : string := "ssh_key".
Definition SourceCredentialTypeHTTPSToken : string := "https_token".
Definition SourceCredentialTypeHTTPSBasic : string := "https_basic".
Definition KeyStatusPending : string := "pending".
Definition KeyStatusActive : string := "active".
Definition KeyStatusInactive : string := "inactive".
Definition KeyStatusScheduled : string := "scheduled".
Definition KeyStatusDeleted : string := "deleted".
Definition SSHKeyTypeEd25519 : string := "ed25519".
Definition SSHKeyTypeRSA : string := "rsa".
Definition SSHKeyTypeECDSA : string := "ecdsa".
Definition CertAuditEventIssued : string := "issued".
Definition CertAuditEventRevoked : string := "revoked".
Definition CertAuditEventRenewed : string := "renewed".
Definition CertAuditEventRejected : string := "rejected".
Definition CertAuditEventExpired : string := "expired".
Definition CertAuditEventACMEObtained : string := "acme_obtained".
Definition CertAuditEventACMERenewed : string := "acme_renewed".
Definition CertAuditEventACMEFailed : string := "acme_failed".
Definition RecoveryCodeCount : Z := 8.
