(* ===== verification/MemSecurity.v ===== *)
(** Certificates, registration tokens, credentials, keys and recovery codes in the memory
    store ([src/internal/storage/memory_security.go], the methods of [MemoryStore]).

    A stored record is private to the store: methods copy what they are given and what
    they return, so the maps hold values.  A method that writes through a stored pointer
    is an update of the map.  [SaveX] methods return the identifier they put into the
    caller's record. *)

From stdpp Require Import pretty.
From S2P Require Import StoreBase SecurityModels.

#[local] Open Scope string_scope.
#[local] Open Scope list_scope.
#[local] Open Scope Z_scope.

Module Security.

Record State := mkState {
  certificateAuthorities : gmap string CertificateAuthority;
  agentCertificates : gmap string AgentCertificate;
  serverCertificates : gmap string ServerCertificate;
  registrationTokens : gmap string RegistrationToken;
  sourceCredentials : gmap string SourceCredential;
  revokedCertificates : gmap string RevokedCertificate;
  encryptionKeys : gmap string EncryptionKey;
  sshKeys : gmap string SSHKey;
  certAuditEvents : list CertAuditEvent;
  acmeCertificates : gmap string ACMECertificate;
  acmeAccounts : gmap string ACMEAccount;
  recoveryCodes : gmap string (list RecoveryCode)
}.

Definition empty : State := mkState ∅ ∅ ∅ ∅ ∅ ∅ ∅ ∅ [] ∅ ∅ ∅.

Abbreviation Out := (Outcome State).

(** [v, ok := m[k]; if !ok { return ErrNotFound }; return copy of v] *)
Definition get {A} (m : gmap string A) (k : string) : result A :=
  match m !! k with None => Err ErrNotFound | Some v => Ok v end.

(** [for _, v := range m { if p(v) { return copy of v } }; return ErrNotFound] *)
Definition get_by `{MapRange} {A} (p : A → bool) (m : gmap string A) : result A :=
  match range_find p m with None => Err ErrNotFound | Some (_, v) => Ok v end.

(** Insert or update, by whether the key was there. *)
Definition upsert_type (exists_ : bool) : WriteOpType := if exists_ then WriteOpUpdate else WriteOpInsert.

(** * Certificate authorities *)

Definition GetCA (id : string) (s : State) : result CertificateAuthority := get (certificateAuthorities s) id.

Definition GetCurrentCA `{MapRange} (s : State) : result CertificateAuthority :=
  get_by CertificateAuthority.IsCurrent (certificateAuthorities s).

Definition ListCAs `{MapRange} (s : State) : result (list CertificateAuthority) :=
  Ok (range_values (certificateAuthorities s)).

Definition SaveCA (ca : CertificateAuthority) (now : time) (s : State) : Out unit :=
  let id := ca.(CertificateAuthority.ID) in
  let stored := {| ca with CertificateAuthority.CreatedAt := or_now ca.(CertificateAuthority.CreatedAt) now |} in
  let exists_ := bool_decide (is_Some (certificateAuthorities s !! id)) in
  mkOut {| s with certificateAuthorities := <[id := stored]> (certificateAuthorities s) |}
    (queueWrite coreWrites now (upsert_type exists_) "certificate_authorities" (DPtr TCertificateAuthority id)) (Ok tt).

(** The test of the loop over all authorities, and what it makes of one. *)
Definition other_current (id : string) (ca : CertificateAuthority) : bool :=
  negb (bool_decide (ca.(CertificateAuthority.ID) = id)) && ca.(CertificateAuthority.IsCurrent).

Definition deactivate (now : time) (ca : CertificateAuthority) : CertificateAuthority :=
  {| ca with CertificateAuthority.IsCurrent := false; CertificateAuthority.Status := CAStatusInactive;
     CertificateAuthority.RotatedAt := Some now |}.

Definition SetCurrentCA `{MapRange} (id : string) (now : time) (s : State) : Out unit :=
  match certificateAuthorities s !! id with
  | None => fail s ErrNotFound
  | Some _ =>
      let rotated := filter (λ kv, other_current id kv.2 = true) (range (certificateAuthorities s)) in
      let m := range_update (other_current id) (deactivate now) (certificateAuthorities s) in
      mkOut {| s with certificateAuthorities :=
                 alter (λ ca, {| ca with CertificateAuthority.IsCurrent := true;
                                 CertificateAuthority.Status := CAStatusActive |}) id m |}
        ((rotated ≫= λ kv, queueWrite coreWrites now WriteOpUpdate "certificate_authorities"
                             (DPtr TCertificateAuthority kv.1)) ++
         queueWrite coreWrites now WriteOpUpdate "certificate_authorities" (DPtr TCertificateAuthority id))
        (Ok tt)
  end.

(** * Agent certificates *)

Definition active_of (agentID : string) (c : AgentCertificate) : bool :=
  bool_decide (c.(AgentCertificate.AgentID) = agentID) &&
  bool_decide (c.(AgentCertificate.Status) = CertStatusActive).

Definition GetAgentCert `{MapRange} (agentID : string) (s : State) : result AgentCertificate :=
  get_by (active_of agentID) (agentCertificates s).

Definition GetAgentCertBySerial (serialNumber : string) (s : State) : result AgentCertificate :=
  get (agentCertificates s) serialNumber.

Definition ListAgentCerts `{MapRange} (s : State) : result (list AgentCertificate) :=
  Ok (range_values (agentCertificates s)).

Definition ListAgentCertsByAgent `{MapRange} (agentID : string) (s : State) : result (list AgentCertificate) :=
  Ok (filter (λ c, c.(AgentCertificate.AgentID) = agentID) (range_values (agentCertificates s))).

Definition SaveAgentCert (cert : AgentCertificate) (now : time) (xid : string) (s : State) : Out string :=
  let serial := cert.(AgentCertificate.SerialNumber) in
  let stored := {| cert with AgentCertificate.ID := or_string cert.(AgentCertificate.ID) xid;
                   AgentCertificate.IssuedAt := or_now cert.(AgentCertificate.IssuedAt) now |} in
  let exists_ := bool_decide (is_Some (agentCertificates s !! serial)) in
  mkOut {| s with agentCertificates := <[serial := stored]> (agentCertificates s) |}
    (queueWrite coreWrites now (upsert_type exists_) "agent_certificates" (DPtr TAgentCertificate serial))
    (Ok stored.(AgentCertificate.ID)).

(** What a revocation makes of a certificate, and its entry in the list. *)
Definition revoke (now : time) (reason : string) (c : AgentCertificate) : AgentCertificate :=
  {| c with AgentCertificate.Status := CertStatusRevoked; AgentCertificate.RevokedAt := Some now;
     AgentCertificate.RevocationReason := reason |}.

Definition revocation (xid serial agentID reason revokedBy : string) (now : time) : RevokedCertificate :=
  RevokedCertificate.mk xid serial agentID reason now revokedBy.

(** One turn of the loop: the stored certificate, its entry in the list (under the serial
    number in the record) and the two writes. *)
Definition revoke_turn (agentID reason revokedBy : string) (now : time)
    (acc : State * list (Chan * WriteOp)) (turn : string * (string * AgentCertificate)) : State * list (Chan * WriteOp) :=
  let '(s, q) := acc in
  let '(xid, (key, cert)) := turn in
  let serial := cert.(AgentCertificate.SerialNumber) in
  ({| s with agentCertificates := <[key := revoke now reason cert]> (agentCertificates s);
             revokedCertificates := <[serial := revocation xid serial agentID reason revokedBy now]> (revokedCertificates s) |},
   q ++ queueWrite coreWrites now WriteOpUpdate "agent_certificates" (DPtr TAgentCertificate key) ++
        queueWrite coreWrites now WriteOpInsert "revoked_certificates" (DPtr TRevokedCertificate serial)).

(** [xids] are the identifiers generated in the call. *)
Definition RevokeAgentCert `{MapRange} (agentID reason revokedBy : string) (now : time) (xids : nat → string) (s : State)
    : Out unit :=
  let found := filter (λ kv, active_of agentID kv.2 = true) (range (agentCertificates s)) in
  let turns := zip (xids <$> seq 0 (length found)) found in
  let '(s', q) := foldl (revoke_turn agentID reason revokedBy now) (s, []) turns in
  mkOut s' q (if len found =? 0 then Err ErrNotFound else Ok tt).

Definition RevokeAgentCertBySerial (serialNumber reason revokedBy : string) (now : time) (xid : string) (s : State)
    : Out unit :=
  match agentCertificates s !! serialNumber with
  | None => fail s ErrNotFound
  | Some cert =>
      mkOut {| s with agentCertificates := <[serialNumber := revoke now reason cert]> (agentCertificates s);
                      revokedCertificates :=
                        <[serialNumber := revocation xid serialNumber cert.(AgentCertificate.AgentID) reason revokedBy now]>
                          (revokedCertificates s) |}
        (queueWrite coreWrites now WriteOpUpdate "agent_certificates" (DPtr TAgentCertificate serialNumber) ++
         queueWrite coreWrites now WriteOpInsert "revoked_certificates" (DPtr TRevokedCertificate serialNumber))
        (Ok tt)
  end.

Definition UpdateAgentCertStatus (serialNumber status : string) (now : time) (s : State) : Out unit :=
  match agentCertificates s !! serialNumber with
  | None => fail s ErrNotFound
  | Some cert =>
      mkOut {| s with agentCertificates :=
                 <[serialNumber := {| cert with AgentCertificate.Status := status |}]> (agentCertificates s) |}
        (queueWrite coreWrites now WriteOpUpdate "agent_certificates" (DPtr TAgentCertificate serialNumber)) (Ok tt)
  end.

(** * Server certificates *)

Definition GetServerCert (hostname : string) (s : State) : result ServerCertificate := get (serverCertificates s) hostname.

Definition ListServerCerts `{MapRange} (s : State) : result (list ServerCertificate) :=
  Ok (range_values (serverCertificates s)).

Definition SaveServerCert (cert : ServerCertificate) (now : time) (xid : string) (s : State) : Out string :=
  let hostname := cert.(ServerCertificate.Hostname) in
  let stored := {| cert with ServerCertificate.ID := or_string cert.(ServerCertificate.ID) xid;
                   ServerCertificate.CreatedAt := or_now cert.(ServerCertificate.CreatedAt) now |} in
  let exists_ := bool_decide (is_Some (serverCertificates s !! hostname)) in
  mkOut {| s with serverCertificates := <[hostname := stored]> (serverCertificates s) |}
    (queueWrite coreWrites now (upsert_type exists_) "server_certificates" (DPtr TServerCertificate hostname))
    (Ok stored.(ServerCertificate.ID)).

Definition DeleteServerCert (hostname : string) (now : time) (s : State) : Out unit :=
  match serverCertificates s !! hostname with
  | None => fail s ErrNotFound
  | Some _ =>
      mkOut {| s with serverCertificates := delete hostname (serverCertificates s) |}
        (queueWrite coreWrites now WriteOpDelete "server_certificates" (DPtr TServerCertificate hostname)) (Ok tt)
  end.

(** * Registration tokens *)

Definition GetRegistrationToken (token : string) (s : State) : result RegistrationToken := get (registrationTokens s) token.

Definition ListRegistrationTokens `{MapRange} (s : State) : result (list RegistrationToken) :=
  Ok (range_values (registrationTokens s)).

Definition SaveRegistrationToken (rt : RegistrationToken) (now : time) (xid : string) (s : State) : Out string :=
  let token := rt.(RegistrationToken.Token) in
  let stored := {| rt with RegistrationToken.ID := or_string rt.(RegistrationToken.ID) xid;
                   RegistrationToken.CreatedAt := or_now rt.(RegistrationToken.CreatedAt) now |} in
  let exists_ := bool_decide (is_Some (registrationTokens s !! token)) in
  mkOut {| s with registrationTokens := <[token := stored]> (registrationTokens s) |}
    (queueWrite coreWrites now (upsert_type exists_) "registration_tokens" (DPtr TRegistrationToken token))
    (Ok stored.(RegistrationToken.ID)).

Definition DeleteRegistrationToken (token : string) (now : time) (s : State) : Out unit :=
  match registrationTokens s !! token with
  | None => fail s ErrNotFound
  | Some _ =>
      mkOut {| s with registrationTokens := delete token (registrationTokens s) |}
        (queueWrite coreWrites now WriteOpDelete "registration_tokens" (DPtr TRegistrationToken token)) (Ok tt)
  end.

Definition MarkTokenUsed (token : string) (now : time) (s : State) : Out unit :=
  match registrationTokens s !! token with
  | None => fail s ErrNotFound
  | Some rt =>
      mkOut {| s with registrationTokens :=
                 <[token := {| rt with RegistrationToken.UsedAt := Some now |}]> (registrationTokens s) |}
        (queueWrite coreWrites now WriteOpUpdate "registration_tokens" (DPtr TRegistrationToken token)) (Ok tt)
  end.

Definition token_expired (now : time) (rt : RegistrationToken) : bool := Before rt.(RegistrationToken.ExpiresAt) now.

Definition CleanupExpiredTokens `{MapRange} (now : time) (s : State) : Out Z :=
  let gone := filter (λ kv, token_expired now kv.2 = true) (range (registrationTokens s)) in
  mkOut {| s with registrationTokens := range_delete (token_expired now) (registrationTokens s) |}
    (gone ≫= λ kv, queueWrite coreWrites now WriteOpDelete "registration_tokens" (DPtr TRegistrationToken kv.1))
    (Ok (len gone)).

(** * Source credentials *)

Definition GetSourceCredential (id : string) (s : State) : result SourceCredential := get (sourceCredentials s) id.

Definition GetSourceCredentialByName `{MapRange} (name : string) (s : State) : result SourceCredential :=
  get_by (λ c, bool_decide (c.(SourceCredential.Name) = name)) (sourceCredentials s).

Definition ListSourceCredentials `{MapRange} (s : State) : result (list SourceCredential) :=
  Ok (range_values (sourceCredentials s)).

(** Here an identifier given by the caller means an update, whether it is stored or not. *)
Definition SaveSourceCredential (cred : SourceCredential) (now : time) (xid : string) (s : State) : Out string :=
  let isNew := bool_decide (cred.(SourceCredential.ID) = "") in
  let id := or_string cred.(SourceCredential.ID) xid in
  let stored := {| cred with SourceCredential.ID := id;
                   SourceCredential.CreatedAt := or_now cred.(SourceCredential.CreatedAt) now;
                   SourceCredential.UpdatedAt := now |} in
  mkOut {| s with sourceCredentials := <[id := stored]> (sourceCredentials s) |}
    (queueWrite coreWrites now (upsert_type (negb isNew)) "source_credentials" (DPtr TSourceCredential id)) (Ok id).

Definition DeleteSourceCredential (id : string) (now : time) (s : State) : Out unit :=
  match sourceCredentials s !! id with
  | None => fail s ErrNotFound
  | Some _ =>
      mkOut {| s with sourceCredentials := delete id (sourceCredentials s) |}
        (queueWrite coreWrites now WriteOpDelete "source_credentials" (DPtr TSourceCredential id)) (Ok tt)
  end.

(** * Revoked certificates *)

Definition IsRevoked (serialNumber : string) (s : State) : result bool :=
  Ok (bool_decide (is_Some (revokedCertificates s !! serialNumber))).

Definition ListRevokedCerts `{MapRange} (s : State) : result (list RevokedCertificate) :=
  Ok (range_values (revokedCertificates s)).

Definition SaveRevokedCert (revoked : RevokedCertificate) (now : time) (xid : string) (s : State) : Out string :=
  let serial := revoked.(RevokedCertificate.SerialNumber) in
  let stored := {| revoked with RevokedCertificate.ID := or_string revoked.(RevokedCertificate.ID) xid;
                   RevokedCertificate.RevokedAt := or_now revoked.(RevokedCertificate.RevokedAt) now |} in
  let exists_ := bool_decide (is_Some (revokedCertificates s !! serial)) in
  mkOut {| s with revokedCertificates := <[serial := stored]> (revokedCertificates s) |}
    (queueWrite coreWrites now (upsert_type exists_) "revoked_certificates" (DPtr TRevokedCertificate serial))
    (Ok stored.(RevokedCertificate.ID)).

(** * Encryption keys *)

Definition GetEncryptionKey (id : string) (s : State) : result EncryptionKey := get (encryptionKeys s) id.

Definition active_key (k : EncryptionKey) : bool := bool_decide (k.(EncryptionKey.Status) = KeyStatusActive).

Definition GetCurrentEncryptionKey `{MapRange} (s : State) : result EncryptionKey := get_by active_key (encryptionKeys s).

Definition ListEncryptionKeys `{MapRange} (s : State) : result (list EncryptionKey) := Ok (range_values (encryptionKeys s)).

Definition SaveEncryptionKey (key : EncryptionKey) (now : time) (s : State) : Out unit :=
  let id := key.(EncryptionKey.ID) in
  let stored := {| key with EncryptionKey.CreatedAt := or_now key.(EncryptionKey.CreatedAt) now |} in
  let exists_ := bool_decide (is_Some (encryptionKeys s !! id)) in
  mkOut {| s with encryptionKeys := <[id := stored]> (encryptionKeys s) |}
    (queueWrite coreWrites now (upsert_type exists_) "encryption_keys" (DPtr TEncryptionKey id)) (Ok tt).

(** The switch on the new status. *)
Definition key_status (status : string) (scheduledDeletion : option time) (now : time) (key : EncryptionKey) : EncryptionKey :=
  let key := {| key with EncryptionKey.Status := status |} in
  if bool_decide (status = KeyStatusActive) then {| key with EncryptionKey.ActivatedAt := Some now |}
  else if bool_decide (status = KeyStatusInactive) then {| key with EncryptionKey.DeactivatedAt := Some now |}
  else if bool_decide (status = KeyStatusScheduled) then {| key with EncryptionKey.ScheduledDeletionAt := scheduledDeletion |}
  else key.

Definition UpdateEncryptionKeyStatus (id status : string) (scheduledDeletion : option time) (now : time) (s : State) : Out unit :=
  match encryptionKeys s !! id with
  | None => fail s ErrNotFound
  | Some key =>
      mkOut {| s with encryptionKeys := <[id := key_status status scheduledDeletion now key]> (encryptionKeys s) |}
        (queueWrite coreWrites now WriteOpUpdate "encryption_keys" (DPtr TEncryptionKey id)) (Ok tt)
  end.

(** * SSH keys *)

Definition GetSSHKey (id : string) (s : State) : result SSHKey := get (sshKeys s) id.

Definition GetSSHKeyByName `{MapRange} (name : string) (s : State) : result SSHKey :=
  get_by (λ k, bool_decide (k.(SSHKey.Name) = name)) (sshKeys s).

Definition ListSSHKeys `{MapRange} (s : State) : result (list SSHKey) := Ok (range_values (sshKeys s)).

Definition SaveSSHKey (key : SSHKey) (now : time) (xid : string) (s : State) : Out string :=
  let isNew := bool_decide (key.(SSHKey.ID) = "") in
  let id := or_string key.(SSHKey.ID) xid in
  let stored := {| key with SSHKey.ID := id; SSHKey.CreatedAt := or_now key.(SSHKey.CreatedAt) now |} in
  mkOut {| s with sshKeys := <[id := stored]> (sshKeys s) |}
    (queueWrite coreWrites now (upsert_type (negb isNew)) "ssh_keys" (DPtr TSSHKey id)) (Ok id).

Definition DeleteSSHKey (id : string) (now : time) (s : State) : Out unit :=
  match sshKeys s !! id with
  | None => fail s ErrNotFound
  | Some _ =>
      mkOut {| s with sshKeys := delete id (sshKeys s) |}
        (queueWrite coreWrites now WriteOpDelete "ssh_keys" (DPtr TSSHKey id)) (Ok tt)
  end.

(** * Certificate audit events *)

Definition SaveCertAuditEvent (event : CertAuditEvent) (now : time) (xid : string) (s : State) : Out string :=
  let stored := {| event with CertAuditEvent.ID := xid;
                   CertAuditEvent.Timestamp := or_now event.(CertAuditEvent.Timestamp) now |} in
  mkOut {| s with certAuditEvents := certAuditEvents s ++ [stored] |}
    (queueWrite auditWrites now WriteOpInsert "cert_audit_events" (DPtr TCertAuditEvent xid)) (Ok xid).

Definition event_matches (f : CertAuditFilter) (e : CertAuditEvent) : bool :=
  (bool_decide (f.(CertAuditFilter.AgentID) = "") || bool_decide (e.(CertAuditEvent.AgentID) = f.(CertAuditFilter.AgentID))) &&
  (bool_decide (f.(CertAuditFilter.EventType) = "") || bool_decide (e.(CertAuditEvent.EventType) = f.(CertAuditFilter.EventType))) &&
  negb (match f.(CertAuditFilter.Since) with Some t => Before e.(CertAuditEvent.Timestamp) t | None => false end) &&
  negb (match f.(CertAuditFilter.Until) with Some t => After e.(CertAuditEvent.Timestamp) t | None => false end).

Definition ListCertAuditEvents (f : CertAuditFilter) (s : State) : result (list CertAuditEvent) :=
  let events := filter (λ e, event_matches f e = true) (certAuditEvents s) in
  if (0 <? f.(CertAuditFilter.Offset)) && (len events <=? f.(CertAuditFilter.Offset)) then Ok []
  else
    let events := if 0 <? f.(CertAuditFilter.Offset) then drop (Z.to_nat f.(CertAuditFilter.Offset)) events else events in
    Ok (if (0 <? f.(CertAuditFilter.Limit)) && (f.(CertAuditFilter.Limit) <? len events)
        then take (Z.to_nat f.(CertAuditFilter.Limit)) events else events).

(** * ACME certificates and accounts *)

Definition GetACMECertificate (domain : string) (s : State) : result ACMECertificate := get (acmeCertificates s) domain.

Definition SaveACMECertificate (cert : ACMECertificate) (now : time) (xid : string) (s : State) : Out string :=
  let domain := cert.(ACMECertificate.Domain) in
  let existing := acmeCertificates s !! domain in
  let stored :=
    match existing with
    | None => {| cert with ACMECertificate.ID := xid; ACMECertificate.CreatedAt := now; ACMECertificate.UpdatedAt := now |}
    | Some e => {| cert with ACMECertificate.ID := e.(ACMECertificate.ID);
                   ACMECertificate.CreatedAt := e.(ACMECertificate.CreatedAt); ACMECertificate.UpdatedAt := now |}
    end in
  mkOut {| s with acmeCertificates := <[domain := stored]> (acmeCertificates s) |}
    (queueWrite coreWrites now (upsert_type (bool_decide (is_Some existing))) "acme_certificates" (DPtr TACMECertificate domain))
    (Ok stored.(ACMECertificate.ID)).

Definition DeleteACMECertificate (domain : string) (now : time) (s : State) : Out unit :=
  match acmeCertificates s !! domain with
  | None => fail s ErrNotFound
  | Some _ =>
      mkOut {| s with acmeCertificates := delete domain (acmeCertificates s) |}
        (queueWrite coreWrites now WriteOpDelete "acme_certificates" (DPtr TACMECertificate domain)) (Ok tt)
  end.

Definition ListACMECertificates `{MapRange} (s : State) : result (list ACMECertificate) :=
  Ok (range_values (acmeCertificates s)).

Definition GetACMEAccount (email : string) (s : State) : result ACMEAccount := get (acmeAccounts s) email.

Definition SaveACMEAccount (account : ACMEAccount) (now : time) (xid : string) (s : State) : Out string :=
  let email := account.(ACMEAccount.Email) in
  let existing := acmeAccounts s !! email in
  let stored :=
    match existing with
    | None => {| account with ACMEAccount.ID := xid; ACMEAccount.CreatedAt := now |}
    | Some e => {| account with ACMEAccount.ID := e.(ACMEAccount.ID); ACMEAccount.CreatedAt := e.(ACMEAccount.CreatedAt) |}
    end in
  mkOut {| s with acmeAccounts := <[email := stored]> (acmeAccounts s) |}
    (queueWrite coreWrites now (upsert_type (bool_decide (is_Some existing))) "acme_accounts" (DPtr TACMEAccount email))
    (Ok stored.(ACMEAccount.ID)).

Definition DeleteACMEAccount (email : string) (now : time) (s : State) : Out unit :=
  match acmeAccounts s !! email with
  | None => fail s ErrNotFound
  | Some _ =>
      mkOut {| s with acmeAccounts := delete email (acmeAccounts s) |}
        (queueWrite coreWrites now WriteOpDelete "acme_accounts" (DPtr TACMEAccount email)) (Ok tt)
  end.

(** * Recovery codes *)

(** The caller's codes get the identifiers of the stored ones, which are the result. *)
Definition SaveRecoveryCodes (userID : string) (codes : list RecoveryCode) (now : time) (xids : nat → string) (s : State)
    : Out (list string) :=
  let stored := imap (λ i c, RecoveryCode.mk (xids i) userID c.(RecoveryCode.CodeHash) c.(RecoveryCode.UsedAt) now) codes in
  mkOut {| s with recoveryCodes := <[userID := stored]> (recoveryCodes s) |}
    ((entry (recoveryCodes s) userID ≫= λ c,
        queueWrite coreWrites now WriteOpDelete "recovery_codes" (DPtr TRecoveryCode c.(RecoveryCode.ID))) ++
     (stored ≫= λ c,
        queueWrite coreWrites now WriteOpInsert "recovery_codes" (DPtr TRecoveryCode c.(RecoveryCode.ID))))
    (Ok (RecoveryCode.ID <$> stored)).

Definition ListRecoveryCodes (userID : string) (s : State) : result (list RecoveryCode) := Ok (entry (recoveryCodes s) userID).

Definition has_code (codeID : string) (codes : list RecoveryCode) : bool :=
  existsb (λ c, bool_decide (c.(RecoveryCode.ID) = codeID)) codes.

Definition unused (c : RecoveryCode) : bool := match c.(RecoveryCode.UsedAt) with None => true | Some _ => false end.

(** The inner loop: the first code with the identifier is marked, unless it was used. *)
Fixpoint use_in (codeID : string) (now : time) (codes : list RecoveryCode) : result (list RecoveryCode) :=
  match codes with
  | [] => Err ErrNotFound
  | code :: codes' =>
      if bool_decide (code.(RecoveryCode.ID) = codeID) then
        if unused code then Ok ({| code with RecoveryCode.UsedAt := Some now |} :: codes')
        else Err (Errorf "recovery code already used")
      else match use_in codeID now codes' with Ok l => Ok (code :: l) | r => r end
  end.

Definition UseRecoveryCode `{MapRange} (codeID : string) (now : time) (s : State) : Out unit :=
  match range_find (has_code codeID) (recoveryCodes s) with
  | None => fail s ErrNotFound
  | Some (userID, codes) =>
      match use_in codeID now codes with
      | Ok l => mkOut {| s with recoveryCodes := <[userID := l]> (recoveryCodes s) |}
                  (queueWrite coreWrites now WriteOpUpdate "recovery_codes" (DPtr TRecoveryCode codeID)) (Ok tt)
      | Err e => fail s e
      | Panic => mkOut s [] Panic
      end
  end.

Definition DeleteRecoveryCodes (userID : string) (now : time) (s : State) : Out unit :=
  match recoveryCodes s !! userID with
  | None => mkOut s [] (Ok tt)
  | Some codes =>
      mkOut {| s with recoveryCodes := delete userID (recoveryCodes s) |}
        (codes ≫= λ c, queueWrite coreWrites now WriteOpDelete "recovery_codes" (DPtr TRecoveryCode c.(RecoveryCode.ID)))
        (Ok tt)
  end.

Definition CountUnusedRecoveryCodes (userID : string) (s : State) : result Z :=
  Ok (len (filter (λ c, unused c = true) (entry (recoveryCodes s) userID))).

(** * Runs *)

Inductive call :=
| CSaveCA (ca : CertificateAuthority) (now : time)
| CSetCurrentCA (id : string) (now : time)
| CSaveAgentCert (cert : AgentCertificate) (now : time) (xid : string)
| CRevokeAgentCert (agentID reason revokedBy : string) (now : time) (xids : nat → string)
| CRevokeAgentCertBySerial (serial reason revokedBy : string) (now : time) (xid : string)
| CUpdateAgentCertStatus (serial status : string) (now : time)
| CSaveServerCert (cert : ServerCertificate) (now : time) (xid : string)
| CDeleteServerCert (hostname : string) (now : time)
| CSaveRegistrationToken (rt : RegistrationToken) (now : time) (xid : string)
| CDeleteRegistrationToken (token : string) (now : time)
| CMarkTokenUsed (token : string) (now : time)
| CCleanupExpiredTokens (now : time)
| CSaveSourceCredential (cred : SourceCredential) (now : time) (xid : string)
| CDeleteSourceCredential (id : string) (now : time)
| CSaveRevokedCert (revoked : RevokedCertificate) (now : time) (xid : string)
| CSaveEncryptionKey (key : EncryptionKey) (now : time)
| CUpdateEncryptionKeyStatus (id status : string) (scheduledDeletion : option time) (now : time)
| CSaveSSHKey (key : SSHKey) (now : time) (xid : string)
| CDeleteSSHKey (id : string) (now : time)
| CSaveCertAuditEvent (event : CertAuditEvent) (now : time) (xid : string)
| CSaveACMECertificate (cert : ACMECertificate) (now : time) (xid : string)
| CDeleteACMECertificate (domain : string) (now : time)
| CSaveACMEAccount (account : ACMEAccount) (now : time) (xid : string)
| CDeleteACMEAccount (email : string) (now : time)
| CSaveRecoveryCodes (userID : string) (codes : list RecoveryCode) (now : time) (xids : nat → string)
| CUseRecoveryCode (codeID : string) (now : time)
| CDeleteRecoveryCodes (userID : string) (now : time).

Definition effect {A} (o : Out A) : State * list (Chan * WriteOp) := (st o, queued o).

Definition run `{MapRange} (c : call) (s : State) : State * list (Chan * WriteOp) :=
  match c with
  | CSaveCA ca now => effect (SaveCA ca now s)
  | CSetCurrentCA id now => effect (SetCurrentCA id now s)
  | CSaveAgentCert cert now xid => effect (SaveAgentCert cert now xid s)
  | CRevokeAgentCert a r b now xids => effect (RevokeAgentCert a r b now xids s)
  | CRevokeAgentCertBySerial n r b now xid => effect (RevokeAgentCertBySerial n r b now xid s)
  | CUpdateAgentCertStatus n status now => effect (UpdateAgentCertStatus n status now s)
  | CSaveServerCert cert now xid => effect (SaveServerCert cert now xid s)
  | CDeleteServerCert h now => effect (DeleteServerCert h now s)
  | CSaveRegistrationToken rt now xid => effect (SaveRegistrationToken rt now xid s)
  | CDeleteRegistrationToken t now => effect (DeleteRegistrationToken t now s)
  | CMarkTokenUsed t now => effect (MarkTokenUsed t now s)
  | CCleanupExpiredTokens now => effect (CleanupExpiredTokens now s)
  | CSaveSourceCredential c now xid => effect (SaveSourceCredential c now xid s)
  | CDeleteSourceCredential id now => effect (DeleteSourceCredential id now s)
  | CSaveRevokedCert r now xid => effect (SaveRevokedCert r now xid s)
  | CSaveEncryptionKey k now => effect (SaveEncryptionKey k now s)
  | CUpdateEncryptionKeyStatus id st d now => effect (UpdateEncryptionKeyStatus id st d now s)
  | CSaveSSHKey k now xid => effect (SaveSSHKey k now xid s)
  | CDeleteSSHKey id now => effect (DeleteSSHKey id now s)
  | CSaveCertAuditEvent e now xid => effect (SaveCertAuditEvent e now xid s)
  | CSaveACMECertificate c now xid => effect (SaveACMECertificate c now xid s)
  | CDeleteACMECertificate d now => effect (DeleteACMECertificate d now s)
  | CSaveACMEAccount a now xid => effect (SaveACMEAccount a now xid s)
  | CDeleteACMEAccount e now => effect (DeleteACMEAccount e now s)
  | CSaveRecoveryCodes u cs now xids => effect (SaveRecoveryCodes u cs now xids s)
  | CUseRecoveryCode id now => effect (UseRecoveryCode id now s)
  | CDeleteRecoveryCodes u now => effect (DeleteRecoveryCodes u now s)
  end.

(** The identifiers a call generates are new: [xid.New] is globally unique. *)
Definition code_ids (s : State) (id : string) : Prop :=
  ∃ u codes c, recoveryCodes s !! u = Some codes ∧ c ∈ codes ∧ c.(RecoveryCode.ID) = id.

Definition fresh (c : call) (s : State) : Prop :=
  match c with
  | CSaveRecoveryCodes _ codes _ xids =>
      (∀ i j, xids i = xids j → i = j) ∧ (∀ i, ¬ code_ids s (xids i))
  | _ => True
  end.

Inductive reachable : State → Prop :=
| reachable_empty : reachable empty
| reachable_call (R : MapRange) c s : reachable s → fresh c s → reachable (run c s).1.

(** * Invariant *)

Definition keyed_by {A} (f : A → string) (m : gmap string A) : Prop := ∀ k v, m !! k = Some v → f v = k.

(** Every table is keyed by its records, and a recovery code belongs to one user, once. *)
Record wf (s : State) : Prop := {
  wf_cas : keyed_by CertificateAuthority.ID (certificateAuthorities s);
  wf_certs : keyed_by AgentCertificate.SerialNumber (agentCertificates s);
  wf_servers : keyed_by ServerCertificate.Hostname (serverCertificates s);
  wf_tokens : keyed_by RegistrationToken.Token (registrationTokens s);
  wf_credentials : keyed_by SourceCredential.ID (sourceCredentials s);
  wf_revoked : keyed_by RevokedCertificate.SerialNumber (revokedCertificates s);
  wf_keys : keyed_by EncryptionKey.ID (encryptionKeys s);
  wf_ssh : keyed_by SSHKey.ID (sshKeys s);
  wf_acme : keyed_by ACMECertificate.Domain (acmeCertificates s);
  wf_accounts : keyed_by ACMEAccount.Email (acmeAccounts s);
  wf_owner : ∀ u codes c, recoveryCodes s !! u = Some codes → c ∈ codes → c.(RecoveryCode.UserID) = u;
  wf_code_ids : ∀ u codes, recoveryCodes s !! u = Some codes → NoDup (RecoveryCode.ID <$> codes);
  wf_code_user : ∀ u u' codes codes' c c', recoveryCodes s !! u = Some codes → recoveryCodes s !! u' = Some codes' →
    c ∈ codes → c' ∈ codes' → c.(RecoveryCode.ID) = c'.(RecoveryCode.ID) → u = u'
}.

Lemma keyed_empty {A} (f : A → string) : keyed_by f ∅.
Proof. intros k v. by rewrite lookup_empty. Qed.
Lemma keyed_insert {A} (f : A → string) m k v : keyed_by f m → f v = k → keyed_by f (<[k := v]> m).
Proof. intros Hm Hv k' v'. rewrite lookup_insert_Some. intros [[<- <-]|[_ ?]]; [done|by apply Hm]. Qed.
Lemma keyed_delete {A} (f : A → string) m k : keyed_by f m → keyed_by f (delete k m).
Proof. intros Hm k' v'. rewrite lookup_delete_Some. intros [_ ?]. by apply Hm. Qed.
Lemma keyed_fmap {A} (f : A → string) (g : A → A) m : (∀ v, f (g v) = f v) → keyed_by f m → keyed_by f (g <$> m).
Proof. intros Hg Hm k v. rewrite lookup_fmap_Some. intros (w & <- & Hw). rewrite Hg. by apply Hm. Qed.
Lemma keyed_alter {A} (f : A → string) (g : A → A) m k : (∀ v, f (g v) = f v) → keyed_by f m → keyed_by f (alter g k m).
Proof.
  intros Hg Hm k' v. rewrite lookup_alter_Some. intros [(-> & w & Hw & ->)|[_ ?]]; [rewrite Hg|]; by apply Hm.
Qed.
Lemma keyed_range_delete `{MapRange} {A} (f : A → string) p m : keyed_by f m → keyed_by f (range_delete p m).
Proof. intros Hm k v Hv. apply range_delete_Some in Hv as [Hv _]. by apply Hm. Qed.

Create HintDb keyed.
#[local] Hint Resolve keyed_empty keyed_insert keyed_delete keyed_alter keyed_range_delete : keyed.

Lemma wf_tables s s' :
  wf s → recoveryCodes s' = recoveryCodes s →
  keyed_by CertificateAuthority.ID (certificateAuthorities s') →
  keyed_by AgentCertificate.SerialNumber (agentCertificates s') →
  keyed_by ServerCertificate.Hostname (serverCertificates s') →
  keyed_by RegistrationToken.Token (registrationTokens s') →
  keyed_by SourceCredential.ID (sourceCredentials s') →
  keyed_by RevokedCertificate.SerialNumber (revokedCertificates s') →
  keyed_by EncryptionKey.ID (encryptionKeys s') →
  keyed_by SSHKey.ID (sshKeys s') →
  keyed_by ACMECertificate.Domain (acmeCertificates s') →
  keyed_by ACMEAccount.Email (acmeAccounts s') → wf s'.
Proof. intros Hw Hr. intros. split; try done; rewrite Hr; apply Hw. Qed.

Lemma security_wf_empty : wf empty.
Proof. split; simpl; try apply keyed_empty; intros *; by rewrite lookup_empty. Qed.

(** ** Revocation *)

(** What a revoking loop has done to the entry of a serial number. *)
Lemma revoke_turns agentID reason by_ now s q turns :
  (∀ xid key cert, (xid, (key, cert)) ∈ turns → cert.(AgentCertificate.SerialNumber) = key) →
  let s' := (foldl (revoke_turn agentID reason by_ now) (s, q) turns).1 in
  s' = {| s with agentCertificates := agentCertificates s'; revokedCertificates := revokedCertificates s' |} ∧
  ∀ k, (∃ xid cert, (xid, (k, cert)) ∈ turns ∧ agentCertificates s' !! k = Some (revoke now reason cert) ∧
          revokedCertificates s' !! k = Some (revocation xid k agentID reason by_ now)) ∨
       ((∀ xid cert, (xid, (k, cert)) ∉ turns) ∧ agentCertificates s' !! k = agentCertificates s !! k ∧
          revokedCertificates s' !! k = revokedCertificates s !! k).
Proof.
  induction turns as [|[xid [key cert]] turns IH] using rev_ind; intros Hser.
  { simpl. split; [by destruct s|]. intros k. right. split_and!; [|done..]. intros. apply not_elem_of_nil. }
  destruct IH as [IHs IHk]; [intros; apply (Hser xid0); apply elem_of_app; by left|].
  rewrite foldl_app. destruct (foldl _ (s, q) turns) as [s1 q1]. simpl in IHs, IHk |- *.
  rewrite (Hser xid key cert) by (apply elem_of_app; right; by left). split; [by rewrite IHs|].
  intros k. destruct (decide (key = k)) as [->|Hne].
  - left. exists xid, cert. rewrite !lookup_insert_eq. split_and!; [|done..]. apply elem_of_app. right. by left.
  - rewrite !lookup_insert_ne by done. destruct (IHk k) as [(x & c & Hin & H1 & H2)|(Hn & H1 & H2)].
    + left. exists x, c. split_and!; [|done..]. apply elem_of_app. by left.
    + right. split_and!; [|done..]. intros x c. rewrite elem_of_app, list_elem_of_singleton.
      intros [Hin|[= _ E _]]; [by apply Hn in Hin|done].
Qed.

(** The turns of [RevokeAgentCert]. *)
Definition revoked_turns `{MapRange} (agentID : string) (xids : nat → string) (s : State) :=
  let found := filter (λ kv, active_of agentID kv.2 = true) (range (agentCertificates s)) in
  zip (xids <$> seq 0 (length found)) found.

Lemma elem_of_revoked_turns `{MapRange} agentID xids s xid k cert :
  (xid, (k, cert)) ∈ revoked_turns agentID xids s → agentCertificates s !! k = Some cert ∧ active_of agentID cert = true.
Proof.
  intros Hin%elem_of_zip_r. rewrite list_elem_of_filter, elem_of_range in Hin. simpl in Hin. by destruct Hin.
Qed.

Lemma revoked_turns_elem `{MapRange} agentID xids s k cert :
  agentCertificates s !! k = Some cert → active_of agentID cert = true →
  ∃ xid, (xid, (k, cert)) ∈ revoked_turns agentID xids s.
Proof.
  intros Hk Ha. unfold revoked_turns.
  set (found := filter _ (range (agentCertificates s))).
  assert ((k, cert) ∈ found) as Hin by (apply list_elem_of_filter; split; [done|by apply elem_of_range]).
  apply list_elem_of_lookup in Hin as [i Hi]. exists (xids i). apply list_elem_of_lookup. exists i.
  rewrite lookup_zip_with, list_lookup_fmap, lookup_seq_lt by (by eapply lookup_lt_Some). simpl. by rewrite Hi.
Qed.

Lemma RevokeAgentCert_spec `{MapRange} agentID reason by_ now xids s :
  wf s →
  let o := RevokeAgentCert agentID reason by_ now xids s in
  st o = {| s with agentCertificates := agentCertificates (st o); revokedCertificates := revokedCertificates (st o) |} ∧
  (ret o = Ok tt ↔ ∃ k c, agentCertificates s !! k = Some c ∧ active_of agentID c = true) ∧
  (ret o ≠ Ok tt → ret o = Err ErrNotFound) ∧
  ∀ k, match agentCertificates s !! k with
       | Some c => if active_of agentID c
                   then agentCertificates (st o) !! k = Some (revoke now reason c) ∧
                        ∃ xid, revokedCertificates (st o) !! k = Some (revocation xid k agentID reason by_ now)
                   else agentCertificates (st o) !! k = Some c ∧
                        revokedCertificates (st o) !! k = revokedCertificates s !! k
       | None => agentCertificates (st o) !! k = None ∧ revokedCertificates (st o) !! k = revokedCertificates s !! k
       end.
Proof.
  intros Hw o.
  assert (∀ xid key cert, (xid, (key, cert)) ∈ revoked_turns agentID xids s → cert.(AgentCertificate.SerialNumber) = key) as Hser.
  { intros xid key cert [Hk _]%elem_of_revoked_turns. by apply (wf_certs s Hw). }
  destruct (revoke_turns agentID reason by_ now s [] _ Hser) as [Hs Hk].
  assert (st o = (foldl (revoke_turn agentID reason by_ now) (s, []) (revoked_turns agentID xids s)).1) as Est.
  { unfold o, RevokeAgentCert. fold (revoked_turns agentID xids s). by destruct (foldl _ _ _). }
  assert (ret o = if len (filter (λ kv, active_of agentID kv.2 = true) (range (agentCertificates s))) =? 0
                  then Err ErrNotFound else Ok tt) as Eret.
  { unfold o, RevokeAgentCert. fold (revoked_turns agentID xids s). by destruct (foldl _ _ _). }
  rewrite <- Est in Hs, Hk. split_and!; [done| | |].
  - rewrite Eret. destruct (filter _ (range _)) as [|[k c] l] eqn:E; simpl.
    + split; [done|]. intros (k & c & Hk1 & Hc).
      assert ((k, c) ∈ filter (λ kv, active_of agentID kv.2 = true) (range (agentCertificates s))) as Hin
        by (apply list_elem_of_filter; split; [done|by apply elem_of_range]).
      rewrite E in Hin. by apply not_elem_of_nil in Hin.
    + split; [|done]. intros _.
      assert ((k, c) ∈ filter (λ kv, active_of agentID kv.2 = true) (range (agentCertificates s))) as Hin
        by (rewrite E; left).
      rewrite list_elem_of_filter, elem_of_range in Hin. exists k, c. naive_solver.
  - rewrite Eret. by destruct (_ =? _).
  - intros k. destruct (Hk k) as [(xid & cert & Hin & H1 & H2)|(Hn & H1 & H2)].
    + apply elem_of_revoked_turns in Hin as [-> ->]. eauto.
    + destruct (agentCertificates s !! k) as [c|] eqn:Ek; [|by rewrite H1].
      destruct (active_of agentID c) eqn:Ea; [|by rewrite H1].
      destruct (revoked_turns_elem agentID xids s k c Ek Ea) as [x Hx]. by apply Hn in Hx.
Qed.

(** ** Recovery codes *)

Lemma use_in_spec codeID now codes l :
  use_in codeID now codes = Ok l ↔
  ∃ l1 c l2, codes = l1 ++ c :: l2 ∧ l = l1 ++ {| c with RecoveryCode.UsedAt := Some now |} :: l2 ∧
    c.(RecoveryCode.ID) = codeID ∧ unused c = true ∧ codeID ∉ RecoveryCode.ID <$> l1.
Proof.
  revert l. induction codes as [|code codes IH]; intros l; simpl.
  { split; [done|]. by intros ([|? ?] & ? & ? & ? & _). }
  destruct (bool_decide (code.(RecoveryCode.ID) = codeID)) eqn:E.
  - apply bool_decide_eq_true in E. destruct (unused code) eqn:Eu.
    + split.
      * intros [= <-]. exists [], code, codes. split_and!; try done. apply not_elem_of_nil.
      * intros ([|c0 l1] & c & l2 & [= -> ->] & -> & Hc & _ & Hn); [done|]. simpl in Hn. rewrite Hc in E || idtac.
        destruct Hn. rewrite E. left.
    + split; [done|]. intros ([|c0 l1] & c & l2 & [= -> ->] & -> & Hc & Hu & Hn); [congruence|].
      destruct Hn. simpl. rewrite E. left.
  - apply bool_decide_eq_false in E. destruct (use_in codeID now codes) as [l'|e|] eqn:Eu.
    + split.
      * intros [= <-]. destruct (proj1 (IH l') eq_refl) as (l1 & c & l2 & -> & -> & Hc & Hu & Hn).
        exists (code :: l1), c, l2. split_and!; try done. simpl. apply not_elem_of_cons. by split.
      * intros ([|c0 l1] & c & l2 & [= -> ->] & -> & Hc & Hu & Hn); [done|]. simpl in *. do 2 f_equal.
        apply not_elem_of_cons in Hn as [_ Hn].
        assert (Ok l' = Ok (l1 ++ {| c with RecoveryCode.UsedAt := Some now |} :: l2)) as [= ->]; [|done].
        apply IH. by exists l1, c, l2.
    + split; [done|]. intros ([|c0 l1] & c & l2 & [= -> ->] & -> & Hc & Hu & Hn); [done|]. exfalso.
      apply not_elem_of_cons in Hn as [_ Hn].
      assert (Err e = Ok (l1 ++ {| c with RecoveryCode.UsedAt := Some now |} :: l2)) as [=].
      apply IH. by exists l1, c, l2.
    + split; [done|]. intros ([|c0 l1] & c & l2 & [= -> ->] & -> & Hc & Hu & Hn); [done|]. exfalso.
      apply not_elem_of_cons in Hn as [_ Hn].
      assert (Panic = Ok (l1 ++ {| c with RecoveryCode.UsedAt := Some now |} :: l2)) as [=].
      apply IH. by exists l1, c, l2.
Qed.

Lemma use_in_no_panic codeID now codes : use_in codeID now codes ≠ Panic.
Proof.
  induction codes as [|c codes IH]; simpl; [done|]. destruct (bool_decide _); [by destruct (unused c)|].
  by destruct (use_in codeID now codes).
Qed.

Lemma has_code_true codeID codes : has_code codeID codes = true ↔ codeID ∈ RecoveryCode.ID <$> codes.
Proof.
  unfold has_code. rewrite existsb_exists, list_elem_of_fmap. split.
  - intros (c & Hin & Hc%bool_decide_eq_true). exists c. split; [done|by apply list_elem_of_In].
  - intros (c & -> & Hin). exists c. split; [by apply list_elem_of_In|by apply bool_decide_eq_true].
Qed.

(** The fields other than [recoveryCodes] are of no concern to the codes. *)
Lemma wf_codes s s' :
  wf s →
  s' = {| s with recoveryCodes := recoveryCodes s' |} →
  (∀ u codes c, recoveryCodes s' !! u = Some codes → c ∈ codes → c.(RecoveryCode.UserID) = u) →
  (∀ u codes, recoveryCodes s' !! u = Some codes → NoDup (RecoveryCode.ID <$> codes)) →
  (∀ u u' codes codes' c c', recoveryCodes s' !! u = Some codes → recoveryCodes s' !! u' = Some codes' →
    c ∈ codes → c' ∈ codes' → c.(RecoveryCode.ID) = c'.(RecoveryCode.ID) → u = u') → wf s'.
Proof. intros Hw Hs H1 H2 H3. split; try done; rewrite Hs; apply Hw. Qed.

Lemma wf_delete_codes userID now s : wf s → wf (st (DeleteRecoveryCodes userID now s)).
Proof.
  intros Hw. unfold DeleteRecoveryCodes. destruct (recoveryCodes s !! userID) as [l|]; [|done].
  apply (wf_codes s); [done|done|..]; simpl; intros *; rewrite ?lookup_delete_Some.
  - intros [_ ?]. by apply (wf_owner s Hw).
  - intros [_ ?]. by eapply (wf_code_ids s Hw).
  - intros [_ ?] [_ ?]. by apply (wf_code_user s Hw).
Qed.

Lemma wf_save_codes userID codes now xids s :
  wf s → (∀ i j, xids i = xids j → i = j) → (∀ i, ¬ code_ids s (xids i)) →
  wf (st (SaveRecoveryCodes userID codes now xids s)).
Proof.
  intros Hw Hinj Hfresh.
  set (stored := imap (λ i c, RecoveryCode.mk (xids i) userID c.(RecoveryCode.CodeHash) c.(RecoveryCode.UsedAt) now) codes).
  assert (∀ c, c ∈ stored → c.(RecoveryCode.UserID) = userID ∧ ∃ i, c.(RecoveryCode.ID) = xids i) as Hst.
  { intros c [i (c' & _ & ->)%list_lookup_imap_Some]%list_elem_of_lookup. simpl. eauto. }
  apply (wf_codes s); [done|done|..]; unfold SaveRecoveryCodes; simpl; fold stored; intros *; rewrite ?lookup_insert_Some.
  - intros [[<- <-]|[_ ?]]; [intros [Hc _]%Hst; done|by apply (wf_owner s Hw)].
  - intros [[<- <-]|[_ ?]]; [|by eapply (wf_code_ids s Hw)].
    apply NoDup_alt. intros i j x (c & -> & Hi)%list_lookup_fmap_Some (c' & E & Hj)%list_lookup_fmap_Some.
    apply list_lookup_imap_Some in Hi as (? & _ & ->), Hj as (? & _ & ->). by apply Hinj.
  - intros [[<- <-]|[Hu1 H1]] [[<- <-]|[Hu2 H2]] Hc Hc' E; [done|..].
    + apply Hst in Hc as [_ [i Hi]]. destruct (Hfresh i). exists u', codes', c'. rewrite <- Hi. by split_and!.
    + apply Hst in Hc' as [_ [i Hi]]. destruct (Hfresh i). exists u, codes0, c. rewrite <- Hi. by split_and!.
    + by eapply (wf_code_user s Hw).
Qed.

(** The codes after one of a list was used: the same users and identifiers. *)
Lemma used_codes codeID now codes l :
  use_in codeID now codes = Ok l →
  RecoveryCode.ID <$> l = RecoveryCode.ID <$> codes ∧
  ∀ c, c ∈ l → ∃ c', c' ∈ codes ∧ c.(RecoveryCode.ID) = c'.(RecoveryCode.ID) ∧ c.(RecoveryCode.UserID) = c'.(RecoveryCode.UserID).
Proof.
  intros (l1 & c & l2 & -> & -> & _)%use_in_spec. split; [by rewrite !fmap_app|].
  intros x. rewrite elem_of_app, elem_of_cons. intros [Hx|[->|Hx]].
  - exists x. split_and!; [|done..]. apply elem_of_app. by left.
  - exists c. split_and!; [|done..]. apply elem_of_app. right. by left.
  - exists x. split_and!; [|done..]. apply elem_of_app. right. by right.
Qed.

Lemma wf_use_code `{MapRange} codeID now s : wf s → wf (st (UseRecoveryCode codeID now s)).
Proof.
  intros Hw. unfold UseRecoveryCode. destruct (range_find _ _) as [[userID codes]|] eqn:Ef; [|done].
  apply range_find_Some in Ef as [Hu _]. destruct (use_in codeID now codes) as [l|e|] eqn:E; [|done..].
  destruct (used_codes _ _ _ _ E) as [Hids Hel].
  apply (wf_codes s); [done|done|..]; simpl; intros *; rewrite ?lookup_insert_Some.
  - intros [[<- <-]|[_ ?]]; [|by apply (wf_owner s Hw)]. intros (c' & Hc' & _ & ->)%Hel. by eapply (wf_owner s Hw).
  - intros [[<- <-]|[_ ?]]; [rewrite Hids|]; by eapply (wf_code_ids s Hw).
  - intros [[<- <-]|[Hn1 H1]] [[<- <-]|[Hn2 H2]] Hc Hc' Eid; [done|..].
    + apply Hel in Hc as (d & Hd & E1 & _). rewrite E1 in Eid. by eapply (wf_code_user s Hw).
    + apply Hel in Hc' as (d & Hd & E1 & _). rewrite E1 in Eid. by eapply (wf_code_user s Hw).
    + by eapply (wf_code_user s Hw).
Qed.

Lemma wf_revoke `{MapRange} agentID reason by_ now xids s :
  wf s → wf (st (RevokeAgentCert agentID reason by_ now xids s)).
Proof.
  intros Hw. destruct (RevokeAgentCert_spec agentID reason by_ now xids s Hw) as (Es & _ & _ & Hk).
  rewrite Es. apply (wf_tables s); simpl; try done; try apply Hw.
  - intros k c Hc. specialize (Hk k). destruct (agentCertificates s !! k) as [c0|] eqn:E; [|by rewrite (proj1 Hk) in Hc].
    pose proof (wf_certs s Hw k c0 E). destruct (active_of agentID c0); destruct Hk as [Hk _]; rewrite Hk in Hc; by injection Hc as <-.
  - intros k c Hc. specialize (Hk k). pose proof (wf_revoked s Hw k) as Hr.
    destruct (agentCertificates s !! k) as [c0|]; [destruct (active_of agentID c0)|]; destruct Hk as [_ Hk].
    + destruct Hk as [x Hx]. rewrite Hx in Hc. by injection Hc as <-.
    + rewrite Hk in Hc. by apply Hr.
    + rewrite Hk in Hc. by apply Hr.
Qed.

Lemma key_status_id status d now k : EncryptionKey.ID (key_status status d now k) = EncryptionKey.ID k.
Proof. unfold key_status. by repeat case_bool_decide. Qed.

Lemma SetCurrentCA_cas `{MapRange} id now s :
  is_Some (certificateAuthorities s !! id) →
  certificateAuthorities (st (SetCurrentCA id now s)) =
  alter (λ ca, {| ca with CertificateAuthority.IsCurrent := true; CertificateAuthority.Status := CAStatusActive |}) id
    ((λ ca, if other_current id ca then deactivate now ca else ca) <$> certificateAuthorities s).
Proof. intros [ca Hc]. unfold SetCurrentCA. rewrite Hc. simpl. by rewrite range_update_fmap. Qed.

Lemma wf_set_current_ca `{MapRange} id now s : wf s → wf (st (SetCurrentCA id now s)).
Proof.
  intros Hw. destruct (certificateAuthorities s !! id) as [ca|] eqn:E; [|by unfold SetCurrentCA; rewrite E].
  pose proof (SetCurrentCA_cas id now s ltac:(by eexists)) as Ec. unfold SetCurrentCA in *. rewrite E in *.
  apply (wf_tables s); simpl in *; try done; try apply Hw. rewrite Ec.
  apply keyed_alter; [done|]. apply keyed_fmap; [intros v; by destruct (other_current id v)|apply Hw].
Qed.

Lemma security_run_wf `{MapRange} c s : wf s → fresh c s → wf (run c s).1.
Proof.
  intros Hw Hf. destruct c; unfold run, effect; simpl fst;
    [|by apply wf_set_current_ca| |by apply wf_revoke|..|destruct Hf; by apply wf_save_codes|
      by apply wf_use_code|by apply wf_delete_codes].
  all: try (unfold RevokeAgentCertBySerial, UpdateAgentCertStatus, DeleteServerCert,
      DeleteRegistrationToken, MarkTokenUsed, DeleteSourceCredential, UpdateEncryptionKeyStatus, DeleteSSHKey,
      DeleteACMECertificate, DeleteACMEAccount; repeat case_match; try done).
  all: apply (wf_tables s); simpl; try done; try apply Hw.
  all: try (apply keyed_delete; apply Hw); try (apply keyed_range_delete; apply Hw).
  all: apply keyed_insert; [apply Hw|]; rewrite ?key_status_id; simpl; try done; try (by apply Hw).
  all: repeat case_match; done.
Qed.

Lemma security_reachable_wf s : reachable s → wf s.
Proof. induction 1; [apply security_wf_empty|by apply security_run_wf]. Qed.

(** ** Later calls *)

(** A call whose generated recovery code identifiers differ from [id]. *)
Definition generates (c : call) (id : string) : Prop :=
  match c with CSaveRecoveryCodes _ codes _ xids => ∃ i, (i < length codes)%nat ∧ xids i = id | _ => False end.

Definition later (id : string) (s s' : State) : Prop :=
  ∃ (R : MapRange) c, ¬ generates c id ∧ s' = (run c s).1.

(** No code with the identifier can be used. *)
Definition spent (id : string) (s : State) : Prop :=
  ∀ u codes c, recoveryCodes s !! u = Some codes → c ∈ codes → c.(RecoveryCode.ID) = id → unused c = false.

Lemma codes_unchanged `{MapRange} c s :
  match c with CSaveRecoveryCodes _ _ _ _ | CUseRecoveryCode _ _ | CDeleteRecoveryCodes _ _ => True
  | _ => recoveryCodes (run c s).1 = recoveryCodes s end.
Proof.
  destruct c; try done; unfold run, effect; simpl fst;
    unfold SetCurrentCA, RevokeAgentCertBySerial, UpdateAgentCertStatus, DeleteServerCert,
      DeleteRegistrationToken, MarkTokenUsed, DeleteSourceCredential, UpdateEncryptionKeyStatus, DeleteSSHKey,
      DeleteACMECertificate, DeleteACMEAccount; try (repeat case_match; done).
  unfold RevokeAgentCert. generalize (zip (xids <$> seq 0 (length (filter (λ kv, active_of agentID kv.2 = true)
    (range (agentCertificates s))))) (filter (λ kv, active_of agentID kv.2 = true) (range (agentCertificates s)))) as turns.
  intros turns. enough (∀ q, recoveryCodes (foldl (revoke_turn agentID reason revokedBy now) (s, q) turns).1 = recoveryCodes s) as He
    by (specialize (He []); by destruct (foldl _ _ _)).
  induction turns as [|[x [k c]] turns IH] using rev_ind; intros q; [done|]. rewrite foldl_app.
  specialize (IH q). by destruct (foldl _ (s, q) turns).
Qed.

Lemma spent_run `{MapRange} id c s : ¬ generates c id → spent id s → spent id (run c s).1.
Proof.
  intros Hg Hs. pose proof (codes_unchanged c s) as Hc.
  destruct c; try (intros u' codes' c'; rewrite Hc; apply Hs); clear Hc; unfold run, effect; simpl fst.
  - intros u cs c. simpl. rewrite lookup_insert_Some. intros [[<- <-]|[_ Hu]]; [|by eapply Hs].
    intros [i Hi]%list_elem_of_lookup Hid. apply list_lookup_imap_Some in Hi as (y & Hy & ->). simpl in Hid.
    destruct Hg. exists i. split; [by eapply lookup_lt_Some|done].
  - unfold UseRecoveryCode. destruct (range_find _ _) as [[u codes]|] eqn:Ef; [|done].
    apply range_find_Some in Ef as [Hu _]. destruct (use_in codeID now codes) as [l|e|] eqn:E; [|done..].
    intros u' cs c. simpl. rewrite lookup_insert_Some. intros [[<- <-]|[_ Hu']]; [|by eapply Hs].
    apply use_in_spec in E as (l1 & c1 & l2 & -> & -> & _). rewrite elem_of_app, elem_of_cons. intros [Hin|[->|Hin]].
    + intros Hid. eapply Hs; [done| |done]. apply elem_of_app. by left.
    + done.
    + intros Hid. eapply Hs; [done| |done]. apply elem_of_app. right. by right.
  - unfold DeleteRecoveryCodes. destruct (recoveryCodes s !! userID); [|done]. intros u cs c. simpl.
    rewrite lookup_delete_Some. intros [_ Hu]. by eapply Hs.
Qed.

Lemma spent_refused `{MapRange} id now s : spent id s → ret (UseRecoveryCode id now s) ≠ Ok tt.
Proof.
  intros Hs. unfold UseRecoveryCode. destruct (range_find _ _) as [[u codes]|] eqn:Ef; [|done].
  apply range_find_Some in Ef as [Hu _]. destruct (use_in id now codes) as [l|e|] eqn:E; [|done..].
  apply use_in_spec in E as (l1 & c1 & l2 & -> & _ & Hid & Hun & _). exfalso.
  rewrite (Hs u _ c1 Hu) in Hun; [done| |done]. apply elem_of_app. right. left.
Qed.

Lemma UseRecoveryCode_ok `{MapRange} id now s :
  wf s → ret (UseRecoveryCode id now s) = Ok tt →
  ∃ u l1 c l2, recoveryCodes s !! u = Some (l1 ++ c :: l2) ∧ c.(RecoveryCode.ID) = id ∧ unused c = true ∧
    recoveryCodes (st (UseRecoveryCode id now s)) =
      <[u := l1 ++ {| c with RecoveryCode.UsedAt := Some now |} :: l2]> (recoveryCodes s) ∧
    spent id (st (UseRecoveryCode id now s)).
Proof.
  intros Hw. unfold UseRecoveryCode. destruct (range_find _ _) as [[u codes]|] eqn:Ef; [|done].
  apply range_find_Some in Ef as [Hu _]. destruct (use_in id now codes) as [l|e|] eqn:E; [|done..]. intros _. simpl.
  apply use_in_spec in E as (l1 & c & l2 & -> & -> & Hid & Hun & Hn). exists u, l1, c, l2. split_and!; try done.
  pose proof (wf_code_ids s Hw _ _ Hu) as Hnd. rewrite fmap_app, NoDup_app in Hnd. destruct Hnd as (_ & Hnd1 & Hnd2).
  apply NoDup_cons in Hnd2 as [Hnd2 _].
  intros u' cs c'. simpl. rewrite lookup_insert_Some. intros [[<- <-]|[Hne Hu']].
  - rewrite elem_of_app, elem_of_cons. intros [Hin|[->|Hin]] Hid'; [|done|].
    + destruct Hn. rewrite <- Hid'. by apply list_elem_of_fmap_2.
    + destruct Hnd2. rewrite Hid, <- Hid'. by apply list_elem_of_fmap_2.
  - intros Hin Hid'. destruct Hne. eapply (wf_code_user s Hw u u' _ cs c c'); [done|done| |done|congruence].
    apply elem_of_app. right. left.
Qed.

(** No method takes a serial number off the list. *)
Lemma revoked_run `{MapRange} c s k :
  is_Some (revokedCertificates s !! k) → is_Some (revokedCertificates (run c s).1 !! k).
Proof.
  intros Hk. destruct c; unfold run, effect; simpl fst; try done;
    unfold SetCurrentCA, RevokeAgentCertBySerial, UpdateAgentCertStatus, DeleteServerCert,
      DeleteRegistrationToken, MarkTokenUsed, DeleteSourceCredential, UpdateEncryptionKeyStatus, DeleteSSHKey,
      DeleteACMECertificate, DeleteACMEAccount, UseRecoveryCode, DeleteRecoveryCodes; try (repeat case_match; done).
  - unfold RevokeAgentCert. generalize (zip (xids <$> seq 0 (length (filter (λ kv, active_of agentID kv.2 = true)
      (range (agentCertificates s))))) (filter (λ kv, active_of agentID kv.2 = true) (range (agentCertificates s)))) as turns.
    intros turns. enough (∀ q, is_Some (revokedCertificates (foldl (revoke_turn agentID reason revokedBy now) (s, q) turns).1 !! k)) as He
      by (specialize (He []); by destruct (foldl _ _ _)).
    induction turns as [|[x [k' c]] turns IH] using rev_ind; intros q; [done|]. rewrite foldl_app.
    specialize (IH q). destruct (foldl _ (s, q) turns). simpl in *. rewrite lookup_insert_is_Some'. auto.
  - case_match; [|done]. simpl. rewrite lookup_insert_is_Some'. auto.
  - simpl. rewrite lookup_insert_is_Some'. auto.
Qed.

(** * Theorems *)

(** The tables no executor knows. *)
Definition unwritten_tables : list string :=
  ["certificate_authorities"; "agent_certificates"; "server_certificates"; "registration_tokens";
   "source_credentials"; "revoked_certificates"; "encryption_keys"; "ssh_keys"; "cert_audit_events"].

Definition written_tables : list string := ["acme_certificates"; "acme_accounts"; "recovery_codes"].

Lemma unwritten_nothing op : op.(WriteOp.Table) ∈ unwritten_tables → executeWriteOp op = Ok Nothing.
Proof.
  unfold executeWriteOp. generalize op.(WriteOp.Table) as t. intros t Ht.
  unfold unwritten_tables in Ht. rewrite !elem_of_cons, elem_of_nil in Ht.
  repeat (destruct Ht as [->|Ht]; [done|]). done.
Qed.

(** What a queued operation of this file is: for an unwritten table, or accepted by the
    executor of its table. *)
Definition op_fate (op : WriteOp) : Prop :=
  op.(WriteOp.Table) ∈ unwritten_tables ∨ (op.(WriteOp.Table) ∈ written_tables ∧ accepted op = true).

Lemma fate_unwritten now typ table data :
  table ∈ unwritten_tables → op_fate (NewWriteOp now typ table data).
Proof. by left. Qed.

Lemma fate_written now typ table T k :
  (table, T) ∈ [("acme_certificates", TACMECertificate); ("acme_accounts", TACMEAccount); ("recovery_codes", TRecoveryCode)] →
  op_fate (NewWriteOp now typ table (DPtr T k)).
Proof.
  rewrite !elem_of_cons, elem_of_nil. intros [[= -> ->]|[[= -> ->]|[[= -> ->]|[]]]]; right;
    (split; [by (repeat (apply elem_of_cons; (left; reflexivity) || right))|destruct typ; vm_compute; reflexivity]).
Qed.

Definition fates (q : list (Chan * WriteOp)) : Prop := Forall (λ x, op_fate x.2) q.

Lemma fates_bind {A} (l : list A) (f : A → list (Chan * WriteOp)) : (∀ x, fates (f x)) → fates (l ≫= f).
Proof. intros Hf. induction l as [|x l IH]; [constructor|]. apply Forall_app. split; [apply Hf|apply IH]. Qed.

Lemma fates_app q1 q2 : fates q1 → fates q2 → fates (q1 ++ q2).
Proof. intros. apply Forall_app. by split. Qed.

Lemma fates_unwritten ch now typ table data : table ∈ unwritten_tables → fates (queueWrite ch now typ table data).
Proof. intros Ht. apply Forall_singleton. by left. Qed.

Lemma fates_written ch now typ table T k :
  (table, T) ∈ [("acme_certificates", TACMECertificate); ("acme_accounts", TACMEAccount); ("recovery_codes", TRecoveryCode)] →
  fates (queueWrite ch now typ table (DPtr T k)).
Proof. intros Ht. constructor; [by apply fate_written|constructor]. Qed.

Ltac known_table := by (repeat (apply elem_of_cons; (left; reflexivity) || right)).

Lemma revoke_fates `{MapRange} agentID reason by_ now xids s :
  fates (queued (RevokeAgentCert agentID reason by_ now xids s)).
Proof.
  unfold RevokeAgentCert. fold (revoked_turns agentID xids s). generalize (revoked_turns agentID xids s) as turns.
  intros turns. enough (fates (foldl (revoke_turn agentID reason by_ now) (s, []) turns).2) as He by (by destruct (foldl _ _ _)).
  induction turns as [|[x [k c]] turns IH] using rev_ind; [constructor|]. rewrite foldl_app.
  destruct (foldl _ (s, []) turns). simpl in *. apply fates_app; [done|].
  apply Forall_cons. split; [left; known_table|]. apply fates_unwritten. known_table.
Qed.

Lemma queued_fates `{MapRange} c s : fates (run c s).2.
Proof.
  destruct c; unfold run, effect; simpl snd; try apply revoke_fates;
    unfold SetCurrentCA, RevokeAgentCertBySerial, UpdateAgentCertStatus, DeleteServerCert,
      DeleteRegistrationToken, MarkTokenUsed, DeleteSourceCredential, UpdateEncryptionKeyStatus, DeleteSSHKey,
      DeleteACMECertificate, DeleteACMEAccount, UseRecoveryCode, DeleteRecoveryCodes, SaveRecoveryCodes,
      SaveACMECertificate, SaveACMEAccount;
    repeat case_match; simpl queued; try apply Forall_nil_2;
    try (apply fates_unwritten; known_table); try (apply fates_written; known_table).
  all: try (apply fates_bind; intros x; (apply fates_unwritten; known_table) || (apply fates_written; known_table)).
  all: try (apply fates_app; apply fates_bind; intros x; apply fates_written; known_table).
  - apply fates_app; [apply fates_bind; intros x|]; apply fates_unwritten; known_table.
  - apply Forall_cons. split; [left; known_table|]. apply fates_unwritten. known_table.
Qed.

Lemma run_batch_nothing `{Database} heap tx n batch :
  Forall (λ op, op.(WriteOp.Table) ∈ unwritten_tables) batch → run_batch heap tx n batch = (tx, n + len batch, true).
Proof.
  intros Hb. revert n. induction Hb as [|op batch Hop Hb IH]; intros n; simpl; [by rewrite Z.add_0_r|].
  unfold run_op. rewrite unwritten_nothing by done. rewrite IH. do 2 f_equal. unfold len. simpl. lia.
Qed.

(** C33: The indexes of the security store agree through every sequence of calls: each
    table is keyed by its records, and a recovery code belongs to one user and occurs
    once. *)
Theorem security_invariant s : reachable s → wf s.
Proof. apply security_reachable_wf. Qed.

(** C32: Of what the security methods write only ACME certificates, ACME accounts and
    recovery codes reach a database: every other operation they queue - for certificate
    authorities, certificates, revocations, tokens, credentials, encryption keys, SSH
    keys and audit events - is for a table without executor, and a flush of such
    operations reports success, counts them as written and changes nothing. *)
Theorem security_never_persisted `{Database} `{MapRange} (c : call) (s : State) :
  (∀ ch op, (ch, op) ∈ (run c s).2 →
    (op.(WriteOp.Table) ∈ unwritten_tables ∧ executeWriteOp op = Ok Nothing) ∨
    (op.(WriteOp.Table) ∈ written_tables ∧ accepted op = true)) ∧
  (∀ e db batch, batch ≠ [] → Forall (λ op, op.(WriteOp.Table) ∈ unwritten_tables) batch →
    begin_ok e = true → commit_ok e = true → FlushBatchFunc e db batch = (db, len batch, Ok tt)).
Proof.
  split.
  - intros ch op Hop. pose proof (queued_fates c s) as Hf. unfold fates in Hf. rewrite Forall_forall in Hf.
    destruct (Hf _ Hop) as [Ht|Ht]; [left; split; [done|by apply unwritten_nothing]|by right].
  - intros e db batch Hne Hb H1 H2. unfold FlushBatchFunc. rewrite bool_decide_false, H1 by done. cbn [negb].
    rewrite run_batch_nothing, H2 by done. cbn [negb]. by rewrite Z.add_0_l.
Qed.

(** Revoking an agent's certificates succeeds when it has an active one; then it has
    none left, each that was active is revoked with the reason and listed, every other
    certificate and entry of the list is as before, and no later call takes any of them
    off the list.  Without an active certificate nothing changes. *)
Theorem revoked_for_good `{MapRange} (agentID reason by_ : string) (now : time) (xids : nat → string) (s : State) :
  wf s →
  let o := RevokeAgentCert agentID reason by_ now xids s in
  (ret o = Ok tt ↔ ∃ k c, agentCertificates s !! k = Some c ∧ active_of agentID c = true) ∧
  GetAgentCert agentID (st o) = Err ErrNotFound ∧
  (∀ k c, agentCertificates s !! k = Some c →
    if active_of agentID c
    then agentCertificates (st o) !! k = Some (revoke now reason c) ∧
         ∀ id s', rtc (later id) (st o) s' → IsRevoked k s' = Ok true
    else agentCertificates (st o) !! k = Some c ∧ revokedCertificates (st o) !! k = revokedCertificates s !! k).
Proof.
  intros Hw o. destruct (RevokeAgentCert_spec agentID reason by_ now xids s Hw) as (Es & Hret & _ & Hk). fold o in Es, Hret, Hk.
  split_and!; [done| |].
  - unfold GetAgentCert, get_by. destruct (range_find _ _) as [[k c]|] eqn:Ef; [|done]. exfalso.
    apply range_find_Some in Ef as [Hc Ha]. specialize (Hk k). destruct (agentCertificates s !! k) as [c0|].
    + destruct (active_of agentID c0) eqn:Ea; destruct Hk as [Hk _]; rewrite Hk in Hc; injection Hc as <-; [|congruence].
      unfold active_of, revoke in Ha. simpl in Ha. by rewrite andb_false_r in Ha.
    + destruct Hk as [Hk _]. congruence.
  - intros k c Hc. specialize (Hk k). rewrite Hc in Hk. destruct (active_of agentID c); [|done].
    destruct Hk as [Hk [x Hx]]. split; [done|]. intros id s' Hs. unfold IsRevoked. f_equal. apply bool_decide_eq_true.
    assert (is_Some (revokedCertificates (st o) !! k)) as Hr by (by eexists). clear -Hs Hr.
    induction Hs as [sa|sa sb sc (R' & c' & _ & ->) _ IH]; [done|]. by apply IH, revoked_run.
Qed.

(** A recovery code can be used once: the use that succeeds marks an unused code of
    one user, leaves every other code as it is, and after it no use of the same code
    succeeds, whatever calls come in between, as long as no new code is given the same
    identifier. *)
Theorem recovery_code_once `{MapRange} (id : string) (now : time) (s : State) :
  wf s → ret (UseRecoveryCode id now s) = Ok tt →
  (∃ u l1 c l2, recoveryCodes s !! u = Some (l1 ++ c :: l2) ∧ c.(RecoveryCode.ID) = id ∧ unused c = true ∧
    recoveryCodes (st (UseRecoveryCode id now s)) =
      <[u := l1 ++ {| c with RecoveryCode.UsedAt := Some now |} :: l2]> (recoveryCodes s)) ∧
  ∀ s', rtc (later id) (st (UseRecoveryCode id now s)) s' →
    ∀ (R : MapRange) now', ret (@UseRecoveryCode R id now' s') ≠ Ok tt.
Proof.
  intros Hw Hok. destruct (UseRecoveryCode_ok id now s Hw Hok) as (u & l1 & c & l2 & H1 & H2 & H3 & H4 & Hs).
  split; [by exists u, l1, c, l2|]. intros s' Hsteps R now'. apply spent_refused. clear R.
  revert Hs Hsteps. generalize (st (UseRecoveryCode id now s)). clear. intros s0 Hs Hsteps.
  induction Hsteps as [s1|s1 s2 s3 (R' & c' & Hg & ->) _ IH]; [done|]. by apply IH, spent_run.
Qed.

(** Making an authority current leaves it the only current one, active; the one that
    was current before becomes inactive and keeps the time of the rotation; all others
    are unchanged. *)
Theorem one_current_ca `{MapRange} (id : string) (now : time) (s : State) :
  wf s → is_Some (certificateAuthorities s !! id) →
  let s' := st (SetCurrentCA id now s) in
  (∃ ca, GetCurrentCA s' = Ok ca ∧ ca.(CertificateAuthority.ID) = id ∧ ca.(CertificateAuthority.Status) = CAStatusActive) ∧
  (∀ k ca, certificateAuthorities s' !! k = Some ca → ca.(CertificateAuthority.IsCurrent) = bool_decide (k = id)) ∧
  (∀ k ca, k ≠ id → certificateAuthorities s !! k = Some ca →
    certificateAuthorities s' !! k = Some (if ca.(CertificateAuthority.IsCurrent) then deactivate now ca else ca)).
Proof.
  intros Hw Hid s'. pose proof (SetCurrentCA_cas id now s Hid) as Ec. fold s' in Ec.
  assert (∀ k, k ≠ id → certificateAuthorities s' !! k =
    (λ ca, if ca.(CertificateAuthority.IsCurrent) then deactivate now ca else ca) <$> certificateAuthorities s !! k) as Hother.
  { intros k Hk. rewrite Ec, lookup_alter_ne, lookup_fmap by done.
    destruct (certificateAuthorities s !! k) as [ca|] eqn:E; [|done]. simpl. unfold other_current.
    by rewrite (wf_cas s Hw k ca E), bool_decide_false. }
  destruct Hid as [ca Hca].
  assert (∃ ca', certificateAuthorities s' !! id = Some ca' ∧ ca'.(CertificateAuthority.IsCurrent) = true ∧
    ca'.(CertificateAuthority.Status) = CAStatusActive ∧ ca'.(CertificateAuthority.ID) = id) as (ca' & Hca' & H1 & H2 & H3).
  { rewrite Ec, lookup_alter_eq, lookup_fmap, Hca. eexists. split; [done|]. simpl. split_and!; [done..|].
    pose proof (wf_cas s Hw id ca Hca). by destruct (other_current id ca). }
  assert (∀ k ca, certificateAuthorities s' !! k = Some ca → ca.(CertificateAuthority.IsCurrent) = bool_decide (k = id)) as Hcur.
  { intros k c Hc. case_bool_decide as E; [subst; congruence|]. rewrite Hother in Hc by done.
    destruct (certificateAuthorities s !! k) as [c0|]; [|done]. injection Hc as <-.
    by destruct (CertificateAuthority.IsCurrent c0) eqn:E0. }
  split_and!; [|done|].
  - exists ca'. split; [|done]. unfold GetCurrentCA, get_by. rewrite (range_find_unique _ _ id ca'); [done..|].
    intros k v Hv Hp. pose proof (Hcur k v Hv) as E. rewrite E in Hp. by apply bool_decide_eq_true in Hp.
  - intros k c Hk Hc. rewrite Hother by done. by rewrite Hc.
Qed.

(** ** A store with two authorities, an agent certificate and a recovery code *)

Definition demo_ca (id : string) (current : bool) : CertificateAuthority :=
  CertificateAuthority.mk id 1 "ca" "pem" [] 0 100 CAStatusActive current 0 None.

Definition demo_cert (serial : string) : AgentCertificate :=
  AgentCertificate.mk "c1" "a1" "ca1" serial "pem" 0 100 CertStatusActive 5 None None "".

Definition demo : State :=
  let R := range_in_key_order in
  (run (CSaveRecoveryCodes "u1" [RecoveryCode.mk "" "u1" "h" None 0] 5 (λ i, ("r" ++ pretty i)%string))
     (run (CSaveAgentCert (demo_cert "s1") 5 "x")
        (run (CSaveCA (demo_ca "ca2" false) 5) (run (CSaveCA (demo_ca "ca1" true) 5) empty).1).1).1).1.

Lemma security_demo_reachable : reachable demo.
Proof.
  unfold demo. apply (reachable_call range_in_key_order).
  - do 3 (apply (reachable_call range_in_key_order); [|done]). constructor.
  - split; [|by intros i (u & l & c & Hl & _)].
    intros i j E. apply (inj (String.append "r")) in E. by apply (inj pretty) in E.
Qed.

Lemma security_invariant_witness : wf demo.
Proof. apply (security_invariant demo). apply security_demo_reachable. Defined.

Lemma revoked_for_good_witness :
  ret (@RevokeAgentCert range_in_key_order "a1" "key lost" "admin" 9 (λ i, ("x" ++ pretty i)%string) demo) = Ok tt.
Proof.
  apply (@revoked_for_good range_in_key_order "a1" "key lost" "admin" 9 (λ i, ("x" ++ pretty i)%string) demo).
  - apply security_reachable_wf, security_demo_reachable.
  - exists "s1", (demo_cert "s1"). by split; vm_compute.
Defined.

Lemma recovery_code_once_witness :
  let R := range_in_key_order in
  ret (UseRecoveryCode "r0" 7 demo) = Ok tt ∧ ret (UseRecoveryCode "r0" 8 (st (UseRecoveryCode "r0" 7 demo))) ≠ Ok tt.
Proof.
  intros R. assert (ret (UseRecoveryCode "r0" 7 demo) = Ok tt) as Hok by by vm_compute. split; [exact Hok|].
  apply (@recovery_code_once R "r0" 7 demo); [apply security_reachable_wf, security_demo_reachable|exact Hok|constructor].
Defined.

Lemma one_current_ca_witness :
  let R := range_in_key_order in
  ∃ ca, GetCurrentCA (st (SetCurrentCA "ca2" 9 demo)) = Ok ca ∧ ca.(CertificateAuthority.ID) = "ca2" ∧
    ca.(CertificateAuthority.Status) = CAStatusActive.
Proof.
  intros R. apply (@one_current_ca R "ca2" 9 demo).
  - apply security_reachable_wf, security_demo_reachable.
  - eexists. by vm_compute.
Defined.

End Security.
