(* ===== verification/Crypto.v ===== *)
(** Encryption at rest ([src/internal/security/crypto.go]) and the interface of the key
    management service to the rest of the program.

    A byte is a [Z] from 0 to 255.  The block cipher in Galois/counter mode, the key
    derivation and the password hash of the libraries are parameters: the class [AEAD]
    with the law that opening undoes sealing.  Random bytes are arguments, [None] where
    the generator fails. *)

From S2P Require Import GoStrings StoreBase ServiceBase.

#[local] Open Scope string_scope.
#[local] Open Scope list_scope.
#[local] Open Scope Z_scope.

(** * Bytes *)

Definition is_byte (n : Z) : Prop := 0 ≤ n < 256.
Abbreviation bytes_ok := (Forall is_byte).

(** [[]byte(s)] and [string(b)]. *)
Definition bytes_of (s : string) : list Z := (λ c, Z.of_nat (Ascii.nat_of_ascii c)) <$> String.list_ascii_of_string s.
Definition string_of (b : list Z) : string := String.string_of_list_ascii ((λ n, Ascii.ascii_of_nat (Z.to_nat n)) <$> b).

Lemma bytes_of_string_of b : bytes_ok b → bytes_of (string_of b) = b.
Proof.
  unfold bytes_of, string_of. rewrite String.list_ascii_of_string_of_list_ascii.
  induction 1 as [|n b Hn _ IH]; [done|]. rewrite !fmap_cons, IH. f_equal. unfold is_byte in Hn.
  rewrite Ascii.nat_ascii_embedding; lia.
Qed.

Lemma string_of_bytes_of x : string_of (bytes_of x) = x.
Proof.
  unfold bytes_of, string_of. rewrite <- list_fmap_compose.
  rewrite <- (String.string_of_list_ascii_of_string x) at 2. f_equal.
  induction (String.list_ascii_of_string x) as [|c l IH]; [done|]. rewrite fmap_cons, IH. f_equal.
  unfold compose. by rewrite Nat2Z.id, Ascii.ascii_nat_embedding.
Qed.

Lemma bytes_of_ok x : bytes_ok (bytes_of x).
Proof.
  unfold bytes_of. apply Forall_fmap, Forall_forall. intros c _. unfold compose, is_byte.
  pose proof (Ascii.nat_ascii_bounded c). lia.
Qed.

Lemma bytes_of_length x : len (bytes_of x) = Z.of_nat (String.length x).
Proof. unfold bytes_of, len. rewrite length_fmap. f_equal. by induction x as [|c x IH]; simpl; [|rewrite IH]. Qed.

(** * Base 64 *)

Definition base64_value (c : Ascii.ascii) : option Z :=
  let n := Z.of_nat (Ascii.nat_of_ascii c) in
  if (65 <=? n) && (n <=? 90) then Some (n - 65)
  else if (97 <=? n) && (n <=? 122) then Some (n - 71)
  else if (48 <=? n) && (n <=? 57) then Some (n + 4)
  else if n =? 43 then Some 62
  else if n =? 47 then Some 63
  else None.

Definition equals_sign : Ascii.ascii := Ascii.ascii_of_nat 61.

(** The bytes of four values. *)
Definition quantum (v0 v1 v2 v3 : Z) : list Z :=
  let val := Z.lor (Z.lor (Z.shiftl v0 18) (Z.shiftl v1 12)) (Z.lor (Z.shiftl v2 6) v3) in
  [Z.land (Z.shiftr val 16) 255; Z.land (Z.shiftr val 8) 255; Z.land val 255].

(** Groups of four; padding ends the input. *)
Fixpoint base64_groups (s : string) : option (list Z) :=
  match s with
  | EmptyString => Some []
  | String c0 (String c1 (String c2 (String c3 rest))) =>
      v0 ← base64_value c0;
      v1 ← base64_value c1;
      if Ascii.eqb c2 equals_sign then
        if Ascii.eqb c3 equals_sign && bool_decide (rest = "") then Some (take 1 (quantum v0 v1 0 0)) else None
      else
        v2 ← base64_value c2;
        if Ascii.eqb c3 equals_sign then
          if bool_decide (rest = "") then Some (take 2 (quantum v0 v1 v2 0)) else None
        else
          v3 ← base64_value c3;
          l ← base64_groups rest;
          Some (quantum v0 v1 v2 v3 ++ l)
  | _ => None
  end.

(** [base64.StdEncoding.DecodeString] passes over line breaks. *)
Fixpoint drop_breaks (s : string) : string :=
  match s with
  | EmptyString => EmptyString
  | String c s' =>
      if Ascii.eqb c newline || Ascii.eqb c (Ascii.ascii_of_nat 13) then drop_breaks s' else String c (drop_breaks s')
  end.

Definition base64_decode (s : string) : option (list Z) := base64_groups (drop_breaks s).

Lemma base64_chars n :
  0 ≤ n < 64 → base64_value (base64_char n) = Some n ∧ base64_char n ≠ equals_sign ∧
  base64_char n ≠ newline ∧ base64_char n ≠ Ascii.ascii_of_nat 13 ∧ base64_char n ≠ colon.
Proof.
  intros Hn. assert (Forall (λ n, base64_value (base64_char n) = Some n ∧ base64_char n ≠ equals_sign ∧
    base64_char n ≠ newline ∧ base64_char n ≠ Ascii.ascii_of_nat 13 ∧ base64_char n ≠ colon) (seqZ 0 64)) as Hall.
  { vm_compute seqZ. repeat (constructor; [by vm_compute|]). constructor. }
  rewrite Forall_forall in Hall. apply Hall, elem_of_seqZ. lia.
Qed.

(** ** Encoding and decoding *)

Lemma lor_shiftl x y n : 0 ≤ n → 0 ≤ y < 2 ^ n → Z.lor (Z.shiftl x n) y = x * 2 ^ n + y.
Proof.
  intros Hn Hy. rewrite <- Z.shiftl_mul_pow2, <- (Z.add_lor_land (Z.shiftl x n) y) by done.
  assert (Z.land (Z.shiftl x n) y = 0) as ->; [|lia].
  destruct (decide (y = 0)) as [->|Hy0]; [by rewrite Z.land_0_r|]. apply Z.bits_inj'. intros i Hi.
  rewrite Z.land_spec, Z.bits_0. destruct (Z.lt_ge_cases i n) as [Hlt|Hge].
  - by rewrite Z.shiftl_spec_low.
  - rewrite (Z.bits_above_log2 y i), andb_false_r; [done|lia|].
    apply Z.log2_lt_pow2; [lia|].
    eapply Z.lt_le_trans; [apply Hy|]. apply Z.pow_le_mono_r; lia.
Qed.

Lemma quantum_spec v0 v1 v2 v3 :
  0 ≤ v0 < 64 → 0 ≤ v1 < 64 → 0 ≤ v2 < 64 → 0 ≤ v3 < 64 →
  quantum v0 v1 v2 v3 = [v0 * 4 + v1 / 16; v1 mod 16 * 16 + v2 / 4; v2 mod 4 * 64 + v3].
Proof.
  intros H0 H1 H2 H3. unfold quantum.
  assert (Z.lor (Z.lor (Z.shiftl v0 18) (Z.shiftl v1 12)) (Z.lor (Z.shiftl v2 6) v3) =
          v0 * 2 ^ 18 + v1 * 2 ^ 12 + v2 * 2 ^ 6 + v3) as ->.
  { rewrite (lor_shiftl v2) by lia.
    assert (Z.lor (Z.shiftl v0 18) (Z.shiftl v1 12) = Z.shiftl (v0 * 2 ^ 6 + v1) 12) as ->.
    { rewrite <- (lor_shiftl v0 v1 6), Z.shiftl_lor, Z.shiftl_shiftl by lia. done. }
    rewrite lor_shiftl by lia. lia. }
  rewrite !Z.shiftr_div_pow2 by lia.
  change 255 with (Z.ones 8). rewrite !Z.land_ones by lia.
  f_equal; [|f_equal; [|f_equal]]; Z.to_euclidean_division_equations; lia.
Qed.

(** The values of three bytes. *)
Lemma sextets a b c :
  is_byte a → is_byte b → is_byte c →
  Z.shiftr a 2 = a / 4 ∧ Z.lor (Z.shiftl (Z.land a 3) 4) (Z.shiftr b 4) = a mod 4 * 16 + b / 16 ∧
  Z.lor (Z.shiftl (Z.land b 15) 2) (Z.shiftr c 6) = b mod 16 * 4 + c / 64 ∧ Z.land c 63 = c mod 64.
Proof.
  unfold is_byte. intros Ha Hb Hc. rewrite !Z.shiftr_div_pow2 by lia.
  change 3 with (Z.ones 2). change 15 with (Z.ones 4). change 63 with (Z.ones 6). rewrite !Z.land_ones by lia.
  rewrite !lor_shiftl by (try lia; Z.to_euclidean_division_equations; lia). done.
Qed.

Lemma base64_groups_cons v0 v1 v2 v3 rest :
  0 ≤ v0 < 64 → 0 ≤ v1 < 64 → 0 ≤ v2 < 64 → 0 ≤ v3 < 64 →
  base64_groups (String (base64_char v0) (String (base64_char v1) (String (base64_char v2)
    (String (base64_char v3) rest)))) = (λ l, quantum v0 v1 v2 v3 ++ l) <$> base64_groups rest.
Proof.
  intros H0 H1 H2 H3. cbn [base64_groups].
  destruct (base64_chars v0 H0) as (V0 & _), (base64_chars v1 H1) as (V1 & _).
  destruct (base64_chars v2 H2) as (V2 & N2 & _), (base64_chars v3 H3) as (V3 & N3 & _).
  rewrite V0. cbn [mbind option_bind]. rewrite V1. cbn [mbind option_bind].
  rewrite (proj2 (Ascii.eqb_neq _ _) N2), V2. cbn [mbind option_bind].
  rewrite (proj2 (Ascii.eqb_neq _ _) N3), V3. cbn [mbind option_bind].
  by destruct (base64_groups rest).
Qed.

Lemma base64_groups_encode l : bytes_ok l → base64_groups (base64_encode l) = Some l.
Proof.
  remember (length l) as n eqn:En. revert l En. induction (lt_wf n) as [n _ IH]. intros l -> Hl.
  destruct l as [|a [|b [|c l]]]; [done|..].
  - apply Forall_cons in Hl as [Ha _]. destruct (sextets a 0 0 Ha) as (E0 & E1 & _); [done..|].
    cbn [base64_encode]. change (Z.shiftr 0 4) with 0 in E1. change (0 / 16) with 0 in E1. rewrite Z.lor_0_r, Z.add_0_r in E1. rewrite E0, E1.
    unfold is_byte in Ha. cbn [base64_groups].
    destruct (base64_chars (a / 4)) as (V0 & _), (base64_chars (a mod 4 * 16)) as (V1 & _);
      try (Z.to_euclidean_division_equations; lia).
    rewrite V0. cbn [mbind option_bind]. rewrite V1. cbn -[quantum]. rewrite quantum_spec by (Z.to_euclidean_division_equations; lia).
    cbn [take]. do 2 f_equal. Z.to_euclidean_division_equations; lia.
  - apply Forall_cons in Hl as [Ha Hl]. apply Forall_cons in Hl as [Hb _].
    destruct (sextets a b 0 Ha Hb) as (E0 & E1 & E2 & _); [done|].
    cbn [base64_encode]. change (Z.shiftr 0 6) with 0 in E2. change (0 / 64) with 0 in E2. rewrite Z.lor_0_r, Z.add_0_r in E2. rewrite E0, E1, E2.
    unfold is_byte in Ha, Hb. cbn [base64_groups].
    destruct (base64_chars (a / 4)) as (V0 & _), (base64_chars (a mod 4 * 16 + b / 16)) as (V1 & _),
      (base64_chars (b mod 16 * 4)) as (V2 & N2 & _);
      try (Z.to_euclidean_division_equations; lia).
    rewrite V0. cbn [mbind option_bind]. rewrite V1. cbn [mbind option_bind]. rewrite V2. cbn [mbind option_bind].
    rewrite (proj2 (Ascii.eqb_neq _ _) N2).
    cbn -[quantum]. rewrite quantum_spec by (Z.to_euclidean_division_equations; lia).
    cbn [take]. do 2 f_equal; [|f_equal]; Z.to_euclidean_division_equations; lia.
  - apply Forall_cons in Hl as [Ha Hl]. apply Forall_cons in Hl as [Hb Hl]. apply Forall_cons in Hl as [Hc Hl].
    destruct (sextets a b c Ha Hb Hc) as (E0 & E1 & E2 & E3).
    cbn [base64_encode]. rewrite E0, E1, E2, E3. unfold is_byte in *.
    rewrite base64_groups_cons by (Z.to_euclidean_division_equations; lia).
    rewrite (IH (length l)) by (simpl; lia || done). cbn [fmap option_fmap option_map].
    rewrite quantum_spec by (Z.to_euclidean_division_equations; lia).
    cbn [app]. f_equal. f_equal; [|f_equal; [|f_equal]]; Z.to_euclidean_division_equations; lia.
Qed.

(** What the encoder writes: no line break and no colon. *)
Definition base64_plain (c : Ascii.ascii) : bool :=
  negb (Ascii.eqb c newline) && negb (Ascii.eqb c (Ascii.ascii_of_nat 13)) && negb (Ascii.eqb c colon).

Lemma base64_char_plain n : 0 ≤ n < 64 → base64_plain (base64_char n) = true.
Proof.
  intros Hn. destruct (base64_chars n Hn) as (_ & _ & H1 & H2 & H3). unfold base64_plain.
  by rewrite (proj2 (Ascii.eqb_neq _ _) H1), (proj2 (Ascii.eqb_neq _ _) H2), (proj2 (Ascii.eqb_neq _ _) H3).
Qed.

Lemma base64_encode_plain l : bytes_ok l → all_chars base64_plain (base64_encode l) = true.
Proof.
  remember (length l) as n eqn:En. revert l En. induction (lt_wf n) as [n _ IH]. intros l -> Hl.
  destruct l as [|a [|b [|c l]]]; [done|..]; rewrite ?Forall_cons in Hl.
  - destruct Hl as [Ha _]. destruct (sextets a 0 0 Ha) as (E0 & E1 & _); [done..|].
    change (Z.shiftr 0 4) with 0 in E1. change (0 / 16) with 0 in E1. rewrite Z.lor_0_r, Z.add_0_r in E1. cbn [base64_encode all_chars].
    rewrite E0, E1. unfold is_byte in Ha. rewrite !base64_char_plain by (Z.to_euclidean_division_equations; lia). done.
  - destruct Hl as (Ha & Hb & _). destruct (sextets a b 0 Ha Hb) as (E0 & E1 & E2 & _); [done|].
    change (Z.shiftr 0 6) with 0 in E2. change (0 / 64) with 0 in E2. rewrite Z.lor_0_r, Z.add_0_r in E2. cbn [base64_encode all_chars].
    rewrite E0, E1, E2. unfold is_byte in Ha, Hb.
    rewrite !base64_char_plain by (Z.to_euclidean_division_equations; lia). done.
  - destruct Hl as (Ha & Hb & Hc & Hl). destruct (sextets a b c Ha Hb Hc) as (E0 & E1 & E2 & E3).
    cbn [base64_encode all_chars]. rewrite E0, E1, E2, E3. unfold is_byte in *.
    rewrite !base64_char_plain by (Z.to_euclidean_division_equations; lia). cbn [andb].
    apply (IH (length l)); [simpl; lia|done..].
Qed.

Lemma drop_breaks_plain s : all_chars base64_plain s = true → drop_breaks s = s.
Proof.
  induction s as [|c s IH]; simpl; [done|]. rewrite andb_true_iff. intros [Hc Hs]. unfold base64_plain in Hc.
  destruct (Ascii.eqb c newline); [done|]. destruct (Ascii.eqb c _); [done|]. cbn [orb]. by rewrite IH.
Qed.

Lemma base64_roundtrip l : bytes_ok l → base64_decode (base64_encode l) = Some l.
Proof.
  intros Hl. unfold base64_decode. rewrite drop_breaks_plain by by apply base64_encode_plain.
  by apply base64_groups_encode.
Qed.

Lemma base64_no_colon l : bytes_ok l → free_of colon (base64_encode l) = true.
Proof.
  intros Hl. rewrite free_of_chars. eapply all_chars_impl; [|by apply base64_encode_plain].
  intros c Hc. unfold base64_plain in Hc. apply andb_true_iff in Hc as [_ Hc]. done.
Qed.

(** * Sealing *)

(** AES in Galois/counter mode: a nonce has 12 bytes; opening fails for anything that was
    not sealed with the key and the nonce. *)
Class AEAD := {
  Seal : list Z → list Z → list Z → list Z;
  Open : list Z → list Z → list Z → option (list Z);
  Open_Seal : ∀ key nonce plaintext, bytes_ok plaintext → Open key nonce (Seal key nonce plaintext) = Some plaintext;
  Seal_bytes : ∀ key nonce plaintext, bytes_ok plaintext → bytes_ok (Seal key nonce plaintext)
}.

Definition NonceSize : Z := 12.

(** [aes.NewCipher]: keys of 128, 192 or 256 bits. *)
Definition valid_key (key : list Z) : bool := (len key =? 16) || (len key =? 24) || (len key =? 32).

(** A nonce the random generator gives. *)
Definition fresh_nonce (nonce : option (list Z)) : Prop := ∀ n, nonce = Some n → len n = NonceSize ∧ bytes_ok n.

Section sealing.
Context `{AEAD}.

(** [MasterKey.Encrypt] and [MasterKey.Decrypt]: the nonce goes in front. *)
Definition MasterKey_Encrypt (key : list Z) (nonce : option (list Z)) (plaintext : list Z) : list Z + gerror :=
  if negb (valid_key key) then inr (Errorf "creating cipher")
  else match nonce with
       | None => inr (Errorf "generating nonce")
       | Some n => inl (n ++ Seal key n plaintext)
       end.

Definition MasterKey_Decrypt (key ciphertext : list Z) : list Z + gerror :=
  if negb (valid_key key) then inr (Errorf "creating cipher")
  else if len ciphertext <? NonceSize then inr (Errorf "ciphertext too short")
  else match Open key (take (Z.to_nat NonceSize) ciphertext) (drop (Z.to_nat NonceSize) ciphertext) with
       | None => inr (Errorf "decrypting")
       | Some plaintext => inl plaintext
       end.

(** [EncryptWithPassphrase] and [DecryptWithPassphrase]; [IDKey] is Argon2id with the
    parameters of the code.  Both random reads may fail. *)
Context (IDKey : list Z → list Z → list Z).

Definition EncryptWithPassphrase (salt nonce : option (list Z)) (plaintext passphrase : list Z) : list Z + gerror :=
  match salt with
  | None => inr (Errorf "generating salt")
  | Some salt =>
      let key := IDKey passphrase salt in
      if negb (valid_key key) then inr (Errorf "creating cipher")
      else match nonce with
           | None => inr (Errorf "generating nonce")
           | Some nonce => inl (salt ++ nonce ++ Seal key nonce plaintext)
           end
  end.

Definition DecryptWithPassphrase (ciphertext passphrase : list Z) : list Z + gerror :=
  if len ciphertext <? 28 then inr (Errorf "ciphertext too short")
  else
    let salt := take 16 ciphertext in
    let nonce := take 12 (drop 16 ciphertext) in
    let key := IDKey passphrase salt in
    if negb (valid_key key) then inr (Errorf "creating cipher")
    else match Open key nonce (drop 28 ciphertext) with
         | None => inr (Errorf "decrypting (wrong passphrase?)")
         | Some plaintext => inl plaintext
         end.

Lemma master_key_roundtrip key nonce plaintext c :
  fresh_nonce nonce → bytes_ok plaintext → MasterKey_Encrypt key nonce plaintext = inl c →
  MasterKey_Decrypt key c = inl plaintext ∧ bytes_ok c.
Proof using Type*.
  unfold MasterKey_Encrypt, MasterKey_Decrypt. intros Hn Hp. destruct (valid_key key); [|done]. cbn [negb].
  destruct nonce as [n|]; [|done]. intros [= <-]. destruct (Hn n eq_refl) as [Hl Hb].
  assert (Z.to_nat NonceSize = length n) as El by (unfold len in Hl; lia).
  split; [|by apply Forall_app_2, Seal_bytes].
  destruct (Z.ltb_spec (len (n ++ Seal key n plaintext)) NonceSize) as [Hlt|_].
  { unfold len in Hlt, Hl. rewrite length_app in Hlt. lia. }
  by rewrite El, take_app_length, drop_app_length, Open_Seal.
Qed.

Lemma passphrase_roundtrip salt nonce plaintext passphrase c :
  (∀ x, salt = Some x → len x = 16) → fresh_nonce nonce → bytes_ok plaintext →
  EncryptWithPassphrase salt nonce plaintext passphrase = inl c → DecryptWithPassphrase c passphrase = inl plaintext.
Proof.
  unfold EncryptWithPassphrase, DecryptWithPassphrase. intros Hs Hn Hp. destruct salt as [x|]; [|done].
  specialize (Hs x eq_refl). destruct (valid_key (IDKey passphrase x)) eqn:Ev; [|done]. cbn [negb].
  destruct nonce as [n|]; [|done]. intros [= <-]. destruct (Hn n eq_refl) as [Hl Hb]. unfold NonceSize in Hl.
  assert (length x = 16%nat ∧ length n = 12%nat) as [Lx Ln] by (unfold len in *; lia).
  destruct (Z.ltb_spec (len (x ++ n ++ Seal (IDKey passphrase x) n plaintext)) 28) as [Hlt|_].
  { unfold len in Hlt. rewrite !length_app in Hlt. lia. }
  assert (∀ l : list Z, take 16 (x ++ l) = x ∧ drop 16 (x ++ l) = l) as Hx.
  { intros l. rewrite <- Lx. by rewrite take_app_length, drop_app_length. }
  assert (∀ l : list Z, take 12 (n ++ l) = n) as Hn' by (intros l; rewrite <- Ln; apply take_app_length).
  destruct (Hx (n ++ Seal (IDKey passphrase x) n plaintext)) as [-> ->]. rewrite Ev, Hn'. cbn [negb].
  assert (drop 28 (x ++ n ++ Seal (IDKey passphrase x) n plaintext) = Seal (IDKey passphrase x) n plaintext) as ->.
  { change 28%nat with (16 + 12)%nat. rewrite <- drop_drop, (proj2 (Hx _)), <- Ln. apply drop_app_length. }
  by rewrite Open_Seal.
Qed.

End sealing.

(** * Random strings *)

Definition charset : list Ascii.ascii :=
  String.list_ascii_of_string "abcdefghijklmnopqrstuvwxyzABCDEFGHIJKLMNOPQRSTUVWXYZ0123456789!@#$%^&*".

(** [charset[int(b) % len(charset)]] *)
Definition pick (l : list Ascii.ascii) (n : Z) : Ascii.ascii := nth (Z.to_nat (n mod len l)) l Ascii.zero.

(** [GenerateRandomPassword] and [GenerateSecureToken] from the bytes the generator gives. *)
Definition GenerateRandomPassword (random : option (list Z)) : string + gerror :=
  match random with
  | None => inr (Errorf "generating random bytes")
  | Some b => inl (String.string_of_list_ascii
      ((λ n, pick charset n) <$> b))
  end.

Definition GenerateSecureToken (random : option (list Z)) : string + gerror :=
  match random with
  | None => inr (Errorf "generating secure token")
  | Some b => inl (hex_encode b)
  end.

Lemma pick_in l n : 0 < len l → pick l n ∈ l.
Proof.
  unfold pick. intros Hl. apply list_elem_of_In, nth_In. pose proof (Z.mod_pos_bound n (len l) Hl). unfold len in *. lia.
Qed.

Lemma password_chars random p :
  GenerateRandomPassword random = inl p → Forall (λ c, c ∈ charset) (String.list_ascii_of_string p).
Proof.
  destruct random as [b|]; [|done]. intros [= <-]. rewrite String.list_ascii_of_string_of_list_ascii.
  apply Forall_fmap, Forall_forall. intros n _. unfold compose. by apply pick_in.
Qed.

(** * The key management service, as the rest of the program sees it *)

(** What a service encrypts now, and decrypts: both may fail. *)
Record KMS := mkKMS { EncryptString : string → string + gerror; DecryptString : string → string + gerror }.

(** What the clients rely on: what was encrypted can be decrypted, and is not empty. *)
Definition undoes (k : KMS) : Prop :=
  ∀ x e, EncryptString k x = inl e → e ≠ "" ∧ DecryptString k e = inl x.
