(* ===== verification/KeyManagement.v ===== *)
(** The key management service ([src/internal/security/kms.go]).

    The service keeps keys as objects: one map of the store holds them with their material
    encrypted by the master key; the service has a cache of objects by identifier and a
    pointer to the current one, which may be an object of the cache or another of the same
    identifier.  The state is the store, a heap of key objects, the cache and the pointer.
    An operation maps the state to the next one and a [result]; what the store queues
    is that of [MemSecurity].  Random bytes and identifiers are arguments. *)

From S2P Require Import GoStrings StoreBase ServiceBase Crypto SecurityModels MemSecurity.

#[local] Open Scope string_scope.
#[local] Open Scope list_scope.
#[local] Open Scope Z_scope.

(** A key as the service has it, with its material. *)
Module Key.
Record Key := mk {
  ID : string;
  Version : Z;
  KeyMaterial : list Z;
  Algorithm : string;
  Status : string;
  CreatedAt : time;
  ActivatedAt : option time;
  DeactivatedAt : option time;
  ScheduledDeletionAt : option time;
  DeletionCancelledAt : option time
}.
End Key.
Abbreviation Key := Key.Key.

Module Kms.

Record State := mkState {
  store : Security.State;
  heap : gmap nat Key;
  cache : gmap string nat;
  currentKey : option nat
}.

(** [strings.SplitN(versioned, ":", 4)], if it has four parts. *)
Definition split4 (s : string) : option (string * string * string * string) :=
  match cut colon s with
  | (a, Some s1) =>
      match cut colon s1 with
      | (b, Some s2) => match cut colon s2 with (c, Some d) => Some (a, b, c, d) | (_, None) => None end
      | (_, None) => None
      end
  | (_, None) => None
  end.

(** [IsVersionedCiphertext] *)
Definition IsVersionedCiphertext (s : string) : bool := HasPrefix s "v1:".

Section kms.
Context `{AEAD, MapRange} (masterKey : list Z).

(** * Conversions *)

Definition toStorageKey (nonce : option (list Z)) (key : Key) : EncryptionKey + gerror :=
  match MasterKey_Encrypt masterKey nonce key.(Key.KeyMaterial) with
  | inr e => inr (wrapf "encrypt key material" e)
  | inl encrypted =>
      inl (EncryptionKey.mk key.(Key.ID) key.(Key.Version) encrypted key.(Key.Algorithm) key.(Key.Status)
             key.(Key.CreatedAt) key.(Key.ActivatedAt) key.(Key.DeactivatedAt) key.(Key.ScheduledDeletionAt)
             key.(Key.DeletionCancelledAt))
  end.

Definition fromStorageKey (sk : EncryptionKey) : Key + gerror :=
  match MasterKey_Decrypt masterKey sk.(EncryptionKey.KeyMaterialEnc) with
  | inr e => inr (wrapf ("decrypt key material for key " +:+ sk.(EncryptionKey.ID)) e)
  | inl decrypted =>
      inl (Key.mk sk.(EncryptionKey.ID) sk.(EncryptionKey.Version) decrypted sk.(EncryptionKey.Algorithm)
             sk.(EncryptionKey.Status) sk.(EncryptionKey.CreatedAt) sk.(EncryptionKey.ActivatedAt)
             sk.(EncryptionKey.DeactivatedAt) sk.(EncryptionKey.ScheduledDeletionAt)
             sk.(EncryptionKey.DeletionCancelledAt))
  end.

(** * Objects *)

(** A new object in the cache. *)
Definition alloc (key : Key) (k : State) : State * nat :=
  let l := fresh (dom (heap k)) in
  ({| k with heap := <[l := key]> (heap k); cache := <[key.(Key.ID) := l]> (cache k) |}, l).

(** A write through a pointer. *)
Definition modify (l : nat) (f : Key → Key) (k : State) : State := {| k with heap := alter f l (heap k) |}.

(** [cacheKey] of an object that exists. *)
Definition cacheKey (l : nat) (k : State) : State :=
  match heap k !! l with
  | Some key => {| k with cache := <[key.(Key.ID) := l]> (cache k) |}
  | None => k
  end.

Definition invalidateCache (k : State) : State := {| k with cache := ∅ |}.

(** A store method, its result and the new store. *)
Definition on_store {A} (f : Security.State → Outcome Security.State A) (k : State) : State * result A :=
  let o := f (store k) in ({| k with store := st o |}, ret o).

(** The pointer [getKey] finds: in the cache, or loaded from the store. *)
Definition getKey (keyID : string) (k : State) : State * result nat :=
  match cache k !! keyID with
  | Some l => (k, Ok l)
  | None =>
      match Security.GetEncryptionKey keyID (store k) with
      | Err ErrNotFound => (k, Err (Errorf ("key not found: " +:+ keyID)))
      | Err e => (k, Err (wrapf "load key" e))
      | Panic => (k, Panic)
      | Ok sk =>
          match fromStorageKey sk with
          | inr e => (k, Err (wrapf "decrypt key material" e))
          | inl key => let '(k', l) := alloc key k in (k', Ok l)
          end
      end
  end.

(** * Starting *)

Definition loadCurrentKey (k : State) : State * result unit :=
  match Security.GetCurrentEncryptionKey (store k) with
  | Err ErrNotFound => (k, Ok tt)
  | Err e => (k, Err (wrapf "load current key" e))
  | Panic => (k, Panic)
  | Ok sk =>
      match fromStorageKey sk with
      | inr e => (k, Err (wrapf "decrypt current key material" e))
      | inl key => let '(k', l) := alloc key k in ({| k' with currentKey := Some l |}, Ok tt)
      end
  end.

(** [NewKMS] with a master key. *)
Definition NewKMS (s : Security.State) : State * result unit := loadCurrentKey (mkState s ∅ ∅ None).

(** The version after those of the store. *)
Definition next_version (keys : list EncryptionKey) : Z :=
  foldl (λ version key, if version <=? key.(EncryptionKey.Version) then wrap64 (key.(EncryptionKey.Version) + 1)
                        else version) 1 keys.

Definition generateKey (now : time) (xid : string) (random : option (list Z)) (k : State) : Key + gerror :=
  match random with
  | None => inr (Errorf "generate key material")
  | Some keyMaterial =>
      inl (Key.mk xid (next_version (range_values (Security.encryptionKeys (store k)))) keyMaterial "AES-256-GCM"
             KeyStatusPending now None None None None)
  end.

Definition activated (now : time) (key : Key) : Key :=
  {| key with Key.Status := KeyStatusActive; Key.ActivatedAt := Some now |}.

(** The new key becomes the current one. *)
Definition install (key : Key) (k : State) : State :=
  let '(k', l) := alloc key k in {| k' with currentKey := Some l |}.

Definition saveKey (nonce : option (list Z)) (now : time) (key : Key) (k : State) : State * result unit :=
  match toStorageKey nonce key with
  | inr e => (k, Err (wrapf "convert key for storage" e))
  | inl sk => on_store (Security.SaveEncryptionKey sk now) k
  end.

Definition Initialize (now : time) (xid : string) (random nonce : option (list Z)) (k : State) : State * result unit :=
  match currentKey k with
  | Some _ => (k, Ok tt)
  | None =>
      match generateKey now xid random k with
      | inr e => (k, Err (wrapf "generate initial key" e))
      | inl key =>
          let key := activated now key in
          match saveKey nonce now key k with
          | (k', Err e) => (k', Err (wrapf "save initial key" e))
          | (k', Panic) => (k', Panic)
          | (k', Ok _) => (install key k', Ok tt)
          end
      end
  end.

(** * Encryption *)

Definition Encrypt (nonce : option (list Z)) (plaintext : list Z) (k : State) : result string :=
  match currentKey k with
  | None => Err (Errorf "no active encryption key")
  | Some l =>
      match heap k !! l with
      | None => Panic
      | Some key =>
          if negb (bool_decide (key.(Key.Status) = KeyStatusActive)) then Err (Errorf "current key is not active")
          else if negb (valid_key key.(Key.KeyMaterial)) then Err (Errorf "create cipher")
          else match nonce with
               | None => Err (Errorf "generate nonce")
               | Some n =>
                   let ciphertext := Seal key.(Key.KeyMaterial) n plaintext in
                   Ok ("v1:" +:+ key.(Key.ID) +:+ ":" +:+ base64_encode n +:+ ":" +:+ base64_encode ciphertext)
               end
      end
  end.

(** The end of [Decrypt], with the key; [gcm.Open] panics on a nonce of another length. *)
Definition open_with (keyID : string) (key : Key) (nonce ciphertext : list Z) : result (list Z) :=
  if bool_decide (key.(Key.Status) = KeyStatusDeleted) then Err (Errorf ("key " +:+ keyID +:+ " has been deleted"))
  else if negb (valid_key key.(Key.KeyMaterial)) then Err (Errorf "create cipher")
  else if negb (len nonce =? NonceSize) then Panic
  else match Open key.(Key.KeyMaterial) nonce ciphertext with
       | None => Err (Errorf "decrypt")
       | Some plaintext => Ok plaintext
       end.

Definition Decrypt (versioned : string) (k : State) : State * result (list Z) :=
  match split4 versioned with
  | None => (k, Err (Errorf "invalid ciphertext format"))
  | Some (version, keyID, nonceB64, ciphertextB64) =>
      if negb (bool_decide (version = "v1")) then (k, Err (Errorf ("unsupported ciphertext version: " +:+ version)))
      else match base64_decode nonceB64 with
           | None => (k, Err (Errorf "decode nonce"))
           | Some nonce =>
               match base64_decode ciphertextB64 with
               | None => (k, Err (Errorf "decode ciphertext"))
               | Some ciphertext =>
                   match getKey keyID k with
                   | (k', Err e) => (k', Err (wrapf ("get key " +:+ keyID) e))
                   | (k', Panic) => (k', Panic)
                   | (k', Ok l) =>
                       (k', match heap k' !! l with
                            | None => Panic
                            | Some key => open_with keyID key nonce ciphertext
                            end)
                   end
               end
           end
  end.

Definition ReEncrypt (nonce : option (list Z)) (versioned : string) (k : State) : State * result string :=
  match Decrypt versioned k with
  | (k', Err e) => (k', Err (wrapf "decrypt" e))
  | (k', Panic) => (k', Panic)
  | (k', Ok plaintext) => (k', Encrypt nonce plaintext k')
  end.

(** [EncryptString] and [DecryptString] *)
Definition EncryptString (nonce : option (list Z)) (plaintext : string) (k : State) : result string :=
  Encrypt nonce (bytes_of plaintext) k.

Definition DecryptString (versioned : string) (k : State) : State * result string :=
  let '(k', r) := Decrypt versioned k in
  (k', match r with Ok p => Ok (string_of p) | Err e => Err e | Panic => Panic end).

(** * The life of a key *)

Definition deactivated (now : time) (key : Key) : Key :=
  {| key with Key.Status := KeyStatusInactive; Key.DeactivatedAt := Some now |}.

(** The current key goes first, in the store and in its object; then the new key is saved. *)
Definition RotateKey (now : time) (xid : string) (random nonce : option (list Z)) (k : State) : State * result Key :=
  match generateKey now xid random k with
  | inr e => (k, Err (wrapf "generate new key" e))
  | inl newKey =>
      let newKey := activated now newKey in
      let retire :=
        match currentKey k with
        | None => (k, Ok tt)
        | Some l =>
            match heap k !! l with
            | None => (k, Panic)
            | Some cur =>
                match on_store (Security.UpdateEncryptionKeyStatus cur.(Key.ID) KeyStatusInactive None now) k with
                | (k1, Ok _) => (modify l (deactivated now) k1, Ok tt)
                | (k1, Err e) => (k1, Err (wrapf "deactivate current key" e))
                | (k1, Panic) => (k1, Panic)
                end
            end
        end in
      match retire with
      | (k1, Err e) => (k1, Err e)
      | (k1, Panic) => (k1, Panic)
      | (k1, Ok _) =>
          match saveKey nonce now newKey k1 with
          | (k2, Err e) => (k2, Err (wrapf "save new key" e))
          | (k2, Panic) => (k2, Panic)
          | (k2, Ok _) => (install newKey k2, Ok newKey)
          end
      end
  end.

(** What [ScheduleKeyDeletion], [CancelKeyDeletion] and [DeleteKeyNow] share: find the
    key, test it, change its status in the store and then its object, and cache that. *)
Definition change_key (keyID : string) (test : Key → option (result unit)) (status : string) (at_ : option time)
    (now : time) (prefix : string) (f : Key → Key) (k : State) : State * result unit :=
  match getKey keyID k with
  | (k1, Err e) => (k1, Err e)
  | (k1, Panic) => (k1, Panic)
  | (k1, Ok l) =>
      match heap k1 !! l with
      | None => (k1, Panic)
      | Some key =>
          match test key with
          | Some r => (k1, r)
          | None =>
              match on_store (Security.UpdateEncryptionKeyStatus keyID status at_ now) k1 with
              | (k2, Ok _) => (cacheKey l (modify l f k2), Ok tt)
              | (k2, Err e) => (k2, Err (wrapf prefix e))
              | (k2, Panic) => (k2, Panic)
              end
          end
      end
  end.

Definition ScheduleKeyDeletion (keyID : string) (gracePeriod : Z) (now : time) : State → State * result unit :=
  let scheduledTime := now + gracePeriod in
  change_key keyID
    (λ key, if bool_decide (key.(Key.Status) = KeyStatusActive) then Some (Err (Errorf "cannot schedule deletion of active key"))
            else if bool_decide (key.(Key.Status) = KeyStatusScheduled) then Some (Err (Errorf "key is already scheduled for deletion"))
            else if bool_decide (key.(Key.Status) = KeyStatusDeleted) then Some (Err (Errorf "key is already deleted"))
            else None)
    KeyStatusScheduled (Some scheduledTime) now "schedule deletion"
    (λ key, {| key with Key.Status := KeyStatusScheduled; Key.ScheduledDeletionAt := Some scheduledTime;
                        Key.DeletionCancelledAt := None |}).

Definition CancelKeyDeletion (keyID : string) (now : time) : State → State * result unit :=
  change_key keyID
    (λ key, if negb (bool_decide (key.(Key.Status) = KeyStatusScheduled)) then Some (Err (Errorf "key is not scheduled for deletion"))
            else None)
    KeyStatusInactive None now "cancel deletion"
    (λ key, {| key with Key.Status := KeyStatusInactive; Key.ScheduledDeletionAt := None;
                        Key.DeletionCancelledAt := Some now |}).

Definition DeleteKeyNow (keyID : string) (now : time) : State → State * result unit :=
  change_key keyID
    (λ key, if bool_decide (key.(Key.Status) = KeyStatusActive) then Some (Err (Errorf "cannot delete active key"))
            else if bool_decide (key.(Key.Status) = KeyStatusDeleted) then Some (Ok tt)
            else None)
    KeyStatusDeleted None now "delete key"
    (λ key, {| key with Key.Status := KeyStatusDeleted |}).

Definition due (now : time) (key : EncryptionKey) : bool :=
  bool_decide (key.(EncryptionKey.Status) = KeyStatusScheduled) &&
  match key.(EncryptionKey.ScheduledDeletionAt) with Some t => Before t now | None => false end.

(** The loop over the keys of the store: an update that fails is passed over. *)
Definition delete_step (now : time) : Security.State * Z → EncryptionKey → Security.State * Z :=
  λ '(s, count) key,
    if due now key then
      let o := Security.UpdateEncryptionKeyStatus key.(EncryptionKey.ID) KeyStatusDeleted None now s in
      match ret o with Ok _ => (st o, count + 1) | _ => (s, count) end
    else (s, count).

Definition delete_due (now : time) (keys : list EncryptionKey) (s : Security.State) : Security.State * Z :=
  foldl (delete_step now) (s, 0) keys.

Definition ProcessScheduledDeletions (now : time) (k : State) : State * result Z :=
  let '(s, count) := delete_due now (range_values (Security.encryptionKeys (store k))) (store k) in
  let k := {| k with store := s |} in
  (if 0 <? count then invalidateCache k else k, Ok count).

Definition ListKeys (k : State) : result (list Key) :=
  Ok (omap (λ sk, match fromStorageKey sk with inl key => Some key | inr _ => None end)
        (range_values (Security.encryptionKeys (store k)))).

Definition GetCurrentKey (k : State) : option Key := currentKey k ≫= λ l, heap k !! l.

(** * Runs *)

Inductive call :=
| CInitialize (now : time) (xid : string) (random nonce : option (list Z))
| CDecrypt (versioned : string)
| CRotateKey (now : time) (xid : string) (random nonce : option (list Z))
| CScheduleKeyDeletion (keyID : string) (gracePeriod : Z) (now : time)
| CCancelKeyDeletion (keyID : string) (now : time)
| CDeleteKeyNow (keyID : string) (now : time)
| CProcessScheduledDeletions (now : time).

Definition run (c : call) (k : State) : State :=
  match c with
  | CInitialize now xid random nonce => (Initialize now xid random nonce k).1
  | CDecrypt versioned => (Decrypt versioned k).1
  | CRotateKey now xid random nonce => (RotateKey now xid random nonce k).1
  | CScheduleKeyDeletion keyID grace now => (ScheduleKeyDeletion keyID grace now k).1
  | CCancelKeyDeletion keyID now => (CancelKeyDeletion keyID now k).1
  | CDeleteKeyNow keyID now => (DeleteKeyNow keyID now k).1
  | CProcessScheduledDeletions now => (ProcessScheduledDeletions now k).1
  end.

(** What the random generators give: 32 bytes of key, a nonce, an identifier that is new
    and has no colon. *)
Definition randomness (xid : string) (random nonce : option (list Z)) (k : State) : Prop :=
  Security.encryptionKeys (store k) !! xid = None ∧ free_of colon xid = true ∧
  (∀ r, random = Some r → len r = 32 ∧ bytes_ok r) ∧ fresh_nonce nonce.

Definition allowed (c : call) (k : State) : Prop :=
  match c with
  | CInitialize _ xid random nonce | CRotateKey _ xid random nonce => randomness xid random nonce k
  | _ => True
  end.

(** * Invariant *)

Definition keys (k : State) : gmap string EncryptionKey := Security.encryptionKeys (store k).

(** The object has the material of the key of the store with its identifier. *)
Definition backed (k : State) (key : Key) : Prop :=
  ∃ sk, keys k !! key.(Key.ID) = Some sk ∧
    MasterKey_Decrypt masterKey sk.(EncryptionKey.KeyMaterialEnc) = inl key.(Key.KeyMaterial).

(** A key of the store that can be used. *)
Definition usable (id : string) (sk : EncryptionKey) : Prop :=
  sk.(EncryptionKey.ID) = id ∧ free_of colon id = true ∧
  ∃ m, MasterKey_Decrypt masterKey sk.(EncryptionKey.KeyMaterialEnc) = inl m ∧ len m = 32 ∧ bytes_ok m.

(** The only active key of the store is the current one. *)
Definition one_active (k : State) : Prop :=
  ∀ id sk, keys k !! id = Some sk → sk.(EncryptionKey.Status) = KeyStatusActive →
    ∃ l key, currentKey k = Some l ∧ heap k !! l = Some key ∧ key.(Key.ID) = id.

Record wf (k : State) : Prop := {
  wf_keys : ∀ id sk, keys k !! id = Some sk → usable id sk;
  wf_heap : ∀ l key, heap k !! l = Some key → backed k key;
  wf_cache : ∀ id l, cache k !! id = Some l → ∃ key, heap k !! l = Some key ∧ key.(Key.ID) = id;
  wf_current : ∀ l, currentKey k = Some l → is_Some (heap k !! l);
  wf_active : one_active k
}.

(** Keys stay in the store with their material. *)
Definition grows (k k' : State) : Prop :=
  ∀ id sk, keys k !! id = Some sk →
    ∃ sk', keys k' !! id = Some sk' ∧ sk'.(EncryptionKey.KeyMaterialEnc) = sk.(EncryptionKey.KeyMaterialEnc).

#[global] Instance grows_refl : Reflexive grows.
Proof. intros k id sk Hk. by exists sk. Qed.

#[global] Instance grows_trans : Transitive grows.
Proof.
  intros k1 k2 k3 H1 H2 id sk Hk. destruct (H1 id sk Hk) as (sk2 & Hk2 & E2).
  destruct (H2 id sk2 Hk2) as (sk3 & Hk3 & E3). exists sk3. split; [done|congruence].
Qed.

Lemma backed_grows k k' key : grows k k' → backed k key → backed k' key.
Proof.
  intros Hg (sk & Hk & Hm). destruct (Hg _ _ Hk) as (sk' & Hk' & E). exists sk'. split; [done|]. by rewrite E.
Qed.

Lemma fromStorageKey_usable id sk :
  usable id sk → ∃ key, fromStorageKey sk = inl key ∧ key.(Key.ID) = id ∧ key.(Key.Status) = sk.(EncryptionKey.Status) ∧
    MasterKey_Decrypt masterKey sk.(EncryptionKey.KeyMaterialEnc) = inl key.(Key.KeyMaterial).
Proof.
  intros (Hid & _ & m & Hm & _). unfold fromStorageKey. rewrite Hm. eexists. split; [done|]. by split_and!.
Qed.

(** ** Steps *)

(** What does not touch the store: the objects that exist stay as they are. *)
Definition extends (k k' : State) : Prop :=
  store k' = store k ∧ currentKey k' = currentKey k ∧
  ∀ l key, heap k !! l = Some key → heap k' !! l = Some key.

Lemma extends_grows k k' : extends k k' → grows k k'.
Proof. intros (Hs & _) id sk Hk. exists sk. unfold keys in *. by rewrite Hs. Qed.

Lemma one_active_extends k k' : extends k k' → one_active k → one_active k'.
Proof.
  intros (Hs & Hc & Hh) Ha id sk Hk Hst. unfold keys in *. rewrite Hs in Hk.
  destruct (Ha id sk Hk Hst) as (l & key & Hl & Hkey & Hid). exists l, key. rewrite Hc. auto.
Qed.

Lemma alloc_spec key k :
  wf k → backed k key →
  wf (alloc key k).1 ∧ extends k (alloc key k).1 ∧ heap (alloc key k).1 !! (alloc key k).2 = Some key ∧
  heap k !! (alloc key k).2 = None.
Proof.
  intros Hw Hb. unfold alloc. set (l := fresh (dom (heap k))). cbn [fst snd].
  assert (heap k !! l = None) as Hl by (apply not_elem_of_dom, is_fresh).
  assert (extends k {| k with heap := <[l := key]> (heap k); cache := <[key.(Key.ID) := l]> (cache k) |}) as He.
  { split_and!; [done..|]. intros l' key' Hl'. cbn. rewrite lookup_insert_ne; [done|]. congruence. }
  split_and!; [|done|by cbn; rewrite lookup_insert_eq|done].
  split; cbn.
  - apply Hw.
  - intros l' key' Hl'. apply (backed_grows k); [by apply extends_grows|].
    apply lookup_insert_Some in Hl' as [[_ <-]|[_ Hl']]; [done|by eapply wf_heap].
  - intros id l' Hc. apply lookup_insert_Some in Hc as [[<- <-]|[_ Hc]].
    + exists key. by rewrite lookup_insert_eq.
    + destruct (wf_cache k Hw id l' Hc) as (key' & Hk' & Hid). exists key'. split; [|done]. by apply He.
  - intros l' Hc. destruct (wf_current k Hw l' Hc) as [key' Hk']. exists key'. by apply He.
  - eapply one_active_extends, wf_active; done.
Qed.

Lemma getKey_spec id k :
  wf k →
  let '(k', r) := getKey id k in
  wf k' ∧ extends k k' ∧
  match r with
  | Ok l => ∃ key, heap k' !! l = Some key ∧ key.(Key.ID) = id ∧ is_Some (keys k !! id) ∧
              (cache k !! id = Some l ∨ cache k !! id = None ∧ heap k !! l = None ∧
                ∃ sk, keys k !! id = Some sk ∧ key.(Key.Status) = sk.(EncryptionKey.Status))
  | Err _ => keys k !! id = None
  | Panic => False
  end.
Proof.
  intros Hw. unfold getKey. destruct (cache k !! id) as [l|] eqn:Ec.
  - split_and!; [done|done..|]. destruct (wf_cache k Hw id l Ec) as (key & Hk & Hid). exists key.
    split_and!; [done..| |by left]. destruct (wf_heap k Hw l key Hk) as (sk & Hsk & _). exists sk. by rewrite <- Hid.
  - unfold Security.GetEncryptionKey, Security.get. fold (keys k). destruct (keys k !! id) as [sk|] eqn:Ek; [|done].
    destruct (fromStorageKey_usable id sk) as (key & -> & Hid & Hst & Hm); [by apply (wf_keys k Hw)|].
    destruct (alloc_spec key k Hw) as (Hw' & He & Hl & Hn); [exists sk; by rewrite Hid|].
    destruct (alloc key k) as [k' l]. cbn [fst snd] in *. split_and!; [done..|].
    exists key. split_and!; [done..|]. right. split_and!; [done..|]. by exists sk.
Qed.

(** A write through a pointer that keeps identifier and material. *)
Lemma modify_wf l f k :
  (∀ key, (f key).(Key.ID) = key.(Key.ID) ∧ (f key).(Key.KeyMaterial) = key.(Key.KeyMaterial)) →
  wf k → wf (modify l f k) ∧ grows k (modify l f k).
Proof.
  intros Hf Hw.
  assert (∀ l' key, heap k !! l' = Some key → ∃ key', heap (modify l f k) !! l' = Some key' ∧ key'.(Key.ID) = key.(Key.ID)) as Hm.
  { intros l' key Hk. unfold modify. cbn. destruct (decide (l = l')) as [->|Hne].
    - exists (f key). rewrite lookup_alter_eq, Hk. split; [done|apply Hf].
    - exists key. by rewrite lookup_alter_ne. }
  split; [|intros id sk Hk; by exists sk]. split.
  - apply Hw.
  - intros l' key Hk. unfold modify in Hk. cbn in Hk. apply lookup_alter_Some in Hk.
    destruct Hk as [(-> & key0 & Hk & ->)|[_ Hk]]; [|by eapply (wf_heap k)].
    destruct (wf_heap k Hw _ _ Hk) as (sk & Hsk & Hd). exists sk. destruct (Hf key0) as [-> ->]. done.
  - intros id l' Hc. destruct (wf_cache k Hw id l' Hc) as (key & Hk & Hid).
    destruct (Hm _ _ Hk) as (key' & Hk' & E). exists key'. split; [done|congruence].
  - intros l' Hc. destruct (wf_current k Hw l' Hc) as [key Hk]. destruct (Hm _ _ Hk) as (key' & Hk' & _). by exists key'.
  - intros id sk Hk Hst. destruct (wf_active k Hw id sk Hk Hst) as (l' & key & Hl & Hkey & Hid).
    destruct (Hm _ _ Hkey) as (key' & Hk' & E). exists l', key'. split_and!; [done..|congruence].
Qed.

Lemma cacheKey_wf l k : wf k → wf (cacheKey l k) ∧ extends k (cacheKey l k).
Proof.
  intros Hw. unfold cacheKey. destruct (heap k !! l) as [key|] eqn:E; [|done]. split; [|done]. split; try apply Hw.
  intros id l' Hc. cbn in Hc. apply lookup_insert_Some in Hc as [[<- <-]|[_ Hc]]; [by exists key|]. by apply (wf_cache k).
Qed.

Lemma invalidateCache_wf k : wf k → wf (invalidateCache k) ∧ extends k (invalidateCache k).
Proof. intros Hw. split; [|done]. split; try apply Hw. intros id l Hc. cbn in Hc. by rewrite lookup_empty in Hc. Qed.

Lemma key_status_spec status at_ now x :
  EncryptionKey.ID (Security.key_status status at_ now x) = EncryptionKey.ID x ∧
  EncryptionKey.KeyMaterialEnc (Security.key_status status at_ now x) = EncryptionKey.KeyMaterialEnc x ∧
  EncryptionKey.Status (Security.key_status status at_ now x) = status.
Proof. unfold Security.key_status. by repeat case_bool_decide. Qed.

(** A new status, other than active, for a key of the store. *)
Lemma update_status_wf id status at_ now k sk :
  wf k → keys k !! id = Some sk → status ≠ KeyStatusActive →
  let '(k', r) := on_store (Security.UpdateEncryptionKeyStatus id status at_ now) k in
  r = Ok tt ∧ wf k' ∧ grows k k' ∧ heap k' = heap k ∧ cache k' = cache k ∧ currentKey k' = currentKey k ∧
  keys k' = <[id := Security.key_status status at_ now sk]> (keys k).
Proof.
  intros Hw Hk Hst. unfold on_store, Security.UpdateEncryptionKeyStatus. fold (keys k). rewrite Hk. cbn.
  pose proof (key_status_spec status at_ now) as Hks.
  set (k' := mkState _ _ _ _). assert (keys k' = <[id := Security.key_status status at_ now sk]> (keys k)) as Ek by done.
  assert (grows k k') as Hg.
  { intros id' sk' Hk'. rewrite Ek. destruct (decide (id' = id)) as [->|Hne].
    - rewrite lookup_insert_eq. eexists. split; [done|]. assert (sk' = sk) as -> by congruence. apply Hks.
    - rewrite lookup_insert_ne by done. by exists sk'. }
  split; [done|]. split; [|by split_and!]. split.
  - intros id' sk' Hk'. rewrite Ek in Hk'. apply lookup_insert_Some in Hk' as [[<- <-]|[_ Hk']]; [|by apply (wf_keys k)].
    destruct (wf_keys k Hw _ _ Hk) as (Hid & Hc & Hm). destruct (Hks sk) as (E1 & E2 & _). unfold usable. by rewrite E1, E2.
  - intros l key Hl. eapply backed_grows; [exact Hg|]. by eapply (wf_heap k).
  - apply Hw.
  - apply Hw.
  - intros id' sk' Hk' Ha. rewrite Ek in Hk'. apply lookup_insert_Some in Hk' as [[<- <-]|[_ Hk']].
    + destruct (Hks sk) as (_ & _ & E). congruence.
    + by apply (wf_active k Hw id' sk').
Qed.

(** ** Operations *)

Lemma change_key_wf keyID test status at_ now prefix f k :
  (∀ key, (f key).(Key.ID) = key.(Key.ID) ∧ (f key).(Key.KeyMaterial) = key.(Key.KeyMaterial)) →
  status ≠ KeyStatusActive → wf k →
  wf (change_key keyID test status at_ now prefix f k).1 ∧ grows k (change_key keyID test status at_ now prefix f k).1.
Proof.
  intros Hf Hst Hw. unfold change_key. pose proof (getKey_spec keyID k Hw) as Hg.
  destruct (getKey keyID k) as [k1 r]. destruct Hg as (Hw1 & He & Hr). apply extends_grows in He as Hg1.
  destruct r as [l|e|]; [|by split..]. destruct Hr as (key & -> & Hid & [sk Hsk] & _).
  destruct (test key); [by split|].
  assert (keys k1 !! keyID = Some sk) as Hsk1 by (destruct He as [Es _]; unfold keys in *; by rewrite Es).
  pose proof (update_status_wf keyID status at_ now k1 sk Hw1 Hsk1 Hst) as Hu.
  destruct (on_store _ k1) as [k2 r]. destruct Hu as (-> & Hw2 & Hg2 & _). cbn [fst].
  destruct (modify_wf l f k2 Hf Hw2) as [Hw3 Hg3]. destruct (cacheKey_wf l _ Hw3) as [Hw4 He4].
  split; [done|].
  transitivity k1; [done|]. transitivity k2; [done|]. transitivity (modify l f k2); [done|]. by apply extends_grows.
Qed.

Lemma delete_step_spec now s count key :
  delete_step now (s, count) key = (s, count) ∨
  ∃ m sk, Security.encryptionKeys s !! EncryptionKey.ID key = Some sk ∧ due now key = true ∧
    Security.encryptionKeys (delete_step now (s, count) key).1 =
      <[EncryptionKey.ID key := Security.key_status KeyStatusDeleted None now sk]> (Security.encryptionKeys s) ∧
    (delete_step now (s, count) key).2 = m.
Proof.
  unfold delete_step. destruct (due now key); [|by left]. unfold Security.UpdateEncryptionKeyStatus.
  destruct (Security.encryptionKeys s !! _) as [sk|]; [|by left]. right. exists (count + 1), sk. by split_and!.
Qed.

(** What a pass over the keys [l], of [L], does to the key [id]. *)
Lemma delete_due_from now (L l : list EncryptionKey) id : ∀ s count,
  (∀ x, x ∈ l → x ∈ L) →
  match Security.encryptionKeys s !! id with
  | None => Security.encryptionKeys (foldl (delete_step now) (s, count) l).1 !! id = None
  | Some sk => ∃ sk', Security.encryptionKeys (foldl (delete_step now) (s, count) l).1 !! id = Some sk' ∧
      sk'.(EncryptionKey.ID) = sk.(EncryptionKey.ID) ∧
      sk'.(EncryptionKey.KeyMaterialEnc) = sk.(EncryptionKey.KeyMaterialEnc) ∧
      (sk' = sk ∨ sk'.(EncryptionKey.Status) = KeyStatusDeleted ∧
         ∃ x, x ∈ L ∧ x.(EncryptionKey.ID) = id ∧ due now x = true)
  end.
Proof.
  induction l as [|key l IH]; intros s n HL.
  { cbn. destruct (_ !! id) as [sk|]; [|done]. exists sk. auto. }
  assert (∀ x, x ∈ l → x ∈ L) as HL' by (intros x Hx; apply HL; by right).
  cbn [foldl]. destruct (delete_step_spec now s n key) as [->|(m & sk & E & Ed & Es & _)]; [by apply IH|].
  destruct (delete_step now (s, n) key) as [s1 n1]. cbn in Es. specialize (IH s1 n1 HL'). rewrite Es in IH.
  destruct (decide (id = EncryptionKey.ID key)) as [->|Hne].
  - rewrite lookup_insert_eq in IH. rewrite E. destruct IH as (sk' & Hk' & H1 & H2 & H3). exists sk'.
    destruct (key_status_spec KeyStatusDeleted None now sk) as (E1 & E2 & E3).
    split_and!; [done|by rewrite H1|by rewrite H2|]. right. destruct H3 as [->|[? ?]]; (split; [done|]); [|done].
    exists key. split_and!; [apply HL; by left|done..].
  - by rewrite lookup_insert_ne in IH.
Qed.

Lemma delete_due_spec now l s id :
  match Security.encryptionKeys s !! id with
  | None => Security.encryptionKeys (delete_due now l s).1 !! id = None
  | Some sk => ∃ sk', Security.encryptionKeys (delete_due now l s).1 !! id = Some sk' ∧
      sk'.(EncryptionKey.ID) = sk.(EncryptionKey.ID) ∧
      sk'.(EncryptionKey.KeyMaterialEnc) = sk.(EncryptionKey.KeyMaterialEnc) ∧
      (sk' = sk ∨ sk'.(EncryptionKey.Status) = KeyStatusDeleted ∧
         ∃ x, x ∈ l ∧ x.(EncryptionKey.ID) = id ∧ due now x = true)
  end.
Proof. by apply delete_due_from. Qed.

Lemma process_deletions_wf now k :
  wf k → wf (ProcessScheduledDeletions now k).1 ∧ grows k (ProcessScheduledDeletions now k).1 ∧
  heap (ProcessScheduledDeletions now k).1 = heap k ∧ currentKey (ProcessScheduledDeletions now k).1 = currentKey k ∧
  cache (ProcessScheduledDeletions now k).1 ⊆ cache k ∧
  ∀ id sk, keys k !! id = Some sk → sk.(EncryptionKey.Status) ≠ KeyStatusScheduled →
    keys (ProcessScheduledDeletions now k).1 !! id = Some sk.
Proof.
  intros Hw. unfold ProcessScheduledDeletions.
  pose proof (delete_due_spec now (range_values (Security.encryptionKeys (store k))) (store k)) as Hd.
  destruct (delete_due _ _ _) as [s n]. cbn [fst] in Hd.
  set (k1 := {| k with store := s |}).
  assert (grows k k1) as Hg.
  { intros id sk Hk. unfold keys in *. specialize (Hd id). rewrite Hk in Hd. destruct Hd as (sk' & Hk' & _ & E & _).
    by exists sk'. }
  assert (∀ id sk', Security.encryptionKeys s !! id = Some sk' → ∃ sk, keys k !! id = Some sk ∧
    sk'.(EncryptionKey.ID) = sk.(EncryptionKey.ID) ∧ sk'.(EncryptionKey.KeyMaterialEnc) = sk.(EncryptionKey.KeyMaterialEnc) ∧
    (sk' = sk ∨ sk'.(EncryptionKey.Status) = KeyStatusDeleted)) as Hb.
  { intros id sk' Hk'. specialize (Hd id). unfold keys. destruct (Security.encryptionKeys (store k) !! id) as [sk|]; [|congruence].
    exists sk. destruct Hd as (x & ? & ? & ? & Hx). split; [done|]. assert (x = sk') as -> by congruence. naive_solver. }
  assert (wf k1) as Hw1.
  { split.
    - intros id sk' Hk'. destruct (Hb id sk' Hk') as (sk & Hk & E1 & E2 & _). destruct (wf_keys k Hw id sk Hk) as (? & ? & ?).
      unfold usable. by rewrite E1, E2.
    - intros l key Hl. eapply backed_grows; [exact Hg|]. by eapply (wf_heap k).
    - apply Hw.
    - apply Hw.
    - intros id sk' Hk' Ha. destruct (Hb id sk' Hk') as (sk & Hk & _ & _ & [->|E]); [|by rewrite E in Ha].
      by apply (wf_active k Hw id sk Hk). }
  assert (∀ id sk, keys k !! id = Some sk → sk.(EncryptionKey.Status) ≠ KeyStatusScheduled → keys k1 !! id = Some sk) as Hsame.
  { intros id sk Hk Hs. unfold keys in *. specialize (Hd id). rewrite Hk in Hd.
    destruct Hd as (sk' & Hk' & _ & _ & [->|(_ & x & Hx & Hid & Hdue)]); [done|].
    exfalso. apply elem_of_range_values in Hx as [id' Hx]. destruct (wf_keys k Hw id' x Hx) as [Hid' _].
    assert (id' = id) as -> by congruence. assert (x = sk) as -> by congruence.
    unfold due in Hdue. by rewrite bool_decide_false in Hdue. }
  case_match; cbn [fst]; [|by split_and!].
  destruct (invalidateCache_wf _ Hw1) as [Hw2 He]. split_and!; [done| |done|done|apply map_empty_subseteq|done].
  etransitivity; [exact Hg|]. by apply extends_grows.
Qed.

(** Saving an active key under a new identifier and making it current, when no other is
    active. *)
Lemma install_wf nonce now key k :
  wf k → keys k !! key.(Key.ID) = None → free_of colon key.(Key.ID) = true → fresh_nonce nonce →
  len key.(Key.KeyMaterial) = 32 → bytes_ok key.(Key.KeyMaterial) →
  (∀ id sk, keys k !! id = Some sk → sk.(EncryptionKey.Status) ≠ KeyStatusActive) →
  match saveKey nonce now key k with
  | (k1, Ok _) => wf (install key k1) ∧ grows k (install key k1) ∧
      (∃ l, currentKey (install key k1) = Some l ∧ heap (install key k1) !! l = Some key) ∧
      (∃ sk, keys (install key k1) = <[key.(Key.ID) := sk]> (keys k) ∧ sk.(EncryptionKey.Status) = key.(Key.Status)) ∧
      cache (install key k1) = <[key.(Key.ID) := fresh (dom (heap k))]> (cache k)
  | (k1, Err _) => k1 = k
  | (_, Panic) => False
  end.
Proof.
  intros Hw Hn Hc Hnon Hlen Hb Hna. unfold saveKey, toStorageKey.
  destruct (MasterKey_Encrypt masterKey nonce (Key.KeyMaterial key)) as [enc|e] eqn:Eenc; [|done].
  destruct (master_key_roundtrip masterKey nonce (Key.KeyMaterial key) enc Hnon Hb Eenc) as [Hdec _].
  unfold on_store, Security.SaveEncryptionKey. cbn [ret st EncryptionKey.ID].
  set (sk := EncryptionKey.mk _ _ _ _ _ _ _ _ _ _). set (k1 := mkState _ _ _ _).
  assert (keys k1 = <[key.(Key.ID) := sk]> (keys k)) as Ek by done.
  assert (grows k k1) as Hg1.
  { intros id x Hk. exists x. rewrite Ek, lookup_insert_ne; [done|]. intros <-. congruence. }
  assert (backed k1 key) as Hbk.
  { exists sk. split; [by rewrite Ek, lookup_insert_eq|exact Hdec]. }
  unfold install, alloc. set (l := fresh (dom (heap k1))). set (k2 := mkState _ _ _ _).
  assert (heap k !! l = None) as Hl by (apply (not_elem_of_dom (heap k1)), is_fresh).
  assert (keys k2 = keys k1) as Ek2 by done.
  assert (grows k1 k2) as Hg2 by (intros id x Hk; by exists x).
  split_and!; [|by transitivity k1| | |done].
  - split.
    + intros id x Hk. rewrite Ek2, Ek in Hk. apply lookup_insert_Some in Hk as [[<- <-]|[_ Hk]]; [|by apply (wf_keys k)].
      split_and!; [done..|]. exists (Key.KeyMaterial key). by split_and!.
    + intros l' x Hx. unfold k2 in Hx. cbn in Hx. apply lookup_insert_Some in Hx as [[_ <-]|[_ Hx]]; [exact Hbk|].
      eapply (backed_grows k); [exact Hg1|]. by eapply (wf_heap k).
    + intros id l' Hcl. unfold k2 in *. cbn in *. apply lookup_insert_Some in Hcl as [[<- <-]|[_ Hcl]].
      * exists key. by rewrite lookup_insert_eq.
      * destruct (wf_cache k Hw id l' Hcl) as (x & Hx & Hid). exists x. split; [|done].
        rewrite lookup_insert_ne; [done|]. congruence.
    + intros l' [= <-]. exists key. unfold k2. cbn. by rewrite lookup_insert_eq.
    + intros id x Hk Ha. rewrite Ek2, Ek in Hk. apply lookup_insert_Some in Hk as [[<- <-]|[_ Hk]].
      * exists l, key. split_and!; [done| |done]. unfold k2. cbn. by rewrite lookup_insert_eq.
      * by destruct (Hna id x Hk).
  - exists l. split; [done|]. unfold k2. cbn. by rewrite lookup_insert_eq.
  - exists sk. by rewrite Ek2, Ek.
Qed.

(** The first half of a rotation, as a function. *)
Definition retire (now : time) (k : State) : State * result unit :=
  match currentKey k with
  | None => (k, Ok tt)
  | Some l =>
      match heap k !! l with
      | None => (k, Panic)
      | Some cur =>
          match on_store (Security.UpdateEncryptionKeyStatus cur.(Key.ID) KeyStatusInactive None now) k with
          | (k1, Ok _) => (modify l (deactivated now) k1, Ok tt)
          | (k1, Err e) => (k1, Err (wrapf "deactivate current key" e))
          | (k1, Panic) => (k1, Panic)
          end
      end
  end.

Lemma retire_wf now k :
  wf k →
  (retire now k).2 = Ok tt ∧ wf (retire now k).1 ∧ grows k (retire now k).1 ∧
  (∀ id sk, keys (retire now k).1 !! id = Some sk → sk.(EncryptionKey.Status) ≠ KeyStatusActive) ∧
  (∀ id, keys k !! id = None → keys (retire now k).1 !! id = None) ∧
  currentKey (retire now k).1 = currentKey k ∧ cache (retire now k).1 = cache k ∧
  ∀ l key, currentKey k = Some l → heap k !! l = Some key →
    heap (retire now k).1 = <[l := deactivated now key]> (heap k) ∧
    ∃ sk, keys (retire now k).1 !! key.(Key.ID) = Some sk ∧ sk.(EncryptionKey.Status) = KeyStatusInactive.
Proof.
  intros Hw. unfold retire. destruct (currentKey k) as [l|] eqn:Ec.
  - destruct (wf_current k Hw l Ec) as [cur Hcur]. rewrite Hcur.
    destruct (wf_heap k Hw l cur Hcur) as (sk & Hsk & _).
    pose proof (update_status_wf (Key.ID cur) KeyStatusInactive None now k sk Hw Hsk ltac:(done)) as Hu.
    destruct (on_store _ k) as [k1 r]. destruct Hu as (-> & Hw1 & Hg1 & Hh & Hca & Hcu & Ek). cbn [fst snd].
    destruct (modify_wf l (deactivated now) k1 ltac:(done) Hw1) as [Hw2 Hg2].
    assert (keys (modify l (deactivated now) k1) = keys k1) as Ek2 by done.
    split_and!; [done|done|by transitivity k1| | |by rewrite <- Ec, <- Hcu|done|].
    + intros id sk' Hk Ha. rewrite Ek2, Ek in Hk. apply lookup_insert_Some in Hk as [[<- <-]|[Hne Hk]]; [done|].
      destruct (wf_active k Hw id sk' Hk Ha) as (l' & key & Hl' & Hkey & Hid).
      rewrite Ec in Hl'. injection Hl' as <-. congruence.
    + intros id Hn. rewrite Ek2, Ek, lookup_insert_ne; [done|]. intros <-. congruence.
    + intros l' key [= <-] Hkey. assert (key = cur) as -> by congruence. split.
      * unfold modify. cbn. rewrite Hh. apply map_eq. intros i. destruct (decide (i = l)) as [->|Hne].
        -- by rewrite lookup_alter_eq, lookup_insert_eq, Hcur.
        -- by rewrite lookup_alter_ne, lookup_insert_ne.
      * rewrite Ek2, Ek, lookup_insert_eq. eexists. split; [done|]. done.
  - split_and!; [done..| |done|exact Ec|done|done].
    intros id sk Hk Ha. destruct (wf_active k Hw id sk Hk Ha) as (l & _ & Hl & _). congruence.
Qed.

Lemma RotateKey_eq now xid random nonce k :
  wf k →
  RotateKey now xid random nonce k =
    match generateKey now xid random k with
    | inr e => (k, Err (wrapf "generate new key" e))
    | inl newKey =>
        match saveKey nonce now (activated now newKey) (retire now k).1 with
        | (k2, Err e) => (k2, Err (wrapf "save new key" e))
        | (k2, Panic) => (k2, Panic)
        | (k2, Ok _) => (install (activated now newKey) k2, Ok (activated now newKey))
        end
    end.
Proof.
  intros Hw. unfold RotateKey. fold (retire now k). destruct (retire_wf now k Hw) as [Hr _].
  destruct (generateKey _ _ _ _); [|done]. destruct (retire now k) as [k1 r]. cbn [fst snd] in *. by subst r.
Qed.

Lemma generateKey_inl now xid random k key :
  generateKey now xid random k = inl key → key.(Key.ID) = xid ∧ random = Some key.(Key.KeyMaterial).
Proof. unfold generateKey. destruct random; [|done]. by intros [= <-]. Qed.

Lemma rotate_wf now xid random nonce k :
  wf k → randomness xid random nonce k →
  wf (RotateKey now xid random nonce k).1 ∧ grows k (RotateKey now xid random nonce k).1.
Proof.
  intros Hw (Hx & Hc & Hr & Hn). rewrite RotateKey_eq by done.
  destruct (generateKey now xid random k) as [key|e] eqn:Eg; [|done].
  apply generateKey_inl in Eg as [Hid Erand]. destruct (Hr _ Erand) as [Hl Hb].
  destruct (retire_wf now k Hw) as (_ & Hw1 & Hg1 & Hna & Hnone & _).
  assert (keys (retire now k).1 !! Key.ID (activated now key) = None) as Hx' by (cbn; rewrite Hid; by apply Hnone).
  pose proof (install_wf nonce now (activated now key) _ Hw1 Hx' ltac:(by cbn; rewrite Hid) Hn Hl Hb Hna) as Hi.
  destruct (saveKey _ _ _ _) as [k2 [u|e|]]; [|by subst k2|done].
  destruct Hi as (Hw2 & Hg2 & _). split; [done|]. by transitivity (retire now k).1.
Qed.

Lemma initialize_wf now xid random nonce k :
  wf k → randomness xid random nonce k →
  wf (Initialize now xid random nonce k).1 ∧ grows k (Initialize now xid random nonce k).1.
Proof.
  intros Hw (Hx & Hc & Hr & Hn). unfold Initialize. destruct (currentKey k) eqn:Ec; [done|].
  destruct (generateKey now xid random k) as [key|e] eqn:Eg; [|done].
  apply generateKey_inl in Eg as [Hid Erand]. destruct (Hr _ Erand) as [Hl Hb].
  assert (∀ id sk, keys k !! id = Some sk → sk.(EncryptionKey.Status) ≠ KeyStatusActive) as Hna.
  { intros id sk Hk Ha. destruct (wf_active k Hw id sk Hk Ha) as (l & _ & Hl' & _). congruence. }
  pose proof (install_wf nonce now (activated now key) k Hw ltac:(by cbn; rewrite Hid) ltac:(by cbn; rewrite Hid) Hn Hl Hb Hna) as Hi.
  destruct (saveKey _ _ _ _) as [k2 [u|e|]]; [|by subst k2|done]. destruct Hi as (Hw2 & Hg2 & _). by split.
Qed.

Lemma decrypt_wf versioned k : wf k → wf (Decrypt versioned k).1 ∧ extends k (Decrypt versioned k).1.
Proof.
  intros Hw. unfold Decrypt. destruct (split4 versioned) as [[[[v id] n] c]|]; [|done].
  destruct (negb _); [done|]. destruct (base64_decode n) as [nonce|]; [|done].
  destruct (base64_decode c) as [ciphertext|]; [|done].
  pose proof (getKey_spec id k Hw) as Hg. destruct (getKey id k) as [k' [l|e|]]; by destruct Hg as (? & ? & _).
Qed.

Lemma kms_run_wf c k : wf k → allowed c k → wf (run c k) ∧ grows k (run c k).
Proof.
  intros Hw Ha. destruct c; cbn [run].
  - by apply initialize_wf.
  - destruct (decrypt_wf versioned k Hw) as [? ?%extends_grows]. done.
  - by apply rotate_wf.
  - by apply change_key_wf.
  - by apply change_key_wf.
  - by apply change_key_wf.
  - by destruct (process_deletions_wf now k Hw) as (? & ? & _).
Qed.

(** Any later state. *)
Inductive later : State → State → Prop :=
| later_refl k : later k k
| later_call c k k' : allowed c k → later (run c k) k' → later k k'.

Lemma later_wf k k' : wf k → later k k' → wf k' ∧ grows k k'.
Proof.
  intros Hw Hl. induction Hl as [k|c k k' Ha _ IH]; [done|].
  destruct (kms_run_wf c k Hw Ha) as [Hw1 Hg1]. destruct (IH Hw1) as [Hw' Hg']. split; [done|]. by transitivity (run c k).
Qed.

(** ** The current key is fresh *)

(** While the object of the current key is active, so are its key in the store and every
    object of the same identifier that the cache has. *)
Definition fresh_current (k : State) : Prop :=
  ∀ l key, currentKey k = Some l → heap k !! l = Some key → key.(Key.Status) = KeyStatusActive →
    (∃ sk, keys k !! key.(Key.ID) = Some sk ∧ sk.(EncryptionKey.Status) = KeyStatusActive) ∧
    ∀ l' key', cache k !! key.(Key.ID) = Some l' → heap k !! l' = Some key' → key'.(Key.Status) = KeyStatusActive.

Lemma getKey_fresh id k : wf k → fresh_current k → fresh_current (getKey id k).1.
Proof.
  intros Hw Hf. unfold getKey. destruct (cache k !! id) as [l|] eqn:Ec; [done|].
  unfold Security.GetEncryptionKey, Security.get. fold (keys k). destruct (keys k !! id) as [sk|] eqn:Ek; [|done].
  destruct (fromStorageKey_usable id sk) as (key & -> & Hid & Hst & Hm); [by apply (wf_keys k Hw)|].
  unfold alloc. set (l := fresh (dom (heap k))). cbn [fst]. intros l0 cur Hl0 Hcur Hact. cbn in Hl0, Hcur.
  assert (heap k !! l = None) as Hl by (apply not_elem_of_dom, is_fresh).
  destruct (wf_current k Hw l0 Hl0) as [cur' Hcur'].
  rewrite lookup_insert_ne in Hcur by congruence. destruct (Hf l0 cur Hl0 Hcur Hact) as [Hs Hc].
  split; [exact Hs|]. intros l' key' Hca Hk'. cbn in Hca, Hk'.
  apply lookup_insert_Some in Hca as [[Eid <-]|[Hne Hca]].
  - rewrite lookup_insert_eq in Hk'. injection Hk' as <-. destruct Hs as (sk' & Hsk' & Hst').
    rewrite <- Eid, Hid in Hsk'. rewrite Ek in Hsk'. injection Hsk' as <-. by rewrite Hst.
  - destruct (wf_cache k Hw _ _ Hca) as (x & Hx & _). rewrite lookup_insert_ne in Hk' by congruence. by eapply Hc.
Qed.

Lemma getKey_cached id k k' l : wf k → getKey id k = (k', Ok l) → cache k' !! id = Some l.
Proof.
  intros Hw. unfold getKey. destruct (cache k !! id) as [l0|] eqn:Ec; [by intros [= <- <-]|].
  unfold Security.GetEncryptionKey, Security.get. fold (keys k). destruct (keys k !! id) as [sk|] eqn:Ek; [|done].
  destruct (fromStorageKey_usable id sk) as (key & -> & Hid & _); [by apply (wf_keys k Hw)|].
  unfold alloc. intros [= <- <-]. cbn. by rewrite Hid, lookup_insert_eq.
Qed.

Lemma install_fresh key k sk :
  key.(Key.Status) = KeyStatusActive → keys k !! key.(Key.ID) = Some sk → sk.(EncryptionKey.Status) = KeyStatusActive →
  fresh_current (install key k).
Proof.
  intros Ha Hk Hs l cur Hl Hcur Hact. unfold install, alloc in *. cbn in Hl, Hcur |- *. injection Hl as <-.
  rewrite lookup_insert_eq in Hcur. injection Hcur as <-. split; [by exists sk|]. intros l' key' Hc Hk'.
  rewrite lookup_insert_eq in Hc. injection Hc as <-. rewrite lookup_insert_eq in Hk'. by injection Hk' as <-.
Qed.

Lemma change_key_fresh keyID test status at_ now prefix f k :
  (∀ key, (f key).(Key.ID) = key.(Key.ID) ∧ (f key).(Key.Status) ≠ KeyStatusActive) →
  (∀ key, key.(Key.Status) = KeyStatusActive → is_Some (test key)) →
  wf k → fresh_current k → fresh_current (change_key keyID test status at_ now prefix f k).1.
Proof.
  intros Hfk Htest Hw Hfr. unfold change_key. pose proof (getKey_spec keyID k Hw) as Hg.
  pose proof (getKey_fresh keyID k Hw Hfr) as Hfr1.
  pose proof (λ k1 l, getKey_cached keyID k k1 l Hw) as Hca.
  destruct (getKey keyID k) as [k1 r]. cbn [fst] in Hfr1. destruct Hg as (Hw1 & _ & Hr).
  destruct r as [l|e|]; [|done..]. specialize (Hca k1 l eq_refl). destruct Hr as (key & Hl & Hid & _). rewrite Hl.
  destruct (test key) eqn:Et; [done|].
  assert (key.(Key.Status) ≠ KeyStatusActive) as Hna by (intros E; destruct (Htest key E); congruence).
  unfold on_store, Security.UpdateEncryptionKeyStatus. fold (keys k1).
  destruct (keys k1 !! keyID) as [sk|] eqn:Ek; [|exact Hfr1]. cbn [ret st fst].
  set (k2 := mkState _ _ _ _). unfold cacheKey, modify. cbn [heap]. rewrite lookup_alter_eq.
  assert (heap k2 = heap k1) as -> by done. rewrite Hl. cbn [fmap option_fmap option_map].
  intros l0 cur Hl0 Hcur Hact. cbn in Hl0, Hcur |- *.
  apply lookup_alter_Some in Hcur as [(-> & x & _ & ->)|[Hne Hcur]]; [by destruct (Hfk x) as [_ []]|].
  destruct (Hfr1 l0 cur Hl0 Hcur Hact) as [(skc & Hskc & Hstc) Hc].
  assert (keyID ≠ Key.ID cur) as Hids.
  { intros E. apply Hna, (Hc l); [by rewrite <- E|done]. }
  split.
  - exists skc. split; [|done]. unfold keys, k2. cbn. by rewrite lookup_insert_ne.
  - rewrite (proj1 (Hfk key)), Hid. intros l' key' Hcl Hk'. rewrite lookup_insert_ne in Hcl by done.
    apply lookup_alter_Some in Hk' as [(-> & x & Hx & ->)|[_ Hk']]; [|by eapply Hc].
    destruct (wf_cache k1 Hw1 _ _ Hcl) as (y & Hy & Hidy). congruence.
Qed.

Lemma retire_fresh now k : wf k → fresh_current (retire now k).1.
Proof.
  intros Hw l cur Hl Hcur Hact. destruct (retire_wf now k Hw) as (_ & _ & _ & _ & _ & Hc & _ & Hh).
  rewrite Hc in Hl. destruct (wf_current k Hw l Hl) as [key Hkey]. destruct (Hh l key Hl Hkey) as [Eh _].
  rewrite Eh, lookup_insert_eq in Hcur. by injection Hcur as <-.
Qed.

(** Saving the new key and making it current. *)
Lemma save_fresh nonce now key k :
  wf k → keys k !! key.(Key.ID) = None → free_of colon key.(Key.ID) = true → fresh_nonce nonce →
  len key.(Key.KeyMaterial) = 32 → bytes_ok key.(Key.KeyMaterial) →
  (∀ id sk, keys k !! id = Some sk → sk.(EncryptionKey.Status) ≠ KeyStatusActive) →
  key.(Key.Status) = KeyStatusActive →
  match saveKey nonce now key k with (k1, Ok _) => fresh_current (install key k1) | _ => True end.
Proof.
  intros Hw Hn Hc Hnon Hlen Hb Hna Hact. pose proof (install_wf nonce now key k Hw Hn Hc Hnon Hlen Hb Hna) as Hi.
  destruct (saveKey nonce now key k) as [k1 [u|e|]]; [|done..]. destruct Hi as (_ & _ & _ & (sk & Ek & Hst) & _).
  apply (install_fresh key k1 sk); [done| |by rewrite Hst].
  assert (keys (install key k1) = keys k1) as <- by done. by rewrite Ek, lookup_insert_eq.
Qed.

Lemma run_fresh c k : wf k → allowed c k → fresh_current k → fresh_current (run c k).
Proof.
  intros Hw Ha Hf. destruct c; cbn [run allowed] in *.
  - destruct Ha as (Hx & Hcol & Hr & Hn). unfold Initialize. destruct (currentKey k) eqn:Ec; [done|].
    destruct (generateKey now xid random k) as [key|e] eqn:Eg; [|done].
    apply generateKey_inl in Eg as [Hid Erand]. destruct (Hr _ Erand) as [Hl Hb].
    assert (∀ id sk, keys k !! id = Some sk → sk.(EncryptionKey.Status) ≠ KeyStatusActive) as Hna.
    { intros id sk Hk Hac. destruct (wf_active k Hw id sk Hk Hac) as (l & _ & Hl' & _). congruence. }
    pose proof (save_fresh nonce now (activated now key) k Hw ltac:(by cbn; rewrite Hid) ltac:(by cbn; rewrite Hid)
      Hn Hl Hb Hna eq_refl) as Hi.
    pose proof (install_wf nonce now (activated now key) k Hw ltac:(by cbn; rewrite Hid) ltac:(by cbn; rewrite Hid) Hn Hl Hb Hna) as Hj.
    destruct (saveKey _ _ _ _) as [k2 [u|e|]]; [done|by subst k2|done].
  - unfold Decrypt. destruct (split4 versioned) as [[[[v id] n] c]|]; [|done].
    destruct (negb _); [done|]. destruct (base64_decode n); [|done]. destruct (base64_decode c); [|done].
    pose proof (getKey_fresh id k Hw Hf). destruct (getKey id k) as [k1 [?|?|]]; done.
  - destruct Ha as (Hx & Hcol & Hr & Hn). rewrite RotateKey_eq by done.
    destruct (generateKey now xid random k) as [key|e] eqn:Eg; [|done].
    apply generateKey_inl in Eg as [Hid Erand]. destruct (Hr _ Erand) as [Hl Hb].
    destruct (retire_wf now k Hw) as (_ & Hw1 & Hg1 & Hna & Hnone & _).
    assert (keys (retire now k).1 !! Key.ID (activated now key) = None) as Hx' by (cbn; rewrite Hid; by apply Hnone).
    pose proof (save_fresh nonce now (activated now key) _ Hw1 Hx' ltac:(by cbn; rewrite Hid) Hn Hl Hb Hna eq_refl) as Hi.
    pose proof (install_wf nonce now (activated now key) _ Hw1 Hx' ltac:(by cbn; rewrite Hid) Hn Hl Hb Hna) as Hj.
    destruct (saveKey _ _ _ _) as [k2 [u|e|]]; [done| |done]. subst k2. by apply retire_fresh.
  - apply change_key_fresh; [done| |done..]. intros key ->. by eexists.
  - apply change_key_fresh; [done| |done..]. intros key ->. by eexists.
  - apply change_key_fresh; [done| |done..]. intros key ->. by eexists.
  - destruct (process_deletions_wf now k Hw) as (_ & _ & Hh & Hcur & Hca & Hk).
    intros l key Hl Hkey Hact. rewrite Hcur in Hl. rewrite Hh in Hkey. destruct (Hf l key Hl Hkey Hact) as [(sk & Hsk & Hst) Hc].
    split.
    + exists sk. split; [|done]. apply Hk; [done|]. by rewrite Hst.
    + intros l' key' Hcl Hk'. rewrite Hh in Hk'. eapply Hc; [|done]. by eapply lookup_weaken.
Qed.

Lemma later_fresh k k' : wf k → fresh_current k → later k k' → fresh_current k'.
Proof.
  intros Hw Hf Hl. induction Hl as [k|c k k' Ha _ IH]; [done|]. apply IH; [|by apply run_fresh].
  by destruct (kms_run_wf c k Hw Ha).
Qed.

(** ** Ciphertexts *)

(** The text of a ciphertext under a key. *)
Definition versioned_text (key : Key) (n p : list Z) : string :=
  "v1:" +:+ key.(Key.ID) +:+ ":" +:+ base64_encode n +:+ ":" +:+ base64_encode (Seal key.(Key.KeyMaterial) n p).

Lemma Encrypt_Ok nonce p k c :
  Encrypt nonce p k = Ok c →
  ∃ l key n, currentKey k = Some l ∧ heap k !! l = Some key ∧ key.(Key.Status) = KeyStatusActive ∧
    nonce = Some n ∧ c = versioned_text key n p.
Proof.
  unfold Encrypt. destruct (currentKey k) as [l|]; [|done]. destruct (heap k !! l) as [key|] eqn:E; [|done].
  destruct (bool_decide _) eqn:Ea; [|done]. apply bool_decide_eq_true in Ea. cbn [negb].
  destruct (valid_key _); [|done]. destruct nonce as [n|]; [|done]. intros [= <-]. by exists l, key, n.
Qed.

Lemma colon_app x : ":" +:+ x = String colon x.
Proof. done. Qed.

Lemma split4_text key n p :
  free_of colon key.(Key.ID) = true → bytes_ok n → bytes_ok p →
  split4 (versioned_text key n p) =
    Some ("v1", key.(Key.ID), base64_encode n, base64_encode (Seal key.(Key.KeyMaterial) n p)).
Proof.
  intros Hc Hn Hp. unfold split4, versioned_text.
  set (tail := Key.ID key +:+ _).
  replace (cut colon ("v1:" +:+ tail)) with ("v1", Some tail) by done. unfold tail.
  rewrite !colon_app.
  rewrite (cut_app colon (Key.ID key) _ Hc).
  by rewrite (cut_app colon (base64_encode n) _ (base64_no_colon n Hn)).
Qed.

(** The key that decrypts for an identifier: the cached object, or what the store has. *)
Definition finds (k : State) (id : string) (key : Key) : Prop :=
  key.(Key.ID) = id ∧
  ((∃ l, cache k !! id = Some l ∧ heap k !! l = Some key) ∨
   cache k !! id = None ∧ ∃ sk, keys k !! id = Some sk ∧ key.(Key.Status) = sk.(EncryptionKey.Status)).

Lemma decrypt_text k key n p :
  wf k → backed k key → len n = NonceSize → bytes_ok n → bytes_ok p →
  ∃ found, finds k key.(Key.ID) found ∧
    (Decrypt (versioned_text key n p) k).2 =
      if bool_decide (found.(Key.Status) = KeyStatusDeleted) then Err (Errorf ("key " +:+ key.(Key.ID) +:+ " has been deleted"))
      else Ok p.
Proof.
  intros Hw (sk & Hsk & Hm) Hl Hn Hp. destruct (wf_keys k Hw _ _ Hsk) as (_ & Hc & m & Hm' & Hlen & _).
  assert (m = Key.KeyMaterial key) as -> by congruence.
  unfold Decrypt. rewrite split4_text by done. rewrite bool_decide_true by done. cbn [negb].
  rewrite !base64_roundtrip; [|by apply Seal_bytes|done].
  pose proof (getKey_spec (Key.ID key) k Hw) as Hg. destruct (getKey (Key.ID key) k) as [k1 [l|e|]].
  - destruct Hg as (Hw1 & (Es & _ & Hh) & found & Hf & Hid & _ & Hca). cbn [snd]. rewrite Hf.
    exists found. split.
    + split; [done|]. destruct Hca as [Hca|(Hca & _ & x & Hx & Hst)]; [left|right; eauto].
      exists l. split; [done|]. destruct (wf_cache k Hw _ _ Hca) as (y & Hy & _). pose proof (Hh l y Hy). congruence.
    + assert (Key.KeyMaterial found = Key.KeyMaterial key) as Emat.
      { destruct (wf_heap k1 Hw1 l found Hf) as (x & Hx & Hmx). unfold keys in *. rewrite Es, Hid in Hx. congruence. }
      unfold open_with. case_bool_decide; [done|]. unfold valid_key. rewrite Emat, Hlen. cbn [orb Z.eqb Pos.eqb negb].
      rewrite Hl, Z.eqb_refl. cbn [negb]. by rewrite Open_Seal.
  - destruct Hg as (_ & _ & Hg). congruence.
  - by destruct Hg as (_ & _ & []).
Qed.

(** Now, with the key current and active: the key found is active. *)
Lemma finds_active k l key found :
  fresh_current k → currentKey k = Some l → heap k !! l = Some key → key.(Key.Status) = KeyStatusActive →
  finds k key.(Key.ID) found → found.(Key.Status) = KeyStatusActive.
Proof.
  intros Hf Hl Hk Ha [_ [(l' & Hc & Hl')|(_ & sk & Hsk & ->)]]; destruct (Hf l key Hl Hk Ha) as [(sk' & Hsk' & Hst) Hca].
  - by eapply Hca.
  - congruence.
Qed.

(** ** Starting *)

Lemma new_kms_wf s :
  (∀ id sk, Security.encryptionKeys s !! id = Some sk → usable id sk) →
  (∀ id id' sk sk', Security.encryptionKeys s !! id = Some sk → Security.encryptionKeys s !! id' = Some sk' →
     sk.(EncryptionKey.Status) = KeyStatusActive → sk'.(EncryptionKey.Status) = KeyStatusActive → id = id') →
  (NewKMS s).2 = Ok tt ∧ wf (NewKMS s).1 ∧ fresh_current (NewKMS s).1.
Proof.
  intros Hu H1. unfold NewKMS, loadCurrentKey, Security.GetCurrentEncryptionKey, Security.get_by. cbn [store].
  destruct (range_find _ _) as [[id sk]|] eqn:E.
  - apply range_find_Some in E as [Hsk Ha%bool_decide_eq_true].
    destruct (fromStorageKey_usable id sk (Hu id sk Hsk)) as (key & -> & Hid & Hst & Hm).
    unfold alloc. cbn [fst snd heap cache store]. set (l := fresh _).
    split; [done|]. split; [split|]; unfold keys, one_active; cbn.
    + done.
    + intros l' x Hx. apply lookup_insert_Some in Hx as [[_ <-]|[_ Hx]]; [|by rewrite lookup_empty in Hx].
      exists sk. by rewrite Hid.
    + intros i l' Hc. apply lookup_insert_Some in Hc as [[<- <-]|[_ Hc]]; [|by rewrite lookup_empty in Hc].
      exists key. by rewrite lookup_insert_eq.
    + intros l' [= <-]. rewrite lookup_insert_eq. by eexists.
    + intros i x Hx Hax. exists l, key. rewrite lookup_insert_eq. split_and!; [done..|].
      rewrite Hid. by apply (H1 id i sk x).
    + intros l' x [= <-] Hx Hax. unfold keys. cbn in Hx |- *. rewrite lookup_insert_eq in Hx. injection Hx as <-. split.
      * exists sk. by rewrite Hid.
      * intros l' y Hc Hy. cbn in Hc, Hy. rewrite lookup_insert_eq in Hc. injection Hc as <-.
        rewrite lookup_insert_eq in Hy. by injection Hy as <-.
  - rewrite range_find_None in E. split; [done|]. split; [|intros l key Hl; done]. split; unfold keys, one_active; cbn.
    + done.
    + intros l key Hl. by rewrite lookup_empty in Hl.
    + intros id l Hl. by rewrite lookup_empty in Hl.
    + done.
    + intros id sk Hk Ha. unfold keys in Hk. cbn in Hk. specialize (E id sk Hk). unfold Security.active_key in E.
      by rewrite bool_decide_true in E.
Qed.

(** * Properties *)

Lemma saveKey_Ok n now key k : valid_key masterKey = true → ∃ k', saveKey (Some n) now key k = (k', Ok tt).
Proof. intros Hk. unfold saveKey, toStorageKey, MasterKey_Encrypt. rewrite Hk. by eexists. Qed.

Lemma saveKey_None now key k : ∃ e, saveKey None now key k = (k, Err e).
Proof. unfold saveKey, toStorageKey, MasterKey_Encrypt. destruct (valid_key masterKey); by eexists. Qed.

Lemma saveKey_heap nonce now key k k' r : saveKey nonce now key k = (k', r) → heap k' = heap k.
Proof. unfold saveKey. destruct (toStorageKey nonce key); by intros [= <- _]. Qed.

Lemma install_heap key k l x : heap k !! l = Some x → heap (install key k) !! l = Some x.
Proof.
  intros Hl. unfold install, alloc. cbn. rewrite lookup_insert_ne; [done|]. intros E.
  apply (is_fresh (dom (heap k))). rewrite E. by apply elem_of_dom_2 in Hl.
Qed.

(** C30: a service that starts on keys it can use, at most one of them active, keeps this
    in every later state: whatever is called, every key of the store stays usable, at most
    one is active, no key or material is lost, the cache and the current key are objects
    with the material of their key in the store, and a ciphertext is made only with the
    one active key, which it names. *)
Theorem kms_invariant s :
  (∀ id sk, Security.encryptionKeys s !! id = Some sk → usable id sk) →
  (∀ id id' sk sk', Security.encryptionKeys s !! id = Some sk → Security.encryptionKeys s !! id' = Some sk' →
     sk.(EncryptionKey.Status) = KeyStatusActive → sk'.(EncryptionKey.Status) = KeyStatusActive → id = id') →
  ∃ k0, NewKMS s = (k0, Ok tt) ∧ store k0 = s ∧
    ∀ k, later k0 k →
      wf k ∧ fresh_current k ∧ grows k0 k ∧
      (∀ id id' sk sk', keys k !! id = Some sk → keys k !! id' = Some sk' →
        sk.(EncryptionKey.Status) = KeyStatusActive → sk'.(EncryptionKey.Status) = KeyStatusActive → id = id') ∧
      ∀ nonce p c, Encrypt nonce p k = Ok c → ∃ id sk rest, keys k !! id = Some sk ∧
        sk.(EncryptionKey.Status) = KeyStatusActive ∧ c = "v1:" +:+ id +:+ ":" +:+ rest.
Proof.
  intros Hu H1. destruct (new_kms_wf s Hu H1) as (Hr & Hw0 & Hf0). exists (NewKMS s).1.
  split_and!; [by rewrite <- Hr, <- surjective_pairing| |].
  { unfold NewKMS, loadCurrentKey, Security.GetCurrentEncryptionKey, Security.get_by. cbn [store].
    destruct (range_find _ _) as [[i x]|]; [|done]. destruct (fromStorageKey x); reflexivity. }
  intros k Hl. destruct (later_wf _ k Hw0 Hl) as [Hw Hg]. assert (fresh_current k) as Hf by (by apply (later_fresh (NewKMS s).1)).
  split_and!; [done..| |].
  - intros id id' sk sk' Hk Hk' Ha Ha'.
    destruct (wf_active k Hw id sk Hk Ha) as (l & key & Hc & Hh & <-).
    destruct (wf_active k Hw id' sk' Hk' Ha') as (l' & key' & Hc' & Hh' & <-). congruence.
  - intros nonce p c (l & key & n & Hc & Hk & Ha & -> & ->)%Encrypt_Ok.
    destruct (Hf l key Hc Hk Ha) as [(sk & Hsk & Hst) _]. exists (Key.ID key), sk. eexists. by split_and!.
Qed.

(** C16: what the service encrypts stays readable: at once, it decrypts to the plaintext;
    and after any calls, rotations included, it still does, unless the key it was made
    with has been deleted, which is then the error. *)
Theorem ciphertexts_stay_readable nonce p k c k' :
  wf k → fresh_current k → fresh_nonce nonce → bytes_ok p → Encrypt nonce p k = Ok c → later k k' →
  IsVersionedCiphertext c = true ∧ (Decrypt c k).2 = Ok p ∧
  ∃ id found, finds k' id found ∧
    (Decrypt c k').2 = if bool_decide (found.(Key.Status) = KeyStatusDeleted)
                       then Err (Errorf ("key " +:+ id +:+ " has been deleted")) else Ok p.
Proof.
  intros Hw Hf Hn Hp (l & key & n & Hc & Hk & Ha & -> & ->)%Encrypt_Ok Hl. destruct (Hn n eq_refl) as [Hlen Hb].
  destruct (later_wf k k' Hw Hl) as [Hw' Hg]. assert (backed k key) as Hbk by by eapply (wf_heap k).
  split_and!.
  - apply GoStrings.prefix_app.
  - destruct (decrypt_text k key n p Hw Hbk Hlen Hb Hp) as (found & Hfd & ->).
    rewrite bool_decide_false; [done|]. by rewrite (finds_active k l key found).
  - exists (Key.ID key). apply decrypt_text; [done|by eapply backed_grows|done..].
Qed.

(** a rotation that the generators serve makes a new active key, named by the new
    ciphertexts, with a version above every other (while versions do not wrap), and makes
    the one before inactive, in the store and in its object; whatever could be encrypted
    before can be decrypted after. *)
Theorem rotate_key_spec now xid r n k :
  wf k → fresh_current k → valid_key masterKey = true → randomness xid (Some r) (Some n) k →
  let '(k', res) := RotateKey now xid (Some r) (Some n) k in
  ∃ key l, res = Ok key ∧ key.(Key.ID) = xid ∧ key.(Key.Status) = KeyStatusActive ∧ key.(Key.KeyMaterial) = r ∧
    key.(Key.Version) = next_version (range_values (keys k)) ∧
    currentKey k' = Some l ∧ heap k' !! l = Some key ∧
    (∀ id sk, keys k' !! id = Some sk → sk.(EncryptionKey.Status) = KeyStatusActive → id = xid) ∧
    (∀ l0 old, currentKey k = Some l0 → heap k !! l0 = Some old →
       ∃ sk, keys k' !! old.(Key.ID) = Some sk ∧ sk.(EncryptionKey.Status) = KeyStatusInactive) ∧
    ∀ nonce p c, fresh_nonce nonce → bytes_ok p → Encrypt nonce p k = Ok c → (Decrypt c k').2 = Ok p.
Proof.
  intros Hw Hf Hmk (Hx & Hcol & Hr & Hn). rewrite RotateKey_eq by done. cbn [generateKey].
  set (key := activated now _). destruct (Hr r eq_refl) as [Hlen Hb].
  destruct (retire_wf now k Hw) as (_ & Hw1 & Hg1 & Hna & Hnone & Ec & Eca & Hcur).
  assert (keys (retire now k).1 !! Key.ID key = None) as Hx' by (by apply Hnone).
  destruct (saveKey_Ok n now key (retire now k).1 Hmk) as [k2 Es].
  pose proof (install_wf (Some n) now key _ Hw1 Hx' Hcol Hn Hlen Hb Hna) as Hi. rewrite Es in Hi |- *.
  destruct Hi as (Hw2 & Hg2 & (l & Hl & Hkl) & (sk & Ek & Hst) & Eca2).
  exists key, l. split_and!; [done..| | |].
  - intros id x Hid Ha. rewrite Ek in Hid. apply lookup_insert_Some in Hid as [[<- _]|[_ Hid]]; [done|].
    by destruct (Hna id x Hid).
  - intros l0 old Hl0 Hold. destruct (Hcur l0 old Hl0 Hold) as (_ & x & Hxk & Hxs). exists x. split; [|done].
    rewrite Ek, lookup_insert_ne; [done|]. intros E. congruence.
  - intros nonce p c Hnn Hp (l0 & old & n0 & Hl0 & Hold & Ha & -> & ->)%Encrypt_Ok.
    destruct (Hnn n0 eq_refl) as [Hln Hbn]. destruct (Hcur l0 old Hl0 Hold) as (Eh & x & Hxk & Hxs).
    assert (backed k old) as Hbk by by eapply (wf_heap k).
    destruct (decrypt_text (install key k2) old n0 p Hw2) as (found & Hfd & ->); [|done..|].
    { eapply backed_grows; [|exact Hbk]. by transitivity (retire now k).1. }
    rewrite bool_decide_false; [done|]. intros Hdel.
    assert (Key.ID old ≠ xid) as Hne by (intros E; cbn in Hx'; congruence).
    destruct Hfd as [_ [(l' & Hca & Hl')|(Hca & sk' & Hsk' & Hst')]].
    + rewrite Eca2, lookup_insert_ne, Eca in Hca by done.
      destruct (wf_cache _ Hw1 (Key.ID old) l') as (y & Hy & _); [by rewrite Eca|].
      rewrite (install_heap key k2 l' y) in Hl'; [|by rewrite (saveKey_heap _ _ _ _ _ _ Es)]. injection Hl' as <-.
      rewrite Eh in Hy. apply lookup_insert_Some in Hy as [[_ <-]|[_ Hy]]; [done|].
      destruct (Hf l0 old Hl0 Hold Ha) as [_ Hcopy]. by rewrite (Hcopy l' y Hca Hy) in Hdel.
    + rewrite Ek, lookup_insert_ne, Hxk in Hsk' by done. injection Hsk' as <-. by rewrite Hst', Hxs in Hdel.
Qed.

(** a rotation whose new key cannot be saved fails after the current key was retired:
    from then on nothing is encrypted, [Initialize] does not help, and no key of the store
    is active. *)
Theorem failed_rotation_stops_encryption now xid r l k :
  wf k → currentKey k = Some l →
  let '(k', res) := RotateKey now xid (Some r) None k in
  (∃ e, res = Err e) ∧
  (∀ nonce p, Encrypt nonce p k' = Err (Errorf "current key is not active")) ∧
  (∀ now' xid' random nonce, Initialize now' xid' random nonce k' = (k', Ok tt)) ∧
  ∀ id sk, keys k' !! id = Some sk → sk.(EncryptionKey.Status) ≠ KeyStatusActive.
Proof.
  intros Hw Hl. rewrite RotateKey_eq by done. cbn [generateKey].
  destruct (retire_wf now k Hw) as (_ & _ & _ & Hna & _ & Ec & _ & Hcur).
  destruct (wf_current k Hw l Hl) as [cur Hcurk]. destruct (Hcur l cur Hl Hcurk) as [Eh _].
  destruct (saveKey_None now (activated now (Key.mk xid (next_version (range_values (Security.encryptionKeys (store k))))
    r "AES-256-GCM" KeyStatusPending now None None None None)) (retire now k).1) as [e ->].
  split_and!; [by eexists| | |exact Hna].
  - intros nonce p. unfold Encrypt. by rewrite Ec, Hl, Eh, lookup_insert_eq.
  - intros now' xid' random nonce. unfold Initialize. by rewrite Ec, Hl.
Qed.

(** The service at a state, with a source of nonces, as its clients see it. *)
Definition service (nonce : option (list Z)) (k : State) : KMS := mkKMS
  (λ x, match EncryptString nonce x k with Ok e => inl e | Err e => inr e | Panic => inr (Errorf "panic") end)
  (λ e, match (DecryptString e k).2 with Ok x => inl x | Err e => inr e | Panic => inr (Errorf "panic") end).

(** the service keeps what its clients rely on: in every state it reaches, what it
    encrypts it decrypts to the same text, and no ciphertext is empty. *)
Theorem kms_undoes nonce k :
  wf k → fresh_current k → fresh_nonce nonce → undoes (service nonce k).
Proof.
  intros Hw Hf Hn x e He. cbn in He. destruct (EncryptString nonce x k) as [c|?|] eqn:E; [|done..].
  injection He as ->. destruct (Encrypt_Ok _ _ _ _ E) as (l & key & n & Hc & Hk & Ha & -> & ->).
  destruct (Hn n eq_refl) as [Hlen Hb]. split; [done|]. cbn. unfold DecryptString.
  destruct (decrypt_text k key n (bytes_of x) Hw) as (found & Hfd & Hd); [by eapply (wf_heap k)|done|done|apply bytes_of_ok|].
  destruct (Decrypt _ k) as [k1 r]. cbn in Hd |- *. subst r.
  rewrite bool_decide_false; [by rewrite string_of_bytes_of|]. by rewrite (finds_active k l key found).
Qed.

End kms.

(** * Witnesses *)

(** A cipher with a checksum, to run the definitions with. *)
Definition checksum (k n p : list Z) : Z := foldr Z.add 0 (k ++ n ++ p) mod 256.

Definition checked_open (k n c : list Z) : option (list Z) :=
  let p := take (length c - 1) c in
  if bool_decide (drop (length c - 1) c = [checksum k n p]) then Some p else None.

Lemma checked_open_seal k n p : checked_open k n (p ++ [checksum k n p]) = Some p.
Proof.
  unfold checked_open. rewrite length_app. cbn [length]. replace (length p + 1 - 1)%nat with (length p) by lia.
  rewrite take_app_length, drop_app_length. by rewrite bool_decide_true.
Qed.

Lemma checksum_bytes (k n p : list Z) : bytes_ok p → bytes_ok (p ++ [checksum k n p]).
Proof.
  intros Hp. apply Forall_app. split; [done|]. constructor; [|done]. unfold is_byte, checksum. apply Z.mod_pos_bound. lia.
Qed.

Definition checksum_aead : AEAD := {|
  Seal := λ k n p, p ++ [checksum k n p];
  Open := checked_open;
  Open_Seal := λ k n p _, checked_open_seal k n p;
  Seal_bytes := λ k n p, checksum_bytes k n p
|}.

Definition demo_master : list Z := repeat 9 32.
Definition demo_random (b : Z) : list Z := repeat b 32.
Definition demo_nonce (b : Z) : list Z := repeat b 12.

Section demo.
#[local] Existing Instance checksum_aead.
#[local] Existing Instance range_in_key_order.

Definition demo_start : State := (NewKMS demo_master Security.empty).1.
Definition demo_init : call := CInitialize 10 "k1" (Some (demo_random 3)) (Some (demo_nonce 1)).
Definition demo : State := run demo_master demo_init demo_start.
Definition demo_rotate : call := CRotateKey 20 "k2" (Some (demo_random 4)) (Some (demo_nonce 2)).
Definition demo_text : list Z := [104; 105].
Definition demo_cipher : string := "v1:k1:BQUFBQUFBQUFBQUF:aGlt".

Lemma bytes_repeat b n : is_byte b → bytes_ok (repeat b n).
Proof. intros Hb. apply Forall_forall. by intros x ->%list_elem_of_In%repeat_spec. Qed.

Lemma fresh_demo_nonce b : is_byte b → fresh_nonce (Some (demo_nonce b)).
Proof. intros Hb n [= <-]. split; [done|]. by apply bytes_repeat. Qed.

Lemma demo_random_ok b : is_byte b → ∀ r, Some (demo_random b) = Some r → len r = 32 ∧ bytes_ok r.
Proof. intros Hb r [= <-]. split; [done|]. by apply bytes_repeat. Qed.

Lemma demo_allowed : allowed demo_init demo_start.
Proof.
  split_and!; [done..| |]; [apply demo_random_ok|apply fresh_demo_nonce]; by unfold is_byte.
Qed.

Lemma demo_rotate_allowed : allowed demo_rotate demo.
Proof.
  split_and!; [by vm_compute|done| |]; [apply demo_random_ok|apply fresh_demo_nonce]; by unfold is_byte.
Qed.

Lemma demo_wf : wf demo_master demo ∧ fresh_current demo.
Proof.
  destruct (new_kms_wf demo_master Security.empty) as (_ & Hw & Hf); [intros ?? H; by vm_compute in H..|].
  split; [by apply (kms_run_wf demo_master demo_init demo_start Hw demo_allowed)|].
  by apply (run_fresh demo_master demo_init demo_start Hw demo_allowed).
Qed.

Lemma kms_invariant_witness :
  ∃ k0, NewKMS demo_master Security.empty = (k0, Ok tt) ∧
    ∀ k, later demo_master k0 k → wf demo_master k.
Proof.
  destruct (kms_invariant demo_master Security.empty) as (k0 & Hk & _ & Hl);
    [intros ?? H; by vm_compute in H|intros ???? H; by vm_compute in H|].
  exists k0. split; [exact Hk|]. intros k Hk'. by destruct (Hl k Hk').
Defined.

Lemma ciphertexts_stay_readable_witness :
  Encrypt (Some (demo_nonce 5)) demo_text demo = Ok demo_cipher ∧
  (Decrypt demo_master demo_cipher demo).2 = Ok demo_text ∧
  ∃ id found, finds (run demo_master demo_rotate demo) id found ∧
    (Decrypt demo_master demo_cipher (run demo_master demo_rotate demo)).2 =
      if bool_decide (found.(Key.Status) = KeyStatusDeleted)
      then Err (Errorf ("key " +:+ id +:+ " has been deleted")) else Ok demo_text.
Proof.
  destruct demo_wf as [Hw Hf]. split; [by vm_compute|].
  apply (ciphertexts_stay_readable demo_master (Some (demo_nonce 5)) demo_text demo demo_cipher
    (run demo_master demo_rotate demo) Hw Hf).
  - apply fresh_demo_nonce. by unfold is_byte.
  - repeat (constructor; [by unfold is_byte|]). constructor.
  - by vm_compute.
  - eapply later_call; [exact demo_rotate_allowed|apply later_refl].
Defined.

Lemma rotate_key_spec_witness :
  let '(k', res) := RotateKey demo_master 20 "k2" (Some (demo_random 4)) (Some (demo_nonce 2)) demo in
  ∃ key l, res = Ok key ∧ key.(Key.ID) = "k2" ∧ currentKey k' = Some l ∧ heap k' !! l = Some key.
Proof.
  destruct demo_wf as [Hw Hf].
  pose proof (rotate_key_spec demo_master 20 "k2" (demo_random 4) (demo_nonce 2) demo Hw Hf eq_refl demo_rotate_allowed) as Hr.
  destruct (RotateKey _ _ _ _ _ _) as [k' res]. destruct Hr as (key & l & Hr). exists key, l. by destruct_and! Hr.
Defined.

Lemma failed_rotation_stops_encryption_witness :
  let '(k', res) := RotateKey demo_master 20 "k2" (Some (demo_random 4)) None demo in
  ∀ nonce p, Encrypt nonce p k' = Err (Errorf "current key is not active").
Proof.
  destruct demo_wf as [Hw Hf].
  pose proof (failed_rotation_stops_encryption demo_master 20 "k2" (demo_random 4) 0%nat demo Hw eq_refl) as Hr.
  destruct (RotateKey _ _ _ _ _ _) as [k' res]. by destruct_and! Hr.
Defined.

Lemma kms_undoes_witness :
  undoes (service demo_master (Some (demo_nonce 5)) demo) ∧
  Crypto.EncryptString (service demo_master (Some (demo_nonce 5)) demo) "hi" = inl demo_cipher.
Proof.
  destruct demo_wf as [Hw Hf]. split; [|by vm_compute].
  apply (kms_undoes demo_master (Some (demo_nonce 5)) demo Hw Hf). apply fresh_demo_nonce. by unfold is_byte.
Defined.

End demo.
End Kms.
