(* ===== verification/Webhooks.v ===== *)
(** Webhooks of the Git providers
    ([src/internal/webhooks/{handler,processor}.go], the secret store adapter of
    [src/internal/server/master.go] and [src/internal/services/webhooks/service.go]).

    A request is handled in two stages with an interface between them: the handler
    authenticates it, decodes the body and gives events to an event processor; the
    processor looks at the configuration of the project and asks the orchestrator for
    deployments.  The handler is proved against the interface ([EventProcessor],
    [SecretStore]); [DefaultEventProcessor] and [webhookSecretStoreAdapter] are its
    instances.  JSON decoding, HMAC-SHA256 and the key management service are parameters;
    of a decoded payload the nested anonymous structs are flattened. *)

From stdpp Require Import pretty.
From S2P Require Import GoStrings StoreBase ServiceBase Crypto MemProjects.

#[local] Open Scope string_scope.
#[local] Open Scope list_scope.
#[local] Open Scope Z_scope.

(** * Events *)

Module PushEvent.
Record PushEvent := mk {
  Provider : string; ProjectID : string; Repository : string; Branch : string; Commit : string;
  CommitURL : string; Author : string; AuthorEmail : string; Message : string; Timestamp : string;
  ForcePush : bool; Deleted : bool
}.
End PushEvent.
Abbreviation PushEvent := PushEvent.PushEvent.

Module PullRequestEvent.
Record PullRequestEvent := mk {
  Provider : string; ProjectID : string; Repository : string; Action : string; Number : Z;
  Title : string; SourceBranch : string; TargetBranch : string; Author : string
}.
End PullRequestEvent.
Abbreviation PullRequestEvent := PullRequestEvent.PullRequestEvent.

Module TagEvent.
Record TagEvent := mk {
  Provider : string; ProjectID : string; Repository : string; Tag : string; Commit : string;
  Author : string; Deleted : bool
}.
End TagEvent.
Abbreviation TagEvent := TagEvent.TagEvent.

(** What the handler asks of a processor: it takes an event in the world it lives in and
    may fail. *)
Class EventProcessor (W : Type) := {
  ProcessPush : PushEvent → W → W * option gerror;
  ProcessPullRequest : PullRequestEvent → W → W * option gerror;
  ProcessTag : TagEvent → W → W * option gerror
}.

Class SecretStore := {
  GetWebhookSecret : string → string + gerror;
  IsSecretRequired : string → bool
}.

(** * Processing events *)

Module WebhookConfig.
Record WebhookConfig := mk {
  Enabled : bool; AutoDeploy : bool; AutoDeployBranches : list string; AutoDeployOnTag : bool;
  AutoDeployOnPR : bool; PRDeployEnvironment : string
}.
End WebhookConfig.
Abbreviation WebhookConfig := WebhookConfig.WebhookConfig.

(** The arguments of [TriggerDeploy]. *)
Record deploy_request := mkRequest {
  req_project : string; req_branch : string; req_commit : string; req_by : string; req_source : string
}.

(** [truncateMessage]: the first line, at most [maxLen] bytes. *)
Definition truncateMessage (s : string) (maxLen : Z) : string :=
  let s := (cut newline s).1 in
  if maxLen <? Z.of_nat (String.length s) then take_chars (Z.to_nat (maxLen - 3)) s +:+ "..." else s.

(** [shouldDeployBranch] of a processor with the given default branch. *)
Fixpoint allowed_branch (branch : string) (allowedBranches : list string) : bool :=
  match allowedBranches with
  | [] => false
  | allowed :: rest =>
      if HasSuffix allowed "*" then
        if HasPrefix branch (TrimSuffix allowed "*") then true else allowed_branch branch rest
      else if bool_decide (allowed = branch) then true
      else allowed_branch branch rest
  end.

Definition shouldDeployBranch (defaultBranch branch : string) (allowedBranches : list string) : bool :=
  if len allowedBranches =? 0 then bool_decide (branch = defaultBranch) || bool_decide (branch = "master")
  else allowed_branch branch allowedBranches.

(** [NewEventProcessor]: the default branch used. *)
Definition NewEventProcessor (DefaultBranch : string) : string :=
  if bool_decide (DefaultBranch = "") then "main" else DefaultBranch.

Module Processor.

Section processor.
(** The configuration of a project ([None] for nil), and what the orchestrator answers to
    a request after those made before; the world is the list of requests made. *)
Context (GetProjectWebhookConfig : string → option WebhookConfig + gerror)
        (TriggerDeploy : list deploy_request → deploy_request → string + gerror)
        (defaultBranch : string).

(** Ask for a deployment. *)
Definition trigger (req : deploy_request) (made : list deploy_request) : list deploy_request * option gerror :=
  (made ++ [req],
   match TriggerDeploy made req with inr e => Some (wrapf "triggering deployment" e) | inl _ => None end).

(** Look up the configuration; [enabled] says whether it asks for deployments. *)
Definition with_config (projectID : string) (enabled : WebhookConfig → bool)
    (k : WebhookConfig → list deploy_request * option gerror) (made : list deploy_request)
    : list deploy_request * option gerror :=
  match GetProjectWebhookConfig projectID with
  | inr e => (made, Some (wrapf "getting webhook config" e))
  | inl None => (made, None)
  | inl (Some cfg) => if negb cfg.(WebhookConfig.Enabled) || negb (enabled cfg) then (made, None) else k cfg
  end.

Definition push_request (event : PushEvent) : deploy_request :=
  mkRequest event.(PushEvent.ProjectID) event.(PushEvent.Branch) event.(PushEvent.Commit)
    ("webhook:" +:+ event.(PushEvent.Provider))
    ("push by " +:+ event.(PushEvent.Author) +:+ ": " +:+ truncateMessage event.(PushEvent.Message) 50).

Definition process_push (event : PushEvent) (made : list deploy_request) : list deploy_request * option gerror :=
  if event.(PushEvent.Deleted) then (made, None)
  else with_config event.(PushEvent.ProjectID) WebhookConfig.AutoDeploy (λ cfg,
    if negb (shouldDeployBranch defaultBranch event.(PushEvent.Branch) cfg.(WebhookConfig.AutoDeployBranches))
    then (made, None)
    else trigger (push_request event) made) made.

Definition pull_request (event : PullRequestEvent) : deploy_request :=
  mkRequest event.(PullRequestEvent.ProjectID) event.(PullRequestEvent.SourceBranch) ""
    ("webhook:" +:+ event.(PullRequestEvent.Provider))
    ("PR #" +:+ pretty event.(PullRequestEvent.Number) +:+ ": " +:+ event.(PullRequestEvent.Title) +:+
     " by " +:+ event.(PullRequestEvent.Author)).

Definition process_pull_request (event : PullRequestEvent) (made : list deploy_request)
    : list deploy_request * option gerror :=
  with_config event.(PullRequestEvent.ProjectID) WebhookConfig.AutoDeployOnPR (λ _,
    let action := event.(PullRequestEvent.Action) in
    if bool_decide (action = "opened") || bool_decide (action = "synchronize") || bool_decide (action = "reopened")
    then trigger (pull_request event) made
    else (made, None)) made.

Definition tag_request (event : TagEvent) : deploy_request :=
  mkRequest event.(TagEvent.ProjectID) ("refs/tags/" +:+ event.(TagEvent.Tag)) event.(TagEvent.Commit)
    ("webhook:" +:+ event.(TagEvent.Provider))
    ("tag " +:+ event.(TagEvent.Tag) +:+ " by " +:+ event.(TagEvent.Author)).

Definition process_tag (event : TagEvent) (made : list deploy_request) : list deploy_request * option gerror :=
  if event.(TagEvent.Deleted) then (made, None)
  else with_config event.(TagEvent.ProjectID) WebhookConfig.AutoDeployOnTag (λ _,
    trigger (tag_request event) made) made.

End processor.
End Processor.

(** The default processor implements the interface. *)
Definition DefaultEventProcessor (projects : string → option WebhookConfig + gerror)
    (orchestrator : list deploy_request → deploy_request → string + gerror) (defaultBranch : string)
    : EventProcessor (list deploy_request) := {|
  ProcessPush := Processor.process_push projects orchestrator (NewEventProcessor defaultBranch);
  ProcessPullRequest := Processor.process_pull_request projects orchestrator;
  ProcessTag := Processor.process_tag projects orchestrator
|}.

(** * Payloads *)

Module GitHubPush.
Record payload := mk {
  Ref : string; Before_ : string; After_ : string; Forced : bool; Deleted : bool;
  Repository_FullName : string; Repository_CloneURL : string;
  HeadCommit_ID : string; HeadCommit_Message : string; HeadCommit_Timestamp : string; HeadCommit_URL : string;
  HeadCommit_Author_Name : string; HeadCommit_Author_Email : string
}.
End GitHubPush.

Module GitHubPR.
Record payload := mk {
  Action : string; Number : Z; Title : string; User_Login : string; Head_Ref : string; Base_Ref : string;
  Repository_FullName : string
}.
End GitHubPR.

Module GitHubTag.
Record payload := mk { RefType : string; Ref : string; Sender_Login : string; Repository_FullName : string }.
End GitHubTag.

Module GitLabPush.
Record commit := mkCommit {
  ID : string; Message : string; Timestamp : string; URL : string; Author_Name : string; Author_Email : string
}.
Record payload := mk {
  Ref : string; Before_ : string; After_ : string; Project_GitHTTPURL : string; Commits : list commit;
  UserName : string
}.
End GitLabPush.

Module GitLabMR.
Record payload := mk {
  Action : string; IID : Z; Title : string; SourceBranch : string; TargetBranch : string;
  User_Username : string; Project_PathWithNamespace : string
}.
End GitLabMR.

Module GitLabTag.
Record payload := mk {
  Ref : string; Before_ : string; After_ : string; Project_PathWithNamespace : string; UserName : string
}.
End GitLabTag.

Module BitbucketPush.
Record change := mkChange {
  New_Name : string; New_Type : string; New_Hash : string; New_Message : string; New_Date : string;
  New_Author : string; Old_Name : string; Old_Type : string; Old_Hash : string; Forced : bool
}.
Record payload := mk { Changes : list change; Repository_FullName : string; Repository_Href : string }.
End BitbucketPush.

Module BitbucketPR.
Record payload := mk {
  ID : Z; Title : string; Source_Branch : string; Destination_Branch : string; Author_DisplayName : string;
  Repository_FullName : string
}.
End BitbucketPR.

(** [json.Unmarshal] into each of the payloads. *)
Class Decoder := {
  decode_github_push : string → option GitHubPush.payload;
  decode_github_pr : string → option GitHubPR.payload;
  decode_github_tag : string → option GitHubTag.payload;
  decode_gitlab_push : string → option GitLabPush.payload;
  decode_gitlab_mr : string → option GitLabMR.payload;
  decode_gitlab_tag : string → option GitLabTag.payload;
  decode_bitbucket_push : string → option BitbucketPush.payload;
  decode_bitbucket_pr : string → option BitbucketPR.payload
}.

(** * Requests *)

(** The body is [None] where reading it fails. *)
Record request := mkHTTP { Method : string; Path : string; Header : string → string; Body : option string }.
Record response := mkResponse { Code : Z; Text : string }.

(** [http.Error] *)
Definition Error (msg : string) (code : Z) : response := mkResponse code msg.
Definition StatusOK : response := mkResponse 200 "".

(** [io.ReadAll] of a [MaxBytesReader] of one mebibyte. *)
Definition read_body (r : request) : option string :=
  match Body r with
  | Some b => if 2 ^ 20 <? Z.of_nat (String.length b) then None else Some b
  | None => None
  end.

(** A character a project ID may have; a byte that is not ASCII begins another rune or is
    not valid, and neither is allowed. *)
Definition valid_id_char (c : Ascii.ascii) : bool :=
  let n := Z.of_nat (Ascii.nat_of_ascii c) in
  ((97 <=? n) && (n <=? 122)) || ((65 <=? n) && (n <=? 90)) || ((48 <=? n) && (n <=? 57)) || (n =? 45) || (n =? 95).

Definition isValidProjectID (id : string) : bool :=
  if bool_decide (id = "") || (128 <? Z.of_nat (String.length id)) then false
  else all_chars valid_id_char id.

Definition slash : Ascii.ascii := Ascii.ascii_of_nat 47.

Definition extractProjectID (path prefix : string) : string :=
  if negb (HasPrefix path prefix) then "" else (cut slash (TrimPrefix path prefix)).1.

Definition zero_commit : string := "0000000000000000000000000000000000000000".

(** * Handlers *)

Module Handler.

Section handler.
Context {W : Type} `{EventProcessor W, Decoder, SecretStore} (hmac_sha256 : string → string → list Z).

(** The end of the handlers of one event: a failure is answered with 500. *)
Definition answer (r : W * option gerror) : W * response :=
  match r with
  | (w, Some _) => (w, Error "Processing failed" 500)
  | (w, None) => (w, StatusOK)
  end.

Definition reject (msg : string) (code : Z) (w : W) : W * response := (w, Error msg code).

(** [validateGitHubSignature] *)
Definition validateGitHubSignature (payload signature secret : string) (requireSecret : bool) : bool :=
  if bool_decide (secret = "") then negb requireSecret
  else if negb (HasPrefix signature "sha256=") then false
  else bool_decide (TrimPrefix signature "sha256=" = hex_encode (hmac_sha256 secret payload)).

Definition handleGitHubPush (body projectID : string) (w : W) : W * response :=
  match decode_github_push body with
  | None => reject "Invalid payload" 400 w
  | Some p =>
      let branch := TrimPrefix p.(GitHubPush.Ref) "refs/heads/" in
      if HasPrefix p.(GitHubPush.Ref) "refs/tags/" then (w, StatusOK)
      else answer (ProcessPush
        (PushEvent.mk "github" projectID p.(GitHubPush.Repository_CloneURL) branch p.(GitHubPush.After_)
           p.(GitHubPush.HeadCommit_URL) p.(GitHubPush.HeadCommit_Author_Name)
           p.(GitHubPush.HeadCommit_Author_Email) p.(GitHubPush.HeadCommit_Message)
           p.(GitHubPush.HeadCommit_Timestamp) p.(GitHubPush.Forced) p.(GitHubPush.Deleted)) w)
  end.

Definition handleGitHubPR (body projectID : string) (w : W) : W * response :=
  match decode_github_pr body with
  | None => reject "Invalid payload" 400 w
  | Some p =>
      answer (ProcessPullRequest
        (PullRequestEvent.mk "github" projectID p.(GitHubPR.Repository_FullName) p.(GitHubPR.Action)
           p.(GitHubPR.Number) p.(GitHubPR.Title) p.(GitHubPR.Head_Ref) p.(GitHubPR.Base_Ref)
           p.(GitHubPR.User_Login)) w)
  end.

Definition handleGitHubTag (body projectID : string) (deleted : bool) (w : W) : W * response :=
  match decode_github_tag body with
  | None => reject "Invalid payload" 400 w
  | Some p =>
      if negb (bool_decide (p.(GitHubTag.RefType) = "tag")) then (w, StatusOK)
      else answer (ProcessTag
        (TagEvent.mk "github" projectID p.(GitHubTag.Repository_FullName) p.(GitHubTag.Ref) ""
           p.(GitHubTag.Sender_Login) deleted) w)
  end.

(** The beginning the three handlers share: the project of the path and the body. *)
Definition with_project (r : request) (prefix : string) (w : W) (k : string → string → W * response) : W * response :=
  let projectID := extractProjectID (Path r) prefix in
  if bool_decide (projectID = "") then reject "Missing project ID" 400 w
  else if negb (isValidProjectID projectID) then reject "Invalid project ID" 400 w
  else match read_body r with
       | None => reject "Failed to read body" 400 w
       | Some body => k projectID body
       end.

Definition HandleGitHub (r : request) (w : W) : W * response :=
  with_project r "/webhook/github/" w (λ projectID body,
    match GetWebhookSecret projectID with
    | inr _ => reject "Internal error" 500 w
    | inl secret =>
        let signature := Header r "X-Hub-Signature-256" in
        if negb (validateGitHubSignature body signature secret (IsSecretRequired projectID))
        then reject "Invalid signature" 401 w
        else
          let eventType := Header r "X-GitHub-Event" in
          if bool_decide (eventType = "push") then handleGitHubPush body projectID w
          else if bool_decide (eventType = "pull_request") then handleGitHubPR body projectID w
          else if bool_decide (eventType = "create") || bool_decide (eventType = "delete")
          then handleGitHubTag body projectID (bool_decide (eventType = "delete")) w
          else if bool_decide (eventType = "ping") then (w, mkResponse 200 "pong")
          else (w, StatusOK)
    end).

Definition handleGitLabPush (body projectID : string) (w : W) : W * response :=
  match decode_gitlab_push body with
  | None => reject "Invalid payload" 400 w
  | Some p =>
      let branch := TrimPrefix p.(GitLabPush.Ref) "refs/heads/" in
      let deleted := bool_decide (p.(GitLabPush.After_) = zero_commit) in
      let event :=
        match last p.(GitLabPush.Commits) with
        | Some c =>
            PushEvent.mk "gitlab" projectID p.(GitLabPush.Project_GitHTTPURL) branch c.(GitLabPush.ID)
              c.(GitLabPush.URL) c.(GitLabPush.Author_Name) c.(GitLabPush.Author_Email)
              c.(GitLabPush.Message) c.(GitLabPush.Timestamp) false deleted
        | None =>
            PushEvent.mk "gitlab" projectID p.(GitLabPush.Project_GitHTTPURL) branch p.(GitLabPush.After_)
              "" p.(GitLabPush.UserName) "" "" "" false deleted
        end in
      answer (ProcessPush event w)
  end.

Definition handleGitLabMR (body projectID : string) (w : W) : W * response :=
  match decode_gitlab_mr body with
  | None => reject "Invalid payload" 400 w
  | Some p =>
      answer (ProcessPullRequest
        (PullRequestEvent.mk "gitlab" projectID p.(GitLabMR.Project_PathWithNamespace) p.(GitLabMR.Action)
           p.(GitLabMR.IID) p.(GitLabMR.Title) p.(GitLabMR.SourceBranch) p.(GitLabMR.TargetBranch)
           p.(GitLabMR.User_Username)) w)
  end.

Definition handleGitLabTag (body projectID : string) (w : W) : W * response :=
  match decode_gitlab_tag body with
  | None => reject "Invalid payload" 400 w
  | Some p =>
      answer (ProcessTag
        (TagEvent.mk "gitlab" projectID p.(GitLabTag.Project_PathWithNamespace)
           (TrimPrefix p.(GitLabTag.Ref) "refs/tags/") p.(GitLabTag.After_) p.(GitLabTag.UserName)
           (bool_decide (p.(GitLabTag.After_) = zero_commit))) w)
  end.

Definition HandleGitLab (r : request) (w : W) : W * response :=
  with_project r "/webhook/gitlab/" w (λ projectID body,
    match GetWebhookSecret projectID with
    | inr _ => reject "Internal error" 500 w
    | inl secret =>
        let token := Header r "X-Gitlab-Token" in
        if bool_decide (secret = "") && IsSecretRequired projectID then reject "Webhook secret required" 401 w
        else if negb (bool_decide (secret = "")) && negb (bool_decide (token = secret))
        then reject "Invalid token" 401 w
        else
          let eventType := Header r "X-Gitlab-Event" in
          if bool_decide (eventType = "Push Hook") then handleGitLabPush body projectID w
          else if bool_decide (eventType = "Merge Request Hook") then handleGitLabMR body projectID w
          else if bool_decide (eventType = "Tag Push Hook") then handleGitLabTag body projectID w
          else (w, StatusOK)
    end).

(** The event of one change, [None] for a change that is passed over. *)
Definition process_change (projectID href : string) (c : BitbucketPush.change) (w : W) : W * option gerror :=
  if bool_decide (c.(BitbucketPush.New_Type) = "") && bool_decide (c.(BitbucketPush.Old_Type) = "tag") then
    ProcessTag (TagEvent.mk "bitbucket" projectID href c.(BitbucketPush.Old_Name) c.(BitbucketPush.Old_Hash) "" true) w
  else if bool_decide (c.(BitbucketPush.New_Type) = "branch") then
    ProcessPush (PushEvent.mk "bitbucket" projectID href c.(BitbucketPush.New_Name) c.(BitbucketPush.New_Hash) ""
      c.(BitbucketPush.New_Author) "" c.(BitbucketPush.New_Message) c.(BitbucketPush.New_Date)
      c.(BitbucketPush.Forced) false) w
  else if bool_decide (c.(BitbucketPush.New_Type) = "tag") then
    ProcessTag (TagEvent.mk "bitbucket" projectID href c.(BitbucketPush.New_Name) c.(BitbucketPush.New_Hash)
      c.(BitbucketPush.New_Author) false) w
  else (w, None).

(** The loop over the changes: the first failure ends it. *)
Fixpoint process_changes (projectID href : string) (changes : list BitbucketPush.change) (w : W) : W * option gerror :=
  match changes with
  | [] => (w, None)
  | c :: changes' =>
      match process_change projectID href c w with
      | (w', Some e) => (w', Some e)
      | (w', None) => process_changes projectID href changes' w'
      end
  end.

Definition handleBitbucketPush (body projectID : string) (w : W) : W * response :=
  match decode_bitbucket_push body with
  | None => reject "Invalid payload" 400 w
  | Some p => answer (process_changes projectID p.(BitbucketPush.Repository_Href) p.(BitbucketPush.Changes) w)
  end.

Definition bitbucket_action (eventType : string) : string :=
  if bool_decide (eventType = "pullrequest:created") then "opened"
  else if bool_decide (eventType = "pullrequest:updated") then "synchronize"
  else if bool_decide (eventType = "pullrequest:fulfilled") then "merged"
  else if bool_decide (eventType = "pullrequest:rejected") then "closed"
  else "unknown".

Definition handleBitbucketPR (body projectID eventType : string) (w : W) : W * response :=
  match decode_bitbucket_pr body with
  | None => reject "Invalid payload" 400 w
  | Some p =>
      answer (ProcessPullRequest
        (PullRequestEvent.mk "bitbucket" projectID p.(BitbucketPR.Repository_FullName) (bitbucket_action eventType)
           p.(BitbucketPR.ID) p.(BitbucketPR.Title) p.(BitbucketPR.Source_Branch)
           p.(BitbucketPR.Destination_Branch) p.(BitbucketPR.Author_DisplayName)) w)
  end.

Definition HandleBitbucket (r : request) (w : W) : W * response :=
  with_project r "/webhook/bitbucket/" w (λ projectID body,
    let eventType := Header r "X-Event-Key" in
    if bool_decide (eventType = "") then reject "Missing event key" 400 w
    else if bool_decide (eventType = "repo:push") then handleBitbucketPush body projectID w
    else if bool_decide (eventType ∈ ["pullrequest:created"; "pullrequest:updated"; "pullrequest:fulfilled";
                                      "pullrequest:rejected"])
    then handleBitbucketPR body projectID eventType w
    else (w, StatusOK)).

End handler.

(** The server's handlers ([handlers_webhooks.go]): [configured] is the handler, if
    [SetWebhookHandler] was called, and [header] the one looked at without it. *)
Definition serve {W} (configured : option (request → W → W * response)) (header : option (string * string))
    (r : request) (w : W) : W * response :=
  if negb (bool_decide (Method r = "POST")) then (w, mkResponse 405 "method not allowed")
  else match configured with
       | Some handle => handle r w
       | None =>
           match header with
           | Some (name, missing) =>
               if bool_decide (Header r name = "") then (w, mkResponse 401 missing) else (w, StatusOK)
           | None => (w, StatusOK)
           end
       end.

Definition handleGitHubWebhook {W} (configured : option (request → W → W * response)) :=
  serve configured (Some ("X-Hub-Signature-256", "missing signature")).
Definition handleGitLabWebhook {W} (configured : option (request → W → W * response)) :=
  serve configured (Some ("X-Gitlab-Token", "missing token")).
Definition handleBitbucketWebhook {W} (configured : option (request → W → W * response)) := serve configured None.

End Handler.

(** * The secrets of the projects *)

Module Service.
Import Projects.

Section service.
Context `{MapRange}.

Definition Get (projectID provider : string) : svc State ProjectWebhook := ask (GetProjectWebhook projectID provider).

Definition Set_ (kms : option KMS) (projectID provider : string) (secret : list Z) (enabled requireSecret : bool)
    (now : time) (xid : string) : svc State unit :=
  let store encrypted :=
    on_error (wrapf "setting webhook config")
      (SetProjectWebhook projectID provider encrypted enabled requireSecret now xid) in
  match kms with
  | Some k =>
      if 0 <? len secret then
        match EncryptString k (string_of secret) with
        | inr e => throw (wrapf "encrypting webhook secret" e)
        | inl encrypted => store (bytes_of encrypted)
        end
      else store secret
  | None => store secret
  end.

Definition List_ (projectID : string) : svc State (list ProjectWebhook) :=
  on_error (wrapf "listing webhooks") (ask (ListProjectWebhooks projectID)).

Definition Delete (projectID provider : string) (now : time) : svc State unit :=
  on_error (wrapf "deleting webhook") (DeleteProjectWebhook projectID provider now).

Definition GetDecryptedSecret (kms : option KMS) (projectID provider : string) (s : State) : result (list Z) :=
  match GetProjectWebhook projectID provider s with
  | Ok w =>
      if len w.(ProjectWebhook.SecretEncrypted) =? 0 then Ok []
      else match kms with
           | None => Ok w.(ProjectWebhook.SecretEncrypted)
           | Some k =>
               match DecryptString k (string_of w.(ProjectWebhook.SecretEncrypted)) with
               | inr e => Err (wrapf "decrypting webhook secret" e)
               | inl decrypted => Ok (bytes_of decrypted)
               end
           end
  | Err e => Err e
  | Panic => Panic
  end.

Definition providers : list string := ["github"; "gitlab"; "bitbucket"].

(** The turn of [GetWebhookSecret] for one provider: the secret, or the loop goes on. *)
Definition provider_secret (kms : option KMS) (s : State) (projectID provider : string) : option string :=
  match GetProjectWebhook projectID provider s with
  | Ok w =>
      if w.(ProjectWebhook.Enabled) && (0 <? len w.(ProjectWebhook.SecretEncrypted)) then
        match kms with
        | Some k => match DecryptString k (string_of w.(ProjectWebhook.SecretEncrypted)) with
                    | inl secret => Some secret
                    | inr _ => None
                    end
        | None => None
        end
      else None
  | _ => None
  end.

Fixpoint first_secret (kms : option KMS) (s : State) (projectID : string) (l : list string) : string :=
  match l with
  | [] => ""
  | provider :: l' =>
      match provider_secret kms s projectID provider with Some x => x | None => first_secret kms s projectID l' end
  end.

(** [webhookSecretStoreAdapter]; the project is looked up by the name in the URL. *)
Definition adapter_GetWebhookSecret (kms : option KMS) (s : State) (projectID : string) : string + gerror :=
  match GetProjectByName projectID s with
  | Ok project => inl (first_secret kms s project.(Project.ID) providers)
  | Err ErrNotFound => inr (Errorf ("project not found: " +:+ projectID))
  | Err e => inr (wrapf "looking up project" e)
  | Panic => inr (Errorf "panic")
  end.

Definition requires (s : State) (projectID provider : string) : bool :=
  match GetProjectWebhook projectID provider s with
  | Ok w => w.(ProjectWebhook.Enabled) && w.(ProjectWebhook.RequireSecret)
  | _ => false
  end.

Definition adapter_IsSecretRequired (s : State) (projectID : string) : bool :=
  match GetProjectByName projectID s with
  | Ok project => existsb (requires s project.(Project.ID)) providers
  | _ => false
  end.

Definition webhookSecretStoreAdapter (kms : option KMS) (s : State) : SecretStore := {|
  GetWebhookSecret := adapter_GetWebhookSecret kms s;
  IsSecretRequired := adapter_IsSecretRequired s
|}.

End service.
End Service.

(** * Lemmas *)

(** ** Branches *)

(** A pattern that ends in [*] is a prefix, every other names one branch. *)
Definition pattern_matches (pattern branch : string) : Prop :=
  (∃ prefix rest, pattern = prefix +:+ "*" ∧ branch = prefix +:+ rest) ∨
  ((∀ prefix, pattern ≠ prefix +:+ "*") ∧ pattern = branch).

Lemma star_suffix p : HasSuffix p "*" = true ↔ ∃ prefix, p = prefix +:+ "*".
Proof.
  split; [intros ->%HasSuffix_spec; by eexists|]. intros [prefix ->]. apply TrimSuffix_app.
Qed.

Lemma star_inj p q : p +:+ "*" = q +:+ "*" → p = q.
Proof. intros E. rewrite <- (proj2 (TrimSuffix_app p "*")), E. apply TrimSuffix_app. Qed.

Lemma pattern_test p branch :
  (if HasSuffix p "*" then HasPrefix branch (TrimSuffix p "*") else bool_decide (p = branch)) = true ↔
  pattern_matches p branch.
Proof.
  destruct (HasSuffix p "*") eqn:E.
  - apply star_suffix in E as [q ->]. rewrite (proj2 (TrimSuffix_app q "*")), HasPrefix_spec. split.
    + intros ->. left. by eexists _, _.
    + intros [(q' & r & <-%star_inj & ->)|[Hn _]]; [by rewrite drop_chars_app|by destruct (Hn q)].
  - assert (∀ q, p ≠ q +:+ "*") as Hn.
    { intros q ->. rewrite (proj1 (TrimSuffix_app q "*")) in E. done. }
    rewrite bool_decide_eq_true. split; [intros ->; by right|].
    intros [(q & r & Hq & _)|[_ ?]]; [by destruct (Hn q)|done].
Qed.

Lemma allowed_branch_spec branch l : allowed_branch branch l = true ↔ ∃ p, p ∈ l ∧ pattern_matches p branch.
Proof.
  induction l as [|p l IH]; simpl; [split; [done|intros (p & Hp & _); by apply not_elem_of_nil in Hp]|].
  assert (∀ (a b : bool), (if a then true else b) = true ↔ a = true ∨ b = true) as Hor
    by (intros [] []; naive_solver).
  transitivity (pattern_matches p branch ∨ allowed_branch branch l = true).
  { rewrite <- pattern_test. destruct (HasSuffix p "*"); rewrite Hor; reflexivity. }
  rewrite IH. set_solver.
Qed.

(** The branches a configuration deploys. *)
Definition deployed_branch (defaultBranch branch : string) (patterns : list string) : Prop :=
  (patterns = [] ∧ (branch = defaultBranch ∨ branch = "master")) ∨
  ∃ p, p ∈ patterns ∧ pattern_matches p branch.

Lemma shouldDeployBranch_spec d branch l : shouldDeployBranch d branch l = true ↔ deployed_branch d branch l.
Proof.
  unfold shouldDeployBranch, deployed_branch. destruct l as [|p l].
  - simpl. rewrite orb_true_iff, !bool_decide_eq_true. split; [by left|].
    intros [[_ ?]|(p & Hp & _)]; [done|by apply not_elem_of_nil in Hp].
  - assert ((len (p :: l) =? 0) = false) as -> by (apply Z.eqb_neq; unfold len; simpl; lia).
    rewrite allowed_branch_spec. split; [by right|]. by intros [[? _]|?].
Qed.

(** ** The processor *)

Section processed.
Context (projects : string → option WebhookConfig + gerror)
        (orchestrator : list deploy_request → deploy_request → string + gerror) (defaultBranch : string).

#[local] Abbreviation processor := (DefaultEventProcessor projects orchestrator defaultBranch).

(** The project is configured to deploy on what [enabled] says. *)
Definition configured (projectID : string) (enabled : WebhookConfig → Prop) : Prop :=
  ∃ cfg, projects projectID = inl (Some cfg) ∧ cfg.(WebhookConfig.Enabled) = true ∧ enabled cfg.

(** What each kind of event asks for. *)
Definition push_deploys (e : PushEvent) : Prop :=
  e.(PushEvent.Deleted) = false ∧
  configured e.(PushEvent.ProjectID) (λ cfg, cfg.(WebhookConfig.AutoDeploy) = true ∧
    deployed_branch (NewEventProcessor defaultBranch) e.(PushEvent.Branch) cfg.(WebhookConfig.AutoDeployBranches)).

Definition pull_request_deploys (e : PullRequestEvent) : Prop :=
  configured e.(PullRequestEvent.ProjectID) (λ cfg, cfg.(WebhookConfig.AutoDeployOnPR) = true) ∧
  e.(PullRequestEvent.Action) ∈ ["opened"; "synchronize"; "reopened"].

Definition tag_deploys (e : TagEvent) : Prop :=
  e.(TagEvent.Deleted) = false ∧
  configured e.(TagEvent.ProjectID) (λ cfg, cfg.(WebhookConfig.AutoDeployOnTag) = true).

(** One request if it is wanted, otherwise none and no failure but that of the look-up. *)
Definition outcome (wanted : Prop) (looked_up : bool) (projectID : string) (req : deploy_request)
    (made : list deploy_request) (r : list deploy_request * option gerror) : Prop :=
  (wanted ∧ r = (made ++ [req], match orchestrator made req with
                                | inr e => Some (wrapf "triggering deployment" e) | inl _ => None end)) ∨
  (¬ wanted ∧ r = (made, match projects projectID with
                         | inr e => if looked_up then Some (wrapf "getting webhook config" e) else None
                         | inl _ => None end)).

Lemma configured_cases projectID (enabled : WebhookConfig → bool) (P : WebhookConfig → Prop)
    (k : WebhookConfig → list deploy_request * option gerror) req made :
  (∀ cfg, enabled cfg = true → P cfg ∧ k cfg = Processor.trigger orchestrator req made ∨ ¬ P cfg ∧ k cfg = (made, None)) →
  (∀ cfg, enabled cfg = false → ¬ P cfg) →
  outcome (configured projectID P) true projectID req made (Processor.with_config projects projectID enabled k made).
Proof.
  intros Hk Hd. unfold outcome, Processor.with_config, configured.
  destruct (projects projectID) as [[cfg|]|e];
    [|right; split; [by intros (? & ? & _)|done]..].
  destruct (WebhookConfig.Enabled cfg) eqn:Ee; simpl;
    [|right; split; [intros (? & [= <-] & ? & _); congruence|done]].
  destruct (enabled cfg) eqn:Ed; simpl;
    [|right; split; [intros (? & [= <-] & _ & ?); by apply (Hd cfg)|done]].
  destruct (Hk cfg Ed) as [[HP ->]|[HP ->]]; [left|right]; (split; [|done]); [by exists cfg|].
  by intros (? & [= <-] & _ & ?).
Qed.

Lemma process_push_outcome e made :
  outcome (push_deploys e) (negb e.(PushEvent.Deleted)) e.(PushEvent.ProjectID) (Processor.push_request e) made
    (@ProcessPush _ processor e made).
Proof.
  simpl. unfold Processor.process_push, push_deploys. destruct (PushEvent.Deleted e); simpl.
  { right. split; [naive_solver|]. by destruct (projects _). }
  match goal with |- outcome _ _ _ ?req _ (Processor.with_config _ _ _ ?k _) =>
    destruct (configured_cases (PushEvent.ProjectID e) WebhookConfig.AutoDeploy
      (λ cfg, WebhookConfig.AutoDeploy cfg = true ∧ deployed_branch (NewEventProcessor defaultBranch)
         (PushEvent.Branch e) (WebhookConfig.AutoDeployBranches cfg)) k req made) as [[? ->]|[? ->]] end.
  - intros cfg Hc. rewrite <- shouldDeployBranch_spec.
    destruct (shouldDeployBranch _ _ _); [left|right]; naive_solver.
  - intros cfg Hc. rewrite Hc. naive_solver.
  - by left.
  - right. split; [naive_solver|done].
Qed.

Lemma process_tag_outcome e made :
  outcome (tag_deploys e) (negb e.(TagEvent.Deleted)) e.(TagEvent.ProjectID) (Processor.tag_request e) made
    (@ProcessTag _ processor e made).
Proof.
  simpl. unfold Processor.process_tag, tag_deploys. destruct (TagEvent.Deleted e); simpl.
  { right. split; [naive_solver|]. by destruct (projects _). }
  match goal with |- outcome _ _ _ ?req _ (Processor.with_config _ _ _ ?k _) =>
    destruct (configured_cases (TagEvent.ProjectID e) WebhookConfig.AutoDeployOnTag
      (λ cfg, WebhookConfig.AutoDeployOnTag cfg = true) k req made) as [[? ->]|[? ->]] end.
  - intros cfg Hc. by left.
  - intros cfg Hc. by rewrite Hc.
  - by left.
  - right. split; [naive_solver|done].
Qed.

Lemma process_pull_request_outcome e made :
  outcome (pull_request_deploys e) true e.(PullRequestEvent.ProjectID) (Processor.pull_request e) made
    (@ProcessPullRequest _ processor e made).
Proof.
  simpl. unfold Processor.process_pull_request, pull_request_deploys.
  match goal with |- outcome _ _ _ ?req _ (Processor.with_config _ _ _ ?k _) =>
    destruct (configured_cases (PullRequestEvent.ProjectID e) WebhookConfig.AutoDeployOnPR
      (λ cfg, WebhookConfig.AutoDeployOnPR cfg = true ∧
         PullRequestEvent.Action e ∈ ["opened"; "synchronize"; "reopened"]) k req made) as [[Hc ->]|[Hc ->]] end.
  - intros cfg Hc. rewrite !elem_of_cons, elem_of_nil.
    assert (∀ b, b = true ∨ b = false) as Hb by (intros []; auto).
    match goal with |- context [if ?b then _ else _] => destruct (Hb b) as [E|E]; rewrite E; [left|right] end.
    + rewrite !orb_true_iff, !bool_decide_eq_true in E. naive_solver.
    + rewrite !orb_false_iff, !bool_decide_eq_false in E. naive_solver.
  - intros cfg Hc. rewrite Hc. naive_solver.
  - left. split; [|done]. destruct Hc as (cfg & ? & ? & ? & ?). split; [by exists cfg|done].
  - right. split; [|done]. intros [(cfg & ? & ? & ?) ?]. apply Hc. by exists cfg.
Qed.

End processed.

(** ** Requests *)

Lemma cut_slash s : ∃ rest, s = (cut slash s).1 +:+ rest ∧ free_of slash (cut slash s).1 = true ∧
  (rest = "" ∨ ∃ r, rest = String slash r).
Proof.
  induction s as [|c s IH]; cbn [cut]; [by exists ""; auto|].
  destruct (Ascii.eqb_spec c slash) as [->|Hne].
  - exists (String slash s). split_and!; [done..|]. right. by exists s.
  - destruct IH as (rest & Hs & Hf & Hr). destruct (cut slash s) as [a r]. cbn [fst] in *. exists rest.
    split_and!; [|by rewrite free_of_cons|done].
    change (String c s = String c (a +:+ rest)). by rewrite <- Hs.
Qed.

(** The path names the project: the part after the prefix, up to the next slash. *)
Definition names_project (prefix path id : string) : Prop :=
  ∃ rest, path = prefix +:+ id +:+ rest ∧ free_of slash id = true ∧ (rest = "" ∨ ∃ r, rest = String slash r).

Lemma extractProjectID_spec path prefix :
  extractProjectID path prefix ≠ "" → names_project prefix path (extractProjectID path prefix).
Proof.
  unfold extractProjectID. destruct (HasPrefix path prefix) eqn:E; [|done]. intros _. cbn [negb].
  destruct (cut_slash (TrimPrefix path prefix)) as (rest & Hs & Hf & Hr). exists rest. split_and!; [|done..].
  assert (TrimPrefix path prefix = drop_chars (String.length prefix) path) as Et by (unfold TrimPrefix; by rewrite E).
  apply HasPrefix_spec in E. by rewrite E at 1; rewrite <- Et, Hs at 1.
Qed.

Lemma extractProjectID_names prefix path id : names_project prefix path id → extractProjectID path prefix = id.
Proof.
  intros (rest & -> & Hf & Hr). unfold extractProjectID. unfold HasPrefix.
  rewrite (GoStrings.prefix_app prefix (id +:+ rest)). cbn [negb]. rewrite TrimPrefix_app.
  induction id as [|c id IH]; [by destruct Hr as [->|[r ->]]|]. apply free_of_cons in Hf as [Hc Hf].
  change (String c id +:+ rest) with (String c (id +:+ rest)). cbn [cut].
  rewrite (proj2 (Ascii.eqb_neq _ _)) by done. specialize (IH Hf). destruct (cut slash (id +:+ rest)).
  cbn [fst] in *. by f_equal.
Qed.

Lemma extractProjectID_self prefix id : free_of slash id = true → extractProjectID (prefix +:+ id) prefix = id.
Proof. intros Hf. apply extractProjectID_names. exists "". split_and!; [by rewrite app_empty_r|done|by left]. Qed.

Lemma valid_id_free id : isValidProjectID id = true → id ≠ "" ∧ free_of slash id = true.
Proof.
  unfold isValidProjectID. case_bool_decide; [done|]. cbn [orb]. destruct (_ <? _); [done|]. intros Ha. split; [done|].
  rewrite free_of_chars. eapply all_chars_impl; [|done]. intros c Hc. apply negb_true_iff, Ascii.eqb_neq.
  by intros ->.
Qed.

Section handled.
Context {W : Type} `{EventProcessor W, Decoder, SecretStore} (hmac_sha256 : string → string → list Z).

(** A request with the credentials the provider gives: the project of its path is valid
    and known, and its body, of a mebibyte at most, goes with the secret of the project if
    that has one; a project without may not require one. *)
Definition authentic (prefix : string) (proof : string → string → request → Prop) (r : request) : Prop :=
  ∃ id body secret, names_project prefix (Path r) id ∧ isValidProjectID id = true ∧
    Body r = Some body ∧ Z.of_nat (String.length body) ≤ 2 ^ 20 ∧
    GetWebhookSecret id = inl secret ∧ (secret = "" → IsSecretRequired id = false) ∧
    (secret ≠ "" → proof secret body r).

Definition github_proof (secret body : string) (r : request) : Prop :=
  Header r "X-Hub-Signature-256" = "sha256=" +:+ hex_encode (hmac_sha256 secret body).
Definition gitlab_proof (secret body : string) (r : request) : Prop := Header r "X-Gitlab-Token" = secret.

(** Nothing is done and the request is answered with an error. *)
Definition refused (w : W) (o : W * response) : Prop := o.1 = w ∧ Code o.2 ∈ [400; 401; 500].

Lemma reject_refused msg code w : code ∈ [400; 401; 500] → refused w (Handler.reject msg code w).
Proof. by intros Hc. Qed.

Lemma with_project_cases r prefix w k :
  refused w (Handler.with_project r prefix w k) ∨
  ∃ id body, names_project prefix (Path r) id ∧ isValidProjectID id = true ∧ Body r = Some body ∧
    Z.of_nat (String.length body) ≤ 2 ^ 20 ∧ Handler.with_project r prefix w k = k id body.
Proof.
  unfold Handler.with_project. case_bool_decide as Hid; [left; apply reject_refused; repeat constructor|].
  destruct (isValidProjectID _) eqn:Ev; cbn [negb]; [|left; apply reject_refused; repeat constructor].
  destruct (read_body r) as [body|] eqn:Eb; [|left; apply reject_refused; repeat constructor].
  right. unfold read_body in Eb. destruct (Body r) as [b|]; [|done].
  destruct (Z.ltb_spec (2 ^ 20) (Z.of_nat (String.length b))); [done|]. injection Eb as ->.
  exists (extractProjectID (Path r) prefix), body. split_and!; auto. by apply extractProjectID_spec.
Qed.

Lemma validateGitHubSignature_spec body signature secret required :
  Handler.validateGitHubSignature hmac_sha256 body signature secret required = true ↔
  (secret = "" → required = false) ∧
  (secret ≠ "" → signature = "sha256=" +:+ hex_encode (hmac_sha256 secret body)).
Proof.
  unfold Handler.validateGitHubSignature. case_bool_decide as Hs; [rewrite negb_true_iff; naive_solver|].
  destruct (HasPrefix signature "sha256=") eqn:E; cbn [negb].
  - rewrite bool_decide_eq_true. unfold TrimPrefix. rewrite E. apply HasPrefix_spec in E. split.
    + intros Hd. split; [done|]. intros _. by rewrite E, Hd.
    + intros [_ Hd]. specialize (Hd Hs). rewrite Hd. apply drop_chars_app.
  - split; [done|]. intros [_ Hd]. specialize (Hd Hs). rewrite Hd in E. unfold HasPrefix in E.
    by rewrite GoStrings.prefix_app in E.
Qed.

Lemma github_refused r w : ¬ authentic "/webhook/github/" github_proof r → refused w (Handler.HandleGitHub hmac_sha256 r w).
Proof.
  intros Hn. unfold Handler.HandleGitHub.
  match goal with |- refused _ (Handler.with_project _ _ _ ?k) =>
    destruct (with_project_cases r "/webhook/github/" w k) as [?|(id & body & Hp & Hv & Hb & Hl & ->)]; [done|] end.
  destruct (GetWebhookSecret id) as [secret|] eqn:Es; [|apply reject_refused; repeat constructor].
  destruct (Handler.validateGitHubSignature _ _ _ _ _) eqn:Ev; cbn [negb]; [|apply reject_refused; repeat constructor].
  apply validateGitHubSignature_spec in Ev as [Ev1 Ev2]. destruct Hn. by exists id, body, secret.
Qed.

Lemma gitlab_refused r w : ¬ authentic "/webhook/gitlab/" gitlab_proof r → refused w (Handler.HandleGitLab r w).
Proof.
  intros Hn. unfold Handler.HandleGitLab.
  match goal with |- refused _ (Handler.with_project _ _ _ ?k) =>
    destruct (with_project_cases r "/webhook/gitlab/" w k) as [?|(id & body & Hp & Hv & Hb & Hl & ->)]; [done|] end.
  destruct (GetWebhookSecret id) as [secret|] eqn:Es; [|apply reject_refused; repeat constructor].
  case_bool_decide as E1; cbn [andb negb].
  - destruct (IsSecretRequired id) eqn:Er; [apply reject_refused; repeat constructor|].
    destruct Hn. by exists id, body, secret.
  - case_bool_decide as E2; cbn [negb]; [|apply reject_refused; repeat constructor].
    destruct Hn. by exists id, body, secret.
Qed.

End handled.

(** ** Secrets *)

Section secrets.
Import Projects Service.

Lemma get_webhook `{MapRange} projectID provider s w :
  Projects.wf s → GetProjectWebhook projectID provider s = Ok w ↔
  webhooks s !! w.(ProjectWebhook.ID) = Some w ∧ w.(ProjectWebhook.ProjectID) = projectID ∧
  w.(ProjectWebhook.Provider) = provider.
Proof.
  intros Hw. unfold GetProjectWebhook. split.
  - destruct (range_find _ _) as [[k v]|] eqn:E; [|done]. intros [= ->]. apply range_find_Some in E as [Hk Hp].
    unfold webhook_of in Hp. apply andb_true_iff in Hp as [?%bool_decide_eq_true ?%bool_decide_eq_true].
    by rewrite (wf_webhooks s Hw k w Hk).
  - intros (Hk & Hp & Hq). rewrite (range_find_unique _ _ _ w Hk); [done| |].
    + unfold webhook_of. by rewrite !bool_decide_true.
    + intros k' w' Hk' Hp'. unfold webhook_of in Hp'.
      apply andb_true_iff in Hp' as [E1%bool_decide_eq_true E2%bool_decide_eq_true].
      eapply (wf_webhook_keys s Hw); [done..| |]; congruence.
Qed.

Lemma get_webhook_total `{MapRange} projectID provider s :
  (∃ w, GetProjectWebhook projectID provider s = Ok w) ∨ GetProjectWebhook projectID provider s = Err ErrNotFound.
Proof. unfold GetProjectWebhook. destruct (range_find _ _) as [[]|]; eauto. Qed.

Lemma get_webhook_ext (R R' : MapRange) s s' p q :
  Projects.wf s → Projects.wf s' →
  (∀ w, w.(ProjectWebhook.ProjectID) = p → w.(ProjectWebhook.Provider) = q →
     webhooks s' !! w.(ProjectWebhook.ID) = Some w ↔ webhooks s !! w.(ProjectWebhook.ID) = Some w) →
  @GetProjectWebhook R' p q s' = @GetProjectWebhook R p q s.
Proof.
  intros Hw Hw' Hx. destruct (@get_webhook_total R' p q s') as [[w E]|E].
  - rewrite E. symmetry. apply get_webhook; [done|]. apply get_webhook in E as (Hk & Hp & Hq); [|done].
    split_and!; [by apply Hx|done..].
  - rewrite E. destruct (@get_webhook_total R p q s) as [[w E']|E']; [|done].
    apply get_webhook in E' as (Hk & Hp & Hq); [|done].
    assert (@GetProjectWebhook R' p q s' = Ok w) as E2 by (apply get_webhook; [done|split_and!; [by apply Hx|done..]]).
    congruence.
Qed.

Lemma set_webhook `{MapRange} projectID provider enc enabled required now xid s :
  Projects.wf s → webhooks s !! xid = None →
  let s' := st (SetProjectWebhook projectID provider enc enabled required now xid s) in
  Projects.wf s' ∧ projHeap s' = projHeap s ∧ projectsByName s' = projectsByName s ∧
  ∃ id w, webhooks s' = <[id := w]> (webhooks s) ∧
    w.(ProjectWebhook.ProjectID) = projectID ∧ w.(ProjectWebhook.Provider) = provider ∧
    w.(ProjectWebhook.SecretEncrypted) = enc ∧ w.(ProjectWebhook.Enabled) = enabled ∧
    w.(ProjectWebhook.RequireSecret) = required ∧ w.(ProjectWebhook.ID) = id ∧
    ∀ w0, webhooks s !! id = Some w0 →
      w0.(ProjectWebhook.ProjectID) = projectID ∧ w0.(ProjectWebhook.Provider) = provider.
Proof.
  intros Hw Hx s'. split.
  { by apply (projects_run_wf (CSetProjectWebhook projectID provider enc enabled required now xid)). }
  unfold s', SetProjectWebhook. destruct (range_find _ _) as [[id w]|] eqn:E; simpl; (split; [done|]); (split; [done|]).
  - apply range_find_Some in E as [Hk Hp]. apply webhook_of_true in Hp as [Hp Hq].
    eexists id, _. split; [done|]. split_and!; [done..|exact (wf_webhooks s Hw id w Hk)|].
    intros w0 Hw0. assert (w0 = w) as -> by congruence. done.
  - eexists xid, _. split; [done|]. split_and!; [done..|]. intros w0 Hw0. congruence.
Qed.

(** What setting a webhook leaves behind, for every pair of a project and a provider. *)
Lemma get_set_webhook `{R : MapRange} projectID provider enc enabled required now xid s (R' : MapRange) p q :
  Projects.wf s → webhooks s !! xid = None →
  let s' := st (@SetProjectWebhook R projectID provider enc enabled required now xid s) in
  if bool_decide (p = projectID ∧ q = provider)
  then ∃ w, @GetProjectWebhook R' p q s' = Ok w ∧ w.(ProjectWebhook.SecretEncrypted) = enc ∧
         w.(ProjectWebhook.Enabled) = enabled ∧ w.(ProjectWebhook.RequireSecret) = required
  else @GetProjectWebhook R' p q s' = @GetProjectWebhook R' p q s.
Proof.
  intros Hw Hx s'. destruct (@set_webhook R projectID provider enc enabled required now xid s Hw Hx)
    as (Hw' & _ & _ & id & w & Es & Hp & Hq & He & Hen & Hr & Hid & Hold). fold s' in Hw', Es.
  case_bool_decide as E.
  - destruct E as [-> ->]. exists w. split_and!; [|done..]. apply get_webhook; [exact Hw'|].
    by rewrite Es, Hid, lookup_insert_eq.
  - apply get_webhook_ext; [done..|]. intros w' Hp' Hq'. rewrite Es.
    destruct (decide (ProjectWebhook.ID w' = id)) as [Ei|Ei]; [|by rewrite lookup_insert_ne].
    rewrite Ei, lookup_insert_eq. split; [intros [= ->]|intros Hk; apply Hold in Hk]; destruct E; naive_solver.
Qed.

(** What is stored for a secret: the secret itself, or its encryption. *)
Definition stored_as (kms : option KMS) (secret enc : list Z) : Prop :=
  ((kms = None ∨ secret = []) ∧ enc = secret) ∨
  ∃ k e, kms = Some k ∧ secret ≠ [] ∧ EncryptString k (string_of secret) = inl e ∧ enc = bytes_of e.

Lemma Set_cases `{MapRange} kms projectID provider secret enabled required now xid s :
  let o := Set_ kms projectID provider secret enabled required now xid s in
  (ret o ≠ Ok tt ∧ ∃ k, kms = Some k ∧ secret ≠ [] ∧ ∀ e, EncryptString k (string_of secret) ≠ inl e) ∨
  (ret o = Ok tt ∧ ∃ enc, st o = st (SetProjectWebhook projectID provider enc enabled required now xid s) ∧
     stored_as kms secret enc).
Proof.
  assert (∀ enc, ret (SetProjectWebhook projectID provider enc enabled required now xid s) = Ok tt) as Hok
    by (intros enc; unfold SetProjectWebhook; by repeat case_match).
  unfold Set_. destruct kms as [k|]; cbn -[SetProjectWebhook].
  - destruct secret as [|b secret].
    + change (0 <? len []) with false. cbn iota. right. split; [cbn; by rewrite Hok|].
      exists []. split; [done|]. left. auto.
    + assert ((0 <? len (b :: secret)) = true) as -> by (apply Z.ltb_lt; unfold len; simpl; lia).
      destruct (EncryptString k (string_of (b :: secret))) as [e|e] eqn:E.
      * right. split; [cbn; by rewrite Hok|]. exists (bytes_of e). split; [done|]. right. by exists k, e.
      * left. split; [done|]. exists k. split_and!; [done..|]. congruence.
  - right. split; [cbn; by rewrite Hok|]. exists secret. split; [done|]. left. auto.
Qed.

(** The service undoes its own encryption, and its ciphertexts are not empty. *)
Definition invertible (kms : option KMS) : Prop := ∀ k, kms = Some k → undoes k.

Lemma stored_length kms secret enc :
  invertible kms → stored_as kms secret enc → enc = [] ↔ secret = [].
Proof.
  intros Hi [[_ ->]|(k & e & Hk & Hs & He & ->)]; [done|].
  apply (Hi k Hk) in He as [He _]. destruct e; [done|]. by split.
Qed.

Lemma stored_back kms k secret enc :
  invertible kms → bytes_ok secret → kms = Some k → secret ≠ [] → stored_as kms secret enc →
  DecryptString k (string_of enc) = inl (string_of secret).
Proof.
  intros Hi Hb Hk Hn [[[?|?] _]|(k' & e & Hk' & _ & He & ->)]; [congruence..|].
  assert (k' = k) as -> by congruence. rewrite string_of_bytes_of. by apply (Hi k Hk) in He as [_ ?].
Qed.

Lemma get_decrypted `{MapRange} kms projectID provider s w secret :
  invertible kms → bytes_ok secret → GetProjectWebhook projectID provider s = Ok w →
  stored_as kms secret w.(ProjectWebhook.SecretEncrypted) →
  GetDecryptedSecret kms projectID provider s = Ok secret.
Proof.
  intros Hi Hb Hg Hst. unfold GetDecryptedSecret. rewrite Hg. pose proof (stored_length _ _ _ Hi Hst) as Hl.
  destruct (ProjectWebhook.SecretEncrypted w) as [|b l] eqn:E; [by rewrite (proj1 Hl)|].
  assert ((len (b :: l) =? 0) = false) as -> by (apply Z.eqb_neq; unfold len; simpl; lia).
  assert (secret ≠ []) as Hn by (intros Hs; by apply Hl in Hs).
  destruct kms as [k|] eqn:Ek.
  - rewrite (stored_back (Some k) k secret) by done. by rewrite bytes_of_string_of.
  - destruct Hst as [[_ ->]|(? & ? & ? & _)]; done.
Qed.

Lemma first_provider `{MapRange} kms k s name project w secret :
  invertible kms → bytes_ok secret → kms = Some k → secret ≠ [] →
  GetProjectByName name s = Ok project → GetProjectWebhook project.(Project.ID) "github" s = Ok w →
  w.(ProjectWebhook.Enabled) = true → stored_as kms secret w.(ProjectWebhook.SecretEncrypted) →
  adapter_GetWebhookSecret kms s name = inl (string_of secret).
Proof.
  intros Hi Hb Hk Hn Hp Hg Hen Hst. unfold adapter_GetWebhookSecret. rewrite Hp. cbn [providers first_secret].
  unfold provider_secret. rewrite Hg, Hen. pose proof (stored_length _ _ _ Hi Hst) as Hl.
  assert ((0 <? len (ProjectWebhook.SecretEncrypted w)) = true) as ->.
  { destruct (ProjectWebhook.SecretEncrypted w); [by destruct Hn; apply Hl|]. apply Z.ltb_lt. unfold len. simpl. lia. }
  subst kms. cbn [andb]. by rewrite (stored_back (Some k) k secret).
Qed.

End secrets.

(** * Properties *)

(** C14: A webhook of GitHub or GitLab that does not prove to come from the provider has no
    effect.  Whatever the processor and the store of the secrets: if the path does not
    name a valid project, the body is over a mebibyte, the project has a secret and the
    signature or the token does not go with it, or it has none and requires one, then
    nothing is processed and the answer is an error. *)
Theorem webhook_authenticated {W} `{EventProcessor W, Decoder, SecretStore}
    (hmac_sha256 : string → string → list Z) (r : request) (w : W) :
  (¬ authentic "/webhook/github/" (github_proof hmac_sha256) r → refused w (Handler.HandleGitHub hmac_sha256 r w)) ∧
  (¬ authentic "/webhook/gitlab/" gitlab_proof r → refused w (Handler.HandleGitLab r w)).
Proof. split; [apply github_refused|apply gitlab_refused]. Qed.

(** What the processor asks the orchestrator for: a push asks for one deployment of its
    branch and commit if and only if it does not delete the branch, the project deploys
    automatically, and the branch is one of those configured - by name or by a prefix
    before a star, or, if none is configured, the default branch or [master]; a pull
    request or a tag asks for one if and only if the project deploys those and the action
    is an opening or an update, or the tag is not deleted.  Nothing else is asked for,
    and the only failures are those of the look-up and of the orchestrator. *)
Theorem deploys_exactly (projects : string → option WebhookConfig + gerror)
    (orchestrator : list deploy_request → deploy_request → string + gerror) (defaultBranch : string)
    (made : list deploy_request) :
  let processor := DefaultEventProcessor projects orchestrator defaultBranch in
  (∀ e, outcome projects orchestrator (push_deploys projects defaultBranch e) (negb e.(PushEvent.Deleted))
          e.(PushEvent.ProjectID) (Processor.push_request e) made (ProcessPush e made)) ∧
  (∀ e, outcome projects orchestrator (pull_request_deploys projects e) true
          e.(PullRequestEvent.ProjectID) (Processor.pull_request e) made (ProcessPullRequest e made)) ∧
  (∀ e, outcome projects orchestrator (tag_deploys projects e) (negb e.(TagEvent.Deleted))
          e.(TagEvent.ProjectID) (Processor.tag_request e) made (ProcessTag e made)).
Proof.
  split_and!; intros e; [apply process_push_outcome|apply process_pull_request_outcome|apply process_tag_outcome].
Qed.

(** Anybody can deploy through the webhook of Bitbucket: a request without any
    credentials, for a project that deploys pushes automatically, gets the named commit of
    an allowed branch deployed, also if the project has a secret and requires it; the same
    request to the webhook of GitHub is refused. *)
Theorem bitbucket_unauthenticated `{Decoder} (hmac_sha256 : string → string → list Z)
    (projects : string → option WebhookConfig + gerror)
    (orchestrator : list deploy_request → deploy_request → string + gerror) (defaultBranch : string)
    (id body : string) (p : BitbucketPush.payload) (c : BitbucketPush.change) (cfg : WebhookConfig)
    (made : list deploy_request) :
  isValidProjectID id = true → Z.of_nat (String.length body) ≤ 2 ^ 20 →
  decode_bitbucket_push body = Some p → p.(BitbucketPush.Changes) = [c] → c.(BitbucketPush.New_Type) = "branch" →
  projects id = inl (Some cfg) → cfg.(WebhookConfig.Enabled) = true → cfg.(WebhookConfig.AutoDeploy) = true →
  deployed_branch (NewEventProcessor defaultBranch) c.(BitbucketPush.New_Name) cfg.(WebhookConfig.AutoDeployBranches) →
  let processor := DefaultEventProcessor projects orchestrator defaultBranch in
  let unsigned prefix name value := mkHTTP "POST" (prefix +:+ id) (λ n, if bool_decide (n = name) then value else "") (Some body) in
  (∃ req, (Handler.HandleBitbucket (unsigned "/webhook/bitbucket/" "X-Event-Key" "repo:push") made).1 = made ++ [req] ∧
     req_project req = id ∧ req_branch req = c.(BitbucketPush.New_Name) ∧ req_commit req = c.(BitbucketPush.New_Hash)) ∧
  ∀ (secrets : SecretStore) secret, GetWebhookSecret id = inl secret → secret ≠ "" ∨ IsSecretRequired id = true →
    Handler.HandleGitHub hmac_sha256 (unsigned "/webhook/github/" "X-GitHub-Event" "push") made =
      (made, Error "Invalid signature" 401).
Proof.
  intros Hid Hl Hd Hc Ht Hp Hen Had Hb processor unsigned. subst processor.
  destruct (valid_id_free id Hid) as [Hne Hf].
  assert (∀ prefix name value w k, @Handler.with_project (list deploy_request) (unsigned prefix name value) prefix w k = k id body) as Hwp.
  { intros prefix name value w k. unfold Handler.with_project, unsigned. cbn [Path].
    rewrite extractProjectID_self by done. rewrite bool_decide_false, Hid by done. cbn [negb].
    unfold read_body. cbn [Body]. destruct (Z.ltb_spec (2 ^ 20) (Z.of_nat (String.length body))); [lia|done]. }
  split.
  - exists (Processor.push_request (PushEvent.mk "bitbucket" id p.(BitbucketPush.Repository_Href) c.(BitbucketPush.New_Name)
      c.(BitbucketPush.New_Hash) "" c.(BitbucketPush.New_Author) "" c.(BitbucketPush.New_Message) c.(BitbucketPush.New_Date)
      c.(BitbucketPush.Forced) false)). split; [|done].
    unfold Handler.HandleBitbucket. rewrite Hwp.
    change (Header (unsigned "/webhook/bitbucket/" "X-Event-Key" "repo:push") "X-Event-Key") with "repo:push".
    rewrite (bool_decide_false ("repo:push" = "")), bool_decide_true by done.
    unfold Handler.handleBitbucketPush. rewrite Hd, Hc. cbn [Handler.process_changes]. unfold Handler.process_change.
    rewrite Ht. cbn [andb]. rewrite (bool_decide_false ("branch" = "")), (bool_decide_true ("branch" = "branch")) by done.
    cbn [andb].
    match goal with |- context [ProcessPush ?e made] =>
      destruct (process_push_outcome projects orchestrator defaultBranch e made) as [[_ E]|[Hn _]] end;
      [rewrite E; by destruct (orchestrator _ _)|].
    destruct Hn. split; [done|]. exists cfg. done.
  - intros secrets secret Hs Hreq. unfold Handler.HandleGitHub. rewrite Hwp, Hs.
    change (Header (unsigned "/webhook/github/" "X-GitHub-Event" "push") "X-Hub-Signature-256") with "".
    destruct (Handler.validateGitHubSignature _ _ _ _ _) eqn:E; [|done].
    apply validateGitHubSignature_spec in E as [E1 E2]. destruct (decide (secret = "")) as [->|Hn].
    + rewrite E1 in Hreq by done. naive_solver.
    + specialize (E2 Hn). done.
Qed.

(** The actions GitLab sends in its merge request events. *)
Definition gitlab_actions : list string :=
  ["open"; "close"; "reopen"; "update"; "approved"; "unapproved"; "approval"; "unapproval"; "merge"].

(** Merge requests of GitLab are never deployed: the processor knows the actions by the
    names GitHub gives them, and GitLab has others, so its merge request events are
    accepted and come to nothing, also where the project deploys pull requests. *)
Theorem gitlab_merge_requests_ignored `{Decoder, SecretStore} (projects : string → option WebhookConfig + gerror)
    (orchestrator : list deploy_request → deploy_request → string + gerror) (defaultBranch : string)
    (r : request) (made : list deploy_request) :
  (∀ body p, decode_gitlab_mr body = Some p → p.(GitLabMR.Action) ∈ gitlab_actions) →
  Header r "X-Gitlab-Event" = "Merge Request Hook" →
  let processor := DefaultEventProcessor projects orchestrator defaultBranch in
  (Handler.HandleGitLab r made).1 = made.
Proof.
  intros Ha Hh processor. subst processor. unfold Handler.HandleGitLab.
  match goal with |- (Handler.with_project _ _ _ ?k).1 = _ =>
    destruct (with_project_cases r "/webhook/gitlab/" made k) as [[E _]|(id & body & _ & _ & _ & _ & ->)]; [done|] end.
  destruct (GetWebhookSecret id) as [secret|]; [|done].
  destruct (_ && _); [done|]. destruct (_ && _); [done|]. rewrite Hh.
  rewrite (bool_decide_false ("Merge Request Hook" = "Push Hook")), bool_decide_true by done.
  unfold Handler.handleGitLabMR. destruct (decode_gitlab_mr body) as [p|] eqn:Ep; [|done]. apply Ha in Ep.
  match goal with |- context [ProcessPullRequest ?e made] =>
    destruct (process_pull_request_outcome projects orchestrator defaultBranch e made) as [[[_ Hact] _]|[_ E]] end;
    [|rewrite E; by destruct (projects _) as [[]|]].
  exfalso. cbn in Hact. unfold gitlab_actions in Ep.
  repeat (apply elem_of_cons in Ep as [Ep|Ep]; [rewrite Ep in Hact; by vm_compute in Hact; set_solver|]). set_solver.
Qed.

(** ** Theorems on the secrets *)

Section secret_properties.
Import Projects Service.

(** Setting the secret of a webhook through the service.  If the key management service
    decrypts what it has encrypted and has no empty ciphertext, the call succeeds exactly
    when encrypting does; then the secret is read back as it was set, for the same project
    and provider and no other, and the server finds it if it is enabled, not empty, and of
    the first provider. *)
Theorem webhook_secret_roundtrip (R R' : MapRange) (kms : option KMS) (projectID provider : string)
    (secret : list Z) (enabled required : bool) (now : time) (xid : string) (s : State) :
  Projects.wf s → webhooks s !! xid = None → bytes_ok secret → invertible kms →
  let o := @Set_ R kms projectID provider secret enabled required now xid s in
  (ret o = Ok tt ↔ ∀ k, kms = Some k → secret ≠ [] → ∃ e, EncryptString k (string_of secret) = inl e) ∧
  (ret o = Ok tt →
    Projects.wf (st o) ∧ @GetDecryptedSecret R' kms projectID provider (st o) = Ok secret ∧
    (∀ p q, ¬ (p = projectID ∧ q = provider) →
      @GetDecryptedSecret R' kms p q (st o) = @GetDecryptedSecret R' kms p q s) ∧
    ∀ name project, GetProjectByName name s = Ok project → project.(Project.ID) = projectID →
      provider = "github" → enabled = true → secret ≠ [] → is_Some kms →
      @adapter_GetWebhookSecret R' kms (st o) name = inl (string_of secret)).
Proof.
  intros Hw Hx Hb Hi o.
  pose proof (@Set_cases R kms projectID provider secret enabled required now xid s) as Hc.
  cbv zeta in Hc. fold o in Hc. destruct Hc as [[Hf (k & Hk & Hn & He)]|[Hok (enc & Es & Hst)]].
  { split; [|done]. split; [done|]. intros Hall. destruct (Hall k Hk Hn) as [e ?]. by destruct (He e). }
  split.
  { split; [intros _|done]. intros k Hk Hn. destruct Hst as [[[?|?] _]|(k' & e & Hk' & _ & He & _)]; [congruence..|].
    exists e. congruence. }
  intros _. rewrite Es.
  destruct (@set_webhook R projectID provider enc enabled required now xid s Hw Hx) as (Hw' & Hh & Hn' & _).
  pose proof (λ p q, @get_set_webhook R projectID provider enc enabled required now xid s R' p q Hw Hx) as Hget.
  cbv zeta in Hget. split_and!; [done| | |].
  - specialize (Hget projectID provider). rewrite bool_decide_true in Hget by done.
    destruct Hget as (w & Hg & <- & _). by eapply get_decrypted.
  - intros p q Hpq. specialize (Hget p q). rewrite bool_decide_false in Hget by done.
    unfold GetDecryptedSecret. by rewrite Hget.
  - intros name project Hp <- -> -> Hn [k Hk]. specialize (Hget (Project.ID project) "github").
    rewrite bool_decide_true in Hget by done. destruct Hget as (w & Hg & <- & Hen & _).
    eapply (first_provider kms k); [done..| |done|done|done].
    unfold GetProjectByName, deref. by rewrite Hh, Hn'.
Qed.

(** A project has one secret for all providers, whichever it was set for: the first of
    GitHub, GitLab and Bitbucket that is enabled and can be decrypted.  So where a project
    has different secrets for GitHub and GitLab every genuine request of GitLab is refused;
    and where no secret can be decrypted - the key was lost, or the server has no key
    management - the project counts as one without secret, and unless it requires one every
    unsigned request is authentic. *)
Theorem one_secret_per_project `{MapRange} (hmac_sha256 : string → string → list Z) (kms : option KMS) (s : State)
    (name : string) (project : Project) :
  GetProjectByName name s = Ok project →
  let SS := webhookSecretStoreAdapter kms s in
  (∀ (W : Type) (P : EventProcessor W) (D : Decoder) x y r w,
     provider_secret kms s project.(Project.ID) "github" = Some x →
     provider_secret kms s project.(Project.ID) "gitlab" = Some y → x ≠ "" → x ≠ y →
     extractProjectID (Path r) "/webhook/gitlab/" = name → gitlab_proof y "" r →
     refused w (Handler.HandleGitLab r w)) ∧
  (Forall (λ q, provider_secret kms s project.(Project.ID) q = None) providers →
   Forall (λ q, requires s project.(Project.ID) q = false) providers → isValidProjectID name = true →
   ∀ r body, names_project "/webhook/github/" (Path r) name → Body r = Some body →
     Z.of_nat (String.length body) ≤ 2 ^ 20 → authentic "/webhook/github/" (github_proof hmac_sha256) r).
Proof.
  intros Hp SS. split.
  - intros W HW HD x y r w Hx Hy Hne Hxy Hid Hpr. apply gitlab_refused.
    intros (id & body & secret & Hn & _ & _ & _ & Hs & _ & Hpr'). apply extractProjectID_names in Hn.
    assert (id = name) as -> by congruence. cbn in Hs. unfold adapter_GetWebhookSecret in Hs. rewrite Hp in Hs.
    cbn in Hs. rewrite Hx in Hs. injection Hs as <-. specialize (Hpr' Hne). unfold gitlab_proof in *. congruence.
  - intros Hnone Hreq Hv r body Hn Hb Hl. exists name, body, "".
    unfold providers in Hnone, Hreq. rewrite !Forall_cons in Hnone, Hreq.
    destruct Hnone as (N1 & N2 & N3 & _), Hreq as (R1 & R2 & R3 & _).
    split_and!; [done..| |intros _|done]; cbn.
    + unfold adapter_GetWebhookSecret. rewrite Hp. cbn. by rewrite N1, N2, N3.
    + unfold adapter_IsSecretRequired. rewrite Hp. cbn. by rewrite R1, R2, R3.
Qed.

End secret_properties.

(** ** A project with a webhook *)

(** A body that says nothing, and payloads with one change and one merge request. *)
Definition demo_change : BitbucketPush.change := BitbucketPush.mkChange "main" "branch" "c0ffee" "msg" "" "eve" "" "" "" false.

Definition demo_decoder : Decoder := {|
  decode_github_push _ := None; decode_github_pr _ := None; decode_github_tag _ := None; decode_gitlab_push _ := None;
  decode_gitlab_mr _ := Some (GitLabMR.mk "open" 7 "title" "feature" "main" "bob" "group/app");
  decode_gitlab_tag _ := None;
  decode_bitbucket_push _ := Some (BitbucketPush.mk [demo_change] "group/app" "https://bitbucket.org/group/app");
  decode_bitbucket_pr _ := None
|}.

Definition demo_config : WebhookConfig := WebhookConfig.mk true true ["ma*"] true true "".
Definition demo_projects (id : string) : option WebhookConfig + gerror := inl (Some demo_config).
Definition demo_orchestrator (made : list deploy_request) (req : deploy_request) : string + gerror := inl "d1".

Lemma bitbucket_unauthenticated_witness :
  ∃ req, (@Handler.HandleBitbucket _ (DefaultEventProcessor demo_projects demo_orchestrator "") demo_decoder
           (mkHTTP "POST" "/webhook/bitbucket/web" (λ n, if bool_decide (n = "X-Event-Key") then "repo:push" else "")
              (Some "{}")) []).1 = [req] ∧ req_project req = "web".
Proof.
  destruct (@bitbucket_unauthenticated demo_decoder (λ _ _, []) demo_projects demo_orchestrator "" "web" "{}"
    (BitbucketPush.mk [demo_change] "group/app" "https://bitbucket.org/group/app") demo_change demo_config [])
    as [(req & E & H1 & _) _]; try reflexivity.
  - vm_compute. discriminate.
  - right. exists "ma*". split; [left|]. left. by exists "ma", "in".
  - exists req. split; [exact E|exact H1].
Defined.

Lemma gitlab_merge_requests_ignored_witness :
  let SS : SecretStore := {| GetWebhookSecret _ := inl ""; IsSecretRequired _ := false |} in
  let D := demo_decoder in
  let P := DefaultEventProcessor demo_projects demo_orchestrator "" in
  (Handler.HandleGitLab (mkHTTP "POST" "/webhook/gitlab/web"
     (λ n, if bool_decide (n = "X-Gitlab-Event") then "Merge Request Hook" else "") (Some "{}")) []).1 = [].
Proof.
  intros SS D P. apply (@gitlab_merge_requests_ignored D SS demo_projects demo_orchestrator "").
  - intros body p [= <-]. left.
  - by vm_compute.
Defined.

Section secret_witnesses.
Import Projects Service.

(** A service that puts a version in front, and one that lost its key. *)
Definition demo_kms : KMS := mkKMS (λ x, inl ("v1:" +:+ x)) (λ e, inl (TrimPrefix e "v1:")).
Definition lost_kms : KMS := mkKMS (λ x, inl ("v1:" +:+ x)) (λ e, inr (Errorf "no key")).

Lemma webhook_secret_roundtrip_witness :
  let R := range_in_key_order in
  let o := Set_ (Some demo_kms) "p1" "github" [115; 51] true true 9 "w9" Projects.demo in
  ret o = Ok tt ∧ GetDecryptedSecret (Some demo_kms) "p1" "github" (st o) = Ok [115; 51].
Proof.
  intros R o. assert (ret o = Ok tt) as Hok by by vm_compute. split; [exact Hok|].
  apply (webhook_secret_roundtrip R R (Some demo_kms) "p1" "github" [115; 51] true true 9 "w9" Projects.demo);
    [|by vm_compute|by repeat constructor; lia| |exact Hok].
  - apply Projects.projects_reachable_wf, Projects.projects_demo_reachable.
  - intros k [= <-] x e [= <-]. split; [done|]. cbn [DecryptString demo_kms]. by rewrite TrimPrefix_app.
Defined.

Lemma one_secret_per_project_witness :
  let R := range_in_key_order in
  let SS := webhookSecretStoreAdapter (Some lost_kms)
    (st (SetProjectWebhook "p1" "github" [1] true false 9 "w9" Projects.demo)) in
  authentic "/webhook/github/" (github_proof (λ _ _, [])) (mkHTTP "POST" "/webhook/github/web" (λ _, "") (Some "{}")).
Proof.
  intros R SS. set (s := st (SetProjectWebhook "p1" "github" [1] true false 9 "w9" Projects.demo)).
  set (web := Project.mk "p1" "web" "git" "main" "/srv" None 1 1 None "" None false false).
  assert (GetProjectByName "web" s = Ok web) as Hp by by vm_compute.
  apply (@one_secret_per_project R (λ _ _, []) (Some lost_kms) s "web" web Hp) with (body := "{}").
  - repeat constructor.
  - repeat constructor.
  - done.
  - exists "". split_and!; [done..|by left].
  - done.
  - vm_compute. discriminate.
Defined.

End secret_witnesses.
