(* ===== verification/Regex.v ===== *)
(** Regular expressions, as package [regexp] matches them.

    The patterns of the program are anchored, so a match is a match of the whole text.
    [matches] says which texts an expression describes; [MatchString] decides it by
    derivatives.  The program uses characters classes of bytes below 128, so a text is
    taken byte by byte.  Repetitions [{n,m}], [*], [+] and [?] of a class are one
    constructor, with no upper bound for [*] and [+]. *)

From S2P Require Import GoStrings StoreBase.

#[local] Open Scope string_scope.
#[local] Open Scope list_scope.

Inductive re :=
| Nothing
| Epsilon
| Repeat (p : Ascii.ascii → bool) (lo : nat) (hi : option nat)
| Then (r1 r2 : re)
| Either (r1 r2 : re)
| Many (r : re).

(** The notations of the patterns. *)
Definition One (p : Ascii.ascii → bool) : re := Repeat p 1 (Some 1%nat).
Definition Star (p : Ascii.ascii → bool) : re := Repeat p 0 None.
Definition Plus (p : Ascii.ascii → bool) : re := Repeat p 1 None.
Definition Char (c : Ascii.ascii) : re := One (Ascii.eqb c).
Definition Maybe (r : re) : re := Either Epsilon r.
Definition Literal (s : string) : re := foldr (λ c r, Then (Char c) r) Epsilon (String.list_ascii_of_string s).
Definition Any : re := Star (λ _, true).

(** ** Meaning *)

Definition below (n : nat) (hi : option nat) : Prop := match hi with Some m => (n ≤ m)%nat | None => True end.

Inductive matches : re → string → Prop :=
| match_epsilon : matches Epsilon ""
| match_repeat p lo hi s :
    all_chars p s = true → (lo ≤ String.length s)%nat → below (String.length s) hi → matches (Repeat p lo hi) s
| match_then r1 r2 s1 s2 : matches r1 s1 → matches r2 s2 → matches (Then r1 r2) (s1 +:+ s2)
| match_left r1 r2 s : matches r1 s → matches (Either r1 r2) s
| match_right r1 r2 s : matches r2 s → matches (Either r1 r2) s
| match_none r : matches (Many r) ""
| match_more r s1 s2 : s1 ≠ "" → matches r s1 → matches (Many r) s2 → matches (Many r) (s1 +:+ s2).

Create HintDb regex.
#[global] Hint Constructors matches : regex.

(** ** Deciding *)

Fixpoint nullable (r : re) : bool :=
  match r with
  | Nothing => false
  | Epsilon => true
  | Repeat _ lo _ => (lo =? 0)%nat
  | Then r1 r2 => nullable r1 && nullable r2
  | Either r1 r2 => nullable r1 || nullable r2
  | Many _ => true
  end.

(** [Then] and [Either] that drop what cannot match. *)
Definition seq_re (r1 r2 : re) : re :=
  match r1, r2 with
  | Nothing, _ | _, Nothing => Nothing
  | Epsilon, _ => r2
  | _, _ => Then r1 r2
  end.

Definition alt_re (r1 r2 : re) : re :=
  match r1, r2 with Nothing, _ => r2 | _, Nothing => r1 | _, _ => Either r1 r2 end.

Fixpoint derive (c : Ascii.ascii) (r : re) : re :=
  match r with
  | Nothing | Epsilon => Nothing
  | Repeat p lo hi =>
      if p c then
        match hi with
        | Some O => Nothing
        | Some (S m) => Repeat p (pred lo) (Some m)
        | None => Repeat p (pred lo) None
        end
      else Nothing
  | Then r1 r2 => if nullable r1 then alt_re (seq_re (derive c r1) r2) (derive c r2) else seq_re (derive c r1) r2
  | Either r1 r2 => alt_re (derive c r1) (derive c r2)
  | Many r => seq_re (derive c r) (Many r)
  end.

Fixpoint MatchString (r : re) (s : string) : bool :=
  match s with EmptyString => nullable r | String c s' => MatchString (derive c r) s' end.

(** ** Lemmas *)

Lemma matches_nothing s : ¬ matches Nothing s.
Proof. intros Hm. inversion Hm. Qed.

Lemma matches_epsilon s : matches Epsilon s ↔ s = "".
Proof. split; [intros Hm; by inversion Hm|]. intros ->. constructor. Qed.

Lemma matches_repeat p lo hi s :
  matches (Repeat p lo hi) s ↔ all_chars p s = true ∧ (lo ≤ String.length s)%nat ∧ below (String.length s) hi.
Proof. split; [intros Hm; by inversion Hm|]. intros (? & ? & ?). by constructor. Qed.

Lemma matches_then r1 r2 s : matches (Then r1 r2) s ↔ ∃ s1 s2, s = s1 +:+ s2 ∧ matches r1 s1 ∧ matches r2 s2.
Proof.
  split; [intros Hm; inversion Hm; subst; eauto|]. intros (s1 & s2 & -> & ? & ?). by constructor.
Qed.

Lemma matches_either r1 r2 s : matches (Either r1 r2) s ↔ matches r1 s ∨ matches r2 s.
Proof. split; [intros Hm; inversion Hm; subst; auto|]. intros [?|?]; auto with regex. Qed.

Lemma matches_maybe r s : matches (Maybe r) s ↔ s = "" ∨ matches r s.
Proof. unfold Maybe. by rewrite matches_either, matches_epsilon. Qed.

Lemma matches_star p s : matches (Star p) s ↔ all_chars p s = true.
Proof. unfold Star. rewrite matches_repeat. simpl. split; [by intros (? & _)|]. intros. split_and!; [done|lia|done]. Qed.

Lemma matches_one p s : matches (One p) s ↔ ∃ c, s = String c "" ∧ p c = true.
Proof.
  unfold One. rewrite matches_repeat. simpl. split.
  - intros (Hp & Hl & Hu). destruct s as [|c [|d s]]; simpl in *; [lia| |lia]. exists c.
    by rewrite andb_true_r in Hp.
  - intros (c & -> & Hp). simpl. rewrite Hp. split_and!; [done|lia|lia].
Qed.

Lemma matches_one_then p r s : matches (Then (One p) r) s ↔ ∃ c s', s = String c s' ∧ p c = true ∧ matches r s'.
Proof.
  rewrite matches_then. setoid_rewrite matches_one. split.
  - intros (s1 & s2 & -> & (c & -> & Hp) & Hr). by exists c, s2.
  - intros (c & s' & -> & Hp & Hr). exists (String c ""), s'. split; [done|]. eauto.
Qed.

Lemma matches_literal l t : matches (Literal l) t ↔ t = l.
Proof.
  revert t. induction l as [|c l IH]; intros t; [apply matches_epsilon|].
  change (Literal (String c l)) with (Then (Char c) (Literal l)). unfold Char. rewrite matches_one_then.
  setoid_rewrite Ascii.eqb_eq. setoid_rewrite IH. naive_solver.
Qed.

Lemma matches_literal_then l r s : matches (Then (Literal l) r) s ↔ ∃ s', s = l +:+ s' ∧ matches r s'.
Proof.
  rewrite matches_then. setoid_rewrite matches_literal. split.
  - intros (s1 & s2 & -> & -> & ?). eauto.
  - intros (s' & -> & ?). eauto.
Qed.

Lemma nullable_spec r : nullable r = true ↔ matches r "".
Proof.
  induction r as [| |p lo hi|r1 IH1 r2 IH2|r1 IH1 r2 IH2|r IH]; simpl.
  - split; [done|]. intros Hm. by apply matches_nothing in Hm.
  - split; [constructor|done].
  - rewrite matches_repeat, Nat.eqb_eq. simpl. destruct hi; simpl; intuition lia.
  - rewrite andb_true_iff, IH1, IH2, matches_then. split.
    + intros [? ?]. by exists "", "".
    + intros ([|c s1] & [|d s2] & E & ? & ?); done.
  - by rewrite orb_true_iff, IH1, IH2, matches_either.
  - split; [constructor|done].
Qed.

Lemma matches_seq_re r1 r2 s : matches (seq_re r1 r2) s ↔ matches (Then r1 r2) s.
Proof.
  assert (∀ r, matches (Then r Nothing) s ↔ False) as Hn.
  { intros r. rewrite matches_then. split; [|done]. by intros (? & ? & _ & _ & ?%matches_nothing). }
  assert (∀ r, matches (Then Nothing r) s ↔ False) as Hn'.
  { intros r. rewrite matches_then. split; [|done]. by intros (? & ? & _ & ?%matches_nothing & _). }
  assert (∀ r, matches (Then Epsilon r) s ↔ matches r s) as He.
  { intros r. rewrite matches_then. setoid_rewrite matches_epsilon. split; [by intros (? & ? & -> & -> & ?)|].
    intros ?. by exists "", s. }
  pose proof (matches_nothing s). destruct r1, r2; simpl; rewrite ?Hn, ?Hn', ?He; done.
Qed.

Lemma matches_alt_re r1 r2 s : matches (alt_re r1 r2) s ↔ matches r1 s ∨ matches r2 s.
Proof.
  pose proof (matches_nothing s). destruct r1, r2; simpl; rewrite ?matches_either; naive_solver.
Qed.

(** A derivative matches the texts whose first character was taken off. *)
Lemma derive_spec c r : ∀ s, matches (derive c r) s ↔ matches r (String c s).
Proof.
  induction r as [| |p lo hi|r1 IH1 r2 IH2|r1 IH1 r2 IH2|r IH]; intros s; simpl.
  - split; intros Hm; by apply matches_nothing in Hm.
  - rewrite matches_epsilon. split; [|done]. intros Hm. by apply matches_nothing in Hm.
  - rewrite matches_repeat. simpl. destruct (p c); simpl.
    + destruct hi as [[|m]|]; rewrite ?matches_repeat; simpl; [|intuition lia..].
      split; [intros Hm; by apply matches_nothing in Hm|]. lia.
    + split; [intros Hm; by apply matches_nothing in Hm|]. by intros [? _].
  - assert (matches (Then r1 r2) (String c s) ↔
      matches (Then (derive c r1) r2) s ∨ nullable r1 = true ∧ matches (derive c r2) s) as ->.
    { rewrite !matches_then, nullable_spec, IH2. setoid_rewrite IH1. split.
      - intros ([|d s1] & s2 & E & H1 & H2); [change (String c s = s2) in E; subst s2; auto|].
        change (String c s = String d (s1 +:+ s2)) in E. injection E as -> ->. left. eauto.
      - intros [(s1 & s2 & -> & H1 & H2)|[H1 H2]]; [|by exists "", (String c s)]. by exists (String c s1), s2. }
    destruct (nullable r1); rewrite ?matches_alt_re, matches_seq_re; naive_solver.
  - by rewrite matches_alt_re, matches_either, IH1, IH2.
  - rewrite matches_seq_re, matches_then. setoid_rewrite IH. split.
    + intros (s1 & s2 & -> & H1 & H2). by apply (match_more r (String c s1) s2).
    + intros Hm. inversion Hm as [| | | | | |? s1 s2 Hne H1 H2 E1 E2]; subst.
      destruct s1 as [|d s1]; [done|]. change (String d (s1 +:+ s2) = String c s) in E2. injection E2 as -> <-. eauto.
Qed.

Lemma MatchString_spec r s : MatchString r s = true ↔ matches r s.
Proof.
  revert r. induction s as [|c s IH]; intros r; simpl; [apply nullable_spec|]. by rewrite IH, derive_spec.
Qed.
