(* ===== verification/Formats.v ===== *)
(** Input validation ([src/internal/validation/validation.go], [formats.go],
    [src/internal/services/validation.go], [src/internal/security/validation.go] and
    [password.go]).

    The patterns are expressions of [Regex], written as in the source.  Text is ASCII: a
    byte is a character.  Addresses, ranges and URLs are parsed by packages of the standard
    library, which are the class [Parsers].  A [Validator] collects errors: it is the list
    of them, and a method appends to it. *)

From stdpp Require Import pretty.
From S2P Require Import GoStrings StoreBase ServiceBase Deploy Regex SafePath Models MemUsers Access.

#[local] Open Scope string_scope.
#[local] Open Scope list_scope.
#[local] Open Scope Z_scope.

(** * Characters *)

Definition code (c : Ascii.ascii) : Z := Z.of_nat (Ascii.nat_of_ascii c).
Definition is_upper (c : Ascii.ascii) : bool := (65 <=? code c) && (code c <=? 90).
Definition is_lower (c : Ascii.ascii) : bool := (97 <=? code c) && (code c <=? 122).
Definition is_letter (c : Ascii.ascii) : bool := is_upper c || is_lower c.
Definition is_alnum (c : Ascii.ascii) : bool := is_letter c || is_digit c.

(** [strings.ContainsRune(set, c)] *)
Definition one_of (set : string) (c : Ascii.ascii) : bool := bool_decide (c ∈ String.list_ascii_of_string set).

Definition alnum_or (set : string) (c : Ascii.ascii) : bool := is_alnum c || one_of set c.

(** [strings.ContainsAny(s, set)] *)
Definition ContainsAny (s set : string) : bool := negb (all_chars (λ c, negb (one_of set c)) s).

(** * Patterns *)

(** A class with a repetition, after a first character. *)
Definition headed (p q : Ascii.ascii → bool) (lo : nat) (hi : option nat) : re := Then (One p) (Repeat q lo hi).

Definition UsernamePattern : re := headed is_letter (alnum_or "_") 2 (Some 31%nat).
Definition ProjectNamePattern : re := headed is_letter (alnum_or "_-") 1 (Some 63%nat).
Definition SecretKeyPattern : re := headed is_upper (λ c, is_upper c || is_digit c || one_of "_" c) 0 (Some 63%nat).
Definition BranchPattern : re := headed is_alnum (alnum_or "/_.-") 0 None.
Definition LabelKeyPattern : re := headed is_lower (λ c, is_lower c || is_digit c || one_of "_-" c) 0 (Some 62%nat).
Definition UnixUsernamePattern : re :=
  headed (λ c, is_lower c || one_of "_" c) (λ c, is_lower c || is_digit c || one_of "_-" c) 0 None.
Definition ServiceNamePattern : re := headed is_alnum (alnum_or "._@-") 0 None.

(** A label of a host name, and the name. *)
Definition label_re : re := Then (One is_alnum) (Maybe (Then (Repeat (alnum_or "-") 0 (Some 61%nat)) (One is_alnum))).
Definition hostnameRegex : re := Then label_re (Many (Then (Char (Ascii.ascii_of_nat 46)) label_re)).

Definition key_types : list string :=
  ["ssh-rsa"; "ssh-ed25519"; "ecdsa-sha2-nistp256"; "ecdsa-sha2-nistp384"; "ecdsa-sha2-nistp521"].

Definition regex_space (c : Ascii.ascii) : bool :=
  (code c =? 9) || (code c =? 10) || (code c =? 12) || (code c =? 13) || (code c =? 32).

(** Not anchored at the end. *)
Definition sshKeyRegex : re :=
  Then (foldr (λ k r, Either (Literal k) r) Nothing key_types)
    (Then (Plus regex_space) (Then (Plus (alnum_or "+/=")) Any)).

Definition agentIDRegex : re := headed is_alnum (alnum_or "_-") 2 (Some 63%nat).
Definition labelKeyRegex : re := headed is_alnum (alnum_or "_.-") 0 None.

(** * [validation] *)

(** What the standard library parses. *)
Class Parsers := {
  ParseIP : string → bool;
  ParseCIDR : string → bool;
  ParseAddress : string → bool;
  ParseURL : string → option (string * string)
}.

Module ValidationError.
Record ValidationError := mk { Field : string; Message : string }.
End ValidationError.
Abbreviation ValidationError := ValidationError.ValidationError.

Abbreviation Validator := (list ValidationError).

Definition NewValidator : Validator := [].
Definition HasErrors (v : Validator) : bool := 0 <? len v.
Definition Add (field message : string) (v : Validator) : Validator := v ++ [ValidationError.mk field message].

(** [if bad { v.errors.Add(field, message) }] *)
Definition add_if (bad : bool) (field message : string) (v : Validator) : Validator :=
  if bad then Add field message v else v.

(** [if value == "" { return v }] *)
Definition unless_blank (value : string) (f : Validator → Validator) (v : Validator) : Validator :=
  if bool_decide (value = "") then v else f v.

Definition Error (v : Validator) : string :=
  match v with
  | [] => "validation failed"
  | e :: _ => "validation failed: " +:+ e.(ValidationError.Field) +:+ " - " +:+ e.(ValidationError.Message)
  end.

Definition length_of (s : string) : Z := Z.of_nat (String.length s).

Definition Required (field value : string) : Validator → Validator :=
  add_if (bool_decide (TrimSpace value = "")) field "is required".

Definition MinLength (field value : string) (minLen : Z) : Validator → Validator :=
  add_if (length_of value <? minLen) field ("must be at least " +:+ pretty minLen +:+ " characters").

Definition MaxLength (field value : string) (maxLen : Z) : Validator → Validator :=
  add_if (maxLen <? length_of value) field ("must be at most " +:+ pretty maxLen +:+ " characters").

Definition Pattern (field value : string) (pattern : re) (message : string) : Validator → Validator :=
  add_if (negb (bool_decide (value = "")) && negb (MatchString pattern value)) field message.

Definition GitURL (field value : string) : Validator → Validator :=
  unless_blank value (λ v,
    if HasPrefix value "https://" || HasPrefix value "git://" || HasPrefix value "ssh://" ||
       (Contains value "@" && Contains value ":") then v
    else Add field "must be a valid git URL (https://, git://, ssh://, or git@host:path)" v).

Definition NoPathTraversal (field value : string) : Validator → Validator :=
  unless_blank value (λ v,
    if Contains value ".." then Add field "must not contain path traversal sequences" v
    else
      let cleaned := Clean value in
      add_if (IsAbs value && negb (HasPrefix cleaned "/var/") && negb (HasPrefix cleaned "/home/") &&
              negb (HasPrefix cleaned "/srv/")) field "absolute path must be within allowed directories" v).

(** [fmt.Sprintf("%v", list)] *)
Definition show_list (l : list string) : string := "[" +:+ GoStrings.Join l " " +:+ "]".

Definition SafePath_ (field value : string) (allowedBases : list string) : Validator → Validator :=
  unless_blank value (λ v,
    let cleaned := Clean value in
    if Contains cleaned ".." then Add field "must not contain path traversal sequences" v
    else if negb (IsAbs cleaned) then Add field "must be an absolute path" v
    else add_if (negb (existsb (HasPrefix cleaned) allowedBases)) field
           ("must be under one of: " +:+ show_list allowedBases) v).

Definition extra_char (c : Ascii.ascii) : string :=
  if code c =? 45 then "hyphens" else if code c =? 95 then "underscores"
  else if code c =? 46 then "dots" else if code c =? 47 then "slashes"
  else "'" +:+ String c "'".

Definition extraCharsMessage (extra : string) : string :=
  if bool_decide (extra = "") then ""
  else ", " +:+ GoStrings.Join (extra_char <$> String.list_ascii_of_string extra) ", ".

Definition Alphanumeric (field value allowedExtra : string) : Validator → Validator :=
  unless_blank value
    (add_if (negb (all_chars (alnum_or allowedExtra) value)) field
       ("must contain only letters, numbers" +:+ extraCharsMessage allowedExtra)).

Definition StartsWithLetter (field value : string) (v : Validator) : Validator :=
  match value with
  | EmptyString => v
  | String c _ => add_if (negb (is_letter c)) field "must start with a letter" v
  end.

Definition OneOf (field value : string) (allowed : list string) : Validator → Validator :=
  unless_blank value
    (add_if (negb (bool_decide (value ∈ allowed))) field ("must be one of: " +:+ show_list allowed)).

Definition backslash : string := String (Ascii.ascii_of_nat 92) "".
Definition shellMetachars : string :=
  ";|&$`(){}" +:+ backslash +:+ "<>!*?[]'" +:+ double_quote +:+ String newline (String (Ascii.ascii_of_nat 13) "").

Definition NoShellMetachars (field value : string) : Validator → Validator :=
  unless_blank value (add_if (ContainsAny value shellMetachars) field "must not contain shell metacharacters").

Definition Positive (field : string) (value : Z) : Validator → Validator :=
  add_if (value <=? 0) field "must be a positive number".

Definition Range (field : string) (value minVal maxVal : Z) : Validator → Validator :=
  add_if ((value <? minVal) || (maxVal <? value)) field
    ("must be between " +:+ pretty minVal +:+ " and " +:+ pretty maxVal).

Definition Custom (field : string) (valid : bool) (message : string) : Validator → Validator :=
  add_if (negb valid) field message.

Definition ValidateUsername (username : string) : Validator :=
  Pattern "username" username UsernamePattern "must start with a letter and contain only letters, numbers, underscores"
    (MaxLength "username" username 32 (MinLength "username" username 3 (Required "username" username NewValidator))).

Definition ValidateProjectName (name : string) : Validator :=
  Pattern "name" name ProjectNamePattern "must start with a letter and contain only letters, numbers, hyphens, underscores"
    (MaxLength "name" name 64 (MinLength "name" name 2 (Required "name" name NewValidator))).

Definition ValidateSecretKey (key : string) : Validator :=
  Pattern "key" key SecretKeyPattern "must start with uppercase letter and contain only A-Z, 0-9, underscore"
    (MaxLength "key" key 64 (Required "key" key NewValidator)).

Definition ValidateDeployPath (path : string) (allowedBases : list string) : Validator :=
  NoShellMetachars "path" path (SafePath_ "path" path allowedBases (Required "path" path NewValidator)).

Definition ValidateGitRepository (repo : string) : Validator :=
  GitURL "repository" repo (Required "repository" repo NewValidator).

Definition ValidateUnixUsername (username : string) : Validator :=
  Pattern "username" username UnixUsernamePattern
    "must start with a letter or underscore and contain only lowercase letters, numbers, underscores, hyphens"
    (MaxLength "username" username 32 (Required "username" username NewValidator)).

Definition IsValidUnixUsername (username : string) : bool :=
  if bool_decide (username = "") || (32 <? length_of username) then false else MatchString UnixUsernamePattern username.

Definition ValidateServiceName (name : string) : Validator :=
  Pattern "service" name ServiceNamePattern
    "must start with letter or number and contain only letters, numbers, dots, underscores, @, hyphens"
    (MaxLength "service" name 256 (Required "service" name NewValidator)).

Definition IsValidServiceName (name : string) : bool :=
  if bool_decide (name = "") || (256 <? length_of name) then false else MatchString ServiceNamePattern name.

Definition ValidateBinaryPathComponent (s : string) : result unit :=
  if bool_decide (s = "") then Err (Errorf "empty value")
  else if Contains s ".." then Err (Errorf "path traversal not allowed")
  else if Contains s "/" || Contains s backslash then Err (Errorf "path separators not allowed")
  else if Contains s (String Ascii.zero "") then Err (Errorf "null bytes not allowed")
  else if negb (all_chars (λ c, negb ((code c <? 32) || (code c =? 127))) s)
       then Err (Errorf "control characters not allowed")
  else Ok tt.

(** ** Formats of values *)

Definition webhookSecretMinLength : Z := 16.
Definition validWebhookProviders : list string := ["github"; "gitlab"; "bitbucket"; "generic"].

Section formats.
Context `{Parsers}.

Definition Email (field value : string) : Validator → Validator :=
  unless_blank value (add_if (negb (ParseAddress value)) field "must be a valid email address").

Definition URL (field value : string) : Validator → Validator :=
  unless_blank value (add_if
    match ParseURL value with
    | None => true
    | Some (scheme, host) => bool_decide (scheme = "") || bool_decide (host = "")
    end field "must be a valid URL").

Definition ValidateEmail (email : string) : Validator := Email "email" email (Required "email" email NewValidator).

Definition ValidateIPAddress (ip : string) : result unit :=
  if bool_decide (ip = "") then Err (Errorf "IP address is required")
  else if negb (ParseIP ip) then Err (Errorf ("invalid IP address: " +:+ ip)) else Ok tt.

Definition ValidateHostname (h : string) : result unit :=
  if bool_decide (h = "") then Err (Errorf "hostname is required")
  else if 253 <? length_of h then Err (Errorf "hostname too long (max 253 characters)")
  else if negb (MatchString hostnameRegex h) then Err (Errorf ("invalid hostname: " +:+ h)) else Ok tt.

Definition ValidateHostOrIP (s : string) : result unit :=
  if bool_decide (s = "") then Err (Errorf "host or IP address is required")
  else if ParseIP s then Ok tt else ValidateHostname s.

Definition ValidateSSHPublicKey (key : string) : result unit :=
  if bool_decide (key = "") then Err (Errorf "SSH public key is required")
  else if negb (MatchString sshKeyRegex (TrimSpace key))
       then Err (Errorf "invalid SSH public key format (expected ssh-rsa, ssh-ed25519, or ecdsa-sha2-* format)")
       else Ok tt.

(** The names in the message are in an order of the map. *)
Definition ValidateWebhookProvider `{MapRange} (p : string) : result unit :=
  if bool_decide (p = "") then Err (Errorf "webhook provider is required")
  else if negb (bool_decide (ToLower p ∈ validWebhookProviders)) then
    let names := (range (list_to_map ((λ k, (k, tt)) <$> validWebhookProviders) : gmap string unit)).*1 in
    Err (Errorf ("unsupported webhook provider: " +:+ p +:+ " (supported: " +:+ GoStrings.Join names ", " +:+ ")"))
  else Ok tt.

Definition ValidateWebhookSecret (secret : string) : result unit :=
  if length_of secret <? webhookSecretMinLength
  then Err (Errorf ("webhook secret must be at least " +:+ pretty webhookSecretMinLength +:+ " characters")) else Ok tt.

Definition ValidatePort (port : Z) : result unit :=
  if (port <? 1) || (65535 <? port)
  then Err (Errorf ("invalid port number: " +:+ pretty port +:+ " (must be 1-65535)")) else Ok tt.

(** [fmt.Sscanf(s, "%d", &v)]: the value, if an integer of 64 bits is in front. *)
Definition sscanf_d (s : string) : option Z :=
  let '(sign, rest) := split_sign (skip_blanks s) in
  match scan_digits None rest with
  | Some v => if (int64_min <=? sign * v) && (sign * v <=? int64_max) then Some (sign * v) else None
  | None => None
  end.

Definition ValidatePortString (port : string) : result unit :=
  if bool_decide (port = "") then Err (Errorf "port is required")
  else match sscanf_d port with
       | None => Err (Errorf ("invalid port: " +:+ port))
       | Some n => ValidatePort n
       end.

Definition ValidateCIDR (cidr : string) : result unit :=
  if bool_decide (cidr = "") then Err (Errorf "CIDR is required")
  else if negb (ParseCIDR cidr) then Err (Errorf ("invalid CIDR notation: " +:+ cidr)) else Ok tt.

(** [if err := check(value); err != nil { v.errors.Add(field, err.Error()) }] *)
Definition add_err (field : string) (r : result unit) (v : Validator) : Validator :=
  match r with Err e => Add field (error_text e) v | _ => v end.

Definition IPAddress (field value : string) := add_err field (ValidateIPAddress value).
Definition Hostname (field value : string) := add_err field (ValidateHostname value).
Definition HostOrIP (field value : string) := add_err field (ValidateHostOrIP value).
Definition SSHPublicKey (field value : string) := add_err field (ValidateSSHPublicKey value).
Definition WebhookProvider `{MapRange} (field value : string) := add_err field (ValidateWebhookProvider value).
Definition WebhookSecret (field value : string) := add_err field (ValidateWebhookSecret value).
Definition Port (field : string) (port : Z) := add_err field (ValidatePort port).
Definition CIDR (field value : string) := add_err field (ValidateCIDR value).

End formats.

(** * [services/validation.go] *)
Module Input.

(** [InvalidInput(op, message)], as text. *)
Definition InvalidInput (op message : string) : gerror := Errorf (op +:+ ": " +:+ message +:+ ": invalid input").

Definition usernameRegex : re := headed is_letter (alnum_or "_-") 2 (Some 31%nat).
Definition emailRegex : re :=
  Then (Plus (alnum_or "._%+-")) (Then (Char (Ascii.ascii_of_nat 64))
    (Then (Plus (alnum_or ".-")) (Then (Char (Ascii.ascii_of_nat 46)) (Repeat is_letter 2 None)))).
Definition projectRegex : re := headed is_letter (alnum_or "_-") 1 (Some 63%nat).

Definition ValidateUsername (username : string) : result unit :=
  if bool_decide (username = "") then Err (InvalidInput "validation" "username is required")
  else if negb (MatchString usernameRegex username)
       then Err (InvalidInput "validation" "username must be 3-32 chars, start with letter, contain only alphanumeric, underscore, hyphen")
       else Ok tt.

Definition ValidateEmail (email : string) : result unit :=
  if bool_decide (email = "") then Ok tt
  else if negb (MatchString emailRegex email) then Err (InvalidInput "validation" "invalid email format") else Ok tt.

Definition ValidatePassword (password : string) : result unit :=
  if length_of password <? 8 then Err (InvalidInput "validation" "password must be at least 8 characters")
  else if 128 <? length_of password then Err (InvalidInput "validation" "password must be at most 128 characters")
  else Ok tt.

Definition ValidateRole (role : string) : result unit :=
  if negb (bool_decide (ToLower role ∈ ["admin"; "user"; "viewer"]))
  then Err (InvalidInput "validation" "role must be admin, user, or viewer") else Ok tt.

Definition ValidateProjectName (name : string) : result unit :=
  if bool_decide (name = "") then Err (InvalidInput "validation" "project name is required")
  else if negb (MatchString projectRegex name)
       then Err (InvalidInput "validation" "project name must be 2-64 chars, start with letter") else Ok tt.

Definition ValidateRequired (field value : string) : result unit :=
  if bool_decide (TrimSpace value = "") then Err (InvalidInput "validation" (field +:+ " is required")) else Ok tt.

Definition ValidateMaxLength (field value : string) (maxLen : Z) : result unit :=
  if maxLen <? length_of value then Err (InvalidInput "validation" (field +:+ " exceeds maximum length")) else Ok tt.

Definition ValidateMinLength (field value : string) (minLen : Z) : result unit :=
  if length_of value <? minLen then Err (InvalidInput "validation" (field +:+ " does not meet minimum length")) else Ok tt.

Definition ValidateOneOf (field value : string) (allowed : list string) : result unit :=
  if bool_decide (value ∈ allowed) then Ok tt
  else Err (InvalidInput "validation" (field +:+ " must be one of: " +:+ GoStrings.Join allowed ", ")).

Definition ValidateID (field id : string) : result unit :=
  if bool_decide (id = "") then Err (InvalidInput "validation" (field +:+ " must be a positive integer")) else Ok tt.

Definition ValidateStringID (field id : string) : result unit :=
  if bool_decide (TrimSpace id = "") then Err (InvalidInput "validation" (field +:+ " is required"))
  else if 255 <? length_of id then Err (InvalidInput "validation" (field +:+ " exceeds maximum length")) else Ok tt.

Definition ValidAPIKeyScopes : list string :=
  ["*"; "read:projects"; "write:projects"; "read:deployments"; "write:deployments"; "read:agents"; "write:agents";
   "read:users"; "write:users"; "read:settings"; "write:settings"; "read:secrets"; "write:secrets"; "read:apikeys";
   "write:apikeys"; "admin"].

Definition ValidateAPIKeyScopes (scopes : list string) : result unit :=
  match find (λ scope, negb (bool_decide (scope ∈ ValidAPIKeyScopes))) scopes with
  | Some scope => Err (InvalidInput "validation" ("invalid scope: " +:+ scope))
  | None => Ok tt
  end.

End Input.

(** * [security/validation.go] *)
Module Identity.

Definition reservedAgentIDs : list string :=
  ["master"; "server"; "admin"; "root"; "system"; "localhost"; "all"; "any"; "none"; "default";
   "internal"; "external"; "public"; "private"].

Definition ErrInvalidAgentID : gerror :=
  Errorf "invalid agent ID: must be 3-64 alphanumeric characters, hyphens, or underscores, starting with alphanumeric".
Definition ErrReservedAgentID : gerror := Errorf "agent ID is a reserved name".
Definition ErrInvalidHostname : gerror := Errorf "invalid hostname format".
Definition ErrEmptyValue : gerror := Errorf "value cannot be empty".
Definition ErrValueTooLong : gerror := Errorf "value exceeds maximum length".

Definition IsReservedAgentID (id : string) : bool := bool_decide (ToLower id ∈ reservedAgentIDs).

Definition ValidateAgentID (id : string) : result unit :=
  if bool_decide (id = "") then Err ErrEmptyValue
  else if negb (MatchString agentIDRegex id) then Err ErrInvalidAgentID
  else if IsReservedAgentID id then Err (Errorf ("agent ID is a reserved name: '" +:+ id +:+ "'"))
  else Ok tt.

Definition ValidateHostname (hostname : string) : result unit :=
  if bool_decide (hostname = "") then Err ErrEmptyValue
  else if 253 <? length_of hostname then Err ErrValueTooLong
  else if negb (MatchString hostnameRegex hostname) then Err ErrInvalidHostname else Ok tt.

Definition ValidateRegistrationToken (token : string) : result unit :=
  if bool_decide (token = "") then Err ErrEmptyValue
  else if length_of token <? 32 then Err (Errorf "token too short: must be at least 32 characters")
  else if 256 <? length_of token then Err ErrValueTooLong else Ok tt.

Definition ValidateLabel (key value : string) : result unit :=
  if bool_decide (key = "") then Err (wrapf "label key" ErrEmptyValue)
  else if 63 <? length_of key then Err (wrapf "label key" ErrValueTooLong)
  else if 255 <? length_of value then Err (wrapf "label value" ErrValueTooLong)
  else if negb (MatchString labelKeyRegex key)
       then Err (Errorf "invalid label key: must start with alphanumeric and contain only alphanumeric, hyphens, underscores, or dots")
       else Ok tt.

Definition ValidateCSR (csr : string) : result unit :=
  if length_of csr =? 0 then Err (Errorf "CSR cannot be empty")
  else if negb (Contains csr "-----BEGIN CERTIFICATE REQUEST-----") then Err (Errorf "invalid CSR: must be PEM encoded")
  else if 16384 <? length_of csr then Err (Errorf "CSR too large: maximum 16KB") else Ok tt.

Definition hyphen : Ascii.ascii := Ascii.ascii_of_nat 45.

(** The loop over the characters: what is kept, and if the last one kept is a hyphen. *)
Fixpoint keep_chars (last_hyphen started : bool) (id : string) : string :=
  match id with
  | EmptyString => ""
  | String c id' =>
      if is_lower c || is_digit c then String c (keep_chars false true id')
      else if one_of "-_. " c then
        if negb last_hyphen && started then String hyphen (keep_chars true started id')
        else keep_chars last_hyphen started id'
      else keep_chars last_hyphen started id'
  end.

(** The loops that remove hyphens at the end. *)
Fixpoint trim_hyphens (s : string) : string :=
  match s with
  | EmptyString => ""
  | String c s' =>
      match trim_hyphens s' with
      | EmptyString => if Ascii.eqb c hyphen then "" else String c ""
      | r => String c r
      end
  end.

Definition SanitizeAgentID (id : string) : string :=
  let result := trim_hyphens (keep_chars false false (ToLower id)) in
  let result := if length_of result <? 3 then result +:+ "-agent" else result in
  let result := if 64 <? length_of result then take_chars 64 result else result in
  trim_hyphens result.

End Identity.

(** * [security/password.go] *)
Module Password.

Definition MinPasswordLength : Z := 12.

Definition ErrPasswordTooShort : gerror := Errorf "password must be at least 12 characters long".
Definition ErrPasswordNoUppercase : gerror := Errorf "password must contain at least one uppercase letter".
Definition ErrPasswordNoLowercase : gerror := Errorf "password must contain at least one lowercase letter".
Definition ErrPasswordNoDigit : gerror := Errorf "password must contain at least one digit".
Definition ErrPasswordNoSpecialChar : gerror := Errorf "password must contain at least one special character".

Definition isSpecialChar : Ascii.ascii → bool :=
  one_of ("!@#$%^&*()_+-=[]{}|;':" +:+ double_quote +:+ ",./<>?`~" +:+ backslash).

Record seen := mkSeen { hasUppercase : bool; hasLowercase : bool; hasDigit : bool; hasSpecial : bool }.

(** One turn of the loop: the cases of the switch exclude each other. *)
Definition look (s : seen) (char : Ascii.ascii) : seen :=
  if is_upper char then {| s with hasUppercase := true |}
  else if is_lower char then {| s with hasLowercase := true |}
  else if is_digit char then {| s with hasDigit := true |}
  else if isSpecialChar char then {| s with hasSpecial := true |}
  else s.

Definition scan (password : string) : seen :=
  foldl look (mkSeen false false false false) (String.list_ascii_of_string password).

Definition ValidatePassword (password : string) : result unit :=
  if length_of password <? MinPasswordLength then Err ErrPasswordTooShort
  else
    let s := scan password in
    if negb (hasUppercase s) then Err ErrPasswordNoUppercase
    else if negb (hasLowercase s) then Err ErrPasswordNoLowercase
    else if negb (hasDigit s) then Err ErrPasswordNoDigit
    else if negb (hasSpecial s) then Err ErrPasswordNoSpecialChar
    else Ok tt.

Definition ValidatePasswordWithErrors (password : string) : list gerror :=
  let s := scan password in
  (if length_of password <? MinPasswordLength then [ErrPasswordTooShort] else []) ++
  (if hasUppercase s then [] else [ErrPasswordNoUppercase]) ++
  (if hasLowercase s then [] else [ErrPasswordNoLowercase]) ++
  (if hasDigit s then [] else [ErrPasswordNoDigit]) ++
  (if hasSpecial s then [] else [ErrPasswordNoSpecialChar]).

End Password.

(** * Lemmas *)

Lemma headed_spec p q lo hi s :
  MatchString (headed p q lo hi) s = true ↔
  ∃ c s', s = String c s' ∧ p c = true ∧ all_chars q s' = true ∧ (lo ≤ String.length s')%nat ∧ below (String.length s') hi.
Proof.
  unfold headed. rewrite MatchString_spec, matches_one_then. setoid_rewrite matches_repeat. naive_solver.
Qed.

Lemma add_if_nil bad field message v : add_if bad field message v = [] ↔ v = [] ∧ bad = false.
Proof. unfold add_if, Add. destruct bad; [|naive_solver]. split; [|naive_solver]. intros E. by apply app_nil in E as [_ E]. Qed.

Lemma unless_blank_nil value f v : unless_blank value f v = [] ↔ (value = "" ∧ v = []) ∨ (value ≠ "" ∧ f v = []).
Proof. unfold unless_blank. case_bool_decide; naive_solver. Qed.

Lemma Required_nil field value v : Required field value v = [] ↔ v = [] ∧ TrimSpace value ≠ "".
Proof. unfold Required. rewrite add_if_nil, bool_decide_eq_false. done. Qed.

Lemma Pattern_nil field value pattern message v :
  Pattern field value pattern message v = [] ↔ v = [] ∧ (value ≠ "" → MatchString pattern value = true).
Proof.
  unfold Pattern. rewrite add_if_nil, andb_false_iff, !negb_false_iff, bool_decide_eq_true. 
  destruct (decide (value = "")); naive_solver.
Qed.

Lemma MinLength_nil field value n v : MinLength field value n v = [] ↔ v = [] ∧ n ≤ length_of value.
Proof. unfold MinLength. rewrite add_if_nil, Z.ltb_ge. done. Qed.

Lemma MaxLength_nil field value n v : MaxLength field value n v = [] ↔ v = [] ∧ length_of value ≤ n.
Proof. unfold MaxLength. rewrite add_if_nil, Z.ltb_ge. done. Qed.

(** A text that starts with a character that is not a blank is not blank. *)
Lemma headed_not_blank p q lo hi s :
  (∀ c, p c = true → is_space c = false) → MatchString (headed p q lo hi) s = true → TrimSpace s ≠ "".
Proof.
  intros Hp (c & s' & -> & Hc & _)%headed_spec. unfold TrimSpace. simpl. rewrite (Hp c Hc). simpl.
  destruct (trim_right s'); [|done]. by rewrite (Hp c Hc).
Qed.

Lemma headed_length p q lo hi s :
  MatchString (headed p q lo hi) s = true → Z.of_nat lo < length_of s ∧ ∀ m, hi = Some m → length_of s ≤ Z.of_nat m + 1.
Proof.
  intros (c & s' & -> & _ & _ & Hl & Hu)%headed_spec. unfold length_of. simpl. split; [lia|].
  intros m ->. simpl in Hu. lia.
Qed.

(** What a class has in common with another can be decided over all characters. *)
Lemma forall_ascii (P : Ascii.ascii → bool) :
  forallb (λ n, P (Ascii.ascii_of_nat n)) (seq 0 256) = true → ∀ c, P c = true.
Proof.
  rewrite forallb_forall. intros Hall c. rewrite <- (Ascii.ascii_nat_embedding c). apply Hall, in_seq.
  pose proof (Ascii.nat_ascii_bounded c). lia.
Qed.

Ltac by_ascii := apply forall_ascii; by vm_compute.

Lemma implb_ascii (p q : Ascii.ascii → bool) : (∀ c, implb (p c) (q c) = true) → ∀ c, p c = true → q c = true.
Proof. intros Hc c Hp. specialize (Hc c). by rewrite Hp in Hc. Qed.

Lemma nil_pattern p q lo hi field value m1 m2 message :
  (∀ c, p c = true → is_space c = false) → m1 ≤ Z.of_nat lo + 1 →
  (∀ s, MatchString (headed p q lo hi) s = true → length_of s ≤ m2) →
  Pattern field value (headed p q lo hi) message
    (MaxLength field value m2 (MinLength field value m1 (Required field value NewValidator))) = [] ↔
  MatchString (headed p q lo hi) value = true.
Proof.
  intros Hp Hm1 Hm2. rewrite Pattern_nil, MaxLength_nil, MinLength_nil, Required_nil. split.
  - intros ((((_ & Hb) & _) & _) & Hm). apply Hm. intros ->. by apply Hb.
  - intros Hm. pose proof (headed_not_blank _ _ _ _ _ Hp Hm). destruct (headed_length _ _ _ _ _ Hm) as [Hl _].
    split_and!; [done..|lia|by apply Hm2|done].
Qed.

Lemma MinLength_0 field value v : MinLength field value 0 v = v.
Proof. unfold MinLength, add_if. destruct (Z.ltb_spec (length_of value) 0); [unfold length_of in *; lia|done]. Qed.

Lemma not_space_alnum c : is_alnum c = true → is_space c = false.
Proof.
  intros Hc. apply negb_true_iff. revert c Hc. apply (implb_ascii _ (λ c, negb (is_space c))). by_ascii.
Qed.

Lemma is_letter_alnum c : is_letter c = true → is_alnum c = true.
Proof. unfold is_alnum. by intros ->. Qed.

Lemma is_upper_alnum c : is_upper c = true → is_alnum c = true.
Proof. intros H. apply is_letter_alnum. unfold is_letter. by rewrite H. Qed.

Lemma is_lower_alnum c : is_lower c = true → is_alnum c = true.
Proof. intros H. apply is_letter_alnum. unfold is_letter. rewrite H. by rewrite orb_true_r. Qed.

Lemma below_headed p q lo hi s m :
  (Z.of_nat hi + 1 ≤ m) → MatchString (headed p q lo (Some hi)) s = true → length_of s ≤ m.
Proof. intros Hm Hs. destruct (headed_length _ _ _ _ _ Hs) as [_ Hu]. specialize (Hu hi eq_refl). lia. Qed.

Lemma nil_bounded p q lo field value m message :
  (∀ c, p c = true → is_space c = false) →
  Pattern field value (headed p q lo None) message (MaxLength field value m (Required field value NewValidator)) = [] ↔
  length_of value ≤ m ∧ MatchString (headed p q lo None) value = true.
Proof.
  intros Hp. rewrite Pattern_nil, MaxLength_nil, Required_nil. split.
  - intros (((_ & Hb) & Hl) & Hm). split; [done|]. apply Hm. intros ->. by apply Hb.
  - intros [Hl Hm]. pose proof (headed_not_blank _ _ _ _ _ Hp Hm). by split_and!.
Qed.

Lemma valid_bounded p q lo value m :
  (if bool_decide (value = "") || (m <? length_of value) then false else MatchString (headed p q lo None) value) = true ↔
  length_of value ≤ m ∧ MatchString (headed p q lo None) value = true.
Proof.
  case_bool_decide as Hv; simpl; [subst; split; [done|]; intros [_ (c & s' & ? & _)%headed_spec]; done|].
  destruct (Z.ltb_spec m (length_of value)); [split; [done|lia]|naive_solver].
Qed.

Lemma deploy_service_name name :
  Deploy.IsValidServiceName name = true ↔ length_of name ≤ 256 ∧ MatchString ServiceNamePattern name = true.
Proof.
  unfold ServiceNamePattern. rewrite headed_spec. unfold Deploy.IsValidServiceName. destruct name as [|c s].
  { split; [done|]. intros (_ & c & s' & ? & _). done. }
  rewrite !andb_true_iff, Nat.leb_le.
  assert (∀ d, Deploy.is_alnum d = is_alnum d) as Ha.
  { intros d. apply eqb_prop. revert d. by_ascii. }
  assert (∀ d, Deploy.is_service_char d = alnum_or "._@-" d) as Hs.
  { intros d. apply eqb_prop. revert d. by_ascii. }
  rewrite Ha, (all_chars_ext _ _ s Hs). unfold length_of. simpl. split.
  - intros [[? ?] ?]. split; [lia|]. exists c, s. split_and!; [done..|lia|done].
  - intros (? & d & s' & [= <- <-] & ? & ? & _). split_and!; [lia|done..].
Qed.

(** * Names *)

(** a name is accepted exactly when it matches the pattern of its kind, and the
    functions for one kind agree: the collecting validators report nothing for the names
    the patterns match; the service layer accepts the same project names, and the same
    user names with hyphens in addition; the predicates for service and Unix user names,
    and the one the deployment strategy uses, accept what the validators accept. *)
Theorem name_validators_agree s :
  (ValidateUsername s = [] ↔ MatchString UsernamePattern s = true) ∧
  (Input.ValidateUsername s = Ok tt ∧ free_of Identity.hyphen s = true ↔ ValidateUsername s = []) ∧
  (ValidateProjectName s = [] ↔ Input.ValidateProjectName s = Ok tt) ∧
  (ValidateSecretKey s = [] ↔ MatchString SecretKeyPattern s = true) ∧
  (ValidateUnixUsername s = [] ↔ IsValidUnixUsername s = true) ∧
  (ValidateServiceName s = [] ↔ IsValidServiceName s = true) ∧
  Deploy.IsValidServiceName s = IsValidServiceName s.
Proof.
  assert (ValidateUsername s = [] ↔ MatchString UsernamePattern s = true) as Hu.
  { apply nil_pattern; [intros c Hc; by apply not_space_alnum, is_letter_alnum|done|].
    intros t. apply below_headed. lia. }
  split_and!; [exact Hu| | | | | |].
  - rewrite Hu. unfold Input.ValidateUsername, Input.usernameRegex, UsernamePattern.
    rewrite headed_spec. clear Hu. case_bool_decide as Hs; [subst; naive_solver|].
    destruct (MatchString (headed is_letter (alnum_or "_-") 2 (Some 31%nat)) s) eqn:E; cbn [negb].
    + apply headed_spec in E as (c & s' & -> & Hc & Hall & Hl & Hh). rewrite free_of_chars. cbn [all_chars]. rewrite andb_true_iff.
      assert (negb (Ascii.eqb c Identity.hyphen) = true) as ->.
      { clear Hs. revert c Hc. apply (implb_ascii _ (λ c, negb (Ascii.eqb c Identity.hyphen))). by_ascii. }
      assert (all_chars (alnum_or "_") s' = all_chars (alnum_or "_-") s' && all_chars (λ d, negb (Ascii.eqb d Identity.hyphen)) s') as Ea.
      { rewrite <- all_chars_and. apply all_chars_ext. intros d. apply eqb_prop. revert d. by_ascii. }
      rewrite Hall in Ea. cbn [andb] in Ea. rewrite <- Ea. split.
      * intros (_ & _ & Hn). by exists c, s'.
      * by intros (? & ? & [= <- <-] & _ & ? & _).
    + split; [by intros []|]. intros (c & s' & -> & Hc & Hall & Hl & Hh). exfalso.
      apply not_true_iff_false in E. apply E, headed_spec. exists c, s'. split_and!; [done..| |done|done].
      eapply all_chars_impl, Hall. apply implb_ascii. by_ascii.
  - unfold Input.ValidateProjectName, Input.projectRegex.
    assert (ValidateProjectName s = [] ↔ MatchString ProjectNamePattern s = true) as ->.
    { apply nil_pattern; [intros c Hc; by apply not_space_alnum, is_letter_alnum|done|].
      intros t. apply below_headed. lia. }
    unfold ProjectNamePattern. case_bool_decide; [subst; by vm_compute|].
    by destruct (MatchString (headed is_letter (alnum_or "_-") 1 (Some 63%nat)) s).
  - unfold ValidateSecretKey. rewrite <- (MinLength_0 "key" s (Required _ _ _)).
    apply nil_pattern; [intros c Hc; by apply not_space_alnum, is_upper_alnum|done|].
    intros t. apply below_headed. lia.
  - unfold ValidateUnixUsername, IsValidUnixUsername, UnixUsernamePattern. rewrite valid_bounded. apply nil_bounded.
    intros c Hc. apply negb_true_iff. revert c Hc. apply (implb_ascii _ (λ c, negb (is_space c))). by_ascii.
  - unfold ValidateServiceName, IsValidServiceName, ServiceNamePattern. rewrite valid_bounded. apply nil_bounded, not_space_alnum.
  - apply eq_true_iff_eq. rewrite deploy_service_name. unfold IsValidServiceName, ServiceNamePattern. by rewrite valid_bounded.
Qed.

(** ** Host names *)

Definition dot : Ascii.ascii := Ascii.ascii_of_nat 46.

(** A label as RFC 1123 describes it. *)
Definition label_ok (l : string) : Prop :=
  1 ≤ length_of l ≤ 63 ∧ all_chars (alnum_or "-") l = true ∧ HasPrefix l "-" = false ∧ HasSuffix l "-" = false.

Lemma string_snoc s : s ≠ "" → ∃ m d, s = m +:+ String d "".
Proof.
  induction s as [|c s IH]; [done|]. intros _. destruct s as [|c' s]; [by exists "", c|].
  destruct IH as (m & d & E); [done|]. exists (String c m), d. by rewrite E.
Qed.

Lemma HasSuffix_char a d e : HasSuffix (a +:+ String d "") (String e "") = bool_decide (d = e).
Proof.
  unfold HasSuffix. rewrite length_app_string. cbn [String.length].
  assert ((1 <=? String.length a + 1)%nat = true) as -> by (apply Nat.leb_le; lia). cbn [andb].
  rewrite Nat.add_sub, drop_chars_app. apply bool_decide_ext. naive_solver.
Qed.

Lemma HasPrefix_char c s e : HasPrefix (String c s) (String e "") = bool_decide (e = c).
Proof. rewrite HasPrefix_String. destruct s; by rewrite andb_true_r. Qed.

Lemma alnum_hyphen c : alnum_or "-" c = true ↔ is_alnum c = true ∨ c = Identity.hyphen.
Proof.
  unfold alnum_or. rewrite orb_true_iff. unfold one_of. rewrite bool_decide_eq_true. simpl.
  rewrite list_elem_of_singleton. done.
Qed.

Lemma alnum_not_hyphen c : is_alnum c = true → c ≠ Identity.hyphen.
Proof. intros Hc ->. done. Qed.

Lemma label_spec s : matches label_re s ↔ label_ok s.
Proof.
  unfold label_re, label_ok, length_of. rewrite matches_one_then. setoid_rewrite matches_maybe.
  setoid_rewrite matches_then. setoid_rewrite matches_one. setoid_rewrite matches_repeat. split.
  - intros (c & s' & -> & Hc & [->|(m & t & -> & (Hm & _ & Hl) & d & -> & Hd)]).
    + rewrite HasPrefix_char. change (String c "") with ("" +:+ String c ""). rewrite HasSuffix_char.
      rewrite !bool_decide_false by (intros E; by apply (alnum_not_hyphen c)). split_and!; [done..| |done|done].
      change (alnum_or "-" c && true = true). rewrite andb_true_r. apply alnum_hyphen. by left.
    + change (String c (m +:+ String d "")) with (String c m +:+ String d ""). rewrite HasSuffix_char.
      change (String c m +:+ String d "") with (String c (m +:+ String d "")). rewrite HasPrefix_char.
      rewrite !bool_decide_false; [|intros E; by apply (alnum_not_hyphen d)|intros E; by apply (alnum_not_hyphen c)].
      cbn [String.length all_chars]. rewrite length_app_string, all_chars_app, Hm. simpl in *.
      split_and!; [lia|lia| |done..]. cbn [all_chars].
      rewrite !andb_true_iff. repeat split; apply alnum_hyphen; by left.
  - intros (Hl & Hall & Hpre & Hsuf). destruct s as [|c s']; [simpl in Hl; lia|].
    rewrite HasPrefix_char in Hpre. apply bool_decide_eq_false in Hpre.
    cbn [all_chars] in Hall. apply andb_true_iff in Hall as [Hc Hall].
    apply alnum_hyphen in Hc as [Hc|Hc]; [|by destruct Hpre]. exists c, s'. split_and!; [done..|].
    destruct (decide (s' = "")) as [->|Hne]; [by left|right]. destruct (string_snoc s' Hne) as (m & d & ->).
    change (String c (m +:+ String d "")) with (String c m +:+ String d "") in Hsuf.
    rewrite HasSuffix_char in Hsuf. apply bool_decide_eq_false in Hsuf.
    rewrite all_chars_app, andb_true_iff in Hall. destruct Hall as [Hm Hd]. cbn in Hd. rewrite andb_true_r in Hd.
    apply alnum_hyphen in Hd as [Hd|Hd]; [|by destruct Hsuf].
    exists m, (String d ""). cbn [String.length] in Hl. rewrite length_app_string in Hl. cbn [String.length] in Hl.
    split_and!; [done|done|lia|simpl; lia|]. by exists d.
Qed.

Lemma label_free l : label_ok l → free_of dot l = true.
Proof.
  intros (_ & Hall & _). rewrite free_of_chars. eapply all_chars_impl, Hall. apply implb_ascii. by_ascii.
Qed.

Lemma split_on_labels l rest : label_ok l → Forall label_ok rest →
  split_on dot (l +:+ String.concat "" ((λ x, String dot x) <$> rest)) = l :: rest.
Proof.
  intros Hl Hr. revert l Hl. induction Hr as [|x rest Hx _ IH]; intros l Hl.
  - change (String.concat "" _) with "". rewrite app_empty_r. by apply split_on_free, label_free.
  - assert (String.concat "" ((λ y, String dot y) <$> x :: rest) =
      String dot (x +:+ String.concat "" ((λ y, String dot y) <$> rest))) as ->.
    { destruct rest; [|done]. change (String.concat "" _) with (String dot x) at 1. by rewrite app_empty_r. }
    rewrite split_on_cons by by apply label_free. by rewrite IH.
Qed.

Lemma many_labels s : matches (Many (Then (Char dot) label_re)) s ↔
  ∃ rest, Forall label_ok rest ∧ s = String.concat "" ((λ x, String dot x) <$> rest).
Proof.
  assert (∀ x rest, String.concat "" ((λ y, String dot y) <$> x :: rest) =
    String dot x +:+ String.concat "" ((λ y, String dot y) <$> rest)) as Hcons.
  { intros x [|y rest]; [|done]. change (String.concat "" ((λ z, String dot z) <$> [])) with "". by rewrite app_empty_r. }
  split.
  - intros Hm. remember (Many _) as r eqn:Er. induction Hm; try done; injection Er as ->.
    + by exists [].
    + unfold Char in Hm1. apply matches_one_then in Hm1 as (c & l & -> & Hc%Ascii.eqb_eq & Hl%label_spec). subst c.
      destruct IHHm2 as (rest & Hr & ->); [done|]. exists (l :: rest). split; [by constructor|]. by rewrite Hcons.
  - intros (rest & Hr & ->). induction Hr as [|x rest Hx _ IH]; [constructor|]. rewrite Hcons. constructor; [done| |done].
    unfold Char. apply matches_one_then. exists dot, x. split_and!; [done..|]. by apply label_spec.
Qed.

Lemma split_on_concat c s : ∃ l rest, split_on c s = l :: rest ∧ s = l +:+ String.concat "" ((λ x, String c x) <$> rest).
Proof.
  assert (∀ x rest, String.concat "" ((λ y, String c y) <$> x :: rest) =
    String c x +:+ String.concat "" ((λ y, String c y) <$> rest)) as Hcons.
  { intros x [|y rest]; [|done]. change (String.concat "" ((λ z, String c z) <$> [])) with "". by rewrite app_empty_r. }
  induction s as [|d s (l & rest & E & Es)]; [by exists "", []|]. simpl. destruct (Ascii.eqb_spec d c) as [->|_]; rewrite E.
  - exists "", (l :: rest). split; [done|]. rewrite Hcons, Es at 1. done.
  - exists (String d l), rest. split; [done|]. by rewrite Es at 1.
Qed.

(** the pattern of host names describes the names of RFC 1123: the labels between the
    dots have 1 to 63 letters, digits and hyphens each, with no hyphen at either end. *)
Theorem hostname_pattern_exact h :
  MatchString hostnameRegex h = true ↔ Forall label_ok (split_on dot h).
Proof.
  rewrite MatchString_spec. unfold hostnameRegex. rewrite matches_then. setoid_rewrite label_spec.
  setoid_rewrite many_labels. split.
  - intros (l & t & -> & Hl & rest & Hr & ->). rewrite split_on_labels by done. by constructor.
  - intros Hall. destruct (split_on_concat dot h) as (l & rest & E & ->). rewrite E in Hall.
    apply Forall_cons in Hall as [Hl Hr]. exists l, (String.concat "" ((λ x, String dot x) <$> rest)). eauto.
Qed.

(** ** Agent identifiers *)

Section sanitize.
Import Identity.

Definition id_char (c : Ascii.ascii) : bool := is_lower c || is_digit c || Ascii.eqb c hyphen.

(** No two hyphens in a row, and none in front after one. *)
Fixpoint no_double (last_hyphen : bool) (s : string) : bool :=
  match s with
  | EmptyString => true
  | String c s' => negb (last_hyphen && Ascii.eqb c hyphen) && no_double (Ascii.eqb c hyphen) s'
  end.

Lemma id_char_head c : is_lower c || is_digit c = true → is_alnum c = true ∧ c ≠ hyphen.
Proof.
  intros Hc. split; [|intros ->; done]. revert c Hc. apply implb_ascii. by_ascii.
Qed.

Lemma keep_chars_ok b st s : all_chars id_char (keep_chars b st s) = true ∧ no_double b (keep_chars b st s) = true.
Proof.
  revert b st. induction s as [|c s IH]; intros b st; [done|]. cbn [keep_chars].
  destruct (is_lower c || is_digit c) eqn:Ec.
  - destruct (id_char_head c Ec) as [_ Hne]. cbn [all_chars no_double]. unfold id_char at 1. rewrite Ec.
    assert (Ascii.eqb c hyphen = false) as -> by by apply Ascii.eqb_neq. rewrite andb_false_r. apply IH.
  - destruct (one_of "-_. " c); [|apply IH]. destruct (negb b && st) eqn:Eb; [|apply IH].
    apply andb_true_iff in Eb as [->%negb_true_iff _]. cbn [all_chars no_double]. apply (IH true).
Qed.

Lemma keep_chars_head b s :
  keep_chars b false s = "" ∧ all_chars (λ c, negb (is_lower c || is_digit c)) s = true ∨
  ∃ c s', keep_chars b false s = String c s' ∧ is_lower c || is_digit c = true ∧
    all_chars (λ c, negb (is_lower c || is_digit c)) s = false.
Proof.
  revert b. induction s as [|c s IH]; intros b; [by left|]. cbn [keep_chars all_chars].
  destruct (is_lower c || is_digit c) eqn:Ec.
  - right. exists c, (keep_chars false true s). by rewrite Ec.
  - rewrite andb_false_r. cbn [negb andb]. by destruct (one_of "-_. " c); apply IH.
Qed.

Lemma trim_snoc x d : d ≠ hyphen → trim_hyphens (x +:+ String d "") = x +:+ String d "".
Proof.
  intros Hd. induction x as [|c x IH].
  - change (trim_hyphens (String d "") = String d ""). simpl. by apply Ascii.eqb_neq in Hd as ->.
  - change (trim_hyphens (String c (x +:+ String d "")) = String c (x +:+ String d "")). cbn [trim_hyphens]. rewrite IH.
    by destruct x.
Qed.

Lemma trim_end s : trim_hyphens s = "" ∨ ∃ x d, trim_hyphens s = x +:+ String d "" ∧ d ≠ hyphen.
Proof.
  induction s as [|c s IH]; [by left|]. cbn [trim_hyphens]. destruct IH as [->|(x & d & -> & Hd)].
  - destruct (Ascii.eqb_spec c hyphen); [by left|]. right. by exists "", c.
  - right. exists (String c x), d. split; [|done]. by destruct x.
Qed.

Lemma trim_idemp s : trim_hyphens (trim_hyphens s) = trim_hyphens s.
Proof. destruct (trim_end s) as [->|(x & d & -> & Hd)]; [done|]. by apply trim_snoc. Qed.

(** Trimming takes off one character at most, and never the first. *)
Lemma trim_tidy c s :
  is_lower c || is_digit c = true → no_double false s = true → all_chars id_char s = true →
  ∃ s', trim_hyphens (String c s) = String c s' ∧ all_chars id_char s' = true ∧ no_double false s' = true ∧
    (String.length s ≤ String.length s' + 1)%nat ∧ (String.length s' ≤ String.length s)%nat.
Proof.
  intros Hc. revert c Hc. cut (∀ b, no_double b s = true → all_chars id_char s = true →
    all_chars id_char (trim_hyphens s) = true ∧ no_double b (trim_hyphens s) = true ∧
    (String.length s ≤ String.length (trim_hyphens s) + 1)%nat ∧ (String.length (trim_hyphens s) ≤ String.length s)%nat).
  { intros Hcut c Hc Hd Ha. destruct (Hcut false Hd Ha) as (H1 & H2 & H3). exists (trim_hyphens s).
    split_and!; [|done|done|lia..]. cbn [trim_hyphens]. destruct (id_char_head c Hc) as [_ Hne].
    apply Ascii.eqb_neq in Hne as ->. by destruct (trim_hyphens s). }
  induction s as [|c s IH]; intros b Hd Ha; [simpl; split_and!; [done..|lia|lia]|]. cbn [no_double all_chars] in Hd, Ha.
  apply andb_true_iff in Hd as [Hb Hd], Ha as [Hc Ha]. destruct (IH _ Hd Ha) as (H1 & H2 & H3 & H4).
  cbn [trim_hyphens]. destruct (trim_hyphens s) as [|d r] eqn:E.
  - simpl in H3. destruct (Ascii.eqb c hyphen) eqn:Ech; simpl.
    + destruct s as [|e s]; [simpl; split_and!; [done..|lia|lia]|]. simpl in H3. assert (s = "") as -> by (destruct s; [done|simpl in H3; lia]).
      cbn [no_double] in Hd. cbn [trim_hyphens] in E. destruct (Ascii.eqb e hyphen) eqn:Ee; [|done]. done.
    + rewrite Hc, Ech, andb_false_r. split_and!; [done..|lia|lia].
  - cbn [all_chars no_double String.length] in *. rewrite Hc, Hb. split_and!; [done..|lia|lia].
Qed.

Lemma no_double_weaken s : no_double true s = true → no_double false s = true.
Proof. destruct s; [done|]. simpl. rewrite !andb_true_iff. naive_solver. Qed.

Lemma take_tidy n b s :
  all_chars id_char s = true → no_double b s = true →
  all_chars id_char (take_chars n s) = true ∧ no_double b (take_chars n s) = true.
Proof.
  revert n b. induction s as [|c s IH]; intros [|n] b Ha Hd; try done. cbn [all_chars no_double] in *.
  apply andb_true_iff in Ha as [Hc Ha], Hd as [Hb Hd]. destruct (IH n _ Ha Hd) as [H1 H2].
  cbn [take_chars all_chars no_double]. by rewrite Hc, Hb, H1, H2.
Qed.

(** What the sanitiser makes of a text with a letter or a digit, and of one without. *)
Lemma sanitize_cases id :
  SanitizeAgentID id = "-agent" ∧ all_chars (λ c, negb (is_alnum c)) id = true ∨
  all_chars (λ c, negb (is_alnum c)) id = false ∧
  ∃ c s, SanitizeAgentID id = String c s ∧ is_lower c || is_digit c = true ∧ all_chars id_char s = true ∧
    (2 ≤ String.length s ≤ 63)%nat.
Proof.
  assert (all_chars (λ c, negb (is_lower c || is_digit c)) (ToLower id) = all_chars (λ c, negb (is_alnum c)) id) as El.
  { induction id as [|c id IH]; [done|]. cbn [ToLower all_chars]. rewrite IH. f_equal. f_equal.
    apply eqb_prop. clear. revert c. by_ascii. }
  unfold SanitizeAgentID. destruct (keep_chars_head false (ToLower id)) as [[-> E]|(c & s & E & Hc & En)].
  { left. rewrite <- El. by vm_compute. }
  right. rewrite <- El. split; [done|]. rewrite E. destruct (keep_chars_ok false false (ToLower id)) as [Ha Hd].
  rewrite E in Ha, Hd. cbn [all_chars no_double] in Ha, Hd. apply andb_true_iff in Ha as [_ Ha].
  destruct (id_char_head c Hc) as [_ Hne]. pose proof Hne as Hne'. apply Ascii.eqb_neq in Hne'. rewrite Hne' in Hd. simpl in Hd.
  destruct (trim_tidy c s Hc Hd Ha) as (s1 & E1 & Ha1 & Hd1 & _). pose proof (trim_idemp (String c s)) as Hid.
  rewrite E1 in *. cbv zeta. unfold length_of. cbn [String.length].
  destruct (Z.ltb_spec (Z.of_nat (S (String.length s1))) 3).
  - assert (String c s1 +:+ "-agent" = String c (s1 +:+ "-agen") +:+ String (Ascii.ascii_of_nat 116) "") as ->.
    { change (String c (s1 +:+ "-agent") = String c ((s1 +:+ "-agen") +:+ "t")). by rewrite app_assoc_string. }
    rewrite length_app_string. cbn [String.length]. rewrite length_app_string. cbn [String.length].
    destruct (Z.ltb_spec 64 (Z.of_nat (S (String.length s1 + 5) + 1))); [lia|]. rewrite trim_snoc by done.
    exists c, ((s1 +:+ "-agen") +:+ "t"). split_and!; [done..| | |]; rewrite ?length_app_string; simpl; [|lia|lia].
    by rewrite !all_chars_app, Ha1.
  - change (String.length (String c s1)) with (S (String.length s1)).
    destruct (Z.ltb_spec 64 (Z.of_nat (S (String.length s1)))).
    + change (take_chars 64 (String c s1)) with (String c (take_chars 63 s1)). destruct (take_tidy 63 false s1 Ha1 Hd1) as [Ha2 Hd2].
      destruct (trim_tidy c (take_chars 63 s1) Hc Hd2 Ha2) as (s2 & E2 & Ha3 & _ & H3 & H4).
      rewrite E2. exists c, s2. rewrite take_chars_length in H3, H4. split_and!; [done..|lia|lia].
    + rewrite Hid. exists c, s1. split_and!; [done..|lia|lia].
Qed.

End sanitize.

Lemma sanitized_matches c s :
  is_lower c || is_digit c = true → all_chars id_char s = true → (2 ≤ String.length s ≤ 63)%nat →
  MatchString agentIDRegex (String c s) = true.
Proof.
  intros Hc Hs [Hl Hu]. apply headed_spec. exists c, s. split_and!; [done|by apply id_char_head| |done|done].
  eapply all_chars_impl, Hs. apply implb_ascii. by_ascii.
Qed.

(** what the sanitiser returns is a valid agent identifier exactly when the text has a
    letter or a digit and the result is not a reserved name; the result is never longer
    than 64 characters, and consists of lower case letters, digits and hyphens. *)
Theorem sanitized_agent_id id :
  let out := Identity.SanitizeAgentID id in
  (Identity.ValidateAgentID out = Ok tt ↔
   all_chars (λ c, negb (is_alnum c)) id = false ∧ Identity.IsReservedAgentID out = false) ∧
  all_chars id_char out = true ∧ length_of out ≤ 64.
Proof.
  cbv zeta. destruct (sanitize_cases id) as [[-> ->]|(-> & c & s & -> & Hc & Hs & Hl)].
  { split_and!; [|by vm_compute|by vm_compute]. split; [by vm_compute|by intros []]. }
  split_and!.
  - unfold Identity.ValidateAgentID. rewrite bool_decide_false by done. rewrite (sanitized_matches c s) by done.
    cbn [negb]. destruct (Identity.IsReservedAgentID _); naive_solver.
  - cbn [all_chars]. rewrite Hs. unfold id_char. by rewrite Hc.
  - unfold length_of. change (String.length (String c s)) with (S (String.length s)). lia.
Qed.

(** ** Scopes of API keys *)

Lemma accepted_scopes scopes :
  Input.ValidateAPIKeyScopes scopes = Ok tt ↔ Forall (λ s, s ∈ Input.ValidAPIKeyScopes) scopes.
Proof.
  unfold Input.ValidateAPIKeyScopes. rewrite Forall_forall. destruct (find _ scopes) as [x|] eqn:E.
  - apply find_some in E as [Hx%list_elem_of_In Hn]. apply negb_true_iff, bool_decide_eq_false in Hn.
    split; [done|]. intros Hall. by destruct Hn; apply Hall.
  - split; [|done]. intros _ x Hx%list_elem_of_In. pose proof (find_none _ _ E x Hx) as Hn.
    by apply negb_false_iff, bool_decide_eq_true in Hn.
Qed.

(** the scopes the service accepts open everything or nothing: a key with accepted
    scopes has the scope a request needs, whichever it is, exactly when it has no scopes
    at all, the wildcard, or [admin]; a key with [read:projects] may not read projects. *)
Theorem accepted_scopes_all_or_nothing unmarshal k scopes required :
  Input.ValidateAPIKeyScopes scopes = Ok tt →
  parseScopes unmarshal (Some k) = Some scopes →
  required ∈ [ScopeRead; ScopeWrite; ScopeAdmin] →
  hasScope unmarshal (Some k) required = bool_decide (scopes = [] ∨ "*" ∈ scopes ∨ ScopeAdmin ∈ scopes).
Proof.
  intros Hv%accepted_scopes Hp Hr. apply eq_true_iff_eq. rewrite bool_decide_eq_true, (hasScope_spec _ _ _ _ Hp).
  rewrite Forall_forall in Hv. split; [|naive_solver].
  assert (ScopeRead ∉ Input.ValidAPIKeyScopes) as H1 by (apply (bool_decide_eq_false _); by vm_compute).
  assert (ScopeWrite ∉ Input.ValidAPIKeyScopes) as H2 by (apply (bool_decide_eq_false _); by vm_compute).
  intros [?|[?|[?|[[_ H]|H]]]]; [naive_solver..|by destruct H2; apply Hv|].
  apply elem_of_cons in Hr as [->|[->|[->|[]%not_elem_of_nil]%elem_of_cons]%elem_of_cons];
    [by destruct H1; apply Hv|by destruct H2; apply Hv|by auto].
Qed.

(** ** Passwords *)

Lemma scan_spec password :
  Password.scan password =
  let any p := negb (all_chars (λ c, negb (p c)) password) in
  Password.mkSeen (any is_upper) (any is_lower) (any is_digit) (any Password.isSpecialChar).
Proof.
  unfold Password.scan.
  assert (∀ s l, foldl Password.look s l =
    let any p := existsb p l in
    Password.mkSeen (Password.hasUppercase s || any is_upper) (Password.hasLowercase s || any is_lower)
      (Password.hasDigit s || any is_digit) (Password.hasSpecial s || any Password.isSpecialChar)) as ->.
  { intros s l. revert s. induction l as [|c l IH]; intros s; simpl; [destruct s; simpl; by rewrite !orb_false_r|].
    rewrite IH. clear IH. simpl.
    assert (Password.look s c = Password.mkSeen (Password.hasUppercase s || is_upper c)
      (Password.hasLowercase s || is_lower c) (Password.hasDigit s || is_digit c)
      (Password.hasSpecial s || Password.isSpecialChar c)) as ->; [|simpl; by rewrite !orb_assoc].
    assert ((if is_upper c then negb (is_lower c || is_digit c || Password.isSpecialChar c)
             else if is_lower c then negb (is_digit c || Password.isSpecialChar c)
             else if is_digit c then negb (Password.isSpecialChar c) else true) = true) as Hex.
    { revert c. by_ascii. }
    unfold Password.look. destruct s as [a b d e]. simpl.
    destruct (is_upper c); [|destruct (is_lower c); [|destruct (is_digit c)]]; simpl in Hex.
    - apply negb_true_iff in Hex. apply orb_false_iff in Hex as [[-> ->]%orb_false_iff ->].
      by rewrite orb_true_r, !orb_false_r.
    - apply negb_true_iff in Hex. apply orb_false_iff in Hex as [-> ->]. by rewrite orb_true_r, !orb_false_r.
    - apply negb_true_iff in Hex as ->. by rewrite orb_true_r, !orb_false_r.
    - destruct (Password.isSpecialChar c); by rewrite ?orb_true_r, !orb_false_r. }
  assert (∀ p, existsb p (String.list_ascii_of_string password) = negb (all_chars (λ c, negb (p c)) password)) as Ha.
  { intros p. induction password as [|c s IH]; [done|]. simpl. rewrite IH. by destruct (p c). }
  simpl. by rewrite !Ha.
Qed.

(** a password is accepted exactly when it has at least 12 characters and one of each
    class; the function that reports everything reports nothing then, and otherwise the
    error of the first function is the first it reports. *)
Theorem password_policy password :
  (Password.ValidatePassword password = Ok tt ↔
   12 ≤ length_of password ∧
   Forall (λ p, all_chars (λ c, negb (p c)) password = false) [is_upper; is_lower; is_digit; Password.isSpecialChar]) ∧
  match Password.ValidatePassword password with
  | Err e => head (Password.ValidatePasswordWithErrors password) = Some e
  | _ => Password.ValidatePasswordWithErrors password = []
  end.
Proof.
  unfold Password.ValidatePassword, Password.ValidatePasswordWithErrors. rewrite scan_spec. simpl.
  rewrite !Forall_cons, Forall_nil. unfold Password.MinPasswordLength.
  destruct (Z.ltb_spec (length_of password) 12); [split; [split; [done|lia]|done]|].
  destruct (all_chars (λ c, negb (is_upper c)) password), (all_chars (λ c, negb (is_lower c)) password),
    (all_chars (λ c, negb (is_digit c)) password), (all_chars (λ c, negb (Password.isSpecialChar c)) password);
    simpl; naive_solver.
Qed.

(** * Witnesses *)

Definition scoped_key : APIKey := APIKey.mk "k1" "u1" "ci" "hash" "vc_" "read:projects" None None 0.

Lemma accepted_scopes_all_or_nothing_witness :
  Access.hasScope (λ s, Some [s]) (Some scoped_key) ScopeRead = false.
Proof.
  rewrite (accepted_scopes_all_or_nothing (λ s, Some [s]) scoped_key ["read:projects"] ScopeRead);
    [by apply bool_decide_eq_false; intros [?|[H|H]]; [done|vm_compute in H; set_solver..]|by vm_compute|by vm_compute|].
  apply list_elem_of_here.
Defined.
