(* ===== verification/Certificates.v ===== *)
(** The certificate authority ([src/internal/security/ca.go]).

    The manager keeps the current authority and a pool of trusted certificates; authorities
    and agent certificates are in the store, the authorities' private keys encrypted by the
    key service.  The state is that of the key service (with the store they share), the
    current authority and the pool.  Certificates are those of [crypto/x509]: the class
    [X509] has the calls, [X509Laws] what its documentation says of them.  Random values
    and the clock are arguments.  A rotation also changes the object of the old authority,
    which only a caller that kept it can see. *)

From Stdlib Require Import HexadecimalString HexadecimalN.
From S2P Require Import GoStrings GoTime GoSort StoreBase ServiceBase Crypto SecurityModels MemSecurity KeyManagement.

#[local] Open Scope string_scope.
#[local] Open Scope list_scope.
#[local] Open Scope Z_scope.

(** * Certificates *)

(** The fields of [x509.Certificate] the program sets; BasicConstraintsValid is always
    true, and MaxPathLenZero never set. *)
Module Template.
Record Template := mk {
  SerialNumber : Z;
  CommonName : string;
  Organization : list string;
  DNSNames : list string;
  NotBefore : time;
  NotAfter : time;
  KeyUsage : Z;
  ExtKeyUsage : list Z;
  IsCA : bool;
  MaxPathLen : Z
}.
End Template.
Abbreviation Template := Template.Template.

Definition KeyUsageDigitalSignature : Z := 1.
Definition KeyUsageKeyEncipherment : Z := 4.
Definition KeyUsageCertSign : Z := 32.
Definition KeyUsageCRLSign : Z := 64.
Definition ExtKeyUsageClientAuth : Z := 2.

(** The parent [None] is the template itself. *)
Class X509 := {
  PrivateKey : Type;
  PublicKey : Type;
  Certificate : Type;
  Public : PrivateKey → PublicKey;
  CreateCertificate : Template → option Certificate → PublicKey → PrivateKey → list Z → option (list Z);
  ParseCertificate : list Z → option Certificate;
  Raw : Certificate → list Z;
  fields : Certificate → Template;
  Issuer : Certificate → string * list string;
  SubjectKey : Certificate → PublicKey;
  CheckSignature : PublicKey → Certificate → bool;
  MarshalECPrivateKey : PrivateKey → option (list Z);
  ParseECPrivateKey : list Z → option PrivateKey;
  pem_encode : string → list Z → string;
  pem_decode : string → option (list Z);
  Sum256 : list Z → list Z
}.

Definition subject (t : Template) : string * list string := (t.(Template.CommonName), t.(Template.Organization)).

(** What is read back of a template: times are whole seconds, there are nine key usages,
    and without MaxPathLenZero a path length of 0 is one that is not set, which is read
    as -1. *)
Definition parsed (t : Template) : Template :=
  {| t with Template.NotBefore := Template.NotBefore t - Template.NotBefore t mod Second;
            Template.NotAfter := Template.NotAfter t - Template.NotAfter t mod Second;
            Template.KeyUsage := Z.land (Template.KeyUsage t) 511;
            Template.MaxPathLen := if Template.MaxPathLen t =? 0 then -1 else Template.MaxPathLen t |}.

(** Of a certificate that was made and can be parsed; the values of a subject with several
    organizations may come back in another order. *)
Class X509Laws `{X509} := {
  create_parse : ∀ t parent pub signer random der c,
    CreateCertificate t parent pub signer random = Some der → ParseCertificate der = Some c →
    (length (Template.Organization t) ≤ 1)%nat →
    fields c = parsed t ∧ SubjectKey c = pub ∧
    Issuer c = match parent with None => subject t | Some p => subject (fields p) end ∧
    CheckSignature (Public signer) c = true;
  parse_raw : ∀ der c, ParseCertificate der = Some c → Raw c = der;
  key_bytes : ∀ k der, MarshalECPrivateKey k = Some der → bytes_ok der ∧ ParseECPrivateKey der = Some k;
  pem_roundtrip : ∀ typ der, pem_decode (pem_encode typ der) = Some der
}.

(** [fmt.Sprintf("%x", n)] of a number that is not negative. *)
Definition hex_of (n : Z) : string := NilZero.string_of_uint (N.to_hex_uint (Z.to_N n)).

(** ** Data *)

Definition CAStatusActive : string := "active".
Definition CAStatusInactive : string := "inactive".
Definition CertStatusActive : string := "active".
Definition CertStatusExpired : string := "expired".
Definition CertStatusRevoked : string := "revoked".

Module CAConfig.
Record CAConfig := mk {
  CommonName : string;
  Organization : string;
  CAValidity : Z;
  CertValidity : Z;
  RenewalThreshold : Z
}.
End CAConfig.
Abbreviation CAConfig := CAConfig.CAConfig.

Definition DefaultCAConfig : CAConfig :=
  CAConfig.mk "vcdeploy Internal CA" "vcdeploy" (10 * 365 * 24 * Hour) (365 * 24 * Hour) (6 * 30 * 24 * Hour).

Definition ErrKMSNotConfigured : gerror :=
  Errorf "KMS not configured: encryption/decryption operations are unavailable".

Module CA.

(** An authority as the manager has it. *)
Module Authority.
Record Authority `{X509} := mk {
  ID : string;
  Version : Z;
  CommonName : string;
  Cert : option Certificate;
  CertificatePEM : string;
  Key : option PrivateKey;
  PrivateKeyEnc : list Z;
  NotBefore : time;
  NotAfter : time;
  Status : string;
  IsCurrent : bool;
  CreatedAt : time;
  RotatedAt : option time
}.
End Authority.
Abbreviation Authority := Authority.Authority.

(** An agent's certificate as the manager has it. *)
Module AgentCert.
Record AgentCert `{X509} := mk {
  ID : string;
  AgentID : string;
  CAID : string;
  SerialNumber : string;
  Cert : option Certificate;
  CertificatePEM : string;
  PrivateKeyPEM : string;
  NotBefore : time;
  NotAfter : time;
  Status : string;
  IssuedAt : time;
  RenewedAt : option time;
  RevokedAt : option time;
  RevocationReason : string
}.
End AgentCert.
Abbreviation AgentCert := AgentCert.AgentCert.

Section ca.
Context `{X509, AEAD, MapRange} (masterKey : list Z).

(** [kms] holds the store; [hasKMS] tells if the key service itself is there. *)
Record State := mkState {
  kms : Kms.State;
  hasKMS : bool;
  currentCA : option Authority;
  trustPool : list Certificate
}.

(** What a call takes from the random generators. *)
Record random := mkRandom {
  r_key : option PrivateKey;
  r_serial : option Z;
  r_sign : list Z;
  r_nonce : option (list Z)
}.

Definition store (m : State) : Security.State := Kms.store (kms m).

Definition on_store {A} (f : Security.State → Outcome Security.State A) (m : State) : State * result A :=
  let '(k', r) := Kms.on_store f (kms m) in ({| m with kms := k' |}, r).

Definition with_store (s : Security.State) (m : State) : State :=
  let k := kms m in {| m with kms := {| k with Kms.store := s |} |}.

(** [CertPool.AddCert]: a certificate is in the pool once. *)
Definition AddCert (c : Certificate) (pool : list Certificate) : list Certificate :=
  if bool_decide (Raw c ∈ Raw <$> pool) then pool else pool ++ [c].

(** * Conversions *)

(** [pem.Decode] and [x509.ParseCertificate] *)
Definition parse_pem (pem : string) : option Certificate := pem_decode pem ≫= ParseCertificate.

Definition toStorageCA (ca : Authority) : CertificateAuthority :=
  CertificateAuthority.mk ca.(Authority.ID) ca.(Authority.Version) ca.(Authority.CommonName)
    ca.(Authority.CertificatePEM) ca.(Authority.PrivateKeyEnc) ca.(Authority.NotBefore) ca.(Authority.NotAfter)
    ca.(Authority.Status) ca.(Authority.IsCurrent) ca.(Authority.CreatedAt) ca.(Authority.RotatedAt).

Definition fromStorageCA (sca : CertificateAuthority) : Authority :=
  Authority.mk _ sca.(CertificateAuthority.ID) sca.(CertificateAuthority.Version) sca.(CertificateAuthority.CommonName)
    (parse_pem sca.(CertificateAuthority.CertificatePEM)) sca.(CertificateAuthority.CertificatePEM) None
    sca.(CertificateAuthority.PrivateKeyEnc) sca.(CertificateAuthority.NotBefore) sca.(CertificateAuthority.NotAfter)
    sca.(CertificateAuthority.Status) sca.(CertificateAuthority.IsCurrent) sca.(CertificateAuthority.CreatedAt)
    sca.(CertificateAuthority.RotatedAt).

Definition toStorageAgentCert (cert : AgentCert) : AgentCertificate :=
  AgentCertificate.mk cert.(AgentCert.ID) cert.(AgentCert.AgentID) cert.(AgentCert.CAID) cert.(AgentCert.SerialNumber)
    cert.(AgentCert.CertificatePEM) cert.(AgentCert.NotBefore) cert.(AgentCert.NotAfter) cert.(AgentCert.Status)
    cert.(AgentCert.IssuedAt) cert.(AgentCert.RenewedAt) cert.(AgentCert.RevokedAt) cert.(AgentCert.RevocationReason).

Definition fromStorageAgentCert (sc : AgentCertificate) : AgentCert :=
  AgentCert.mk _ sc.(AgentCertificate.ID) sc.(AgentCertificate.AgentID) sc.(AgentCertificate.CAID)
    sc.(AgentCertificate.SerialNumber) (parse_pem sc.(AgentCertificate.CertificatePEM))
    sc.(AgentCertificate.CertificatePEM) "" sc.(AgentCertificate.NotBefore) sc.(AgentCertificate.NotAfter)
    sc.(AgentCertificate.Status) sc.(AgentCertificate.IssuedAt) sc.(AgentCertificate.RenewedAt)
    sc.(AgentCertificate.RevokedAt) sc.(AgentCertificate.RevocationReason).

Definition generateCAID (cert : Certificate) : string := hex_encode (take 8 (Sum256 (Raw cert))).

(** * Starting *)

(** One turn of the loop: what cannot be parsed is passed over. *)
Definition add_pem (pool : list Certificate) (sca : CertificateAuthority) : list Certificate :=
  match parse_pem sca.(CertificateAuthority.CertificatePEM) with
  | Some cert => AddCert cert pool
  | None => pool
  end.

Definition loadTrustPool (m : State) : State * result unit :=
  match Security.ListCAs (store m) with
  | Err e => (m, if bool_decide (e = ErrNotFound) then Ok tt else Err e)
  | Panic => (m, Panic)
  | Ok cas =>
      ({| m with trustPool := foldl add_pem (trustPool m) cas |}, Ok tt)
  end.

Definition loadCurrentCA (m : State) : State * result unit :=
  match Security.GetCurrentCA (store m) with
  | Err e => (m, if bool_decide (e = ErrNotFound) then Ok tt else Err (wrapf "get current CA" e))
  | Panic => (m, Panic)
  | Ok sca => ({| m with currentCA := Some (fromStorageCA sca) |}, Ok tt)
  end.

Definition NewCAManager (k : Kms.State) (has : bool) : State * result unit :=
  match loadTrustPool (mkState k has None []) with
  | (m, Err e) => (m, Err (wrapf "load trust pool" e))
  | (m, Panic) => (m, Panic)
  | (m, Ok _) =>
      match loadCurrentCA m with
      | (m', Err e) => (m', Err (wrapf "load current CA" e))
      | r => r
      end
  end.

Definition requireKMS (m : State) : option gerror := if hasKMS m then None else Some ErrKMSNotConfigured.

(** * Authorities *)

Definition next_version (cas : list CertificateAuthority) : Z :=
  foldl (λ version ca, if version <=? ca.(CertificateAuthority.Version)
                       then wrap64 (ca.(CertificateAuthority.Version) + 1) else version) 1 cas.

Definition ca_template (config : CAConfig) (serial : Z) (now : time) : Template :=
  Template.mk serial config.(CAConfig.CommonName) [config.(CAConfig.Organization)] []
    now (now + config.(CAConfig.CAValidity))
    (Z.lor (Z.lor KeyUsageCertSign KeyUsageCRLSign) KeyUsageDigitalSignature) [] true 1.

Definition generateCA (config : CAConfig) (now : time) (rnd : random) (m : State) : result Authority :=
  match requireKMS m with
  | Some e => Err e
  | None =>
  match r_key rnd with
  | None => Err (Errorf "generate key")
  | Some privateKey =>
  match r_serial rnd with
  | None => Err (Errorf "generate serial")
  | Some serialNumber =>
  match CreateCertificate (ca_template config serialNumber now) None (Public privateKey) privateKey (r_sign rnd) with
  | None => Err (Errorf "create certificate")
  | Some certDER =>
  match ParseCertificate certDER with
  | None => Err (Errorf "parse certificate")
  | Some cert =>
  match MarshalECPrivateKey privateKey with
  | None => Err (Errorf "marshal key")
  | Some keyDER =>
  match Kms.Encrypt (r_nonce rnd) keyDER (kms m) with
  | Err e => Err (wrapf "encrypt key" e)
  | Panic => Panic
  | Ok encryptedKey =>
      let version := match Security.ListCAs (store m) with Ok cas => next_version cas | _ => 1 end in
      Ok (Authority.mk _ (generateCAID cert) version config.(CAConfig.CommonName) (Some cert)
            (pem_encode "CERTIFICATE" certDER) (Some privateKey) (bytes_of encryptedKey)
            (Template.NotBefore (fields cert)) (Template.NotAfter (fields cert)) CAStatusActive true now None)
  end end end end end end end.

Definition saveCA (now : time) (ca : Authority) : State → State * result unit :=
  on_store (Security.SaveCA (toStorageCA ca) now).

(** [m.trustPool.AddCert(ca.Certificate)], which panics on nil. *)
Definition trust (ca : Authority) (m : State) : State * result unit :=
  match ca.(Authority.Cert) with
  | None => (m, Panic)
  | Some c => ({| m with trustPool := AddCert c (trustPool m) |}, Ok tt)
  end.

Definition Initialize (config : CAConfig) (now : time) (rnd : random) (m : State) : State * result unit :=
  match currentCA m with
  | Some _ => (m, Ok tt)
  | None =>
      match generateCA config now rnd m with
      | Err e => (m, Err (wrapf "generate CA" e))
      | Panic => (m, Panic)
      | Ok ca =>
          match saveCA now ca m with
          | (m1, Err e) => (m1, Err (wrapf "save CA" e))
          | (m1, Panic) => (m1, Panic)
          | (m1, Ok _) => trust ca {| m1 with currentCA := Some ca |}
          end
      end
  end.

Definition RotateCA (config : CAConfig) (now : time) (rnd : random) (m : State) : State * result Authority :=
  match generateCA config now rnd m with
  | Err e => (m, Err (wrapf "generate new CA" e))
  | Panic => (m, Panic)
  | Ok newCA =>
      match saveCA now newCA m with
      | (m1, Err e) => (m1, Err (wrapf "save new CA" e))
      | (m1, Panic) => (m1, Panic)
      | (m1, Ok _) =>
          match on_store (Security.SetCurrentCA newCA.(Authority.ID) now) m1 with
          | (m2, Err e) => (m2, Err (wrapf "set current CA" e))
          | (m2, Panic) => (m2, Panic)
          | (m2, Ok _) =>
              match trust newCA {| m2 with currentCA := Some newCA |} with
              | (m3, Ok _) => (m3, Ok newCA)
              | (m3, Err e) => (m3, Err e)
              | (m3, Panic) => (m3, Panic)
              end
          end
      end
  end.

Definition ListCAs (m : State) : result (list Authority) :=
  match Security.ListCAs (store m) with
  | Ok scas => Ok (fromStorageCA <$> scas)
  | Err e => Err (wrapf "list CAs" e)
  | Panic => Panic
  end.

(** The hash of the identifiers, sorted. *)
Definition GetTrustPoolVersion `{SliceSort} (m : State) : string :=
  match Security.ListCAs (store m) with
  | Ok cas =>
      let ids := sort_Slice string_lt (CertificateAuthority.ID <$> cas) in
      take_chars 16 (hex_encode (Sum256 (bytes_of (GoStrings.Join ids ":"))))
  | _ => "unknown"
  end.

Definition GetAllCACertificates (m : State) : result (list string) :=
  match Security.ListCAs (store m) with
  | Ok cas => Ok (filter (λ pem, pem ≠ "") (CertificateAuthority.CertificatePEM <$> cas))
  | Err e => Err (wrapf "list CAs" e)
  | Panic => Panic
  end.

(** * Agent certificates *)

Definition decryptCAKey (ca : Authority) (m : State) : State * result PrivateKey :=
  match ca.(Authority.Key) with
  | Some k => (m, Ok k)
  | None =>
      match requireKMS m with
      | Some e => (m, Err e)
      | None =>
          let '(k', r) := Kms.Decrypt masterKey (string_of ca.(Authority.PrivateKeyEnc)) (kms m) in
          ({| m with kms := k' |},
           match r with
           | Err e => Err e
           | Panic => Panic
           | Ok keyDER => match ParseECPrivateKey keyDER with None => Err (Errorf "parse key") | Some k => Ok k end
           end)
      end
  end.

Definition agent_template (agentID hostname : string) (serial : Z) (now : time) : Template :=
  let config := DefaultCAConfig in
  Template.mk serial ("agent-" +:+ agentID) [config.(CAConfig.Organization)] [hostname; "agent-" +:+ agentID]
    now (now + config.(CAConfig.CertValidity))
    (Z.lor KeyUsageDigitalSignature KeyUsageKeyEncipherment) [ExtKeyUsageClientAuth] false 0.

(** The certificate made with the authority's key; [CreateCertificate] panics on a nil
    parent. *)
Definition make_cert (agentID hostname : string) (ca : Authority) (privateKey : PrivateKey) (now : time) (rnd : random)
    : result AgentCert :=
  match r_key rnd with
  | None => Err (Errorf "generate agent key")
  | Some agentKey =>
  match r_serial rnd with
  | None => Err (Errorf "generate serial")
  | Some serialNumber =>
  match ca.(Authority.Cert) with
  | None => Panic
  | Some parent =>
  match CreateCertificate (agent_template agentID hostname serialNumber now) (Some parent) (Public agentKey) privateKey
          (r_sign rnd) with
  | None => Err (Errorf "create certificate")
  | Some certDER =>
  match ParseCertificate certDER with
  | None => Err (Errorf "parse certificate")
  | Some cert =>
  match MarshalECPrivateKey agentKey with
  | None => Err (Errorf "marshal key")
  | Some keyDER =>
      Ok (AgentCert.mk _ "" agentID ca.(Authority.ID) (hex_of serialNumber) (Some cert)
            (pem_encode "CERTIFICATE" certDER) (pem_encode "EC PRIVATE KEY" keyDER)
            (Template.NotBefore (fields cert)) (Template.NotAfter (fields cert)) CertStatusActive now None None "")
  end end end end end end.

Definition saveAgentCert (now : time) (xid : string) (cert : AgentCert) (m : State) : State * result string :=
  on_store (Security.SaveAgentCert (toStorageAgentCert cert) now xid) m.

Definition IssueAgentCertificate (agentID hostname : string) (now : time) (xid : string) (rnd : random) (m : State)
    : State * result AgentCert :=
  match currentCA m with
  | None => (m, Err (Errorf "no active CA"))
  | Some ca =>
      match decryptCAKey ca m with
      | (m1, Err e) => (m1, Err (wrapf "decrypt CA key" e))
      | (m1, Panic) => (m1, Panic)
      | (m1, Ok privateKey) =>
          match make_cert agentID hostname ca privateKey now rnd with
          | Err e => (m1, Err e)
          | Panic => (m1, Panic)
          | Ok cert =>
              match saveAgentCert now xid cert m1 with
              | (m2, Err e) => (m2, Err (wrapf "save agent cert" e))
              | (m2, Panic) => (m2, Panic)
              | (m2, Ok id) => (m2, Ok {| cert with AgentCert.ID := id |})
              end
          end
      end
  end.

Definition revokeAgentCertificates (agentID reason : string) (now : time) (xids : nat → string)
    : State → State * result unit :=
  on_store (Security.RevokeAgentCert agentID reason "system" now xids).

(** The old certificates are revoked; an error of that is logged only. *)
Definition RenewAgentCertificate (agentID hostname : string) (now : time) (xids : nat → string) (xid : string)
    (rnd : random) (m : State) : State * result AgentCert :=
  match revokeAgentCertificates agentID "renewed" now xids m with
  | (m1, Panic) => (m1, Panic)
  | (m1, _) => IssueAgentCertificate agentID hostname now xid rnd m1
  end.

Definition GetAgentCertificate (agentID : string) (m : State) : result (option AgentCert) :=
  match Security.GetAgentCert agentID (store m) with
  | Ok sc => Ok (Some (fromStorageAgentCert sc))
  | Err e => if bool_decide (e = ErrNotFound) then Ok None else Err (wrapf "get agent cert" e)
  | Panic => Panic
  end.

(** The clock is read at most twice. *)
Definition ShouldRenew (cert : option AgentCert) (threshold : Z) (now now' : time) : bool :=
  match cert with
  | None => true
  | Some cert =>
      match cert.(AgentCert.Cert) with
      | None => true
      | Some _ => After now cert.(AgentCert.NotAfter) || After now' (cert.(AgentCert.NotAfter) - threshold)
      end
  end.

Definition RevokeCertificate (serialNumber reason : string) (now : time) (xid : string) : State → State * result unit :=
  on_store (Security.RevokeAgentCertBySerial serialNumber reason "system" now xid).

(** One turn of the loop over the listed certificates. *)
Definition expire_turn (now : time) (acc : State * Z) (cert : AgentCertificate) : State * Z :=
  let '(m, count) := acc in
  if bool_decide (cert.(AgentCertificate.Status) = SecurityModels.CertStatusActive) &&
     Before cert.(AgentCertificate.NotAfter) now
  then match on_store (Security.UpdateAgentCertStatus cert.(AgentCertificate.SerialNumber) CertStatusExpired now) m with
       | (m', Ok _) => (m', count + 1)
       | (m', _) => (m', count)
       end
  else (m, count).

Definition ProcessExpiredCertificates (now : time) (m : State) : State * result Z :=
  match Security.ListAgentCerts (store m) with
  | Err e => (m, Err e)
  | Panic => (m, Panic)
  | Ok certs => let '(m', count) := foldl (expire_turn now) (m, 0) certs in (m', Ok count)
  end.

(** ** Verification *)

Definition valid_at (t : time) (c : Certificate) : bool :=
  negb (Before t (Template.NotBefore (fields c))) && negb (After t (Template.NotAfter (fields c))).

(** What TLS asks of a client's certificate with [tls.RequireAndVerifyClientCert], for a
    client that sends no intermediates: a certificate of the pool signed it. *)
Definition signed_by (t : time) (c root : Certificate) : bool :=
  bool_decide (Issuer c = subject (fields root)) && CheckSignature (SubjectKey root) c &&
  Template.IsCA (fields root) && negb (Z.land (Template.KeyUsage (fields root)) KeyUsageCertSign =? 0) && valid_at t root.

Definition client_verified (pool : list Certificate) (t : time) (c : Certificate) : bool :=
  existsb (signed_by t c) pool && valid_at t c && bool_decide (ExtKeyUsageClientAuth ∈ Template.ExtKeyUsage (fields c)).

(** * Runs *)

Inductive call :=
| CInitialize (config : CAConfig) (now : time) (rnd : random)
| CRotateCA (config : CAConfig) (now : time) (rnd : random)
| CIssue (agentID hostname : string) (now : time) (xid : string) (rnd : random)
| CRenew (agentID hostname : string) (now : time) (xids : nat → string) (xid : string) (rnd : random)
| CRevoke (serialNumber reason : string) (now : time) (xid : string)
| CProcessExpired (now : time)
| CKms (c : Kms.call).

Definition run (c : call) (m : State) : State :=
  match c with
  | CInitialize config now rnd => (Initialize config now rnd m).1
  | CRotateCA config now rnd => (RotateCA config now rnd m).1
  | CIssue agentID hostname now xid rnd => (IssueAgentCertificate agentID hostname now xid rnd m).1
  | CRenew agentID hostname now xids xid rnd => (RenewAgentCertificate agentID hostname now xids xid rnd m).1
  | CRevoke serial reason now xid => (RevokeCertificate serial reason now xid m).1
  | CProcessExpired now => (ProcessExpiredCertificates now m).1
  | CKms c => {| m with kms := Kms.run masterKey c (kms m) |}
  end.

Definition cas (m : State) : gmap string CertificateAuthority := Security.certificateAuthorities (store m).

(** The generators give nonces of the right length; the hash of a new authority's
    certificate is that of no other. *)
Definition new_authority (config : CAConfig) (now : time) (rnd : random) (m : State) : Prop :=
  fresh_nonce (r_nonce rnd) ∧ ∀ ca, generateCA config now rnd m = Ok ca → cas m !! ca.(Authority.ID) = None.

Definition allowed (c : call) (m : State) : Prop :=
  match c with
  | CInitialize config now rnd | CRotateCA config now rnd => new_authority config now rnd m
  | CKms c => Kms.allowed c (kms m)
  | _ => True
  end.

Inductive later : State → State → Prop :=
| later_refl m : later m m
| later_call c m m' : allowed c m → later (run c m) m' → later m m'.

(** * Invariant *)

(** A certificate and a key for an authority of the store: the stored key is encrypted
    with a key of the service, and the certificate is trusted. *)
Record sound (m : State) (sca : CertificateAuthority) (c : Certificate) (k : PrivateKey) : Prop := {
  sound_pem : parse_pem sca.(CertificateAuthority.CertificatePEM) = Some c;
  sound_key : SubjectKey c = Public k;
  sound_ca : Template.IsCA (fields c) = true ∧ Z.land (Template.KeyUsage (fields c)) KeyUsageCertSign ≠ 0;
  sound_text : ∃ der key n, MarshalECPrivateKey k = Some der ∧
    string_of sca.(CertificateAuthority.PrivateKeyEnc) = Kms.versioned_text key n der ∧
    Kms.backed masterKey (kms m) key ∧ len n = NonceSize ∧ bytes_ok n;
  sound_trusted : c ∈ trustPool m
}.

Record wf (m : State) : Prop := {
  wf_kms : Kms.wf masterKey (kms m);
  wf_ids : Security.keyed_by CertificateAuthority.ID (cas m);
  wf_cas : ∀ id sca, cas m !! id = Some sca → ∃ c k, sound m sca c k;
  wf_pool : ∀ c, c ∈ trustPool m → ParseCertificate (Raw c) = Some c;
  wf_current : ∀ ca, currentCA m = Some ca → ∃ sca, cas m !! ca.(Authority.ID) = Some sca ∧
    sca.(CertificateAuthority.IsCurrent) = true ∧
    sca.(CertificateAuthority.CertificatePEM) = ca.(Authority.CertificatePEM) ∧
    sca.(CertificateAuthority.PrivateKeyEnc) = ca.(Authority.PrivateKeyEnc) ∧
    ca.(Authority.Cert) = parse_pem ca.(Authority.CertificatePEM) ∧
    ∀ k c, ca.(Authority.Key) = Some k → ca.(Authority.Cert) = Some c → SubjectKey c = Public k;
  wf_one : ∀ id sca, cas m !! id = Some sca → sca.(CertificateAuthority.IsCurrent) = true →
    ∃ ca, currentCA m = Some ca ∧ ca.(Authority.ID) = id
}.

(** Authorities stay, with their certificates and keys. *)
Definition keeps (m m' : State) : Prop :=
  Kms.grows (kms m) (kms m') ∧
  ∀ id sca, cas m !! id = Some sca → ∃ sca', cas m' !! id = Some sca' ∧
    sca'.(CertificateAuthority.CertificatePEM) = sca.(CertificateAuthority.CertificatePEM) ∧
    sca'.(CertificateAuthority.PrivateKeyEnc) = sca.(CertificateAuthority.PrivateKeyEnc).

#[global] Instance keeps_refl : Reflexive keeps.
Proof. intros m. split; [done|]. intros id sca Hs. by exists sca. Qed.

#[global] Instance keeps_trans : Transitive keeps.
Proof.
  intros m1 m2 m3 [Hg1 K1] [Hg2 K2]. split; [by transitivity (kms m2)|]. intros id sca Hs.
  destruct (K1 id sca Hs) as (s2 & Hs2 & E2 & F2). destruct (K2 id s2 Hs2) as (s3 & Hs3 & E3 & F3).
  exists s3. split_and!; [done|congruence..].
Qed.

(** ** The key service leaves the other tables alone *)

Definition only_keys (s s' : Security.State) : Prop :=
  s' = {| s with Security.encryptionKeys := Security.encryptionKeys s' |}.

#[local] Instance only_keys_refl : Reflexive only_keys.
Proof. by intros []. Qed.

#[local] Instance only_keys_trans : Transitive only_keys.
Proof. unfold only_keys. intros s1 s2 s3 -> ->. by destruct s3. Qed.

Lemma only_keys_save sk now s : only_keys s (st (Security.SaveEncryptionKey sk now s)).
Proof. done. Qed.

Lemma only_keys_update id status at_ now s : only_keys s (st (Security.UpdateEncryptionKeyStatus id status at_ now s)).
Proof. unfold Security.UpdateEncryptionKeyStatus. by destruct (_ !! id), s. Qed.

Lemma only_keys_getKey id k : Kms.store (Kms.getKey masterKey id k).1 = Kms.store k.
Proof. unfold Kms.getKey, Kms.alloc. cbv zeta. repeat case_match; done. Qed.

Lemma only_keys_decrypt v k : Kms.store (Kms.Decrypt masterKey v k).1 = Kms.store k.
Proof.
  unfold Kms.Decrypt. destruct (Kms.split4 v) as [[[[ver id] n] c]|]; [|done]. repeat case_match; try done;
    match goal with E : Kms.getKey _ ?id k = (?k', _) |- _ =>
      pose proof (only_keys_getKey id k) as Hs; rewrite E in Hs; exact Hs end.
Qed.

Lemma only_keys_saveKey nonce now key k : only_keys (Kms.store k) (Kms.store (Kms.saveKey masterKey nonce now key k).1).
Proof. unfold Kms.saveKey. destruct (Kms.toStorageKey _ _ _); [apply only_keys_save|reflexivity]. Qed.

Lemma only_keys_change keyID test status at_ now prefix f k :
  only_keys (Kms.store k) (Kms.store (Kms.change_key masterKey keyID test status at_ now prefix f k).1).
Proof.
  unfold Kms.change_key. pose proof (only_keys_getKey keyID k) as Hs.
  destruct (Kms.getKey masterKey keyID k) as [k1 [l|e|]]; cbn [fst] in *; rewrite <- Hs; [|reflexivity..].
  destruct (Kms.heap k1 !! l) as [key|]; [|reflexivity]. destruct (test key); [reflexivity|].
  pose proof (only_keys_update keyID status at_ now (Kms.store k1)) as Hu. unfold Kms.on_store.
  destruct (ret (Security.UpdateEncryptionKeyStatus _ _ _ _ _)); [|exact Hu..].
  unfold Kms.cacheKey. cbn. destruct (alter f l (Kms.heap k1) !! l); exact Hu.
Qed.

Lemma only_keys_run c k : only_keys (Kms.store k) (Kms.store (Kms.run masterKey c k)).
Proof.
  destruct c; cbn [Kms.run]; [| | |apply only_keys_change..|].
  - unfold Kms.Initialize. destruct (Kms.currentKey k); [reflexivity|].
    destruct (Kms.generateKey now xid random0 k); [|reflexivity]. cbn zeta.
    pose proof (only_keys_saveKey nonce now (Kms.activated now k0) k) as Hs.
    by destruct (Kms.saveKey _ _ _ _ k) as [k1 [?|?|]].
  - by rewrite only_keys_decrypt.
  - unfold Kms.RotateKey. destruct (Kms.generateKey now xid random0 k) as [newKey|]; [|reflexivity]. cbn zeta.
    fold (Kms.retire now k). transitivity (Kms.store (Kms.retire now k).1).
    + unfold Kms.retire. destruct (Kms.currentKey k) as [l|]; [|reflexivity].
      destruct (Kms.heap k !! l) as [cur|]; [|reflexivity]. unfold Kms.on_store.
      pose proof (only_keys_update (Key.ID cur) KeyStatusInactive None now (Kms.store k)) as Hu.
      by destruct (ret _).
    + destruct (Kms.retire now k) as [k1 [?|?|]]; [|reflexivity..]. cbn [fst].
      pose proof (only_keys_saveKey nonce now (Kms.activated now newKey) k1) as Hs.
      by destruct (Kms.saveKey _ _ _ _ k1) as [k2 [?|?|]].
  - unfold Kms.ProcessScheduledDeletions, Kms.delete_due.
    set (l := range_values _). generalize 0. intros n.
    assert (only_keys (Kms.store k) (foldl (Kms.delete_step now) (Kms.store k, n) l).1) as Hf.
    { generalize (Kms.store k). clear. revert n. induction l as [|x l IH]; intros n s; [reflexivity|]. cbn [foldl].
      unfold Kms.delete_step at 2. destruct (Kms.due now x); [|apply IH].
      pose proof (only_keys_update (EncryptionKey.ID x) KeyStatusDeleted None now s) as Hu.
      destruct (ret _); [etransitivity; [exact Hu|apply IH]|apply IH..]. }
    destruct (foldl _ _ l) as [s' n']. cbn. repeat case_match; exact Hf.
Qed.

(** ** Steps *)

Lemma sound_mono m m' sca sca' c k :
  sound m sca c k → Kms.grows (kms m) (kms m') → (∀ x, x ∈ trustPool m → x ∈ trustPool m') →
  sca'.(CertificateAuthority.CertificatePEM) = sca.(CertificateAuthority.CertificatePEM) →
  sca'.(CertificateAuthority.PrivateKeyEnc) = sca.(CertificateAuthority.PrivateKeyEnc) → sound m' sca' c k.
Proof.
  intros [Hp Hk Hc (der & key & n & Hd & Ht & Hb & Hl) Htr] Hg Hpool E1 E2.
  split; [by rewrite E1|done|done| |by apply Hpool].
  exists der, key, n. rewrite E2. split_and!; [done|done| |by destruct Hl..]. by eapply Kms.backed_grows.
Qed.

Lemma wf_frame m m' :
  wf m → Kms.wf masterKey (kms m') → Kms.grows (kms m) (kms m') → cas m' = cas m → trustPool m' = trustPool m →
  currentCA m' = currentCA m → wf m' ∧ keeps m m'.
Proof.
  intros Hw Hk Hg Ec Et Eu. split; [|split; [done|rewrite Ec; intros id sca Hs; by exists sca]].
  split; rewrite ?Ec, ?Et, ?Eu; [done|by apply wf_ids| |by apply wf_pool|by apply wf_current|by apply wf_one].
  intros id sca Hs. destruct (wf_cas m Hw id sca Hs) as (c & k & Hsd). exists c, k.
  eapply sound_mono; [done..| |done|done]. by rewrite Et.
Qed.

Lemma kms_wf_ext k s :
  Kms.wf masterKey k → Security.encryptionKeys s = Kms.keys k → Kms.wf masterKey {| k with Kms.store := s |}.
Proof.
  intros [Wk Wh Wc Wu Wa] E. unfold Kms.keys in E. split; unfold Kms.backed, Kms.one_active, Kms.keys in *; cbn; rewrite ?E; done.
Qed.

Lemma kms_grows_ext k s : Security.encryptionKeys s = Kms.keys k → Kms.grows k {| k with Kms.store := s |}.
Proof. intros E id sk Hk. exists sk. unfold Kms.keys in *. cbn. by rewrite E. Qed.

(** A store method that touches neither keys nor authorities. *)
Lemma on_store_frame {A} (f : Security.State → Outcome Security.State A) m :
  wf m →
  Security.encryptionKeys (st (f (store m))) = Security.encryptionKeys (store m) →
  Security.certificateAuthorities (st (f (store m))) = Security.certificateAuthorities (store m) →
  wf (on_store f m).1 ∧ keeps m (on_store f m).1.
Proof.
  intros Hw Ek Ec. unfold on_store, Kms.on_store. cbn. apply wf_frame; [done| | |exact Ec|done|done]; cbn.
  - by apply kms_wf_ext; [apply wf_kms|].
  - by apply kms_grows_ext.
Qed.

Lemma revoke_frame agentID reason by_ now xids s :
  let s' := st (Security.RevokeAgentCert agentID reason by_ now xids s) in
  Security.encryptionKeys s' = Security.encryptionKeys s ∧
  Security.certificateAuthorities s' = Security.certificateAuthorities s.
Proof.
  unfold Security.RevokeAgentCert. set (turns := zip _ _). generalize (@nil (Chan * WriteOp)). intros q.
  assert (∀ s q, let s' := (foldl (Security.revoke_turn agentID reason by_ now) (s, q) turns).1 in
    Security.encryptionKeys s' = Security.encryptionKeys s ∧
    Security.certificateAuthorities s' = Security.certificateAuthorities s) as Hf.
  { induction turns as [|[xid [key cert]] turns IH]; intros s0 q0; [done|]. cbn [foldl].
    set (acc := Security.revoke_turn _ _ _ _ (s0, q0) _). exact (IH acc.1 acc.2). }
  specialize (Hf s q). by destruct (foldl _ _ turns).
Qed.

Lemma revoke_by_serial_frame serial reason by_ now xid s :
  let s' := st (Security.RevokeAgentCertBySerial serial reason by_ now xid s) in
  Security.encryptionKeys s' = Security.encryptionKeys s ∧
  Security.certificateAuthorities s' = Security.certificateAuthorities s.
Proof. unfold Security.RevokeAgentCertBySerial. by destruct (_ !! serial). Qed.

Lemma cert_status_frame serial status now s :
  let s' := st (Security.UpdateAgentCertStatus serial status now s) in
  Security.encryptionKeys s' = Security.encryptionKeys s ∧
  Security.certificateAuthorities s' = Security.certificateAuthorities s.
Proof. unfold Security.UpdateAgentCertStatus. by destruct (_ !! serial). Qed.

Lemma decryptCAKey_wf ca m : wf m → wf (decryptCAKey ca m).1 ∧ keeps m (decryptCAKey ca m).1.
Proof.
  intros Hw. unfold decryptCAKey. destruct (Authority.Key ca); [done|]. destruct (requireKMS m); [done|].
  pose proof (Kms.decrypt_wf masterKey (string_of (Authority.PrivateKeyEnc ca)) (kms m) (wf_kms m Hw)) as [Hk He].
  pose proof (only_keys_decrypt (string_of (Authority.PrivateKeyEnc ca)) (kms m)) as Hs.
  destruct (Kms.Decrypt _ _ (kms m)) as [k' r]. cbn in *. apply wf_frame; cbn; [done..| | |done|done].
  - by apply Kms.extends_grows.
  - unfold cas, store. cbn. by rewrite Hs.
Qed.

Lemma issue_wf agentID hostname now xid rnd m :
  wf m → let m' := (IssueAgentCertificate agentID hostname now xid rnd m).1 in wf m' ∧ keeps m m'.
Proof.
  intros Hw. unfold IssueAgentCertificate. destruct (currentCA m) as [ca|]; [|done].
  pose proof (decryptCAKey_wf ca m Hw) as [Hw1 Hk1]. destruct (decryptCAKey ca m) as [m1 [pk|?|]]; [|done..].
  destruct (make_cert agentID hostname ca pk now rnd) as [cert|?|]; [|done..].
  destruct (on_store_frame (Security.SaveAgentCert (toStorageAgentCert cert) now xid) m1 Hw1) as [Hw2 Hk2]; [done..|].
  fold (saveAgentCert now xid cert m1) in *. destruct (saveAgentCert now xid cert m1) as [m2 [?|?|]]; cbn in *;
    (split; [done|by transitivity m1]).
Qed.

Lemma renew_wf agentID hostname now xids xid rnd m :
  wf m → let m' := (RenewAgentCertificate agentID hostname now xids xid rnd m).1 in wf m' ∧ keeps m m'.
Proof.
  intros Hw. unfold RenewAgentCertificate, revokeAgentCertificates.
  destruct (on_store_frame (Security.RevokeAgentCert agentID "renewed" "system" now xids) m Hw) as [Hw1 Hk1];
    [by apply revoke_frame..|].
  destruct (on_store _ m) as [m1 r]. cbn [fst] in *.
  destruct (issue_wf agentID hostname now xid rnd m1 Hw1) as [Hw2 Hk2].
  destruct r; [split; [done|by transitivity m1]..|done].
Qed.

Lemma expire_wf now m : wf m → wf (ProcessExpiredCertificates now m).1 ∧ keeps m (ProcessExpiredCertificates now m).1.
Proof.
  intros Hw. unfold ProcessExpiredCertificates. cbn. set (certs := range_values _). generalize 0. intros n.
  assert (wf (foldl (expire_turn now) (m, n) certs).1 ∧ keeps m (foldl (expire_turn now) (m, n) certs).1) as Hf.
  { clearbody certs. revert m n Hw. induction certs as [|cert certs IH]; intros m n Hw; [done|].
    cbn [foldl]. unfold expire_turn at 2 4. destruct (_ && _); [|by apply IH].
    destruct (on_store_frame (Security.UpdateAgentCertStatus (AgentCertificate.SerialNumber cert) CertStatusExpired now) m Hw)
      as [Hw1 Hk1]; [by apply cert_status_frame..|].
    destruct (on_store _ m) as [m1 r]. cbn [fst] in *.
    destruct r as [u|e|];
      [destruct (IH m1 (n + 1) Hw1) as [Hw2 Hk2]|destruct (IH m1 n Hw1) as [Hw2 Hk2]..]; (split; [done|by transitivity m1]). }
  by destruct (foldl _ _ certs).
Qed.

(** ** New authorities *)

Context `{L : !X509Laws}.

Lemma elem_of_AddCert c pool x : x ∈ AddCert c pool → x ∈ pool ∨ x = c.
Proof. unfold AddCert. case_bool_decide; [by left|]. rewrite elem_of_app, list_elem_of_singleton. done. Qed.

Lemma AddCert_old c pool x : x ∈ pool → x ∈ AddCert c pool.
Proof. unfold AddCert. case_bool_decide; [done|]. rewrite elem_of_app. by left. Qed.

Lemma AddCert_new c pool :
  ParseCertificate (Raw c) = Some c → (∀ x, x ∈ pool → ParseCertificate (Raw x) = Some x) → c ∈ AddCert c pool.
Proof.
  intros Hc Hp. unfold AddCert. case_bool_decide as E; [|rewrite elem_of_app, list_elem_of_singleton; by right].
  apply list_elem_of_fmap in E as (x & Er & Hx). pose proof (Hp x Hx) as Ex. congruence.
Qed.

(** What a generated authority is. *)
Lemma generateCA_Ok config now rnd m ca :
  wf m → fresh_nonce (r_nonce rnd) → generateCA config now rnd m = Ok ca →
  ∃ c k serial, ca.(Authority.Cert) = Some c ∧ ca.(Authority.Key) = Some k ∧
    parse_pem ca.(Authority.CertificatePEM) = Some c ∧ ParseCertificate (Raw c) = Some c ∧
    fields c = parsed (ca_template config serial now) ∧ SubjectKey c = Public k ∧
    ca.(Authority.IsCurrent) = true ∧ ca.(Authority.Status) = CAStatusActive ∧
    ca.(Authority.Version) = next_version (range_values (cas m)) ∧
    ∃ der key n, MarshalECPrivateKey k = Some der ∧
      string_of ca.(Authority.PrivateKeyEnc) = Kms.versioned_text key n der ∧
      Kms.backed masterKey (kms m) key ∧ len n = NonceSize ∧ bytes_ok n.
Proof using L.
  intros Hw Hn. unfold generateCA. destruct (requireKMS m); [done|]. destruct (r_key rnd) as [k|]; [|done].
  destruct (r_serial rnd) as [serial|]; [|done].
  destruct (CreateCertificate _ _ _ _ _) as [der|] eqn:Ecr; [|done].
  destruct (ParseCertificate der) as [c|] eqn:Hc; [|done]. pose proof (parse_raw _ _ Hc) as Hraw.
  destruct (create_parse _ _ _ _ _ _ _ Ecr Hc) as (Hf & Hs & _); [simpl; lia|].
  destruct (MarshalECPrivateKey k) as [keyDER|] eqn:Em; [|done].
  destruct (Kms.Encrypt (r_nonce rnd) keyDER (kms m)) as [text|e|] eqn:Ee; [|done..]. intros [= <-]. cbn.
  destruct (Kms.Encrypt_Ok _ _ _ _ Ee) as (l & key & n & _ & Hh & _ & Enonce & ->).
  destruct (Hn n Enonce) as [Hl Hb]. exists c, k, serial. split_and!; try done.
  - unfold parse_pem. by rewrite pem_roundtrip.
  - by rewrite Hraw.
  - exists keyDER, key, n. split_and!; [done|exact (string_of_bytes_of (Kms.versioned_text key n keyDER))| |done..].
    by eapply (Kms.wf_heap _ _ (wf_kms m Hw)).
Qed.

(** The state in which the authority is stored, trusted and current. *)
Lemma trusted_wf m m' ca c k der key n :
  wf m → kms m' = kms m ∨ (∃ s, kms m' = {| (kms m) with Kms.store := s |} ∧ Security.encryptionKeys s = Kms.keys (kms m)) →
  currentCA m' = Some ca → trustPool m' = AddCert c (trustPool m) →
  ca.(Authority.Cert) = Some c → ca.(Authority.Key) = Some k → parse_pem ca.(Authority.CertificatePEM) = Some c →
  ParseCertificate (Raw c) = Some c → SubjectKey c = Public k → Template.IsCA (fields c) = true →
  Z.land (Template.KeyUsage (fields c)) KeyUsageCertSign ≠ 0 →
  MarshalECPrivateKey k = Some der → string_of ca.(Authority.PrivateKeyEnc) = Kms.versioned_text key n der →
  Kms.backed masterKey (kms m) key → len n = NonceSize → bytes_ok n →
  cas m !! ca.(Authority.ID) = None →
  Security.keyed_by CertificateAuthority.ID (cas m') →
  (∃ sca, cas m' !! ca.(Authority.ID) = Some sca ∧ sca.(CertificateAuthority.IsCurrent) = true ∧
     sca.(CertificateAuthority.CertificatePEM) = ca.(Authority.CertificatePEM) ∧
     sca.(CertificateAuthority.PrivateKeyEnc) = ca.(Authority.PrivateKeyEnc)) →
  (∀ id, id ≠ ca.(Authority.ID) → match cas m !! id with
     | Some sca => ∃ sca', cas m' !! id = Some sca' ∧ sca'.(CertificateAuthority.IsCurrent) = false ∧
         sca'.(CertificateAuthority.CertificatePEM) = sca.(CertificateAuthority.CertificatePEM) ∧
         sca'.(CertificateAuthority.PrivateKeyEnc) = sca.(CertificateAuthority.PrivateKeyEnc)
     | None => cas m' !! id = None
     end) →
  wf m' ∧ keeps m m'.
Proof.
  intros Hw Hkms Ecur Epool Hc Hk Hp Hraw Hs Hca Hku Hd Ht Hb Hln Hbn Hnew Hid (sca & Hsca & Hcu & E1 & E2) Hothers.
  assert (Kms.wf masterKey (kms m')) as Hkw.
  { destruct Hkms as [->|(s & -> & Es)]; [by apply wf_kms|]. by apply kms_wf_ext; [apply wf_kms|]. }
  assert (Kms.grows (kms m) (kms m')) as Hg.
  { destruct Hkms as [->|(s & -> & Es)]; [done|by apply kms_grows_ext]. }
  assert (∀ x, x ∈ trustPool m → x ∈ trustPool m') as Hpool by (intros x Hx; rewrite Epool; by apply AddCert_old).
  split; [split|].
  - done.
  - done.
  - intros id x Hx. destruct (decide (id = Authority.ID ca)) as [->|Hne].
    + assert (x = sca) as -> by congruence. exists c, k. split; [by rewrite E1|done|done| |].
      * exists der, key, n. rewrite E2. split_and!; try done. by eapply Kms.backed_grows.
      * rewrite Epool. apply AddCert_new; [done|apply wf_pool, Hw].
    + specialize (Hothers id Hne). destruct (cas m !! id) as [y|] eqn:Ey; [|congruence].
      destruct Hothers as (y' & Hy' & _ & F1 & F2). assert (x = y') as -> by congruence.
      destruct (wf_cas m Hw id y Ey) as (c0 & k0 & Hsd). exists c0, k0. by eapply sound_mono.
  - intros x Hx. rewrite Epool in Hx. apply elem_of_AddCert in Hx as [Hx| ->]; [by apply (wf_pool m)|done].
  - intros ca' E. rewrite Ecur in E. injection E as <-. exists sca. split_and!; try done; [congruence|].
    intros k' c' E3 E4. congruence.
  - intros id x Hx Hxc. exists ca. split; [done|]. destruct (decide (id = Authority.ID ca)) as [->|Hne]; [done|].
    specialize (Hothers id Hne). destruct (cas m !! id) as [y|]; [|congruence].
    destruct Hothers as (y' & Hy' & F & _). congruence.
  - split; [done|]. intros id x Hx. destruct (decide (id = Authority.ID ca)) as [->|Hne]; [congruence|].
    specialize (Hothers id Hne). rewrite Hx in Hothers. destruct Hothers as (y' & Hy' & _ & F). by exists y'.
Qed.

Lemma ca_initialize_wf config now rnd m :
  wf m → new_authority config now rnd m →
  let m' := (Initialize config now rnd m).1 in wf m' ∧ keeps m m'.
Proof using L.
  intros Hw [Hn Hnew]. unfold Initialize. destruct (currentCA m) as [cur|] eqn:Ec; [done|].
  destruct (generateCA config now rnd m) as [ca|?|] eqn:Eg; [|done..]. specialize (Hnew ca eq_refl).
  destruct (generateCA_Ok config now rnd m ca Hw Hn Eg) as
    (c & k & serial & Hc & Hk & Hp & Hraw & Hf & Hs & Hcur & Hst & _ & der & key & n & Hd & Ht & Hb & Hl & Hbn).
  unfold saveCA, trust, on_store, Kms.on_store. cbn. rewrite Hc. cbn.
  eapply (trusted_wf m _ ca c k der key n); try done.
  - right. eexists. split; [reflexivity|done].
  - by rewrite Hf.
  - by rewrite Hf.
  - apply Security.keyed_insert; [by apply wf_ids|done].
  - cbn. eexists. unfold cas, store. cbn. rewrite lookup_insert_eq. by split_and!.
  - intros id Hne. unfold cas, store. cbn. rewrite lookup_insert_ne by done.
    destruct (Security.certificateAuthorities (Kms.store (kms m)) !! id) as [sca|] eqn:Es; [|done].
    exists sca. split_and!; try done. destruct (CertificateAuthority.IsCurrent sca) eqn:E; [|done].
    destruct (wf_one m Hw id sca Es E) as (x & Hx & _). congruence.
Qed.

Lemma ca_rotate_wf config now rnd m :
  wf m → new_authority config now rnd m →
  let m' := (RotateCA config now rnd m).1 in wf m' ∧ keeps m m'.
Proof using L.
  intros Hw [Hn Hnew]. unfold RotateCA.
  destruct (generateCA config now rnd m) as [ca|?|] eqn:Eg; [|done..]. specialize (Hnew ca eq_refl).
  destruct (generateCA_Ok config now rnd m ca Hw Hn Eg) as
    (c & k & serial & Hc & Hk & Hp & Hraw & Hf & Hs & Hcur & Hst & _ & der & key & n & Hd & Ht & Hb & Hl & Hbn).
  set (s1 := st (Security.SaveCA (toStorageCA ca) now (store m))). set (id := Authority.ID ca) in *.
  assert (is_Some (Security.certificateAuthorities s1 !! id)) as Hs1 by (cbn; rewrite lookup_insert_eq; by eexists).
  assert (saveCA now ca m = (with_store s1 m, Ok tt)) as -> by done.
  pose proof (Security.SetCurrentCA_cas id now s1 Hs1) as Ecas. set (s2 := st (Security.SetCurrentCA id now s1)) in *.
  assert (Security.encryptionKeys s2 = Security.encryptionKeys s1) as Ek.
  { unfold s2, Security.SetCurrentCA. by destruct Hs1 as [x ->]. }
  assert (on_store (Security.SetCurrentCA id now) (with_store s1 m) = (with_store s2 (with_store s1 m), Ok tt)) as ->.
  { unfold on_store, Kms.on_store. cbn [with_store kms Kms.store]. fold s2. f_equal.
    unfold Security.SetCurrentCA. by destruct Hs1 as [x ->]. }
  unfold trust. rewrite Hc. cbn [fst].
  eapply (trusted_wf m _ ca c k der key n); try done.
  - right. eexists. split; [reflexivity|]. cbn. by rewrite Ek.
  - by rewrite Hf.
  - by rewrite Hf.
  - unfold cas, store. cbn. rewrite Ecas. apply Security.keyed_alter; [done|]. apply Security.keyed_fmap.
    { intros v. by destruct (Security.other_current id v). }
    apply Security.keyed_insert; [by apply wf_ids|done].
  - unfold cas, store. cbn. rewrite Ecas. fold id. rewrite lookup_alter_eq, lookup_fmap. cbn. rewrite lookup_insert_eq. cbn.
    eexists. split; [done|]. unfold Security.other_current. cbn. fold id. by rewrite bool_decide_true.
  - intros i Hne. fold id in Hne. unfold cas, store. cbn. rewrite Ecas, lookup_alter_ne, lookup_fmap by done. cbn.
    rewrite lookup_insert_ne by done.
    change (store m) with (Kms.store (kms m)). destruct (Security.certificateAuthorities (Kms.store (kms m)) !! i) as [sca|] eqn:Es; [|done]. cbn.
    eexists. split; [done|]. unfold Security.other_current. rewrite (wf_ids m Hw i sca Es), bool_decide_false by done. cbn.
    by destruct (CertificateAuthority.IsCurrent sca) eqn:E.
Qed.

(** ** Another manager *)

Lemma parse_pem_raw pem c : parse_pem pem = Some c → ParseCertificate (Raw c) = Some c.
Proof using L.
  unfold parse_pem. intros (der & _ & Hc)%bind_Some. by rewrite (parse_raw der c Hc).
Qed.

Lemma load_pool l pool :
  (∀ x, x ∈ pool → ParseCertificate (Raw x) = Some x) →
  (∀ x, x ∈ foldl add_pem pool l → ParseCertificate (Raw x) = Some x) ∧
  (∀ x, x ∈ pool → x ∈ foldl add_pem pool l) ∧
  ∀ sca c, sca ∈ l → parse_pem sca.(CertificateAuthority.CertificatePEM) = Some c → c ∈ foldl add_pem pool l.
Proof using L.
  revert pool. induction l as [|y l IH]; intros pool Hp; [split_and!; [done..|by intros ? ? ?%elem_of_nil]|]. cbn [foldl].
  unfold add_pem at 2 4 6. destruct (parse_pem (CertificateAuthority.CertificatePEM y)) as [c|] eqn:Ey.
  - destruct (IH (AddCert c pool)) as (K1 & K2 & K3).
    { intros x [Hx| ->]%elem_of_AddCert; [by apply Hp|by eapply parse_pem_raw]. }
    split_and!; [done|intros x Hx; by apply K2, AddCert_old|].
    intros sca c' [->|Hin]%elem_of_cons E; [|by eapply K3]. assert (c' = c) as -> by congruence.
    apply K2, AddCert_new; [by eapply parse_pem_raw|done].
  - destruct (IH pool Hp) as (K1 & K2 & K3). split_and!; [done..|].
    intros sca c' [->|Hin]%elem_of_cons E; [congruence|by eapply K3].
Qed.

(** A manager that is made over the store of another, in the same process. *)
Lemma new_manager_spec m :
  wf m →
  let '(m', r) := NewCAManager (kms m) (hasKMS m) in
  r = Ok tt ∧ wf m' ∧ keeps m m' ∧ kms m' = kms m ∧ hasKMS m' = hasKMS m ∧
  (∀ ca, currentCA m = Some ca → ∃ ca' sca, currentCA m' = Some ca' ∧ cas m !! ca.(Authority.ID) = Some sca ∧
     ca' = fromStorageCA sca) ∧
  (currentCA m = None → currentCA m' = None) ∧
  (∀ sca c, (∃ id, cas m !! id = Some sca) → parse_pem sca.(CertificateAuthority.CertificatePEM) = Some c → c ∈ trustPool m').
Proof using L.
  intros Hw. unfold NewCAManager, loadTrustPool, store. cbn [kms Security.ListCAs trustPool currentCA hasKMS].
  set (pool := foldl _ [] _). destruct (load_pool (range_values (cas m)) []) as (K1 & _ & K3);
    [by intros x ?%elem_of_nil|].
  change (foldl add_pem [] (range_values (cas m))) with pool in K1, K3.
  assert (∀ sca c, (∃ id, cas m !! id = Some sca) → parse_pem (CertificateAuthority.CertificatePEM sca) = Some c → c ∈ pool) as Hpool.
  { intros sca c [id Hs] Hc. apply (K3 sca); [by apply elem_of_range_values; exists id|done]. }
  assert (∀ cur, (∀ ca, cur = Some ca → ∃ sca, cas m !! ca.(Authority.ID) = Some sca ∧
      sca.(CertificateAuthority.IsCurrent) = true ∧ ca = fromStorageCA sca) →
    (∀ id sca, cas m !! id = Some sca → sca.(CertificateAuthority.IsCurrent) = true →
      ∃ ca, cur = Some ca ∧ ca.(Authority.ID) = id) →
    wf (mkState (kms m) (hasKMS m) cur pool) ∧ keeps m (mkState (kms m) (hasKMS m) cur pool)) as Hgood.
  { intros cur G1 G2. split; [|split; [done|intros id sca Hs; by exists sca]].
    split; cbn; [by apply wf_kms|by apply (wf_ids m)| |done| |done].
    - intros id sca Hs. change (cas m !! id = Some sca) in Hs. destruct (wf_cas m Hw id sca Hs) as (c & k & Hsd).
      exists c, k. destruct Hsd as [Sp Sk Sc St Str]. split; try done. apply (Hpool sca); [by exists id|done].
    - intros ca Hca. destruct (G1 ca Hca) as (sca & Hs & Hcu & ->). exists sca. by split_and!. }
  unfold loadCurrentCA, Security.GetCurrentCA, Security.get_by, store. cbn [kms]. fold (store m). fold (cas m).
  destruct (range_find CertificateAuthority.IsCurrent (cas m)) as [[id sca]|] eqn:Ef.
  - apply range_find_Some in Ef as [Hs Hcu]. destruct (wf_one m Hw id sca Hs Hcu) as (ca & Hca & Hid).
    destruct (Hgood (Some (fromStorageCA sca))) as [Hw' Hk'].
    + intros x [= <-]. exists sca. cbn. by rewrite (wf_ids m Hw id sca Hs).
    + intros i x Hx Hxc. destruct (wf_one m Hw i x Hx Hxc) as (ca' & Hca' & Hid'). eexists. split; [done|].
      cbn. rewrite (wf_ids m Hw id sca Hs). congruence.
    + split_and!; [done|exact Hw'|exact Hk'|done|done| |congruence|exact Hpool].
      intros ca' E. rewrite Hca in E. injection E as <-. eexists _, sca. split_and!; [done| |done]. by rewrite Hid.
  - rewrite range_find_None in Ef.
    destruct (Hgood None) as [Hw' Hk']; [done| |].
    + intros i x Hx Hxc. by rewrite (Ef i x Hx) in Hxc.
    + split_and!; [done|exact Hw'|exact Hk'|done|done| |done|exact Hpool].
      intros ca E. destruct (wf_current m Hw ca E) as (sca & Hs & Hcu & _). by rewrite (Ef _ _ Hs) in Hcu.
Qed.

(** ** Every call *)

Lemma ca_run_wf c m : wf m → allowed c m → wf (run c m) ∧ keeps m (run c m).
Proof using L.
  intros Hw Ha. destruct c; cbn [run].
  - by apply ca_initialize_wf.
  - by apply ca_rotate_wf.
  - by apply issue_wf.
  - by apply renew_wf.
  - apply on_store_frame; [done|by apply revoke_by_serial_frame..].
  - by apply expire_wf.
  - destruct (Kms.kms_run_wf masterKey c (kms m) (wf_kms m Hw) Ha) as [Hk Hg]. apply wf_frame; try done.
    unfold cas, store. cbn. by rewrite (only_keys_run c (kms m)).
Qed.

Lemma ca_later_wf m m' : wf m → later m m' → wf m' ∧ keeps m m'.
Proof using L.
  intros Hw Hl. induction Hl as [m|c m m' Ha _ IH]; [done|].
  destruct (ca_run_wf c m Hw Ha) as [Hw1 Hk1]. destruct (IH Hw1) as [Hw' Hk']. split; [done|]. by transitivity (run c m).
Qed.

(** ** The key of the current authority *)

(** The key the manager gets for its current authority is that of its certificate, unless
    the service's key it was encrypted with is deleted. *)
Lemma decryptCAKey_spec m ca :
  wf m → hasKMS m = true → currentCA m = Some ca →
  ∃ sca c k, cas m !! ca.(Authority.ID) = Some sca ∧ sound m sca c k ∧ ca.(Authority.Cert) = Some c ∧
    ∃ k', Public k' = Public k ∧
      ((decryptCAKey ca m).2 = Ok k' ∨
       ca.(Authority.Key) = None ∧ ∃ id, (decryptCAKey ca m).2 = Err (Errorf ("key " +:+ id +:+ " has been deleted"))).
Proof using L.
  intros Hw Hkms Hca. destruct (wf_current m Hw ca Hca) as (sca & Hs & _ & E1 & E2 & E3 & Hk).
  destruct (wf_cas m Hw _ _ Hs) as (c & k & Hsd). pose proof (sound_pem _ _ _ _ Hsd) as Hp. rewrite E1 in Hp.
  exists sca, c, k. split_and!; [done|done|by rewrite E3|]. unfold decryptCAKey.
  destruct (Authority.Key ca) as [k0|] eqn:Ek.
  - exists k0. split; [|by left]. rewrite <- (Hk k0 c eq_refl) by by rewrite E3.
    by apply (sound_key _ _ _ _ Hsd).
  - exists k. split; [done|]. unfold requireKMS. rewrite Hkms.
    destruct (sound_text _ _ _ _ Hsd) as (der & key & n & Hd & Ht & Hb & Hl & Hbn). rewrite <- E2, Ht.
    destruct (key_bytes k der Hd) as [Hbd Hparse].
    destruct (Kms.decrypt_text masterKey (kms m) key n der (wf_kms m Hw) Hb Hl Hbn Hbd) as (found & _ & Hr).
    destruct (Kms.Decrypt masterKey _ (kms m)) as [k' r]. cbn in Hr |- *. subst r. case_bool_decide.
    + right. split; [done|]. by exists (Key.ID key).
    + left. by rewrite Hparse.
Qed.

(** ** Certificates *)

Lemma make_cert_Ok agentID hostname ca pk now rnd cert :
  make_cert agentID hostname ca pk now rnd = Ok cert →
  ∃ c parent serial, cert.(AgentCert.Cert) = Some c ∧ parse_pem cert.(AgentCert.CertificatePEM) = Some c ∧
    ca.(Authority.Cert) = Some parent ∧ fields c = parsed (agent_template agentID hostname serial now) ∧
    Issuer c = subject (fields parent) ∧ CheckSignature (Public pk) c = true ∧
    cert.(AgentCert.AgentID) = agentID ∧ cert.(AgentCert.Status) = CertStatusActive ∧ cert.(AgentCert.SerialNumber) = hex_of serial.
Proof using L.
  unfold make_cert. destruct (r_key rnd) as [ak|]; [|done]. destruct (r_serial rnd) as [serial|]; [|done].
  destruct (Authority.Cert ca) as [parent|]; [|done]. destruct (CreateCertificate _ _ _ _ _) as [der|] eqn:Ecr; [|done].
  destruct (ParseCertificate der) as [c|] eqn:Hc; [|done].
  destruct (create_parse _ _ _ _ _ _ _ Ecr Hc) as (Hf & _ & Hi & Hsig); [simpl; lia|].
  destruct (MarshalECPrivateKey ak); [|done]. intros [= <-]. exists c, parent, serial. split_and!; try done.
  unfold parse_pem. cbn. by rewrite pem_roundtrip.
Qed.

Lemma issue_Ok agentID hostname now xid rnd m m' cert :
  IssueAgentCertificate agentID hostname now xid rnd m = (m', Ok cert) →
  ∃ ca pk cert0, currentCA m = Some ca ∧ (decryptCAKey ca m).2 = Ok pk ∧
    make_cert agentID hostname ca pk now rnd = Ok cert0 ∧
    m' = (saveAgentCert now xid cert0 (decryptCAKey ca m).1).1 ∧
    cert = {| cert0 with AgentCert.ID := cert.(AgentCert.ID) |}.
Proof.
  unfold IssueAgentCertificate. destruct (currentCA m) as [ca|]; [|done].
  destruct (decryptCAKey ca m) as [m1 [pk|?|]] eqn:Ed; [|done..].
  destruct (make_cert agentID hostname ca pk now rnd) as [cert0|?|] eqn:Em; [|done..].
  intros [= <- <-]. exists ca, pk, cert0. by rewrite Ed.
Qed.

(** C34: Issued certificates are trusted as long as the process runs.  A certificate that is
    issued names the agent as ["agent-"] and its identifier, and whatever is called
    afterwards (rotations of the authority, further certificates and renewals, revocations,
    the expiry run, the calls of the key service), the certificate of the authority that
    signed it is in the trust pool, and a client that presents it is accepted while it and
    the authority's certificate are valid.  A revocation makes no difference, not even that
    of this certificate, since the list of revoked certificates is not consulted.  Nothing
    is said about the time after a restart: no authority is ever written to the database
    ([MemSecurity.Security.security_never_persisted]). *)
Theorem issued_certificates_trusted agentID hostname now xid rnd m m1 cert m' :
  wf m → hasKMS m = true → IssueAgentCertificate agentID hostname now xid rnd m = (m1, Ok cert) → later m1 m' →
  ∃ c root, parse_pem cert.(AgentCert.CertificatePEM) = Some c ∧
    Template.CommonName (fields c) = "agent-" +:+ agentID ∧ root ∈ trustPool m' ∧
    ∀ t, valid_at t root = true → valid_at t c = true → client_verified (trustPool m') t c = true.
Proof using L.
  intros Hw Hkms Hi Hl. pose proof (issue_wf agentID hostname now xid rnd m Hw) as [Hw1 Hk1]. rewrite Hi in Hw1, Hk1.
  destruct (issue_Ok _ _ _ _ _ _ _ _ Hi) as (ca & pk & cert0 & Hca & Hd & Hm & _ & Ecert).
  destruct (decryptCAKey_spec m ca Hw Hkms Hca) as (sca & root & k & Hs & Hsd & Hroot & k' & Hpub & [Hk|(_ & id & He)]); [|congruence].
  assert (pk = k') as -> by congruence.
  destruct (make_cert_Ok _ _ _ _ _ _ _ Hm) as (c & parent & serial & _ & Hpem & Hpar & Hf & Hiss & Hsig & _).
  assert (parent = root) as -> by congruence.
  destruct (ca_later_wf m1 m' Hw1 Hl) as [Hw' Hk'].
  assert (keeps m m') as [_ Hkeep] by by transitivity m1. destruct (Hkeep _ _ Hs) as (sca' & Hs' & E1 & _).
  destruct (wf_cas m' Hw' _ _ Hs') as (root' & kr & Hsd').
  assert (root' = root) as -> by (pose proof (sound_pem _ _ _ _ Hsd'); pose proof (sound_pem _ _ _ _ Hsd); congruence).
  exists c, root. split_and!; [by rewrite Ecert| |by apply (sound_trusted _ _ _ _ Hsd')|].
  { by rewrite Hf. }
  intros t Hr Hc. unfold client_verified. rewrite Hc, andb_true_r, andb_true_iff. split.
  - apply existsb_exists. exists root. split; [apply list_elem_of_In, (sound_trusted _ _ _ _ Hsd')|].
    destruct (sound_ca _ _ _ _ Hsd') as [Hisca Hku]. unfold signed_by. rewrite Hr, Hisca, bool_decide_true by done.
    rewrite (sound_key _ _ _ _ Hsd), <- Hpub, Hsig. apply Z.eqb_neq in Hku. by rewrite Hku.
  - rewrite Hf. by apply bool_decide_eq_true, list_elem_of_here.
Qed.

Lemma start_state k has :
  Security.certificateAuthorities (Kms.store k) = ∅ → NewCAManager k has = (mkState k has None [], Ok tt).
Proof.
  intros Hcas. unfold NewCAManager, loadTrustPool, loadCurrentCA, Security.GetCurrentCA, Security.get_by, store. cbn. rewrite Hcas.
    assert (range_find CertificateAuthority.IsCurrent (∅ : gmap string CertificateAuthority) = None) as ->
      by (apply range_find_None; intros i x; by rewrite lookup_empty).
    assert (range_values (∅ : gmap string CertificateAuthority) = []) as ->; [|done].
    destruct (range_values _) as [|x l] eqn:E; [done|].
    assert (x ∈ range_values (∅ : gmap string CertificateAuthority)) as Hx by (rewrite E; by left).
    apply elem_of_range_values in Hx as [i Hi]. by rewrite lookup_empty in Hi.
Qed.

Lemma start_wf k has :
  Kms.wf masterKey k → Security.certificateAuthorities (Kms.store k) = ∅ → wf (mkState k has None []).
Proof. intros Hk Hcas. split; unfold cas, store; cbn; rewrite ?Hcas; try done; by intros x ?%elem_of_nil. Qed.

(** whatever is called, the store marks at most one authority as current, and it is
    the manager's; every authority ever made stays in the store with its certificate and is
    trusted; a manager that is made over the same store has the same current authority, and
    its key, read back from the key service, is still that of its certificate, unless the
    service's key was deleted. *)
Theorem authorities_invariant k has m :
  Kms.wf masterKey k → Security.certificateAuthorities (Kms.store k) = ∅ →
  later (NewCAManager k has).1 m → hasKMS m = true →
  (∀ id sca, cas m !! id = Some sca →
     (sca.(CertificateAuthority.IsCurrent) = true ↔ ∃ ca, currentCA m = Some ca ∧ ca.(Authority.ID) = id) ∧
     ∃ c, parse_pem sca.(CertificateAuthority.CertificatePEM) = Some c ∧ c ∈ trustPool m) ∧
  let '(m', r) := NewCAManager (kms m) (hasKMS m) in
  r = Ok tt ∧ cas m' = cas m ∧
  match currentCA m, currentCA m' with
  | None, None => True
  | Some ca, Some ca' => ca'.(Authority.ID) = ca.(Authority.ID) ∧ ca'.(Authority.Cert) = ca.(Authority.Cert) ∧
      ∃ c k, ca'.(Authority.Cert) = Some c ∧ SubjectKey c = Public k ∧
        ((decryptCAKey ca' m').2 = Ok k ∨
         ∃ id, (decryptCAKey ca' m').2 = Err (Errorf ("key " +:+ id +:+ " has been deleted")))
  | _, _ => False
  end.
Proof using L.
  intros Hk Hcas Hl Hkms.
  rewrite (start_state k has Hcas) in Hl. cbn [fst] in Hl.
  destruct (ca_later_wf _ m (start_wf k has Hk Hcas) Hl) as [Hw _]. split.
  - intros id sca Hs. split.
    + split; [by apply wf_one|]. intros (ca & Hca & <-). destruct (wf_current m Hw ca Hca) as (x & Hx & Hcu & _). congruence.
    + destruct (wf_cas m Hw id sca Hs) as (c & k0 & Hsd). exists c. split; [apply (sound_pem _ _ _ _ Hsd)|apply (sound_trusted _ _ _ _ Hsd)].
  - pose proof (new_manager_spec m Hw) as Hr. destruct (NewCAManager (kms m) (hasKMS m)) as [m' r].
    destruct Hr as (-> & Hw' & _ & Ekms & Ehas & Hcur & Hnone & _).
    split_and!; [done|unfold cas, store; by rewrite Ekms|].
    destruct (currentCA m) as [ca|] eqn:Ec; [|by rewrite Hnone].
    destruct (Hcur ca eq_refl) as (ca' & sca & Hca' & Hs & ->). rewrite Hca'.
    destruct (wf_current m Hw ca Ec) as (x & Hx & _ & F1 & _ & F3 & _). assert (x = sca) as -> by congruence.
    destruct (decryptCAKey_spec m' (fromStorageCA sca) Hw') as (sca' & c & k0 & _ & Hsd & Hc & k1 & Hpub & Hd); [by rewrite Ehas|done|].
    split_and!; [cbn; by apply (wf_ids m Hw)|cbn; by rewrite F3, F1|].
    exists c, k1. split_and!; [done|rewrite Hpub; apply (sound_key _ _ _ _ Hsd)|]. destruct Hd as [?|[_ ?]]; [by left|by right].
Qed.

(** ** The agents' certificates in the store *)

Definition certs (m : State) : gmap string AgentCertificate := Security.agentCertificates (store m).

Lemma decryptCAKey_store ca m : store (decryptCAKey ca m).1 = store m.
Proof.
  unfold decryptCAKey. destruct (Authority.Key ca); [done|]. destruct (requireKMS m); [done|].
  pose proof (only_keys_decrypt (string_of (Authority.PrivateKeyEnc ca)) (kms m)) as Hs.
  by destruct (Kms.Decrypt masterKey _ (kms m)).
Qed.

(** after a renewal the certificate it returns is the only active one of the agent in
    the store; those of other agents are as before. *)
Theorem renewed_only_active agentID hostname now xids xid rnd m m' cert :
  Security.wf (store m) → RenewAgentCertificate agentID hostname now xids xid rnd m = (m', Ok cert) →
  (∃ c, certs m' !! cert.(AgentCert.SerialNumber) = Some c ∧ Security.active_of agentID c = true ∧
     c.(AgentCertificate.CertificatePEM) = cert.(AgentCert.CertificatePEM)) ∧
  (∀ serial c, certs m' !! serial = Some c → Security.active_of agentID c = true → serial = cert.(AgentCert.SerialNumber)) ∧
  ∀ serial c, certs m !! serial = Some c → c.(AgentCertificate.AgentID) ≠ agentID → serial ≠ cert.(AgentCert.SerialNumber) →
    certs m' !! serial = Some c.
Proof using L.
  intros Hw. unfold RenewAgentCertificate, revokeAgentCertificates, on_store, Kms.on_store. fold (store m).
  destruct (Security.RevokeAgentCert_spec agentID "renewed" "system" now xids (store m) Hw) as (_ & _ & _ & Hrev).
  set (o := Security.RevokeAgentCert agentID "renewed" "system" now xids (store m)) in *.
  set (m1 := with_store (st o) m). intros Hi.
  assert (IssueAgentCertificate agentID hostname now xid rnd m1 = (m', Ok cert)) as Hi1.
  { unfold m1, with_store. by destruct (ret o). }
  destruct (issue_Ok _ _ _ _ _ _ _ _ Hi1) as (ca & pk & cert0 & _ & _ & Hm & -> & Ecert).
  destruct (make_cert_Ok _ _ _ _ _ _ _ Hm) as (c & parent & serial & _ & _ & _ & _ & _ & _ & Ha & Hst & _).
  assert (AgentCert.SerialNumber cert = AgentCert.SerialNumber cert0) as Es by by rewrite Ecert.
  assert (AgentCert.CertificatePEM cert = AgentCert.CertificatePEM cert0) as Ep by by rewrite Ecert.
  assert (certs (saveAgentCert now xid cert0 (decryptCAKey ca m1).1).1 =
    <[AgentCert.SerialNumber cert0 := AgentCertificate.mk (or_string (AgentCert.ID cert0) xid) agentID
       (AgentCert.CAID cert0) (AgentCert.SerialNumber cert0) (AgentCert.CertificatePEM cert0) (AgentCert.NotBefore cert0)
       (AgentCert.NotAfter cert0) CertStatusActive (or_now (AgentCert.IssuedAt cert0) now) (AgentCert.RenewedAt cert0)
       (AgentCert.RevokedAt cert0) (AgentCert.RevocationReason cert0)]> (Security.agentCertificates (st o))) as Ec.
  { unfold certs, saveAgentCert, on_store, Kms.on_store. cbn. fold (store (decryptCAKey ca m1).1).
    rewrite decryptCAKey_store, Ha, Hst. done. }
  rewrite Es, Ep, Ec. split_and!.
  - eexists. split; [by rewrite lookup_insert_eq|]. split; [|done]. unfold Security.active_of. cbn.
    by rewrite !bool_decide_true.
  - intros i x [[<- _]|[_ Hx]]%lookup_insert_Some Hact; [done|]. specialize (Hrev i).
    destruct (Security.agentCertificates (store m) !! i) as [y|].
    + destruct (Security.active_of agentID y) eqn:Ey.
      * destruct Hrev as [Hy _]. assert (x = Security.revoke now "renewed" y) as -> by congruence.
        unfold Security.active_of, Security.revoke in Hact. cbn in Hact. by rewrite andb_false_r in Hact.
      * destruct Hrev as [Hy _]. congruence.
    + destruct Hrev as [Hy _]. congruence.
  - intros i x Hx Hne Hi2. rewrite lookup_insert_ne by done. specialize (Hrev i). unfold certs in Hx. rewrite Hx in Hrev.
    unfold Security.active_of in Hrev. rewrite bool_decide_false in Hrev by done. by destruct Hrev.
Qed.

(** The certificates the loop changes, and what it makes of them. *)
Definition expires (now : time) (c : AgentCertificate) : bool :=
  bool_decide (c.(AgentCertificate.Status) = SecurityModels.CertStatusActive) && Before c.(AgentCertificate.NotAfter) now.

Definition expired (c : AgentCertificate) : AgentCertificate := {| c with AgentCertificate.Status := CertStatusExpired |}.

Lemma expire_turns now l m n :
  NoDup (AgentCertificate.SerialNumber <$> l) →
  (∀ c, c ∈ l → certs m !! c.(AgentCertificate.SerialNumber) = Some c) →
  let '(m', n') := foldl (expire_turn now) (m, n) l in
  n' = n + len (filter (λ c, expires now c = true) l) ∧
  ∀ serial, certs m' !! serial =
    (λ c, if bool_decide (serial ∈ AgentCertificate.SerialNumber <$> l) && expires now c then expired c else c) <$>
      certs m !! serial.
Proof.
  revert m n. induction l as [|c l IH]; intros m n Hnd Hl.
  { cbn. split; [unfold len; simpl; lia|]. intros serial. by destruct (certs m !! serial). }
  rewrite fmap_cons, NoDup_cons in Hnd. destruct Hnd as [Hc Hnd]. cbn [foldl].
  pose proof (Hl c (list_elem_of_here _ _)) as Hcm.
  assert (∀ serial, serial ≠ AgentCertificate.SerialNumber c →
    bool_decide (serial ∈ AgentCertificate.SerialNumber <$> c :: l) =
    bool_decide (serial ∈ AgentCertificate.SerialNumber <$> l)) as Hother.
  { intros serial Hne. apply bool_decide_ext. rewrite fmap_cons, elem_of_cons. naive_solver. }
  assert (bool_decide (AgentCertificate.SerialNumber c ∈ AgentCertificate.SerialNumber <$> c :: l) = true) as Hhere.
  { apply bool_decide_eq_true. rewrite fmap_cons. left. }
  unfold expire_turn at 2. fold (expires now c). destruct (expires now c) eqn:Ee.
  - unfold on_store, Kms.on_store, Security.UpdateAgentCertStatus. fold (store m). unfold certs in Hcm. rewrite Hcm. cbn [ret st].
    set (m1 := {| kms := _; hasKMS := _; currentCA := _; trustPool := _ |}).
    assert (certs m1 = <[AgentCertificate.SerialNumber c := expired c]> (certs m)) as E1 by done.
    specialize (IH m1 (n + 1) Hnd). destruct (foldl (expire_turn now) (m1, n + 1) l) as [m' n'].
    destruct IH as [-> Hm'].
    { intros x Hx. rewrite E1, lookup_insert_ne; [apply Hl; by right|]. intros E. apply Hc. rewrite E.
      apply list_elem_of_fmap. by exists x. }
    split; [rewrite filter_cons_True by done; unfold len; simpl; lia|]. intros serial. rewrite Hm', E1.
    destruct (decide (serial = AgentCertificate.SerialNumber c)) as [->|Hne].
    + rewrite lookup_insert_eq. unfold certs at 1. rewrite Hcm, Hhere. cbn. rewrite Ee.
      assert (expires now (expired c) = false) as -> by done. by rewrite andb_false_r.
    + by rewrite lookup_insert_ne, Hother.
  - specialize (IH m n Hnd). destruct (foldl (expire_turn now) (m, n) l) as [m' n'].
    destruct IH as [-> Hm']; [intros x Hx; apply Hl; by right|].
    split; [by rewrite filter_cons_False by by rewrite Ee|]. intros serial. rewrite Hm'.
    destruct (decide (serial = AgentCertificate.SerialNumber c)) as [->|Hne]; [|by rewrite Hother].
    rewrite Hcm. cbn. by rewrite Ee, !andb_false_r.
Qed.

(** the sweep marks exactly the active certificates whose time has passed as expired,
    changes nothing else, and returns how many these are. *)
Theorem expired_exactly now m :
  Security.wf (store m) →
  let '(m', r) := ProcessExpiredCertificates now m in
  r = Ok (len (filter (λ c, expires now c = true) (range_values (certs m)))) ∧
  certs m' = (λ c, if expires now c then expired c else c) <$> certs m.
Proof.
  intros Hw. unfold ProcessExpiredCertificates. cbn [Security.ListAgentCerts]. fold (certs m).
  assert (∀ c, c ∈ range_values (certs m) → certs m !! c.(AgentCertificate.SerialNumber) = Some c) as Hin.
  { intros c [k Hk]%elem_of_range_values. by rewrite (Security.wf_certs _ Hw k c Hk). }
  pose proof (expire_turns now (range_values (certs m)) m 0) as He.
  destruct (foldl (expire_turn now) (m, 0) (range_values (certs m))) as [m' n']. destruct He as [-> Hm'].
  - unfold range_values. rewrite <- list_fmap_compose.
    assert ((AgentCertificate.SerialNumber ∘ snd) <$> range (certs m) = (range (certs m)).*1) as ->;
      [|apply range_NoDup_keys].
    apply list_fmap_ext. intros i [k c] Hi. cbn. apply list_elem_of_lookup_2, elem_of_range in Hi.
    by apply (Security.wf_certs _ Hw).
  - done.
  - split; [done|]. apply map_eq. intros serial. rewrite Hm', lookup_fmap. destruct (certs m !! serial) as [c|] eqn:Ec; [|done].
    cbn. do 2 f_equal. rewrite bool_decide_true; [done|]. apply list_elem_of_fmap. exists c.
    split; [by rewrite (Security.wf_certs _ Hw serial c Ec)|]. apply elem_of_range_values. by exists serial.
Qed.

(** What a rotation returns: the authority is current, with a version above all others,
    while versions do not wrap. *)
Lemma next_version_max l ca :
  Forall (λ x, x.(CertificateAuthority.Version) < int64_max) l → ca ∈ l → ca.(CertificateAuthority.Version) < next_version l.
Proof.
  unfold next_version. intros Hl Hin.
  assert (∀ l v, Forall (λ x, x.(CertificateAuthority.Version) < int64_max) l → 1 ≤ v →
    let v' := foldl (λ version ca, if version <=? ca.(CertificateAuthority.Version)
      then wrap64 (ca.(CertificateAuthority.Version) + 1) else version) v l in
    v ≤ v' ∧ ∀ x, x ∈ l → x.(CertificateAuthority.Version) < v') as Hf; [|by apply (Hf l 1)].
  clear. induction l as [|y l IH]; intros v Hl Hv; [split; [simpl; lia|by intros x ?%elem_of_nil]|].
  apply Forall_cons in Hl as [Hy Hl]. cbn [foldl].
  set (w := if v <=? CertificateAuthority.Version y then _ else _).
  assert (v ≤ w ∧ CertificateAuthority.Version y < w) as [Hvw Hyw].
  { unfold w. destruct (Z.leb_spec v (CertificateAuthority.Version y)); [|lia].
    rewrite wrap64_id; unfold in_int64, int64_max, int64_min in *; lia. }
  destruct (IH w Hl) as [H3 H4]; [lia|]. cbv zeta in H3, H4. split; [lia|].
  intros x [->|Hx]%elem_of_cons; [lia|by apply H4].
Qed.

(** a rotation that succeeds makes its authority the current one, of the manager and,
    alone, of the store, with a version above every other; what was trusted stays so. *)
Theorem rotated_authority config now rnd m m' ca :
  wf m → new_authority config now rnd m → RotateCA config now rnd m = (m', Ok ca) →
  currentCA m' = Some ca ∧ (∃ c, ca.(Authority.Cert) = Some c ∧ c ∈ trustPool m') ∧
  (∀ id sca, cas m' !! id = Some sca → sca.(CertificateAuthority.IsCurrent) = bool_decide (id = ca.(Authority.ID))) ∧
  ((∀ id sca, cas m !! id = Some sca → sca.(CertificateAuthority.Version) < int64_max) →
     ∀ id sca, cas m !! id = Some sca → sca.(CertificateAuthority.Version) < ca.(Authority.Version)) ∧
  ∀ c, c ∈ trustPool m → c ∈ trustPool m'.
Proof using L.
  intros Hw Hnew Hr. pose proof (ca_rotate_wf config now rnd m Hw Hnew) as [Hw' _]. rewrite Hr in Hw'. cbn [fst] in Hw'.
  destruct Hnew as [Hn _]. unfold RotateCA in Hr.
  destruct (generateCA config now rnd m) as [newCA|?|] eqn:Eg; [|done..].
  destruct (generateCA_Ok config now rnd m newCA Hw Hn Eg) as (c & k & serial & Hc & _ & _ & Hraw & _ & _ & _ & _ & Hver & _).
  destruct (saveCA now newCA m) as [m1 [?|?|]] eqn:E1; [|done..].
  destruct (on_store _ m1) as [m2 [?|?|]] eqn:E2; [|done..].
  unfold trust in Hr. rewrite Hc in Hr. injection Hr as <- <-. cbn in Hw' |- *.
  assert (trustPool m2 = trustPool m) as Ep.
  { unfold saveCA, on_store, Kms.on_store in E1, E2. injection E1 as <-. injection E2 as <- _. done. }
  split_and!; [done| | | |].
  - exists c. split; [done|]. rewrite Ep. apply AddCert_new; [done|by apply wf_pool].
  - intros id sca Hs. apply eq_true_iff_eq. rewrite bool_decide_eq_true. split.
    + intros Hcu. destruct (wf_one _ Hw' id sca Hs Hcu) as (x & [= <-] & <-). done.
    + intros ->. destruct (wf_current _ Hw' newCA eq_refl) as (x & Hx & Hxc & _). congruence.
  - intros Hlt id sca Hs. rewrite Hver. apply next_version_max; [|apply elem_of_range_values; by exists id].
    apply Forall_forall. intros x [i Hi]%elem_of_range_values. by eapply Hlt.
  - intros x Hx. rewrite Ep. by apply AddCert_old.
Qed.

End ca.

(** * Witnesses *)

(** A certificate that is its fields, to run the definitions with: a key is a bit, a
    signature names the key, and the encodings are those of a countable type. *)
Section demo.
#[local] Existing Instance Kms.checksum_aead.
#[local] Existing Instance range_in_key_order.

#[local] Instance template_eq_dec : EqDecision Template.
Proof. solve_decision. Defined.

(** Fields, issuer, key and signer. *)
Definition toy_cert : Type := Template * (string * list string) * bool * bool.

Definition pos_z {A} `{Countable A} (x : A) : Z := Zpos (encode x).
Definition z_pos {A} `{Countable A} (z : Z) : option A := match z with Zpos p => decode p | _ => None end.

Lemma z_pos_z {A} `{Countable A} (x : A) : z_pos (pos_z x) = Some x.
Proof. apply decode_encode. Qed.

Definition toy_raw (c : toy_cert) : list Z :=
  let '(t, (issuer, organization), key, signer) := c in
  [pos_z (Template.SerialNumber t); pos_z (Template.CommonName t); pos_z (Template.Organization t);
   pos_z (Template.DNSNames t); pos_z (Template.NotBefore t); pos_z (Template.NotAfter t); pos_z (Template.KeyUsage t);
   pos_z (Template.ExtKeyUsage t); pos_z (Template.IsCA t); pos_z (Template.MaxPathLen t);
   pos_z issuer; pos_z organization; pos_z key; pos_z signer].

Definition toy_fields (der : list Z) : option toy_cert :=
  match der with
  | [a; b; c; d; e; f; g; h; i; j; k; l; m; n] =>
      a ← z_pos a; b ← z_pos b; c ← z_pos c; d ← z_pos d; e ← z_pos e; f ← z_pos f; g ← z_pos g; h ← z_pos h;
      i ← z_pos i; j ← z_pos j; k ← z_pos k; l ← z_pos l; m ← z_pos m; n ← z_pos n;
      Some (Template.mk a b c d e f g h i j, (k, l), m, n)
  | _ => None
  end.

Definition toy_parse (der : list Z) : option toy_cert :=
  match toy_fields der with
  | Some c => if bool_decide (toy_raw c = der) then Some c else None
  | None => None
  end.

(** A list of positive numbers as text: their bits, each number with a comma. *)
Fixpoint put_bits (p : positive) (rest : string) : string :=
  match p with
  | xH => String (Ascii.ascii_of_nat 44) rest
  | xO p => String (Ascii.ascii_of_nat 48) (put_bits p rest)
  | xI p => String (Ascii.ascii_of_nat 49) (put_bits p rest)
  end.

Fixpoint get_bits (s : string) : list positive :=
  match s with
  | EmptyString => []
  | String c s =>
      if Ascii.eqb c (Ascii.ascii_of_nat 44) then xH :: get_bits s
      else match get_bits s with
           | p :: r => (if Ascii.eqb c (Ascii.ascii_of_nat 48) then xO p else xI p) :: r
           | [] => []
           end
  end.

Lemma get_put_bits p rest : get_bits (put_bits p rest) = p :: get_bits rest.
Proof. induction p as [p IH|p IH|]; [..|done]; cbn [put_bits get_bits]; by rewrite IH. Qed.

Definition toy_pem (der : list Z) : string := foldr (λ z, put_bits (encode z)) "" der.
Definition toy_unpem (s : string) : option (list Z) := mapM decode (get_bits s).

Lemma toy_pem_roundtrip der : toy_unpem (toy_pem der) = Some der.
Proof.
  unfold toy_unpem. induction der as [|z der IH]; [done|].
  change (toy_pem (z :: der)) with (put_bits (encode z) (toy_pem der)). rewrite get_put_bits. cbn [mapM].
  by rewrite decode_encode, IH.
Qed.

Lemma toy_parse_raw c : toy_parse (toy_raw c) = Some c.
Proof.
  unfold toy_parse. assert (toy_fields (toy_raw c) = Some c) as ->; [|by rewrite bool_decide_true].
  destruct c as [[[[a b c d e f g h i j] [k l]] m] n]. unfold toy_raw, toy_fields. cbv beta iota.
  by do 14 (rewrite z_pos_z; cbn [mbind option_bind]).
Qed.

Definition toy_made (t : Template) (parent : option toy_cert) (pub signer : bool) : toy_cert :=
  (parsed t, match parent with None => subject t | Some p => subject p.1.1.1 end, pub, signer).

Definition toy : X509 := {|
  PrivateKey := bool;
  PublicKey := bool;
  Certificate := toy_cert;
  Public := λ k, k;
  CreateCertificate := λ t parent pub signer _,
    Some (toy_raw (toy_made t parent pub signer));
  ParseCertificate := toy_parse;
  Raw := toy_raw;
  fields := λ c, c.1.1.1;
  Issuer := λ c, c.1.1.2;
  SubjectKey := λ c, c.1.2;
  CheckSignature := λ p c, eqb p c.2;
  MarshalECPrivateKey := λ k, Some [if k then 1 else 0];
  ParseECPrivateKey := λ der, Some (bool_decide (der = [1]));
  pem_encode := λ _, toy_pem;
  pem_decode := toy_unpem;
  Sum256 := λ b, [foldr Z.add 0 b mod 256]
|}.
#[local] Existing Instance toy.

#[local] Instance toy_laws : X509Laws.
Proof.
  split.
  - intros t parent pub signer random der c E Ec _. change (Some (toy_raw (toy_made t parent pub signer)) = Some der) in E.
    assert (der = toy_raw (toy_made t parent pub signer)) as -> by congruence.
    assert (c = toy_made t parent pub signer) as ->.
    { pose proof (toy_parse_raw (toy_made t parent pub signer)) as Et. change (ParseCertificate (toy_raw (toy_made t parent pub signer))
        = Some (toy_made t parent pub signer)) in Et. congruence. }
    split_and!; try done. by destruct signer.
  - intros der c. cbn. unfold toy_parse. destruct (toy_fields der) as [x|]; [|done].
    by case_bool_decide; [intros [= <-]|].
  - intros [] der [= <-]; (split; [repeat constructor; by unfold is_byte|done]).
  - intros typ der. apply toy_pem_roundtrip.
Qed.

Definition demo_rnd (k : bool) (serial n : Z) : random := mkRandom (Some k) (Some serial) [] (Some (Kms.demo_nonce n)).
Definition demo_start : State := (NewCAManager Kms.demo true).1.
Definition demo_init : call := CInitialize DefaultCAConfig (20 * Second) (demo_rnd true 7 3).
Definition demo : State := run Kms.demo_master demo_init demo_start.
Definition demo_issue : State * result AgentCert :=
  IssueAgentCertificate Kms.demo_master "web-1" "host" (30 * Second) "x1" (demo_rnd false 255 4) demo.
Definition demo_rotation : call := CRotateCA DefaultCAConfig (40 * Second) (demo_rnd false 9 5).

Lemma demo_start_wf : wf Kms.demo_master demo_start.
Proof.
  destruct Kms.demo_wf as [Hw _]. unfold demo_start. rewrite start_state by by vm_compute.
  by apply start_wf; [|vm_compute].
Qed.

Lemma demo_new config now k serial n m :
  is_byte n → (∀ ca, generateCA config now (demo_rnd k serial n) m = Ok ca → cas m !! ca.(Authority.ID) = None) →
  new_authority config now (demo_rnd k serial n) m.
Proof. intros Hn Hg. split; [by apply Kms.fresh_demo_nonce|exact Hg]. Qed.

Lemma demo_init_allowed : allowed demo_init demo_start.
Proof.
  apply demo_new; [by unfold is_byte|]. intros ca _. assert (cas demo_start = ∅) as -> by by vm_compute.
  apply lookup_empty.
Qed.

Lemma ca_demo_wf : wf Kms.demo_master demo.
Proof. exact (proj1 (ca_run_wf Kms.demo_master demo_init demo_start demo_start_wf demo_init_allowed)). Qed.

Definition demo_id : string :=
  match generateCA DefaultCAConfig (40 * Second) (demo_rnd false 9 5) demo_issue.1 with Ok ca => ca.(Authority.ID) | _ => "" end.

Lemma demo_rotation_allowed : allowed demo_rotation demo_issue.1.
Proof.
  refine (demo_new DefaultCAConfig (40 * Second) false 9 5 demo_issue.1 _ _); [by unfold is_byte|]. intros ca E.
  assert (ca.(Authority.ID) = demo_id) as -> by (unfold demo_id; by rewrite E). by vm_compute.
Qed.

Definition demo_cert : AgentCert :=
  match demo_issue.2 with Ok c => c | _ => AgentCert.mk _ "" "" "" "" None "" "" 0 0 "" 0 None None "" end.

Definition succeeds {A} (r : result A) : bool := match r with Ok _ => true | _ => false end.

Lemma succeeds_Ok {A} (r : result A) : succeeds r = true → ∃ a, r = Ok a.
Proof. destruct r as [a|e|]; [by exists a|done..]. Qed.

Lemma demo_issued : demo_issue = (demo_issue.1, Ok demo_cert).
Proof.
  assert (succeeds demo_issue.2 = true) as Hs by by vm_compute. unfold demo_cert.
  destruct demo_issue as [m r]. cbn in Hs |- *. by destruct r.
Qed.

Lemma issued_certificates_trusted_witness :
  ∃ c root, parse_pem demo_cert.(AgentCert.CertificatePEM) = Some c ∧
    Template.CommonName (fields c) = "agent-web-1" ∧ root ∈ trustPool (run Kms.demo_master demo_rotation demo_issue.1).
Proof.
  destruct (issued_certificates_trusted Kms.demo_master "web-1" "host" (30 * Second) "x1" (demo_rnd false 255 4) demo
    demo_issue.1 demo_cert (run Kms.demo_master demo_rotation demo_issue.1) ca_demo_wf) as (c & root & H1 & H2 & H3 & _);
    [by vm_compute|exact demo_issued|eapply later_call; [exact demo_rotation_allowed|apply later_refl]|].
  exists c, root. by split_and!.
Defined.

Lemma authorities_invariant_witness :
  let '(m', r) := NewCAManager (kms demo) (hasKMS demo) in r = Ok tt ∧ cas m' = cas demo.
Proof.
  destruct (authorities_invariant Kms.demo_master Kms.demo true demo (proj1 Kms.demo_wf)) as [_ Hr];
    [by vm_compute|eapply later_call; [exact demo_init_allowed|apply later_refl]|by vm_compute|].
  destruct (NewCAManager (kms demo) (hasKMS demo)) as [m' r].
  exact (conj (proj1 Hr) (proj1 (proj2 Hr))).
Defined.

(** A store with an active certificate of an agent. *)
Definition demo_agents : State := with_store Security.demo demo.

Lemma demo_agents_wf : Security.wf (store demo_agents).
Proof. apply Security.security_reachable_wf, Security.security_demo_reachable. Qed.

Definition demo_renewal : State * result AgentCert :=
  RenewAgentCertificate Kms.demo_master "a1" "host" (50 * Second) (λ _, "x2") "x3" (demo_rnd true 254 6) demo_agents.

Lemma renewed_only_active_witness :
  match demo_renewal with
  | (m', Ok cert) => ∀ serial c, certs m' !! serial = Some c → Security.active_of "a1" c = true →
      serial = cert.(AgentCert.SerialNumber)
  | _ => False
  end.
Proof.
  destruct demo_renewal as [m' r] eqn:E. assert (∃ cert, r = Ok cert) as [cert ->].
  { apply succeeds_Ok. change r with (m', r).2. rewrite <- E. by vm_compute. }
  by destruct (renewed_only_active Kms.demo_master "a1" "host" (50 * Second) (λ _, "x2") "x3" (demo_rnd true 254 6)
    demo_agents m' cert demo_agents_wf E) as (_ & Hc & _).
Defined.

Lemma expired_exactly_witness :
  (ProcessExpiredCertificates (1000 * Second) demo_agents).2 =
  Ok (len (filter (λ c, expires (1000 * Second) c = true) (range_values (certs demo_agents)))).
Proof.
  pose proof (expired_exactly (1000 * Second) demo_agents demo_agents_wf) as He.
  destruct (ProcessExpiredCertificates _ demo_agents) as [m' r]. exact (proj1 He).
Defined.

Lemma rotated_authority_witness :
  match RotateCA DefaultCAConfig (40 * Second) (demo_rnd false 9 5) demo with
  | (m', Ok ca) => currentCA m' = Some ca ∧
      ∀ id sca, cas m' !! id = Some sca → sca.(CertificateAuthority.IsCurrent) = bool_decide (id = ca.(Authority.ID))
  | _ => False
  end.
Proof.
  assert (new_authority DefaultCAConfig (40 * Second) (demo_rnd false 9 5) demo) as Hn.
  { refine (demo_new DefaultCAConfig (40 * Second) false 9 5 demo _ _); [by unfold is_byte|]. intros x Ex.
    assert (x.(Authority.ID) = match generateCA DefaultCAConfig (40 * Second) (demo_rnd false 9 5) demo with
      Ok y => y.(Authority.ID) | _ => "" end) as -> by by rewrite Ex. by vm_compute. }
  destruct (RotateCA DefaultCAConfig (40 * Second) (demo_rnd false 9 5) demo) as [m' r] eqn:E.
  assert (∃ ca, r = Ok ca) as [ca ->].
  { apply succeeds_Ok. change r with (m', r).2. rewrite <- E. by vm_compute. }
  destruct (rotated_authority Kms.demo_master DefaultCAConfig (40 * Second) (demo_rnd false 9 5) demo m' ca ca_demo_wf Hn E)
    as (H1 & _ & H2 & _). by split.
Defined.

End demo.

End CA.
