(* ===== verification/ServiceErrors.v ===== *)
(** Errors of the service layer ([src/internal/services/errors.go]).

    An error value is a tree: sentinels at the leaves, wrapping above them.  [errors.Is]
    walks the tree; the text is what [Error()] returns.  [eff] is the monad of service
    methods that return such errors: the result of a method of the store with [inl] for a
    value and [inr] for an error. *)

From S2P Require Import GoStrings StoreBase ServiceBase.

#[local] Open Scope string_scope.
#[local] Open Scope list_scope.

(** The sentinels of the package. *)
Inductive sentinel :=
| ErrNotFound | ErrDuplicate | ErrInvalidInput | ErrUnauthorized | ErrForbidden | ErrConflict | ErrInternal
| ErrOperationFailed | ErrContextCancelled | ErrTimeout.

#[global] Instance sentinel_eq_dec : EqDecision sentinel.
Proof. solve_decision. Defined.

Definition sentinel_text (s : sentinel) : string :=
  match s with
  | ErrNotFound => "resource not found"
  | ErrDuplicate => "resource already exists"
  | ErrInvalidInput => "invalid input"
  | ErrUnauthorized => "unauthorized"
  | ErrForbidden => "forbidden"
  | ErrConflict => "conflict with current state"
  | ErrInternal => "internal error"
  | ErrOperationFailed => "operation failed"
  | ErrContextCancelled => "context cancelled"
  | ErrTimeout => "operation timed out"
  end.

Definition ErrAlreadyExists : sentinel := ErrDuplicate.

(** [Wrapf p e] is [fmt.Errorf(p + ": %w", e)]; [Both] wraps two errors at once; [Text] is an error
    that wraps nothing. *)
Inductive goerr :=
| Store (e : gerror)
| Sentinel (s : sentinel)
| Text (message : string)
| Wrapf (prefix : string) (e : goerr)
| Both (e1 e2 : goerr)
| ServiceError (op : string) (e : goerr) (resource id : string)
| InputError (message field : string).

(** [Error()] *)
Fixpoint Error (e : goerr) : string :=
  match e with
  | Store e => error_text e
  | Sentinel s => sentinel_text s
  | Text m => m
  | Wrapf prefix e => prefix +:+ ": " +:+ Error e
  | Both e1 e2 => Error e1 +:+ ": " +:+ Error e2
  | ServiceError op e resource id =>
      if negb (bool_decide (id = "")) then op +:+ ": " +:+ resource +:+ " " +:+ id +:+ ": " +:+ Error e
      else if negb (bool_decide (resource = "")) then op +:+ ": " +:+ resource +:+ ": " +:+ Error e
      else op +:+ ": " +:+ Error e
  | InputError message field =>
      if negb (bool_decide (field = "")) then message +:+ " (field: " +:+ field +:+ ")" else message
  end.

(** [errors.Is(e, target)] for a sentinel of this package and of the store; an error of the
    store with a text of its own is never equal to another. *)
Fixpoint Is (target : sentinel) (e : goerr) : bool :=
  match e with
  | Store _ | Text _ => false
  | Sentinel s => bool_decide (s = target)
  | Wrapf _ e | ServiceError _ e _ _ => Is target e
  | Both e1 e2 => Is target e1 || Is target e2
  | InputError _ _ => bool_decide (ErrInvalidInput = target)
  end.

Fixpoint IsStore (target : gerror) (e : goerr) : bool :=
  match e with
  | Store e => bool_decide (e = target)
  | Sentinel _ | Text _ | InputError _ _ => false
  | Wrapf _ e | ServiceError _ e _ _ => IsStore target e
  | Both e1 e2 => IsStore target e1 || IsStore target e2
  end.

Definition NotFound (op resource id : string) : goerr := ServiceError op (Sentinel ErrNotFound) resource id.
Definition Duplicate (op resource id : string) : goerr := ServiceError op (Sentinel ErrDuplicate) resource id.
Definition InvalidInput (op message : string) : goerr := ServiceError op (Wrapf message (Sentinel ErrInvalidInput)) "" "".
Definition Internal (op : string) (e : goerr) : goerr := ServiceError op (Both e (Sentinel ErrInternal)) "" "".
Definition Unauthorized (op message : string) : goerr := ServiceError op (Wrapf message (Sentinel ErrUnauthorized)) "" "".
Definition Forbidden (op message : string) : goerr := ServiceError op (Wrapf message (Sentinel ErrForbidden)) "" "".
Definition Conflict (op resource id : string) : goerr := ServiceError op (Sentinel ErrConflict) resource id.
Definition NewInputError (message field : string) : goerr := InputError message field.

Definition IsNotFound (e : goerr) : bool := Is ErrNotFound e || IsStore Prelude.ErrNotFound e.
Definition IsDuplicate (e : goerr) : bool := Is ErrDuplicate e.
Definition IsInvalidInput (e : goerr) : bool := Is ErrInvalidInput e.
Definition IsUnauthorized (e : goerr) : bool := Is ErrUnauthorized e.
Definition IsForbidden (e : goerr) : bool := Is ErrForbidden e.
Definition IsConflict (e : goerr) : bool := Is ErrConflict e.
Definition IsInternal (e : goerr) : bool := Is ErrInternal e.

(** * Methods that return such errors *)

Definition eff (S A : Type) : Type := svc S (A + goerr).

Section eff.
Context {S : Type}.

Definition ok {A} (a : A) : eff S A := sret (inl a).
Definition error {A} (e : goerr) : eff S A := sret (inr e).

(** A method of the store; its error goes through [f]. *)
Definition call {A} (f : goerr → goerr) (m : svc S A) : eff S A := λ s,
  let o := m s in
  mkOut (st o) (queued o) (match ret o with Ok a => Ok (inl a) | Err e => Ok (inr (f (Store e))) | Panic => Panic end).

Definition ebind {A B} (m : eff S A) (k : A → eff S B) : eff S B :=
  sbind m (λ r, match r with inl a => k a | inr e => sret (inr e) end).

(** A pure function that may fail. *)
Definition check {A} (f : goerr → goerr) (r : result A) : eff S A := λ s,
  mkOut s [] (match r with Ok a => Ok (inl a) | Err e => Ok (inr (f (Store e))) | Panic => Panic end).

(** [if b { return err }] *)
Definition unless (b : bool) (e : goerr) : eff S unit := if b then error e else ok tt.

(** [if err != nil { return f(err) }] *)
Definition rewrap {A} (f : goerr → goerr) (m : eff S A) : eff S A :=
  sbind m (λ r, match r with inl a => sret (inl a) | inr e => sret (inr (f e)) end).

End eff.

(** An error passed on as it is. *)
Definition as_is : goerr → goerr := id.

Declare Scope eff_scope.
Delimit Scope eff_scope with eff.
Notation "x <- m ;; k" := (ebind m (fun x => k)) (at level 60, m at next level, right associativity) : eff_scope.
Notation "m ;;; k" := (ebind m (fun _ => k)) (at level 60, right associativity) : eff_scope.

(** * Lemmas *)

Lemma call_Ok {S A} (f : goerr → goerr) (m : svc S A) s a :
  ret (call f m s) = Ok (inl a) ↔ ret (m s) = Ok a.
Proof. unfold call. cbn. destruct (ret (m s)); naive_solver. Qed.

Lemma st_call {S A} (f : goerr → goerr) (m : svc S A) s : st (call f m s) = st (m s).
Proof. done. Qed.

Lemma ebind_Ok {S A B} (m : eff S A) (k : A → eff S B) s b :
  ret (ebind m k s) = Ok (inl b) ↔ ∃ a, ret (m s) = Ok (inl a) ∧ ret (k a (st (m s))) = Ok (inl b).
Proof.
  unfold ebind, sbind. destruct (ret (m s)) as [[a|e]|e|] eqn:E; cbn; rewrite ?E; cbn; naive_solver.
Qed.

Lemma st_ebind_inl {S A B} (m : eff S A) (k : A → eff S B) s a :
  ret (m s) = Ok (inl a) → st (ebind m k s) = st (k a (st (m s))).
Proof. intros E. unfold ebind, sbind. by rewrite E. Qed.

Lemma st_ebind_inr {S A B} (m : eff S A) (k : A → eff S B) s e :
  ret (m s) = Ok (inr e) → st (ebind m k s) = st (m s).
Proof. intros E. unfold ebind, sbind. by rewrite E. Qed.

Lemma check_Ok {S A} f (r : result A) (s : S) a : ret (check f r s) = Ok (inl a) ↔ r = Ok a.
Proof. unfold check. destruct r; cbn; naive_solver. Qed.

Lemma ret_ebind_inl {S A B} (m : eff S A) (k : A → eff S B) s a :
  ret (m s) = Ok (inl a) → ret (ebind m k s) = ret (k a (st (m s))).
Proof. intros E. unfold ebind, sbind. by rewrite E. Qed.

Lemma ret_ebind_inr {S A B} (m : eff S A) (k : A → eff S B) s e :
  ret (m s) = Ok (inr e) → ret (ebind m k s) = Ok (inr e).
Proof. intros E. unfold ebind, sbind. by rewrite E. Qed.

Lemma ret_call {S A} (f : goerr → goerr) (m : svc S A) s :
  ret (call f m s) = match ret (m s) with Ok a => Ok (inl a) | Err e => Ok (inr (f (Store e))) | Panic => Panic end.
Proof. done. Qed.

Lemma Is_wrap target prefix e : Is target (Wrapf prefix e) = Is target e.
Proof. done. Qed.

(** Each constructor of the package is recognised by its own predicate, through any number
    of wrappings, and by no other. *)
Fixpoint wrapped (prefixes : list string) (e : goerr) : goerr :=
  match prefixes with [] => e | p :: ps => Wrapf p (wrapped ps e) end.

Lemma Is_wrapped target ps e : Is target (wrapped ps e) = Is target e.
Proof. by induction ps. Qed.

Lemma IsStore_wrapped target ps e : IsStore target (wrapped ps e) = IsStore target e.
Proof. by induction ps. Qed.

(** an error made by a constructor of the package is recognised by the predicate of its
    kind however often it is wrapped, and by no other; an error of the store is recognised
    by [IsNotFound] alone, so a duplicate reported by the store is not a duplicate to the
    services. *)
Theorem error_kinds ps op message resource id field :
  let kinds e := (IsNotFound e, IsDuplicate e, IsInvalidInput e, IsUnauthorized e, IsForbidden e, IsConflict e) in
  kinds (wrapped ps (NotFound op resource id)) = (true, false, false, false, false, false) ∧
  kinds (wrapped ps (Duplicate op resource id)) = (false, true, false, false, false, false) ∧
  kinds (wrapped ps (InvalidInput op message)) = (false, false, true, false, false, false) ∧
  kinds (wrapped ps (NewInputError message field)) = (false, false, true, false, false, false) ∧
  kinds (wrapped ps (Unauthorized op message)) = (false, false, false, true, false, false) ∧
  kinds (wrapped ps (Forbidden op message)) = (false, false, false, false, true, false) ∧
  kinds (wrapped ps (Conflict op resource id)) = (false, false, false, false, false, true) ∧
  kinds (wrapped ps (Store Prelude.ErrNotFound)) = (true, false, false, false, false, false) ∧
  kinds (wrapped ps (Store Prelude.ErrDuplicate)) = (false, false, false, false, false, false).
Proof.
  unfold IsNotFound, IsDuplicate, IsInvalidInput, IsUnauthorized, IsForbidden, IsConflict.
  cbv zeta beta. rewrite !Is_wrapped, !IsStore_wrapped. by split_and!.
Qed.
