(* ===== verification/Services.v ===== *)
(** The domain services over the store ([src/internal/services/], one package per kind of
    record): [users], [sessions], [apikeys], [projects], [projecttypes], [agents],
    [deployments], [audit], [ratelimit], [hostkeys] and [provision].

    A method is a function from the state of the part of the store it uses to an outcome,
    in the monad [eff]; the clock and generated values are arguments.  Where a method of
    the store sets fields of its argument, the method here returns the record as the caller
    sees it afterwards.  Methods that ask the store for a SQL transaction get the error the
    in-memory store always returns for it.  [bcrypt] and [encoding/json] are parameters. *)

From stdpp Require Import pretty.
From S2P Require Import GoStrings GoTime StoreBase ServiceBase ServiceErrors Models MemUsers MemProjects MemAgents.
From S2P Require Import MemDeployments MemOps MemMisc MemCleanup Pagination Formats.

#[local] Open Scope string_scope.
#[local] Open Scope list_scope.
#[local] Open Scope Z_scope.
#[local] Open Scope eff_scope.

(** [return nil, fmt.Errorf(p + ": %w", err)] *)
Abbreviation in_ p := (Wrapf p).

(** [MemoryStore.RunInTransaction] *)
Definition RunInTransaction {S A} : eff S A :=
  error (Text "RunInTransaction not supported on MemoryStore; use methods directly").

(** A page and the count of all, as every [ListPaginated] returns them. *)
Definition page {S A} (prefix_list prefix_count : string) (items : S → result (list A)) (count : S → result Z) (p : Pagination)
    : eff S (ListResult A) :=
  l <- call (in_ prefix_list) (ask items) ;;
  n <- call (in_ prefix_count) (ask count) ;;
  ok (mkListResult l n p).

(** * Users *)

(** [security.HashPassword] and [security.VerifyPassword], over bcrypt. *)
Class Bcrypt := {
  HashPassword : string → option string;
  VerifyPassword : string → string → bool;
  verify_hashed : ∀ p h, HashPassword p = Some h → VerifyPassword p h = true
}.

Module UserService.

Record options := mkOptions { TOTPEnabled : bool; TOTPSecret : string }.

Definition ErrInvalidPassword : goerr := Text "invalid password".
Definition ErrUserNotFound : goerr := Text "user not found".

Section users.
Context `{Bcrypt, MapRange}.
Abbreviation prog := (eff Users.State).

Definition hash (password : string) : prog string :=
  match HashPassword password with
  | Some h => ok h
  | None => error (Wrapf "hashing password" (Text "hashing password"))
  end.

Definition Create (username password email role : string) (opts : list (options → options)) (now : time) (xid : string)
    : prog User :=
  let o := foldl (λ o f, f o) (mkOptions false "") opts in
  check (in_ "password validation failed") (Password.ValidatePassword password) ;;;
  h <- hash password ;;
  let role := if bool_decide (role = "") then "user" else role in
  call (in_ "creating user")
    (Users.CreateUser (User.mk "" username h email role (TOTPSecret o) (TOTPEnabled o) false now now) now xid).

(** [if services.IsNotFound(err) { return services.NotFound(op, "user", id) }] *)
Definition not_found (op id : string) (e : goerr) : goerr :=
  if IsNotFound e then NotFound op "user" id else Wrapf "getting user" e.

Definition GetByID (id : string) : prog User := call (not_found "users.GetByID" id) (ask (Users.GetUserByID id)).

Definition GetByUsername (username : string) : prog User :=
  call (not_found "users.GetByUsername" username) (ask (Users.GetUserByUsername username)).

Definition List_ : prog (list User) := call (in_ "listing users") (ask Users.ListUsers).

Definition ListPaginated (p : Pagination) : prog (ListResult User) :=
  page "listing users" "counting users" (Users.ListUsersPaginated (Limit p) (Offset p)) Users.CountUsers p.

Definition Update (user : User) (now : time) : prog User := call (in_ "updating user") (Users.UpdateUserByID user now).

Definition Delete (id : string) (now : time) : prog unit := call (in_ "deleting user") (Users.DeleteUser id now).

Definition Verify_ (username password : string) : prog User :=
  user <- call (not_found "users.VerifyPassword" username) (ask (Users.GetUserByUsername username)) ;;
  if VerifyPassword password user.(User.PasswordHash) then ok user else error ErrInvalidPassword.

Definition UpdatePassword (userID newPassword : string) (now : time) : prog User :=
  check (in_ "password validation failed") (Password.ValidatePassword newPassword) ;;;
  user <- call (in_ "getting user") (ask (Users.GetUserByID userID)) ;;
  h <- hash newPassword ;;
  call (in_ "updating user")
    (Users.UpdateUserByID {| user with User.PasswordHash := h; User.MustChangePassword := false |} now).

Definition SetTOTP (userID secret : string) (enabled : bool) (now : time) : prog User :=
  user <- call (in_ "getting user") (ask (Users.GetUserByID userID)) ;;
  call (in_ "updating user TOTP")
    (Users.UpdateUserByID {| user with User.TOTPSecret := secret; User.TOTPEnabled := enabled |} now).

Definition Count : prog Z := call (in_ "counting users") (ask Users.CountUsers).

Definition DeleteWithCleanup (userID : string) : prog unit := RunInTransaction.

End users.
End UserService.

(** * Sessions *)

Module SessionService.
Section sessions.
Context `{MapRange}.
Abbreviation prog := (eff Users.State).

(** 32 random bytes as hexadecimal digits. *)
Definition generateToken (random : option (list Z)) : prog string :=
  match random with
  | None => error (Wrapf "generating token" (Text "read random"))
  | Some b => ok (hex_encode b)
  end.

(** The clock is read twice, and once more by the store. *)
Definition Create (userID ipAddress userAgent : string) (duration : Z) (random : option (list Z)) (now now' now'' : time)
    : prog Session :=
  token <- generateToken random ;;
  call (in_ "creating session")
    (Users.CreateSession (Session.mk token userID token ipAddress userAgent now (now' + duration) 0) now'').

Definition GetByToken (token : string) (now : time) : prog Session := call as_is (ask (Users.GetSessionByToken token now)).
Definition Delete (token : string) (now : time) : prog unit := call as_is (Users.DeleteSession token now).
Definition DeleteAllForUser (userID : string) (now : time) : prog unit := call as_is (Users.DeleteUserSessions userID now).
Definition DeleteExpired (now : time) : prog Z := call as_is (Users.DeleteExpiredSessions now).
Definition ListForUser (userID : string) : prog (list Session) := call as_is (ask (Users.ListUserSessions userID)).

End sessions.
End SessionService.

(** * API keys *)

(** [json.Marshal] and [json.Unmarshal] of a list of strings; [Sum256] is SHA-256. *)
Class KeyCodec := {
  marshal_strings : list string → string;
  unmarshal_strings : string → option (list string);
  sha256_hex : string → string;
  unmarshal_marshal : ∀ l, unmarshal_strings (marshal_strings l) = Some l;
  marshal_nonempty : ∀ l, marshal_strings l ≠ ""
}.

Module APIKeyService.
Section apikeys.
Context `{KeyCodec, MapRange}.
Abbreviation prog := (eff Users.State).

Definition generateAPIKey (random : option (list Z)) : prog string :=
  match random with
  | None => error (Wrapf "generating API key" (Text "read random"))
  | Some b => ok ("vcd_" +:+ hex_encode b)
  end.

Definition hashAPIKey (key : string) : string := sha256_hex key.

Definition Create (userID name : string) (scopes : list string) (expiresAt : option time) (random : option (list Z))
    (now now' : time) (xid : string) : prog (string * APIKey) :=
  rawKey <- generateAPIKey random ;;
  key <- call (in_ "creating API key")
    (Users.CreateAPIKey (APIKey.mk "" userID name (hashAPIKey rawKey) (take_chars 8 rawKey) (marshal_strings scopes)
      expiresAt None now) now' xid) ;;
  ok (rawKey, key).

(** What both lookups do with the key found; the clock is read again. *)
Definition unless_invalid (now : time) (key : APIKey) : prog APIKey :=
  if APIKey_IsValid now (Some key) then ok key else error (Store Prelude.ErrNotFound).

Definition GetByRawKey (rawKey : string) (now now' : time) : prog APIKey :=
  key <- call as_is (ask (Users.GetAPIKeyByHash (hashAPIKey rawKey) now)) ;;
  unless_invalid now' key.

Definition GetByID (keyID : string) (now now' : time) : prog APIKey :=
  key <- call as_is (ask (Users.GetAPIKeyByID keyID now)) ;;
  unless_invalid now' key.

Definition Delete (keyID : string) (now : time) : prog unit := call as_is (Users.DeleteAPIKey keyID now).
Definition List_ (userID : string) : prog (list APIKey) := call as_is (ask (Users.ListAPIKeys userID)).
Definition UpdateUsage (keyID : string) (now : time) : prog unit := call as_is (Users.UpdateAPIKeyUsage keyID now).
Definition CleanupExpired (now now' : time) : prog Z := call as_is (Cleanup.CleanupExpiredAPIKeys now now').

Definition GetScopes (key : APIKey) : list string + goerr :=
  if bool_decide (key.(APIKey.Scopes) = "") then inl []
  else match unmarshal_strings key.(APIKey.Scopes) with
       | Some scopes => inl scopes
       | None => inr (Wrapf "parsing scopes" (Text "json"))
       end.

End apikeys.
End APIKeyService.

(** * Projects *)

Module ProjectService.
Section projects.
Context `{MapRange}.
Abbreviation prog := (eff Projects.State).

Definition Create (name repository branch deployPath projectType : string) (now now' : time) (xid : string) : prog Project :=
  unless (bool_decide (name = "")) (Text "project name is required") ;;;
  let branch := if bool_decide (branch = "") then "main" else branch in
  let typeIDPtr := if bool_decide (projectType = "") then None else Some projectType in
  call (in_ "creating project")
    (Projects.CreateProject (Project.mk "" name repository branch deployPath typeIDPtr now 0 None "" None false false)
      now' xid).

Definition GetByID (id : string) : prog Project := call as_is (ask (Projects.GetProjectByID id)).
Definition GetByName (name : string) : prog Project := call as_is (ask (Projects.GetProjectByName name)).
Definition List_ : prog (list Project) := call as_is (ask Projects.ListProjects).

Definition ListPaginated (p : Pagination) : prog (ListResult Project) :=
  page "listing projects" "counting projects" (Projects.ListProjectsPaginated (Limit p) (Offset p)) Projects.CountProjects p.

Definition Count : prog Z := call (in_ "counting projects") (ask Projects.CountProjects).

Definition UpdateByID (project : Project) (now : time) : prog Project :=
  call (in_ "updating project") (Projects.UpdateProjectByID project now).
Definition Update (project : Project) (now : time) : prog Project :=
  call (in_ "updating project") (Projects.UpdateProjectByName project now).
Definition DeleteByID (id : string) (now : time) : prog unit :=
  call (in_ "deleting project") (Projects.DeleteProjectByID id now).
Definition Delete (name : string) (now : time) : prog unit :=
  call (in_ "deleting project") (Projects.DeleteProject name now).

Definition DeleteWithCleanup (name : string) : prog unit :=
  call (in_ "getting project") (ask (Projects.GetProjectByName name)) ;;;
  RunInTransaction.

End projects.
End ProjectService.

Module ProjectTypeService.
Section types.
Context `{MapRange}.
Abbreviation prog := (eff Projects.State).

Definition Create (name description buildCmd : string) (now now' : time) (xid : string) : prog ProjectType :=
  unless (bool_decide (name = "")) (Text "project type name is required") ;;;
  call (in_ "creating project type")
    (Projects.CreateProjectType (ProjectType.mk "" name description buildCmd 0 now) now' xid).

Definition GetByName (name : string) : prog ProjectType := call as_is (ask (Projects.GetProjectTypeByName name)).
Definition List_ : prog (list ProjectType) := call as_is (ask Projects.ListProjectTypes).
Definition Update (pt : ProjectType) (now : time) : prog ProjectType :=
  call (in_ "updating project type") (Projects.UpdateProjectTypeByName pt now).
Definition Delete (name : string) (now : time) : prog unit :=
  call (in_ "deleting project type") (Projects.DeleteProjectType name now).

End types.
End ProjectTypeService.

(** * Agents *)

Module AgentService.
Section agents.
Context `{MapRange}.
Abbreviation prog := (eff Agents.State).

Definition Upsert (agent : Agent) (now : time) : prog Agent := call (in_ "upserting agent") (Agents.UpsertAgent agent now).
Definition GetByID (id : string) : prog Agent := call as_is (ask (Agents.GetAgent id)).
Definition List_ : prog (list Agent) := call (in_ "listing agents") (ask Agents.ListAgents).

Definition ListPaginated (p : Pagination) : prog (ListResult Agent) :=
  page "listing agents" "counting agents" (Agents.ListAgentsPaginated (Limit p) (Offset p)) Agents.CountAgents p.

Definition Delete (id : string) (now : time) : prog unit := call (in_ "deleting agent") (Agents.DeleteAgent id now).
Definition MarkStale (cutoff now : time) : prog Z := call (in_ "marking stale agents") (Cleanup.MarkStaleAgents cutoff now).
Definition Count : prog Z := call (in_ "counting agents") (ask Agents.CountAgents).
Definition CountByStatus : prog (gmap string Z) := call (in_ "counting agents by status") (ask Agents.CountAgentsByStatus).

Definition UpdateStatus (id status : string) (now now' : time) : prog Agent :=
  agent <- call (in_ "getting agent") (ask (Agents.GetAgent id)) ;;
  call (in_ "updating agent")
    (Agents.UpsertAgent {| agent with Agent.Status := status; Agent.LastSeenAt := now |} now').

End agents.
End AgentService.

(** * Deployments *)

Module DeploymentService.
Section deployments.
Context `{MapRange}.
Abbreviation prog := (eff Deployments.State).

Definition Create (d : DeploymentRecord) (now : time) : prog DeploymentRecord :=
  call (in_ "creating deployment") (Deployments.CreateDeployment d now).
Definition GetByID (id : string) : prog DeploymentRecord := call as_is (ask (Deployments.GetDeployment id)).
Definition Update (d : DeploymentRecord) (now : time) : prog unit :=
  call (in_ "updating deployment") (Deployments.UpdateDeployment d now).
Definition ListRecent (limit : Z) : prog (list DeploymentRecord) :=
  call (in_ "listing deployments") (ask (Deployments.ListDeploymentsRecent limit)).

Definition ListPaginated (p : Pagination) : prog (ListResult DeploymentRecord) :=
  page "listing deployments" "counting deployments" (Deployments.ListDeploymentsPaginated (Limit p) (Offset p))
    Deployments.CountDeployments p.

Definition CountByStatus : prog (gmap string Z) :=
  call (in_ "counting deployments by status") (ask Deployments.CountDeploymentsByStatus).

Definition Cancel (id : string) (now now' : time) : prog unit :=
  d <- call (in_ "getting deployment") (ask (Deployments.GetDeployment id)) ;;
  unless (negb (bool_decide (d.(DeploymentRecord.Status) = "pending")) &&
          negb (bool_decide (d.(DeploymentRecord.Status) = "running")))
    (Text ("cannot cancel deployment in status: " +:+ d.(DeploymentRecord.Status))) ;;;
  call (in_ "updating deployment")
    (Deployments.UpdateDeployment
       {| d with DeploymentRecord.Status := "cancelled"; DeploymentRecord.CompletedAt := Some now;
                 DeploymentRecord.ErrorMessage := "Cancelled by user" |} now').

Definition CreateLog (log : DeploymentLog) (now : time) (xid : string) : prog DeploymentLog :=
  call (in_ "creating deployment log") (Deployments.CreateDeploymentLog log now xid).
Definition ListLogs (deploymentID : string) : prog (list DeploymentLog) :=
  call (in_ "listing deployment logs") (ask (Deployments.ListDeploymentLogs deploymentID)).
Definition ListLogsAfter (deploymentID afterID : string) : prog (list DeploymentLog) :=
  call (in_ "listing deployment logs") (ask (Deployments.ListDeploymentLogsAfter deploymentID afterID)).

Definition ListLogsPaginated (deploymentID : string) (p : Pagination) : prog (ListResult DeploymentLog) :=
  page "listing deployment logs" "counting deployment logs"
    (Deployments.ListDeploymentLogsPaginated deploymentID (Limit p) (Offset p)) (Deployments.CountDeploymentLogs deploymentID) p.

Definition CreateScheduled (id project target branch : string) (scheduledAt : time) (scheduledBy : string) (now : time)
    : prog unit :=
  call (in_ "creating scheduled deployment")
    (Deployments.CreateScheduledDeployment id project target branch scheduledAt scheduledBy now).
Definition ListPendingScheduled (now : time) : prog (list ScheduledDeployment) :=
  call (in_ "listing scheduled deployments") (ask (Deployments.ListPendingScheduledDeployments now)).
Definition CancelScheduled (id : string) (now : time) : prog unit :=
  call (in_ "cancelling scheduled deployment") (Deployments.CancelScheduledDeployment id now).
Definition CleanupOld (cutoff now : time) : prog Z :=
  call (in_ "cleaning up old deployments") (Cleanup.CleanupOldDeployments cutoff now).
Definition CleanupOldLogs (cutoff now : time) : prog Z :=
  call (in_ "cleaning up old deployment logs") (Cleanup.CleanupOldDeploymentLogs cutoff now).

Definition CreateLogsBatch (deploymentID : string) (logs : list DeploymentLog) : prog unit :=
  if len logs =? 0 then ok tt else RunInTransaction.

End deployments.
End DeploymentService.

(** * Audit log *)

Module AuditService.
Section audit.
Abbreviation prog := (eff Ops.State).

Definition stamped (now : time) (entry : AuditEntry) : AuditEntry :=
  {| entry with AuditEntry.Timestamp := or_now entry.(AuditEntry.Timestamp) now |}.

Definition Log (entry : AuditEntry) (now now' : time) (xid : string) : prog AuditEntry :=
  call (in_ "logging audit entry") (Ops.LogAudit (stamped now entry) now' xid).

Definition LogWithSnapshot (entry : AuditEntry) (snapshot : option string) (now now' : time) (xid : string)
    : prog AuditEntry :=
  call (in_ "logging audit entry with snapshot") (Ops.LogAuditWithSnapshot (stamped now entry) snapshot now' xid).

Definition List_ (limit offset : Z) : prog (list AuditEntry) :=
  let limit := if limit <=? 0 then 100 else limit in
  let offset := if offset <? 0 then 0 else offset in
  call (in_ "listing audit logs") (ask (Ops.ListAuditLogs limit offset)).

Definition Cleanup_ (cutoff now : time) : prog Z :=
  call (in_ "cleaning up audit logs") (Cleanup.CleanupOldAuditLogs cutoff now).

Definition LogAction (source user action resource details ipAddress result : string) (now now' : time) (xid : string)
    : prog AuditEntry :=
  Log (AuditEntry.mk "" 0 source user action resource "" "" details ipAddress result) now now' xid.

End audit.
End AuditService.

(** * Rate limits *)

Module RateLimitService.
Section ratelimit.
Context `{MapRange}.
Abbreviation prog := (eff Ops.State).

(** [&services.ServiceError{Op: op, Err: err}] *)
Definition in_op (op : string) (e : goerr) : goerr := ServiceError op e "" "".

Definition BlockIP (ip reason : string) (duration : Z) (blockedBy : string) (now now' now'' : time) (xid : string)
    : prog BlockedIP :=
  let op := "ratelimit.BlockIP" in
  unless (bool_decide (ip = "")) (in_op op (Sentinel ErrInvalidInput)) ;;;
  call (in_op op) (Ops.BlockIP (BlockedIP.mk "" ip reason now (now' + duration) blockedBy) now'' xid).

Definition UnblockIP (ip : string) (now : time) : prog unit := call (in_op "ratelimit.UnblockIP") (Ops.UnblockIP ip now).
Definition IsBlocked (ip : string) (now : time) : prog bool := call (in_op "ratelimit.IsBlocked") (ask (Ops.IsIPBlocked ip now)).

Definition GetBlock (ip : string) : prog BlockedIP :=
  let op := "ratelimit.GetBlock" in
  call (λ e, if IsNotFound e then ServiceError op (Sentinel ErrNotFound) "blocked_ip" ip else in_op op e)
    (ask (Ops.GetBlockedIP ip)).

Definition ListBlocked (p : Pagination) : prog (ListResult BlockedIP) :=
  let p := NewPagination (Limit p) (Offset p) in
  r <- call (in_op "ratelimit.ListBlocked") (ask (Ops.ListBlockedIPs (Limit p) (Offset p))) ;;
  ok (mkListResult r.1 r.2 p).

Definition CleanupExpiredBlocks (now : time) : prog Z :=
  call (in_op "ratelimit.CleanupExpiredBlocks") (Cleanup.CleanupExpiredBlockedIPs now).

(** [t.Truncate(d)], which returns [t] when [d] is not positive. *)
Definition window_of (t : time) (d : Z) : time := if d <=? 0 then t else Truncate t d.

Definition RecordRequest (key bucket : string) (windowDuration : Z) (now now' : time) (xid : string) : prog unit :=
  let windowStart := window_of now windowDuration in
  let windowEnd := windowStart + windowDuration in
  call (in_op "ratelimit.RecordRequest") (Ops.RecordRateLimitRequest key bucket windowStart windowEnd now' xid).

Definition GetRequestCount (key bucket : string) (window : Z) (now : time) : prog Z :=
  call (in_op "ratelimit.GetRequestCount") (ask (Ops.GetRateLimitCount key bucket (now - window))).

Definition CleanupOldRequests (before now : time) : prog Z :=
  call (in_op "ratelimit.CleanupOldRequests") (Cleanup.CleanupRateLimitRecords before now).

End ratelimit.
End RateLimitService.

(** * Host keys *)

Module HostKeyService.
Section hostkeys.
Context `{MapRange}.
Abbreviation prog := (eff Misc.State).

Definition Create (key : SSHHostKey) (now now' : time) (xid : string) : prog SSHHostKey :=
  call (in_ "creating SSH host key")
    (Misc.CreateSSHHostKey {| key with SSHHostKey.CreatedAt := or_now key.(SSHHostKey.CreatedAt) now |} now' xid).
Definition Get (hostname : string) (port : Z) (keyType : string) : prog SSHHostKey :=
  call as_is (ask (Misc.GetSSHHostKey hostname port keyType)).
Definition GetByHost (hostname : string) (port : Z) : prog (list SSHHostKey) :=
  call (in_ "getting host keys") (ask (Misc.GetSSHHostKeysByHost hostname port)).
Definition List_ : prog (list SSHHostKey) := call (in_ "listing host keys") (ask Misc.ListSSHHostKeys).
Definition UpdateTrust (id : string) (trusted : bool) (verifiedBy : string) (now : time) : prog unit :=
  call (in_ "updating host key trust") (Misc.UpdateSSHHostKeyTrust id trusted verifiedBy now).
Definition Delete (id : string) (now : time) : prog unit := call (in_ "deleting host key") (Misc.DeleteSSHHostKey id now).
Definition DeleteByHost (hostname : string) (port : Z) (now : time) : prog Z :=
  call (in_ "deleting host keys") (Misc.DeleteSSHHostKeysByHost hostname port now).

(** A key that is not there is not trusted; other errors are reported. *)
Definition IsTrusted (hostname : string) (port : Z) (keyType fingerprint : string) : prog bool :=
  sbind (call as_is (ask (Misc.GetSSHHostKey hostname port keyType))) (λ r,
    match r with
    | inl key => ok (key.(SSHHostKey.Trusted) && bool_decide (key.(SSHHostKey.Fingerprint) = fingerprint))
    | inr e => if IsNotFound e then ok false else error (Wrapf "getting host key" e)
    end).

End hostkeys.
End HostKeyService.

(** * Provisioning jobs *)

Module ProvisionService.
Section provision.
Context `{MapRange}.
Abbreviation prog := (eff Misc.State).
Abbreviation in_op := RateLimitService.in_op.

(** [generateID] at the time [now], in nanoseconds since 1970. *)
Definition generateID (unixNano : Z) : string := "prov_" +:+ pretty unixNano.

Definition CreateJob (job : ProvisionJob) (unixNano : Z) (now now' : time) : prog ProvisionJob :=
  let op := "provision.CreateJob" in
  unless (bool_decide (job.(ProvisionJob.TargetHost) = ""))
    (in_op op (Wrapf "target_host is required" (Sentinel ErrInvalidInput))) ;;;
  let job := {| job with
    ProvisionJob.ID := or_string job.(ProvisionJob.ID) (generateID unixNano);
    ProvisionJob.Status := or_string job.(ProvisionJob.Status) "pending";
    ProvisionJob.TargetPort := if job.(ProvisionJob.TargetPort) =? 0 then 22 else job.(ProvisionJob.TargetPort);
    ProvisionJob.StartedAt := now |} in
  call (in_op op) (Misc.CreateProvisionJob job now').

(** The error of a job that is not there, and of anything else. *)
Definition job_error (op id : string) (e : goerr) : goerr :=
  if IsNotFound e then ServiceError op (Sentinel ErrNotFound) "provision_job" id else in_op op e.

Definition GetJob (id : string) : prog ProvisionJob :=
  call (job_error "provision.GetJob" id) (ask (Misc.GetProvisionJob id)).

Definition validStatuses : list string := ["pending"; "running"; "completed"; "failed"; "cancelled"].

Definition UpdateStatus (id status stage errorMessage : string) (progress : Z) (now : time) : prog unit :=
  let op := "provision.UpdateStatus" in
  unless (negb (bool_decide (status ∈ validStatuses)))
    (in_op op (Wrapf ("invalid status: " +:+ status) (Sentinel ErrInvalidInput))) ;;;
  call (job_error op id) (Misc.UpdateProvisionJobStatus id status stage errorMessage progress now).

Definition ListPending : prog (list ProvisionJob) :=
  call (in_op "provision.ListPending") (ask Misc.ListPendingProvisionJobs).

Definition ListByHost (host : string) (p : Pagination) : prog (ListResult ProvisionJob) :=
  let p := NewPagination (Limit p) (Offset p) in
  r <- call (in_op "provision.ListByHost") (ask (Misc.ListProvisionJobsByHost host (Limit p) (Offset p))) ;;
  ok (mkListResult r.1 r.2 p).

Definition Cancel (id : string) (now : time) : prog unit :=
  let op := "provision.Cancel" in
  job <- rewrap (Wrapf (op +:+ ": get job")) (GetJob id) ;;
  unless (negb (bool_decide (job.(ProvisionJob.Status) = "pending")) &&
          negb (bool_decide (job.(ProvisionJob.Status) = "running")))
    (in_op op (Wrapf ("cannot cancel job with status " +:+ job.(ProvisionJob.Status)) (Sentinel ErrInvalidInput))) ;;;
  UpdateStatus id "cancelled" "" "Cancelled by user" job.(ProvisionJob.Progress) now.

Definition Cleanup_ (before now : time) : prog Z :=
  call (in_op "provision.Cleanup") (Cleanup.CleanupOldProvisionJobs before now).

End provision.
End ProvisionService.

(** * Properties *)

Section users.
Context `{Bcrypt, MapRange}.
Import UserService.

Lemma hash_Ok password s h : ret (hash password s) = Ok (inl h) ↔ HashPassword password = Some h.
Proof. unfold hash. destruct (HashPassword password); cbn; naive_solver. Qed.

Lemma hash_st password s : st (hash password s) = s.
Proof. unfold hash. by destruct (HashPassword password). Qed.

(** What a login with a name and a password answers. *)
Definition login_answer (u : User) (h p : string) : User + goerr :=
  if VerifyPassword p h then inl u else inr ErrInvalidPassword.

Lemma verify_exact name p s :
  Verify_ name p s =
  mkOut s [] (match Users.usersByName s !! name with
              | Some u => Ok (login_answer u u.(User.PasswordHash) p)
              | None => Ok (inr (NotFound "users.VerifyPassword" "user" name))
              end).
Proof.
  unfold Verify_, login_answer, ebind, sbind, call, ask, Users.GetUserByUsername. cbn.
  destruct (Users.usersByName s !! name) as [u|]; cbn; [|done]. by destruct (VerifyPassword _ _).
Qed.

(** The user with an identifier has this name and this hash of a password. *)
Definition has_password (id name h : string) (s : Users.State) : Prop :=
  Users.wf s ∧ ∃ u, Users.users s !! id = Some u ∧ u.(User.Username) = name ∧ u.(User.PasswordHash) = h.

(** The call neither deletes the user nor writes another name or hash into the record. *)
Definition keeps (id name h : string) (c : Users.call) : Prop :=
  match c with
  | Users.CUpdateUserByID u _ => u.(User.ID) = id → u.(User.Username) = name ∧ u.(User.PasswordHash) = h
  | Users.CDeleteUser id' _ => id' ≠ id
  | _ => True
  end.

(** A later state: after such calls of the users' part of the store, in any number, each
    visiting the maps in an order of its own. *)
Definition call_keeps (id name h : string) (s s' : Users.State) : Prop :=
  ∃ (R : MapRange) c, keeps id name h c ∧ Users.fresh_id c s ∧ s' = (Users.run c s).1.
Definition later (id name h : string) : Users.State → Users.State → Prop := rtc (call_keeps id name h).

Lemma call_has_password id name h s s' : has_password id name h s → call_keeps id name h s s' → has_password id name h s'.
Proof.
  intros [Hw (u & Hu & Hn & Hh)] (R & c & Hk & Hf & ->). split; [by apply Users.users_run_wf|].
  destruct c as [v now xid|v now|id' now|x now|token now|now|userID now|cutoff now|k now xid|keyID now|keyID now]; simpl in *.
  - unfold Users.CreateUser. destruct (Users.usersByName s !! _); cbn; [by exists u|].
    exists u. rewrite lookup_insert_ne by congruence. done.
  - unfold Users.UpdateUserByID. destruct (Users.users s !! v.(User.ID)) as [x|]; cbn; [|by exists u].
    destruct (_ && _); cbn; [by exists u|]. destruct (decide (v.(User.ID) = id)) as [<-|Hne].
    + destruct (Hk eq_refl) as [<- <-]. eexists. rewrite lookup_insert_eq. by split_and!.
    + exists u. by rewrite lookup_insert_ne.
  - unfold Users.DeleteUser. destruct (Users.users s !! id'); cbn; [|by exists u].
    exists u. by rewrite lookup_delete_ne.
  - unfold Users.CreateSession. case_bool_decide; cbn; by exists u.
  - by exists u.
  - by exists u.
  - by exists u.
  - by exists u.
  - unfold Users.CreateAPIKey. case_bool_decide; cbn; [by exists u|]. destruct (Users.apiKeys s !! _); cbn; by exists u.
  - unfold Users.UpdateAPIKeyUsage. repeat case_match; cbn; by exists u.
  - unfold Users.DeleteAPIKey. repeat case_match; cbn; by exists u.
Qed.

Lemma later_has_password id name h s s' : has_password id name h s → later id name h s s' → has_password id name h s'.
Proof. intros Hp Hl. induction Hl as [|s s1 s2 Hc _ IH]; [done|]. by eapply IH, call_has_password. Qed.

Lemma has_password_login id name h s p :
  has_password id name h s →
  ∃ u, u.(User.ID) = id ∧ ret (Verify_ name p s) = Ok (login_answer u h p).
Proof.
  intros [Hw (u & Hu & <- & <-)]. destruct (Users.wf_users s Hw _ _ Hu) as [Hid Hn].
  exists u. split; [done|]. rewrite verify_exact. cbn. by rewrite Hn.
Qed.

(** From [s] on, a login as [u] succeeds with exactly the passwords that the hash [h] of
    [password] is verified with. *)
Definition logs_in (u : User) (password : string) (s : Users.State) : Prop :=
  ∃ h, HashPassword password = Some h ∧ u.(User.PasswordHash) = h ∧ VerifyPassword password h = true ∧
    (∀ p, ret (Verify_ u.(User.Username) p s) = Ok (login_answer u h p)) ∧
    ∀ s' p, later u.(User.ID) u.(User.Username) h s s' →
      ∃ u', u'.(User.ID) = u.(User.ID) ∧ ret (Verify_ u.(User.Username) p s') = Ok (login_answer u' h p).

Lemma logs_in_stored u password h s :
  Users.wf s → Users.users s !! u.(User.ID) = Some u → HashPassword password = Some h → u.(User.PasswordHash) = h →
  logs_in u password s.
Proof.
  intros Hw Hu Hh Hph. destruct (Users.wf_users s Hw _ _ Hu) as [_ Hn]. exists h.
  split_and!; [done..|by apply verify_hashed| |].
  - intros p. rewrite verify_exact. cbn. by rewrite Hn, Hph.
  - intros s' p Hl. apply has_password_login. eapply later_has_password; [|done]. split; [done|by exists u].
Qed.

Lemma create_inv username password email role opts now xid s u :
  let o := Create username password email role opts now xid s in
  Users.wf s → Users.users s !! xid = None → ret o = Ok (inl u) →
  Password.ValidatePassword password = Ok tt ∧ u.(User.Username) = username ∧
  HashPassword password = Some u.(User.PasswordHash) ∧ Users.usersByName s !! username = None ∧
  Users.wf (st o) ∧ Users.users (st o) !! u.(User.ID) = Some u ∧
  ∀ name, name ≠ username → Users.usersByName (st o) !! name = Users.usersByName s !! name.
Proof.
  cbv zeta. intros Hw Hx. unfold Create. intros ([] & Hp%check_Ok & Ho)%ebind_Ok. cbn [st check] in Ho.
  rewrite !(st_ebind_inl _ _ _ tt) by by apply check_Ok. cbn [st check].
  apply ebind_Ok in Ho as (h & Hh%hash_Ok & Ho). rewrite hash_st in Ho. apply call_Ok in Ho.
  rewrite !(st_ebind_inl _ _ _ h) by by apply hash_Ok. rewrite hash_st, st_call.
  set (user := User.mk _ _ _ _ _ _ _ _ _ _) in *. pose proof (Users.wf_create_user user now xid s Hw Hx) as Hw'.
  assert (User.Username user = username) as Hn by done.
  unfold Users.CreateUser in *. rewrite Hn in *.
  destruct (Users.usersByName s !! username) as [?|] eqn:En; [done|]. cbn in Ho. injection Ho as <-.
  split_and!; [done..| |]; cbn; [by rewrite lookup_insert_eq|]. intros name Hne. by rewrite lookup_insert_ne.
Qed.

Lemma update_password_inv userID newPassword now s u :
  Users.wf s → ret (UpdatePassword userID newPassword now s) = Ok (inl u) →
  Password.ValidatePassword newPassword = Ok tt ∧ u.(User.MustChangePassword) = false ∧ u.(User.ID) = userID ∧
  HashPassword newPassword = Some u.(User.PasswordHash) ∧
  ∃ old v, Users.users s !! userID = Some old ∧ u.(User.Username) = old.(User.Username) ∧
    st (UpdatePassword userID newPassword now s) = st (Users.UpdateUserByID v now s) ∧
    Users.users (st (Users.UpdateUserByID v now s)) !! userID = Some u ∧
    ∀ name, name ≠ old.(User.Username) →
      Users.usersByName (st (Users.UpdateUserByID v now s)) !! name = Users.usersByName s !! name.
Proof.
  intros Hw. unfold UpdatePassword. intros ([] & Hp%check_Ok & Ho)%ebind_Ok. cbn [st check] in Ho.
  rewrite (st_ebind_inl _ _ _ tt) by by apply check_Ok. cbn [st check].
  apply ebind_Ok in Ho as (user & Hu & Ho). rewrite (st_ebind_inl _ _ _ user) by done.
  apply call_Ok in Hu. change (st (call _ (ask (Users.GetUserByID userID)) s)) with s in *.
  unfold ask, Users.GetUserByID in Hu. cbn in Hu. destruct (Users.users s !! userID) as [x|] eqn:Ex; [|done].
  injection Hu as ->.
  apply ebind_Ok in Ho as (h & Hh%hash_Ok & Ho). rewrite hash_st in Ho. apply call_Ok in Ho.
  rewrite (st_ebind_inl _ _ _ h) by by apply hash_Ok. rewrite hash_st, st_call.
  destruct (Users.wf_users s Hw _ _ Ex) as [Hid _].
  set (v := {| user with User.PasswordHash := h; User.MustChangePassword := false |}) in *.
  unfold Users.UpdateUserByID in Ho. change (User.ID v) with (User.ID user) in Ho.
  rewrite Hid, Ex in Ho. rewrite bool_decide_false in Ho by (intros Hne; by apply Hne). cbn in Ho. injection Ho as <-.
  split_and!; [done..|]. exists user, v. split_and!; [done..| |];
    unfold Users.UpdateUserByID; change (User.ID v) with (User.ID user); rewrite Hid, Ex;
    rewrite bool_decide_false by (intros Hne; by apply Hne); cbn.
  - by rewrite lookup_insert_eq.
  - intros name Hne. by rewrite lookup_insert_ne.
Qed.

(** C35: Logging in with a password.  A login is refused with "not found" for a name that no
    user has, and with "invalid password" for a password that the stored hash is not
    verified with; otherwise it gives the user of that name; it changes nothing.
    [Create], for a new identifier, and [UpdatePassword] only succeed with a password
    that meets the policy, and the name of a new user was free; the demand to change the
    password is gone after a change.  From then on, through every sequence of calls that
    neither delete the user nor write another name or hash into the record, a login under
    the name succeeds with exactly the passwords that the new hash is verified with: the
    new one, and the old one only if the new hash accepts it.  Nobody else's login is
    touched. *)
Theorem users_log_in s :
  Users.wf s →
  (∀ name p, Verify_ name p s =
     mkOut s [] (match Users.usersByName s !! name with
                 | Some u => Ok (login_answer u u.(User.PasswordHash) p)
                 | None => Ok (inr (NotFound "users.VerifyPassword" "user" name))
                 end)) ∧
  (∀ username password email role opts now xid u,
     let o := Create username password email role opts now xid s in
     Users.users s !! xid = None → ret o = Ok (inl u) →
     Password.ValidatePassword password = Ok tt ∧ u.(User.Username) = username ∧ Users.usersByName s !! username = None ∧
     logs_in u password (st o) ∧
     ∀ name p, name ≠ username → ret (Verify_ name p (st o)) = ret (Verify_ name p s)) ∧
  (∀ userID newPassword now u,
     let o := UpdatePassword userID newPassword now s in
     ret o = Ok (inl u) →
     Password.ValidatePassword newPassword = Ok tt ∧ u.(User.MustChangePassword) = false ∧ u.(User.ID) = userID ∧
     logs_in u newPassword (st o) ∧
     ∀ name p, name ≠ u.(User.Username) → ret (Verify_ name p (st o)) = ret (Verify_ name p s)).
Proof.
  intros Hw. split; [intros name p; apply verify_exact|]. split.
  - intros username password email role opts now xid u o Hx Ho.
    apply create_inv in Ho as (Hp & Hn & Hh & Hf & Hw' & Hu & Hoth); [|done..]. fold o in Hw', Hu, Hoth.
    split_and!; [done..|by eapply logs_in_stored|]. intros name p Hne. rewrite !verify_exact. cbn. by rewrite Hoth.
  - intros userID newPassword now u o Ho.
    apply update_password_inv in Ho as (Hp & Hm & Hid & Hh & old & v & Hold & Hn & Hst & Hu & Hoth); [|done].
    fold o in Hst. rewrite Hst. split_and!; [done..| |].
    + eapply logs_in_stored; [by apply Users.wf_update_user|by rewrite Hid|exact Hh|done].
    + intros name p Hne. rewrite !verify_exact. cbn. by rewrite Hoth by congruence.
Qed.

End users.

Lemma ret_page {S A} a b (items : S → result (list A)) count p s l n :
  items s = Ok l → count s = Ok n → ret (page a b items count p s) = Ok (inl (mkListResult l n p)).
Proof. intros El En. unfold page, ebind, sbind, call, ask. cbn. rewrite El. cbn. by rewrite En. Qed.

(** the pages of users come in the order of a map, which may change between requests:
    when there are two users, two requests for consecutive pages of one can return the
    same user twice, and the other on neither page. *)
Theorem pages_may_repeat s :
  size (Users.users s) = 2%nat →
  ∃ (R R' : MapRange) k k' u v, k ≠ k' ∧ Users.users s !! k = Some u ∧ Users.users s !! k' = Some v ∧
    ret (@UserService.ListPaginated R (NewPagination 1 0) s) = Ok (inl (mkListResult [u] 2 (NewPagination 1 0))) ∧
    ret (@UserService.ListPaginated R' (NewPagination 1 1) s) = Ok (inl (mkListResult [u] 2 (NewPagination 1 1))).
Proof.
  intros Hs. pose proof (NoDup_fst_map_to_list (Users.users s)) as Hnd.
  assert (∀ k u, (k, u) ∈ map_to_list (Users.users s) ↔ Users.users s !! k = Some u) as Hin by (intros; apply elem_of_map_to_list).
  pose proof (length_map_to_list (Users.users s)) as Hl. rewrite Hs in Hl.
  destruct (map_to_list (Users.users s)) as [|[k u] [|[k' v] [|]]] eqn:El; try done.
  apply NoDup_cons in Hnd as [Hne _].
  assert (@Users.ListUsersPaginated range_in_key_order 1 0 s = Ok [u]) as E1
    by (unfold Users.ListUsersPaginated, range_values; cbn [range range_in_key_order]; by rewrite El).
  assert (@Users.ListUsersPaginated range_reversed 1 1 s = Ok [u]) as E2
    by (unfold Users.ListUsersPaginated, range_values; cbn [range range_reversed]; by rewrite El).
  assert (Users.CountUsers s = Ok 2) as E3 by (unfold Users.CountUsers, map_len; by rewrite Hs).
  exists range_in_key_order, range_reversed, k, k', u, v. split_and!.
  - intros ->. apply Hne. cbn. left.
  - apply Hin. left.
  - apply Hin. right. left.
  - by apply ret_page.
  - by apply ret_page.
Qed.

Section keys.
Context `{KeyCodec, MapRange}.
Import APIKeyService.

(** the key a creation returns opens its record, with the scopes it was created with,
    until it expires; the store has only its hash and its first 8 characters. *)
Theorem api_key_opens userID name scopes expiresAt random now now' xid s rawKey key :
  let o := Create userID name scopes expiresAt random now now' xid s in
  ret o = Ok (inl (rawKey, key)) →
  key.(APIKey.UserID) = userID ∧ key.(APIKey.KeyHash) = hashAPIKey rawKey ∧ key.(APIKey.KeyPrefix) = take_chars 8 rawKey ∧
  GetScopes key = inl scopes ∧
  ∀ t t', ret (GetByRawKey rawKey t t' (st o)) =
    if APIKey_IsValid t (Some key) && APIKey_IsValid t' (Some key) then Ok (inl key)
    else Ok (inr (Store Prelude.ErrNotFound)).
Proof.
  intros o Ho. unfold o, Create in *. apply ebind_Ok in Ho as (raw & Hr & Ho).
  assert (st (generateAPIKey random s) = s) as Es by (by destruct random).
  rewrite (st_ebind_inl _ _ _ raw) by done. rewrite Es in *.
  apply ebind_Ok in Ho as (k & Hk & Ho). rewrite (st_ebind_inl _ _ _ k) by done. injection Ho as <- <-. apply call_Ok in Hk.
  rewrite st_call. change (st (ok (raw, k) ?x)) with x. unfold Users.CreateAPIKey in *. cbn in *.
  case_bool_decide; [done|]. destruct (Users.apiKeys s !! _); [done|]. cbn in Hk. injection Hk as <-. cbn.
  split_and!; [done..| |].
  - unfold GetScopes. cbn. rewrite bool_decide_false by apply marshal_nonempty. by rewrite unmarshal_marshal.
  - intros t t'. unfold GetByRawKey, ebind, sbind, call, ask, Users.GetAPIKeyByHash. cbn. rewrite lookup_insert_eq.
    unfold Users.read_key. cbn. rewrite lookup_insert_eq. unfold Users.unless_expired, unless_invalid. cbn.
    destruct expiresAt as [e|]; [|done]. destruct (After t e); [done|]. cbn. by destruct (After t' e).
Qed.

End keys.

(** ** Provisioning jobs *)

Section jobs.
Context `{MapRange}.
Import ProvisionService.

(** cancelling a job succeeds exactly when it is pending or running, and marks it so;
    a job that is not there is reported as such, through both wrappings. *)
Theorem cancel_job_spec id now s :
  match Misc.provisionJobs s !! id with
  | None => ∃ e, ret (Cancel id now s) = Ok (inr e) ∧ IsNotFound e = true ∧ st (Cancel id now s) = s
  | Some job =>
      if bool_decide (job.(ProvisionJob.Status) = "pending") || bool_decide (job.(ProvisionJob.Status) = "running")
      then ret (Cancel id now s) = Ok (inl tt) ∧
           ∃ job', Misc.provisionJobs (st (Cancel id now s)) !! id = Some job' ∧ job'.(ProvisionJob.Status) = "cancelled" ∧
             job'.(ProvisionJob.Progress) = job.(ProvisionJob.Progress)
      else ∃ e, ret (Cancel id now s) = Ok (inr e) ∧ IsInvalidInput e = true ∧ st (Cancel id now s) = s
  end.
Proof.
  unfold Cancel, GetJob, rewrap, ebind, sbind, call, ask, Misc.GetProvisionJob. cbn.
  destruct (Misc.provisionJobs s !! id) as [job|] eqn:E; cbn; [|by eexists].
  rewrite <- negb_orb. destruct (_ || _); cbn; [|by eexists].
  assert (bool_decide ("cancelled" ∈ validStatuses) = true) as Ec by done.
  unfold UpdateStatus, ebind, sbind, call, unless, Misc.UpdateProvisionJobStatus. rewrite Ec. cbn. rewrite E. cbn.
  split; [done|].
  eexists. split; [by rewrite lookup_insert_eq|]. done.
Qed.

End jobs.

(** * Witnesses *)

Section demo.

(** A hash that only marks its argument, and scopes written one per line. *)
#[local] Instance toy_bcrypt : Bcrypt.
Proof.
  refine {| HashPassword p := Some ("#" +:+ p); VerifyPassword p h := bool_decide (h = "#" +:+ p) |}.
  intros p h [= <-]. by apply bool_decide_true.
Defined.
#[local] Existing Instance range_in_key_order.

Definition demo_created : Outcome Users.State (User + goerr) :=
  UserService.Create "alice" "Corr3ct-Horse!" "alice@example.com" "admin" [] 5 "u1" Users.empty.

Definition demo_alice : User :=
  User.mk "u1" "alice" "#Corr3ct-Horse!" "alice@example.com" "admin" "" false false 5 5.

Lemma demo_created_alice : ret demo_created = Ok (inl demo_alice).
Proof. vm_compute. reflexivity. Qed.

(** After the password was changed, the old one is refused, also after another user was
    added. *)
Definition demo_changed : Outcome Users.State (User + goerr) :=
  UserService.UpdatePassword "u1" "N3w-Passphrase!" 6 (st demo_created).

Lemma demo_created_wf : Users.wf (st demo_created).
Proof.
  exact (Users.wf_create_user (User.mk "" "alice" "#Corr3ct-Horse!" "alice@example.com" "admin" "" false false 5 5) 5 "u1"
    Users.empty Users.users_wf_empty eq_refl).
Qed.

Definition demo_changed_alice : User :=
  User.mk "u1" "alice" "#N3w-Passphrase!" "alice@example.com" "admin" "" false false 5 6.

Lemma demo_changed_ok : ret demo_changed = Ok (inl demo_changed_alice).
Proof. vm_compute. reflexivity. Qed.

Definition demo_added : Users.State :=
  (Users.run (Users.CCreateUser (User.mk "" "bob" "#x" "" "user" "" false false 7 7) 7 "u2") (st demo_changed)).1.

Lemma users_log_in_witness :
  ret (UserService.Verify_ "alice" "Corr3ct-Horse!" (st demo_created)) = Ok (inl demo_alice) ∧
  ret (UserService.Verify_ "alice" "Corr3ct-Horse!" (st demo_changed)) = Ok (inr UserService.ErrInvalidPassword) ∧
  (∃ u, User.ID u = "u1" ∧ ret (UserService.Verify_ "alice" "N3w-Passphrase!" demo_added) = Ok (inl u)) ∧
  ret (UserService.Verify_ "bob" "x" (st demo_changed)) = ret (UserService.Verify_ "bob" "x" (st demo_created)).
Proof.
  split; [|split; [|split]].
  - destruct (proj1 (proj2 (users_log_in Users.empty Users.users_wf_empty))
      "alice" "Corr3ct-Horse!" "alice@example.com" "admin" [] 5 "u1" demo_alice eq_refl demo_created_alice)
      as (_ & _ & _ & (h & Hh & _ & _ & Hl & _) & _).
    injection Hh as <-. refine (eq_trans (Hl "Corr3ct-Horse!") _). reflexivity.
  - destruct (proj2 (proj2 (users_log_in (st demo_created) demo_created_wf)) "u1" "N3w-Passphrase!" 6 demo_changed_alice
      demo_changed_ok) as (_ & _ & _ & (h & Hh & _ & _ & Hl & _) & _).
    injection Hh as <-. refine (eq_trans (Hl "Corr3ct-Horse!") _). reflexivity.
  - destruct (proj2 (proj2 (users_log_in (st demo_created) demo_created_wf)) "u1" "N3w-Passphrase!" 6 demo_changed_alice
      demo_changed_ok) as (_ & _ & _ & (h & Hh & _ & _ & _ & Hl) & _).
    injection Hh as <-. destruct (Hl demo_added "N3w-Passphrase!") as (u & Hid & Hv).
    + apply rtc_once. eexists range_in_key_order, _. split; [|split; [|reflexivity]]; [exact I|vm_compute; reflexivity].
    + exists u. split; [exact Hid|exact Hv].
  - apply (proj2 (proj2 (users_log_in (st demo_created) demo_created_wf)) "u1" "N3w-Passphrase!" 6 demo_changed_alice
      demo_changed_ok). discriminate.
Defined.

Definition demo_two : Users.State :=
  st (UserService.Create "bob" "Corr3ct-Horse!" "bob@example.com" "viewer" [] 6 "u2" (st demo_created)).

Lemma pages_may_repeat_witness :
  size (Users.users demo_two) = 2%nat ∧
  ∃ (R R' : MapRange) r r', 
    ret (@UserService.ListPaginated R (NewPagination 1 0) demo_two) = Ok (inl r) ∧
    ret (@UserService.ListPaginated R' (NewPagination 1 1) demo_two) = Ok (inl r') ∧ Items r = Items r'.
Proof.
  assert (size (Users.users demo_two) = 2%nat) as Hs by (vm_compute; reflexivity). split; [exact Hs|].
  destruct (pages_may_repeat demo_two Hs) as (R & R' & k & k' & u & v & _ & _ & _ & H1 & H2).
  exists R, R'. eexists _, _. split; [exact H1|]. split; [exact H2|]. reflexivity.
Defined.

Fixpoint toy_write (s : string) : string :=
  match s with
  | "" => "."
  | String c s => String (Ascii.ascii_of_nat 39) (String c (toy_write s))
  end.

Fixpoint toy_read (s : string) : option (list string) :=
  match s with
  | "" => Some []
  | String c r =>
      if bool_decide (c = Ascii.ascii_of_nat 46) then cons "" <$> toy_read r
      else match r with
           | String c r => match toy_read r with Some (s :: l) => Some (String c s :: l) | _ => None end
           | "" => None
           end
  end.

Lemma toy_read_write s r l : toy_read r = Some l → toy_read (toy_write s +:+ r) = Some (s :: l).
Proof.
  intros Hr. induction s as [|c s IH].
  - change (cons "" <$> toy_read r = Some ([""] ++ l)). by rewrite Hr.
  - change (match toy_read (toy_write s +:+ r) with Some (s' :: l') => Some (String c s' :: l') | _ => None end
            = Some (String c s :: l)). by rewrite IH.
Qed.

#[local] Instance toy_codec : KeyCodec.
Proof.
  refine {| marshal_strings l := String (Ascii.ascii_of_nat 91) (String.concat "" (toy_write <$> l));
            unmarshal_strings s := match s with String _ r => toy_read r | "" => None end; sha256_hex s := "~" +:+ s |}.
  - intros l. cbn. induction l as [|s l IH]; [done|]. cbn [fmap list_fmap].
    destruct l as [|t l]; [cbn in *; by rewrite <-(app_empty_r (toy_write s)), (toy_read_write s "" [])|].
    change (String.concat "" _) with (toy_write s +:+ String.concat "" (toy_write <$> t :: l)). by apply toy_read_write.
  - done.
Defined.

Definition demo_key : Outcome Users.State (string * APIKey + goerr) :=
  APIKeyService.Create "u1" "ci" ["read"; "write"] (Some 9) (Some [1; 2; 3; 4]) 5 5 "k1" Users.empty.

Definition demo_record : APIKey :=
  APIKey.mk "k1" "u1" "ci" "~vcd_01020304" "vcd_0102" (marshal_strings ["read"; "write"]) (Some 9) None 5.

Lemma demo_key_record : ret demo_key = Ok (inl ("vcd_01020304", demo_record)).
Proof. vm_compute. reflexivity. Qed.

Lemma api_key_opens_witness :
  ret (APIKeyService.GetByRawKey "vcd_01020304" 7 8 (st demo_key)) = Ok (inl demo_record).
Proof.
  exact (proj2 (proj2 (proj2 (proj2
    (api_key_opens "u1" "ci" ["read"; "write"] (Some 9) (Some [1; 2; 3; 4]) 5 5 "k1" Users.empty
       "vcd_01020304" demo_record demo_key_record)))) 7 8).
Defined.

End demo.
