(* ===== verification/Secrets.v ===== *)
(** Secrets and settings over the key service ([src/internal/services/secrets/service.go],
    [src/internal/services/settings/service.go]).

    Both services share the in-memory store with the key service; a state has the parts of
    the store they use, the key service among them ([KeyManagement]), and tells whether
    there is a key service at all ([kms == nil]).  Nonces, the clock and generated
    identifiers are arguments; what a loop draws in its turns is a function of the turn. *)

From stdpp Require Import pretty.
From S2P Require Import GoStrings StoreBase ServiceBase ServiceErrors Models RecipeModels MemProjects MemRecipes MemOps.
From S2P Require Import Activations Regex Formats Crypto SecurityModels MemSecurity KeyManagement.

#[local] Open Scope string_scope.
#[local] Open Scope list_scope.
#[local] Open Scope Z_scope.
#[local] Open Scope eff_scope.

(** [for _, x := range l { if err := f(x); err != nil { return err } }] *)
Fixpoint efor_from {S A} (i : nat) (l : list A) (f : nat → A → eff S unit) : eff S unit :=
  match l with
  | [] => ok tt
  | x :: l' => f i x ;;; efor_from (Datatypes.S i) l' f
  end.
Definition efor {S A} := @efor_from S A 0.

Definition ErrKMSNotConfigured : goerr :=
  Text "KMS not configured: encryption/decryption operations are unavailable".

(** * Secrets *)

Module SecretService.

Module Entry.
Record Entry := mk {
  ID : string; Project : string; Scope : string; Key : string; Value : string; CreatedAt : time; UpdatedAt : time
}.
End Entry.
Abbreviation Entry := Entry.Entry.

Module SecretMetadata.
Record SecretMetadata := mk {
  ID : string; Project : string; Scope : string; Key : string; CreatedAt : time; UpdatedAt : time
}.
End SecretMetadata.
Abbreviation SecretMetadata := SecretMetadata.SecretMetadata.

Definition keyPattern : re := headed is_upper (λ c, is_upper c || is_digit c || one_of "_" c) 0 (Some 63%nat).

(** [None] is no error. *)
Definition ValidateKey (key : string) : option goerr :=
  if bool_decide (key = "") then Some (Text "key cannot be empty")
  else if 64 <? Z.of_nat (String.length key) then Some (Text "key cannot exceed 64 characters")
  else if negb (MatchString keyPattern key)
       then Some (Text "key must start with uppercase letter, contain only A-Z, 0-9, underscore")
  else None.

(** The parts of the store and the key service. *)
Record State := mkState {
  hasKMS : bool;
  kms : Kms.State;
  projects : Projects.State;
  recipes : Recipes.State
}.

Section secrets.
Context `{AEAD, MapRange} (masterKey : list Z).
Abbreviation prog := (eff State).

Definition on_projects {A} (f : Projects.State → Outcome Projects.State A) : svc State A := λ s,
  let o := f (projects s) in mkOut {| s with projects := st o |} (queued o) (ret o).

Definition on_kms {A} (f : Kms.State → Kms.State * result A) : svc State A := λ s,
  let '(k, r) := f (kms s) in mkOut {| s with kms := k |} [] r.

Definition EncryptString (nonce : option (list Z)) (x : string) : svc State string :=
  on_kms (λ k, (k, Kms.EncryptString nonce x k)).
Definition DecryptString (c : string) : svc State string := on_kms (Kms.DecryptString masterKey c).

Definition requireKMS : prog unit := λ s, unless (negb (hasKMS s)) ErrKMSNotConfigured s.

Definition Set_ (project scope key value : string) (nonce : option (list Z)) (now : time) (xid : string) : prog unit :=
  requireKMS ;;;
  match ValidateKey key with Some e => error (Wrapf "invalid secret key" e) | None => ok tt end ;;;
  unless (bool_decide (project = "")) (Text "project is required") ;;;
  unless (bool_decide (scope = "")) (Text "scope is required") ;;;
  encrypted <- call (Wrapf "encrypting secret") (EncryptString nonce value) ;;
  call (Wrapf "storing secret") (on_projects (Projects.SetSecretEncrypted project scope key (bytes_of encrypted) now xid)).

(** The error of a lookup, before it is returned. *)
Definition fetch (project scope key : string) : svc State (Secret + goerr) := λ s,
  mkOut s [] (match Projects.GetSecret project scope key (projects s) with
              | Ok x => Ok (inl x) | Err e => Ok (inr (Store e)) | Panic => Panic end).

Definition Get (project scope key : string) : prog string :=
  requireKMS ;;;
  sbind (fetch project scope key) (λ r,
    match r with
    | inr e => if IsNotFound e then ok "" else error (Wrapf "retrieving secret" e)
    | inl secret => call (Wrapf "decrypting secret") (DecryptString (string_of secret.(Secret.ValueEncrypted)))
    end).

Definition GetEntry (project scope key : string) : prog Entry :=
  requireKMS ;;;
  sbind (fetch project scope key) (λ r,
    match r with
    | inr e => if IsNotFound e
               then error (NotFound "secrets.GetEntry" "secret" (project +:+ "/" +:+ scope +:+ "/" +:+ key))
               else error (Wrapf "retrieving secret" e)
    | inl secret =>
        decrypted <- call (Wrapf "decrypting secret") (DecryptString (string_of secret.(Secret.ValueEncrypted))) ;;
        ok (Entry.mk secret.(Secret.ID) secret.(Secret.Project) secret.(Secret.Scope) secret.(Secret.Key) decrypted
              secret.(Secret.CreatedAt) secret.(Secret.UpdatedAt))
    end).

(** The refusal of a deletion, with the text of its error. *)
Definition deletion_error (d : deletion) : option goerr :=
  match d with
  | Safe => None
  | DeletionBlockedError typ name usages =>
      Some (Text ("cannot delete " +:+ typ +:+ " " +:+ quote name +:+ ": used by " +:+
                  pretty (len usages) +:+ " playbook(s)"))
  | DeletionFailed e => Some (Store e)
  end.

Definition Delete (project scope key : string) (now : time) : prog unit :=
  let secretRef := project +:+ "/" +:+ scope +:+ "/" +:+ key in
  (λ s, match deletion_error (Dependency.CheckSecretDeletionSafe (projects s) secretRef (recipes s)) with
        | Some e => error e s
        | None => ok tt s
        end) ;;;
  call as_is (on_projects (Projects.DeleteSecretCtx project scope key now)).

Definition metadata (sec : Secret) : SecretMetadata :=
  SecretMetadata.mk sec.(Secret.ID) sec.(Secret.Project) sec.(Secret.Scope) sec.(Secret.Key)
    sec.(Secret.CreatedAt) sec.(Secret.UpdatedAt).

Definition listing (l : Projects.State → result (list Secret)) : prog (list SecretMetadata) :=
  secrets <- call (Wrapf "listing secrets") (ask (λ s, l (projects s))) ;;
  ok (metadata <$> secrets).

Definition List_ (project scope : string) : prog (list SecretMetadata) :=
  listing (Projects.ListSecretsWithScope project scope).
Definition ListByProject (project : string) : prog (list SecretMetadata) := listing (Projects.ListSecretsCtx project).
Definition ListAll : prog (list SecretMetadata) := listing Projects.ListAllSecretsCtx.

Fixpoint decrypt_all (secrets : list Secret) (out : gmap string string) : prog (gmap string string) :=
  match secrets with
  | [] => ok out
  | sec :: rest =>
      decrypted <- call (Wrapf ("decrypting secret " +:+ sec.(Secret.Key)))
                     (DecryptString (string_of sec.(Secret.ValueEncrypted))) ;;
      decrypt_all rest (<[sec.(Secret.Key) := decrypted]> out)
  end.

Definition Export (project scope : string) : prog (gmap string string) :=
  requireKMS ;;;
  secrets <- call (Wrapf "listing secrets") (ask (λ s, Projects.ListSecretsWithScope project scope (projects s))) ;;
  decrypt_all secrets ∅.

Definition backslash : string := String (Ascii.ascii_of_nat 92) "".
Definition newline_text : string := String newline "".

(** The value between the quotes of a line. *)
Definition escape (value : string) : string :=
  let escaped := ReplaceAll value backslash (backslash +:+ backslash) in
  let escaped := ReplaceAll escaped double_quote (backslash +:+ double_quote) in
  ReplaceAll escaped newline_text (backslash +:+ "n").

Definition env_line (kv : string * string) : string :=
  kv.1 +:+ "=" +:+ double_quote +:+ escape kv.2 +:+ double_quote.

Definition ExportEnvFile (project scope : string) : prog string :=
  secrets <- Export project scope ;;
  ok (GoStrings.Join (env_line <$> range secrets) newline_text).

Definition Import (project scope : string) (secrets : gmap string string)
    (nonce : nat → option (list Z)) (now : nat → time) (xid : nat → string) : prog unit :=
  efor (range secrets) (λ i kv,
    rewrap (Wrapf ("setting secret " +:+ kv.1)) (Set_ project scope kv.1 kv.2 (nonce i) (now i) (xid i))).

Definition reencrypt_turn (nonce : nat → option (list Z)) (now : nat → time) (xid : nat → string) (i : nat) (sec : Secret)
    : prog unit :=
  reencrypted <- call (Wrapf ("re-encrypting secret " +:+ sec.(Secret.Project) +:+ "/" +:+ sec.(Secret.Scope) +:+
                              "/" +:+ sec.(Secret.Key)))
                   (on_kms (Kms.ReEncrypt masterKey (nonce i) (string_of sec.(Secret.ValueEncrypted)))) ;;
  call (Wrapf "storing re-encrypted secret")
    (on_projects (Projects.SetSecretEncrypted sec.(Secret.Project) sec.(Secret.Scope) sec.(Secret.Key)
                    (bytes_of reencrypted) (now i) (xid i))).

Definition ReEncryptAll (nonce : nat → option (list Z)) (now : nat → time) (xid : nat → string) : prog unit :=
  requireKMS ;;;
  secrets <- call (Wrapf "listing all secrets") (ask (λ s, Projects.ListAllSecretsCtx (projects s))) ;;
  efor secrets (reencrypt_turn nonce now xid).

End secrets.
End SecretService.

(** * Settings *)

(** The durations of the standard library as text. *)
Class DurationText := {
  Duration_String : Z → string;
  ParseDuration : string → option Z;
  parse_duration_string : ∀ d, in_int64 d → ParseDuration (Duration_String d) = Some d;
  duration_string_nonempty : ∀ d, Duration_String d ≠ ""
}.

(** [strconv.FormatBool] and [strconv.ParseBool] *)
Definition FormatBool (b : bool) : string := if b then "true" else "false".
Definition ParseBool (s : string) : option bool :=
  if bool_decide (s ∈ ["1"; "t"; "T"; "TRUE"; "true"; "True"]) then Some true
  else if bool_decide (s ∈ ["0"; "f"; "F"; "FALSE"; "false"; "False"]) then Some false
  else None.

(** [strconv.Itoa] *)
Definition Itoa (z : Z) : string := pretty z.

Module SettingService.

Module SettingMetadata.
Record SettingMetadata := mk {
  ID : string; Category : string; Key : string; Value : string; ValueType : string; Encrypted : bool; Description : string
}.
End SettingMetadata.
Abbreviation SettingMetadata := SettingMetadata.SettingMetadata.

Record State := mkState {
  hasKMS : bool;
  kms : Kms.State;
  ops : Ops.State
}.

Definition ErrSettingRequired : goerr := Text "required setting is missing or empty".

Section settings.
Context `{AEAD, MapRange, DurationText} (masterKey : list Z).
Abbreviation prog := (eff State).

Definition on_ops {A} (f : Ops.State → Outcome Ops.State A) : svc State A := λ s,
  let o := f (ops s) in mkOut {| s with ops := st o |} (queued o) (ret o).

Definition on_kms {A} (f : Kms.State → Kms.State * result A) : svc State A := λ s,
  let '(k, r) := f (kms s) in mkOut {| s with kms := k |} [] r.

Definition IsInitialized : prog bool := call as_is (ask (λ s, Ops.HasSettings (ops s))).

Definition Get (category key : string) : prog string := λ s,
  match Ops.GetSetting category key (ops s) with
  | Err e => if IsNotFound (Store e) then ok "" s else error (Store e) s
  | Panic => crash s
  | Ok setting =>
      if setting.(Setting.Encrypted) && hasKMS s
      then call (Wrapf "decrypting setting") (on_kms (Kms.DecryptString masterKey setting.(Setting.Value))) s
      else ok setting.(Setting.Value) s
  end.

Definition GetRequired (category key : string) : prog string :=
  val <- Get category key ;;
  if bool_decide (val = "") then error (Both ErrSettingRequired (Text (category +:+ "." +:+ key))) else ok val.

(** The typed variants parse the text; the wrapped error is that of the parser. *)
Definition required {A} (parse : string → option A) (kind category key : string) : prog A :=
  val <- GetRequired category key ;;
  match parse val with
  | Some a => ok a
  | None => error (Wrapf ("invalid " +:+ kind +:+ " value for " +:+ category +:+ "." +:+ key) (Text "parse"))
  end.

Definition GetRequiredInt := required Atoi "integer".
Definition GetRequiredBool := required ParseBool "boolean".
Definition GetRequiredDuration := required ParseDuration "duration".

(** The default comes back with the error of the lookup, if there is one. *)
Definition or_default {A} (parse : string → option A) (category key : string) (defaultVal : A)
    : svc State (A * option goerr) :=
  sbind (Get category key) (λ r, sret
    match r with
    | inr e => (defaultVal, Some e)
    | inl val => if bool_decide (val = "") then (defaultVal, None) else (default defaultVal (parse val), None)
    end).

Definition GetString := or_default Some.
Definition GetInt := or_default Atoi.
Definition GetBool := or_default ParseBool.
Definition GetDuration := or_default ParseDuration.

Definition set (category key storeValue valueType : string) (encrypted : bool) (now : time) (xid : string) : prog unit :=
  call as_is (on_ops (Ops.SetSetting category key storeValue valueType encrypted now xid)).

Definition SetRaw (category key value valueType : string) (encrypted : bool) (nonce : option (list Z))
    (now : time) (xid : string) : prog unit :=
  storeValue <- (λ s, if encrypted && hasKMS s
                      then call (Wrapf "encrypting setting") (on_kms (λ k, (k, Kms.EncryptString nonce value k))) s
                      else ok value s) ;;
  set category key storeValue valueType encrypted now xid.

Definition Set_ (category key value : string) (encrypted : bool) (nonce : option (list Z)) (now : time) (xid : string)
    : prog unit :=
  storeValue <- (λ s, if encrypted && hasKMS s
                      then call (Wrapf "encrypting setting") (on_kms (λ k, (k, Kms.EncryptString nonce value k))) s
                      else ok value s) ;;
  set category key storeValue "string" encrypted now xid.

Definition SetInt (category key : string) (value : Z) := set category key (Itoa value) "int" false.
Definition SetBool (category key : string) (value : bool) := set category key (FormatBool value) "bool" false.
Definition SetDuration (category key : string) (value : Z) := set category key (Duration_String value) "duration" false.

Definition Delete (category key : string) (now : time) : prog unit :=
  call as_is (on_ops (Ops.DeleteSetting category key now)).

Definition metadata (x : Setting) : SettingMetadata :=
  SettingMetadata.mk x.(Setting.ID) x.(Setting.Category) x.(Setting.Key) x.(Setting.Value) x.(Setting.ValueType)
    x.(Setting.Encrypted) x.(Setting.Description).

Definition listing (l : Ops.State → result (list Setting)) : prog (list SettingMetadata) :=
  settings <- call (Wrapf "listing settings") (ask (λ s, l (ops s))) ;;
  ok (metadata <$> settings).

Definition ListByCategory (category : string) : prog (list SettingMetadata) := listing (Ops.ListSettingsByCategory category).
Definition ListAll : prog (list SettingMetadata) := listing Ops.ListAllSettings.

End settings.
End SettingService.

(** * Secrets as a map of plaintexts *)

Section represents.
Context `{AEAD, MapRange} (masterKey : list Z).
Import SecretService.

(** The text is a ciphertext of [v] under a key of the store. *)
Definition holds (k : Kms.State) (c v : string) : Prop :=
  ∃ key n, Kms.backed masterKey k key ∧ len n = NonceSize ∧ bytes_ok n ∧ c = Kms.versioned_text key n (bytes_of v).

(** The secrets of the store are the ciphertexts of the entries of [m]. *)
Definition represents (s : State) (m : gmap string string) : Prop :=
  ∀ mk, option_Forall2 (λ x v, holds (kms s) (string_of x.(Secret.ValueEncrypted)) v)
          (Projects.secrets (projects s) !! mk) (m !! mk).

(** A key service that works, and secrets filed under their own names. *)
Record sound (s : State) : Prop := {
  sound_kms : hasKMS s = true;
  sound_wf : Kms.wf masterKey (kms s);
  sound_fresh : Kms.fresh_current (kms s);
  sound_keyed : ∀ mk x, Projects.secrets (projects s) !! mk = Some x →
    mk = Projects.secretKey x.(Secret.Project) x.(Secret.Scope) x.(Secret.Key)
}.

(** A later state of the key service over the same secrets. *)
Definition moves (s s' : State) : Prop :=
  ∃ k, s' = {| s with kms := k |} ∧ Kms.wf masterKey k ∧ Kms.fresh_current k ∧ Kms.grows (kms s) k.

Lemma holds_grows k k' c v : Kms.grows k k' → holds k c v → holds k' c v.
Proof.
  intros Hg (key & n & Hb & Hr). exists key, n. split; [by eapply Kms.backed_grows|done].
Qed.

Lemma moves_refl s : sound s → moves s s.
Proof. intros [? Hw Hf ?]. exists (kms s). split_and!; [by destruct s|done..]. Qed.

Lemma moves_sound s s' : sound s → moves s s' → sound s'.
Proof. intros [] (k & -> & Hw & Hf & _). by split. Qed.

Lemma moves_projects s s' : moves s s' → projects s' = projects s.
Proof. by intros (k & -> & _). Qed.

Lemma moves_holds s s' c v : moves s s' → holds (kms s) c v → holds (kms s') c v.
Proof. intros (k & -> & _ & _ & Hg). by apply holds_grows. Qed.

Lemma moves_represents s s' m : moves s s' → represents s m → represents s' m.
Proof.
  intros Hm Hr mk. rewrite (moves_projects _ _ Hm). specialize (Hr mk).
  inversion Hr; constructor. by eapply moves_holds.
Qed.

Lemma kms_moves c s : sound s → Kms.allowed c (kms s) → moves s {| s with kms := Kms.run masterKey c (kms s) |}.
Proof.
  intros [_ Hw Hf _] Ha. destruct (Kms.kms_run_wf masterKey c (kms s) Hw Ha) as [Hw' Hg].
  eexists. split_and!; [done..| |done]. by apply Kms.run_fresh.
Qed.

Lemma encrypt_holds s nonce v c :
  sound s → fresh_nonce nonce → Kms.EncryptString nonce v (kms s) = Ok c → holds (kms s) c v.
Proof.
  intros [_ Hw _ _] Hn (l & key & n & Hl & Hk & _ & -> & ->)%Kms.Encrypt_Ok. destruct (Hn n eq_refl) as [Hlen Hb].
  exists key, n. split; [by eapply Kms.wf_heap|done].
Qed.

Lemma encrypt_total s nonce v : sound s → Kms.EncryptString nonce v (kms s) ≠ Panic.
Proof.
  intros [_ Hw _ _]. unfold Kms.EncryptString, Kms.Encrypt. destruct (Kms.currentKey (kms s)) as [l|] eqn:E; [|done].
  destruct (Kms.wf_current _ _ Hw l E) as [key ->]. destruct (negb _); [done|]. destruct (negb _); [done|]. by destruct nonce.
Qed.

(** What a decryption gives. *)
Definition opens (r : result string) (v : string) : Prop :=
  r = Ok v ∨ ∃ id, r = Err (Errorf ("key " +:+ id +:+ " has been deleted")).

Lemma decrypt_opens s c v :
  sound s → holds (kms s) c v →
  let o := DecryptString masterKey c s in moves s (st o) ∧ opens (ret o) v.
Proof using H0.
  intros Hs (key & n & Hb & Hl & Hn & ->). pose proof (kms_moves (Kms.CDecrypt (Kms.versioned_text key n (bytes_of v))) s Hs I) as Hm.
  destruct (Kms.decrypt_text masterKey (kms s) key n (bytes_of v) (sound_wf s Hs) Hb Hl Hn (bytes_of_ok v)) as (found & _ & Hd).
  unfold DecryptString, on_kms, Kms.DecryptString. cbn [Kms.run] in Hm.
  destruct (Kms.Decrypt masterKey _ (kms s)) as [k r]. cbn in Hd, Hm |- *. subst r. split; [done|].
  case_bool_decide; [right; by eexists|left]. by rewrite string_of_bytes_of.
Qed.

Lemma stored_secrets p sc key b now xid s :
  ∃ x, x.(Secret.ValueEncrypted) = b ∧
    Projects.secrets (projects (st (on_projects (Projects.SetSecretEncrypted p sc key b now xid) s))) =
      <[Projects.secretKey p sc key := x]> (Projects.secrets (projects s)).
Proof.
  unfold on_projects, Projects.SetSecretEncrypted.
  destruct (Projects.secrets (projects s) !! _); cbn; eexists; (split; [|reflexivity]); done.
Qed.

(** Storing a ciphertext of a value. *)
Lemma store_represents s m p sc key v c now xid :
  sound s → represents s m → holds (kms s) c v →
  let o := on_projects (Projects.SetSecretEncrypted p sc key (bytes_of c) now xid) s in
  ret o = Ok tt ∧ kms (st o) = kms s ∧ sound (st o) ∧ represents (st o) (<[Projects.secretKey p sc key := v]> m).
Proof.
  intros [Hk Hw Hf Hkeys] Hr Hh. unfold on_projects, Projects.SetSecretEncrypted.
  set (mk := Projects.secretKey p sc key).
  assert (∀ x, Secret.ValueEncrypted x = bytes_of c → option_Forall2 (λ x v, holds (kms s) (string_of (Secret.ValueEncrypted x)) v)
            (Some x) (Some v)) as Hnew by (intros x Hx; constructor; by rewrite Hx, string_of_bytes_of).
  destruct (Projects.secrets (projects s) !! mk) as [x|] eqn:Ex; cbn; (split_and!; [done..| |]).
  1,3: split; cbn; [done..|]; intros mk' y Hy; apply lookup_insert_Some in Hy as [[<- <-]|[_ Hy]]; [|by apply Hkeys].
  - by apply (Hkeys mk x).
  - done.
  - intros mk'. cbn. destruct (decide (mk = mk')) as [<-|Hne]; [rewrite !lookup_insert_eq; by apply Hnew|].
    rewrite !lookup_insert_ne by done. apply Hr.
  - intros mk'. cbn. destruct (decide (mk = mk')) as [<-|Hne]; [rewrite !lookup_insert_eq; by apply Hnew|].
    rewrite !lookup_insert_ne by done. apply Hr.
Qed.

Lemma requireKMS_ok s : sound s → ret (requireKMS s) = Ok (inl tt).
Proof. intros [Hk _ _ _]. unfold requireKMS. by rewrite Hk. Qed.

(** A call that makes the secrets the entries of [m'], or fails and changes nothing. *)
Definition sets (s : State) (m' : gmap string string) (s' : State) (r : result (unit + goerr)) : Prop :=
  sound s' ∧ kms s' = kms s ∧
  (r = Ok (inl tt) ∧ represents s' m' ∨ (∃ e, r = Ok (inr e)) ∧ s' = s).

Lemma set_spec s m p sc key v nonce now xid :
  sound s → represents s m → fresh_nonce nonce →
  let o := Set_ p sc key v nonce now xid s in sets s (<[Projects.secretKey p sc key := v]> m) (st o) (ret o).
Proof.
  intros Hs Hr Hn. cbv zeta.
  assert (∀ m' e, sets s m' s (Ok (inr e))) as Hno by (intros; split; [done|split; [done|right; eauto]]).
  unfold Set_. pose proof (requireKMS_ok s Hs) as Ek.
  rewrite (st_ebind_inl _ _ _ _ Ek), (ret_ebind_inl _ _ _ _ Ek). cbn [st requireKMS unless ok sret].
  replace (st (requireKMS s)) with s by (unfold requireKMS; by rewrite (sound_kms s Hs)).
  destruct (ValidateKey key) as [e|]; [exact (Hno _ _)|].
  rewrite (st_ebind_inl (ok tt) _ s tt), (ret_ebind_inl (ok tt) _ s tt) by done. cbn [st ok sret].
  unfold unless at 1 3. case_bool_decide; [exact (Hno _ _)|].
  rewrite (st_ebind_inl (ok tt) _ s tt), (ret_ebind_inl (ok tt) _ s tt) by done. cbn [st ok sret].
  unfold unless. case_bool_decide; [exact (Hno _ _)|].
  rewrite (st_ebind_inl (ok tt) _ s tt), (ret_ebind_inl (ok tt) _ s tt) by done. cbn [st ok sret].
  assert (st (EncryptString nonce v s) = s) as Est by by destruct s.
  destruct (Kms.EncryptString nonce v (kms s)) as [c|e|] eqn:Ee.
  - assert (ret (call (Wrapf "encrypting secret") (EncryptString nonce v) s) = Ok (inl c)) as Ec
      by (rewrite ret_call; cbn; by rewrite Ee).
    rewrite (st_ebind_inl _ _ _ _ Ec), (ret_ebind_inl _ _ _ _ Ec), !st_call, ret_call, Est.
    destruct (store_represents s m p sc key v c now xid Hs Hr (encrypt_holds _ _ _ _ Hs Hn Ee)) as (Ho & Hk & Hs' & Hr').
    rewrite Ho. split; [done|]. split; [done|]. by left.
  - assert (ret (call (Wrapf "encrypting secret") (EncryptString nonce v) s) = Ok (inr (Wrapf "encrypting secret" (Store e)))) as Ec
      by (rewrite ret_call; cbn; by rewrite Ee).
    rewrite (st_ebind_inr _ _ _ _ Ec), (ret_ebind_inr _ _ _ _ Ec), st_call, Est. exact (Hno _ _).
  - by apply (encrypt_total s nonce v Hs) in Ee.
Qed.

#[local] Instance secretKey_inj_key p sc : Inj (=) (=) (Projects.secretKey p sc).
Proof.
  intros k k' E. unfold Projects.secretKey in E. by do 4 apply (inj (String.app _)) in E.
Qed.

Lemma foldl_insert_kmap (f : string → string) `{!Inj (=) (=) f} (l : list (string * string)) m :
  NoDup l.*1 → foldl (λ m kv, <[f kv.1 := kv.2]> m) m l = (kmap f (list_to_map l : gmap string string) : gmap string string) ∪ m.
Proof.
  revert m. induction l as [|[k v] l IH]; intros m Hnd; cbn.
  - by rewrite (kmap_empty (M2 := gmap string)), (left_id_L ∅ (∪)).
  - apply NoDup_cons in Hnd as [Hk Hnd]. rewrite IH by done. rewrite (kmap_insert (M2 := gmap string) f).
    rewrite <- insert_union_l, insert_union_r; [done|]. rewrite (lookup_kmap (M2 := gmap string) f).
    by apply not_elem_of_list_to_map_1.
Qed.

Lemma import_loop p sc nonce now xid l i s m :
  sound s → represents s m → (∀ i, fresh_nonce (nonce i)) →
  let o := efor_from i l (λ i kv,
    rewrap (Wrapf ("setting secret " +:+ kv.1)) (Set_ p sc kv.1 kv.2 (nonce i) (now i) (xid i))) s in
  sound (st o) ∧ (ret o = Ok (inl tt) ∧ represents (st o) (foldl (λ m kv, <[Projects.secretKey p sc kv.1 := kv.2]> m) m l) ∨
    (∃ e, ret o = Ok (inr e)) ∧ ∃ l1 l2, l = l1 ++ l2 ∧
       represents (st o) (foldl (λ m kv, <[Projects.secretKey p sc kv.1 := kv.2]> m) m l1)).
Proof.
  intros Hs Hr Hn. revert i s m Hs Hr. induction l as [|[k v] l IH]; intros i s m Hs Hr; cbn [efor_from].
  { split; [done|]. by left. }
  cbv zeta. destruct (set_spec s m p sc k v (nonce i) (now i) (xid i) Hs Hr (Hn i)) as (Hs1 & _ & H1).
  set (body := rewrap _ _). assert (st (body s) = st (Set_ p sc k v (nonce i) (now i) (xid i) s)) as Est.
  { unfold body, rewrap, sbind. cbn. destruct H1 as [[-> _]|[[e ->] _]]; done. }
  destruct H1 as [[E Hr1]|[[e E] Es]].
  - assert (ret (body s) = Ok (inl tt)) as Eb by (unfold body, rewrap, sbind; cbn; by rewrite E).
    rewrite (st_ebind_inl _ _ _ _ Eb), (ret_ebind_inl _ _ _ _ Eb), Est.
    destruct (IH (Datatypes.S i) _ _ Hs1 Hr1) as [Hs' [Hok|(He & l1 & l2 & -> & Hr')]]; (split; [done|]); [by left|right].
    split; [done|]. by exists ((k, v) :: l1), l2.
  - assert (ret (body s) = Ok (inr (Wrapf ("setting secret " +:+ k) e))) as Eb by (unfold body, rewrap, sbind; cbn; by rewrite E).
    rewrite (st_ebind_inr _ _ _ _ Eb), (ret_ebind_inr _ _ _ _ Eb), Est. split; [done|]. right. split; [eauto|].
    rewrite Es. by exists [], ((k, v) :: l).
Qed.

(** The ciphertext is made with the current key. *)
Definition current_text (k : Kms.State) (c : string) : Prop :=
  ∃ l key rest, Kms.currentKey k = Some l ∧ Kms.heap k !! l = Some key ∧ key.(Key.Status) = KeyStatusActive ∧
    c = "v1:" +:+ key.(Key.ID) +:+ ":" +:+ rest.

Lemma extends_trans k1 k2 k3 : Kms.extends k1 k2 → Kms.extends k2 k3 → Kms.extends k1 k3.
Proof. intros (E1 & E2 & E3) (F1 & F2 & F3). split_and!; [congruence..|]. auto. Qed.

Lemma current_extends k k' c : Kms.extends k k' → current_text k c → current_text k' c.
Proof.
  intros (_ & Ec & Eh) (l & key & rest & Hl & Hk & Ha & ->). exists l, key, rest. rewrite Ec.
  split_and!; [done| |done..]. by apply Eh.
Qed.

Lemma reencrypt_spec s nonce c v :
  sound s → fresh_nonce nonce → holds (kms s) c v →
  let o := on_kms (Kms.ReEncrypt masterKey nonce c) s in
  moves s (st o) ∧ Kms.extends (kms s) (kms (st o)) ∧
  match ret o with
  | Ok c' => holds (kms (st o)) c' v ∧ current_text (kms (st o)) c'
  | Err _ => True
  | Panic => False
  end.
Proof using H0.
  intros Hs Hn (key & n & Hb & Hl & Hnb & ->).
  pose proof (kms_moves (Kms.CDecrypt (Kms.versioned_text key n (bytes_of v))) s Hs I) as Hm.
  destruct (Kms.decrypt_text masterKey (kms s) key n (bytes_of v) (sound_wf s Hs) Hb Hl Hnb (bytes_of_ok v)) as (found & _ & Hd).
  destruct (Kms.decrypt_wf masterKey (Kms.versioned_text key n (bytes_of v)) (kms s) (sound_wf s Hs)) as [_ Hx].
  unfold on_kms, Kms.ReEncrypt. cbn [Kms.run] in Hm.
  destruct (Kms.Decrypt masterKey _ (kms s)) as [k r]. cbn in Hd, Hm, Hx |- *. subst r.
  case_bool_decide; [by split_and!|]. cbn. split; [done|]. split; [done|].
  pose proof (moves_sound _ _ Hs Hm) as Hs'.
  destruct (Kms.Encrypt nonce (bytes_of v) k) as [c'|e|] eqn:Ee; [|done|].
  - split; [by apply (encrypt_holds _ nonce v c' Hs' Hn)|].
    apply Kms.Encrypt_Ok in Ee as (l & key' & n' & Hc & Hk & Ha & _ & ->). unfold Kms.versioned_text. by eexists l, key', _.
  - by apply (encrypt_total _ nonce v Hs') in Ee.
Qed.

Abbreviation key_of sec := (Projects.secretKey sec.(Secret.Project) sec.(Secret.Scope) sec.(Secret.Key)).

Lemma turn_spec nonce now xid i sec s m v :
  sound s → represents s m → fresh_nonce (nonce i) →
  m !! key_of sec = Some v → holds (kms s) (string_of sec.(Secret.ValueEncrypted)) v →
  let o := reencrypt_turn masterKey nonce now xid i sec s in
  sound (st o) ∧ represents (st o) m ∧ Kms.extends (kms s) (kms (st o)) ∧
  (ret o = Ok (inl tt) ∧
   (∀ mk, mk ≠ key_of sec → Projects.secrets (projects (st o)) !! mk = Projects.secrets (projects s) !! mk) ∧
   (∃ x c, Projects.secrets (projects (st o)) !! key_of sec = Some x ∧ x.(Secret.ValueEncrypted) = bytes_of c ∧
           current_text (kms (st o)) c) ∨
   ∃ e, ret o = Ok (inr e)).
Proof using H0.
  intros Hs Hr Hn Hm Hh. destruct (reencrypt_spec s (nonce i) _ v Hs Hn Hh) as (Hmv & Hx & Ho). cbv zeta.
  unfold reencrypt_turn. set (rec := on_kms _) in *. set (f := Wrapf ("re-encrypting secret " +:+ _)).
  pose proof (moves_sound _ _ Hs Hmv) as Hs1. pose proof (moves_represents _ _ m Hmv Hr) as Hr1.
  destruct (ret (rec s)) as [c|e|] eqn:Er; [| |done].
  - assert (ret (call f rec s) = Ok (inl c)) as Ec by (by rewrite ret_call, Er). destruct Ho as [Hh' Hcur].
    rewrite (st_ebind_inl _ _ _ _ Ec), (ret_ebind_inl _ _ _ _ Ec), !st_call, ret_call.
    destruct (store_represents (st (rec s)) m (Secret.Project sec) (Secret.Scope sec) (Secret.Key sec) v c (now i) (xid i) Hs1 Hr1 Hh')
      as (E & Ek & Hs2 & Hr2). rewrite E, Ek.
    destruct (stored_secrets (Secret.Project sec) (Secret.Scope sec) (Secret.Key sec) (bytes_of c) (now i) (xid i) (st (rec s)))
      as (x & Hxv & Ex).
    rewrite insert_id in Hr2 by done. split_and!; [done..|]. left. split_and!; [done| |].
    + intros mk Hne. rewrite <- (moves_projects _ _ Hmv), Ex. by rewrite lookup_insert_ne.
    + exists x, c. rewrite Ex, lookup_insert_eq. by split_and!.
  - assert (ret (call f rec s) = Ok (inr (f (Store e)))) as Ec by (by rewrite ret_call, Er).
    rewrite (st_ebind_inr _ _ _ _ Ec), (ret_ebind_inr _ _ _ _ Ec), st_call. split_and!; [done..|]. right. eauto.
Qed.

Lemma reencrypt_loop nonce now xid l i s m :
  sound s → represents s m → (∀ i, fresh_nonce (nonce i)) →
  Forall (λ sec, ∃ v, m !! key_of sec = Some v ∧ holds (kms s) (string_of sec.(Secret.ValueEncrypted)) v) l →
  let o := efor_from i l (reencrypt_turn masterKey nonce now xid) s in
  sound (st o) ∧ represents (st o) m ∧ Kms.extends (kms s) (kms (st o)) ∧
  (ret o = Ok (inl tt) ∧
   (∀ mk x, Projects.secrets (projects (st o)) !! mk = Some x →
      (∃ c, x.(Secret.ValueEncrypted) = bytes_of c ∧ current_text (kms (st o)) c) ∨
      (mk ∉ ((λ sec, key_of sec) <$> l)) ∧ Projects.secrets (projects s) !! mk = Some x) ∨
   ∃ e, ret o = Ok (inr e)).
Proof using H0.
  intros Hs Hr Hn Hl. revert i s Hs Hr Hl. induction l as [|sec l IH]; intros i s Hs Hr Hl; cbn [efor_from].
  { split_and!; [done..|]. left. split; [done|]. intros mk x Hx. right. split; [apply not_elem_of_nil|done]. }
  apply Forall_cons in Hl as [(v & Hv & Hh) Hl]. cbv zeta.
  destruct (turn_spec nonce now xid i sec s m v Hs Hr (Hn i) Hv Hh) as (Hs1 & Hr1 & Hx1 & [(E & Hsame & Hnew)|[e E]]).
  - rewrite (st_ebind_inl _ _ _ _ E), (ret_ebind_inl _ _ _ _ E).
    destruct (IH (Datatypes.S i) _ Hs1 Hr1) as (Hs2 & Hr2 & Hx2 & Ho).
    { eapply Forall_impl; [exact Hl|]. intros sec' (v' & Hv' & Hh'). exists v'. split; [done|].
      eapply holds_grows; [by apply Kms.extends_grows|done]. }
    split_and!; [done..|by eapply extends_trans|]. destruct Ho as [[Eo Ho]|He]; [left|by right].
    split; [done|]. intros mk x Hx. destruct (Ho mk x Hx) as [Hc|[Hni Hx']]; [by left|].
    destruct (decide (mk = key_of sec)) as [->|Hne].
    + destruct Hnew as (y & c & Hy & Hyc & Hcur). left. exists c. assert (x = y) as -> by congruence. split; [done|].
      by eapply current_extends.
    + right. rewrite fmap_cons, not_elem_of_cons. split; [done|]. by rewrite <- Hsame.
  - rewrite (st_ebind_inr _ _ _ _ E), (ret_ebind_inr _ _ _ _ E). split_and!; [done..|]. right. eauto.
Qed.

Lemma represents_lookup s m mk x :
  represents s m → Projects.secrets (projects s) !! mk = Some x →
  ∃ v, m !! mk = Some v ∧ holds (kms s) (string_of x.(Secret.ValueEncrypted)) v.
Proof. intros Hr Hx. specialize (Hr mk). rewrite Hx in Hr. inversion Hr; subst. eauto. Qed.

Lemma get_spec s m p sc key :
  sound s → represents s m →
  let o := Get masterKey p sc key s in
  moves s (st o) ∧
  (ret o = Ok (inl (default "" (m !! Projects.secretKey p sc key))) ∨
   ∃ id, ret o = Ok (inr (Wrapf "decrypting secret" (Store (Errorf ("key " +:+ id +:+ " has been deleted")))))).
Proof using H0.
  intros Hs Hr. cbv zeta. pose proof (requireKMS_ok s Hs) as Ek. unfold Get.
  rewrite (st_ebind_inl _ _ _ _ Ek), (ret_ebind_inl _ _ _ _ Ek).
  replace (st (requireKMS s)) with s by (unfold requireKMS; by rewrite (sound_kms s Hs)).
  unfold fetch, sbind, Projects.GetSecret. cbn [st ret].
  destruct (Projects.secrets (projects s) !! _) as [x|] eqn:Ex.
  - destruct (represents_lookup s m _ x Hr Ex) as (v & Hv & Hh). rewrite Hv.
    destruct (decrypt_opens s _ v Hs Hh) as [Hm Ho]. rewrite st_call, ret_call. split; [done|].
    destruct Ho as [->|[id ->]]; [by left|right]. by exists id.
  - cbn. specialize (Hr (Projects.secretKey p sc key)). rewrite Ex in Hr. inversion Hr as [|Hm]. 
    split; [by apply moves_refl|]. by left.
Qed.

Lemma delete_spec s m p sc key now :
  sound s → represents s m →
  let o := Delete p sc key now s in
  sound (st o) ∧ match ret o with
                 | Ok (inl _) => represents (st o) (delete (Projects.secretKey p sc key) m)
                 | Ok (inr _) => st o = s
                 | _ => False
                 end.
Proof.
  intros Hs Hr. unfold Delete, ebind, sbind. destruct (deletion_error _) as [e|]; cbn; [done|].
  destruct Hs as [Hk Hw Hf Hkeys]. split.
  - split; cbn; [done..|]. intros mk x Hx%lookup_delete_Some. apply Hkeys, Hx.
  - intros mk. cbn. destruct (decide (Projects.secretKey p sc key = mk)) as [<-|Hne].
    + rewrite !lookup_delete_eq. constructor.
    + rewrite !lookup_delete_ne by done. apply Hr.
Qed.

Lemma import_spec s m p sc new nonce now xid :
  sound s → represents s m → (∀ i, fresh_nonce (nonce i)) →
  let o := Import p sc new nonce now xid s in
  sound (st o) ∧ (ret o = Ok (inl tt) ∧ represents (st o) (kmap (Projects.secretKey p sc) new ∪ m) ∨ ∃ e, ret o = Ok (inr e)).
Proof.
  intros Hs Hr Hn. destruct (import_loop p sc nonce now xid (range new) 0 s m Hs Hr Hn) as [Hs' Ho]. split; [done|].
  destruct Ho as [[E Hr']|[He _]]; [left|by right]. split; [done|]. rewrite (foldl_insert_kmap (Projects.secretKey p sc)) in Hr' by apply range_NoDup_keys.
  replace (list_to_map (range new) : gmap string string) with new in Hr'; [done|].
  rewrite <- (list_to_map_to_list new) at 1. symmetry. apply list_to_map_proper; [apply range_NoDup_keys|apply range_perm].
Qed.

Lemma reencrypt_all_spec s m nonce now xid :
  sound s → represents s m → (∀ i, fresh_nonce (nonce i)) →
  let o := ReEncryptAll masterKey nonce now xid s in
  sound (st o) ∧ represents (st o) m ∧
  (ret o = Ok (inl tt) ∧
   map_Forall (λ _ x, ∃ c, x.(Secret.ValueEncrypted) = bytes_of c ∧ current_text (kms (st o)) c)
     (Projects.secrets (projects (st o))) ∨
   ∃ e, ret o = Ok (inr e)).
Proof.
  intros Hs Hr Hn. cbv zeta. pose proof (requireKMS_ok s Hs) as Ek. unfold ReEncryptAll.
  rewrite (st_ebind_inl _ _ _ _ Ek), (ret_ebind_inl _ _ _ _ Ek).
  replace (st (requireKMS s)) with s by (unfold requireKMS; by rewrite (sound_kms s Hs)).
  set (l := range_values (Projects.secrets (projects s))).
  rewrite (st_ebind_inl _ _ s l), (ret_ebind_inl _ _ s l) by done. rewrite st_call. cbn [ask st].
  destruct (reencrypt_loop nonce now xid l 0 s m Hs Hr Hn) as (Hs' & Hr' & _ & Ho).
  { apply Forall_forall. intros sec [mk Hx]%elem_of_range_values. rewrite <- (sound_keyed s Hs mk sec Hx).
    by apply represents_lookup. }
  split_and!; [done..|]. destruct Ho as [[E Ho]|He]; [left|by right]. split; [done|]. intros mk x Hx.
  destruct (Ho mk x Hx) as [Hc|[Hni Hx']]; [done|]. destruct Hni. apply list_elem_of_fmap. exists x.
  split; [by apply (sound_keyed s Hs)|]. apply elem_of_range_values. eauto.
Qed.

(** C38: the secrets are a map from names to texts that the service keeps encrypted:
    [Set], [Import] and [Delete] do to the map what they say, or fail; [Get] reads the map,
    or reports that the key of the secret has been deleted; no call of the key service and no
    re-encryption, complete or not, changes the map, and after a complete one every
    secret is under the current key. *)
Theorem secrets_refine_map s m :
  sound s → represents s m →
  (∀ p sc key v nonce now xid, fresh_nonce nonce →
     let o := Set_ p sc key v nonce now xid s in sets s (<[Projects.secretKey p sc key := v]> m) (st o) (ret o)) ∧
  (∀ p sc new nonce now xid, (∀ i, fresh_nonce (nonce i)) →
     let o := Import p sc new nonce now xid s in
     sound (st o) ∧
     (ret o = Ok (inl tt) ∧ represents (st o) (kmap (Projects.secretKey p sc) new ∪ m) ∨ ∃ e, ret o = Ok (inr e))) ∧
  (∀ p sc key now, let o := Delete p sc key now s in
     sound (st o) ∧ match ret o with
                    | Ok (inl _) => represents (st o) (delete (Projects.secretKey p sc key) m)
                    | Ok (inr _) => st o = s
                    | _ => False
                    end) ∧
  (∀ p sc key, let o := Get masterKey p sc key s in
     sound (st o) ∧ represents (st o) m ∧
     (ret o = Ok (inl (default "" (m !! Projects.secretKey p sc key))) ∨
      ∃ id, ret o = Ok (inr (Wrapf "decrypting secret" (Store (Errorf ("key " +:+ id +:+ " has been deleted"))))))) ∧
  (∀ c, Kms.allowed c (kms s) → let s' := {| s with kms := Kms.run masterKey c (kms s) |} in
     sound s' ∧ represents s' m) ∧
  (∀ nonce now xid, (∀ i, fresh_nonce (nonce i)) →
     let o := ReEncryptAll masterKey nonce now xid s in
     sound (st o) ∧ represents (st o) m ∧
     (ret o = Ok (inl tt) ∧
      map_Forall (λ _ x, ∃ c, x.(Secret.ValueEncrypted) = bytes_of c ∧ current_text (kms (st o)) c)
        (Projects.secrets (projects (st o))) ∨
      ∃ e, ret o = Ok (inr e))).
Proof.
  intros Hs Hr. split_and!.
  - intros. by apply set_spec.
  - intros. by apply import_spec.
  - intros. by apply delete_spec.
  - intros p sc key. destruct (get_spec s m p sc key Hs Hr) as [Hm Ho]. cbv zeta.
    split; [by eapply moves_sound|]. split; [by eapply moves_represents|done].
  - intros c Ha. pose proof (kms_moves c s Hs Ha) as Hm. split; [by eapply moves_sound|by eapply moves_represents].
  - intros. by apply reencrypt_all_spec.
Qed.

End represents.

(** * The env file *)

Section envfile.
Context `{MapRange}.
Import SecretService.

Definition backslash_char : Ascii.ascii := Ascii.ascii_of_nat 92.
Definition quote_mark : Ascii.ascii := Ascii.ascii_of_nat 34.
Definition letter_n : Ascii.ascii := Ascii.ascii_of_nat 110.
Definition equals_sign : Ascii.ascii := Ascii.ascii_of_nat 61.

(** The text up to the closing quote, which must be the last character. *)
Fixpoint unquote (s : string) : option string :=
  match s with
  | "" => None
  | String c s' =>
      if Ascii.eqb c quote_mark then (if bool_decide (s' = "") then Some "" else None)
      else if Ascii.eqb c backslash_char then
        match s' with
        | "" => None
        | String d r => String (if Ascii.eqb d letter_n then newline else d) <$> unquote r
        end
      else String c <$> unquote s'
  end.

(** A reader of env files: a name, an equals sign and a quoted value on each line. *)
Definition read_line (line : string) : option (string * string) :=
  match cut equals_sign line with
  | (key, Some (String q rest)) => if Ascii.eqb q quote_mark then pair key <$> unquote rest else None
  | _ => None
  end.
Definition read_env (text : string) : gmap string string := list_to_map (omap read_line (split_on newline text)).

(** What one character becomes. *)
Definition escaped_char (c : Ascii.ascii) : string :=
  if Ascii.eqb c backslash_char then backslash +:+ backslash
  else if Ascii.eqb c quote_mark then backslash +:+ double_quote
  else if Ascii.eqb c newline then backslash +:+ "n"
  else String c "".

Fixpoint escape_chars (s : string) : string :=
  match s with "" => "" | String c s' => escaped_char c +:+ escape_chars s' end.

Lemma escape_spec s : escape s = escape_chars s.
Proof.
  unfold escape, backslash, double_quote, newline_text. induction s as [|c s IH]; [done|].
  cbn [escape_chars]. rewrite <- IH. rewrite ReplaceAll_char, !ReplaceAll_app. f_equal.
  unfold escaped_char. destruct (Ascii.eqb_spec c (Ascii.ascii_of_nat 92)) as [->|H92]; [done|].
  rewrite ReplaceAll_char, (ReplaceAll_app _ _ _ (ReplaceAll "" _ _)).
  destruct (Ascii.eqb_spec c backslash_char) as [->|_]; [done|]. unfold quote_mark.
  destruct (Ascii.eqb_spec c (Ascii.ascii_of_nat 34)) as [->|H34]; [done|].
  rewrite ReplaceAll_char. by destruct (Ascii.eqb c newline).
Qed.

Lemma unquote_escape s : unquote (escape_chars s +:+ double_quote) = Some s.
Proof.
  induction s as [|c s IH]; [done|]. cbn [escape_chars]. rewrite app_assoc_string. unfold escaped_char.
  set (tail := escape_chars s +:+ double_quote) in *.
  destruct (Ascii.eqb_spec c backslash_char) as [->|Hb].
  { change (String backslash_char <$> unquote tail = Some (String backslash_char s)). by rewrite IH. }
  destruct (Ascii.eqb_spec c quote_mark) as [->|Hq].
  { change (String quote_mark <$> unquote tail = Some (String quote_mark s)). by rewrite IH. }
  destruct (Ascii.eqb_spec c newline) as [->|Hn].
  { change (String newline <$> unquote tail = Some (String newline s)). by rewrite IH. }
  change (String c "" +:+ tail) with (String c tail). cbn [unquote].
  apply Ascii.eqb_neq in Hq as ->, Hb as ->. by rewrite IH.
Qed.

Lemma escape_no_newline s : free_of newline (escape_chars s) = true.
Proof.
  induction s as [|c s IH]; [done|]. cbn [escape_chars]. rewrite free_of_chars, all_chars_app, <- !free_of_chars, IH, andb_true_r.
  unfold escaped_char. destruct (Ascii.eqb_spec c backslash_char) as [->|_]; [done|].
  destruct (Ascii.eqb_spec c quote_mark) as [->|_]; [done|].
  destruct (Ascii.eqb_spec c newline) as [->|Hn]; [done|]. by apply free_of_cons.
Qed.

Lemma valid_key_chars key c : ValidateKey key = None → (is_upper c || is_digit c || one_of "_" c) = false → free_of c key = true.
Proof.
  unfold ValidateKey. case_bool_decide; [done|]. destruct (64 <? _); [done|].
  destruct (MatchString keyPattern key) eqn:E; [|done]. intros _ Hc.
  apply headed_spec in E as (d & s' & -> & Hd & Hs & _). rewrite free_of_chars. cbn [all_chars]. apply andb_true_iff. split.
  - apply negb_true_iff, Ascii.eqb_neq. intros ->. by rewrite Hd in Hc.
  - eapply all_chars_impl; [|exact Hs]. intros e He. apply negb_true_iff, Ascii.eqb_neq. intros ->. cbn in He. congruence.
Qed.

Lemma read_env_line kv : ValidateKey kv.1 = None → read_line (env_line kv) = Some kv ∧ free_of newline (env_line kv) = true.
Proof.
  intros Hv. destruct kv as [k v]. cbn [fst snd env_line] in *. unfold env_line. cbn [fst snd]. rewrite escape_spec. split.
  - unfold read_line. change ("=" +:+ ?x) with (String equals_sign x). rewrite cut_app by by apply valid_key_chars.
    change ((pair k <$> unquote (escape_chars v +:+ double_quote)) = Some (k, v)). by rewrite unquote_escape.
  - rewrite free_of_chars, !all_chars_app, <- !free_of_chars, escape_no_newline. by rewrite valid_key_chars.
Qed.

Lemma read_env_lines l :
  Forall (λ kv, ValidateKey kv.1 = None) l → omap read_line (split_on newline (GoStrings.Join (env_line <$> l) newline_text)) = l.
Proof.
  unfold GoStrings.Join. induction 1 as [|kv l Hv _ IH]; [done|]. destruct (read_env_line kv Hv) as [Hr Hf].
  destruct l as [|kv' l].
  - cbn [fmap list_fmap String.concat]. rewrite split_on_free by done. cbn [omap list_omap]. by rewrite Hr.
  - rewrite fmap_cons. change (String.concat newline_text (env_line kv :: (env_line <$> kv' :: l)))
      with (env_line kv +:+ String newline (String.concat newline_text (env_line <$> kv' :: l))).
    rewrite split_on_cons by done. cbn [omap list_omap]. rewrite Hr. f_equal. exact IH.
Qed.

(** an exported env file, whatever the order of its lines, read with the quoting undone
    gives the secrets back: names that the service accepts hold no separator, and values
    are escaped so that each stays on its line between its quotes. *)
Theorem env_file_roundtrip `{AEAD} (masterKey : list Z) p sc s (m : gmap string string) :
  ret (Export masterKey p sc s) = Ok (inl m) → map_Forall (λ key _, ValidateKey key = None) m →
  ∃ text, ret (ExportEnvFile masterKey p sc s) = Ok (inl text) ∧ read_env text = m.
Proof.
  intros Ho Hm. exists (GoStrings.Join (env_line <$> range m) newline_text). split.
  { unfold ExportEnvFile. by rewrite (ret_ebind_inl _ _ _ _ Ho). }
  unfold read_env. rewrite read_env_lines.
  - rewrite <- (list_to_map_to_list m) at 2. apply list_to_map_proper; [apply range_NoDup_keys|apply range_perm].
  - apply Forall_forall. intros [k v] Hk%elem_of_range. by apply (Hm k v).
Qed.

End envfile.

(** * Settings as text *)

Lemma split_sign_digits s : all_chars is_digit s = true → split_sign s = (1, s).
Proof.
  destruct s as [|c s]; [done|]. cbn [all_chars split_sign]. intros [Hc _]%andb_true_iff.
  unfold is_digit in Hc. apply andb_true_iff in Hc as [H1%Nat.leb_le H2%Nat.leb_le].
  by rewrite (proj2 (Nat.eqb_neq _ 45)), (proj2 (Nat.eqb_neq _ 43)) by lia.
Qed.

Lemma Atoi_Itoa z : in_int64 z → Atoi (Itoa z) = Some z ∧ Itoa z ≠ "".
Proof.
  intros [Hl Hu]. unfold in_int64 in *.
  assert (∀ x, all_chars is_digit (pretty x) = true ∧ pretty x ≠ "" ∧ scan_digits None (pretty x) = Some (Z.of_N x)) as Hx
    by apply pretty_N_digits.
  assert (∀ x : N, in_int64 (Z.of_N x) → Atoi (pretty x) = Some (Z.of_N x)) as Hpos.
  { intros x [Hxl Hxu]. destruct (Hx x) as (Hd & Hne & Hs). unfold Atoi. rewrite split_sign_digits by done.
    rewrite bool_decide_false, Hd, Hs by done. by rewrite !Z.mul_1_l, (proj2 (Z.leb_le _ _) Hxl), (proj2 (Z.leb_le _ _) Hxu). }
  destruct z as [|x|x].
  - done.
  - change (Itoa (Z.pos x)) with (pretty (Npos x)). split; [by apply (Hpos (Npos x))|by destruct (Hx (Npos x)) as (_ & ? & _)].
  - change (Itoa (Z.neg x)) with (String (Ascii.ascii_of_nat 45) (pretty (Npos x))). split; [|done].
    destruct (Hx (Npos x)) as (Hd & Hne & Hs). unfold Atoi. cbn [split_sign].
    change (Ascii.nat_of_ascii (Ascii.ascii_of_nat 45) =? 45)%nat with true. cbn iota zeta.
    rewrite bool_decide_false, Hd, Hs by done. change (-1 * Z.of_N (N.pos x)) with (Z.neg x).
    by rewrite (proj2 (Z.leb_le _ _) Hl), (proj2 (Z.leb_le _ _) Hu).
Qed.

Lemma ParseBool_FormatBool b : ParseBool (FormatBool b) = Some b ∧ FormatBool b ≠ "".
Proof. by destruct b. Qed.

Section settings.
Context `{AEAD, MapRange, DurationText} (masterKey : list Z).
Import SettingService.

(** The key service, if there is one, works. *)
Definition works (s : State) : Prop := hasKMS s = true → Kms.wf masterKey (kms s) ∧ Kms.fresh_current (kms s).

Lemma set_setting c k v t enc now xid s :
  ret (set c k v t enc now xid s) = Ok (inl tt) ∧ kms (st (set c k v t enc now xid s)) = kms s ∧
  hasKMS (st (set c k v t enc now xid s)) = hasKMS s ∧
  ∃ x, Ops.GetSetting c k (ops (st (set c k v t enc now xid s))) = Ok x ∧ x.(Setting.Value) = v ∧ x.(Setting.Encrypted) = enc.
Proof.
  unfold set, call, on_ops, Ops.SetSetting, Ops.GetSetting. cbn.
  destruct (Ops.settings (ops s) !! Ops.settingKey c k); cbn; rewrite lookup_insert_eq; (split_and!; [done..|]); eexists; by split_and!.
Qed.

Lemma get_plain c k v t now xid s : Get masterKey c k (st (set c k v t false now xid s)) = ok v (st (set c k v t false now xid s)).
Proof.
  destruct (set_setting c k v t false now xid s) as (_ & _ & _ & x & Hx & Hv & He). unfold Get. by rewrite Hx, He, Hv.
Qed.

(** The value that goes into the store. *)
Lemma set_raw_spec c k v t enc nonce now xid s :
  works s → fresh_nonce nonce → let o := SetRaw c k v t enc nonce now xid s in
  ret o = Ok (inl tt) → ret (Get masterKey c k (st o)) = Ok (inl v).
Proof using H0.
  intros Hw Hn o Ho. unfold o, SetRaw in *. destruct (enc && hasKMS s) eqn:Eb.
  - apply andb_true_iff in Eb as [-> Ek]. destruct (Hw Ek) as [Hwf Hf].
    apply ebind_Ok in Ho as (c0 & Hc & Ho). cbn [andb] in *. rewrite Ek in Hc.
    rewrite (st_ebind_inl _ _ s c0) by (cbn [andb]; by rewrite Ek). cbn [andb]. rewrite Ek.
    apply call_Ok in Hc. cbn in Hc. rewrite st_call. change (st (on_kms _ s)) with {| s with kms := kms s |}.
    replace {| s with kms := kms s |} with s by by destruct s.
    destruct (set_setting c k c0 t true now xid s) as (_ & Ekms & Ehas & x & Hx & Hv & He).
    unfold Get. rewrite Hx. cbn iota. rewrite He, Ehas, Ek. cbn [andb]. rewrite ret_call, Hv. unfold on_kms. rewrite Ekms.
    destruct (Kms.EncryptString nonce v (kms s)) as [c1|?|] eqn:E; [|done..]. injection Hc as <-.
    apply Kms.Encrypt_Ok in E as (l & key & n & Hl & Hk & Ha & -> & ->). destruct (Hn n eq_refl) as [Hlen Hb].
    destruct (Kms.decrypt_text masterKey (kms s) key n (bytes_of v) Hwf) as (found & Hfd & Hd);
      [by eapply Kms.wf_heap|done|done|apply bytes_of_ok|]. unfold Kms.DecryptString.
    destruct (Kms.Decrypt masterKey _ (kms s)) as [k1 r]. cbn in Hd |- *. subst r.
    rewrite bool_decide_false; [by rewrite string_of_bytes_of|]. by rewrite (Kms.finds_active (kms s) l key found).
  - rewrite (st_ebind_inl _ _ s v) by by rewrite Eb. rewrite Eb. cbn [st ok sret].
    destruct (set_setting c k v t enc now xid s) as (_ & _ & Eh & x & Hx & Hv & He). unfold Get. by rewrite Hx, He, Eh, Eb, Hv.
Qed.

Lemma typed_read {A} (text : string) (parse : string → option A) (a d : A) kind c k t now xid s :
  parse text = Some a ∧ text ≠ "" →
  let o := set c k text t false now xid s in
  ret o = Ok (inl tt) ∧ ret (or_default masterKey parse c k d (st o)) = Ok (a, None) ∧
  ret (required masterKey parse kind c k (st o)) = Ok (inl a).
Proof.
  intros [Hp Hne]. destruct (set_setting c k text t false now xid s) as (Ho & _). split; [done|].
  unfold or_default, required, GetRequired, ebind, sbind. rewrite get_plain. cbn.
  rewrite bool_decide_false by done. cbn. by rewrite Hp.
Qed.

(** a setting reads back as it was written: a text, also when it is encrypted; an
    integer, a truth value and a duration through their texts, by the variants with a
    default and by the required ones. *)
Theorem settings_roundtrip c k now xid s :
  works s →
  (∀ v t enc nonce, fresh_nonce nonce →
     (let o := Set_ c k v enc nonce now xid s in ret o = Ok (inl tt) → ret (Get masterKey c k (st o)) = Ok (inl v)) ∧
     (let o := SetRaw c k v t enc nonce now xid s in ret o = Ok (inl tt) → ret (Get masterKey c k (st o)) = Ok (inl v))) ∧
  (∀ z d, in_int64 z → let o := SetInt c k z now xid s in
     ret o = Ok (inl tt) ∧ ret (GetInt masterKey c k d (st o)) = Ok (z, None) ∧
     ret (GetRequiredInt masterKey c k (st o)) = Ok (inl z)) ∧
  (∀ b d, let o := SetBool c k b now xid s in
     ret o = Ok (inl tt) ∧ ret (GetBool masterKey c k d (st o)) = Ok (b, None) ∧
     ret (GetRequiredBool masterKey c k (st o)) = Ok (inl b)) ∧
  (∀ z d, in_int64 z → let o := SetDuration c k z now xid s in
     ret o = Ok (inl tt) ∧ ret (GetDuration masterKey c k d (st o)) = Ok (z, None) ∧
     ret (GetRequiredDuration masterKey c k (st o)) = Ok (inl z)).
Proof using H0.
  intros Hw. split_and!.
  - intros v t enc nonce Hn. split; [by apply (set_raw_spec c k v "string")|by apply set_raw_spec].
  - intros z d Hz. by apply typed_read, Atoi_Itoa.
  - intros b d. apply typed_read, ParseBool_FormatBool.
  - intros z d Hz. apply typed_read. split; [by apply parse_duration_string|apply duration_string_nonempty].
Qed.

(** A setting that should be encrypted is stored as it is when there is no key service,
    and marked as encrypted; a server with a key service then cannot read it. *)
Theorem encrypted_without_kms c k v nonce now xid s kms' :
  hasKMS s = false → Kms.split4 v = None →
  let o := Set_ c k v true nonce now xid s in
  ret o = Ok (inl tt) ∧ ret (Get masterKey c k (st o)) = Ok (inl v) ∧
  (∃ x, Ops.GetSetting c k (ops (st o)) = Ok x ∧ x.(Setting.Value) = v ∧ x.(Setting.Encrypted) = true) ∧
  let s' := mkState true kms' (ops (st o)) in
  ret (Get masterKey c k s') = Ok (inr (Wrapf "decrypting setting" (Store (Errorf "invalid ciphertext format")))).
Proof.
  intros Hk Hv o. unfold o, Set_. rewrite (st_ebind_inl _ _ s v), (ret_ebind_inl _ _ s v) by (cbn [andb]; by rewrite Hk).
  cbn [andb]. rewrite Hk. cbn [st ok sret].
  destruct (set_setting c k v "string" true now xid s) as (Ho & _ & Eh & x & Hx & Hxv & He).
  split; [done|]. split; [unfold Get; by rewrite Hx, He, Eh, Hk, Hxv|]. split; [by eexists|].
  unfold Get. cbn [ops hasKMS]. rewrite Hx, He, Hxv. cbn [andb]. unfold call, on_kms, Kms.DecryptString, Kms.Decrypt. cbn.
  by rewrite Hv.
Qed.

End settings.

(** * Witnesses *)

Section demo.
#[local] Existing Instance Kms.checksum_aead.
#[local] Existing Instance range_in_key_order.
#[local] Instance toy_durations : DurationText.
Proof.
  refine {| Duration_String d := String newline (Itoa d);
            ParseDuration s := match s with String _ r => Atoi r | "" => None end |}; [|done].
  intros d Hd. apply (Atoi_Itoa d Hd).
Defined.

Definition demo_secrets : SecretService.State := SecretService.mkState true Kms.demo Projects.empty Recipes.empty.

Lemma demo_secrets_sound : sound Kms.demo_master demo_secrets ∧ represents Kms.demo_master demo_secrets ∅.
Proof.
  split.
  - split; [done|apply Kms.demo_wf..|]. intros mk x Hx. cbn in Hx. by rewrite lookup_empty in Hx.
  - intros mk. cbn. rewrite !lookup_empty. constructor.
Qed.

Definition demo_set : Outcome SecretService.State (unit + goerr) :=
  SecretService.Set_ "web" "prod" "DB_URL" "pg://u:p@h" (Some (Kms.demo_nonce 7)) 5 "s1" demo_secrets.

Lemma demo_set_ok : ret demo_set = Ok (inl tt).
Proof. vm_compute. reflexivity. Qed.

Lemma secrets_refine_map_witness :
  represents Kms.demo_master (st demo_set) (<["web:prod:DB_URL" := "pg://u:p@h"]> ∅).
Proof.
  destruct (proj1 (secrets_refine_map Kms.demo_master demo_secrets ∅ (proj1 demo_secrets_sound) (proj2 demo_secrets_sound))
    "web" "prod" "DB_URL" "pg://u:p@h" (Some (Kms.demo_nonce 7)) 5 "s1" ltac:(by apply Kms.fresh_demo_nonce))
    as (_ & _ & [[_ Hr]|[[e He] _]]); [exact Hr|].
  pose proof demo_set_ok as Ho. unfold demo_set in Ho. congruence.
Defined.

Definition demo_map : gmap string string := {[ "DB_URL" := "pg://u:p@h" ]}.

Lemma demo_export : ret (SecretService.Export Kms.demo_master "web" "prod" (st demo_set)) = Ok (inl demo_map).
Proof. vm_compute. reflexivity. Qed.

Lemma env_file_roundtrip_witness :
  ∃ text, ret (SecretService.ExportEnvFile Kms.demo_master "web" "prod" (st demo_set)) = Ok (inl text) ∧ read_env text = demo_map.
Proof.
  apply (env_file_roundtrip Kms.demo_master "web" "prod" (st demo_set) demo_map demo_export).
  apply map_Forall_singleton. vm_compute. reflexivity.
Defined.

Definition demo_settings : SettingService.State := SettingService.mkState true Kms.demo Ops.empty.

Lemma demo_works : works Kms.demo_master demo_settings.
Proof. intros _. apply Kms.demo_wf. Qed.

Lemma settings_roundtrip_witness :
  ret (SettingService.GetInt Kms.demo_master "server" "port" 0
         (st (SettingService.SetInt "server" "port" (-8443) 5 "x" demo_settings))) = Ok (-8443, None).
Proof.
  exact (proj1 (proj2 (proj1 (proj2 (settings_roundtrip Kms.demo_master "server" "port" 5 "x" demo_settings demo_works))
    (-8443) 0 ltac:(by vm_compute)))).
Defined.

Lemma encrypted_without_kms_witness :
  let o := SettingService.Set_ "smtp" "password" "hunter2" true None 5 "x" (SettingService.mkState false Kms.demo Ops.empty) in
  ret (SettingService.Get Kms.demo_master "smtp" "password" (SettingService.mkState true Kms.demo (SettingService.ops (st o)))) =
    Ok (inr (Wrapf "decrypting setting" (Store (Errorf "invalid ciphertext format")))).
Proof.
  exact (proj2 (proj2 (proj2 (encrypted_without_kms Kms.demo_master "smtp" "password" "hunter2" None 5 "x"
    (SettingService.mkState false Kms.demo Ops.empty) Kms.demo ltac:(reflexivity) ltac:(vm_compute; reflexivity))))).
Defined.

End demo.
