(* ===== verification/AgentServer.v ===== *)
(** The gRPC service of the agents ([src/internal/server/grpc_agent.go], [grpc_reauth.go]),
    call by call: registration with its tokens, the check of the client's certificate,
    heartbeats, the trust bundle, the messages of a stream, the transfer of a repository
    with its receiver ([src/internal/agent/archive.go]), and re-authentication; with the
    certificate audit log ([src/internal/security/audit.go]).  The connections and their
    interleavings are in [AgentConn].

    The store is the one inside the certificate authority ([Certificates.CA]), with the
    parts for agents and deployments beside it.  Log messages, metrics and alerts are left
    out, and so are the queued writes, which are those of the store methods.  What comes
    from the network, the clock, the random generators and the file system is an argument. *)

From stdpp Require Import pretty.
From S2P Require Import GoStrings GoTime GoSort StoreBase ServiceBase ServiceErrors Models MemAgents MemDeployments.
From S2P Require Import Services Formats Crypto SecurityModels MemSecurity KeyManagement Certificates.

#[local] Open Scope string_scope.
#[local] Open Scope list_scope.
#[local] Open Scope Z_scope.

(** The seconds of the Unix epoch. *)
Definition unix_epoch : Z := 62135596800.
Definition Unix (t : time) : Z := t / Second - unix_epoch.
Definition is_inl {A B} (x : A + B) : Prop := match x with inl _ => True | inr _ => False end.
Definition time_Unix (sec : Z) : time := (sec + unix_epoch) * Second.

(** * The certificate audit log *)

Module CertAuditor.

Definition save (typ agentID hostname serial caID reason requestedBy clientIP : string) (now now' : time) (xid : string)
    (s : Security.State) : Outcome Security.State string :=
  Security.SaveCertAuditEvent (CertAuditEvent.mk "" now typ agentID hostname serial caID reason requestedBy clientIP) now' xid s.

Definition LogIssued (agentID serial caID requestedBy clientIP : string) :=
  save CertAuditEventIssued agentID "" serial caID "" requestedBy clientIP.
Definition LogServerCertIssued (hostname serial caID requestedBy : string) :=
  save CertAuditEventIssued "" hostname serial caID "" requestedBy "".
Definition LogRevoked (agentID serial caID reason requestedBy : string) :=
  save CertAuditEventRevoked agentID "" serial caID reason requestedBy "".
Definition LogRenewed (agentID serial caID requestedBy clientIP : string) :=
  save CertAuditEventRenewed agentID "" serial caID "" requestedBy clientIP.
Definition LogRejected (agentID caID reason requestedBy clientIP : string) :=
  save CertAuditEventRejected agentID "" "" caID reason requestedBy clientIP.
Definition LogExpired (agentID serial caID : string) :=
  save CertAuditEventExpired agentID "" serial caID "" "system" "".
Definition LogACMEObtained (domain serial issuer : string) :=
  save CertAuditEventACMEObtained "" domain serial "" ("issuer=" +:+ issuer) "acme" "".
Definition LogACMERenewed (domain serial issuer : string) :=
  save CertAuditEventACMERenewed "" domain serial "" ("issuer=" +:+ issuer) "acme" "".
Definition LogACMEFailed (domain : string) (err : gerror) :=
  save CertAuditEventACMEFailed "" domain "" "" (error_text err) "acme" "".

Definition GetEvents (filter : CertAuditFilter) (s : Security.State) := Security.ListCertAuditEvents filter s.
Definition GetEventsByAgent (agentID : string) (limit : Z) (s : Security.State) :=
  Security.ListCertAuditEvents (CertAuditFilter.mk agentID "" None None limit 0) s.
Definition GetRecentEvents (since : time) (limit : Z) (s : Security.State) :=
  Security.ListCertAuditEvents (CertAuditFilter.mk "" "" (Some since) None limit 0) s.

End CertAuditor.

(** * Calls *)

Inductive code :=
| InvalidArgument | NotFound_ | Internal_ | PermissionDenied | Unauthenticated | Unavailable | FailedPrecondition | Unimplemented.

(** [status.Error]; other errors of a handler are [Plain]. *)
Inductive status :=
| Status (c : code) (message : string)
| Plain (message : string).

(** What the connection tells of the client: no peer, no TLS, or the common names of its
    certificates. *)
Inductive peer :=
| NoPeer
| NoTLS
| TLS (names : list string).

Definition extractAgentIDFromCert (p : peer) : string :=
  match p with TLS (name :: _) => name | _ => "" end.

Definition verifyAgentCert (p : peer) (claimedAgentID : string) : option status :=
  let certAgentID := extractAgentIDFromCert p in
  if negb (bool_decide (certAgentID = "")) && negb (bool_decide (certAgentID = claimedAgentID))
  then Some (Status PermissionDenied ("agent ID mismatch: certificate says " +:+ certAgentID +:+ ", request says " +:+ claimedAgentID))
  else None.

Module RegisterRequest.
Record RegisterRequest := mk {
  AgentId : string; Token : string; Hostname : string; Labels : option (gmap string string);
  Capabilities : option string (* as JSON, if it can be written *)
}.
End RegisterRequest.
Abbreviation RegisterRequest := RegisterRequest.RegisterRequest.

Module RegisterResponse.
Record RegisterResponse := mk {
  Success : bool; Error : string; Certificate : string; CaCertificate : string; HmacSecret : list Z
}.
End RegisterResponse.
Abbreviation RegisterResponse := RegisterResponse.RegisterResponse.

(** [DeploymentState] and [LogLevel] of the protocol. *)
Inductive DeploymentState :=
| STATE_UNSPECIFIED | STATE_PENDING | STATE_PREPARING | STATE_CLONING | STATE_BUILDING | STATE_DEPLOYING
| STATE_VERIFYING | STATE_COMPLETED | STATE_FAILED | STATE_CANCELLED | STATE_ROLLING_BACK.

Inductive LogLevel := LOG_UNSPECIFIED | LOG_DEBUG | LOG_INFO | LOG_WARN | LOG_ERROR.

Definition LogLevel_String (l : LogLevel) : string :=
  match l with
  | LOG_UNSPECIFIED => "LOG_LEVEL_UNSPECIFIED"
  | LOG_DEBUG => "LOG_LEVEL_DEBUG"
  | LOG_INFO => "LOG_LEVEL_INFO"
  | LOG_WARN => "LOG_LEVEL_WARN"
  | LOG_ERROR => "LOG_LEVEL_ERROR"
  end.

(** The messages of an agent, with the fields the server reads. *)
Inductive AgentMessage :=
| MDeploymentStatus (m : option (string * DeploymentState))
| MDeploymentLog (m : option (string * LogLevel * string * string * Z))
| MCommandResult (m : option (string * string * Z * Z * string * string))
| MAgentReady
| MUnknown.

Module Server.
Section server.
Context `{X509, AEAD, MapRange, SliceSort} (masterKey : list Z).

(** [allowAutoRegister], the authority with the store, the agents, the deployments and the
    tokens in memory. *)
Record State := mkState {
  allowAutoRegister : bool;
  ca : CA.State;
  agents : Agents.State;
  deployments : Deployments.State;
  tokens : gmap string string
}.

Definition security (s : State) : Security.State := CA.store (ca s).

Definition on_security {A} (f : Security.State → Outcome Security.State A) (s : State) : State * result A :=
  let '(m, r) := CA.on_store f (ca s) in ({| s with ca := m |}, r).

Definition on_agents {A} (f : eff Agents.State A) (s : State) : State * result (A + goerr) :=
  let o := f (agents s) in ({| s with agents := st o |}, ret o).

Definition on_deployments {A} (f : eff Deployments.State A) (s : State) : State * result (A + goerr) :=
  let o := f (deployments s) in ({| s with deployments := st o |}, ret o).

(** ** Registration *)

Definition RegisterToken (agentID token : string) (s : State) : State := {| s with tokens := <[agentID := token]> (tokens s) |}.
Definition RevokeToken (agentID : string) (s : State) : State := {| s with tokens := delete agentID (tokens s) |}.

Definition validateToken (agentID token : string) (s : State) : bool :=
  match tokens s !! agentID with
  | None => false
  | Some expectedToken => bool_decide (expectedToken = token)
  end.

Definition validateDatabaseToken (agentID token : string) (now now' : time) (s : State) : State * bool :=
  match Security.GetRegistrationToken token (security s) with
  | Err _ | Panic => (s, false)
  | Ok dbToken =>
      if After now dbToken.(RegistrationToken.ExpiresAt) then (s, false)
      else if bool_decide (is_Some dbToken.(RegistrationToken.UsedAt)) then (s, false)
      else if negb (bool_decide (dbToken.(RegistrationToken.AgentID) = "")) &&
              negb (bool_decide (dbToken.(RegistrationToken.AgentID) = agentID)) then (s, false)
      else ((on_security (Security.MarkTokenUsed token now') s).1, true)
  end.

Definition refuse (e : string) : RegisterResponse := RegisterResponse.mk false e "" "" [].

(** The token part of [Register]. *)
Definition admit_agent (agentID token : string) (now now' : time) (s : State) : State * bool :=
  if allowAutoRegister s && negb (bool_decide (token = "")) then (s, true)
  else if bool_decide (token = "") then (s, false)
  else match validateDatabaseToken agentID token now now' s with
       | (s1, true) => (s1, true)
       | (s1, false) => (s1, validateToken agentID token s1)
       end.

Definition current_pem (s : State) : string :=
  match CA.currentCA (ca s) with
  | Some c => if bool_decide (is_Some c.(CA.Authority.Cert)) then c.(CA.Authority.CertificatePEM) else ""
  | None => ""
  end.

(** After the token was accepted. *)
Definition enroll (req : RegisterRequest) (now : time) (xid : string) (rnd : CA.random) (hmacSecret : option (list Z))
    (s : State) : State * RegisterResponse :=
  let id := req.(RegisterRequest.AgentId) in
  match CA.IssueAgentCertificate masterKey id req.(RegisterRequest.Hostname) now xid rnd (ca s) with
  | (m, Ok cert) =>
      let s := {| s with ca := m |} in
      let capabilities := default "{}" req.(RegisterRequest.Capabilities) in
      match hmacSecret with
      | None => (s, refuse "failed to generate HMAC secret")
      | Some secret =>
          let agent := Agent.mk id req.(RegisterRequest.Hostname) req.(RegisterRequest.Labels) capabilities "registered" now 0
                         cert.(CA.AgentCert.SerialNumber) secret "" "" "" "" "" "" None "" in
          match on_agents (AgentService.Upsert agent now) s with
          | (s, Ok (inl _)) =>
              (RevokeToken id s,
               RegisterResponse.mk true "" (cert.(CA.AgentCert.CertificatePEM) +:+ cert.(CA.AgentCert.PrivateKeyPEM))
                 (current_pem s) secret)
          | (s, _) => (s, refuse "failed to store agent information")
          end
      end
  | (m, _) => ({| s with ca := m |}, refuse "failed to issue certificate")
  end.

Definition Register (req : RegisterRequest) (now now' : time) (xid : string) (rnd : CA.random) (hmacSecret : option (list Z))
    (s : State) : State * RegisterResponse :=
  let id := req.(RegisterRequest.AgentId) in
  if bool_decide (id = "") then (s, refuse "agent_id is required")
  else match Identity.ValidateAgentID id with
       | Err e => (s, refuse (error_text e))
       | Panic => (s, refuse "")
       | Ok _ =>
           match admit_agent id req.(RegisterRequest.Token) now now' s with
           | (s, false) => (s, refuse "invalid registration token")
           | (s, true) => enroll req now xid rnd hmacSecret s
           end
       end.

(** ** Deployments *)

Definition db_status (state : DeploymentState) : string :=
  match state with
  | STATE_PENDING => "pending"
  | STATE_PREPARING | STATE_CLONING | STATE_BUILDING | STATE_DEPLOYING | STATE_VERIFYING => "running"
  | STATE_COMPLETED => "success"
  | STATE_FAILED => "failed"
  | STATE_CANCELLED => "cancelled"
  | STATE_ROLLING_BACK => "rolling_back"
  | STATE_UNSPECIFIED => "unknown"
  end.

Definition completes (state : DeploymentState) : bool :=
  match state with STATE_COMPLETED | STATE_FAILED | STATE_CANCELLED => true | _ => false end.

Definition updateDeploymentStatus (m : option (string * DeploymentState)) (now now' : time) : eff Deployments.State unit :=
  match m with
  | None => ok tt
  | Some (id, state) =>
      if bool_decide (id = "") then ok tt
      else
        ebind (rewrap (Wrapf "get deployment") (DeploymentService.GetByID id)) (λ d,
          let d := {| d with DeploymentRecord.Status := db_status state |} in
          let d := if completes state then {| d with DeploymentRecord.CompletedAt := Some now |} else d in
          DeploymentService.Update d now')
  end.

Definition handleDeploymentLog (m : option (string * LogLevel * string * string * Z)) (now : time) (xid : string)
    : eff Deployments.State unit :=
  match m with
  | None => ok tt
  | Some (id, level, message, source, timestamp) =>
      ebind (DeploymentService.CreateLog (DeploymentLog.mk "" id (LogLevel_String level) message source (time_Unix timestamp)) now xid)
        (λ _, ok tt)
  end.

Definition handleCommandResult (m : option (string * string * Z * Z * string * string)) (now now' : time) (xid : string)
    : eff Deployments.State unit :=
  match m with
  | None => ok tt
  | Some (id, command, exitCode, durationMs, stdout, stderr) =>
      let level := if exitCode =? 0 then "INFO" else "ERROR" in
      let message := "Command '" +:+ command +:+ "' completed with exit code " +:+ pretty exitCode +:+
                     " (took " +:+ pretty durationMs +:+ "ms)" in
      let message := if bool_decide (stdout = "") then message
                     else message +:+ String newline ("Stdout: " +:+ stdout) in
      let message := if bool_decide (stderr = "") then message
                     else message +:+ String newline ("Stderr: " +:+ stderr) in
      ebind (DeploymentService.CreateLog (DeploymentLog.mk "" id level message "command" now) now' xid) (λ _, ok tt)
  end.

Definition processAgentMessage (m : AgentMessage) (now now' : time) (xid : string) : eff Deployments.State unit :=
  match m with
  | MDeploymentStatus m => updateDeploymentStatus m now now'
  | MDeploymentLog m => handleDeploymentLog m now xid
  | MCommandResult m => handleCommandResult m now now' xid
  | MAgentReady | MUnknown => ok tt
  end.

(** ** Heartbeats *)

(** [stats] is the JSON of the statistics, if there are any and if they can be written;
    each status is handled on its own, errors are only logged. *)
Definition Heartbeat (p : peer) (agentID : string) (stats : option (option string))
    (active : list (option (string * DeploymentState))) (now now' : time) (s : State) : State * (Z + status) :=
  if bool_decide (agentID = "") then (s, inr (Status InvalidArgument "agent_id is required"))
  else match verifyAgentCert p agentID with
       | Some e => (s, inr e)
       | None =>
           match on_agents (AgentService.GetByID agentID) s with
           | (s, Ok (inl agent)) =>
               let agent := {| agent with Agent.LastSeenAt := now |} in
               let agent := match stats with
                            | Some (Some json) => {| agent with Agent.Capabilities := json |}
                            | _ => agent
                            end in
               let s := (on_agents (AgentService.Upsert agent now') s).1 in
               let s := foldl (λ s m, (on_deployments (updateDeploymentStatus m now now') s).1) s active in
               (s, inl (Unix now'))
           | (s, Ok (inr e)) => (s, inr (Status Internal_ ("failed to lookup agent: " +:+ ServiceErrors.Error e)))
           | (s, _) => (s, inr (Status Internal_ ""))
           end
       end.

(** ** The trust bundle *)

Definition GetCATrustBundle (currentVersion : string) (s : State) : (list string * string * string) + status :=
  let version := CA.GetTrustPoolVersion (ca s) in
  if bool_decide (currentVersion = version) && negb (bool_decide (currentVersion = "")) then inl ([], "", version)
  else match CA.GetAllCACertificates (ca s) with
       | Ok certs => inl (certs, match CA.currentCA (ca s) with Some c => c.(CA.Authority.ID) | None => "" end, version)
       | Err e => inr (Plain ("get CA certificates: " +:+ error_text e))
       | Panic => inr (Plain "")
       end.

(** ** Re-authentication *)

Context (hmac_sha256 : list Z → list Z → list Z).

Definition timestampTolerance : Z := 300.

Definition reauth_message (agentID : string) (timestamp : Z) (nonce : list Z) : list Z :=
  bytes_of (agentID +:+ ":" +:+ pretty timestamp +:+ ":") ++ nonce.

Definition Reauthenticate (agentID : string) (timestamp : Z) (nonce signature : list Z) (clientIP : string)
    (now now' : time) (xid xid' : string) (rnd : CA.random) (s : State) : State * ((string * string) + status) :=
  if bool_decide (agentID = "") then (s, inr (Status InvalidArgument "agent_id is required"))
  else if bool_decide (nonce = []) then (s, inr (Status InvalidArgument "nonce is required"))
  else if bool_decide (signature = []) then (s, inr (Status InvalidArgument "signature is required"))
  else match Agents.GetAgent agentID (agents s) with
       | Err e => (s, inr (if bool_decide (e = Prelude.ErrNotFound) then Status NotFound_ "agent not found"
                           else Status Internal_ "failed to lookup agent"))
       | Panic => (s, inr (Status Internal_ ""))
       | Ok agent =>
           if bool_decide (agent.(Agent.HMACSecret) = []) then (s, inr (Status FailedPrecondition "agent has no HMAC secret"))
           else if (timestamp <? Unix now - timestampTolerance) || (Unix now + timestampTolerance <? timestamp)
           then (s, inr (Status Unauthenticated "timestamp out of range"))
           else if negb (bool_decide (hmac_sha256 agent.(Agent.HMACSecret) (reauth_message agentID timestamp nonce) = signature))
           then (s, inr (Status Unauthenticated "invalid signature"))
           else match CA.IssueAgentCertificate masterKey agentID agent.(Agent.Hostname) now' xid rnd (ca s) with
                | (m, Ok cert) =>
                    let s := {| s with ca := m |} in
                    let s := (on_security (CertAuditor.LogRenewed agentID cert.(CA.AgentCert.SerialNumber)
                                cert.(CA.AgentCert.CAID) "hmac_reauth" clientIP now' now' xid') s).1 in
                    (s, inl (cert.(CA.AgentCert.CertificatePEM) +:+ cert.(CA.AgentCert.PrivateKeyPEM),
                             match CA.currentCA (ca s) with Some c => c.(CA.Authority.CertificatePEM) | None => "" end))
                | (m, _) => ({| s with ca := m |}, inr (Status Internal_ "failed to issue certificate"))
                end
       end.

(** The interceptor of the port for re-authentication. *)
Definition reauthOnlyInterceptor {A} (fullMethod : string) (handler : A + status) : A + status :=
  if negb (bool_decide (fullMethod = "/vcdeploy.v1.AgentService/Reauthenticate"))
  then inr (Status Unimplemented "only Reauthenticate is allowed on this port") else handler.

(** The same call on the main port. *)
Definition main_Reauthenticate : status :=
  Status FailedPrecondition "use the dedicated re-auth port (:9444) for re-authentication".

End server.
End Server.

(** * Transfer of a repository *)

Module Transfer.

Record RepoChunk := mkChunk { Data : list Z; TotalSize : Z; IsLast : bool; Checksum : string }.

(** May the agent with this certificate have the archive? *)
Definition authorize (p : peer) (deploymentID : string) (s : Deployments.State) : option status :=
  let agentID := extractAgentIDFromCert p in
  if bool_decide (agentID = "") then Some (Status Unauthenticated "no client certificate")
  else if bool_decide (deploymentID = "") then None
  else match Deployments.GetDeployment deploymentID s with
       | Err e => Some (Status NotFound_ ("deployment not found: " +:+ error_text e))
       | Panic => Some (Status Internal_ "")
       | Ok _ =>
           match Deployments.GetDeploymentAgents deploymentID s with
           | Ok (_ :: _) =>
               match Deployments.IsAgentAssignedToDeployment deploymentID agentID s with
               | Ok true => None
               | Ok false => Some (Status PermissionDenied ("agent " +:+ agentID +:+ " not assigned to deployment " +:+ deploymentID))
               | _ => Some (Status Internal_ "failed to verify agent assignment")
               end
           | Ok [] => None
           | _ => Some (Status Internal_ "failed to check deployment agents")
           end
       end.

(** The chunks sent for what successive reads of the archive return. *)
Fixpoint send_chunks (size : Z) (checksum : string) (bytesRead : Z) (reads : list (list Z)) : list RepoChunk :=
  match reads with
  | [] => []
  | data :: rest =>
      let bytesRead := bytesRead + len data in
      let isLast := size <=? bytesRead in
      mkChunk data size isLast (if isLast then checksum else "") :: send_chunks size checksum bytesRead rest
  end.

(** [StreamRepoArchive] with the archive the git service made: its size, its checksum and
    the reads of its file. *)
Definition StreamRepoArchive (p : peer) (deploymentID : string) (git : option ((Z * string * list (list Z)) + string))
    (s : Deployments.State) : list RepoChunk + status :=
  match authorize p deploymentID s with
  | Some e => inr e
  | None =>
      match git with
      | None => inr (Status Unavailable "git service not configured")
      | Some (inr e) => inr (Status Internal_ ("failed to clone repository: " +:+ e))
      | Some (inl (size, checksum, reads)) => inl (send_chunks size checksum 0 reads)
      end
  end.

(** The receiving loop of [receiveRepoArchive]: what has been written to the file, and the
    checksum expected. *)
Definition maxTotalSize : Z := 5 * 2 ^ 30.

Fixpoint receive_chunks (chunks : list RepoChunk) (written : list Z) : (list Z * string) + string :=
  match chunks with
  | [] => inl (written, "")
  | chunk :: rest =>
      if IsLast chunk then inl (written, Checksum chunk)
      else
        let written := written ++ Data chunk in
        if maxTotalSize <? len written
        then inr ("archive size exceeds maximum allowed (" +:+ pretty maxTotalSize +:+ " bytes)")
        else receive_chunks rest written
  end.

(** The file that is extracted, or the error. *)
Definition receive (sha256_hex : list Z → string) (chunks : list RepoChunk) : list Z + string :=
  match receive_chunks chunks [] with
  | inr e => inr e
  | inl (written, expected) =>
      let actual := sha256_hex written in
      if bool_decide (actual = expected) then inl written
      else inr ("checksum mismatch: got " +:+ actual +:+ ", expected " +:+ expected)
  end.

End Transfer.

(** * Lemmas *)

Section frame.
Context `{X509, AEAD, MapRange, SliceSort} (masterKey : list Z).
Import Server.

Lemma decryptCAKey_tokens c m :
  Security.registrationTokens (CA.store (CA.decryptCAKey masterKey c m).1) = Security.registrationTokens (CA.store m).
Proof.
  unfold CA.decryptCAKey. destruct (CA.Authority.Key c); [done|]. destruct (CA.requireKMS m); [done|].
  pose proof (CA.only_keys_decrypt masterKey (string_of (CA.Authority.PrivateKeyEnc c)) (CA.kms m)) as E.
  destruct (Kms.Decrypt _ _ _) as [k' [x|e|]]; cbn [fst] in E; unfold CA.store;
    repeat case_match; cbn; by rewrite ?E.
Qed.

(** Issuing a certificate leaves the tokens alone. *)
Lemma issue_tokens agentID hostname now xid rnd m :
  Security.registrationTokens (CA.store (CA.IssueAgentCertificate masterKey agentID hostname now xid rnd m).1) =
  Security.registrationTokens (CA.store m).
Proof.
  unfold CA.IssueAgentCertificate. destruct (CA.currentCA m) as [c|]; [|done].
  pose proof (decryptCAKey_tokens c m) as E. destruct (CA.decryptCAKey masterKey c m) as [m1 [pk|?|]]; [|exact E..].
  destruct (CA.make_cert _ _ _ _ _ _) as [cert|?|]; [|exact E..].
  unfold CA.saveAgentCert, CA.on_store, Kms.on_store, Security.SaveAgentCert. cbn. exact E.
Qed.

Lemma on_agents_ca {A} (f : eff Agents.State A) s : ca (on_agents f s).1 = ca s ∧ tokens (on_agents f s).1 = tokens s ∧
  allowAutoRegister (on_agents f s).1 = allowAutoRegister s.
Proof. done. Qed.

Lemma on_deployments_ca {A} (f : eff Deployments.State A) s :
  ca (on_deployments f s).1 = ca s ∧ tokens (on_deployments f s).1 = tokens s ∧
  allowAutoRegister (on_deployments f s).1 = allowAutoRegister s ∧ agents (on_deployments f s).1 = agents s.
Proof. done. Qed.

(** A token that has been used. *)
Definition spent (token : string) (s : State) : Prop :=
  ∃ rt, Security.registrationTokens (security s) !! token = Some rt ∧ is_Some rt.(RegistrationToken.UsedAt).

Lemma mark_used token now s :
  Security.registrationTokens (security (on_security (Security.MarkTokenUsed token now) s).1) =
  alter (λ rt, {| rt with RegistrationToken.UsedAt := Some now |}) token (Security.registrationTokens (security s)).
Proof.
  unfold security, on_security, CA.on_store, Kms.on_store, Security.MarkTokenUsed, CA.store. cbn.
  destruct (Security.registrationTokens _ !! token) as [rt|] eqn:E; cbn.
  - symmetry. apply map_eq. intros t. destruct (decide (t = token)) as [->|Hne].
    + by rewrite lookup_alter_eq, lookup_insert_eq, E.
    + by rewrite lookup_alter_ne, lookup_insert_ne.
  - apply map_eq. intros t. destruct (decide (t = token)) as [->|Hne].
    + by rewrite lookup_alter_eq, E.
    + by rewrite lookup_alter_ne.
Qed.

Lemma spent_mark token t now s : spent token s → spent token (on_security (Security.MarkTokenUsed t now) s).1.
Proof.
  intros (rt & Hrt & Hu). unfold spent. rewrite mark_used. destruct (decide (t = token)) as [->|Hne].
  - rewrite lookup_alter_eq, Hrt. by eexists.
  - rewrite lookup_alter_ne by done. eauto.
Qed.

Lemma spent_same token s s' :
  Security.registrationTokens (security s') = Security.registrationTokens (security s) → spent token s → spent token s'.
Proof. unfold spent. by intros ->. Qed.

Lemma spent_admit token id t now now' s : spent token s → spent token (admit_agent id t now now' s).1.
Proof.
  intros Hs. unfold admit_agent. destruct (_ && _); [done|]. case_bool_decide; [done|]. unfold validateDatabaseToken.
  destruct (Security.GetRegistrationToken t (security s)) as [rt|?|]; [|done..].
  destruct (After _ _); [done|]. case_bool_decide; [done|]. destruct (_ && _); [done|]. by apply spent_mark.
Qed.

Lemma enroll_ca req now xid rnd hm s :
  Security.registrationTokens (security (enroll masterKey req now xid rnd hm s).1) = Security.registrationTokens (security s) ∧
  allowAutoRegister (enroll masterKey req now xid rnd hm s).1 = allowAutoRegister s ∧
  tokens (enroll masterKey req now xid rnd hm s).1 ⊆ tokens s.
Proof.
  unfold enroll. pose proof (issue_tokens (RegisterRequest.AgentId req) (RegisterRequest.Hostname req) now xid rnd (ca s)) as E.
  destruct (CA.IssueAgentCertificate _ _ _ _ _ _ _) as [m [cert|?|]]; cbn [fst] in E; [|by split_and!..].
  destruct hm as [secret|]; [|by split_and!]. destruct (on_agents _ _) as [s1 r] eqn:Eo.
  assert (s1 = (s1, r).1) as -> by done. rewrite <- Eo. cbn [fst].
  destruct r as [[?|?]|?|]; (split_and!; [exact E|done|]); [apply delete_subseteq|done..].
Qed.

End frame.

(** ** Runs *)

Section runs.
Context `{X509, AEAD, MapRange, SliceSort} (masterKey : list Z) (hmac_sha256 : list Z → list Z → list Z).
Import Server.

Inductive request :=
| CRegisterToken (agentID token : string)
| CRevokeToken (agentID : string)
| CRegister (req : RegisterRequest) (now now' : time) (xid : string) (rnd : CA.random) (hmacSecret : option (list Z))
| CHeartbeat (p : peer) (agentID : string) (stats : option (option string))
    (active : list (option (string * DeploymentState))) (now now' : time)
| CReauthenticate (agentID : string) (timestamp : Z) (nonce signature : list Z) (clientIP : string) (now now' : time)
    (xid xid' : string) (rnd : CA.random).

Definition run (c : request) (s : State) : State :=
  match c with
  | CRegisterToken agentID token => RegisterToken agentID token s
  | CRevokeToken agentID => RevokeToken agentID s
  | CRegister req now now' xid rnd hm => (Register masterKey req now now' xid rnd hm s).1
  | CHeartbeat p agentID stats active now now' => (Heartbeat p agentID stats active now now' s).1
  | CReauthenticate agentID ts nonce sig ip now now' xid xid' rnd =>
      (Reauthenticate masterKey hmac_sha256 agentID ts nonce sig ip now now' xid xid' rnd s).1
  end.

(** The call does not hand the token out again. *)
Definition leaves (token : string) (c : request) : Prop :=
  match c with CRegisterToken _ t => t ≠ token | _ => True end.

(** No agent has the token in memory. *)
Definition unlisted (token : string) (s : State) : Prop := ∀ id, tokens s !! id ≠ Some token.

(** The parts of a state that decide about a token. *)
Definition closed_for (token : string) (s : State) : Prop :=
  allowAutoRegister s = false ∧ spent token s ∧ unlisted token s.

Lemma unlisted_subseteq token s s' : tokens s' ⊆ tokens s → unlisted token s → unlisted token s'.
Proof. intros Hsub Hu id Hid. by apply (Hu id), (lookup_weaken _ _ _ _ Hid). Qed.

Lemma admit_frame id t now now' (s : State) :
  allowAutoRegister (admit_agent id t now now' s).1 = allowAutoRegister s ∧ tokens (admit_agent id t now now' s).1 = tokens s ∧
  agents (admit_agent id t now now' s).1 = agents s.
Proof.
  unfold admit_agent. destruct (_ && _); [done|]. case_bool_decide; [done|]. unfold validateDatabaseToken.
  destruct (Security.GetRegistrationToken t (security s)) as [rt|?|]; [|done..].
  destruct (After _ _); [done|]. case_bool_decide; [done|]. destruct (_ && _); [done|].
  unfold on_security, CA.on_store, Kms.on_store. by destruct (ret _).
Qed.

Lemma register_closed token req now now' xid rnd hm s :
  closed_for token s → closed_for token (Register masterKey req now now' xid rnd hm s).1.
Proof.
  intros Hc. unfold Register. case_bool_decide; [done|]. destruct (Identity.ValidateAgentID _); [|done..].
  pose proof (spent_admit token (RegisterRequest.AgentId req) (RegisterRequest.Token req) now now' s (proj1 (proj2 Hc))) as Hs.
  destruct (admit_frame (RegisterRequest.AgentId req) (RegisterRequest.Token req) now now' s) as (Ea & Et & _).
  destruct (admit_agent _ _ _ _ _) as [s1 []]; cbn [fst] in *; [|by destruct Hc as (?&?&?); split_and!;
    [congruence|done|eapply unlisted_subseteq; [|done]; by rewrite Et]].
  destruct (enroll_ca masterKey req now xid rnd hm s1) as (E1 & E2 & E3). destruct Hc as (Ha & _ & Hu).
  split_and!; [congruence|by eapply spent_same|]. eapply unlisted_subseteq; [|exact Hu]. by rewrite <- Et.
Qed.

Lemma heartbeat_frame p id stats active now now' s :
  let s' := (Heartbeat p id stats active now now' s).1 in
  allowAutoRegister s' = allowAutoRegister s ∧ ca s' = ca s ∧ tokens s' = tokens s.
Proof.
  unfold Heartbeat. case_bool_decide; [done|]. destruct (verifyAgentCert p id); [done|].
  destruct (on_agents _ s) as [s1 r] eqn:Eo. assert (s1 = (on_agents (AgentService.GetByID id) s).1) as -> by by rewrite Eo.
  destruct r as [[agent|?]|?|]; [|done..]. cbn [fst]. set (s2 := (on_agents _ _).1).
  assert (allowAutoRegister s2 = allowAutoRegister s ∧ ca s2 = ca s ∧ tokens s2 = tokens s) as Hs by done.
  clearbody s2. clear Eo. revert s2 Hs. induction active as [|m active IH]; intros s2 Hs; [done|]. by apply IH.
Qed.

Lemma reauth_frame id ts nonce sig ip now now' xid xid' rnd s :
  let s' := (Reauthenticate masterKey hmac_sha256 id ts nonce sig ip now now' xid xid' rnd s).1 in
  allowAutoRegister s' = allowAutoRegister s ∧ tokens s' = tokens s ∧ agents s' = agents s ∧
  Security.registrationTokens (security s') = Security.registrationTokens (security s).
Proof.
  unfold Reauthenticate. do 3 (case_bool_decide; [done|]). destruct (Agents.GetAgent id (agents s)) as [agent|?|]; [|done..].
  case_bool_decide; [done|]. destruct (_ || _); [done|]. destruct (negb _); [done|].
  pose proof (issue_tokens masterKey id (Agent.Hostname agent) now' xid rnd (ca s)) as E.
  destruct (CA.IssueAgentCertificate _ _ _ _ _ _ _) as [m [cert|?|]]; [|by split_and!..].
  unfold on_security, CA.on_store, Kms.on_store. cbn. split_and!; [done..|exact E].
Qed.

Lemma run_closed token c s : leaves token c → closed_for token s → closed_for token (run c s).
Proof.
  intros Hl Hc. destruct c; cbn [run].
  - destruct Hc as (Ha & Hs & Hu). split_and!; [done..|]. intros id. cbn.
    destruct (decide (agentID = id)) as [->|Hne]; [rewrite lookup_insert_eq; cbn in Hl; congruence|].
    rewrite lookup_insert_ne by done. apply Hu.
  - destruct Hc as (Ha & Hs & Hu). split_and!; [done..|]. eapply unlisted_subseteq; [apply delete_subseteq|done].
  - by apply register_closed.
  - destruct (heartbeat_frame p agentID stats active now now' s) as (E1 & E2 & E3). destruct Hc as (Ha & Hs & Hu).
    split_and!; [congruence| |].
    + apply (spent_same token s); [|done]. unfold security. by rewrite E2.
    + intros id. rewrite E3. apply Hu.
  - destruct (reauth_frame agentID timestamp nonce signature clientIP now now' xid xid' rnd s) as (E1 & E2 & _ & E4).
    destruct Hc as (Ha & Hs & Hu). split_and!; [congruence|by apply (spent_same token s)|]. intros id. rewrite E2. apply Hu.
Qed.

Lemma closed_refuses token req now now' xid rnd hm s :
  closed_for token s → RegisterRequest.Token req = token → 
  RegisterResponse.Success (Register masterKey req now now' xid rnd hm s).2 = false.
Proof.
  intros (Ha & (rt & Hrt & Hu) & Hn) Ht. unfold Register. case_bool_decide; [done|].
  destruct (Identity.ValidateAgentID _); [|done..]. unfold admit_agent. rewrite Ha, Ht. cbn [andb].
  case_bool_decide; [done|]. unfold validateDatabaseToken, Security.GetRegistrationToken, Security.get. rewrite Hrt.
  assert (validateToken (RegisterRequest.AgentId req) token s = false) as Hv.
  { unfold validateToken. destruct (tokens s !! _) as [t|] eqn:E; [|done]. apply bool_decide_false. intros ->. by apply (Hn _ E). }
  rewrite (bool_decide_true (is_Some _)) by done.
  by destruct (After _ _); rewrite Hv.
Qed.

Definition good_token (id token : string) (now : time) (s : State) : Prop :=
  ∃ rt, Security.registrationTokens (security s) !! token = Some rt ∧ After now rt.(RegistrationToken.ExpiresAt) = false ∧
    rt.(RegistrationToken.UsedAt) = None ∧
    (rt.(RegistrationToken.AgentID) = "" ∨ rt.(RegistrationToken.AgentID) = id).

Lemma admit_spec id token now now' (s s1 : State) :
  allowAutoRegister s = false → unlisted token s → admit_agent id token now now' s = (s1, true) →
  good_token id token now s ∧ s1 = (on_security (Security.MarkTokenUsed token now') s).1.
Proof.
  clear masterKey hmac_sha256.
  intros Ha Hu. unfold admit_agent. rewrite Ha. cbn [andb]. case_bool_decide; [done|].
  assert (validateToken id token s = false) as Hv.
  { unfold validateToken. destruct (tokens s !! _) as [t|] eqn:E; [|done]. apply bool_decide_false. intros ->. by apply (Hu _ E). }
  unfold validateDatabaseToken, good_token, Security.GetRegistrationToken, Security.get.
  destruct (Security.registrationTokens (security s) !! token) as [rt|]; [|by rewrite Hv].
  destruct (After now _) eqn:Eexp; [by rewrite Hv|].
  case_bool_decide as Hused; [by rewrite Hv|].
  destruct (decide (RegistrationToken.AgentID rt = "" ∨ RegistrationToken.AgentID rt = id)) as [Hid|Hid].
  - intros Er. split.
    + exists rt. split_and!; [done..| |done]. destruct (RegistrationToken.UsedAt rt); [|done]. by destruct Hused.
    + destruct (_ && _) eqn:Eb; [|by injection Er]. apply andb_true_iff in Eb as [Hn1%negb_true_iff%bool_decide_eq_false Hn2%negb_true_iff%bool_decide_eq_false].
      naive_solver.
  - rewrite !bool_decide_false by naive_solver. cbn. by rewrite Hv.
Qed.

Lemma admit_good id token now now' (s : State) :
  allowAutoRegister s = false → token ≠ "" → good_token id token now s →
  admit_agent id token now now' s = ((on_security (Security.MarkTokenUsed token now') s).1, true).
Proof.
  intros Ha Hne (rt & E & Hexp & Hused & Hid). unfold admit_agent. rewrite Ha, bool_decide_false by done. cbn [andb].
  unfold validateDatabaseToken, Security.GetRegistrationToken, Security.get. rewrite E, Hexp, Hused, bool_decide_false by (by intros [? ?]).
  by destruct Hid as [-> | ->]; [rewrite bool_decide_true|rewrite (bool_decide_true (id = id)), andb_false_r].
Qed.

Lemma admit_refused id token now now' (s s1 : State) : admit_agent id token now now' s = (s1, false) → s1 = s.
Proof.
  unfold admit_agent. destruct (_ && _); [done|]. case_bool_decide; [by intros [= <-]|]. unfold validateDatabaseToken.
  destruct (Security.GetRegistrationToken token (security s)) as [rt|?|]; [|by intros [= <- _]..].
  destruct (After _ _); [by intros [= <- _]|]. case_bool_decide; [by intros [= <- _]|].
  by destruct (_ && _); [intros [= <- _]|].
Qed.

(** The request has an identifier for an agent and a token that is good for it. *)
Definition admissible (req : RegisterRequest) (now : time) (s : State) : Prop :=
  RegisterRequest.AgentId req ≠ "" ∧ Identity.ValidateAgentID (RegisterRequest.AgentId req) = Ok tt ∧
  RegisterRequest.Token req ≠ "" ∧ good_token (RegisterRequest.AgentId req) (RegisterRequest.Token req) now s.

(** The time at which a token of the store was marked as used. *)
Definition used_at (token : string) (s : State) : option time :=
  Security.registrationTokens (security s) !! token ≫= RegistrationToken.UsedAt.

Lemma register_uses_up req now now' xid rnd hm s :
  let token := RegisterRequest.Token req in
  allowAutoRegister s = false → unlisted token s → admissible req now s →
  closed_for token (Register masterKey req now now' xid rnd hm s).1 ∧
  used_at token (Register masterKey req now now' xid rnd hm s).1 = Some now'.
Proof.
  intros token Ha Hu (Hid & Hv & Hne & Hgood). unfold Register. rewrite bool_decide_false, Hv by done.
  rewrite (admit_good _ _ now now' s Ha Hne Hgood). fold token in Hgood, Hne |- *.
  set (s0 := (on_security (Security.MarkTokenUsed token now') s).1).
  destruct (enroll_ca masterKey req now xid rnd hm s0) as (E1 & E2 & E3).
  assert (Security.registrationTokens (security s0) !! token =
    (λ rt, {| rt with RegistrationToken.UsedAt := Some now' |}) <$> Security.registrationTokens (security s) !! token) as Hmark
    by (unfold s0; rewrite (mark_used token now' s); by rewrite lookup_alter_eq).
  pose proof (admit_frame (RegisterRequest.AgentId req) token now now' s) as (F1 & F2 & _).
  rewrite (admit_good (RegisterRequest.AgentId req) token now now' s Ha Hne Hgood) in F1, F2. cbn [fst] in F1, F2. fold s0 in F1, F2.
  clearbody s0. destruct Hgood as (rt & E & _). rewrite E in Hmark. cbn in Hmark.
  split; [|unfold used_at; by rewrite E1, Hmark]. split_and!; [congruence| |].
  - apply (spent_same token s0); [done|]. unfold spent. rewrite Hmark. by eexists.
  - eapply unlisted_subseteq; [exact E3|]. intros id'. rewrite F2. apply Hu.
Qed.

(** C36: Registration tokens are used once.  Without automatic registration, and for a token
    that only the store has (not the list in memory): a request is admitted exactly if it
    has an identifier for an agent and a token that is known, has not expired, has not
    been used and is meant for that agent or for anyone.  A request that is not admitted
    is refused and changes nothing.  One that is admitted uses its token up, with the
    time, whatever becomes of the registration: also if no certificate can be issued, the
    agent's secret cannot be drawn or the agent cannot be stored, after which the agent
    needs another token; no later call of the agent service registers an agent with it. *)
Theorem registration_token_once req now now' xid rnd hm s :
  let token := RegisterRequest.Token req in
  allowAutoRegister s = false → unlisted token s →
  let '(s1, resp) := Register masterKey req now now' xid rnd hm s in
  (admissible req now s →
    used_at token s1 = Some now' ∧
    ∀ calls, Forall (leaves token) calls → ∀ req' t t' x r h, RegisterRequest.Token req' = token →
      RegisterResponse.Success (Register masterKey req' t t' x r h (foldl (λ s c, run c s) s1 calls)).2 = false) ∧
  (¬ admissible req now s → RegisterResponse.Success resp = false ∧ s1 = s).
Proof.
  intros token Ha Hu. pose proof (register_uses_up req now now' xid rnd hm s Ha Hu) as Hup.
  destruct (Register _ _ _ _ _ _ _ _) as [s1 resp] eqn:Er. cbn [fst] in Hup. split.
  - intros Had. destruct (Hup Had) as [Hc Hus]. split; [done|]. intros calls Hl. clear Er Hup Hus. revert s1 Hc.
    induction Hl as [|c calls Hc0 _ IH]; intros s1 Hc req' t t' x r h Ht; cbn [foldl].
    + by apply (closed_refuses token).
    + apply IH; [by apply run_closed|done].
  - intros Hn. unfold Register in Er. case_bool_decide as Hid; [by simplify_eq|].
    destruct (Identity.ValidateAgentID _) as [[]|?|] eqn:Ev; [|by simplify_eq..].
    destruct (admit_agent _ _ _ _ _) as [s0 b] eqn:Ead. destruct b.
    + destruct (admit_spec _ _ _ _ _ _ Ha Hu Ead) as [Hgood _]. destruct Hn. split_and!; [done..| |done].
      intros Ht. unfold admit_agent in Ead. by rewrite Ha, Ht in Ead.
    + apply admit_refused in Ead as ->. by simplify_eq.
Qed.

End runs.

(** ** The certificate and the identifier *)

Section identity.
Context `{X509, AEAD, MapRange, SliceSort} (masterKey : list Z).
Context `{L : !X509Laws}.
Import Server.

Lemma agent_name_differs id : "agent-" +:+ id ≠ id.
Proof. intros E. apply (f_equal String.length) in E. rewrite length_app_string in E. cbn in E. lia. Qed.

(** an agent that uses the certificate it was issued is refused under its own
    identifier: the certificate names it ["agent-<id>"], and heartbeats compare this with the
    plain identifier; nor can it fetch a repository for a deployment with assignments, unless
    an agent of that longer name is assigned. *)
Theorem certified_agent_refused id hostname now xid rnd m m' cert others stats active t t' s :
  CA.IssueAgentCertificate masterKey id hostname now xid rnd m = (m', Ok cert) →
  id ≠ "" →
  ∃ c, CA.parse_pem cert.(CA.AgentCert.CertificatePEM) = Some c ∧
    let p := TLS (Template.CommonName (fields c) :: others) in
    Heartbeat p id stats active t t' s =
      (s, inr (Status PermissionDenied ("agent ID mismatch: certificate says agent-" +:+ id +:+ ", request says " +:+ id))) ∧
    (∀ dep d, dep ≠ "" → Deployments.deployments (deployments s) !! dep = Some d →
       Transfer.authorize p dep (deployments s) = None ↔
       entry (Deployments.deploymentAgents (deployments s)) dep = [] ∨
       is_Some (Deployments.find_agent ("agent-" +:+ id) (entry (Deployments.deploymentAgents (deployments s)) dep))).
Proof using L.
  intros Hi Hid. destruct (CA.issue_Ok _ _ _ _ _ _ _ _ _ Hi) as (auth & pk & cert0 & _ & _ & Hm & _ & Ecert).
  destruct (CA.make_cert_Ok _ _ _ _ _ _ _ Hm) as (c & parent & serial & _ & Hpem & _ & Hf & _). exists c.
  split; [by rewrite Ecert|]. assert (Template.CommonName (fields c) = "agent-" +:+ id) as -> by by rewrite Hf.
  cbv zeta. split.
  - unfold Heartbeat, verifyAgentCert, extractAgentIDFromCert. rewrite !bool_decide_false; [done| |done..].
    apply agent_name_differs.
  - intros dep d Hdep Hd. unfold Transfer.authorize, extractAgentIDFromCert, Deployments.GetDeployment,
      Deployments.GetDeploymentAgents, Deployments.IsAgentAssignedToDeployment.
    rewrite !bool_decide_false, Hd by done. destruct (entry _ dep) as [|a l] eqn:El; [by split; [left|]|].
    destruct (Deployments.find_agent _ _) as [x|] eqn:Ef; [rewrite bool_decide_true by done|rewrite bool_decide_false by by intros []].
    + split; [right; eauto|done].
    + split; [done|]. by intros [|[]].
Qed.

End identity.

(** ** Messages about deployments *)

Section messages.
Import Server.

(** a status message sets the deployment it names to the state it names, whatever the
    state before and whoever sends it: the completion time is set for final states and kept
    otherwise, so a completed deployment can run again and keep its completion time; an unknown
    deployment is reported and nothing changes; a message with no deployment does nothing. *)
Theorem status_message_spec id state now now' s :
  let o := processAgentMessage (MDeploymentStatus (Some (id, state))) now now' "" s in
  if bool_decide (id = "") then ret o = Ok (inl tt) ∧ st o = s
  else match Deployments.deployments s !! id with
       | None => ret o = Ok (inr (Wrapf "get deployment" (Store Prelude.ErrNotFound))) ∧ st o = s
       | Some d =>
           d.(DeploymentRecord.ID) = id →
           ret o = Ok (inl tt) ∧
           Deployments.deployments (st o) = <[id := {| d with
             DeploymentRecord.Status := db_status state;
             DeploymentRecord.CompletedAt := if completes state then Some now else d.(DeploymentRecord.CompletedAt) |}]>
             (Deployments.deployments s)
       end.
Proof.
  cbn [processAgentMessage updateDeploymentStatus]. case_bool_decide; [done|].
  unfold ebind, sbind, rewrap, DeploymentService.GetByID, DeploymentService.Update, call, ask, Deployments.GetDeployment,
    Deployments.UpdateDeployment. unfold sbind. cbn.
  destruct (Deployments.deployments s !! id) as [d|] eqn:E; cbn; [|done]. intros Hid.
  destruct (completes state); cbn; rewrite Hid, E; cbn; rewrite ?Hid; (split; [done|]); f_equal; by destruct d.
Qed.

End messages.

(** ** The transfer *)

Section transfer.
Import Transfer.

Lemma chunks_data size checksum n reads : concat (Data <$> send_chunks size checksum n reads) = concat reads.
Proof. revert n. induction reads as [|d reads IH]; intros n; [done|]. cbn. by rewrite IH. Qed.

Lemma len_append {A} (a b : list A) : len (a ++ b) = len a + len b.
Proof. unfold len. rewrite length_app. lia. Qed.

Lemma len_positive {A} (l : list A) : l ≠ [] → 0 < len l.
Proof. unfold len. destruct l; [done|]. cbn. lia. Qed.

Lemma more_to_come reads (last : list Z) : Forall (λ d, d ≠ []) (reads ++ [last]) → 0 < len (concat (reads ++ [last])).
Proof.
  intros Hne. rewrite concat_app, len_append. cbn [concat]. rewrite app_nil_r. apply Forall_app in Hne as [_ [Hl _]%Forall_cons].
  pose proof (len_positive last Hl). pose proof (len_nonneg (concat reads)). lia.
Qed.

Lemma marked_last size checksum n reads last :
  Forall (λ d, d ≠ []) (reads ++ [last]) → size = n + len (concat (reads ++ [last])) →
  ∃ before mark, send_chunks size checksum n (reads ++ [last]) = before ++ [mark] ∧
    Forall (λ c, IsLast c = false ∧ Checksum c = "") before ∧ IsLast mark = true ∧ Checksum mark = checksum.
Proof.
  revert n. induction reads as [|d reads IH]; intros n Hne Hsize.
  - cbn [app concat] in *. rewrite app_nil_r in *. cbn [send_chunks]. exists []. eexists. split; [reflexivity|].
    rewrite (proj2 (Z.leb_le size (n + len last))) by lia. by split_and!.
  - cbn [app concat] in Hsize. rewrite len_append in Hsize. apply Forall_cons in Hne as [Hd Hne].
    pose proof (more_to_come reads last Hne) as Hpos.
    destruct (IH (n + len d) Hne ltac:(lia)) as (before & mark & E & Hb & Hm). cbn [app send_chunks].
    rewrite (proj2 (Z.leb_gt size (n + len d))) by lia. rewrite E. eexists (_ :: before), mark. split; [reflexivity|].
    split; [|done]. by constructor.
Qed.

(** What the receiver writes and expects, when the file is read to its end and fits. *)
Lemma receive_sent size checksum reads last n written :
  n = len written → Forall (λ d, d ≠ []) (reads ++ [last]) → size = n + len (concat (reads ++ [last])) → size ≤ maxTotalSize →
  receive_chunks (send_chunks size checksum n (reads ++ [last])) written = inl (written ++ concat reads, checksum).
Proof.
  revert n written. induction reads as [|d reads IH]; intros n written Hn Hne Hsize Hmax.
  - cbn [app concat] in *. rewrite app_nil_r in *. cbn [send_chunks receive_chunks IsLast Checksum].
    by rewrite (proj2 (Z.leb_le size (n + len last))) by lia.
  - cbn [app concat] in Hsize. rewrite len_append in Hsize.
    cbn [app send_chunks receive_chunks IsLast Data Checksum]. apply Forall_cons in Hne as [Hd Hne].
    pose proof (more_to_come reads last Hne) as Hpos.
    rewrite (proj2 (Z.leb_gt size (n + len d))) by lia.
    rewrite (proj2 (Z.ltb_ge maxTotalSize (len (written ++ d)))) by (rewrite len_append; lia).
    rewrite (IH (n + len d)); [by rewrite <- app_assoc|rewrite len_append; lia|done|lia|done].
Qed.

(** C37: the chunks of an archive carry it: their data is the file, in order, the last chunk
    and no other is marked and has the checksum; but the receiver leaves the loop at the mark
    without writing the data of that chunk, so it checks the hash of the file without its
    end, and takes an archive only if this collides with the hash of the whole; what it takes
    is then never the archive. *)
Theorem archive_never_verifies sha256_hex reads last p dep s chunks :
  let file := concat (reads ++ [last]) in
  Forall (λ d, d ≠ []) (reads ++ [last]) → len file ≤ maxTotalSize →
  StreamRepoArchive p dep (Some (inl (len file, sha256_hex file, reads ++ [last]))) s = inl chunks →
  concat (Data <$> chunks) = file ∧
  (∃ before mark, chunks = before ++ [mark] ∧ Forall (λ c, IsLast c = false ∧ Checksum c = "") before ∧
     IsLast mark = true ∧ Checksum mark = sha256_hex file) ∧
  receive sha256_hex chunks =
    (if bool_decide (sha256_hex (concat reads) = sha256_hex file) then inl (concat reads)
     else inr ("checksum mismatch: got " +:+ sha256_hex (concat reads) +:+ ", expected " +:+ sha256_hex file)) ∧
  concat reads ≠ file.
Proof.
  intros file Hne Hmax Hs. unfold StreamRepoArchive in Hs. destruct (authorize p dep s); [done|]. injection Hs as <-.
  split; [apply chunks_data|]. split; [by apply (marked_last _ _ 0)|]. split.
  - unfold receive. rewrite (receive_sent _ _ _ _ 0 []); [done|done|done|done|done].
  - unfold file. rewrite concat_app. cbn. rewrite app_nil_r. intros E. apply (f_equal length) in E. rewrite length_app in E.
    apply Forall_app in Hne as [_ [Hl _]%Forall_cons]. destruct last; [done|]. cbn in E. lia.
Qed.

End transfer.

(** ** Re-authentication *)

Section reauth.
Context `{X509, AEAD, MapRange, SliceSort} (masterKey : list Z) (hmac_sha256 : list Z → list Z → list Z).
Import Server.

(** What is asked of a request. *)
Definition entitled (agentID : string) (timestamp : Z) (nonce signature : list Z) (now : time) (s : State) : Prop :=
  agentID ≠ "" ∧ nonce ≠ [] ∧ signature ≠ [] ∧
  ∃ agent, Agents.agents (agents s) !! agentID = Some agent ∧ agent.(Agent.HMACSecret) ≠ [] ∧
    Z.abs (timestamp - Unix now) ≤ timestampTolerance ∧
    signature = hmac_sha256 agent.(Agent.HMACSecret) (reauth_message agentID timestamp nonce).

Lemma reauth_spec id ts nonce sig ip now now' xid xid' rnd s :
  let o := Reauthenticate masterKey hmac_sha256 id ts nonce sig ip now now' xid xid' rnd s in
  is_inl o.2 ↔ entitled id ts nonce sig now s ∧
    ∃ agent m cert, Agents.agents (agents s) !! id = Some agent ∧
      CA.IssueAgentCertificate masterKey id agent.(Agent.Hostname) now' xid rnd (ca s) = (m, Ok cert).
Proof.
  cbv zeta. unfold Reauthenticate, entitled, timestampTolerance, Agents.GetAgent.
  case_bool_decide; [split; [by intros []|naive_solver]|]. case_bool_decide; [split; [by intros []|naive_solver]|].
  case_bool_decide; [split; [by intros []|naive_solver]|].
  destruct (Agents.agents (agents s) !! id) as [agent|] eqn:E; [|split; [by intros []|naive_solver]].
  case_bool_decide; [split; [by intros []|naive_solver]|].
  destruct (_ || _) eqn:Et.
  { split; [by intros []|]. intros [(_ & _ & _ & a & _ & _ & Habs & _) _]. exfalso.
    apply orb_true_iff in Et as [Et%Z.ltb_lt|Et%Z.ltb_lt]; lia. }
  apply orb_false_iff in Et as [Ht1%Z.ltb_ge Ht2%Z.ltb_ge].
  destruct (decide (hmac_sha256 (Agent.HMACSecret agent) (reauth_message id ts nonce) = sig)) as [Hsig|Hsig].
  - rewrite (bool_decide_true _ Hsig). cbn [negb].
    destruct (CA.IssueAgentCertificate masterKey id (Agent.Hostname agent) now' xid rnd (ca s)) as [m [cert|e|]] eqn:Ei.
    + destruct (on_security _ _) as [s2 r2]. split; [intros _|done]. split; [|eauto 10].
      split_and!; [done..|]. exists agent. split_and!; [done..|lia|done].
    + split; [by intros []|]. intros [_ (a & m' & c & Ha & Hi)]. congruence.
    + split; [by intros []|]. intros [_ (a & m' & c & Ha & Hi)]. congruence.
  - rewrite (bool_decide_false _ Hsig). split; [by intros []|]. naive_solver.
Qed.

(** a certificate is handed out exactly for a signature over the identifier, a time
    within five minutes and a nonce, made with the agent's secret, and only if it can be issued;
    and the nonce is not remembered: the same request is good again, and while the time is
    near enough it gets another certificate each time one can be issued. *)
Theorem reauthentication_replayable id ts nonce sig ip now now' xid xid' rnd s :
  let '(s1, r) := Reauthenticate masterKey hmac_sha256 id ts nonce sig ip now now' xid xid' rnd s in
  (is_inl r ↔ entitled id ts nonce sig now s ∧
    ∃ agent m cert, Agents.agents (agents s) !! id = Some agent ∧
      CA.IssueAgentCertificate masterKey id agent.(Agent.Hostname) now' xid rnd (ca s) = (m, Ok cert)) ∧
  (is_inl r → ∀ t t' x x' rnd', Z.abs (ts - Unix t) ≤ timestampTolerance →
     (∀ agent, Agents.agents (agents s) !! id = Some agent →
        ∃ m cert, CA.IssueAgentCertificate masterKey id agent.(Agent.Hostname) t' x rnd' (ca s1) = (m, Ok cert)) →
     is_inl (Reauthenticate masterKey hmac_sha256 id ts nonce sig ip t t' x x' rnd' s1).2).
Proof.
  pose proof (reauth_spec id ts nonce sig ip now now' xid xid' rnd s) as Hspec.
  destruct (reauth_frame masterKey hmac_sha256 id ts nonce sig ip now now' xid xid' rnd s) as (_ & _ & Ea & _).
  destruct (Reauthenticate _ _ id ts nonce sig ip now now' xid xid' rnd s) as [s1 r]. cbn [fst snd] in *. split; [done|].
  intros [(Hid & Hno & Hsi & agent & Hag & Hsec & _ & Hsig) _]%Hspec t t' x x' rnd' Ht Hi.
  apply reauth_spec. destruct (Hi agent Hag) as (m & cert & Hm). split.
  - split_and!; [done..|]. exists agent. rewrite Ea. by split_and!.
  - exists agent, m, cert. by rewrite Ea.
Qed.

(** The agents after a registration. *)
Lemma enroll_agent req now xid rnd hm s s1 resp :
  enroll masterKey req now xid rnd hm s = (s1, resp) → RegisterResponse.Success resp = true →
  ∃ secret a, hm = Some secret ∧ RegisterResponse.HmacSecret resp = secret ∧
    Agents.agents (agents s1) !! RegisterRequest.AgentId req = Some a ∧
    a.(Agent.HMACSecret) = match Agents.agents (agents s) !! RegisterRequest.AgentId req with
                           | Some old => old.(Agent.HMACSecret)
                           | None => secret
                           end.
Proof.
  unfold enroll. destruct (CA.IssueAgentCertificate _ _ _ _ _ _ _) as [m [cert|?|]]; [|by intros [= <- <-]..].
  destruct hm as [secret|]; [|by intros [= <- <-]]. unfold on_agents, AgentService.Upsert, call, Agents.UpsertAgent. cbn.
  destruct (Agents.agents (agents s) !! _) as [old|]; cbn; intros [= <- <-] _; eexists secret, _; cbn; rewrite lookup_insert_eq;
    (split_and!; [done..|]); done.
Qed.

(** a registration gives the agent a new secret to re-authenticate with; the store keeps
    it only for an agent it did not know. An agent that registers again is left with a
    secret that is not the one of the store, and what it signs is refused. *)
Theorem registered_secret req now now' xid rnd hm s :
  let id := RegisterRequest.AgentId req in
  let '(s1, resp) := Register masterKey req now now' xid rnd hm s in
  RegisterResponse.Success resp = true →
  ∃ a, Agents.agents (agents s1) !! id = Some a ∧
    match Agents.agents (agents s) !! id with
    | None => a.(Agent.HMACSecret) = RegisterResponse.HmacSecret resp
    | Some old =>
        a.(Agent.HMACSecret) = old.(Agent.HMACSecret) ∧
        ∀ ts nonce ip t t' x x' rnd',
          let message := reauth_message id ts nonce in
          let signature := hmac_sha256 (RegisterResponse.HmacSecret resp) message in
          hmac_sha256 old.(Agent.HMACSecret) message ≠ signature →
          ¬ is_inl (Reauthenticate masterKey hmac_sha256 id ts nonce signature ip t t' x x' rnd' s1).2
    end.
Proof.
  intros id. destruct (Register _ _ _ _ _ _ _ _) as [s1 resp] eqn:Er. intros Hok. unfold Register in Er.
  case_bool_decide; [by simplify_eq|]. destruct (Identity.ValidateAgentID _); [|by simplify_eq..].
  destruct (admit_agent _ _ _ _ _) as [s0 []] eqn:Ead; [|by simplify_eq].
  destruct (admit_frame id (RegisterRequest.Token req) now now' s) as (_ & _ & Eag). unfold id in Eag. rewrite Ead in Eag. cbn [fst] in Eag.
  destruct (enroll_agent _ _ _ _ _ _ _ _ Er Hok) as (secret & ag & _ & Hsec & Ha & Hh). exists ag. split; [done|].
  rewrite Eag in Hh. fold id in Hh. destruct (Agents.agents (agents s) !! id) as [old|]; [|by rewrite Hsec]. split; [done|].
  intros ts nonce ip t t' x x' rnd' message signature Hne [(_ & _ & _ & a' & Ha' & _ & _ & Hsig) _]%reauth_spec.
  assert (a' = ag) as -> by (unfold id in *; congruence). rewrite Hh in Hsig. by destruct Hne.
Qed.

End reauth.

(** * Witnesses *)

Section demo.
#[local] Existing Instance Kms.checksum_aead.
#[local] Existing Instance range_in_key_order.
#[local] Existing Instance CA.toy.
#[local] Existing Instance CA.toy_laws.
#[local] Existing Instance sort_by_exchange.
Import Server.

Definition toy_hmac (key message : list Z) : list Z := key ++ message.

(** An authority, one token in the store and no agent. *)
Definition demo_server : State :=
  (on_security (Security.SaveRegistrationToken (RegistrationToken.mk "" "tok" "" (1000 * Second) None "admin" 0) 0 "t1")
     (mkState false CA.demo Agents.empty Deployments.empty ∅)).1.

Definition demo_request : RegisterRequest := RegisterRequest.mk "web-1" "tok" "host" None None.

Definition demo_registered : State * RegisterResponse :=
  Register Kms.demo_master demo_request (30 * Second) (30 * Second) "x1" (CA.demo_rnd false 255 4) (Some [1; 2]) demo_server.

Lemma demo_admissible : admissible demo_request (30 * Second) demo_server.
Proof.
  split_and!; [discriminate|by vm_compute|discriminate|].
  exists (RegistrationToken.mk "t1" "tok" "" (1000 * Second) None "admin" 0). split_and!; [by vm_compute..|by left].
Qed.

(** The token works once, and is used up by a registration that fails, too. *)
Lemma registration_token_once_witness :
  RegisterResponse.Success demo_registered.2 = true ∧
  RegisterResponse.Success (Register Kms.demo_master demo_request (31 * Second) (31 * Second) "x2" (CA.demo_rnd false 254 5) (Some [3])
    (run Kms.demo_master toy_hmac (CRevokeToken "web-1") demo_registered.1)).2 = false ∧
  let failed := Register Kms.demo_master demo_request (30 * Second) (30 * Second) "x1" (CA.demo_rnd false 255 4) None demo_server in
  RegisterResponse.Success failed.2 = false ∧
  RegisterResponse.Success (Register Kms.demo_master demo_request (31 * Second) (31 * Second) "x2" (CA.demo_rnd false 254 5) (Some [3])
    failed.1).2 = false.
Proof.
  split; [by vm_compute|]. split.
  - pose proof (registration_token_once Kms.demo_master toy_hmac demo_request (30 * Second) (30 * Second) "x1"
      (CA.demo_rnd false 255 4) (Some [1; 2]) demo_server eq_refl ltac:(by intros ?)) as Ht.
    unfold demo_registered. destruct (Register _ _ _ _ _ _ _ demo_server) as [s1 resp]. cbn [fst snd] in *.
    destruct (proj1 Ht demo_admissible) as [_ Hl]. apply (Hl [CRevokeToken "web-1"]); [by repeat constructor|done].
  - split; [by vm_compute|].
    pose proof (registration_token_once Kms.demo_master toy_hmac demo_request (30 * Second) (30 * Second) "x1"
      (CA.demo_rnd false 255 4) None demo_server eq_refl ltac:(by intros ?)) as Ht.
    destruct (Register _ _ _ _ _ _ _ demo_server) as [s1 resp]. cbn [fst snd] in *.
    destruct (proj1 Ht demo_admissible) as [_ Hl]. apply (Hl []); [constructor|done].
Defined.

Lemma certified_agent_refused_witness :
  ∃ name, (Heartbeat (TLS [name]) "web-1" None [] 0 0 demo_server).2 =
    inr (Status PermissionDenied "agent ID mismatch: certificate says agent-web-1, request says web-1").
Proof.
  destruct (certified_agent_refused Kms.demo_master "web-1" "host" (30 * Second) "x1" (CA.demo_rnd false 255 4) CA.demo
    CA.demo_issue.1 CA.demo_cert [] None [] 0 0 demo_server CA.demo_issued ltac:(done)) as (c & _ & Hh & _).
  exists (Template.CommonName (fields c)). by rewrite Hh.
Defined.

Lemma archive_never_verifies_witness :
  let checksum (l : list Z) := pretty (len l) in
  Transfer.receive checksum (Transfer.send_chunks 3 (checksum [7; 8; 9]) 0 [[7; 8]; [9]]) =
    inr "checksum mismatch: got 2, expected 3".
Proof.
  set (s := {| Deployments.empty with Deployments.deployments := ∅ |}).
  destruct (archive_never_verifies (λ l : list Z, pretty (len l)) [[7; 8]] [9] (TLS ["a"]) "" s
    (Transfer.send_chunks 3 "3" 0 [[7; 8]; [9]])) as (_ & _ & Hr & _); [by repeat constructor|done|done|].
  exact Hr.
Defined.

(** The same request, sent again and again. *)
Definition demo_again (now : time) (xid : string) (rnd : CA.random) : State → State * ((string * string) + status) :=
  Reauthenticate Kms.demo_master toy_hmac "web-1" (Unix (41 * Second)) [5]
    (toy_hmac [1; 2] (reauth_message "web-1" (Unix (41 * Second)) [5])) "" now now xid "x5" rnd.

Definition demo_reauth := demo_again (41 * Second) "x4" (CA.demo_rnd false 252 7) demo_registered.1.

Definition accepted {A B} (r : A + B) : bool := match r with inl _ => true | inr _ => false end.

Lemma accepted_inl {A B} (r : A + B) : accepted r = true → is_inl r.
Proof. by destruct r. Qed.

Lemma demo_reauth_ok : accepted demo_reauth.2 = true.
Proof. by vm_compute. Qed.

Lemma demo_hostname : (Agent.Hostname <$> Agents.agents (agents demo_registered.1) !! "web-1") = Some "host".
Proof. by vm_compute. Qed.

Lemma demo_issues_again : CA.succeeds (CA.IssueAgentCertificate Kms.demo_master "web-1" "host" (141 * Second) "x6"
  (CA.demo_rnd false 251 8) (ca demo_reauth.1)).2 = true.
Proof. by vm_compute. Qed.

Lemma reauthentication_replayable_witness :
  is_inl demo_reauth.2 ∧ is_inl (demo_again (141 * Second) "x6" (CA.demo_rnd false 251 8) demo_reauth.1).2.
Proof.
  assert (is_inl demo_reauth.2) as Hok by apply accepted_inl, demo_reauth_ok. split; [exact Hok|].
  pose proof (reauthentication_replayable Kms.demo_master toy_hmac "web-1" (Unix (41 * Second)) [5]
    (toy_hmac [1; 2] (reauth_message "web-1" (Unix (41 * Second)) [5])) "" (41 * Second) (41 * Second) "x4" "x5"
    (CA.demo_rnd false 252 7) demo_registered.1) as Hr.
  fold (demo_again (41 * Second) "x4" (CA.demo_rnd false 252 7) demo_registered.1) in Hr. fold demo_reauth in Hr.
  pose proof demo_issues_again as Hi. destruct demo_reauth as [s1 r]. destruct Hr as [_ Hr]. apply Hr; [exact Hok|done|].
  intros agent Ha. pose proof demo_hostname as Hho. rewrite Ha in Hho. injection Hho as ->. apply CA.succeeds_Ok in Hi as [cert Hc].
  cbn [fst] in Hc. destruct (CA.IssueAgentCertificate _ _ _ _ _ _ _) as [m' r']. cbn in Hc. subst r'. by exists m', cert.
Defined.

Lemma registered_secret_witness :
  let '(s1, resp) := Register Kms.demo_master {| demo_request with RegisterRequest.Token := "tok2" |} (40 * Second) (40 * Second) "x3"
    (CA.demo_rnd false 253 6) (Some [3; 4]) (RegisterToken "web-1" "tok2" demo_registered.1) in
  RegisterResponse.Success resp = true ∧ RegisterResponse.HmacSecret resp = [3; 4] ∧
  ¬ is_inl (Reauthenticate Kms.demo_master toy_hmac "web-1" (Unix (41 * Second)) [5] (toy_hmac [3; 4] (reauth_message "web-1" (Unix (41 * Second)) [5]))
    "" (41 * Second) (41 * Second) "x4" "x5" (CA.demo_rnd false 252 7) s1).2.
Proof.
  set (req := {| demo_request with RegisterRequest.Token := "tok2" |}). set (s := RegisterToken "web-1" "tok2" demo_registered.1).
  assert ((Register Kms.demo_master req (40 * Second) (40 * Second) "x3" (CA.demo_rnd false 253 6) (Some [3; 4]) s).2.(RegisterResponse.Success) = true ∧
    (Register Kms.demo_master req (40 * Second) (40 * Second) "x3" (CA.demo_rnd false 253 6) (Some [3; 4]) s).2.(RegisterResponse.HmacSecret) = [3; 4] ∧
    (Agent.HMACSecret <$> Agents.agents (agents s) !! "web-1") = Some [1; 2]) as (Hok & Hsec & Hold) by by vm_compute.
  pose proof (registered_secret Kms.demo_master toy_hmac req (40 * Second) (40 * Second) "x3" (CA.demo_rnd false 253 6) (Some [3; 4]) s) as Hr.
  cbn zeta in Hr. destruct (Register _ req _ _ _ _ _ s) as [s1 resp]. cbn [fst snd] in *. split_and!; [done..|].
  destruct (Hr Hok) as (a & _ & Hm). change (RegisterRequest.AgentId req) with "web-1" in Hm.
  destruct (Agents.agents (agents s) !! "web-1") as [old|]; [|done]. destruct Hm as [_ Hm]. rewrite Hsec in Hm.
  apply Hm. intros E. injection Hold as Eo. rewrite Eo in E. by apply app_inv_tail in E.
Defined.

End demo.
