(* ===== verification/AgentConn.v ===== *)
(** The streams of the agents ([Connect], [sendCommands], [cleanupConnection], [SendCommand]
    and [DisconnectAgent] of [src/internal/server/grpc_agent.go]).

    Every stream has a handler and, once it is set up, a goroutine that sends commands; the
    handlers share the tables of connections and of command channels, which are keyed by the
    agent.  The state is that of all of them, a step is what one of them does between two
    points where others can run: a critical section, a call of the store, a channel operation,
    a callback; or the transport of a stream ends.  A connection and its channel are named by the number of their stream.  Log
    messages, metrics and alerts are left out. *)

From S2P Require Import GoStrings GoTime StoreBase ServiceBase ServiceErrors Models MemAgents MemDeployments Services AgentServer.

#[local] Open Scope string_scope.
#[local] Open Scope list_scope.
#[local] Open Scope Z_scope.

Module Conn.
Section conn.
Context `{MapRange} {DeployCommand RollbackCommand CancelCommand UpdateCommand : Type}.

(** * State *)

Inductive MasterMessage :=
| MasterMessage_DeployCommand (cmd : DeployCommand)
| MasterMessage_RollbackCommand (cmd : RollbackCommand)
| MasterMessage_CancelCommand (cmd : CancelCommand)
| MasterMessage_UpdateCommand (cmd : UpdateCommand).

(** Where a handler is. *)
Inductive phase :=
| Ready (agent : Agent)                 (* about to look for an older connection *)
| Waiting (agent : Agent) (old : nat)   (* for the older connection to be cleaned up *)
| Opening (agent : Agent)               (* about to store the agent as online *)
| Announcing (hostname : string)        (* about to publish the event and start to send *)
| Receiving
| Processing (msg : AgentMessage)
| Leaving                               (* in [cleanupConnection] *)
| Signalling (conn : option nat)        (* about to close [CleanupDone] *)
| Closing                               (* about to close the channel *)
| Finding                               (* about to look the agent up *)
| Parting (agent : Agent)               (* about to store the agent as offline *)
| Withdrawing (hostname : string)       (* about to publish the event *)
| Cancelling                            (* about to cancel the context *)
| Done.

Inductive sender := NotStarted | Running | Stopped.

(** A stream, with its connection, its channel and its goroutine; [cancelled] is about the
    context of the connection, which is one of the stream's.  [accepted], [delivered],
    [lost], [blanks] and [ended] record what happened: the commands put into the channel,
    those sent, the one that could not be sent, the number of empty messages, and whether
    the transport of the stream has ended. *)
Record Stream := mkStream {
  agentID : string;
  at_ : phase;
  LastMessage : time;
  cancelled : bool;
  CleanupDone : bool;
  queue : list MasterMessage;
  closed : bool;
  sending : sender;
  accepted : list MasterMessage;
  delivered : list MasterMessage;
  lost : list MasterMessage;
  blanks : nat;
  ended : bool
}.

Record State := mkState {
  isMaintenanceMode : bool;
  agents : Agents.State;
  deployments : Deployments.State;
  streams : list Stream;
  connections : gmap string nat;
  pendingCommands : gmap string nat;
  calls : list (option (nat * MasterMessage));  (* [SendCommand] calls that have their channel *)
  events : list (string * string * string * string)
}.

Definition start (a : Agents.State) (d : Deployments.State) : State := mkState false a d [] ∅ ∅ [] [].

Inductive outcome := Next (s : State) | Blocked | Panics.

(** * Opening a stream *)

Inductive first_message := EOF | RecvError (e : string) | OtherMessage | AgentReady (agentID : string).

(** Until the connection is created: the result of the call, or the agent. *)
Definition handshake (first : first_message) (p : peer) (s : State) : option status + (string * Agent) :=
  if isMaintenanceMode s then inl (Some (Status Unavailable "Server is in maintenance mode"))
  else match first with
       | EOF => inl None
       | RecvError e => inl (Some (Status Internal_ ("failed to receive initial message: " +:+ e)))
       | OtherMessage => inl (Some (Status InvalidArgument "first message must be AgentReady"))
       | AgentReady id =>
           if bool_decide (id = "") then inl (Some (Status InvalidArgument "agent_id is required"))
           else match verifyAgentCert p id with
                | Some e => inl (Some e)
                | None =>
                    match ret (AgentService.GetByID id (agents s)) with
                    | Ok (inl agent) => inr (id, agent)
                    | Ok (inr e) => inl (Some (Status Internal_ ("failed to lookup agent: " +:+ ServiceErrors.Error e)))
                    | _ => inl (Some (Status Internal_ ""))
                    end
                end
       end.

Definition Connect (first : first_message) (p : peer) (now : time) (s : State) : State :=
  match handshake first p s with
  | inl _ => s
  | inr (id, agent) =>
      {| s with streams := streams s ++ [mkStream id (Ready agent) now false false [] false NotStarted [] [] [] 0 false] |}
  end.

(** * The handler *)

(** What a step takes from outside. *)
Record env := mkEnv {
  now : time;
  now' : time;
  xid : string;
  timed_out : bool;                (* the half second of [Waiting] is over *)
  incoming : option AgentMessage   (* what [Recv] returns, [None] for an error or the end *)
}.

Definition on (i : nat) (f : Stream → Stream) (s : State) : State := {| s with streams := alter f i (streams s) |}.
Definition goto (p : phase) (c : Stream) : Stream := {| c with at_ := p |}.
Definition cancel (c : Stream) : Stream := {| c with cancelled := true |}.

Definition install (i : nat) (id : string) (agent : Agent) (s : State) : State :=
  on i (goto (Opening agent))
    {| s with connections := <[id := i]> (connections s); pendingCommands := <[id := i]> (pendingCommands s) |}.

Definition cleaned (old : nat) (s : State) : bool :=
  match streams s !! old with Some c => CleanupDone c | None => false end.

Definition touch (id : string) (t : time) (s : State) : State :=
  match connections s !! id with
  | Some k => on k (λ c, {| c with LastMessage := t |}) s
  | None => s
  end.

Definition upsert (agent : Agent) (t : time) (s : State) : State :=
  {| s with agents := st (AgentService.Upsert agent t (agents s)) |}.

Definition publish (id name status hostname : string) (s : State) : State :=
  {| s with events := events s ++ [(id, name, status, hostname)] |}.

Definition close_CleanupDone (conn : option nat) (s : State) : outcome :=
  match conn with
  | None => Next s
  | Some k => if cleaned k s then Panics else Next (on k (λ c, {| c with CleanupDone := true |}) s)
  end.

Definition is_closed (k : nat) (s : State) : bool :=
  match streams s !! k with Some c => closed c | None => false end.

Definition close_channel (id : string) (s : State) : outcome :=
  match pendingCommands s !! id with
  | None => Next s
  | Some k =>
      if is_closed k s then Panics
      else Next (on k (λ c, {| c with closed := true |}) {| s with pendingCommands := delete id (pendingCommands s) |})
  end.

Definition then_ (o : outcome) (f : State → State) : outcome :=
  match o with Next s => Next (f s) | Blocked => Blocked | Panics => Panics end.

Definition handler (i : nat) (e : env) (s : State) : outcome :=
  match streams s !! i with
  | None => Blocked
  | Some c =>
      let id := agentID c in
      match at_ c with
      | Ready agent =>
          match connections s !! id with
          | Some old => Next (on i (goto (Waiting agent old)) (on old cancel s))
          | None => Next (install i id agent s)
          end
      | Waiting agent old => if timed_out e || cleaned old s then Next (install i id agent s) else Blocked
      | Opening agent =>
          Next (on i (goto (Announcing agent.(Agent.Hostname)))
                 (upsert {| agent with Agent.Status := "online"; Agent.LastSeenAt := now e |} (now' e) s))
      | Announcing hostname =>
          Next (on i (λ c, {| c with at_ := Receiving; sending := Running |}) (publish id hostname "online" hostname s))
      | Receiving =>
          match incoming e with
          | None => Next (on i (goto Leaving) s)
          | Some msg => Next (on i (goto (Processing msg)) (touch id (now e) s))
          end
      | Processing msg =>
          Next (on i (goto Receiving)
                 {| s with deployments := st (Server.processAgentMessage msg (now e) (now' e) (xid e) (deployments s)) |})
      | Leaving =>
          Next (on i (goto (Signalling (connections s !! id))) {| s with connections := delete id (connections s) |})
      | Signalling conn => then_ (close_CleanupDone conn s) (on i (goto Closing))
      | Closing => then_ (close_channel id s) (on i (goto Finding))
      | Finding =>
          match ret (AgentService.GetByID id (agents s)) with
          | Ok (inl agent) => Next (on i (goto (Parting {| agent with Agent.Status := "offline" |})) s)
          | _ => Next (on i (goto Cancelling) s)
          end
      | Parting agent => Next (on i (goto (Withdrawing agent.(Agent.Hostname))) (upsert agent (now e) s))
      | Withdrawing hostname => Next (on i (goto Cancelling) (publish id hostname "offline" hostname s))
      | Cancelling => Next (on i (λ c, {| c with cancelled := true; at_ := Done |}) s)
      | Done => Blocked
      end
  end.

(** * Sending commands *)

(** One turn of the loop of [sendCommands]. *)
Inductive turn := TDone | TSend (sent : bool).

Definition sendCommands (i : nat) (t : turn) (s : State) : outcome :=
  match streams s !! i with
  | None => Blocked
  | Some c =>
      match sending c, t with
      | Running, TDone => if cancelled c then Next (on i (λ c, {| c with sending := Stopped |}) s) else Blocked
      | Running, TSend sent =>
          match queue c with
          | cmd :: rest =>
              Next (on i (λ c,
                if sent then {| c with queue := rest; delivered := delivered c ++ [cmd] |}
                else {| c with queue := rest; lost := [cmd]; sending := Stopped |}) s)
          | [] =>
              if closed c then
                Next (on i (λ c, if sent then {| c with blanks := S (blanks c) |} else {| c with sending := Stopped |}) s)
              else Blocked
          end
      | _, _ => Blocked
      end
  end.

Definition capacity : nat := 100.

(** [SendCommand], first under the lock, then on the channel. *)
Definition send_lookup (id : string) (msg : MasterMessage) (s : State) : State + string :=
  match pendingCommands s !! id with
  | None => inr ("agent " +:+ id +:+ " is not connected")
  | Some k => inl {| s with calls := calls s ++ [Some (k, msg)] |}
  end.

Definition send_put (n : nat) (s : State) : outcome :=
  match calls s !! n with
  | Some (Some (k, msg)) =>
      let s := {| s with calls := <[n := None]> (calls s) |} in
      match streams s !! k with
      | None => Blocked
      | Some c =>
          if closed c then Panics
          else if (length (queue c) <? capacity)%nat
               then Next (on k (λ c, {| c with queue := queue c ++ [msg]; accepted := accepted c ++ [msg] |}) s)
               else Next s (* "command queue full for agent" *)
      end
  | _ => Blocked
  end.

(** The call when nothing happens in between: the error, if any. *)
Definition SendCommand (id : string) (msg : MasterMessage) (s : State) : outcome * option string :=
  match send_lookup id msg s with
  | inr e => (Next s, Some e)
  | inl s' =>
      let full := match pendingCommands s !! id with
                  | Some k => match streams s !! k with Some c => (capacity <=? length (queue c))%nat | None => false end
                  | None => false
                  end in
      (send_put (length (calls s)) s', if full then Some ("command queue full for agent " +:+ id) else None)
  end.

Definition SendDeployCommand (id : string) (cmd : DeployCommand) := SendCommand id (MasterMessage_DeployCommand cmd).
Definition SendRollbackCommand (id : string) (cmd : RollbackCommand) := SendCommand id (MasterMessage_RollbackCommand cmd).
Definition SendCancelCommand (id : string) (cmd : CancelCommand) := SendCommand id (MasterMessage_CancelCommand cmd).
Definition SendUpdateCommand (id : string) (cmd : UpdateCommand) := SendCommand id (MasterMessage_UpdateCommand cmd).

Definition IsAgentConnected (id : string) (s : State) : bool := bool_decide (is_Some (connections s !! id)).
Definition GetConnectedAgents (s : State) : list string := (range (connections s)).*1.

Definition DisconnectAgent (id : string) (s : State) : State :=
  match connections s !! id with
  | Some k => on k cancel s
  | None => s
  end.

(** The connection to the agent breaks, or the agent ends it: the context of the stream is
    done, and with it that of the connection, which is derived from it.  [Recv] and [Send]
    may fail from then on, as they may before. *)
Definition transport_end (i : nat) (s : State) : State := on i (λ c, {| c with cancelled := true; ended := true |}) s.

(** * Steps *)

Inductive label :=
| LConnect (first : first_message) (p : peer) (t : time)
| LHandler (i : nat) (e : env)
| LSender (i : nat) (t : turn)
| LLookup (id : string) (msg : MasterMessage)
| LPut (n : nat)
| LDisconnect (id : string)
| LMaintenance (b : bool)
| LTransportEnd (i : nat).

Definition step (l : label) (s : State) : outcome :=
  match l with
  | LConnect first p t => Next (Connect first p t s)
  | LHandler i e => handler i e s
  | LSender i t => sendCommands i t s
  | LLookup id msg => Next (match send_lookup id msg s with inl s' => s' | inr _ => s end)
  | LPut n => send_put n s
  | LDisconnect id => Next (DisconnectAgent id s)
  | LMaintenance b => Next {| s with isMaintenanceMode := b |}
  | LTransportEnd i => Next (transport_end i s)
  end.

Fixpoint play (ls : list label) (s : State) : outcome :=
  match ls with
  | [] => Next s
  | l :: ls => match step l s with Next s' => play ls s' | o => o end
  end.

Inductive reachable : State → Prop :=
| reachable_start a d : reachable (start a d)
| reachable_step s l s' : reachable s → step l s = Next s' → reachable s'.

End conn.
Arguments MasterMessage : clear implicits.
Arguments Stream : clear implicits.
Arguments State : clear implicits.
Arguments outcome : clear implicits.
Arguments label : clear implicits.
End Conn.

(** * The invariant *)

Section invariant.
Context `{MapRange} {D R C U : Type}.
Import Conn.
Abbreviation State := (Conn.State D R C U).
Abbreviation Stream := (Conn.Stream D R C U).
Implicit Types (s : State) (c : Stream).

Definition installed (p : phase) : bool := match p with Ready _ | Waiting _ _ => false | _ => true end.

(** The goroutine has not been started. *)
Definition early (p : phase) : bool := match p with Ready _ | Waiting _ _ | Opening _ | Announcing _ => true | _ => false end.

(** A stream by itself: commands leave in the order they came, at most a hundred wait, at
    most one is lost, with the end of its goroutine; and before its connection is in the
    table nothing has happened. *)
Record sound c : Prop := {
  sound_flow : accepted c = delivered c ++ lost c ++ queue c;
  sound_bound : (length (queue c) ≤ capacity)%nat;
  sound_lost : lost c = [] ∨ sending c = Stopped ∧ length (lost c) = 1%nat;
  sound_sender : early (at_ c) = true ↔ sending c = NotStarted;
  sound_fresh : installed (at_ c) = false → CleanupDone c = false ∧ closed c = false ∧ queue c = []
}.

(** The tables name open channels and connections not cleaned up; a handler that is about
    to close [CleanupDone] is the only one that can. *)
Record wf s : Prop := {
  wf_sound i c : streams s !! i = Some c → sound c;
  wf_conn id k : connections s !! id = Some k →
    ∃ c, streams s !! k = Some c ∧ agentID c = id ∧ installed (at_ c) = true ∧ CleanupDone c = false;
  wf_pending id k : pendingCommands s !! id = Some k →
    ∃ c, streams s !! k = Some c ∧ agentID c = id ∧ installed (at_ c) = true ∧ closed c = false;
  wf_signal i c k : streams s !! i = Some c → at_ c = Signalling (Some k) →
    (∀ id, connections s !! id ≠ Some k) ∧
    ∃ ck, streams s !! k = Some ck ∧ installed (at_ ck) = true ∧ CleanupDone ck = false;
  wf_unique i j ci cj k : streams s !! i = Some ci → streams s !! j = Some cj →
    at_ ci = Signalling (Some k) → at_ cj = Signalling (Some k) → i = j;
  wf_calls n k msg : calls s !! n = Some (Some (k, msg)) → ∃ c, streams s !! k = Some c ∧ installed (at_ c) = true
}.

Lemma conn_start_wf a d : wf (start a d : State).
Proof. split; intros *; cbn; by rewrite ?lookup_nil, ?lookup_empty. Qed.

Lemma on_lookup i f j s : streams (on i f s) !! j = (if decide (i = j) then f <$> streams s !! j else streams s !! j).
Proof.
  unfold on; cbn. destruct (decide (i = j)) as [->|Hne]; [apply list_lookup_alter_eq|by apply list_lookup_alter_ne].
Qed.

Lemma wf_same s s' :
  streams s' = streams s → connections s' = connections s → pendingCommands s' = pendingCommands s → calls s' = calls s →
  wf s → wf s'.
Proof. intros E1 E2 E3 E4 [H1 H2 H3 H4 H5 H6]. split; rewrite ?E1, ?E2, ?E3, ?E4; done. Qed.

(** A change of one stream that touches none of what the tables rely on. *)
Record mild (f : Stream → Stream) c : Prop := {
  mild_sound : sound c → sound (f c);
  mild_agent : agentID (f c) = agentID c;
  mild_installed : installed (at_ c) = true → installed (at_ (f c)) = true;
  mild_cleanup : CleanupDone (f c) = CleanupDone c;
  mild_closed : closed (f c) = closed c;
  mild_signal k : at_ (f c) = Signalling (Some k) → at_ c = Signalling (Some k)
}.

Lemma wf_on i f s : (∀ c, streams s !! i = Some c → mild f c) → wf s → wf (on i f s).
Proof.
  intros Hf [H1 H2 H3 H4 H5 H6].
  assert (∀ j c', streams (on i f s) !! j = Some c' →
    ∃ c, streams s !! j = Some c ∧ (c' = c ∨ i = j ∧ c' = f c ∧ mild f c)) as Hback.
  { intros j c'. rewrite on_lookup. destruct (decide (i = j)) as [->|]; [|by eauto].
    destruct (streams s !! j) as [c|] eqn:E; [|done]. intros [= <-]. exists c. split; [done|]. right. auto. }
  assert (∀ j c, streams s !! j = Some c → ∃ c', streams (on i f s) !! j = Some c' ∧ (c' = c ∨ c' = f c ∧ mild f c)) as Hforth.
  { intros j c E. rewrite on_lookup, E. destruct (decide (i = j)) as [->|]; [|by eauto]. exists (f c). auto. }
  split.
  - intros j c' (c & E & [->|(-> & -> & M)])%Hback; [by eapply H1|]. by eapply M, H1.
  - intros id k (c & E & Ha & Hi & Hc)%H2. destruct (Hforth _ _ E) as (c' & E' & [->|[-> []]]); [by eauto|].
    exists (f c). split_and!; [done|congruence|auto|congruence].
  - intros id k (c & E & Ha & Hi & Hc)%H3. destruct (Hforth _ _ E) as (c' & E' & [->|[-> []]]); [by eauto|].
    exists (f c). split_and!; [done|congruence|auto|congruence].
  - intros j c' k (c & E & Hc)%Hback Hs.
    assert (at_ c = Signalling (Some k)) as Hs' by (destruct Hc as [->|(_ & -> & [])]; auto).
    destruct (H4 _ _ _ E Hs') as (Hn & ck & Ek & Hi & Hd). split; [done|].
    destruct (Hforth _ _ Ek) as (c'' & E'' & [->|[-> []]]); [by eauto|]. exists (f ck). split_and!; [done|auto|congruence].
  - intros j1 j2 c1' c2' k (c1 & E1 & Hc1)%Hback (c2 & E2 & Hc2)%Hback Hs1 Hs2. apply (H5 _ _ c1 c2 k); [done..| |].
    + destruct Hc1 as [->|(_ & -> & [])]; auto.
    + destruct Hc2 as [->|(_ & -> & [])]; auto.
  - intros n k msg (c & E & Hi)%H6. destruct (Hforth _ _ E) as (c' & E' & [->|[-> []]]); eauto.
Qed.

Lemma wf_connect first p t s : wf s → wf (Connect first p t s).
Proof.
  intros Hw. unfold Connect. destruct (handshake first p s) as [|[id agent]]; [done|]. destruct Hw as [H1 H2 H3 H4 H5 H6].
  set (new := mkStream _ _ _ _ _ _ _ _ _ _ _ _ _).
  assert (∀ j c, (streams s ++ [new]) !! j = Some c → streams s !! j = Some c ∨ j = length (streams s) ∧ c = new) as Hback.
  { intros j c [?|[? [? ?]%list_lookup_singleton_Some]]%lookup_app_Some; [by left|right]. split; [lia|done]. }
  assert (∀ j c, streams s !! j = Some c → (streams s ++ [new]) !! j = Some c) as Hforth by (intros; by apply lookup_app_l_Some).
  split; cbn [streams connections pendingCommands calls].
  - intros j c [E|[_ ->]]%Hback; [by eapply H1|]. split; cbn; [done|unfold capacity; lia|by left|done|done].
  - intros id' k (c & E & ?)%H2. exists c. auto.
  - intros id' k (c & E & ?)%H3. exists c. auto.
  - intros j c k [E|[_ ->]]%Hback Hs; [|done]. destruct (H4 _ _ _ E Hs) as (? & ck & Ek & ?). split; [done|]. exists ck. auto.
  - intros j1 j2 c1 c2 k [E1|[_ ->]]%Hback [E2|[_ ->]]%Hback Hs1 Hs2; [by eapply H5|done..].
  - intros n k msg (c & E & Hi)%H6. eauto.
Qed.

Lemma mild_goto p c :
  installed p = true → early p = early (at_ c) → (∀ k, p ≠ Signalling (Some k)) → mild (goto p) c.
Proof. intros Hp He Hk. split; cbn; [|done..|by intros k ?%Hk]. intros []. split; cbn; [done..|by rewrite He|by rewrite Hp]. Qed.

Lemma mild_cancel c : mild cancel c.
Proof. split; cbn; [|done..]. by intros []. Qed.

Lemma mild_transport_end c : mild (λ c, {| c with cancelled := true; ended := true |}) c.
Proof. split; cbn; [|done..]. by intros []. Qed.

Lemma wf_goto i p s c :
  streams s !! i = Some c → installed p = true → early p = early (at_ c) → (∀ k, p ≠ Signalling (Some k)) →
  wf s → wf (on i (goto p) s).
Proof. intros E Hp He Hk. apply wf_on. intros c' Ec'. simplify_eq. by apply mild_goto. Qed.

Lemma on_eq i f s c : streams s !! i = Some c → streams (on i f s) !! i = Some (f c).
Proof. intros E. by rewrite on_lookup, decide_True, E. Qed.

Lemma on_ne i j f s : i ≠ j → streams (on i f s) !! j = streams s !! j.
Proof. intros E. by rewrite on_lookup, decide_False. Qed.

(** The stream enters the tables. *)
Lemma wf_install i agent s c :
  streams s !! i = Some c → installed (at_ c) = false → wf s → wf (install i (agentID c) agent s).
Proof.
  intros E Hi Hw. destruct (sound_fresh _ (wf_sound _ Hw _ _ E) Hi) as (Hd & Hc & Hq).
  set (s1 := on i (goto (Opening agent)) s).
  assert (wf s1) as [H1 H2 H3 H4 H5 H6] by by apply (wf_goto _ _ _ c); destruct (at_ c).
  assert (streams s1 !! i = Some (goto (Opening agent) c)) as E1 by exact (on_eq i _ s c E).
  unfold install. split; cbn [streams connections pendingCommands calls on]; fold s1; try done.
  - intros id k. destruct (decide (id = agentID c)) as [->|Hne].
    + rewrite lookup_insert_eq. intros [= <-]. exists (goto (Opening agent) c). by split_and!.
    + rewrite lookup_insert_ne by done. apply H2.
  - intros id k. destruct (decide (id = agentID c)) as [->|Hne].
    + rewrite lookup_insert_eq. intros [= <-]. exists (goto (Opening agent) c). by split_and!.
    + rewrite lookup_insert_ne by done. apply H3.
  - intros j cj k Ej Hsg. change (streams s1 !! j = Some cj) in Ej.
    destruct (H4 _ _ _ Ej Hsg) as (Hn & ck & Ek & Hik & Hdk). split; [|by eauto].
    intros id. destruct (decide (id = agentID c)) as [->|Hne]; [|rewrite lookup_insert_ne by done; apply Hn].
    rewrite lookup_insert_eq. intros [= ->].
    (* the stream that is named was installed before *)
    destruct (decide (j = k)) as [->|Hjk]; [by assert (cj = goto (Opening agent) c) as -> by congruence|].
    unfold s1 in Ej. rewrite on_ne in Ej by done. destruct (wf_signal _ Hw _ _ _ Ej Hsg) as (_ & ck' & Ek' & Hik' & _).
    simplify_eq. congruence.
Qed.

(** A connection is taken out of the table. *)
Lemma wf_leave i s c :
  streams s !! i = Some c → at_ c = Leaving → wf s →
  wf (on i (goto (Signalling (connections s !! agentID c))) {| s with connections := delete (agentID c) (connections s) |}).
Proof.
  intros E Hi Hw. destruct (connections s !! agentID c) as [k|] eqn:Ek.
  2: { rewrite delete_id by done. apply (wf_goto _ _ _ c); [done|done|by rewrite Hi|done|]. by apply (wf_same s). }
  destruct Hw as [H1 H2 H3 H4 H5 H6]. destruct (H2 _ _ Ek) as (ck & Eck & Hak & Hik & Hdk).
  assert (∀ j c', streams (on i (goto (Signalling (Some k))) s) !! j = Some c' →
    ∃ c0, streams s !! j = Some c0 ∧ (i ≠ j ∧ c' = c0 ∨ i = j ∧ c' = goto (Signalling (Some k)) c)) as Hback.
  { intros j c'. destruct (decide (i = j)) as [->|Hne].
    - rewrite (on_eq _ _ _ _ E). intros [= <-]. exists c. auto.
    - rewrite on_ne by done. exists c'. auto. }
  assert (∀ j c0, streams s !! j = Some c0 → ∃ c', streams (on i (goto (Signalling (Some k))) s) !! j = Some c' ∧
    agentID c' = agentID c0 ∧ (installed (at_ c0) = true → installed (at_ c') = true) ∧ CleanupDone c' = CleanupDone c0 ∧ closed c' = closed c0) as Hforth.
  { intros j c0 E0. destruct (decide (i = j)) as [->|Hne].
    - rewrite (on_eq _ _ _ _ E0). eexists. by split_and!.
    - rewrite on_ne by done. exists c0. auto. }
  unfold on in *. cbn [streams connections pendingCommands calls] in *. split; cbn [streams connections pendingCommands calls].
  - intros j c' (c0 & E0 & [[_ ->]|[-> ->]])%Hback; [by eapply H1|]. destruct (H1 _ _ E). split; cbn; [done..| |done]. by rewrite Hi in sound_sender0.
  - intros id k'. destruct (decide (id = agentID c)) as [->|Hne]; [by rewrite lookup_delete_eq|].
    rewrite lookup_delete_ne by done. intros (c0 & E0 & Ha & Hin & Hd)%H2. destruct (Hforth _ _ E0) as (c' & E' & ? & ? & ? & ?).
    exists c'. split_and!; [done|congruence|auto|congruence].
  - intros id k' (c0 & E0 & Ha & Hin & Hd)%H3. destruct (Hforth _ _ E0) as (c' & E' & ? & ? & ? & ?).
    exists c'. split_and!; [done|congruence|auto|congruence].
  - intros j c' k' (c0 & E0 & Hc)%Hback Hs.
    assert ((∀ id, delete (agentID c) (connections s) !! id ≠ Some k') ∧ ∃ ck, streams s !! k' = Some ck ∧
      installed (at_ ck) = true ∧ CleanupDone ck = false) as (Hn & c1 & E1 & Hi1 & Hd1).
    { destruct Hc as [[_ ->]|[-> ->]].
      - destruct (H4 _ _ _ E0 Hs) as [Hn Hk']. split; [|done]. intros id.
        destruct (decide (id = agentID c)) as [->|Hne]; [by rewrite lookup_delete_eq|by rewrite lookup_delete_ne].
      - injection Hs as <-. split; [|by eauto]. intros id.
        destruct (decide (id = agentID c)) as [->|Hne]; [by rewrite lookup_delete_eq|]. rewrite lookup_delete_ne by done.
        intros (c2 & E2 & Ha2 & _)%H2. apply Hne. rewrite <- Ha2. by simplify_eq. }
    split; [done|]. destruct (Hforth _ _ E1) as (c2 & E2 & ? & ? & ? & ?). exists c2. split_and!; [done|auto|congruence].
  - intros j1 j2 c1 c2 k' (d1 & E1 & Hc1)%Hback (d2 & E2 & Hc2)%Hback Hs1 Hs2.
    destruct Hc1 as [[_ ->]|[<- ->]], Hc2 as [[_ ->]|[<- ->]]; [by eapply H5| | |done].
    + injection Hs2 as <-. destruct (H4 _ _ _ E1 Hs1) as [Hn _]; by destruct (Hn (agentID c)).
    + injection Hs1 as <-. destruct (H4 _ _ _ E2 Hs2) as [Hn _]; by destruct (Hn (agentID c)).
  - intros n k' msg (c0 & E0 & Hi0)%H6. destruct (Hforth _ _ E0) as (c' & E' & ? & ? & _). eauto.
Qed.

(** [CleanupDone] is closed: by the handler that took the connection out, once. *)
Lemma close_CleanupDone_wf i c conn s :
  streams s !! i = Some c → at_ c = Signalling conn → wf s →
  ∃ s1, close_CleanupDone conn s = Next s1 ∧ wf (on i (goto Closing) s1).
Proof.
  intros E Hc Hw. destruct conn as [k|]; [|by eexists; split; [done|apply (wf_goto _ _ _ c); rewrite ?Hc]].
  destruct (wf_signal _ Hw _ _ _ E Hc) as (Hn & ck & Ek & Hik & Hdk). unfold close_CleanupDone, cleaned. rewrite Ek, Hdk.
  eexists. split; [done|]. set (s1 := on k _ s). assert (wf (on i (goto Closing) s)) as Hg by by apply (wf_goto _ _ _ c); rewrite ?Hc.
  assert (streams (on i (goto Closing) s1) = alter (λ c, {| c with CleanupDone := true |}) k (streams (on i (goto Closing) s))) as Es.
  { apply list_eq. intros j. unfold s1. cbn [on streams]. destruct (decide (i = j)) as [->|Hij], (decide (k = j)) as [->|Hkj];
      repeat first [rewrite list_lookup_alter_eq|rewrite list_lookup_alter_ne by done]; [|done..]. by destruct (streams s !! j). }
  destruct Hg as [H1 H2 H3 H4 H5 H6]. cbn [on connections pendingCommands calls] in *.
  set (t := on i (goto Closing) s) in *. change (alter (goto Closing) i (streams s)) with (streams t) in *.
  assert (∀ j cj, streams (on i (goto Closing) s1) !! j = Some cj → ∃ cj', streams t !! j = Some cj' ∧ at_ cj = at_ cj' ∧
    (cj = cj' ∨ k = j ∧ cj = {| cj' with CleanupDone := true |})) as Hback.
  { intros j cj. rewrite Es. destruct (decide (k = j)) as [->|Hkj].
    - rewrite list_lookup_alter_eq. destruct (streams t !! j) as [cj'|]; [|done]. intros [= <-]. exists cj'. auto.
    - rewrite list_lookup_alter_ne by done. eauto. }
  assert (∀ j cj, k ≠ j → streams t !! j = Some cj → streams (on i (goto Closing) s1) !! j = Some cj) as Hforth.
  { intros j cj Hkj. by rewrite Es, list_lookup_alter_ne. }
  assert (∀ j cj, streams t !! j = Some cj → ∃ cj', streams (on i (goto Closing) s1) !! j = Some cj' ∧ agentID cj' = agentID cj ∧
    at_ cj' = at_ cj ∧ closed cj' = closed cj) as Hsame.
  { intros j cj Ej. rewrite Es. destruct (decide (k = j)) as [->|Hkj].
    - rewrite list_lookup_alter_eq, Ej. eexists. by split_and!.
    - rewrite list_lookup_alter_ne by done. eauto. }
  assert (∃ ck', streams t !! k = Some ck' ∧ installed (at_ ck') = true) as (ck' & Ek' & Hik').
  { unfold t. destruct (decide (i = k)) as [->|Hik2]; [rewrite (on_eq _ _ _ _ Ek)|rewrite on_ne by done]; eauto. }
  split; cbn [connections pendingCommands calls on s1]; try done.
  - intros j cj (cj' & Ej & Ha & [->|[<- ->]])%Hback; [by eapply H1|]. destruct (H1 _ _ Ej). split; cbn; [done..|].
    rewrite Ek' in Ej. injection Ej as <-. by rewrite Hik'.
  - intros id k' Hk'. destruct (H2 _ _ Hk') as (c0 & E0 & ?). exists c0. split; [|done]. apply Hforth; [|done]. intros <-. by apply (Hn id).
  - intros id k' (c0 & E0 & Ha & Hi & Hcl)%H3. destruct (Hsame _ _ E0) as (c1 & E1 & ? & Hat & ?). exists c1. rewrite Hat. split_and!; congruence.
  - intros j cj k' (cj' & Ej & Ha & _)%Hback Hsg. rewrite Ha in Hsg. destruct (H4 _ _ _ Ej Hsg) as (Hn' & c0 & E0 & Hi0 & Hd0).
    split; [done|]. exists c0. split; [|done]. apply Hforth; [|done]. intros <-.
    (* two handlers would be about to close it *)
    destruct (decide (i = j)) as [->|Hij].
    + unfold t in Ej. rewrite (on_eq _ _ _ _ E) in Ej. injection Ej as <-. done.
    + unfold t in Ej. rewrite on_ne in Ej by done. destruct Hij. by eapply (wf_unique _ Hw).
  - intros j1 j2 c1 c2 k' (c1' & E1 & Ha1 & _)%Hback (c2' & E2 & Ha2 & _)%Hback. rewrite Ha1, Ha2. by apply H5.
  - intros n k' msg (c0 & E0 & Hi0)%H6. destruct (Hsame _ _ E0) as (c1 & E1 & _ & Hat & _). exists c1. by rewrite Hat.
Qed.

(** The channel is closed: it was in the table, so it was open. *)
Lemma close_channel_wf i c id s :
  streams s !! i = Some c → at_ c = Closing → wf s → ∃ s1, close_channel id s = Next s1 ∧ wf (on i (goto Finding) s1).
Proof.
  intros E Hc Hw. unfold close_channel.
  destruct (pendingCommands s !! id) as [k|] eqn:Ek; [|by eexists; split; [done|apply (wf_goto _ _ _ c); rewrite ?Hc]].
  destruct (wf_pending _ Hw _ _ Ek) as (ck & Eck & Hak & Hik & Hck). unfold is_closed. rewrite Eck, Hck.
  set (f := λ c : Stream, {| c with closed := true |}). eexists. split; [done|].
  assert (∃ c1, streams (on k f s) !! i = Some c1 ∧ at_ c1 = Closing) as (c1 & Ec1 & Hc1).
  { destruct (decide (k = i)) as [->|Hki]; [rewrite (on_eq _ _ _ _ E)|rewrite on_ne by done]; eauto. }
  apply (wf_goto _ _ _ c1); [exact Ec1|done|by rewrite Hc1|done|]. clear c1 Ec1 Hc1. destruct Hw as [H1 H2 H3 H4 H5 H6].
  assert (∀ j c', streams (on k f s) !! j = Some c' → ∃ c0, streams s !! j = Some c0 ∧ at_ c' = at_ c0 ∧ (k ≠ j ∧ c' = c0 ∨ k = j ∧ c' = f c0)) as Hback.
  { intros j c'. destruct (decide (k = j)) as [->|Hne].
    - rewrite (on_eq _ _ _ _ Eck). intros [= <-]. exists ck. auto.
    - rewrite on_ne by done. exists c'. auto. }
  assert (∀ j c0, streams s !! j = Some c0 → ∃ c', streams (on k f s) !! j = Some c' ∧ agentID c' = agentID c0 ∧ at_ c' = at_ c0 ∧
    CleanupDone c' = CleanupDone c0 ∧ (k ≠ j → c' = c0)) as Hforth.
  { intros j c0 E0. destruct (decide (k = j)) as [->|Hne].
    - rewrite (on_eq _ _ _ _ E0). eexists. by split_and!.
    - rewrite on_ne by done. exists c0. auto. }
  unfold on in Hback, Hforth. cbn [streams] in Hback, Hforth.
  split; unfold on; cbn [streams connections pendingCommands calls].
  - intros j c' (c0 & E0 & Ha & [[_ ->]|[-> ->]])%Hback; [by eapply H1|]. assert (c0 = ck) as -> by congruence.
    destruct (H1 _ _ E0). split; cbn; [done..|]. by rewrite Hik.
  - intros id' k' (c0 & E0 & ? & ? & ?)%H2. destruct (Hforth _ _ E0) as (c' & E' & ? & Hat & ? & _). exists c'. rewrite Hat. split_and!; congruence.
  - intros id' k'. destruct (decide (id' = id)) as [->|Hne]; [by rewrite lookup_delete_eq|]. rewrite lookup_delete_ne by done.
    intros (c0 & E0 & Ha0 & ? & ?)%H3. destruct (Hforth _ _ E0) as (c' & E' & ? & Hat & ? & Heq). exists c'.
    rewrite Heq in * by (intros <-; congruence). by split_and!.
  - intros j c' k' (c0 & E0 & Ha & _)%Hback. rewrite Ha. intros (Hn & c1 & E1 & ? & ?)%(H4 _ _ _ E0). split; [done|].
    destruct (Hforth _ _ E1) as (c2 & E2 & ? & Hat & ? & _). exists c2. rewrite Hat. split_and!; congruence.
  - intros j1 j2 c1 c2 k' (d1 & E1 & Ha1 & _)%Hback (d2 & E2 & Ha2 & _)%Hback. rewrite Ha1, Ha2. by apply H5.
  - intros n k' msg (c0 & E0 & Hi0)%H6. destruct (Hforth _ _ E0) as (c' & E' & _ & Hat & _). exists c'. by rewrite Hat.
Qed.

(** A [SendCommand] call that got its channel before the channel was closed. *)
Definition late_put (l : label D R C U) s : Prop :=
  ∃ n k msg c, l = LPut n ∧ calls s !! n = Some (Some (k, msg)) ∧ streams s !! k = Some c ∧ closed c = true.

Lemma handler_wf i e s : wf s → handler i e s ≠ Panics ∧ ∀ s', handler i e s = Next s' → wf s'.
Proof.
  intros Hw. unfold handler. destruct (streams s !! i) as [c|] eqn:E; [|done].
  assert (∀ s', wf s' → Next s' ≠ Panics ∧ ∀ t, Next s' = Next t → wf t) as Hnext by (intros s' Hs'; split; [done|by intros t [= <-]]).
  assert (∀ p s', installed p = true → early p = early (at_ c) → (∀ k, p ≠ Signalling (Some k)) →
    streams s' = streams s → connections s' = connections s → pendingCommands s' = pendingCommands s → calls s' = calls s →
    wf (on i (goto p) s')) as Hgoto.
  { intros p s' Hp He Hk E1 E2 E3 E4. apply (wf_goto _ _ _ c); [by rewrite E1|done..|by apply (wf_same s)]. }
  destruct (at_ c) as [agent|agent old|agent|hostname| |msg| |conn| | |agent|hostname| |] eqn:Ha.
  - destruct (connections s !! agentID c) as [old|] eqn:Eo; apply Hnext; [|apply wf_install; [done|by rewrite Ha|done]].
    apply wf_on; [|apply wf_on; [intros ? _; apply mild_cancel|done]]. intros c' Ec'. destruct (wf_conn _ Hw _ _ Eo) as (co & Eco & _ & Hio & _).
    assert (c' = c) as ->. { rewrite on_ne in Ec'; [congruence|]. intros ->. rewrite E in Eco. injection Eco as <-. by rewrite Ha in Hio. }
    split; cbn; [|done|by rewrite Ha|done..]. intros []. rewrite Ha in *. by split.
  - destruct (_ || _); [apply Hnext|done]. apply wf_install; [done|by rewrite Ha|done].
  - by apply Hnext, Hgoto.
  - apply Hnext, wf_on; [|by apply (wf_same s)]. intros c' Ec'. assert (c' = c) as -> by (unfold publish in Ec'; cbn in Ec'; congruence).
    split; cbn; [|done..]. intros []. split; cbn; [done..| |done|done]. destruct sound_lost0 as [|[Hs Hl]]; [by left|].
    destruct sound_sender0 as [Hns _]. rewrite Ha, Hs in Hns. by specialize (Hns eq_refl).
  - destruct (incoming e); apply Hnext; [|by apply Hgoto]. apply wf_on.
    + intros c' Ec'. apply mild_goto; [done| |done]. cbn. assert (at_ c' = Receiving) as ->; [|done].
      unfold touch in Ec'. destruct (connections s !! agentID c) as [k|]; [|congruence]. rewrite on_lookup in Ec'.
      destruct (decide (k = i)) as [->|]; [|congruence]. rewrite E in Ec'. by injection Ec' as <-.
    + unfold touch. destruct (connections s !! agentID c); [|done]. apply wf_on; [|done]. intros c' _. split; cbn; [|done..]. by intros [].
  - by apply Hnext, Hgoto.
  - by apply Hnext, wf_leave.
  - destruct (close_CleanupDone_wf i c conn s E Ha Hw) as (s1 & -> & ?). by apply Hnext.
  - destruct (close_channel_wf i c (agentID c) s E Ha Hw) as (s1 & -> & ?). by apply Hnext.
  - destruct (ret _) as [[agent|?]|?|]; by apply Hnext, Hgoto.
  - by apply Hnext, Hgoto.
  - by apply Hnext, Hgoto.
  - apply Hnext, wf_on; [|done]. intros c' Ec'. simplify_eq. split; cbn; [|done..]. intros []. rewrite Ha in *. by split.
  - done.
Qed.

Lemma sendCommands_wf i t s : wf s → sendCommands i t s ≠ Panics ∧ ∀ s', sendCommands i t s = Next s' → wf s'.
Proof.
  intros Hw. unfold sendCommands. destruct (streams s !! i) as [c|] eqn:E; [|done].
  assert (∀ f, mild f c → Next (on i f s) ≠ Panics ∧ ∀ t, Next (on i f s) = Next t → wf t) as Hnext.
  { intros f Hf. split; [done|]. intros t' [= <-]. apply wf_on; [|done]. intros c' Ec'. by simplify_eq. }
  destruct (sending c) eqn:Hs, t as [|sent]; [done..| | |done|done].
  - destruct (cancelled c); [|done]. apply Hnext. split; cbn; [|done..]. intros []. rewrite Hs in *. split; cbn; [done|done| | |done].
    + destruct sound_lost0 as [|[]]; [by left|done].
    + destruct sound_sender0 as [Hns _]. split; [|done]. intros He. by specialize (Hns He).
  - destruct (queue c) as [|cmd rest] eqn:Eq.
    + destruct (closed c); [|done]. apply Hnext. destruct sent; (split; cbn; [|done..]); intros []; [by split|]. rewrite Hs in *.
      split; cbn; [done|done| | |done].
      * destruct sound_lost0 as [|[]]; [by left|done].
      * destruct sound_sender0 as [Hns _]. split; [|done]. intros He. by specialize (Hns He).
    + apply Hnext. destruct sent; (split; cbn; [|done..]); intros []; rewrite Hs, Eq in *;
        destruct sound_lost0 as [Hl|[]]; [|done| |done]; rewrite Hl in *; cbn in *.
      * split; cbn; rewrite ?Hl, ?Hs; [by rewrite <- app_assoc|lia|by left|done|]. intros Hf. by destruct (sound_fresh0 Hf) as (_ & _ & ?).
      * split; cbn; [done|lia|by right| |].
        -- destruct sound_sender0 as [Hns _]. split; [|done]. intros He. by specialize (Hns He).
        -- intros Hf. by destruct (sound_fresh0 Hf) as (_ & _ & ?).
Qed.

Lemma send_put_wf n s : wf s → (send_put n s = Panics → late_put (LPut n) s) ∧ ∀ s', send_put n s = Next s' → wf s'.
Proof.
  intros Hw. unfold send_put. destruct (calls s !! n) as [[[k msg]|]|] eqn:En; [|done..].
  cbn [streams]. destruct (streams s !! k) as [c|] eqn:Ek; [|done].
  assert (wf {| s with calls := <[n := None]> (calls s) |}) as Hw'.
  { destruct Hw as [H1 H2 H3 H4 H5 H6]. split; cbn; try done. intros n' k' msg'.
    destruct (decide (n = n')) as [<-|Hne]; [|rewrite list_lookup_insert_ne by done; apply H6].
    rewrite list_lookup_insert_eq; [done|]. by eapply lookup_lt_Some. }
  destruct (closed c) eqn:Ec; [split; [|done]; intros _; by exists n, k, msg, c|].
  split; [by case_match|]. intros s'. destruct (_ <? _)%nat eqn:Elt; intros [= <-]; [|done]. apply wf_on; [|done].
  intros c' Ec'. cbn in Ec'. simplify_eq. apply Nat.ltb_lt in Elt. split; cbn; [|done..]. intros [].
  destruct (wf_calls _ Hw _ _ _ En) as (c0 & Ec0 & Hi). simplify_eq.
  split; cbn; [by rewrite sound_flow0, !app_assoc|rewrite length_app; cbn; lia|done..|by rewrite Hi].
Qed.

Lemma step_wf l s : wf s → (step l s = Panics → late_put l s) ∧ ∀ s', step l s = Next s' → wf s'.
Proof.
  intros Hw. destruct l as [first p t|i e|i t|id msg|n|id|b|i]; cbn [step].
  - split; [done|]. intros s' [= <-]. by apply wf_connect.
  - destruct (handler_wf i e s Hw). by split.
  - destruct (sendCommands_wf i t s Hw). by split.
  - split; [done|]. intros s' [= <-]. unfold send_lookup. destruct (pendingCommands s !! id) as [k|] eqn:Ek; [|done].
    destruct (wf_pending _ Hw _ _ Ek) as (c & Ec & _ & Hi & _). destruct Hw as [H1 H2 H3 H4 H5 H6]. split; cbn; try done.
    intros n k' msg' [Hn|[_ [? [= <- <-]]%list_lookup_singleton_Some]]%lookup_app_Some; [by eapply H6|eauto].
  - by apply send_put_wf.
  - split; [done|]. intros s' [= <-]. unfold DisconnectAgent. destruct (connections s !! id); [|done].
    apply wf_on; [|done]. intros c _. apply mild_cancel.
  - split; [done|]. intros s' [= <-]. by apply (wf_same s).
  - split; [done|]. intros s' [= <-]. apply wf_on; [|done]. intros c _. apply mild_transport_end.
Qed.

Lemma reachable_wf s : reachable s → wf s.
Proof. induction 1 as [|s l s' _ Hw Hs]; [apply conn_start_wf|]. by eapply step_wf. Qed.

End invariant.

(** * What can go wrong *)

Section hazards.
Context `{MapRange} {D R C U : Type}.
Import Conn.
Abbreviation State := (Conn.State D R C U).
Abbreviation Stream := (Conn.Stream D R C U).
Implicit Types (s : State) (c : Stream).

(** C17: however the handlers, the goroutines and the callers are interleaved, the commands
    of a stream are delivered in the order they were accepted, with at most a hundred waiting
    and at most one lost, and none after that; a connection in the table is one of a stream
    of its agent that is not cleaned up, a channel in the table is open; [CleanupDone] and
    the channels are closed once; and the server panics exactly when [SendCommand] looked up
    a channel that has been closed before it puts its command into it. *)
Theorem only_late_sends_panic s :
  reachable s →
  (∀ i c, streams s !! i = Some c →
     accepted c = delivered c ++ lost c ++ queue c ∧ (length (queue c) ≤ 100)%nat ∧
     (lost c = [] ∨ sending c = Stopped ∧ length (lost c) = 1%nat)) ∧
  (∀ id k, connections s !! id = Some k → ∃ c, streams s !! k = Some c ∧ agentID c = id ∧ CleanupDone c = false) ∧
  (∀ id k, pendingCommands s !! id = Some k → ∃ c, streams s !! k = Some c ∧ agentID c = id ∧ closed c = false) ∧
  ∀ l, step l s = Panics ↔ late_put l s.
Proof.
  intros Hw%reachable_wf. split_and!.
  - intros i c E. by destruct (wf_sound _ Hw _ _ E).
  - intros id k (c & ? & ? & _ & ?)%(wf_conn _ Hw). eauto.
  - intros id k (c & ? & ? & _ & ?)%(wf_pending _ Hw). eauto.
  - intros l. split; [by apply step_wf|]. intros (n & k & msg & c & -> & E1 & E2 & E3). cbn. unfold send_put. rewrite E1.
    cbn. by rewrite E2, E3.
Qed.

(** The agent is not in the tables, and no stream is about to put it there. *)
Definition absent (id : string) s : Prop :=
  connections s !! id = None ∧ pendingCommands s !! id = None ∧
  ∀ i c, streams s !! i = Some c → agentID c = id → installed (at_ c) = true.

Definition not_opening (id : string) (l : label D R C U) : Prop :=
  match l with LConnect (AgentReady id') _ _ => id' ≠ id | _ => True end.

(** Streams keep their agent, and once installed stay so. *)
Lemma absent_on id i f s :
  (∀ c, agentID (f c) = agentID c) →
  (∀ c, streams s !! i = Some c → installed (at_ c) = true → installed (at_ (f c)) = true) → absent id s → absent id (on i f s).
Proof.
  intros Ha Hi (H1 & H2 & H3). split_and!; [done..|]. intros j c. rewrite on_lookup. destruct (decide (i = j)) as [->|]; [|by apply H3].
  destruct (streams s !! j) as [c0|] eqn:E; [|done]. intros [= <-]. rewrite Ha. intros Hid. eauto.
Qed.

Lemma absent_same id s s' :
  streams s' = streams s → connections s' !! id = connections s !! id → pendingCommands s' !! id = pendingCommands s !! id →
  absent id s → absent id s'.
Proof. intros E1 E2 E3 (H1 & H2 & H3). unfold absent. rewrite E1, E2, E3. done. Qed.

Lemma handler_absent id i e s s' : handler i e s = Next s' → absent id s → absent id s'.
Proof.
  intros Hs Ha. unfold handler in Hs. destruct (streams s !! i) as [c|] eqn:E; [|done].
  assert (∀ p s1, installed p = true → streams s1 = streams s → connections s1 !! id = connections s !! id →
    pendingCommands s1 !! id = pendingCommands s !! id → absent id (on i (goto p) s1)) as Hgoto.
  { intros p s1 Hp E1 E2 E3. apply absent_on; [done|done|by apply (absent_same id s)]. }
  assert (installed (at_ c) = false → agentID c ≠ id) as Hne.
  { intros Hi <-. destruct Ha as (_ & _ & H3). by rewrite (H3 _ _ E eq_refl) in Hi. }
  destruct (at_ c) as [agent|agent old|agent|hostname| |msg| |conn| | |agent|hostname| |] eqn:Hat.
  - specialize (Hne eq_refl). destruct (connections s !! agentID c) as [old|]; injection Hs as <-.
    + apply absent_on; [done| |apply absent_on; [done|done|done]]. intros c' Ec'. rewrite on_lookup, E in Ec'.
      destruct (decide (old = i)); injection Ec' as <-; cbn; by rewrite Hat.
    + apply Hgoto; [done|done|cbn; by rewrite lookup_insert_ne..].
  - specialize (Hne eq_refl). destruct (_ || _); [|done]. injection Hs as <-. apply Hgoto; [done|done|cbn; by rewrite lookup_insert_ne..].
  - injection Hs as <-. by apply Hgoto.
  - injection Hs as <-. apply absent_on; [done|done|by apply (absent_same id s)].
  - destruct (incoming e); injection Hs as <-; [|by apply Hgoto]. apply absent_on; [done|done|]. unfold touch.
    destruct (connections s !! agentID c); [|done]. by apply absent_on.
  - injection Hs as <-. by apply Hgoto.
  - injection Hs as <-. apply Hgoto; [done|done| |done]. cbn. destruct Ha as (E1 & _). rewrite E1.
    destruct (decide (agentID c = id)) as [->|]; [by rewrite lookup_delete_eq|by rewrite lookup_delete_ne].
  - destruct conn as [k|]; [|injection Hs as <-; by apply Hgoto]. unfold close_CleanupDone in Hs. destruct (cleaned k s); [done|].
    injection Hs as <-. apply absent_on; [done|done|by apply absent_on].
  - unfold close_channel in Hs. destruct (pendingCommands s !! agentID c) as [k|] eqn:Ek; [|injection Hs as <-; by apply Hgoto].
    destruct (is_closed k s); [done|]. injection Hs as <-. apply absent_on; [done|done|]. apply absent_on; [done|done|].
    destruct Ha as (E1 & E2 & E3). split_and!; [done| |done]. cbn. rewrite lookup_delete_ne; [done|]. congruence.
  - destruct (ret _) as [[agent|?]|?|]; injection Hs as <-; by apply Hgoto.
  - injection Hs as <-. by apply Hgoto.
  - injection Hs as <-. by apply Hgoto.
  - injection Hs as <-. by apply absent_on.
  - done.
Qed.

Lemma step_absent id l s s' : not_opening id l → step l s = Next s' → absent id s → absent id s'.
Proof.
  intros Hn Hs Ha. destruct l as [first p t|i e|i t|id' msg|n|id'|b|i]; cbn [step] in Hs.
  - injection Hs as <-. unfold Connect. destruct (handshake first p s) as [|[id' agent]] eqn:Eh; [done|].
    destruct Ha as (E1 & E2 & E3). split_and!; [done..|]. cbn.
    intros i c [E|[_ [_ <-]%list_lookup_singleton_Some]]%lookup_app_Some; [by eapply E3|]. cbn. intros ->. exfalso.
    unfold handshake in Eh. destruct (isMaintenanceMode s), first as [| | |id']; try done. cbn in Hn.
    destruct (bool_decide (id' = "")); [done|]. destruct (verifyAgentCert p id'); [done|].
    destruct (ret _) as [[]|?|]; simplify_eq.
  - by eapply handler_absent.
  - unfold sendCommands in Hs. destruct (streams s !! i) as [c|] eqn:E; [|done]. destruct (sending c), t as [|sent]; try done.
    + destruct (cancelled c); [|done]. injection Hs as <-. by apply absent_on.
    + destruct (queue c); [destruct (closed c); [|done]|]; injection Hs as <-; apply absent_on; try done; by destruct sent.
  - injection Hs as <-. unfold send_lookup. destruct (pendingCommands s !! id'); [|done]. by apply (absent_same id s).
  - unfold send_put in Hs. destruct (calls s !! n) as [[[k msg]|]|]; [|done..]. cbn [streams] in Hs.
    destruct (streams s !! k) as [c|]; [|done]. destruct (closed c); [done|]. case_match; injection Hs as <-; [apply absent_on; [done|done|]|];
      by apply (absent_same id s).
  - injection Hs as <-. unfold DisconnectAgent. destruct (connections s !! id'); [|done]. by apply absent_on.
  - injection Hs as <-. by apply (absent_same id s).
  - injection Hs as <-. by apply absent_on.
Qed.

Lemma play_absent id ls s s' : Forall (not_opening id) ls → play ls s = Next s' → absent id s → absent id s'.
Proof.
  intros Hl. revert s. induction Hl as [|l ls Hn _ IH]; intros s Hs Ha; cbn in Hs; [by injection Hs as <-|].
  destruct (step l s) as [s1| |] eqn:E; [|done..]. eapply IH; [done|]. by eapply step_absent.
Qed.

#[local] Ltac lookup_alter := repeat first [rewrite list_lookup_alter_eq|rewrite list_lookup_alter_ne by done].

(** The four steps of a handler whose client is gone, until its channel is closed. *)
Definition leave (i : nat) (e1 e2 e3 e4 : env) : list (label D R C U) := [LHandler i e1; LHandler i e2; LHandler i e3; LHandler i e4].

Lemma leave_spec i j ci cj e1 e2 e3 e4 s :
  i ≠ j → streams s !! i = Some ci → at_ ci = Receiving → incoming e1 = None →
  connections s !! agentID ci = Some j → pendingCommands s !! agentID ci = Some j →
  streams s !! j = Some cj → CleanupDone cj = false → closed cj = false →
  play (leave i e1 e2 e3 e4) s = Next {| s with
    streams := <[i := goto Finding ci]> (<[j := {| cj with CleanupDone := true; closed := true |}]> (streams s));
    connections := delete (agentID ci) (connections s);
    pendingCommands := delete (agentID ci) (pendingCommands s) |}.
Proof.
  intros Hij Ei Hi He Hc Hp Ej Hd Hcl. unfold leave. cbn [play step].
  unfold handler at 1. rewrite Ei, Hi, He. set (s1 := on i (goto Leaving) s).
  assert (streams s1 !! i = Some (goto Leaving ci)) as E1 by by apply on_eq.
  unfold handler at 1. rewrite E1. cbn [goto at_ agentID]. change (connections s1) with (connections s). rewrite Hc.
  set (s2 := on i _ _). assert (streams s2 !! i = Some (goto (Signalling (Some j)) ci)) as E2.
  { unfold s2. by rewrite (on_eq _ _ _ (goto Leaving ci)). }
  assert (streams s2 !! j = Some cj) as F2. { unfold s2. rewrite on_ne by done. cbn [streams]. unfold s1. by rewrite on_ne. }
  unfold handler at 1. rewrite E2. cbn [goto at_ agentID close_CleanupDone]. unfold cleaned. rewrite F2, Hd. cbn [then_].
  set (s3 := on i _ _). assert (streams s3 !! i = Some (goto Closing ci)) as E3.
  { unfold s3. by rewrite (on_eq _ _ _ (goto (Signalling (Some j)) ci)) by by rewrite on_ne. }
  assert (streams s3 !! j = Some {| cj with CleanupDone := true |}) as F3. { unfold s3. rewrite on_ne by done. by rewrite (on_eq _ _ _ cj). }
  unfold handler at 1. rewrite E3. cbn [goto at_ agentID]. unfold close_channel. change (pendingCommands s3) with (pendingCommands s). rewrite Hp.
  unfold is_closed. rewrite F3. cbn [closed]. rewrite Hcl. cbn [then_]. f_equal. unfold on. cbn [streams connections pendingCommands]. f_equal.
  unfold s3, s2, s1, on. cbn [streams]. apply list_eq. intros k. destruct (decide (i = k)) as [->|Hik]; [|destruct (decide (j = k)) as [->|Hjk]].
  - rewrite list_lookup_insert_eq by (rewrite length_insert; by eapply lookup_lt_Some). lookup_alter. by rewrite Ei.
  - rewrite list_lookup_insert_ne, list_lookup_insert_eq by first [done|by eapply lookup_lt_Some]. lookup_alter. by rewrite Ej.
  - rewrite !list_lookup_insert_ne by done. by lookup_alter.
Qed.

(** C19: when an agent has opened a second stream while the first was still being read (the
    wait for the first is over after half a second), the end of the first takes the second
    out of the tables and closes its channel: the server reads the second stream but counts
    the agent as not connected and refuses its commands, and so it stays, whatever
    happens, until the agent opens another stream. *)
Theorem replaced_connection_lost i j ci cj e1 e2 e3 e4 s :
  reachable s → i ≠ j →
  streams s !! i = Some ci → at_ ci = Receiving → streams s !! j = Some cj → at_ cj = Receiving →
  connections s !! agentID ci = Some j → pendingCommands s !! agentID ci = Some j →
  (∀ k c, streams s !! k = Some c → agentID c = agentID ci → installed (at_ c) = true) →
  incoming e1 = None →
  ∃ s1, play (leave i e1 e2 e3 e4) s = Next s1 ∧
    streams s1 !! j = Some {| cj with CleanupDone := true; closed := true |} ∧
    ∀ ls s2, Forall (not_opening (agentID ci)) ls → play ls s1 = Next s2 →
      IsAgentConnected (agentID ci) s2 = false ∧
      ∀ msg, SendCommand (agentID ci) msg s2 = (Next s2, Some ("agent " +:+ agentID ci +:+ " is not connected")).
Proof.
  intros Hw%reachable_wf Hij Ei Hi Ej Hj Hc Hp Hopen He.
  destruct (wf_conn _ Hw _ _ Hc) as (c1 & E1 & Ha1 & _ & Hd). destruct (wf_pending _ Hw _ _ Hp) as (c2 & E2 & _ & _ & Hcl).
  simplify_eq. eexists. split; [by apply (leave_spec i j ci cj)|]. split.
  { cbn. rewrite list_lookup_insert_ne by done. rewrite list_lookup_insert_eq; [done|]. by eapply lookup_lt_Some. }
  intros ls s2 Hls Hplay. apply (play_absent (agentID ci)) in Hplay as (F1 & F2 & _); [|done|].
  - unfold IsAgentConnected, SendCommand, send_lookup. rewrite F1, F2. split; [|done]. apply bool_decide_false. by intros [].
  - split_and!; [apply lookup_delete_eq..|]. cbn. intros k c. destruct (decide (i = k)) as [->|Hik].
    + rewrite list_lookup_insert_eq by (rewrite length_insert; by eapply lookup_lt_Some). by intros [= <-].
    + rewrite list_lookup_insert_ne by done. destruct (decide (j = k)) as [->|Hjk].
      * rewrite list_lookup_insert_eq by (by eapply lookup_lt_Some). intros [= <-]. cbn. by rewrite Hj.
      * rewrite list_lookup_insert_ne by done. apply Hopen.
Qed.

(** The goroutine of the stream has ended, with this delivered. *)
Definition stopped_at (i : nat) (sent : list (MasterMessage D R C U)) s : Prop :=
  ∃ c, streams s !! i = Some c ∧ sending c = Stopped ∧ delivered c = sent.

Lemma stopped_on i sent j f s :
  (∀ c, streams s !! j = Some c → sending c = Stopped → sending (f c) = Stopped ∧ delivered (f c) = delivered c) →
  stopped_at i sent s → stopped_at i sent (on j f s).
Proof.
  intros Hf (c & E & Hs & Hd). unfold stopped_at. rewrite on_lookup, E. destruct (decide (j = i)) as [->|]; [|by eauto].
  destruct (Hf _ E Hs). exists (f c). split_and!; [done..|congruence].
Qed.

Lemma stopped_same i sent s s' : streams s' = streams s → stopped_at i sent s → stopped_at i sent s'.
Proof. unfold stopped_at. by intros ->. Qed.

Lemma handler_stopped i sent j e s s' : wf s → handler j e s = Next s' → stopped_at i sent s → stopped_at i sent s'.
Proof.
  intros Hw Hs Ha. unfold handler in Hs. destruct (streams s !! j) as [c|] eqn:E; [|done].
  assert (∀ p s1, streams s1 = streams s → stopped_at i sent (on j (goto p) s1)) as Hgoto.
  { intros p s1 E1. apply stopped_on; [done|by apply (stopped_same _ _ s)]. }
  destruct (at_ c) as [agent|agent old|agent|hostname| |msg| |conn| | |agent|hostname| |] eqn:Hat.
  - destruct (connections s !! agentID c); injection Hs as <-; [|by apply Hgoto]. by apply stopped_on, stopped_on.
  - destruct (_ || _); [|done]. injection Hs as <-. by apply Hgoto.
  - injection Hs as <-. by apply Hgoto.
  - injection Hs as <-. apply stopped_on; [|by apply (stopped_same _ _ s)]. intros c' Ec' Hc'.
    assert (c' = c) as -> by (unfold publish in Ec'; cbn in Ec'; congruence).
    destruct (sound_sender _ (wf_sound _ Hw _ _ E)) as [Hn _]. rewrite Hat, Hc' in Hn. by specialize (Hn eq_refl).
  - destruct (incoming e); injection Hs as <-; [|by apply Hgoto]. apply stopped_on; [done|]. unfold touch.
    destruct (connections s !! agentID c); [|done]. by apply stopped_on.
  - injection Hs as <-. by apply Hgoto.
  - injection Hs as <-. by apply Hgoto.
  - destruct conn as [k|]; [|injection Hs as <-; by apply Hgoto]. unfold close_CleanupDone in Hs. destruct (cleaned k s); [done|].
    injection Hs as <-. by apply stopped_on, stopped_on.
  - unfold close_channel in Hs. destruct (pendingCommands s !! agentID c) as [k|]; [|injection Hs as <-; by apply Hgoto].
    destruct (is_closed k s); [done|]. injection Hs as <-. by apply stopped_on, stopped_on.
  - destruct (ret _) as [[agent|?]|?|]; injection Hs as <-; by apply Hgoto.
  - injection Hs as <-. by apply Hgoto.
  - injection Hs as <-. by apply Hgoto.
  - injection Hs as <-. by apply stopped_on.
  - done.
Qed.

Lemma step_stopped i sent l s s' : wf s → step l s = Next s' → stopped_at i sent s → stopped_at i sent s'.
Proof.
  intros Hw Hs Ha. destruct l as [first p t|j e|j t|id' msg|n|id'|b|j]; cbn [step] in Hs.
  - injection Hs as <-. unfold Connect. destruct (handshake first p s) as [|[]]; [done|]. destruct Ha as (c & E & ?).
    exists c. split; [|done]. by apply lookup_app_l_Some.
  - by eapply handler_stopped.
  - unfold sendCommands in Hs. destruct (streams s !! j) as [c|] eqn:E; [|done]. destruct (sending c) eqn:Hc, t as [|sent']; try done.
    + destruct (cancelled c); [|done]. injection Hs as <-. by apply stopped_on.
    + destruct (queue c); [destruct (closed c); [|done]|]; injection Hs as <-; (apply stopped_on; [|done]); intros c' Ec' Hs'; congruence.
  - injection Hs as <-. unfold send_lookup. by destruct (pendingCommands s !! id').
  - unfold send_put in Hs. destruct (calls s !! n) as [[[k msg]|]|]; [|done..]. cbn [streams] in Hs.
    destruct (streams s !! k) as [c|]; [|done]. destruct (closed c); [done|]. case_match; injection Hs as <-; [|done]. by apply stopped_on.
  - injection Hs as <-. unfold DisconnectAgent. destruct (connections s !! id'); [|done]. by apply stopped_on.
  - by injection Hs as <-.
  - injection Hs as <-. by apply stopped_on.
Qed.

Lemma play_stopped i sent ls s s' : wf s → play ls s = Next s' → stopped_at i sent s → stopped_at i sent s'.
Proof.
  revert s. induction ls as [|l ls IH]; intros s Hw Hs Ha; cbn in Hs; [by injection Hs as <-|].
  destruct (step l s) as [s1| |] eqn:E; [|done..]. eapply IH; [|done|by eapply step_stopped]. by eapply step_wf.
Qed.

(** [DisconnectAgent] cancels only the goroutine that sends: once it has stopped nothing
    is ever delivered on the stream again, but the server goes on reading the stream,
    counts the agent as connected and accepts its commands as long as fewer than a hundred
    wait. *)
Theorem disconnect_only_stops_sending id i c s :
  reachable s → connections s !! id = Some i → pendingCommands s !! id = Some i →
  streams s !! i = Some c → sending c = Running →
  ∃ s1, play [LDisconnect id; LSender i TDone] s = Next s1 ∧
    at_ <$> streams s1 !! i = Some (at_ c) ∧ IsAgentConnected id s1 = true ∧
    (∀ msg, (length (queue c) < 100)%nat → ∃ s2, SendCommand id msg s1 = (Next s2, None) ∧
       queue <$> streams s2 !! i = Some (queue c ++ [msg])) ∧
    ∀ ls s2, play ls s1 = Next s2 → delivered <$> streams s2 !! i = Some (delivered c).
Proof.
  intros Hw%reachable_wf Hc Hp E Hs. destruct (wf_pending _ Hw _ _ Hp) as (c' & E' & _ & _ & Hcl). simplify_eq.
  set (s1 := on i cancel s). assert (streams s1 !! i = Some (cancel c)) as E1 by exact (on_eq i _ s c E).
  set (f := λ c : Stream, {| c with sending := Stopped |}). set (s2 := on i f s1).
  assert (streams s2 !! i = Some (f (cancel c))) as E2 by by apply on_eq.
  assert (play [LDisconnect id; LSender i TDone] s = Next s2) as Hplay.
  { cbn [play step]. unfold DisconnectAgent. rewrite Hc. fold s1. unfold sendCommands. rewrite E1. cbn. by rewrite Hs. }
  exists s2. split_and!; [done|by rewrite E2|by apply bool_decide_true; eexists| |].
  - intros msg Hq. unfold SendCommand, send_lookup. change (pendingCommands s2) with (pendingCommands s). rewrite Hp, E2.
    change (capacity <=? length (queue (f (cancel c))))%nat with (100 <=? length (queue c))%nat.
    rewrite (proj2 (Nat.leb_gt _ _)) by done. unfold send_put. cbn [calls]. change (calls s2) with (calls s).
    rewrite list_lookup_middle by done. cbn [streams]. rewrite E2. cbn [f cancel closed queue]. rewrite Hcl.
    rewrite (proj2 (Nat.ltb_lt _ _)) by done. eexists. split; [done|]. by rewrite (on_eq _ _ _ (f (cancel c))).
  - intros ls s3 H3. apply (play_stopped i (delivered c)) in H3 as (c3 & -> & _ & <-); [done| |].
    + destruct (step_wf (LDisconnect id) s Hw) as [_ Hw1]. specialize (Hw1 s1). cbn in Hw1. unfold DisconnectAgent in Hw1. rewrite Hc in Hw1.
      destruct (step_wf (LSender i TDone) s1 (Hw1 eq_refl)) as [_ Hw2]. apply Hw2. cbn. unfold sendCommands. rewrite E1. cbn. by rewrite Hs.
    + exists (f (cancel c)). by split_and!.
Qed.

End hazards.

(** * Streams one after the other *)

Section alone.
Context `{MapRange} {D R C U : Type}.
Import Conn.
Abbreviation State := (Conn.State D R C U).
Abbreviation Stream := (Conn.Stream D R C U).
Implicit Types (s : State) (c : Stream).

(** What may happen when no stream of an agent is opened before the last one is over, and
    nobody disconnects agents. *)
Definition in_turn (l : label D R C U) s : Prop :=
  match l with
  | LConnect first p _ =>
      match handshake first p s with
      | inr (id, _) => ∀ i c, streams s !! i = Some c → agentID c = id → at_ c = Done
      | inl _ => True
      end
  | LDisconnect _ => False
  | _ => True
  end.

Inductive orderly : State → Prop :=
| orderly_start a d : orderly (start a d)
| orderly_step s l s' : orderly s → in_turn l s → step l s = Next s' → orderly s'.

Lemma orderly_reachable s : orderly s → reachable s.
Proof. induction 1; [constructor|by econstructor]. Qed.

(** The entries of the two tables for the agent of a stream that is not over. *)
Definition entries (p : phase) (i : nat) : option nat * option nat :=
  match p with
  | Opening _ | Announcing _ | Receiving | Processing _ | Leaving => (Some i, Some i)
  | Signalling _ | Closing => (None, Some i)
  | _ => (None, None)
  end.

#[local] Instance is_done_dec (p : phase) : Decision (p = Done).
Proof. by destruct p; first [left; reflexivity|right]. Defined.

Record steady (i : nat) c : Prop := {
  steady_waits a old : at_ c ≠ Waiting a old;
  steady_signal conn : at_ c = Signalling conn → conn = Some i;
  steady_cancel : at_ c ≠ Done → cancelled c = true → ended c = true;
  steady_send : (entries (at_ c) i).2 = Some i → sending c = Stopped → lost c ≠ [] ∨ ended c = true
}.

Definition looked_up (id : string) s : option nat * option nat := (connections s !! id, pendingCommands s !! id).

Record served s : Prop := {
  served_steady i c : streams s !! i = Some c → steady i c;
  served_one i j ci cj : streams s !! i = Some ci → streams s !! j = Some cj →
    agentID ci = agentID cj → at_ ci ≠ Done → at_ cj ≠ Done → i = j;
  served_entries i c : streams s !! i = Some c → at_ c ≠ Done → looked_up (agentID c) s = entries (at_ c) i;
  served_none id : (∀ i c, streams s !! i = Some c → agentID c = id → at_ c = Done) → looked_up id s = (None, None)
}.

Lemma start_served a d : served (start a d : State).
Proof. split; intros *; cbn; by rewrite ?lookup_nil. Qed.

(** A stream changes, and the entries of its agent with it. *)
Lemma served_update i c c' s s' :
  streams s !! i = Some c → streams s' = <[i := c']> (streams s) → agentID c' = agentID c → at_ c ≠ Done → steady i c' →
  looked_up (agentID c) s' = entries (at_ c') i → (∀ id, id ≠ agentID c → looked_up id s' = looked_up id s) →
  served s → served s'.
Proof.
  intros E Es Hid Hnd Hst Hl Ho [H1 H2 H3 H4].
  assert (∀ j cj, streams s' !! j = Some cj → i = j ∧ cj = c' ∨ i ≠ j ∧ streams s !! j = Some cj) as Hback.
  { intros j cj. rewrite Es. destruct (decide (i = j)) as [<-|Hne]; [|rewrite list_lookup_insert_ne by done; by right].
    rewrite list_lookup_insert_eq by (by eapply lookup_lt_Some). intros [= <-]. by left. }
  split.
  - intros j cj [[<- ->]|[_ Ej]]%Hback; [done|by apply H1].
  - intros j1 j2 c1 c2 [[<- ->]|[Hn1 E1]]%Hback [[<- ->]|[Hn2 E2]]%Hback Hids Hd1 Hd2; [done|..].
    + eapply H2; [exact E|exact E2|congruence|done|done].
    + eapply H2; [exact E1|exact E|congruence|done|done].
    + by eapply H2.
  - intros j cj [[<- ->]|[Hn Ej]]%Hback Hd; [by rewrite Hid, Hl|]. rewrite Ho; [by apply H3|]. intros Heq.
    by apply Hn, (H2 _ _ _ _ E Ej).
  - intros id Hall. destruct (decide (id = agentID c)) as [->|Hne].
    + rewrite Hl. assert (at_ c' = Done) as ->; [|done]. apply (Hall i c'); [|done]. rewrite Es, list_lookup_insert_eq; [done|by eapply lookup_lt_Some].
    + rewrite Ho by done. apply H4. intros j cj Ej Hj. apply (Hall j cj); [|done]. rewrite Es, list_lookup_insert_ne; [done|]. intros <-. congruence.
Qed.

(** Changes of a stream that keep where it is. *)
Record calm (f : Stream → Stream) c : Prop := {
  calm_agent : agentID (f c) = agentID c;
  calm_at : at_ (f c) = at_ c;
  calm_ended : ended c = true → ended (f c) = true;
  calm_cancel : cancelled (f c) = true → cancelled c = true ∨ ended (f c) = true;
  calm_send : sending (f c) = Stopped → lost (f c) = [] →
    sending c = Stopped ∧ lost c = [] ∨ ended (f c) = true ∨ (entries (at_ c) 0).2 = None
}.

Lemma served_on i f s : (∀ c, streams s !! i = Some c → calm f c) → served s → served (on i f s).
Proof.
  intros Hf [H1 H2 H3 H4].
  assert (∀ j c', streams (on i f s) !! j = Some c' → ∃ c, streams s !! j = Some c ∧ agentID c' = agentID c ∧ at_ c' = at_ c ∧ (c' = c ∨ c' = f c ∧ calm f c)) as Hback.
  { intros j c'. rewrite on_lookup. destruct (decide (i = j)) as [->|Hne]; [|by eauto 10].
    destruct (streams s !! j) as [c|] eqn:E; [|done]. intros [= <-].
    pose proof (Hf _ eq_refl) as Hc. exists c. split_and!; [done|apply Hc..|]. by right. }
  split.
  - intros j c' (c & E & Hid & Hat & [->|[-> Hc]])%Hback; [by apply H1|]. destruct (H1 _ _ E), Hc. split; rewrite ?Hat; [done..| |].
    + intros Hd Hca. destruct (calm_cancel0 Hca); auto.
    + intros He Hs. destruct (decide (lost (f c) = [])) as [Hl|]; [|by left].
      destruct (calm_send0 Hs Hl) as [[? ?]|[?|Hn]]; [|by right|by destruct (at_ c)].
      destruct (steady_send0 He) as [?|?]; [done|done|right; auto].
  - intros j1 j2 c1 c2 (d1 & E1 & Hi1 & Ha1 & _)%Hback (d2 & E2 & Hi2 & Ha2 & _)%Hback. rewrite Hi1, Hi2, Ha1, Ha2. by apply H2.
  - intros j c' (c & E & Hid & Hat & _)%Hback. rewrite Hid, Hat. by apply H3.
  - intros id Hall. apply H4. intros j c E Hid. destruct (streams (on i f s) !! j) as [c'|] eqn:E'.
    + destruct (Hback _ _ E') as (c0 & E0 & Hid' & Hat & _). simplify_eq. rewrite <- Hat. apply (Hall j c'); congruence.
    + rewrite on_lookup, E in E'. by destruct (decide (i = j)).
Qed.

Lemma served_same s s' :
  streams s' = streams s → connections s' = connections s → pendingCommands s' = pendingCommands s → served s → served s'.
Proof. intros E1 E2 E3 [H1 H2 H3 H4]. split; unfold looked_up; rewrite ?E1, ?E2, ?E3; done. Qed.

Lemma alter_insert {A} (f : A → A) i (l : list A) x : l !! i = Some x → alter f i l = <[i := f x]> l.
Proof.
  intros E. apply list_eq. intros j. destruct (decide (i = j)) as [<-|Hne].
  - rewrite list_lookup_alter_eq, E, list_lookup_insert_eq; [done|]. by eapply lookup_lt_Some.
  - by rewrite list_lookup_alter_ne, list_lookup_insert_ne.
Qed.

(** A handler goes on, and the tables change for its agent only. *)
Lemma served_goto i c f s s' :
  streams s !! i = Some c → streams s' = streams s → agentID (f c) = agentID c → at_ c ≠ Done → steady i (f c) →
  looked_up (agentID c) s' = entries (at_ (f c)) i → (∀ id, id ≠ agentID c → looked_up id s' = looked_up id s) →
  served s → served (on i f s').
Proof.
  intros E Es Hid Hnd Hst Hl Ho. apply (served_update i c (f c) s); [done| |done..]. cbn. rewrite Es. by apply alter_insert.
Qed.

Lemma served_on_at i c f s :
  streams s !! i = Some c → agentID (f c) = agentID c → at_ c ≠ Done → steady i (f c) →
  entries (at_ (f c)) i = entries (at_ c) i → served s → served (on i f s).
Proof.
  intros E Hid Hnd Hst He Hv. apply (served_goto i c _ s); [done..| |done|done]. rewrite He. by apply served_entries.
Qed.

Lemma steady_goto i c p :
  steady i c → (∀ a old, p ≠ Waiting a old) → (∀ conn, p = Signalling conn → conn = Some i) → at_ c ≠ Done →
  ((entries p i).2 = Some i → (entries (at_ c) i).2 = Some i ∨ sending c ≠ Stopped) → steady i (goto p c).
Proof.
  intros [H1 H2 H3 H4] Hw Hs Hnd Hp. split; cbn; [done|done|auto|]. intros [He|Hn]%Hp Hst; [auto|done].
Qed.

Lemma handler_served i e s s' : wf s → served s → handler i e s = Next s' → served s'.
Proof.
  intros Hw Hv Hs. unfold handler in Hs. destruct (streams s !! i) as [c|] eqn:E; [|done].
  pose proof (served_steady _ Hv _ _ E) as Hst. pose proof (served_entries _ Hv _ _ E) as Hent.
  assert (early (at_ c) = true → sending c ≠ Stopped) as Hearly.
  { intros He. destruct (sound_sender _ (wf_sound _ Hw _ _ E)) as [Hn _]. specialize (Hn He). congruence. }
  assert (∀ p s1, streams s1 = streams s → connections s1 = connections s → pendingCommands s1 = pendingCommands s → at_ c ≠ Done →
    (∀ conn, p ≠ Signalling conn) → (∀ a old, p ≠ Waiting a old) → entries p i = entries (at_ c) i → served (on i (goto p) s1)) as Hgoto.
  { intros p s1 E1 E2 E3 Hnd Hp Hp' Hen. apply (served_on_at i c); [by rewrite E1|done|done| |done|by apply (served_same s)].
    apply steady_goto; [done|done|by intros conn ?%Hp|done|]. rewrite Hen. auto. }
  unfold looked_up in Hent.
  destruct (at_ c) as [agent|agent old|agent|hostname| |msg| |conn| | |agent|hostname| |] eqn:Hat.
  - specialize (Hent ltac:(done)). injection Hent as Ec Ep. rewrite Ec in Hs. injection Hs as <-. unfold install.
    apply (served_goto i c _ s); [done|done|done|by rewrite Hat| | | |done].
    + apply steady_goto; [done|done|done|by rewrite Hat|]. intros _. right. by apply Hearly.
    + unfold looked_up. cbn. by rewrite !lookup_insert_eq.
    + intros id Hne. unfold looked_up. cbn. by rewrite !lookup_insert_ne.
  - by destruct (steady_waits _ _ Hst agent old).
  - injection Hs as <-. by apply Hgoto.
  - injection Hs as <-. apply (served_on_at i c); [done|done|by rewrite Hat| |by rewrite Hat|by apply (served_same s)].
    destruct Hst. split; cbn; [done|done|intros _; apply steady_cancel0; by rewrite Hat|done].
  - specialize (Hent ltac:(done)). injection Hent as Ec Ep. destruct (incoming e); injection Hs as <-; [|by apply Hgoto].
    unfold touch. rewrite Ec. set (s1 := on i _ s). assert (served s1) as Hv1 by (apply served_on; [intros ? _; split; cbn; auto|done]).
    set (c1 := {| c with LastMessage := now e |}). assert (streams s1 !! i = Some c1) as E1 by exact (on_eq i _ s c E).
    apply (served_on_at i c1); [done|done|by cbn; rewrite Hat| |by cbn; rewrite Hat|done].
    pose proof (served_steady _ Hv1 _ _ E1). apply steady_goto; [done|done|done|by cbn; rewrite Hat|]. cbn. rewrite Hat. auto.
  - injection Hs as <-. by apply Hgoto.
  - specialize (Hent ltac:(done)). injection Hent as Ec Ep. injection Hs as <-. rewrite Ec.
    apply (served_goto i c _ s); [done|done|done|by rewrite Hat| | | |done].
    + apply steady_goto; [done|done|by intros conn [= <-]|by rewrite Hat|]. rewrite Hat. auto.
    + unfold looked_up. cbn. by rewrite lookup_delete_eq, Ep.
    + intros id Hne. unfold looked_up. cbn. by rewrite lookup_delete_ne.
  - specialize (Hent ltac:(done)). injection Hent as Ec Ep. rewrite (steady_signal _ _ Hst conn) in * by done.
    unfold close_CleanupDone in Hs. destruct (cleaned i s); [done|]. injection Hs as <-.
    set (s1 := on i _ s). assert (served s1) as Hv1 by (apply served_on; [intros ? _; split; cbn; auto|done]).
    set (c1 := {| c with CleanupDone := true |}). assert (streams s1 !! i = Some c1) as E1 by exact (on_eq i _ s c E).
    apply (served_on_at i c1); [done|done|by cbn; rewrite Hat| |by cbn; rewrite Hat|done].
    pose proof (served_steady _ Hv1 _ _ E1). apply steady_goto; [done|done|done|by cbn; rewrite Hat|]. cbn. rewrite Hat. auto.
  - specialize (Hent ltac:(done)). injection Hent as Ec Ep. unfold close_channel in Hs. rewrite Ep in Hs.
    destruct (is_closed i s); [done|]. injection Hs as <-.
    set (s0 := {| s with pendingCommands := _ |}). set (f := λ c : Stream, {| c with closed := true |}).
    apply (served_update i c (goto Finding (f c)) s); [done| |done|by rewrite Hat| | | |done].
    + cbn. rewrite (alter_insert f i _ c) by done. rewrite (alter_insert _ i _ (f c)) by (apply list_lookup_insert_eq; by eapply lookup_lt_Some).
      by rewrite list_insert_insert_eq.
    + destruct Hst. split; cbn; [done|done|intros _; apply steady_cancel0; by rewrite Hat|done].
    + unfold looked_up. cbn. by rewrite lookup_delete_eq, Ec.
    + intros id Hne. unfold looked_up. cbn. by rewrite lookup_delete_ne.
  - destruct (ret _) as [[agent|?]|?|]; injection Hs as <-; by apply Hgoto.
  - injection Hs as <-. by apply Hgoto.
  - injection Hs as <-. by apply Hgoto.
  - injection Hs as <-. apply (served_on_at i c); [done|done|by rewrite Hat| |by rewrite Hat|done]. by split.
  - done.
Qed.

Lemma connect_served first p t s : in_turn (LConnect first p t : label D R C U) s → served s → served (Connect first p t s).
Proof.
  intros Ht Hv. unfold Connect. cbn in Ht. destruct (handshake first p s) as [|[id agent]]; [done|]. destruct Hv as [H1 H2 H3 H4].
  specialize (H4 id Ht) as Hl. set (new := mkStream _ _ _ _ _ _ _ _ _ _ _ _ _).
  assert (∀ j c, (streams s ++ [new]) !! j = Some c → streams s !! j = Some c ∨ j = length (streams s) ∧ c = new) as Hback.
  { intros j c [?|[? [? ?]%list_lookup_singleton_Some]]%lookup_app_Some; [by left|right]. split; [lia|done]. }
  split; cbn [streams].
  - intros j c [E|[_ ->]]%Hback; [by apply H1|]. by split.
  - intros j1 j2 c1 c2 [E1|[-> ->]]%Hback [E2|[-> ->]]%Hback Hid Hd1 Hd2; [by eapply H2| | |done].
    + destruct Hd1. by apply (Ht j1).
    + destruct Hd2. by apply (Ht j2).
  - intros j c [E|[-> ->]]%Hback Hd; [by apply H3|]. done.
  - intros id' Hall. apply H4. intros j c E. apply (Hall j). by apply lookup_app_l_Some.
Qed.

Lemma sendCommands_served i t s s' : wf s → served s → sendCommands i t s = Next s' → served s'.
Proof.
  intros Hw Hv Hs. unfold sendCommands in Hs. destruct (streams s !! i) as [c|] eqn:E; [|done].
  assert (∀ f, calm f c → served (on i f s)) as Hon by (intros f Hf; apply served_on; [intros c' Ec'; by simplify_eq|done]).
  destruct (sending c) eqn:Hc, t as [|sent]; [done..| | |done|done].
  - destruct (cancelled c) eqn:Hca; [|done]. injection Hs as <-. apply Hon. split; cbn; [done|done|done|by left|]. intros _ _. right.
    destruct (is_done_dec (at_ c)) as [->|Hd]; [by right|left]. by apply (steady_cancel _ _ (served_steady _ Hv _ _ E)).
  - destruct (queue c) as [|cmd rest].
    + destruct (closed c) eqn:Hcl; [|done]. injection Hs as <-. apply Hon. destruct sent; (split; cbn; [done|done|done|by left|]); intros Hst _; [by rewrite Hc in Hst|].
      right. right. destruct (is_done_dec (at_ c)) as [->|Hd]; [done|].
      assert (looked_up (agentID c) s = entries (at_ c) i) as Hent by (apply served_entries; [done..|]; by intros ?).
      unfold looked_up in Hent. destruct (pendingCommands s !! agentID c) as [k|] eqn:Ek; [|by destruct (at_ c)].
      destruct (wf_pending _ Hw _ _ Ek) as (c' & E' & _ & _ & Hcl'). assert (k = i) as -> by (destruct (at_ c); cbn in Hent; congruence). congruence.
    + injection Hs as <-. apply Hon. destruct sent; (split; cbn; [done|done|done|by left|]); [|done]. intros Hst _. congruence.
Qed.

Lemma step_served l s s' : wf s → served s → in_turn l s → step l s = Next s' → served s'.
Proof.
  intros Hw Hv Ht Hs. destruct l as [first p t|i e|i t|id msg|n|id|b|i]; cbn [step] in Hs.
  - injection Hs as <-. by apply connect_served.
  - by eapply handler_served.
  - by eapply sendCommands_served.
  - injection Hs as <-. unfold send_lookup. destruct (pendingCommands s !! id); [|done]. by apply (served_same s).
  - unfold send_put in Hs. destruct (calls s !! n) as [[[k msg]|]|]; [|done..]. cbn [streams] in Hs.
    destruct (streams s !! k) as [c|]; [|done]. destruct (closed c); [done|]. case_match; injection Hs as <-; [|by apply (served_same s)].
    apply served_on; [|by apply (served_same s)]. intros c' _. split; cbn; auto.
  - done.
  - injection Hs as <-. by apply (served_same s).
  - injection Hs as <-. apply served_on; [|done]. intros c _. split; cbn; auto.
Qed.

Lemma orderly_served s : orderly s → wf s ∧ served s.
Proof.
  induction 1 as [|s l s' _ [Hw Hv] Ht Hs]; [split; [apply conn_start_wf|apply start_served]|].
  split; [by eapply step_wf|by eapply step_served].
Qed.

(** The goroutine sends what waits. *)
Lemma drain i s c :
  streams s !! i = Some c → sending c = Running →
  ∃ s' c', play (replicate (length (queue c)) (LSender i (TSend true))) s = Next s' ∧ streams s' !! i = Some c' ∧
    queue c' = [] ∧ delivered c' = delivered c ++ queue c.
Proof.
  remember (queue c) as q eqn:Hq. revert s c Hq. induction q as [|cmd q IH]; intros s c Hq E Hs; cbn [length replicate play].
  - exists s, c. by rewrite app_nil_r.
  - cbn [step]. unfold sendCommands. rewrite E, Hs, <- Hq. set (f := λ c : Stream, {| c with queue := q; delivered := delivered c ++ [cmd] |}).
    destruct (IH (on i f s) (f c) eq_refl (on_eq i f s c E) Hs) as (s' & c' & Hp & E' & Hq' & Hd). exists s', c'.
    split_and!; [exact Hp|done..|]. rewrite Hd. cbn. by rewrite <- app_assoc.
Qed.

(** C18: When no stream of an agent is opened before its last one is over and nobody is
    disconnected, an agent counts as connected only while it has a stream.  While its stream
    is read it counts as connected and its commands are accepted as long as fewer than a
    hundred wait.  Until sending fails or the transport of the stream ends, the goroutine
    runs and delivers, in as many turns as commands wait, exactly the commands accepted;
    and it has no other reason to stop: the context of the connection is cancelled only
    with the end of the transport. *)
Theorem lone_stream_served s i c :
  orderly s → streams s !! i = Some c → (at_ c = Receiving ∨ ∃ msg, at_ c = Processing msg) →
  IsAgentConnected (agentID c) s = true ∧
  (∀ msg, (length (queue c) < 100)%nat → ∃ s' c', SendCommand (agentID c) msg s = (Next s', None) ∧
     streams s' !! i = Some c' ∧ queue c' = queue c ++ [msg]) ∧
  (cancelled c = true → ended c = true) ∧
  (lost c ≠ [] ∨ ended c = true ∨ sending c = Running ∧ ∃ s' c', play (replicate (length (queue c)) (LSender i (TSend true))) s = Next s' ∧
     streams s' !! i = Some c' ∧ queue c' = [] ∧ delivered c' = accepted c) ∧
  ∀ id, IsAgentConnected id s = true → ∃ j cj, streams s !! j = Some cj ∧ agentID cj = id ∧ at_ cj ≠ Done.
Proof.
  intros [Hw Hv]%orderly_served E Hat.
  assert (entries (at_ c) i = (Some i, Some i)) as He by by destruct Hat as [->|[? ->]].
  assert (at_ c ≠ Done) as Hnd by by destruct Hat as [->|[? ->]].
  pose proof (served_entries _ Hv _ _ E Hnd) as Hl. rewrite He in Hl. injection Hl as Ec Ep.
  destruct (wf_pending _ Hw _ _ Ep) as (c0 & E0 & _ & _ & Hcl). simplify_eq.
  pose proof (served_steady _ Hv _ _ E) as Hst. pose proof (wf_sound _ Hw _ _ E) as Hso. split_and!.
  - apply bool_decide_true. by eexists.
  - intros msg Hq. unfold SendCommand, send_lookup. rewrite Ep, E. rewrite (proj2 (Nat.leb_gt _ _)) by done.
    unfold send_put. cbn [calls]. rewrite list_lookup_middle by done. cbn [streams]. rewrite E, Hcl, (proj2 (Nat.ltb_lt _ _)) by done.
    eexists _, _. split_and!; [done|by apply on_eq|done].
  - by apply (steady_cancel _ _ Hst).
  - destruct (decide (lost c = [])) as [Hlo|]; [right|by left]. destruct (ended c) eqn:Hend; [by left|right].
    assert (sending c = Running) as Hrun.
    { destruct (sending c) eqn:Hs; [|done|].
      - apply (sound_sender _ Hso) in Hs. by destruct Hat as [Hat|[? Hat]]; rewrite Hat in Hs.
      - destruct (steady_send _ _ Hst) as [?|?]; [by rewrite He|done|done|congruence]. }
    split; [done|]. destruct (drain i s c E Hrun) as (s' & c' & ? & ? & ? & Hd). exists s', c'. split_and!; [done..|]. by rewrite Hd, (sound_flow _ Hso), Hlo.
  - intros id [k Hk]%bool_decide_eq_true. destruct (wf_conn _ Hw _ _ Hk) as (ck & Ek & Hid & _). exists k, ck. split_and!; [done..|].
    intros Hd. assert (looked_up id s = (None, None)) as Hn; [|unfold looked_up in Hn; congruence].
    apply (served_none _ Hv). intros j cj Ej Hj. destruct (is_done_dec (at_ cj)) as [|Hnj]; [done|exfalso].
    pose proof (served_entries _ Hv _ _ Ej Hnj) as Hl. unfold looked_up in Hl. rewrite Hj, Hk in Hl.
    assert (k = j) as -> by (destruct (at_ cj); cbn in Hl; congruence). congruence.
Qed.

End alone.

(** * Witnesses *)

Section demo.
Import Conn.
#[local] Existing Instance range_in_key_order.
Abbreviation State := (Conn.State nat nat nat nat).

Definition demo_agent : Agent := Agent.mk "a" "host" None "{}" "registered" 0 0 "" [] "" "" "" "" "" "" None "".

Definition demo_start : State := start (Agents.mkState {["a" := demo_agent]} ∅ ∅) Deployments.empty.

Definition demo_env (timed_out : bool) : env := mkEnv 5 6 "x" timed_out None.

(** A stream that is opened, with the number it gets, to the point where it is read. *)
Definition opening (i waits : nat) : list (label nat nat nat nat) :=
  LConnect (AgentReady "a") NoTLS 1 :: replicate (3 + waits) (LHandler i (demo_env true)).

Definition after (o : outcome nat nat nat nat) : State := match o with Next s => s | _ => demo_start end.
Definition demo_one : State := after (play (opening 0 0) demo_start).
Definition demo_both : State := after (play (opening 1 1) demo_one).
Definition demo_stream (i : nat) (s : State) := default (mkStream "" Done 0 false false [] false NotStarted [] [] [] 0 false) (streams s !! i).

Lemma play_reachable ls (s s' : State) : reachable s → play ls s = Next s' → reachable s'.
Proof.
  revert s. induction ls as [|l ls IH]; intros s Hr Hp; cbn in Hp; [by injection Hp as <-|].
  destruct (step l s) as [s1| |] eqn:E; [|done..]. eapply IH; [|done]. by econstructor.
Qed.

Lemma demo_one_reachable : reachable demo_one.
Proof. apply (play_reachable (opening 0 0) demo_start); [constructor|by vm_compute]. Qed.

Lemma demo_both_reachable : reachable demo_both.
Proof. apply (play_reachable (opening 1 1) demo_one); [apply demo_one_reachable|by vm_compute]. Qed.

Lemma demo_handlers_orderly n i e (s s' : State) : orderly s → play (replicate n (LHandler i e)) s = Next s' → orderly s'.
Proof.
  revert s. induction n as [|n IH]; intros s Ho Hp; cbn [replicate play step] in Hp; [by injection Hp as <-|].
  destruct (handler i e s) as [s1| |] eqn:E; [|done..]. eapply IH; [|done]. by eapply (orderly_step s (LHandler i e)).
Qed.

Lemma demo_one_orderly : orderly demo_one.
Proof.
  apply (demo_handlers_orderly 3 0 (demo_env true) (Connect (AgentReady "a") NoTLS 1 demo_start)); [|by vm_compute].
  eapply (orderly_step demo_start (LConnect (AgentReady "a") NoTLS 1)); [constructor| |done]. unfold in_turn.
  destruct (handshake _ _ _) as [|[id agent]]; [done|]. intros i c E. by change (@None (Stream nat nat nat nat) = Some c) in E.
Qed.

(** [SendCommand] has looked the channel up, the stream ends, and the server goes down. *)
Definition demo_leave (i : nat) : list (label nat nat nat nat) := leave i (demo_env false) (demo_env false) (demo_env false) (demo_env false).
Definition demo_late : list (label nat nat nat nat) := LLookup "a" (MasterMessage_DeployCommand 7%nat) :: demo_leave 0.
Definition demo_gone : State := after (play demo_late demo_one).

Lemma demo_gone_reachable : reachable demo_gone.
Proof. apply (play_reachable demo_late demo_one); [apply demo_one_reachable|by vm_compute]. Qed.

Lemma only_late_sends_panic_witness : reachable demo_gone ∧ step (LPut 0) demo_gone = Panics.
Proof.
  split; [apply demo_gone_reachable|]. destruct (only_late_sends_panic demo_gone demo_gone_reachable) as (_ & _ & _ & Hp). apply Hp.
  exists 0%nat, 0%nat, (MasterMessage_DeployCommand 7%nat), (demo_stream 0 demo_gone). split_and!; by vm_compute.
Defined.

Lemma replaced_connection_lost_witness :
  ∃ s1, play (demo_leave 0) demo_both = Next s1 ∧
    at_ (demo_stream 1 s1) = Receiving ∧ IsAgentConnected "a" s1 = false.
Proof.
  destruct (replaced_connection_lost 0 1 (demo_stream 0 demo_both) (demo_stream 1 demo_both)
    (demo_env false) (demo_env false) (demo_env false) (demo_env false) demo_both demo_both_reachable) as (s1 & Hp & Hs & Hl);
    [done|by vm_compute..| |done|].
  - intros k c E. assert (k = 0 ∨ k = 1)%nat as [-> | ->].
    { apply lookup_lt_Some in E. change (length (streams demo_both)) with 2%nat in E. lia. }
    + assert (c = demo_stream 0 demo_both) as -> by (unfold demo_stream; by rewrite E). intros _. by vm_compute.
    + assert (c = demo_stream 1 demo_both) as -> by (unfold demo_stream; by rewrite E). intros _. by vm_compute.
  - exists s1. split; [done|]. unfold demo_stream at 1. rewrite Hs. split; [done|]. by apply (Hl [] s1).
Defined.

Lemma disconnect_only_stops_sending_witness :
  ∃ s1, play [LDisconnect "a"; LSender 0 TDone] demo_one = Next s1 ∧ IsAgentConnected "a" s1 = true ∧
    ∃ s2, SendCommand "a" (MasterMessage_RollbackCommand 8%nat) s1 = (Next s2, None).
Proof.
  destruct (disconnect_only_stops_sending "a" 0 (demo_stream 0 demo_one) demo_one demo_one_reachable) as (s1 & Hp & _ & Hc & Hs & _);
    [by vm_compute..|].
  exists s1. split_and!; [done..|]. destruct (Hs (MasterMessage_RollbackCommand 8%nat)) as (s2 & Hs2 & _); [vm_compute; lia|by exists s2].
Defined.

Lemma lone_stream_served_witness :
  IsAgentConnected "a" demo_one = true ∧
  ∃ s1, SendCommand "a" (MasterMessage_CancelCommand 9%nat) demo_one = (Next s1, None).
Proof.
  destruct (lone_stream_served demo_one 0 (demo_stream 0 demo_one) demo_one_orderly) as (Hc & Hs & _); [by vm_compute|left; by vm_compute|].
  split; [done|]. destruct (Hs (MasterMessage_CancelCommand 9%nat)) as (s1 & c1 & Hs1 & _); [vm_compute; lia|by exists s1].
Defined.

End demo.
