(* ===== verification/AgentStore.v ===== *)
(** The encrypted store of the agent ([src/internal/agent/storage.go]), the key it is
    sealed with ([machine_key.go]) and the synchronisation of the trusted authorities
    ([ca_sync.go]).

    A table is a map from its primary key, or a list where the key is a counter; every
    statement is the change it makes, with the constraints of the schema, and fails as a
    whole when the database does.  [datetime('now')] is the text SQLite writes; the rows of a
    query without an order come in any order.  A byte slice that may be nil is an option.
    Sealing, JSON, key pairs and certificate pools are parameters. *)

From stdpp Require Import pretty.
From S2P Require Import GoStrings GoTime GoSort TimeText StoreBase Crypto.
From S2P Require Secrets KeyManagement.

#[local] Open Scope string_scope.
#[local] Open Scope list_scope.
#[local] Open Scope Z_scope.

Abbreviation slice := (option (list Z)).

(** [len(s) > 0] *)
Definition nonempty (s : slice) : bool := match s with Some (_ :: _) => true | _ => false end.
Definition contents (s : slice) : list Z := default [] s.

(** * The key of the machine *)

Definition virtual_prefixes : list string := ["veth"; "docker"; "br-"; "virbr"; "vnet"; "lo"; "tun"; "tap"].
Definition isVirtualInterface (name : string) : bool := existsb (λ p, HasPrefix name p) virtual_prefixes.

Record Interface := mkInterface { Name : string; Loopback : bool; HardwareAddr : list Z }.

Definition getPrimaryMAC `{SliceSort} (interfaces : option (list Interface)) : slice :=
  match interfaces with
  | None => None
  | Some l =>
      let suitable (i : Interface) := negb (Loopback i) && negb (bool_decide (HardwareAddr i = [])) && negb (isVirtualInterface (Name i)) in
      HardwareAddr <$> find suitable (sort_Slice (λ x y, string_lt (Name x) (Name y)) l)
  end.

(** On Linux: the first of the two files that can be read. *)
Definition getMachineID (files : list (option string)) : slice :=
  match omap id files with
  | [] => None
  | data :: _ => Some (bytes_of (TrimSpace data))
  end.

Definition machineKeySalt : list Z := bytes_of "vcdeploy-agent-v1-machine-key".
Definition machineKeyInfo : list Z := bytes_of "agent-store-encryption".

Fixpoint join_bytes (sep : Z) (l : list (list Z)) : list Z :=
  match l with
  | [] => []
  | [x] => x
  | x :: rest => x ++ sep :: join_bytes sep rest
  end.

(** [hkdf] derives 32 bytes from a secret, a salt and an info text. *)
Definition deriveMachineKey (hkdf : list Z → list Z → list Z → option (list Z)) (machineID mac : slice) (hostname : option string) : list Z + gerror :=
  let sources := (if nonempty machineID then [contents machineID] else []) ++ (if nonempty mac then [contents mac] else []) ++
                 match hostname with Some h => if bool_decide (h = "") then [] else [bytes_of h] | None => [] end in
  if len sources <? 2 then inr (Errorf "insufficient machine identifiers")
  else match hkdf (join_bytes 0 sources) machineKeySalt machineKeyInfo with
       | Some key => inl key
       | None => inr (Errorf "hkdf")
       end.

(** * Archives of old databases *)

(** [filepath.Ext] is empty or starts with a dot, so only the suffix counts. *)
Definition isWALOrSHM (path : string) : bool :=
  (4 <? Z.of_nat (String.length path)) && (HasSuffix path "-wal" || HasSuffix path "-shm").

(** The files to remove, oldest first; each takes its two companions with it. *)
Definition old_archives `{SliceSort} (keep : Z) (matches : list string) : list string :=
  let dbFiles := filter (λ m, isWALOrSHM m = false) matches in
  if len dbFiles <=? keep then []
  else take (Z.to_nat (len dbFiles - keep)) (sort_Slice string_lt dbFiles).

(** [removes] tells whether a file can be removed; the first that cannot ends the loop. *)
Fixpoint remove_archives (removes : string → bool) (files : list string) : list string * option gerror :=
  match files with
  | [] => ([], None)
  | path :: rest =>
      if removes path
      then let '(gone, e) := remove_archives removes rest in ([path; path +:+ "-wal"; path +:+ "-shm"] ++ gone, e)
      else ([], Some (Errorf ("remove " +:+ path)))
  end.

Definition cleanOldArchives `{SliceSort} (removes : string → bool) (matches : list string) (keep : Z) : list string * option gerror :=
  remove_archives removes (old_archives keep matches).

Definition dbSchemaVersion : Z := 1.
Definition incompatible (version : Z) : bool := negb ((version =? 0) || (version =? dbSchemaVersion)).

(** * The store *)

Record CertificateRecord := mkCertificate { Type_ : string; Certificate : slice; PrivateKey : slice; NotAfter : time; UpdatedAt : time }.
Record HMACSecret := mkHMACSecret { MasterHost : string; Secret : slice; CreatedAt : time }.
Record RevokedCertRecord := mkRevoked { SerialNumber : string; RevokedAt : time; SyncedAt : time }.
Record RepoCacheRecord := mkRepoCache { RepoURL : string; ArchivePath : string; RepoChecksum : string; CachedAt : time; LastUsed : time }.

(** Rows, as they are in the tables. *)
Record cert_row := mkCertRow { row_certificate : list Z; row_private_key : slice; row_not_after : string; row_updated_at : string }.
Record audit_row := mkAuditRow { row_id : Z; row_timestamp : string; row_event_type : string; row_details : string;
                                 row_metadata : option string; row_success : Z }.
Record repo_row := mkRepoRow { row_archive_path : string; row_checksum : string; row_cached_at : string; row_last_used : string }.

Record State := mkState {
  machineKey : list Z;
  agent_state : gmap string (list Z * string);
  certificates : gmap string cert_row;
  hmac_secrets : gmap string (list Z * string);
  revoked_certs : gmap string (string * string);
  audit_log : list audit_row;
  next_id : Z;
  repo_cache : gmap string repo_row
}.

(** A new store, after [InitSchema]. *)
Definition fresh_store (key : list Z) : State := mkState key ∅ ∅ ∅ ∅ [] 1 ∅.

(** The files of the store: the version the database carries, its tables, which of its two
    companions exist, and the archives of older ones. *)
Record Disk := mkDisk { user_version : Z; tables : State; wal_file : bool; shm_file : bool; archives : list string }.

(** What the file system and the database answer. *)
Record disk_env := mkDiskEnv { reads : bool; sets : bool; renames : string → bool; removes_file : string → bool; unix : Z }.

Definition add_file (f : string) (l : list string) : list string := if bool_decide (f ∈ l) then l else l ++ [f].

(** Moving the database leaves an empty one; a companion that cannot be moved stays, and a
    cleanup that fails is logged. *)
Definition archive_database `{SliceSort} (e : disk_env) (dbPath : string) (d : Disk) : Disk :=
  let archivePath := dbPath +:+ ".archived." +:+ pretty (unix e) in
  let moved (exists_ : bool) (suffix : string) := exists_ && renames e (dbPath +:+ suffix) in
  let files := add_file archivePath (archives d) in
  let files := if moved (wal_file d) "-wal" then add_file (archivePath +:+ "-wal") files else files in
  let files := if moved (shm_file d) "-shm" then add_file (archivePath +:+ "-shm") files else files in
  let gone := (cleanOldArchives (removes_file e) files 3).1 in
  mkDisk 0 (fresh_store (machineKey (tables d)))
    (wal_file d && negb (moved (wal_file d) "-wal")) (shm_file d && negb (moved (shm_file d) "-shm")) (filter (λ f, f ∉ gone) files).

Definition set_version (e : disk_env) (d : Disk) : Disk * option gerror :=
  if sets e then ({| d with user_version := dbSchemaVersion |}, None) else (d, Some (Errorf "set schema version")).

Definition checkAndArchiveIncompatible `{SliceSort} (e : disk_env) (dbPath : string) (d : Disk) : Disk * option gerror :=
  if negb (reads e) then (d, Some (Errorf "read schema version"))
  else if negb (incompatible (user_version d)) then set_version e d
  else if negb (renames e dbPath) then (d, Some (Errorf "archive old database"))
  else set_version e (archive_database e dbPath d).

(** The key is derived after the database has been opened; the cipher takes any key of 32
    bytes. *)
Definition NewAgentStore `{SliceSort} (e : disk_env) (key : list Z + gerror) (dbPath : string) (d : Disk) : Disk * (State + gerror) :=
  match checkAndArchiveIncompatible e dbPath d with
  | (d, Some err) => (d, inr (Errorf "database compatibility check"))
  | (d, None) =>
      match key with
      | inr err => (d, inr (Errorf "derive machine key"))
      | inl k => let s := tables d in (d, inl {| s with machineKey := k |})
      end
  end.

(** What a call takes from outside: whether the database works, the time, random nonces. *)
Record env := mkEnv { works : bool; now : time; nonce : slice; nonce' : slice }.

Definition datetime_now (e : env) : string := Format_DateTime 0 (now e).
Definition database_error : gerror := Errorf "database".

Section store.
Context `{AEAD, MapRange, SliceSort}.
(** Local time, and what is used of [encoding/json]. *)
Context (zone : Z) {Meta : Type} (Marshal : Meta → option string) (Unmarshal : string → Meta + string) (parse_error : string → Meta).

Definition Out (A : Type) : Type := State * (A + gerror).

Record AuditEvent := mkEvent { ID : Z; Timestamp : time; EventType : string; Details : string; Metadata : option Meta; Success : bool }.

(** [time.Parse] with its error ignored. *)
Definition parsed (t : option time) : time := default 0 t.

Definition encrypt (key : list Z) (nonce plaintext : slice) : slice + gerror :=
  match plaintext with
  | None => inl None
  | Some p => match nonce with
              | None => inr (Errorf "generate nonce")
              | Some n => inl (Some (n ++ Seal key n p))
              end
  end.

(** [Open] appends to nil, so an empty text comes out as nil. *)
Definition decrypt (key : list Z) (ciphertext : slice) : slice + gerror :=
  match ciphertext with
  | None => inl None
  | Some c =>
      if len c <? NonceSize then inr (Errorf "ciphertext too short")
      else match Open key (take (Z.to_nat NonceSize) c) (drop (Z.to_nat NonceSize) c) with
           | None => inr (Errorf "cipher: message authentication failed")
           | Some [] => inl None
           | Some p => inl (Some p)
           end
  end.

(** A statement that changes the database. *)
Definition exec (e : env) (f : State → State) (s : State) : Out unit :=
  if works e then (f s, inl tt) else (s, inr database_error).

(** ** State *)

Definition GetState (e : env) (key : string) (s : State) : slice + gerror :=
  if works e then
    match agent_state s !! key with
    | None => inr ErrNotFound
    | Some (encrypted, _) => decrypt (machineKey s) (Some encrypted)
    end
  else inr database_error.

(** A NULL value violates the schema. *)
Definition SetState (e : env) (key : string) (value : slice) (s : State) : Out unit :=
  match encrypt (machineKey s) (nonce e) value with
  | inr err => (s, inr err)
  | inl None => (s, inr database_error)
  | inl (Some encrypted) => exec e (λ s, {| s with agent_state := <[key := (encrypted, datetime_now e)]> (agent_state s) |}) s
  end.

Definition DeleteState (e : env) (key : string) (s : State) : Out unit :=
  exec e (λ s, {| s with agent_state := delete key (agent_state s) |}) s.

(** The value as JSON. *)
Definition SetStateJSON (e : env) (key : string) (json : option (list Z)) (s : State) : Out unit :=
  match json with
  | None => (s, inr (Errorf "json"))
  | Some data => SetState e key (Some data) s
  end.

Definition GetStateJSON {V} (unmarshal : list Z → V + gerror) (e : env) (key : string) (s : State) : V + gerror :=
  match GetState e key s with
  | inr err => inr err
  | inl data => unmarshal (contents data)
  end.

(** ** Certificates *)

Definition SaveCertificate (e : env) (certType : string) (cert privateKey : slice) (notAfter : time) (s : State) : Out unit :=
  match encrypt (machineKey s) (nonce e) cert with
  | inr err => (s, inr (Errorf "encrypt certificate"))
  | inl encryptedCert =>
      match encrypt (machineKey s) (nonce' e) privateKey with
      | inr err => (s, inr (Errorf "encrypt private key"))
      | inl encryptedKey =>
          match encryptedCert with
          | None => (s, inr database_error)
          | Some c => exec e (λ s, {| s with certificates :=
                        <[certType := mkCertRow c encryptedKey (Format_RFC3339 zone notAfter) (datetime_now e)]> (certificates s) |}) s
          end
      end
  end.

(** [notAfter] carries the zone it is in; [zone] stands for it. *)
Definition read_certificate (key : list Z) (certType : string) (r : cert_row) : CertificateRecord + gerror :=
  match decrypt key (Some (row_certificate r)) with
  | inr err => inr (Errorf "decrypt certificate")
  | inl cert =>
      match decrypt key (row_private_key r) with
      | inr err => inr (Errorf "decrypt private key")
      | inl privateKey =>
          inl (mkCertificate certType cert privateKey (parsed (Parse_RFC3339 (row_not_after r))) (parsed (Parse_RFC3339 (row_updated_at r))))
      end
  end.

Definition GetCertificate (e : env) (certType : string) (s : State) : CertificateRecord + gerror :=
  if works e then
    match certificates s !! certType with
    | None => inr ErrNotFound
    | Some r => read_certificate (machineKey s) certType r
    end
  else inr database_error.

Definition GetTLSCertificate {T} (X509KeyPair : list Z → list Z → T + gerror) (e : env) (certType : string) (s : State) : T + gerror :=
  match GetCertificate e certType s with
  | inr err => inr err
  | inl record =>
      match PrivateKey record with
      | None => inr (Errorf "certificate has no private key")
      | Some privateKey => match X509KeyPair (contents (Certificate record)) privateKey with
                           | inl cert => inl cert
                           | inr err => inr (Errorf "parse certificate")
                           end
      end
  end.

Definition DeleteCertificate (e : env) (certType : string) (s : State) : Out unit :=
  exec e (λ s, {| s with certificates := delete certType (certificates s) |}) s.

(** All rows are read, or none. *)
Fixpoint read_all {A B} (f : A → B + gerror) (l : list A) : list B + gerror :=
  match l with
  | [] => inl []
  | x :: rest => match f x with
                 | inr err => inr err
                 | inl y => match read_all f rest with inl ys => inl (y :: ys) | inr err => inr err end
                 end
  end.

Definition ListCertificates (e : env) (s : State) : list CertificateRecord + gerror :=
  if works e then read_all (λ '(t, r), read_certificate (machineKey s) t r) (range (certificates s)) else inr database_error.

(** ** Secrets *)

Definition SaveHMACSecret (e : env) (masterHost : string) (secret : slice) (s : State) : Out unit :=
  match encrypt (machineKey s) (nonce e) secret with
  | inr err => (s, inr err)
  | inl None => (s, inr database_error)
  | inl (Some encrypted) => exec e (λ s, {| s with hmac_secrets := <[masterHost := (encrypted, datetime_now e)]> (hmac_secrets s) |}) s
  end.

Definition GetHMACSecret (e : env) (masterHost : string) (s : State) : HMACSecret + gerror :=
  if works e then
    match hmac_secrets s !! masterHost with
    | None => inr ErrNotFound
    | Some (encrypted, createdAt) =>
        match decrypt (machineKey s) (Some encrypted) with
        | inr err => inr err
        | inl secret => inl (mkHMACSecret masterHost secret (parsed (Parse_RFC3339 createdAt)))
        end
    end
  else inr database_error.

Definition DeleteHMACSecret (e : env) (masterHost : string) (s : State) : Out unit :=
  exec e (λ s, {| s with hmac_secrets := delete masterHost (hmac_secrets s) |}) s.

(** ** Revoked certificates *)

Definition SaveRevokedCert (e : env) (serialNumber : string) (revokedAt : time) (s : State) : Out unit :=
  exec e (λ s, {| s with revoked_certs := <[serialNumber := (Format_RFC3339 zone revokedAt, datetime_now e)]> (revoked_certs s) |}) s.

Definition IsRevoked (e : env) (serialNumber : string) (s : State) : bool + gerror :=
  if works e then inl (bool_decide (is_Some (revoked_certs s !! serialNumber))) else inr database_error.

Definition ListRevokedCerts (e : env) (s : State) : list RevokedCertRecord + gerror :=
  if works e then
    inl ((λ '(serial, (revokedAt, syncedAt)), mkRevoked serial (parsed (Parse_RFC3339 revokedAt)) (parsed (Parse_RFC3339 syncedAt)))
         <$> range (revoked_certs s))
  else inr database_error.

(** One insertion: a serial number twice violates the key. *)
Definition insert_revoked (e : env) (acc : gmap string (string * string) + gerror) (c : RevokedCertRecord)
    : gmap string (string * string) + gerror :=
  match acc with
  | inr err => inr err
  | inl m => if bool_decide (is_Some (m !! SerialNumber c)) then inr database_error
             else inl (<[SerialNumber c := (Format_RFC3339 zone (RevokedAt c), datetime_now e)]> m)
  end.

(** In a transaction: the table is replaced when every row could be inserted. *)
Definition SyncRevokedCerts (e : env) (certs : list RevokedCertRecord) (s : State) : Out unit :=
  if works e then
    match foldl (insert_revoked e) (inl ∅) certs with
    | inr err => (s, inr err)
    | inl m => ({| s with revoked_certs := m |}, inl tt)
    end
  else (s, inr database_error).

(** ** Audit log *)

Definition LogAuditEventWithMetadata (e : env) (eventType details : string) (success : bool) (metadata : option Meta) (s : State) : Out unit :=
  let insert json :=
    exec e (λ s, {| s with
      audit_log := audit_log s ++ [mkAuditRow (next_id s) (datetime_now e) eventType details json (if success then 1 else 0)];
      next_id := next_id s + 1 |}) s in
  match metadata with
  | None => insert None
  | Some m => match Marshal m with
              | None => (s, inr (Errorf "marshal metadata"))
              | Some json => insert (Some json)
              end
  end.

Definition LogAuditEvent (e : env) (eventType details : string) (success : bool) : State → Out unit :=
  LogAuditEventWithMetadata e eventType details success None.

Definition event_of (r : audit_row) : AuditEvent :=
  mkEvent (row_id r) (parsed (Parse_DateTime (row_timestamp r))) (row_event_type r) (row_details r)
    match row_metadata r with
    | Some json => if bool_decide (json = "") then None
                   else Some match Unmarshal json with inl m => m | inr err => parse_error err end
    | None => None
    end (row_success r =? 1).

(** [ORDER BY timestamp DESC], and [LIMIT], of which a negative one is none. *)
Definition newest_first : list audit_row → list audit_row := sort_Slice (λ x y, string_lt (row_timestamp y) (row_timestamp x)).
Definition LIMIT {A} (n : Z) (l : list A) : list A := if n <? 0 then l else take (Z.to_nat n) l.

Definition GetAuditEvents (e : env) (eventType : string) (limit : Z) (s : State) : list AuditEvent + gerror :=
  if works e then
    inl (event_of <$> LIMIT limit (newest_first
      (if bool_decide (eventType = "") then audit_log s else filter (λ r, row_event_type r = eventType) (audit_log s))))
  else inr database_error.

Record AuditLogFilter := mkFilter {
  EventTypes : list string; StartTime : option time; EndTime : option time; FilterSuccess : option bool; Limit : Z; Offset : Z
}.

(** The conditions of the query; times are written in the zone they come in. *)
Definition selects (f : AuditLogFilter) (r : audit_row) : bool :=
  (bool_decide (EventTypes f = []) || bool_decide (row_event_type r ∈ EventTypes f)) &&
  match StartTime f with Some t => negb (string_lt (row_timestamp r) (Format_DateTime zone t)) | None => true end &&
  match EndTime f with Some t => negb (string_lt (Format_DateTime zone t) (row_timestamp r)) | None => true end &&
  match FilterSuccess f with Some b => row_success r =? (if b then 1 else 0) | None => true end.

(** An offset needs a limit in the grammar of SQLite. *)
Definition QueryAuditLogs (e : env) (f : AuditLogFilter) (s : State) : list AuditEvent + gerror :=
  if negb (works e) then inr database_error
  else if (0 <? Offset f) && negb (0 <? Limit f) then inr database_error
  else
    let rows := newest_first (filter (λ r, selects f r = true) (audit_log s)) in
    inl (event_of <$> (if 0 <? Limit f then take (Z.to_nat (Limit f)) (drop (Z.to_nat (Offset f)) rows) else rows)).

Definition cutoff (e : env) (olderThan : Z) : string := Format_RFC3339 zone (now e - olderThan).

Definition CleanupOldAuditEvents (e : env) (olderThan : Z) (s : State) : Out Z :=
  if works e then
    let old r := string_lt (row_timestamp r) (cutoff e olderThan) in
    ({| s with audit_log := filter (λ r, old r = false) (audit_log s) |}, inl (len (filter (λ r, old r = true) (audit_log s))))
  else (s, inr database_error).

(** ** Cached repositories *)

Definition SaveRepoCache (e : env) (repoURL archivePath checksum : string) (s : State) : Out unit :=
  exec e (λ s, {| s with repo_cache := <[repoURL := mkRepoRow archivePath checksum (datetime_now e) (datetime_now e)]> (repo_cache s) |}) s.

Definition repo_of (url : string) (r : repo_row) : RepoCacheRecord :=
  mkRepoCache url (row_archive_path r) (row_checksum r) (parsed (Parse_DateTime (row_cached_at r))) (parsed (Parse_DateTime (row_last_used r))).

Definition GetRepoCache (e : env) (repoURL : string) (s : State) : RepoCacheRecord + gerror :=
  if works e then
    match repo_cache s !! repoURL with None => inr ErrNotFound | Some r => inl (repo_of repoURL r) end
  else inr database_error.

Definition TouchRepoCache (e : env) (repoURL : string) (s : State) : Out unit :=
  exec e (λ s, {| s with repo_cache := alter (λ r, {| r with row_last_used := datetime_now e |}) repoURL (repo_cache s) |}) s.

Definition DeleteRepoCache (e : env) (repoURL : string) (s : State) : Out unit :=
  exec e (λ s, {| s with repo_cache := delete repoURL (repo_cache s) |}) s.

Definition ListRepoCache (e : env) (s : State) : list RepoCacheRecord + gerror :=
  if works e then
    inl ((λ '(url, r), repo_of url r) <$>
      sort_Slice (λ x y, string_lt (row_last_used y.2) (row_last_used x.2)) (range (repo_cache s)))
  else inr database_error.

(** The paths come first, for the caller to remove the files; [works'] is the database at
    the deletion. *)
Definition CleanupOldRepoCache (e : env) (works' : bool) (olderThan : Z) (s : State) : Out (list string) :=
  if works e then
    let old (r : repo_row) := string_lt (row_last_used r) (cutoff e olderThan) in
    let paths := row_archive_path <$> filter (λ r, old r = true) (range (repo_cache s)).*2 in
    if works' then ({| s with repo_cache := filter (λ '(_, r), old r = false) (repo_cache s) |}, inl paths)
    else (s, inr database_error)
  else (s, inr database_error).

End store.
Arguments AuditEvent : clear implicits.

(** * Trusted authorities *)

Section trust.
Context `{AEAD, MapRange, SliceSort} (zone : Z) {Meta : Type} (Marshal : Meta → option string).
(** The certificates of a PEM text, as [AppendCertsFromPEM] takes them, and the end of the
    validity of the first. *)
Context {Cert : Type} (certs_of : list Z → list Cert) (expiry_of : list Z → option time).

Record Trust := mkTrust { trust_store : State; trustPool : option (list Cert) }.

Definition ca_key (i : nat) : string := "ca_" +:+ pretty (Z.of_nat i).

(** Failures are logged, and the others are saved. *)
Fixpoint save_bundle (e : nat → env) (i : nat) (caCertificates : list (list Z)) (s : State) : State :=
  match caCertificates with
  | [] => s
  | caPEM :: rest =>
      save_bundle e (S i) rest (SaveCertificate zone (e i) (ca_key i) (Some caPEM) None (default 0 (expiry_of caPEM)) s).1
  end.

Definition loaded (e : env) (s : State) (key : string) : list Cert :=
  match GetCertificate e key s with inl r => certs_of (contents (Certificate r)) | inr _ => [] end.

Definition trust_count (e : env) (s : State) : Z :=
  match GetState e "ca_trust_count" s with inl c => default 0 (Atoi (string_of (contents c))) | inr _ => 0 end.

Definition rebuildTrustPool (e : env) (m : Trust) : Trust :=
  let s := trust_store m in
  mkTrust s (Some (concat ((λ i, loaded e s (ca_key i)) <$> seq 0 (Z.to_nat (trust_count e s))) ++ loaded e s "ca")).

(** [e k] is for the [k]-th write; [call] is the request to the master. *)
Definition SyncCATrustBundle (read : env) (e : nat → env)
    (call : string → (list (list Z) * string * string) + gerror) (m : Trust) : Trust * (unit + gerror) :=
  let s := trust_store m in
  let currentVersion := match GetState read "ca_trust_version" s with inl v => string_of (contents v) | inr _ => "" end in
  match call currentVersion with
  | inr err => (m, inr (Errorf "get CA trust bundle"))
  | inl (caCertificates, currentCaId, version) =>
      if bool_decide (version = currentVersion) && bool_decide (caCertificates = []) then (m, inl tt)
      else
        let n := length caCertificates in
        let s := save_bundle e 0 caCertificates s in
        let s := (SetState (e n) "ca_trust_version" (Some (bytes_of version)) s).1 in
        let s := (SetState (e (n + 1)%nat) "ca_trust_count" (Some (bytes_of (Secrets.Itoa (Z.of_nat n)))) s).1 in
        let s := (SetState (e (n + 2)%nat) "ca_current_id" (Some (bytes_of currentCaId)) s).1 in
        let m := rebuildTrustPool read (mkTrust s (trustPool m)) in
        let details := "synced " +:+ pretty (Z.of_nat n) +:+ " CAs, version " +:+ version in
        (mkTrust (LogAuditEvent Marshal (e (n + 3)%nat) "ca_sync" details true (trust_store m)).1 (trustPool m), inl tt)
  end.

Definition GetTrustPool (m : Trust) : list Cert := default [] (trustPool m).

End trust.

(** * Sealing *)

Section sealing.
Context `{AEAD}.

(** A text that is sealed can be opened; the empty one comes back as nil. *)
Definition stored (p : list Z) : slice := match p with [] => None | _ => Some p end.

Lemma contents_stored p : contents (stored p) = p.
Proof. by destruct p. Qed.

Lemma decrypt_sealed key n p : len n = NonceSize → bytes_ok p → decrypt key (Some (n ++ Seal key n p)) = inl (stored p).
Proof.
  intros Hn Hp. unfold decrypt.
  assert (Z.to_nat NonceSize = length n) as Hl by (unfold len in Hn; lia).
  assert ((len (n ++ Seal key n p) <? NonceSize) = false) as ->.
  { apply Z.ltb_ge. unfold len in *. rewrite length_app. lia. }
  rewrite Hl, take_app_length, drop_app_length, Open_Seal by done. by destruct p.
Qed.

Lemma encrypt_decrypt key n p c :
  fresh_nonce n → bytes_ok p → encrypt key n (Some p) = inl c → ∃ b, c = Some b ∧ decrypt key c = inl (stored p).
Proof.
  intros Hn Hp. unfold encrypt. destruct n as [n|]; [|done]. intros [= <-]. destruct (Hn n eq_refl). eexists. split; [done|].
  by apply decrypt_sealed.
Qed.

(** ** The values of the table of states *)

Definition value_of (key : list Z) (row : list Z * string) : option slice :=
  match decrypt key (Some row.1) with inl v => Some v | inr _ => None end.

(** Every row can be opened. *)
Definition sealed (s : State) : Prop := map_Forall (λ _ row, is_Some (value_of (machineKey s) row)) (agent_state s).

Definition values (s : State) : gmap string slice := omap (value_of (machineKey s)) (agent_state s).

Inductive state_op :=
| OSet (e : env) (key : string) (value : slice)
| ODelete (e : env) (key : string).

Definition run_op (o : state_op) (s : State) : Out unit :=
  match o with
  | OSet e key value => SetState e key value s
  | ODelete e key => DeleteState e key s
  end.

(** What it does to the values. *)
Definition apply_op (o : state_op) (m : gmap string slice) : gmap string slice :=
  match o with
  | OSet _ key value => <[key := stored (contents value)]> m
  | ODelete _ key => delete key m
  end.

Definition allowed_op (o : state_op) : Prop :=
  match o with OSet e _ value => fresh_nonce (nonce e) ∧ bytes_ok (contents value) | ODelete _ _ => True end.

Lemma run_op_spec o s :
  allowed_op o → sealed s →
  sealed (run_op o s).1 ∧ machineKey (run_op o s).1 = machineKey s ∧
  values (run_op o s).1 = match (run_op o s).2 with inl _ => apply_op o (values s) | inr _ => values s end.
Proof.
  intros Ho Hs. destruct o as [e key value|e key]; cbn [run_op apply_op].
  - destruct Ho as [Hn Hp]. unfold SetState. destruct (encrypt (machineKey s) (nonce e) value) as [[c|]|err] eqn:E; [|by split_and!..].
    destruct value as [p|]; [|done]. destruct (encrypt_decrypt _ _ _ _ Hn Hp E) as (b & [= <-] & Hd). unfold exec.
    destruct (works e); [|by split_and!]. cbn. split_and!; [|done|].
    + unfold sealed. cbn. apply map_Forall_insert_2; [|done]. unfold value_of. cbn [fst]. rewrite Hd. by eexists.
    + unfold values. cbn. rewrite omap_insert. unfold value_of at 1. cbn [fst]. by rewrite Hd.
  - unfold DeleteState, exec. destruct (works e); [|by split_and!]. cbn. split_and!; [|done|].
    + by apply map_Forall_delete.
    + unfold values. cbn. by rewrite omap_delete.
Qed.

Lemma get_state_spec e key s :
  sealed s → works e = true →
  GetState e key s = match values s !! key with Some v => inl v | None => inr ErrNotFound end.
Proof.
  intros Hs He. unfold GetState, values. rewrite He, lookup_omap. destruct (agent_state s !! key) as [row|] eqn:E; [|done].
  destruct (Hs _ _ E) as [v Hv]. cbn -[value_of decrypt]. rewrite Hv. unfold value_of in Hv. destruct row as [c t]. cbn -[decrypt] in *.
  destruct (decrypt _ _); congruence.
Qed.

(** C40: the table of states is a map from keys to values, sealed with the key of the
    machine: whatever is set and deleted, each operation that succeeds changes the map, each
    that fails leaves it, every row can be opened, and reading a key gives its value; the
    empty value and the absent key differ, but the empty value comes back as nil. *)
Theorem state_refines_map (os : list state_op) e key machine :
  Forall allowed_op os → works e = true →
  let s := foldl (λ s o, (run_op o s).1) (fresh_store machine) os in
  sealed s ∧
  GetState e key s =
    match foldl (λ '(s, m) o, ((run_op o s).1, match (run_op o s).2 with inl _ => apply_op o m | inr _ => m end))
            (fresh_store machine, ∅) os
    with (_, m) => match m !! key with Some v => inl v | None => inr ErrNotFound end end.
Proof.
  intros Hos He. cbv zeta.
  assert (∀ s m, sealed s → values s = m →
    let s' := foldl (λ s o, (run_op o s).1) s os in
    sealed s' ∧ values s' = (foldl (λ '(s, m) o, ((run_op o s).1, match (run_op o s).2 with inl _ => apply_op o m | inr _ => m end)) (s, m) os).2) as Hfold.
  { induction Hos as [|o os Ho _ IH]; intros s m Hs Hm; cbn [foldl]; [by split|].
    destruct (run_op_spec o s Ho Hs) as (Hs' & _ & Hv). apply IH; [done|]. by rewrite Hv, Hm. }
  destruct (Hfold (fresh_store machine) ∅) as [Hs Hv]; [by apply map_Forall_empty|done|]. split; [done|].
  rewrite get_state_spec by done. rewrite Hv. by destruct (foldl _ (_, _) os).
Qed.

End sealing.

(** * Certificates and secrets *)

Section records.
Context `{AEAD, MapRange, SliceSort}.

(** a certificate that was saved is read back: its text, its key if it has one, and
    the end of its validity to the second; but the time of the change is never read back,
    since it is parsed in another layout than SQLite writes it in, and is the zero time;
    so is the creation time of a secret. *)
Theorem certificate_roundtrip k e e' certType cert privateKey notAfter s s' :
  -1440 < k < 1440 → four_digits (k * Minute) notAfter → four_digits 0 (now e) →
  fresh_nonce (nonce e) → fresh_nonce (nonce' e) → bytes_ok cert → bytes_ok (contents privateKey) → works e' = true →
  SaveCertificate (k * Minute) e certType (Some cert) privateKey notAfter s = (s', inl tt) →
  GetCertificate e' certType s' = inl (mkCertificate certType (stored cert) (stored (contents privateKey)) (in_seconds notAfter) 0) ∧
  (∀ t, t ≠ certType → GetCertificate e' t s' = GetCertificate e' t s).
Proof.
  intros Hk Hy Hy0 Hn Hn' Hc Hp He Hsave. unfold SaveCertificate in Hsave.
  destruct (encrypt (machineKey s) (nonce e) (Some cert)) as [c|] eqn:E1; [|done].
  destruct (encrypt (machineKey s) (nonce' e) privateKey) as [ek|] eqn:E2; [|done].
  destruct (encrypt_decrypt _ _ _ _ Hn Hc E1) as (b & -> & Hd). unfold exec in Hsave. destruct (works e); [|done]. injection Hsave as <-.
  unfold GetCertificate. rewrite He. cbn [certificates machineKey]. split.
  - rewrite lookup_insert_eq. unfold read_certificate. cbn [row_certificate row_private_key row_not_after row_updated_at]. rewrite Hd.
    assert (decrypt (machineKey s) ek = inl (stored (contents privateKey))) as ->.
    { destruct privateKey as [p|]; [|by injection E2 as <-]. by destruct (encrypt_decrypt _ _ _ _ Hn' Hp E2) as (b' & -> & ?). }
    rewrite RFC3339_roundtrip by done. unfold datetime_now. by rewrite RFC3339_of_DateTime.
  - intros t Ht. by rewrite lookup_insert_ne.
Qed.

Lemma hmac_secret_roundtrip e e' host secret s s' :
  four_digits 0 (now e) → fresh_nonce (nonce e) → bytes_ok secret → works e' = true →
  SaveHMACSecret e host (Some secret) s = (s', inl tt) →
  GetHMACSecret e' host s' = inl (mkHMACSecret host (stored secret) 0).
Proof.
  intros Hy Hn Hp He Hsave. unfold SaveHMACSecret in Hsave. destruct (encrypt (machineKey s) (nonce e) (Some secret)) as [c|] eqn:E; [|done].
  destruct (encrypt_decrypt _ _ _ _ Hn Hp E) as (b & -> & Hd). unfold exec in Hsave. destruct (works e); [|done]. injection Hsave as <-.
  unfold GetHMACSecret. rewrite He. cbn [hmac_secrets machineKey]. rewrite lookup_insert_eq, Hd. unfold datetime_now. by rewrite RFC3339_of_DateTime.
Qed.

End records.

(** * Revoked certificates *)

Section revoked.
Context (zone : Z).

Lemma insert_revoked_error e certs err : foldl (insert_revoked zone e) (inr err) certs = inr err.
Proof. by induction certs. Qed.

Lemma insert_revoked_spec e certs m :
  match foldl (insert_revoked zone e) (inl m) certs with
  | inl m' => NoDup (SerialNumber <$> certs) ∧ (∀ c, c ∈ certs → m !! SerialNumber c = None) ∧
      ∀ x, is_Some (m' !! x) ↔ is_Some (m !! x) ∨ x ∈ SerialNumber <$> certs
  | inr _ => ¬ (NoDup (SerialNumber <$> certs) ∧ ∀ c, c ∈ certs → m !! SerialNumber c = None)
  end.
Proof.
  revert m. induction certs as [|c certs IH]; intros m; cbn [foldl].
  { split_and!; [constructor|by intros ? ?%not_elem_of_nil|]. intros x. split; [by left|]. by intros [|?%not_elem_of_nil]. }
  unfold insert_revoked at 2. case_bool_decide as Hm.
  { rewrite insert_revoked_error. intros [_ Hn]. rewrite (Hn c) in Hm by apply list_elem_of_here. by destruct Hm. }
  specialize (IH (<[SerialNumber c := (Format_RFC3339 zone (RevokedAt c), datetime_now e)]> m)). apply eq_None_not_Some in Hm.
  destruct (foldl _ _ certs) as [m'|].
  - destruct IH as (Hd & Hn & Hx). rewrite fmap_cons, NoDup_cons. split_and!; [|done| |].
    + intros (c' & E & Hc')%list_elem_of_fmap. specialize (Hn _ Hc'). rewrite <- E, lookup_insert_eq in Hn. done.
    + intros c' [->|Hc']%elem_of_cons; [done|]. specialize (Hn _ Hc'). by apply lookup_insert_None in Hn as [? _].
    + intros x. rewrite Hx, elem_of_cons. destruct (decide (x = SerialNumber c)) as [->|Hne].
      * rewrite lookup_insert_eq. naive_solver.
      * rewrite lookup_insert_ne by done. naive_solver.
  - intros [Hd Hn]. apply IH. rewrite fmap_cons, NoDup_cons in Hd. destruct Hd as [Hc Hd]. split; [done|]. intros c' Hc'.
    rewrite lookup_insert_ne; [apply Hn; by apply elem_of_cons; right|]. intros E. apply Hc. rewrite E. apply list_elem_of_fmap. eauto.
Qed.

(** the cache of revoked certificates is replaced as a whole or not at all: when the
    list from the master names no certificate twice, exactly the certificates of the list
    are revoked afterwards; otherwise, or when the database fails, the old cache stays. *)
Theorem revocations_all_or_nothing e certs s :
  let '(s', r) := SyncRevokedCerts zone e certs s in
  (r = inl tt ↔ works e = true ∧ NoDup (SerialNumber <$> certs)) ∧
  match r with
  | inl _ => ∀ e' x, works e' = true → IsRevoked e' x s' = inl (bool_decide (x ∈ SerialNumber <$> certs))
  | inr _ => s' = s
  end.
Proof.
  unfold SyncRevokedCerts. destruct (works e); [|by split; [split; [done|by intros []]|]].
  pose proof (insert_revoked_spec e certs ∅) as Hs. destruct (foldl _ _ certs) as [m|err].
  - destruct Hs as (Hd & _ & Hx). split; [done|]. intros e' x He. unfold IsRevoked. rewrite He. cbn [revoked_certs]. f_equal.
    apply bool_decide_ext. rewrite Hx, lookup_empty. split; [by intros [[]|]|by right].
  - split; [|done]. split; [done|]. intros [_ Hd]. destruct Hs. split; [done|]. intros c _. apply lookup_empty.
Qed.

End revoked.

(** * Retention *)

Lemma len_filter_split {A} (f : A → bool) l : len (filter (λ x, f x = true) l) = len l - len (filter (λ x, f x = false) l).
Proof.
  unfold len. induction l as [|x l IH]; [done|]. rewrite !filter_cons.
  destruct (f x); [rewrite decide_True, decide_False by done|rewrite decide_False, decide_True by done]; cbn [length]; lia.
Qed.

Section retention.
Context `{MapRange, SliceSort} (zone : Z).

(** The timestamps SQLite writes. *)
Definition dated (r : audit_row) (t : time) : Prop := row_timestamp r = Format_DateTime 0 t ∧ four_digits 0 t.

(** the cleanup of the audit log compares the timestamps of SQLite, with a blank
    between date and clock, with a text with the letter T there: what counts is the date. An
    event goes when its day in UTC is not after the day of the cutoff in local time, so also
    when it is younger than the cutoff by up to a day. *)
Theorem audit_retention_by_day e olderThan s r t :
  works e = true → four_digits zone (now e - olderThan) → dated r t → r ∈ audit_log s →
  let '(s', n) := CleanupOldAuditEvents zone e olderThan s in
  (r ∈ audit_log s' ↔ day_of zone (now e - olderThan) < day_of 0 t) ∧
  n = inl (len (audit_log s) - len (audit_log s')).
Proof.
  intros He Hc [Hr Ht] Hin. unfold CleanupOldAuditEvents. rewrite He. cbn [audit_log]. split.
  - rewrite list_elem_of_filter. unfold cutoff. rewrite Hr, DateTime_before_RFC3339 by done. rewrite Z.leb_gt. naive_solver.
  - by rewrite len_filter_split.
Qed.

(** The bounds of a query are written with the clock of their zone and compared with UTC. *)
Lemma query_bounds_shifted start r t :
  dated r t → four_digits zone start →
  selects zone (mkFilter [] (Some start) None None 0 0) r = ((start + zone) / Second <=? t / Second).
Proof.
  intros [Hr Ht] Hs. unfold selects. cbn. rewrite Hr. unfold string_lt. rewrite DateTime_order by done.
  rewrite Z.add_0_r, andb_true_r, andb_true_r. destruct (Z.compare_spec (t / Second) ((start + zone) / Second)); symmetry;
    [apply Z.leb_le|apply Z.leb_gt|apply Z.leb_le]; lia.
Qed.

(** The archives that are kept are the newest. *)
Lemma archives_kept keep matches :
  0 ≤ keep → let dbFiles := filter (λ m, isWALOrSHM m = false) matches in
  len (old_archives keep matches) = Z.max 0 (len dbFiles - keep) ∧
  ∃ kept, dbFiles ≡ₚ old_archives keep matches ++ kept ∧
    ∀ old new, old ∈ old_archives keep matches → new ∈ kept → string_lt new old = false.
Proof.
  intros Hk dbFiles. unfold old_archives. fold dbFiles. destruct (Z.leb_spec (len dbFiles) keep).
  { split; [unfold len in *; cbn; lia|]. exists dbFiles. split; [done|]. by intros ? ? ?%not_elem_of_nil. }
  set (l := sort_Slice string_lt dbFiles). set (n := Z.to_nat (len dbFiles - keep)).
  assert (length l = length dbFiles) as Hl by apply sort_length. split.
  - unfold len in *. rewrite length_take. lia.
  - exists (drop n l). split; [by rewrite take_drop; symmetry; apply sort_perm|]. intros old new Hold Hnew.
    pose proof (sort_sorted string string_lt dbFiles (string_less_order (λ x, x))) as Hs. fold l in Hs. rewrite <- (take_drop n l) in Hs.
    apply StronglySorted_app in Hs as (Hs & _ & _). by apply (Hs old new).
Qed.

(** Whatever the old version: a store that opens carries the current one; the tables of a
    compatible database are kept, an incompatible one is put aside as a whole and the tables
    start empty. *)
Lemma opened_store e key dbPath d d' s :
  NewAgentStore e key dbPath d = (d', inl s) →
  user_version d' = dbSchemaVersion ∧ key = inl (machineKey s) ∧
  if incompatible (user_version d) then s = fresh_store (machineKey s)
  else tables d' = tables d ∧ archives d' = archives d ∧ agent_state s = agent_state (tables d).
Proof.
  unfold NewAgentStore, checkAndArchiveIncompatible, set_version. destruct (reads e); [cbn [negb]|done].
  destruct (incompatible (user_version d)); cbn [negb].
  - destruct (renames e dbPath); [cbn [negb]|done]. destruct (sets e); [|done]. destruct key; [|done]. by intros [= <- <-].
  - destruct (sets e); [|done]. destruct key; [|done]. by intros [= <- <-].
Qed.

End retention.

(** * Trusted authorities, synchronised *)

Section trusted.
Context `{AEAD, MapRange, SliceSort} (zone : Z) {Meta : Type} (Marshal : Meta → option string).
Context {Cert : Type} (certs_of : list Z → list Cert) (expiry_of : list Z → option time).

(** The database works and there are random bytes. *)
Definition good_env (e : env) : Prop :=
  works e = true ∧ fresh_nonce (nonce e) ∧ is_Some (nonce e) ∧ fresh_nonce (nonce' e) ∧ is_Some (nonce' e).

Lemma save_certificate e t cert privateKey notAfter s :
  good_env e → bytes_ok cert → bytes_ok (contents privateKey) →
  ∃ r, SaveCertificate zone e t (Some cert) privateKey notAfter s =
      ({| s with certificates := <[t := r]> (certificates s) |}, inl tt) ∧
    ∃ u, read_certificate (machineKey s) t r =
      inl (mkCertificate t (stored cert) (stored (contents privateKey)) (parsed (Parse_RFC3339 (Format_RFC3339 zone notAfter))) u).
Proof.
  intros (Hw & Hn & [n En] & Hn' & [n' En']) Hb Hb'. unfold SaveCertificate, exec. rewrite En, En'. cbn [encrypt].
  destruct (Hn n En), (Hn' n' En'). destruct privateKey as [p|]; cbn [encrypt]; rewrite Hw; eexists; (split; [done|]);
    unfold read_certificate; cbn [row_certificate row_private_key contents default] in *; eexists; rewrite !decrypt_sealed by done; done.
Qed.

Lemma save_good e t cert notAfter s :
  good_env e → bytes_ok cert →
  ∃ r, (SaveCertificate zone e t (Some cert) None notAfter s).1 = {| s with certificates := <[t := r]> (certificates s) |} ∧
    ∃ c, read_certificate (machineKey s) t r = inl c ∧ Certificate c = stored cert.
Proof.
  intros He Hb. destruct (save_certificate e t cert None notAfter s He Hb) as (r & E & u & Hr); [constructor|].
  exists r. rewrite E. split; [done|]. rewrite Hr. by eexists.
Qed.

Lemma ca_key_inj i j : ca_key i = ca_key j → i = j.
Proof. unfold ca_key. intros [= E]. change (pretty (Z.of_nat i) = pretty (Z.of_nat j)) in E. apply (inj _) in E. lia. Qed.

Lemma ca_key_ca i : ca_key i ≠ "ca".
Proof. unfold ca_key. by intros [=]. Qed.

Lemma save_bundle_spec e i certs s :
  (∀ k, good_env (e k)) → Forall bytes_ok certs →
  let s' := save_bundle zone expiry_of e i certs s in
  agent_state s' = agent_state s ∧ machineKey s' = machineKey s ∧
  (∀ k cert, certs !! k = Some cert → ∃ r, certificates s' !! ca_key (i + k) = Some r ∧
     ∃ c, read_certificate (machineKey s) (ca_key (i + k)) r = inl c ∧ Certificate c = stored cert) ∧
  (∀ t, (∀ k, (i ≤ k)%nat → t ≠ ca_key k) → certificates s' !! t = certificates s !! t).
Proof.
  intros He Hb. revert i s. induction Hb as [|cert certs Hc _ IH]; intros i s; cbn [save_bundle].
  { by split_and!. }
  destruct (save_good (e i) (ca_key i) cert (default 0 (expiry_of cert)) s (He i) Hc) as (r & -> & Hr).
  destruct (IH (S i) {| s with certificates := <[ca_key i := r]> (certificates s) |}) as (E1 & E2 & E3 & E4).
  cbn [agent_state machineKey certificates] in *. split_and!; [done..| |].
  - intros [|k] c Hk; cbn in Hk.
    + injection Hk as <-. rewrite Nat.add_0_r. exists r. split; [|done]. rewrite E4, lookup_insert_eq; [done|].
      intros k Hle E%ca_key_inj. lia.
    + replace (i + S k)%nat with (S i + k)%nat by lia. by apply E3.
  - intros t Ht. rewrite E4 by (intros k Hk; apply Ht; lia). rewrite lookup_insert_ne; [done|]. intros E. by apply (Ht i); [lia|].
Qed.

(** The version the store has. *)
Definition current_version (read : env) (s : State) : string :=
  match GetState read "ca_trust_version" s with inl v => string_of (contents v) | inr _ => "" end.

Lemma set_good e key value s :
  good_env e → ∃ c, (SetState e key (Some value) s).1 = {| s with agent_state := <[key := (c, datetime_now e)]> (agent_state s) |} ∧
    (bytes_ok value → decrypt (machineKey s) (Some c) = inl (stored value)).
Proof.
  intros (Hw & Hn & [n En] & _ & _). unfold SetState, exec. rewrite En. cbn [encrypt]. rewrite Hw. eexists. split; [done|].
  intros Hb. destruct (Hn n En). by apply decrypt_sealed.
Qed.

Lemma log_keeps e t d ok s :
  agent_state (LogAuditEvent Marshal e t d ok s).1 = agent_state s ∧ machineKey (LogAuditEvent Marshal e t d ok s).1 = machineKey s.
Proof. unfold LogAuditEvent, LogAuditEventWithMetadata, exec. by destruct (works e). Qed.

Lemma sync_spec read e call m certs id version :
  works read = true → (∀ k, good_env (e k)) → Forall bytes_ok certs → in_int64 (len certs) →
  call (current_version read (trust_store m)) = inl (certs, id, version) →
  (version ≠ current_version read (trust_store m) ∨ certs ≠ []) →
  let '(m', r) := SyncCATrustBundle zone Marshal certs_of expiry_of read e call m in
  r = inl tt ∧ current_version read (trust_store m') = version ∧
  GetTrustPool m' = concat (certs_of <$> certs) ++ loaded certs_of read (trust_store m) "ca".
Proof.
  intros Hr He Hb Hn Hcall Hnew. unfold SyncCATrustBundle. fold (current_version read (trust_store m)). rewrite Hcall.
  assert (bool_decide (version = current_version read (trust_store m)) && bool_decide (certs = []) = false) as ->.
  { apply andb_false_iff. rewrite !bool_decide_eq_false. tauto. }
  set (n := length certs). destruct (save_bundle_spec e 0 certs (trust_store m) He Hb) as (E1 & E2 & E3 & E4).
  set (s1 := save_bundle _ _ _ _ _ _) in *.
  destruct (set_good (e n) "ca_trust_version" (bytes_of version) s1 (He n)) as (c1 & -> & D1). set (s2 := {| s1 with agent_state := _ |}).
  destruct (set_good (e (n + 1)%nat) "ca_trust_count" (bytes_of (Secrets.Itoa (Z.of_nat n))) s2 (He _)) as (c2 & -> & D2).
  set (s3 := {| s2 with agent_state := _ |}).
  destruct (set_good (e (n + 2)%nat) "ca_current_id" (bytes_of id) s3 (He _)) as (c3 & -> & _). set (s4 := {| s3 with agent_state := _ |}).
  split; [done|]. cbn [trust_store rebuildTrustPool trustPool]. split.
  - unfold current_version, GetState. rewrite Hr.
    assert (agent_state s4 !! "ca_trust_version" = Some (c1, datetime_now (e n))) as Hv.
    { unfold s4, s3, s2. cbn. rewrite !lookup_insert_ne by done. by rewrite lookup_insert_eq. }
    destruct (log_keeps (e (n + 3)%nat) "ca_sync" ("synced " +:+ pretty (Z.of_nat n) +:+ " CAs, version " +:+ version) true s4) as [-> ->].
    rewrite Hv. change (machineKey s4) with (machineKey s1). rewrite (D1 (bytes_of_ok _)), contents_stored. apply string_of_bytes_of.
  - assert (trust_count read s4 = Z.of_nat n) as ->.
    { unfold trust_count, GetState. rewrite Hr.
      assert (agent_state s4 !! "ca_trust_count" = Some (c2, datetime_now (e (n + 1)%nat))) as ->.
      { unfold s4, s3. cbn. rewrite lookup_insert_ne by done. by rewrite lookup_insert_eq. }
      change (machineKey s4) with (machineKey s2). rewrite (D2 (bytes_of_ok _)), contents_stored, string_of_bytes_of.
      destruct (Secrets.Atoi_Itoa (Z.of_nat n) Hn) as [-> _]. done. }
    unfold GetTrustPool. cbn [trustPool default]. rewrite Nat2Z.id.
    assert (∀ t, loaded certs_of read s4 t = loaded certs_of read s1 t) as Hl by done.
    change (Datatypes.id ?x) with x. rewrite Hl. apply f_equal2.
    + refine (f_equal (λ l, concat l) _). apply list_eq. intros k. rewrite !list_lookup_fmap. destruct (certs !! k) as [cert|] eqn:Ek.
      * rewrite lookup_seq_lt by (unfold n; by eapply lookup_lt_Some). cbn. f_equal. rewrite Hl. unfold loaded, GetCertificate. rewrite Hr.
        destruct (E3 _ _ Ek) as (r & Er & c & Hc & Hcert). cbn in Er, Hc. rewrite Er, E2, Hc. by rewrite Hcert, contents_stored.
      * rewrite lookup_seq_ge by (unfold n; by apply lookup_ge_None). done.
    + unfold loaded, GetCertificate. rewrite Hr, E2, E4; [done|]. intros k _. symmetry. apply ca_key_ca.
Qed.

End trusted.

(** * At concrete inputs *)

#[local] Existing Instance KeyManagement.Kms.checksum_aead.
#[local] Existing Instance range_in_key_order.
#[local] Existing Instance sort_by_exchange.

Definition demo_machine : list Z := repeat 9 32.
Definition demo_nonce (b : Z) : slice := Some (repeat b 12).

(** Noon on 15 November 2024. *)
Definition demo_now : time := 1731672000 * Second.
Definition demo_env (b : Z) : env := mkEnv true demo_now (demo_nonce b) (demo_nonce (b + 1)).

Lemma fresh_store_nonce b : is_byte b → fresh_nonce (demo_nonce b).
Proof. apply KeyManagement.Kms.fresh_demo_nonce. Qed.

Lemma demo_year : four_digits 0 demo_now.
Proof. unfold four_digits. split; [apply Z.leb_le|apply Z.ltb_lt]; by vm_compute. Qed.

Lemma demo_bytes : bytes_ok [104; 105].
Proof. repeat (constructor; [by unfold is_byte|]). constructor. Qed.

(** One value is set, an empty one over it, another fails for want of random bytes, and one
    is deleted. *)
Definition demo_ops : list state_op :=
  [OSet (demo_env 1) "a" (Some [104; 105]); OSet (demo_env 3) "b" (Some [104; 105]); OSet (demo_env 5) "a" (Some []);
   OSet (mkEnv true demo_now None None) "b" (Some [1]); OSet (demo_env 7) "c" (Some [104; 105]); ODelete (demo_env 9) "c"].

Lemma state_refines_map_witness :
  let s := foldl (λ s o, (run_op o s).1) (fresh_store demo_machine) demo_ops in
  sealed s ∧ GetState (demo_env 0) "b" s = inl (Some [104; 105]).
Proof.
  cbv zeta. assert (Forall allowed_op demo_ops) as Ho.
  { unfold demo_ops. repeat (constructor; [try exact I; split; [first [apply fresh_store_nonce; by unfold is_byte|done]|]|]); [..|constructor].
    all: cbn [contents default]; repeat (constructor; [by unfold is_byte|]); constructor. }
  destruct (state_refines_map demo_ops (demo_env 0) "b" demo_machine Ho eq_refl) as [Hs Hg]. split; [exact Hs|].
  rewrite Hg. by vm_compute.
Defined.

Definition demo_saved : State := (SaveCertificate (60 * Minute) (demo_env 1) "agent" (Some [104; 105]) None demo_now (fresh_store demo_machine)).1.

Lemma certificate_roundtrip_witness :
  GetCertificate (demo_env 3) "agent" demo_saved = inl (mkCertificate "agent" (Some [104; 105]) None (in_seconds demo_now) 0).
Proof.
  refine (proj1 (certificate_roundtrip 60 (demo_env 1) (demo_env 3) "agent" [104; 105] None demo_now (fresh_store demo_machine) demo_saved
    _ _ demo_year _ _ demo_bytes _ eq_refl _)).
  - lia.
  - unfold four_digits. split; [apply Z.leb_le|apply Z.ltb_lt]; by vm_compute.
  - apply fresh_store_nonce. by unfold is_byte.
  - apply fresh_store_nonce. by unfold is_byte.
  - constructor.
  - by vm_compute.
Defined.

(** An event of noon is removed by a cleanup whose cutoff is six o'clock of the same day. *)
Definition demo_logged : State :=
  (LogAuditEvent (λ _ : unit, None) (demo_env 1) "deploy" "done" true (fresh_store demo_machine)).1.

Lemma audit_retention_by_day_witness :
  let e := mkEnv true (demo_now + 18 * Hour) None None in
  let '(s', n) := CleanupOldAuditEvents (2 * Hour) e (Day) demo_logged in
  demo_now + 18 * Hour - Day < demo_now ∧ ∀ r, r ∈ audit_log demo_logged → r ∉ audit_log s'.
Proof.
  cbv zeta. set (e := mkEnv true (demo_now + 18 * Hour) None None).
  assert (∀ r, r ∈ audit_log demo_logged → row_timestamp r = Format_DateTime 0 demo_now) as Hr.
  { intros r Hr. unfold demo_logged in Hr. apply list_elem_of_singleton in Hr. by rewrite Hr. }
  assert (four_digits (2 * Hour) (now e - Day)) as Hy.
  { unfold four_digits. split; [apply Z.leb_le|apply Z.ltb_lt]; by vm_compute. }
  pose proof (λ r H, audit_retention_by_day (2 * Hour) e Day demo_logged r demo_now eq_refl Hy (conj (Hr r H) demo_year) H) as Ht.
  destruct (CleanupOldAuditEvents _ _ _ _) as [s' n]. split; [by vm_compute|]. intros r Hin Hin'.
  apply (Ht r Hin) in Hin'. by vm_compute in Hin'.
Defined.
