(* ===== verification/AgentDaemon.v ===== *)
(** The daemon of an agent ([src/internal/agent/agent.go]): the connection to the master,
    registration, re-authentication and the renewal of the certificate, the reconnection
    with its delays, start and shutdown.  The commands and the self-update are in
    [AgentCommands].

    The store is the one of [AgentStore].  A call to the master is a function of the
    request; PEM streams, key pairs, certificate pools and the signature are parameters, and
    so is what the network does. *)

From stdpp Require Import pretty.
From S2P Require Import GoStrings GoTime GoSort TimeText StoreBase ServiceBase Models MemAgents MemDeployments Services Formats Crypto SecurityModels MemSecurity KeyManagement Certificates AgentServer.
From S2P Require AgentStore.

#[local] Open Scope string_scope.
#[local] Open Scope list_scope.
#[local] Open Scope Z_scope.

Abbreviation slice := AgentStore.slice.
Abbreviation env := AgentStore.env.

(** * PEM streams *)

(** [pem.Decode] and [pem.EncodeToMemory]: the next block of a stream, if there is one. *)
Class PEM `{X509} := {
  Block : Type;
  block_type : Block → string;
  block_bytes : Block → list Z;
  Decode : list Z → option (Block * list Z);
  EncodeToMemory : Block → list Z
}.

Class PEMLaws `{PEM} := {
  decode_block : ∀ typ der rest, ∃ b, Decode (bytes_of (pem_encode typ der) ++ rest) = Some (b, rest) ∧
    block_type b = typ ∧ block_bytes b = der ∧ EncodeToMemory b = bytes_of (pem_encode typ der);
  decode_shorter : ∀ data b rest, Decode data = Some (b, rest) → (length rest < length data)%nat
}.

Section pem.
Context `{PEM}.

Definition key_types : list string := ["PRIVATE KEY"; "RSA PRIVATE KEY"; "EC PRIVATE KEY"].

Fixpoint split_blocks (fuel : nat) (data : list Z) : list (list Z) * list (list Z) :=
  match fuel with
  | O => ([], [])
  | S fuel =>
      match Decode data with
      | None => ([], [])
      | Some (block, rest) =>
          let '(certBlocks, keyBlocks) := split_blocks fuel rest in
          let encoded := EncodeToMemory block in
          if bool_decide (block_type block ∈ key_types) then (certBlocks, encoded :: keyBlocks)
          else (encoded :: certBlocks, keyBlocks)
      end
  end.

(** [bytes.Join(blocks, nil)] where there are blocks, nil otherwise. *)
Definition join_blocks (blocks : list (list Z)) : slice :=
  match blocks with
  | [] => None
  | [b] => if bool_decide (b = []) then None else Some b
  | _ => Some (concat blocks)
  end.

(** A block takes at least one byte. *)
Definition splitCertAndKey (data : list Z) : slice * slice :=
  let '(certBlocks, keyBlocks) := split_blocks (S (length data)) data in (join_blocks certBlocks, join_blocks keyBlocks).

Lemma split_blocks_enough `{!PEMLaws} fuel fuel' data :
  (length data < fuel)%nat → (length data < fuel')%nat → split_blocks fuel data = split_blocks fuel' data.
Proof.
  revert fuel' data; induction fuel as [|fuel IH]; intros [|fuel'] data Hf Hf'; [lia..|]. cbn [split_blocks].
  destruct (Decode data) as [[b rest]|] eqn:E; [|done]. apply decode_shorter in E. by rewrite (IH fuel') by lia.
Qed.

Lemma decode_nil `{!PEMLaws} : Decode [] = None.
Proof. destruct (Decode []) as [[b rest]|] eqn:E; [|done]. apply decode_shorter in E. cbn in E. lia. Qed.

(** What a stream of blocks made by the encoder is split into. *)
Lemma split_stream `{!PEMLaws} (blocks : list (string * list Z)) :
  let encoded := λ '(typ, der), bytes_of (pem_encode typ der) in
  splitCertAndKey (concat (encoded <$> blocks)) =
    (join_blocks (encoded <$> filter (λ '(typ, _), typ ∉ key_types) blocks),
     join_blocks (encoded <$> filter (λ '(typ, _), typ ∈ key_types) blocks)).
Proof.
  cbv zeta. unfold splitCertAndKey. set (encoded := λ '(typ, der), bytes_of (pem_encode typ der)).
  assert (∀ fuel, (length (concat (encoded <$> blocks)) < fuel)%nat →
    split_blocks fuel (concat (encoded <$> blocks)) =
      (encoded <$> filter (λ '(typ, _), typ ∉ key_types) blocks, encoded <$> filter (λ '(typ, _), typ ∈ key_types) blocks)) as ->; [|done|lia].
  induction blocks as [|[typ der] blocks IH]; intros [|fuel] Hf; [lia| |lia|].
  { cbn. by rewrite decode_nil. }
  rewrite fmap_cons in *. change (concat (encoded (typ, der) :: ?l)) with (bytes_of (pem_encode typ der) ++ concat l) in *.
  destruct (decode_block typ der (concat (encoded <$> blocks))) as (b & E & Ht & _ & Henc).
  pose proof (decode_shorter _ _ _ E) as Hs. cbn [split_blocks]. rewrite E, IH, Henc, Ht by lia. rewrite !filter_cons.
  case_bool_decide; repeat case_decide; done.
Qed.

End pem.

(** * Configuration *)

(** The fields of [AgentConfig] the daemon reads, without the sections they are in. *)
Record AgentConfig := mkConfig {
  AgentID : string; Labels : option (gmap string string);
  Address : string; Token : string; CACert : string;
  InitialDelay : Z; MaxDelay : Z; HeartbeatInterval : Z;
  UseNamespaces : bool; User : string;
  UpdatePolicy : string; UpdateWindowStart : string; UpdateWindowEnd : string
}.

Definition DefaultAgentConfig : AgentConfig :=
  mkConfig "" (Some ∅) "" "" "/etc/vcdeploy/agent/ca.pem" Second (5 * Minute) (10 * Second) true "www-data" "" "" "".

(** What the network and the disk answer to an attempt to connect: the file of the
    authority, the client, and whether the connection leaves the idle state in time. *)
Record dial := mkDial { ca_file : bool; new_client : bool; leaves_idle : bool }.

Module Daemon.
Section daemon.
Context `{PEM, AEAD, MapRange, SliceSort} (zone : Z) {Meta : Type} (Marshal : Meta → option string).
(** [tls.X509KeyPair], [AppendCertsFromPEM], the JSON of the capabilities, and the signature. *)
Context {Pair : Type} (X509KeyPair : list Z → list Z → Pair + gerror) (AppendCertsFromPEM : list Z → bool).
Context (hmac_sha256 : list Z → list Z → list Z).
Context (cfg : AgentConfig).

(** With the certificate of the agent, or with the authority of the master only. *)
Inductive connection :=
| Mutual (agent : Pair) (ca : list Z)
| ServerOnly.

(** [client] outlives the connection it was made for; [stopped]: [shutdown] is closed. *)
Record Agent := mkAgent {
  store : AgentStore.State; conn : option connection; client : option connection; running : bool; stopped : bool
}.

Definition start (s : AgentStore.State) : Agent := mkAgent s None None false false.

(** ** The connection *)

Definition buildTLSConfig (e : env) (s : AgentStore.State) : connection + gerror :=
  match AgentStore.GetTLSCertificate X509KeyPair e "agent" s with
  | inr err => inr (wrapf "load agent certificate" err)
  | inl agentCert =>
      match AgentStore.GetCertificate e "ca" s with
      | inr err => inr (wrapf "load CA certificate" err)
      | inl r =>
          let ca := AgentStore.contents (AgentStore.Certificate r) in
          if AppendCertsFromPEM ca then inl (Mutual agentCert ca) else inr (Errorf "failed to parse CA certificate")
      end
  end.

Definition connect (e : env) (d : dial) (a : Agent) : Agent * option gerror :=
  match conn a with
  | Some _ => (a, None)
  | None =>
      let creds :=
        match buildTLSConfig e (store a) with
        | inl c => inl c
        | inr _ => if bool_decide (CACert cfg = "")
                   then inr (Errorf "TLS certificate required: set master.ca_cert for initial connection")
                   else if ca_file d then inl ServerOnly else inr (Errorf "loading CA cert")
        end in
      match creds with
      | inr err => (a, Some err)
      | inl c =>
          if negb (new_client d) then (a, Some (Errorf "creating grpc client"))
          else if negb (leaves_idle d) then (a, Some (Errorf "connection timeout to master"))
          else ({| a with conn := Some c; client := Some c |}, None)
      end
  end.

(** ** Registration *)

(** The validity of the first certificate in a text and the zone it is in; another end if
    there is none. *)
Definition parse_first (data : list Z) : option Certificate :=
  match Decode data with Some (block, _) => ParseCertificate (block_bytes block) | None => None end.

Definition not_after (data : list Z) (otherwise : time) : Z * time :=
  match parse_first data with
  | Some c => (0, Template.NotAfter (fields c))
  | None => (zone, otherwise)
  end.

Definition save_cert (e : env) (typ : string) (certPEM keyPEM : slice) (validity : Z * time) (s : AgentStore.State) :=
  AgentStore.SaveCertificate validity.1 e typ certPEM keyPEM validity.2 s.

Definition save_agent (e : env) (data : list Z) (otherwise : time) (s : AgentStore.State) :=
  let '(certPEM, keyPEM) := splitCertAndKey data in save_cert e "agent" certPEM keyPEM (not_after data otherwise) s.

Definition save_ca (e : env) (now : time) (data : list Z) (s : AgentStore.State) :=
  save_cert e "ca" (Some data) None (not_after data (AddDate zone now 10 0 0)) s.

(** [if len(data) > 0], with failures only logged. *)
Definition unless_empty (data : list Z) (save : AgentStore.State → AgentStore.Out unit) (s : AgentStore.State) : AgentStore.State :=
  if bool_decide (data = []) then s else (save s).1.

Definition log (e : env) (eventType details : string) (success : bool) (s : AgentStore.State) : AgentStore.State :=
  (AgentStore.LogAuditEvent Marshal e eventType details success s).1.

Definition AuditEventConnect : string := "connect".
Definition AuditEventCertIssued : string := "cert_issued".
Definition AuditEventCertRenewed : string := "cert_renewed".

(** What a successful answer leaves in the store: [e k] is for the [k]-th write. *)
Definition store_registration (e : nat → env) (now : time) (resp : RegisterResponse) (s : AgentStore.State) : AgentStore.State :=
  let certificate := bytes_of resp.(RegisterResponse.Certificate) in
  let ca := bytes_of resp.(RegisterResponse.CaCertificate) in
  let s := unless_empty certificate (save_agent (e 0%nat) certificate (AddDate zone now 1 0 0)) s in
  let s := unless_empty ca (save_ca (e 1%nat) now ca) s in
  let secret := resp.(RegisterResponse.HmacSecret) in
  let s := unless_empty secret (AgentStore.SaveHMACSecret (e 2%nat) (Address cfg) (Some secret)) s in
  log (e 3%nat) AuditEventCertIssued "agent registered successfully" true s.

(** [capabilities] is the JSON the master makes of what the agent tells of its machine. *)
Definition register_request (hostname : option string) (capabilities : option string) (token : string) : RegisterRequest :=
  RegisterRequest.mk (AgentID cfg) token (default "unknown" hostname) (Labels cfg) capabilities.

Definition Register (read : env) (d : dial) (e : nat → env) (now : time) (hostname capabilities : option string)
    (call : RegisterRequest → RegisterResponse + string) (token : string) (a : Agent) : Agent * ((string * string) + gerror) :=
  match connect read d a with
  | (a, Some err) => (a, inr (wrapf "connecting to master" err))
  | (a, None) =>
      match client a with
      | None => (a, inr (Errorf "not connected"))
      | Some _ =>
          match call (register_request hostname capabilities token) with
          | inr err => ({| a with store := log (e 0%nat) AuditEventConnect ("registration failed: " +:+ err) false (store a) |},
                        inr (Errorf ("registration RPC failed: " +:+ err)))
          | inl resp =>
              if negb resp.(RegisterResponse.Success)
              then ({| a with store := log (e 0%nat) AuditEventConnect ("registration rejected: " +:+ resp.(RegisterResponse.Error)) false (store a) |},
                    inr (Errorf ("registration rejected: " +:+ resp.(RegisterResponse.Error))))
              else ({| a with store := store_registration e now resp (store a) |},
                    inl (resp.(RegisterResponse.Certificate), resp.(RegisterResponse.CaCertificate)))
          end
      end
  end.

(** ** Re-authentication *)

(** The port beside the one of the master. *)
Definition reauth_address : string := default "" (head (split_on (Ascii.ascii_of_nat 58) (Address cfg))) +:+ ":9444".

(** The request to the address: identifier, time, nonce and signature. *)
Definition reauth_call : Type := string → string → Z → list Z → list Z → (string * string) + string.

Definition reauthenticate (read : env) (e : nat → env) (now now' : time) (nonce : option (list Z)) (dials : bool)
    (call : reauth_call) (s : AgentStore.State) : AgentStore.State * (unit + gerror) :=
  match AgentStore.GetHMACSecret read (Address cfg) s with
  | inr err => (s, inr (wrapf "get HMAC secret" err))
  | inl record =>
  match nonce with
  | None => (s, inr (Errorf "generate nonce"))
  | Some nonce =>
      let timestamp := Unix now in
      let message := bytes_of (AgentID cfg +:+ ":" +:+ pretty timestamp +:+ ":") ++ nonce in
      let signature := hmac_sha256 (AgentStore.contents (AgentStore.Secret record)) message in
      match AgentStore.GetCertificate read "ca" s with
      | inr err => (s, inr (wrapf "load CA certificate" err))
      | inl caCertRec =>
          if negb (AppendCertsFromPEM (AgentStore.contents (AgentStore.Certificate caCertRec)))
          then (s, inr (Errorf "invalid CA certificate"))
          else if negb dials then (s, inr (Errorf "connect to reauth port"))
          else match call reauth_address (AgentID cfg) timestamp nonce signature with
               | inr err => (s, inr (Errorf ("reauthenticate RPC: " +:+ err)))
               | inl (certificate, ca) =>
                   let certificate := bytes_of certificate in
                   match Decode certificate with
                   | None => (s, inr (Errorf "invalid certificate PEM"))
                   | Some _ =>
                       match parse_first certificate with
                       | None => (s, inr (Errorf "parse certificate"))
                       | Some _ =>
                           match save_agent (e 0%nat) certificate now' s with
                           | (s, inr err) => (s, inr (wrapf "save certificate" err))
                           | (s, inl _) =>
                               let s := unless_empty (bytes_of ca) (save_ca (e 1%nat) now' (bytes_of ca)) s in
                               (log (e 2%nat) AuditEventCertRenewed "certificate renewed via HMAC re-auth" true s, inl tt)
                           end
                       end
                   end
               end
      end
  end end.

Definition renewalThreshold : Z := 6 * 30 * 24 * Hour.
Definition Millisecond : Z := 1000000.

(** Does the monitor of the certificate ask for a new one? *)
Definition renewal_due (read : env) (now : time) (s : AgentStore.State) : bool :=
  match AgentStore.GetCertificate read "agent" s with
  | inr _ => false
  | inl r => let timeUntilExpiry := AgentStore.NotAfter r - now in (timeUntilExpiry <? 0) || (timeUntilExpiry <? renewalThreshold)
  end.

(** Failures are only logged. *)
Definition checkCertificateExpiry (read : env) (now : time)
    (reauthenticate : AgentStore.State → AgentStore.State * (unit + gerror)) (a : Agent) : Agent :=
  if renewal_due read now (store a) then {| a with store := (reauthenticate (store a)).1 |} else a.

(** ** Reconnection *)

Inductive wake := Goes_on | Cancelled | ShutdownRequested.

Definition interrupted (w : wake) : option gerror :=
  match w with
  | Goes_on => None
  | Cancelled => Some (Errorf "context canceled")
  | ShutdownRequested => Some (Errorf "shutdown requested")
  end.

(** A round: what is signalled before the attempt and during the wait after it. *)
Record round := mkRound { before : wake; r_env : env; r_dial : dial; during : wake }.

(** The waits, and how it ends; [None] when it is still trying after these rounds. *)
Fixpoint reconnect_loop (rounds : list round) (backoff maxBackoff : Z) (a : Agent) : Agent * list Z * option (option gerror) :=
  match rounds with
  | [] => (a, [], None)
  | r :: rounds =>
      match interrupted (before r) with
      | Some err => (a, [], Some (Some err))
      | None =>
          match connect (r_env r) (r_dial r) a with
          | (a, None) => (a, [], Some None)
          | (a, Some _) =>
              match interrupted (during r) with
              | Some err => (a, [], Some (Some err))
              | None =>
                  let doubled := wrap64 (2 * backoff) in
                  let '(a, waits, end_) := reconnect_loop rounds (if maxBackoff <? doubled then maxBackoff else doubled) maxBackoff a in
                  (a, backoff :: waits, end_)
              end
          end
      end
  end.

Definition first_delay : Z := if InitialDelay cfg =? 0 then Second else InitialDelay cfg.
Definition max_delay : Z := if MaxDelay cfg =? 0 then 5 * Minute else MaxDelay cfg.

Definition reconnect (rounds : list round) (a : Agent) : Agent * list Z * option (option gerror) :=
  reconnect_loop rounds first_delay max_delay {| a with conn := None |}.

(** ** Start and shutdown *)

(** What an attempt to register meets. *)
Record attempt := mkAttempt { at_env : nat → env; at_now : time; at_call : RegisterRequest → RegisterResponse + string }.

(** Five attempts, with the waits after those that fail. *)
Fixpoint auto_register (left_ : nat) (attempt_number : Z) (read : env) (d : dial) (hostname capabilities : option string)
    (attempts : Z → attempt) (a : Agent) : Agent * list Z * bool :=
  match left_ with
  | O => (a, [], false)
  | S left_ =>
      let t := attempts attempt_number in
      match Register read d (at_env t) (at_now t) hostname capabilities (at_call t) (Token cfg) a with
      | (a, inl _) => (a, [], true)
      | (a, inr _) =>
          let '(a, waits, done_) := auto_register left_ (attempt_number + 1) read d hostname capabilities attempts a in
          (a, attempt_number * 500 * Millisecond :: waits, done_)
      end
  end.

(** Until the loops of the daemon run. *)
Definition Start (read : env) (d : dial) (hostname capabilities : option string) (attempts : Z → attempt) (a : Agent)
    : Agent * (list Z + gerror) :=
  if running a then (a, inr (Errorf "agent already running"))
  else
    let a := {| a with running := true |} in
    match connect read d a with
    | (a, Some err) => (a, inr (wrapf "connecting to master" err))
    | (a, None) =>
        if bool_decide (Token cfg = "") then (a, inl [])
        else let '(a, waits, _) := auto_register 5 1 read d hostname capabilities attempts a in (a, inl waits)
    end.

(** [finished]: the loops end before the context does. A channel is closed once. *)
Definition Shutdown (finished : bool) (a : Agent) : Agent * result unit :=
  if stopped a then (a, Panic)
  else ({| a with stopped := true; conn := None; running := false |}, if finished then Ok tt else Err (Errorf "context canceled")).

Definition Status (a : Agent) : string :=
  if negb (running a) then "stopped" else match conn a with None => "disconnected" | Some _ => "connected" end.

End daemon.
End Daemon.

(** * What the store holds *)

Section holds.
Context `{AEAD, MapRange, SliceSort} {Meta : Type} (Marshal : Meta → option string).
Import AgentStore.

(** A certificate, a secret that is read back whenever the database works. *)
Definition holds_cert (s : State) (t : string) (cert key : slice) (notAfter : time) : Prop :=
  ∀ e, works e = true → ∃ u, GetCertificate e t s = inl (mkCertificate t cert key notAfter u).

Definition holds_secret (s : State) (host : string) (secret : slice) : Prop :=
  ∀ e, works e = true → ∃ created, GetHMACSecret e host s = inl (mkHMACSecret host secret created).

(** The two kinds of records are not touched. *)
Definition same_records (s s' : State) : Prop :=
  machineKey s' = machineKey s ∧ certificates s' = certificates s ∧ hmac_secrets s' = hmac_secrets s.

Lemma holds_cert_same s s' t cert key notAfter : same_records s s' → holds_cert s t cert key notAfter → holds_cert s' t cert key notAfter.
Proof. intros (E1 & E2 & _) Hh e He. specialize (Hh e He). unfold GetCertificate in *. by rewrite He, E1, E2 in *. Qed.

Lemma holds_secret_same s s' host secret : same_records s s' → holds_secret s host secret → holds_secret s' host secret.
Proof. intros (E1 & _ & E2) Hh e He. specialize (Hh e He). unfold GetHMACSecret in *. by rewrite He, E1, E2 in *. Qed.

Lemma log_same e t d ok s : same_records s (Daemon.log Marshal e t d ok s).
Proof. unfold Daemon.log, LogAuditEvent, LogAuditEventWithMetadata, exec. by destruct (works e). Qed.

Lemma save_cert_spec e t cert key validity s :
  good_env e → bytes_ok cert → bytes_ok (contents key) →
  let '(s', r) := Daemon.save_cert e t (Some cert) key validity s in
  r = inl tt ∧
  holds_cert s' t (stored cert) (stored (contents key)) (parsed (Parse_RFC3339 (Format_RFC3339 validity.1 validity.2))) ∧
  (∀ t' c k n, t' ≠ t → holds_cert s t' c k n → holds_cert s' t' c k n) ∧
  (∀ host secret, holds_secret s host secret → holds_secret s' host secret).
Proof.
  intros He Hc Hk. unfold Daemon.save_cert. destruct (save_certificate validity.1 e t cert key validity.2 s He Hc Hk) as (r & -> & u & Hr).
  split_and!; [done|..].
  - intros e' He'. unfold GetCertificate. rewrite He'. cbn [certificates machineKey]. rewrite lookup_insert_eq, Hr. by eexists.
  - intros t' c k n Hne Hh e' He'. specialize (Hh e' He'). unfold GetCertificate in *. rewrite He' in *. cbn [certificates machineKey].
    by rewrite lookup_insert_ne.
  - intros host secret Hh e' He'. specialize (Hh e' He'). unfold GetHMACSecret in *. by rewrite He' in *.
Qed.

Lemma save_secret_spec e host secret s :
  good_env e → bytes_ok secret →
  let '(s', r) := SaveHMACSecret e host (Some secret) s in
  r = inl tt ∧ holds_secret s' host (stored secret) ∧ (∀ t c k n, holds_cert s t c k n → holds_cert s' t c k n).
Proof.
  intros (Hw & Hn & [n En] & _ & _) Hb. unfold SaveHMACSecret, exec. rewrite En. cbn [encrypt]. rewrite Hw. destruct (Hn n En).
  split_and!; [done|..].
  - intros e' He'. unfold GetHMACSecret. rewrite He'. cbn [hmac_secrets machineKey]. rewrite lookup_insert_eq, decrypt_sealed by done. by eexists.
  - intros t c k n' Hh e' He'. specialize (Hh e' He'). unfold GetCertificate in *. by rewrite He' in *.
Qed.

Lemma unless_nonempty data save s : data ≠ [] → Daemon.unless_empty data save s = (save s).1.
Proof. intros Hd. unfold Daemon.unless_empty. by rewrite bool_decide_false. Qed.

Lemma stored_some p : p ≠ [] → stored p = Some p.
Proof. by destruct p. Qed.

End holds.

(** * From registration to re-authentication *)

Section enrolled.
Context `{X : X509} {P : @PEM X} {PL : @PEMLaws X P} {L : X509Laws} `{AEAD, MapRange, SliceSort}.
Context (masterKey : list Z) (hmac_sha256 : list Z → list Z → list Z).
Context (zone : Z) {Meta : Type} (Marshal : Meta → option string) {Pair : Type} (AppendCertsFromPEM : list Z → bool).
Context (cfg : AgentConfig).
Import AgentStore.

(** The texts of a certificate that was issued. *)
Definition issued_text (der kder : list Z) : string := pem_encode "CERTIFICATE" der +:+ pem_encode "EC PRIVATE KEY" kder.

Lemma bytes_app (a b : string) : bytes_of (a +:+ b) = bytes_of a ++ bytes_of b.
Proof. induction a as [|c a IH]; [done|]. change (bytes_of (String c a +:+ b)) with (Z.of_nat (Ascii.nat_of_ascii c) :: bytes_of (a +:+ b)). by rewrite IH. Qed.

Lemma pem_nonempty typ der : bytes_of (pem_encode typ der) ≠ [].
Proof using PL.
  intros E. destruct (decode_block typ der []) as (b & Hb & _). rewrite E in Hb. cbn [app] in Hb. by rewrite decode_nil in Hb.
Qed.

Lemma split_issued der kder :
  splitCertAndKey (bytes_of (issued_text der kder)) =
    (Some (bytes_of (pem_encode "CERTIFICATE" der)), Some (bytes_of (pem_encode "EC PRIVATE KEY" kder))).
Proof using PL.
  pose proof (split_stream [("CERTIFICATE", der); ("EC PRIVATE KEY", kder)]) as Hs. cbn [fmap list_fmap concat] in Hs.
  unfold issued_text. rewrite bytes_app, <- (app_nil_r (bytes_of (pem_encode "EC PRIVATE KEY" kder))) at 1. rewrite Hs.
  change (filter (λ '(typ, _), typ ∉ key_types) _) with [("CERTIFICATE", der)].
  change (filter (λ '(typ, _), typ ∈ key_types) _) with [("EC PRIVATE KEY", kder)].
  cbn. by rewrite !bool_decide_false by apply pem_nonempty.
Qed.

Lemma parse_issued der kder : Daemon.parse_first (bytes_of (issued_text der kder)) = ParseCertificate der.
Proof using PL.
  unfold Daemon.parse_first, issued_text. rewrite bytes_app.
  destruct (decode_block "CERTIFICATE" der (bytes_of (pem_encode "EC PRIVATE KEY" kder))) as (b & -> & _ & -> & _). done.
Qed.

Lemma issued_pems id hostname now xid rnd m m' cert :
  CA.IssueAgentCertificate masterKey id hostname now xid rnd m = (m', Ok cert) →
  ∃ der kder c ca, cert.(CA.AgentCert.CertificatePEM) = pem_encode "CERTIFICATE" der ∧
    cert.(CA.AgentCert.PrivateKeyPEM) = pem_encode "EC PRIVATE KEY" kder ∧ ParseCertificate der = Some c ∧
    cert.(CA.AgentCert.NotAfter) = Template.NotAfter (fields c) ∧
    CA.currentCA m = Some ca ∧ is_Some ca.(CA.Authority.Cert) ∧ CA.currentCA m' = Some ca.
Proof.
  unfold CA.IssueAgentCertificate. destruct (CA.currentCA m) as [ca|] eqn:Ec; [|done].
  destruct (CA.decryptCAKey masterKey ca m) as [m1 rk] eqn:Ed.
  assert (CA.currentCA m1 = CA.currentCA m) as Em.
  { unfold CA.decryptCAKey in Ed. destruct (CA.Authority.Key ca); [by simplify_eq|]. destruct (CA.requireKMS m); [by simplify_eq|].
    destruct (Kms.Decrypt _ _ _); by simplify_eq. }
  destruct rk as [pk|?|]; [|done..]. destruct (CA.make_cert id hostname ca pk now rnd) as [cert0|?|] eqn:Em0; [|done..].
  intros [= <- <-]. unfold CA.make_cert in Em0. repeat case_match; simplify_eq/=. do 4 eexists. split_and!; try done.
  by rewrite Em.
Qed.

(** ** What the daemon stores *)

(** The end of a validity, as it is read back. *)
Definition read_back (validity : Z * time) : time := parsed (Parse_RFC3339 (Format_RFC3339 validity.1 validity.2)).

Lemma save_agent_spec e der kder otherwise s :
  good_env e →
  let data := bytes_of (issued_text der kder) in
  let '(s', r) := Daemon.save_agent zone e data otherwise s in
  r = inl tt ∧
  holds_cert s' "agent" (Some (bytes_of (pem_encode "CERTIFICATE" der))) (Some (bytes_of (pem_encode "EC PRIVATE KEY" kder)))
    (read_back (Daemon.not_after zone data otherwise)) ∧
  (∀ t' c k n, t' ≠ "agent" → holds_cert s t' c k n → holds_cert s' t' c k n) ∧
  (∀ host secret, holds_secret s host secret → holds_secret s' host secret).
Proof using PL.
  intros He. cbv zeta. unfold Daemon.save_agent. rewrite split_issued.
  pose proof (save_cert_spec e "agent" (bytes_of (pem_encode "CERTIFICATE" der)) (Some (bytes_of (pem_encode "EC PRIVATE KEY" kder)))
    (Daemon.not_after zone (bytes_of (issued_text der kder)) otherwise) s He (bytes_of_ok _) (bytes_of_ok _)) as Hs.
  cbn [contents default] in Hs. change (Datatypes.id ?x) with x in Hs. by rewrite !stored_some in Hs by apply pem_nonempty.
Qed.

Lemma save_ca_spec e now ca s :
  good_env e → ca ≠ "" →
  let s' := Daemon.unless_empty (bytes_of ca) (Daemon.save_ca zone e now (bytes_of ca)) s in
  holds_cert s' "ca" (Some (bytes_of ca)) None (read_back (Daemon.not_after zone (bytes_of ca) (AddDate zone now 10 0 0))) ∧
  (∀ t' c k n, t' ≠ "ca" → holds_cert s t' c k n → holds_cert s' t' c k n) ∧
  (∀ host secret, holds_secret s host secret → holds_secret s' host secret).
Proof.
  intros He Hca. cbv zeta. assert (bytes_of ca ≠ []) as Hne by by destruct ca. rewrite unless_nonempty by done.
  unfold Daemon.save_ca. pose proof (save_cert_spec e "ca" (bytes_of ca) None (Daemon.not_after zone (bytes_of ca) (AddDate zone now 10 0 0)) s
    He (bytes_of_ok _) ltac:(constructor)) as Hs. rewrite stored_some in Hs by done.
  destruct (Daemon.save_cert _ _ _ _ _ _) as [s' r]. by destruct Hs as (_ & ? & ? & ?).
Qed.

Lemma store_registration_spec e now resp der kder s :
  (∀ k, good_env (e k)) → resp.(RegisterResponse.Certificate) = issued_text der kder → resp.(RegisterResponse.CaCertificate) ≠ "" →
  resp.(RegisterResponse.HmacSecret) ≠ [] → bytes_ok resp.(RegisterResponse.HmacSecret) →
  let s' := Daemon.store_registration zone Marshal cfg e now resp s in
  (∃ n, holds_cert s' "agent" (Some (bytes_of (pem_encode "CERTIFICATE" der))) (Some (bytes_of (pem_encode "EC PRIVATE KEY" kder))) n) ∧
  (∃ n, holds_cert s' "ca" (Some (bytes_of resp.(RegisterResponse.CaCertificate))) None n) ∧
  holds_secret s' (Address cfg) (Some resp.(RegisterResponse.HmacSecret)).
Proof using PL.
  intros He Hcert Hca Hsec Hb. cbv zeta. unfold Daemon.store_registration. rewrite Hcert.
  rewrite (unless_nonempty (bytes_of (issued_text der kder)))
    by (unfold issued_text; rewrite bytes_app; intros [E _]%app_eq_nil; by apply pem_nonempty in E).
  pose proof (save_agent_spec (e 0%nat) der kder (AddDate zone now 1 0 0) s (He _)) as Ha. cbv zeta in Ha.
  destruct (Daemon.save_agent _ _ _ _ _) as [s1 r1]. destruct Ha as (_ & Ha & _). cbn [fst].
  pose proof (save_ca_spec (e 1%nat) now _ s1 (He _) Hca) as (Hc & Hk & _). cbv zeta in Hc, Hk.
  set (s2 := Daemon.unless_empty (bytes_of _) _ s1) in *.
  rewrite (unless_nonempty (RegisterResponse.HmacSecret resp)) by done.
  pose proof (save_secret_spec (e 2%nat) (Address cfg) _ s2 (He _) Hb) as Hs. rewrite stored_some in Hs by done.
  destruct (SaveHMACSecret _ _ _ _) as [s3 r3]. destruct Hs as (_ & Hs & Hk3). cbn [fst].
  split_and!; [eexists; eapply holds_cert_same; [apply log_same|]; apply Hk3, (Hk "agent"); [done|apply Ha]
              |eexists; eapply holds_cert_same; [apply log_same|]; apply Hk3, Hc
              |eapply holds_secret_same; [apply log_same|done]].
Qed.

(** What a successful registration answers, and leaves at the master. *)
Lemma register_answer req now now' xid rnd secret s s1 resp :
  Server.Register masterKey req now now' xid rnd (Some secret) s = (s1, resp) → resp.(RegisterResponse.Success) = true →
  req.(RegisterRequest.AgentId) ≠ "" ∧ resp.(RegisterResponse.HmacSecret) = secret ∧
  ∃ der kder ca, resp.(RegisterResponse.Certificate) = issued_text der kder ∧ CA.currentCA (Server.ca s1) = Some ca ∧
    resp.(RegisterResponse.CaCertificate) = ca.(CA.Authority.CertificatePEM) ∧
    ∃ a, Agents.agents (Server.agents s1) !! req.(RegisterRequest.AgentId) = Some a ∧
      (Agents.agents (Server.agents s) !! req.(RegisterRequest.AgentId) = None → a.(Agent.HMACSecret) = secret).
Proof.
  intros Er Hok. unfold Server.Register in Er. case_bool_decide as Hid; [by simplify_eq|].
  destruct (Identity.ValidateAgentID _); [|by simplify_eq..].
  destruct (Server.admit_agent _ _ _ _ _) as [s0 []] eqn:Ead; [|by simplify_eq].
  destruct (admit_frame (RegisterRequest.AgentId req) (RegisterRequest.Token req) now now' s) as (_ & _ & Eag). rewrite Ead in Eag. cbn [fst] in Eag.
  destruct (enroll_agent _ _ _ _ _ _ _ _ _ Er Hok) as (sec & ag & [= <-] & Hsec & Ha & Hh).
  split; [done|]. split; [done|]. unfold Server.enroll in Er.
  destruct (CA.IssueAgentCertificate _ _ _ _ _ _ _) as [m [cert|?|]] eqn:Ei; [|by simplify_eq..].
  destruct (issued_pems _ _ _ _ _ _ _ _ Ei) as (der & kder & c & ca & E1 & E2 & _ & _ & _ & [par Hpar] & Hcur).
  exists der, kder, ca. destruct (Server.on_agents _ _) as [s2 r2] eqn:Eo.
  assert (Server.ca s2 = m) as Em.
  { pose proof (on_agents_ca (AgentService.Upsert (Agent.mk (RegisterRequest.AgentId req) (RegisterRequest.Hostname req)
      (RegisterRequest.Labels req) (default "{}" (RegisterRequest.Capabilities req)) "registered" now 0
      (CA.AgentCert.SerialNumber cert) secret "" "" "" "" "" "" None "") now) {| s0 with Server.ca := m |}) as [E _].
    cbn [Server.ca] in E. rewrite Eo in E. done. }
  destruct r2 as [[?|?]|?|]; [|by simplify_eq..]. injection Er as <- <-.
  cbn -[Server.current_pem]. unfold Server.current_pem. rewrite Em, Hcur. rewrite Hpar, bool_decide_true by done.
  split_and!; [by rewrite E1, E2|done|done|]. exists ag. split; [done|]. intros Hn. by rewrite Eag, Hn in Hh.
Qed.

End enrolled.

Section endtoend.
Context `{X : X509} {P : @PEM X} {PL : @PEMLaws X P} {L : X509Laws} `{AEAD, MapRange, SliceSort}.
Context (masterKey : list Z) (hmac_sha256 : list Z → list Z → list Z).
Context (zone : Z) {Meta : Type} (Marshal : Meta → option string).
Context {Pair : Type} (X509KeyPair : list Z → list Z → Pair + gerror) (AppendCertsFromPEM : list Z → bool).
Context (cfg : AgentConfig).
Import AgentStore.

(** The two calls, answered by a master in a given state. *)
Definition ask_register (now now' : time) (xid : string) (rnd : CA.random) (secret : option (list Z)) (s : Server.State)
    (req : RegisterRequest) : RegisterResponse + string :=
  inl (Server.Register masterKey req now now' xid rnd secret s).2.

Definition ask_reauthenticate (now now' : time) (xid xid' : string) (rnd : CA.random) (s : Server.State) : Daemon.reauth_call :=
  λ _ id timestamp nonce signature,
    match (Server.Reauthenticate masterKey hmac_sha256 id timestamp nonce signature "" now now' xid xid' rnd s).2 with
    | inl answer => inl answer
    | inr _ => inr "refused"
    end.

(** What the daemon needs to ask for a certificate. *)
Definition enrolled_with (secret : list Z) (st : State) : Prop :=
  secret ≠ [] ∧ holds_secret st (Address cfg) (Some secret) ∧
  ∃ ca n, holds_cert st "ca" (Some ca) None n ∧ AppendCertsFromPEM ca = true.

Lemma register_enrolls read d e now hostname caps token a a1 answer rnow rnow' xid rnd secret s :
  let req := Daemon.register_request cfg hostname caps token in
  let s1 := (Server.Register masterKey req rnow rnow' xid rnd (Some secret) s).1 in
  secret ≠ [] → bytes_ok secret → (∀ k, good_env (e k)) →
  (∀ ca, CA.currentCA (Server.ca s1) = Some ca → ca.(CA.Authority.CertificatePEM) ≠ "" ∧
     AppendCertsFromPEM (bytes_of ca.(CA.Authority.CertificatePEM)) = true) →
  Daemon.Register zone Marshal X509KeyPair AppendCertsFromPEM cfg read d e now hostname caps
    (ask_register rnow rnow' xid rnd (Some secret) s) token a = (a1, inl answer) →
  AgentID cfg ≠ "" ∧ enrolled_with secret (Daemon.store a1) ∧
  (∃ der kder n, answer.1 = issued_text der kder ∧
    holds_cert (Daemon.store a1) "agent" (Some (bytes_of (pem_encode "CERTIFICATE" der))) (Some (bytes_of (pem_encode "EC PRIVATE KEY" kder))) n) ∧
  ∃ ag, Agents.agents (Server.agents s1) !! AgentID cfg = Some ag ∧
    (Agents.agents (Server.agents s) !! AgentID cfg = None → ag.(Agent.HMACSecret) = secret).
Proof using PL.
  intros req s1 Hne Hb He Hca Hreg. unfold Daemon.Register in Hreg. destruct (Daemon.connect _ _ _ _ _ _) as [a0 [err|]]; [done|].
  destruct (Daemon.client a0); [|done]. unfold ask_register in Hreg. fold req in Hreg.
  destruct (Server.Register masterKey req rnow rnow' xid rnd (Some secret) s) as [s1' resp] eqn:Er. cbn [snd] in Hreg.
  destruct (RegisterResponse.Success resp) eqn:Hok; [|done]. cbn [negb] in Hreg. injection Hreg as <- <-. cbn [Daemon.store fst].
  destruct (register_answer _ _ _ _ _ _ _ _ _ _ Er Hok) as (Hid & Hsec & der & kder & ca & Hcert & Hcur & Hcap & Hag).
  subst s1. cbn [fst] in *. destruct (Hca _ Hcur) as [Hca1 Hca2]. rewrite <- Hcap in Hca1, Hca2.
  destruct (store_registration_spec zone Marshal cfg e now resp der kder (Daemon.store a0) He Hcert Hca1) as ((n & Ha) & (n' & Hc) & Hs); [by rewrite Hsec..|].
  rewrite Hsec in Hs. change (RegisterRequest.AgentId req) with (AgentID cfg) in *. split; [done|]. split_and!; [|by eauto 10|done].
  split; [done|]. split; [done|]. eauto.
Qed.

Lemma enrolled_reauthenticates read e now now' nonce st secret ag snow snow' xid xid' rnd s :
  enrolled_with secret st → works read = true → (∀ k, good_env (e k)) → AgentID cfg ≠ "" →
  Agents.agents (Server.agents s) !! AgentID cfg = Some ag → ag.(Agent.HMACSecret) = secret →
  nonce ≠ [] → (∀ k m, hmac_sha256 k m ≠ []) → Z.abs (Unix now - Unix snow) ≤ Server.timestampTolerance →
  ∀ m cert, CA.IssueAgentCertificate masterKey (AgentID cfg) ag.(Agent.Hostname) snow' xid rnd (Server.ca s) = (m, Ok cert) →
  let '(st', r) := Daemon.reauthenticate zone Marshal AppendCertsFromPEM hmac_sha256 cfg read e now now' (Some nonce) true
    (ask_reauthenticate snow snow' xid xid' rnd s) st in
  r = inl tt ∧ holds_secret st' (Address cfg) (Some secret) ∧
  holds_cert st' "agent" (Some (bytes_of cert.(CA.AgentCert.CertificatePEM))) (Some (bytes_of cert.(CA.AgentCert.PrivateKeyPEM)))
    (read_back (0, cert.(CA.AgentCert.NotAfter))).
Proof using PL.
  intros (Hne & Hs & ca & n & Hca & Htrust) Hr He Hid Hag Hsec Hnon Hmac Ht m cert Hi.
  unfold Daemon.reauthenticate. destruct (Hs _ Hr) as [cr ->]. destruct (Hca _ Hr) as [u ->]. cbn [Secret AgentStore.Certificate contents default].
  change (Datatypes.id ?x) with x. rewrite Htrust. cbn [negb]. unfold ask_reauthenticate.
  change (bytes_of (AgentID cfg +:+ ":" +:+ pretty (Unix now) +:+ ":") ++ nonce) with (Server.reauth_message (AgentID cfg) (Unix now) nonce).
  set (signature := hmac_sha256 secret _).
  unfold Server.Reauthenticate, Agents.GetAgent. rewrite !bool_decide_false by (done || apply Hmac). rewrite Hag, Hsec, bool_decide_false by done.
  assert ((Unix now <? Unix snow - Server.timestampTolerance) || (Unix snow + Server.timestampTolerance <? Unix now) = false) as ->.
  { unfold Server.timestampTolerance in *. apply orb_false_iff. rewrite !Z.ltb_ge. lia. }
  rewrite bool_decide_true by done. cbn [negb]. rewrite Hi.
  destruct (issued_pems _ _ _ _ _ _ _ _ _ Hi) as (der & kder & c & au & E1 & E2 & Hp & Hn & _ & _ & _).
  destruct (Server.on_security _ _) as [s' r']. cbn [fst snd]. rewrite E1, E2. fold (issued_text der kder).
  set (ca' := match CA.currentCA (Server.ca s') with Some c => _ | None => _ end).
  assert (Daemon.parse_first (bytes_of (issued_text der kder)) = Some c) as Hpf by by rewrite parse_issued.
  destruct (Decode (bytes_of (issued_text der kder))) as [[b rest]|] eqn:Ed; [|unfold Daemon.parse_first in Hpf; by rewrite Ed in Hpf].
  rewrite Hpf. pose proof (save_agent_spec zone (e 0%nat) der kder now' st (He _)) as Ha. cbv zeta in Ha.
  destruct (Daemon.save_agent _ _ _ _ _) as [s1 r1]. destruct Ha as (-> & Ha & _ & Has).
  unfold Daemon.not_after in Ha. rewrite Hpf, <- Hn in Ha.
  destruct (decide (ca' = "")) as [->|Hca'].
  { unfold Daemon.unless_empty. rewrite bool_decide_true by done. split_and!; [done|..].
    - eapply holds_secret_same; [apply log_same|]. by apply Has.
    - eapply holds_cert_same; [apply log_same|]. apply Ha. }
  pose proof (save_ca_spec zone (e 1%nat) now' ca' s1 (He _) Hca') as (_ & Hk & Hks). split_and!; [done|..].
  - eapply holds_secret_same; [apply log_same|]. by apply Hks, Has.
  - eapply holds_cert_same; [apply log_same|]. apply (Hk "agent"); [done|apply Ha].
Qed.

End endtoend.

Section theorems.
Context `{X : X509} {P : @PEM X} {PL : @PEMLaws X P} {L : X509Laws} `{AEAD, MapRange, SliceSort}.
Context (masterKey : list Z) (hmac_sha256 : list Z → list Z → list Z).
Context (zone : Z) {Meta : Type} (Marshal : Meta → option string).
Context {Pair : Type} (X509KeyPair : list Z → list Z → Pair + gerror) (AppendCertsFromPEM : list Z → bool).
Context (cfg : AgentConfig).
Import AgentStore.

(** C20: from registration to re-authentication, with the daemon on one side and the service of
    the master on the other: an agent the master did not know, which registers and can
    write its store, gets a certificate whenever it asks for one with a clock within five minutes
    of the master's, as long as the master has its record and can issue one; and the store
    then holds that certificate with its key, and the secret for the next time. *)
Theorem registered_agent_reauthenticates read d e now hostname caps token a a1 answer rnow rnow' xid rnd secret s s' :
  let req := Daemon.register_request cfg hostname caps token in
  let s1 := (Server.Register masterKey req rnow rnow' xid rnd (Some secret) s).1 in
  Daemon.Register zone Marshal X509KeyPair AppendCertsFromPEM cfg read d e now hostname caps
    (ask_register masterKey rnow rnow' xid rnd (Some secret) s) token a = (a1, inl answer) →
  Agents.agents (Server.agents s) !! AgentID cfg = None → secret ≠ [] → bytes_ok secret → (∀ k, good_env (e k)) →
  (∀ ca, CA.currentCA (Server.ca s1) = Some ca → ca.(CA.Authority.CertificatePEM) ≠ "" ∧
     AppendCertsFromPEM (bytes_of ca.(CA.Authority.CertificatePEM)) = true) →
  (∀ k m, hmac_sha256 k m ≠ []) →
  (* later *)
  Agents.agents (Server.agents s') !! AgentID cfg = Agents.agents (Server.agents s1) !! AgentID cfg →
  ∀ read' e' t t' nonce st t'' xid' xid'' rnd' m cert host,
  works read' = true → (∀ k, good_env (e' k)) → nonce ≠ [] → Z.abs (Unix t - Unix st) ≤ Server.timestampTolerance →
  (Agent.Hostname <$> Agents.agents (Server.agents s') !! AgentID cfg = Some host) →
  CA.IssueAgentCertificate masterKey (AgentID cfg) host t'' xid' rnd' (Server.ca s') = (m, Ok cert) →
  let '(st', r) := Daemon.reauthenticate zone Marshal AppendCertsFromPEM hmac_sha256 cfg read' e' t t' (Some nonce) true
    (ask_reauthenticate masterKey hmac_sha256 st t'' xid' xid'' rnd' s') (Daemon.store a1) in
  r = inl tt ∧ holds_secret st' (Address cfg) (Some secret) ∧
  holds_cert st' "agent" (Some (bytes_of cert.(CA.AgentCert.CertificatePEM))) (Some (bytes_of cert.(CA.AgentCert.PrivateKeyPEM)))
    (read_back (0, cert.(CA.AgentCert.NotAfter))).
Proof using PL.
  intros req s1 Hreg Hnew Hne Hb He Hca Hmac Hs' read' e' t t' nonce st t'' xid' xid'' rnd' m cert host Hr He' Hno Ht Hh Hi.
  destruct (register_enrolls masterKey zone Marshal X509KeyPair AppendCertsFromPEM cfg _ _ _ _ _ _ _ _ _ _ _ _ _ _ _ _ Hne Hb He Hca Hreg)
    as (Hid & Hen & _ & ag & Hag & Hsec). fold req s1 in Hag. rewrite <- Hs' in Hag. rewrite Hag in Hh. injection Hh as <-.
  by eapply (enrolled_reauthenticates masterKey hmac_sha256 zone Marshal AppendCertsFromPEM cfg); eauto.
Qed.

(** The waits of a reconnection. *)
Lemma loop_waits rounds b mx a :
  0 ≤ b < 2 ^ 62 → 0 ≤ mx < 2 ^ 62 →
  let '(_, waits, _) := Daemon.reconnect_loop X509KeyPair AppendCertsFromPEM cfg rounds b mx a in
  ∀ i w, waits !! i = Some w → w = if (i =? 0)%nat then b else Z.min (b * 2 ^ Z.of_nat i) mx.
Proof.
  intros Hb Hm. revert b Hb a. induction rounds as [|r rounds IH]; intros b Hb a; cbn [Daemon.reconnect_loop]; [done|].
  destruct (Daemon.interrupted _); [done|]. destruct (Daemon.connect _ _ _ _ _ _) as [a' [err|]]; [|done].
  destruct (Daemon.interrupted _); [done|]. rewrite wrap64_id by (unfold in_int64, int64_min, int64_max; lia).
  set (b' := if mx <? 2 * b then mx else 2 * b). assert (b' = Z.min (2 * b) mx) as Eb' by (unfold b'; destruct (Z.ltb_spec mx (2 * b)); lia).
  specialize (IH b' ltac:(lia) a'). destruct (Daemon.reconnect_loop _ _ _ rounds b' mx a') as [[a2 waits] o].
  intros [|i] w Hw; cbn in Hw; [by injection Hw as <-|]. apply IH in Hw. subst w. cbn [Nat.eqb].
  assert (0 < 2 ^ Z.of_nat i) as Hpos by lia. replace (2 ^ Z.of_nat (S i)) with (2 * 2 ^ Z.of_nat i) by (rewrite Nat2Z.inj_succ, Z.pow_succ_r by lia; lia).
  destruct i as [|i]; cbn [Nat.eqb]; [rewrite Eb'; f_equal; cbn; lia|]. rewrite Eb'.
  assert (1 ≤ 2 ^ Z.of_nat (S i)) by lia. destruct (Z.le_gt_cases (2 * b) mx).
  - rewrite (Z.min_l (2 * b)) by lia. f_equal. lia.
  - rewrite (Z.min_r (2 * b)) by lia. rewrite !Z.min_r; [done|nia|nia].
Qed.

(** the waits between attempts to reconnect double from the first delay of the configuration
    and never exceed the maximal one, except the first, which is not capped; the
    loop ends exactly when an attempt succeeds or the daemon is told to stop, and after a
    success there is a connection. *)
Theorem reconnect_backoff rounds a :
  0 ≤ InitialDelay cfg < 2 ^ 62 → 0 ≤ MaxDelay cfg < 2 ^ 62 →
  let '(a', waits, outcome) := Daemon.reconnect X509KeyPair AppendCertsFromPEM cfg rounds a in
  (∀ i w, waits !! i = Some w →
     w = if (i =? 0)%nat then Daemon.first_delay cfg else Z.min (Daemon.first_delay cfg * 2 ^ Z.of_nat i) (Daemon.max_delay cfg)) ∧
  (outcome = Some None → is_Some (Daemon.conn a')) ∧
  (outcome = None → length waits = length rounds).
Proof.
  intros Hi Hm. unfold Daemon.reconnect. set (a0 := {| a with Daemon.conn := None |}).
  pose proof (loop_waits rounds (Daemon.first_delay cfg) (Daemon.max_delay cfg) a0) as Hw.
  assert (∀ rounds b mx (a : Daemon.Agent),
    let '(a', waits, outcome) := Daemon.reconnect_loop X509KeyPair AppendCertsFromPEM cfg rounds b mx a in
    (outcome = Some None → is_Some (Daemon.conn a')) ∧ (outcome = None → length waits = length rounds)) as Ho.
  { clear. intros rounds. induction rounds as [|r rounds IH]; intros b mx a; cbn [Daemon.reconnect_loop]; [done|].
    destruct (Daemon.interrupted _); [done|]. destruct (Daemon.connect _ _ _ _ _ _) as [a' [err|]] eqn:Ec.
    - destruct (Daemon.interrupted _); [done|]. specialize (IH (if mx <? wrap64 (2 * b) then mx else wrap64 (2 * b)) mx a').
      destruct (Daemon.reconnect_loop _ _ _ rounds _ mx a') as [[? ?] ?]. destruct IH as [IH1 IH2]. split; [done|]. intros E. cbn. by rewrite IH2.
    - split; [|done]. intros _. unfold Daemon.connect in Ec. destruct (Daemon.conn a) eqn:Eca; [injection Ec as <-; by rewrite Eca|].
      repeat (case_match; simplify_eq/=); by eexists. }
  specialize (Ho rounds (Daemon.first_delay cfg) (Daemon.max_delay cfg) a0).
  destruct (Daemon.reconnect_loop _ _ _ _ _ _ _) as [[a' waits] o]. split; [|exact Ho]. apply Hw.
  - unfold Daemon.first_delay, Second. case_match; lia.
  - unfold Daemon.max_delay, Minute, Second. case_match; lia.
Qed.

(** The first connection of an agent without certificates stays without one: registration
    does not replace it. *)
Lemma registration_keeps_connection read d e now hostname caps call token a :
  let '(a1, _) := Daemon.Register zone Marshal X509KeyPair AppendCertsFromPEM cfg read d e now hostname caps call token a in
  Daemon.conn a1 = Daemon.conn (Daemon.connect X509KeyPair AppendCertsFromPEM cfg read d a).1.
Proof.
  unfold Daemon.Register. destruct (Daemon.connect _ _ _ _ _ _) as [a0 [err|]]; [done|].
  destruct (Daemon.client a0); [|done]. destruct (call _) as [resp|]; [by destruct (RegisterResponse.Success resp)|done].
Qed.

(** A daemon that could not connect cannot be started again, and one that is stopped twice
    panics. *)
Lemma failed_start_is_final read d hostname caps attempts a a1 err :
  Daemon.Start zone Marshal X509KeyPair AppendCertsFromPEM cfg read d hostname caps attempts a = (a1, inr err) →
  Daemon.running a1 = true ∧
  ∀ read' d' attempts', Daemon.Start zone Marshal X509KeyPair AppendCertsFromPEM cfg read' d' hostname caps attempts' a1 =
    (a1, inr (Errorf "agent already running")).
Proof.
  unfold Daemon.Start. destruct (Daemon.running a) eqn:Er.
  { intros [= <- <-]. rewrite Er. done. }
  assert (∀ b : Daemon.Agent, Daemon.running (Daemon.connect X509KeyPair AppendCertsFromPEM cfg read d b).1 = Daemon.running b) as Hc.
  { intros b. unfold Daemon.connect. repeat case_match; done. }
  specialize (Hc {| a with Daemon.running := true |}). destruct (Daemon.connect _ _ _ _ _ _) as [a0 [e0|]]; cbn in Hc.
  - intros [= <- <-]. rewrite Hc. done.
  - destruct (bool_decide _); [done|]. by destruct (Daemon.auto_register _ _ _ _ _ _ _ _ _ _ _ _ _) as [[? ?] ?].
Qed.

End theorems.

(** * At concrete inputs *)

(** A concrete PEM: the bits of the type, of the number of bytes and of each of them. *)
Definition typed_encode (typ : string) (der : list Z) : string :=
  CA.put_bits (encode typ) (CA.put_bits (Pos.of_succ_nat (length der)) (CA.toy_pem der)).

Fixpoint take_bits (l : list Z) : option (positive * list Z) :=
  match l with
  | [] => None
  | b :: l => if b =? 44 then Some (xH, l)
              else match take_bits l with
                   | Some (p, rest) => Some (if b =? 48 then xO p else xI p, rest)
                   | None => None
                   end
  end.

Fixpoint take_many (n : nat) (l : list Z) : option (list Z * list Z) :=
  match n with
  | O => Some ([], l)
  | S n => '(p, l) ← take_bits l; z ← decode p; '(zs, l) ← take_many n l; Some (z :: zs, l)
  end.

Definition typed_decode (l : list Z) : option ((string * list Z) * list Z) :=
  '(p, l) ← take_bits l; typ ← decode p; '(q, l) ← take_bits l; '(der, l) ← take_many (Nat.pred (Pos.to_nat q)) l; Some ((typ, der), l).

Lemma take_put p s rest : take_bits (bytes_of (CA.put_bits p s) ++ rest) = Some (p, bytes_of s ++ rest).
Proof.
  assert (∀ c t, bytes_of (String c t) = Z.of_nat (Ascii.nat_of_ascii c) :: bytes_of t) as Hc by done.
  induction p as [p IH|p IH|]; cbn [CA.put_bits]; rewrite Hc; cbn [app take_bits]; rewrite ?IH; done.
Qed.

Lemma take_many_pem der rest : take_many (length der) (bytes_of (CA.toy_pem der) ++ rest) = Some (der, rest).
Proof.
  induction der as [|z der IH]; [done|]. change (CA.toy_pem (z :: der)) with (CA.put_bits (encode z) (CA.toy_pem der)).
  cbn [length take_many]. rewrite take_put. cbn [mbind option_bind]. rewrite decode_encode. cbn [mbind option_bind]. by rewrite IH.
Qed.

Lemma typed_roundtrip typ der rest : typed_decode (bytes_of (typed_encode typ der) ++ rest) = Some ((typ, der), rest).
Proof.
  unfold typed_decode, typed_encode. rewrite take_put. cbn [mbind option_bind]. rewrite decode_encode. cbn [mbind option_bind].
  rewrite take_put. cbn [mbind option_bind]. rewrite SuccNat2Pos.id_succ. cbn [Nat.pred]. by rewrite take_many_pem.
Qed.

Lemma take_bits_shorter l p rest : take_bits l = Some (p, rest) → (length rest < length l)%nat.
Proof.
  revert p rest. induction l as [|b l IH]; intros p rest; cbn [take_bits]; [done|]. destruct (b =? 44).
  - intros [= <- <-]. cbn. lia.
  - destruct (take_bits l) as [[q r]|]; [|done]. intros [= <- <-]. specialize (IH _ _ eq_refl). cbn. lia.
Qed.

Lemma take_many_shorter n l zs rest : take_many n l = Some (zs, rest) → (length rest ≤ length l)%nat.
Proof.
  revert l zs rest. induction n as [|n IH]; intros l zs rest; cbn [take_many]; [by intros [= <- <-]|].
  destruct (take_bits l) as [[p l']|] eqn:E; [|done]. cbn. destruct (decode p); [|done]. cbn.
  destruct (take_many n l') as [[zs' l'']|] eqn:E'; [|done]. intros [= <- <-]. apply take_bits_shorter in E. apply IH in E'. lia.
Qed.

Section demo.
#[local] Existing Instance Kms.checksum_aead.
#[local] Existing Instance range_in_key_order.
#[local] Existing Instance sort_by_exchange.

(** The certificates of [CA.toy], with this PEM. *)
Definition typed : X509 := {|
  PrivateKey := bool;
  PublicKey := bool;
  Certificate := CA.toy_cert;
  Public := λ k, k;
  CreateCertificate := λ t parent pub signer _, Some (CA.toy_raw (CA.toy_made t parent pub signer));
  ParseCertificate := CA.toy_parse;
  Raw := CA.toy_raw;
  fields := λ c, c.1.1.1;
  Issuer := λ c, c.1.1.2;
  SubjectKey := λ c, c.1.2;
  CheckSignature := λ p c, eqb p c.2;
  MarshalECPrivateKey := λ k, Some [if k then 1 else 0];
  ParseECPrivateKey := λ der, Some (bool_decide (der = [1]));
  pem_encode := typed_encode;
  pem_decode := λ s, match typed_decode (bytes_of s) with Some ((_, der), _) => Some der | None => None end;
  Sum256 := λ b, [foldr Z.add 0 b mod 256]
|}.
#[local] Existing Instance typed.

Definition typed_pem : PEM := {|
  Block := string * list Z;
  block_type := fst;
  block_bytes := snd;
  Decode := typed_decode;
  EncodeToMemory := λ '(typ, der), bytes_of (typed_encode typ der)
|}.
#[local] Existing Instance typed_pem.

#[local] Instance typed_pem_laws : PEMLaws.
Proof.
  split.
  - intros typ der rest. exists (typ, der). by split_and!; [apply typed_roundtrip|..].
  - intros data b rest. cbn. unfold typed_decode. destruct (take_bits data) as [[p l]|] eqn:E1; [|done]. cbn. destruct (decode p); [|done]. cbn.
    destruct (take_bits l) as [[q l']|] eqn:E2; [|done]. cbn. destruct (take_many _ l') as [[zs l'']|] eqn:E3; [|done]. intros [= <- <-].
    apply take_bits_shorter in E1, E2. apply take_many_shorter in E3. lia.
Qed.

Definition demo_rnd (k : bool) (serial n : Z) : CA.random := CA.mkRandom (Some k) (Some serial) [] (Some (Kms.demo_nonce n)).
Definition demo_ca : CA.State :=
  CA.run Kms.demo_master (CA.CInitialize DefaultCAConfig (20 * Second) (demo_rnd true 7 3)) (CA.NewCAManager Kms.demo true).1.

Definition demo_server : Server.State :=
  (Server.on_security (Security.SaveRegistrationToken (RegistrationToken.mk "" "tok" "" (1000 * Second) None "admin" 0) 0 "t1")
     (Server.mkState false demo_ca Agents.empty Deployments.empty ∅)).1.

Definition demo_config : AgentConfig := {| DefaultAgentConfig with AgentID := "web-1"; Address := "master:9443"; Token := "tok" |}.
Definition demo_marshal : unit → option string := λ _, None.
Definition demo_pair (cert key : list Z) : (list Z * list Z) + gerror := inl (cert, key).
Definition demo_trusts (ca : list Z) : bool := negb (bool_decide (ca = [])).
Definition demo_env (k : nat) : AgentStore.env := AgentStore.demo_env (Z.of_nat k mod 100).
Definition demo_read : AgentStore.env := AgentStore.demo_env 0.

Definition demo_agent : Daemon.Agent (Pair:=(list Z * list Z)%type) := Daemon.start (AgentStore.fresh_store AgentStore.demo_machine).

Definition demo_registered : Daemon.Agent (Pair:=(list Z * list Z)%type) * ((string * string) + gerror) :=
  Daemon.Register 0 demo_marshal demo_pair demo_trusts demo_config demo_read (mkDial true true true) demo_env (30 * Second) (Some "host") None
    (ask_register Kms.demo_master (30 * Second) (30 * Second) "x1" (demo_rnd false 255 4) (Some [1; 2]) demo_server) "tok" demo_agent.

Definition demo_request : RegisterRequest := Daemon.register_request demo_config (Some "host") None "tok".
Definition demo_master1 : Server.State :=
  (Server.Register Kms.demo_master demo_request (30 * Second) (30 * Second) "x1" (demo_rnd false 255 4) (Some [1; 2]) demo_server).1.

Definition demo_issue := CA.IssueAgentCertificate Kms.demo_master "web-1" "host" (41 * Second) "x4" (demo_rnd false 252 7) (Server.ca demo_master1).

Definition toy_mac (key message : list Z) : list Z := 1 :: key ++ message.

Lemma demo_env_good k : AgentStore.good_env (demo_env k).
Proof.
  assert (0 ≤ Z.of_nat k mod 100 < 100) as Hk by (apply Z.mod_pos_bound; lia).
  split_and!; [done|apply AgentStore.fresh_store_nonce; unfold is_byte; lia|by eexists|apply AgentStore.fresh_store_nonce; unfold is_byte; lia|by eexists].
Qed.

Lemma demo_accepted : accepted demo_registered.2 = true.
Proof. by vm_compute. Qed.

Lemma demo_reissued : CA.succeeds demo_issue.2 = true.
Proof. by vm_compute. Qed.

Lemma demo_unknown : Agents.agents (Server.agents demo_server) !! "web-1" = None.
Proof. by vm_compute. Qed.

Lemma demo_host : Agent.Hostname <$> Agents.agents (Server.agents demo_master1) !! "web-1" = Some "host".
Proof. by vm_compute. Qed.

Lemma demo_authority :
  match CA.currentCA (Server.ca demo_master1) with Some ca => negb (bool_decide (ca.(CA.Authority.CertificatePEM) = "")) | None => true end = true.
Proof. by vm_compute. Qed.

Lemma demo_secret_ok : ([1; 2] : list Z) ≠ [] ∧ bytes_ok [1; 2].
Proof. split; [done|]. repeat (constructor; [by unfold is_byte|]). constructor. Qed.

Lemma demo_trusted ca :
  CA.currentCA (Server.ca demo_master1) = Some ca →
  ca.(CA.Authority.CertificatePEM) ≠ "" ∧ demo_trusts (bytes_of ca.(CA.Authority.CertificatePEM)) = true.
Proof.
  intros Hca. pose proof demo_authority as Hau. rewrite Hca in Hau. apply negb_true_iff, bool_decide_eq_false in Hau. split; [done|].
  unfold demo_trusts. revert Hau. clear. by destruct (CA.Authority.CertificatePEM ca).
Qed.

Lemma toy_mac_nonempty k m : toy_mac k m ≠ [].
Proof. done. Qed.

Lemma registered_agent_reauthenticates_witness :
  ∃ cert, demo_issue.2 = Ok cert ∧
    (Daemon.reauthenticate 0 demo_marshal demo_trusts toy_mac demo_config demo_read demo_env (40 * Second) (41 * Second) (Some [5]) true
      (ask_reauthenticate Kms.demo_master toy_mac (39 * Second) (41 * Second) "x4" "x5" (demo_rnd false 252 7) demo_master1)
      (Daemon.store demo_registered.1)).2 = inl tt.
Proof.
  pose proof demo_reissued as Hi. apply CA.succeeds_Ok in Hi as [cert Hc]. exists cert. split; [exact Hc|].
  pose proof demo_accepted as Hacc. destruct demo_registered as [a1 [answer|err]] eqn:Hreg; [|done].
  assert (demo_issue = (demo_issue.1, Ok cert)) as Ei by (rewrite <- Hc; apply surjective_pairing).
  assert (([5] : list Z) ≠ []) as Hnonce by done.
  assert (Z.abs (Unix (40 * Second) - Unix (39 * Second)) ≤ Server.timestampTolerance) as Hclock by by vm_compute.
  pose proof (registered_agent_reauthenticates Kms.demo_master toy_mac 0 demo_marshal demo_pair demo_trusts demo_config
    demo_read (mkDial true true true) demo_env (30 * Second) (Some "host") None "tok" demo_agent a1 answer (30 * Second) (30 * Second) "x1"
    (demo_rnd false 255 4) [1; 2] demo_server demo_master1 Hreg demo_unknown (proj1 demo_secret_ok) (proj2 demo_secret_ok) demo_env_good
    demo_trusted toy_mac_nonempty eq_refl
    demo_read demo_env (40 * Second) (41 * Second) [5] (39 * Second) (41 * Second) "x4" "x5" (demo_rnd false 252 7) demo_issue.1 cert "host"
    eq_refl demo_env_good Hnonce Hclock demo_host Ei) as Ht.
  cbn [fst]. destruct (Daemon.reauthenticate _ _ _ _ _ _ _ _ _ _ _ _ _) as [st' r]. by destruct Ht.
Defined.

Lemma reconnect_backoff_witness :
  let tries := Daemon.mkRound Daemon.Goes_on demo_read (mkDial true true false) Daemon.Goes_on in
  (Daemon.reconnect demo_pair demo_trusts demo_config [tries; tries; tries] demo_agent).1.2 = [Second; 2 * Second; 4 * Second].
Proof.
  cbv zeta. set (tries := Daemon.mkRound _ _ _ _).
  pose proof (reconnect_backoff demo_pair demo_trusts demo_config [tries; tries; tries] demo_agent ltac:(by cbn) ltac:(by cbn)) as Ht.
  destruct (Daemon.reconnect _ _ _ _ _) as [[a' waits] o] eqn:E. assert (o = None ∧ length waits = 3%nat) as [-> Hl].
  { by vm_compute in E; injection E as <- <- <-. }
  destruct Ht as (Hw & _ & _). destruct waits as [|w0 [|w1 [|w2 [|]]]]; try done. cbn [fst snd].
  rewrite (Hw 0%nat w0 eq_refl), (Hw 1%nat w1 eq_refl), (Hw 2%nat w2 eq_refl). by vm_compute.
Defined.

End demo.
