(* ===== verification/AgentCommands.v ===== *)
(** The commands an agent carries out ([src/internal/agent/agent.go]): deployments,
    rollbacks and their cancellation, with the table of active deployments; health checks;
    heartbeats; and the update of the agent itself.

    [Commands] runs each handler on its own, with the strategy of [Deploy]; the messages it
    sends are those [AgentServer] processes.  [Active] interleaves handlers over the table, as
    a step relation.  [Health] and [Update] take the answers of the network, the disk and
    the clock as arguments. *)

From stdpp Require Import pretty.
From S2P Require Import GoStrings GoTime StoreBase ServiceBase ServiceErrors Models MemDeployments Services Formats Deploy CmdValidator AgentRunner.
From S2P Require AgentServer TimeText.

#[local] Open Scope string_scope.
#[local] Open Scope list_scope.
#[local] Open Scope Z_scope.

Abbreviation DeploymentState := AgentServer.DeploymentState.

(** * Messages *)

Record HealthCheckResult := mkHealthResult {
  h_deployment : string; h_success : bool; h_status : Z; h_millis : Z; h_error : string; h_retries : Z; h_rollback : bool
}.

(** What an agent sends; the time is put in when it is sent. *)
Inductive Sent :=
| SReady (agentID : string)
| SStatus (deploymentID : string) (state : DeploymentState) (message : string) (progress : Z)
| SLog (deploymentID : string) (level : AgentServer.LogLevel) (message source : string) (timestamp : Z)
| SCommandResult (deploymentID command : string) (exitCode : Z) (stdout stderr : string)
| SHealth (r : HealthCheckResult).

(** What the master makes of it; it does not know health results, and the duration of a
    command is never set. *)
Definition received (m : Sent) : AgentServer.AgentMessage :=
  match m with
  | SReady _ => AgentServer.MAgentReady
  | SStatus id state _ _ => AgentServer.MDeploymentStatus (Some (id, state))
  | SLog id level message source timestamp => AgentServer.MDeploymentLog (Some (id, level, message, source, timestamp))
  | SCommandResult id command exitCode stdout stderr => AgentServer.MCommandResult (Some (id, command, exitCode, 0, stdout, stderr))
  | SHealth _ => AgentServer.MUnknown
  end.

(** * Handlers *)

Module Commands.

(** The command as it comes: the settings may be missing. *)
Record PbSettings := mkPbSettings {
  Strategy : string; KeepReleases : Z; SharedDirs : list string; SharedFiles : list string; WritableDirs : list string;
  ExecutionUser : string; ExecutionGroup : string; TimeoutSeconds : Z
}.

Record PbDeployCommand := mkPbDeploy {
  DeploymentId : string; Project : string; Target : string; Repository : string; Branch : string; Commit : string; Path : string;
  Settings : option PbSettings; EnvVars : gmap string string; EnvFileContent : list Z;
  PreDeployHooks : list string; PostDeployHooks : list string; ReloadServices : list ServiceReload
}.

Record PbRollbackCommand := mkPbRollback { RDeploymentId : string; RProject : string; RTarget : string; RPath : string; RReleaseNumber : Z }.

Definition no_settings : DeploySettings := mkDeploySettings "" 0 [] [] [] "" "" 0.

Definition protoToDeployCommand (cmd : PbDeployCommand) : DeployCommand :=
  mkDeployCommand (DeploymentId cmd) (Project cmd) (Target cmd) (Repository cmd) (Branch cmd) (Commit cmd) (Path cmd)
    match Settings cmd with
    | None => no_settings
    | Some s => mkDeploySettings (Strategy s) (KeepReleases s) (SharedDirs s) (SharedFiles s) (WritableDirs s)
                  (ExecutionUser s) (ExecutionGroup s) (wrap64 (TimeoutSeconds s * Second))
    end (EnvVars cmd) (EnvFileContent cmd) (PreDeployHooks cmd) (PostDeployHooks cmd) (ReloadServices cmd).

Definition log_level (l : LogLevel) : AgentServer.LogLevel :=
  match l with
  | LogDebug => AgentServer.LOG_DEBUG
  | LogWarn => AgentServer.LOG_WARN
  | LogError => AgentServer.LOG_ERROR
  | LogInfo => AgentServer.LOG_INFO
  end.

(** [forwardLogs], at a time for each entry. *)
Definition forwardLogs (deploymentID : string) (clock : nat → Z) (trace : list event) : list Sent :=
  imap (λ i '(level, msg, source), SLog deploymentID (log_level level) msg source (clock i))
    (omap (λ e, match e with Logged level msg source => Some (level, msg, source) | Ran _ _ _ => None end) trace).

Section handlers.
Context `{CommandRunner}.

Definition final_state (cancelled : bool) (r : DeployResult) : DeploymentState :=
  match Error r with
  | None => AgentServer.STATE_COMPLETED
  | Some _ => if cancelled then AgentServer.STATE_CANCELLED else AgentServer.STATE_FAILED
  end.

Definition final_message (cancelled : bool) (r : DeployResult) : string :=
  match Error r with
  | None => "Deployed to " +:+ ReleasePath r
  | Some e => if cancelled then "Deployment cancelled" else e
  end.

(** The statuses, and the entries of the log, which another goroutine sends between the
    second status and after it. [cancelled]: the context was cancelled when the strategy
    returned. *)
Definition deploy_statuses (id : string) (cancelled : bool) (r : DeployResult) : list Sent :=
  [SStatus id AgentServer.STATE_PREPARING "Starting deployment" 10;
   SStatus id AgentServer.STATE_DEPLOYING "Executing deployment" 50;
   SStatus id (final_state cancelled r) (final_message cancelled r) 100].

Definition handleDeployCommand (cmd : PbDeployCommand) (cancelled : bool) (clock : nat → Z) (w : World)
    : World * list Sent * list Sent * DeployResult :=
  let '(w', trace, r) := Deploy (protoToDeployCommand cmd) w in
  (w', deploy_statuses (DeploymentId cmd) cancelled r, forwardLogs (DeploymentId cmd) clock trace, r).

(** An order in which the stream may carry them. *)
Definition carried (statuses logs messages : list Sent) : Prop :=
  ∃ early late, logs = early ++ late ∧ messages = take 2 statuses ++ early ++ drop 2 statuses ++ late.

Definition handleRollbackCommand (cmd : PbRollbackCommand) (w : World) : World * list Sent :=
  let '(w', _, r) := Rollback (mkRollbackCommand "" (RProject cmd) (RTarget cmd) (RPath cmd) (RReleaseNumber cmd) [] []) w in
  (w', [SStatus (RDeploymentId cmd) AgentServer.STATE_ROLLING_BACK "Rolling back" 50;
        match Error r with
        | Some e => SStatus (RDeploymentId cmd) AgentServer.STATE_FAILED e 100
        | None => SStatus (RDeploymentId cmd) AgentServer.STATE_COMPLETED ("Rolled back to " +:+ ReleasePath r) 100
        end]).

(** Called from within the program: the result as it is; the log goes to the log of the agent. *)
Definition ExecuteDeploy (cmd : DeployCommand) (w : World) : World * DeployResult := let '(w', _, r) := Deploy cmd w in (w', r).
Definition ExecuteRollback (cmd : RollbackCommand) (w : World) : World * DeployResult := let '(w', _, r) := Rollback cmd w in (w', r).

End handlers.

(** ** At the master *)

(** The messages of a stream, one after the other; errors are logged. *)
Definition deliver (now : nat → time) (xid : nat → string) (messages : list Sent) (s : Deployments.State) : Deployments.State :=
  (foldl (λ '(i, s) m, (S i, st (AgentServer.Server.processAgentMessage (received m) (now i) (now i) (xid i) s))) (O, s) messages).2.

End Commands.

(** * What the master learns of a deployment *)

Section reported.
Import Commands.

(** The state the last status of a list reports. *)
Definition last_status (messages : list Sent) : option DeploymentState :=
  foldl (λ o m, match m with SStatus _ state _ _ => Some state | _ => o end) None messages.

Definition status_for (id : string) (m : Sent) : Prop := match m with SStatus id' _ _ _ => id' = id | _ => True end.

Definition reported (d d' : DeploymentRecord) (o : option DeploymentState) : Prop :=
  match o with
  | None => d' = d
  | Some state => d'.(DeploymentRecord.Status) = AgentServer.Server.db_status state ∧
                  (AgentServer.Server.completes state = true → is_Some d'.(DeploymentRecord.CompletedAt))
  end.

Lemma log_message_frame m now now' xid s :
  match m with SStatus _ _ _ _ => False | _ => True end →
  Deployments.deployments (st (AgentServer.Server.processAgentMessage (received m) now now' xid s)) = Deployments.deployments s.
Proof.
  destruct m; cbn [received AgentServer.Server.processAgentMessage]; intros []; try done.
  all: unfold AgentServer.Server.handleDeploymentLog, AgentServer.Server.handleCommandResult, ebind, sbind, DeploymentService.CreateLog, call.
  all: repeat (unfold sbind; cbn); repeat case_match; done.
Qed.

(** One message about the deployment, or about none. *)
Lemma message_reported id d m now now' xid s :
  id ≠ "" → Deployments.deployments s !! id = Some d → d.(DeploymentRecord.ID) = id → status_for id m →
  let s' := st (AgentServer.Server.processAgentMessage (received m) now now' xid s) in
  (∃ d', Deployments.deployments s' !! id = Some d' ∧ d'.(DeploymentRecord.ID) = id ∧
     reported d d' match m with SStatus _ state _ _ => Some state | _ => None end) ∧
  ∀ k, k ≠ id → Deployments.deployments s' !! k = Deployments.deployments s !! k.
Proof.
  intros Hid Hd Hi Hm. cbv zeta. destruct m as [|id' state msg p| | |].
  2: { cbn [status_for] in Hm. subst id'. pose proof (AgentServer.status_message_spec id state now now' s) as Hs. cbv zeta in Hs.
       rewrite (bool_decide_false _ Hid), Hd in Hs. destruct (Hs Hi) as [_ E].
       change (st (AgentServer.Server.processAgentMessage (received (SStatus id state msg p)) now now' xid s))
         with (st (AgentServer.Server.processAgentMessage (AgentServer.MDeploymentStatus (Some (id, state))) now now' "" s)). rewrite E. split.
       - eexists. rewrite lookup_insert_eq. split; [done|]. split; [done|]. cbn. split; [done|]. intros ->. by eexists.
       - intros k Hk. by rewrite lookup_insert_ne. }
  all: rewrite log_message_frame by done; split; [|done]; by exists d.
Qed.

Lemma deliver_reported id now xid messages s d :
  id ≠ "" → Deployments.deployments s !! id = Some d → d.(DeploymentRecord.ID) = id → Forall (status_for id) messages →
  (∃ d', Deployments.deployments (deliver now xid messages s) !! id = Some d' ∧ reported d d' (last_status messages)) ∧
  ∀ k, k ≠ id → Deployments.deployments (deliver now xid messages s) !! k = Deployments.deployments s !! k.
Proof.
  intros Hid Hd Hi Hm. unfold deliver, last_status.
  assert (∀ i s d' o, Deployments.deployments s !! id = Some d' → d'.(DeploymentRecord.ID) = id → reported d d' o →
    let s' := (foldl (λ '(i, s) m, (S i, st (AgentServer.Server.processAgentMessage (received m) (now i) (now i) (xid i) s))) (i, s) messages).2 in
    (∃ d'', Deployments.deployments s' !! id = Some d'' ∧
       reported d d'' (foldl (λ o m, match m with SStatus _ state _ _ => Some state | _ => o end) o messages)) ∧
    ∀ k, k ≠ id → Deployments.deployments s' !! k = Deployments.deployments s !! k) as Hfold; [|by apply (Hfold O s d None)].
  clear Hd s. induction Hm as [|m messages Hm _ IH]; intros i s d' o Hd' Hi' Ho; cbn [foldl]; [by split; [exists d'|]|].
  destruct (message_reported id d' m (now i) (now i) (xid i) s Hid Hd' Hi' Hm) as [(d2 & Hd2 & Hi2 & Hr2) Hk].
  set (s2 := st _) in *. destruct (IH (S i) s2 d2 match m with SStatus _ state _ _ => Some state | _ => o end) as [H1 H2]; [done..| |].
  - destruct m; [by rewrite Hr2|exact Hr2|by rewrite Hr2..].
  - split; [done|]. intros k Hne. by rewrite H2, Hk.
Qed.

(** ** A deployment *)

Context `{CommandRunner}.

Lemma logs_only deploymentID clock trace : Forall (λ m, match m with SLog _ _ _ _ _ => True | _ => False end) (forwardLogs deploymentID clock trace).
Proof. unfold forwardLogs. apply Forall_lookup. intros i m. rewrite list_lookup_imap. destruct (omap _ trace !! i) as [[[l t] x]|]; [|done]. by intros [= <-]. Qed.

Lemma last_status_app a b : last_status (a ++ b) = match last_status b with Some x => Some x | None => last_status a end.
Proof.
  unfold last_status. rewrite foldl_app. generalize (foldl (λ o m, match m with SStatus _ state _ _ => Some state | _ => o end) None a) as o.
  induction b as [|m b IH] using rev_ind; intros o; [done|]. rewrite !foldl_app. cbn [foldl]. destruct m; done.
Qed.

Lemma last_status_logs logs :
  Forall (λ m, match m with SLog _ _ _ _ _ => True | _ => False end) logs → last_status logs = None.
Proof.
  induction logs as [|m logs IH] using rev_ind; [done|]. intros [Hl Hm]%Forall_app. rewrite last_status_app, IH by done.
  inversion_clear Hm. by destruct m.
Qed.

(** C25: a deployment, from the command to the record at the master: whatever the strategy does
    and however its log and the statuses interleave on the stream, the record ends as
    [success] exactly when the strategy succeeded, as [cancelled] when it failed and the
    command had been cancelled, and as [failed] otherwise, with a completion time; no
    other record changes. *)
Theorem deployment_reported cmd cancelled clock w now xid messages s d :
  DeploymentId cmd ≠ "" → Deployments.deployments s !! DeploymentId cmd = Some d → d.(DeploymentRecord.ID) = DeploymentId cmd →
  let '(_, statuses, logs, r) := handleDeployCommand cmd cancelled clock w in
  carried statuses logs messages →
  (∃ d', Deployments.deployments (deliver now xid messages s) !! DeploymentId cmd = Some d' ∧
     d'.(DeploymentRecord.Status) = match Error r with None => "success" | Some _ => if cancelled then "cancelled" else "failed" end ∧
     is_Some d'.(DeploymentRecord.CompletedAt)) ∧
  ∀ k, k ≠ DeploymentId cmd → Deployments.deployments (deliver now xid messages s) !! k = Deployments.deployments s !! k.
Proof.
  intros Hid Hd Hi. unfold handleDeployCommand. destruct (Deploy _ w) as [[w' trace] r] eqn:E. intros (early & late & Hlogs & ->).
  pose proof (logs_only (DeploymentId cmd) clock trace) as Hl. rewrite Hlogs in Hl. apply Forall_app in Hl as [He Hl].
  cbn [take drop deploy_statuses app].
  destruct (deliver_reported (DeploymentId cmd) now xid
    (SStatus (DeploymentId cmd) AgentServer.STATE_PREPARING "Starting deployment" 10 ::
     SStatus (DeploymentId cmd) AgentServer.STATE_DEPLOYING "Executing deployment" 50 :: early ++
     SStatus (DeploymentId cmd) (final_state cancelled r) (final_message cancelled r) 100 :: late) s d Hid Hd Hi) as [(d' & Hd' & Hr) Hk].
  - constructor; [done|]. constructor; [done|]. apply Forall_app. split; [|constructor; [done|]].
    all: eapply Forall_impl; [eassumption|]; intros m Hm; by destruct m.
  - split; [|done]. exists d'. split; [done|].
    change (SStatus (DeploymentId cmd) AgentServer.STATE_PREPARING "Starting deployment" 10 ::
      SStatus (DeploymentId cmd) AgentServer.STATE_DEPLOYING "Executing deployment" 50 :: early ++ ?l)
      with ([SStatus (DeploymentId cmd) AgentServer.STATE_PREPARING "Starting deployment" 10;
             SStatus (DeploymentId cmd) AgentServer.STATE_DEPLOYING "Executing deployment" 50] ++ early ++ l) in Hr.
    change (?m :: late) with ([m] ++ late) in Hr. rewrite !last_status_app, (last_status_logs late) in Hr by done. cbn [last_status foldl] in Hr.
    destruct Hr as [Hs Hc]. unfold final_state in *. destruct (Error r); [destruct cancelled|]; cbn in Hs; (split; [done|]); by apply Hc.
Qed.

End reported.

Lemma deploy_error `{CommandRunner} cmd w : Success (Deploy cmd w).2 = false → is_Some (Error (Deploy cmd w).2).
Proof.
  unfold Deploy. destruct (getNextReleaseNumber _ w) as [[w1 t1] [n|e]]; [|intros _; by eexists].
  destruct (deploy_release cmd n w1) as [[w2 t2] [[]|e]]; [done|intros _; by eexists].
Qed.

(** With the runner an agent is made with, no deployment is reported as a success. *)
Lemma agent_deployment_reported `{Host, MapRange} cmd cancelled clock w :
  let '(_, statuses, _, _) := @Commands.handleDeployCommand agent_runner cmd cancelled clock w in
  ∃ e, statuses = [SStatus (Commands.DeploymentId cmd) AgentServer.STATE_PREPARING "Starting deployment" 10;
                   SStatus (Commands.DeploymentId cmd) AgentServer.STATE_DEPLOYING "Executing deployment" 50;
                   SStatus (Commands.DeploymentId cmd) (if cancelled then AgentServer.STATE_CANCELLED else AgentServer.STATE_FAILED)
                     (if cancelled then "Deployment cancelled" else e) 100].
Proof.
  unfold Commands.handleDeployCommand. destruct (no_archive_deploy agent_archive_refused (Commands.protoToDeployCommand cmd) w) as [Hf _].
  apply (@deploy_error agent_runner) in Hf. destruct (@Deploy agent_runner _ w) as [[w' t] r]. cbn [snd] in Hf. destruct Hf as [e He].
  exists e. unfold Commands.deploy_statuses, Commands.final_state, Commands.final_message. by rewrite He.
Qed.

(** * Active deployments *)

Module Active.

Record Entry := mkEntry { owner : nat; project : string; start_time : time; state : DeploymentState }.

(** Where a handler of a deploy command stands: what it does next. *)
Inductive phase :=
| SendPreparing
| SetDeploying
| SendDeploying
| RunStrategy
| SetFinal (f : DeploymentState)
| SendFinal (f : DeploymentState)
| CloseDone
| DeleteEntry
| Returned.

(** [cancelled]: its context. *)
Record Handler := mkHandler { deployment : string; cancelled : bool; next : phase }.

Record State := mkState { active : gmap string Entry; handlers : gmap nat Handler; sent : list (string * DeploymentState) }.

Definition empty : State := mkState ∅ ∅ [].

Inductive label :=
| LCommand (p : nat) (id project : string) (now : time)
| LAdvance (p : nat) (failed : bool)
| LCancel (id : string).

(** [updateDeploymentState] *)
Definition updateDeploymentState (id : string) (st : DeploymentState) (s : State) : State :=
  {| s with active := alter (λ e, {| e with state := st |}) id (active s) |}.

Definition send (id : string) (st : DeploymentState) (s : State) : State := {| s with sent := sent s ++ [(id, st)] |}.

(** What a handler does next; [failed] is what the strategy returns. *)
Definition advance (h : Handler) (failed : bool) (s : State) : phase * State :=
  let id := deployment h in
  match next h with
  | SendPreparing => (SetDeploying, send id AgentServer.STATE_PREPARING s)
  | SetDeploying => (SendDeploying, updateDeploymentState id AgentServer.STATE_DEPLOYING s)
  | SendDeploying => (RunStrategy, send id AgentServer.STATE_DEPLOYING s)
  | RunStrategy =>
      (SetFinal (if failed then if cancelled h then AgentServer.STATE_CANCELLED else AgentServer.STATE_FAILED
                 else AgentServer.STATE_COMPLETED), s)
  | SetFinal f => (SendFinal f, updateDeploymentState id f s)
  | SendFinal f => (CloseDone, send id f s)
  | CloseDone => (DeleteEntry, s)
  | DeleteEntry => (Returned, {| s with active := delete id (active s) |})
  | Returned => (Returned, s)
  end.

Definition set_handler (p : nat) (h : Handler) (s : State) : State := {| s with handlers := <[p := h]> (handlers s) |}.

Definition handleCancelCommand (id : string) (s : State) : State :=
  match active s !! id with
  | None => s
  | Some e => {| s with handlers := alter (λ h, {| h with cancelled := true |}) (owner e) (handlers s) |}
  end.

Definition returned (h : Handler) : bool := match next h with Returned => true | _ => false end.

(** [p] names the goroutine; a new one has a new name. *)
Definition step (l : label) (s : State) : option State :=
  match l with
  | LCommand p id project now =>
      match handlers s !! p with
      | Some _ => None
      | None => Some {| s with active := <[id := mkEntry p project now AgentServer.STATE_PREPARING]> (active s);
                               handlers := <[p := mkHandler id false SendPreparing]> (handlers s) |}
      end
  | LAdvance p failed =>
      match handlers s !! p with
      | None => None
      | Some h => if returned h then None
                  else let '(n, s) := advance h failed s in Some (set_handler p {| h with next := n |} s)
      end
  | LCancel id => Some (handleCancelCommand id s)
  end.

Definition getActiveDeploymentStatuses `{MapRange} (s : State) : list (string * DeploymentState) :=
  (λ '(id, e), (id, state e)) <$> range (active s).

Definition live (h : Handler) : Prop := next h ≠ Returned.

Lemma returned_live h : returned h = false ↔ live h.
Proof. unfold returned, live. by destruct (next h). Qed.

Inductive reachable : State → Prop :=
| reach_empty : reachable empty
| reach_step s l s' : reachable s → step l s = Some s' → reachable s'.

(** No command names a deployment that a handler is at work on. *)
Definition fresh_command (l : label) (s : State) : Prop :=
  match l with
  | LCommand _ id _ _ => ∀ p h, handlers s !! p = Some h → live h → deployment h ≠ id
  | _ => True
  end.

Inductive orderly : State → Prop :=
| orderly_empty : orderly empty
| orderly_step s l s' : orderly s → fresh_command l s → step l s = Some s' → orderly s'.

(** The state the table shows for a handler at work. *)
Definition shown (n : phase) : option DeploymentState :=
  match n with
  | SendPreparing | SetDeploying => Some AgentServer.STATE_PREPARING
  | SendDeploying | RunStrategy | SetFinal _ => Some AgentServer.STATE_DEPLOYING
  | SendFinal f => Some f
  | CloseDone | DeleteEntry | Returned => None
  end.

(** Every entry of the table belongs to a handler at work. *)
Definition owned (s : State) : Prop :=
  ∀ id e, active s !! id = Some e → ∃ h, handlers s !! owner e = Some h ∧ deployment h = id ∧ live h.

(** Every handler at work has its entry. *)
Definition listed (s : State) : Prop :=
  ∀ p h, handlers s !! p = Some h → live h →
    ∃ e, active s !! deployment h = Some e ∧ owner e = p ∧ ∀ st, shown (next h) = Some st → state e = st.

Lemma advance_active h failed s :
  let '(n, s') := advance h failed s in
  handlers s' = handlers s ∧
  (next h = DeleteEntry ∧ n = Returned ∧ active s' = delete (deployment h) (active s) ∨
   next h ≠ DeleteEntry ∧ (n = Returned ↔ next h = Returned) ∧
   ∃ f, active s' = alter f (deployment h) (active s) ∧
     ∀ e, owner (f e) = owner e ∧ (∀ st, (∀ st, shown (next h) = Some st → state e = st) → shown n = Some st → state (f e) = st)).
Proof.
  assert (∀ m : gmap string Entry, m = alter (λ e, e) (deployment h) m) as Hid.
  { intros m. apply map_eq. intros k. destruct (decide (k = deployment h)) as [->|Hk].
    - rewrite lookup_alter_eq. by destruct (m !! deployment h).
    - by rewrite lookup_alter_ne. }
  unfold advance. destruct (next h) eqn:E; (split; [done|]).
  8: { left. done. }
  all: right; (split; [done|]); (split; [naive_solver|]).
  all: try (exists (λ e, e); split; [apply Hid|]; intros e; split; [done|]; cbn; naive_solver).
  - exists (λ e, {| e with state := AgentServer.STATE_DEPLOYING |}). split; [done|]. intros e. split; [done|]. cbn. naive_solver.
  - exists (λ e, {| e with state := f |}). split; [done|]. intros e. split; [done|]. cbn. naive_solver.
Qed.

Lemma step_owned l s s' : owned s → step l s = Some s' → owned s'.
Proof.
  intros Ho Hs. destruct l as [p id pr now|p failed|id]; cbn [step] in Hs.
  - destruct (handlers s !! p) as [?|] eqn:Ep; [done|]. injection Hs as <-. intros id' e'. cbn [active handlers].
    rewrite lookup_insert_Some. intros [[<- <-]|[Hne He]].
    + cbn [owner]. rewrite lookup_insert_eq. by eexists.
    + destruct (Ho _ _ He) as (h & Hh & Hd). exists h. split; [|done]. rewrite lookup_insert_ne; [done|]. intros ->. congruence.
  - destruct (handlers s !! p) as [h|] eqn:Ep; [|done]. destruct (returned h) eqn:Er; [done|].
    apply returned_live in Er. pose proof (advance_active h failed s) as Ha.
    destruct (advance h failed s) as [n s1]. injection Hs as <-. destruct Ha as [Eh Ha]. intros id e He. cbn [set_handler active handlers] in *.
    rewrite Eh. destruct Ha as [(En & -> & Ea)|(_ & Hn & f & Ea & Hf)]; rewrite Ea in He.
    + apply lookup_delete_Some in He as [Hne He]. destruct (Ho _ _ He) as (h' & Hh' & Hd & Hl). exists h'. split; [|done].
      rewrite lookup_insert_ne; [done|]. intros E. rewrite <- E in Hh'. congruence.
    + assert (∃ e0, active s !! id = Some e0 ∧ owner e = owner e0) as (e0 & He0 & ->).
      { apply lookup_alter_Some in He as [(<- & e0 & He0 & ->)|[_ He]]; [exists e0; split; [done|]; apply Hf|by exists e]. }
      destruct (Ho _ _ He0) as (h' & Hh' & Hd & Hl). destruct (decide (p = owner e0)) as [->|Hne].
      * rewrite lookup_insert_eq. rewrite Hh' in Ep. injection Ep as <-. eexists. split; [done|]. split; [done|]. unfold live. cbn. by rewrite Hn.
      * rewrite lookup_insert_ne by done. by exists h'.
  - injection Hs as <-. unfold handleCancelCommand. destruct (active s !! id) as [e|] eqn:Ea; [|done].
    intros id' e' He'. cbn [active handlers] in *. destruct (Ho _ _ He') as (h & Hh & Hd & Hl).
    destruct (decide (owner e = owner e')) as [->|Hne]; [rewrite lookup_alter_eq, Hh; by eexists|rewrite lookup_alter_ne by done; by exists h].
Qed.

Lemma step_listed l s s' : owned s → listed s → fresh_command l s → step l s = Some s' → listed s'.
Proof.
  intros Ho Hl Hf Hs. destruct l as [p id pr now|p failed|id]; cbn [step fresh_command] in *.
  - destruct (handlers s !! p) as [?|] eqn:Ep; [done|]. injection Hs as <-. intros q h. cbn [active handlers].
    rewrite lookup_insert_Some. intros [[<- <-]|[Hne Hh]] Hlive.
    + cbn [deployment]. rewrite lookup_insert_eq. eexists. split; [done|]. split; [done|]. intros st [= <-]. done.
    + rewrite lookup_insert_ne; [by apply Hl|]. intros E. by apply (Hf q h Hh Hlive).
  - destruct (handlers s !! p) as [h|] eqn:Ep; [|done]. destruct (returned h) eqn:Er; [done|].
    apply returned_live in Er. pose proof (advance_active h failed s) as Ha.
    destruct (advance h failed s) as [n s1]. injection Hs as <-. destruct Ha as [Eh Ha]. intros q h' Hh' Hlive. cbn [set_handler active handlers] in *.
    rewrite Eh in Hh'. destruct Ha as [(En & -> & Ea)|(_ & Hn & f & Ea & Hfe)]; rewrite Ea.
    + apply lookup_insert_Some in Hh' as [[<- <-]|[Hne Hh']]; [done|]. destruct (Hl _ _ Hh' Hlive) as (e & He & Hown & Hsh).
      rewrite lookup_delete_ne; [by exists e|]. intros E. destruct (Hl _ _ Ep Er) as (e' & He' & Hown' & _). congruence.
    + apply lookup_insert_Some in Hh' as [[<- <-]|[Hne Hh']].
      * cbn [deployment next] in *. destruct (Hl _ _ Ep Er) as (e & He & Hown & Hsh).
        rewrite lookup_alter_eq, He. cbn. eexists. split; [done|]. destruct (Hfe e) as [-> Hst]. split; [done|]. intros st. by apply Hst.
      * destruct (Hl _ _ Hh' Hlive) as (e & He & Hown & Hsh). rewrite lookup_alter_ne; [by exists e|]. intros E.
        destruct (Hl _ _ Ep Er) as (e2 & He2 & Hown2 & _). congruence.
  - injection Hs as <-. unfold handleCancelCommand. destruct (active s !! id) as [e|] eqn:Ea; [|done].
    intros q h Hh Hlive. cbn [active handlers] in *. apply lookup_alter_Some in Hh as [(<- & h0 & Hh0 & ->)|[Hne Hh]].
    + destruct (Hl _ _ Hh0 Hlive) as (e' & He' & Hown & Hsh). by exists e'.
    + by apply Hl.
Qed.

Lemma reachable_owned s : reachable s → owned s.
Proof. induction 1 as [|s l s' _ IH Hs]; [done|by eapply step_owned]. Qed.

Lemma orderly_listed s : orderly s → owned s ∧ listed s.
Proof.
  induction 1 as [|s l s' _ [Ho Hl] Hf Hs]; [done|]. split; [by eapply step_owned|by eapply step_listed].
Qed.

(** a cancellation never reaches a deployment that is over or another one than it names;
    and as long as no command names a deployment that is being worked on, it reaches the
    deployment it names whenever a handler is at work on it, and the statuses of a heartbeat
    are those of the handlers at work, one each. *)
Theorem cancellation_precise `{MapRange} id s :
  (reachable s → ∀ p h, handlers (handleCancelCommand id s) !! p = Some h →
     handlers s !! p = Some h ∨
     ∃ h0, handlers s !! p = Some h0 ∧ h = {| h0 with cancelled := true |} ∧ live h0 ∧ deployment h0 = id) ∧
  (orderly s →
     (∀ p h, handlers s !! p = Some h → live h → deployment h = id →
        handlers (handleCancelCommand id s) !! p = Some {| h with cancelled := true |}) ∧
     (∀ x, x ∈ (getActiveDeploymentStatuses s).*1 ↔ ∃ p h, handlers s !! p = Some h ∧ live h ∧ deployment h = x) ∧
     NoDup (getActiveDeploymentStatuses s).*1).
Proof.
  unfold handleCancelCommand, getActiveDeploymentStatuses. split.
  - intros Hr p h Hh. apply reachable_owned in Hr. destruct (active s !! id) as [e|] eqn:Ea; [|by left]. cbn [handlers] in Hh.
    apply lookup_alter_Some in Hh as [(<- & h0 & Hh0 & ->)|[_ Hh]]; [right|by left].
    destruct (Hr _ _ Ea) as (h & Hh & Hd & Hl). exists h0. replace h with h0 in * by congruence. done.
  - intros Hs. apply orderly_listed in Hs as [Ho Hl]. split_and!.
    + intros p h Hh Hlive Hd. destruct (Hl _ _ Hh Hlive) as (e & He & Hown & _). rewrite Hd in He. rewrite He. cbn [handlers].
      by rewrite Hown, lookup_alter_eq, Hh.
    + intros x. rewrite <- list_fmap_compose, list_elem_of_fmap. split.
      * intros ([id' e] & -> & Hin). rewrite range_perm, elem_of_map_to_list in Hin. destruct (Ho _ _ Hin) as (h & Hh & Hd & Hlive). eauto.
      * intros (p & h & Hh & Hlive & <-). destruct (Hl _ _ Hh Hlive) as (e & He & _). exists (deployment h, e). split; [done|].
        by rewrite range_perm, elem_of_map_to_list.
    + rewrite <- list_fmap_compose. rewrite (list_fmap_ext _ fst) by (by intros ? []). apply range_NoDup_keys.
Qed.

(** Two commands for one deployment: when the first handler returns, the second is at work
    without an entry: no cancellation reaches it and no heartbeat shows it. *)
Definition run (ls : list label) (s : State) : option State :=
  foldl (λ o l, match o with Some s => step l s | None => None end) (Some s) ls.

Lemma second_command_hidden :
  ∃ s, run (LCommand 0 "d" "shop" 0 :: LCommand 1 "d" "shop" 0 :: replicate 8 (LAdvance 0 false)) empty = Some s ∧
    handlers s !! 1%nat = Some (mkHandler "d" false SendPreparing) ∧ active s = ∅ ∧ handleCancelCommand "d" s = s.
Proof. eexists. split; [by vm_compute|]. by vm_compute. Qed.

(** A handler at work returns after at most eight steps of its own, whatever the others do in between;
    each of its statuses is sent once. *)
Definition steps_left (n : phase) : nat :=
  match n with
  | SendPreparing => 8 | SetDeploying => 7 | SendDeploying => 6 | RunStrategy => 5 | SetFinal _ => 4 | SendFinal _ => 3
  | CloseDone => 2 | DeleteEntry => 1 | Returned => 0
  end%nat.

Lemma handler_progress p failed h s :
  handlers s !! p = Some h → live h →
  ∃ s' h', step (LAdvance p failed) s = Some s' ∧ handlers s' !! p = Some h' ∧ S (steps_left (next h')) = steps_left (next h).
Proof.
  intros Hh Hl. cbn [step]. rewrite Hh. apply returned_live in Hl as Er. rewrite Er.
  pose proof (advance_active h failed s) as Ha. destruct (advance h failed s) as [n s1] eqn:Ea. eexists _, _. split; [done|].
  cbn [set_handler handlers]. rewrite lookup_insert_eq. split; [done|]. cbn [next]. unfold advance in Ea. unfold live in Hl.
  by destruct (next h); injection Ea as <- <-.
Qed.

End Active.

(** * Health checks *)

(** [http.CanonicalHeaderKey]: a key with a byte that no key may have is left as it is. *)
Definition token_byte (c : Ascii.ascii) : bool :=
  let n := Ascii.nat_of_ascii c in
  is_digit c || ((65 <=? n) && (n <=? 90))%nat || ((97 <=? n) && (n <=? 122))%nat ||
  existsb (Ascii.eqb c) (String.list_ascii_of_string "!#$%&'*+-.^_`|~").

Definition upper (c : Ascii.ascii) : Ascii.ascii :=
  let n := Ascii.nat_of_ascii c in if ((97 <=? n) && (n <=? 122))%nat then Ascii.ascii_of_nat (n - 32) else c.

Fixpoint canonical_from (start : bool) (s : string) : string :=
  match s with
  | EmptyString => EmptyString
  | String c s => String (if start then upper c else lower c) (canonical_from (Ascii.eqb c (Ascii.ascii_of_nat 45)) s)
  end.

Definition CanonicalHeaderKey (s : string) : string :=
  if forallb token_byte (String.list_ascii_of_string s) then canonical_from true s else s.

Module Health.

Record HealthCheckCommand := mkCommand {
  DeploymentId : string; Url : string; Method : string; ExpectedStatus : Z; TimeoutSeconds : Z; Retries : Z; RetryDelaySeconds : Z;
  Headers : gmap string string; Body : string; BodyContains : string; TriggerRollback : bool
}.

Record http_request := mkRequest { r_method : string; r_url : string; r_headers : gmap string string; r_body : option string; r_timeout : Z }.

(** What comes of a request: an error, or a status and the body or the error while it is
    read; with the time it took, in milliseconds and as text. *)
Inductive answer :=
| NoAnswer (e : string)
| Answer (status : Z) (body : string + string).

Record exchange := mkExchange { x_answer : answer; x_millis : Z; x_took : string }.

Section health.
Context `{MapRange}.
(** The error of [http.NewRequest] for a method and a text. *)
Context (request_error : string → string → option string).

(** The timeout of the client the daemon shares holds for every request. *)
Definition client_timeout : Z := 30 * Second.

Definition timeout_of (seconds : Z) : Z := if 0 <? seconds then seconds * Second else 10 * Second.

Definition method_of (cmd : HealthCheckCommand) : string := if bool_decide (Method cmd = "") then "GET" else Method cmd.

Definition set_header (m : gmap string string) (kv : string * string) : gmap string string := <[CanonicalHeaderKey kv.1 := kv.2]> m.

Definition request (cmd : HealthCheckCommand) : http_request :=
  let headers := foldl set_header {["User-Agent" := "vcdeploy-health-check/1.0"]} (range (Headers cmd)) in
  let headers := if negb (bool_decide (Body cmd = "")) && bool_decide (default "" (headers !! "Content-Type") = "")
                 then <["Content-Type" := "application/json"]> headers else headers in
  mkRequest (method_of cmd) (Url cmd) headers (if bool_decide (Body cmd = "") then None else Some (Body cmd))
    (Z.min client_timeout (timeout_of (TimeoutSeconds cmd))).

Definition expected (cmd : HealthCheckCommand) : Z := if ExpectedStatus cmd =? 0 then 200 else ExpectedStatus cmd.

Definition performHealthCheckWithConfig (cmd : HealthCheckCommand) (do_ : http_request → exchange) : HealthCheckResult :=
  let result success status millis error := mkHealthResult (DeploymentId cmd) success status millis error 0 false in
  match request_error (method_of cmd) (Url cmd) with
  | Some e => result false 0 0 ("Failed to create request: " +:+ e)
  | None =>
      let x := do_ (request cmd) in
      match x_answer x with
      | NoAnswer e => result false 0 (x_millis x) ("Health check failed: " +:+ e +:+ " (after " +:+ x_took x +:+ ")")
      | Answer status (inr e) => result false status (x_millis x) ("Failed to read response body: " +:+ e)
      | Answer status (inl body) =>
          if negb (status =? expected cmd)
          then result false status (x_millis x) ("Health check failed: got status " +:+ pretty status +:+ ", expected " +:+
                 pretty (expected cmd) +:+ " (after " +:+ x_took x +:+ ")")
          else if negb (bool_decide (BodyContains cmd = "")) && negb (Contains body (BodyContains cmd))
          then result false status (x_millis x) ("Health check failed: response body does not contain '" +:+ BodyContains cmd +:+ "'")
          else result true status (x_millis x) ""
      end
  end.

Definition retries_of (cmd : HealthCheckCommand) : Z := if Retries cmd <=? 0 then 1 else Retries cmd.
Definition delay_of (cmd : HealthCheckCommand) : Z := if RetryDelaySeconds cmd <=? 0 then 5 else RetryDelaySeconds cmd.

(** The attempts from a number on, with [more] after the first; [do_ k] is for the [k]-th.
    The result, and the waits. *)
Fixpoint attempts (cmd : HealthCheckCommand) (do_ : Z → http_request → exchange) (more : nat) (attempt : Z) : HealthCheckResult * list Z :=
  let r := performHealthCheckWithConfig cmd (do_ attempt) in
  let r := {| r with h_retries := attempt |} in
  if h_success r then (r, [])
  else match more with
       | O => (r, [])
       | S more => let '(r, waits) := attempts cmd do_ more (attempt + 1) in (r, delay_of cmd * Second :: waits)
       end.

Definition handleHealthCheckCommand (cmd : HealthCheckCommand) (do_ : Z → http_request → exchange) : HealthCheckResult * list Z * list Sent :=
  let '(r, waits) := attempts cmd do_ (Z.to_nat (retries_of cmd - 1)) 1 in
  let r := {| r with h_rollback := TriggerRollback cmd && negb (h_success r) |} in
  let text := if h_success r then "Health check passed: status " +:+ pretty (h_status r) +:+ " (in " +:+ pretty (h_millis r) +:+ "ms)"
              else h_error r in
  (r, waits, [SHealth r; SCommandResult (DeploymentId cmd) "health_check" (if h_success r then 0 else 1) text ""]).

(** The older check: any status of the two hundreds. *)
Definition performHealthCheck (url : string) (timeout : Z) (do_ : http_request → exchange) : bool * string :=
  match request_error "GET" url with
  | Some e => (false, "Failed to create request: " +:+ e)
  | None =>
      let x := do_ (mkRequest "GET" url {["User-Agent" := "vcdeploy-health-check/1.0"]} None (Z.min client_timeout (timeout_of timeout))) in
      match x_answer x with
      | NoAnswer e => (false, "Health check failed: " +:+ e +:+ " (after " +:+ x_took x +:+ ")")
      | Answer status _ =>
          if (200 <=? status) && (status <? 300)
          then (true, "Health check passed: status " +:+ pretty status +:+ " (in " +:+ x_took x +:+ ")")
          else (false, "Health check failed: got status " +:+ pretty status +:+ ", expected 2xx (after " +:+ x_took x +:+ ")")
      end
  end.

(** An attempt finds the service as it should be. *)
Definition healthy (cmd : HealthCheckCommand) (x : exchange) : Prop :=
  request_error (method_of cmd) (Url cmd) = None ∧
  ∃ body, x_answer x = Answer (expected cmd) (inl body) ∧ (BodyContains cmd = "" ∨ Contains body (BodyContains cmd) = true).

Lemma perform_healthy cmd do_ : h_success (performHealthCheckWithConfig cmd do_) = true ↔ healthy cmd (do_ (request cmd)).
Proof.
  unfold performHealthCheckWithConfig, healthy. destruct (request_error _ _); [split; [done|by intros [? _]]|].
  destruct (x_answer _) as [e|status [body|e]]; [split; [done|by intros (_ & ? & ? & _)]| |split; [done|by intros (_ & ? & ? & _)]].
  destruct (Z.eqb_spec status (expected cmd)) as [->|Hne]; cbn [negb]; [|split; [done|intros (_ & ? & [= ? _] & _); done]].
  case_bool_decide as Hb; cbn [negb andb].
  - split; [intros _; split; [done|]; exists body; by split; [|left]|done].
  - destruct (Contains body (BodyContains cmd)) eqn:Ec; cbn [negb].
    + split; [intros _; split; [done|]; exists body; by split; [|right]|done].
    + split; [done|]. intros (_ & b & [= <-] & [?|?]); congruence.
Qed.

Lemma attempts_spec cmd do_ more attempt :
  let '(r, waits) := attempts cmd do_ more attempt in
  attempt ≤ h_retries r ≤ attempt + Z.of_nat more ∧ waits = replicate (Z.to_nat (h_retries r - attempt)) (delay_of cmd * Second) ∧
  (h_success r = true ↔ healthy cmd (do_ (h_retries r) (request cmd))) ∧
  (∀ k, attempt ≤ k < h_retries r → ¬ healthy cmd (do_ k (request cmd))) ∧
  (h_success r = false → h_retries r = attempt + Z.of_nat more).
Proof.
  revert attempt. induction more as [|more IH]; intros attempt; cbn [attempts]; set (r0 := performHealthCheckWithConfig cmd (do_ attempt));
    pose proof (perform_healthy cmd (do_ attempt)) as Hp; fold r0 in Hp; cbn [h_success h_retries].
  - destruct (h_success r0) eqn:Es; cbn [h_retries h_success]; rewrite Z.sub_diag; (split_and!; [lia|lia|done|exact Hp|lia|intros _; lia]).
  - destruct (h_success r0) eqn:Es; cbn [h_retries h_success].
    { rewrite Z.sub_diag. split_and!; [lia|lia|done|exact Hp|lia|done]. }
    specialize (IH (attempt + 1)). destruct (attempts cmd do_ more (attempt + 1)) as [r waits]. destruct IH as (Hr & -> & Hs & Hn & Hl).
    split_and!; [lia..| |done| |intros Hf; specialize (Hl Hf); lia].
    + replace (Z.to_nat (h_retries r - attempt)) with (S (Z.to_nat (h_retries r - (attempt + 1)))) by lia. done.
    + intros k Hk. destruct (decide (k = attempt)) as [->|Hne]; [|apply Hn; lia]. rewrite <- Hp. congruence.
Qed.

(** a health check makes attempts until one finds the service healthy, at most as many
    as asked for and at least one, with the delay asked for between them; it succeeds exactly
    when one of those attempts does; a rollback is asked for exactly when the command
    wants one and no attempt succeeded; and the master is told twice, but does not know the message
    that carries the rollback. *)
Theorem health_check_spec cmd do_ :
  let '(r, waits, messages) := handleHealthCheckCommand cmd do_ in
  let allowed := Z.max 1 (Retries cmd) in
  1 ≤ h_retries r ≤ allowed ∧ waits = replicate (Z.to_nat (h_retries r - 1)) (delay_of cmd * Second) ∧
  (h_success r = true ↔ ∃ k, 1 ≤ k ≤ allowed ∧ healthy cmd (do_ k (request cmd))) ∧
  (∀ k, 1 ≤ k < h_retries r → ¬ healthy cmd (do_ k (request cmd))) ∧
  h_rollback r = TriggerRollback cmd && negb (h_success r) ∧
  ∃ text, received <$> messages = [AgentServer.MUnknown;
    AgentServer.MCommandResult (Some (DeploymentId cmd, "health_check", if h_success r then 0 else 1, 0, text, ""))].
Proof.
  unfold handleHealthCheckCommand. pose proof (attempts_spec cmd do_ (Z.to_nat (retries_of cmd - 1)) 1) as Hs.
  destruct (attempts cmd do_ _ 1) as [r waits]. cbn [h_retries h_success h_rollback]. destruct Hs as (Hr & -> & Hh & Hn & Hl).
  assert (1 + Z.of_nat (Z.to_nat (retries_of cmd - 1)) = Z.max 1 (Retries cmd)) as Ha by (unfold retries_of; destruct (Z.leb_spec (Retries cmd) 0); lia).
  rewrite Ha in *. split_and!; [lia..|done| |done|done|by eexists]. split.
  - intros Hok. exists (h_retries r). split; [lia|]. by apply Hh.
  - intros (k & Hk & Hhk). destruct (h_success r) eqn:Es; [done|]. specialize (Hl eq_refl). destruct (decide (k = h_retries r)) as [->|Hne].
    + by apply Hh in Hhk.
    + destruct (Hn k); [lia|done].
Qed.

End health.
End Health.

(** * The update of the agent *)

Module Update.

Record UpdateNotification := mkNotification { Version : string; DownloadUrl : string; ChecksumSha256 : string; SizeBytes : Z; Force : bool }.

(** An integer at the front of a text, after blanks, and what follows. *)
Fixpoint drop_digits (s : string) : string :=
  match s with String c s' => if is_digit c then drop_digits s' else s | EmptyString => EmptyString end.

Definition scan_int (s : string) : option (Z * string) :=
  match sscanf_d s with Some v => Some (v, drop_digits (split_sign (skip_blanks s)).2) | None => None end.

(** [fmt.Sscanf(s, "%d:%d", &h, &m)]; what follows is ignored. *)
Definition scan_clock (s : string) : option (Z * Z) :=
  '(h, rest) ← scan_int s;
  match rest with
  | String c rest => if Ascii.eqb c (Ascii.ascii_of_nat 58) then '(m, _) ← scan_int rest; Some (h, m) else None
  | EmptyString => None
  end.

Definition isWithinUpdateWindow (start end_ : string) (zone : Z) (now : time) : bool :=
  if bool_decide (start = "") || bool_decide (end_ = "") then true
  else
    let nowMinutes := ClockHour zone now * 60 + ClockMinute zone now in
    match scan_clock start with
    | None => true
    | Some (startH, startM) =>
        match scan_clock end_ with
        | None => true
        | Some (endH, endM) =>
            let startMinutes := wrap64 (startH * 60 + startM) in
            let endMinutes := wrap64 (endH * 60 + endM) in
            if startMinutes <=? endMinutes then (startMinutes <=? nowMinutes) && (nowMinutes <=? endMinutes)
            else (startMinutes <=? nowMinutes) || (nowMinutes <=? endMinutes)
        end
    end.

(** Does a notification start an update? *)
Definition handleUpdateNotification (agentVersion policy start end_ : string) (zone : Z) (now : time) (updateInProgress : bool)
    (notification : option UpdateNotification) : bool :=
  match notification with
  | None => false
  | Some n =>
      if updateInProgress then false
      else if bool_decide (Version n = agentVersion) && negb (Force n) then false
      else
        let updatePolicy := if bool_decide (policy = "") then "immediate" else policy in
        if bool_decide (updatePolicy = "immediate") then true
        else if bool_decide (updatePolicy = "scheduled") then isWithinUpdateWindow start end_ zone now
        else if bool_decide (updatePolicy = "manual") then Force n
        else false
  end.

(** The answer to a heartbeat: an error of the call, or [ok] and a notification. *)
Definition sendHeartbeat (connected : bool) (answer : (bool * option UpdateNotification) + string)
    (notify : option UpdateNotification → bool) : option gerror * bool :=
  if negb connected then (Some (Errorf "not connected"), false)
  else match answer with
       | inr e => (Some (Errorf ("sending heartbeat: " +:+ e)), false)
       | inl (false, _) => (Some (Errorf "heartbeat rejected by master"), false)
       | inl (true, n) => (None, notify n)
       end.

(** ** Installation *)

Record file := mkFile { data : list Z; executable : bool }.
Abbreviation files := (gmap string file).

(** What a copy does: all of it, or an error after some bytes, or no file at all. *)
Inductive copying := Copied | Broken (n : nat) | NotCreated.

(** What the network and the disk answer: the path of the executable, the directory for the
    download, the answer to the request (status, bytes, and whether they are all), and whether each
    call succeeds; [runs] tells for the contents of a file whether the program reports a
    version. *)
Record update_env := mkUpdateEnv {
  exec_path : option string; temp_dir : option string; response : option (Z * list Z * bool); creates : bool;
  chmod_new : bool; runs : list Z → bool; backs_up : bool; copies : copying; restores : bool; chmod_exec : bool; removes : bool
}.

Section update.
Context (sha256_hex : list Z → string).

Definition downloadBinary (e : update_env) (destPath expectedChecksum : string) (expectedSize : Z) (fs : files) : files * option string :=
  match response e with
  | None => (fs, Some "download request failed")
  | Some (status, bytes, complete) =>
      if negb (status =? 200) then (fs, Some ("download failed with status: " +:+ pretty status))
      else if negb (creates e) then (fs, Some "create destination file")
      else
        let fs := <[destPath := mkFile bytes false]> fs in
        if negb complete then (fs, Some "download failed")
        else if (0 <? expectedSize) && negb (len bytes =? expectedSize)
        then (fs, Some ("size mismatch: got " +:+ pretty (len bytes) +:+ ", expected " +:+ pretty expectedSize))
        else if negb (bool_decide (expectedChecksum = "")) && negb (bool_decide (sha256_hex bytes = expectedChecksum))
        then (fs, Some ("checksum mismatch: got " +:+ sha256_hex bytes +:+ ", expected " +:+ expectedChecksum))
        else (fs, None)
  end.

(** [os.Rename] *)
Definition rename (from to : string) (fs : files) : option files :=
  match fs !! from with Some f => Some (<[to := f]> (delete from fs)) | None => None end.

(** [copyFile]: the new file is not executable. *)
Definition copyFile (c : copying) (src dst : string) (fs : files) : files * bool :=
  match fs !! src with
  | None => (fs, false)
  | Some f =>
      match c with
      | NotCreated => (fs, false)
      | Broken n => (<[dst := mkFile (take n (data f)) false]> fs, false)
      | Copied => (<[dst := mkFile (data f) false]> fs, true)
      end
  end.

(** [os.RemoveAll] of the directory, where only the download is. *)
Definition clean (new : string) (fs : files) : files := delete new fs.

(** From the backup on: whether the process exits to be restarted. *)
Definition install (e : update_env) (exec new : string) (fs : files) : files * bool :=
  let backup := exec +:+ ".backup" in
  match (if backs_up e then rename exec backup fs else None) with
  | None => (fs, false)
  | Some fs =>
      match copyFile (copies e) new exec fs with
      | (fs, false) => (if restores e then default fs (rename backup exec fs) else fs, false)
      | (fs, true) =>
          let fs := if chmod_exec e then alter (λ f, {| f with executable := true |}) exec fs else fs in
          (if removes e then delete backup fs else fs, true)
      end
  end.

Definition performSelfUpdate (e : update_env) (n : UpdateNotification) (updateInProgress : bool) (fs : files) : files * bool :=
  if updateInProgress then (fs, false)
  else match exec_path e, temp_dir e with
       | Some exec, Some tmpDir =>
           let new := tmpDir +:+ "/vcdeploy-agent-new" in
           let '(fs, exits) :=
             match downloadBinary e new (ChecksumSha256 n) (SizeBytes n) fs with
             | (fs, Some _) => (fs, false)
             | (fs, None) =>
                 if negb (chmod_new e) then (fs, false)
                 else if negb (match fs !! new with Some f => runs e (data f) | None => false end) then (fs, false)
                 else install e exec new fs
             end in
           (clean new fs, exits)
       | _, _ => (fs, false)
       end.

(** The bytes are the ones announced, as far as anything was. *)
Definition announced (n : UpdateNotification) (bytes : list Z) : Prop :=
  (0 < SizeBytes n → len bytes = SizeBytes n) ∧ (ChecksumSha256 n ≠ "" → sha256_hex bytes = ChecksumSha256 n).

Lemma downloaded e dest n fs fs' :
  downloadBinary e dest (ChecksumSha256 n) (SizeBytes n) fs = (fs', None) →
  ∃ bytes, response e = Some (200, bytes, true) ∧ fs' = <[dest := mkFile bytes false]> fs ∧ announced n bytes.
Proof.
  unfold downloadBinary, announced. destruct (response e) as [[[status bytes] complete]|]; [|done].
  destruct (Z.eqb_spec status 200) as [->|]; [|done]. cbn [negb]. destruct (creates e); [|done]. destruct complete; [|done]. cbn [negb].
  destruct ((0 <? SizeBytes n) && negb (len bytes =? SizeBytes n)) eqn:Es; [done|].
  destruct (negb _ && negb (bool_decide (sha256_hex bytes = _))) eqn:Ec; [done|]. intros [= <-]. exists bytes. split_and!; [done..| |].
  - intros Hs. apply andb_false_iff in Es as [Es|Es]; [apply Z.ltb_ge in Es; lia|]. apply negb_false_iff, Z.eqb_eq in Es. done.
  - intros Hc. rewrite (bool_decide_false _ Hc) in Ec. cbn [negb andb] in Ec. by apply negb_false_iff, bool_decide_eq_true in Ec.
Qed.

Lemma failed_download e dest sum size fs fs' msg k :
  downloadBinary e dest sum size fs = (fs', Some msg) → k ≠ dest → fs' !! k = fs !! k.
Proof.
  unfold downloadBinary. intros Hd Hk. repeat (case_match; simplify_eq/=); try done; by rewrite lookup_insert_ne.
Qed.

Lemma backup_differs exec : exec +:+ ".backup" ≠ exec.
Proof. induction exec as [|c exec IH]; [done|]. intros [= E]. by apply IH. Qed.

(** The installation alone. *)
Lemma install_spec e exec new fs old f :
  exec ≠ new → exec +:+ ".backup" ≠ new → fs !! exec = Some old → fs !! new = Some f →
  let '(fs', exits) := install e exec new fs in
  (if exits then fs' !! exec = Some (mkFile (data f) (chmod_exec e))
   else fs' !! exec = Some old ∨ copies e ≠ Copied ∧ restores e = false ∧ fs' !! (exec +:+ ".backup") = Some old) ∧
  ∀ k, k ≠ exec → k ≠ exec +:+ ".backup" → fs' !! k = fs !! k.
Proof.
  intros Hne Hbn Hold Hnew. pose proof (backup_differs exec) as Hb. unfold install. set (backup := exec +:+ ".backup") in *.
  destruct (backs_up e); [|by split; [left|]]. unfold rename at 1. rewrite Hold. set (fs1 := <[backup := old]> (delete exec fs)).
  assert (fs1 !! new = Some f) as Hf1 by (unfold fs1; by rewrite lookup_insert_ne, lookup_delete_ne).
  assert (fs1 !! backup = Some old) as Hb1 by (unfold fs1; by rewrite lookup_insert_eq).
  assert (∀ k, k ≠ exec → k ≠ backup → fs1 !! k = fs !! k) as Hk1 by (intros k H1 H2; unfold fs1; by rewrite lookup_insert_ne, lookup_delete_ne).
  unfold copyFile. rewrite Hf1. destruct (copies e) as [|m|].
  - split.
    + assert (∀ fs2 : files, (if removes e then delete backup fs2 else fs2) !! exec = fs2 !! exec) as Hr.
      { intros fs2. destruct (removes e); [by rewrite lookup_delete_ne|done]. }
      rewrite Hr. destruct (chmod_exec e); [by rewrite lookup_alter_eq, lookup_insert_eq|by rewrite lookup_insert_eq].
    + intros k H1 H2. rewrite <- Hk1 by done.
      assert (∀ fs2 : files, (if removes e then delete backup fs2 else fs2) !! k = fs2 !! k) as Hr.
      { intros fs2. destruct (removes e); [by rewrite lookup_delete_ne|done]. }
      rewrite Hr. destruct (chmod_exec e); [rewrite lookup_alter_ne by done|]; by rewrite lookup_insert_ne.
  - set (fs2 := <[exec := _]> fs1). assert (fs2 !! backup = Some old) as Hb2 by (unfold fs2; by rewrite lookup_insert_ne).
    unfold rename. rewrite Hb2. cbn [default]. destruct (restores e); cbn [from_option]; (split; [|intros k H1 H2; rewrite <- Hk1 by done]).
    + left. change (Datatypes.id ?x) with x. by rewrite lookup_insert_eq.
    + change (Datatypes.id ?x) with x. rewrite lookup_insert_ne, lookup_delete_ne by done. unfold fs2. by rewrite lookup_insert_ne.
    + right. done.
    + unfold fs2. by rewrite lookup_insert_ne.
  - unfold rename. rewrite Hb1. cbn [default]. destruct (restores e); cbn [from_option]; (split; [|intros k H1 H2; rewrite <- Hk1 by done]).
    + left. change (Datatypes.id ?x) with x. by rewrite lookup_insert_eq.
    + change (Datatypes.id ?x) with x. by rewrite lookup_insert_ne, lookup_delete_ne.
    + right. done.
    + done.
Qed.

(** C26: an update leaves the agent with its old program, or exits for a restart with a new
    one that was downloaded completely, has the announced size and checksum, as far as they are
    announced, and could report its version; unless both the copy and the way back fail,
    and then the old program is in the backup. Nothing but the program, the backup and the
    download is touched. The new program can be executed only if its mode could be set, which
    is not checked before the backup goes. *)
Theorem self_update_safe e n busy fs exec tmpDir old :
  let backup := exec +:+ ".backup" in
  let new := tmpDir +:+ "/vcdeploy-agent-new" in
  exec_path e = Some exec → temp_dir e = Some tmpDir → exec ≠ new → backup ≠ new → fs !! exec = Some old →
  let '(fs', exits) := performSelfUpdate e n busy fs in
  (if exits then
     ∃ bytes, response e = Some (200, bytes, true) ∧ announced n bytes ∧ runs e bytes = true ∧
       fs' !! exec = Some (mkFile bytes (chmod_exec e))
   else fs' !! exec = Some old ∨ copies e ≠ Copied ∧ restores e = false ∧ fs' !! backup = Some old) ∧
  ∀ k, k ≠ exec → k ≠ backup → k ≠ new → fs' !! k = fs !! k.
Proof.
  intros backup new He Ht Hen Hbn Hold. unfold performSelfUpdate. destruct busy; [by split; [left|]|]. rewrite He, Ht. fold new.
  assert (∀ (fs2 : files) k, k ≠ new → clean new fs2 !! k = fs2 !! k) as Hc.
  { intros fs2 k Hk. unfold clean. by rewrite lookup_delete_ne. }
  destruct (downloadBinary e new (ChecksumSha256 n) (SizeBytes n) fs) as [fs1 [msg|]] eqn:Ed.
  { split; [left; rewrite Hc by done; by rewrite (failed_download _ _ _ _ _ _ _ _ Ed)|].
    intros k _ _ Hk. rewrite Hc by done. by apply (failed_download _ _ _ _ _ _ _ _ Ed). }
  apply downloaded in Ed as (bytes & Hr & -> & Ha).
  assert (∀ k, k ≠ new → (<[new := mkFile bytes false]> fs : files) !! k = fs !! k) as Hk1 by (intros k Hk; by rewrite lookup_insert_ne).
  destruct (chmod_new e); cbn [negb].
  2: { split; [left; by rewrite Hc, Hk1|intros k _ _ Hk; by rewrite Hc, Hk1]. }
  rewrite lookup_insert_eq. cbn [data]. destruct (runs e bytes) eqn:Eruns; cbn [negb].
  2: { split; [left; by rewrite Hc, Hk1|intros k _ _ Hk; by rewrite Hc, Hk1]. }
  pose proof (install_spec e exec new (<[new := mkFile bytes false]> fs) old (mkFile bytes false) Hen Hbn) as Hi.
  rewrite Hk1, lookup_insert_eq in Hi by done. specialize (Hi Hold eq_refl). destruct (install _ _ _ _) as [fs2 exits]. destruct Hi as [Hi Hk2].
  split; [|intros k H1 H2 H3; by rewrite Hc, Hk2, Hk1]. destruct exits.
  - exists bytes. rewrite Hc by done. split_and!; done.
  - rewrite !Hc by done. exact Hi.
Qed.

End update.

(** ** The window *)

Definition clock_minutes (h m : Z) : Z := h * 60 + m.

Definition hh_mm (h m : Z) : string := TimeText.pad2 h (String (Ascii.ascii_of_nat 58) (TimeText.pad2 m "")).

Lemma scan_all_clocks :
  forallb (λ h, forallb (λ m, bool_decide (scan_clock (hh_mm h m) = Some (h, m))) (seqZ 0 60)) (seqZ 0 24) = true.
Proof. by vm_compute. Qed.

Lemma scan_hh_mm h m : 0 ≤ h < 24 → 0 ≤ m < 60 → scan_clock (hh_mm h m) = Some (h, m).
Proof.
  intros Hh Hm. pose proof scan_all_clocks as Hall. rewrite forallb_forall in Hall. specialize (Hall h).
  rewrite forallb_forall in Hall. eapply bool_decide_eq_true_1, Hall; apply list_elem_of_In, elem_of_seqZ; lia.
Qed.

(** the window of updates, for two times of day written as hours and minutes: an update
    may start when the minutes since the beginning of the window, counted around the clock, are
    not more than the length of the window, also counted around the clock; so windows over
    midnight work, and one that ends a minute before it begins is the whole day. *)
Theorem update_window h m h' m' zone now :
  0 ≤ h < 24 → 0 ≤ m < 60 → 0 ≤ h' < 24 → 0 ≤ m' < 60 →
  isWithinUpdateWindow (hh_mm h m) (hh_mm h' m') zone now =
    ((ClockHour zone now * 60 + ClockMinute zone now - clock_minutes h m) mod 1440 <=? (clock_minutes h' m' - clock_minutes h m) mod 1440).
Proof.
  intros Hh Hm Hh' Hm'. unfold isWithinUpdateWindow. rewrite !scan_hh_mm by done.
  assert (∀ h m, bool_decide (hh_mm h m = "") = false) as Hne by done. rewrite !Hne. cbn [orb].
  rewrite !wrap64_id by (unfold in_int64, int64_min, int64_max; lia). unfold clock_minutes.
  set (s := h * 60 + m). set (e := h' * 60 + m'). set (t := ClockHour zone now * 60 + ClockMinute zone now).
  assert (0 ≤ t < 1440) as Ht.
  { unfold t, ClockHour, ClockMinute. pose proof (Z.mod_pos_bound (now + zone) Day ltac:(by vm_compute)) as Hc. unfold clock.
    set (c := (now + zone) mod Day) in *. pose proof (Z.mod_pos_bound c Hour ltac:(by vm_compute)).
    unfold Day, Hour, Minute, Second in *. split; [|].
    - pose proof (Z.div_pos c (60 * (60 * 1000000000)) ltac:(lia) ltac:(lia)).
      pose proof (Z.div_pos (c mod (60 * (60 * 1000000000))) (60 * 1000000000) ltac:(lia) ltac:(lia)). lia.
    - pose proof (Z.div_lt_upper_bound c (60 * (60 * 1000000000)) 24 ltac:(lia) ltac:(lia)).
      pose proof (Z.div_lt_upper_bound (c mod (60 * (60 * 1000000000))) (60 * 1000000000) 60 ltac:(lia) ltac:(lia)). lia. }
  assert (0 ≤ s < 1440 ∧ 0 ≤ e < 1440) as [Hs He] by lia. clearbody s e t.
  assert (∀ x y, 0 ≤ x < 1440 → 0 ≤ y < 1440 → (x - y) mod 1440 = if y <=? x then x - y else x - y + 1440) as Hmod.
  { intros x y Hx Hy. destruct (Z.leb_spec y x).
    - apply Z.mod_small. lia.
    - rewrite <- (Z.mod_add _ 1) by lia. rewrite Z.mod_small; lia. }
  rewrite !Hmod by done. destruct (Z.leb_spec s e), (Z.leb_spec s t), (Z.leb_spec t e); cbn [andb orb]; symmetry;
    first [apply Z.leb_le; lia|apply Z.leb_gt; lia].
Qed.

End Update.

(** * At concrete inputs *)

(** Every command exits with an error code, which the strategy does not look at: the
    deployment is reported as a success. *)
Definition demo_runner : CommandRunner := constant_runner (mkCommandResult 128 "" "fatal").

Definition demo_deploy : Commands.PbDeployCommand :=
  Commands.mkPbDeploy "d1" "shop" "prod" "git@host:shop.git" "main" "" "/srv/shop" None ∅ [] [] [] [].

Definition demo_record : DeploymentRecord := DeploymentRecord.mk "d1" "shop" None "prod" "main" "" "pending" 0 5 None "" "" "".

Definition demo_deployments : Deployments.State := {| Deployments.empty with Deployments.deployments := {["d1" := demo_record]} |}.

Lemma deployment_reported_witness :
  let '(_, statuses, logs, _) := @Commands.handleDeployCommand demo_runner demo_deploy false (λ _, 0) tt in
  ∃ d', Deployments.deployments (Commands.deliver (λ _, 9) (λ _, "x") (take 2 statuses ++ logs ++ drop 2 statuses) demo_deployments) !! "d1" = Some d' ∧
    d'.(DeploymentRecord.Status) = "success".
Proof.
  assert (DeploymentRecord.ID demo_record = "d1") as Hid by done.
  assert (Commands.DeploymentId demo_deploy ≠ "") as Hne by done.
  assert (Deployments.deployments demo_deployments !! Commands.DeploymentId demo_deploy = Some demo_record) as Hd by by vm_compute.
  pose proof (λ messages, @deployment_reported demo_runner demo_deploy false (λ _, 0) tt (λ _, 9) (λ _, "x") messages demo_deployments demo_record
    Hne Hd Hid) as Ht.
  assert (Error (@Commands.handleDeployCommand demo_runner demo_deploy false (λ _, 0) tt).2 = None) as He by by vm_compute.
  destruct (@Commands.handleDeployCommand demo_runner demo_deploy false (λ _, 0) tt) as [[[w statuses] logs] r]. cbn [snd] in He.
  destruct (Ht (take 2 statuses ++ logs ++ drop 2 statuses)) as [(d' & Hd' & Hs & _) _].
  - exists logs, []. by rewrite !app_nil_r.
  - exists d'. split; [exact Hd'|]. by rewrite Hs, He.
Defined.

Definition demo_old : Update.file := Update.mkFile [1] true.
Definition demo_files : Update.files := {["/bin/agent" := demo_old]}.
Definition demo_sha (bytes : list Z) : string := pretty (len bytes).

(** The copy breaks off, and the old program comes back. *)
Definition demo_broken : Update.update_env :=
  Update.mkUpdateEnv (Some "/bin/agent") (Some "/tmp/u") (Some (200, [7; 8; 9], true)) true true (λ _, true) true (Update.Broken 1) true true true.

Lemma self_update_safe_witness :
  Update.performSelfUpdate demo_sha demo_broken (Update.mkNotification "v2" "url" "3" 3 false) false demo_files = (demo_files, false) ∧
  (Update.performSelfUpdate demo_sha demo_broken (Update.mkNotification "v2" "url" "3" 3 false) false demo_files).1 !! "/bin/agent" = Some demo_old.
Proof.
  assert (demo_files !! "/bin/agent" = Some demo_old) as Hold by by vm_compute.
  pose proof (Update.self_update_safe demo_sha demo_broken (Update.mkNotification "v2" "url" "3" 3 false) false demo_files "/bin/agent" "/tmp/u" demo_old
    eq_refl eq_refl ltac:(done) ltac:(done) Hold) as [Ht _].
  split; [by vm_compute|]. change (Update.performSelfUpdate demo_sha demo_broken _ false demo_files) with (demo_files, false) in *.
  destruct Ht as [Ht|(_ & Hr & _)]; [exact Ht|done].
Defined.

Lemma update_window_witness :
  Update.isWithinUpdateWindow (Update.hh_mm 23 0) (Update.hh_mm 1 30) 0 (90 * Minute) = true ∧
  Update.isWithinUpdateWindow (Update.hh_mm 23 0) (Update.hh_mm 1 30) 0 (91 * Minute) = false.
Proof.
  split; rewrite Update.update_window by lia; by vm_compute.
Defined.
