(* ===== verification/Loader.v ===== *)
(** Filling the store from the databases ([src/internal/storage/memory_loader.go], with
    the list queries of [DB] it calls, and [Reload] of [factory.go]).

    The databases are a parameter: [Database] holds the rows of every table, as the
    records whose columns they are, and [fails] says which query gives an error and when
    (at once, at a row that cannot be scanned, or by ending early).  A query is a filter
    over the rows of its table, [ORDER BY] a sort as [sort.Slice] is one (ties in any
    order), [LIMIT] a prefix, and [Scan] a function of the row that leaves the fields no
    column was selected for at their zero values.  Columns of times are compared as times.
    An error stands for itself under the texts [fmt.Errorf("...: %w")] puts around it,
    which [errors.Is] looks through.

    [MemoryStore] puts the parts of the store that have files of their own side by side;
    [LoadFromDB] is the list of loaders, one after the other until one fails.  The
    theorems say what a restart gives back: which parts of the store are what they were,
    which fields and rows are lost, and what follows for the agents of the fleet. *)

From S2P Require Import Prelude GoTime StoreBase GoSort MemDeployments MemUsers MemProjects MemAgents MemOps MemMisc.
From S2P Require Import RecipeModels MemRecipes SecurityModels MemSecurity.
From S2P Require Import Crypto KeyManagement Formats Certificates ServiceErrors Services AgentServer.

#[local] Open Scope string_scope.
#[local] Open Scope list_scope.
#[local] Open Scope Z_scope.

(** [json.Marshal] of a map of strings, which may be nil, and [json.Unmarshal] into one: an
    error, the nil map of [null], or a map. *)
Class JSONMap := {
  Marshal_map : option (gmap string string) → option string;
  Unmarshal_map : string → option (option (gmap string string))
}.

(** [utf8.ValidString] *)
Definition continues (lo hi : nat) (c : Ascii.ascii) : bool :=
  let n := Ascii.nat_of_ascii c in (lo <=? n)%nat && (n <=? hi)%nat.

(** The first byte says how many follow, and in which range the second one is. *)
Fixpoint valid_utf8 (s : string) : bool :=
  match s with
  | "" => true
  | String a s1 =>
      let n := Ascii.nat_of_ascii a in
      if (n <? 128)%nat then valid_utf8 s1
      else match s1 with
           | "" => false
           | String b s2 =>
               if (194 <=? n)%nat && (n <=? 223)%nat then continues 128 191 b && valid_utf8 s2
               else match s2 with
                    | "" => false
                    | String c s3 =>
                        if (224 <=? n)%nat && (n <=? 239)%nat
                        then continues (if (n =? 224)%nat then 160 else 128) (if (n =? 237)%nat then 159 else 191) b &&
                             continues 128 191 c && valid_utf8 s3
                        else match s3 with
                             | "" => false
                             | String d s4 =>
                                 (240 <=? n)%nat && (n <=? 244)%nat &&
                                 continues (if (n =? 240)%nat then 144 else 128) (if (n =? 244)%nat then 143 else 191) b &&
                                 continues 128 191 c && continues 128 191 d && valid_utf8 s4
                             end
                    end
           end
  end.

Definition valid_map (m : option (gmap string string)) : Prop :=
  map_Forall (λ k v, valid_utf8 k = true ∧ valid_utf8 v = true) (default ∅ m).

(** Maps of strings can always be written; those of valid strings read back (in others the
    invalid bytes are replaced), nil as nil.  The text is never empty, and only that of a
    map without entries is [{}]. *)
Class JSONMapLaws `{JSONMap} := {
  marshal_unmarshal : ∀ m, valid_map m →
    ∃ text, Marshal_map m = Some text ∧ text ≠ "" ∧ (text = "{}" → m = Some ∅) ∧ Unmarshal_map text = Some m
}.

(** [labelsJSON, _ := json.Marshal(a.Labels)], as a string *)
Definition labels_text `{JSONMap} (m : option (gmap string string)) : string := default "" (Marshal_map m).

Definition jsonToMap `{JSONMap} (s : string) : option (gmap string string) :=
  if bool_decide (s = "") || bool_decide (s = "{}") then Some ∅
  else match Unmarshal_map s with Some m => m | None => Some ∅ end.

(** Labels of valid strings are read back as they were written, no labels as no labels. *)
Lemma labels_roundtrip `{JSONMapLaws} m : valid_map m → jsonToMap (labels_text m) = m.
Proof.
  intros Hv. destruct (marshal_unmarshal m Hv) as (text & Ht & Hne & He & Hu).
  unfold labels_text, jsonToMap. rewrite Ht. cbn. rewrite bool_decide_false by done. cbn.
  case_bool_decide as E; [by rewrite He|by rewrite Hu].
Qed.

(** What a query answers instead of all its rows. *)
Inductive fault :=
| QueryFault (e : gerror)               (* [QueryContext] fails *)
| ScanFault (n : nat) (e : gerror)      (* the row after the first [n] cannot be scanned *)
| CutOff (n : nat) (e : gerror).        (* [rows.Next] ends after [n] rows; [rows.Err] says why *)

Definition fault_error (f : fault) : gerror :=
  match f with QueryFault e | ScanFault _ e | CutOff _ e => e end.

(** Rows that are not just the columns of a record. *)
Record AgentRow := mkAgentRow { agent : Agent; labels : string; update_policy : option string }.
Record DeploymentRow := mkDeploymentRow {
  deployment : DeploymentRecord; scheduled_at : option time; scheduled_by : option string
}.

Record Database := mkDatabase {
  fails : string → string → option fault;
  t_users : list User;
  t_sessions : list Session;
  t_api_keys : list APIKey;
  t_settings : list Setting;
  t_project_types : list ProjectType;
  t_projects : list Project;
  t_project_webhooks : list ProjectWebhook;
  t_secrets : list Secret;
  t_agents : list AgentRow;
  t_agent_binaries : list AgentBinary;
  t_deployments : list DeploymentRow;
  t_deployment_logs : list DeploymentLog;
  t_deployment_rollbacks : list DeploymentRollback;
  t_audit_logs : list AuditEntry;
  t_blocked_ips : list (BlockedIP * bool);        (* the flag: [expires_at] is NULL *)
  t_agent_provision_jobs : list ProvisionJob;
  t_ssh_host_keys : list SSHHostKey;
  t_ssh_jump_servers : list SSHJumpServer;
  t_health_check_configs : list HealthCheckConfig;
  t_certificate_authorities : list CertificateAuthority;
  t_agent_certificates : list AgentCertificate;
  t_server_certificates : list ServerCertificate;
  t_registration_tokens : list RegistrationToken;
  t_source_credentials : list SourceCredential;
  t_revoked_certificates : list RevokedCertificate;
  t_encryption_keys : list EncryptionKey;
  t_ssh_keys : list SSHKey;
  t_cert_audit_events : list CertAuditEvent;
  t_acme_certificates : list ACMECertificate;
  t_acme_accounts : list ACMEAccount;
  t_recovery_codes : list RecoveryCode;
  t_recipe_components : list (result RecipeComponent);
  t_playbooks : list (result Playbook);
  t_playbook_activations : list (result PlaybookActivation);
  t_playbook_variable_bindings : list (result PlaybookVariableBinding);
  t_raw_command_approvals : list (result RawCommandApproval)
}.

(** * The queries *)

Module Queries.
Section queries.
Context `{SliceSort, JSONMap} (db : Database).

(** The answer of the query [q] with the argument [arg]: its rows, or the error. *)
Definition answer {A} (q arg : string) (l : list A) : result (list A) :=
  match fails db q arg with Some f => Err (fault_error f) | None => Ok l end.

(** Rows read one at a time: those before the fault, and the fault's error. *)
Definition stream {A} (q arg : string) (l : list A) : list (result A) :=
  match fails db q arg with
  | None => Ok <$> l
  | Some (QueryFault e) => [Err e]
  | Some (ScanFault n e) | Some (CutOff n e) => (Ok <$> take n l) ++ [Err e]
  end.

(** [ORDER BY] a column of text or of times, and by a second column where the first ties. *)
Definition asc {A} (key : A → string) (x y : A) : bool := string_lt (key x) (key y).
Definition then_by {A} (less less' : A → A → bool) (x y : A) : bool := less x y || (negb (less y x) && less' x y).
Definition larger {A} (key : A → Z) (x y : A) : bool := key y <? key x.

Definition ListUsers : result (list User) := answer "users" "" (sort_Slice (asc User.Username) (t_users db)).

(** The token is the identifier; [last_used] is not a column. *)
Definition scan_session (x : Session) : Session :=
  {| x with Session.Token := x.(Session.ID); Session.LastUsed := 0 |}.

Definition ListUserSessions (userID : string) (now : time) : result (list Session) :=
  answer "sessions" userID
    (scan_session <$> sort_Slice (newest Session.CreatedAt)
       (filter (λ x, x.(Session.UserID) = userID ∧ now < x.(Session.ExpiresAt)) (t_sessions db))).

(** The prefix of a key is not a column. *)
Definition scan_api_key (k : APIKey) : APIKey := {| k with APIKey.KeyPrefix := "" |}.

Definition ListAPIKeys (userID : string) : result (list APIKey) :=
  answer "api_keys" userID
    (scan_api_key <$> sort_Slice (newest APIKey.CreatedAt) (filter (λ k, k.(APIKey.UserID) = userID) (t_api_keys db))).

Definition ListAllSettings : result (list Setting) :=
  answer "settings" "" (sort_Slice (then_by (asc Setting.Category) (asc Setting.Key)) (t_settings db)).

(** Projects are counted, not read from a column. *)
Definition scan_project_type (pt : ProjectType) : ProjectType :=
  {| pt with ProjectType.ProjectCount := len (filter (λ p, p.(Project.TypeID) = Some pt.(ProjectType.ID)) (t_projects db)) |}.

Definition ListProjectTypes : result (list ProjectType) :=
  answer "project_types" "" (scan_project_type <$> sort_Slice (asc ProjectType.Name) (t_project_types db)).

(** Nine columns of thirteen. *)
Definition scan_project (p : Project) : Project :=
  {| p with Project.UpdatedAt := 0; Project.HealthCheckID := None; Project.AutoRollbackEnabled := false;
     Project.RollbackOnHealthFail := false |}.

Definition ListProjects : result (list Project) :=
  answer "projects" "" (scan_project <$> sort_Slice (asc Project.Name) (t_projects db)).

Definition ListProjectWebhooks (projectID : string) : result (list ProjectWebhook) :=
  answer "project_webhooks" projectID
    (sort_Slice (asc ProjectWebhook.Provider) (filter (λ w, w.(ProjectWebhook.ProjectID) = projectID) (t_project_webhooks db))).

Definition scan_secret (x : Secret) : Secret := {| x with Secret.ProjectID := None |}.

Definition ListAllSecretsCtx : result (list Secret) :=
  answer "secrets" "" (scan_secret <$> sort_Slice (then_by (asc Secret.Project) (then_by (asc Secret.Scope) (asc Secret.Key))) (t_secrets db)).

(** Neither the certificate nor the HMAC secret is selected; the capabilities are, and are
    scanned into a variable nothing reads. *)
Definition scan_agent (r : AgentRow) : Agent :=
  let a := agent r in
  {| a with Agent.Labels := jsonToMap (labels r); Agent.Capabilities := ""; Agent.Certificate := "";
     Agent.HMACSecret := []; Agent.UpdatePolicy := default "immediate" (update_policy r) |}.

Definition ListAgents : result (list Agent) :=
  answer "agents" "" (scan_agent <$> sort_Slice (asc (Agent.Hostname ∘ agent)) (t_agents db)).

Definition ListAgentBinaries : result (list AgentBinary) :=
  answer "agent_binaries" "" (sort_Slice (newest AgentBinary.UploadedAt) (t_agent_binaries db)).

Definition scan_deployment (d : DeploymentRecord) : DeploymentRecord := {| d with DeploymentRecord.ProjectID := None |}.

Definition ListDeploymentsRecent (limit : nat) : result (list DeploymentRecord) :=
  answer "deployments" ""
    (scan_deployment <$> take limit (sort_Slice (newest DeploymentRecord.StartedAt) (deployment <$> t_deployments db))).

Definition ListDeploymentLogs (deploymentID : string) : result (list DeploymentLog) :=
  answer "deployment_logs" deploymentID
    (sort_Slice (oldest DeploymentLog.CreatedAt)
       (filter (λ l, l.(DeploymentLog.DeploymentID) = deploymentID) (t_deployment_logs db))).

(** Of a deployment without a rollback, [sql.ErrNoRows]. *)
Definition GetLatestRollbackForDeployment (deploymentID : string) : result DeploymentRollback :=
  match answer "deployment_rollbacks" deploymentID
          (sort_Slice (newest DeploymentRollback.StartedAt)
             (filter (λ r, r.(DeploymentRollback.DeploymentID) = deploymentID) (t_deployment_rollbacks db))) with
  | Ok [] => Err Prelude.ErrNotFound
  | Ok (r :: _) => Ok r
  | Err e => Err e
  | Panic => Panic
  end.

(** Deployments whose time has come. The columns [scheduled_at] and [scheduled_by] are
    scanned into a time and a string, so a row without the second gives an error. *)
Definition is_due (now : time) (r : DeploymentRow) : bool :=
  match scheduled_at r with
  | Some t => (t <=? now) && bool_decide ((deployment r).(DeploymentRecord.Status) = "scheduled")
  | None => false
  end.

Definition scan_scheduled (r : DeploymentRow) : result ScheduledDeployment :=
  let d := deployment r in
  match scheduled_at r, scheduled_by r with
  | Some t, Some by_ =>
      Ok (ScheduledDeployment.mk d.(DeploymentRecord.ID) d.(DeploymentRecord.Project) d.(DeploymentRecord.Target)
            d.(DeploymentRecord.Branch) t by_ d.(DeploymentRecord.Status))
  | _, _ => Err (Errorf "scanning deployment")
  end.

Fixpoint scan_all {A B} (scan : A → result B) (l : list A) : result (list B) :=
  match l with
  | [] => Ok []
  | a :: l => (b <-! scan a ;; bs <-! scan_all scan l ;; Ok (b :: bs))%go
  end.

Definition ListPendingScheduledDeployments (now : time) : result (list ScheduledDeployment) :=
  rbind (answer "scheduled_deployments" ""
           (sort_Slice (oldest (λ r, default 0 (scheduled_at r))) (filter (λ r, is_due now r = true) (t_deployments db))))
    (scan_all scan_scheduled).

Definition ListAuditLogs (limit offset : nat) : result (list AuditEntry) :=
  answer "audit_logs" "" (take limit (drop offset (sort_Slice (newest AuditEntry.Timestamp) (t_audit_logs db)))).

(** A block without an end is selected, but its NULL cannot be scanned into a time. *)
Definition scan_blocked (r : BlockedIP * bool) : result BlockedIP :=
  if r.2 then Err (Errorf "scanning blocked IP") else Ok r.1.

Definition still_blocked (now : time) (r : BlockedIP * bool) : bool :=
  r.2 || (now <? r.1.(BlockedIP.ExpiresAt)).

Definition ListBlockedIPs (limit offset : nat) (now : time) : result (list BlockedIP * Z) :=
  let rows := filter (λ r, still_blocked now r = true) (t_blocked_ips db) in
  (_ <-! answer "count_blocked_ips" "" rows ;;
   page <-! answer "blocked_ips" "" (take limit (drop offset (sort_Slice (newest (BlockedIP.BlockedAt ∘ fst)) rows))) ;;
   blocks <-! scan_all scan_blocked page ;; Ok (blocks, len rows))%go.

Definition ListPendingProvisionJobs : result (list ProvisionJob) :=
  answer "provision_jobs" ""
    (sort_Slice (oldest ProvisionJob.StartedAt)
       (filter (λ j, j.(ProvisionJob.Status) = "pending" ∨ j.(ProvisionJob.Status) = "running") (t_agent_provision_jobs db))).

(** The only query that does not look at [rows.Err]: when the rows end early the keys
    read so far are all the caller sees. *)
Definition ListSSHHostKeys : result (list SSHHostKey) :=
  let rows := sort_Slice (then_by (asc SSHHostKey.Hostname)
                (then_by (λ x y, x.(SSHHostKey.Port) <? y.(SSHHostKey.Port)) (asc SSHHostKey.KeyType))) (t_ssh_host_keys db) in
  match fails db "ssh_host_keys" "" with
  | Some (CutOff n _) => Ok (take n rows)
  | Some f => Err (fault_error f)
  | None => Ok rows
  end.

Definition ListJumpServers : result (list SSHJumpServer) :=
  answer "ssh_jump_servers" "" (sort_Slice (asc SSHJumpServer.Name) (t_ssh_jump_servers db)).

Definition ListHealthCheckConfigs : result (list HealthCheckConfig) :=
  answer "health_check_configs" ""
    (sort_Slice (then_by (λ x y, x.(HealthCheckConfig.IsGlobal) && negb y.(HealthCheckConfig.IsGlobal)) (asc HealthCheckConfig.Name))
       (t_health_check_configs db)).

(** ** Security tables *)

Definition ListCAs : result (list CertificateAuthority) :=
  answer "certificate_authorities" "" (sort_Slice (larger CertificateAuthority.Version) (t_certificate_authorities db)).

Definition ListAgentCerts : result (list AgentCertificate) :=
  answer "agent_certificates" "" (sort_Slice (newest AgentCertificate.IssuedAt) (t_agent_certificates db)).

Definition ListServerCerts : result (list ServerCertificate) :=
  answer "server_certificates" "" (sort_Slice (λ _ _, false) (t_server_certificates db)).

Definition ListRegistrationTokens : result (list RegistrationToken) :=
  answer "registration_tokens" "" (sort_Slice (newest RegistrationToken.CreatedAt) (t_registration_tokens db)).

Definition ListSourceCredentials : result (list SourceCredential) :=
  answer "source_credentials" "" (sort_Slice (asc SourceCredential.Name) (t_source_credentials db)).

Definition ListRevokedCerts : result (list RevokedCertificate) :=
  answer "revoked_certificates" "" (sort_Slice (newest RevokedCertificate.RevokedAt) (t_revoked_certificates db)).

Definition ListEncryptionKeys : result (list EncryptionKey) :=
  answer "encryption_keys" "" (sort_Slice (larger EncryptionKey.Version) (t_encryption_keys db)).

Definition ListSSHKeys : result (list SSHKey) := answer "ssh_keys" "" (sort_Slice (asc SSHKey.Name) (t_ssh_keys db)).

Definition selected (f : CertAuditFilter) (e : CertAuditEvent) : bool :=
  (bool_decide (f.(CertAuditFilter.AgentID) = "") || bool_decide (e.(CertAuditEvent.AgentID) = f.(CertAuditFilter.AgentID))) &&
  (bool_decide (f.(CertAuditFilter.EventType) = "") || bool_decide (e.(CertAuditEvent.EventType) = f.(CertAuditFilter.EventType))) &&
  match f.(CertAuditFilter.Since) with Some t => t <=? e.(CertAuditEvent.Timestamp) | None => true end &&
  match f.(CertAuditFilter.Until) with Some t => e.(CertAuditEvent.Timestamp) <=? t | None => true end.

(** [OFFSET] without [LIMIT] is not SQL the database takes. *)
Definition ListCertAuditEvents (f : CertAuditFilter) : result (list CertAuditEvent) :=
  let rows := sort_Slice (newest CertAuditEvent.Timestamp) (filter (λ e, selected f e = true) (t_cert_audit_events db)) in
  if 0 <? f.(CertAuditFilter.Limit)
  then answer "cert_audit_events" ""
         (take (Z.to_nat f.(CertAuditFilter.Limit)) (drop (Z.to_nat f.(CertAuditFilter.Offset)) rows))
  else if 0 <? f.(CertAuditFilter.Offset) then Err (Errorf "query audit events") else answer "cert_audit_events" "" rows.

Definition ListACMECertificates : result (list ACMECertificate) :=
  answer "acme_certificates" "" (sort_Slice (asc ACMECertificate.Domain) (t_acme_certificates db)).

End queries.
End Queries.

(** * The loaders *)

Module Loader.

(** The maps and lists of [MemoryStore], by the files that hold their operations. *)
Record MemoryStore := mkStore {
  users : Users.State;
  projects : Projects.State;
  agents : Agents.State;
  ops : Ops.State;
  misc : Misc.State;
  security : Security.State;
  recipes : Recipes.State
}.

Definition empty : MemoryStore :=
  mkStore Users.empty Projects.empty Agents.empty Ops.empty Misc.empty Security.empty Recipes.empty.

(** What a loader leaves: the store, and whether it went through. *)
Abbreviation Loaded S := (S * result unit)%type.

(** [xs, err := db.List...(ctx); if err != nil { return err }; for _, x := range xs { ... }] *)
Definition file_rows {S A} (rows : result (list A)) (file : list A → S → S) (s : S) : Loaded S :=
  match rows with
  | Ok l => (file l s, Ok tt)
  | Err e => (s, Err e)
  | Panic => (s, Panic)
  end.

(** The loaders of the later tables take [ErrNotFound] for a table that does not exist. *)
Definition file_if_found {S A} (rows : result (list A)) (file : list A → S → S) (s : S) : Loaded S :=
  match rows with
  | Err e => if bool_decide (e = Prelude.ErrNotFound) then (s, Ok tt) else (s, Err e)
  | _ => file_rows rows file s
  end.

(** One query per identifier, until one fails. *)
Fixpoint for_each {S} (ids : list string) (load : string → S → Loaded S) (s : S) : Loaded S :=
  match ids with
  | [] => (s, Ok tt)
  | id :: ids => match load id s with (s, Ok _) => for_each ids load s | o => o end
  end.

Definition on_users (f : Users.State → Loaded Users.State) (s : MemoryStore) : Loaded MemoryStore :=
  let '(x, r) := f (users s) in ({| s with users := x |}, r).
Definition on_projects (f : Projects.State → Loaded Projects.State) (s : MemoryStore) : Loaded MemoryStore :=
  let '(x, r) := f (projects s) in ({| s with projects := x |}, r).
Definition on_dep (f : Deployments.State → Loaded Deployments.State) (s : MemoryStore) : Loaded MemoryStore :=
  on_projects (λ p, let '(x, r) := f (Projects.dep p) in ({| p with Projects.dep := x |}, r)) s.
Definition on_agents (f : Agents.State → Loaded Agents.State) (s : MemoryStore) : Loaded MemoryStore :=
  let '(x, r) := f (agents s) in ({| s with agents := x |}, r).
Definition on_ops (f : Ops.State → Loaded Ops.State) (s : MemoryStore) : Loaded MemoryStore :=
  let '(x, r) := f (ops s) in ({| s with ops := x |}, r).
Definition on_misc (f : Misc.State → Loaded Misc.State) (s : MemoryStore) : Loaded MemoryStore :=
  let '(x, r) := f (misc s) in ({| s with misc := x |}, r).
Definition on_security (f : Security.State → Loaded Security.State) (s : MemoryStore) : Loaded MemoryStore :=
  let '(x, r) := f (security s) in ({| s with security := x |}, r).
Definition on_recipes (f : Recipes.State → Recipes.Out unit) (s : MemoryStore) : Loaded MemoryStore :=
  ({| s with recipes := st (f (recipes s)) |}, ret (f (recipes s))).

Section loaders.
Context `{MapRange, SliceSort, JSONMap} (db : Database) (now : time).
Import Queries.

(** ** Users *)

Definition loadUsers : Users.State → Loaded Users.State :=
  file_rows (ListUsers db) (λ l s,
    {| s with Users.users := file_all User.ID (Users.users s) l;
              Users.usersByName := file_all User.Username (Users.usersByName s) l |}).

Definition user_ids (s : Users.State) : list string := (range (Users.users s)).*1.

Definition loadSessions (s : Users.State) : Loaded Users.State :=
  for_each (user_ids s) (λ id, file_rows (ListUserSessions db id now) (λ l s,
    {| s with Users.sessions := file_all Session.Token (Users.sessions s) l |})) s.

(** [&stored] goes into both indexes. *)
Definition store_key (userID : string) (s : Users.State) (k : APIKey) : Users.State :=
  let l := fresh (dom (Users.keyHeap s)) in
  {| s with Users.keyHeap := <[l := k]> (Users.keyHeap s);
     Users.apiKeys := <[k.(APIKey.KeyHash) := l]> (Users.apiKeys s);
     Users.apiKeysByUser := <[userID := entry (Users.apiKeysByUser s) userID ++ [l]]> (Users.apiKeysByUser s) |}.

Definition loadAPIKeys (s : Users.State) : Loaded Users.State :=
  for_each (user_ids s) (λ id, file_rows (ListAPIKeys db id) (λ l s, foldl (store_key id) s l)) s.

(** ** Projects *)

Definition loadProjectTypes : Projects.State → Loaded Projects.State :=
  file_rows (ListProjectTypes db) (λ l s,
    {| s with Projects.projectTypes := file_all ProjectType.ID (Projects.projectTypes s) l |}).

Definition loadProjects : Projects.State → Loaded Projects.State :=
  file_rows (ListProjects db) (λ l s, foldl (λ s p, Projects.store_project p s) s l).

Definition project_ids (s : Projects.State) : list string := (range (Projects.projects s)).*1.

Definition loadWebhooks (s : Projects.State) : Loaded Projects.State :=
  for_each (project_ids s) (λ id, file_rows (ListProjectWebhooks db id) (λ l s,
    {| s with Projects.webhooks := file_all ProjectWebhook.ID (Projects.webhooks s) l |})) s.

Definition secret_key (x : Secret) : string := Projects.secretKey x.(Secret.Project) x.(Secret.Scope) x.(Secret.Key).

Definition loadSecrets : Projects.State → Loaded Projects.State :=
  file_rows (ListAllSecretsCtx db) (λ l s,
    {| s with Projects.secrets := file_all secret_key (Projects.secrets s) l |}).

(** ** Agents *)

Definition loadAgents : Agents.State → Loaded Agents.State :=
  file_rows (ListAgents db) (λ l s, {| s with Agents.agents := file_all Agent.ID (Agents.agents s) l |}).

Definition loadAgentBinaries : Agents.State → Loaded Agents.State :=
  file_rows (ListAgentBinaries db) (λ l s,
    {| s with Agents.agentBinaries := file_all AgentBinary.ID (Agents.agentBinaries s) l |}).

(** ** Deployments *)

Definition recent : nat := Z.to_nat 10000.

Definition loadDeployments : Deployments.State → Loaded Deployments.State :=
  file_rows (ListDeploymentsRecent db recent) (λ l s,
    {| s with Deployments.deployments := file_all DeploymentRecord.ID (Deployments.deployments s) l |}).

Definition deployment_ids (s : Deployments.State) : list string := (range (Deployments.deployments s)).*1.

(** [append] for every log; without one, the entry of the deployment is not made. *)
Definition append_log (depID : string) (s : Deployments.State) (l : DeploymentLog) : Deployments.State :=
  {| s with Deployments.deploymentLogs :=
       <[depID := entry (Deployments.deploymentLogs s) depID ++ [l]]> (Deployments.deploymentLogs s) |}.

Definition loadDeploymentLogs (s : Deployments.State) : Loaded Deployments.State :=
  for_each (deployment_ids s) (λ id, file_rows (ListDeploymentLogs db id) (λ l s, foldl (append_log id) s l)) s.

Definition load_rollback (id : string) (s : Deployments.State) : Loaded Deployments.State :=
  match GetLatestRollbackForDeployment db id with
  | Ok r => ({| s with Deployments.deploymentRollbacks :=
                 <[r.(DeploymentRollback.ID) := r]> (Deployments.deploymentRollbacks s) |}, Ok tt)
  | Err e => if bool_decide (e = Prelude.ErrNotFound) then (s, Ok tt) else (s, Err e)
  | Panic => (s, Panic)
  end.

Definition loadDeploymentRollbacks (s : Deployments.State) : Loaded Deployments.State :=
  for_each (deployment_ids s) load_rollback s.

Definition loadScheduledDeployments : Deployments.State → Loaded Deployments.State :=
  file_rows (ListPendingScheduledDeployments db now) (λ l s,
    {| s with Deployments.scheduledDeploys := file_all ScheduledDeployment.ID (Deployments.scheduledDeploys s) l |}).

(** ** Audit log, settings, blocked addresses *)

Definition setting_key (x : Setting) : string := Ops.settingKey x.(Setting.Category) x.(Setting.Key).

Definition loadSettings : Ops.State → Loaded Ops.State :=
  file_rows (ListAllSettings db) (λ l s, {| s with Ops.settings := file_all setting_key (Ops.settings s) l |}).

Definition loadAuditLogs : Ops.State → Loaded Ops.State :=
  file_rows (ListAuditLogs db recent 0) (λ l s, {| s with Ops.auditLogs := Ops.auditLogs s ++ l |}).

Definition loadBlockedIPs : Ops.State → Loaded Ops.State :=
  file_rows (rbind (ListBlockedIPs db (Z.to_nat 100000) 0 now) (λ '(l, _), Ok l)) (λ l s,
    {| s with Ops.blockedIPs := file_all BlockedIP.IPAddress (Ops.blockedIPs s) l |}).

Definition loadRateLimits (s : Ops.State) : Loaded Ops.State := (s, Ok tt).

(** ** Provisioning, host keys, jump servers, health checks *)

Definition loadProvisionJobs : Misc.State → Loaded Misc.State :=
  file_rows (ListPendingProvisionJobs db) (λ l s,
    {| s with Misc.provisionJobs := file_all ProvisionJob.ID (Misc.provisionJobs s) l |}).

Definition loadSSHHostKeys : Misc.State → Loaded Misc.State :=
  file_rows (ListSSHHostKeys db) (λ l s,
    {| s with Misc.sshHostKeys := file_all SSHHostKey.ID (Misc.sshHostKeys s) l |}).

Definition loadJumpServers : Misc.State → Loaded Misc.State :=
  file_rows (ListJumpServers db) (λ l s,
    {| s with Misc.jumpServers := file_all SSHJumpServer.ID (Misc.jumpServers s) l |}).

Definition loadHealthCheckConfigs : Misc.State → Loaded Misc.State :=
  file_rows (ListHealthCheckConfigs db) (λ l s,
    {| s with Misc.healthCheckConfigs := file_all HealthCheckConfig.ID (Misc.healthCheckConfigs s) l |}).

(** ** Security tables *)

Definition loadCertificateAuthorities : Security.State → Loaded Security.State :=
  file_if_found (ListCAs db) (λ l s,
    {| s with Security.certificateAuthorities := file_all CertificateAuthority.ID (Security.certificateAuthorities s) l |}).

Definition loadAgentCertificates : Security.State → Loaded Security.State :=
  file_if_found (ListAgentCerts db) (λ l s,
    {| s with Security.agentCertificates := file_all AgentCertificate.SerialNumber (Security.agentCertificates s) l |}).

Definition loadServerCertificates : Security.State → Loaded Security.State :=
  file_if_found (ListServerCerts db) (λ l s,
    {| s with Security.serverCertificates := file_all ServerCertificate.Hostname (Security.serverCertificates s) l |}).

Definition loadRegistrationTokens : Security.State → Loaded Security.State :=
  file_if_found (ListRegistrationTokens db) (λ l s,
    {| s with Security.registrationTokens := file_all RegistrationToken.Token (Security.registrationTokens s) l |}).

Definition loadSourceCredentials : Security.State → Loaded Security.State :=
  file_if_found (ListSourceCredentials db) (λ l s,
    {| s with Security.sourceCredentials := file_all SourceCredential.ID (Security.sourceCredentials s) l |}).

Definition loadRevokedCertificates : Security.State → Loaded Security.State :=
  file_if_found (ListRevokedCerts db) (λ l s,
    {| s with Security.revokedCertificates := file_all RevokedCertificate.SerialNumber (Security.revokedCertificates s) l |}).

Definition loadEncryptionKeys : Security.State → Loaded Security.State :=
  file_if_found (ListEncryptionKeys db) (λ l s,
    {| s with Security.encryptionKeys := file_all EncryptionKey.ID (Security.encryptionKeys s) l |}).

Definition loadSSHKeys : Security.State → Loaded Security.State :=
  file_if_found (ListSSHKeys db) (λ l s, {| s with Security.sshKeys := file_all SSHKey.ID (Security.sshKeys s) l |}).

Definition loadCertAuditEvents : Security.State → Loaded Security.State :=
  file_if_found (ListCertAuditEvents db (CertAuditFilter.mk "" "" None None 10000 0)) (λ l s,
    {| s with Security.certAuditEvents := Security.certAuditEvents s ++ l |}).

Definition loadACMECertificates : Security.State → Loaded Security.State :=
  file_if_found (ListACMECertificates db) (λ l s,
    {| s with Security.acmeCertificates := file_all ACMECertificate.Domain (Security.acmeCertificates s) l |}).

(** Two tables are read row by row: what was stored before a fault stays. *)
Fixpoint store_stream {S A} (store : S → A → S) (rows : list (result A)) (s : S) : Loaded S :=
  match rows with
  | [] => (s, Ok tt)
  | Ok a :: rows => store_stream store rows (store s a)
  | Err e :: _ => (s, Err e)
  | Panic :: _ => (s, Panic)
  end.

Definition store_account (s : Security.State) (a : ACMEAccount) : Security.State :=
  {| s with Security.acmeAccounts := <[a.(ACMEAccount.Email) := a]> (Security.acmeAccounts s) |}.

Definition loadACMEAccounts : Security.State → Loaded Security.State :=
  store_stream store_account
    (stream db "acme_accounts" "" (sort_Slice (asc ACMEAccount.ID) (t_acme_accounts db))).

Definition store_code (s : Security.State) (c : RecoveryCode) : Security.State :=
  let u := c.(RecoveryCode.UserID) in
  {| s with Security.recoveryCodes := <[u := entry (Security.recoveryCodes s) u ++ [c]]> (Security.recoveryCodes s) |}.

Definition loadRecoveryCodes : Security.State → Loaded Security.State :=
  store_stream store_code
    (stream db "recovery_codes" "" (sort_Slice (then_by (asc RecoveryCode.UserID) (asc RecoveryCode.ID)) (t_recovery_codes db))).

(** ** All of them *)

Definition loaders : list (string * (MemoryStore → Loaded MemoryStore)) :=
  [("users", on_users loadUsers);
   ("sessions", on_users loadSessions);
   ("api_keys", on_users loadAPIKeys);
   ("settings", on_ops loadSettings);
   ("project_types", on_projects loadProjectTypes);
   ("projects", on_projects loadProjects);
   ("webhooks", on_projects loadWebhooks);
   ("secrets", on_projects loadSecrets);
   ("agents", on_agents loadAgents);
   ("agent_binaries", on_agents loadAgentBinaries);
   ("deployments", on_dep loadDeployments);
   ("deployment_logs", on_dep loadDeploymentLogs);
   ("deployment_rollbacks", on_dep loadDeploymentRollbacks);
   ("scheduled_deployments", on_dep loadScheduledDeployments);
   ("audit_logs", on_ops loadAuditLogs);
   ("blocked_ips", on_ops loadBlockedIPs);
   ("rate_limits", on_ops loadRateLimits);
   ("provision_jobs", on_misc loadProvisionJobs);
   ("ssh_host_keys", on_misc loadSSHHostKeys);
   ("jump_servers", on_misc loadJumpServers);
   ("health_check_configs", on_misc loadHealthCheckConfigs);
   ("certificate_authorities", on_security loadCertificateAuthorities);
   ("agent_certificates", on_security loadAgentCertificates);
   ("server_certificates", on_security loadServerCertificates);
   ("registration_tokens", on_security loadRegistrationTokens);
   ("source_credentials", on_security loadSourceCredentials);
   ("revoked_certificates", on_security loadRevokedCertificates);
   ("encryption_keys", on_security loadEncryptionKeys);
   ("ssh_keys", on_security loadSSHKeys);
   ("cert_audit_events", on_security loadCertAuditEvents);
   ("acme_certificates", on_security loadACMECertificates);
   ("acme_accounts", on_security loadACMEAccounts);
   ("recovery_codes", on_security loadRecoveryCodes);
   ("recipe_components", on_recipes (Recipes.loadRecipeComponentsFromDB (t_recipe_components db)));
   ("playbooks", on_recipes (Recipes.loadPlaybooksFromDB (t_playbooks db)));
   ("playbook_activations", on_recipes (Recipes.loadPlaybookActivationsFromDB (t_playbook_activations db)));
   ("playbook_variable_bindings", on_recipes (Recipes.loadVariableBindingsFromDB (t_playbook_variable_bindings db)));
   ("raw_command_approvals", on_recipes (Recipes.loadRawApprovalsFromDB (t_raw_command_approvals db)))].

(** The first failure is the answer, with the name of its loader. *)
Fixpoint run_loaders (l : list (string * (MemoryStore → Loaded MemoryStore))) (s : MemoryStore)
    : MemoryStore * option (string * result unit) :=
  match l with
  | [] => (s, None)
  | (name, load) :: l => match load s with (s, Ok _) => run_loaders l s | (s, r) => (s, Some (name, r)) end
  end.

Definition LoadFromDB (s : MemoryStore) : MemoryStore * option (string * result unit) := run_loaders loaders s.

(** [CachedStore]: the store is filled once, from empty; a failure leaves no store. [Reload]
    runs the loaders over the store as it is. *)
Definition NewCachedStore : MemoryStore + (string * result unit) :=
  match LoadFromDB empty with (s, None) => inl s | (_, Some e) => inr e end.

Definition Reload (s : MemoryStore) : MemoryStore * option (string * result unit) := LoadFromDB s.

End loaders.

(** * Filing rows *)

Lemma file_all_in {A} (key : A → string) m l x :
  (∀ y, y ∈ l → key y = key x → y = x) → x ∈ l → file_all key m l !! key x = Some x.
Proof.
  intros Hi Hin. revert m. induction l as [|a l IH]; intros m; [by apply not_elem_of_nil in Hin|]. simpl.
  destruct (decide (key x ∈ key <$> l)) as [(y & Ey & Hy)%list_elem_of_fmap|Hn].
  - apply IH; [intros; apply Hi; [by right|done]|]. by rewrite <- (Hi y); [|by right|].
  - rewrite file_all_None by done. apply elem_of_cons in Hin as [->|Hl]; [by rewrite lookup_insert_eq|].
    by destruct Hn; apply list_elem_of_fmap_2.
Qed.

(** Rows of which no two different ones have the same key: each is found under its key. *)
Lemma file_all_iff {A} (key : A → string) l k x :
  (∀ y z, y ∈ l → z ∈ l → key y = key z → y = z) →
  file_all key ∅ l !! k = Some x ↔ x ∈ l ∧ key x = k.
Proof.
  intros Hi. split.
  - intros Hx. destruct (decide (k ∈ key <$> l)) as [(y & -> & Hy)%list_elem_of_fmap|Hn].
    + rewrite file_all_in in Hx; [by simplify_eq|by intros; apply Hi|done].
    + by rewrite file_all_None, lookup_empty in Hx.
  - intros [Hx <-]. apply file_all_in; [|done]. intros. by apply Hi.
Qed.

Lemma file_all_app {A} (key : A → string) m l l' : file_all key m (l ++ l') = file_all key (file_all key m l) l'.
Proof. apply foldl_app. Qed.

Lemma file_all_bind {A B} (key : A → string) (g : B → list A) m bs :
  foldl (λ m b, file_all key m (g b)) m bs = file_all key m (bs ≫= g).
Proof.
  revert m. induction bs as [|b bs IH]; intros m; [done|]. rewrite bind_cons, file_all_app. apply IH.
Qed.

(** The values of a map, under a function of them that keeps the key. *)
Lemma file_values {A B} (key : A → string) (key' : B → string) (f : A → B) (m : gmap string A) l :
  Security.keyed_by key m → (∀ a, key' (f a) = key a) → l ≡ₚ f <$> (map_to_list m).*2 →
  file_all key' ∅ l = f <$> m.
Proof.
  intros Hk Hf Hl. assert (∀ x, x ∈ l ↔ ∃ k a, m !! k = Some a ∧ x = f a) as Hin.
  { intros x. rewrite Hl, list_elem_of_fmap. split.
    - intros (a & -> & ([k a'] & -> & Ha%elem_of_map_to_list)%list_elem_of_fmap). eauto.
    - intros (k & a & Ha & ->). exists a. split; [done|]. apply list_elem_of_fmap. exists (k, a).
      by rewrite elem_of_map_to_list. }
  apply map_eq. intros k. apply option_eq. intros x. rewrite lookup_fmap, fmap_Some. rewrite file_all_iff.
  - rewrite Hin. split.
    + intros [(k' & a & Ha & ->) <-]. exists a. by rewrite Hf, (Hk _ _ Ha).
    + intros (a & Ha & ->). split; [eauto|]. by rewrite Hf, (Hk _ _ Ha).
  - intros y z (k1 & a & Ha & ->)%Hin (k2 & b & Hb & ->)%Hin. rewrite !Hf, (Hk _ _ Ha), (Hk _ _ Hb).
    intros ->. congruence.
Qed.

Lemma file_values_id {A} (key : A → string) (m : gmap string A) l :
  Security.keyed_by key m → l ≡ₚ (map_to_list m).*2 → file_all key ∅ l = m.
Proof.
  intros Hk Hl. rewrite (file_values key key id m l Hk); [by rewrite map_fmap_id|done|by rewrite list_fmap_id].
Qed.

(** Some of the values of a map. *)
Lemma file_filtered {A} (key : A → string) (P : A → Prop) `{∀ a, Decision (P a)} (m : gmap string A) l :
  Security.keyed_by key m → l ≡ₚ filter P (map_to_list m).*2 →
  file_all key ∅ l = filter (λ kv, P kv.2) m.
Proof.
  intros Hk Hl. assert (∀ x, x ∈ l ↔ P x ∧ m !! key x = Some x) as Hin.
  { intros x. rewrite Hl, list_elem_of_filter, list_elem_of_fmap. split.
    - intros (HP & [k a] & -> & Ha%elem_of_map_to_list). cbn in *. by rewrite (Hk _ _ Ha).
    - intros [HP Hx]. split; [done|]. exists (key x, x). by rewrite elem_of_map_to_list. }
  apply map_eq. intros k. apply option_eq. intros x. rewrite map_lookup_filter_Some. rewrite file_all_iff.
  - rewrite Hin. cbn. split; [by intros [[] <-]|]. intros [Hx HP]. by rewrite (Hk _ _ Hx).
  - intros y z [_ Hy]%Hin [_ Hz]%Hin E. rewrite E in Hy. congruence.
Qed.

Lemma for_each_ok {S} ids (load : string → S → Loaded S) (f : string → S → S) s :
  (∀ id s, load id s = (f id s, Ok tt)) → for_each ids load s = (foldl (λ s id, f id s) s ids, Ok tt).
Proof. intros Hf. revert s. induction ids as [|id ids IH]; intros s; [done|]. simpl. by rewrite Hf, IH. Qed.

(** ** Records in a heap *)

(** What an index of locations leads to. *)
Definition at_ {A} (heap : gmap nat A) (i : gmap string nat) (k : string) : option A := i !! k ≫= λ l, heap !! l.

Definition inside {A} (heap : gmap nat A) (i : gmap string nat) : Prop := ∀ k l, i !! k = Some l → l ∈ dom heap.

Lemma at_insert {A} (heap : gmap nat A) i l v k k' :
  inside heap i → l ∉ dom heap →
  at_ (<[l := v]> heap) (<[k := l]> i) k' = if decide (k' = k) then Some v else at_ heap i k'.
Proof.
  intros Hi Hl. unfold at_. destruct (decide (k' = k)) as [->|Hk].
  - rewrite lookup_insert_eq. cbn. apply lookup_insert_eq.
  - rewrite lookup_insert_ne by done. destruct (i !! k') as [l'|] eqn:E; [|done]. cbn. apply lookup_insert_ne.
    intros ->. by apply Hl, (Hi k').
Qed.

Lemma inside_insert {A} (heap : gmap nat A) i l v k :
  inside heap i → inside (<[l := v]> heap) (<[k := l]> i).
Proof.
  intros Hi k' l'. rewrite lookup_insert_Some, dom_insert. intros [[_ <-]|[_ ?%Hi]]; set_solver.
Qed.

(** One more location in the list of a key. *)
Definition listed {A} (heap : gmap nat A) (idx : gmap string (list nat)) (k : string) : list A :=
  omap (λ l, heap !! l) (entry idx k).

Definition lists_inside {A} (heap : gmap nat A) (idx : gmap string (list nat)) : Prop :=
  ∀ k l, l ∈ entry idx k → l ∈ dom heap.

Lemma omap_insert {A} (heap : gmap nat A) l v (ls : list nat) :
  l ∉ ls → omap (λ x, <[l := v]> heap !! x) ls = omap (λ x, heap !! x) ls.
Proof.
  induction ls as [|x ls IH]; [done|]. rewrite not_elem_of_cons. intros [Hx Hn]. specialize (IH Hn).
  cbn in *. by rewrite lookup_insert_ne, IH.
Qed.

Lemma listed_append {A} (heap : gmap nat A) idx l v k k' :
  lists_inside heap idx → l ∉ dom heap →
  listed (<[l := v]> heap) (<[k := entry idx k ++ [l]]> idx) k' =
  listed heap idx k' ++ (if decide (k' = k) then [v] else []).
Proof.
  intros Hi Hl. unfold listed. assert (∀ k'', l ∉ entry idx k'') as Hn by (intros k'' ?%Hi; done).
  destruct (decide (k' = k)) as [->|Hk].
  - rewrite entry_insert_eq, omap_app, omap_insert by done. simpl. by rewrite lookup_insert_eq.
  - by rewrite entry_insert_ne, omap_insert, app_nil_r.
Qed.

Lemma lists_inside_append {A} (heap : gmap nat A) idx l v k :
  lists_inside heap idx → lists_inside (<[l := v]> heap) (<[k := entry idx k ++ [l]]> idx).
Proof.
  intros Hi k' l'. rewrite dom_insert. destruct (decide (k' = k)) as [->|Hk].
  - rewrite entry_insert_eq. intros [?%Hi|?]%elem_of_app; set_solver.
  - rewrite entry_insert_ne by done. intros ?%Hi. set_solver.
Qed.

(** ** Users and their keys *)

Definition key_at (s : Users.State) : string → option APIKey := at_ (Users.keyHeap s) (Users.apiKeys s).
Definition keys_of (s : Users.State) : string → list APIKey := listed (Users.keyHeap s) (Users.apiKeysByUser s).

Definition keys_inside (s : Users.State) : Prop :=
  inside (Users.keyHeap s) (Users.apiKeys s) ∧ lists_inside (Users.keyHeap s) (Users.apiKeysByUser s).

Lemma store_key_spec u s k :
  keys_inside s →
  let s' := store_key u s k in
  keys_inside s' ∧
  (∀ h, key_at s' h = if decide (h = k.(APIKey.KeyHash)) then Some k else key_at s h) ∧
  (∀ v, keys_of s' v = keys_of s v ++ (if decide (v = u) then [k] else [])) ∧
  Users.users s' = Users.users s ∧ Users.usersByName s' = Users.usersByName s ∧ Users.sessions s' = Users.sessions s.
Proof.
  intros [Hi Hl]. cbv zeta. unfold store_key. pose proof (is_fresh (dom (Users.keyHeap s))) as Hf.
  set (l := fresh (dom (Users.keyHeap s))) in *. split; [|split; [|split]]; [|intros h|intros v|done].
  - split; [by apply inside_insert|by apply lists_inside_append].
  - unfold key_at. cbn. by apply at_insert.
  - unfold keys_of. cbn. by apply listed_append.
Qed.

(** The keys of several users, [g u] those of [u]. *)
Lemma store_keys_spec (g : string → list APIKey) ids s m :
  keys_inside s → (∀ h, key_at s h = m !! h) →
  let s' := foldl (λ s id, foldl (store_key id) s (g id)) s ids in
  keys_inside s' ∧
  (∀ h, key_at s' h = file_all APIKey.KeyHash m (ids ≫= g) !! h) ∧
  (∀ v, keys_of s' v = keys_of s v ++ (ids ≫= λ id, if decide (v = id) then g id else [])) ∧
  Users.users s' = Users.users s ∧ Users.usersByName s' = Users.usersByName s ∧ Users.sessions s' = Users.sessions s.
Proof.
  cbv zeta. revert s m. induction ids as [|id ids IH]; intros s m Hin Hm.
  { simpl. split_and!; try done. intros v. by rewrite app_nil_r. }
  rewrite !bind_cons. cbn [foldl]. rewrite file_all_app.
  assert (let s1 := foldl (store_key id) s (g id) in
    keys_inside s1 ∧ (∀ h, key_at s1 h = file_all APIKey.KeyHash m (g id) !! h) ∧
    (∀ v, keys_of s1 v = keys_of s v ++ (if decide (v = id) then g id else [])) ∧
    Users.users s1 = Users.users s ∧ Users.usersByName s1 = Users.usersByName s ∧ Users.sessions s1 = Users.sessions s)
    as (H1 & H2 & H3 & H4 & H5 & H6).
  { clear IH. cbv zeta. generalize (g id) as l. intros l. revert s m Hin Hm. induction l as [|k l IH]; intros s m Hin Hm.
    - simpl. split_and!; try done. intros v. destruct (decide _); by rewrite app_nil_r.
    - destruct (store_key_spec id s k Hin) as (Hin1 & Ha1 & Hl1 & E1 & E2 & E3).
      destruct (IH (store_key id s k) (<[k.(APIKey.KeyHash) := k]> m) Hin1) as (Hin2 & Ha2 & Hl2 & F1 & F2 & F3).
      { intros h. rewrite Ha1. destruct (decide _) as [->|]; [by rewrite lookup_insert_eq|]. by rewrite lookup_insert_ne. }
      simpl. split_and!; try done; try congruence. intros v. rewrite Hl2, Hl1, <- app_assoc. f_equal.
      by destruct (decide _). }
  destruct (IH _ _ H1 H2) as (F1 & F2 & F3 & F4 & F5 & F6). split_and!; try done; try congruence.
  intros v. by rewrite F3, H3, <- app_assoc, bind_cons.
Qed.

(** ** Projects in their heap *)

Definition project_by_id (s : Projects.State) : string → option Project := at_ (Projects.projHeap s) (Projects.projects s).
Definition project_by_name (s : Projects.State) : string → option Project :=
  at_ (Projects.projHeap s) (Projects.projectsByName s).

Definition projects_inside (s : Projects.State) : Prop :=
  inside (Projects.projHeap s) (Projects.projects s) ∧ inside (Projects.projHeap s) (Projects.projectsByName s).

Lemma store_projects_spec l s m m' :
  projects_inside s → (∀ id, project_by_id s id = m !! id) → (∀ n, project_by_name s n = m' !! n) →
  let s' := foldl (λ s p, Projects.store_project p s) s l in
  projects_inside s' ∧
  (∀ id, project_by_id s' id = file_all Project.ID m l !! id) ∧
  (∀ n, project_by_name s' n = file_all Project.Name m' l !! n) ∧
  Projects.projectTypes s' = Projects.projectTypes s ∧ Projects.webhooks s' = Projects.webhooks s ∧
  Projects.secrets s' = Projects.secrets s ∧ Projects.dep s' = Projects.dep s.
Proof.
  cbv zeta. revert s m m'. induction l as [|p l IH]; intros s m m' [Hi Hn] Hm Hm'; [by split_and!|].
  cbn [foldl]. pose proof (is_fresh (dom (Projects.projHeap s))) as Hf.
  destruct (IH (Projects.store_project p s) (<[p.(Project.ID) := p]> m) (<[p.(Project.Name) := p]> m'))
    as (F1 & F2 & F3 & F4 & F5 & F6 & F7).
  - split; by apply inside_insert.
  - intros id. unfold project_by_id, Projects.store_project. cbn. rewrite at_insert by done.
    destruct (decide _) as [->|]; [by rewrite lookup_insert_eq|]. rewrite lookup_insert_ne by done. apply Hm.
  - intros n. unfold project_by_name, Projects.store_project. cbn. rewrite at_insert by done.
    destruct (decide _) as [->|]; [by rewrite lookup_insert_eq|]. rewrite lookup_insert_ne by done. apply Hm'.
  - by split_and!.
Qed.

(** The values an index leads to. *)
Definition all_at {A} (heap : gmap nat A) (i : gmap string nat) : list A := omap (λ l, heap !! l) (map_to_list i).*2.

Lemma elem_of_all_at {A} (heap : gmap nat A) i x : x ∈ all_at heap i ↔ ∃ k, at_ heap i k = Some x.
Proof.
  unfold all_at, at_. rewrite list_elem_of_omap. split.
  - intros (l & ([k l'] & -> & Hl%elem_of_map_to_list)%list_elem_of_fmap & Hx). exists k. cbn in *. by rewrite Hl.
  - intros (k & (l & Hl & Hx)%bind_Some). exists l. split; [|done]. apply list_elem_of_fmap. exists (k, l).
    by rewrite elem_of_map_to_list.
Qed.

(** ** The values and the keys of a map *)

Abbreviation values m := ((map_to_list m).*2).

Lemma elem_of_values {A} (m : gmap string A) x : x ∈ values m ↔ ∃ k, m !! k = Some x.
Proof.
  rewrite list_elem_of_fmap. split.
  - intros ([k y] & -> & Hy%elem_of_map_to_list). eauto.
  - intros [k Hk]. exists (k, x). by rewrite elem_of_map_to_list.
Qed.

Lemma elem_of_keys `{MapRange} {A} (m : gmap string A) k : k ∈ (range m).*1 ↔ is_Some (m !! k).
Proof.
  rewrite list_elem_of_fmap. split.
  - intros ([k' x] & -> & Hx%elem_of_range). eauto.
  - intros [x Hx]. exists (k, x). by rewrite elem_of_range.
Qed.

Lemma NoDup_omap_strong {A B} (f : A → option B) (l : list A) :
  NoDup l → (∀ a a' b, a ∈ l → a' ∈ l → f a = Some b → f a' = Some b → a = a') → NoDup (omap f l).
Proof.
  induction l as [|a l IH]; [constructor|]. rewrite NoDup_cons. intros [Ha Hl] Hi. cbn.
  assert (NoDup (omap f l)) as Hn by (apply IH; [done|]; intros x x' b ??; apply Hi; by right).
  destruct (f a) as [b|] eqn:E; [|done]. apply NoDup_cons. split; [|done].
  intros (a' & Ha' & E')%list_elem_of_omap. apply Ha. rewrite (Hi a a' b); [done|left|by right|done|done].
Qed.

Lemma NoDup_values {A} (m : gmap string A) :
  (∀ k k' x, m !! k = Some x → m !! k' = Some x → k = k') → NoDup (values m).
Proof.
  intros Hi. apply NoDup_fmap_2_strong; [|apply NoDup_map_to_list].
  intros [k x] [k' x'] Hx%elem_of_map_to_list Hx'%elem_of_map_to_list. cbn. intros ->. by rewrite (Hi k k' x').
Qed.

(** The rows of every known user. *)
Lemma elem_of_bind_keys `{MapRange} {A B} (m : gmap string A) (g : string → list B) x :
  x ∈ (range m).*1 ≫= g ↔ ∃ k, is_Some (m !! k) ∧ x ∈ g k.
Proof.
  rewrite list_elem_of_bind. split.
  - intros (k & Hx & Hk%elem_of_keys). eauto.
  - intros (k & Hk & Hx). exists k. by rewrite elem_of_keys.
Qed.

Lemma bind_one {A} (ks : list string) k (l : list A) :
  NoDup ks → (ks ≫= λ k', if decide (k = k') then l else []) = if decide (k ∈ ks) then l else [].
Proof.
  induction ks as [|k' ks IH]; [by rewrite decide_False by set_solver|]. rewrite NoDup_cons. intros [Hn Hd].
  rewrite bind_cons, IH by done. destruct (decide (k = k')) as [->|Hne].
  - rewrite (decide_False (P := k' ∈ ks)) by done. rewrite decide_True by left. by rewrite app_nil_r.
  - destruct (decide (k ∈ ks)); [rewrite decide_True by by right|rewrite decide_False by set_solver]; done.
Qed.

(** The records of the lists a map holds under the key of the records. *)
Lemma filter_concat {A} (key : A → string) (m : gmap string (list A)) id :
  (∀ k l, m !! k = Some l → Forall (λ x, key x = k) l) →
  filter (λ x, key x = id) (concat (values m)) ≡ₚ entry m id.
Proof.
  revert id. induction m as [|k l m Hk IH] using map_ind; intros id Hm.
  { unfold entry. by rewrite lookup_empty, map_to_list_empty. }
  rewrite (map_to_list_insert m k l Hk). cbn [fmap list_fmap concat snd]. rewrite filter_app.
  assert (∀ k' l', m !! k' = Some l' → Forall (λ x, key x = k') l') as Hm'.
  { intros k' l' E. apply Hm. rewrite lookup_insert_ne; [done|]. intros ->. congruence. }
  rewrite (IH id Hm'). pose proof (Hm k l (lookup_insert_eq _ _ _)) as Hl. destruct (decide (id = k)) as [->|Hne].
  - rewrite entry_insert_eq. assert (filter (λ x, key x = k) l = l) as ->.
    { clear -Hl. induction Hl as [|x l Hx _ IH]; [done|]. rewrite filter_cons_True by done. by rewrite IH. }
    unfold entry. rewrite Hk. cbn. by rewrite app_nil_r.
  - rewrite entry_insert_ne by done. assert (filter (λ x, key x = id) l = []) as ->; [|done].
    clear -Hl Hne. induction Hl as [|x l Hx _ IH]; [done|]. rewrite filter_cons_False; [done|congruence].
Qed.

Lemma answer_ok {A} db q arg (l : list A) : (∀ q arg, fails db q arg = None) → Queries.answer db q arg l = Ok l.
Proof. intros Hf. unfold Queries.answer. by rewrite Hf. Qed.

Lemma sort_nil `{SliceSort} {A} (less : A → A → bool) : sort_Slice less [] = [].
Proof. apply Permutation_nil. symmetry. apply sort_perm. Qed.

Lemma in_take {A} n (l : list A) x : x ∈ take n l → x ∈ l.
Proof. intros Hx. rewrite <- (take_drop n l). apply elem_of_app. by left. Qed.

(** The first of a sort by time, newest first, is a newest one; what [LIMIT] leaves out is
    not newer than what it keeps. *)
Lemma newest_less_order {A} (key : A → time) : less_order (newest key).
Proof. unfold newest, After. split; intros *; lia. Qed.

Lemma newest_first `{SliceSort} {A} (key : A → time) (l : list A) n x y :
  x ∈ take n (sort_Slice (newest key) l) → y ∈ drop n (sort_Slice (newest key) l) → key y ≤ key x.
Proof.
  intros Hx Hy. pose proof (sort_sorted _ (newest key) l (newest_less_order key)) as Hs.
  rewrite <- (take_drop n (sort_Slice (newest key) l)) in Hs.
  generalize dependent (take n (sort_Slice (newest key) l)). intros l1 Hx Hs.
  generalize dependent (drop n (sort_Slice (newest key) l)). intros l2 Hy Hs.
  induction l1 as [|a l1 IH]; [by apply not_elem_of_nil in Hx|]. cbn in Hs. apply StronglySorted_inv in Hs as [Hs Ha].
  apply elem_of_cons in Hx as [->|Hx]; [|by apply IH].
  rewrite Forall_forall in Ha. specialize (Ha y (proj2 (elem_of_app _ _ _) (or_intror Hy))).
  unfold newest, After in Ha. apply Z.ltb_ge in Ha. lia.
Qed.

Lemma newest_head `{SliceSort} {A} (key : A → time) (l : list A) x y :
  x ∈ take 1 (sort_Slice (newest key) l) → y ∈ l → key y ≤ key x.
Proof.
  intros Hx Hy. rewrite <- (elem_of_sort (newest key) l), <- (take_drop 1 (sort_Slice (newest key) l)) in Hy.
  apply elem_of_app in Hy as [Hy|Hy]; [|by apply (newest_first key l 1)].
  destruct (sort_Slice (newest key) l); [by apply not_elem_of_nil in Hx|].
  cbn in Hx, Hy. apply list_elem_of_singleton in Hx as ->, Hy as ->. lia.
Qed.

Lemma oldest_sorted `{SliceSort} {A} (key : A → time) (l : list A) :
  StronglySorted (λ x y, key x ≤ key y) (sort_Slice (oldest key) l).
Proof.
  eapply StronglySorted_ind with (P := StronglySorted (λ x y, key x ≤ key y)); [constructor| |apply sort_sorted].
  - intros a l' _ IH Ha. constructor; [done|]. eapply Forall_impl; [exact Ha|]. cbn. unfold oldest, Before. intros x. lia.
  - unfold oldest, Before. split; intros *; lia.
Qed.

(** ** What the database holds of a store *)

Section restart.
Context `{MapRange, SliceSort, JSONMap}.
Import Queries.

(** A store as its operations keep it. *)
Record wf (s : MemoryStore) : Prop := {
  wf_users : Users.wf (users s);
  wf_projects : Projects.wf (projects s);
  wf_agents : Agents.wf (agents s);
  wf_settings : Security.keyed_by setting_key (Ops.settings (ops s));
  wf_blocked : Security.keyed_by BlockedIP.IPAddress (Ops.blockedIPs (ops s));
  wf_host_keys : Security.keyed_by SSHHostKey.ID (Misc.sshHostKeys (misc s));
  wf_jump_servers : Security.keyed_by SSHJumpServer.ID (Misc.jumpServers (misc s));
  wf_health : Security.keyed_by HealthCheckConfig.ID (Misc.healthCheckConfigs (misc s));
  wf_security : Security.wf (security s);
  wf_recipes : Recipes.wf (recipes s)
}.

(** The row [executeAgentOp] writes. *)
Definition agent_row (a : Agent) : AgentRow :=
  mkAgentRow a (labels_text a.(Agent.Labels)) (Some a.(Agent.UpdatePolicy)).

(** Rows of which no two have the same key. *)
Definition unique {A} (key : A → string) (rows : list A) : Prop :=
  ∀ x y, x ∈ rows → y ∈ rows → key x = key y → x = y.

(** Every row of a table the executors of the write-behind write is a record of the store
    and the other way round, in any order.  The tables they do not write
    ([Security.unwritten_tables], and the provisioning jobs, which are queued for a table
    the schema does not have) hold whatever else wrote them. *)
Record mirrors (db : Database) (s : MemoryStore) : Prop := {
  m_fails : ∀ q arg, fails db q arg = None;
  m_users : t_users db ≡ₚ values (Users.users (users s));
  m_sessions : t_sessions db ≡ₚ values (Users.sessions (users s));
  m_api_keys : t_api_keys db ≡ₚ all_at (Users.keyHeap (users s)) (Users.apiKeys (users s));
  m_settings : t_settings db ≡ₚ values (Ops.settings (ops s));
  m_project_types : t_project_types db ≡ₚ values (Projects.projectTypes (projects s));
  m_projects : t_projects db ≡ₚ all_at (Projects.projHeap (projects s)) (Projects.projects (projects s));
  m_webhooks : t_project_webhooks db ≡ₚ values (Projects.webhooks (projects s));
  m_secrets : t_secrets db ≡ₚ values (Projects.secrets (projects s));
  m_agents : t_agents db ≡ₚ agent_row <$> values (Agents.agents (agents s));
  m_binaries : t_agent_binaries db ≡ₚ values (Agents.agentBinaries (agents s));
  m_deployments : t_deployments db ≡ₚ (λ d, mkDeploymentRow d None None) <$>
                    values (Deployments.deployments (Projects.dep (projects s)));
  m_logs : t_deployment_logs db ≡ₚ concat (values (Deployments.deploymentLogs (Projects.dep (projects s))));
  m_rollbacks : t_deployment_rollbacks db ≡ₚ values (Deployments.deploymentRollbacks (Projects.dep (projects s)));
  m_audit : t_audit_logs db ≡ₚ Ops.auditLogs (ops s);
  m_blocked : t_blocked_ips db ≡ₚ (λ b, (b, false)) <$> values (Ops.blockedIPs (ops s));
  m_jobs : unique ProvisionJob.ID (t_agent_provision_jobs db);
  m_host_keys : t_ssh_host_keys db ≡ₚ values (Misc.sshHostKeys (misc s));
  m_jump_servers : t_ssh_jump_servers db ≡ₚ values (Misc.jumpServers (misc s));
  m_health : t_health_check_configs db ≡ₚ values (Misc.healthCheckConfigs (misc s));
  m_cas : unique CertificateAuthority.ID (t_certificate_authorities db);
  m_certs : unique AgentCertificate.SerialNumber (t_agent_certificates db);
  m_server_certs : unique ServerCertificate.Hostname (t_server_certificates db);
  m_tokens : unique RegistrationToken.Token (t_registration_tokens db);
  m_credentials : unique SourceCredential.ID (t_source_credentials db);
  m_revoked : unique RevokedCertificate.SerialNumber (t_revoked_certificates db);
  m_keys : unique EncryptionKey.ID (t_encryption_keys db);
  m_ssh_keys : unique SSHKey.ID (t_ssh_keys db);
  m_acme : t_acme_certificates db ≡ₚ values (Security.acmeCertificates (security s));
  m_accounts : t_acme_accounts db ≡ₚ values (Security.acmeAccounts (security s));
  m_codes : t_recovery_codes db ≡ₚ concat (values (Security.recoveryCodes (security s)));
  m_components : ∃ l, t_recipe_components db = Ok <$> l ∧ l ≡ₚ values (Recipes.recipeComponents (recipes s));
  m_playbooks : ∃ l, t_playbooks db = Ok <$> l ∧ l ≡ₚ values (Recipes.playbooks (recipes s));
  m_activations : ∃ l, t_playbook_activations db = Ok <$> l ∧ l ≡ₚ values (Recipes.playbookActivations (recipes s));
  m_bindings : ∃ l, t_playbook_variable_bindings db = Ok <$> l ∧ l ≡ₚ values (Recipes.variableBindings (recipes s));
  m_approvals : ∃ l, t_raw_command_approvals db = Ok <$> l ∧ l ≡ₚ values (Recipes.rawApprovals (recipes s))
}.

Context (db : Database) (now : time).

(** *** Users, sessions and API keys *)

Record restored_users (old new : Users.State) : Prop := {
  ru_users : Users.users new = Users.users old;
  ru_names : Users.usersByName new = Users.usersByName old;
  ru_sessions : ∀ t x', Users.sessions new !! t = Some x' ↔
    ∃ x, Users.sessions old !! t = Some x ∧ is_Some (Users.users old !! x.(Session.UserID)) ∧
      now < x.(Session.ExpiresAt) ∧ x' = {| x with Session.LastUsed := 0 |};
  ru_keys : ∀ h k', key_at new h = Some k' ↔
    ∃ k, key_at old h = Some k ∧ is_Some (Users.users old !! k.(APIKey.UserID)) ∧ k' = scan_api_key k;
  ru_user_keys : ∀ u, keys_of new u ≡ₚ if decide (is_Some (Users.users old !! u)) then scan_api_key <$> keys_of old u else []
}.

Lemma users_by_name old l :
  Users.wf old → l ≡ₚ values (Users.users old) → file_all User.Username ∅ l = Users.usersByName old.
Proof.
  intros [Hu Hn _ _ _ _ _] Hl. apply (Recipes.reload_key_index User.ID User.Username (Users.users old)); [|done].
  split; [intros id u E; by destruct (Hu _ _ E)|intros n u E; by destruct (Hn _ _ E)].
Qed.

(** The keys of a user are those its list holds. *)
Lemma keys_by_user old u l :
  Users.wf old → l ≡ₚ all_at (Users.keyHeap old) (Users.apiKeys old) →
  filter (λ k, k.(APIKey.UserID) = u) l ≡ₚ keys_of old u.
Proof.
  intros [_ _ _ Hk Ho Hd _] ->. apply NoDup_Permutation.
  - apply NoDup_filter, NoDup_omap_strong.
    + apply NoDup_values. intros h h' x (k & E & <- & _)%Hk (k' & E' & <- & _)%Hk. congruence.
    + intros x x' k (h & Hh)%elem_of_values (h' & Hh')%elem_of_values E E'.
      destruct (Hk _ _ Hh) as (k1 & E1 & <- & _). destruct (Hk _ _ Hh') as (k2 & E2 & <- & _). congruence.
  - apply NoDup_omap_strong; [apply Hd|]. intros x x' k (k1 & E1 & _ & F1)%Ho (k2 & E2 & _ & F2)%Ho E E'. congruence.
  - intros k. rewrite list_elem_of_filter, elem_of_all_at. unfold keys_of, listed, at_. rewrite list_elem_of_omap. split.
    + intros [<- (h & (x & Hx & E)%bind_Some)]. destruct (Hk _ _ Hx) as (k' & E' & _ & _ & Hin). exists x.
      rewrite E in E'. by injection E' as <-.
    + intros (x & Hx & E). destruct (Ho _ _ Hx) as (k' & E' & Hu & F). rewrite E in E'. injection E' as <-.
      split; [done|]. exists (k.(APIKey.KeyHash)). by rewrite F.
Qed.


(** What the queries of a user answer. *)
Definition user_sessions (id : string) : list Session :=
  scan_session <$> sort_Slice (newest Session.CreatedAt)
    (filter (λ x, x.(Session.UserID) = id ∧ now < x.(Session.ExpiresAt)) (t_sessions db)).

Definition user_keys (id : string) : list APIKey :=
  scan_api_key <$> sort_Slice (newest APIKey.CreatedAt) (filter (λ k, k.(APIKey.UserID) = id) (t_api_keys db)).

Lemma elem_of_user_sessions old id x :
  t_sessions db ≡ₚ values (Users.sessions old) →
  x ∈ user_sessions id ↔
  ∃ t y, Users.sessions old !! t = Some y ∧ y.(Session.UserID) = id ∧ now < y.(Session.ExpiresAt) ∧ x = scan_session y.
Proof.
  intros Hr. unfold user_sessions. rewrite list_elem_of_fmap. setoid_rewrite elem_of_sort.
  setoid_rewrite list_elem_of_filter. setoid_rewrite Hr. setoid_rewrite elem_of_values. naive_solver.
Qed.

Lemma elem_of_user_keys old id k :
  t_api_keys db ≡ₚ all_at (Users.keyHeap old) (Users.apiKeys old) →
  k ∈ user_keys id ↔ ∃ h y, key_at old h = Some y ∧ y.(APIKey.UserID) = id ∧ k = scan_api_key y.
Proof.
  intros Hr. unfold user_keys. rewrite list_elem_of_fmap. setoid_rewrite elem_of_sort.
  setoid_rewrite list_elem_of_filter. setoid_rewrite Hr. setoid_rewrite elem_of_all_at. unfold key_at. naive_solver.
Qed.

Lemma loadSessions_eq s :
  (∀ q arg, fails db q arg = None) →
  loadSessions db now s =
  ({| s with Users.sessions := file_all Session.Token (Users.sessions s) (user_ids s ≫= user_sessions) |}, Ok tt).
Proof.
  intros Hf. unfold loadSessions. rewrite (for_each_ok _ _ (λ id s,
    {| s with Users.sessions := file_all Session.Token (Users.sessions s) (user_sessions id) |})).
  - f_equal. generalize (user_ids s) as ids. intros ids. revert s. induction ids as [|id ids IH]; intros s; [by destruct s|].
    rewrite bind_cons, file_all_app. cbn [foldl]. by rewrite IH.
  - intros id x. unfold ListUserSessions. by rewrite answer_ok.
Qed.

Lemma loadAPIKeys_eq s :
  (∀ q arg, fails db q arg = None) →
  loadAPIKeys db s = (foldl (λ s id, foldl (store_key id) s (user_keys id)) s (user_ids s), Ok tt).
Proof.
  intros Hf. unfold loadAPIKeys. apply for_each_ok. intros id x. unfold ListAPIKeys. by rewrite answer_ok.
Qed.

Lemma key_at_hash old h k : Users.wf old → key_at old h = Some k → k.(APIKey.KeyHash) = h.
Proof.
  intros [_ _ _ Hk _ _ _] (l & Hl & E)%bind_Some. destruct (Hk _ _ Hl) as (k' & E' & <- & _). congruence.
Qed.

Lemma load_users old :
  Users.wf old → (∀ q arg, fails db q arg = None) → t_users db ≡ₚ values (Users.users old) →
  t_sessions db ≡ₚ values (Users.sessions old) →
  t_api_keys db ≡ₚ all_at (Users.keyHeap old) (Users.apiKeys old) →
  ∃ s1 s2 s3, loadUsers db Users.empty = (s1, Ok tt) ∧ loadSessions db now s1 = (s2, Ok tt) ∧
    loadAPIKeys db s2 = (s3, Ok tt) ∧ restored_users old s3.
Proof.
  intros Hw Hf Hu Hs Hk. pose proof Hw as [Wu Wn Ws _ _ _ _].
  assert (Hu' : sort_Slice (asc User.Username) (t_users db) ≡ₚ values (Users.users old)) by by rewrite sort_perm.
  unfold loadUsers, ListUsers. rewrite answer_ok by done. do 3 eexists. split; [reflexivity|]. cbn.
  rewrite (users_by_name old), (file_values_id User.ID (Users.users old)); [|intros id u E; by destruct (Wu _ _ E)|done..].
  split; [by apply loadSessions_eq|]. split; [by apply loadAPIKeys_eq|]. cbn. unfold user_ids. cbn.
  set (ids := (range (Users.users old)).*1). match goal with |- restored_users _ (foldl _ ?x _) => set (s2 := x) end.
  destruct (store_keys_spec user_keys ids s2 ∅) as (_ & Ha & Hl & E1 & E2 & E3).
  { split; [intros h l E|intros u l E]; cbn in E; [done|by apply not_elem_of_nil in E]. } { done. }
  split; [by rewrite E1|by rewrite E2|..].
  - intros t x'. rewrite E3. unfold s2. cbn [Users.sessions]. unfold ids. rewrite file_all_iff.
    + rewrite elem_of_bind_keys. setoid_rewrite (elem_of_user_sessions old); [|done..]. split.
      * intros [(u & Hex & t' & y & Hy & <- & Hle & ->) <-]. exists y. destruct (Ws _ _ Hy) as (Ht & Hid & _). cbn.
        split_and!; [congruence|done..|]. unfold scan_session. by rewrite Hid, <- Ht; destruct y.
      * intros (y & Hy & Hex & Hle & ->). destruct (Ws _ _ Hy) as (Ht & Hid & _). split; [|done].
        exists y.(Session.UserID). split; [done|]. exists t, y. split_and!; [done..|].
        unfold scan_session. by rewrite Hid, <- Ht; destruct y.
    + intros a b Ha' Hb'. rewrite elem_of_bind_keys in Ha', Hb'.
      destruct Ha' as (u & _ & (t1 & y & Hy & _ & _ & ->)%(elem_of_user_sessions old)); [|done].
      destruct Hb' as (v & _ & (t2 & z & Hz & _ & _ & ->)%(elem_of_user_sessions old)); [|done].
      destruct (Ws _ _ Hy) as (_ & Hi & _), (Ws _ _ Hz) as (_ & Hj & _). cbn. congruence.
  - intros h k'. rewrite Ha. unfold ids. rewrite file_all_iff.
    + rewrite elem_of_bind_keys. setoid_rewrite (elem_of_user_keys old); [|done..]. split.
      * intros [(u & Hex & h' & y & Hy & <- & ->) <-]. exists y. pose proof (key_at_hash _ _ _ Hw Hy) as <-. done.
      * intros (y & Hy & Hex & ->). split; [|exact (key_at_hash _ _ _ Hw Hy)]. eauto 10.
    + intros a b Ha' Hb'. rewrite elem_of_bind_keys in Ha', Hb'.
      destruct Ha' as (u & _ & (t1 & y & Hy & _ & ->)%(elem_of_user_keys old)); [|done].
      destruct Hb' as (v & _ & (t2 & z & Hz & _ & ->)%(elem_of_user_keys old)); [|done].
      cbn. intros E. pose proof (key_at_hash _ _ _ Hw Hy). pose proof (key_at_hash _ _ _ Hw Hz). congruence.
  - intros u. rewrite Hl. cbn [app]. unfold keys_of at 1, listed at 1. cbn.
    transitivity (ids ≫= λ id, if decide (u = id) then user_keys u else []).
    { apply reflexive_eq, list_bind_ext; [|done]. intros id. by destruct (decide _) as [->|]. }
    rewrite bind_one by apply range_NoDup_keys.
    destruct (decide (u ∈ ids)) as [Hi|Hi].
    + rewrite decide_True by by apply elem_of_keys in Hi. unfold user_keys. rewrite sort_perm. by rewrite (keys_by_user old).
    + rewrite decide_False; [done|]. intros Hx. by apply Hi, elem_of_keys.
Qed.

(** *** Projects, types, webhooks and secrets *)

Definition type_count (old : Projects.State) (id : string) : Z :=
  len (filter (λ p, p.(Project.TypeID) = Some id) (all_at (Projects.projHeap old) (Projects.projects old))).

Record restored_projects (old new : Projects.State) : Prop := {
  rp_types : Projects.projectTypes new =
    (λ pt, {| pt with ProjectType.ProjectCount := type_count old pt.(ProjectType.ID) |}) <$> Projects.projectTypes old;
  rp_ids : ∀ id, project_by_id new id = scan_project <$> project_by_id old id;
  rp_names : ∀ n, project_by_name new n = scan_project <$> project_by_name old n;
  rp_webhooks : Projects.webhooks new =
    filter (λ kw, is_Some (project_by_id old kw.2.(ProjectWebhook.ProjectID))) (Projects.webhooks old);
  rp_secrets : Projects.secrets new = scan_secret <$> Projects.secrets old
}.

Definition project_hooks (id : string) : list ProjectWebhook :=
  sort_Slice (asc ProjectWebhook.Provider) (filter (λ w, w.(ProjectWebhook.ProjectID) = id) (t_project_webhooks db)).

Lemma loadWebhooks_eq s :
  (∀ q arg, fails db q arg = None) →
  loadWebhooks db s =
  ({| s with Projects.webhooks := file_all ProjectWebhook.ID (Projects.webhooks s) (project_ids s ≫= project_hooks) |}, Ok tt).
Proof.
  intros Hf. unfold loadWebhooks. rewrite (for_each_ok _ _ (λ id s,
    {| s with Projects.webhooks := file_all ProjectWebhook.ID (Projects.webhooks s) (project_hooks id) |})).
  - f_equal. generalize (project_ids s) as ids. intros ids. revert s. induction ids as [|id ids IH]; intros s; [by destruct s|].
    rewrite bind_cons, file_all_app. cbn [foldl]. by rewrite IH.
  - intros id x. unfold ListProjectWebhooks. by rewrite answer_ok.
Qed.

(** Projects are found under their identifier and their name, and nothing else is. *)
Lemma project_at old id p :
  Projects.indexed old → project_by_id old id = Some p ↔
  p.(Project.ID) = id ∧ project_by_name old p.(Project.Name) = Some p.
Proof.
  intros [Hi Hn]. unfold project_by_id, project_by_name, at_. split.
  - intros (l & Hl & E)%bind_Some. destruct (Hi _ _ Hl) as (p' & E' & Hid & Hb). simplify_eq. split; [done|].
    by rewrite Hb.
  - intros [<- (l & Hl & E)%bind_Some]. destruct (Hn _ _ Hl) as (p' & E' & _ & Hb). simplify_eq. by rewrite Hb.
Qed.

Lemma project_named old n p : Projects.indexed old → project_by_name old n = Some p → p.(Project.Name) = n.
Proof.
  intros [Hi Hn] (l & Hl & E)%bind_Some. destruct (Hn _ _ Hl) as (p' & E' & ? & _). by simplify_eq.
Qed.

Definition project_rows : list Project := scan_project <$> sort_Slice (asc Project.Name) (t_projects db).

Lemma elem_of_project_rows old x :
  t_projects db ≡ₚ all_at (Projects.projHeap old) (Projects.projects old) →
  x ∈ project_rows ↔ ∃ id p, project_by_id old id = Some p ∧ x = scan_project p.
Proof.
  intros Hr. unfold project_rows. rewrite list_elem_of_fmap. setoid_rewrite elem_of_sort. setoid_rewrite Hr.
  setoid_rewrite elem_of_all_at. unfold project_by_id. naive_solver.
Qed.

Lemma project_rows_filed old :
  Projects.indexed old → t_projects db ≡ₚ all_at (Projects.projHeap old) (Projects.projects old) →
  (∀ id, file_all Project.ID ∅ project_rows !! id = scan_project <$> project_by_id old id) ∧
  (∀ n, file_all Project.Name ∅ project_rows !! n = scan_project <$> project_by_name old n).
Proof.
  intros Hi Hr. split; intros k; apply option_eq; intros x; rewrite file_all_iff, fmap_Some.
  - rewrite (elem_of_project_rows old) by done. split.
    + intros [(id & p & Hp & ->) <-]. exists p. split; [|done]. by destruct (proj1 (project_at _ _ _ Hi) Hp) as [<- _].
    + intros (p & Hp & ->). split; [eauto|]. by destruct (proj1 (project_at _ _ _ Hi) Hp) as [<- _].
  - intros y z (i & p & Hp & ->)%(elem_of_project_rows old) (j & q & Hq & ->)%(elem_of_project_rows old); [|done..]. cbn.
    intros E. destruct (proj1 (project_at _ _ _ Hi) Hp) as [<- _], (proj1 (project_at _ _ _ Hi) Hq) as [<- _]. congruence.
  - rewrite (elem_of_project_rows old) by done. split.
    + intros [(id & p & Hp & ->) <-]. exists p. split; [|done]. by destruct (proj1 (project_at _ _ _ Hi) Hp) as [_ E].
    + intros (p & Hp & ->). pose proof (project_named _ _ _ Hi Hp) as <-. split; [|done].
      exists p.(Project.ID), p. split; [|done]. by apply project_at.
  - intros y z (i & p & Hp & ->)%(elem_of_project_rows old) (j & q & Hq & ->)%(elem_of_project_rows old); [|done..]. cbn.
    intros E. destruct (proj1 (project_at _ _ _ Hi) Hp) as [_ F], (proj1 (project_at _ _ _ Hi) Hq) as [_ G]. congruence.
Qed.

Lemma load_projects old :
  Projects.wf old → (∀ q arg, fails db q arg = None) →
  t_project_types db ≡ₚ values (Projects.projectTypes old) →
  t_projects db ≡ₚ all_at (Projects.projHeap old) (Projects.projects old) →
  t_project_webhooks db ≡ₚ values (Projects.webhooks old) →
  t_secrets db ≡ₚ values (Projects.secrets old) →
  ∃ s1 s2 s3 s4, loadProjectTypes db Projects.empty = (s1, Ok tt) ∧ loadProjects db s1 = (s2, Ok tt) ∧
    loadWebhooks db s2 = (s3, Ok tt) ∧ loadSecrets db s3 = (s4, Ok tt) ∧
    Projects.dep s4 = Deployments.empty ∧ restored_projects old s4.
Proof.
  intros [Wi Wt _ Ww _ Ws _] Hf Ht Hp Hw Hs.
  unfold loadProjectTypes, loadProjects, loadSecrets, ListProjectTypes, ListProjects, ListAllSecretsCtx.
  rewrite !answer_ok by done. fold project_rows.
  pose (s1 := Projects.mkState ∅ ∅ ∅ (file_all ProjectType.ID ∅
    (scan_project_type db <$> sort_Slice (asc ProjectType.Name) (t_project_types db))) ∅ ∅ Deployments.empty).
  pose (s2 := foldl (λ s p, Projects.store_project p s) s1 project_rows).
  pose (s3 := {| s2 with Projects.webhooks := file_all ProjectWebhook.ID (Projects.webhooks s2) (project_ids s2 ≫= project_hooks) |}).
  eexists s1, s2, s3, _. split; [done|]. split; [done|]. split; [by apply loadWebhooks_eq|]. split; [reflexivity|].
  destruct (store_projects_spec project_rows s1 ∅ ∅) as ([Hin _] & Hi & Hn & E1 & E2 & E3 & E4).
  { by split; intros k l E. } { done. } { done. }
  fold s2 in Hin, Hi, Hn, E1, E2, E3, E4. cbn. split; [by rewrite E4|].
  destruct (project_rows_filed old Wi Hp) as [Fi Fn].
  assert (∀ id, is_Some (Projects.projects s2 !! id) ↔ is_Some (project_by_id old id)) as Hids.
  { intros id. rewrite <- (fmap_is_Some scan_project), <- Fi, <- Hi. unfold project_by_id, at_. split.
    - intros [l Hl]. rewrite Hl. cbn. by apply elem_of_dom, (Hin id).
    - intros [p (l & Hl & _)%bind_Some]. eauto. }
  split; cbn.
  - rewrite E1. cbn. apply file_values with (key := ProjectType.ID); [intros ???; by apply Wt|done|]. rewrite sort_perm, Ht.
    apply reflexive_eq, list_fmap_ext. intros ? pt _. unfold scan_project_type, type_count, len. by rewrite Hp.
  - intros id. rewrite <- Fi, <- Hi. done.
  - intros n. rewrite <- Fn, <- Hn. done.
  - rewrite E2. cbn. apply map_eq. intros k. apply option_eq. intros w. rewrite file_all_iff, map_lookup_filter_Some.
    + unfold project_ids. rewrite elem_of_bind_keys. setoid_rewrite Hids. unfold project_hooks. setoid_rewrite elem_of_sort.
      setoid_rewrite list_elem_of_filter. setoid_rewrite Hw. setoid_rewrite elem_of_values. cbn. split.
      * intros [(id & Hex & <- & k' & Hk) <-]. by rewrite (Ww _ _ Hk).
      * intros [Hk Hex]. split; [eauto|by apply Ww].
    + intros y z. unfold project_ids. rewrite !elem_of_bind_keys. unfold project_hooks. setoid_rewrite elem_of_sort.
      setoid_rewrite list_elem_of_filter. setoid_rewrite Hw. setoid_rewrite elem_of_values.
      intros (? & _ & _ & k1 & H1') (? & _ & _ & k2 & H2') E. rewrite (Ww _ _ H1'), (Ww _ _ H2') in E. congruence.
  - rewrite E3. cbn. apply file_values with (key := secret_key); [intros ??E; symmetry; by apply Ws|done|]. by rewrite sort_perm, Hs.
Qed.

(** *** Deployments *)

Definition newest_rows : list DeploymentRecord :=
  take recent (sort_Slice (newest DeploymentRecord.StartedAt) (deployment <$> t_deployments db)).

Definition log_rows (id : string) : list DeploymentLog :=
  sort_Slice (oldest DeploymentLog.CreatedAt) (filter (λ l, l.(DeploymentLog.DeploymentID) = id) (t_deployment_logs db)).

Definition rollback_rows (id : string) : list DeploymentRollback :=
  sort_Slice (newest DeploymentRollback.StartedAt)
    (filter (λ r, r.(DeploymentRollback.DeploymentID) = id) (t_deployment_rollbacks db)).

(** The most recent deployments without their project identifier, with all of their logs,
    oldest first, and one latest rollback each; no schedule and no assignment to agents. *)
Record restored_deployments (old new : Deployments.State) : Prop := {
  rd_known : ∀ id d', Deployments.deployments new !! id = Some d' →
    ∃ d, Deployments.deployments old !! id = Some d ∧ d' = scan_deployment d;
  rd_newest : ∀ id d' id' d, Deployments.deployments new !! id = Some d' → Deployments.deployments old !! id' = Some d →
    Deployments.deployments new !! id' = None → d.(DeploymentRecord.StartedAt) ≤ d'.(DeploymentRecord.StartedAt);
  rd_all : (size (Deployments.deployments old) ≤ recent)%nat →
    Deployments.deployments new = scan_deployment <$> Deployments.deployments old;
  rd_logs : ∀ id, is_Some (Deployments.deployments new !! id) →
    entry (Deployments.deploymentLogs new) id ≡ₚ entry (Deployments.deploymentLogs old) id ∧
    StronglySorted (λ x y, x.(DeploymentLog.CreatedAt) ≤ y.(DeploymentLog.CreatedAt)) (entry (Deployments.deploymentLogs new) id);
  rd_rollbacks : ∀ rid r, Deployments.deploymentRollbacks new !! rid = Some r →
    Deployments.deploymentRollbacks old !! rid = Some r ∧
    ∀ rid' r', Deployments.deploymentRollbacks old !! rid' = Some r' →
      r'.(DeploymentRollback.DeploymentID) = r.(DeploymentRollback.DeploymentID) →
      r'.(DeploymentRollback.StartedAt) ≤ r.(DeploymentRollback.StartedAt);
  rd_rolled_back : ∀ rid r, Deployments.deploymentRollbacks old !! rid = Some r →
    is_Some (Deployments.deployments new !! r.(DeploymentRollback.DeploymentID)) →
    ∃ rid' r', Deployments.deploymentRollbacks new !! rid' = Some r' ∧
      r'.(DeploymentRollback.DeploymentID) = r.(DeploymentRollback.DeploymentID);
  rd_scheduled : Deployments.scheduledDeploys new = ∅;
  rd_agents : Deployments.deploymentAgents new = ∅
}.

Lemma loadDeploymentLogs_spec s :
  (∀ q arg, fails db q arg = None) →
  ∃ logs, loadDeploymentLogs db s = ({| s with Deployments.deploymentLogs := logs |}, Ok tt) ∧
    ∀ id, entry logs id = entry (Deployments.deploymentLogs s) id ++ (if decide (id ∈ deployment_ids s) then log_rows id else []).
Proof.
  intros Hf. unfold loadDeploymentLogs. rewrite (for_each_ok _ _ (λ id s, foldl (append_log id) s (log_rows id))) by
    (intros id x; unfold ListDeploymentLogs; by rewrite answer_ok).
  assert (∀ id l x, ∃ m, foldl (append_log id) x l = {| x with Deployments.deploymentLogs := m |} ∧
    ∀ v, entry m v = entry (Deployments.deploymentLogs x) v ++ (if decide (v = id) then l else [])) as Hone.
  { intros id l. induction l as [|a l IH]; intros x.
    - exists (Deployments.deploymentLogs x). split; [by destruct x|]. intros v. destruct (decide _); by rewrite app_nil_r.
    - cbn [foldl]. destruct (IH (append_log id x a)) as (m & -> & Hm). exists m. split; [done|]. intros v. rewrite Hm. cbn.
      destruct (decide (v = id)) as [->|]; [by rewrite entry_insert_eq, <- app_assoc|by rewrite entry_insert_ne]. }
  assert (NoDup (deployment_ids s)) as Hd by apply range_NoDup_keys. revert Hd. generalize (deployment_ids s) as ids.
  intros ids. revert s. induction ids as [|id ids IH]; intros s Hd.
  { exists (Deployments.deploymentLogs s). split; [by destruct s|]. intros v. rewrite decide_False by apply not_elem_of_nil.
    by rewrite app_nil_r. }
  apply NoDup_cons in Hd as [Hn Hd]. cbn [foldl]. destruct (Hone id (log_rows id) s) as (m & -> & Hm).
  destruct (IH {| s with Deployments.deploymentLogs := m |} Hd) as (logs & -> & Hl). exists logs. split; [done|]. intros v.
  rewrite Hl. cbn. rewrite Hm, <- app_assoc. f_equal. destruct (decide (v = id)) as [->|Hne].
  - rewrite decide_False by done. rewrite decide_True by left. by rewrite app_nil_r.
  - cbn. destruct (decide (v ∈ ids)); [by rewrite decide_True by by right|].
    by rewrite decide_False by (by rewrite not_elem_of_cons).
Qed.

Lemma loadDeploymentRollbacks_eq s :
  (∀ q arg, fails db q arg = None) →
  loadDeploymentRollbacks db s =
  ({| s with Deployments.deploymentRollbacks :=
       file_all DeploymentRollback.ID (Deployments.deploymentRollbacks s) (deployment_ids s ≫= λ id, take 1 (rollback_rows id)) |}, Ok tt).
Proof.
  intros Hf. unfold loadDeploymentRollbacks. rewrite (for_each_ok _ _ (λ id s,
    {| s with Deployments.deploymentRollbacks :=
         file_all DeploymentRollback.ID (Deployments.deploymentRollbacks s) (take 1 (rollback_rows id)) |})).
  - f_equal. generalize (deployment_ids s) as ids. intros ids. revert s. induction ids as [|id ids IH]; intros s; [by destruct s|].
    rewrite bind_cons, file_all_app. cbn [foldl]. by rewrite IH.
  - intros id x. unfold load_rollback, GetLatestRollbackForDeployment. rewrite answer_ok by done. fold (rollback_rows id).
    destruct (rollback_rows id) as [|r l]; [by destruct x|done].
Qed.

Lemma newest_rows_filed old :
  Deployments.wf old → t_deployments db ≡ₚ (λ d, mkDeploymentRow d None None) <$> values (Deployments.deployments old) →
  (∀ x, x ∈ newest_rows → Deployments.deployments old !! x.(DeploymentRecord.ID) = Some x) ∧
  (∀ id d, file_all DeploymentRecord.ID ∅ (scan_deployment <$> newest_rows) !! id = Some d ↔
     ∃ d0, d0 ∈ newest_rows ∧ d = scan_deployment d0 ∧ d0.(DeploymentRecord.ID) = id).
Proof.
  intros [Wd _ _ _ _] Hr.
  assert (∀ x, x ∈ newest_rows → Deployments.deployments old !! x.(DeploymentRecord.ID) = Some x) as Hin.
  { intros x Hx%in_take. apply elem_of_sort in Hx. rewrite Hr in Hx. rewrite <- list_fmap_compose in Hx.
    apply list_elem_of_fmap in Hx as (d & -> & (id & Hid)%elem_of_values). cbn. by rewrite (Wd _ _ Hid). }
  split; [done|]. intros id d. rewrite file_all_iff.
  - rewrite list_elem_of_fmap. split; [intros [(d0 & -> & Hd) <-]; eauto|]. intros (d0 & Hd & -> & <-). split; [eauto|done].
  - intros y z (a & -> & Ha%Hin)%list_elem_of_fmap (b & -> & Hb%Hin)%list_elem_of_fmap. cbn. intros E. rewrite E in Ha. congruence.
Qed.

Lemma load_deployments old :
  Deployments.wf old → (∀ q arg, fails db q arg = None) →
  t_deployments db ≡ₚ (λ d, mkDeploymentRow d None None) <$> values (Deployments.deployments old) →
  t_deployment_logs db ≡ₚ concat (values (Deployments.deploymentLogs old)) →
  t_deployment_rollbacks db ≡ₚ values (Deployments.deploymentRollbacks old) →
  ∃ s1 s2 s3 s4, loadDeployments db Deployments.empty = (s1, Ok tt) ∧ loadDeploymentLogs db s1 = (s2, Ok tt) ∧
    loadDeploymentRollbacks db s2 = (s3, Ok tt) ∧ loadScheduledDeployments db now s3 = (s4, Ok tt) ∧
    restored_deployments old s4.
Proof.
  intros Hw Hf Hd Hl Hr. destruct (newest_rows_filed old Hw Hd) as [Hin Hfile].
  destruct Hw as [Wd Wl Wr _ _]. unfold loadDeployments, ListDeploymentsRecent. rewrite answer_ok by done. fold newest_rows.
  set (s1 := {| Deployments.deployments := file_all DeploymentRecord.ID ∅ (scan_deployment <$> newest_rows);
                Deployments.deploymentLogs := ∅; Deployments.deploymentRollbacks := ∅;
                Deployments.scheduledDeploys := ∅; Deployments.deploymentAgents := ∅ |}).
  destruct (loadDeploymentLogs_spec s1 Hf) as (logs & El & Hlogs).
  pose (s2 := {| s1 with Deployments.deploymentLogs := logs |}).
  pose (s3 := {| s2 with Deployments.deploymentRollbacks :=
    file_all DeploymentRollback.ID ∅ (deployment_ids s2 ≫= λ id, take 1 (rollback_rows id)) |}).
  exists s1, s2, s3, s3. split; [done|]. split; [done|]. split; [by rewrite loadDeploymentRollbacks_eq|]. split.
  { unfold loadScheduledDeployments, ListPendingScheduledDeployments. rewrite answer_ok by done.
    assert (filter (λ r, is_due now r = true) (t_deployments db) = []) as ->.
    { apply Permutation_nil. symmetry. rewrite Hd. clear. induction (values _) as [|d l IH]; [done|]. apply IH. }
    by rewrite sort_nil. }
  assert (∀ id, id ∈ deployment_ids s1 ↔ is_Some (Deployments.deployments s1 !! id)) as Hids by (intros; apply elem_of_keys).
  assert (∀ id r, r ∈ rollback_rows id ↔ Deployments.deploymentRollbacks old !! r.(DeploymentRollback.ID) = Some r ∧
            r.(DeploymentRollback.DeploymentID) = id) as Hrows.
  { intros id r. unfold rollback_rows. rewrite elem_of_sort, list_elem_of_filter, Hr, elem_of_values. split.
    - intros [<- [k Hk]]. by rewrite (Wr _ _ Hk).
    - intros [Hk <-]. eauto. }
  assert (∀ rid r, Deployments.deploymentRollbacks s3 !! rid = Some r ↔ r.(DeploymentRollback.ID) = rid ∧
            ∃ id, is_Some (Deployments.deployments s1 !! id) ∧ r ∈ take 1 (rollback_rows id)) as Hroll.
  { intros rid r. cbn [s3 s2 Deployments.deploymentRollbacks]. rewrite file_all_iff.
    - unfold deployment_ids at 1. rewrite elem_of_bind_keys. cbn. naive_solver.
    - intros y z. unfold deployment_ids. rewrite !elem_of_bind_keys.
      intros (i & _ & [Hy _]%in_take%Hrows) (j & _ & [Hz _]%in_take%Hrows) E. rewrite E in Hy. congruence. }
  split.
  - intros id d' (d0 & Hd0 & -> & <-)%Hfile. eauto.
  - intros id d' id' d (d0 & Hd0 & -> & <-)%Hfile Ho Hno. cbn.
    apply (newest_first DeploymentRecord.StartedAt (deployment <$> t_deployments db) recent); [done|].
    assert (d ∈ sort_Slice (newest DeploymentRecord.StartedAt) (deployment <$> t_deployments db)) as Hs.
    { rewrite elem_of_sort, Hd, <- list_fmap_compose. apply list_elem_of_fmap. exists d. split; [done|]. apply elem_of_values. eauto. }
    rewrite <- (take_drop recent _) in Hs. apply elem_of_app in Hs as [Hs|Hs]; [|done]. exfalso.
    assert (Deployments.deployments s1 !! id' = Some (scan_deployment d)) as E; [|by change (Deployments.deployments s1 !! id' = None) in Hno; congruence].
    apply Hfile. exists d. split_and!; [done|done|by apply Wd].
  - intros Hsize. cbn. unfold newest_rows. rewrite take_ge.
    + apply file_values with (key := DeploymentRecord.ID); [intros ???; by apply Wd|done|].
      rewrite sort_perm, Hd, <- !list_fmap_compose. done.
    + rewrite sort_length, length_fmap, Hd, !length_fmap, length_map_to_list. exact Hsize.
  - intros id Hid. cbn. rewrite Hlogs. cbn. rewrite decide_True by by apply Hids. unfold log_rows. split; [|apply oldest_sorted].
    rewrite sort_perm, Hl. by apply filter_concat.
  - intros rid r [<- (id & _ & Ht)]%Hroll. pose proof (in_take _ _ _ Ht) as [Hk <-]%Hrows. split; [done|].
    intros rid' r' Hr' Hsame. unfold rollback_rows in Ht. apply (newest_head _ _ _ r') in Ht; [done|].
    apply list_elem_of_filter. split; [done|]. rewrite Hr. apply elem_of_values. eauto.
  - intros rid r Hrid Hid. assert (r ∈ rollback_rows (DeploymentRollback.DeploymentID r)) as Hin'.
    { apply Hrows. split; [|done]. by rewrite (Wr _ _ Hrid). }
    destruct (rollback_rows (DeploymentRollback.DeploymentID r)) as [|r' l] eqn:E; [by apply not_elem_of_nil in Hin'|].
    exists r'.(DeploymentRollback.ID), r'. assert (r' ∈ rollback_rows (DeploymentRollback.DeploymentID r)) as [_ Hsame]%Hrows by (rewrite E; left).
    split; [|done]. apply Hroll. split; [done|]. exists (DeploymentRollback.DeploymentID r). split; [done|]. rewrite E. left.
  - done.
  - done.
Qed.

(** *** Agents *)

(** What is left of an agent. *)
Definition forget_agent (a : Agent) : Agent :=
  {| a with Agent.Labels := jsonToMap (labels_text a.(Agent.Labels)); Agent.Capabilities := ""; Agent.Certificate := "";
     Agent.HMACSecret := [] |}.

Record restored_agents (old new : Agents.State) : Prop := {
  ra_agents : Agents.agents new = forget_agent <$> Agents.agents old;
  ra_binaries : Agents.agentBinaries new = Agents.agentBinaries old;
  ra_updates : Agents.agentUpdates new = ∅
}.

Lemma load_agents old :
  Agents.wf old → (∀ q arg, fails db q arg = None) → t_agents db ≡ₚ agent_row <$> values (Agents.agents old) →
  t_agent_binaries db ≡ₚ values (Agents.agentBinaries old) →
  ∃ s1 s2, loadAgents db Agents.empty = (s1, Ok tt) ∧ loadAgentBinaries db s1 = (s2, Ok tt) ∧ restored_agents old s2.
Proof.
  intros [Wa Wb _ _ _] Hf Ha Hb. unfold loadAgents, loadAgentBinaries, ListAgents, ListAgentBinaries. rewrite !answer_ok by done.
  eexists _, _. split; [reflexivity|]. split; [reflexivity|]. split; cbn; [| |done].
  - apply file_values with (key := Agent.ID); [intros ???; by apply Wa|done|]. rewrite sort_perm, Ha, <- list_fmap_compose.
    apply reflexive_eq, list_fmap_ext. intros ? a _. done.
  - apply file_values_id; [intros ???; by apply Wb|by rewrite sort_perm].
Qed.

(** *** Audit log, settings and blocked addresses *)

(** The log is read newest first and appended in that order, so it is reversed. *)
Record restored_ops (old new : Ops.State) : Prop := {
  ro_settings : Ops.settings new = Ops.settings old;
  ro_audit_sorted : StronglySorted (λ x y, y.(AuditEntry.Timestamp) ≤ x.(AuditEntry.Timestamp)) (Ops.auditLogs new);
  ro_audit : (length (Ops.auditLogs old) ≤ recent)%nat → Ops.auditLogs new ≡ₚ Ops.auditLogs old;
  ro_blocked_ending : ∀ ip b, Ops.blockedIPs new !! ip = Some b →
    Ops.blockedIPs old !! ip = Some b ∧ now < b.(BlockedIP.ExpiresAt);
  ro_blocked : (size (Ops.blockedIPs old) ≤ Z.to_nat 100000)%nat →
    Ops.blockedIPs new = filter (λ kb, now < kb.2.(BlockedIP.ExpiresAt)) (Ops.blockedIPs old);
  ro_rates : Ops.rateLimits new = ∅
}.

Lemma newest_sorted {A} (key : A → time) (l : list A) n :
  StronglySorted (λ x y, key y ≤ key x) (take n (sort_Slice (newest key) l)).
Proof.
  pose proof (sort_sorted _ (newest key) l (newest_less_order key)) as Hs. revert n Hs.
  generalize (sort_Slice (newest key) l). intros k n Hs. revert n. induction Hs as [|a k _ IH Ha]; intros [|n]; [constructor..|].
  constructor; [apply IH|]. eapply Forall_impl; [apply Forall_take, Ha|]. unfold newest, After. cbn. intros x. lia.
Qed.

Lemma scan_blocked_all l : scan_all scan_blocked ((λ b, (b, false)) <$> l) = Ok l.
Proof. induction l as [|b l IH]; [done|]. cbn in *. by rewrite IH. Qed.

Lemma blocked_rows old :
  t_blocked_ips db ≡ₚ (λ b, (b, false)) <$> values (Ops.blockedIPs old) →
  ∃ l, take (Z.to_nat 100000) (drop 0 (sort_Slice (newest (BlockedIP.BlockedAt ∘ fst))
         (filter (λ r, still_blocked now r = true) (t_blocked_ips db)))) = (λ b, (b, false)) <$> l ∧
    (∀ b, b ∈ l → (∃ ip, Ops.blockedIPs old !! ip = Some b) ∧ now < b.(BlockedIP.ExpiresAt)) ∧
    ((size (Ops.blockedIPs old) ≤ Z.to_nat 100000)%nat →
     l ≡ₚ filter (λ b, now < b.(BlockedIP.ExpiresAt)) (values (Ops.blockedIPs old))).
Proof.
  intros Hb. set (rows := sort_Slice _ _).
  assert (rows ≡ₚ (λ b, (b, false)) <$> filter (λ b, now < b.(BlockedIP.ExpiresAt)) (values (Ops.blockedIPs old))) as Hr.
  { unfold rows. rewrite sort_perm, Hb. clear. induction (values (Ops.blockedIPs old)) as [|b l IH]; [done|].
    rewrite fmap_cons, !filter_cons. unfold still_blocked at 1. cbn. destruct (Z.ltb_spec now b.(BlockedIP.ExpiresAt)).
    - rewrite !decide_True by done. by rewrite IH.
    - rewrite !decide_False by lia. apply IH. }
  rewrite drop_0. generalize (Z.to_nat 100000) as n. intros n.
  destruct (Permutation_map_inv _ _ Hr) as (l & Hl & El). symmetry in El. change (rows = (λ b, (b, false)) <$> l) in Hl. clearbody rows.
  subst rows. exists (take n l). rewrite <- fmap_take. split; [done|]. split.
  - intros b Hin%in_take. rewrite El, list_elem_of_filter, elem_of_values in Hin. naive_solver.
  - intros Hn. rewrite take_ge; [done|]. rewrite El. etransitivity; [apply length_filter|].
    by rewrite length_fmap, length_map_to_list.
Qed.

Lemma load_ops old :
  Security.keyed_by setting_key (Ops.settings old) → Security.keyed_by BlockedIP.IPAddress (Ops.blockedIPs old) →
  (∀ q arg, fails db q arg = None) → t_settings db ≡ₚ values (Ops.settings old) → t_audit_logs db ≡ₚ Ops.auditLogs old →
  t_blocked_ips db ≡ₚ (λ b, (b, false)) <$> values (Ops.blockedIPs old) →
  ∃ s1 s2 s3, loadSettings db Ops.empty = (s1, Ok tt) ∧ loadAuditLogs db s1 = (s2, Ok tt) ∧
    loadBlockedIPs db now s2 = (s3, Ok tt) ∧ restored_ops old s3.
Proof.
  intros Ws Wb Hf Hs Ha Hb. destruct (blocked_rows old Hb) as (l & El & Hin & Hall).
  unfold loadSettings, loadAuditLogs, loadBlockedIPs, ListAllSettings, ListAuditLogs, ListBlockedIPs. rewrite !answer_ok by done.
  do 3 eexists. split; [reflexivity|]. split; [reflexivity|]. split.
  { cbn [rbind]. rewrite El, scan_blocked_all. reflexivity. }
  assert (∀ y z, y ∈ l → z ∈ l → BlockedIP.IPAddress y = BlockedIP.IPAddress z → y = z) as Hinj.
  { intros y z [[i Hy] _]%Hin [[j Hz] _]%Hin E. rewrite <- (Wb _ _ Hy), E, (Wb _ _ Hz) in Hy. congruence. }
  split; cbn.
  - apply file_values_id; [done|by rewrite sort_perm].
  - apply newest_sorted.
  - intros Hn. rewrite drop_0, take_ge; [by rewrite sort_perm|]. by rewrite sort_length, Ha.
  - intros ip b [Hl <-]%file_all_iff; [|done]. destruct (Hin b Hl) as [[i Hi] Hn]. by rewrite (Wb _ _ Hi).
  - intros Hn. rewrite (file_filtered BlockedIP.IPAddress (λ b, now < b.(BlockedIP.ExpiresAt)) (Ops.blockedIPs old)); [done..|]. by apply Hall.
  - done.
Qed.

(** *** Provisioning, host keys, jump servers and health checks *)

Record restored_misc (old new : Misc.State) : Prop := {
  rm_host_keys : Misc.sshHostKeys new = Misc.sshHostKeys old;
  rm_jump_servers : Misc.jumpServers new = Misc.jumpServers old;
  rm_health : Misc.healthCheckConfigs new = Misc.healthCheckConfigs old;
  rm_jobs : ∀ id j, Misc.provisionJobs new !! id = Some j ↔ j ∈ t_agent_provision_jobs db ∧ j.(ProvisionJob.ID) = id ∧
    (j.(ProvisionJob.Status) = "pending" ∨ j.(ProvisionJob.Status) = "running");
  rm_job_logs : Misc.provisionLogs new = ∅
}.

Lemma load_misc old :
  Security.keyed_by SSHHostKey.ID (Misc.sshHostKeys old) → Security.keyed_by SSHJumpServer.ID (Misc.jumpServers old) →
  Security.keyed_by HealthCheckConfig.ID (Misc.healthCheckConfigs old) →
  (∀ q arg, fails db q arg = None) → unique ProvisionJob.ID (t_agent_provision_jobs db) → t_ssh_host_keys db ≡ₚ values (Misc.sshHostKeys old) →
  t_ssh_jump_servers db ≡ₚ values (Misc.jumpServers old) → t_health_check_configs db ≡ₚ values (Misc.healthCheckConfigs old) →
  ∃ s1 s2 s3 s4, loadProvisionJobs db Misc.empty = (s1, Ok tt) ∧ loadSSHHostKeys db s1 = (s2, Ok tt) ∧
    loadJumpServers db s2 = (s3, Ok tt) ∧ loadHealthCheckConfigs db s3 = (s4, Ok tt) ∧ restored_misc old s4.
Proof.
  intros Wk Wj Wh Hf Hp Hk Hj Hh.
  unfold loadProvisionJobs, loadSSHHostKeys, loadJumpServers, loadHealthCheckConfigs, ListPendingProvisionJobs, ListSSHHostKeys,
    ListJumpServers, ListHealthCheckConfigs. rewrite !answer_ok, Hf by done.
  do 4 eexists. do 4 (split; [reflexivity|]). split; cbn; [apply file_values_id; [done|by rewrite sort_perm]..| |done].
  intros id j. rewrite file_all_iff.
  - rewrite elem_of_sort, list_elem_of_filter. naive_solver.
  - intros x y. rewrite !elem_of_sort, !list_elem_of_filter. intros [_ ?] [_ ?]. by apply Hp.
Qed.

(** *** Security tables *)

(** Of the tables the write-behind does not write, their rows: what the store held makes no
    difference. *)
Definition rows_in {A} (key : A → string) (rows : list A) (m : gmap string A) : Prop :=
  ∀ k x, m !! k = Some x ↔ x ∈ rows ∧ key x = k.

Record restored_security (old new : Security.State) : Prop := {
  rs_cas : rows_in CertificateAuthority.ID (t_certificate_authorities db) (Security.certificateAuthorities new);
  rs_certs : rows_in AgentCertificate.SerialNumber (t_agent_certificates db) (Security.agentCertificates new);
  rs_servers : rows_in ServerCertificate.Hostname (t_server_certificates db) (Security.serverCertificates new);
  rs_tokens : rows_in RegistrationToken.Token (t_registration_tokens db) (Security.registrationTokens new);
  rs_credentials : rows_in SourceCredential.ID (t_source_credentials db) (Security.sourceCredentials new);
  rs_revoked : rows_in RevokedCertificate.SerialNumber (t_revoked_certificates db) (Security.revokedCertificates new);
  rs_keys : rows_in EncryptionKey.ID (t_encryption_keys db) (Security.encryptionKeys new);
  rs_ssh : rows_in SSHKey.ID (t_ssh_keys db) (Security.sshKeys new);
  rs_events : ∀ e, e ∈ Security.certAuditEvents new → e ∈ t_cert_audit_events db;
  rs_acme : Security.acmeCertificates new = Security.acmeCertificates old;
  rs_accounts : Security.acmeAccounts new = Security.acmeAccounts old;
  rs_codes : ∀ u, entry (Security.recoveryCodes new) u ≡ₚ entry (Security.recoveryCodes old) u
}.

Lemma rows_in_sorted {A} (key : A → string) less rows :
  unique key rows → rows_in key rows (file_all key ∅ (sort_Slice less rows)).
Proof.
  intros Hu k x. rewrite file_all_iff; [by rewrite elem_of_sort|]. intros y z. rewrite !elem_of_sort. apply Hu.
Qed.

Lemma store_accounts l s :
  store_stream store_account (Ok <$> l) s =
  ({| s with Security.acmeAccounts := file_all ACMEAccount.Email (Security.acmeAccounts s) l |}, Ok tt).
Proof. revert s. induction l as [|a l IH]; intros s; [by destruct s|]. cbn in *. by rewrite IH. Qed.

Lemma store_codes l s :
  ∃ m, store_stream store_code (Ok <$> l) s = ({| s with Security.recoveryCodes := m |}, Ok tt) ∧
    ∀ u, entry m u = entry (Security.recoveryCodes s) u ++ filter (λ c, c.(RecoveryCode.UserID) = u) l.
Proof.
  revert s. induction l as [|c l IH]; intros s.
  { exists (Security.recoveryCodes s). split; [by destruct s|]. intros u. by rewrite app_nil_r. }
  destruct (IH (store_code s c)) as (m & Hm & Hu). exists m. split; [exact Hm|]. intros u. rewrite Hu, filter_cons. cbn.
  destruct (decide (RecoveryCode.UserID c = u)) as [->|Hne].
  - by rewrite entry_insert_eq, <- app_assoc.
  - by rewrite entry_insert_ne.
Qed.

Lemma load_security old :
  Security.wf old → (∀ q arg, fails db q arg = None) →
  t_acme_certificates db ≡ₚ values (Security.acmeCertificates old) → t_acme_accounts db ≡ₚ values (Security.acmeAccounts old) →
  t_recovery_codes db ≡ₚ concat (values (Security.recoveryCodes old)) →
  unique CertificateAuthority.ID (t_certificate_authorities db) → unique AgentCertificate.SerialNumber (t_agent_certificates db) →
  unique ServerCertificate.Hostname (t_server_certificates db) → unique RegistrationToken.Token (t_registration_tokens db) →
  unique SourceCredential.ID (t_source_credentials db) → unique RevokedCertificate.SerialNumber (t_revoked_certificates db) →
  unique EncryptionKey.ID (t_encryption_keys db) → unique SSHKey.ID (t_ssh_keys db) →
  ∃ s1 s2 s3 s4 s5 s6 s7 s8 s9 s10 s11 s12,
    loadCertificateAuthorities db Security.empty = (s1, Ok tt) ∧ loadAgentCertificates db s1 = (s2, Ok tt) ∧
    loadServerCertificates db s2 = (s3, Ok tt) ∧ loadRegistrationTokens db s3 = (s4, Ok tt) ∧
    loadSourceCredentials db s4 = (s5, Ok tt) ∧ loadRevokedCertificates db s5 = (s6, Ok tt) ∧
    loadEncryptionKeys db s6 = (s7, Ok tt) ∧ loadSSHKeys db s7 = (s8, Ok tt) ∧ loadCertAuditEvents db s8 = (s9, Ok tt) ∧
    loadACMECertificates db s9 = (s10, Ok tt) ∧ loadACMEAccounts db s10 = (s11, Ok tt) ∧
    loadRecoveryCodes db s11 = (s12, Ok tt) ∧ restored_security old s12.
Proof.
  intros W Hf Ha Hc Hr U1 U2 U3 U4 U5 U6 U7 U8.
  unfold loadCertificateAuthorities, loadAgentCertificates, loadServerCertificates, loadRegistrationTokens, loadSourceCredentials,
    loadRevokedCertificates, loadEncryptionKeys, loadSSHKeys, loadCertAuditEvents, loadACMECertificates, loadACMEAccounts,
    loadRecoveryCodes, ListCAs, ListAgentCerts, ListServerCerts, ListRegistrationTokens, ListSourceCredentials, ListRevokedCerts,
    ListEncryptionKeys, ListSSHKeys, ListCertAuditEvents, ListACMECertificates, stream.
  cbn [CertAuditFilter.Limit CertAuditFilter.Offset]. rewrite !answer_ok, !Hf by done. change (0 <? 10000) with true. cbn iota.
  pose (m1 := file_all CertificateAuthority.ID ∅ (sort_Slice (larger CertificateAuthority.Version) (t_certificate_authorities db))).
  pose (m2 := file_all AgentCertificate.SerialNumber ∅ (sort_Slice (newest AgentCertificate.IssuedAt) (t_agent_certificates db))).
  pose (m3 := file_all ServerCertificate.Hostname ∅ (sort_Slice (λ _ _, false) (t_server_certificates db))).
  pose (m4 := file_all RegistrationToken.Token ∅ (sort_Slice (newest RegistrationToken.CreatedAt) (t_registration_tokens db))).
  pose (m5 := file_all SourceCredential.ID ∅ (sort_Slice (asc SourceCredential.Name) (t_source_credentials db))).
  pose (m6 := file_all RevokedCertificate.SerialNumber ∅ (sort_Slice (newest RevokedCertificate.RevokedAt) (t_revoked_certificates db))).
  pose (m7 := file_all EncryptionKey.ID ∅ (sort_Slice (larger EncryptionKey.Version) (t_encryption_keys db))).
  pose (m8 := file_all SSHKey.ID ∅ (sort_Slice (asc SSHKey.Name) (t_ssh_keys db))).
  pose (events := take (Z.to_nat 10000) (drop (Z.to_nat 0) (sort_Slice (newest CertAuditEvent.Timestamp)
    (filter (λ e, selected (CertAuditFilter.mk "" "" None None 10000 0) e = true) (t_cert_audit_events db))))).
  pose (acme := file_all ACMECertificate.Domain ∅ (sort_Slice (asc ACMECertificate.Domain) (t_acme_certificates db))).
  pose (accounts := file_all ACMEAccount.Email ∅ (sort_Slice (asc ACMEAccount.ID) (t_acme_accounts db))).
  pose (s11 := Security.mkState m1 m2 m3 m4 m5 m6 m7 m8 events acme accounts ∅).
  destruct (store_codes (sort_Slice (then_by (asc RecoveryCode.UserID) (asc RecoveryCode.ID)) (t_recovery_codes db)) s11)
    as (m & Em & Hm).
  exists (Security.mkState m1 ∅ ∅ ∅ ∅ ∅ ∅ ∅ [] ∅ ∅ ∅),
    (Security.mkState m1 m2 ∅ ∅ ∅ ∅ ∅ ∅ [] ∅ ∅ ∅),
    (Security.mkState m1 m2 m3 ∅ ∅ ∅ ∅ ∅ [] ∅ ∅ ∅),
    (Security.mkState m1 m2 m3 m4 ∅ ∅ ∅ ∅ [] ∅ ∅ ∅),
    (Security.mkState m1 m2 m3 m4 m5 ∅ ∅ ∅ [] ∅ ∅ ∅),
    (Security.mkState m1 m2 m3 m4 m5 m6 ∅ ∅ [] ∅ ∅ ∅),
    (Security.mkState m1 m2 m3 m4 m5 m6 m7 ∅ [] ∅ ∅ ∅),
    (Security.mkState m1 m2 m3 m4 m5 m6 m7 m8 [] ∅ ∅ ∅),
    (Security.mkState m1 m2 m3 m4 m5 m6 m7 m8 events ∅ ∅ ∅),
    (Security.mkState m1 m2 m3 m4 m5 m6 m7 m8 events acme ∅ ∅), s11. eexists.
  do 10 (split; [reflexivity|]). split; [apply store_accounts|]. split; [exact Em|].
  split; cbn; try by apply rows_in_sorted.
  - intros e. unfold events. rewrite drop_0. intros Hin%in_take. rewrite elem_of_sort, list_elem_of_filter in Hin. by destruct Hin.
  - apply file_values_id; [apply W|by rewrite sort_perm].
  - apply file_values_id; [apply W|by rewrite sort_perm].
  - intros u. rewrite Hm, sort_perm, Hr. cbn. apply filter_concat. intros k l E. apply Forall_forall. intros c Hin.
    by apply (Security.wf_owner _ W k l c).
Qed.

(** Reversing a sorted list and taking a page of it. *)
Lemma sorted_reverse {A} (R : A → A → Prop) l : StronglySorted R l → StronglySorted (flip R) (reverse l).
Proof.
  induction 1 as [|a l _ IH Ha]; [constructor|]. rewrite reverse_cons, StronglySorted_app. split_and!.
  - intros x y Hx ->%list_elem_of_singleton. rewrite elem_of_reverse in Hx. rewrite Forall_forall in Ha. exact (Ha x Hx).
  - done.
  - repeat constructor.
Qed.

Lemma sorted_page {A} (R : A → A → Prop) all limit offset page :
  StronglySorted R all → paginate all limit offset = Ok page → StronglySorted R page.
Proof.
  intros Hs. unfold paginate, slice. destruct (_ <=? _); [intros [= <-]; constructor|].
  destruct (_ && _); [|done]. intros [= <-]. rewrite <- (take_drop (Z.to_nat offset) all) in Hs.
  apply StronglySorted_app_1_r in Hs. generalize dependent (drop (Z.to_nat offset) all). intros l Hs.
  match goal with |- StronglySorted _ (take ?n l) => rewrite <- (take_drop n l) in Hs end.
  by apply StronglySorted_app_1_l in Hs.
Qed.

(** *** All of it *)

(** What a restart gives back, part by part. *)
Record restored (old new : MemoryStore) : Prop := {
  r_users : restored_users (users old) (users new);
  r_projects : restored_projects (projects old) (projects new);
  r_deployments : restored_deployments (Projects.dep (projects old)) (Projects.dep (projects new));
  r_agents : restored_agents (agents old) (agents new);
  r_ops : restored_ops (ops old) (ops new);
  r_misc : restored_misc (misc old) (misc new);
  r_security : restored_security (security old) (security new);
  r_recipes : Recipes.wf (recipes new) ∧
    Recipes.recipeComponents (recipes new) = Recipes.recipeComponents (recipes old) ∧
    Recipes.playbooks (recipes new) = Recipes.playbooks (recipes old) ∧
    Recipes.playbookActivations (recipes new) = Recipes.playbookActivations (recipes old) ∧
    Recipes.variableBindings (recipes new) = Recipes.variableBindings (recipes old) ∧
    Recipes.rawApprovals (recipes new) = Recipes.rawApprovals (recipes old)
}.

Lemma run_loaders_step name load l s s' :
  load s = (s', Ok tt) → run_loaders ((name, load) :: l) s = run_loaders l s'.
Proof. intros E. cbn. by rewrite E. Qed.

Lemma on_users_step f s x : f (users s) = (x, Ok tt) → on_users f s = ({| s with users := x |}, Ok tt).
Proof. intros E. unfold on_users. by rewrite E. Qed.
Lemma on_projects_step f s x : f (projects s) = (x, Ok tt) → on_projects f s = ({| s with projects := x |}, Ok tt).
Proof. intros E. unfold on_projects. by rewrite E. Qed.
Lemma on_dep_step f s x p :
  projects s = p → f (Projects.dep p) = (x, Ok tt) → on_dep f s = ({| s with projects := {| p with Projects.dep := x |} |}, Ok tt).
Proof. intros <- E. unfold on_dep, on_projects. by rewrite E. Qed.
Lemma on_agents_step f s x : f (agents s) = (x, Ok tt) → on_agents f s = ({| s with agents := x |}, Ok tt).
Proof. intros E. unfold on_agents. by rewrite E. Qed.
Lemma on_ops_step f s x : f (ops s) = (x, Ok tt) → on_ops f s = ({| s with ops := x |}, Ok tt).
Proof. intros E. unfold on_ops. by rewrite E. Qed.
Lemma on_misc_step f s x : f (misc s) = (x, Ok tt) → on_misc f s = ({| s with misc := x |}, Ok tt).
Proof. intros E. unfold on_misc. by rewrite E. Qed.
Lemma on_security_step f s x : f (security s) = (x, Ok tt) → on_security f s = ({| s with security := x |}, Ok tt).
Proof. intros E. unfold on_security. by rewrite E. Qed.

Lemma on_recipes_step f s :
  ret (f (recipes s)) = Ok tt → on_recipes f s = ({| s with recipes := st (f (recipes s)) |}, Ok tt).
Proof. intros E. unfold on_recipes. by rewrite E. Qed.

Lemma rows_ok {A} (file : A → Recipes.State → Recipes.State) l s : ret (Recipes.load_rows file (Ok <$> l) s) = Ok tt.
Proof. by rewrite Recipes.load_rows_ok. Qed.

Ltac load_step L E :=
  erewrite run_loaders_step; [|first [eapply L; exact E|eapply L; [reflexivity|exact E]]]; cbn [users projects agents ops misc security recipes].

Lemma restart_lemma old : wf old → mirrors db old → ∃ new, LoadFromDB db now empty = (new, None) ∧ restored old new.
Proof.
  intros [W1 W2 W3 W4 W5 W6 W7 W8 W9 W10] M. destruct M.
  destruct (load_users (users old)) as (u1 & u2 & u3 & Eu1 & Eu2 & Eu3 & Ru); [done..|].
  destruct (load_projects (projects old)) as (p1 & p2 & p3 & p4 & Ep1 & Ep2 & Ep3 & Ep4 & Edep & Rp); [done..|].
  destruct (load_deployments (Projects.dep (projects old))) as (d1 & d2 & d3 & d4 & Ed1 & Ed2 & Ed3 & Ed4 & Rd); [apply W2|done..|].
  destruct (load_agents (agents old)) as (a1 & a2 & Ea1 & Ea2 & Ra); [done..|].
  destruct (load_ops (ops old)) as (o1 & o2 & o3 & Eo1 & Eo2 & Eo3 & Ro); [done..|].
  destruct (load_misc (misc old)) as (i1 & i2 & i3 & i4 & Ei1 & Ei2 & Ei3 & Ei4 & Ri); [done..|].
  destruct (load_security (security old)) as (s1 & s2 & s3 & s4 & s5 & s6 & s7 & s8 & s9 & s10 & s11 & s12 & Es1 & Es2 & Es3 & Es4 &
    Es5 & Es6 & Es7 & Es8 & Es9 & Es10 & Es11 & Es12 & Rs); [done..|].
  destruct m_components0 as (cs & Ecs & Hcs), m_playbooks0 as (ps & Eps & Hps), m_activations0 as (acts & Eacts & Hacts),
    m_bindings0 as (bs & Ebs & Hbs), m_approvals0 as (rs & Ers & Hrs).
  destruct (Recipes.recipes_reload cs ps acts bs rs (recipes old) W10 Hcs Hps Hacts Hbs Hrs)
    as (Wr & F1 & _ & F2 & _ & F3 & F4 & F5 & _).
  exists (mkStore u3 {| p4 with Projects.dep := d4 |} a2 o3 i4 s12 (Recipes.reload cs ps acts bs rs)).
  split; [|split; try done; by destruct Rp; split].
  unfold LoadFromDB, loaders, empty. rewrite Ecs, Eps, Eacts, Ebs, Ers.
  load_step on_users_step Eu1. load_step on_users_step Eu2. load_step on_users_step Eu3.
  load_step on_ops_step Eo1.
  load_step on_projects_step Ep1. load_step on_projects_step Ep2. load_step on_projects_step Ep3.
  load_step on_projects_step Ep4.
  load_step on_agents_step Ea1. load_step on_agents_step Ea2.
  rewrite <- Edep in Ed1.
  load_step on_dep_step Ed1.
  load_step on_dep_step Ed2.
  load_step on_dep_step Ed3.
  load_step on_dep_step Ed4.
  load_step on_ops_step Eo2. load_step on_ops_step Eo3. load_step on_ops_step (eq_refl (loadRateLimits o3)).
  load_step on_misc_step Ei1. load_step on_misc_step Ei2. load_step on_misc_step Ei3.
  load_step on_misc_step Ei4.
  load_step on_security_step Es1. load_step on_security_step Es2. load_step on_security_step Es3.
  load_step on_security_step Es4. load_step on_security_step Es5. load_step on_security_step Es6.
  load_step on_security_step Es7. load_step on_security_step Es8. load_step on_security_step Es9.
  load_step on_security_step Es10. load_step on_security_step Es11. load_step on_security_step Es12.
  do 5 (erewrite run_loaders_step; [|apply on_recipes_step, rows_ok]; cbn [users projects agents ops misc security recipes]). reflexivity.
Qed.

(** * Theorems *)

(** C21: A server that is started over databases holding what the tables of a store were
    written from fills its store without an error, and the new store is the old one except
    for what follows. Users, settings, binaries, host keys, jump servers, health checks, ACME
    records and recipes are the same; sessions are those of known users that have not
    expired, without their last use, and API keys those of known users, without their
    prefix; projects, secrets, agents and deployments lose the fields no query selects, and only the
    most recent deployments come back, with their logs and one latest rollback each;
    schedules, assignments of deployments to agents, update histories and request counts
    are gone; blocks come back when they end in the future; and of the tables the
    write-behind does not write, the rows are what there is, whatever the store held.
    The labels of an agent are what [jsonToMap] reads of their JSON text, which are the
    labels themselves if they are valid UTF-8: an agent without labels has none
    afterwards. *)
Theorem restart_restores `{L : !JSONMapLaws} old :
  wf old → mirrors db old → ∃ new, NewCachedStore db now = inl new ∧ restored old new ∧
    ∀ id a, Agents.agents (agents old) !! id = Some a → valid_map a.(Agent.Labels) →
      ∃ a', Agents.agents (agents new) !! id = Some a' ∧ a'.(Agent.Labels) = a.(Agent.Labels).
Proof.
  intros Hw Hm. destruct (restart_lemma old Hw Hm) as (new & E & Hr). exists new.
  split; [unfold NewCachedStore; by rewrite E|]. split; [done|]. intros id a Ha Hv. exists (forget_agent a).
  rewrite (ra_agents _ _ (r_agents _ _ Hr)), lookup_fmap, Ha. split; [done|]. by apply labels_roundtrip.
Qed.

(** What callers see of it: a permanent block does not hold any more, the pages of the audit
    log come oldest first, and a certificate that was revoked is accepted unless
    something other than the store wrote the revocation to the table. *)
Theorem restart_changes old :
  wf old → mirrors db old → 0 ≤ now → ∃ new, NewCachedStore db now = inl new ∧
    (∀ ip b t, Ops.blockedIPs (ops old) !! ip = Some b → b.(BlockedIP.ExpiresAt) = 0 →
       Ops.IsIPBlocked ip t (ops old) = Ok true ∧ Ops.IsIPBlocked ip t (ops new) = Ok false) ∧
    (∀ limit page, Ops.ListAuditLogs limit 0 (ops new) = Ok page →
       StronglySorted (λ x y, x.(AuditEntry.Timestamp) ≤ y.(AuditEntry.Timestamp)) page) ∧
    (∀ serial, Security.IsRevoked serial (security new) =
       Ok (bool_decide (serial ∈ RevokedCertificate.SerialNumber <$> t_revoked_certificates db))).
Proof.
  intros Hw Hm Hnow. destruct (restart_lemma old Hw Hm) as (new & E & Hr). exists new.
  split; [unfold NewCachedStore; by rewrite E|]. destruct Hr as [_ _ _ _ Ho _ Hs _]. split; [|split].
  - intros ip b t Hb Hz. unfold Ops.IsIPBlocked. rewrite Hb, Hz. split; [done|].
    destruct (Ops.blockedIPs (ops new) !! ip) as [b'|] eqn:Eb; [|done]. exfalso.
    destruct (ro_blocked_ending _ _ Ho ip b' Eb) as [Hb' Hlt]. assert (b' = b) as -> by congruence. rewrite Hz in Hlt. lia.
  - intros limit page. unfold Ops.ListAuditLogs. pose proof (ro_audit_sorted _ _ Ho) as Hsort.
    intros Hp. eapply sorted_page; [|exact Hp]. apply (sorted_reverse (λ x y, y.(AuditEntry.Timestamp) ≤ x.(AuditEntry.Timestamp))), Hsort.
  - intros serial. unfold Security.IsRevoked. f_equal. apply bool_decide_ext.
    pose proof (rs_revoked _ _ Hs) as Hrev. rewrite list_elem_of_fmap. split.
    + intros [c Hc]. apply Hrev in Hc as [Hin <-]. eauto.
    + intros (c & -> & Hin). exists c. by apply Hrev.
Qed.

End restart.

(** ** The agents after a restart *)

Section fleet.
Context `{X509, AEAD, MapRange, SliceSort, JSONMap}.
Context (masterKey : list Z) (hmac_sha256 : list Z → list Z → list Z).

(** The store knows the agent, and has no secret for it. *)
Definition blank (id : string) (s : Server.State) : Prop :=
  ∃ a, Agents.agents (Server.agents s) !! id = Some a ∧ a.(Agent.HMACSecret) = [].

Lemma blank_refused id ts nonce sig ip t t' x x' rnd s :
  blank id s → ¬ is_inl (Server.Reauthenticate masterKey hmac_sha256 id ts nonce sig ip t t' x x' rnd s).2.
Proof.
  intros (a & Ha & Hsec) [(_ & _ & _ & a' & Ha' & Hne & _) _]%reauth_spec. congruence.
Qed.

Lemma enroll_blank id req now xid rnd hm s :
  blank id s → blank id (Server.enroll masterKey req now xid rnd hm s).1.
Proof.
  intros (a & Ha & Hsec). unfold Server.enroll.
  destruct (CA.IssueAgentCertificate _ _ _ _ _ _ _) as [m [cert|?|]]; [|by exists a..].
  destruct hm as [secret|]; [|by exists a].
  unfold Server.on_agents, AgentService.Upsert, call, Agents.UpsertAgent. cbn.
  destruct (decide (RegisterRequest.AgentId req = id)) as [->|Hne].
  - rewrite Ha. cbn. eexists. cbn. rewrite lookup_insert_eq. by split.
  - destruct (Agents.agents (Server.agents s) !! RegisterRequest.AgentId req); cbn; exists a; cbn; by rewrite lookup_insert_ne.
Qed.

Lemma register_blank id req now now' xid rnd hm s :
  blank id s → blank id (Server.Register masterKey req now now' xid rnd hm s).1.
Proof.
  intros Hb. unfold Server.Register. case_bool_decide; [done|]. destruct (Identity.ValidateAgentID _); [|done..].
  pose proof (admit_frame (RegisterRequest.AgentId req) (RegisterRequest.Token req) now now' s) as (_ & _ & Ea).
  destruct (Server.admit_agent _ _ _ _ _) as [s1 []]; cbn [fst] in *.
  - apply enroll_blank. unfold blank in *. by rewrite Ea.
  - unfold blank in *. cbn. by rewrite Ea.
Qed.

(** Registrations one after the other, each with its readings of the clock and the generators. *)
Definition registration : Type := RegisterRequest * time * time * string * CA.random * option (list Z).
Definition register (s : Server.State) (r : registration) : Server.State :=
  let '(req, now, now', xid, rnd, hm) := r in (Server.Register masterKey req now now' xid rnd hm s).1.

(** C22: The secret of an agent is in no column the executors write and no query selects it. So
    after a restart no agent that was known before can authenticate again with its secret,
    whatever it signs: neither at once nor after it, and any others, have registered
    again, because a registration keeps the empty secret of an agent the store knows. *)
Theorem restart_locks_agents_out db now old new id regs s :
  wf old → mirrors db old → NewCachedStore db now = inl new →
  is_Some (Agents.agents (agents old) !! id) →
  Server.agents s = agents new →
  ∀ ts nonce sig ip t t' x x' rnd,
    ¬ is_inl (Server.Reauthenticate masterKey hmac_sha256 id ts nonce sig ip t t' x x' rnd (foldl register s regs)).2.
Proof.
  intros Hw Hm Hn [a Ha] Hs ts nonce sig ip t t' x x' rnd. apply blank_refused.
  destruct (restart_lemma db now old Hw Hm) as (new' & E & Hr). unfold NewCachedStore in Hn. rewrite E in Hn. injection Hn as ->.
  assert (blank id s) as Hb.
  { exists (forget_agent a). rewrite Hs, (ra_agents _ _ (r_agents _ _ _ _ Hr)), lookup_fmap, Ha. done. }
  clear -Hb. revert s Hb. induction regs as [|r regs IH]; intros s Hb; [done|]. cbn [foldl]. apply IH.
  destruct r as [[[[[req now] now'] xid] rnd] hm]. by apply register_blank.
Qed.

(** ** The encryption keys after a restart *)

(** Neither the objects of the key service nor its store know the key. *)
Definition unknown (id : string) (k : Kms.State) : Prop :=
  Kms.cache k !! id = None ∧ Security.encryptionKeys (Kms.store k) !! id = None.

Lemma decrypt_unknown key n p k :
  free_of colon key.(Key.ID) = true → bytes_ok n → bytes_ok p → unknown key.(Key.ID) k →
  ∃ e, (Kms.Decrypt masterKey (Kms.versioned_text key n p) k).2 = Err e.
Proof.
  intros Hc Hn Hp [Hca Hst]. unfold Kms.Decrypt. rewrite Kms.split4_text by done. rewrite bool_decide_true by done. cbn [negb].
  rewrite !base64_roundtrip; [|by apply Seal_bytes|done].
  unfold Kms.getKey, Security.GetEncryptionKey, Security.get. rewrite Hca, Hst. cbn. eauto.
Qed.

Lemma new_kms_unknown id s :
  (∀ i x, Security.encryptionKeys s !! i = Some x → x.(EncryptionKey.ID) ≠ id) → Security.encryptionKeys s !! id = None →
  unknown id (Kms.NewKMS masterKey s).1.
Proof.
  intros Hid Hs. unfold Kms.NewKMS, Kms.loadCurrentKey, Security.GetCurrentEncryptionKey, Security.get_by. cbn [Kms.store].
  destruct (range_find _ _) as [[i x]|] eqn:E; [|done]. apply range_find_Some in E as [Hx _].
  unfold Kms.fromStorageKey. destruct (MasterKey_Decrypt _ _) as [m|e]; [|done]. split; [|done]. cbn.
  rewrite lookup_insert_ne; [done|]. by eapply Hid.
Qed.

Lemma initialize_unknown id now xid r n k : xid ≠ id → unknown id k → unknown id (Kms.Initialize masterKey now xid r n k).1.
Proof.
  intros Hx [Hc Hs]. unfold Kms.Initialize. destruct (Kms.currentKey k); [done|].
  unfold Kms.generateKey. destruct r as [material|]; [|done].
  unfold Kms.saveKey, Kms.toStorageKey. destruct (MasterKey_Encrypt _ _ _) as [enc|e]; [|done].
  unfold Kms.on_store, Security.SaveEncryptionKey, Kms.install, Kms.alloc. cbn.
  split; cbn; by rewrite lookup_insert_ne.
Qed.

(** C23: The key service of the server keeps its keys in the store, and no executor writes them
    to their table. What is encrypted under a key the table does not have cannot be
    decrypted after a restart, neither when the key service starts nor when it has made itself a
    new key. *)
Theorem restart_loses_keys db now old new k nonce p c :
  wf old → mirrors db old → NewCachedStore db now = inl new →
  Kms.wf masterKey k → fresh_nonce nonce → bytes_ok p → Kms.Encrypt nonce p k = Ok c →
  (∀ l key sk, Kms.currentKey k = Some l → Kms.heap k !! l = Some key →
     sk ∈ t_encryption_keys db → sk.(EncryptionKey.ID) ≠ key.(Key.ID)) →
  let k0 := (Kms.NewKMS masterKey (security new)).1 in
  (∃ e, (Kms.Decrypt masterKey c k0).2 = Err e) ∧
  ∀ now' xid material n', (∀ l key, Kms.currentKey k = Some l → Kms.heap k !! l = Some key → xid ≠ key.(Key.ID)) →
    ∃ e, (Kms.Decrypt masterKey c (Kms.Initialize masterKey now' xid material n' k0).1).2 = Err e.
Proof.
  intros Hw Hm Hn Hk Hnonce Hp Henc Hrow. destruct (restart_lemma db now old Hw Hm) as (new' & E & Hr).
  unfold NewCachedStore in Hn. rewrite E in Hn. injection Hn as ->.
  apply Kms.Encrypt_Ok in Henc as (l & key & n & Hcur & Hl & _ & -> & ->). destruct (Hnonce n eq_refl) as [_ Hb].
  destruct (Kms.wf_heap _ k Hk _ _ Hl) as (sk & Hsk & _). destruct (Kms.wf_keys _ k Hk _ _ Hsk) as (_ & Hcolon & _).
  pose proof (rs_keys _ _ _ (r_security _ _ _ _ Hr)) as Hkeys.
  assert (unknown key.(Key.ID) (Kms.NewKMS masterKey (security new)).1) as Hun.
  { apply new_kms_unknown.
    - intros i x [Hin _]%Hkeys. by eapply Hrow.
    - destruct (Security.encryptionKeys (security new) !! Key.ID key) as [x|] eqn:Ex; [|done]. exfalso.
      apply Hkeys in Ex as [Hin Hid]. by eapply Hrow. }
  split; [by apply decrypt_unknown|]. intros now' xid material n' Hx. apply decrypt_unknown; [done..|].
  apply initialize_unknown; [by eapply Hx|done].
Qed.

End fleet.

(** * Witnesses *)

(** The tables as the executors would have written them from a store, in one order. *)
Definition dump `{JSONMap} (s : MemoryStore) : Database :=
  let d := Projects.dep (projects s) in
  {| fails := λ _ _, None;
     t_users := values (Users.users (users s));
     t_sessions := values (Users.sessions (users s));
     t_api_keys := all_at (Users.keyHeap (users s)) (Users.apiKeys (users s));
     t_settings := values (Ops.settings (ops s));
     t_project_types := values (Projects.projectTypes (projects s));
     t_projects := all_at (Projects.projHeap (projects s)) (Projects.projects (projects s));
     t_project_webhooks := values (Projects.webhooks (projects s));
     t_secrets := values (Projects.secrets (projects s));
     t_agents := agent_row <$> values (Agents.agents (agents s));
     t_agent_binaries := values (Agents.agentBinaries (agents s));
     t_deployments := (λ r, mkDeploymentRow r None None) <$> values (Deployments.deployments d);
     t_deployment_logs := concat (values (Deployments.deploymentLogs d));
     t_deployment_rollbacks := values (Deployments.deploymentRollbacks d);
     t_audit_logs := Ops.auditLogs (ops s);
     t_blocked_ips := (λ b, (b, false)) <$> values (Ops.blockedIPs (ops s));
     t_agent_provision_jobs := [];
     t_ssh_host_keys := values (Misc.sshHostKeys (misc s));
     t_ssh_jump_servers := values (Misc.jumpServers (misc s));
     t_health_check_configs := values (Misc.healthCheckConfigs (misc s));
     t_certificate_authorities := []; t_agent_certificates := []; t_server_certificates := []; t_registration_tokens := [];
     t_source_credentials := []; t_revoked_certificates := []; t_encryption_keys := []; t_ssh_keys := [];
     t_cert_audit_events := [];
     t_acme_certificates := values (Security.acmeCertificates (security s));
     t_acme_accounts := values (Security.acmeAccounts (security s));
     t_recovery_codes := concat (values (Security.recoveryCodes (security s)));
     t_recipe_components := Ok <$> values (Recipes.recipeComponents (recipes s));
     t_playbooks := Ok <$> values (Recipes.playbooks (recipes s));
     t_playbook_activations := Ok <$> values (Recipes.playbookActivations (recipes s));
     t_playbook_variable_bindings := Ok <$> values (Recipes.variableBindings (recipes s));
     t_raw_command_approvals := Ok <$> values (Recipes.rawApprovals (recipes s)) |}.

Lemma dump_mirrors `{JSONMap} s : mirrors (dump s) s.
Proof.
  split; try done; try (intros x y Hx; by apply not_elem_of_nil in Hx); by eexists.
Qed.

(** Texts for maps of strings: their number in the enumeration, in binary. *)
Fixpoint pos_text (p : positive) : string :=
  match p with
  | xI p => String (Ascii.Ascii true false false false true true false false) (pos_text p)
  | xO p => String (Ascii.Ascii false false false false true true false false) (pos_text p)
  | xH => "x"
  end.
Fixpoint text_pos (s : string) : option positive :=
  match s with
  | String (Ascii.Ascii b false false false true true false false) s => (if b then xI else xO) <$> text_pos s
  | "x" => Some xH
  | _ => None
  end.

Lemma text_pos_text p : text_pos (pos_text p) = Some p.
Proof. induction p as [p IH|p IH|]; cbn in *; by rewrite ?IH. Qed.

Definition toy_json : JSONMap :=
  {| Marshal_map m := Some (pos_text (encode m)); Unmarshal_map s := text_pos s ≫= decode |}.
Lemma toy_json_laws : @JSONMapLaws toy_json.
Proof.
  split. intros m _. exists (pos_text (encode m)). split_and!; [done|by destruct (encode m)|by destruct (encode m)|].
  cbn. by rewrite text_pos_text; cbn; rewrite decode_encode.
Qed.

Section demo.
#[local] Existing Instance Kms.checksum_aead.
#[local] Existing Instance range_in_key_order.
#[local] Existing Instance CA.toy.
#[local] Existing Instance CA.toy_laws.
#[local] Existing Instance sort_by_exchange.
#[local] Existing Instance toy_json.
#[local] Existing Instance toy_json_laws.

(** Two agents, one with its secret and labels and one without; a permanent block and two
    audit entries. *)
Definition demo_known_agent : Agent :=
  Agent.mk "web-1" "host" (Some {["role" := "web"]}) "[]" "online" 0 0 "" [1; 2] "" "" "" "immediate" "" "" None "".

Definition demo_bare_agent : Agent := Agent.mk "web-2" "host2" None "[]" "online" 0 0 "" [] "" "" "" "immediate" "" "" None "".

Definition demo_ops : Ops.State :=
  Ops.mkState [AuditEntry.mk "e1" 10 "" "" "" "" "" "" "" "" ""; AuditEntry.mk "e2" 20 "" "" "" "" "" "" "" "" ""]
    ∅ {["10.0.0.1" := BlockedIP.mk "b1" "10.0.0.1" "" 5 0 ""]} ∅.

Definition demo_old : MemoryStore :=
  mkStore Users.empty Projects.empty (Agents.mkState {["web-1" := demo_known_agent; "web-2" := demo_bare_agent]} ∅ ∅) demo_ops Misc.empty Security.empty
    Recipes.empty.

Lemma demo_old_wf : wf demo_old.
Proof.
  split; cbn; try (intros k x Hx; done); [apply Users.users_wf_empty|apply Projects.projects_wf_empty| |
    |apply Security.security_wf_empty|apply Recipes.recipes_wf_empty].
  - split; cbn; try done. intros id a [[<- <-]|[_ [<- <-]%lookup_singleton_Some]]%lookup_insert_Some; done.
  - by intros ip b [<- <-]%lookup_singleton_Some.
Qed.

Lemma restart_restores_witness :
  ∃ new, NewCachedStore (dump demo_old) 100 = inl new ∧ restored (dump demo_old) 100 demo_old new ∧
    (∃ a, Agents.agents (agents new) !! "web-1" = Some a ∧ a.(Agent.Labels) = Some {["role" := "web"]}) ∧
    ∃ a, Agents.agents (agents new) !! "web-2" = Some a ∧ a.(Agent.Labels) = None.
Proof.
  destruct (restart_restores (dump demo_old) 100 demo_old demo_old_wf (dump_mirrors _)) as (new & E & Hr & Hl).
  exists new. split; [exact E|]. split; [exact Hr|]. split.
  - apply (Hl "web-1" demo_known_agent eq_refl). intros k v E0. cbn in E0.
    apply lookup_singleton_Some in E0 as [<- <-]. split; reflexivity.
  - apply (Hl "web-2" demo_bare_agent eq_refl). intros k v E0. cbn in E0. by rewrite lookup_empty in E0.
Defined.

Lemma restart_changes_witness :
  ∃ new, NewCachedStore (dump demo_old) 100 = inl new ∧ Ops.IsIPBlocked "10.0.0.1" 200 demo_ops = Ok true ∧
    Ops.IsIPBlocked "10.0.0.1" 200 (ops new) = Ok false.
Proof.
  destruct (restart_changes (dump demo_old) 100 demo_old demo_old_wf (dump_mirrors _) ltac:(lia)) as (new & E & Hb & _).
  exists new. split; [exact E|]. by apply (Hb "10.0.0.1" (BlockedIP.mk "b1" "10.0.0.1" "" 5 0 "")).
Defined.

Definition demo_again : registration :=
  (RegisterRequest.mk "web-1" "tok2" "host" None None, 40 * Second, 40 * Second, "x3", CA.demo_rnd false 253 6, Some [3; 4]).

Lemma restart_locks_agents_out_witness :
  ∃ new, NewCachedStore (dump demo_old) 100 = inl new ∧
    ¬ is_inl (Server.Reauthenticate Kms.demo_master toy_hmac "web-1" 0 [5] (toy_hmac [3; 4] (Server.reauth_message "web-1" 0 [5]))
      "" 0 0 "x4" "x5" (CA.demo_rnd false 252 7)
      (foldl (register Kms.demo_master) (Server.RegisterToken "web-1" "tok2" {| demo_server with Server.agents := agents new |})
         [demo_again])).2.
Proof.
  destruct (restart_lemma (dump demo_old) 100 demo_old demo_old_wf (dump_mirrors _)) as (new & E & _). exists new.
  assert (NewCachedStore (dump demo_old) 100 = inl new) as En by (unfold NewCachedStore; by rewrite E). split; [exact En|].
  apply (restart_locks_agents_out Kms.demo_master toy_hmac (dump demo_old) 100 demo_old new "web-1" [demo_again] _
    demo_old_wf (dump_mirrors _) En); [by eexists|done].
Defined.

Lemma demo_text_bytes : bytes_ok Kms.demo_text.
Proof. apply Forall_cons; split; [unfold is_byte; lia|]. apply Forall_cons; split; [unfold is_byte; lia|constructor]. Qed.

Lemma demo_encrypts : Kms.Encrypt (Some (Kms.demo_nonce 5)) Kms.demo_text Kms.demo = Ok Kms.demo_cipher.
Proof. by vm_compute. Qed.

Lemma restart_loses_keys_witness :
  Kms.Encrypt (Some (Kms.demo_nonce 5)) Kms.demo_text Kms.demo = Ok Kms.demo_cipher ∧
  ∃ new e, NewCachedStore (dump demo_old) 100 = inl new ∧
    (Kms.Decrypt Kms.demo_master Kms.demo_cipher (Kms.NewKMS Kms.demo_master (security new)).1).2 = Err e.
Proof.
  split; [exact demo_encrypts|]. destruct (restart_lemma (dump demo_old) 100 demo_old demo_old_wf (dump_mirrors _)) as (new & E & _).
  assert (NewCachedStore (dump demo_old) 100 = inl new) as En by (unfold NewCachedStore; by rewrite E).
  destruct (restart_loses_keys Kms.demo_master (dump demo_old) 100 demo_old new Kms.demo (Some (Kms.demo_nonce 5)) Kms.demo_text
    Kms.demo_cipher demo_old_wf (dump_mirrors _) En (proj1 Kms.demo_wf)) as [(e & He) _].
  - apply Kms.fresh_demo_nonce. unfold is_byte. lia.
  - by apply demo_text_bytes.
  - exact demo_encrypts.
  - intros l key sk _ _ Hin. exfalso. exact (not_elem_of_nil sk Hin).
  - exists new, e. split; [exact En|exact He].
Defined.

(** Loading again over a store that was loaded repeats the lists. *)
Lemma demo_reload_repeats :
  (len (Ops.auditLogs (ops (LoadFromDB (dump demo_old) 100 empty).1)),
   len (Ops.auditLogs (ops (Reload (dump demo_old) 100 (LoadFromDB (dump demo_old) 100 empty).1).1))) = (2, 4).
Proof. by vm_compute. Qed.

End demo.
End Loader.
