(* ===== verification/Totp.v ===== *)
(** One-time codes and recovery codes ([src/internal/security/totp.go], [recovery.go]).

    HMAC-SHA-1 is a parameter that answers 20 bytes; bcrypt is the one of [Services].
    Base 32 is that of [encoding/base32] without padding: a byte that is no digit is an
    error, line breaks are passed over, and digits left over that do not make a byte are
    dropped.  Letters are those of ASCII.  The clock and the random bytes are arguments. *)

From stdpp Require Import pretty.
From S2P Require Import GoStrings StoreBase ServiceBase ServiceErrors Models Services Crypto.

#[local] Open Scope string_scope.
#[local] Open Scope list_scope.
#[local] Open Scope Z_scope.

Class Hmac := {
  hmac_sha1 : list Z → list Z → list Z;
  hmac_size : ∀ key message, len (hmac_sha1 key message) = 20;
  hmac_bytes : ∀ key message, bytes_ok (hmac_sha1 key message)
}.

(** * Base 32 *)

Definition base32_char (n : Z) : Ascii.ascii := Ascii.ascii_of_nat (Z.to_nat (if n <? 26 then n + 65 else n + 24)).

Definition base32_value (c : Ascii.ascii) : option Z :=
  let n := Z.of_nat (Ascii.nat_of_ascii c) in
  if (65 <=? n) && (n <=? 90) then Some (n - 65)
  else if (50 <=? n) && (n <=? 55) then Some (n - 24)
  else None.

(** Five bytes are eight digits. *)
Definition base32_digits (b0 b1 b2 b3 b4 : Z) : list Z :=
  [Z.shiftr b0 3;
   Z.land (Z.lor (Z.shiftl b0 2) (Z.shiftr b1 6)) 31;
   Z.land (Z.shiftr b1 1) 31;
   Z.land (Z.lor (Z.shiftl b1 4) (Z.shiftr b2 4)) 31;
   Z.land (Z.lor (Z.shiftl b2 1) (Z.shiftr b3 7)) 31;
   Z.land (Z.shiftr b3 2) 31;
   Z.land (Z.lor (Z.shiftl b3 3) (Z.shiftr b4 5)) 31;
   Z.land b4 31].

Fixpoint base32_split (l : list Z) : list Z :=
  match l with
  | b0 :: b1 :: b2 :: b3 :: b4 :: l' => base32_digits b0 b1 b2 b3 b4 ++ base32_split l'
  | [b0; b1; b2; b3] => take 7 (base32_digits b0 b1 b2 b3 0)
  | [b0; b1; b2] => take 5 (base32_digits b0 b1 b2 0 0)
  | [b0; b1] => take 4 (base32_digits b0 b1 0 0 0)
  | [b0] => take 2 (base32_digits b0 0 0 0 0)
  | [] => []
  end.

Definition base32_encode (l : list Z) : string := String.string_of_list_ascii (base32_char <$> base32_split l).

Definition base32_bytes (v0 v1 v2 v3 v4 v5 v6 v7 : Z) : list Z :=
  [Z.land (Z.lor (Z.shiftl v0 3) (Z.shiftr v1 2)) 255;
   Z.land (Z.lor (Z.lor (Z.shiftl v1 6) (Z.shiftl v2 1)) (Z.shiftr v3 4)) 255;
   Z.land (Z.lor (Z.shiftl v3 4) (Z.shiftr v4 1)) 255;
   Z.land (Z.lor (Z.lor (Z.shiftl v4 7) (Z.shiftl v5 2)) (Z.shiftr v6 3)) 255;
   Z.land (Z.lor (Z.shiftl v6 5) v7) 255].

(** One, three or six digits at the end are dropped. *)
Fixpoint base32_join (ds : list Z) : list Z :=
  match ds with
  | v0 :: v1 :: v2 :: v3 :: v4 :: v5 :: v6 :: v7 :: ds' => base32_bytes v0 v1 v2 v3 v4 v5 v6 v7 ++ base32_join ds'
  | [v0; v1; v2; v3; v4; v5; v6] => take 4 (base32_bytes v0 v1 v2 v3 v4 v5 v6 0)
  | [v0; v1; v2; v3; v4] => take 3 (base32_bytes v0 v1 v2 v3 v4 0 0 0)
  | [v0; v1; v2; v3] => take 2 (base32_bytes v0 v1 v2 v3 0 0 0 0)
  | [v0; v1] => take 1 (base32_bytes v0 v1 0 0 0 0 0 0)
  | _ => []
  end.

Definition base32_decode (s : string) : option (list Z) :=
  base32_join <$> mapM base32_value (String.list_ascii_of_string (drop_breaks s)).

(** * One-time codes *)

Record TOTPConfig := mkTOTPConfig { Issuer : string; Digits : Z; Period : Z }.

Definition DefaultTOTPConfig : TOTPConfig := mkTOTPConfig "vcdeploy" 6 30.

(** [random] is what the generator gives, 20 bytes, or [None] for its error. *)
Definition GenerateTOTPSecret (random : option (list Z)) : string + goerr :=
  match random with
  | None => inr (Wrapf "generating secret" (Text "read random"))
  | Some secret => inl (base32_encode secret)
  end.

(** [binary.BigEndian.PutUint64] and [Uint32] *)
Definition counterBytes (counter : Z) : list Z := (λ i, Z.land (Z.shiftr counter (8 * (7 - i))) 255) <$> seqZ 0 8.
Definition Uint32 (b : list Z) : Z := foldl (λ acc x, acc * 256 + x) 0 b.

(** [for i := 0; i < n; i++ { mod *= 10 }] on 32 bits. *)
Fixpoint power10 (n : nat) : Z := match n with O => 1 | S n' => (power10 n' * 10) mod 2 ^ 32 end.

(** [%0nd] of a number that is not negative. *)
Definition zero_padded (n : nat) (v : Z) : string :=
  let digits := pretty v in
  String.string_of_list_ascii (replicate (n - String.length digits) (Ascii.ascii_of_nat 48)) +:+ digits.

(** Dynamic truncation. *)
Definition truncated (hash : list Z) : result Z :=
  match last hash with
  | None => Panic
  | Some b =>
      let offset := Z.land b 15 in
      match slice hash offset (offset + 4) with
      | Ok word => Ok (Z.land (Uint32 word) 2147483647)
      | Err e => Err e
      | Panic => Panic
      end
  end.

Section totp.
Context `{Hmac}.

(** For a number of digits that is not negative; a division by zero is a panic. *)
Definition generateTOTP (secret : string) (timestamp : Z) (config : TOTPConfig) : result string :=
  match base32_decode secret with
  | None => Ok ""
  | Some key =>
      if Period config =? 0 then Panic
      else
        let counter := Z.quot timestamp (Period config) mod 2 ^ 64 in
        match truncated (hmac_sha1 key (counterBytes counter)) with
        | Ok code =>
            let n := Z.to_nat (Digits config) in
            if power10 n =? 0 then Panic else Ok (zero_padded n (code mod power10 n))
        | Err e => Err e
        | Panic => Panic
        end
  end.

Definition GenerateTOTPCode := generateTOTP.

(** The loop over the offsets. *)
Fixpoint matches_any (secret code : string) (config : TOTPConfig) (times : list Z) : result bool :=
  match times with
  | [] => Ok false
  | t :: times' =>
      match generateTOTP secret t config with
      | Ok expected => if bool_decide (expected = code) then Ok true else matches_any secret code config times'
      | Err e => Err e
      | Panic => Panic
      end
  end.

(** [now] is the clock in seconds. *)
Definition ValidateTOTP (secret code : string) (config : TOTPConfig) (now : Z) : result bool :=
  matches_any secret code config [wrap64 (now - Period config); now; wrap64 (now + Period config)].

End totp.

Definition GenerateTOTPURI (secret username : string) (config : TOTPConfig) : string :=
  "otpauth://totp/" +:+ Issuer config +:+ ":" +:+ username +:+ "?secret=" +:+ secret +:+ "&issuer=" +:+ Issuer config +:+
  "&digits=" +:+ pretty (Digits config) +:+ "&period=" +:+ pretty (Period config).

(** * Recovery codes *)

Definition RecoveryCodeCount : nat := 8.
Definition RecoveryCodeLength : nat := 8.
Definition recoveryCodeChars : list Ascii.ascii := String.list_ascii_of_string "23456789ABCDEFGHJKMNPQRSTUVWXYZ".

(** [random] is what the generator gives, as many bytes as the code is long. *)
Definition generateCode (random : option (list Z)) : string + goerr :=
  match random with
  | None => inr (Text "read random")
  | Some b => inl (String.string_of_list_ascii (pick recoveryCodeChars <$> b))
  end.

Definition upper (c : Ascii.ascii) : Ascii.ascii :=
  let n := Ascii.nat_of_ascii c in
  if ((97 <=? n) && (n <=? 122))%nat then Ascii.ascii_of_nat (n - 32) else c.

Fixpoint ToUpper (s : string) : string :=
  match s with EmptyString => EmptyString | String c s' => String (upper c) (ToUpper s') end.

Section recovery.
Context `{Bcrypt}.

(** The codes and their hashes; the first failure is the result. *)
Fixpoint generate_codes (n : nat) (random : nat → option (list Z)) : (list string * list string) + goerr :=
  match n with
  | O => inl ([], [])
  | S n' =>
      match generateCode (random O) with
      | inr e => inr e
      | inl code =>
          match HashPassword code with
          | None => inr (Text "bcrypt")
          | Some h =>
              match generate_codes n' (λ i, random (S i)) with
              | inl (codes, hashes) => inl (code :: codes, h :: hashes)
              | inr e => inr e
              end
          end
      end
  end.

Definition GenerateRecoveryCodes (random : nat → option (list Z)) : (list string * list string) + goerr :=
  generate_codes RecoveryCodeCount random.

Fixpoint first_match (code : string) (hashes : list string) (i : Z) : Z :=
  match hashes with
  | [] => -1
  | hash :: hashes' => if VerifyPassword code hash then i else first_match code hashes' (i + 1)
  end.

Definition VerifyRecoveryCode (code : string) (hashes : list string) : Z :=
  first_match (ToUpper (TrimSpace code)) hashes 0.

End recovery.

Definition FormatRecoveryCodes (codes : list string) : list string :=
  (λ code, if bool_decide (String.length code = RecoveryCodeLength)
           then take_chars 4 code +:+ "-" +:+ drop_chars 4 code else code) <$> codes.

Definition NormalizeRecoveryCode (code : string) : string :=
  ReplaceAll (ReplaceAll (ToUpper (TrimSpace code)) "-" "") " " "".

(** * Lemmas: base 32 *)

Lemma base32_char_value n : 0 ≤ n < 32 → base32_value (base32_char n) = Some n.
Proof.
  intros Hn. assert (Forall (λ n, base32_value (base32_char n) = Some n) (seqZ 0 32)) as Hall.
  { vm_compute seqZ. repeat (constructor; [by vm_compute|]). constructor. }
  rewrite Forall_forall in Hall. apply Hall, elem_of_seqZ. lia.
Qed.

Lemma base32_char_plain n :
  0 ≤ n < 32 → Ascii.eqb (base32_char n) newline || Ascii.eqb (base32_char n) (Ascii.ascii_of_nat 13) = false.
Proof.
  intros Hn. assert (Forall (λ n, Ascii.eqb (base32_char n) newline || Ascii.eqb (base32_char n) (Ascii.ascii_of_nat 13) = false)
    (seqZ 0 32)) as Hall.
  { vm_compute seqZ. repeat (constructor; [by vm_compute|]). constructor. }
  rewrite Forall_forall in Hall. apply Hall, elem_of_seqZ. lia.
Qed.

Definition quintet (n : Z) : Prop := 0 ≤ n < 32.

(** The digits in arithmetic. *)
Lemma base32_digits_spec a b c d e :
  is_byte a → is_byte b → is_byte c → is_byte d → is_byte e →
  base32_digits a b c d e =
    [a / 8; a mod 8 * 4 + b / 64; b / 2 mod 32; b mod 2 * 16 + c / 16; c mod 16 * 2 + d / 128; d / 4 mod 32;
     d mod 4 * 8 + e / 32; e mod 32].
Proof.
  unfold is_byte. intros Ha Hb Hc Hd He. unfold base32_digits. rewrite !Z.shiftr_div_pow2 by lia.
  rewrite !lor_shiftl by (try lia; Z.to_euclidean_division_equations; lia).
  change 31 with (Z.ones 5). rewrite !Z.land_ones by lia.
  repeat (f_equal; try (Z.to_euclidean_division_equations; lia)).
Qed.

Lemma base32_digits_range a b c d e :
  is_byte a → is_byte b → is_byte c → is_byte d → is_byte e → Forall quintet (base32_digits a b c d e).
Proof.
  intros Ha Hb Hc Hd He. rewrite base32_digits_spec by done. unfold is_byte, quintet in *.
  repeat (constructor; [Z.to_euclidean_division_equations; lia|]). constructor.
Qed.

Lemma base32_bytes_spec v0 v1 v2 v3 v4 v5 v6 v7 :
  quintet v0 → quintet v1 → quintet v2 → quintet v3 → quintet v4 → quintet v5 → quintet v6 → quintet v7 →
  base32_bytes v0 v1 v2 v3 v4 v5 v6 v7 =
    [v0 * 8 + v1 / 4; v1 mod 4 * 64 + v2 * 2 + v3 / 16; v3 mod 16 * 16 + v4 / 2; v4 mod 2 * 128 + v5 * 4 + v6 / 8;
     v6 mod 8 * 32 + v7].
Proof.
  unfold quintet. intros. unfold base32_bytes. rewrite <- !Z.lor_assoc, !Z.shiftr_div_pow2 by lia.
  rewrite !lor_shiftl by (rewrite ?lor_shiftl by (try lia; Z.to_euclidean_division_equations; lia); try lia;
    Z.to_euclidean_division_equations; lia).
  change 255 with (Z.ones 8). rewrite !Z.land_ones by lia.
  repeat (f_equal; try (Z.to_euclidean_division_equations; lia)).
Qed.

(** Eight digits of five bytes are those bytes. *)
Lemma base32_bytes_digits a b c d e :
  is_byte a → is_byte b → is_byte c → is_byte d → is_byte e →
  match base32_digits a b c d e with
  | [v0; v1; v2; v3; v4; v5; v6; v7] => base32_bytes v0 v1 v2 v3 v4 v5 v6 v7 = [a; b; c; d; e]
  | _ => False
  end.
Proof.
  intros Ha Hb Hc Hd He. rewrite base32_digits_spec by done. unfold is_byte in *.
  rewrite base32_bytes_spec by (unfold quintet; Z.to_euclidean_division_equations; lia).
  repeat (f_equal; try (Z.to_euclidean_division_equations; lia)).
Qed.

#[local] Hint Extern 1 (is_byte 0) => (unfold is_byte; lia) : core.

Lemma base32_split_range l : bytes_ok l → Forall quintet (base32_split l).
Proof.
  remember (length l) as n eqn:En. revert l En. induction (lt_wf n) as [n _ IH]. intros l -> Hl.
  destruct l as [|a [|b [|c [|d [|e l]]]]]; rewrite ?Forall_cons in Hl; [constructor|..];
    cbn [base32_split]; destruct_and?; try (apply Forall_take, base32_digits_range; auto).
  apply Forall_app. split; [by apply base32_digits_range|]. by apply (IH (length l)); [simpl; lia|..].
Qed.

(** The last digits: those that are missing are those of zeros. *)
Ltac short_join :=
  rewrite base32_digits_spec by auto; cbn [take base32_join]; unfold is_byte in *;
  rewrite base32_bytes_spec by (unfold quintet; Z.to_euclidean_division_equations; lia); cbn [take];
  repeat (f_equal; try (Z.to_euclidean_division_equations; lia)).

(** Joining undoes splitting. *)
Lemma base32_join_split l : bytes_ok l → base32_join (base32_split l) = l.
Proof.
  remember (length l) as n eqn:En. revert l En. induction (lt_wf n) as [n _ IH]. intros l -> Hl.
  destruct l as [|a [|b [|c [|d [|e l]]]]]; rewrite ?Forall_cons in Hl; [done|..]; destruct_and?;
    cbn [base32_split].
  - short_join.
  - short_join.
  - short_join.
  - short_join.
  - pose proof (base32_bytes_digits a b c d e) as E. unfold base32_digits in E |- *. cbn [app base32_join].
    rewrite E by done. cbn [app]. do 5 f_equal. by apply (IH (length l)); [simpl; lia|..].
Qed.

Lemma base32_roundtrip l : bytes_ok l → base32_decode (base32_encode l) = Some l.
Proof.
  intros Hl. unfold base32_decode, base32_encode. pose proof (base32_split_range l Hl) as Hr.
  assert (∀ ds, Forall quintet ds →
    drop_breaks (String.string_of_list_ascii (base32_char <$> ds)) = String.string_of_list_ascii (base32_char <$> ds)) as Hd.
  { induction 1 as [|d ds Hd _ IH]; [done|]. cbn. rewrite base32_char_plain by done. by rewrite IH. }
  rewrite Hd, String.list_ascii_of_string_of_list_ascii by done.
  assert (mapM base32_value (base32_char <$> base32_split l) = Some (base32_split l)) as ->.
  { apply mapM_Some. induction Hr as [|d ds Hq _ IH]; constructor; [by apply base32_char_value|exact IH]. }
  cbn. by rewrite base32_join_split.
Qed.

(** * Lemmas: codes *)

Lemma power10_small n : (n ≤ 9)%nat → power10 n = 10 ^ Z.of_nat n.
Proof.
  intros Hn. assert (Forall (λ n, power10 n = 10 ^ Z.of_nat n) (seq 0 10)) as Hall.
  { cbn [seq]. repeat (constructor; [by vm_compute|]). constructor. }
  rewrite Forall_forall in Hall. apply Hall, elem_of_seq. lia.
Qed.

(** Two divides ten: from 32 digits on the modulus is zero. *)
Lemma power10_zero n : power10 n = 0 ↔ (32 ≤ n)%nat.
Proof.
  split.
  - intros E. destruct (decide (32 ≤ n)%nat) as [?|Hlt]; [done|exfalso].
    assert (Forall (λ n, power10 n ≠ 0) (seq 0 32)) as Hall.
    { cbn [seq]. repeat (constructor; [by vm_compute|]). constructor. }
    rewrite Forall_forall in Hall. apply (Hall n); [|done]. apply elem_of_seq. lia.
  - intros Hn. assert (∀ k, power10 (32 + k) = 0) as Hz.
    { intros k. rewrite Nat.add_comm. induction k as [|k IH]; [by vm_compute|].
      change (power10 (S k + 32)) with ((power10 (k + 32) * 10) mod 2 ^ 32). by rewrite IH. }
    rewrite <- (Hz (n - 32)%nat). f_equal. lia.
Qed.

Lemma power10_nonneg n : 0 ≤ power10 n.
Proof. destruct n; cbn [power10]; [lia|]. apply Z.mod_pos_bound. lia. Qed.

(** The offset is inside the hash. *)
Lemma truncated_hash hash : len hash = 20 → bytes_ok hash → ∃ code, truncated hash = Ok code ∧ 0 ≤ code < 2 ^ 31.
Proof.
  intros Hl Hb. unfold truncated. destruct (last hash) as [b|] eqn:E.
  2: { apply last_None in E as ->. done. }
  change 15 with (Z.ones 4). rewrite Z.land_ones by lia. pose proof (Z.mod_pos_bound b (2 ^ 4) ltac:(lia)) as Ho.
  unfold slice. rewrite !(proj2 (Z.leb_le _ _)) by lia. cbn [andb]. eexists. split; [reflexivity|].
  change 2147483647 with (Z.ones 31). rewrite Z.land_ones by lia. apply Z.mod_pos_bound. lia.
Qed.

Lemma string_of_replicate_length n c : String.length (String.string_of_list_ascii (replicate n c)) = n.
Proof. induction n as [|n IH]; [done|]. cbn. by rewrite IH. Qed.

Lemma zero_padded_length n v : (0 < n)%nat → 0 ≤ v < 10 ^ Z.of_nat n → String.length (zero_padded n v) = n.
Proof.
  intros Hn Hv. unfold zero_padded. rewrite length_app_string, string_of_replicate_length.
  pose proof (length_pretty v n Hn Hv). lia.
Qed.

Lemma zero_padded_digits n v : 0 ≤ v → all_chars is_digit (zero_padded n v) = true.
Proof.
  intros Hv. unfold zero_padded. rewrite all_chars_app. apply andb_true_iff. split.
  - induction (n - String.length (pretty v))%nat as [|k IH]; [done|]. exact IH.
  - destruct v as [|p|p]; [done| |lia]. apply (pretty_N_digits (N.pos p)).
Qed.

(** * Properties *)

Section properties.
Context `{Hmac}.

(** A configured number of digits makes codes of that length up to nine digits; from 32
    digits on every code of a readable secret is a division by zero. *)
Lemma generateTOTP_spec secret key t config :
  base32_decode secret = Some key → Period config ≠ 0 →
  ∃ code, 0 ≤ code < 2 ^ 31 ∧
    generateTOTP secret t config =
      let n := Z.to_nat (Digits config) in
      if power10 n =? 0 then Panic else Ok (zero_padded n (code mod power10 n)).
Proof.
  intros Hk Hp. unfold generateTOTP. rewrite Hk, (proj2 (Z.eqb_neq _ _) Hp).
  destruct (truncated_hash (hmac_sha1 key (counterBytes (Z.quot t (Period config) mod 2 ^ 64))) (hmac_size _ _) (hmac_bytes _ _))
    as (code & -> & Hc).
  exists code. done.
Qed.

(** for a readable secret and a period other than zero, [generateTOTP] indexes inside
    the hash and fails exactly when 32 digits or more are configured, because the modulus
    has wrapped around to zero; for one to nine digits it gives a text of exactly that many
    decimal digits. *)
Theorem code_digits secret key t config :
  base32_decode secret = Some key → Period config ≠ 0 → 0 ≤ Digits config →
  (generateTOTP secret t config = Panic ↔ 32 ≤ Digits config) ∧
  (1 ≤ Digits config ≤ 9 →
   ∃ code, generateTOTP secret t config = Ok code ∧ Z.of_nat (String.length code) = Digits config ∧
     all_chars is_digit code = true).
Proof.
  intros Hk Hp Hd. destruct (generateTOTP_spec secret key t config Hk Hp) as (code & Hc & ->). cbv zeta. split.
  - destruct (Z.eqb_spec (power10 (Z.to_nat (Digits config))) 0) as [E|E]; rewrite power10_zero in E; split; [lia|done|done|lia].
  - intros Hn. rewrite power10_small by lia. rewrite Z2Nat.id by lia.
    rewrite (proj2 (Z.eqb_neq _ _)) by (apply Z.pow_nonzero; lia). eexists. split; [done|].
    pose proof (Z.mod_pos_bound code (10 ^ Digits config) (Z.pow_pos_nonneg 10 _ eq_refl Hd)) as Hm.
    split; [|apply zero_padded_digits, Hm]. rewrite zero_padded_length; [lia|lia|by rewrite Z2Nat.id].
Qed.

(** A secret the generator made can be read. *)
Lemma secret_readable random secret :
  bytes_ok random → GenerateTOTPSecret (Some random) = inl secret → base32_decode secret = Some random.
Proof. intros Hr [= <-]. by apply base32_roundtrip. Qed.

(** A code depends on the period its time lies in. *)
Lemma generateTOTP_period secret t t' :
  0 ≤ t → 0 ≤ t' → t / 30 = t' / 30 → generateTOTP secret t DefaultTOTPConfig = generateTOTP secret t' DefaultTOTPConfig.
Proof.
  intros Ht Ht' E. unfold generateTOTP. cbn [Period DefaultTOTPConfig]. rewrite !Z.quot_div_nonneg by lia. by rewrite E.
Qed.

Lemma generateTOTP_default secret t :
  ∃ code, generateTOTP secret t DefaultTOTPConfig = Ok code.
Proof.
  destruct (base32_decode secret) as [key|] eqn:E; [|by exists ""; unfold generateTOTP; rewrite E].
  destruct (generateTOTP_spec secret key t DefaultTOTPConfig E) as (code & _ & ->); [done|]. by eexists.
Qed.

Lemma matches_any_spec secret code times :
  ∃ b, matches_any secret code DefaultTOTPConfig times = Ok b ∧
    (b = true ↔ ∃ t, t ∈ times ∧ generateTOTP secret t DefaultTOTPConfig = Ok code).
Proof.
  induction times as [|t times (b & IH & Hb)]; cbn [matches_any].
  - exists false. split; [done|]. split; [done|]. intros (t & Ht & _). by apply not_elem_of_nil in Ht.
  - destruct (generateTOTP_default secret t) as [c Hc]. rewrite Hc. case_bool_decide as E.
    + exists true. split; [done|]. split; [intros _; exists t|done]. split; [apply list_elem_of_here|congruence].
    + exists b. split; [done|]. rewrite Hb. split; intros (u & Hu & Hg); exists u.
      * split; [by apply list_elem_of_further|done].
      * apply elem_of_cons in Hu as [->|Hu]; [congruence|done].
Qed.

Lemma exists_one_of (P : Z → Prop) (x y z : Z) :
  (∃ t, t ∈ [x; y; z] ∧ P t) ↔ P x ∨ P y ∨ P z.
Proof.
  setoid_rewrite elem_of_cons. setoid_rewrite elem_of_cons. setoid_rewrite list_elem_of_singleton. naive_solver.
Qed.

(** C12: with the default configuration [ValidateTOTP] never fails, and accepts exactly the
    codes that the secret has in the current period of 30 seconds, the one before and the
    one after. *)
Theorem totp_window secret code now :
  30 ≤ now → now + 30 ≤ int64_max →
  ∃ b, ValidateTOTP secret code DefaultTOTPConfig now = Ok b ∧
    (b = true ↔
     ∃ t, 0 ≤ t ∧ -1 ≤ t / 30 - now / 30 ≤ 1 ∧ generateTOTP secret t DefaultTOTPConfig = Ok code).
Proof.
  intros Hn Hm. unfold ValidateTOTP. cbn [Period DefaultTOTPConfig].
  unfold int64_max in Hm. rewrite !wrap64_id by (unfold in_int64, int64_min, int64_max; lia).
  destruct (matches_any_spec secret code [now - 30; now; now + 30]) as (b & -> & Hb). exists b. split; [done|].
  rewrite Hb. split.
  - rewrite exists_one_of. clear -Hn. intros [Hg|[Hg|Hg]]; eexists; (split_and!; [..|exact Hg]);
      Z.to_euclidean_division_equations; lia.
  - intros (t & Ht & Hd & Hg).
    assert (∃ t', t' ∈ [now - 30; now; now + 30] ∧ 0 ≤ t' ∧ t / 30 = t' / 30) as (t' & Hin & Ht' & E).
    { rewrite !exists_one_of. clear -Hn Hd. Z.to_euclidean_division_equations; lia. }
    exists t'. by rewrite <- (generateTOTP_period secret t t' Ht Ht' E).
Qed.

(** An authenticator whose clock is at most a period off is accepted. *)
Lemma authenticator_accepted random secret t now :
  bytes_ok random → GenerateTOTPSecret (Some random) = inl secret →
  30 ≤ now → now + 30 ≤ int64_max → 0 ≤ t → now - 30 ≤ t ≤ now + 30 →
  ∃ code, generateTOTP secret t DefaultTOTPConfig = Ok code ∧ String.length code = 6%nat ∧
    ValidateTOTP secret code DefaultTOTPConfig now = Ok true.
Proof.
  intros Hr Hs Hn Hm Ht Hd. pose proof (secret_readable _ _ Hr Hs) as Hk.
  destruct (generateTOTP_spec secret random t DefaultTOTPConfig Hk) as (code & Hc & E); [done|].
  cbv zeta in E. change (Z.to_nat (Digits DefaultTOTPConfig)) with 6%nat in E. rewrite power10_small in E by lia.
  eexists. split; [exact E|]. split.
  - apply zero_padded_length; [lia|]. apply Z.mod_pos_bound. lia.
  - destruct (totp_window secret (zero_padded 6 (code mod 10 ^ Z.of_nat 6)) now Hn Hm) as (b & -> & Hb). f_equal.
    apply Hb. exists t. split_and!; [done|Z.to_euclidean_division_equations; lia..|exact E].
Qed.

End properties.

(** ** Recovery codes *)

Definition dash : Ascii.ascii := Eval compute in Ascii.ascii_of_nat 45.
Definition blank : Ascii.ascii := Eval compute in space.

(** What the generator writes is upper case without dashes, blanks and spaces, and is got
    back from lower case. *)
Definition code_char (c : Ascii.ascii) : Prop :=
  upper c = c ∧ upper (lower c) = c ∧ is_space c = false ∧ is_space (lower c) = false ∧
  Ascii.eqb c dash = false ∧ Ascii.eqb c blank = false.

Lemma code_chars : Forall code_char recoveryCodeChars.
Proof. vm_compute recoveryCodeChars. unfold code_char. repeat (constructor; [by vm_compute|]). constructor. Qed.

Definition code_text (s : string) : Prop := Forall code_char (String.list_ascii_of_string s).

Lemma generateCode_spec b code :
  generateCode (Some b) = inl code → String.length code = length b ∧ code_text code.
Proof.
  intros [= <-]. split.
  - rewrite <- (length_fmap (pick recoveryCodeChars) b). generalize (pick recoveryCodeChars <$> b). intros l.
    induction l as [|c l IH]; [done|]. cbn. by rewrite IH.
  - unfold code_text. rewrite String.list_ascii_of_string_of_list_ascii. apply Forall_fmap, Forall_forall.
    intros x _. pose proof code_chars as Hc. rewrite Forall_forall in Hc. apply Hc, pick_in. done.
Qed.

Lemma ToUpper_app a b : ToUpper (a +:+ b) = ToUpper a +:+ ToUpper b.
Proof. induction a as [|c a IH]; [done|]. exact (f_equal (String (upper c)) IH). Qed.

Lemma trim_left_plain s : all_chars (λ c, negb (is_space c)) s = true → trim_left s = s.
Proof. destruct s as [|c s]; [done|]. cbn. intros [Hc _]%andb_true_iff. by destruct (is_space c). Qed.

Lemma trim_right_plain s : all_chars (λ c, negb (is_space c)) s = true → trim_right s = s.
Proof.
  induction s as [|c s IH]; [done|]. cbn. intros [Hc Hs]%andb_true_iff. rewrite IH by done.
  destruct s; [by destruct (is_space c)|done].
Qed.

Lemma TrimSpace_plain s : all_chars (λ c, negb (is_space c)) s = true → TrimSpace s = s.
Proof. intros Hs. unfold TrimSpace. by rewrite trim_left_plain, trim_right_plain. Qed.

(** The text without the dashes and blanks, which [NormalizeRecoveryCode] leaves. *)
Lemma code_replaced s x : code_text s → x = "-" ∨ x = " " → ReplaceAll s x "" = s.
Proof.
  unfold code_text. intros Hs Hx. induction s as [|c s IH]; [by destruct Hx as [-> | ->]|].
  cbn in Hs. apply Forall_cons in Hs as [(_ & _ & _ & _ & Hd & Hb) Hs].
  unfold dash, blank in *. destruct Hx as [-> | ->]; rewrite ReplaceAll_char, ?Hd, ?Hb, IH; auto.
Qed.

Lemma code_plain s : code_text s →
  ToUpper s = s ∧ ToUpper (ToLower s) = s ∧
  all_chars (λ c, negb (is_space c)) s = true ∧ all_chars (λ c, negb (is_space c)) (ToLower s) = true.
Proof.
  unfold code_text. induction s as [|c s IH]; [done|]. intros Hs. cbn in Hs. apply Forall_cons in Hs as [Hc Hs].
  destruct Hc as (U & L & Sp & Sl & _), (IH Hs) as (IU & IL & IS & ISl).
  cbn. by rewrite U, L, Sp, Sl, IU, IL, IS, ISl.
Qed.

(** Typed with a dash anywhere, in capitals or not, a code is read back. *)
Lemma normalize_dashed a b (low : bool) :
  code_text a → code_text b →
  NormalizeRecoveryCode (if low then ToLower (a +:+ "-" +:+ b) else a +:+ "-" +:+ b) = a +:+ b.
Proof.
  intros Ha Hb. destruct (code_plain a Ha) as (Ua & La & Sa & Sla), (code_plain b Hb) as (Ub & Lb & Sb & Slb).
  unfold NormalizeRecoveryCode.
  assert (∀ x y, ToLower (x +:+ y) = ToLower x +:+ ToLower y) as Hl
    by (intros x y; induction x as [|c x IH]; [done|exact (f_equal (String (lower c)) IH)]).
  assert (ToUpper (TrimSpace (if low then ToLower (a +:+ "-" +:+ b) else a +:+ "-" +:+ b)) = a +:+ "-" +:+ b) as ->.
  { destruct low.
    - rewrite !Hl, TrimSpace_plain by (rewrite !all_chars_app, Sla, Slb; done). by rewrite !ToUpper_app, La, Lb.
    - rewrite TrimSpace_plain by (rewrite !all_chars_app, Sa, Sb; done). by rewrite !ToUpper_app, Ua, Ub. }
  rewrite !ReplaceAll_app, (code_replaced a "-"), (code_replaced b "-"), (code_replaced a " "), (code_replaced b " ") by auto.
  done.
Qed.

Lemma code_text_app a b : code_text (a +:+ b) ↔ code_text a ∧ code_text b.
Proof.
  unfold code_text. induction a as [|c a IH]; [cbn; naive_solver|].
  change (String c a +:+ b) with (String c (a +:+ b)). cbn [String.list_ascii_of_string]. rewrite !Forall_cons, IH. tauto.
Qed.

Section recovery_properties.
Context `{Bcrypt}.

Lemma generate_codes_spec n random codes hashes :
  (∀ i, is_Some (random i) ∧ ∀ b, random i = Some b → length b = RecoveryCodeLength) →
  generate_codes n random = inl (codes, hashes) →
  length codes = n ∧
  Forall2 (λ code hash, String.length code = RecoveryCodeLength ∧ code_text code ∧ VerifyPassword code hash = true) codes hashes.
Proof.
  revert random codes hashes. induction n as [|n IH]; intros random codes hashes Hr.
  - intros [= <- <-]. by split.
  - cbn [generate_codes]. destruct (Hr O) as [[b E] Hb]. specialize (Hb b E).
    destruct (generateCode (random O)) as [code|e] eqn:Ec; [|done]. rewrite E in Ec. apply generateCode_spec in Ec as [Hl Ht].
    destruct (HashPassword code) as [h|] eqn:Eh; [|done].
    destruct (generate_codes n (λ i, random (S i))) as [[cs hs]|e] eqn:Eg; [|done].
    intros [= <- <-]. destruct (IH _ _ _ (λ i, Hr (S i)) Eg) as [IHl IHf]. split; [cbn; by rewrite IHl|].
    constructor; [|done]. split_and!; [congruence|done|by apply verify_hashed].
Qed.

(** C13: [GenerateRecoveryCodes] makes eight codes and their hashes, and every code, typed
    as [FormatRecoveryCodes] shows it with the dash, in capitals or in small letters, is
    brought by [NormalizeRecoveryCode] to the text its hash verifies. *)
Theorem recovery_codes_read_back random codes hashes :
  (∀ i, is_Some (random i) ∧ ∀ b, random i = Some b → length b = RecoveryCodeLength) →
  GenerateRecoveryCodes random = inl (codes, hashes) →
  length codes = RecoveryCodeCount ∧
  Forall2 (λ shown hash, ∀ low : bool,
    VerifyPassword (NormalizeRecoveryCode (if low then ToLower shown else shown)) hash = true) (FormatRecoveryCodes codes) hashes.
Proof.
  intros Hr Hg. destruct (generate_codes_spec _ _ _ _ Hr Hg) as [Hl Hf]. split; [done|].
  unfold FormatRecoveryCodes. apply Forall2_fmap_l. eapply Forall2_impl; [exact Hf|].
  intros code hash (Hlen & Ht & Hv) low. unfold compose. rewrite bool_decide_true by done.
  rewrite <- (take_drop_chars 4 code) in Ht. apply code_text_app in Ht as [Ha Hb].
  by rewrite (normalize_dashed _ _ low Ha Hb), take_drop_chars.
Qed.

End recovery_properties.

Section demo.
#[local] Existing Instance toy_bcrypt.

(** A keyed sum instead of HMAC. *)
#[local] Instance toy_hmac : Hmac.
Proof.
  refine {| hmac_sha1 key m := (λ i, (foldl (λ a x, a * 31 + x) i (key ++ m)) mod 256) <$> seqZ 0 20 |}.
  - intros key m. unfold len. by rewrite length_fmap.
  - intros key m. apply Forall_fmap, Forall_forall. intros i _. apply Z.mod_pos_bound. lia.
Defined.

Definition demo_secret : string := base32_encode [72; 101; 108; 108; 111; 33; 222; 173; 190; 239].

Lemma demo_readable : base32_decode demo_secret = Some [72; 101; 108; 108; 111; 33; 222; 173; 190; 239].
Proof. vm_compute. reflexivity. Qed.

Lemma code_digits_witness :
  generateTOTP demo_secret 59 (mkTOTPConfig "i" 32 30) = Panic ∧
  ∃ code, generateTOTP demo_secret 59 DefaultTOTPConfig = Ok code ∧ Z.of_nat (String.length code) = 6.
Proof.
  pose proof demo_readable as Hk. split.
  - refine (proj2 (proj1 (code_digits demo_secret _ 59 (mkTOTPConfig "i" 32 30) Hk _ _)) _); cbn; lia.
  - destruct (proj2 (code_digits demo_secret _ 59 DefaultTOTPConfig Hk ltac:(cbn; lia) ltac:(cbn; lia)) ltac:(cbn; lia))
      as (c & E & L & _). exists c. split; [exact E|exact L].
Defined.

Lemma totp_window_witness :
  ∃ code, generateTOTP demo_secret 1000 DefaultTOTPConfig = Ok code ∧
    ValidateTOTP demo_secret code DefaultTOTPConfig 1021 = Ok true.
Proof.
  destruct (generateTOTP_default demo_secret 1000) as [code E]. exists code. split; [exact E|].
  destruct (totp_window demo_secret code 1021 ltac:(lia) ltac:(unfold int64_max; lia)) as (b & -> & Hb). f_equal. apply Hb.
  exists 1000. split; [lia|]. split; [vm_compute; split; discriminate|exact E].
Defined.

(** The bytes of the code number [i]. *)
Definition demo_random (i : nat) : option (list Z) := Some ((λ k, k * 37 + Z.of_nat i * 11) <$> seqZ 0 8).

Lemma recovery_codes_read_back_witness :
  ∃ codes hashes, GenerateRecoveryCodes demo_random = inl (codes, hashes) ∧ length codes = RecoveryCodeCount.
Proof.
  do 2 eexists. split; [reflexivity|].
  refine (proj1 (recovery_codes_read_back demo_random _ _ _ eq_refl)). intros i. split; [done|]. by intros b [= <-].
Defined.

(** A code as it is shown is not taken where it is not normalised. *)
Lemma shown_code_refused :
  VerifyRecoveryCode "ABCD-2345" ["#ABCD2345"] = -1 ∧ VerifyRecoveryCode "abcd2345 " ["#x"; "#ABCD2345"] = 1.
Proof. split; vm_compute; reflexivity. Qed.

End demo.
