(* ===== verification/Auth.v ===== *)
(** Login, the users' API and the second factor over HTTP: [handlers_auth.go],
    [api_handlers_totp.go], [handlers_admin_totp.go], [handlers_profile.go], [logAudit] of
    [handlers_audit.go], [handleUsers] and [handleUser] of [api_handlers.go] and the
    administrator's credentials of [master.go], all under [src/internal/server/].

    A handler is a program over the users, the security part and the audit log of the store
    and the flag [requiresSetup]; its result is the answer.  What a handler reads of the
    world is in [env]: the clock and the fresh identifiers, numbered in the order of their
    use, and the random bytes.  A decoded body is an argument, [None] when it cannot be
    decoded.  A page is its template and the data put into it.  Log messages and published
    events are left out. *)

From stdpp Require Import pretty.
From S2P Require Import GoStrings GoTime StoreBase ServiceBase Models MemUsers MemOps SecurityModels MemSecurity.
From S2P Require Import AgentServer Pagination Formats Access ServiceErrors Services Totp.

#[local] Open Scope string_scope.
#[local] Open Scope list_scope.
#[local] Open Scope Z_scope.
#[local] Open Scope svc_scope.

(** * Addresses *)

(** The text before and after the last colon. *)
Fixpoint cut_last (c : Ascii.ascii) (s : string) : option (string * string) :=
  match s with
  | EmptyString => None
  | String d s' =>
      match cut_last c s' with
      | Some (a, b) => Some (String d a, b)
      | None => if Ascii.eqb d c then Some ("", s') else None
      end
  end.

Definition comma : Ascii.ascii := Ascii.ascii_of_nat 44.
Definition open_bracket : Ascii.ascii := Ascii.ascii_of_nat 91.
Definition close_bracket : Ascii.ascii := Ascii.ascii_of_nat 93.

(** [net.SplitHostPort]: the host, or [None] for an error. *)
Definition SplitHost (hostport : string) : option string :=
  match cut_last colon hostport with
  | None => None
  | Some (before, port) =>
      match before with
      | String d inner =>
          if Ascii.eqb d open_bracket then
            (* the first closing bracket must be the last character before the colon *)
            match cut close_bracket inner with
            | (host, Some "") =>
                if free_of open_bracket host && free_of open_bracket port && free_of close_bracket port then Some host else None
            | _ => None
            end
          else if negb (free_of colon before) then None
          else if free_of open_bracket hostport && free_of close_bracket hostport then Some before else None
      | EmptyString => if free_of open_bracket port && free_of close_bracket port then Some "" else None
      end
  end.

(** * Requests and answers *)

(** [http] has the method, the path and the context the middlewares made; [username_value]
    is the value [logAudit] looks for in the context, which no middleware sets. *)
Record request := mkRequest {
  http : Access.request;
  form : string → string;
  query : string → string;
  XForwardedFor : string;
  XRealIP : string;
  RemoteAddr : string;
  UserAgent : string;
  session_cookie : option string;
  username_value : option string
}.

Definition method (r : request) : string := Method (http r).
Definition path (r : request) : string := Path (http r).
Definition context_of (r : request) : context := ctx (http r).
Definition GetUserFromContext (r : request) : option User := ctx_user (context_of r).

Record env := mkEnv {
  clock : nat → time;
  xid : nat → string;
  token : option (list Z);
  random : nat → option (list Z);
  tls : bool;
  snapshot : option string
}.

Record cookie := mkCookie { Value : string; MaxAge : Z; Secure : bool; SameSiteStrict : bool }.

Record UserInfo := mkUserInfo { ID : string; Username : string; Email : string; Role : string }.
Definition info (u : User) : UserInfo :=
  mkUserInfo u.(User.ID) u.(User.Username) u.(User.Email) u.(User.Role).

Inductive body :=
| LoginResponse (token : string) (user : UserInfo)
| UserInfoResponse (user : UserInfo)
| UserResponse (user : UserInfo) (createdAt : time)
| UserPage (items : list (UserInfo * bool * time)) (total limit offset : Z)
| StatusResponse (status : string)
| TOTPStatus (enabled : bool) (recovery_codes_remaining : Z)
| UserTOTPStatus (user_id username : string) (enabled : bool) (recovery_codes_remaining : Z)
| AdminTOTPStatus (user : UserInfo) (enabled : bool) (recovery_codes_remaining : Z)
| TOTPUsers (users : list UserInfo)
| TOTPSecret (secret uri : string)
| RecoveryCodes (message : string) (recovery_codes : list string)
| Message (message : string).

Inductive page :=
| NoData
| PageError (e : string)
| NeedsTOTP (e : option string) (username : string)
| ChangePassword (e : option string) (must : bool)
| Profile (user : User) (recoveryCodesRemaining : Z).

Inductive reply :=
| JSON (status : Z) (b : body)
| JSONError (status : Z) (message : string)
| NoContent
| Page (template : string) (data : page)
| GoTo (url : string)
| NotFoundPage.

Record response := mkResponse { cookies : list cookie; answer : reply }.
Definition answered (a : reply) : response := mkResponse [] a.

Definition StatusOK : Z := 200.
Definition StatusCreated : Z := 201.
Definition StatusNotFound : Z := 404.
Definition StatusConflict : Z := 409.

Record State := mkState {
  users_part : Users.State;
  security_part : Security.State;
  audit_part : Ops.State;
  requiresSetup : bool
}.

(** A handler; an error of a service is a value the handler looks at. *)
Abbreviation handler A := (svc State A).

Definition on_users {A} (m : eff Users.State A) : handler (A + goerr) := λ s,
  let o := m (users_part s) in
  mkOut (mkState (st o) (security_part s) (audit_part s) (requiresSetup s)) (queued o) (ret o).

Definition on_security {A} (m : eff Security.State A) : handler (A + goerr) := λ s,
  let o := m (security_part s) in
  mkOut (mkState (users_part s) (st o) (audit_part s) (requiresSetup s)) (queued o) (ret o).

Definition on_audit {A} (m : eff Ops.State A) : handler (A + goerr) := λ s,
  let o := m (audit_part s) in
  mkOut (mkState (users_part s) (security_part s) (st o) (requiresSetup s)) (queued o) (ret o).

Definition set_setup (b : bool) : handler unit := λ s,
  mkOut (mkState (users_part s) (security_part s) (audit_part s) b) [] (Ok tt).

Definition say (a : reply) : handler response := sret (answered a).
Definition jsonError (status : Z) (message : string) : handler response := say (JSONError status message).
Definition jsonResponse (b : body) : handler response := say (JSON StatusOK b).
Definition writeJSON (status : Z) (b : body) : handler response := say (JSON status b).
Definition renderTemplate (name : string) (data : page) : handler response := say (Page name data).

Definition extractClientIP (r : request) : string :=
  if negb (bool_decide (XForwardedFor r = "")) then TrimSpace (fst (cut comma (XForwardedFor r)))
  else if negb (bool_decide (XRealIP r = "")) then TrimSpace (XRealIP r)
  else default (RemoteAddr r) (SplitHost (RemoteAddr r)).

(** The body of a request that makes a user. *)
Module CreateRequest.
Record CreateRequest := mk {
  Username : string; Email : string; Password : string; Role : string; TOTPEnabled : bool; TOTPSecret : string
}.
End CreateRequest.

Section auth.
Context `{Bcrypt, KeyCodec, Hmac, MapRange}.

(** The number [k] is that of the first clock reading and identifier used. *)
Definition logAudit (r : request) (e : env) (k : nat) (action resource details result : string) : handler unit :=
  let user := default "anonymous" (username_value r) in
  on_audit (AuditService.Log (AuditEntry.mk "" 0 "http" user action resource "" "" details (extractClientIP r) result)
    (clock e k) (clock e (S k)) (xid e k)) ;;;
  sret tt.

Definition logAuditWithSnapshot (r : request) (e : env) (k : nat) (action resource resourceID : string) (data : option string)
    (details result : string) : handler unit :=
  let user := default "anonymous" (username_value r) in
  on_audit (AuditService.LogWithSnapshot
    (AuditEntry.mk "" 0 "http" user action resource resourceID "" details (extractClientIP r) result) data
    (clock e k) (clock e (S k)) (xid e k)) ;;;
  sret tt.

Definition verifyPassword (hash password : string) : bool :=
  if bool_decide (hash = "") || bool_decide (password = "") then false else VerifyPassword password hash.

Definition verifyTOTP (secret code : string) (now : time) : result bool :=
  if bool_decide (secret = "") || bool_decide (code = "") then Ok false
  else ValidateTOTP secret code DefaultTOTPConfig (Unix now).

(** [security.ValidateTOTP(secret, code, security.DefaultTOTPConfig())] *)
Definition valid_totp (secret code : string) (now : time) : handler bool :=
  ask (λ _, ValidateTOTP secret code DefaultTOTPConfig (Unix now)).

(** [s.store.ListRecoveryCodes(ctx, id)] *)
Definition list_codes (userID : string) : handler (list RecoveryCode + goerr) :=
  on_security (call as_is (ask (Security.ListRecoveryCodes userID))).

Definition week : Z := 7 * 24 * 60 * 60 * Second.

Definition create_session (user : User) (r : request) (e : env) : handler (Session + goerr) :=
  on_users (SessionService.Create user.(User.ID) (extractClientIP r) (UserAgent r) week (token e)
    (clock e 20) (clock e 21) (clock e 22)).

Definition session_cookie_for (session : Session) (e : env) : cookie :=
  mkCookie session.(Session.ID) (86400 * 7) (tls e) true.

(** * Setup *)

Definition handleSetup (r : request) (e : env) : handler response :=
  required <- ask (λ s, Ok (requiresSetup s)) ;;
  if negb required then say (GoTo "/login")
  else if bool_decide (method r = "GET") then renderTemplate "setup" NoData
  else if bool_decide (method r = "POST") then
    let username := TrimSpace (form r "username") in
    let email := TrimSpace (form r "email") in
    let password := form r "password" in
    let confirmPassword := form r "confirm_password" in
    if bool_decide (username = "") then renderTemplate "setup" (PageError "Username is required")
    else if bool_decide (email = "") then renderTemplate "setup" (PageError "Email is required")
    else if bool_decide (password = "") then renderTemplate "setup" (PageError "Password is required")
    else if negb (bool_decide (password = confirmPassword)) then renderTemplate "setup" (PageError "Passwords do not match")
    else
      created <- on_users (UserService.Create username password email "admin" [] (clock e 0) (xid e 0)) ;;
      match created with
      | inr err => renderTemplate "setup" (PageError ("Failed to create user: " +:+ Error err))
      | inl user =>
          logAudit r e 1 "setup" "user" ("Initial admin user '" +:+ username +:+ "' created via setup wizard") "success" ;;;
          set_setup false ;;;
          session <- create_session user r e ;;
          match session with
          | inr _ => say (GoTo "/login")
          | inl session => sret (mkResponse [session_cookie_for session e] (GoTo "/stats"))
          end
      end
  else jsonError StatusMethodNotAllowed "method not allowed".

Definition handleIndex (r : request) : handler response :=
  if negb (bool_decide (path r = "/")) then say NotFoundPage else say (GoTo "/stats").

(** [syncAdminFromEnv]: the error, if there is one. *)
Definition syncAdminFromEnv (username password email : string) (e : env) : handler (option goerr) :=
  found <- on_users (UserService.GetByUsername username) ;;
  match found with
  | inl existing =>
      updated <- on_users (UserService.Update {| existing with User.Email := email |} (clock e 0)) ;;
      match updated with
      | inr err => sret (Some (Wrapf "updating admin email" err))
      | inl existing =>
          changed <- on_users (UserService.UpdatePassword existing.(User.ID) password (clock e 1)) ;;
          sret (match changed with inr err => Some (Wrapf "updating admin password" err) | inl _ => None end)
      end
  | inr _ =>
      created <- on_users (UserService.Create username password email "admin" [] (clock e 0) (xid e 0)) ;;
      sret (match created with inr err => Some (Wrapf "creating admin user" err) | inl _ => None end)
  end.

(** The three environment variables are arguments, empty when they are not set. *)
Definition syncAdminCredentials (envUsername envPassword envEmail : string) (e : env) : handler (option goerr) :=
  let envUsername := if bool_decide (envUsername = "") then "admin" else envUsername in
  let envEmail := if bool_decide (envEmail = "") then "admin@localhost" else envEmail in
  if negb (bool_decide (envPassword = "")) then syncAdminFromEnv envUsername envPassword envEmail e
  else
    count <- on_users UserService.Count ;;
    match count with
    | inr err => sret (Some (Wrapf "counting users" err))
    | inl n => if n =? 0 then set_setup true ;;; sret None else sret None
    end.

(** * Login *)

(** The code's identifier, empty when no unused code has a hash that matches; the API goes
    through all codes and keeps the last, the page stops at the first. *)
Definition matching (normalizedCode : string) (code : RecoveryCode) : bool :=
  Security.unused code && VerifyPassword normalizedCode code.(RecoveryCode.CodeHash).

Definition last_code_id (normalizedCode : string) (codes : list RecoveryCode) : string :=
  foldl (λ id code, if matching normalizedCode code then code.(RecoveryCode.ID) else id) "" codes.

Fixpoint first_code_id (normalizedCode : string) (codes : list RecoveryCode) : string :=
  match codes with
  | [] => ""
  | code :: codes' => if matching normalizedCode code then code.(RecoveryCode.ID) else first_code_id normalizedCode codes'
  end.

(** What both do with the code found; the error of marking it is only logged. *)
Definition spend_code (user : User) (username codeID : string) (r : request) (e : env) : handler unit :=
  on_security (call as_is (Security.UseRecoveryCode codeID (clock e 1))) ;;;
  counted <- on_security (call as_is (ask (Security.CountUnusedRecoveryCodes user.(User.ID)))) ;;
  let remaining := match counted with inl n => n | inr _ => 0 end in
  logAudit r e 2 "recovery_code_used" "auth" ("user: " +:+ username +:+ ", remaining: " +:+ pretty remaining) "success".

(** The part under [if user.TOTPEnabled] of [handleAPILogin]: an answer, or nothing. *)
Definition api_second_factor (user : User) (username totp : string) (r : request) (e : env) : handler (option reply) :=
  if negb user.(User.TOTPEnabled) then sret None
  else if bool_decide (totp = "") then sret (Some (JSONError StatusUnauthorized "TOTP required"))
  else
    valid <- ask (λ _, verifyTOTP user.(User.TOTPSecret) totp (clock e 0)) ;;
    if valid then sret None
    else
      codes <- list_codes user.(User.ID) ;;
      match codes with
      | inr _ => sret (Some (JSONError StatusInternalServerError "internal error"))
      | inl codes =>
          let codeID := last_code_id (NormalizeRecoveryCode totp) codes in
          if bool_decide (codeID = "") then
            logAudit r e 2 "api_login" "session" ("invalid TOTP for: " +:+ username) "failure" ;;;
            sret (Some (JSONError StatusUnauthorized "invalid verification code"))
          else spend_code user username codeID r e ;;; sret None
      end.

(** [req] is the user name, the password and the code of the body. *)
Definition handleAPILogin (r : request) (req : option (string * string * string)) (e : env) : handler response :=
  if negb (bool_decide (method r = "POST")) then jsonError StatusMethodNotAllowed "method not allowed"
  else match req with
  | None => jsonError StatusBadRequest "invalid JSON"
  | Some (username, password, totp) =>
      if bool_decide (username = "") || bool_decide (password = "") then
        jsonError StatusBadRequest "username and password required"
      else
        found <- on_users (UserService.GetByUsername username) ;;
        match found with
        | inr err =>
            if IsNotFound err then
              logAudit r e 0 "api_login" "session" ("user not found: " +:+ username) "failure" ;;;
              jsonError StatusUnauthorized "invalid credentials"
            else jsonError StatusInternalServerError "internal error"
        | inl user =>
            if negb (verifyPassword user.(User.PasswordHash) password) then
              logAudit r e 0 "api_login" "session" ("invalid password for: " +:+ username) "failure" ;;;
              jsonError StatusUnauthorized "invalid credentials"
            else if user.(User.MustChangePassword) then
              logAudit r e 0 "api_login" "session" ("password change required for: " +:+ username) "blocked" ;;;
              jsonError StatusForbidden "password change required. Please login via web UI to change your password."
            else
              refused <- api_second_factor user username totp r e ;;
              match refused with
              | Some a => say a
              | None =>
                  session <- create_session user r e ;;
                  match session with
                  | inr _ => jsonError StatusInternalServerError "failed to create session"
                  | inl session =>
                      logAudit r e 30 "api_login" "session"
                        ("user: " +:+ username +:+ ", IP: " +:+ session.(Session.IPAddress)) "success" ;;;
                      jsonResponse (LoginResponse session.(Session.ID) (info user))
                  end
              end
        end
  end.

Definition handleAPICurrentUser (r : request) : handler response :=
  if negb (bool_decide (method r = "GET")) then jsonError StatusMethodNotAllowed "method not allowed"
  else
    let userID := default "" (ctx_userID (context_of r)) in
    if bool_decide (userID = "") then jsonError StatusUnauthorized "not authenticated"
    else
      found <- on_users (UserService.GetByID userID) ;;
      match found with
      | inr err => if IsNotFound err then jsonError StatusNotFound "user not found"
                   else jsonError StatusInternalServerError "internal error"
      | inl user => jsonResponse (UserInfoResponse (info user))
      end.

(** The same part of [handleLogin]. *)
Definition web_second_factor (user : User) (username totp : string) (r : request) (e : env) : handler (option reply) :=
  if negb user.(User.TOTPEnabled) then sret None
  else if bool_decide (totp = "") then sret (Some (Page "login" (NeedsTOTP None username)))
  else
    valid <- ask (λ _, verifyTOTP user.(User.TOTPSecret) totp (clock e 0)) ;;
    if valid then sret None
    else
      codes <- list_codes user.(User.ID) ;;
      match codes with
      | inr _ => sret (Some (Page "login" (PageError "Internal error")))
      | inl codes =>
          let codeID := first_code_id (NormalizeRecoveryCode totp) codes in
          if bool_decide (codeID = "") then
            logAudit r e 2 "login" "session" ("invalid TOTP for: " +:+ username) "failure" ;;;
            sret (Some (Page "login" (NeedsTOTP (Some "Invalid verification code") username)))
          else spend_code user username codeID r e ;;; sret None
      end.

Definition handleLogin (r : request) (e : env) : handler response :=
  if negb (bool_decide (method r = "POST")) then renderTemplate "login" NoData
  else
    let username := form r "username" in
    let password := form r "password" in
    let totp := form r "totp" in
    found <- on_users (UserService.GetByUsername username) ;;
    match found with
    | inr err =>
        if IsNotFound err then
          logAudit r e 0 "login" "session" ("user not found: " +:+ username) "failure" ;;;
          renderTemplate "login" (PageError "Invalid credentials")
        else renderTemplate "login" (PageError "Internal error")
    | inl user =>
        if negb (verifyPassword user.(User.PasswordHash) password) then
          logAudit r e 0 "login" "session" ("invalid password for: " +:+ username) "failure" ;;;
          renderTemplate "login" (PageError "Invalid credentials")
        else
          refused <- web_second_factor user username totp r e ;;
          match refused with
          | Some a => say a
          | None =>
              session <- create_session user r e ;;
              match session with
              | inr _ => renderTemplate "login" (PageError "Internal error")
              | inl session =>
                  let cookies := [session_cookie_for session e] in
                  if user.(User.MustChangePassword) then
                    logAudit r e 30 "login" "session" ("user: " +:+ username +:+ ", password change required") "success" ;;;
                    sret (mkResponse cookies (GoTo "/change-password"))
                  else
                    logAudit r e 30 "login" "session"
                      ("user: " +:+ username +:+ ", IP: " +:+ session.(Session.IPAddress)) "success" ;;;
                    sret (mkResponse cookies (GoTo "/stats"))
              end
          end
    end.

(** The cookie that takes the session away. *)
Definition no_session : cookie := mkCookie "" (-1) false false.

Definition handleLogout (r : request) (e : env) : handler response :=
  let value := default "" (session_cookie r) in
  (if bool_decide (value = "") then sret tt
   else
     found <- on_users (SessionService.GetByToken value (clock e 0)) ;;
     match found with
     | inl session =>
         on_audit (AuditService.Log
           (AuditEntry.mk "" (clock e 1) "web" ("user:" +:+ session.(Session.UserID)) "logout" "session" "" "" "" "" "success")
           (clock e 2) (clock e 3) (xid e 0)) ;;;
         sret tt
     | inr _ => sret tt
     end ;;;
     on_users (SessionService.Delete value (clock e 4)) ;;;
     sret tt) ;;;
  sret (mkResponse [no_session] (GoTo "/login")).

Definition handleChangePassword (r : request) (e : env) : handler response :=
  match GetUserFromContext r with
  | None => say (GoTo "/login")
  | Some user =>
      let failed err := renderTemplate "change-password" (ChangePassword (Some err) user.(User.MustChangePassword)) in
      if negb (bool_decide (method r = "POST")) then
        renderTemplate "change-password" (ChangePassword None user.(User.MustChangePassword))
      else
        let currentPassword := form r "current_password" in
        let newPassword := form r "new_password" in
        let confirmPassword := form r "confirm_password" in
        if negb (verifyPassword user.(User.PasswordHash) currentPassword) then failed "Current password is incorrect"
        else if negb (bool_decide (newPassword = confirmPassword)) then failed "New passwords do not match"
        else if bool_decide (currentPassword = newPassword) then
          failed "New password must be different from current password"
        else
          changed <- on_users (UserService.UpdatePassword user.(User.ID) newPassword (clock e 0)) ;;
          match changed with
          | inr err => failed ("Failed to update password: " +:+ Error err)
          | inl _ =>
              on_users (SessionService.DeleteAllForUser user.(User.ID) (clock e 1)) ;;;
              logAudit r e 2 "password_change" "user" ("user: " +:+ user.(User.Username)) "success" ;;;
              say (GoTo "/stats")
          end
  end.

(** * The second factor, by its owner: [/api/v1/users/me] *)

Definition count_unused (codes : list RecoveryCode) : Z :=
  foldl (λ n code, if Security.unused code then n + 1 else n) 0 codes.

(** The number the status shows; an error of the store leaves it at zero. *)
Definition codes_left (user : User) : handler Z :=
  if user.(User.TOTPEnabled) then
    codes <- list_codes user.(User.ID) ;;
    sret (match codes with inl codes => count_unused codes | inr _ => 0 end)
  else sret 0.

Definition handleUserTOTPStatus (user : User) : handler response :=
  remaining <- codes_left user ;;
  jsonResponse (TOTPStatus user.(User.TOTPEnabled) remaining).

Definition handleUserTOTPSetup (user : User) (e : env) : handler response :=
  if user.(User.TOTPEnabled) then jsonError StatusBadRequest "TOTP is already enabled"
  else match GenerateTOTPSecret (random e 0) with
  | inr _ => jsonError StatusInternalServerError "failed to generate TOTP secret"
  | inl secret =>
      let uri := GenerateTOTPURI secret user.(User.Username) DefaultTOTPConfig in
      stored <- on_users (UserService.Update {| user with User.TOTPSecret := secret |} (clock e 0)) ;;
      match stored with
      | inr _ => jsonError StatusInternalServerError "failed to store TOTP secret"
      | inl _ => jsonResponse (TOTPSecret secret uri)
      end
  end.

(** The records of new hashes, as they are given to the store. *)
Definition new_codes (userID : string) (hashes : list string) : list RecoveryCode :=
  (λ h, RecoveryCode.mk "" userID h None 0) <$> hashes.

Definition save_codes (user : User) (hashes : list string) (e : env) : handler (list string + goerr) :=
  on_security (call as_is (Security.SaveRecoveryCodes user.(User.ID) (new_codes user.(User.ID) hashes) (clock e 10)
    (λ i, xid e (40 + i)))).

(** The body of the three is a code, [Code] in JSON. *)
Definition handleUserTOTPEnable (r : request) (user : User) (req : option string) (e : env) : handler response :=
  if user.(User.TOTPEnabled) then jsonError StatusBadRequest "TOTP is already enabled"
  else if bool_decide (user.(User.TOTPSecret) = "") then
    jsonError StatusBadRequest "TOTP setup not initiated. Call POST /users/me/totp/setup first"
  else match req with
  | None => jsonError StatusBadRequest "invalid JSON"
  | Some code =>
      if bool_decide (code = "") then jsonError StatusBadRequest "code is required"
      else
        valid <- valid_totp user.(User.TOTPSecret) code (clock e 0) ;;
        if negb valid then jsonError StatusBadRequest "invalid TOTP code"
        else
          stored <- on_users (UserService.Update {| user with User.TOTPEnabled := true |} (clock e 1)) ;;
          match stored with
          | inr _ => jsonError StatusInternalServerError "failed to enable TOTP"
          | inl user =>
              match GenerateRecoveryCodes (random e) with
              | inr _ => jsonError StatusInternalServerError "failed to generate recovery codes"
              | inl (codes, hashes) =>
                  saved <- save_codes user hashes e ;;
                  match saved with
                  | inr _ => jsonError StatusInternalServerError "failed to save recovery codes"
                  | inl _ =>
                      logAudit r e 20 "enable" "totp" ("TOTP enabled for user: " +:+ user.(User.Username)) "success" ;;;
                      jsonResponse (RecoveryCodes "enabled" (FormatRecoveryCodes codes))
                  end
              end
          end
  end.

(** [user.TOTPEnabled = false; user.TOTPSecret = ""], the update, and the codes. *)
Definition turn_off (user : User) (e : env) : handler (User + goerr) :=
  stored <- on_users (UserService.Update {| user with User.TOTPEnabled := false; User.TOTPSecret := "" |} (clock e 1)) ;;
  match stored with
  | inr err => sret (inr err)
  | inl user =>
      on_security (call as_is (Security.DeleteRecoveryCodes user.(User.ID) (clock e 2))) ;;;
      sret (inl user)
  end.

Definition handleUserTOTPDisableForUser (r : request) (user : User) (req : option string) (e : env) : handler response :=
  if negb user.(User.TOTPEnabled) then jsonError StatusBadRequest "TOTP is not enabled"
  else match req with
  | None => jsonError StatusBadRequest "invalid JSON"
  | Some code =>
      if bool_decide (code = "") then jsonError StatusBadRequest "code is required for verification"
      else
        valid <- valid_totp user.(User.TOTPSecret) code (clock e 0) ;;
        refused <-
          (if valid then sret None
           else
             codes <- list_codes user.(User.ID) ;;
             sret (match codes with
                   | inr _ => Some (JSONError StatusInternalServerError "internal error")
                   | inl codes =>
                       let hashes := RecoveryCode.CodeHash <$> filter (λ c, Security.unused c = true) codes in
                       if VerifyRecoveryCode code hashes <? 0 then Some (JSONError StatusBadRequest "invalid code") else None
                   end)) ;;
        match refused with
        | Some a => say a
        | None =>
            off <- turn_off user e ;;
            match off with
            | inr _ => jsonError StatusInternalServerError "failed to disable TOTP"
            | inl user =>
                logAudit r e 20 "disable" "totp" ("TOTP disabled for user: " +:+ user.(User.Username)) "success" ;;;
                jsonResponse (StatusResponse "disabled")
            end
        end
  end.

Definition handleUserTOTPRecovery (r : request) (user : User) (req : option string) (e : env) : handler response :=
  if negb user.(User.TOTPEnabled) then jsonError StatusBadRequest "TOTP is not enabled"
  else match req with
  | None => jsonError StatusBadRequest "invalid JSON"
  | Some code =>
      if bool_decide (code = "") then jsonError StatusBadRequest "code is required for verification"
      else
        valid <- valid_totp user.(User.TOTPSecret) code (clock e 0) ;;
        if negb valid then jsonError StatusBadRequest "invalid TOTP code"
        else match GenerateRecoveryCodes (random e) with
        | inr _ => jsonError StatusInternalServerError "failed to generate recovery codes"
        | inl (codes, hashes) =>
            on_security (call as_is (Security.DeleteRecoveryCodes user.(User.ID) (clock e 1))) ;;;
            saved <- save_codes user hashes e ;;
            match saved with
            | inr _ => jsonError StatusInternalServerError "failed to save recovery codes"
            | inl _ =>
                logAudit r e 20 "regenerate" "totp_recovery" ("Recovery codes regenerated for user: " +:+ user.(User.Username))
                  "success" ;;;
                jsonResponse (RecoveryCodes "" (FormatRecoveryCodes codes))
            end
        end
  end.

Definition handleUserTOTP (r : request) (user : User) (path : string) (req : option string) (e : env) : handler response :=
  let not_allowed := jsonError StatusMethodNotAllowed "method not allowed" in
  if bool_decide (path = "") || bool_decide (path = "/") then
    if bool_decide (method r = "GET") then handleUserTOTPStatus user
    else if bool_decide (method r = "PUT") then handleUserTOTPEnable r user req e
    else if bool_decide (method r = "DELETE") then handleUserTOTPDisableForUser r user req e
    else not_allowed
  else if bool_decide (path = "/setup") then
    if negb (bool_decide (method r = "POST")) then not_allowed else handleUserTOTPSetup user e
  else if bool_decide (path = "/recovery") then
    if negb (bool_decide (method r = "POST")) then not_allowed else handleUserTOTPRecovery r user req e
  else jsonError StatusNotFound "not found".

Definition handleUserMe (r : request) (req : option string) (e : env) : handler response :=
  match GetUserFromContext r with
  | None => jsonError StatusUnauthorized "authentication required"
  | Some user =>
      let path := TrimPrefix (path r) "/api/v1/users/me" in
      if bool_decide (path = "") || bool_decide (path = "/") then
        if bool_decide (method r = "GET") then jsonResponse (UserResponse (info user) user.(User.CreatedAt))
        else jsonError StatusMethodNotAllowed "method not allowed"
      else if HasPrefix path "/totp" then handleUserTOTP r user (TrimPrefix path "/totp") req e
      else jsonError StatusNotFound "not found"
  end.

(** [admin, ok := GetUserFromContext(ctx); !ok || admin.Role != "admin"] *)
Definition with_admin (r : request) (f : User → handler response) : handler response :=
  match GetUserFromContext r with
  | None => jsonError StatusForbidden "admin access required"
  | Some admin =>
      if negb (bool_decide (admin.(User.Role) = "admin")) then jsonError StatusForbidden "admin access required" else f admin
  end.

Definition handleAdminUserTOTP (r : request) (userID : string) (e : env) : handler response :=
  with_admin r (λ admin,
    found <- on_users (UserService.GetByID userID) ;;
    match found with
    | inr _ => jsonError StatusNotFound "user not found"
    | inl user =>
        if bool_decide (method r = "GET") then
          remaining <- codes_left user ;;
          jsonResponse (UserTOTPStatus user.(User.ID) user.(User.Username) user.(User.TOTPEnabled) remaining)
        else if bool_decide (method r = "DELETE") then
          if negb user.(User.TOTPEnabled) then jsonError StatusBadRequest "TOTP is not enabled for this user"
          else
            off <- turn_off user e ;;
            match off with
            | inr _ => jsonError StatusInternalServerError "failed to disable TOTP"
            | inl user =>
                logAudit r e 20 "admin_disable" "totp"
                  ("Admin " +:+ admin.(User.Username) +:+ " disabled TOTP for user: " +:+ user.(User.Username)) "success" ;;;
                jsonResponse (StatusResponse "disabled")
            end
        else jsonError StatusMethodNotAllowed "method not allowed"
    end).

(** * The handlers of the older routes: [handlers_profile.go] and [handlers_admin_totp.go] *)

(** [CountUnusedRecoveryCodes]; its error leaves the number at zero. *)
Definition codes_counted (user : User) : handler Z :=
  if user.(User.TOTPEnabled) then
    counted <- on_security (call as_is (ask (Security.CountUnusedRecoveryCodes user.(User.ID)))) ;;
    sret (match counted with inl n => n | inr _ => 0 end)
  else sret 0.

Definition handleProfileUI (r : request) : handler response :=
  match GetUserFromContext r with
  | None => say (GoTo "/login")
  | Some user =>
      remaining <- codes_counted user ;;
      renderTemplate "profile" (Profile user remaining)
  end.

(** A POST of a user the context knows. *)
Definition posted_by (r : request) (f : User → handler response) : handler response :=
  if negb (bool_decide (method r = "POST")) then jsonError StatusMethodNotAllowed "method not allowed"
  else match GetUserFromContext r with
       | None => jsonError StatusUnauthorized "unauthorized"
       | Some user => f user
       end.

Definition handleTOTPSetup (r : request) (e : env) : handler response :=
  posted_by r (λ user,
    if user.(User.TOTPEnabled) then jsonError StatusBadRequest "TOTP is already enabled"
    else match GenerateTOTPSecret (random e 0) with
         | inr _ => jsonError StatusInternalServerError "failed to generate TOTP secret"
         | inl secret =>
             writeJSON StatusOK (TOTPSecret secret (GenerateTOTPURI secret user.(User.Username) DefaultTOTPConfig))
         end).

(** The body is a secret and a code. *)
Definition handleTOTPEnable (r : request) (req : option (string * string)) (e : env) : handler response :=
  posted_by r (λ user,
    if user.(User.TOTPEnabled) then jsonError StatusBadRequest "TOTP is already enabled"
    else match req with
    | None => jsonError StatusBadRequest "invalid request body"
    | Some (secret, code) =>
        if bool_decide (secret = "") then jsonError StatusBadRequest "secret is required"
        else if bool_decide (code = "") then jsonError StatusBadRequest "TOTP code is required"
        else
          valid <- valid_totp secret code (clock e 0) ;;
          if negb valid then
            logAudit r e 20 "totp_enable_failed" "security" ("user: " +:+ user.(User.Username) +:+ ", reason: invalid code")
              "failure" ;;;
            jsonError StatusUnauthorized "invalid TOTP code"
          else
            stored <- on_users (UserService.SetTOTP user.(User.ID) secret true (clock e 1)) ;;
            match stored with
            | inr _ => jsonError StatusInternalServerError "failed to enable TOTP"
            | inl _ =>
                match GenerateRecoveryCodes (random e) with
                | inr _ => jsonError StatusInternalServerError "failed to generate recovery codes"
                | inl (codes, hashes) =>
                    save_codes user hashes e ;;;
                    logAudit r e 20 "totp_enabled" "security" ("user: " +:+ user.(User.Username)) "success" ;;;
                    writeJSON StatusOK (RecoveryCodes "TOTP enabled successfully" (FormatRecoveryCodes codes))
                end
            end
    end).

(** [SetTOTP(id, "", false)] and the codes, whose error is only logged. *)
Definition clear_totp (userID : string) (e : env) : handler (unit + goerr) :=
  stored <- on_users (UserService.SetTOTP userID "" false (clock e 1)) ;;
  match stored with
  | inr err => sret (inr err)
  | inl _ => on_security (call as_is (Security.DeleteRecoveryCodes userID (clock e 2))) ;;; sret (inl tt)
  end.

Definition handleTOTPDisable (r : request) (req : option string) (e : env) : handler response :=
  posted_by r (λ user,
    if negb user.(User.TOTPEnabled) then jsonError StatusBadRequest "TOTP is not enabled"
    else match req with
    | None => jsonError StatusBadRequest "invalid request body"
    | Some code =>
        if bool_decide (code = "") then jsonError StatusBadRequest "TOTP code is required"
        else
          valid <- valid_totp user.(User.TOTPSecret) code (clock e 0) ;;
          if negb valid then
            logAudit r e 20 "totp_disable_failed" "security" ("user: " +:+ user.(User.Username) +:+ ", reason: invalid code")
              "failure" ;;;
            jsonError StatusUnauthorized "invalid TOTP code"
          else
            off <- clear_totp user.(User.ID) e ;;
            match off with
            | inr _ => jsonError StatusInternalServerError "failed to disable TOTP"
            | inl _ =>
                logAudit r e 20 "totp_disabled" "security" ("user: " +:+ user.(User.Username) +:+ " (self-service)") "success" ;;;
                writeJSON StatusOK (Message "TOTP disabled successfully")
            end
    end).

Definition handleAdminTOTPUsers (r : request) : handler response :=
  if negb (bool_decide (method r = "GET")) then jsonError StatusMethodNotAllowed "method not allowed"
  else with_admin r (λ _,
    found <- on_users UserService.List_ ;;
    match found with
    | inr _ => jsonError StatusInternalServerError "failed to list users"
    | inl all => writeJSON StatusOK (TOTPUsers (info <$> filter (λ u, u.(User.TOTPEnabled) = true) all))
    end).

Definition handleAdminTOTPStatus (r : request) : handler response :=
  if negb (bool_decide (method r = "GET")) then jsonError StatusMethodNotAllowed "method not allowed"
  else with_admin r (λ _,
    let prefix := "/api/v1/admin/totp/status/" in
    if negb (HasPrefix (path r) prefix) then jsonError StatusBadRequest "invalid path"
    else
      let username := TrimPrefix (path r) prefix in
      if bool_decide (username = "") then jsonError StatusBadRequest "username required"
      else
        found <- on_users (UserService.GetByUsername username) ;;
        match found with
        | inr _ => jsonError StatusNotFound "user not found"
        | inl user =>
            remaining <- codes_counted user ;;
            writeJSON StatusOK (AdminTOTPStatus (info user) user.(User.TOTPEnabled) remaining)
        end).

(** The body is a user name, a reason and the administrator's code. *)
Definition handleAdminTOTPDisable (r : request) (req : option (string * string * string)) (e : env) : handler response :=
  if negb (bool_decide (method r = "POST")) then jsonError StatusMethodNotAllowed "method not allowed"
  else with_admin r (λ admin,
    match req with
    | None => jsonError StatusBadRequest "invalid request body"
    | Some (username, reason, code) =>
        if bool_decide (username = "") then jsonError StatusBadRequest "username is required"
        else if (String.length reason <? 10)%nat then jsonError StatusBadRequest "reason must be at least 10 characters"
        else
          found <- on_users (UserService.GetByUsername username) ;;
          match found with
          | inr _ => jsonError StatusNotFound "user not found"
          | inl target =>
              if bool_decide (target.(User.ID) = admin.(User.ID)) then
                jsonError StatusForbidden "cannot disable your own TOTP via admin interface"
              else if negb target.(User.TOTPEnabled) then jsonError StatusBadRequest "user does not have TOTP enabled"
              else
                refused <-
                  (if negb admin.(User.TOTPEnabled) then sret None
                   else if bool_decide (code = "") then
                     sret (Some (JSONError StatusUnauthorized "admin TOTP verification required"))
                   else
                     valid <- valid_totp admin.(User.TOTPSecret) code (clock e 0) ;;
                     if valid then sret None
                     else
                       logAudit r e 20 "admin_totp_disable_failed" "security" ("invalid admin TOTP for: " +:+ username) "failure" ;;;
                       sret (Some (JSONError StatusUnauthorized "invalid admin TOTP code"))) ;;
                match refused with
                | Some a => say a
                | None =>
                    off <- clear_totp target.(User.ID) e ;;
                    match off with
                    | inr _ => jsonError StatusInternalServerError "failed to disable TOTP"
                    | inl _ =>
                        logAudit r e 20 "admin_totp_disable" "security"
                          ("admin: " +:+ admin.(User.Username) +:+ ", target: " +:+ username +:+ ", reason: " +:+ reason) "success" ;;;
                        writeJSON StatusOK (Message "TOTP disabled successfully")
                    end
                end
          end
    end).

Definition handleRegenerateRecoveryCodes (r : request) (req : option string) (e : env) : handler response :=
  posted_by r (λ user,
    if negb user.(User.TOTPEnabled) then jsonError StatusBadRequest "TOTP is not enabled for this account"
    else match req with
    | None => jsonError StatusBadRequest "invalid request body"
    | Some code =>
        if bool_decide (code = "") then jsonError StatusBadRequest "TOTP code is required"
        else
          valid <- valid_totp user.(User.TOTPSecret) code (clock e 0) ;;
          if negb valid then
            logAudit r e 20 "recovery_codes_regenerate_failed" "security"
              ("user: " +:+ user.(User.Username) +:+ ", reason: invalid TOTP") "failure" ;;;
            jsonError StatusUnauthorized "invalid TOTP code"
          else
            deleted <- on_security (call as_is (Security.DeleteRecoveryCodes user.(User.ID) (clock e 1))) ;;
            match deleted with
            | inr _ => jsonError StatusInternalServerError "failed to regenerate recovery codes"
            | inl _ =>
                match GenerateRecoveryCodes (random e) with
                | inr _ => jsonError StatusInternalServerError "failed to generate recovery codes"
                | inl (codes, hashes) =>
                    saved <- save_codes user hashes e ;;
                    match saved with
                    | inr _ => jsonError StatusInternalServerError "failed to save recovery codes"
                    | inl _ =>
                        logAudit r e 20 "recovery_codes_regenerated" "security" ("user: " +:+ user.(User.Username)) "success" ;;;
                        writeJSON StatusOK (RecoveryCodes "Recovery codes regenerated successfully" (FormatRecoveryCodes codes))
                    end
                end
            end
    end).

(** * The users' API *)

(** [CheckAdminAccess]: the error is written, or the handler goes on. *)
Definition admin_only (r : request) (f : handler response) : handler response :=
  denied <- ask (λ s, Ok (CheckAdminAccess unmarshal_strings (users_part s) (context_of r))) ;;
  match denied with Some (msg, status) => jsonError status msg | None => f end.

(** [services.WithTOTP] *)
Definition WithTOTP (secret : string) (o : UserService.options) : UserService.options := UserService.mkOptions true secret.

Definition list_item (u : User) : UserInfo * bool * time := (info u, u.(User.TOTPEnabled), u.(User.CreatedAt)).

Definition is_err {A} (r : result A) : bool := match r with Ok _ => false | _ => true end.

Definition handleUsers (r : request) (req : option CreateRequest.CreateRequest) (e : env) : handler response :=
  if bool_decide (method r = "GET") then
    admin_only r (
      result <- on_users (UserService.ListPaginated (parsePagination (query r))) ;;
      match result with
      | inr _ => jsonError StatusInternalServerError "Internal server error"
      | inl l => jsonResponse (UserPage (list_item <$> Items l) (ListTotal l) (Limit (ListPage l)) (Offset (ListPage l)))
      end)
  else if bool_decide (method r = "POST") then
    admin_only r (
      match req with
      | None => jsonError StatusBadRequest "Invalid JSON"
      | Some (CreateRequest.mk username email password role totpEnabled totpSecret) =>
          if bool_decide (username = "") || bool_decide (password = "") then
            jsonError StatusBadRequest "username and password required"
          else if negb (bool_decide (email = "")) && is_err (Input.ValidateEmail email) then
            jsonError StatusBadRequest "invalid email format"
          else
            let role := if bool_decide (role = "") then "user" else role in
            if is_err (Input.ValidateRole role) then jsonError StatusBadRequest "role must be admin, user, or viewer"
            else
              let opts := if totpEnabled && negb (bool_decide (totpSecret = "")) then [WithTOTP totpSecret] else [] in
              created <- on_users (UserService.Create username password email role opts (clock e 0) (xid e 0)) ;;
              match created with
              | inr err =>
                  if Contains (Error err) "password validation failed" then jsonError StatusBadRequest (Error err)
                  else jsonError StatusConflict (Error err)
              | inl user =>
                  logAudit r e 1 "create" "user" ("Created user: " +:+ username) "success" ;;;
                  writeJSON StatusCreated (UserResponse (info user) user.(User.CreatedAt))
              end
      end)
  else jsonError StatusMethodNotAllowed "Method not allowed".

(** The user of the path, for the methods that need it. *)
Definition with_user (userID : string) (f : User → handler response) : handler response :=
  found <- on_users (UserService.GetByID userID) ;;
  match found with
  | inr err => if IsNotFound err then jsonError StatusNotFound "User not found"
               else jsonError StatusInternalServerError "Internal server error"
  | inl user => f user
  end.

(** The email and the role of the body, where they are given. *)
Definition with_fields (email role : string) (user : User) : User :=
  {| user with User.Email := if bool_decide (email = "") then user.(User.Email) else email;
               User.Role := if bool_decide (role = "") then user.(User.Role) else role |}.

(** The new password, and the end of the user's sessions, whose error is only logged; the
    error of the first is the result. *)
Definition set_password (userID password : string) (e : env) : handler (option goerr) :=
  changed <- on_users (UserService.UpdatePassword userID password (clock e 0)) ;;
  match changed with
  | inr err => sret (Some err)
  | inl _ => on_users (SessionService.DeleteAllForUser userID (clock e 1)) ;;; sret None
  end.

Definition updated (r : request) (user : User) (e : env) : handler response :=
  logAudit r e 3 "update" "user" ("Updated user: " +:+ user.(User.Username)) "success" ;;;
  jsonResponse (StatusResponse "updated").

(** PUT: the record read first is written last. *)
Definition put_user (r : request) (userID email role password : string) (e : env) : handler response :=
  with_user userID (λ user,
    let user := with_fields email role user in
    failed <- (if bool_decide (password = "") then sret None else set_password userID password e) ;;
    match failed with
    | Some err => jsonError StatusBadRequest (Error err)
    | None =>
        stored <- on_users (UserService.Update user (clock e 2)) ;;
        match stored with
        | inr _ => jsonError StatusInternalServerError "Internal server error"
        | inl user => updated r user e
        end
    end).

(** PATCH: the record is written only when another field than the password is given. *)
Definition patch_user (r : request) (userID email role password : string) (e : env) : handler response :=
  with_user userID (λ user,
    let user := with_fields email role user in
    failed <- (if bool_decide (password = "") then sret None else set_password userID password e) ;;
    match failed with
    | Some err =>
        if Contains (Error err) "password validation failed" then jsonError StatusBadRequest (Error err)
        else jsonError StatusInternalServerError "Internal server error"
    | None =>
        if negb (bool_decide (email = "")) || negb (bool_decide (role = "")) then
          stored <- on_users (UserService.Update user (clock e 2)) ;;
          match stored with
          | inr _ => jsonError StatusInternalServerError "Internal server error"
          | inl user => updated r user e
          end
        else updated r user e
    end).

Definition delete_user (r : request) (userID : string) (e : env) : handler response :=
  with_user userID (λ user,
    deleted <- on_users (UserService.Delete userID (clock e 0)) ;;
    match deleted with
    | inr _ => jsonError StatusInternalServerError "Internal server error"
    | inl _ =>
        logAuditWithSnapshot r e 1 "delete" "user" user.(User.ID) (snapshot e) ("Deleted user: " +:+ user.(User.Username))
          "success" ;;;
        say NoContent
    end).

(** The bodies: a code for the second factor, and email, role and password for the user. *)
Definition handleUser (r : request) (code : option string) (req : option (string * string * string)) (e : env)
    : handler response :=
  let path := TrimPrefix (path r) "/api/v1/users/" in
  if bool_decide (path = "") then jsonError StatusBadRequest "User ID required"
  else if HasPrefix path "me" then handleUserMe r code e
  else
    let parts := split_on (Ascii.ascii_of_nat 47) path in
    let userID := default "" (head parts) in
    if bool_decide (userID = "") then jsonError StatusBadRequest "Invalid user ID"
    else if bool_decide (parts !! 1%nat = Some "totp") then handleAdminUserTOTP r userID e
    else
      let bodied (f : string → string → string → env → handler response) :=
        admin_only r (match req with
                      | None => jsonError StatusBadRequest "Invalid JSON"
                      | Some (email, role, password) => f email role password e
                      end) in
      if bool_decide (method r = "GET") then
        admin_only r (with_user userID (λ user, jsonResponse (UserResponse (info user) user.(User.CreatedAt))))
      else if bool_decide (method r = "PUT") then bodied (put_user r userID)
      else if bool_decide (method r = "DELETE") then admin_only r (delete_user r userID e)
      else if bool_decide (method r = "PATCH") then bodied (patch_user r userID)
      else jsonError StatusMethodNotAllowed "Method not allowed".

(** * Routes *)

(** The request with the context a middleware made. *)
Definition in_context (r : request) (c : context) : request :=
  mkRequest (Access.mkRequest (method r) (path r) c) (form r) (query r) (XForwardedFor r) (XRealIP r) (RemoteAddr r)
    (UserAgent r) (session_cookie r) (username_value r).


Definition behind_ui_auth (now : time) (h : request → handler response) (r : request) : handler response :=
  o <- ask (λ s, Ok (withUIAuth (session_cookie r) now (users_part s) (context_of r))) ;;
  match o with
  | Next c => h (in_context r c)
  | Answer status msg => jsonError status msg
  | Redirect url => say (GoTo url)
  end.


Definition route_change_password (now : time) (e : env) : request → handler response :=
  behind_ui_auth now (λ r, handleChangePassword r e).

End auth.

(** * Runs *)

(** The program gives [a] and leaves [s']. *)
Definition yields {S A} (m : svc S A) (s : S) (a : A) (s' : S) : Prop := ret (m s) = Ok a ∧ st (m s) = s'.

Lemma yields_sbind {S A B} (m : svc S A) (k : A → svc S B) s b s'' :
  yields (sbind m k) s b s'' ↔ ∃ a s', yields m s a s' ∧ yields (k a) s' b s''.
Proof.
  unfold yields, sbind. split.
  - destruct (ret (m s)) as [a|e|] eqn:E; cbn; [|naive_solver..]. intros [H1 H2]. by exists a, (st (m s)).
  - intros (a & s' & [-> <-] & H2). exact H2.
Qed.

Lemma yields_sret {S A} (a b : A) (s s' : S) : yields (sret a) s b s' ↔ a = b ∧ s = s'.
Proof. unfold yields. cbn. naive_solver. Qed.

Lemma yields_ask {S A} (f : S → result A) s b s' : yields (ask f) s b s' ↔ f s = Ok b ∧ s = s'.
Proof. done. Qed.

Lemma yields_asked {S A} (f : S → result A) s b : f s = Ok b → yields (ask f) s b s.
Proof. by split. Qed.

Lemma yields_fun {S A} (m : svc S A) s a a' s1 s2 : yields m s a s1 → yields m s a' s2 → a = a' ∧ s1 = s2.
Proof. unfold yields. intros [E <-] [E' <-]. split; congruence. Qed.

Lemma yields_bind {S A B} (m : svc S A) (k : A → svc S B) s a s' b s'' :
  yields m s a s' → yields (k a) s' b s'' → yields (sbind m k) s b s''.
Proof. intros. apply yields_sbind. eauto. Qed.

(** The same for a claim about the result. *)
Lemma yields_then {S A B} (m : svc S A) (k : A → svc S B) s a s1 (P : B → S → Prop) :
  yields m s a s1 → (∃ b s2, yields (k a) s1 b s2 ∧ P b s2) → ∃ b s2, yields (sbind m k) s b s2 ∧ P b s2.
Proof. intros Hm (b & s2 & Hk & HP). exists b, s2. split; [by eapply yields_bind|done]. Qed.

Lemma yields_ret {S A} (a : A) (s : S) : yields (sret a) s a s.
Proof. by split. Qed.

Lemma yields_on_users {A} (m : eff Users.State A) s a u :
  yields m (users_part s) a u → yields (on_users m) s a (mkState u (security_part s) (audit_part s) (requiresSetup s)).
Proof. intros [E <-]. split; [exact E|done]. Qed.

Lemma yields_on_security {A} (m : eff Security.State A) s a u :
  yields m (security_part s) a u → yields (on_security m) s a (mkState (users_part s) u (audit_part s) (requiresSetup s)).
Proof. intros [E <-]. split; [exact E|done]. Qed.

(** The audit log alone differs. *)
Definition but_audit (s s' : State) : Prop :=
  users_part s' = users_part s ∧ security_part s' = security_part s ∧ requiresSetup s' = requiresSetup s.

#[global] Instance but_audit_preorder : PreOrder but_audit.
Proof. split; [done|]. intros s1 s2 s3 (E1 & E2 & E3) (F1 & F2 & F3). split_and!; congruence. Qed.

Lemma yields_logAudit r e k action resource details res s :
  ∃ s', yields (logAudit r e k action resource details res) s tt s' ∧ but_audit s s'.
Proof. eexists. split; [split; reflexivity|done]. Qed.

(** A program of a handler that ends with an audit entry. *)
Lemma yields_audited {A} r e k action resource details res s (a : A) :
  ∃ s', yields (logAudit r e k action resource details res ;;; sret a) s a s' ∧ but_audit s s'.
Proof.
  destruct (yields_logAudit r e k action resource details res s) as (s' & Hl & Hs).
  exists s'. split; [|done]. eapply yields_bind; [exact Hl|apply yields_ret].
Qed.

(** ** Records of users *)

Definition put_record (u : User) (s : Users.State) : Users.State :=
  {| s with Users.users := <[u.(User.ID) := u]> (Users.users s);
            Users.usersByName := <[u.(User.Username) := u]> (Users.usersByName s) |}.

Lemma yields_call {S A} (f : goerr → goerr) (m : svc S A) s a s' : yields m s a s' → yields (call f m) s (inl a) s'.
Proof. intros [E <-]. split; [|done]. by apply call_Ok. Qed.

Lemma yields_ebind {S A B} (m : eff S A) (k : A → eff S B) s a s' b s'' :
  yields m s (inl a) s' → yields (k a) s' b s'' → yields (ebind m k) s b s''.
Proof. intros Hm Hk. by eapply yields_bind. Qed.

Lemma yields_update u v now s :
  Users.users s !! u.(User.ID) = Some v → v.(User.Username) = u.(User.Username) →
  yields (UserService.Update u now) s (inl {| u with User.UpdatedAt := now |}) (put_record {| u with User.UpdatedAt := now |} s).
Proof.
  intros Hv Hn. apply yields_call. unfold yields, Users.UpdateUserByID. rewrite Hv, Hn.
  rewrite (bool_decide_false (_ ≠ _)) by (intros Hne; by apply Hne). done.
Qed.

Lemma yields_get_user id v s : Users.users s !! id = Some v → yields (UserService.GetByID id) s (inl v) s.
Proof. intros Hv. apply yields_call. unfold yields, ask, Users.GetUserByID. cbn. by rewrite Hv. Qed.

Lemma yields_get_name name v s : Users.usersByName s !! name = Some v → yields (UserService.GetByUsername name) s (inl v) s.
Proof. intros Hv. apply yields_call. unfold yields, ask, Users.GetUserByUsername. cbn. by rewrite Hv. Qed.

Definition with_password (h : string) (now : time) (u : User) : User :=
  {| u with User.PasswordHash := h; User.MustChangePassword := false; User.UpdatedAt := now |}.

Section runs.
Context `{Bcrypt, KeyCodec, Hmac, MapRange}.

Lemma yields_update_password id v password h now s :
  Users.wf s → Users.users s !! id = Some v → Password.ValidatePassword password = Ok tt → HashPassword password = Some h →
  yields (UserService.UpdatePassword id password now) s (inl (with_password h now v)) (put_record (with_password h now v) s).
Proof.
  intros Hw Hv Hp Hh. destruct (Users.wf_users s Hw _ _ Hv) as [<- _]. unfold UserService.UpdatePassword.
  eapply yields_ebind; [by split; [apply check_Ok|]|].
  eapply yields_ebind; [apply yields_call; split; [cbn; unfold Users.GetUserByID; by rewrite Hv|done]|].
  eapply yields_ebind; [split; [by apply hash_Ok|apply hash_st]|].
  exact (yields_update {| v with User.PasswordHash := h; User.MustChangePassword := false |} v now s Hv eq_refl).
Qed.

(** No session of the user is left. *)
Definition logged_out (id : string) (s : Users.State) : Prop :=
  ∀ t x, Users.sessions s !! t = Some x → x.(Session.UserID) ≠ id.

Definition without_sessions (id : string) (s : Users.State) : Users.State :=
  {| s with Users.sessions := range_delete (λ x, bool_decide (x.(Session.UserID) = id)) (Users.sessions s) |}.

Lemma yields_end_sessions id now s :
  yields (SessionService.DeleteAllForUser id now) s (inl tt) (without_sessions id s).
Proof. apply yields_call. done. Qed.

Lemma without_sessions_out id s : logged_out id (without_sessions id s).
Proof.
  intros t x. cbn. rewrite range_delete_filter, map_lookup_filter_Some. intros [_ Hx]. by apply bool_decide_eq_false in Hx.
Qed.

(** ** The users' API *)

Lemma yields_admin_only r f s a s' :
  CheckAdminAccess unmarshal_strings (users_part s) (context_of r) = None →
  yields f s a s' → yields (admin_only r f) s a s'.
Proof. intros Hc Hf. eapply yields_bind; [split; [reflexivity|reflexivity]|]. cbn. rewrite Hc. exact Hf. Qed.

(** A path of the users' API that names a user. *)
Definition user_path (r : request) (userID : string) : Prop :=
  path r = "/api/v1/users/" +:+ userID ∧ userID ≠ "" ∧ HasPrefix userID "me" = false ∧ free_of (Ascii.ascii_of_nat 47) userID = true.

Lemma handleUser_put r userID code email role password e :
  user_path r userID → method r = "PUT" →
  handleUser r code (Some (email, role, password)) e = admin_only r (put_user r userID email role password e).
Proof.
  intros (Hp & Hne & Hme & Hf) Hm. unfold handleUser. rewrite Hp, TrimPrefix_app, Hme, split_on_free, Hm by done.
  cbn [head default lookup list_lookup]. by rewrite !(bool_decide_false (userID = "")) by done.
Qed.

Lemma handleUser_patch r userID code email role password e :
  user_path r userID → method r = "PATCH" →
  handleUser r code (Some (email, role, password)) e = admin_only r (patch_user r userID email role password e).
Proof.
  intros (Hp & Hne & Hme & Hf) Hm. unfold handleUser. rewrite Hp, TrimPrefix_app, Hme, split_on_free, Hm by done.
  cbn [head default lookup list_lookup]. by rewrite !(bool_decide_false (userID = "")) by done.
Qed.

(** Setting a password of a user that is there. *)
Lemma yields_set_password id v password h e s :
  Users.wf (users_part s) → Users.users (users_part s) !! id = Some v →
  Password.ValidatePassword password = Ok tt → HashPassword password = Some h →
  yields (set_password id password e) s None
    (mkState (without_sessions id (put_record (with_password h (clock e 0) v) (users_part s)))
       (security_part s) (audit_part s) (requiresSetup s)).
Proof.
  intros Hw Hv Hp Hh. eapply yields_bind; [by apply yields_on_users, yields_update_password|].
  eapply yields_bind; [apply yields_on_users, yields_end_sessions|]. apply yields_ret.
Qed.

Lemma yields_with_user id v f s a s' :
  Users.users (users_part s) !! id = Some v → yields (f v) s a s' → yields (with_user id f) s a s'.
Proof. intros Hv Hf. eapply yields_bind; [by apply yields_on_users, yields_get_user|]. by destruct s. Qed.

Lemma yields_updated r v e s :
  ∃ s', yields (updated r v e) s (answered (JSON StatusOK (StatusResponse "updated"))) s' ∧ but_audit s s'.
Proof. apply yields_audited. Qed.

(** The record of the user, under both keys. *)
Definition has_record (id : string) (v : User) (s : State) : Prop :=
  v.(User.ID) = id ∧ Users.users (users_part s) !! id = Some v ∧ Users.usersByName (users_part s) !! v.(User.Username) = Some v.

Lemma has_record_put v s t :
  Users.users (users_part t) = Users.users (put_record v s) →
  Users.usersByName (users_part t) = Users.usersByName (put_record v s) → has_record v.(User.ID) v t.
Proof. intros E1 E2. unfold has_record. rewrite E1, E2. cbn. by rewrite !lookup_insert_eq. Qed.

(** C9: an administrator who sets a user's password with PUT /api/v1/users/{id} is told
    that it is updated, and every session of the user is ended, but the hash that is
    stored afterwards is the old one: the record that was read before the change is written
    back last.  A PATCH that gives the password alone stores the new hash, and one that
    gives the email or the role as well loses it again. *)
Theorem put_password_undone userID user password h email role code e s :
  Users.wf (users_part s) → Users.users (users_part s) !! userID = Some user →
  password ≠ "" → Password.ValidatePassword password = Ok tt → HashPassword password = Some h →
  ∀ r, user_path r userID → CheckAdminAccess unmarshal_strings (users_part s) (context_of r) = None →
  (method r = "PUT" ∨ method r = "PATCH") →
  ∃ user' s', yields (handleUser r code (Some (email, role, password)) e) s (answered (JSON StatusOK (StatusResponse "updated"))) s' ∧
    logged_out userID (users_part s') ∧ has_record userID user' s' ∧
    user'.(User.PasswordHash) =
      (if bool_decide (method r = "PATCH" ∧ email = "" ∧ role = "") then h else user.(User.PasswordHash)).
Proof.
  intros Hw Hu Hpw Hv Hh r Hr Ha Hm. destruct (Users.wf_users _ Hw _ _ Hu) as [Hid _].
  pose proof (yields_set_password userID user password h e s Hw Hu Hv Hh) as Hset.
  set (s1 := mkState _ _ _ _) in Hset. set (old := with_fields email role user).
  assert (Users.users (users_part s1) !! old.(User.ID) = Some (with_password h (clock e 0) user)) as Hin.
  { cbn. rewrite lookup_insert_eq. done. }
  pose proof (yields_on_users _ _ _ _ (yields_update old _ (clock e 2) _ Hin eq_refl)) as Hup.
  set (new := {| old with User.UpdatedAt := clock e 2 |}) in Hup. set (s2 := mkState _ _ _ _) in Hup.
  destruct (yields_updated r new e s2) as (s3 & Hend & E3 & _).
  destruct (yields_updated r old e s1) as (s3' & Hend' & E3' & _).
  assert (yields (updated r old e) s1 (answered (JSON StatusOK (StatusResponse "updated"))) s3') as Hshort by exact Hend'.
  assert (logged_out userID (users_part s1)) as Hout1 by apply without_sessions_out.
  assert (logged_out userID (users_part s2)) as Hout2 by exact Hout1.
  destruct Hm as [Hm|Hm].
  - exists new, s3. rewrite (handleUser_put r userID) by done. split_and!.
    + apply yields_admin_only; [done|]. eapply yields_with_user; [done|]. cbv zeta. rewrite bool_decide_false by done.
      eapply yields_bind; [exact Hset|]. eapply yields_bind; [exact Hup|]. exact Hend.
    + by rewrite E3.
    + rewrite <- Hid. eapply (has_record_put new); by rewrite E3.
    + by rewrite bool_decide_false by (rewrite Hm; by intros [? _]).
  - rewrite (handleUser_patch r userID) by done. destruct (decide (email = "" ∧ role = "")) as [[-> ->]|Hne].
    + exists (with_password h (clock e 0) user), s3'. split_and!.
      * apply yields_admin_only; [done|]. eapply yields_with_user; [done|]. cbv zeta. rewrite bool_decide_false by done.
        eapply yields_bind; [exact Hset|]. exact Hshort.
      * by rewrite E3'.
      * rewrite <- Hid. eapply (has_record_put (with_password h (clock e 0) user)); by rewrite E3'.
      * by rewrite bool_decide_true by done.
    + exists new, s3. split_and!.
      * apply yields_admin_only; [done|]. eapply yields_with_user; [done|]. cbv zeta. rewrite bool_decide_false by done.
        eapply yields_bind; [exact Hset|].
        replace (negb (bool_decide (email = "")) || negb (bool_decide (role = ""))) with true
          by (repeat case_bool_decide; naive_solver).
        eapply yields_bind; [exact Hup|]. exact Hend.
      * by rewrite E3.
      * rewrite <- Hid. eapply (has_record_put new); by rewrite E3.
      * by rewrite bool_decide_false by (intros (_ & ? & ?); by apply Hne).
Qed.

(** ** The routes of the second factor *)





(** ** Login *)

Lemma verifyTOTP_answers secret code now : ∃ b, verifyTOTP secret code now = Ok b.
Proof.
  unfold verifyTOTP, ValidateTOTP. destruct (_ || _); [by exists false|].
  by destruct (matches_any_spec secret code [wrap64 (Unix now - 30); Unix now; wrap64 (Unix now + 30)]) as (b & Hb & _); exists b.
Qed.

Definition stored_codes (user : User) (s : State) : list RecoveryCode :=
  entry (Security.recoveryCodes (security_part s)) user.(User.ID).

Lemma yields_list_codes user s : yields (list_codes user.(User.ID)) s (inl (stored_codes user s)) s.
Proof. by destruct s. Qed.

Definition named (c : RecoveryCode) : Prop := c.(RecoveryCode.ID) ≠ "".

(** What the search for a code finds. *)
Lemma last_code_id_spec n codes :
  Forall named codes →
  (last_code_id n codes = "" ∧ ∀ c, c ∈ codes → matching n c = false) ∨
  (last_code_id n codes ≠ "" ∧ ∃ c, c ∈ codes ∧ matching n c = true ∧ c.(RecoveryCode.ID) = last_code_id n codes).
Proof.
  unfold last_code_id. induction codes as [|c codes IH] using rev_ind; intros Hn.
  - left. split; [done|]. intros c Hc. by apply not_elem_of_nil in Hc.
  - rewrite foldl_app. cbn [foldl]. apply Forall_app in Hn as [Hn Hc]. apply Forall_cons in Hc as [Hc _].
    destruct (matching n c) eqn:E.
    + right. split; [exact Hc|]. exists c. split_and!; [set_solver|done|done].
    + destruct (IH Hn) as [[H' Hno]|[H' (c' & Hc' & Hm & Hid)]].
      * left. split; [done|]. intros x Hx. apply elem_of_app in Hx as [Hx|Hx]; [by apply Hno|].
        by apply list_elem_of_singleton in Hx as ->.
      * right. split; [done|]. exists c'. split_and!; [set_solver|done|done].
Qed.

Lemma UseRecoveryCode_no_panic id now s : ret (Security.UseRecoveryCode id now s) ≠ Panic.
Proof.
  unfold Security.UseRecoveryCode. destruct (range_find _ _) as [[u codes]|]; [|done].
  pose proof (Security.use_in_no_panic id now codes) as Hp. by destruct (Security.use_in id now codes).
Qed.

(** Spending a code goes on whether or not the code could be marked. *)
Lemma yields_spend_code user name codeID r e s :
  ∃ s', yields (spend_code user name codeID r e) s tt s' ∧ users_part s' = users_part s ∧
    security_part s' = st (Security.UseRecoveryCode codeID (clock e 1) (security_part s)).
Proof.
  set (o := Security.UseRecoveryCode codeID (clock e 1) (security_part s)).
  assert (∃ x, yields (on_security (call as_is (Security.UseRecoveryCode codeID (clock e 1)))) s x
    (mkState (users_part s) (st o) (audit_part s) (requiresSetup s))) as [x Hx].
  { pose proof (UseRecoveryCode_no_panic codeID (clock e 1) (security_part s)) as Hp. fold o in Hp.
    unfold yields, on_security, call. cbn. fold o. destruct (ret o); [by eexists| by eexists|done]. }
  set (s1 := mkState _ _ _ _) in Hx.
  destruct (yields_logAudit r e 2 "recovery_code_used" "auth"
    ("user: " +:+ name +:+ ", remaining: " +:+ pretty (len (filter (λ c, Security.unused c = true)
      (entry (Security.recoveryCodes (st o)) user.(User.ID))))) "success" s1) as (s2 & Hl & E1 & E2 & _).
  exists s2. split; [|by rewrite E1, E2]. eapply yields_bind; [exact Hx|].
  eapply yields_bind; [apply yields_on_security; split; reflexivity|]. exact Hl.
Qed.

(** The second factor is given: it is not asked for, or the code is the one of the period
    or one next to it, or an unused recovery code. *)
Definition second_factor (user : User) (totp : string) (e : env) (s : State) : Prop :=
  user.(User.TOTPEnabled) = false ∨
  totp ≠ "" ∧ (verifyTOTP user.(User.TOTPSecret) totp (clock e 0) = Ok true ∨
               ∃ c, c ∈ stored_codes user s ∧ matching (NormalizeRecoveryCode totp) c = true).

(** An answer that is an error. *)
Definition refusal (a : reply) : Prop := ∃ status msg, a = JSONError status msg.

Lemma api_second_factor_spec user name totp r e s :
  Forall named (stored_codes user s) →
  ∃ refused s', yields (api_second_factor user name totp r e) s refused s' ∧ users_part s' = users_part s ∧
    (refused = None ↔ second_factor user totp e s) ∧ ∀ a, refused = Some a → refusal a.
Proof.
  intros Hn. unfold api_second_factor, second_factor.
  destruct (User.TOTPEnabled user) eqn:Et; cbn [negb].
  2: { exists None, s. split_and!; [apply yields_ret|done|tauto|done]. }
  case_bool_decide as Hc.
  { eexists (Some _), s. split_and!; [apply yields_ret|done|split; [done|intros [?|[? _]]; done]|].
    intros a [= <-]. by do 2 eexists. }
  destruct (verifyTOTP_answers (User.TOTPSecret user) totp (clock e 0)) as [v Hv]. rewrite Hv.
  destruct v.
  { exists None, s. split_and!; [|done|tauto|done]. eapply yields_bind; [by apply yields_asked|]. apply yields_ret. }
  destruct (last_code_id_spec (NormalizeRecoveryCode totp) (stored_codes user s) Hn) as [[Hid Hno]|[Hid (c & Hin & Hm & _)]].
  - destruct (yields_audited r e 2 "api_login" "session" ("invalid TOTP for: " +:+ name) "failure" s
      (Some (JSONError StatusUnauthorized "invalid verification code"))) as (s' & Hy & E & _).
    exists (Some (JSONError StatusUnauthorized "invalid verification code")), s'.
    split_and!; [|exact E| |intros a [= <-]; by do 2 eexists].
    + eapply yields_bind; [by apply yields_asked|]. eapply yields_bind; [apply yields_list_codes|]. cbv beta iota zeta.
      rewrite Hid, bool_decide_true by done. exact Hy.
    + split; [done|]. intros [?|[_ [?|(c & Hin & Hm)]]]; [done|congruence|]. by rewrite Hno in Hm.
  - destruct (yields_spend_code user name (last_code_id (NormalizeRecoveryCode totp) (stored_codes user s)) r e s)
      as (s' & Hy & E & _).
    exists None, s'. split_and!; [|exact E| |done].
    + eapply yields_bind; [by apply yields_asked|]. eapply yields_bind; [apply yields_list_codes|]. cbv beta iota zeta.
      rewrite bool_decide_false by done. eapply yields_bind; [exact Hy|apply yields_ret].
    + split; [|done]. intros _. right. split; [done|]. right. by exists c.
Qed.

(** The session a login makes. *)
Definition new_session (user : User) (r : request) (e : env) (b : list Z) : Session :=
  Session.mk (hex_encode b) user.(User.ID) (hex_encode b) (extractClientIP r) (UserAgent r) (clock e 22) (clock e 21 + week)
    (clock e 22).

Definition add_session (x : Session) (s : Users.State) : Users.State :=
  {| s with Users.sessions := <[x.(Session.Token) := x]> (Users.sessions s) |}.

Lemma yields_create_session user r e b s :
  token e = Some b → b ≠ [] →
  yields (create_session user r e) s (inl (new_session user r e b))
    (mkState (add_session (new_session user r e b) (users_part s)) (security_part s) (audit_part s) (requiresSetup s)).
Proof.
  intros Ht Hb. apply yields_on_users. unfold SessionService.Create. rewrite Ht.
  eapply yields_ebind; [by split|]. apply yields_call. unfold yields, Users.CreateSession. cbn [Session.Token].
  rewrite bool_decide_false by (by destruct b). done.
Qed.

(** Who may log in over the API. *)
Definition may_log_in (name password totp : string) (e : env) (s : State) : Prop :=
  name ≠ "" ∧ ∃ user, Users.usersByName (users_part s) !! name = Some user ∧
    verifyPassword user.(User.PasswordHash) password = true ∧ user.(User.MustChangePassword) = false ∧
    second_factor user totp e s.

(** What a login leaves behind: an error changes no session, and the token of a success is
    that of a session of the user of that name. *)
Definition login_result (name : string) (r : request) (e : env) (s : State) (P : Prop) (resp : response) (s' : State) : Prop :=
  ((∃ tok u, answer resp = JSON StatusOK (LoginResponse tok u)) ↔ P) ∧
  (refusal (answer resp) → users_part s' = users_part s) ∧
  (∀ tok u, answer resp = JSON StatusOK (LoginResponse tok u) →
   ∃ user x, Users.usersByName (users_part s) !! name = Some user ∧ u = info user ∧
     x.(Session.Token) = tok ∧ x.(Session.UserID) = user.(User.ID) ∧ x.(Session.ExpiresAt) = clock e 21 + week ∧
     users_part s' = add_session x (users_part s)).

Lemma login_refused name r e s (P : Prop) m s1 :
  ¬ P → users_part s1 = users_part s → refusal m →
  ∀ resp s', yields (say m) s1 resp s' → login_result name r e s P resp s'.
Proof.
  intros HP E (status & msg & ->) resp s' [[= <-] <-]. split_and!; [|done|done]. split; [by intros (? & ? & ?)|done].
Qed.

(** A refusal with an entry in the audit log. *)
Lemma login_refused_audited name r e s (P : Prop) k action resource details res m :
  ¬ P → refusal m →
  ∃ resp s', yields (logAudit r e k action resource details res ;;; say m) s resp s' ∧ login_result name r e s P resp s'.
Proof.
  intros HP Hm. destruct (yields_logAudit r e k action resource details res s) as (s1 & Hl & E & _).
  exists (answered m), s1. split; [eapply yields_bind; [exact Hl|apply yields_ret]|].
  eapply (login_refused name r e s P m s1); [done..|apply yields_ret].
Qed.

(** C8: [handleAPILogin], given a name, a password and a code, always answers, and answers
    with a token exactly when there is a user of that name whose hash verifies the
    password, who need not change it, and who, if the second factor is on, gave the code of
    the period or one next to it, or an unused recovery code.  The token is that of a new
    session of that user, for seven days; a refusal changes no user and no session. *)
Theorem api_login_exact r name password totp e s b :
  method r = "POST" → token e = Some b → b ≠ [] →
  (∀ user, Users.usersByName (users_part s) !! name = Some user → Forall named (stored_codes user s)) →
  ∃ resp s', yields (handleAPILogin r (Some (name, password, totp)) e) s resp s' ∧
    login_result name r e s (may_log_in name password totp e s) resp s'.
Proof.
  intros Hm Ht Hb Hn. unfold handleAPILogin. rewrite Hm, (bool_decide_true ("POST" = "POST")) by done. cbn [negb].
  destruct (bool_decide (name = "") || bool_decide (password = "")) eqn:Eg.
  { do 2 eexists. split; [apply yields_ret|]. eapply login_refused; [|done|by do 2 eexists|apply yields_ret].
    intros (Hne & user & _ & Hv & _). unfold verifyPassword in Hv. apply orb_true_iff in Eg as [E|E]; apply bool_decide_eq_true in E;
      [done|]. rewrite (bool_decide_true (password = "")), orb_true_r in Hv by done. done. }
  apply orb_false_iff in Eg as [E1 _]. apply bool_decide_eq_false in E1.
  destruct (Users.usersByName (users_part s) !! name) as [user|] eqn:Eu.
  2: { assert (yields (on_users (UserService.GetByUsername name)) s
         (inr (UserService.not_found "users.GetByUsername" name (Store Prelude.ErrNotFound))) s) as Hf.
       { destruct s. split; [|done]. cbn in *. unfold call, ask, Users.GetUserByUsername. cbn. by rewrite Eu. }
       eapply yields_then; [exact Hf|]. apply login_refused_audited; [|by do 2 eexists].
       intros (_ & user & Hu & _). congruence. }
  assert (yields (on_users (UserService.GetByUsername name)) s (inl user) s) as Hf.
  { pose proof (yields_on_users _ s _ _ (yields_get_name name user (users_part s) Eu)) as Hf. by destruct s. }
  eapply yields_then; [exact Hf|]. cbv beta iota.
  assert (∀ P, (∀ user', Some user = Some user' → P user' → False) → ¬ (name ≠ "" ∧ ∃ u, Some user = Some u ∧ P u)) as Hno.
  { intros P HP (_ & u & [= <-] & Hu). by eapply (HP user). }
  destruct (verifyPassword (User.PasswordHash user) password) eqn:Ev; cbn [negb].
  2: { apply login_refused_audited; [|by do 2 eexists]. unfold may_log_in. rewrite Eu. apply Hno.
       intros u [= <-] (Hv & _). congruence. }
  destruct (User.MustChangePassword user) eqn:Ec.
  { apply login_refused_audited; [|by do 2 eexists]. unfold may_log_in. rewrite Eu. apply Hno.
    intros u [= <-] (_ & Hc & _). congruence. }
  destruct (api_second_factor_spec user name totp r e s (Hn user eq_refl)) as (refused & s1 & Hy & E & Hiff & Hr).
  eapply yields_then; [exact Hy|]. destruct refused as [a|].
  { do 2 eexists. split; [apply yields_ret|]. eapply login_refused; [|exact E|by apply Hr|apply yields_ret].
    unfold may_log_in. rewrite Eu. apply Hno. intros u [= <-] (_ & _ & Hs). by apply Hiff in Hs. }
  eapply yields_then; [by apply yields_create_session|]. cbv beta iota.
  set (x := new_session user r e b).
  match goal with |- context [logAudit r e 30 ?a ?b ?c ?d] =>
    destruct (yields_logAudit r e 30 a b c d (mkState (add_session x (users_part s1)) (security_part s1) (audit_part s1) (requiresSetup s1)))
      as (s2 & Hl & E2 & _) end.
  do 2 eexists. split; [eapply yields_bind; [exact Hl|apply yields_ret]|]. split_and!.
  - split; [|by do 2 eexists]. intros _. split; [done|]. exists user. split_and!; [done..|]. by apply Hiff.
  - by intros (? & ? & ?).
  - intros tok u [= <- <-]. exists user, x. split_and!; [done..|]. by rewrite E2, E.
Qed.

(** ** A recovery code works once *)

Lemma use_in_found id now codes c :
  c ∈ codes → c.(RecoveryCode.ID) = id → Security.unused c = true → NoDup (RecoveryCode.ID <$> codes) →
  ∃ l, Security.use_in id now codes = Ok l.
Proof.
  intros Hc Hid Hu Hnd. apply list_elem_of_split in Hc as (l1 & l2 & ->). exists (l1 ++ {| c with RecoveryCode.UsedAt := Some now |} :: l2).
  apply Security.use_in_spec. exists l1, c, l2. split_and!; [done..|].
  rewrite fmap_app, fmap_cons, NoDup_app in Hnd. destruct Hnd as (_ & Hnd & _). intros Hin. apply (Hnd id Hin). rewrite Hid. left.
Qed.

(** An unused code of any user can be used. *)
Lemma use_unused u codes c now s :
  Security.wf s → Security.recoveryCodes s !! u = Some codes → c ∈ codes → Security.unused c = true →
  ret (Security.UseRecoveryCode c.(RecoveryCode.ID) now s) = Ok tt.
Proof.
  intros Hw Hu Hc Hun. unfold Security.UseRecoveryCode.
  destruct (range_find (Security.has_code (RecoveryCode.ID c)) (Security.recoveryCodes s)) as [[u' codes']|] eqn:Ef.
  - apply range_find_Some in Ef as [Hu' Hh%Security.has_code_true]. apply list_elem_of_fmap in Hh as (c' & Hid & Hc').
    assert (u' = u) as -> by (symmetry; exact (Security.wf_code_user s Hw u u' codes codes' c c' Hu Hu' Hc Hc' Hid)).
    rewrite Hu in Hu'. injection Hu' as <-.
    destruct (use_in_found (RecoveryCode.ID c) now codes c Hc eq_refl Hun (Security.wf_code_ids s Hw u codes Hu)) as [l ->].
    done.
  - exfalso. eapply range_find_None in Ef; [|exact Hu]. apply not_true_iff_false in Ef. apply Ef, Security.has_code_true.
    by apply list_elem_of_fmap_2.
Qed.

Lemma spent_later id s1 s2 : rtc (Security.later id) s1 s2 → Security.spent id s1 → Security.spent id s2.
Proof. induction 1 as [|s s' s2 (R & c & Hg & ->) _ IH]; [done|]. intros Hs. by apply IH, (Security.spent_run id c s). Qed.

(** A run of a login that gave a token went through the second factor. *)
Lemma login_second_factor r name password totp e s resp s1 tok u :
  (∀ user, Users.usersByName (users_part s) !! name = Some user → Forall named (stored_codes user s)) →
  yields (handleAPILogin r (Some (name, password, totp)) e) s resp s1 → answer resp = JSON StatusOK (LoginResponse tok u) →
  ∃ user s0, Users.usersByName (users_part s) !! name = Some user ∧ yields (api_second_factor user name totp r e) s None s0 ∧
    security_part s1 = security_part s0.
Proof.
  intros Hn. unfold handleAPILogin. destruct (negb _); [by intros [[= <-] _]|]. destruct (_ || _); [by intros [[= <-] _]|].
  rewrite yields_sbind. intros (found & sa & Hf & Hy) Ha.
  destruct Hf as [Hf <-]. cbn in Hf. unfold UserService.GetByUsername, call, ask, Users.GetUserByUsername in Hf. cbn in Hf.
  destruct (Users.usersByName (users_part s) !! name) as [user|]; cbn in Hf; injection Hf as <-.
  2: { destruct (IsNotFound _); [|by destruct Hy as [[= <-] _]]. by destruct Hy as [[= <-] _]. }
  destruct (negb _); [by destruct Hy as [[= <-] _]|]. destruct (User.MustChangePassword user); [by destruct Hy as [[= <-] _]|].
  change (st (on_users (UserService.GetByUsername name) s)) with
    (mkState (users_part s) (security_part s) (audit_part s) (requiresSetup s)) in Hy.
  replace (mkState (users_part s) (security_part s) (audit_part s) (requiresSetup s)) with s in Hy by by destruct s.
  apply yields_sbind in Hy as (refused & s0 & Hy & Hy'). destruct refused as [a|]; [|exists user, s0].
  - destruct Hy' as [[= <-] _]. cbn in Ha. subst a.
    destruct (api_second_factor_spec user name totp r e s (Hn user eq_refl)) as (refused & s' & Hy' & _ & _ & Hr).
    destruct (yields_fun _ _ _ _ _ _ Hy Hy') as [<- _]. by destruct (Hr _ eq_refl) as (? & ? & ?).
  - split_and!; [done|exact Hy|]. apply yields_sbind in Hy' as (session & s2 & Hc & Hy').
    destruct Hc as [_ <-]. destruct session as [session|]; [|by destruct Hy' as [[= <-] _]].
    by destruct Hy' as [_ <-].
Qed.

(** A second factor given by a recovery code leaves the code spent. *)
Lemma recovery_code_spends user name totp r e s s0 :
  Security.wf (security_part s) → Forall named (stored_codes user s) → user.(User.TOTPEnabled) = true →
  verifyTOTP user.(User.TOTPSecret) totp (clock e 0) = Ok false → yields (api_second_factor user name totp r e) s None s0 →
  Security.spent (last_code_id (NormalizeRecoveryCode totp) (stored_codes user s)) (security_part s0).
Proof.
  intros Hw Hn Ht Hv Hy. unfold api_second_factor in Hy. rewrite Ht in Hy. cbn [negb] in Hy.
  destruct (bool_decide (totp = "")); [by destruct Hy|].
  apply yields_sbind in Hy as (v & s1 & Hv' & Hy). apply yields_ask in Hv' as [Hv' <-]. rewrite Hv in Hv'. injection Hv' as <-.
  apply yields_sbind in Hy as (codes & s1 & Hc & Hy). destruct (yields_fun _ _ _ _ _ _ Hc (yields_list_codes user s)) as [-> ->].
  cbv beta iota zeta in Hy.
  destruct (last_code_id_spec (NormalizeRecoveryCode totp) (stored_codes user s) Hn) as [[Hid _]|[Hid (c & Hin & Hm & Hcid)]].
  - rewrite Hid, bool_decide_true in Hy by done. apply yields_sbind in Hy as (? & ? & _ & Hy). by destruct Hy.
  - rewrite bool_decide_false in Hy by done. apply yields_sbind in Hy as (? & s2 & Hs & [_ <-]).
    change (st (sret None s2)) with s2.
    destruct (yields_spend_code user name (last_code_id (NormalizeRecoveryCode totp) (stored_codes user s)) r e s)
      as (s3 & Hs' & _ & E). destruct (yields_fun _ _ _ _ _ _ Hs Hs') as [_ <-]. rewrite E, <- Hcid.
    unfold matching in Hm. apply andb_true_iff in Hm as [Hu _]. unfold stored_codes, entry in Hin.
    destruct (Security.recoveryCodes (security_part s) !! User.ID user) as [codes|] eqn:Ec; [|by apply not_elem_of_nil in Hin].
    cbn in Hin.
    by destruct (Security.UseRecoveryCode_ok _ (clock e 1) _ Hw (use_unused _ codes c (clock e 1) _ Hw Ec Hin Hu))
      as (_ & _ & _ & _ & _ & _ & _ & _ & Hspent).
Qed.

(** C11: a recovery code opens the API once.  When a login succeeded with a code that is
    not the one of the period, then, whatever calls are made to the security part of the
    store that make no code with the identifier of the one used, the same text is no second
    factor for the user again as long as its hash is the only one it verifies and it is not
    the code of the period by chance; so the login is refused. *)
Theorem login_code_once r name password totp e s resp s1 tok u :
  Security.wf (security_part s) →
  yields (handleAPILogin r (Some (name, password, totp)) e) s resp s1 → answer resp = JSON StatusOK (LoginResponse tok u) →
  ∀ user, Users.usersByName (users_part s) !! name = Some user → Forall named (stored_codes user s) →
  user.(User.TOTPEnabled) = true → verifyTOTP user.(User.TOTPSecret) totp (clock e 0) = Ok false →
  let id := last_code_id (NormalizeRecoveryCode totp) (stored_codes user s) in
  ∀ s2 user' password' e', rtc (Security.later id) (security_part s1) (security_part s2) →
  Users.usersByName (users_part s2) !! name = Some user' → user'.(User.TOTPEnabled) = true →
  verifyTOTP user'.(User.TOTPSecret) totp (clock e' 0) = Ok false →
  (∀ c, c ∈ stored_codes user' s2 → VerifyPassword (NormalizeRecoveryCode totp) c.(RecoveryCode.CodeHash) = true →
   c.(RecoveryCode.ID) = id) →
  ¬ may_log_in name password' totp e' s2.
Proof.
  intros Hw Hy Ha user Hu Hn Ht Hv id s2 user' password' e' Hlater Hu' Ht' Hv' Honly.
  destruct (login_second_factor r name password totp e s resp s1 tok u) as (v & s0 & Hv0 & Hf & E); [|done..|].
  { intros v Hv0. by simplify_eq. }
  rewrite Hu in Hv0. injection Hv0 as <-. pose proof (recovery_code_spends user name totp r e s s0 Hw Hn Ht Hv Hf) as Hs.
  rewrite <- E in Hs. apply (spent_later _ _ _ Hlater) in Hs.
  intros (_ & w & Hw' & _ & _ & Hsf). rewrite Hu' in Hw'. injection Hw' as <-.
  destruct Hsf as [?|(_ & [?|(c & Hc & Hm)])]; [congruence|congruence|].
  unfold matching in Hm. apply andb_true_iff in Hm as [Hun Hm]. pose proof (Honly c Hc Hm) as Hid.
  unfold stored_codes, entry in Hc. destruct (Security.recoveryCodes (security_part s2) !! User.ID user') as [codes|] eqn:Ec;
    [|by apply not_elem_of_nil in Hc]. cbn in Hc. rewrite (Hs _ codes c Ec Hc Hid) in Hun. done.
Qed.

(** ** Changing one's own password *)

(** A user who gives the current password and a new one that meets the policy has it from
    then on, without the demand to change it and without any session. *)
Theorem change_password_effect r user v h e s :
  GetUserFromContext r = Some user → method r = "POST" →
  Users.wf (users_part s) → Users.users (users_part s) !! user.(User.ID) = Some v →
  verifyPassword user.(User.PasswordHash) (form r "current_password") = true →
  form r "new_password" = form r "confirm_password" → form r "current_password" ≠ form r "new_password" →
  Password.ValidatePassword (form r "new_password") = Ok tt → HashPassword (form r "new_password") = Some h →
  ∃ s', yields (handleChangePassword r e) s (answered (GoTo "/stats")) s' ∧
    has_record user.(User.ID) (with_password h (clock e 0) v) s' ∧ VerifyPassword (form r "new_password") h = true ∧
    logged_out user.(User.ID) (users_part s').
Proof.
  intros Hu Hm Hw Hv Hc Heq Hne Hp Hh. destruct (Users.wf_users _ Hw _ _ Hv) as [Hid _].
  pose proof (yields_on_users _ s _ _ (yields_update_password _ v (form r "new_password") h (clock e 0) _ Hw Hv Hp Hh)) as H3'.
  set (s1 := mkState _ _ _ _) in H3'.
  pose proof (yields_on_users _ s1 _ _ (yields_end_sessions (User.ID user) (clock e 1) (users_part s1))) as H4'.
  set (s2 := mkState _ _ _ _) in H4'.
  destruct (yields_audited r e 2 "password_change" "user" ("user: " +:+ User.Username user) "success" s2 (answered (GoTo "/stats")))
    as (s3 & H5' & E & _).
  exists s3. split_and!.
  - unfold handleChangePassword. rewrite Hu, Hm, Hc. cbn [negb bool_decide]. rewrite (bool_decide_true ("POST" = _)) by done. cbn [negb].
    rewrite <- Heq, (bool_decide_true (form r "new_password" = _)), (bool_decide_false (form r "current_password" = _)) by done.
    cbn [negb]. eapply yields_bind; [exact H3'|]. eapply yields_bind; [exact H4'|]. exact H5'.
  - rewrite <- Hid. eapply (has_record_put (with_password h (clock e 0) v) (users_part s)); by rewrite E.
  - by apply verify_hashed.
  - rewrite E. apply without_sessions_out.
Qed.

End runs.

(** * Examples *)

Section demo.
#[local] Existing Instance toy_bcrypt.
#[local] Existing Instance toy_codec.
#[local] Existing Instance toy_hmac.
#[local] Existing Instance range_in_key_order.

Definition demo_admin : User :=
  User.mk "u1" "alice" "#Corr3ct-Horse!" "alice@example.com" "admin" demo_secret true false 5 5.

Definition demo_store : Users.State := st (Users.CreateUser demo_admin 5 "" Users.empty).
Definition demo_codes : Security.State :=
  st (Security.SaveRecoveryCodes "u1" [RecoveryCode.mk "" "u1" "#ABCD2345" None 0; RecoveryCode.mk "" "u1" "#WXYZ6789" None 0] 5
        (λ i, "r" +:+ pretty i) Security.empty).
Definition demo_state : State := mkState demo_store demo_codes Ops.empty false.

Definition demo_now : time := (63000000000) * Second.
Definition demo_env : env :=
  mkEnv (λ _, demo_now) (λ i, "x" +:+ pretty i) (Some [1; 2; 3; 4]) demo_random true None.

Definition demo_request (m p : string) (c : context) : request :=
  mkRequest (Access.mkRequest m p c) (λ _, "") (λ _, "") "" "" "[::1]:4711" "agent" None None.
Definition demo_context : context := mkContext (Some "u1") None None.

Lemma demo_store_wf : Users.wf demo_store.
Proof. apply Users.wf_create_user; [apply Users.users_wf_empty|done]. Qed.

Lemma demo_codes_wf : Security.wf demo_codes.
Proof.
  apply Security.wf_save_codes; [apply Security.security_wf_empty| |].
  - intros i j E. by apply (inj pretty), (inj (String.append "r")).
  - by intros i (u & codes & c & Hu & _).
Qed.

(** The address of a client with an IPv6 address, and of one behind a proxy. *)
Lemma client_addresses :
  extractClientIP (demo_request "GET" "/" no_context) = "::1" ∧ SplitHost "10.0.0.1:80" = Some "10.0.0.1" ∧ SplitHost "::1:80" = None.
Proof. split_and!; vm_compute; reflexivity. Qed.

Lemma put_password_undone_witness :
  ∃ user' s', yields (handleUser (demo_request "PUT" "/api/v1/users/u1" demo_context) None (Some ("", "", "N3w-Passw0rd!")) demo_env)
      demo_state (answered (JSON StatusOK (StatusResponse "updated"))) s' ∧
    has_record "u1" user' s' ∧ user'.(User.PasswordHash) = "#Corr3ct-Horse!".
Proof.
  destruct (put_password_undone "u1" demo_admin "N3w-Passw0rd!" "#N3w-Passw0rd!" "" "" None demo_env demo_state)
    with (r := demo_request "PUT" "/api/v1/users/u1" demo_context) as (user' & s' & Hy & _ & Hr & Hh).
  - exact demo_store_wf.
  - vm_compute. reflexivity.
  - discriminate.
  - vm_compute. reflexivity.
  - reflexivity.
  - split_and!; [vm_compute; reflexivity|discriminate|vm_compute; reflexivity|vm_compute; reflexivity].
  - vm_compute. reflexivity.
  - left. reflexivity.
  - exists user', s'. split; [exact Hy|]. split; [exact Hr|exact Hh].
Defined.


Definition demo_login : request := demo_request "POST" "/api/v1/auth/login" no_context.

Lemma demo_codes_named user :
  Users.usersByName (users_part demo_state) !! "alice" = Some user → Forall named (stored_codes user demo_state).
Proof.
  intros Hu. assert (user = {| demo_admin with User.CreatedAt := 5; User.UpdatedAt := 5 |}) as ->.
  { vm_compute in Hu. injection Hu as <-. reflexivity. }
  vm_compute. repeat constructor; discriminate.
Qed.

Lemma api_login_exact_witness :
  ∃ resp s', yields (handleAPILogin demo_login (Some ("alice", "Corr3ct-Horse!", "abcd-2345")) demo_env) demo_state resp s' ∧
    ((∃ tok u, answer resp = JSON StatusOK (LoginResponse tok u)) ↔
     may_log_in "alice" "Corr3ct-Horse!" "abcd-2345" demo_env demo_state).
Proof.
  destruct (api_login_exact demo_login "alice" "Corr3ct-Horse!" "abcd-2345" demo_env demo_state [1; 2; 3; 4] eq_refl eq_refl
    ltac:(discriminate) demo_codes_named) as (resp & s' & Hy & Hiff & _).
  exists resp, s'. split; [exact Hy|exact Hiff].
Defined.

(** The state after a login with the first code. *)
Definition demo_after : State := st (handleAPILogin demo_login (Some ("alice", "Corr3ct-Horse!", "abcd-2345")) demo_env demo_state).

Lemma login_code_once_witness : ¬ may_log_in "alice" "Corr3ct-Horse!" "abcd-2345" demo_env demo_after.
Proof.
  refine (login_code_once demo_login "alice" "Corr3ct-Horse!" "abcd-2345" demo_env demo_state
    (answered (JSON StatusOK (LoginResponse "01020304" (info demo_admin)))) demo_after "01020304" (info demo_admin)
    demo_codes_wf _ eq_refl demo_admin _ _ eq_refl _ demo_after demo_admin "Corr3ct-Horse!" demo_env (rtc_refl _ _) _ eq_refl _ _).
  - split; [vm_compute; reflexivity|reflexivity].
  - vm_compute. reflexivity.
  - apply demo_codes_named. vm_compute. reflexivity.
  - vm_compute. reflexivity.
  - vm_compute. reflexivity.
  - vm_compute. reflexivity.
  - intros c Hc. assert (stored_codes demo_admin demo_after =
      [RecoveryCode.mk "r0" "u1" "#ABCD2345" (Some demo_now) 5; RecoveryCode.mk "r1" "u1" "#WXYZ6789" None 5]) as E
      by (vm_compute; reflexivity).
    rewrite E in Hc. apply elem_of_cons in Hc as [->|Hc]; [intros _; vm_compute; reflexivity|].
    apply list_elem_of_singleton in Hc as ->. vm_compute. discriminate.
Defined.

(** The page gives a session to a user who must change the password first; the session is
    as good as any other. *)
Lemma web_login_before_change :
  let bob := User.mk "u2" "bob" "#0ld-Passw0rd!!" "" "user" "" false true 5 5 in
  let s := mkState (st (Users.CreateUser bob 5 "" demo_store)) demo_codes Ops.empty false in
  let form k := if bool_decide (k = "username") then "bob" else if bool_decide (k = "password") then "0ld-Passw0rd!!" else "" in
  let r := mkRequest (Access.mkRequest "POST" "/login" no_context) form (λ _, "") "" "" "" "" None None in
  let o := handleLogin r demo_env s in
  ret o = Ok (mkResponse [mkCookie "01020304" 604800 true true] (GoTo "/change-password")) ∧
  validateSession "01020304" demo_now (users_part (st o)) = Ok "u2".
Proof. split; vm_compute; reflexivity. Qed.

End demo.
